(* ===== verification/_CoqProject ===== *)
-Q . S2P
Prelude.v
Rows.v
JsNumber.v
JsDate.v
Money.v
Policies.v
PaymentStatus.v
Payment.v
PaymentCorrect.v
Merchant.v
Ledger.v
LedgerCorrect.v
LedgerParams.v
LedgerParamsCorrect.v
Routing.v
RoutingCorrect.v
Subscription.v
SubscriptionCorrect.v
Payout.v
PayoutCorrect.v
ReserveCorrect.v
Dispute.v
Store.v
Checkout.v
CheckoutCorrect.v
Lifecycle.v
LifecycleCorrect.v
HistoryCorrect.v
DeliveryCorrect.v
Redis.v
Breaker.v
BreakerCorrect.v
Idempotency.v
IdempotencyCorrect.v
Shared.v
Delegation.v
DelegationCorrect.v
Reconciliation.v
ReconciliationCorrect.v
Bnpl.v
BnplCorrect.v
Decimal.v
Program.v
Outbox.v
OutboxCorrect.v
Sanctions.v
SanctionsCorrect.v
Accounts.v
AccountsCorrect.v
Paging.v
AccountsSweep.v
Rates.v
Risk.v
RiskCorrect.v
RiskSweep.v
RiskGuards.v
RiskRaces.v
Statement.v
StatementCorrect.v
StatementSweep.v
TaxForm.v
StatementRaces.v
Semaphore.v
Throttle.v
Crypto.v
Auth.v
AuthCorrect.v
AuthSessions.v
AuthRevocation.v
Signature.v
SignatureCorrect.v
ScaTracker.v
Url.v
PspAdapter.v
PspAdapterCorrect.v
PspAdapterRaces.v
Adapters.v
Retention.v
RetentionCorrect.v
