(* ===== verification/Prelude.v ===== *)
(** * OmniSwitch payment gateway

    A verification development for the payment gateway under [src/src]: a NestJS
    service that charges cards through several payment service providers, books
    every movement in a double-entry ledger, bills subscriptions, pays out
    connected merchants, and admits and screens those merchants. This file is its
    root: it documents the development and holds the shared vocabulary (results
    and errors, dates, automation, sums).

    ** The program and the files that model it

    The code is hexagonal: aggregates and pure policies under
    [modules/payment/domain], services that orchestrate them under
    [modules/payment/application/services], adapters behind ports, and the
    merchant accounts and their compliance under [modules/merchant].

    - [JsNumber], [JsDate]: the parts of the language the code computes with.
      [JsNumber] is IEEE-754 binary64 with round-to-nearest-even ([Num.mk] is the
      one rounding function), [JsDate] the UTC calendar of the ECMAScript
      specification. A [bigint] is a [Z].
    - [Money]: [currency.vo.ts] and [money.vo.ts].
    - [Policies]: [bin-info.vo.ts] and the decision functions of
      [domain/services] (decline codes, interchange, SCA exemptions, disputes,
      fees, chargeback tiers, tax record).
    - [PaymentStatus], [Payment]: [payment-status.vo.ts],
      [payment.aggregate.ts], [payment.events.ts]; proofs in [PaymentCorrect].
    - [Merchant]: the columns of [merchant.entity.ts] the payment core reads and
      the operations of [merchant.service.ts] that set fees, settlement currency
      and reserve policy. The account itself is in [Accounts].
    - [Ledger]: [ledger-outbox.aggregate.ts]; proofs in [LedgerCorrect].
    - [LedgerParams]: [charge-ledger-params-resolver.service.ts]; proofs in
      [LedgerParamsCorrect]. The merchant lookup, the month-to-date volume and
      the FX rates are the operations of the class [ChargePorts].
    - [Routing]: [smart-routing.strategy.ts]; proofs in [RoutingCorrect].
    - [Subscription]: [subscription.aggregate.ts], [plan.aggregate.ts] and the
      billing sweep, plan change and cancellation of
      [subscription.service.ts]; proofs in [SubscriptionCorrect].
    - [Payout]: [payout.aggregate.ts], [payout-sweep-run.aggregate.ts],
      [payout.service.ts], [reserve-hold.aggregate.ts], [reserve.service.ts]
      and the conditional updates of their repositories; proofs in
      [PayoutCorrect] and [ReserveCorrect].
    - [Checkout]: [payment-processor.factory.ts], [acquirer-routing.service.ts]
      and [payment-checkout.saga.ts], the composition of the files above into one
      charge; proofs in [CheckoutCorrect]. What the repositories, the providers
      and the caches answer in one run are the operations of the class
      [CheckoutPorts]; the saga is a program of a state monad with exceptions.
    - [Store]: that monad, over what the services of one payment write (row,
      ledger events, reserve holds, disputes, published events), with Hoare
      triples.
    - [Dispute], [Lifecycle]: [dispute.aggregate.ts],
      [payment-lifecycle.service.ts], [webhook-processing.service.ts],
      [ambiguous-payment.service.ts] and [dispute.service.ts]: what happens to a
      payment after its checkout. Each call finds its own answers of providers
      and database and its own view of the replica, from which webhooks read the
      payment and its disputes: the class [LifecyclePorts]. Proofs in [LifecycleCorrect]
      (each call keeps the books), [HistoryCorrect] (whole histories) and
      [DeliveryCorrect] (redelivery, races, completion, termination).
    - [Redis]: the commands of [redis-cache.adapter.ts] with expiring keys, and
      programs that issue them one at a time, alone or interleaved with others.
    - [Breaker]: [redis-circuit-breaker.service.ts] and
      [merchant-psp-exposure.service.ts]; proofs in [BreakerCorrect].
    - [Idempotency]: [idempotency.interceptor.ts]; proofs in
      [IdempotencyCorrect].
    - [Shared]: a logic for programs that share a state, with a ghost value per
      program, an invariant over all of them, and knowledge that survives what
      others do.
    - [Delegation]: [spend-policy.vo.ts], [delegation.aggregate.ts],
      [charge-approval.aggregate.ts], their repositories and services, and
      [PaymentController.charge]: agents that spend within a budget. Database
      calls are events, reads of delegations come from a replica that lags; the
      checkout saga is an event whose answer is a parameter. Proofs in
      [DelegationCorrect].
    - [Reconciliation]: [reconciliation.service.ts] with its discrepancy rows;
      proofs in [ReconciliationCorrect].
    - [Bnpl]: [bnpl-order.aggregate.ts] and [bnpl.service.ts], orders that a
      third party pays by instalments: each call of the database and of Klarna meets
      its own answer or failure, the record [weather]; proofs in [BnplCorrect].
    - [Rows], [Decimal]: tables rewritten row by row, JavaScript's stable sort, and
      decimal literals read as binary64.
    - [Program]: programs of several processes that issue calls to shared
      services, schedules of their calls, calls that fail, loops over pages, and a
      logic for a program that runs alone whatever fails.
    - [Outbox]: the transactional outbox, its relay and recovery; proofs in
      [OutboxCorrect].
    - [Sanctions]: [jaro-winkler.ts], [sanctions-list.store.ts],
      [sanctions-list-refresh.service.ts] and [ofac-sdn-sanctions.adapter.ts]: the
      list, the similarity of names and the verdict on one name; proofs in
      [SanctionsCorrect].
    - [Accounts]: [merchant.entity.ts] and the state-changing operations of
      [merchant.service.ts] (creation, onboarding, KYC decisions, suspension,
      compliance flags, settings), [sanctions-screening.service.ts], its
      dispatcher and the periodic sweep, as programs over the merchant table.
      Proofs in [AccountsCorrect] (each operation, every interleaving),
      [AccountsSweep] (the keyset-paged sweep, over the pages of [Paging]; witnesses and
      lost updates).
    - [Risk]: [risk-tiering.service.ts], [chargeback-monitoring.service.ts],
      [ambiguous-risk-monitoring.service.ts], [aml-review-monitoring.service.ts],
      their dispatchers, [reserve-policy-escalation.listener.ts] and the top-ups of
      [reserve.service.ts], over merchants, payments, disputes and reserve holds.
      Proofs in [RiskCorrect] (decisions and top-ups, with the binary64 rates of
      [Rates]), [RiskSweep] (the nightly tiering), [RiskGuards] (operators against
      automation) and [RiskRaces] (witnesses and lost decisions).
    - [Statement]: [merchant-statement.service.ts] with its aggregate, rows and monthly
      sweep, and the 1099-K service. Proofs in [StatementCorrect] (one statement, against
      the ledger and the payouts), [StatementSweep] (the sweeps), [TaxForm] (the 1099-K),
      [StatementRaces] (interleavings and concrete periods).
    - [Semaphore], [Throttle]: [semaphore.ts]; [redis-throttler-storage.service.ts] and
      the throttler guards.
    - [Crypto]: SHA-256, HMAC, hexadecimal and base64, executable, with test vectors.
    - [Auth]: [auth.controller.ts], [mfa.service.ts], [jwt.strategy.ts],
      [token-revocation.service.ts] and the JWT and roles guards; bcrypt, encryption and
      one-time passwords are the operations of the classes [Bcrypt] and [AuthWorld].
      Proofs in [AuthCorrect] (factors), [AuthSessions] (backup codes) and
      [AuthRevocation].
    - [Signature]: the HMAC guard of signed requests, the guards of the provider webhooks
      and the signing of outgoing notifications; proofs in [SignatureCorrect].
    - [ScaTracker]: [sca-exemption-tracker.service.ts].
    - [Url], [PspAdapter]: percent-encoding; [stripe-psp.adapter.ts] and
      [adyen-psp.adapter.ts] with [psp-fee-schedule.service.ts], over the breaker of
      [Breaker] and the network. Proofs in [PspAdapterCorrect] (what an adapter reports, and
      the adapters behind the fallback chain of [Checkout]) and
      [PspAdapterRaces] (witnesses and runs that charge twice).
    - [Adapters]: the bank rails, Klarna, the FX source and
      [psp-cost-reconciliation.service.ts], with their proofs.
    - [Retention]: [run-archiving-job.ts], [run-deletion-job.ts] and
      [legal-hold.service.ts], statement by statement; proofs in [RetentionCorrect].

    ** How the model reads

    A class is a [Record] of its private fields in a [Module] of its name, a
    method a function to the updated record. A method that can throw returns
    [result]: [Ok] or [Throw] of a [js_error], one constructor per reason. Every
    [new Date()] of one call is the argument [now]. A database row is the
    aggregate; an [UPDATE ... WHERE] is a function on the row that says whether
    it matched. Ports (PSP, bank, FX, repositories) are arguments: functions, or
    the class [ChargePorts]; a failing call is [Throw (ExternalFailure _)], and a
    process that dies half-way is a [crash] argument. Log lines are not modelled.

    ** What the theorems show

    - Payments: every mutating call refines an abstract automaton over status,
      refunded and captured totals; refunds and captures never exceed the
      amount; each operation is specified on every branch; the emitted events
      replay the status history; terminal states are final.
    - Ledger: the constructor accepts exactly the balanced entry lists; a charge
      pays exactly its recipients, a refund debits exactly their shares, to the
      minor unit, across currencies and roundings; partial refunds never debit
      a recipient more than it was paid.
    - Charge parameters: whatever the resolver accepts can be booked, and later
      refunded; it refuses only for the splits.
    - Money: the binary64 path of [Money.multiply] rounds to the nearest minor
      unit, [Money.of] inverts [Money.amount].
    - Routing: the candidate set, the score range, and the decision.
    - Subscriptions: the sweep charges when the period is over and no retry is
      pending, at most once and the price less the credit, and moves the period exactly
      when it was paid; dunning is bounded and spaced, credits are conserved, calendar arithmetic is
      exact, and stored subscriptions are well formed under failing saves.
    - Payouts: a sweep pays exactly the positive window balances; the windows cover
      the ledger up to the events written behind the end of a window; of the transfers
      the bank accepted there is at most one per payout while calls follow one another;
      the reserve account carries exactly what the hold says.
    - Checkout: the provider chain never charges a second provider while the
      outcome at the first is unknown; a run books the ledger exactly when it
      stores and returns SUCCEEDED, whichever port fails; with working ports it
      returns what the provider answered.
    - The life of a payment: over any history of service calls that starts with
      a checkout, the settlement account of the ledger carries what the row says
      was paid less what was refunded, also when refunds and captures work on
      old reads (webhooks with a current replica and a writable dispute table); a
      webhook delivered again right away changes nothing, and one that ended a charge
      changes nothing however late; captures and refunds the
      provider made are booked; automatic resolution ends.
    - Circuit breaker: it opens exactly at its threshold, always recovers when
      its calls run one after the other, probes a recovering provider with one
      call under every interleaving, and its metrics are those of the log.
    - Idempotency: a request is executed once and then replayed; under every
      interleaving at most one handler executes while the lock lasts.
    - Delegations: under every interleaving within a calendar month, what an
      agent charged and what waits for approval stay within the monthly limit, up to
      what updates that changed no row, reported as made, let through;
      an approval is decided once, its charge runs at most once; a reservation is
      exact on every branch; rows round-trip.
    - BNPL: under every history of order calls that read a current replica, whatever
      Klarna answers to each request and whichever calls fail, the ledger of an order
      carries exactly what its row says was captured and refunded, up to the ledger
      events whose own write failed.
    - Reconciliation: a run reports exactly the discrepancies between the
      settlement report and the stored payments.
    - Outbox: under every interleaving of replicas and all failures a row is marked
      PUBLISHED only after its event was published; once the calls work, every row is.
    - Sanctions: the verdict on a name is HIT exactly when its normalised form is on
      the list and CLEAR exactly when every similarity is below the threshold.
    - Merchant accounts: under every interleaving and all failures the rows stay well
      formed, the name a merchant is stored under was screened and is no HIT of its
      screening, and behind VERIFIED stands an approval of the stored application;
      the weekly sweep screens every active merchant once.
    - Risk: tiers computed in doubles are those of exact arithmetic; with the default
      thresholds and reserves the replica shows as they are, the tiering sweep gives every merchant it manages the policy of its tier, raises exactly the held
      reserves it must and books the difference, and is idempotent; monitors that run
      one after the other never change what an operator has taken over.
    - Statements: over ordinary charges, captures and refunds a statement says exactly
      how many there were, their sums, fees and net; it reconciles with
      the payouts of the same window, and never changes once it was issued, under every
      interleaving and all failures.
    - Access: a token of a full session needs every factor of its login, a backup code
      works once while requests follow one another, a revoked token stays out (of a
      merchant-wide revocation: one that expires within seven days); a signed request
      passes exactly when it is fresh and signed with the key of the merchant its header
      names or of its agent's delegation; the rate
      limit holds in every window; the bulkhead serves its callers in their order.
    - Providers: an adapter sends one request and reports what the provider said, an
      unknown outcome as unknown; behind the fallback chain all but one of the providers
      asked answered their last request with an error, while Redis and the answers can be
      read and the retry is let through.
    - Retention: under every interleaving and all failures a record leaves the database
      only with a backup, while no two sessions place a hold on one payment; a payment
      under a hold stays live as long as sessions follow one another.
    - Where the code falls short of this, a theorem exhibits it:
      [sweeps_can_overpay], [concurrent_transfers_both_sent],
      [stale_top_up_releases_twice], [paid_period_marked_past_due],
      [fallback_provider_not_stored], [routing_history_outage],
      [stale_confirmation_books_twice], [cancel_loses_capture],
      [dispute_redelivery_sticks], [lost_expire_locks_out],
      [reset_race_locks_out], [late_lock_executes_twice],
      [lost_request_blocks_key], [unmatched_update_passes],
      [late_denial_raises_limit], [outage_frees_charged_budget],
      [bnpl_lost_booking], [bnpl_over_refund_paid],
      [straddling_charge_reported_twice], [replicas_publish_twice],
      [submission_undoes_termination], [sweep_forgets_match],
      [automatic_flag_keeps_operator], [sweep_overrides_operator],
      [lagging_replica_overrides_operator], [failed_top_up_forgotten],
      [reserve_missing_from_gross], [converted_gross_adds_currencies],
      [full_split_counted_direct], [late_loss_on_no_statement],
      [repeated_request_fails], [backup_code_used_twice],
      [merchant_revocation_lapses], [agent_enrols_second_factor],
      [fresh_login_refused], [signed_payload_ambiguous], [foreign_key_passes],
      [unknown_merchant_passes], [placeholder_key_forgeable],
      [rolled_secret_refused], [unrecorded_success_charges_twice],
      [unrecorded_failure_hides_timeout], [cut_off_answer_charges_twice],
      [opened_circuit_charges_twice], [looked_up_authorisation_misread],
      [card_token_dropped], [capture_does_not_close_circuit],
      [hold_lost_while_archiving], [refund_lost_while_archiving],
      [second_hold_deletes], [archive_forgets_tax], [archived_charge_unreported],
      [lagging_replica_books_twice], [unanswered_transfer_sent_again],
      [bnpl_fees_exceed], [bnpl_lagging_refund_paid_twice], [fresh_hold_not_raised].

    ** Bounds

    Everything is total and structurally recursive. The loops whose length depends
    on what other processes do take fuel, and a theorem says how much is enough:
    the sweeps over merchants read pages of 50, and end when the table has fewer than
    50 rows per unit of fuel; so do the statement and tax sweeps. A program over Redis is a finite tree, so running it
    ends. The theorems about
    interleavings hold for any number of requests, and for the time the expiry in
    question allows: 30 s for the trial budget and for the idempotency lock.
    Results about amounts that go through [Number] assume at most [2^53] minor
    units (above that a double no longer represents every integer), the
    nearest-unit theorem at most 150 billion. Rates are at most 10 000 basis
    points, which the request validation enforces. Names and fetched sanctions lists
    are at most [2^39] characters (V8's strings are shorter), the match threshold
    is in (0, 1]. A tier is exact for up to [2^45] payments and [2^36] disputes, a signature
    timestamp for clocks up to [2^43] ms. Strings are byte strings, so case mapping is that
    of ASCII.

    ** Not modelled

    Controllers and DTO validation (routing and declarative rules of the framework, except
    where a service relies on them), object-relational mapping (a row is the aggregate;
    conditional updates and queries that decide anything are modelled with their service),
    the text of notifications and their delivery, migrations and partitions, health checks,
    tracing, dependency injection and cron wrappers, and the mock provider used in tests. The
    creation of plans and subscriptions is left out of the subscriptions, the texts of
    money out of the money type. In [Checkout], [Lifecycle] and [Bnpl] a transaction that
    fails has no effect: a commit whose acknowledgement is lost is modelled where calls fail
    before or after their effect ([Outbox], [Accounts], [Auth], [Statement], [Retention]). Bcrypt, TOTP and encryption are library code and
    parameters. *)

From Stdlib Require Export ZArith Lia Bool Ascii.
From stdpp Require Export base tactics option list strings gmap.
From coqutil Require Export Datatypes.RecordSetters.
Export DoubleBraceUpdate.

Open Scope Z_scope.

Arguments constant {_} _ / _.

(** ** Dates

    A JavaScript [Date] is its time value: milliseconds since the epoch. *)
Abbreviation Date := Z (only parsing).

(** ** Errors thrown by the modelled code

    One constructor per [throw] site (or per group of sites that throw the same
    class with the same meaning); the arguments are the values the message
    interpolates. *)
Inductive js_error :=
  (* language and standard library *)
  | RangeError (what : string)
  | SyntaxError (what : string)
  | TypeError (what : string)
  (* a database, HTTP or queue call that failed *)
  | ExternalFailure (what : string)
  (* NestJS exceptions, by status and machine-readable code *)
  | HttpException (status : Z) (code : string)
  (* an error of a PSP adapter, with the two properties the routing reads *)
  | PspError (isAmbiguousOutcome : bool) (statusCode : option Z) (what : string)
  | NoAdapterRegistered (provider : string)
  | CircuitOpen (provider : string)
  (* a plain [Error] of the domain, by what is wrong *)
  | DomainError (what : string)
  (* currency.vo.ts, money.vo.ts *)
  | InvalidCurrencyCode (code : string)
  | InvalidAmount
  | NegativeAmount (amount : Z)
  | NegativeSubtraction (left right : Z)
  | CurrencyMismatch (left right : string)
  (* bin-info.vo.ts *)
  | InvalidBin (bin : string)
  (* payment-status.vo.ts, payment.aggregate.ts *)
  | InvalidTransition (from to : string)
  | CannotCapture (status : string)
  | CaptureExceedsRemaining (amount remaining : Z)
  | CannotRefund (status : string)
  | RefundExceedsRemaining (amount : Z)
  (* ledger-outbox.aggregate.ts *)
  | DoubleEntryImbalance (currency : string) (debits credits : Z)
  (* smart-routing.strategy.ts *)
  | PreferredProviderNotEntitled (provider : string)
  | NoAvailableProvider (currency country : string)
  (* subscription.aggregate.ts *)
  | PlanCurrencyMismatch (from to : string)
  (* an aggregate's guard: the operation and the reason *)
  | Refused (operation reason : string).

(** ** The error monad: a method that may throw *)
Inductive result (A : Type) : Type :=
  | Ok (a : A)
  | Throw (e : js_error).
Arguments Ok {A} a.
Arguments Throw {A} e.

#[export] Instance result_ret : MRet result := @Ok.
#[export] Instance result_bind : MBind result := λ A B f m,
  match m with Ok a => f a | Throw e => Throw e end.
#[export] Instance result_fmap : FMap result := λ A B f m,
  match m with Ok a => Ok (f a) | Throw e => Throw e end.

(** [if (cond) throw new Error(...)] *)
Definition throw_if (cond : bool) (e : js_error) : result unit :=
  if cond then Throw e else Ok tt.

Definition is_ok {A} (r : result A) : bool :=
  match r with Ok _ => true | Throw _ => false end.

(** ** JavaScript idioms *)

(** [opt ?? default] *)
Definition nullish {A} (o : option A) (d : A) : A :=
  match o with Some a => a | None => d end.

(** Truthiness of a [string | undefined]: defined and not empty. *)
Definition truthy (o : option string) : bool :=
  match o with Some s => negb (String.eqb s "") | None => false end.

Definition isSome {A} (o : option A) : bool :=
  match o with Some _ => true | None => false end.

(** [array.includes(x)] on strings *)
Definition includes (l : list string) (s : string) : bool :=
  existsb (String.eqb s) l.

(** ** Automation *)

Create HintDb omni.
Create Rewrite HintDb omni.
#[export] Hint Constants Opaque : omni.
#[export] Hint Variables Opaque : omni.

(** Reflects boolean tests on [Z] and [string] into propositions. *)
Ltac reflect_tests :=
  repeat match goal with
  | H : _ && _ = true |- _ => apply andb_true_iff in H; destruct H
  | H : _ || _ = false |- _ => apply orb_false_iff in H; destruct H
  | H : negb _ = true |- _ => apply negb_true_iff in H
  | H : negb _ = false |- _ => apply negb_false_iff in H
  | H : (_ <? _) = true |- _ => apply Z.ltb_lt in H
  | H : (_ <? _) = false |- _ => apply Z.ltb_ge in H
  | H : (_ <=? _) = true |- _ => apply Z.leb_le in H
  | H : (_ <=? _) = false |- _ => apply Z.leb_gt in H
  | H : (_ =? _) = true |- _ => apply Z.eqb_eq in H
  | H : (_ =? _) = false |- _ => apply Z.eqb_neq in H
  | H : String.eqb _ _ = true |- _ => apply String.eqb_eq in H
  | H : String.eqb _ _ = false |- _ => apply String.eqb_neq in H
  end.

(** Takes apart a hypothesis that says a monadic computation returned. *)
Ltac inv_ok_step :=
  match goal with
  | H : Ok (_, _) = Ok (_, _) |- _ => injection H; clear H; intros; try subst
  | H : Ok _ = Ok _ |- _ => injection H as H; try subst
  | H : Ok _ = Throw _ |- _ => discriminate H
  | H : Throw _ = Ok _ |- _ => discriminate H
  | H : Throw _ = Throw _ |- _ => injection H as H; try subst
  | H : mret _ = _ |- _ => unfold mret, result_ret in H
  | H : throw_if ?b _ = Ok _ |- _ =>
      let E := fresh "E" in destruct b eqn:E; cbn [throw_if] in H
  | H : mbind _ ?m = Ok _ |- _ =>
      let E := fresh "E" in
      destruct m eqn:E; cbn [mbind result_bind] in H; [| discriminate H]
  | H : fmap _ ?m = Ok _ |- _ =>
      let E := fresh "E" in
      destruct m eqn:E; cbn [fmap result_fmap] in H; [| discriminate H]
  | H : (if ?b then _ else _) = Ok _ |- _ =>
      let E := fresh "E" in destruct b eqn:E
  | H : match ?o with Some _ => _ | None => _ end = Ok _ |- _ =>
      let E := fresh "E" in destruct o eqn:E
  end.
Ltac inv_ok := repeat (inv_ok_step; cbv beta in *).

(** ** Generic lemmas *)

Lemma bind_ok_iff {A B} (m : result A) (k : A → result B) b :
  (m ≫= k) = Ok b ↔ ∃ a, m = Ok a ∧ k a = Ok b.
Proof. destruct m; cbn; naive_solver. Qed.

Lemma throw_if_ok b e u : throw_if b e = Ok u ↔ b = false.
Proof. destruct b, u; cbn; naive_solver. Qed.

Lemma includes_In l s : includes l s = true ↔ In s l.
Proof.
  unfold includes. rewrite existsb_exists. split.
  - intros (x & Hin & ->%String.eqb_eq). done.
  - intros H. exists s. split; [done | apply String.eqb_refl].
Qed.

Lemma string_length_app (a b : string) : String.length (a ++ b)%string = (String.length a + String.length b)%nat.
Proof.
  induction a as [|c a IH]; [done|].
  change (String c a ++ b)%string with (String c (a ++ b)). cbn [String.length Nat.add]. by rewrite IH.
Qed.

Lemma append_same_length (a a' b b' : string) :
  String.length b = String.length b' → (a ++ b = a' ++ b')%string → a = a' ∧ b = b'.
Proof.
  intros Hl H. assert (String.length a = String.length a') as Ha.
  { apply (f_equal String.length) in H. rewrite !string_length_app in H. lia. }
  clear Hl. revert a' Ha H. induction a as [|c a IH]; intros [|c' a'] Ha H; try done.
  change (String c (a ++ b) = String c' (a' ++ b'))%string in H. injection Ha as Ha. injection H as -> H.
  by destruct (IH a' Ha H) as [-> ->].
Qed.

(** Sums of integers over a list. *)
Fixpoint sumZ {A} (f : A → Z) (l : list A) : Z :=
  match l with [] => 0 | x :: l => f x + sumZ f l end.

Lemma sumZ_app {A} (f : A → Z) l1 l2 : sumZ f (l1 ++ l2) = sumZ f l1 + sumZ f l2.
Proof. induction l1; cbn; lia. Qed.

Lemma sumZ_nonneg {A} (f : A → Z) l : (∀ x, In x l → 0 ≤ f x) → 0 ≤ sumZ f l.
Proof.
  induction l as [|x l IH]; cbn; intros H; [lia|].
  pose proof (H x (or_introl eq_refl)). specialize (IH (λ y Hy, H y (or_intror Hy))). lia.
Qed.

Lemma sumZ_Permutation {A} (f : A → Z) l1 l2 : l1 ≡ₚ l2 → sumZ f l1 = sumZ f l2.
Proof. induction 1; cbn; lia. Qed.

Lemma sumZ_zero {A} (f : A → Z) l : (∀ x, x ∈ l → f x = 0) → sumZ f l = 0.
Proof.
  induction l as [|x l IH]; intros H; cbn [sumZ]; [done|].
  rewrite (H x) by by left. rewrite IH; [done|]. intros y Hy. apply H. by right.
Qed.

Lemma sumZ_ext {A} (f g : A → Z) l : (∀ x, x ∈ l → f x = g x) → sumZ f l = sumZ g l.
Proof.
  induction l as [|x l IH]; intros H; cbn [sumZ]; [done|].
  rewrite (H x) by by left. rewrite IH; [done|]. intros y Hy. apply H. by right.
Qed.

Lemma sumZ_filter {A} (P : A → Prop) `{!∀ x, Decision (P x)} (f : A → Z) l :
  sumZ f (filter P l) = sumZ (λ x, if decide (P x) then f x else 0) l.
Proof. induction l as [|x l IH]; [done|]. rewrite filter_cons. cbn [sumZ]. case_decide; cbn [sumZ]; lia. Qed.

(** With distinct keys only one element of a sum counts. *)
Lemma sumZ_unique {A B} (key : A → B) (f : A → Z) l x :
  NoDup (key <$> l) → x ∈ l → (∀ y, y ∈ l → key y ≠ key x → f y = 0) → sumZ f l = f x.
Proof.
  induction l as [|y l IH]; intros Hnd Hin Hf; [by apply elem_of_nil in Hin|].
  apply NoDup_cons in Hnd as [Hy Hnd]. cbn [sumZ]. apply elem_of_cons in Hin as [<-|Hin].
  - rewrite sumZ_zero; [lia|]. intros z Hz. apply Hf; [by right|].
    intros E. apply Hy. rewrite <- E. by apply list_elem_of_fmap_2.
  - rewrite (Hf y); [|by left|].
    + apply IH; [done..|]. intros z Hz. apply Hf. by right.
    + intros E. apply Hy. rewrite E. by apply list_elem_of_fmap_2.
Qed.

#[export] Hint Rewrite @sumZ_app : omni.

(** Reflexive-transitive closure of a step relation, for reachability. *)
Definition invariant {A} (step : A → A → Prop) (I : A → Prop) : Prop :=
  ∀ x y, step x y → I x → I y.

Lemma invariant_rtc {A} (step : A → A → Prop) I x y :
  invariant step I → rtc step x y → I x → I y.
Proof. intros Hinv. induction 1; eauto. Qed.
