(* ===== verification/Rows.v ===== *)
(** * Tables of rows with ids

    A loop that rewrites rows one after the other, each found by its id, has rewritten
    exactly the rows of the ids it has passed. *)

From Stdlib Require Import Sorted.
From S2P Require Import Prelude.

Section rows.
Context {A : Type} (id : A → string) (treat : A → A) (treat_id : ∀ r, id (treat r) = id r).
Implicit Types (r m : A) (rows : list A) (ids : list string).

Lemma keyed_unique rows r r' : NoDup (id <$> rows) → r ∈ rows → r' ∈ rows → id r = id r' → r = r'.
Proof.
  intros Hn Hr Hr' He. apply list_elem_of_lookup in Hr as [i Hi]. apply list_elem_of_lookup in Hr' as [j Hj].
  assert (i = j) as ->; [|congruence]. eapply NoDup_lookup; [exact Hn| |]; rewrite list_lookup_fmap; [by rewrite Hi|by rewrite Hj, He].
Qed.

(** The rows after one was rewritten. *)
Definition treatRow m rows : list A := (λ r, if String.eqb (id r) (id m) then treat m else r) <$> rows.

(** The rows when those with these ids have been rewritten. *)
Definition sweepRows ids rows : list A := (λ r, if decide (id r ∈ ids) then treat r else r) <$> rows.

Lemma sweepRows_nil rows : sweepRows [] rows = rows.
Proof. unfold sweepRows. rewrite <- (list_fmap_id rows) at 2. apply list_fmap_ext. intros i r _. rewrite decide_False; [done|apply not_elem_of_nil]. Qed.

Lemma sweepRows_ids ids rows : id <$> sweepRows ids rows = id <$> rows.
Proof. unfold sweepRows. rewrite <- list_fmap_compose. apply list_fmap_ext. intros i r _. cbn. case_decide; [apply treat_id|done]. Qed.

Lemma sweepRows_elem ids rows m : m ∈ rows → id m ∉ ids → m ∈ sweepRows ids rows.
Proof. intros Hm Hid. apply list_elem_of_fmap. exists m. by rewrite decide_False. Qed.

Lemma sweepRows_snoc ids rows m : NoDup (id <$> rows) → m ∈ rows → id m ∉ ids → treatRow m (sweepRows ids rows) = sweepRows (ids ++ [id m]) rows.
Proof.
  intros Hn Hm Hid. unfold treatRow, sweepRows. rewrite <- list_fmap_compose. apply list_fmap_ext. intros i r Hr%list_elem_of_lookup_2. unfold compose.
  destruct (decide (id r ∈ ids)) as [Hin|Hout].
  - rewrite decide_True by (apply elem_of_app; by left). rewrite treat_id. destruct (String.eqb_spec (id r) (id m)); [congruence|done].
  - destruct (String.eqb_spec (id r) (id m)) as [He|Hne].
    + rewrite (keyed_unique rows r m) by done. rewrite decide_True; [done|]. apply elem_of_app. right. left.
    + rewrite decide_False; [done|]. intros [?|H%list_elem_of_singleton]%elem_of_app; done.
Qed.

Lemma treatRow_same m rows : NoDup (id <$> rows) → m ∈ rows → treat m = m → treatRow m rows = rows.
Proof.
  intros Hn Hm Ht. unfold treatRow. rewrite <- (list_fmap_id rows) at 2. apply list_fmap_ext. intros i r Hi%list_elem_of_lookup_2.
  destruct (String.eqb_spec (id r) (id m)) as [He|]; [|done]. rewrite Ht. symmetry. by apply (keyed_unique rows).
Qed.

(** Rewriting the rows of a part of the table. *)
Lemma sweepRows_part (P : A → bool) l rows : NoDup (id <$> rows) → (∀ r, r ∈ l ↔ r ∈ rows ∧ P r = true) →
  sweepRows (id <$> l) rows = (λ r, if P r then treat r else r) <$> rows.
Proof.
  intros Hn Hl. apply list_fmap_ext. intros i m Hm%list_elem_of_lookup_2. destruct (P m) eqn:Ep.
  - rewrite decide_True; [done|]. apply list_elem_of_fmap_2, Hl. done.
  - rewrite decide_False; [done|]. intros (x & He & [Hx Hpx]%Hl)%list_elem_of_fmap. rewrite (keyed_unique rows m x) in Ep by done. congruence.
Qed.
End rows.

(** * Sorted queries

    [ORDER BY key ASC] as a stable insertion sort, with what queries rely on: it
    permutes, it sorts, it commutes with [WHERE]. *)

(** *** Filters *)

Lemma filter_none {A} (P : A → Prop) `{∀ x, Decision (P x)} (l : list A) : (∀ x, x ∈ l → ¬ P x) → filter P l = [].
Proof.
  induction l as [|x l IH]; intros Hl; [done|]. rewrite filter_cons_False by (apply Hl; left). apply IH. intros y Hy. apply Hl. by right.
Qed.

Lemma filter_every {A} (P : A → Prop) `{∀ x, Decision (P x)} (l : list A) : (∀ x, x ∈ l → P x) → filter P l = l.
Proof.
  induction l as [|x l IH]; intros Hl; [done|]. rewrite filter_cons_True by (apply Hl; left). f_equal. apply IH. intros y Hy. apply Hl. by right.
Qed.

Section sort.
Context {A : Type} (leb : A → A → bool).

Fixpoint insertBy (x : A) (l : list A) : list A :=
  match l with [] => [x] | y :: l' => if leb x y then x :: l else y :: insertBy x l' end.

Definition orderBy (l : list A) : list A := foldr insertBy [] l.

Lemma insertBy_elem x y l : x ∈ insertBy y l ↔ x = y ∨ x ∈ l.
Proof. induction l as [|z l IH]; cbn; [set_solver|]. destruct (leb y z); set_solver. Qed.

Lemma orderBy_elem x l : x ∈ orderBy l ↔ x ∈ l.
Proof. induction l as [|y l IH]; cbn; [done|]. rewrite insertBy_elem, IH. set_solver. Qed.

Lemma orderBy_perm l : orderBy l ≡ₚ l.
Proof.
  assert (∀ x l, insertBy x l ≡ₚ x :: l) as Hi.
  { clear. intros x l. induction l as [|y l IH]; [done|]. cbn. destruct (leb x y); [done|]. rewrite IH. constructor. }
  induction l as [|y l IH]; [done|]. cbn. by rewrite Hi, IH.
Qed.

(** *** A total preorder *)

Context (leb_total : ∀ x y, leb x y = true ∨ leb y x = true) (leb_trans : ∀ x y z, leb x y = true → leb y z = true → leb x z = true).

Abbreviation ordered := (StronglySorted (λ x y, leb x y = true)).

Lemma insertBy_ordered x l : ordered l → ordered (insertBy x l).
Proof.
  induction l as [|y l IH]; intros Hs; cbn; [repeat constructor|]. apply StronglySorted_inv in Hs as [Hs Hy]. rewrite List.Forall_forall in Hy.
  destruct (leb x y) eqn:Hxy.
  - constructor; [constructor; [done|by apply List.Forall_forall]|]. constructor; [done|]. apply List.Forall_forall. intros z Hz. eauto.
  - constructor; [by apply IH|]. apply List.Forall_forall. intros z Hz%list_elem_of_In%insertBy_elem.
    destruct Hz as [->|Hz]; [by destruct (leb_total x y); congruence|]. by apply Hy, list_elem_of_In.
Qed.

Lemma orderBy_ordered l : ordered (orderBy l).
Proof. induction l as [|x l IH]; [constructor|]. by apply insertBy_ordered. Qed.

Context (P : A → Prop) `{∀ x, Decision (P x)}.

Lemma filter_insertBy x l : ordered l → filter P (insertBy x l) = if decide (P x) then insertBy x (filter P l) else filter P l.
Proof.
  induction l as [|y l IH]; intros Hs; cbn [insertBy].
  - rewrite filter_cons. by case_decide.
  - apply StronglySorted_inv in Hs as [Hs Hy]. rewrite List.Forall_forall in Hy. destruct (leb x y) eqn:Hxy.
    + rewrite (filter_cons _ x). case_decide; [|done]. rewrite filter_cons. case_decide; cbn [insertBy]; [by rewrite Hxy|].
      destruct (filter P l) as [|z l'] eqn:Ef; [done|]. cbn.
      assert (z ∈ filter P l) as Hz by (rewrite Ef; left). apply list_elem_of_filter in Hz as [_ Hz%list_elem_of_In].
      by rewrite (leb_trans x y z Hxy (Hy z Hz)).
    + rewrite !filter_cons, IH by done. repeat case_decide; try done. cbn. by rewrite Hxy.
Qed.

Lemma filter_orderBy l : filter P (orderBy l) = orderBy (filter P l).
Proof.
  induction l as [|x l IH]; [done|]. cbn [orderBy foldr]. fold (orderBy l).
  rewrite filter_insertBy by apply orderBy_ordered. rewrite filter_cons, IH. by case_decide.
Qed.
End sort.
