(* ===== verification/JsNumber.v ===== *)
(** * JavaScript's [Number]: IEEE-754 binary64

    Every finite double is an integer multiple of the least subnormal [2^-1074],
    so a finite number is represented by that integer: the representation is
    canonical, comparison and exact addition are those of [Z], and one rounding
    function (round to nearest, ties to even, on 53 significant bits) serves the
    four operations. Overflow gives an infinity and invalid operations give NaN.
    The two zeros are identified: the code modelled here never divides by a
    negative zero nor prints one. *)

From S2P Require Import Prelude.

Module Num.

(** The value [1], in units of [2^-1074]. *)
Definition one : Z := 2 ^ 1074.

(** The least magnitude that overflows, [2^1024], in the same units. *)
Definition overflow : Z := 2 ^ 2098.

Inductive number :=
  | NaN
  | PosInf
  | NegInf
  | Fin (k : Z).

#[global] Instance number_eq_dec : EqDecision number.
Proof. solve_decision. Defined.

(** ** Rounding *)

(** Nearest integer to [n/d], ties to even ([0 < d]). *)
Definition div_rne (n d : Z) : Z :=
  let q := n / d in
  match 2 * (n mod d) ?= d with
  | Lt => q
  | Gt => q + 1
  | Eq => if Z.even q then q else q + 1
  end.

(** Number of low bits a value of integer part [f] loses at 53 bits. *)
Definition shift_of (f : Z) : Z := Z.max 0 (Z.log2 f - 52).

Definition rnd_pos (n d : Z) : Z :=
  let s := shift_of (n / d) in
  div_rne n (d * 2 ^ s) * 2 ^ s.

(** [n/d] rounded to 53 significant bits. *)
Definition rnd (n d : Z) : Z :=
  if n <? 0 then - rnd_pos (- n) d else rnd_pos n d.

Definition mk (n d : Z) : number :=
  let k := rnd n d in
  if overflow <=? k then PosInf
  else if k <=? - overflow then NegInf
  else Fin k.

(** ** Literals and conversions *)

(** The numeric literal [n/d] of the source ([0.5] is [lit 1 2]). *)
Definition lit (n d : Z) : number := mk (n * one) d.

(** [Number(big)] *)
Definition of_bigint (n : Z) : number := lit n 1.

(** [BigInt(x)]: a RangeError unless [x] is an integer. *)
Definition to_bigint (x : number) : result Z :=
  match x with
  | Fin k => if k mod one =? 0 then Ok (k / one) else Throw (RangeError "BigInt")
  | _ => Throw (RangeError "BigInt")
  end.

(** ** Arithmetic *)

Definition opp (x : number) : number :=
  match x with NaN => NaN | PosInf => NegInf | NegInf => PosInf | Fin k => Fin (- k) end.

Definition add (x y : number) : number :=
  match x, y with
  | Fin a, Fin b => mk (a + b) 1
  | NaN, _ | _, NaN => NaN
  | PosInf, NegInf | NegInf, PosInf => NaN
  | PosInf, _ | _, PosInf => PosInf
  | NegInf, _ | _, NegInf => NegInf
  end.

Definition sub (x y : number) : number := add x (opp y).

(** The infinity of the sign of [s], NaN when [s] is zero. *)
Definition inf_of_sign (s : Z) : number :=
  match s with 0 => NaN | Zpos _ => PosInf | Zneg _ => NegInf end.

Definition mul (x y : number) : number :=
  match x, y with
  | Fin a, Fin b => mk (a * b) one
  | NaN, _ | _, NaN => NaN
  | PosInf, PosInf | NegInf, NegInf => PosInf
  | PosInf, NegInf | NegInf, PosInf => NegInf
  | PosInf, Fin b => inf_of_sign b
  | NegInf, Fin b => inf_of_sign (- b)
  | Fin a, PosInf => inf_of_sign a
  | Fin a, NegInf => inf_of_sign (- a)
  end.

Definition div (x y : number) : number :=
  match x, y with
  | Fin a, Fin b => if b =? 0 then inf_of_sign a else mk (a * one * Z.sgn b) (Z.abs b)
  | NaN, _ | _, NaN => NaN
  | Fin _, _ => Fin 0
  | PosInf, Fin b => if b <? 0 then NegInf else PosInf
  | NegInf, Fin b => if b <? 0 then PosInf else NegInf
  | _, _ => NaN
  end.

(** ** Comparison *)

Definition compare (x y : number) : option comparison :=
  match x, y with
  | NaN, _ | _, NaN => None
  | Fin a, Fin b => Some (a ?= b)
  | PosInf, PosInf | NegInf, NegInf => Some Eq
  | PosInf, _ | _, NegInf => Some Gt
  | NegInf, _ | _, PosInf => Some Lt
  end.

Definition ltb (x y : number) : bool :=
  match compare x y with Some Lt => true | _ => false end.
Definition leb (x y : number) : bool :=
  match compare x y with Some Lt | Some Eq => true | _ => false end.
Definition gtb (x y : number) : bool := ltb y x.
Definition geb (x y : number) : bool := leb y x.
Definition is_nan (x : number) : bool := match x with NaN => true | _ => false end.

(** [Math.max] and [Math.min] of two arguments *)
Definition max (x y : number) : number :=
  match compare x y with None => NaN | Some Lt => y | _ => x end.
Definition min (x y : number) : number :=
  match compare x y with None => NaN | Some Gt => y | _ => x end.

(** [Math.round]: nearest integer, ties towards [+Infinity]. *)
Definition round (x : number) : number :=
  match x with
  | Fin k => Fin ((2 * k + one) / (2 * one) * one)
  | _ => x
  end.

(** [BigInt(Math.round(x))] *)
Definition round_bigint (x : number) : result Z := to_bigint (round x).

(** ** Lemmas on rounding *)

(** Multiples [m * 2^s] with [|m| <= 2^53]: the values a double can take. *)
Definition repr (k : Z) : Prop := ∃ m s, 0 ≤ s ∧ Z.abs m ≤ 2 ^ 53 ∧ k = m * 2 ^ s.

Lemma div_rne_spec n d : 0 < d → 2 * Z.abs (div_rne n d * d - n) ≤ d.
Proof.
  intros Hd. unfold div_rne.
  pose proof (Z.div_mod n d ltac:(lia)) as E. pose proof (Z.mod_pos_bound n d Hd).
  assert (n / d * d = d * (n / d)) as C by lia.
  destruct (Z.compare_spec (2 * (n mod d)) d); [destruct (Z.even (n / d))| |];
    rewrite ?Z.mul_add_distr_r; lia.
Qed.

Lemma div_rne_le n d j : 0 < d → n ≤ j * d → div_rne n d ≤ j.
Proof.
  intros Hd Hj. pose proof (div_rne_spec n d Hd).
  assert (div_rne n d < j + 1); [|lia].
  apply (Z.mul_lt_mono_pos_r d); [lia|]. lia.
Qed.

Lemma div_rne_ge n d j : 0 < d → j * d ≤ n → j ≤ div_rne n d.
Proof.
  intros Hd Hj. pose proof (div_rne_spec n d Hd).
  assert (j < div_rne n d + 1); [|lia].
  apply (Z.mul_lt_mono_pos_r d); [lia|]. lia.
Qed.

Lemma div_rne_exact j d : 0 < d → div_rne (j * d) d = j.
Proof.
  intros. apply Z.le_antisymm; [apply div_rne_le | apply div_rne_ge]; lia.
Qed.

Lemma shift_of_nonneg f : 0 ≤ shift_of f.
Proof. unfold shift_of. lia. Qed.

(** A value that is shifted is at least [2^52] units of its last place. *)
Lemma shift_of_low f : 0 < shift_of f → 2 ^ (52 + shift_of f) ≤ f.
Proof.
  unfold shift_of. intros Hs.
  replace (52 + Z.max 0 (Z.log2 f - 52)) with (Z.log2 f) by lia.
  apply Z.log2_spec. destruct (Z.le_gt_cases f 0); [|lia].
  rewrite Z.log2_nonpos in Hs; lia.
Qed.

Lemma shift_of_high f : 0 ≤ f → f < 2 ^ (53 + shift_of f).
Proof.
  intros Hf. unfold shift_of. destruct (Z.eq_dec f 0) as [->|]; [apply Z.pow_pos_nonneg; lia|].
  pose proof (Z.log2_spec f ltac:(lia)) as [_ Hlt].
  eapply Z.lt_le_trans; [apply Hlt|]. apply Z.pow_le_mono_r; lia.
Qed.

Lemma pow2_pos s : 0 ≤ s → 0 < 2 ^ s.
Proof. intros. apply Z.pow_pos_nonneg; lia. Qed.

Lemma one_pos : 0 < one.
Proof. apply pow2_pos. lia. Qed.

#[global] Hint Resolve one_pos pow2_pos shift_of_nonneg : core.

(** A representable value no smaller than [2^(52+s)] is a multiple of [2^s]. *)
Lemma repr_multiple k s : repr k → 0 ≤ s → 2 ^ (52 + s) ≤ k → ∃ j, k = j * 2 ^ s.
Proof.
  intros (m & t & Ht & Hm & ->) Hs Hk.
  destruct (Z.le_gt_cases s t).
  - exists (m * 2 ^ (t - s)). rewrite <- Z.mul_assoc, <- Z.pow_add_r by lia.
    do 2 f_equal. lia.
  - (* then [t < s], so [|m| = 2^53] and [s = t + 1] *)
    assert (2 ^ (52 + s) = 2 ^ (52 + s - t) * 2 ^ t) as E
      by (rewrite <- Z.pow_add_r by lia; f_equal; lia).
    assert (2 ^ (52 + s - t) ≤ m) as H1.
    { apply (Z.mul_le_mono_pos_r _ _ (2 ^ t)); auto. lia. }
    assert (2 ^ 53 ≤ 2 ^ (52 + s - t)) by (apply Z.pow_le_mono_r; lia).
    assert (m = 2 ^ 53) as -> by lia.
    assert (s = t + 1) as ->.
    { destruct (Z.eq_dec s (t + 1)); [done|].
      assert (2 ^ 54 ≤ 2 ^ (52 + s - t)) by (apply Z.pow_le_mono_r; lia). lia. }
    exists (2 ^ 52). rewrite <- !Z.pow_add_r by lia. f_equal. lia.
Qed.

Lemma rnd_pos_le n d k : 0 < d → 0 ≤ n → repr k → n ≤ k * d → rnd_pos n d ≤ k.
Proof.
  intros Hd Hn Hk Hle. unfold rnd_pos. cbv zeta. set (s := shift_of (n / d)).
  assert (0 ≤ s) by apply shift_of_nonneg. pose proof (pow2_pos s ltac:(lia)).
  assert (n / d ≤ k) by (apply Z.div_le_upper_bound; lia).
  assert (∃ j, k = j * 2 ^ s) as [j ->].
  { destruct (Z.eq_dec s 0) as [->|]; [exists k; lia|].
    apply repr_multiple; auto. etrans; [apply shift_of_low; fold s|]; fold s; lia. }
  apply Z.mul_le_mono_nonneg_r; [lia|]. apply div_rne_le; lia.
Qed.

Lemma rnd_pos_nonneg n d : 0 < d → 0 ≤ n → 0 ≤ rnd_pos n d.
Proof.
  intros. unfold rnd_pos. cbv zeta. set (s := shift_of (n / d)).
  pose proof (pow2_pos s (shift_of_nonneg _)).
  apply Z.mul_nonneg_nonneg; [apply div_rne_ge|]; lia.
Qed.

(** A representable lower bound survives rounding. *)
Lemma rnd_pos_ge n d k : 0 < d → repr k → 0 ≤ k → k * d ≤ n → k ≤ rnd_pos n d.
Proof.
  intros Hd Hk H0 Hle. unfold rnd_pos. cbv zeta. set (s := shift_of (n / d)).
  assert (0 ≤ s) by apply shift_of_nonneg. pose proof (pow2_pos s ltac:(lia)).
  assert (k ≤ n / d) by (apply Z.div_le_lower_bound; lia).
  destruct (Z.le_gt_cases (2 ^ (52 + s)) k) as [Hbig|Hsmall].
  - assert (∃ j, k = j * 2 ^ s) as [j ->] by (apply repr_multiple; auto).
    apply Z.mul_le_mono_nonneg_r; [lia|]. apply div_rne_ge; lia.
  - destruct (Z.eq_dec s 0) as [E|].
    + rewrite E, Z.mul_1_r, Z.pow_0_r, Z.mul_1_r. apply div_rne_ge; lia.
    + assert (2 ^ (52 + s) ≤ n / d) by (apply shift_of_low; fold s; lia).
      etrans; [apply Z.lt_le_incl, Hsmall|].
      rewrite Z.pow_add_r by lia. apply Z.mul_le_mono_nonneg_r; [lia|].
      apply div_rne_ge; [lia|].
      assert (2 ^ 52 * (d * 2 ^ s) = 2 ^ (52 + s) * d) as ->.
      { rewrite Z.pow_add_r by lia. ring. }
      pose proof (Z.mul_div_le n d Hd). nia.
Qed.

Lemma rnd_pos_exact k d : 0 < d → repr k → 0 ≤ k → rnd_pos (k * d) d = k.
Proof.
  intros. apply Z.le_antisymm; [apply rnd_pos_le | apply rnd_pos_ge]; auto; nia.
Qed.

Lemma rnd_pos_0 d : 0 < d → rnd_pos 0 d = 0.
Proof.
  intros. replace 0 with (0 * d) at 1 by ring. apply rnd_pos_exact; [done| |done]. by exists 0, 0.
Qed.

(** Half a unit in the last place, as a multiple of [2^s]. *)
Lemma rnd_pos_half_ulp n d : 0 < d →
  2 * Z.abs (rnd_pos n d * d - n) ≤ d * 2 ^ shift_of (n / d).
Proof.
  intros Hd. unfold rnd_pos. cbv zeta. set (s := shift_of (n / d)).
  pose proof (pow2_pos s (shift_of_nonneg _)).
  pose proof (div_rne_spec n (d * 2 ^ s) ltac:(lia)).
  replace (div_rne n (d * 2 ^ s) * 2 ^ s * d) with (div_rne n (d * 2 ^ s) * (d * 2 ^ s)) by ring.
  lia.
Qed.

(** Relative error [2^-53], on values whose integer part has at least 53 bits. *)
Lemma rnd_pos_relative n d : 0 < d → 2 ^ 52 * d ≤ n →
  2 ^ 53 * Z.abs (rnd_pos n d * d - n) ≤ n.
Proof.
  intros Hd Hn. pose proof (rnd_pos_half_ulp n d Hd) as H.
  set (s := shift_of (n / d)) in *.
  assert (2 ^ 52 ≤ n / d) by (apply Z.div_le_lower_bound; lia).
  assert (2 ^ (52 + s) ≤ n / d) as Hlow.
  { destruct (Z.eq_dec s 0) as [->|]; [lia|]. apply shift_of_low. fold s.
    pose proof (shift_of_nonneg (n / d)). fold s in H1. lia. }
  rewrite Z.pow_add_r in Hlow by (pose proof (shift_of_nonneg (n / d)); fold s in H1; lia).
  pose proof (Z.mul_div_le n d Hd). nia.
Qed.

Lemma repr_of_small m s : 0 ≤ s → Z.abs m ≤ 2 ^ 53 → repr (m * 2 ^ s).
Proof. intros. exists m, s. auto. Qed.

Lemma repr_rnd_pos n d : 0 < d → 0 ≤ n → repr (rnd_pos n d).
Proof.
  intros Hd Hn. unfold rnd_pos. cbv zeta. set (s := shift_of (n / d)).
  assert (0 ≤ s) by apply shift_of_nonneg. pose proof (pow2_pos s ltac:(lia)).
  assert (0 ≤ div_rne n (d * 2 ^ s)) by (apply div_rne_ge; lia).
  apply repr_of_small; [done|]. rewrite Z.abs_eq by lia.
  apply div_rne_le; [lia|].
  assert (n / d < 2 ^ (53 + s)) by (apply shift_of_high, Z.div_pos; lia).
  replace (2 ^ 53 * (d * 2 ^ s)) with (2 ^ (53 + s) * d) by (rewrite Z.pow_add_r by lia; ring).
  pose proof (Z.div_mod n d ltac:(lia)). pose proof (Z.mod_pos_bound n d Hd). nia.
Qed.

(** ** Lemmas on the operations *)

Lemma overflow_big n : 0 ≤ n ≤ 2 ^ 53 → n * one < overflow.
Proof.
  intros Hn. apply Z.le_lt_trans with (2 ^ 53 * one).
  - apply Z.mul_le_mono_nonneg_r; [apply Z.lt_le_incl, one_pos | lia].
  - unfold one, overflow. rewrite <- Z.pow_add_r by lia. apply Z.pow_lt_mono_r; lia.
Qed.

Lemma repr_int n : 0 ≤ n ≤ 2 ^ 53 → repr (n * one).
Proof. intros. apply repr_of_small; lia. Qed.

(** Rounding a non-negative quotient that a representable integer bounds. *)
Lemma mk_bounded n d b :
  0 < d → 0 ≤ n → 0 ≤ b ≤ 2 ^ 53 → n ≤ b * one * d → mk n d = Fin (rnd_pos n d).
Proof.
  intros Hd Hn Hb Hle. unfold mk, rnd. rewrite (proj2 (Z.ltb_ge n 0)) by lia.
  assert (rnd_pos n d ≤ b * one) by (apply rnd_pos_le; auto using repr_int).
  pose proof (overflow_big b Hb). pose proof (rnd_pos_nonneg n d Hd Hn).
  assert (0 < overflow) by (apply pow2_pos; lia).
  rewrite (proj2 (Z.leb_gt _ _)), (proj2 (Z.leb_gt _ _)); [done | lia..].
Qed.

(** ... or that a power of two below the overflow threshold bounds. *)
Lemma mk_pow_bounded n d e :
  0 < d → 0 ≤ n → 0 ≤ e < 1024 → n ≤ 2 ^ e * one * d →
  mk n d = Fin (rnd_pos n d) ∧ 0 ≤ rnd_pos n d ≤ 2 ^ e * one.
Proof.
  intros Hd Hn He Hle. assert (2 ^ e * one = 1 * 2 ^ (e + 1074)) as E
    by (unfold one; rewrite Z.pow_add_r; lia).
  assert (rnd_pos n d ≤ 2 ^ e * one) as Hup.
  { apply rnd_pos_le; [done..| |done]. rewrite E. apply repr_of_small; lia. }
  pose proof (rnd_pos_nonneg n d Hd Hn). split; [|lia].
  assert (2 ^ e * one < overflow).
  { rewrite E, Z.mul_1_l. unfold overflow. apply Z.pow_lt_mono_r; lia. }
  unfold mk, rnd. rewrite (proj2 (Z.ltb_ge n 0)) by lia.
  rewrite (proj2 (Z.leb_gt _ _)) by lia.
  rewrite (proj2 (Z.leb_gt _ _)) by lia. done.
Qed.

Lemma of_bigint_small n : 0 ≤ n ≤ 2 ^ 53 → of_bigint n = Fin (n * one).
Proof.
  intros Hn. pose proof one_pos. unfold of_bigint, lit.
  rewrite (mk_bounded _ _ n) by nia. f_equal.
  rewrite <- (Z.mul_1_r (n * one)) at 1. apply rnd_pos_exact; auto using repr_int. nia.
Qed.

(** A proper fraction literal is a number between zero and one. *)
Lemma lit_fraction n d : 0 < d → 0 ≤ n ≤ d →
  lit n d = Fin (rnd_pos (n * one) d) ∧ 0 ≤ rnd_pos (n * one) d ≤ one.
Proof.
  intros Hd Hn. pose proof one_pos. split.
  - unfold lit. apply (mk_bounded _ _ 1); nia.
  - split; [apply rnd_pos_nonneg; nia|].
    apply rnd_pos_le; [nia..| |nia]. rewrite <- (Z.mul_1_l one). apply repr_int. lia.
Qed.

(** Scaling both sides of a quotient does not change its rounding. *)
Lemma rnd_pos_scale n d c : 0 < d → 0 < c → rnd_pos (n * c) (d * c) = rnd_pos n d.
Proof.
  intros Hd Hc. unfold rnd_pos. cbv zeta. rewrite Z.div_mul_cancel_r by lia.
  set (s := shift_of (n / d)). pose proof (pow2_pos s (shift_of_nonneg _)). f_equal.
  unfold div_rne. cbv zeta. replace (d * c * 2 ^ s) with (d * 2 ^ s * c) by ring.
  rewrite Z.div_mul_cancel_r, Z.mul_mod_distr_r by nia.
  rewrite Z.mul_assoc, <- (Zmult_compare_compat_r _ _ c) by lia. done.
Qed.

(** Dividing two small integers is the literal of their quotient. *)
Lemma div_of_bigint p q : 0 ≤ p ≤ 2 ^ 53 → 0 < q ≤ 2 ^ 53 →
  div (of_bigint p) (of_bigint q) = lit p q.
Proof.
  intros Hp Hq. pose proof one_pos. rewrite !of_bigint_small by lia. unfold div, lit.
  rewrite (proj2 (Z.eqb_neq (q * one) 0)), Z.sgn_pos, Z.mul_1_r, Z.abs_eq by nia.
  rewrite (mk_bounded _ _ p), (mk_bounded _ q p) by nia. f_equal. apply rnd_pos_scale; lia.
Qed.

(** An integer times a number in [[0,1]] stays between zero and the integer. *)
Lemma mul_fraction n b : 0 ≤ n ≤ 2 ^ 53 → 0 ≤ b ≤ one →
  mul (Fin (n * one)) (Fin b) = Fin (rnd_pos (n * one * b) one)
  ∧ 0 ≤ rnd_pos (n * one * b) one ≤ n * one.
Proof.
  intros Hn Hb. pose proof one_pos. split.
  - unfold mul. apply (mk_bounded _ _ n); auto; nia.
  - split; [apply rnd_pos_nonneg; nia|]. apply rnd_pos_le; auto using repr_int; nia.
Qed.

Lemma round_bigint_fin k : round_bigint (Fin k) = Ok ((2 * k + one) / (2 * one)).
Proof.
  unfold round_bigint, round, to_bigint. pose proof one_pos.
  rewrite Z.mod_mul, Z.div_mul by lia. done.
Qed.

(** [Math.round] is within half of its argument. *)
Lemma round_half k : let r := (2 * k + one) / (2 * one) in
  2 * (r * one) ≤ 2 * k + one ∧ 2 * k < 2 * (r * one) + one.
Proof.
  cbv zeta. pose proof one_pos.
  pose proof (Z.div_mod (2 * k + one) (2 * one) ltac:(lia)).
  pose proof (Z.mod_pos_bound (2 * k + one) (2 * one) ltac:(lia)). nia.
Qed.

Lemma round_le k n : k ≤ n * one → (2 * k + one) / (2 * one) ≤ n.
Proof.
  intros Hk. pose proof (round_half k) as Hr. cbv zeta in Hr. pose proof one_pos.
  apply Z.lt_succ_r, (Z.mul_lt_mono_pos_r one); lia.
Qed.

Lemma round_ge k n : n * one ≤ k → n ≤ (2 * k + one) / (2 * one).
Proof.
  intros Hk. pose proof (round_half k) as Hr. cbv zeta in Hr. pose proof one_pos.
  apply Z.lt_succ_r, (Z.mul_lt_mono_pos_r one); lia.
Qed.

(** Rounding a whole number [x] of units moves it by at most [x * 2^-53]. *)
Lemma rnd_pos_units_error x d : 0 < d → 0 ≤ x → 2 ^ 53 * Z.abs (rnd_pos (x * d) d - x) ≤ x.
Proof.
  intros Hd Hx. destruct (Z.le_gt_cases (2 ^ 52) x) as [Hbig|Hsmall].
  - pose proof (rnd_pos_relative (x * d) d Hd ltac:(apply Z.mul_le_mono_nonneg_r; lia)) as H.
    replace (rnd_pos (x * d) d * d - x * d) with ((rnd_pos (x * d) d - x) * d) in H by ring.
    rewrite Z.abs_mul, (Z.abs_eq d), Z.mul_assoc in H by lia.
    by apply Z.mul_le_mono_pos_r in H.
  - rewrite rnd_pos_exact; [lia|lia| |lia].
    rewrite <- (Z.mul_1_r x), <- (Z.pow_0_r 2). apply repr_of_small; lia.
Qed.

(** The relative error of a quotient [p/q] of moderate size. *)
Lemma rnd_pos_quotient_error p q : 0 < q ≤ 2 ^ 53 → 0 ≤ p →
  2 ^ 53 * Z.abs (rnd_pos (p * one) q * q - p * one) ≤ p * one.
Proof.
  intros Hq Hp. pose proof one_pos. destruct (Z.eq_dec p 0) as [->|].
  { replace (0 * one) with 0 by ring. rewrite rnd_pos_0; lia. }
  apply rnd_pos_relative; [lia|]. transitivity one; [|nia].
  unfold one. transitivity (2 ^ 52 * 2 ^ 53); [nia|].
  rewrite <- Z.pow_add_r by lia. apply Z.pow_le_mono_r; lia.
Qed.

(** The double nearest to [p/q], times an integer, is the exact product up to
    three units of [2^-53]. *)
Lemma mul_literal_error n p q :
  0 ≤ n → 0 ≤ p → 0 < q ≤ 2 ^ 53 →
  let b := rnd_pos (p * one) q in
  let c := rnd_pos (n * one * b) one in
  2 ^ 53 * Z.abs (c * q - n * p * one) ≤ 3 * (n * (p * one)).
Proof.
  intros Hn Hp Hq b c. pose proof one_pos.
  assert (2 ^ 53 * Z.abs (b * q - p * one) ≤ p * one) as Hb by (apply rnd_pos_quotient_error; lia).
  assert (0 ≤ b) as Hb0 by (apply rnd_pos_nonneg; nia).
  assert (2 ^ 53 * Z.abs (c - n * b) ≤ n * b) as Hc.
  { subst c. replace (n * one * b) with (n * b * one) by ring.
    apply rnd_pos_units_error; [done|nia]. }
  assert (Z.abs (c * q - n * p * one)
          ≤ Z.abs (c - n * b) * q + n * Z.abs (b * q - p * one)) as Htri.
  { replace (c * q - n * p * one) with ((c - n * b) * q + n * (b * q - p * one)) by ring.
    etrans; [apply Z.abs_triangle|]. rewrite !Z.abs_mul, (Z.abs_eq q), (Z.abs_eq n) by lia. lia. }
  assert (2 ^ 53 * (Z.abs (c - n * b) * q) ≤ n * (b * q)) by nia.
  assert (n * (b * q) ≤ 2 * (n * (p * one))) by nia.
  assert (2 ^ 53 * (n * Z.abs (b * q - p * one)) ≤ n * (p * one)) by nia.
  lia.
Qed.

(** ... so rounding the product gives an integer nearest to [n * p / q]. *)
Lemma round_mul_literal n p q :
  0 ≤ n ≤ 2 ^ 53 → 0 ≤ p ≤ q → 0 < q ≤ 2 ^ 53 → 6 * (n * p) < 2 ^ 53 →
  ∃ r, round_bigint (mul (of_bigint n) (lit p q)) = Ok r ∧ 2 * Z.abs (r * q - n * p) ≤ q.
Proof.
  intros Hn Hp Hq Hnp. pose proof one_pos.
  destruct (lit_fraction p q) as [-> Hb]; [lia..|]. rewrite of_bigint_small by lia.
  destruct (mul_fraction n _ Hn Hb) as [-> Hc]. rewrite round_bigint_fin.
  eexists; split; [done|].
  pose proof (mul_literal_error n p q ltac:(lia) ltac:(lia) ltac:(lia)) as Herr. cbv zeta in Herr.
  set (c := rnd_pos (n * one * rnd_pos (p * one) q) one) in *.
  pose proof (round_half c) as Hr. cbv zeta in Hr.
  set (r := (2 * c + one) / (2 * one)) in *.
  assert (2 * Z.abs ((r * one - c) * q) ≤ one * q) as H1.
  { rewrite Z.abs_mul, (Z.abs_eq q) by lia.
    rewrite Z.mul_assoc. apply Z.mul_le_mono_nonneg_r; lia. }
  assert (2 * Z.abs (c * q - n * p * one) < one) as H2.
  { apply (Z.mul_lt_mono_pos_l (2 ^ 53)); [lia|].
    assert (6 * (n * p) * one < 2 ^ 53 * one) by (apply Z.mul_lt_mono_pos_r; lia). lia. }
  apply Z.lt_succ_r, (Z.mul_lt_mono_pos_r one); [done|].
  replace (2 * Z.abs (r * q - n * p) * one) with (2 * Z.abs ((r * q - n * p) * one))
    by (rewrite Z.abs_mul, (Z.abs_eq one) by lia; ring).
  replace ((r * q - n * p) * one) with ((r * one - c) * q + (c * q - n * p * one)) by ring.
  lia.
Qed.

(** An integer divided by [f] and multiplied back rounds to itself. *)
Lemma round_div_mul n f :
  0 ≤ n → 0 < f ≤ 2 ^ 53 → 6 * n < 2 ^ 53 →
  round_bigint (mul (div (of_bigint n) (of_bigint f)) (of_bigint f)) = Ok n.
Proof.
  intros Hn Hf Hlt. pose proof one_pos.
  rewrite !of_bigint_small by lia. unfold div.
  rewrite (proj2 (Z.eqb_neq (f * one) 0)), Z.sgn_pos, Z.mul_1_r, Z.abs_eq by nia.
  rewrite (mk_bounded _ _ n) by nia. set (k := rnd_pos (n * one * one) (f * one)).
  assert (0 ≤ k) as Hk0 by (apply rnd_pos_nonneg; nia).
  assert (2 ^ 53 * Z.abs (k * f - n * one) ≤ n * one) as Hk.
  { destruct (Z.eq_dec n 0) as [->|].
    { subst k. replace (0 * one * one) with 0 by ring. rewrite rnd_pos_0; nia. }
    assert (2 ^ 52 * f ≤ one) as Hone.
    { unfold one. transitivity (2 ^ 52 * 2 ^ 53); [nia|].
      rewrite <- Z.pow_add_r by lia. apply Z.pow_le_mono_r; lia. }
    pose proof (rnd_pos_relative (n * one * one) (f * one) ltac:(nia)
      ltac:(rewrite Z.mul_assoc; apply Z.mul_le_mono_nonneg_r; nia)) as H1.
    fold k in H1.
    replace (k * (f * one) - n * one * one) with ((k * f - n * one) * one) in H1 by ring.
    rewrite Z.abs_mul, (Z.abs_eq one), Z.mul_assoc in H1 by lia.
    by apply Z.mul_le_mono_pos_r in H1. }
  unfold mul. replace (k * (f * one)) with (k * f * one) by ring.
  rewrite (mk_bounded _ _ (2 * n)) by nia. rewrite round_bigint_fin. f_equal.
  pose proof (rnd_pos_units_error (k * f) one one_pos ltac:(nia)) as Hc.
  set (c := rnd_pos (k * f * one) one) in *.
  assert (2 * Z.abs (c - n * one) < one).
  { apply (Z.mul_lt_mono_pos_l (2 ^ 53)); [lia|].
    assert (6 * n * one < 2 ^ 53 * one) by (apply Z.mul_lt_mono_pos_r; lia). lia. }
  pose proof (round_half c) as Hr. cbv zeta in Hr.
  set (r := (2 * c + one) / (2 * one)) in *.
  apply Z.le_antisymm; apply Z.lt_succ_r, (Z.mul_lt_mono_pos_r one); lia.
Qed.

(** ** Exact comparison of a rounded quotient with a half-integer *)

Definition half : Z := 2 ^ 1073.

Lemma half_one : one = 2 * half.
Proof. unfold one, half. rewrite <- Z.pow_succ_r by lia. done. Qed.

(** A grain finer than any gap between [n/f] and a half-integer, for [f <= 1000]. *)
Definition grain : Z := 2 ^ 1063.

Lemma half_grain : half = 2 ^ 10 * grain.
Proof. unfold half, grain. rewrite <- Z.pow_add_r by lia. done. Qed.

Lemma repr_grain k : Z.abs k ≤ 2 ^ 53 → repr (k * grain).
Proof. intros. apply repr_of_small; lia. Qed.

Section quotient.
Context (n f h : Z) (Hn : 0 ≤ n ≤ 2 ^ 53) (Hf : 0 < f ≤ 1000) (Hh : 0 ≤ h ≤ 2 ^ 42).

Lemma div_is_rnd : div (of_bigint n) (of_bigint f) = Fin (rnd_pos (n * one) f).
Proof. rewrite div_of_bigint by lia. unfold lit. pose proof one_pos. apply (mk_bounded _ _ n); nia. Qed.

Lemma ltb_div_half : ltb (div (of_bigint n) (of_bigint f)) (Fin (h * half)) = (2 * n <? h * f).
Proof.
  rewrite div_is_rnd. unfold ltb, compare.
  assert (0 < grain) as Hg by (apply pow2_pos; lia). pose proof half_one. pose proof half_grain.
  destruct (Z.ltb_spec (2 * n) (h * f)) as [Hlt|Hge].
  - assert (rnd_pos (n * one) f ≤ (h * 2 ^ 10 - 1) * grain) as Hle.
    { apply rnd_pos_le; [lia|nia|apply repr_grain; lia|]. nia. }
    rewrite (proj2 (Z.compare_lt_iff _ _)); [done|nia].
  - assert (h * half ≤ rnd_pos (n * one) f) as Hle.
    { apply rnd_pos_ge; [lia| |nia|nia]. replace (h * half) with (h * 2 ^ 10 * grain) by lia.
      apply repr_grain. lia. }
    destruct (Z.compare_spec (rnd_pos (n * one) f) (h * half)); [done|lia|done].
Qed.

Lemma ltb_half_div : ltb (Fin (h * half)) (div (of_bigint n) (of_bigint f)) = (h * f <? 2 * n).
Proof.
  rewrite div_is_rnd. unfold ltb, compare.
  assert (0 < grain) as Hg by (apply pow2_pos; lia). pose proof half_one. pose proof half_grain.
  destruct (Z.ltb_spec (h * f) (2 * n)) as [Hlt|Hge].
  - assert ((h * 2 ^ 10 + 1) * grain ≤ rnd_pos (n * one) f) as Hle.
    { apply rnd_pos_ge; [lia|apply repr_grain; lia|nia|]. nia. }
    rewrite (proj2 (Z.compare_lt_iff _ _)); [done|nia].
  - assert (rnd_pos (n * one) f ≤ h * half) as Hle.
    { apply rnd_pos_le; [lia|nia| |nia]. replace (h * half) with (h * 2 ^ 10 * grain) by lia.
      apply repr_grain. lia. }
    destruct (Z.compare_spec (h * half) (rnd_pos (n * one) f)); [done|lia|done].
Qed.

End quotient.

Lemma of_bigint_half k : 0 ≤ k ≤ 2 ^ 41 → of_bigint k = Fin (2 * k * half).
Proof. intros. rewrite of_bigint_small by lia. pose proof half_one. f_equal. nia. Qed.

(** ** Bounds through the operations *)

(** A non-negative value: finite, or positive infinity. *)
Definition nonneg (x : number) : Prop := x = PosInf ∨ ∃ k, x = Fin k ∧ 0 ≤ k.

(** A finite value between zero and the integer [n]. *)
Definition within (x : number) (n : Z) : Prop := ∃ c, x = Fin c ∧ 0 ≤ c ≤ n * one.

Lemma mk_nonneg n d : 0 < d → 0 ≤ n → nonneg (mk n d).
Proof.
  intros Hd Hn. unfold mk, rnd. rewrite (proj2 (Z.ltb_ge n 0)) by lia.
  pose proof (rnd_pos_nonneg n d Hd Hn). case_match; [by left|].
  assert (0 < overflow) by (apply pow2_pos; lia).
  rewrite (proj2 (Z.leb_gt _ _)) by lia. right. eauto.
Qed.

Lemma mk_within n d b : 0 < d → 0 ≤ b ≤ 2 ^ 53 → 0 ≤ n ≤ b * one * d → within (mk n d) b.
Proof.
  intros Hd Hb Hn. rewrite (mk_bounded n d b) by lia. eexists. split; [reflexivity|]. split.
  - apply rnd_pos_nonneg; lia.
  - apply rnd_pos_le; [done|lia|by apply repr_int|lia].
Qed.

Lemma of_bigint_within n : 0 ≤ n ≤ 2 ^ 53 → within (of_bigint n) n.
Proof. intros. rewrite of_bigint_small by lia. pose proof one_pos. exists (n * one). split; [done|nia]. Qed.

Lemma add_within x y a b : 0 ≤ a → 0 ≤ b → a + b ≤ 2 ^ 53 → within x a → within y b → within (add x y) (a + b).
Proof.
  intros ??? (c & -> & Hc) (d & -> & Hd). cbn [add]. apply mk_within; lia.
Qed.

Lemma mul_within x a b : 0 ≤ a → 0 ≤ b → a * b ≤ 2 ^ 53 → b ≤ 2 ^ 53 →
  within x a → within (mul x (of_bigint b)) (a * b).
Proof.
  intros ???? (c & -> & Hc). pose proof one_pos. rewrite of_bigint_small by lia. cbn [mul].
  apply mk_within; [lia|nia|]. replace (a * b * one * one) with (a * one * (b * one)) by ring.
  split; [nia|]. apply Z.mul_le_mono_nonneg_r; nia.
Qed.

Lemma div_within x a b : 0 ≤ a → 0 < b ≤ 2 ^ 53 → a * b ≤ 2 ^ 53 →
  within x (a * b) → within (div x (of_bigint b)) a.
Proof.
  intros ??? (c & -> & Hc). pose proof one_pos. rewrite of_bigint_small by lia. cbn [div].
  rewrite (proj2 (Z.eqb_neq _ _)), Z.sgn_pos, Z.mul_1_r, Z.abs_eq by nia.
  apply mk_within; [nia|nia|]. replace (a * one * (b * one)) with (a * b * one * one) by ring.
  split; [nia|]. apply Z.mul_le_mono_nonneg_r; nia.
Qed.

Lemma div_nonneg x k : nonneg x → 0 < k → nonneg (div x (Fin k)).
Proof.
  intros [->|(c & -> & Hc)] Hk; cbn [div].
  - left. destruct k; done.
  - rewrite (proj2 (Z.eqb_neq _ _)), Z.sgn_pos, Z.mul_1_r, Z.abs_eq by lia.
    pose proof one_pos. apply mk_nonneg; nia.
Qed.

Lemma mul_nonneg x k : nonneg x → 0 < k → nonneg (mul x (Fin k)).
Proof.
  intros [->|(c & -> & Hc)] Hk; cbn [mul].
  - left. destruct k; done.
  - pose proof one_pos. apply mk_nonneg; nia.
Qed.

(** [Math.max(0, n - x)] *)
Lemma max_sub_within n x : 0 ≤ n ≤ 2 ^ 53 → nonneg x →
  within (max (of_bigint 0) (sub (of_bigint n) x)) n.
Proof.
  intros Hn Hx. pose proof one_pos. rewrite !of_bigint_small by lia. rewrite Z.mul_0_l. unfold sub.
  assert (within (Fin 0) n) as H0 by (exists 0; split; [done|nia]).
  destruct Hx as [->|(k & -> & Hk)]; cbn [opp add]; [done|].
  destruct (Z.le_gt_cases k (n * one)) as [Hle|Hgt].
  - destruct (mk_within (n * one + - k) 1 n) as (c & -> & Hc); [lia..|].
    unfold max. cbn [compare]. destruct (Z.compare_spec 0 c); [done|by exists c|done].
  - unfold mk, rnd. rewrite (proj2 (Z.ltb_lt _ 0)) by lia.
    pose proof (rnd_pos_nonneg (- (n * one + - k)) 1 ltac:(lia) ltac:(lia)).
    assert (0 < overflow) by (apply pow2_pos; lia).
    rewrite (proj2 (Z.leb_gt _ _)) by lia. case_match; unfold max; cbn [compare]; [done|].
    destruct (Z.compare_spec 0 (- rnd_pos (- (n * one + - k)) 1)); [done|lia|done].
Qed.

Lemma round_within x n : within x n → ∃ r, round x = Fin (r * one) ∧ 0 ≤ r ≤ n.
Proof.
  intros (c & -> & Hc). cbn [round]. eexists. split; [reflexivity|]. split.
  - apply round_ge. lia.
  - apply round_le. lia.
Qed.

End Num.

Export Num(number, NaN, PosInf, NegInf, Fin).

(** A template literal: text and interpolated numbers, which are kept as numbers
    instead of being printed. *)
Inductive chunk := Txt (s : string) | Numb (x : number).
Abbreviation template := (list chunk) (only parsing).
