(* ===== verification/JsDate.v ===== *)
(** * JavaScript's [Date]: UTC calendar arithmetic

    The abstract operations of the ECMAScript specification (Day, DayFromYear,
    YearFromTime, MonthFromTime, MakeDay, MakeDate) and the UTC accessors and
    mutators the billing code uses. A [Date] is its time value in milliseconds;
    the specification's cut-off at 8.64e15 ms is not modelled. *)

From S2P Require Import Prelude.

Module JsDate.

Definition msPerDay : Z := 24 * 60 * 60 * 1000.

Definition Day (t : Date) : Z := t / msPerDay.
Definition TimeWithinDay (t : Date) : Z := t mod msPerDay.

Definition DayFromYear (y : Z) : Z :=
  365 * (y - 1970) + (y - 1969) / 4 - (y - 1901) / 100 + (y - 1601) / 400.

Definition InLeapYear (y : Z) : bool :=
  (y mod 4 =? 0) && (negb (y mod 100 =? 0) || (y mod 400 =? 0)).

(** The greatest [y] with [DayFromYear y <= d]: an estimate from the length of
    the 400-year cycle, corrected by one year at most. *)
Definition YearFromDay (d : Z) : Z :=
  let y := 1970 + (400 * d) / 146097 in
  if d <? DayFromYear y then y - 1
  else if DayFromYear (y + 1) <=? d then y + 1
  else y.

(** First day of month [m] (0 to 11), counted from the start of the year. *)
Definition MonthStart (leap : bool) (m : Z) : Z :=
  let l := if leap then 1 else 0 in
  if m <=? 0 then 0 else if m =? 1 then 31 else if m =? 2 then 59 + l
  else if m =? 3 then 90 + l else if m =? 4 then 120 + l else if m =? 5 then 151 + l
  else if m =? 6 then 181 + l else if m =? 7 then 212 + l else if m =? 8 then 243 + l
  else if m =? 9 then 273 + l else if m =? 10 then 304 + l else if m =? 11 then 334 + l
  else 365 + l.

Definition MonthFromDayInYear (leap : bool) (d : Z) : Z :=
  let l := if leap then 1 else 0 in
  if d <? 31 then 0 else if d <? 59 + l then 1 else if d <? 90 + l then 2
  else if d <? 120 + l then 3 else if d <? 151 + l then 4 else if d <? 181 + l then 5
  else if d <? 212 + l then 6 else if d <? 243 + l then 7 else if d <? 273 + l then 8
  else if d <? 304 + l then 9 else if d <? 334 + l then 10 else 11.

Definition DaysInMonth (y m : Z) : Z :=
  MonthStart (InLeapYear y) (m + 1) - MonthStart (InLeapYear y) m.

(** ** Accessors *)

Definition getUTCFullYear (t : Date) : Z := YearFromDay (Day t).

Definition getUTCMonth (t : Date) : Z :=
  let y := getUTCFullYear t in
  MonthFromDayInYear (InLeapYear y) (Day t - DayFromYear y).

Definition getUTCDate (t : Date) : Z :=
  let y := getUTCFullYear t in
  Day t - DayFromYear y - MonthStart (InLeapYear y) (getUTCMonth t) + 1.

(** ** Construction and mutators *)

Definition MakeDay (y m dt : Z) : Z :=
  let ym := y + m / 12 in
  let mn := m mod 12 in
  DayFromYear ym + MonthStart (InLeapYear ym) mn + dt - 1.

Definition MakeDate (day time : Z) : Date := day * msPerDay + time.

(** [Date.UTC(y, m, d)] *)
Definition UTC (y m dt : Z) : Date := MakeDate (MakeDay y m dt) 0.

Definition setUTCDate (t : Date) (dt : Z) : Date :=
  MakeDate (MakeDay (getUTCFullYear t) (getUTCMonth t) dt) (TimeWithinDay t).

Definition setUTCMonth (t : Date) (m : Z) : Date :=
  MakeDate (MakeDay (getUTCFullYear t) m (getUTCDate t)) (TimeWithinDay t).

Definition setUTCFullYear (t : Date) (y : Z) : Date :=
  MakeDate (MakeDay y (getUTCMonth t) (getUTCDate t)) (TimeWithinDay t).

(** ** Years *)

Ltac div_lia := Z.to_euclidean_division_equations; lia.

Lemma InLeapYear_days y :
  DayFromYear (y + 1) = DayFromYear y + (if InLeapYear y then 366 else 365).
Proof.
  unfold DayFromYear, InLeapYear.
  destruct (y mod 4 =? 0) eqn:E4, (y mod 100 =? 0) eqn:E100, (y mod 400 =? 0) eqn:E400;
    cbn; reflect_tests; div_lia.
Qed.

Lemma DayFromYear_mono y y' : y ≤ y' → DayFromYear y ≤ DayFromYear y'.
Proof. unfold DayFromYear. div_lia. Qed.

(** Later years start at least 365 days per year later. *)
Lemma DayFromYear_gap y y' : y ≤ y' → DayFromYear y + 365 * (y' - y) ≤ DayFromYear y'.
Proof. unfold DayFromYear. div_lia. Qed.

Lemma YearFromDay_spec d :
  DayFromYear (YearFromDay d) ≤ d < DayFromYear (YearFromDay d + 1).
Proof.
  unfold YearFromDay. cbv zeta. set (y := 1970 + 400 * d / 146097).
  assert (DayFromYear (y - 1) ≤ d < DayFromYear (y + 2)) as [H1 H2]
    by (unfold DayFromYear, y; div_lia).
  destruct (d <? DayFromYear y) eqn:E1; [|destruct (DayFromYear (y + 1) <=? d) eqn:E2]; reflect_tests.
  - replace (y - 1 + 1) with y by lia. lia.
  - replace (y + 1 + 1) with (y + 2) by lia. lia.
  - lia.
Qed.

Lemma YearFromDay_unique y d : DayFromYear y ≤ d < DayFromYear (y + 1) → YearFromDay d = y.
Proof.
  intros H. pose proof (YearFromDay_spec d).
  destruct (Z.lt_trichotomy (YearFromDay d) y) as [Hlt|[|Hlt]]; [|done|].
  - pose proof (DayFromYear_mono (YearFromDay d + 1) y). lia.
  - pose proof (DayFromYear_mono (y + 1) (YearFromDay d)). lia.
Qed.

(** ** Months *)

(** Evaluates month starts whose arguments are literals. *)
Ltac eval_months :=
  repeat match goal with
  | |- context [MonthStart ?l ?m] =>
      let v := eval vm_compute in (MonthStart l m) in change (MonthStart l m) with v
  | H : context [MonthStart ?l ?m] |- _ =>
      let v := eval vm_compute in (MonthStart l m) in change (MonthStart l m) with v in H
  end.

Lemma month_cases m : 0 ≤ m ≤ 11 →
  m = 0 ∨ m = 1 ∨ m = 2 ∨ m = 3 ∨ m = 4 ∨ m = 5 ∨ m = 6 ∨ m = 7 ∨ m = 8 ∨ m = 9 ∨ m = 10 ∨ m = 11.
Proof. lia. Qed.

Lemma MonthFromDayInYear_range leap d : 0 ≤ MonthFromDayInYear leap d ≤ 11.
Proof. unfold MonthFromDayInYear. repeat case_match; lia. Qed.

Lemma MonthFromDayInYear_spec (leap : bool) d :
  0 ≤ d < 365 + (if leap then 1 else 0) →
  MonthStart leap (MonthFromDayInYear leap d) ≤ d
  < MonthStart leap (MonthFromDayInYear leap d + 1).
Proof.
  intros Hd. unfold MonthFromDayInYear.
  destruct leap; repeat match goal with
  | |- context [if ?b then _ else _] => lazymatch b with _ <? _ => destruct b eqn:? end
  end; reflect_tests; eval_months; lia.
Qed.

Lemma MonthStart_mono leap m m' : 0 ≤ m ≤ m' → m' ≤ 12 → MonthStart leap m ≤ MonthStart leap m'.
Proof.
  intros. unfold MonthStart. destruct leap; repeat case_match; reflect_tests; lia.
Qed.

(** Every month has at least 28 and at most 31 days. *)
Lemma DaysInMonth_range y m : 0 ≤ m ≤ 11 → 28 ≤ DaysInMonth y m ≤ 31.
Proof.
  intros Hm%month_cases. unfold DaysInMonth.
  destruct (InLeapYear y); repeat (destruct Hm as [->|Hm]); subst; eval_months; lia.
Qed.

Lemma MonthStart_bounds (leap : bool) m : 0 ≤ m ≤ 11 → 28 * m ≤ MonthStart leap m ≤ 334 + (if leap then 1 else 0).
Proof.
  intros. unfold MonthStart. destruct leap; repeat case_match; reflect_tests; lia.
Qed.

Lemma MonthFromDayInYear_unique leap m d : 0 ≤ m ≤ 11 →
  MonthStart leap m ≤ d < MonthStart leap (m + 1) → MonthFromDayInYear leap d = m.
Proof.
  intros H12%month_cases Hd. unfold MonthFromDayInYear.
  destruct leap; repeat (destruct H12 as [->|H12]); subst; eval_months;
    repeat case_match; reflect_tests; lia.
Qed.

(** ** Calendar round trips *)

Lemma Day_MakeDate day time : 0 ≤ time < msPerDay → Day (MakeDate day time) = day.
Proof. unfold Day, MakeDate. intros. rewrite Z.div_add_l, Z.div_small by (unfold msPerDay in *; lia). lia. Qed.

Lemma TimeWithinDay_range t : 0 ≤ TimeWithinDay t < msPerDay.
Proof. apply Z.mod_pos_bound. unfold msPerDay. lia. Qed.

Lemma TimeWithinDay_MakeDate day time :
  0 ≤ time < msPerDay → TimeWithinDay (MakeDate day time) = time.
Proof.
  intros. unfold TimeWithinDay, MakeDate.
  rewrite Z.add_comm, Z.mod_add, Z.mod_small by (unfold msPerDay in *; lia). done.
Qed.

Lemma MakeDate_Day t : MakeDate (Day t) (TimeWithinDay t) = t.
Proof.
  unfold MakeDate, Day, TimeWithinDay.
  rewrite (Z.div_mod t msPerDay) at 3 by (unfold msPerDay; lia). lia.
Qed.

Lemma getUTCMonth_range t : 0 ≤ getUTCMonth t ≤ 11.
Proof. apply MonthFromDayInYear_range. Qed.

Lemma getUTCDate_range t :
  1 ≤ getUTCDate t ≤ DaysInMonth (getUTCFullYear t) (getUTCMonth t).
Proof.
  unfold getUTCDate, DaysInMonth, getUTCMonth. cbv zeta.
  set (y := getUTCFullYear t). set (d := Day t - DayFromYear y).
  assert (0 ≤ d < 365 + (if InLeapYear y then 1 else 0)) as Hd.
  { pose proof (YearFromDay_spec (Day t)) as Hy. change (YearFromDay (Day t)) with y in Hy.
    rewrite InLeapYear_days in Hy. subst d. destruct (InLeapYear y); lia. }
  pose proof (MonthFromDayInYear_spec _ _ Hd). lia.
Qed.

(** Reading the calendar fields of a date and rebuilding the day gives it back. *)
Lemma MakeDay_fields t :
  MakeDay (getUTCFullYear t) (getUTCMonth t) (getUTCDate t) = Day t.
Proof.
  pose proof (getUTCMonth_range t) as Hm. unfold MakeDay.
  rewrite Z.div_small, Z.mod_small, Z.add_0_r by lia. unfold getUTCDate. cbv zeta. lia.
Qed.

(** A valid calendar date survives construction: the accessors give it back. *)
Lemma fields_MakeDay y m dt time :
  0 ≤ m ≤ 11 → 1 ≤ dt ≤ DaysInMonth y m → 0 ≤ time < msPerDay →
  let t := MakeDate (MakeDay y m dt) time in
  getUTCFullYear t = y ∧ getUTCMonth t = m ∧ getUTCDate t = dt ∧ TimeWithinDay t = time.
Proof.
  intros Hm Hdt Htime t. subst t.
  assert (MakeDay y m dt = DayFromYear y + MonthStart (InLeapYear y) m + dt - 1) as E.
  { unfold MakeDay. rewrite Z.div_small, Z.mod_small, Z.add_0_r by lia. done. }
  unfold DaysInMonth in Hdt.
  assert (getUTCFullYear (MakeDate (MakeDay y m dt) time) = y) as Hy.
  { unfold getUTCFullYear. rewrite Day_MakeDate by done. apply YearFromDay_unique.
    rewrite InLeapYear_days, E.
    pose proof (MonthStart_mono (InLeapYear y) (m + 1) 12).
    pose proof (MonthStart_mono (InLeapYear y) 0 m).
    assert (MonthStart (InLeapYear y) 12 = if InLeapYear y then 366 else 365)
      by (destruct (InLeapYear y); done).
    assert (MonthStart (InLeapYear y) 0 = 0) by done. lia. }
  assert (getUTCMonth (MakeDate (MakeDay y m dt) time) = m) as Hmo.
  { unfold getUTCMonth. rewrite Hy, Day_MakeDate by done. cbv zeta.
    apply MonthFromDayInYear_unique; [done|]. rewrite E. lia. }
  rewrite Hy, Hmo. split_and!; [done..| |by apply TimeWithinDay_MakeDate].
  unfold getUTCDate. rewrite Hy, Hmo, Day_MakeDate by done. cbv zeta. lia.
Qed.

(** The days elapsed to the first of a month grow with the month number, years
    included. *)
Lemma MakeDay_mono y m m' dt : m ≤ m' → MakeDay y m dt ≤ MakeDay y m' dt.
Proof.
  intros Hle. unfold MakeDay. cbv zeta.
  pose proof (Z.mod_pos_bound m 12 ltac:(lia)). pose proof (Z.mod_pos_bound m' 12 ltac:(lia)).
  pose proof (Z.div_mod m 12 ltac:(lia)). pose proof (Z.div_mod m' 12 ltac:(lia)).
  destruct (Z.eq_dec (m / 12) (m' / 12)) as [E|].
  - rewrite <- E. pose proof (MonthStart_mono (InLeapYear (y + m / 12)) (m mod 12) (m' mod 12)). lia.
  - assert (m / 12 < m' / 12) by (pose proof (Z.div_le_mono m m' 12); lia).
    pose proof (MonthStart_bounds (InLeapYear (y + m / 12)) (m mod 12) ltac:(lia)).
    pose proof (MonthStart_bounds (InLeapYear (y + m' / 12)) (m' mod 12) ltac:(lia)).
    pose proof (InLeapYear_days (y + m / 12)).
    pose proof (DayFromYear_mono (y + m / 12 + 1) (y + m' / 12)).
    destruct (InLeapYear (y + m / 12)); lia.
Qed.

(** One month further is at least 28 days further. *)
Lemma MakeDay_next_month y m dt : MakeDay y m dt + 28 ≤ MakeDay y (m + 1) dt.
Proof.
  unfold MakeDay. cbv zeta. pose proof (Z.mod_pos_bound m 12 ltac:(lia)) as Hm.
  destruct (Z.eq_dec (m mod 12) 11) as [E|].
  - assert ((m + 1) / 12 = m / 12 + 1 ∧ (m + 1) mod 12 = 0) as [-> ->] by div_lia.
    rewrite E. pose proof (InLeapYear_days (y + m / 12)) as Hy. rewrite <- Z.add_assoc in Hy.
    change (MonthStart (InLeapYear (y + (m / 12 + 1))) 0) with 0.
    destruct (InLeapYear (y + m / 12)); eval_months; lia.
  - assert ((m + 1) / 12 = m / 12 ∧ (m + 1) mod 12 = m mod 12 + 1) as [-> ->] by div_lia.
    pose proof (DaysInMonth_range (y + m / 12) (m mod 12) ltac:(lia)). unfold DaysInMonth in *. lia.
Qed.

End JsDate.
