(* ===== verification/Money.v ===== *)
(** * Currency and Money value objects

    [value-objects/currency.vo.ts] and [value-objects/money.vo.ts]. Amounts are
    non-negative integers of minor units ([bigint], hence [Z]); every operation
    that goes through [Number] (decimal amounts, factors, rates) does so in the
    binary64 model of [JsNumber]. Strings are byte strings: case mapping and
    trimming are those of ASCII. *)

From S2P Require Import Prelude JsNumber.

(** ** String operations *)

Module Str.

Definition upper_ascii (c : ascii) : ascii :=
  let n := N_of_ascii c in
  if (97 <=? n)%N && (n <=? 122)%N then ascii_of_N (n - 32) else c.

Fixpoint toUpperCase (s : string) : string :=
  match s with
  | EmptyString => EmptyString
  | String c s => String (upper_ascii c) (toUpperCase s)
  end.

(** Space, tab, line feed, vertical tab, form feed, carriage return. *)
Definition is_space (c : ascii) : bool :=
  let n := N_of_ascii c in (n =? 32)%N || ((9 <=? n)%N && (n <=? 13)%N).

Fixpoint trimStart (s : string) : string :=
  match s with
  | String c s' => if is_space c then trimStart s' else s
  | EmptyString => EmptyString
  end.

Fixpoint trimEnd (s : string) : string :=
  match s with
  | EmptyString => EmptyString
  | String c s' =>
      match trimEnd s' with
      | EmptyString => if is_space c then EmptyString else String c EmptyString
      | t => String c t
      end
  end.

Definition trim (s : string) : string := trimEnd (trimStart s).

(** The longest prefix of decimal digits, as a value and a count, with the rest. *)
Fixpoint digits (acc : Z) (n : Z) (s : string) : Z * Z * string :=
  match s with
  | String c s' =>
      let v := Z.of_N (N_of_ascii c) - 48 in
      if (0 <=? v) && (v <=? 9) then digits (10 * acc + v) (n + 1) s' else (acc, n, s)
  | EmptyString => (acc, n, s)
  end.

(** An optional sign. *)
Definition sign (s : string) : Z * string :=
  match s with
  | String "-" s' => (-1, s')
  | String "+" s' => (1, s')
  | _ => (1, s)
  end.

(** The exponent part [e±ddd], absent (zero) when malformed. *)
Definition exponent (s : string) : Z :=
  match s with
  | String "e" s' | String "E" s' =>
      let '(sg, s') := sign s' in
      let '(v, n, _) := digits 0 0 s' in
      if n =? 0 then 0 else sg * v
  | _ => 0
  end.

(** [parseFloat]: the longest prefix that is a decimal literal, NaN if none. *)
Definition parseFloat (s : string) : number :=
  let '(sg, s) := sign (trimStart s) in
  if String.prefix "Infinity" s then (if 0 <? sg then PosInf else NegInf)
  else
    let '(ip, ni, s) := digits 0 0 s in
    let '(m, nf, s) :=
      match s with
      | String "." s' => digits ip 0 s'
      | _ => (ip, 0, s)
      end in
    if ni + nf =? 0 then NaN
    else
      let e := exponent s - nf in
      if 0 <=? e then Num.lit (sg * m * 10 ^ e) 1 else Num.lit (sg * m) (10 ^ (- e)).

(** Digits in a radix up to 16; [None] on any other character. *)
Definition digit_value (c : ascii) : option Z :=
  let n := Z.of_N (N_of_ascii c) in
  if (48 <=? n) && (n <=? 57) then Some (n - 48)
  else if (97 <=? n) && (n <=? 102) then Some (n - 87)
  else if (65 <=? n) && (n <=? 70) then Some (n - 55)
  else None.

Fixpoint radix_value (radix acc : Z) (s : string) : option Z :=
  match s with
  | EmptyString => Some acc
  | String c s =>
      match digit_value c with
      | Some v => if v <? radix then radix_value radix (radix * acc + v) s else None
      | None => None
      end
  end.

(** A non-empty digit string in a radix. *)
Definition radix_literal (radix : Z) (s : string) : option Z :=
  match s with EmptyString => None | _ => radix_value radix 0 s end.

(** [BigInt(s)]: a trimmed decimal literal with an optional sign, a prefixed
    hexadecimal, octal or binary one, or nothing (zero); a SyntaxError
    otherwise. *)
Definition BigInt (s : string) : result Z :=
  let o :=
    match trim s with
    | EmptyString => Some 0
    | String "-" s' => Z.opp <$> radix_literal 10 s'
    | String "+" s' => radix_literal 10 s'
    | String "0" (String "x" s') | String "0" (String "X" s') => radix_literal 16 s'
    | String "0" (String "o" s') | String "0" (String "O" s') => radix_literal 8 s'
    | String "0" (String "b" s') | String "0" (String "B" s') => radix_literal 2 s'
    | s' => radix_literal 10 s'
    end in
  match o with Some n => Ok n | None => Throw (SyntaxError s) end.

End Str.

(** ** Currency *)

Module Currency.

Record t := mk { code : string; minorUnits : Z }.

#[global] Instance t_eq_dec : EqDecision t.
Proof. solve_decision. Defined.

Definition zero_decimal : list string :=
  ["BIF"; "CLP"; "DJF"; "GNF"; "JPY"; "KMF"; "KRW"; "MGA"; "PYG"; "RWF"; "UGX"; "VND"; "VUV";
   "XAF"; "XOF"; "XPF"]%string.
Definition three_decimal : list string :=
  ["BHD"; "IQD"; "JOD"; "KWD"; "LYD"; "OMR"; "TND"]%string.
Definition two_decimal : list string :=
  ["USD"; "EUR"; "GBP"; "AUD"; "CAD"; "CHF"; "CNY"; "HKD"; "SGD"; "SEK"; "NOK"; "DKK"; "NZD";
   "MXN"; "BRL"; "INR"; "TWD"; "THB"; "MYR"; "IDR"; "PHP"; "ZAR"; "AED"; "SAR"]%string.

Definition CURRENCY_MAP (code : string) : option Z :=
  if includes zero_decimal code then Some 0
  else if includes three_decimal code then Some 3
  else if includes two_decimal code then Some 2
  else None.

Definition of_ (code : string) : result t :=
  let normalized := Str.trim (Str.toUpperCase code) in
  if negb (Nat.eqb (String.length normalized) 3) then Throw (InvalidCurrencyCode code)
  else
    let minorUnits := nullish (CURRENCY_MAP normalized) 2 in
    Ok (mk normalized minorUnits).

Definition decimalFactor (c : t) : number := Num.lit (10 ^ minorUnits c) 1.

Definition equals (c other : t) : bool := String.eqb (code c) (code other).

(** The currencies [of] builds: reading the code again gives the same currency. *)
Definition wf (c : t) : Prop := of_ (code c) = Ok c.

End Currency.

(** ** Money *)

Record FXRateSnapshot := mkFXRateSnapshot {
  fx_fromCurrency : string;
  fx_toCurrency : string;
  fx_rate : number;
  fx_capturedAt : Date;
  fx_provider : string }.

#[global] Instance FXRateSnapshot_eq_dec : EqDecision FXRateSnapshot.
Proof. solve_decision. Defined.

Module Money.

Record t := mk {
  amountMinorUnits : Z;
  currency : Currency.t;
  fxSnapshot : option FXRateSnapshot }.

#[global] Instance t_eq_dec : EqDecision t.
Proof. solve_decision. Defined.

(** The private constructor. *)
Definition make (amount : Z) (currency : Currency.t) (fx : option FXRateSnapshot) : result t :=
  if amount <? 0 then Throw (NegativeAmount amount) else Ok (mk amount currency fx).

(** The [number | string] argument of [Money.of]. *)
Inductive amount_arg := ANumber (x : number) | AString (s : string).

Definition of_ (amount : amount_arg) (currencyCode : string) (fx : option FXRateSnapshot) : result t :=
  currency ← Currency.of_ currencyCode;
  let factor := Currency.decimalFactor currency in
  let numericAmount := match amount with AString s => Str.parseFloat s | ANumber x => x end in
  if Num.is_nan numericAmount then Throw InvalidAmount
  else
    minorUnits ← Num.round_bigint (Num.mul numericAmount factor);
    make minorUnits currency fx.

Definition fromMinorUnits (minorUnits : Z) (currencyCode : string) (fx : option FXRateSnapshot) : result t :=
  currency ← Currency.of_ currencyCode;
  make minorUnits currency fx.

(** [fromMinorUnits] with a [number] argument. *)
Definition fromMinorUnitsNumber (minorUnits : number) (currencyCode : string) (fx : option FXRateSnapshot)
    : result t :=
  currency ← Currency.of_ currencyCode;
  n ← Num.to_bigint minorUnits;
  make n currency fx.

Definition zero (currencyCode : string) : result t := fromMinorUnits 0 currencyCode None.

(** The decimal representation, e.g. [10.99]. *)
Definition amount (m : t) : number :=
  Num.div (Num.of_bigint (amountMinorUnits m)) (Currency.decimalFactor (currency m)).

Definition assertSameCurrency (m other : t) : result unit :=
  throw_if (negb (Currency.equals (currency m) (currency other)))
    (CurrencyMismatch (Currency.code (currency m)) (Currency.code (currency other))).

Definition add (m other : t) : result t :=
  _ ← assertSameCurrency m other;
  make (amountMinorUnits m + amountMinorUnits other) (currency m) None.

Definition subtract (m other : t) : result t :=
  _ ← assertSameCurrency m other;
  let result := amountMinorUnits m - amountMinorUnits other in
  if result <? 0 then Throw (NegativeSubtraction (amountMinorUnits m) (amountMinorUnits other))
  else make result (currency m) None.

Definition multiply (m : t) (factor : number) : result t :=
  result ← Num.round_bigint (Num.mul (Num.of_bigint (amountMinorUnits m)) factor);
  make result (currency m) None.

(** [now] is the clock read by [new Date()]. *)
Definition convertTo (now : Date) (m : t) (targetCurrencyCode : string) (rate : number)
    (provider : string) : result t :=
  targetCurrency ← Currency.of_ targetCurrencyCode;
  let convertedAmount := Num.mul (amount m) rate in
  let snapshot := mkFXRateSnapshot (Currency.code (currency m)) (Currency.code targetCurrency)
                    rate now provider in
  of_ (ANumber convertedAmount) targetCurrencyCode (Some snapshot).

Definition isZero (m : t) : bool := amountMinorUnits m =? 0.

Definition isGreaterThan (m other : t) : result bool :=
  _ ← assertSameCurrency m other;
  Ok (amountMinorUnits other <? amountMinorUnits m).

Definition isLessThan (m other : t) : result bool :=
  _ ← assertSameCurrency m other;
  Ok (amountMinorUnits m <? amountMinorUnits other).

Definition equals (m other : t) : bool :=
  Currency.equals (currency m) (currency other)
  && (amountMinorUnits m =? amountMinorUnits other).

(** [list.reduce((sum, x) => sum.add(x.amount), start)] *)
Fixpoint sum_from {A} (f : A → t) (start : t) (l : list A) : result t :=
  match l with
  | [] => Ok start
  | x :: l => s ← add start (f x); sum_from f s l
  end.

(** ** Well-formedness *)

Definition wf (m : t) : Prop := 0 ≤ amountMinorUnits m ∧ Currency.wf (currency m).

(** Same currency, by code. *)
Definition same (m other : t) : Prop := Currency.code (currency m) = Currency.code (currency other).

End Money.

(** ** Lemmas: currencies *)

Lemma currency_eq_of_code c1 c2 :
  Currency.wf c1 → Currency.wf c2 → Currency.code c1 = Currency.code c2 → c1 = c2.
Proof. unfold Currency.wf. congruence. Qed.

Lemma upper_ascii_idem c : Str.upper_ascii (Str.upper_ascii c) = Str.upper_ascii c.
Proof. destruct c as [[] [] [] [] [] [] [] []]; reflexivity. Qed.

Lemma toUpperCase_idem s : Str.toUpperCase (Str.toUpperCase s) = Str.toUpperCase s.
Proof. induction s as [|c s IH]; cbn; [done|]. by rewrite upper_ascii_idem, IH. Qed.

Lemma upper_ascii_space c : Str.is_space (Str.upper_ascii c) = Str.is_space c.
Proof. destruct c as [[] [] [] [] [] [] [] []]; reflexivity. Qed.

Lemma toUpperCase_trimStart s : Str.toUpperCase (Str.trimStart s) = Str.trimStart (Str.toUpperCase s).
Proof.
  induction s as [|c s IH]; cbn; [done|]. rewrite upper_ascii_space.
  destruct (Str.is_space c); [apply IH | done].
Qed.

Lemma toUpperCase_trimEnd s : Str.toUpperCase (Str.trimEnd s) = Str.trimEnd (Str.toUpperCase s).
Proof.
  induction s as [|c s IH]; cbn; [done|]. rewrite <- IH, upper_ascii_space.
  destruct (Str.trimEnd s); cbn; [by destruct (Str.is_space c)|done].
Qed.

Lemma trimStart_idem s : Str.trimStart (Str.trimStart s) = Str.trimStart s.
Proof.
  induction s as [|c s IH]; cbn; [done|]. destruct (Str.is_space c) eqn:E; [done|].
  cbn. by rewrite E.
Qed.

Lemma trimEnd_idem s : Str.trimEnd (Str.trimEnd s) = Str.trimEnd s.
Proof.
  induction s as [|c s IH]; cbn; [done|].
  destruct (Str.trimEnd s) as [|c' t] eqn:E.
  - destruct (Str.is_space c) eqn:Ec; cbn; [done|]. by rewrite Ec.
  - cbn in IH |- *. by rewrite IH.
Qed.

(** A string with no leading space keeps none when its end is trimmed. *)
Lemma trimStart_trimEnd s :
  Str.trimStart s = s → Str.trimStart (Str.trimEnd s) = Str.trimEnd s.
Proof.
  destruct s as [|c s]; [done|]. cbn.
  destruct (Str.is_space c) eqn:E.
  - intros H. exfalso. assert (String.length (Str.trimStart s) ≤ String.length s)%nat as Hl.
    { clear. induction s as [|c s IH]; cbn; [lia|]. destruct (Str.is_space c); cbn; lia. }
    rewrite H in Hl. cbn in Hl. lia.
  - intros _. destruct (Str.trimEnd s); cbn; by rewrite E.
Qed.

Lemma trim_idem s : Str.trim (Str.trim s) = Str.trim s.
Proof.
  unfold Str.trim. rewrite trimStart_trimEnd by apply trimStart_idem. apply trimEnd_idem.
Qed.

(** Every currency [Currency.of_] returns is well formed. *)
Lemma Currency_of_wf code c : Currency.of_ code = Ok c → Currency.wf c.
Proof.
  unfold Currency.wf, Currency.of_. cbv zeta. intros H.
  set (n := Str.trim (Str.toUpperCase code)) in *.
  destruct (negb (Nat.eqb (String.length n) 3)) eqn:E; [discriminate|].
  injection H as <-. cbn [Currency.code]. cbv zeta.
  assert (Str.trim (Str.toUpperCase n) = n) as ->.
  { subst n. unfold Str.trim at 1.
    rewrite <- toUpperCase_trimStart, <- toUpperCase_trimEnd.
    change (Str.trimEnd (Str.trimStart ?s)) with (Str.trim s). rewrite trim_idem.
    unfold Str.trim. by rewrite toUpperCase_trimEnd, toUpperCase_trimStart, toUpperCase_idem. }
  by rewrite E.
Qed.

Lemma Currency_equals_iff c other :
  Currency.equals c other = true ↔ Currency.code c = Currency.code other.
Proof. apply String.eqb_eq. Qed.

(** The decimal factor is one of [1], [100], [1000]. *)
Lemma wf_minorUnits c : Currency.wf c → Currency.minorUnits c ∈ [0; 2; 3].
Proof.
  unfold Currency.wf, Currency.of_. intros H. case_match; [discriminate|].
  injection H as <-. cbn. unfold nullish, Currency.CURRENCY_MAP.
  repeat case_match; simplify_eq; set_solver.
Qed.

Lemma decimalFactor_range c : Currency.wf c →
  Currency.decimalFactor c = Num.of_bigint (10 ^ Currency.minorUnits c)
  ∧ 0 < 10 ^ Currency.minorUnits c ≤ 1000.
Proof.
  intros H%wf_minorUnits. split; [done|].
  assert (Currency.minorUnits c = 0 ∨ Currency.minorUnits c = 2 ∨ Currency.minorUnits c = 3)
    as [->|[->| ->]] by set_solver; lia.
Qed.

(** ** Lemmas: money *)

Create HintDb money.

Lemma make_ok a c fx m : Money.make a c fx = Ok m ↔ 0 ≤ a ∧ m = Money.mk a c fx.
Proof. unfold Money.make. case_match; reflect_tests; naive_solver lia. Qed.

Lemma assertSameCurrency_ok m o u : Money.assertSameCurrency m o = Ok u ↔ Money.same m o.
Proof.
  unfold Money.assertSameCurrency, Money.same. rewrite throw_if_ok, negb_false_iff.
  apply Currency_equals_iff.
Qed.

Lemma assertSameCurrency_same m o : Money.same m o → Money.assertSameCurrency m o = Ok tt.
Proof. by rewrite <- (assertSameCurrency_ok m o tt). Qed.

Lemma add_ok m o r : Money.add m o = Ok r ↔
  Money.same m o ∧ 0 ≤ Money.amountMinorUnits m + Money.amountMinorUnits o
  ∧ r = Money.mk (Money.amountMinorUnits m + Money.amountMinorUnits o) (Money.currency m) None.
Proof.
  unfold Money.add. rewrite bind_ok_iff. split.
  - intros (u & ?%assertSameCurrency_ok & ?%make_ok). tauto.
  - intros (Hs & H). exists tt. by rewrite assertSameCurrency_ok, make_ok.
Qed.

Lemma subtract_ok m o r : Money.subtract m o = Ok r ↔
  Money.same m o ∧ Money.amountMinorUnits o ≤ Money.amountMinorUnits m
  ∧ r = Money.mk (Money.amountMinorUnits m - Money.amountMinorUnits o) (Money.currency m) None.
Proof.
  unfold Money.subtract. rewrite bind_ok_iff. split.
  - intros (u & ?%assertSameCurrency_ok & H). case_match; [discriminate|]. reflect_tests.
    apply make_ok in H as [? ->]. split_and!; [done|lia|done].
  - intros (Hs & Hle & ->). exists tt. rewrite assertSameCurrency_ok. split; [done|].
    case_match; reflect_tests; [lia|]. apply make_ok. split; [lia|done].
Qed.

Lemma isGreaterThan_ok m o b : Money.isGreaterThan m o = Ok b ↔
  Money.same m o ∧ b = (Money.amountMinorUnits o <? Money.amountMinorUnits m).
Proof.
  unfold Money.isGreaterThan. rewrite bind_ok_iff. split.
  - intros (u & ?%assertSameCurrency_ok & [= <-]). done.
  - intros (Hs & ->). exists tt. by rewrite assertSameCurrency_ok.
Qed.

Lemma equals_iff m o : Money.equals m o = true ↔
  Money.same m o ∧ Money.amountMinorUnits m = Money.amountMinorUnits o.
Proof.
  unfold Money.equals. by rewrite andb_true_iff, Currency_equals_iff, Z.eqb_eq.
Qed.

Lemma isZero_iff m : Money.isZero m = true ↔ Money.amountMinorUnits m = 0.
Proof. apply Z.eqb_eq. Qed.

Lemma fromMinorUnits_wf_code n c fx : Currency.wf c → 0 ≤ n →
  Money.fromMinorUnits n (Currency.code c) fx = Ok (Money.mk n c fx).
Proof.
  intros Hc Hn. unfold Money.fromMinorUnits. rewrite Hc. cbn. apply make_ok. done.
Qed.

Lemma zero_wf_code c : Currency.wf c → Money.zero (Currency.code c) = Ok (Money.mk 0 c None).
Proof. intros. by apply fromMinorUnits_wf_code. Qed.

Lemma same_currency m o : Money.wf m → Money.wf o → Money.same m o → Money.currency m = Money.currency o.
Proof. intros [_ ?] [_ ?]. by apply currency_eq_of_code. Qed.

Lemma make_wf a c fx m : Currency.wf c → Money.make a c fx = Ok m → Money.wf m.
Proof. intros ? [? ->]%make_ok. done. Qed.

Lemma add_wf m o r : Money.wf m → Money.add m o = Ok r → Money.wf r.
Proof. intros [_ ?] (_ & ? & ->)%add_ok. done. Qed.

Lemma subtract_wf m o r : Money.wf m → Money.subtract m o = Ok r → Money.wf r.
Proof. intros [_ ?] (_ & ? & ->)%subtract_ok. split; cbn; [lia|done]. Qed.

Lemma multiply_wf m f r : Money.wf m → Money.multiply m f = Ok r → Money.wf r.
Proof. unfold Money.multiply. intros [_ ?] (a & _ & ?%make_wf)%bind_ok_iff; done. Qed.

Lemma of_wf a code fx r : Money.of_ a code fx = Ok r → Money.wf r.
Proof.
  unfold Money.of_. intros (c & Hc%Currency_of_wf & H)%bind_ok_iff. cbv zeta in H.
  inv_ok. by eapply make_wf.
Qed.

Lemma fromMinorUnits_wf n code fx r : Money.fromMinorUnits n code fx = Ok r → Money.wf r.
Proof.
  unfold Money.fromMinorUnits. intros (c & Hc%Currency_of_wf & H)%bind_ok_iff. by eapply make_wf.
Qed.

Lemma convertTo_wf now m code rate p r : Money.convertTo now m code rate p = Ok r → Money.wf r.
Proof. unfold Money.convertTo. intros (c & _ & H)%bind_ok_iff. by eapply of_wf. Qed.

(** Adding two amounts of one currency never throws. *)
Lemma add_total m o : Money.wf m → Money.wf o → Money.same m o →
  Money.add m o = Ok (Money.mk (Money.amountMinorUnits m + Money.amountMinorUnits o) (Money.currency m) None).
Proof. intros [? _] [? _] ?. apply add_ok. split_and!; [done|lia|done]. Qed.

Lemma subtract_total m o : Money.same m o → Money.amountMinorUnits o ≤ Money.amountMinorUnits m →
  Money.subtract m o =
  Ok (Money.mk (Money.amountMinorUnits m - Money.amountMinorUnits o) (Money.currency m) None).
Proof. intros. by apply subtract_ok. Qed.

(** *** Sums *)

Lemma sum_from_ok {A} (f : A → Money.t) start l r : Money.sum_from f start l = Ok r →
  Money.currency r = Money.currency start
  ∧ Money.amountMinorUnits r = Money.amountMinorUnits start + sumZ (Money.amountMinorUnits ∘ f) l
  ∧ Forall (λ x, Money.same start (f x)) l.
Proof.
  revert start. induction l as [|x l IH]; intros start; cbn.
  { intros [= <-]. split_and!; [done|lia|constructor]. }
  intros (s & (Hs & Ha & ->)%add_ok & H)%bind_ok_iff. apply IH in H as (H1 & H2 & H3). cbn in *.
  split_and!; [done|lia|]. constructor; [done|].
  eapply Forall_impl; [exact H3|]. done.
Qed.

Lemma sum_from_total {A} (f : A → Money.t) start l :
  Money.wf start → Forall (λ x, Money.wf (f x) ∧ Money.same start (f x)) l →
  ∃ r, Money.sum_from f start l = Ok r ∧ Money.wf r.
Proof.
  revert start. induction l as [|x l IH]; intros start Hs Hl; cbn; [by exists start|].
  inversion_clear Hl as [|?? [Hx Hsame] Hl']. rewrite add_total by done. cbn.
  destruct Hs as [Hs Hcur], Hx as [Hx _]. apply IH; [split; cbn; [lia|done]|].
  eapply Forall_impl; [exact Hl'|]. done.
Qed.

(** *** Multiplication by a share *)

(** [bps / 10_000] *)
Definition bps_factor (bps : Z) : number := Num.div (Num.of_bigint bps) (Num.of_bigint 10000).

Lemma multiply_fraction m b :
  Money.wf m → Money.amountMinorUnits m ≤ 2 ^ 53 → 0 ≤ b ≤ Num.one →
  ∃ r, Money.multiply m (Fin b) = Ok (Money.mk r (Money.currency m) None)
       ∧ 0 ≤ r ≤ Money.amountMinorUnits m.
Proof.
  intros [H0 _] Hm Hb. unfold Money.multiply. rewrite Num.of_bigint_small by lia.
  destruct (Num.mul_fraction (Money.amountMinorUnits m) b) as [-> Hc]; [lia..|].
  rewrite Num.round_bigint_fin. cbn [mbind result_bind]. eexists.
  pose proof (Num.round_le _ _ (proj2 Hc)). pose proof (Num.round_ge _ 0 (proj1 Hc)).
  rewrite make_ok. split_and!; [| reflexivity | |]; lia.
Qed.

(** The two ends of the range of fractions are exact. *)
Lemma multiply_one m : Money.wf m → Money.amountMinorUnits m ≤ 2 ^ 53 →
  Money.multiply m (Fin Num.one) = Ok (Money.mk (Money.amountMinorUnits m) (Money.currency m) None).
Proof.
  intros [H0 _] Hm. pose proof Num.one_pos. unfold Money.multiply. rewrite Num.of_bigint_small by lia.
  cbn [Num.mul]. rewrite (Num.mk_bounded _ _ (Money.amountMinorUnits m)) by nia.
  rewrite Num.rnd_pos_exact by (try apply Num.repr_int; nia). rewrite Num.round_bigint_fin.
  cbn [mbind result_bind]. apply make_ok.
  assert ((2 * (Money.amountMinorUnits m * Num.one) + Num.one) / (2 * Num.one) = Money.amountMinorUnits m) as ->.
  { apply Z.le_antisymm; [apply Num.round_le | apply Num.round_ge]; lia. }
  done.
Qed.

Lemma multiply_zero m : Money.wf m → Money.amountMinorUnits m ≤ 2 ^ 53 →
  Money.multiply m (Fin 0) = Ok (Money.mk 0 (Money.currency m) None).
Proof.
  intros Hw Hm. pose proof Num.one_pos. pose proof Hw as [H0 _]. unfold Money.multiply.
  rewrite Num.of_bigint_small by lia. cbn [Num.mul]. rewrite Z.mul_0_r.
  rewrite (Num.mk_bounded _ _ 0) by lia. rewrite Num.rnd_pos_0, Num.round_bigint_fin by lia.
  cbn [mbind result_bind]. apply make_ok.
  assert ((2 * 0 + Num.one) / (2 * Num.one) = 0) as ->.
  { apply Z.le_antisymm; [apply Num.round_le | apply Num.round_ge]; lia. }
  done.
Qed.

Lemma bps_factor_fraction bps : 0 ≤ bps ≤ 10000 → ∃ b, bps_factor bps = Fin b ∧ 0 ≤ b ≤ Num.one.
Proof.
  intros. unfold bps_factor. rewrite Num.div_of_bigint by lia.
  destruct (Num.lit_fraction bps 10000) as [-> Hb]; [lia..|]. eauto.
Qed.

(** A share of at most 100% never exceeds the amount. *)
Lemma multiply_bps_le m bps :
  Money.wf m → Money.amountMinorUnits m ≤ 2 ^ 53 → 0 ≤ bps ≤ 10000 →
  ∃ r, Money.multiply m (bps_factor bps) = Ok (Money.mk r (Money.currency m) None)
       ∧ 0 ≤ r ≤ Money.amountMinorUnits m.
Proof.
  intros Hm Hmax Hb. destruct (bps_factor_fraction bps Hb) as (b & -> & ?).
  by apply multiply_fraction.
Qed.

(** *** Conversion *)

(** A rate the conversion accepts: finite, not negative, below [2^100]. *)
Definition rate_ok (rate : number) : Prop := ∃ k, rate = Fin k ∧ 0 ≤ k ≤ 2 ^ 100 * Num.one.

(** Converting into a valid currency at such a rate never throws. *)
Lemma convertTo_total now m code c rate provider :
  Money.wf m → Money.amountMinorUnits m ≤ 2 ^ 53 → Currency.of_ code = Ok c → rate_ok rate →
  ∃ r, Money.convertTo now m code rate provider
       = Ok (Money.mk r c (Some (mkFXRateSnapshot (Currency.code (Money.currency m))
                                   (Currency.code c) rate now provider))) ∧ 0 ≤ r.
Proof.
  intros [H0 Hc] Hmax Hcode (k & -> & Hk). pose proof Num.one_pos.
  unfold Money.convertTo, Money.of_. rewrite Hcode. cbn [mbind result_bind]. cbv zeta.
  destruct (decimalFactor_range _ Hc) as [E Hf].
  destruct (decimalFactor_range _ (Currency_of_wf _ _ Hcode)) as [E' Hf'].
  unfold Money.amount. rewrite E, E', Num.div_of_bigint by lia. unfold Num.lit.
  destruct (Num.mk_pow_bounded (Money.amountMinorUnits m * Num.one)
              (10 ^ Currency.minorUnits (Money.currency m)) 53) as [-> Ha]; [lia..|nia|].
  cbn [Num.mul].
  match goal with |- context [Num.mk (?a * k) Num.one] => set (x := a) in * end.
  destruct (Num.mk_pow_bounded (x * k) Num.one 153) as [-> Hx]; [lia|nia|lia| |].
  { replace (2 ^ 153 * Num.one * Num.one) with (2 ^ 53 * Num.one * (2 ^ 100 * Num.one)) by ring.
    apply Z.mul_le_mono_nonneg; lia. }
  cbn [Num.is_nan]. rewrite Num.of_bigint_small by lia. cbn [Num.mul].
  match goal with |- context [Num.mk (?a * ?b) Num.one] => set (y := a) in *; set (z := b) in * end.
  destruct (Num.mk_pow_bounded (y * z) Num.one 163) as [-> Hy]; [lia|nia|lia| |].
  { replace (2 ^ 163 * Num.one * Num.one) with (2 ^ 153 * Num.one * (2 ^ 10 * Num.one)) by ring.
    apply Z.mul_le_mono_nonneg; subst z; nia. }
  rewrite Num.round_bigint_fin. cbn [mbind result_bind]. eexists. split.
  - apply make_ok. split; [|reflexivity]. apply Num.round_ge. lia.
  - apply Num.round_ge. lia.
Qed.

(** *** Comparing the decimal amount with a half-integer of major units is exact *)

Lemma amount_ltb m h : Money.wf m → Money.amountMinorUnits m ≤ 2 ^ 53 → 0 ≤ h ≤ 2 ^ 42 →
  Num.ltb (Money.amount m) (Fin (h * Num.half))
  = (2 * Money.amountMinorUnits m <? h * 10 ^ Currency.minorUnits (Money.currency m)).
Proof.
  intros [? Hc] Hm Hh. destruct (decimalFactor_range _ Hc) as [E Hf]. unfold Money.amount. rewrite E.
  apply Num.ltb_div_half; lia.
Qed.

Lemma amount_gtb m h : Money.wf m → Money.amountMinorUnits m ≤ 2 ^ 53 → 0 ≤ h ≤ 2 ^ 42 →
  Num.gtb (Money.amount m) (Fin (h * Num.half))
  = (h * 10 ^ Currency.minorUnits (Money.currency m) <? 2 * Money.amountMinorUnits m).
Proof.
  intros [? Hc] Hm Hh. destruct (decimalFactor_range _ Hc) as [E Hf]. unfold Money.amount. rewrite E.
  apply Num.ltb_half_div; lia.
Qed.

(** ... in particular with a whole number of major units. *)
Lemma amount_ltb_int m k : Money.wf m → Money.amountMinorUnits m ≤ 2 ^ 53 → 0 ≤ k ≤ 2 ^ 41 →
  Num.ltb (Money.amount m) (Num.of_bigint k)
  = (Money.amountMinorUnits m <? k * 10 ^ Currency.minorUnits (Money.currency m)).
Proof.
  intros. rewrite Num.of_bigint_half, amount_ltb by (done || lia).
  destruct (Z.ltb_spec (Money.amountMinorUnits m) (k * 10 ^ Currency.minorUnits (Money.currency m)));
    [apply Z.ltb_lt | apply Z.ltb_ge]; lia.
Qed.

Lemma amount_gtb_int m k : Money.wf m → Money.amountMinorUnits m ≤ 2 ^ 53 → 0 ≤ k ≤ 2 ^ 41 →
  Num.gtb (Money.amount m) (Num.of_bigint k)
  = (k * 10 ^ Currency.minorUnits (Money.currency m) <? Money.amountMinorUnits m).
Proof.
  intros. rewrite Num.of_bigint_half, amount_gtb by (done || lia).
  destruct (Z.ltb_spec (k * 10 ^ Currency.minorUnits (Money.currency m)) (Money.amountMinorUnits m));
    [apply Z.ltb_lt | apply Z.ltb_ge]; lia.
Qed.

(** An amount of US dollars, for the concrete examples. *)
Definition usd (n : Z) : Money.t := Money.mk n (Currency.mk "USD" 2) None.

Lemma usd_wf n : 0 ≤ n → Money.wf (usd n).
Proof. intros. split; [done | reflexivity]. Qed.

(** ** Properties *)

(** C29: a share of [bps] basis points of an amount of up to 150 billion minor
    units, computed through binary64 as [multiply(bps / 10_000)] does, never
    throws, keeps the currency, never exceeds the amount, and is within half a
    minor unit of the exact share. *)
Theorem multiply_bps_nearest (m : Money.t) (bps : Z) :
  Money.wf m → Money.amountMinorUnits m ≤ 150_000_000_000 → 0 ≤ bps ≤ 10000 →
  ∃ r, Money.multiply m (bps_factor bps) = Ok r
    ∧ Money.wf r ∧ Money.currency r = Money.currency m
    ∧ Money.amountMinorUnits r ≤ Money.amountMinorUnits m
    ∧ 2 * Z.abs (Money.amountMinorUnits r * 10000 - Money.amountMinorUnits m * bps) ≤ 10000.
Proof.
  intros Hm Hmax Hb. destruct (multiply_bps_le m bps) as (r & E & Hr); [done|lia|done|].
  exists (Money.mk r (Money.currency m) None). pose proof Hm as [? ?].
  split_and!; [done|split; cbn; [lia|done]|done|cbn; lia|].
  unfold Money.multiply, bps_factor in E. rewrite Num.div_of_bigint in E by lia.
  destruct (Num.round_mul_literal (Money.amountMinorUnits m) bps 10000) as (r' & E' & Herr); [lia..|nia|].
  rewrite E' in E. cbn [mbind result_bind] in E. apply make_ok in E as [_ [= ->]]. cbn. lia.
Qed.

Lemma multiply_bps_nearest_witness :
  ∃ r, Money.multiply (Money.mk 1999 (Currency.mk "USD" 2) None) (bps_factor 290) = Ok r
    ∧ Money.wf r ∧ Money.currency r = Currency.mk "USD" 2
    ∧ Money.amountMinorUnits r ≤ 1999
    ∧ 2 * Z.abs (Money.amountMinorUnits r * 10000 - 1999 * 290) ≤ 10000.
Proof.
  apply (multiply_bps_nearest (Money.mk 1999 (Currency.mk "USD" 2) None) 290).
  - split; [cbn; lia | reflexivity].
  - cbn; lia.
  - lia.
Defined.

(** [Money.of(m.amount, m.currency.code)] gives back exactly the minor
    units of [m], although both the division and the multiplication by the
    decimal factor are rounded in binary64. *)
Theorem of_amount_roundtrip (m : Money.t) (fx : option FXRateSnapshot) :
  Money.wf m → 6 * Money.amountMinorUnits m < 2 ^ 53 →
  Money.of_ (Money.ANumber (Money.amount m)) (Currency.code (Money.currency m)) fx
  = Ok (Money.mk (Money.amountMinorUnits m) (Money.currency m) fx).
Proof.
  intros [H0 Hc] Hmax. unfold Money.of_. rewrite Hc. cbn [mbind result_bind].
  destruct (decimalFactor_range _ Hc) as [E Hf]. unfold Money.amount. cbv zeta. rewrite E.
  pose proof (Num.round_div_mul (Money.amountMinorUnits m) (10 ^ Currency.minorUnits (Money.currency m))
                H0 ltac:(lia) Hmax) as Hr.
  destruct (Num.div _ _) as [| | |k]; try discriminate Hr; cbn [Num.is_nan];
    rewrite Hr; cbn [mbind result_bind]; by apply make_ok.
Qed.

Lemma of_amount_roundtrip_witness :
  Money.of_ (Money.ANumber (Money.amount (Money.mk 1099 (Currency.mk "USD" 2) None))) "USD" None
  = Ok (Money.mk 1099 (Currency.mk "USD" 2) None).
Proof.
  apply (of_amount_roundtrip (Money.mk 1099 (Currency.mk "USD" 2) None) None).
  - split; [cbn; lia | reflexivity].
  - cbn; lia.
Defined.
