(* ===== verification/Policies.v ===== *)
(** * Domain policies

    The pure decision functions of [domain/services] and the card value object
    they read: BIN information, decline classification, interchange
    qualification, SCA exemptions, automatic dispute disposition, risk weights,
    fee schedules, chargeback tiers and the cross-border tax record. Risk scores
    are integers: [calculateRiskScore] sums integer constants only. *)

From stdpp Require Import pretty.
From S2P Require Import Prelude JsNumber Money.

(** ** Providers ([payment.aggregate.ts]) *)

Inductive PSPProvider := STRIPE | ADYEN | PAYPAL | CHASE.

#[global] Instance PSPProvider_eq_dec : EqDecision PSPProvider.
Proof. solve_decision. Defined.

(** ** BIN information ([bin-info.vo.ts]) *)

Module Bin.

Inductive CardBrand := VISA | MASTERCARD | AMEX | DISCOVER | JCB | UNIONPAY | DINERS | UNKNOWN_BRAND.
Inductive CardType := CREDIT | DEBIT | PREPAID | UNKNOWN_TYPE.
Inductive CardProduct := CONSUMER | CONSUMER_REWARDS | COMMERCIAL.

Record t := mk {
  bin : string;
  country : string;
  cardBrand : CardBrand;
  cardType : CardType;
  cardProduct : CardProduct;
  issuingBank : option string }.

Fixpoint all_digits (s : string) : bool :=
  match s with
  | EmptyString => true
  | String c s => let n := N_of_ascii c in ((48 <=? n)%N && (n <=? 57)%N) && all_digits s
  end.

(** [/^\d{6,8}$/.test(bin)] *)
Definition valid_bin (s : string) : bool :=
  all_digits s && (6 <=? String.length s)%nat && (String.length s <=? 8)%nat.

Definition create (bin country : string) (cardBrand : CardBrand) (cardType : CardType)
    (cardProduct : option CardProduct) (issuingBank : option string) : result t :=
  if negb (valid_bin bin) then Throw (InvalidBin bin)
  else Ok (mk bin (Str.toUpperCase country) cardBrand cardType (nullish cardProduct CONSUMER) issuingBank).

Definition euCountries : list string :=
  ["AT"; "BE"; "BG"; "CY"; "CZ"; "DE"; "DK"; "EE"; "ES"; "FI"; "FR"; "GR"; "HR"; "HU"; "IE"; "IT";
   "LT"; "LU"; "LV"; "MT"; "NL"; "PL"; "PT"; "RO"; "SE"; "SI"; "SK"; "GB"]%string.

Definition isEuropean (b : t) : bool := includes euCountries (country b).
Definition requiresSCA (b : t) : bool := isEuropean b.

End Bin.

(** ** Decline codes ([decline-code-classifier.ts]) *)

Module Decline.

Inductive DeclineCategory := RETRYABLE | HARD_DECLINE.

#[global] Instance DeclineCategory_eq_dec : EqDecision DeclineCategory.
Proof. solve_decision. Defined.

Definition HARD_DECLINE_CODES (p : PSPProvider) : list string :=
  match p with
  | STRIPE => ["stolen_card"; "lost_card"; "fraudulent"; "pickup_card"; "restricted_card"; "expired_card"]%string
  | ADYEN => ["5"; "6"; "14"; "20"; "22"; "25"; "26"; "31"; "50"]%string
  | PAYPAL => []
  | CHASE => []
  end.

Definition classifyDeclineCode (errorCode : option string) (pspProvider : option PSPProvider) : DeclineCategory :=
  match errorCode, pspProvider with
  | Some code, Some psp =>
      if String.eqb code "" then RETRYABLE
      else if includes (HARD_DECLINE_CODES psp) code then HARD_DECLINE else RETRYABLE
  | _, _ => RETRYABLE
  end.

End Decline.

(** ** Interchange ([interchange-rate-table.ts], [interchange-qualification.ts]) *)

Module Interchange.
Import Bin.

Record InterchangeRate := mkRate { bps : Z; fixedMinorUnits : Z }.

Definition RATE_TABLE (b : CardBrand) (p : CardProduct) : option InterchangeRate :=
  match b, p with
  | VISA, CONSUMER => Some (mkRate 180 10)
  | VISA, CONSUMER_REWARDS => Some (mkRate 210 10)
  | VISA, COMMERCIAL => Some (mkRate 250 10)
  | MASTERCARD, CONSUMER => Some (mkRate 175 10)
  | MASTERCARD, CONSUMER_REWARDS => Some (mkRate 205 10)
  | MASTERCARD, COMMERCIAL => Some (mkRate 245 10)
  | _, _ => None
  end.

Definition FLAT_BRAND_RATE (b : CardBrand) : option InterchangeRate :=
  match b with
  | AMEX => Some (mkRate 250 10)
  | DISCOVER => Some (mkRate 175 10)
  | _ => None
  end.

Definition DEFAULT_RATE : InterchangeRate := mkRate 300 10.
Definition DOWNGRADE_SURCHARGE_BPS : Z := 80.

Definition lookupInterchangeRate (b : CardBrand) (p : CardProduct) : InterchangeRate :=
  nullish (RATE_TABLE b p) (nullish (FLAT_BRAND_RATE b) DEFAULT_RATE).

Inductive AvsResult := AVS_MATCH | AVS_PARTIAL | AVS_NO_MATCH | AVS_UNAVAILABLE.
Inductive CvvResult := CVV_MATCH | CVV_NO_MATCH | CVV_UNAVAILABLE.
Inductive InterchangeDowngradeReason :=
  AVS_NOT_MATCHED | CVV_NOT_MATCHED | NO_AVS_CVV_DATA | LATE_SETTLEMENT.

Record InterchangeQualificationResult := mkQualification {
  q_cardBrand : CardBrand;
  q_cardProduct : CardProduct;
  qualifiedBps : Z;
  qualifiedFixedMinorUnits : Z;
  downgraded : bool;
  downgradeReasons : list InterchangeDowngradeReason;
  appliedBps : Z;
  appliedFixedMinorUnits : Z }.

Definition SETTLEMENT_WINDOW_HOURS : Z := 48.

Definition avs_reason (a : option AvsResult) : list InterchangeDowngradeReason :=
  match a with None | Some AVS_MATCH => [] | Some _ => [AVS_NOT_MATCHED] end.
Definition cvv_reason (c : option CvvResult) : list InterchangeDowngradeReason :=
  match c with None | Some CVV_MATCH => [] | Some _ => [CVV_NOT_MATCHED] end.

Definition evaluateInterchangeQualification (cardBrand : CardBrand) (cardProduct : CardProduct)
    (avsResult : option AvsResult) (cvvResult : option CvvResult) (settlementDelayHours : number)
    : InterchangeQualificationResult :=
  let rate := lookupInterchangeRate cardBrand cardProduct in
  let reasons :=
    match avsResult, cvvResult with
    | None, None => [NO_AVS_CVV_DATA]
    | _, _ => avs_reason avsResult ++ cvv_reason cvvResult
    end in
  let reasons :=
    if Num.gtb settlementDelayHours (Num.of_bigint SETTLEMENT_WINDOW_HOURS)
    then reasons ++ [LATE_SETTLEMENT] else reasons in
  let downgraded := (0 <? length reasons)%nat in
  mkQualification cardBrand cardProduct (bps rate) (fixedMinorUnits rate) downgraded reasons
    (if downgraded then bps rate + DOWNGRADE_SURCHARGE_BPS else bps rate) (fixedMinorUnits rate).

End Interchange.

(** ** SCA exemptions ([sca-exemption.ts]) *)

Module Sca.

Inductive ScaExemptionType := LOW_VALUE | TRANSACTION_RISK_ANALYSIS | MIT.

#[global] Instance ScaExemptionType_eq_dec : EqDecision ScaExemptionType.
Proof. solve_decision. Defined.

Record ScaExemptionEligibility := mkEligibility {
  exemption : option ScaExemptionType;
  reason : string }.

Definition LOW_VALUE_THRESHOLD_MAJOR_UNITS : Z := 30.
Definition LOW_VALUE_EXEMPTION_STREAK_CAP : Z := 5.
Definition TRA_AMOUNT_CAP_MAJOR_UNITS : Z := 250.
Definition TRA_RISK_SCORE_MAX : Z := 30.

Definition evaluateScaExemption (amount : Money.t) (riskScore : Z) (isMitRenewal isEuropean : bool)
    (lowValueStreakCount : Z) : ScaExemptionEligibility :=
  if isMitRenewal then
    mkEligibility (Some MIT)
      "Merchant-initiated recurring charge — cardholder not present for this specific charge"
  else if negb isEuropean then
    mkEligibility None "Not a European card — the PSD2 SCA exemption question does not apply"
  else
    let amountMajorUnits := Money.amount amount in
    if Num.ltb amountMajorUnits (Num.of_bigint LOW_VALUE_THRESHOLD_MAJOR_UNITS) then
      if lowValueStreakCount <? LOW_VALUE_EXEMPTION_STREAK_CAP then
        mkEligibility (Some LOW_VALUE)
          ("Amount under the low-value threshold, consecutive exemption count ("
           +:+ pretty lowValueStreakCount +:+ ") under the cap ("
           +:+ pretty LOW_VALUE_EXEMPTION_STREAK_CAP +:+ ")")
      else
        mkEligibility None
          ("Amount under the low-value threshold, but the consecutive exemption count ("
           +:+ pretty lowValueStreakCount +:+ ") already reached the cap ("
           +:+ pretty LOW_VALUE_EXEMPTION_STREAK_CAP +:+ ") — a fresh challenge is due")
    else if Num.ltb amountMajorUnits (Num.of_bigint TRA_AMOUNT_CAP_MAJOR_UNITS)
            && (riskScore <=? TRA_RISK_SCORE_MAX) then
      mkEligibility (Some TRANSACTION_RISK_ANALYSIS)
        ("Amount under the TRA cap and risk score (" +:+ pretty riskScore
         +:+ ") at or under the TRA threshold (" +:+ pretty TRA_RISK_SCORE_MAX +:+ ")")
    else mkEligibility None "No exemption criteria met — a real SCA challenge is expected".

End Sca.

(** ** Automatic dispute disposition ([dispute-policy.ts], [dispute-risk-weight.ts])

    Table look-ups are those of the listed keys: a reason code that names a
    property every JavaScript object inherits is outside the model. *)

Module DisputePolicy.

Inductive DisputeAutoDecision := ACCEPT | CONTEST | MANUAL_REVIEW.
Inductive RiskTier := LOW | MEDIUM | HIGH.

#[global] Instance DisputeAutoDecision_eq_dec : EqDecision DisputeAutoDecision.
Proof. solve_decision. Defined.
#[global] Instance RiskTier_eq_dec : EqDecision RiskTier.
Proof. solve_decision. Defined.

Definition DEFAULT_AUTO_ACCEPT_THRESHOLD_MAJOR_UNITS : number := Num.lit 15 1.
Definition DEFAULT_LOW_RISK_THRESHOLD_MULTIPLIER : number := Num.lit 1 2.
Definition DEFAULT_HIGH_RISK_THRESHOLD_MULTIPLIER : number := Num.lit 2 1.

Definition AUTO_CONTESTABLE_REASONS : list string := ["product_not_received"; "duplicate"]%string.
Definition LOW_RISK_EXTRA_CONTESTABLE_REASONS : list string := ["subscription_canceled"]%string.

Definition EVIDENCE_TEMPLATES (reason : string) : option string :=
  if String.eqb reason "product_not_received" then Some
    ("Automated response (dispute policy): shipment/delivery confirmation is on file for this order. "
     +:+ "Operator: verify tracking before this dispute's response deadline in case a fuller submission is warranted.")
  else if String.eqb reason "duplicate" then Some
    ("Automated response (dispute policy): transaction records on file show this as a single, non-duplicate charge. "
     +:+ "Operator: confirm no duplicate settlement occurred before this dispute's response deadline.")
  else if String.eqb reason "subscription_canceled" then Some
    ("Automated response (dispute policy): billing records on file show this subscription was active and not "
     +:+ "canceled as of the charge date. Operator: confirm the cancellation policy/timestamp before this dispute's "
     +:+ "response deadline.")
  else None.

Definition EVIDENCE_GUIDANCE (reason : string) : option string :=
  if String.eqb reason "fraudulent" then Some
    ("Cardholder disputes authorizing this charge. Strongest evidence: AVS/CVV match results, 3DS "
     +:+ "authentication proof, prior undisputed transaction history with this cardholder, IP/device "
     +:+ "fingerprint matching account history.")
  else if String.eqb reason "product_not_received" then Some
    ("Provide shipment tracking with delivery confirmation, or proof of digital delivery "
     +:+ "(download/access logs) if this was a digital good.")
  else if String.eqb reason "duplicate" then Some
    ("Provide the two transaction IDs the cardholder believes are duplicates and show they correspond "
     +:+ "to distinct orders/charges, or that only one was ever actually settled.")
  else if String.eqb reason "subscription_canceled" then Some
    ("Provide the cancellation policy the cardholder agreed to and the actual cancellation timestamp "
     +:+ "versus the charge date.")
  else None.

Definition DEFAULT_EVIDENCE_GUIDANCE : string :=
  "No specific guidance for this reason code — review the raw dispute details and respond with "
  +:+ "general evidence (receipts, communication logs, delivery/usage records).".

Definition DEFAULT_EVIDENCE : string :=
  "Automated response (dispute policy): evidence submitted per default dispute policy.".

Definition decideAutoDisposition (amount : Money.t) (reason : option string)
    (autoAcceptThresholdMajorUnits : number) (merchantRiskTier : option RiskTier)
    (lowRiskThresholdMultiplier highRiskThresholdMultiplier : number) : DisputeAutoDecision :=
  let effectiveThreshold :=
    match merchantRiskTier with
    | Some LOW => Num.mul autoAcceptThresholdMajorUnits lowRiskThresholdMultiplier
    | Some HIGH => Num.mul autoAcceptThresholdMajorUnits highRiskThresholdMultiplier
    | _ => autoAcceptThresholdMajorUnits
    end in
  if Num.ltb (Money.amount amount) effectiveThreshold then ACCEPT
  else
    let contestableReasons :=
      match merchantRiskTier with
      | Some LOW => AUTO_CONTESTABLE_REASONS ++ LOW_RISK_EXTRA_CONTESTABLE_REASONS
      | _ => AUTO_CONTESTABLE_REASONS
      end in
    match reason with
    | Some r => if negb (String.eqb r "") && includes contestableReasons r then CONTEST else MANUAL_REVIEW
    | None => MANUAL_REVIEW
    end.

(** The call with every optional parameter left to its default. *)
Definition decideAutoDisposition_default (amount : Money.t) (reason : option string)
    (merchantRiskTier : option RiskTier) : DisputeAutoDecision :=
  decideAutoDisposition amount reason DEFAULT_AUTO_ACCEPT_THRESHOLD_MAJOR_UNITS merchantRiskTier
    DEFAULT_LOW_RISK_THRESHOLD_MULTIPLIER DEFAULT_HIGH_RISK_THRESHOLD_MULTIPLIER.

Definition autoContestEvidenceFor (reason : option string) : string :=
  match reason with
  | Some r => if String.eqb r "" then DEFAULT_EVIDENCE else nullish (EVIDENCE_TEMPLATES r) DEFAULT_EVIDENCE
  | None => DEFAULT_EVIDENCE
  end.

Definition evidenceGuidanceFor (reason : option string) : string :=
  match reason with
  | Some r => if String.eqb r "" then DEFAULT_EVIDENCE_GUIDANCE
              else nullish (EVIDENCE_GUIDANCE r) DEFAULT_EVIDENCE_GUIDANCE
  | None => DEFAULT_EVIDENCE_GUIDANCE
  end.

Definition DISPUTE_RISK_WEIGHTS (reason : string) : option number :=
  if String.eqb reason "fraudulent" then Some (Num.lit 1 1)
  else if String.eqb reason "product_not_received" then Some (Num.lit 1 2)
  else if String.eqb reason "subscription_canceled" then Some (Num.lit 1 2)
  else if String.eqb reason "duplicate" then Some (Num.lit 1 4)
  else None.

Definition DEFAULT_DISPUTE_RISK_WEIGHT : number := Num.lit 1 1.

Definition getDisputeRiskWeight (reason : option string) : number :=
  match reason with
  | Some r => if String.eqb r "" then DEFAULT_DISPUTE_RISK_WEIGHT
              else nullish (DISPUTE_RISK_WEIGHTS r) DEFAULT_DISPUTE_RISK_WEIGHT
  | None => DEFAULT_DISPUTE_RISK_WEIGHT
  end.

End DisputePolicy.

(** ** Fees ([instant-payout-fee.ts], [bnpl-fee.ts]) *)

Module Fees.

Definition INSTANT_PAYOUT_FEE_BPS : Z := 150.
Definition calculateInstantPayoutFee (amount : Money.t) : result Money.t :=
  Money.multiply amount (Num.div (Num.of_bigint INSTANT_PAYOUT_FEE_BPS) (Num.of_bigint 10000)).

Definition KLARNA_MERCHANT_FEE_BPS : Z := 399.
Definition calculateBnplProviderFee (amount : Money.t) : result Money.t :=
  Money.multiply amount (Num.div (Num.of_bigint KLARNA_MERCHANT_FEE_BPS) (Num.of_bigint 10000)).

End Fees.

(** ** Chargeback tiers ([chargeback-monitoring-tier.ts]) *)

Module ChargebackTier.

Inductive ChargebackMonitoringTier := NONE | MONITORING | EXCESSIVE.

(** The index in [TIER_ORDER]. *)
Definition chargebackTierRank (tier : ChargebackMonitoringTier) : Z :=
  match tier with NONE => 0 | MONITORING => 1 | EXCESSIVE => 2 end.

Definition isChargebackTierEscalation (previous next : ChargebackMonitoringTier) : bool :=
  chargebackTierRank previous <? chargebackTierRank next.

End ChargebackTier.

(** ** Tax record ([tax-record.ts]); the date keeps its time value, not its ISO text *)

Module Tax.

Record TaxRecord := mkTaxRecord {
  jurisdiction : string;
  jurisdictionBasis : string;
  collectedAmountMinorUnits : string;
  currencyCode : string;
  capturedAt : Date }.

Definition buildCrossBorderTaxRecord (amount : Money.t) (binInfo : option Bin.t) (now : Date) : option TaxRecord :=
  match binInfo with
  | None => None
  | Some b =>
      Some (mkTaxRecord (Bin.country b) "card-issuing-country" (pretty (Money.amountMinorUnits amount))
              (Currency.code (Money.currency amount)) now)
  end.

End Tax.

(** ** Lemmas *)

(** The default thresholds, in halves of a major unit: 7.5, 15 and 30. *)
Definition default_threshold_halves (tier : option DisputePolicy.RiskTier) : Z :=
  match tier with
  | Some DisputePolicy.LOW => 15
  | Some DisputePolicy.HIGH => 60
  | _ => 30
  end.

Lemma default_threshold_value tier :
  match tier with
  | Some DisputePolicy.LOW =>
      Num.mul DisputePolicy.DEFAULT_AUTO_ACCEPT_THRESHOLD_MAJOR_UNITS
              DisputePolicy.DEFAULT_LOW_RISK_THRESHOLD_MULTIPLIER
  | Some DisputePolicy.HIGH =>
      Num.mul DisputePolicy.DEFAULT_AUTO_ACCEPT_THRESHOLD_MAJOR_UNITS
              DisputePolicy.DEFAULT_HIGH_RISK_THRESHOLD_MULTIPLIER
  | _ => DisputePolicy.DEFAULT_AUTO_ACCEPT_THRESHOLD_MAJOR_UNITS
  end = Fin (default_threshold_halves tier * Num.half).
Proof. destruct tier as [[]|]; vm_compute; reflexivity. Qed.

(** The reasons a tier contests automatically. *)
Definition contestable (r : string) (tier : option DisputePolicy.RiskTier) : bool :=
  negb (String.eqb r "") && includes
    match tier with
    | Some DisputePolicy.LOW =>
        DisputePolicy.AUTO_CONTESTABLE_REASONS ++ DisputePolicy.LOW_RISK_EXTRA_CONTESTABLE_REASONS
    | _ => DisputePolicy.AUTO_CONTESTABLE_REASONS
    end r.

Lemma contestable_iff r tier : contestable r tier = true ↔
  (r = "product_not_received" ∨ r = "duplicate"
   ∨ (r = "subscription_canceled" ∧ tier = Some DisputePolicy.LOW))%string.
Proof.
  unfold contestable. rewrite andb_true_iff, includes_In. split.
  - intros [_ Hin]. destruct tier as [[]|]; cbn in Hin; intuition auto.
  - intros [->|[->|[-> ->]]]; [destruct tier as [[]|]..|]; cbn; intuition auto.
Qed.

Lemma evidence_of_contestable r tier : contestable r tier = true →
  DisputePolicy.autoContestEvidenceFor (Some r) ≠ DisputePolicy.DEFAULT_EVIDENCE.
Proof. intros [->|[->|[-> _]]]%contestable_iff; discriminate. Qed.

(** ** Properties *)

(** The SCA exemption is decided exactly as PSD2's fixed precedence
    prescribes, on whole minor units: MIT first whatever the card, nothing for a
    non-European card, then low value under 30 major units while fewer than five
    consecutive exemptions were used, then risk analysis under 250 major units
    with a score of at most 30. The binary64 comparison of the decimal amount
    never misclassifies an amount. *)
Theorem sca_exemption_exact (amount : Money.t) (riskScore streak : Z) (isMit isEu : bool) :
  Money.wf amount → Money.amountMinorUnits amount ≤ 2 ^ 53 →
  Sca.exemption (Sca.evaluateScaExemption amount riskScore isMit isEu streak) =
  let unit := 10 ^ Currency.minorUnits (Money.currency amount) in
  if isMit then Some Sca.MIT
  else if negb isEu then None
  else if Money.amountMinorUnits amount <? 30 * unit then
    (if streak <? 5 then Some Sca.LOW_VALUE else None)
  else if (Money.amountMinorUnits amount <? 250 * unit) && (riskScore <=? 30) then
    Some Sca.TRANSACTION_RISK_ANALYSIS
  else None.
Proof.
  intros Hm Hmax. unfold Sca.evaluateScaExemption. cbv zeta.
  destruct isMit; [done|]. destruct isEu; cbn [negb]; [|done].
  rewrite !amount_ltb_int by (done || (vm_compute; split; congruence)).
  unfold Sca.LOW_VALUE_THRESHOLD_MAJOR_UNITS, Sca.TRA_AMOUNT_CAP_MAJOR_UNITS,
    Sca.LOW_VALUE_EXEMPTION_STREAK_CAP, Sca.TRA_RISK_SCORE_MAX.
  repeat case_match; done.
Qed.

Lemma sca_exemption_exact_witness :
  Sca.exemption (Sca.evaluateScaExemption (Money.mk 2999 (Currency.mk "EUR" 2) None) 40 false true 4)
  = Some Sca.LOW_VALUE.
Proof.
  rewrite (sca_exemption_exact (Money.mk 2999 (Currency.mk "EUR" 2) None) 40 4 false true).
  - reflexivity.
  - split; [cbn; lia | reflexivity].
  - cbn; lia.
Defined.

(** With the default thresholds the automatic disposition accepts exactly the
    disputes below 7.5 (low-risk), 15 or 30 (high-risk) major units, on whole
    minor units; above the threshold it contests exactly the templatable reasons
    of the tier, each of which has an evidence template, and never a fraud
    claim. *)
Theorem auto_disposition_exact (amount : Money.t) (reason : option string)
    (tier : option DisputePolicy.RiskTier) :
  Money.wf amount → Money.amountMinorUnits amount ≤ 2 ^ 53 →
  let unit := 10 ^ Currency.minorUnits (Money.currency amount) in
  let decision := DisputePolicy.decideAutoDisposition_default amount reason tier in
  (decision = DisputePolicy.ACCEPT
     ↔ 2 * Money.amountMinorUnits amount < default_threshold_halves tier * unit)
  ∧ (decision = DisputePolicy.CONTEST
     ↔ default_threshold_halves tier * unit ≤ 2 * Money.amountMinorUnits amount
       ∧ ∃ r, reason = Some r
         ∧ (r = "product_not_received" ∨ r = "duplicate"
            ∨ (r = "subscription_canceled" ∧ tier = Some DisputePolicy.LOW))%string)
  ∧ (decision = DisputePolicy.CONTEST →
       DisputePolicy.autoContestEvidenceFor reason ≠ DisputePolicy.DEFAULT_EVIDENCE).
Proof.
  intros Hm Hmax unit decision. subst decision.
  unfold DisputePolicy.decideAutoDisposition_default, DisputePolicy.decideAutoDisposition.
  cbv zeta. rewrite default_threshold_value.
  rewrite amount_ltb by (done || (destruct tier as [[]|]; vm_compute; split; congruence)). fold unit.
  destruct (Z.ltb_spec (2 * Money.amountMinorUnits amount) (default_threshold_halves tier * unit)) as [Hlt|Hge].
  { split_and!; [done| |done]. split; [done|]. intros [? _]. lia. }
  split; [split; [repeat case_match; done | lia]|].
  destruct reason as [r|]; [|split; [split; [done | by intros (_ & ? & ? & _)] | done]].
  pose proof (contestable_iff r tier) as Hiff. unfold contestable in Hiff.
  destruct (negb (String.eqb r "") && includes _ r).
  - split.
    + split; [intros _; split; [done|]; exists r; split; [done|]; by apply Hiff | done].
    + intros _. by apply evidence_of_contestable with tier, contestable_iff, Hiff.
  - split; [|done]. split; [done|]. intros (_ & r' & [= <-] & Hr). by apply Hiff in Hr.
Qed.

Lemma auto_disposition_exact_witness :
  DisputePolicy.decideAutoDisposition_default (Money.mk 2000 (Currency.mk "USD" 2) None)
    (Some "duplicate"%string) (Some DisputePolicy.MEDIUM) = DisputePolicy.CONTEST.
Proof.
  apply (auto_disposition_exact (Money.mk 2000 (Currency.mk "USD" 2) None) (Some "duplicate"%string)
           (Some DisputePolicy.MEDIUM)).
  - split; [cbn; lia | reflexivity].
  - cbn; lia.
  - split; [vm_compute; congruence|]. exists "duplicate"%string. auto.
Defined.

(** A captured charge is priced at its table rate plus the surcharge exactly
    when it is downgraded, the fixed fee never moves, and it is downgraded
    exactly when no AVS/CVV data came back, when a check that came back was not
    a match (an unavailable check included), or when it settled after the
    48-hour window. *)
Theorem interchange_downgrade_exact (b : Bin.CardBrand) (p : Bin.CardProduct)
    (avs : option Interchange.AvsResult) (cvv : option Interchange.CvvResult) (delay : number) :
  let q := Interchange.evaluateInterchangeQualification b p avs cvv delay in
  let rate := Interchange.lookupInterchangeRate b p in
  Interchange.qualifiedBps q = Interchange.bps rate
  ∧ Interchange.appliedBps q = Interchange.bps rate + (if Interchange.downgraded q then 80 else 0)
  ∧ Interchange.appliedFixedMinorUnits q = Interchange.qualifiedFixedMinorUnits q
  ∧ (Interchange.downgraded q = true ↔
       (avs = None ∧ cvv = None)
       ∨ (∃ a, avs = Some a ∧ a ≠ Interchange.AVS_MATCH)
       ∨ (∃ c, cvv = Some c ∧ c ≠ Interchange.CVV_MATCH)
       ∨ Num.ltb (Num.of_bigint 48) delay = true).
Proof.
  cbv zeta.
  unfold Interchange.evaluateInterchangeQualification, Interchange.DOWNGRADE_SURCHARGE_BPS, Num.gtb.
  change Interchange.SETTLEMENT_WINDOW_HOURS with 48.
  generalize (Num.ltb (Num.of_bigint 48) delay) as late. intros late.
  destruct late, avs as [[]|], cvv as [[]|]; cbn; (split_and!; [done | lia | done |]);
    (split; intros H; [| try reflexivity]);
    first
      [ by left | by right; left; eexists | by right; right; left; eexists | by right; right; right
      | by destruct H as [[? ?]|[(? & [= <-] & ?)|[(? & [= <-] & ?)|?]]] ].
Qed.
