(* ===== verification/PaymentStatus.v ===== *)
(** * Payment status and its transition table ([payment-status.vo.ts]) *)

From S2P Require Import Prelude.

Inductive PaymentStatus :=
  | PENDING
  | PROCESSING
  | REQUIRES_ACTION
  | REQUIRES_CAPTURE
  | PARTIALLY_CAPTURED
  | SUCCEEDED
  | FAILED
  | AMBIGUOUS
  | CANCELLED
  | REFUNDED
  | PARTIALLY_REFUNDED
  | DISPUTED.

#[global] Instance PaymentStatus_eq_dec : EqDecision PaymentStatus.
Proof. solve_decision. Defined.

(** The string value of the enum member. *)
Definition status_str (s : PaymentStatus) : string :=
  match s with
  | PENDING => "PENDING"
  | PROCESSING => "PROCESSING"
  | REQUIRES_ACTION => "REQUIRES_ACTION"
  | REQUIRES_CAPTURE => "REQUIRES_CAPTURE"
  | PARTIALLY_CAPTURED => "PARTIALLY_CAPTURED"
  | SUCCEEDED => "SUCCEEDED"
  | FAILED => "FAILED"
  | AMBIGUOUS => "AMBIGUOUS"
  | CANCELLED => "CANCELLED"
  | REFUNDED => "REFUNDED"
  | PARTIALLY_REFUNDED => "PARTIALLY_REFUNDED"
  | DISPUTED => "DISPUTED"
  end.

Definition VALID_TRANSITIONS (from : PaymentStatus) : list PaymentStatus :=
  match from with
  | PENDING => [PROCESSING; FAILED; CANCELLED]
  | PROCESSING => [REQUIRES_ACTION; REQUIRES_CAPTURE; SUCCEEDED; FAILED; AMBIGUOUS]
  | REQUIRES_ACTION => [PROCESSING; FAILED; CANCELLED]
  | REQUIRES_CAPTURE => [SUCCEEDED; PARTIALLY_CAPTURED; CANCELLED]
  | PARTIALLY_CAPTURED => [SUCCEEDED]
  | SUCCEEDED => [REFUNDED; PARTIALLY_REFUNDED; DISPUTED]
  | FAILED => []
  | AMBIGUOUS => [SUCCEEDED; FAILED]
  | CANCELLED => []
  | REFUNDED => []
  | PARTIALLY_REFUNDED => [REFUNDED; DISPUTED]
  | DISPUTED => [SUCCEEDED; PARTIALLY_REFUNDED; REFUNDED]
  end.

Definition isValidTransition (from to : PaymentStatus) : bool :=
  existsb (λ s, bool_decide (s = to)) (VALID_TRANSITIONS from).

Definition assertValidTransition (from to : PaymentStatus) : result unit :=
  throw_if (negb (isValidTransition from to)) (InvalidTransition (status_str from) (status_str to)).

(** ** Lemmas *)

Lemma isValidTransition_In from to : isValidTransition from to = true ↔ In to (VALID_TRANSITIONS from).
Proof.
  unfold isValidTransition. rewrite existsb_exists. split.
  - intros (s & Hin & ->%bool_decide_eq_true). done.
  - intros. exists to. by rewrite bool_decide_eq_true.
Qed.

Lemma assertValidTransition_ok from to u :
  assertValidTransition from to = Ok u ↔ isValidTransition from to = true.
Proof. unfold assertValidTransition. by rewrite throw_if_ok, negb_false_iff. Qed.

(** No transition leads back to PENDING. *)
Lemma never_back_to_pending from : isValidTransition from PENDING = false.
Proof. by destruct from. Qed.
