(* ===== verification/Payment.v ===== *)
(** * The payment aggregate ([payment.aggregate.ts], [payment.events.ts])

    The aggregate's private fields are the record [Payment.t]; each method is a
    function of the clock reading [now] (the value of every [new Date()] the call
    makes) that returns the updated aggregate or throws. A method throws before
    it assigns anything, so a throw leaves the aggregate as it was. Events carry
    the fields of their classes; their random [eventId] is left out. *)

From stdpp Require Import pretty.
From S2P Require Import Prelude JsNumber Money Policies PaymentStatus.

(** An untyped JSON value ([Record<string, unknown>]). *)
#[warnings="-register-all"]
Inductive Json :=
  | JNull
  | JBool (b : bool)
  | JNum (n : number)
  | JStr (s : string)
  | JArr (l : list Json)
  | JObj (l : list (string * Json)).

Inductive PaymentInitiator := human | agent.
Inductive PaymentMethodType := card | wallet.
Inductive RiskLevel := normal | elevated | highest.
Inductive DisputeOutcome := WON | LOST.

Record PaymentMetadata := mkPaymentMetadata {
  md_merchantId : string;
  md_customerId : option string;
  md_orderId : option string;
  md_description : option string;
  md_statementDescriptor : option string;
  md_metadata : option (list (string * string)) }.

Record ThreeDSResult := mkThreeDSResult {
  tds_authenticated : bool;
  tds_eci : option string;
  tds_cavv : option string;
  tds_xid : option string;
  tds_version : option string;
  tds_challengeCompleted : option bool }.

Record RefundRecord := mkRefundRecord {
  rf_refundId : string;
  rf_amount : Money.t;
  rf_reason : string;
  rf_createdAt : Date;
  rf_pspRefundId : option string }.

Record CaptureRecord := mkCaptureRecord {
  cp_captureId : string;
  cp_amount : Money.t;
  cp_createdAt : Date;
  cp_pspCaptureId : option string }.

Record SettlementConversion := mkSettlementConversion {
  sc_currency : string;
  sc_rate : number;
  sc_provider : string }.

Record PspRiskSignal := mkPspRiskSignal {
  prs_riskLevel : option RiskLevel;
  prs_riskScore : option number }.

Record PaymentSplit := mkPaymentSplit {
  ps_merchantId : string;
  ps_amount : Money.t;
  ps_settlementConversion : option SettlementConversion }.

(** ** Domain events *)

Inductive EventPayload :=
  | PaymentIntentCreatedEvent (paymentId merchantId amountMinorUnits currency idempotencyKey : string)
  | PaymentChargedEvent (paymentId pspTransactionId : string) (pspProvider : option PSPProvider)
      (amountMinorUnits currency : string)
  | PaymentFailedEvent (paymentId reason : string) (pspErrorCode : option string)
  | PaymentAmbiguousEvent (paymentId reason : string) (pspProvider : option PSPProvider)
  | PaymentRequiresActionEvent (paymentId actionUrl : string) (riskScore : Z)
  | PaymentRefundedEvent (paymentId refundId amountMinorUnits currency reason : string)
  | PaymentDisputedEvent (paymentId : string) (reason : option string)
  | PaymentStatusChangedEvent (paymentId : string) (previousStatus newStatus : PaymentStatus).

Record DomainEvent := mkDomainEvent { occurredAt : Date; payload : EventPayload }.

Definition eventName (e : EventPayload) : string :=
  match e with
  | PaymentIntentCreatedEvent _ _ _ _ _ => "payment.intent.created"
  | PaymentChargedEvent _ _ _ _ _ => "payment.charged"
  | PaymentFailedEvent _ _ _ => "payment.failed"
  | PaymentAmbiguousEvent _ _ _ => "payment.ambiguous"
  | PaymentRequiresActionEvent _ _ _ => "payment.requires_action"
  | PaymentRefundedEvent _ _ _ _ _ => "payment.refunded"
  | PaymentDisputedEvent _ _ => "payment.disputed"
  | PaymentStatusChangedEvent _ _ _ => "payment.status.changed"
  end.

Module Payment.

Record t := mk {
  _id : string;
  _amount : Money.t;
  _status : PaymentStatus;
  _idempotencyKey : string;
  _metadata : PaymentMetadata;
  _binInfo : option Bin.t;
  _pspProvider : option PSPProvider;
  _pspTransactionId : option string;
  _pspRawResponse : option Json;
  _riskScore : option Z;
  _pspRiskSignal : option PspRiskSignal;
  _threeDSResult : option ThreeDSResult;
  _refunds : list RefundRecord;
  _captures : list CaptureRecord;
  _failureReason : option string;
  _failureCode : option string;
  _createdAt : Date;
  _updatedAt : Date;
  _settlementConversion : option SettlementConversion;
  _splits : option (list PaymentSplit);
  _ambiguousResolvedBy : option string;
  _ambiguousResolvedReason : option string;
  _ambiguousResolvedAt : option Date;
  _ambiguousAutoRetryCount : Z;
  _taxRecord : option Tax.TaxRecord;
  _delegationId : option string;
  _initiatedBy : PaymentInitiator;
  _avsResult : option Interchange.AvsResult;
  _cvvResult : option Interchange.CvvResult;
  _interchangeQualification : option Interchange.InterchangeQualificationResult;
  _scaExemptionRequested : option Sca.ScaExemptionType;
  _scaExemptionReason : option string;
  _scaExemptionIndicator : option Sca.ScaExemptionType;
  _networkTokenized : option bool;
  _paymentMethodType : option PaymentMethodType;
  _domainEvents : list DomainEvent }.

(** ** Private helpers *)

Definition addDomainEvent (now : Date) (e : EventPayload) (p : t) : t :=
  p {{ _domainEvents := _domainEvents p ++ [mkDomainEvent now e] }}.

Definition transitionTo (now : Date) (newStatus : PaymentStatus) (p : t) : t :=
  let previousStatus := _status p in
  let p := p {{ _status := newStatus; _updatedAt := now }} in
  addDomainEvent now (PaymentStatusChangedEvent (_id p) previousStatus newStatus) p.

(** ** Factories *)

Definition create (now : Date) (id : string) (amount : Money.t) (idempotencyKey : string)
    (metadata : PaymentMetadata) (binInfo : option Bin.t) (delegationId : option string)
    (initiatedBy : option PaymentInitiator) : t :=
  let payment := mk id amount PENDING idempotencyKey metadata binInfo
    None None None None None None [] [] None None now now None None None None None 0 None
    delegationId (nullish initiatedBy human) None None None None None None None None [] in
  addDomainEvent now
    (PaymentIntentCreatedEvent id (md_merchantId metadata) (pretty (Money.amountMinorUnits amount))
       (Currency.code (Money.currency amount)) idempotencyKey) payment.

(** The optional parameters of [reconstitute] that have a default. *)
Definition reconstitute (now : Date) (id : string) (amount : Money.t) (status : PaymentStatus)
    (idempotencyKey : string) (metadata : PaymentMetadata) (binInfo : option Bin.t)
    (pspProvider : option PSPProvider) (pspTransactionId : option string) (pspRawResponse : option Json)
    (riskScore : option Z) (pspRiskSignal : option PspRiskSignal) (threeDSResult : option ThreeDSResult)
    (refunds : option (list RefundRecord)) (captures : option (list CaptureRecord))
    (failureReason failureCode : option string) (createdAt updatedAt : option Date)
    (settlementConversion : option SettlementConversion) (splits : option (list PaymentSplit))
    (ambiguousResolvedBy ambiguousResolvedReason : option string) (ambiguousResolvedAt : option Date)
    (ambiguousAutoRetryCount : option Z) (taxRecord : option Tax.TaxRecord)
    (delegationId : option string) (initiatedBy : option PaymentInitiator)
    (avsResult : option Interchange.AvsResult) (cvvResult : option Interchange.CvvResult)
    (interchangeQualification : option Interchange.InterchangeQualificationResult)
    (scaExemptionRequested : option Sca.ScaExemptionType) (scaExemptionReason : option string)
    (scaExemptionIndicator : option Sca.ScaExemptionType) (networkTokenized : option bool)
    (paymentMethodType : option PaymentMethodType) : t :=
  mk id amount status idempotencyKey metadata binInfo pspProvider pspTransactionId pspRawResponse
    riskScore pspRiskSignal threeDSResult (nullish refunds []) (nullish captures []) failureReason
    failureCode (nullish createdAt now) (nullish updatedAt now) settlementConversion splits
    ambiguousResolvedBy ambiguousResolvedReason ambiguousResolvedAt (nullish ambiguousAutoRetryCount 0)
    taxRecord delegationId (nullish initiatedBy human) avsResult cvvResult interchangeQualification
    scaExemptionRequested scaExemptionReason scaExemptionIndicator networkTokenized paymentMethodType [].

(** ** Derived amounts *)

Definition totalRefunded (p : t) : result Money.t :=
  z ← Money.zero (Currency.code (Money.currency (_amount p)));
  Money.sum_from rf_amount z (_refunds p).

Definition remainingRefundable (p : t) : result Money.t :=
  total ← totalRefunded p; Money.subtract (_amount p) total.

Definition totalCaptured (p : t) : result Money.t :=
  z ← Money.zero (Currency.code (Money.currency (_amount p)));
  Money.sum_from cp_amount z (_captures p).

Definition remainingCapturable (p : t) : result Money.t :=
  total ← totalCaptured p; Money.subtract (_amount p) total.

Definition declineCategory (p : t) : Decline.DeclineCategory :=
  Decline.classifyDeclineCode (_failureCode p) (_pspProvider p).

(** ** Behaviours *)

Definition startProcessing (now : Date) (pspProvider : PSPProvider) (p : t) : result t :=
  _ ← assertValidTransition (_status p) PROCESSING;
  Ok (transitionTo now PROCESSING (p {{ _pspProvider := Some pspProvider }})).

Definition requiresAction (now : Date) (actionUrl : string) (riskScore : Z)
    (pspTransactionId : option string) (p : t) : result t :=
  _ ← assertValidTransition (_status p) REQUIRES_ACTION;
  let p := p {{ _riskScore := Some riskScore }} in
  let p := if truthy pspTransactionId then p {{ _pspTransactionId := pspTransactionId }} else p in
  let p := transitionTo now REQUIRES_ACTION p in
  Ok (addDomainEvent now (PaymentRequiresActionEvent (_id p) actionUrl riskScore) p).

Definition completeThreeDS (now : Date) (result : ThreeDSResult) (p : t) : Prelude.result t :=
  _ ← assertValidTransition (_status p) PROCESSING;
  Ok (transitionTo now PROCESSING (p {{ _threeDSResult := Some result }})).

(** The fields a PSP answer carries into [requiresCapture] and [markSucceeded]. *)
Record PspAnswer := mkPspAnswer {
  a_pspTransactionId : string;
  a_pspRawResponse : option Json;
  a_pspRiskSignal : option PspRiskSignal;
  a_avsResult : option Interchange.AvsResult;
  a_cvvResult : option Interchange.CvvResult;
  a_scaExemptionIndicator : option Sca.ScaExemptionType;
  a_networkTokenized : option bool;
  a_paymentMethodType : option PaymentMethodType }.

(** [if (x !== undefined) field = x] *)
Definition orElse {A} (x old : option A) : option A := match x with Some _ => x | None => old end.

Definition requiresCapture (now : Date) (a : PspAnswer) (p : t) : result t :=
  _ ← assertValidTransition (_status p) REQUIRES_CAPTURE;
  let p := p {{ _pspTransactionId := Some (a_pspTransactionId a);
                _pspRawResponse := a_pspRawResponse a;
                _pspRiskSignal := a_pspRiskSignal a;
                _avsResult := a_avsResult a;
                _cvvResult := a_cvvResult a;
                _scaExemptionIndicator := a_scaExemptionIndicator a;
                _networkTokenized := orElse (a_networkTokenized a) (_networkTokenized p);
                _paymentMethodType := orElse (a_paymentMethodType a) (_paymentMethodType p) }} in
  Ok (transitionTo now REQUIRES_CAPTURE p).

Definition PaymentCharged_of (p : t) (pspTransactionId : string) : EventPayload :=
  PaymentChargedEvent (_id p) pspTransactionId (_pspProvider p)
    (pretty (Money.amountMinorUnits (_amount p))) (Currency.code (Money.currency (_amount p))).

Definition recordCapture (now : Date) (captureId : string) (amount : Money.t)
    (pspTransactionId : string) (pspRawResponse : option Json) (p : t) : result (bool * t) :=
  if negb (bool_decide (_status p = REQUIRES_CAPTURE)) && negb (bool_decide (_status p = PARTIALLY_CAPTURED))
  then Throw (CannotCapture (status_str (_status p)))
  else
    captured ← totalCaptured p;
    newTotal ← Money.add captured amount;
    exceeds ← Money.isGreaterThan newTotal (_amount p);
    if exceeds : bool then
      remaining ← remainingCapturable p;
      Throw (CaptureExceedsRemaining (Money.amountMinorUnits amount) (Money.amountMinorUnits remaining))
    else
      let p := p {{ _captures := _captures p ++ [mkCaptureRecord captureId amount now (Some pspTransactionId)];
                    _pspTransactionId := Some pspTransactionId;
                    _pspRawResponse := pspRawResponse }} in
      let isFullyCaptured := Money.equals newTotal (_amount p) in
      let p := transitionTo now (if isFullyCaptured then SUCCEEDED else PARTIALLY_CAPTURED) p in
      let p := if isFullyCaptured then addDomainEvent now (PaymentCharged_of p pspTransactionId) p else p in
      Ok (isFullyCaptured, p).

Definition markSucceeded (now : Date) (a : PspAnswer) (p : t) : result t :=
  _ ← assertValidTransition (_status p) SUCCEEDED;
  let p := p {{ _pspTransactionId := Some (a_pspTransactionId a);
                _pspRawResponse := a_pspRawResponse a;
                _pspRiskSignal := a_pspRiskSignal a;
                _avsResult := orElse (a_avsResult a) (_avsResult p);
                _cvvResult := orElse (a_cvvResult a) (_cvvResult p);
                _scaExemptionIndicator := orElse (a_scaExemptionIndicator a) (_scaExemptionIndicator p);
                _networkTokenized := orElse (a_networkTokenized a) (_networkTokenized p);
                _paymentMethodType := orElse (a_paymentMethodType a) (_paymentMethodType p) }} in
  let p := transitionTo now SUCCEEDED p in
  Ok (addDomainEvent now (PaymentCharged_of p (a_pspTransactionId a)) p).

Definition markFailed (now : Date) (reason : string) (errorCode : option string)
    (pspProvider : option PSPProvider) (pspRiskSignal : option PspRiskSignal) (p : t) : result t :=
  _ ← assertValidTransition (_status p) FAILED;
  let p := p {{ _pspProvider := orElse pspProvider (_pspProvider p);
                _failureReason := Some reason;
                _failureCode := errorCode;
                _pspRiskSignal := orElse pspRiskSignal (_pspRiskSignal p) }} in
  let p := transitionTo now FAILED p in
  Ok (addDomainEvent now (PaymentFailedEvent (_id p) reason errorCode) p).

Definition markAmbiguous (now : Date) (reason : string) (errorCode : option string) (p : t) : result t :=
  _ ← assertValidTransition (_status p) AMBIGUOUS;
  let p := p {{ _failureReason := Some reason; _failureCode := errorCode }} in
  let p := transitionTo now AMBIGUOUS p in
  Ok (addDomainEvent now (PaymentAmbiguousEvent (_id p) reason (_pspProvider p)) p).

Definition recordManualAmbiguousResolution (now : Date) (resolvedBy reason : string) (p : t) : t :=
  p {{ _ambiguousResolvedBy := Some resolvedBy;
       _ambiguousResolvedReason := Some reason;
       _ambiguousResolvedAt := Some now }}.

Definition incrementAmbiguousAutoRetryCount (p : t) : t :=
  p {{ _ambiguousAutoRetryCount := _ambiguousAutoRetryCount p + 1 }}.

Definition cancel (now : Date) (p : t) : result t :=
  _ ← assertValidTransition (_status p) CANCELLED;
  Ok (transitionTo now CANCELLED p).

Definition refund (now : Date) (refundId : string) (amount : Money.t) (reason : string)
    (pspRefundId : option string) (p : t) : result t :=
  if negb (bool_decide (_status p = SUCCEEDED)) && negb (bool_decide (_status p = PARTIALLY_REFUNDED))
  then Throw (CannotRefund (status_str (_status p)))
  else
    refunded ← totalRefunded p;
    newTotal ← Money.add refunded amount;
    exceeds ← Money.isGreaterThan newTotal (_amount p);
    if exceeds : bool then Throw (RefundExceedsRemaining (Money.amountMinorUnits amount))
    else
      let p := p {{ _refunds := _refunds p ++ [mkRefundRecord refundId amount reason now pspRefundId] }} in
      let isFullRefund := Money.equals newTotal (_amount p) in
      let newStatus := if isFullRefund then REFUNDED else PARTIALLY_REFUNDED in
      let p := transitionTo now newStatus p in
      Ok (addDomainEvent now
            (PaymentRefundedEvent (_id p) refundId (pretty (Money.amountMinorUnits amount))
               (Currency.code (Money.currency amount)) reason) p).

Definition markDisputed (now : Date) (reason : option string) (p : t) : result t :=
  _ ← assertValidTransition (_status p) DISPUTED;
  let p := transitionTo now DISPUTED p in
  Ok (addDomainEvent now (PaymentDisputedEvent (_id p) reason) p).

Definition resolveDispute (now : Date) (outcome : DisputeOutcome) (p : t) : result t :=
  match outcome with
  | WON =>
      refunded ← totalRefunded p;
      let restoreTo := if Money.isZero refunded then SUCCEEDED else PARTIALLY_REFUNDED in
      _ ← assertValidTransition (_status p) restoreTo;
      Ok (transitionTo now restoreTo p)
  | LOST =>
      _ ← assertValidTransition (_status p) REFUNDED;
      remaining ← remainingRefundable p;
      let p := p {{ _refunds := _refunds p ++
                     [mkRefundRecord ("dispute-lost-" +:+ _id p) remaining "dispute_lost" now None] }} in
      Ok (transitionTo now REFUNDED p)
  end.

(** ** Records written once *)

Definition recordSettlementConversion (c : SettlementConversion) (p : t) : t :=
  if isSome (_settlementConversion p) then p else p {{ _settlementConversion := Some c }}.

Definition recordTaxRecord (r : Tax.TaxRecord) (p : t) : t :=
  if isSome (_taxRecord p) then p else p {{ _taxRecord := Some r }}.

Definition recordSplits (splits : list PaymentSplit) (p : t) : t :=
  if isSome (_splits p) then p
  else match splits with [] => p | _ => p {{ _splits := Some splits }} end.

Definition finalizeSplitConversions (bookedSplits : list PaymentSplit) (p : t) : t :=
  if isSome (_splits p) then p {{ _splits := Some bookedSplits }} else p.

Definition recordInterchangeQualification (r : Interchange.InterchangeQualificationResult) (p : t) : t :=
  if isSome (_interchangeQualification p) then p else p {{ _interchangeQualification := Some r }}.

Definition recordScaExemptionRequested (exemption : option Sca.ScaExemptionType) (reason : string) (p : t) : t :=
  if truthy (_scaExemptionReason p) then p
  else p {{ _scaExemptionRequested := exemption; _scaExemptionReason := Some reason }}.

(** ** Risk assessment *)

Record AgentContext := mkAgentContext {
  isFirstChargeToMerchant : option bool;
  percentOfRemainingMonthlyBudget : option number }.

Definition calculateRiskScore (agentContext : option AgentContext) (p : t) : Z * t :=
  let score := 0 in
  let score :=
    if Num.gtb (Money.amount (_amount p)) (Num.of_bigint 10000) then score + 30
    else if Num.gtb (Money.amount (_amount p)) (Num.of_bigint 1000) then score + 15
    else score in
  let score := match _binInfo p with Some b => if Bin.requiresSCA b then score + 20 else score | None => score end in
  let score := score + 10 in
  let score := match agentContext ≫= isFirstChargeToMerchant with Some true => score + 15 | _ => score end in
  let score :=
    match agentContext ≫= percentOfRemainingMonthlyBudget with
    | Some pct => if Num.geb pct (Num.of_bigint 50) then score + 15 else score
    | None => score
    end in
  let riskScore := Z.min score 100 in
  (riskScore, p {{ _riskScore := Some riskScore }}).

Definition pullDomainEvents (p : t) : list DomainEvent * t :=
  (_domainEvents p, p {{ _domainEvents := [] }}).

End Payment.
