(* ===== verification/PaymentCorrect.v ===== *)
(** * Correctness of the payment aggregate

    [PayAuto] is the abstract specification: an automaton over the status and the
    refunded and captured totals in minor units. [step] is one call of a
    mutating method of the aggregate; it refines the automaton, so the
    automaton's invariant holds of every payment reachable from
    [PaymentAggregate.create]. *)

From stdpp Require Import pretty.
From S2P Require Import Prelude JsNumber Money Policies PaymentStatus Payment.
Import Payment.

(** ** Abstract specification *)

Module PayAuto.

Record state := mkState { amount : Z; status : PaymentStatus; refunded : Z; captured : Z }.

(** Targets of the methods that move the status without moving money. *)
Definition plain_target (s : PaymentStatus) : bool :=
  match s with
  | PROCESSING | REQUIRES_ACTION | REQUIRES_CAPTURE | SUCCEEDED | FAILED | AMBIGUOUS | CANCELLED | DISPUTED => true
  | PENDING | PARTIALLY_CAPTURED | REFUNDED | PARTIALLY_REFUNDED => false
  end.

Inductive trans : state → state → Prop :=
  | t_stay a : trans a a
  | t_move m s s' r c :
      isValidTransition s s' = true → plain_target s' = true →
      trans (mkState m s r c) (mkState m s' r c)
  | t_capture m s r c x :
      s = REQUIRES_CAPTURE ∨ s = PARTIALLY_CAPTURED → 0 ≤ x → c + x ≤ m →
      trans (mkState m s r c)
            (mkState m (if c + x =? m then SUCCEEDED else PARTIALLY_CAPTURED) r (c + x))
  | t_refund m s r c x :
      s = SUCCEEDED ∨ s = PARTIALLY_REFUNDED → 0 ≤ x → r + x ≤ m →
      trans (mkState m s r c)
            (mkState m (if r + x =? m then REFUNDED else PARTIALLY_REFUNDED) (r + x) c)
  | t_won m s r c :
      isValidTransition s (if r =? 0 then SUCCEEDED else PARTIALLY_REFUNDED) = true →
      trans (mkState m s r c) (mkState m (if r =? 0 then SUCCEEDED else PARTIALLY_REFUNDED) r c)
  | t_lost m s r c :
      isValidTransition s REFUNDED = true → r ≤ m →
      trans (mkState m s r c) (mkState m REFUNDED m c).

Definition init (m : Z) : state := mkState m PENDING 0 0.

(** What every reachable state satisfies. *)
Definition safe (a : state) : Prop :=
  0 ≤ refunded a ≤ amount a ∧ 0 ≤ captured a ≤ amount a ∧
  match status a with
  | REFUNDED => refunded a = amount a
  | PARTIALLY_REFUNDED => refunded a < amount a
  | SUCCEEDED | DISPUTED => refunded a < amount a ∨ refunded a = 0
  | PARTIALLY_CAPTURED => refunded a = 0 ∧ captured a < amount a
  | PENDING | PROCESSING | REQUIRES_ACTION | REQUIRES_CAPTURE | FAILED | AMBIGUOUS | CANCELLED =>
      refunded a = 0 ∧ captured a = 0
  end.

Lemma safe_init m : 0 ≤ m → safe (init m).
Proof. unfold safe. cbn. lia. Qed.

Lemma safe_move m s s' r c :
  isValidTransition s s' = true → plain_target s' = true →
  safe (mkState m s r c) → safe (mkState m s' r c).
Proof. unfold safe. destruct s, s'; cbn; intros; try discriminate; lia. Qed.

Lemma safe_trans : invariant trans safe.
Proof.
  intros a b Hab. destruct Hab as [a|m s s' r c Hv Ht|m s r c x Hs Hx Hle|m s r c x Hs Hx Hle|m s r c Hv|m s r c Hv Hle].
  - done.
  - by apply safe_move.
  - unfold safe. destruct (Z.eqb_spec (c + x) m), Hs as [-> | ->]; cbn; lia.
  - unfold safe. destruct (Z.eqb_spec (r + x) m), Hs as [-> | ->]; cbn; lia.
  - unfold safe. destruct (Z.eqb_spec r 0); [subst; cbn; lia|].
    destruct s; try discriminate Hv; cbn; lia.
  - unfold safe. cbn. intros (? & ? & _). lia.
Qed.

(** A transition changes the status along the table, or not at all. *)
Lemma trans_status a b : trans a b →
  status b = status a ∨ isValidTransition (status a) (status b) = true.
Proof.
  destruct 1 as [a|m s s' r c Hv Ht|m s r c x Hs Hx Hle|m s r c x Hs Hx Hle|m s r c Hv|m s r c Hv Hle]; cbn; auto.
  - destruct (c + x =? m), Hs as [-> | ->]; auto.
  - destruct (r + x =? m), Hs as [-> | ->]; auto.
Qed.

Definition terminal (s : PaymentStatus) : bool :=
  match s with FAILED | CANCELLED | REFUNDED => true | _ => false end.

Lemma terminal_absorbing a b : trans a b → terminal (status a) = true → b = a.
Proof.
  destruct 1 as [a|m s s' r c Hv Ht|m s r c x Hs Hx Hle|m s r c x Hs Hx Hle|m s r c Hv|m s r c Hv Hle]; cbn; intros H.
  - done.
  - destruct s, s'; discriminate.
  - destruct Hs as [-> | ->]; discriminate.
  - destruct Hs as [-> | ->]; discriminate.
  - destruct s, (r =? 0); discriminate.
  - destruct s; discriminate.
Qed.

End PayAuto.

(** ** Concrete steps *)

Inductive step : t → t → Prop :=
  | step_startProcessing now psp p q : startProcessing now psp p = Ok q → step p q
  | step_requiresAction now url score tx p q : requiresAction now url score tx p = Ok q → step p q
  | step_completeThreeDS now r p q : completeThreeDS now r p = Ok q → step p q
  | step_requiresCapture now a p q : requiresCapture now a p = Ok q → step p q
  | step_recordCapture now id amount tx raw p b q :
      Money.wf amount → recordCapture now id amount tx raw p = Ok (b, q) → step p q
  | step_markSucceeded now a p q : markSucceeded now a p = Ok q → step p q
  | step_markFailed now reason code psp sig p q : markFailed now reason code psp sig p = Ok q → step p q
  | step_markAmbiguous now reason code p q : markAmbiguous now reason code p = Ok q → step p q
  | step_recordManual now by_ reason p : step p (recordManualAmbiguousResolution now by_ reason p)
  | step_increment p : step p (incrementAmbiguousAutoRetryCount p)
  | step_cancel now p q : cancel now p = Ok q → step p q
  | step_refund now id amount reason psp p q :
      Money.wf amount → refund now id amount reason psp p = Ok q → step p q
  | step_markDisputed now reason p q : markDisputed now reason p = Ok q → step p q
  | step_resolveDispute now outcome p q : resolveDispute now outcome p = Ok q → step p q
  | step_recordSettlementConversion c p : step p (recordSettlementConversion c p)
  | step_recordTaxRecord r p : step p (recordTaxRecord r p)
  | step_recordSplits l p : step p (recordSplits l p)
  | step_finalizeSplitConversions l p : step p (finalizeSplitConversions l p)
  | step_recordInterchange r p : step p (recordInterchangeQualification r p)
  | step_recordSca e reason p : step p (recordScaExemptionRequested e reason p)
  | step_calculateRiskScore ctx p : step p (calculateRiskScore ctx p).2.

(** Refund and capture records carry well-formed money in the payment's currency. *)
Definition coherent (p : t) : Prop :=
  Money.wf (_amount p)
  ∧ Forall (λ r, Money.wf (rf_amount r) ∧ Money.same (_amount p) (rf_amount r)) (_refunds p)
  ∧ Forall (λ c, Money.wf (cp_amount c) ∧ Money.same (_amount p) (cp_amount c)) (_captures p).

Definition refunded_units (p : t) : Z := sumZ (λ r, Money.amountMinorUnits (rf_amount r)) (_refunds p).
Definition captured_units (p : t) : Z := sumZ (λ c, Money.amountMinorUnits (cp_amount c)) (_captures p).

(** The abstraction function. *)
Definition abs (p : t) : PayAuto.state :=
  PayAuto.mkState (Money.amountMinorUnits (_amount p)) (_status p) (refunded_units p) (captured_units p).

(** The status changes an event list records, in order. *)
Definition status_changes (l : list DomainEvent) : list (PaymentStatus * PaymentStatus) :=
  omap (λ e, match payload e with PaymentStatusChangedEvent _ a b => Some (a, b) | _ => None end) l.

(** A status change the methods make: along the table, or one of the two
    self-loops of a further partial capture or refund. *)
Definition link (a b : PaymentStatus) : Prop :=
  isValidTransition a b = true ∨ (a = b ∧ (a = PARTIALLY_CAPTURED ∨ a = PARTIALLY_REFUNDED)).

(** The changes [l] lead from [a] to [b], link by link. *)
Fixpoint path (a : PaymentStatus) (l : list (PaymentStatus * PaymentStatus)) (b : PaymentStatus) : Prop :=
  match l with
  | [] => a = b
  | (x, y) :: l => x = a ∧ link x y ∧ path y l b
  end.

Lemma path_snoc a l b c : path a l b → link b c → path a (l ++ [(b, c)]) c.
Proof. revert a. induction l as [|[x y] l IH]; cbn; [naive_solver|]. intros a (? & ? & ?). auto. Qed.

(** The link [(status p, s)], when a method moved the status. *)
Definition moved (p q : t) (rs : list RefundRecord) (cs : list CaptureRecord) : Prop :=
  _amount q = _amount p ∧ _refunds q = _refunds p ++ rs ∧ _captures q = _captures p ++ cs
  ∧ status_changes (_domainEvents q) = status_changes (_domainEvents p) ++ [(_status p, _status q)].

(** A method that leaves status, money and events alone. *)
Definition untouched (p q : t) : Prop :=
  _amount q = _amount p ∧ _status q = _status p ∧ _refunds q = _refunds p ∧ _captures q = _captures p
  ∧ _domainEvents q = _domainEvents p.

(** ** Lemmas: totals *)

Lemma reduce_total {A} (f : A → Money.t) (a : Money.t) (l : list A) :
  Money.wf a → Forall (λ x, Money.wf (f x) ∧ Money.same a (f x)) l →
  ∃ m, (z ← Money.zero (Currency.code (Money.currency a)); Money.sum_from f z l) = Ok m
    ∧ Money.wf m ∧ Money.same m a
    ∧ Money.amountMinorUnits m = sumZ (λ x, Money.amountMinorUnits (f x)) l.
Proof.
  intros Ha Hl. rewrite (zero_wf_code _ (proj2 Ha)). cbn [mbind result_bind].
  destruct (sum_from_total f (Money.mk 0 (Money.currency a) None) l) as (m & E & Hm).
  { split; [done | apply Ha]. }
  { eapply Forall_impl; [exact Hl|]. done. }
  pose proof (sum_from_ok _ _ _ _ E) as (Hc & Hv & _). cbn in Hv, Hc.
  exists m. split_and!; [done|done|by unfold Money.same; rewrite Hc|done].
Qed.

Lemma totalRefunded_ok p : coherent p →
  ∃ m, totalRefunded p = Ok m ∧ Money.wf m ∧ Money.same m (_amount p)
    ∧ Money.amountMinorUnits m = refunded_units p.
Proof. intros (Ha & Hr & _). by apply reduce_total. Qed.

Lemma totalCaptured_ok p : coherent p →
  ∃ m, totalCaptured p = Ok m ∧ Money.wf m ∧ Money.same m (_amount p)
    ∧ Money.amountMinorUnits m = captured_units p.
Proof. intros (Ha & _ & Hc). by apply reduce_total. Qed.

(** ** Lemmas: the record updates of each method *)

Lemma status_changes_app l1 l2 : status_changes (l1 ++ l2) = status_changes l1 ++ status_changes l2.
Proof. apply omap_app. Qed.

(** Opens a method that returned, exposing the updated record. *)
Ltac open_method H :=
  unfold startProcessing, requiresAction, completeThreeDS, requiresCapture, markSucceeded, markFailed,
    markAmbiguous, cancel, markDisputed in H;
  cbv zeta in H; apply bind_ok_iff in H as (u & Hv%assertValidTransition_ok & [= <-]).

(** The methods that move the status and no money. *)
Inductive plain_step : t → t → Prop :=
  | plain p q : moved p q [] [] → PayAuto.plain_target (_status q) = true →
      isValidTransition (_status p) (_status q) = true → plain_step p q.

Ltac solve_moved :=
  unfold moved, transitionTo, addDomainEvent; cbn -[status_changes];
  rewrite ?status_changes_app; cbn; rewrite ?app_nil_r; repeat split; reflexivity.

Ltac solve_plain :=
  lazymatch goal with H : _ = Ok _ |- plain_step ?p _ =>
    open_method H; destruct p; cbn [_status] in *;
    repeat match goal with |- context [truthy ?o] => destruct (truthy o) end;
    (constructor; [solve_moved | reflexivity | assumption])
  end.

Lemma plain_startProcessing now psp p q : startProcessing now psp p = Ok q → plain_step p q.
Proof. intros H. solve_plain. Qed.
Lemma plain_requiresAction now url sc tx p q : requiresAction now url sc tx p = Ok q → plain_step p q.
Proof. intros H. solve_plain. Qed.
Lemma plain_completeThreeDS now r p q : completeThreeDS now r p = Ok q → plain_step p q.
Proof. intros H. solve_plain. Qed.
Lemma plain_requiresCapture now a p q : requiresCapture now a p = Ok q → plain_step p q.
Proof. intros H. solve_plain. Qed.
Lemma plain_markSucceeded now a p q : markSucceeded now a p = Ok q → plain_step p q.
Proof. intros H. solve_plain. Qed.
Lemma plain_markFailed now r c psp sig p q : markFailed now r c psp sig p = Ok q → plain_step p q.
Proof. intros H. solve_plain. Qed.
Lemma plain_markAmbiguous now r c p q : markAmbiguous now r c p = Ok q → plain_step p q.
Proof. intros H. solve_plain. Qed.
Lemma plain_cancel now p q : cancel now p = Ok q → plain_step p q.
Proof. intros H. solve_plain. Qed.
Lemma plain_markDisputed now r p q : markDisputed now r p = Ok q → plain_step p q.
Proof. intros H. solve_plain. Qed.

(** *** The methods that move money *)

Lemma moved_coherent p q rs cs :
  moved p q rs cs → coherent p →
  Forall (λ r, Money.wf (rf_amount r) ∧ Money.same (_amount p) (rf_amount r)) rs →
  Forall (λ c, Money.wf (cp_amount c) ∧ Money.same (_amount p) (cp_amount c)) cs →
  coherent q.
Proof.
  intros (Ha & Hr & Hc & _) (? & ? & ?) Hrs Hcs. unfold coherent. rewrite Ha, Hr, Hc.
  split_and!; [done | by apply Forall_app..].
Qed.

(** [a.isGreaterThan(b)] and [a.equals(b)] on the units, in one currency. *)
Lemma equals_units m o : Money.same m o →
  Money.equals m o = (Money.amountMinorUnits m =? Money.amountMinorUnits o).
Proof.
  intros Hs. unfold Money.equals. by rewrite (proj2 (Currency_equals_iff _ _)).
Qed.

(** What [recordCapture] computes on a coherent payment. *)
Lemma recordCapture_run now id amount tx raw p :
  coherent p → Money.wf amount → Money.same (_amount p) amount →
  _status p = REQUIRES_CAPTURE ∨ _status p = PARTIALLY_CAPTURED →
  let total := captured_units p + Money.amountMinorUnits amount in
  if Money.amountMinorUnits (_amount p) <? total then
    recordCapture now id amount tx raw p
    = (remaining ← remainingCapturable p;
       Throw (CaptureExceedsRemaining (Money.amountMinorUnits amount) (Money.amountMinorUnits remaining)))
  else
    ∃ q, recordCapture now id amount tx raw p = Ok (total =? Money.amountMinorUnits (_amount p), q)
      ∧ moved p q [] [mkCaptureRecord id amount now (Some tx)]
      ∧ _status q = (if total =? Money.amountMinorUnits (_amount p) then SUCCEEDED else PARTIALLY_CAPTURED).
Proof.
  intros Hp Hamt Hsame Hst total.
  destruct (totalCaptured_ok p Hp) as (m & Em & Hm & Hmc & Hmu).
  assert (Money.same m amount) by (unfold Money.same in *; congruence).
  unfold recordCapture.
  assert (negb (bool_decide (_status p = REQUIRES_CAPTURE)) && negb (bool_decide (_status p = PARTIALLY_CAPTURED))
          = false) as -> by (destruct Hst as [-> | ->]; done).
  rewrite Em. cbn [mbind result_bind]. rewrite add_total by done. cbn [mbind result_bind].
  set (nt := Money.mk _ _ _).
  assert (Money.same nt (_amount p)) as Hnt by done.
  assert (Money.amountMinorUnits nt = total) as Hu by (cbn; lia).
  rewrite (proj2 (isGreaterThan_ok nt (_amount p) _) (conj Hnt eq_refl)), Hu. cbn [mbind result_bind].
  destruct (Money.amountMinorUnits (_amount p) <? total); [done|].
  - eexists. cbv zeta. rewrite equals_units by (destruct p; exact Hnt). rewrite Hu.
    split; [destruct p; reflexivity|].
    destruct p; cbn -[status_changes Z.eqb]. destruct (total =? _); split; solve [solve_moved | done].
Qed.

(** What [refund] computes on a coherent payment. *)
Lemma refund_run now id amount reason psp p :
  coherent p → Money.wf amount → Money.same (_amount p) amount →
  _status p = SUCCEEDED ∨ _status p = PARTIALLY_REFUNDED →
  let total := refunded_units p + Money.amountMinorUnits amount in
  if Money.amountMinorUnits (_amount p) <? total then
    refund now id amount reason psp p = Throw (RefundExceedsRemaining (Money.amountMinorUnits amount))
  else
    ∃ q, refund now id amount reason psp p = Ok q
      ∧ moved p q [mkRefundRecord id amount reason now psp] []
      ∧ _status q = (if total =? Money.amountMinorUnits (_amount p) then REFUNDED else PARTIALLY_REFUNDED).
Proof.
  intros Hp Hamt Hsame Hst total.
  destruct (totalRefunded_ok p Hp) as (m & Em & Hm & Hmc & Hmu).
  assert (Money.same m amount) by (unfold Money.same in *; congruence).
  unfold refund.
  assert (negb (bool_decide (_status p = SUCCEEDED)) && negb (bool_decide (_status p = PARTIALLY_REFUNDED))
          = false) as -> by (destruct Hst as [-> | ->]; done).
  rewrite Em. cbn [mbind result_bind]. rewrite add_total by done. cbn [mbind result_bind].
  set (nt := Money.mk _ _ _).
  assert (Money.same nt (_amount p)) as Hnt by done.
  assert (Money.amountMinorUnits nt = total) as Hu by (cbn; lia).
  rewrite (proj2 (isGreaterThan_ok nt (_amount p) _) (conj Hnt eq_refl)), Hu. cbn [mbind result_bind].
  destruct (Money.amountMinorUnits (_amount p) <? total); [done|].
  eexists. cbv zeta. rewrite equals_units by (destruct p; exact Hnt). rewrite Hu.
  split; [reflexivity|].
  destruct p; cbn -[status_changes Z.eqb]. destruct (total =? _); split; solve [solve_moved | done].
Qed.

(** A refund or capture in another currency throws. *)
Lemma recordCapture_same now id amount tx raw p r :
  coherent p → recordCapture now id amount tx raw p = Ok r →
  Money.same (_amount p) amount ∧ (_status p = REQUIRES_CAPTURE ∨ _status p = PARTIALLY_CAPTURED).
Proof.
  intros Hp H. unfold recordCapture in H. case_match eqn:Est; [discriminate|].
  destruct (totalCaptured_ok p Hp) as (m & Em & _ & Hmc & _). rewrite Em in H. cbn [mbind result_bind] in H.
  apply bind_ok_iff in H as (nt & (Hs & _ & _)%add_ok & _).
  split; [unfold Money.same in *; congruence|].
  destruct (_status p); try discriminate Est; auto.
Qed.

Lemma refund_same now id amount reason psp p q :
  coherent p → refund now id amount reason psp p = Ok q →
  Money.same (_amount p) amount ∧ (_status p = SUCCEEDED ∨ _status p = PARTIALLY_REFUNDED).
Proof.
  intros Hp H. unfold refund in H. case_match eqn:Est; [discriminate|].
  destruct (totalRefunded_ok p Hp) as (m & Em & _ & Hmc & _). rewrite Em in H. cbn [mbind result_bind] in H.
  apply bind_ok_iff in H as (nt & (Hs & _ & _)%add_ok & _).
  split; [unfold Money.same in *; congruence|].
  destruct (_status p); try discriminate Est; auto.
Qed.

Lemma resolveDispute_won now p q : coherent p → resolveDispute now WON p = Ok q →
  moved p q [] [] ∧ _status q = (if refunded_units p =? 0 then SUCCEEDED else PARTIALLY_REFUNDED)
  ∧ isValidTransition (_status p) (_status q) = true.
Proof.
  intros Hp H. destruct (totalRefunded_ok p Hp) as (m & Em & _ & _ & Hu).
  cbn [resolveDispute] in H. rewrite Em in H. cbn [mbind result_bind] in H. cbv zeta in H.
  unfold Money.isZero in H. rewrite Hu in H.
  apply bind_ok_iff in H as (u & Hv%assertValidTransition_ok & [= <-]).
  destruct p. cbn -[status_changes Z.eqb refunded_units isValidTransition] in *.
  split_and!; [solve_moved|done|done].
Qed.

Lemma resolveDispute_lost now p q : coherent p → resolveDispute now LOST p = Ok q →
  isValidTransition (_status p) REFUNDED = true ∧ _status q = REFUNDED
  ∧ refunded_units p ≤ Money.amountMinorUnits (_amount p)
  ∧ ∃ m, Money.wf m ∧ Money.same (_amount p) m
    ∧ Money.amountMinorUnits m = Money.amountMinorUnits (_amount p) - refunded_units p
    ∧ moved p q [mkRefundRecord ("dispute-lost-" +:+ _id p) m "dispute_lost" now None] [].
Proof.
  intros Hp H. destruct (totalRefunded_ok p Hp) as (t0 & Et & Ht & _ & Hu).
  cbn [resolveDispute] in H. apply bind_ok_iff in H as (u & Hv%assertValidTransition_ok & H).
  apply bind_ok_iff in H as (m & Hm & [= <-]).
  unfold remainingRefundable in Hm. rewrite Et in Hm. cbn [mbind result_bind] in Hm.
  pose proof (subtract_wf _ _ _ (proj1 Hp) Hm) as Hwf.
  apply subtract_ok in Hm as (_ & Hle & ->). rewrite Hu in *.
  split_and!; [done|by destruct p|done|]. eexists. split_and!; [exact Hwf|done|done|].
  destruct p. cbn -[status_changes refunded_units]. solve_moved.
Qed.

(** *** The methods that touch neither status nor money *)

Create HintDb payment.

Ltac solve_untouched :=
  unfold untouched, recordSettlementConversion, recordTaxRecord, recordSplits, finalizeSplitConversions,
    recordInterchangeQualification, recordScaExemptionRequested;
  match goal with p : t |- _ => destruct p end; cbn; repeat case_match; repeat split; reflexivity.

Lemma untouched_recordManual now by_ reason p : untouched p (recordManualAmbiguousResolution now by_ reason p).
Proof. solve_untouched. Qed.
Lemma untouched_increment p : untouched p (incrementAmbiguousAutoRetryCount p).
Proof. solve_untouched. Qed.
Lemma untouched_recordSettlementConversion c p : untouched p (recordSettlementConversion c p).
Proof. solve_untouched. Qed.
Lemma untouched_recordTaxRecord r p : untouched p (recordTaxRecord r p).
Proof. solve_untouched. Qed.
Lemma untouched_recordSplits l p : untouched p (recordSplits l p).
Proof. solve_untouched. Qed.
Lemma untouched_finalizeSplitConversions l p : untouched p (finalizeSplitConversions l p).
Proof. solve_untouched. Qed.
Lemma untouched_recordInterchange r p : untouched p (recordInterchangeQualification r p).
Proof. solve_untouched. Qed.
Lemma untouched_recordSca e why p : untouched p (recordScaExemptionRequested e why p).
Proof. solve_untouched. Qed.
Lemma untouched_calculateRiskScore ctx p : untouched p ((calculateRiskScore ctx p).2).
Proof. solve_untouched. Qed.

#[local] Hint Resolve untouched_recordManual untouched_increment untouched_recordSettlementConversion untouched_recordTaxRecord untouched_recordSplits untouched_finalizeSplitConversions untouched_recordInterchange untouched_recordSca untouched_calculateRiskScore : payment.
#[local] Hint Resolve plain_startProcessing plain_requiresAction plain_completeThreeDS
  plain_requiresCapture plain_markSucceeded plain_markFailed plain_markAmbiguous plain_cancel
  plain_markDisputed : payment.

(** ** The simulation, one step at a time *)

(** How one step acts: nothing, a plain move, a capture, a refund, or a dispute
    outcome. *)
Definition effect (p q : t) : Prop :=
  untouched p q
  ∨ (∃ rs cs, moved p q rs cs
      ∧ Forall (λ r, Money.wf (rf_amount r) ∧ Money.same (_amount p) (rf_amount r)) rs
      ∧ Forall (λ c, Money.wf (cp_amount c) ∧ Money.same (_amount p) (cp_amount c)) cs
      ∧ link (_status p) (_status q)
      ∧ PayAuto.trans (abs p) (abs q)).

Lemma abs_moved p q rs cs : moved p q rs cs →
  abs q = PayAuto.mkState (Money.amountMinorUnits (_amount p)) (_status q)
            (refunded_units p + sumZ (λ r, Money.amountMinorUnits (rf_amount r)) rs)
            (captured_units p + sumZ (λ c, Money.amountMinorUnits (cp_amount c)) cs).
Proof.
  intros (Ha & Hr & Hc & _). unfold abs, refunded_units, captured_units.
  by rewrite Ha, Hr, Hc, !sumZ_app.
Qed.

Lemma effect_plain p q : plain_step p q → effect p q.
Proof.
  intros [p' q' Hm Ht Hv]. right. exists [], [].
  split_and!; [done|apply Forall_nil_2|apply Forall_nil_2|by left|].
  rewrite (abs_moved _ _ _ _ Hm). cbn [sumZ]. rewrite !Z.add_0_r. by apply PayAuto.t_move.
Qed.

Lemma effect_capture now id amount tx raw p b q :
  coherent p → Money.wf amount → recordCapture now id amount tx raw p = Ok (b, q) → effect p q.
Proof.
  intros Hp Hamt H. destruct (recordCapture_same _ _ _ _ _ _ _ Hp H) as [Hs Hst].
  pose proof (recordCapture_run now id amount tx raw p Hp Hamt Hs Hst) as Hrun. cbv zeta in Hrun.
  destruct (Z.ltb_spec (Money.amountMinorUnits (_amount p))
              (captured_units p + Money.amountMinorUnits amount)) as [Hlt|Hge].
  { rewrite Hrun in H. by destruct (remainingCapturable p). }
  destruct Hrun as (q' & E & Hm & Hq). rewrite E in H. injection H as _ ->.
  right. eexists [], _. split_and!; [exact Hm|apply Forall_nil_2|by apply Forall_singleton| |].
  { rewrite Hq. unfold link. destruct (_ =? _), Hst as [-> | ->]; auto. }
  rewrite (abs_moved _ _ _ _ Hm), Hq. cbn [sumZ cp_amount]. rewrite !Z.add_0_r.
  apply PayAuto.t_capture; [done|apply Hamt|done].
Qed.

Lemma effect_refund now id amount reason psp p q :
  coherent p → Money.wf amount → refund now id amount reason psp p = Ok q → effect p q.
Proof.
  intros Hp Hamt H. destruct (refund_same _ _ _ _ _ _ _ Hp H) as [Hs Hst].
  pose proof (refund_run now id amount reason psp p Hp Hamt Hs Hst) as Hrun. cbv zeta in Hrun.
  destruct (Z.ltb_spec (Money.amountMinorUnits (_amount p))
              (refunded_units p + Money.amountMinorUnits amount)) as [Hlt|Hge].
  { rewrite Hrun in H. discriminate. }
  destruct Hrun as (q' & E & Hm & Hq). rewrite E in H. injection H as ->.
  right. eexists _, []. split_and!; [exact Hm|by apply Forall_singleton|apply Forall_nil_2| |].
  { rewrite Hq. unfold link. destruct (_ =? _), Hst as [-> | ->]; auto. }
  rewrite (abs_moved _ _ _ _ Hm), Hq. cbn [sumZ rf_amount]. rewrite !Z.add_0_r.
  apply PayAuto.t_refund; [done|apply Hamt|done].
Qed.

Lemma effect_resolve now outcome p q :
  coherent p → resolveDispute now outcome p = Ok q → effect p q.
Proof.
  intros Hp H. destruct outcome.
  - destruct (resolveDispute_won _ _ _ Hp H) as (Hm & Hq & Hv).
    right. exists [], []. split_and!; [done|apply Forall_nil_2|apply Forall_nil_2|by left|].
    rewrite (abs_moved _ _ _ _ Hm), Hq. cbn [sumZ]. rewrite !Z.add_0_r.
    apply PayAuto.t_won. by rewrite <- Hq.
  - destruct (resolveDispute_lost _ _ _ Hp H) as (Hv & Hq & Hle & m & Hwf & Hs & Hmu & Hm).
    right. eexists _, [].
    split_and!; [exact Hm|by apply Forall_singleton|apply Forall_nil_2|left; by rewrite Hq|].
    rewrite (abs_moved _ _ _ _ Hm), Hq. cbn [sumZ rf_amount]. rewrite Hmu, !Z.add_0_r.
    replace (refunded_units p + _) with (Money.amountMinorUnits (_amount p)) by lia.
    by apply PayAuto.t_lost.
Qed.

Lemma step_effect p q : step p q → coherent p → effect p q.
Proof.
  destruct 1; intros Hp; first
    [ solve [left; eauto with payment]
    | solve [apply effect_plain; eauto with payment]
    | solve [eauto using effect_capture, effect_refund, effect_resolve] ].
Qed.

Lemma untouched_abs p q : untouched p q → abs q = abs p ∧ (coherent p → coherent q).
Proof.
  intros (Ha & Hs & Hr & Hc & _). unfold abs, coherent, refunded_units, captured_units.
  by rewrite Ha, Hs, Hr, Hc.
Qed.

Lemma effect_coherent p q : effect p q → coherent p → coherent q.
Proof.
  intros [Hu|(rs & cs & Hm & Hrs & Hcs & _)] Hp; [by apply (untouched_abs p q) | by eapply moved_coherent].
Qed.

Lemma effect_trans p q : effect p q → PayAuto.trans (abs p) (abs q).
Proof.
  intros [Hu|(rs & cs & _ & _ & _ & _ & Ht)]; [|done].
  destruct (untouched_abs p q Hu) as [-> _]. constructor.
Qed.

(** Reachable payments stay coherent and keep the automaton's invariant. *)
Lemma coherent_rtc p q : rtc step p q → coherent p → coherent q ∧ rtc PayAuto.trans (abs p) (abs q).
Proof.
  induction 1 as [p|p q r Hpq _ IH]; intros Hp; [split; [done|constructor]|].
  pose proof (step_effect _ _ Hpq Hp) as He.
  destruct (IH (effect_coherent _ _ He Hp)) as [Hr Htr].
  split; [done|]. eapply rtc_l; [|done]. by apply effect_trans.
Qed.

Lemma coherent_create now id amount key md bin del init_ :
  Money.wf amount → coherent (create now id amount key md bin del init_).
Proof. intros. split_and!; [done|apply Forall_nil_2|apply Forall_nil_2]. Qed.

Lemma abs_create now id amount key md bin del init_ :
  abs (create now id amount key md bin del init_) = PayAuto.init (Money.amountMinorUnits amount).
Proof. reflexivity. Qed.

(** Payments reachable from a fresh one. *)
Definition reachable (p : t) : Prop :=
  ∃ now id amount key md bin del init_,
    Money.wf amount ∧ rtc step (create now id amount key md bin del init_) p.

Lemma reachable_coherent p : reachable p → coherent p ∧ PayAuto.safe (abs p).
Proof.
  intros (now & id & amount & key & md & bin & del & init_ & Ha & Hr).
  destruct (coherent_rtc _ _ Hr (coherent_create now id amount key md bin del init_ Ha)) as [Hp Htr].
  split; [done|]. eapply invariant_rtc; [apply PayAuto.safe_trans|exact Htr|].
  rewrite abs_create. apply PayAuto.safe_init, Ha.
Qed.

(** The recorded status changes lead from PENDING to the current status. *)
Lemma effect_path p q : effect p q →
  path PENDING (status_changes (_domainEvents p)) (_status p) →
  path PENDING (status_changes (_domainEvents q)) (_status q).
Proof.
  intros [(_ & Hs & _ & _ & He)|(rs & cs & (_ & _ & _ & He) & _ & _ & Hl & _)] Hp.
  - by rewrite He, Hs.
  - rewrite He. by apply path_snoc.
Qed.

Lemma path_rtc p q : rtc step p q → coherent p →
  path PENDING (status_changes (_domainEvents p)) (_status p) →
  path PENDING (status_changes (_domainEvents q)) (_status q).
Proof.
  induction 1 as [p|p q r Hpq _ IH]; intros Hp Hpath; [done|].
  pose proof (step_effect _ _ Hpq Hp) as He.
  apply IH; [by apply (effect_coherent p)|by apply (effect_path p)].
Qed.

(** ** Fields written once *)

(** A field that keeps its first value. *)
Definition kept {A} (f : t → option A) : Prop := ∀ p q x, step p q → f p = Some x → f q = Some x.

Ltac solve_kept :=
  intros p q x Hs Hx;
  destruct Hs;
  lazymatch goal with
  | H : recordCapture _ _ _ _ _ _ = Ok _ |- _ => unfold recordCapture in H; cbv zeta in H; inv_ok
  | H : refund _ _ _ _ _ _ = Ok _ |- _ => unfold refund in H; cbv zeta in H; inv_ok
  | H : resolveDispute _ ?o _ = Ok _ |- _ => destruct o; cbn in H; inv_ok
  | H : _ = Ok _ |- _ => open_method H
  | _ => unfold recordSettlementConversion, recordTaxRecord, recordSplits, finalizeSplitConversions,
           recordInterchangeQualification, recordScaExemptionRequested, calculateRiskScore,
           recordManualAmbiguousResolution, incrementAmbiguousAutoRetryCount
  end;
  try match goal with H : (_, _) = (_, _) |- _ => injection H as <- <- end;
  repeat match goal with |- context [truthy ?o] => destruct (truthy o) end;
  match goal with p : t |- _ => destruct p end; cbn in *; subst; repeat case_match; cbn in *; try done.

Lemma settlementConversion_kept : kept _settlementConversion.
Proof. solve_kept. Qed.
Lemma taxRecord_kept : kept _taxRecord.
Proof. solve_kept. Qed.
Lemma interchangeQualification_kept : kept _interchangeQualification.
Proof. solve_kept. Qed.

(** ** Properties *)

(** C2: every mutating call of the payment aggregate that returns is a transition
    of the abstract automaton on status, refunded total and captured total (and
    keeps every recorded amount well formed and in the payment's currency). *)
Theorem payment_refines_automaton (p q : t) :
  coherent p → step p q → coherent q ∧ PayAuto.trans (abs p) (abs q).
Proof.
  intros Hp Hs. pose proof (step_effect _ _ Hs Hp) as He.
  split; [by apply (effect_coherent p)|by apply effect_trans].
Qed.

(** A fresh payment of 100.00 USD used by the witnesses. *)
Definition sample_metadata : PaymentMetadata := mkPaymentMetadata "m_1" None None None None None.
Definition sample : t := create 1000 "pay_1" (usd 10000) "key" sample_metadata None None None.
Definition sample_answer : PspAnswer := mkPspAnswer "tx_1" None None None None None None None.

(** The sample after [startProcessing] and [markSucceeded]. *)
Definition sample_processing : t :=
  transitionTo 1001 PROCESSING (sample {{ _pspProvider := Some STRIPE }}).
Definition sample_charged : t :=
  match markSucceeded 1002 sample_answer sample_processing with Ok q => q | Throw _ => sample end.

Lemma sample_reachable : reachable sample_charged.
Proof.
  exists 1000, "pay_1"%string, (usd 10000), "key"%string, sample_metadata, None, None, None.
  split; [by apply usd_wf|].
  eapply rtc_l; [by eapply (step_startProcessing 1001 STRIPE)|].
  eapply rtc_l; [by eapply (step_markSucceeded 1002 sample_answer)|]. constructor.
Qed.

Lemma sample_coherent : coherent sample.
Proof. apply coherent_create. by apply usd_wf. Qed.

Lemma payment_refines_automaton_witness :
  coherent sample_processing ∧ PayAuto.trans (abs sample) (abs sample_processing).
Proof.
  apply (payment_refines_automaton sample sample_processing).
  - exact sample_coherent.
  - apply (step_startProcessing 1001 STRIPE). reflexivity.
Defined.

(** C1: in every payment reachable from [create] the refunds and the captures
    never exceed the amount; REFUNDED means fully refunded, PARTIALLY_REFUNDED
    not fully, and before a successful charge nothing was refunded; and the
    derived getters never throw: what remains is exactly the difference. *)
Theorem reachable_payment_safe (p : t) :
  reachable p →
  PayAuto.safe (abs p)
  ∧ (∃ m, remainingRefundable p = Ok m
       ∧ Money.amountMinorUnits m = Money.amountMinorUnits (_amount p) - refunded_units p)
  ∧ (∃ m, remainingCapturable p = Ok m
       ∧ Money.amountMinorUnits m = Money.amountMinorUnits (_amount p) - captured_units p).
Proof.
  intros [Hp Hsafe]%reachable_coherent. split; [done|]. destruct Hsafe as (Hr & Hc & _). cbn in Hr, Hc.
  destruct (totalRefunded_ok p Hp) as (r & Er & _ & Hrs & Hru).
  destruct (totalCaptured_ok p Hp) as (c & Ec & _ & Hcs & Hcu).
  unfold remainingRefundable, remainingCapturable. rewrite Er, Ec. cbn [mbind result_bind].
  rewrite !subtract_total by (done || lia). split; eexists; (split; [done|]); cbn; lia.
Qed.

Lemma reachable_payment_safe_witness :
  PayAuto.safe (abs sample_charged)
  ∧ (∃ m, remainingRefundable sample_charged = Ok m
       ∧ Money.amountMinorUnits m
         = Money.amountMinorUnits (_amount sample_charged) - refunded_units sample_charged)
  ∧ (∃ m, remainingCapturable sample_charged = Ok m
       ∧ Money.amountMinorUnits m
         = Money.amountMinorUnits (_amount sample_charged) - captured_units sample_charged).
Proof. apply (reachable_payment_safe sample_charged), sample_reachable. Defined.

(** [refund] on a reachable payment, on every branch: it throws on a status
    that was not charged, on another currency and on an amount above what
    remains; otherwise it appends exactly that refund, moves the refunded total
    by it, and ends in REFUNDED exactly when the total reaches the amount. *)
Theorem refund_exact (p : t) (now : Date) (id : string) (amount : Money.t) (reason : string)
    (psp : option string) :
  reachable p → Money.wf amount →
  let total := refunded_units p + Money.amountMinorUnits amount in
  let charged := bool_decide (_status p = SUCCEEDED) || bool_decide (_status p = PARTIALLY_REFUNDED) in
  if negb charged then refund now id amount reason psp p = Throw (CannotRefund (status_str (_status p)))
  else if negb (Currency.equals (Money.currency (_amount p)) (Money.currency amount)) then
    refund now id amount reason psp p
    = Throw (CurrencyMismatch (Currency.code (Money.currency (_amount p))) (Currency.code (Money.currency amount)))
  else if Money.amountMinorUnits (_amount p) <? total then
    refund now id amount reason psp p = Throw (RefundExceedsRemaining (Money.amountMinorUnits amount))
  else ∃ q, refund now id amount reason psp p = Ok q
    ∧ _refunds q = _refunds p ++ [mkRefundRecord id amount reason now psp]
    ∧ refunded_units q = total ∧ _captures q = _captures p ∧ _amount q = _amount p
    ∧ _status q = if total =? Money.amountMinorUnits (_amount p) then REFUNDED else PARTIALLY_REFUNDED.
Proof.
  intros [Hp _]%reachable_coherent Hamt total charged.
  destruct charged eqn:Ech; cbn [negb].
  2: { unfold refund. replace (negb _ && negb _) with true; [done|].
       subst charged. by apply orb_false_iff in Ech as [-> ->]. }
  assert (_status p = SUCCEEDED ∨ _status p = PARTIALLY_REFUNDED) as Hst.
  { subst charged. apply orb_true_iff in Ech as [H%bool_decide_eq_true|H%bool_decide_eq_true]; auto. }
  destruct (Currency.equals _ _) eqn:Ec; cbn [negb].
  - apply Currency_equals_iff in Ec.
    pose proof (refund_run now id amount reason psp p Hp Hamt Ec Hst) as Hrun. cbv zeta in Hrun.
    fold total in Hrun. destruct (_ <? total); [done|].
    destruct Hrun as (q & E & (Ha & Hr & Hc & _) & Hq). exists q.
    rewrite app_nil_r in Hc. split_and!; [done..| |done|done|done].
    unfold refunded_units, total. rewrite Hr, sumZ_app. cbn. unfold refunded_units. lia.
  - unfold refund. replace (negb _ && negb _) with false by (destruct Hst as [-> | ->]; done).
    destruct (totalRefunded_ok p Hp) as (m & Em & _ & Hms & _). rewrite Em. cbn [mbind result_bind].
    unfold Money.add, Money.assertSameCurrency, Currency.equals in *.
    unfold Money.same in Hms. rewrite Hms, Ec. done.
Qed.

Lemma refund_exact_witness :
  ∃ q, refund 1003 "re_1" (usd 4000) "requested" None sample_charged = Ok q
    ∧ _refunds q = [mkRefundRecord "re_1" (usd 4000) "requested" 1003 None]
    ∧ refunded_units q = 4000 ∧ _captures q = [] ∧ _amount q = usd 10000
    ∧ _status q = PARTIALLY_REFUNDED.
Proof.
  apply (refund_exact sample_charged 1003 "re_1" (usd 4000) "requested" None).
  - exact sample_reachable.
  - by apply usd_wf.
Defined.

(** [recordCapture] on a reachable authorization, on every branch: it throws
    outside REQUIRES_CAPTURE and PARTIALLY_CAPTURED, on another currency, and on
    an amount above what remains (reporting exactly what remains); otherwise it
    appends that capture and completes the authorization exactly when the
    captured total reaches the authorized amount. *)
Theorem capture_exact (p : t) (now : Date) (id : string) (amount : Money.t) (tx : string)
    (raw : option Json) :
  reachable p → Money.wf amount →
  let total := captured_units p + Money.amountMinorUnits amount in
  let open := bool_decide (_status p = REQUIRES_CAPTURE) || bool_decide (_status p = PARTIALLY_CAPTURED) in
  if negb open then
    recordCapture now id amount tx raw p = Throw (CannotCapture (status_str (_status p)))
  else if negb (Currency.equals (Money.currency (_amount p)) (Money.currency amount)) then
    recordCapture now id amount tx raw p
    = Throw (CurrencyMismatch (Currency.code (Money.currency (_amount p))) (Currency.code (Money.currency amount)))
  else if Money.amountMinorUnits (_amount p) <? total then
    recordCapture now id amount tx raw p
    = Throw (CaptureExceedsRemaining (Money.amountMinorUnits amount)
               (Money.amountMinorUnits (_amount p) - captured_units p))
  else ∃ q, recordCapture now id amount tx raw p = Ok (total =? Money.amountMinorUnits (_amount p), q)
    ∧ _captures q = _captures p ++ [mkCaptureRecord id amount now (Some tx)]
    ∧ captured_units q = total ∧ _refunds q = _refunds p ∧ _amount q = _amount p
    ∧ _status q = if total =? Money.amountMinorUnits (_amount p) then SUCCEEDED else PARTIALLY_CAPTURED.
Proof.
  intros [Hp Hsafe]%reachable_coherent Hamt total open.
  destruct open eqn:Ech; cbn [negb].
  2: { unfold recordCapture. replace (negb _ && negb _) with true; [done|].
       subst open. by apply orb_false_iff in Ech as [-> ->]. }
  assert (_status p = REQUIRES_CAPTURE ∨ _status p = PARTIALLY_CAPTURED) as Hst.
  { subst open. apply orb_true_iff in Ech as [H%bool_decide_eq_true|H%bool_decide_eq_true]; auto. }
  destruct (totalCaptured_ok p Hp) as (m & Em & Hm & Hms & Hmu).
  destruct (Currency.equals _ _) eqn:Ec; cbn [negb].
  - apply Currency_equals_iff in Ec.
    pose proof (recordCapture_run now id amount tx raw p Hp Hamt Ec Hst) as Hrun. cbv zeta in Hrun.
    fold total in Hrun. destruct (_ <? total) eqn:Elt.
    + rewrite Hrun. unfold remainingCapturable. rewrite Em. cbn [mbind result_bind].
      destruct Hsafe as (_ & Hc & _). cbn in Hc.
      rewrite subtract_total by (done || lia). cbn. by rewrite Hmu.
    + destruct Hrun as (q & E & (Ha & Hr & Hc & _) & Hq). exists q.
      rewrite app_nil_r in Hr. split_and!; [done..| |done|done|done].
      unfold captured_units, total. rewrite Hc, sumZ_app. cbn. unfold captured_units. lia.
  - unfold recordCapture. replace (negb _ && negb _) with false by (destruct Hst as [-> | ->]; done).
    rewrite Em. cbn [mbind result_bind].
    unfold Money.add, Money.assertSameCurrency, Currency.equals in *.
    unfold Money.same in Hms. rewrite Hms, Ec. done.
Qed.

(** The sample authorized for 100.00 USD and awaiting capture. *)
Definition sample_authorized : t :=
  match requiresCapture 1002 sample_answer sample_processing with Ok q => q | Throw _ => sample end.

Lemma sample_authorized_reachable : reachable sample_authorized.
Proof.
  exists 1000, "pay_1"%string, (usd 10000), "key"%string, sample_metadata, None, None, None.
  split; [by apply usd_wf|].
  eapply rtc_l; [by eapply (step_startProcessing 1001 STRIPE)|].
  eapply rtc_l; [by eapply (step_requiresCapture 1002 sample_answer)|]. constructor.
Qed.

Lemma capture_exact_witness :
  ∃ q, recordCapture 1003 "cap_1" (usd 10000) "tx_2" None sample_authorized = Ok (true, q)
    ∧ _captures q = [mkCaptureRecord "cap_1" (usd 10000) 1003 (Some "tx_2"%string)]
    ∧ captured_units q = 10000 ∧ _refunds q = [] ∧ _amount q = usd 10000
    ∧ _status q = SUCCEEDED.
Proof.
  apply (capture_exact sample_authorized 1003 "cap_1" (usd 10000) "tx_2" None).
  - exact sample_authorized_reachable.
  - by apply usd_wf.
Defined.

(** The events of a reachable payment replay its history: the recorded status
    changes form a path from PENDING to the current status, and every link is in
    the transition table or one of the two self-loops of a further partial
    capture or partial refund. *)
Theorem events_replay_status (p : t) :
  reachable p → path PENDING (status_changes (_domainEvents p)) (_status p).
Proof.
  intros (now & id & amount & key & md & bin & del & init_ & Ha & Hr).
  eapply path_rtc; [exact Hr|by apply coherent_create|done].
Qed.

Lemma events_replay_status_witness :
  path PENDING [(PENDING, PROCESSING); (PROCESSING, SUCCEEDED)] SUCCEEDED.
Proof. apply (events_replay_status sample_charged). exact sample_reachable. Defined.

(** FAILED, CANCELLED and REFUNDED are final: whatever is called on a coherent
    payment in one of them, status, refunded total and captured total stay. *)
Theorem terminal_payment_frozen (p q : t) :
  coherent p → rtc step p q → PayAuto.terminal (_status p) = true → abs q = abs p.
Proof.
  intros Hp Hr Ht. destruct (coherent_rtc _ _ Hr Hp) as [_ Htr]. clear Hr Hp.
  change (_status p) with (PayAuto.status (abs p)) in Ht.
  revert Ht Htr. generalize (abs p) as a, (abs q) as b. intros a b Ht Htr.
  induction Htr as [a|a b c Hab _ IH]; [done|].
  apply PayAuto.terminal_absorbing in Hab as ->; auto.
Qed.

Definition sample_failed : t :=
  match markFailed 1001 "no PSP" None None None sample with Ok q => q | Throw _ => sample end.

Lemma terminal_payment_frozen_witness :
  abs (incrementAmbiguousAutoRetryCount sample_failed) = abs sample_failed.
Proof.
  apply (terminal_payment_frozen sample_failed).
  - apply (effect_coherent sample); [|exact sample_coherent].
    apply effect_plain, (plain_markFailed 1001 "no PSP" None None None). reflexivity.
  - apply rtc_once, step_increment.
  - reflexivity.
Defined.

(** The settlement conversion, the tax record and the interchange
    qualification are written once: whatever is called afterwards, the first
    value recorded stays. *)
Theorem recorded_once (p q : t) :
  rtc step p q →
  (∀ c, _settlementConversion p = Some c → _settlementConversion q = Some c)
  ∧ (∀ r, _taxRecord p = Some r → _taxRecord q = Some r)
  ∧ (∀ i, _interchangeQualification p = Some i → _interchangeQualification q = Some i).
Proof.
  induction 1 as [p|p q r Hpq _ (H1 & H2 & H3)]; [done|].
  split_and!; intros x Hx; eauto using settlementConversion_kept, taxRecord_kept,
    interchangeQualification_kept.
Qed.

Lemma recorded_once_witness :
  let c := mkSettlementConversion "EUR" (Num.lit 9 10) "ecb" in
  let p := recordSettlementConversion c sample in
  _settlementConversion (recordSettlementConversion (mkSettlementConversion "GBP" (Num.lit 8 10) "ecb") p)
  = Some c.
Proof.
  cbv zeta. apply (recorded_once (recordSettlementConversion (mkSettlementConversion "EUR" (Num.lit 9 10) "ecb") sample)).
  - apply rtc_once, step_recordSettlementConversion.
  - reflexivity.
Defined.

(** The pre-charge risk score is exactly the sum of its signals on whole minor
    units (value above 10 000 or 1 000 major units, European card, new merchant,
    first charge of an agent, at least half of its remaining budget), lies
    between 10 and 90, is stored, and nothing else changes. *)
Theorem risk_score_exact (ctx : option AgentContext) (p : t) :
  Money.wf (_amount p) → Money.amountMinorUnits (_amount p) ≤ 2 ^ 53 →
  let n := Money.amountMinorUnits (_amount p) in
  let unit := 10 ^ Currency.minorUnits (Money.currency (_amount p)) in
  let score := (calculateRiskScore ctx p).1 in
  score = (if 10000 * unit <? n then 30 else if 1000 * unit <? n then 15 else 0)
        + (match _binInfo p with Some b => if Bin.isEuropean b then 20 else 0 | None => 0 end)
        + 10
        + (match ctx ≫= isFirstChargeToMerchant with Some true => 15 | _ => 0 end)
        + (match ctx ≫= percentOfRemainingMonthlyBudget with
           | Some pct => if Num.leb (Num.of_bigint 50) pct then 15 else 0 | None => 0 end)
  ∧ 10 ≤ score ≤ 90
  ∧ _riskScore (calculateRiskScore ctx p).2 = Some score
  ∧ abs (calculateRiskScore ctx p).2 = abs p.
Proof.
  intros Hm Hmax n unit score.
  split_and!; [| | |destruct p; reflexivity|destruct p; reflexivity].
  all: subst score; cbn [calculateRiskScore fst]; cbv zeta;
    rewrite !amount_gtb_int by (done || lia); fold n; fold unit;
    unfold Num.geb, Bin.requiresSCA.
  all: repeat match goal with
    | |- context [if ?b then _ else _] => destruct b
    | |- context [match ?o with Some _ => _ | None => _ end] => destruct o
    end; lia.
Qed.

Lemma risk_score_exact_witness : (calculateRiskScore None sample).1 = 10.
Proof.
  apply (risk_score_exact None sample).
  - by apply usd_wf.
  - cbn; lia.
Defined.
