(* ===== verification/Merchant.v ===== *)
(** * Merchant policies ([merchant.entity.ts], [merchant.service.ts])

    The columns of [MerchantEntity] that the payment core reads, and the service
    operations that set them. An operation is a function on the loaded entity:
    the lookup that precedes it and the [save] that follows it are those of the
    repository. Basis points and days are integer columns. *)

From S2P Require Import Prelude JsNumber Money Policies.

Inductive AccountKind := PLATFORM_ACCOUNT | CONNECTED.

#[global] Instance AccountKind_eq_dec : EqDecision AccountKind.
Proof. solve_decision. Defined.

Inductive KycStatus := KYC_NOT_STARTED | KYC_PENDING_REVIEW | KYC_VERIFIED | KYC_REJECTED.

#[global] Instance KycStatus_eq_dec : EqDecision KycStatus.
Proof. solve_decision. Defined.

Inductive PayoutRail := STANDARD | INSTANT.

#[global] Instance PayoutRail_eq_dec : EqDecision PayoutRail.
Proof. solve_decision. Defined.

Record FeeTier := mkFeeTier {
  minVolumeMinorUnits : string;
  tier_bps : Z }.

Module MerchantEntity.

Record t := mk {
  merchantId : string;
  platformFeeBps : Z;
  feeTiers : option (list FeeTier);
  settlementCurrency : option string;
  reserveBps : Z;
  reserveHoldDays : Z;
  riskTierAutoManaged : bool;
  accountType : AccountKind;
  platformMerchantId : option string;
  payoutReserveBps : Z;
  payoutReserveHoldDays : Z;
  payoutRail : PayoutRail;
  kycStatus : KycStatus;
  enabledPspProviders : list PSPProvider }.

End MerchantEntity.

Module MerchantService.
Import MerchantEntity.

Definition updateFeeRate (platformFeeBps' : Z) (m : t) : t :=
  m {{ platformFeeBps := platformFeeBps' }}.

(** The validation loop of [updateFeeTiers]. *)
Fixpoint checkTiers (previousThreshold : Z) (tiers : list FeeTier) : result unit :=
  match tiers with
  | [] => Ok tt
  | tier :: tiers =>
      match Str.BigInt (minVolumeMinorUnits tier) with
      | Throw _ => Throw (HttpException 422 "FEE_TIER_INVALID_THRESHOLD")
      | Ok threshold =>
          if threshold <=? previousThreshold then Throw (HttpException 422 "FEE_TIER_NOT_ASCENDING")
          else checkTiers threshold tiers
      end
  end.

Definition updateFeeTiers (tiers : list FeeTier) (m : t) : result t :=
  _ ← checkTiers (-1) tiers;
  Ok (m {{ feeTiers := match tiers with [] => None | _ => Some tiers end }}).

Definition updateSettlementCurrency (currency : option string) (m : t) : t :=
  m {{ settlementCurrency := if truthy currency then Str.toUpperCase <$> currency else None }}.

(** The new entity and whether [merchant.reserve_policy.escalated] is emitted. *)
Definition updateReservePolicy (reserveBps' reserveHoldDays' : Z) (m : t)
    : t * bool :=
  let previousBps := reserveBps m in
  (m {{ reserveBps := reserveBps'; reserveHoldDays := reserveHoldDays'; riskTierAutoManaged := false }},
   previousBps <? reserveBps').

End MerchantService.

(** ** Validated fee schedules *)

(** The thresholds of a schedule, when they all parse. *)
Fixpoint thresholds (tiers : list FeeTier) : option (list (Z * Z)) :=
  match tiers with
  | [] => Some []
  | tier :: tiers =>
      match Str.BigInt (minVolumeMinorUnits tier) with
      | Ok t => cons (t, tier_bps tier) <$> thresholds tiers
      | Throw _ => None
      end
  end.

(** Strictly ascending from [lo] on. *)
Fixpoint ascending (lo : Z) (l : list (Z * Z)) : Prop :=
  match l with [] => True | (t, _) :: l => lo < t ∧ ascending t l end.

Lemma checkTiers_ok lo tiers :
  MerchantService.checkTiers lo tiers = Ok tt ↔
  ∃ l, thresholds tiers = Some l ∧ ascending lo l.
Proof.
  revert lo. induction tiers as [|tier tiers IH]; intros lo; cbn.
  - split; [|done]. intros _. by exists [].
  - destruct (Str.BigInt (minVolumeMinorUnits tier)) as [t|e]; [|naive_solver].
    destruct (Z.leb_spec t lo).
    + split; [discriminate|]. intros (l & Hl & Hasc). destruct (thresholds tiers); [|discriminate].
      injection Hl as <-. cbn in Hasc. lia.
    + rewrite IH. split.
      * intros (l & -> & Hasc). eexists. split; [reflexivity|]. by split.
      * intros (l & Hl & Hasc). destruct (thresholds tiers) as [l'|]; [|discriminate].
        injection Hl as <-. destruct Hasc as [_ ?]. eauto.
Qed.
