(* ===== verification/Ledger.v ===== *)
(** * The double-entry ledger ([ledger-outbox.aggregate.ts])

    [LedgerOutboxEvent] is the record of the transactional outbox; its private
    constructor runs [validateDoubleEntry], so every factory goes through
    [make]. The factories that book a charge, a reserve movement, a refund and
    the two BNPL movements build their entry list in the order of the code's
    pushes. [now] is the reading of every [new Date()] of one call. *)

From S2P Require Import Prelude JsNumber Money Payment.

Inductive LedgerEntryType := DEBIT | CREDIT.

Inductive AccountType :=
  | MERCHANT | PLATFORM | PSP_SETTLEMENT | FEE | RESERVE | FX_CLEARING
  | BNPL_SETTLEMENT | BNPL_PROVIDER_FEE.

#[global] Instance LedgerEntryType_eq_dec : EqDecision LedgerEntryType.
Proof. solve_decision. Defined.
#[global] Instance AccountType_eq_dec : EqDecision AccountType.
Proof. solve_decision. Defined.

Record LedgerEntry := mkLedgerEntry {
  accountId : string;
  accountType : AccountType;
  entryType : LedgerEntryType;
  amount : Money.t;
  description : template }.

(** ** Parameters of the factories *)

(** [settlementConversion] of a charge or of one of its splits:
    [convertedNetAmount] or [convertedAmount], with the rate it was made at. *)
Record ConvertedAmount := mkConvertedAmount {
  convertedAmount : Money.t;
  ca_rate : number;
  ca_provider : string }.

Record ChargeSplit := mkChargeSplit {
  cs_merchantId : string;
  cs_amount : Money.t;
  cs_settlementConversion : option ConvertedAmount }.

Record ChargeEntriesParams := mkChargeEntriesParams {
  ch_id : string;
  ch_paymentId : string;
  ch_merchantId : string;
  ch_amount : Money.t;
  ch_platformFee : Money.t;
  ch_settlementConversion : option ConvertedAmount;
  ch_reserveHold : option Money.t;
  ch_splits : option (list ChargeSplit) }.

Record RefundEntriesParams := mkRefundEntriesParams {
  re_id : string;
  re_paymentId : string;
  re_merchantId : string;
  re_refundAmount : Money.t;
  re_settlementConversion : option SettlementConversion;
  re_splits : option (list PaymentSplit);
  re_originalChargeAmount : option Money.t }.

Module LedgerOutboxEvent.

Inductive OutboxStatus := PENDING | PUBLISHED | FAILED.

Record t := mk {
  id : string;
  paymentId : string;
  eventType : string;
  entries : list LedgerEntry;
  status : OutboxStatus;
  createdAt : Date;
  processedAt : option Date;
  retryCount : Z;
  lastError : option string }.

(** ** Validation *)

(** The [Map<string, { debits, credits }>]: insertion order, distinct keys. *)
Definition balances := list (string * (Z * Z)).

(** The balance after [entry] is added to it. *)
Definition bump (entry : LedgerEntry) (bal : Z * Z) : Z * Z :=
  match entryType entry with
  | DEBIT => (bal.1 + Money.amountMinorUnits (amount entry), bal.2)
  | CREDIT => (bal.1, bal.2 + Money.amountMinorUnits (amount entry))
  end.

(** One iteration of the first loop: a missing key is set to zeros at the end
    of the map, then its balance is updated in place. *)
Fixpoint accumulate (byCurrency : balances) (entry : LedgerEntry) : balances :=
  let code := Currency.code (Money.currency (amount entry)) in
  match byCurrency with
  | [] => [(code, bump entry (0, 0))]
  | (c, bal) :: rest =>
      if String.eqb c code then (c, bump entry bal) :: rest
      else (c, bal) :: accumulate rest entry
  end.

(** The second loop. *)
Fixpoint checkBalances (byCurrency : balances) : result unit :=
  match byCurrency with
  | [] => Ok tt
  | (currency, (debits, credits)) :: rest =>
      if negb (debits =? credits) then Throw (DoubleEntryImbalance currency debits credits)
      else checkBalances rest
  end.

Definition validateDoubleEntry (entries : list LedgerEntry) : result unit :=
  checkBalances (foldl accumulate [] entries).

(** ** Construction *)

(** The private constructor. *)
Definition make (id paymentId eventType : string) (entries : list LedgerEntry) (status : OutboxStatus)
    (createdAt : Date) (processedAt : option Date) (retryCount : Z) (lastError : option string) : result t :=
  _ ← validateDoubleEntry entries;
  Ok (mk id paymentId eventType entries status createdAt processedAt retryCount lastError).

Definition create (now : Date) (id paymentId eventType : string) (entries : list LedgerEntry) : result t :=
  make id paymentId eventType entries PENDING now None 0 None.

Definition reconstitute (id paymentId eventType : string) (entries : list LedgerEntry)
    (status : OutboxStatus) (createdAt : Date) (processedAt : option Date) (retryCount : option Z)
    (lastError : option string) : result t :=
  make id paymentId eventType entries status createdAt processedAt (nullish retryCount 0) lastError.

(** ** Charges *)

Definition code_of (m : Money.t) : string := Currency.code (Money.currency m).

(** The three entries of a payout that is converted: the charge-currency leg
    into the clearing account, and the settlement-currency leg out of it. *)
Definition convertedPayout (merchantId : string) (base : Money.t) (conv : ConvertedAmount)
    (label : string) (payout : template) (paymentId : string) : list LedgerEntry :=
  let fxDescription :=
    [Txt (label ++ code_of base ++ "->" ++ code_of (convertedAmount conv) ++ " @ ");
     Numb (ca_rate conv); Txt (" (" ++ ca_provider conv ++ ") for payment " ++ paymentId)] in
  [mkLedgerEntry "FX_CLEARING_ACCOUNT" FX_CLEARING CREDIT base fxDescription;
   mkLedgerEntry "FX_CLEARING_ACCOUNT" FX_CLEARING DEBIT (convertedAmount conv) fxDescription;
   mkLedgerEntry merchantId MERCHANT CREDIT (convertedAmount conv) payout].

(** The entries one split pushes. *)
Definition splitEntries (paymentId : string) (split : ChargeSplit) : list LedgerEntry :=
  match cs_settlementConversion split with
  | Some conv =>
      convertedPayout (cs_merchantId split) (cs_amount split) conv "FX conversion (split) "
        [Txt ("Marketplace split payout (settled in " ++ code_of (convertedAmount conv)
              ++ ") for payment " ++ paymentId)] paymentId
  | None =>
      [mkLedgerEntry (cs_merchantId split) MERCHANT CREDIT (cs_amount split)
         [Txt ("Marketplace split payout for payment " ++ paymentId)]]
  end.

(** [for (const split of params.splits ?? [])]: the state is [remaining] and
    [entries]. *)
Fixpoint pushSplits (paymentId : string) (remaining : Money.t) (entries : list LedgerEntry)
    (splits : list ChargeSplit) : result (Money.t * list LedgerEntry) :=
  match splits with
  | [] => Ok (remaining, entries)
  | split :: splits =>
      remaining ← Money.subtract remaining (cs_amount split);
      pushSplits paymentId remaining (entries ++ splitEntries paymentId split) splits
  end.

Definition remainderEntries (params : ChargeEntriesParams) (remaining : Money.t) : list LedgerEntry :=
  if Money.isZero remaining then []
  else match ch_settlementConversion params with
  | Some conv =>
      convertedPayout (ch_merchantId params) remaining conv "FX conversion "
        [Txt ("Payment received (settled in " ++ code_of (convertedAmount conv)
              ++ ") for payment " ++ ch_paymentId params)] (ch_paymentId params)
  | None =>
      [mkLedgerEntry (ch_merchantId params) MERCHANT CREDIT remaining
         [Txt (match ch_splits params with
               | Some (_ :: _) => "Payment received (after marketplace split) for payment "
               | _ => "Payment received for payment "
               end ++ ch_paymentId params)]]
  end.

Definition createChargeEntries (now : Date) (params : ChargeEntriesParams) : result t :=
  netAmount ← Money.subtract (ch_amount params) (ch_platformFee params);
  payoutAmount ←
    match ch_reserveHold params with
    | Some reserve => Money.subtract netAmount reserve
    | None => Ok netAmount
    end;
  let entries :=
    [mkLedgerEntry "PSP_SETTLEMENT_ACCOUNT" PSP_SETTLEMENT DEBIT (ch_amount params)
       [Txt ("PSP settlement debit for payment " ++ ch_paymentId params)];
     mkLedgerEntry "PLATFORM_FEE_ACCOUNT" FEE CREDIT (ch_platformFee params)
       [Txt ("Platform fee for payment " ++ ch_paymentId params)]] in
  let entries :=
    match ch_reserveHold params with
    | Some reserve =>
        entries ++ [mkLedgerEntry (ch_merchantId params ++ "_RESERVE") RESERVE CREDIT reserve
                      [Txt ("Reserve withheld from payment " ++ ch_paymentId params)]]
    | None => entries
    end in
  '(remaining, entries) ← pushSplits (ch_paymentId params) payoutAmount entries (nullish (ch_splits params) []);
  create now (ch_id params) (ch_paymentId params) "PAYMENT_CHARGED"
    (entries ++ remainderEntries params remaining).

(** ** Reserves *)

Definition createReserveReleaseEntries (now : Date) (id paymentId merchantId : string) (amount : Money.t)
    : result t :=
  let description := [Txt ("Reserve released for payment " ++ paymentId)] in
  create now id paymentId "RESERVE_RELEASED"
    [mkLedgerEntry (merchantId ++ "_RESERVE") RESERVE DEBIT amount description;
     mkLedgerEntry merchantId MERCHANT CREDIT amount description].

Definition createReserveTopUpEntries (now : Date) (id paymentId merchantId : string) (amount : Money.t)
    : result t :=
  let description := [Txt ("Reserve topped up (risk tier escalation) for payment " ++ paymentId)] in
  create now id paymentId "RESERVE_TOPPED_UP"
    [mkLedgerEntry merchantId MERCHANT DEBIT amount description;
     mkLedgerEntry (merchantId ++ "_RESERVE") RESERVE CREDIT amount description].

(** ** Refunds *)

(** [a / b] on bigints: truncation, a RangeError on a zero divisor. *)
Definition bigint_div (a b : Z) : result Z :=
  if b =? 0 then Throw (RangeError "Division by zero") else Ok (Z.quot a b).

Definition pushDebit (paymentId accountId : string) (amount : Money.t) (descriptionSuffix : string)
    (entries : list LedgerEntry) : list LedgerEntry :=
  entries ++ [mkLedgerEntry accountId MERCHANT DEBIT amount
                [Txt (descriptionSuffix ++ " for payment " ++ paymentId)]].

Definition pushConvertedDebit (now : Date) (paymentId accountId : string) (debitAmount : Money.t)
    (conversion : SettlementConversion) (descriptionSuffix : string) (entries : list LedgerEntry)
    : result (list LedgerEntry) :=
  convertedAmount ← Money.convertTo now debitAmount (sc_currency conversion) (sc_rate conversion)
                      (sc_provider conversion);
  let fxDescription :=
    [Txt ("FX conversion (refund) " ++ code_of debitAmount ++ "->" ++ code_of convertedAmount ++ " @ ");
     Numb (sc_rate conversion); Txt (" (" ++ sc_provider conversion ++ ") for payment " ++ paymentId)] in
  Ok (entries ++
    [mkLedgerEntry "FX_CLEARING_ACCOUNT" FX_CLEARING DEBIT debitAmount fxDescription;
     mkLedgerEntry "FX_CLEARING_ACCOUNT" FX_CLEARING CREDIT convertedAmount fxDescription;
     mkLedgerEntry accountId MERCHANT DEBIT convertedAmount
       [Txt (descriptionSuffix ++ " (settled in " ++ code_of convertedAmount ++ ") for payment "
             ++ paymentId)]]).

(** The branch every debit ends with: converted when a conversion is recorded. *)
Definition debit (now : Date) (paymentId accountId : string) (debitAmount : Money.t)
    (conversion : option SettlementConversion) (descriptionSuffix : string)
    (entries : list LedgerEntry) : result (list LedgerEntry) :=
  match conversion with
  | Some conversion => pushConvertedDebit now paymentId accountId debitAmount conversion descriptionSuffix entries
  | None => Ok (pushDebit paymentId accountId debitAmount descriptionSuffix entries)
  end.

(** [for (const split of params.splits)]: the state is [connectedTotal] and
    [entries]. *)
Fixpoint pushSplitDebits (now : Date) (paymentId : string) (refundAmount : Money.t) (chargeMinorUnits : Z)
    (connectedTotal : Z) (entries : list LedgerEntry) (splits : list PaymentSplit)
    : result (Z * list LedgerEntry) :=
  match splits with
  | [] => Ok (connectedTotal, entries)
  | split :: splits =>
      debitMinorUnits ← bigint_div (Money.amountMinorUnits (ps_amount split)
                                    * Money.amountMinorUnits refundAmount) chargeMinorUnits;
      let connectedTotal := connectedTotal + debitMinorUnits in
      entries ←
        (if 0 <? debitMinorUnits then
           debitAmount ← Money.fromMinorUnits debitMinorUnits (code_of refundAmount) None;
           debit now paymentId (ps_merchantId split) debitAmount (ps_settlementConversion split)
             "Marketplace split refund debit" entries
         else Ok entries);
      pushSplitDebits now paymentId refundAmount chargeMinorUnits connectedTotal entries splits
  end.

Definition createRefundEntries (now : Date) (params : RefundEntriesParams) : result t :=
  let entries :=
    [mkLedgerEntry "PSP_SETTLEMENT_ACCOUNT" PSP_SETTLEMENT CREDIT (re_refundAmount params)
       [Txt ("PSP refund credit for payment " ++ re_paymentId params)]] in
  let refundMinorUnits := Money.amountMinorUnits (re_refundAmount params) in
  '(platformDebitMinorUnits, entries) ←
    match re_splits params, re_originalChargeAmount params with
    | Some ((_ :: _) as splits), Some originalChargeAmount =>
        '(connectedTotal, entries) ←
          pushSplitDebits now (re_paymentId params) (re_refundAmount params)
            (Money.amountMinorUnits originalChargeAmount) 0 entries splits;
        Ok (refundMinorUnits - connectedTotal, entries)
    | _, _ => Ok (refundMinorUnits, entries)
    end;
  entries ←
    (if 0 <? platformDebitMinorUnits then
       debitAmount ← Money.fromMinorUnits platformDebitMinorUnits (code_of (re_refundAmount params)) None;
       let descriptionSuffix :=
         match re_splits params with
         | Some (_ :: _) => "Refund debit (after marketplace split reversal)"
         | _ => "Refund debit"
         end%string in
       debit now (re_paymentId params) (re_merchantId params) debitAmount
         (re_settlementConversion params) descriptionSuffix entries
     else Ok entries);
  create now (re_id params) (re_paymentId params) "PAYMENT_REFUNDED" entries.

(** ** Buy now, pay later *)

Definition createBnplCaptureEntries (now : Date) (id bnplOrderId merchantId : string)
    (amount platformFee providerFee : Money.t) : result t :=
  n ← Money.subtract amount platformFee;
  netAmount ← Money.subtract n providerFee;
  create now id bnplOrderId "BNPL_CAPTURED"
    [mkLedgerEntry "BNPL_SETTLEMENT_ACCOUNT" BNPL_SETTLEMENT DEBIT amount
       [Txt ("BNPL settlement debit for order " ++ bnplOrderId)];
     mkLedgerEntry "PLATFORM_FEE_ACCOUNT" FEE CREDIT platformFee
       [Txt ("Platform fee for BNPL order " ++ bnplOrderId)];
     mkLedgerEntry "KLARNA_FEE_ACCOUNT" BNPL_PROVIDER_FEE CREDIT providerFee
       [Txt ("Klarna merchant fee for order " ++ bnplOrderId)];
     mkLedgerEntry merchantId MERCHANT CREDIT netAmount
       [Txt ("Net BNPL settlement credit for order " ++ bnplOrderId)]].

Definition createBnplRefundEntries (now : Date) (id bnplOrderId merchantId : string)
    (refundAmount : Money.t) : result t :=
  create now id bnplOrderId "BNPL_REFUNDED"
    [mkLedgerEntry "BNPL_SETTLEMENT_ACCOUNT" BNPL_SETTLEMENT CREDIT refundAmount
       [Txt ("BNPL settlement credit (refund) for order " ++ bnplOrderId)];
     mkLedgerEntry merchantId MERCHANT DEBIT refundAmount
       [Txt ("Refund debit for BNPL order " ++ bnplOrderId)]].

End LedgerOutboxEvent.
