(* ===== verification/LedgerCorrect.v ===== *)
(** * Correctness of the ledger

    The specification of an entry list is its net position per currency
    ([net]); a list balances when every net position is zero. [payouts] and
    [refund_bases] say which merchants a charge pays and a refund charges, and
    the factories are proved to book exactly those lines and to balance. *)

From S2P Require Import Prelude JsNumber Money Payment Ledger.
Import LedgerOutboxEvent.

(** ** Net positions *)

Definition entry_code (e : LedgerEntry) : string := code_of (amount e).

Definition side (s : LedgerEntryType) (code : string) (l : list LedgerEntry) : Z :=
  sumZ (λ e, if decide (entryType e = s ∧ entry_code e = code)
             then Money.amountMinorUnits (amount e) else 0) l.

Abbreviation debits := (side DEBIT).
Abbreviation credits := (side CREDIT).

Definition net (code : string) (l : list LedgerEntry) : Z := credits code l - debits code l.

(** The double-entry invariant: debits equal credits in every currency. *)
Definition balanced (l : list LedgerEntry) : Prop := ∀ code, debits code l = credits code l.

#[global] Instance side_Proper s code : Proper ((≡ₚ) ==> (=)) (side s code).
Proof. intros l1 l2 H. by apply sumZ_Permutation. Qed.

#[global] Instance balanced_Proper : Proper ((≡ₚ) ==> iff) balanced.
Proof. intros l1 l2 H. unfold balanced. by setoid_rewrite H. Qed.

Lemma net_app code l1 l2 : net code (l1 ++ l2) = net code l1 + net code l2.
Proof. unfold net, side. rewrite !sumZ_app. lia. Qed.

Lemma net_nil code : net code [] = 0.
Proof. done. Qed.

(** The net position of one entry. *)
Definition value (code : string) (e : LedgerEntry) : Z :=
  if decide (entry_code e = code) then
    match entryType e with
    | CREDIT => Money.amountMinorUnits (amount e)
    | DEBIT => - Money.amountMinorUnits (amount e)
    end
  else 0.

Lemma net_cons code e l : net code (e :: l) = value code e + net code l.
Proof.
  unfold net, side, value. cbn [sumZ].
  destruct (decide (entry_code e = code)), (entryType e); repeat case_decide; naive_solver lia.
Qed.

Lemma balanced_net l : balanced l ↔ ∀ code, net code l = 0.
Proof. unfold balanced, net. split; intros H code; specialize (H code); lia. Qed.

Create Rewrite HintDb ledger.
#[export] Hint Rewrite net_cons net_app net_nil : ledger.

(** Evaluates net positions: unfolds the entries' values and splits on the
    currency tests. *)
Ltac net_solve :=
  autorewrite with ledger; unfold value, entry_code, code_of in *;
  cbn [entryType amount Money.amountMinorUnits Money.currency] in *;
  repeat case_decide; (done || lia || congruence || (exfalso; congruence)).

(** ** The validation loop computes the sides *)

Lemma side_snoc s code l e : side s code (l ++ [e]) =
  side s code l + (if decide (entryType e = s ∧ entry_code e = code)
                   then Money.amountMinorUnits (amount e) else 0).
Proof. unfold side. rewrite sumZ_app. cbn [sumZ]. lia. Qed.

(** A map that holds the sides of [l]: distinct keys, every currency of [l]. *)
Definition holds (l : list LedgerEntry) (m : balances) : Prop :=
  NoDup m.*1 ∧ (∀ e, e ∈ l → entry_code e ∈ m.*1)
  ∧ ∀ c d r, (c, (d, r)) ∈ m → d = debits c l ∧ r = credits c l.

Lemma accumulate_keys m e :
  (accumulate m e).*1 = if decide (entry_code e ∈ m.*1) then m.*1 else m.*1 ++ [entry_code e].
Proof.
  induction m as [|[c b] m IH]; cbn; [done|].
  destruct (String.eqb_spec c (Currency.code (Money.currency (amount e)))) as [->|Hne]; cbn.
  - rewrite decide_True; [done|]. by left.
  - rewrite IH. repeat case_decide; try done.
    + by match goal with H : ¬ _ |- _ => destruct H; right end.
    + match goal with H : _ ∈ _ :: _ |- _ => apply elem_of_cons in H as [H|H]; [|done] end.
      by destruct Hne.
Qed.

Lemma accumulate_In m e c b : NoDup m.*1 → (c, b) ∈ accumulate m e →
  (c ≠ entry_code e ∧ (c, b) ∈ m)
  ∨ (c = entry_code e ∧ ∃ b0, b = bump e b0 ∧ ((c, b0) ∈ m ∨ (b0 = (0, 0) ∧ c ∉ m.*1))).
Proof.
  induction m as [|[c' b'] m IH]; cbn; intros Hnd Hin.
  - apply list_elem_of_singleton in Hin as [= -> ->]. right. split; [done|].
    exists (0, 0). split; [done|]. right. split; [done|]. set_solver.
  - apply NoDup_cons in Hnd as [Hc' Hnd].
    destruct (String.eqb_spec c' (Currency.code (Money.currency (amount e)))) as [->|Hne].
    + apply elem_of_cons in Hin as [[= -> ->]|Hin].
      * right. split; [done|]. exists b'. split; [done|]. left. by left.
      * left. split; [|by right]. intros ->. apply Hc'. apply (list_elem_of_fmap_2 fst) in Hin. done.
    + apply elem_of_cons in Hin as [[= -> ->]|Hin].
      * left. split; [done|]. by left.
      * destruct (IH Hnd Hin) as [[? ?]|(-> & b0 & -> & Hb)].
        -- left. split; [done|]. by right.
        -- right. split; [done|]. exists b0. split; [done|].
           destruct Hb as [?|[? ?]]; [left; by right|]. right. split; [done|]. set_solver.
Qed.

Lemma side_absent s code l : (∀ e, e ∈ l → entry_code e ≠ code) → side s code l = 0.
Proof.
  unfold side. induction l as [|e l IH]; cbn; intros H; [done|].
  rewrite decide_False by (intros [_ ?]; by apply (H e); [left|]).
  rewrite IH; [done|]. intros e' He'. apply H. by right.
Qed.

Lemma holds_snoc l m e : holds l m → holds (l ++ [e]) (accumulate m e).
Proof.
  intros (Hnd & Hkeys & Hsides). split_and!.
  - rewrite accumulate_keys. case_decide; [done|]. apply NoDup_app. split_and!; [done| |].
    + intros x Hx ->%list_elem_of_singleton. done.
    + apply NoDup_singleton.
  - intros e' [He'| ->%list_elem_of_singleton]%elem_of_app; rewrite accumulate_keys; case_decide.
    + by apply Hkeys.
    + apply elem_of_app. left. by apply Hkeys.
    + done.
    + apply elem_of_app. right. by apply list_elem_of_singleton.
  - intros c d r Hin. rewrite !side_snoc.
    destruct (accumulate_In _ _ _ _ Hnd Hin) as [[Hne Hm]|(-> & [d0 r0] & Hb & Hm)].
    + destruct (Hsides _ _ _ Hm) as [-> ->]. rewrite !decide_False by naive_solver. lia.
    + assert (d0 = debits (entry_code e) l ∧ r0 = credits (entry_code e) l) as [-> ->].
      { destruct Hm as [Hm|[[= -> ->] Hout]]; [by apply Hsides|].
        rewrite !side_absent; [done|..]; intros e' He' Heq; apply Hout; rewrite <- Heq; by apply Hkeys. }
      unfold bump in Hb. destruct (entryType e) eqn:E; injection Hb as -> ->; cbn;
        repeat case_decide; naive_solver lia.
Qed.

Lemma validate_holds l : holds l (foldl accumulate [] l).
Proof.
  induction l as [|e l IH] using rev_ind; cbn.
  - split_and!; [constructor|set_solver|set_solver].
  - rewrite foldl_app. by apply holds_snoc.
Qed.

Lemma checkBalances_ok m :
  checkBalances m = Ok tt ↔ ∀ c d r, (c, (d, r)) ∈ m → d = r.
Proof.
  induction m as [|[c [d r]] m IH]; cbn; [set_solver|].
  destruct (Z.eqb_spec d r) as [->|Hne]; cbn.
  - rewrite IH. split; [|set_solver]. intros H c' d' r' [[= -> -> ->]|Hin]%elem_of_cons; eauto.
  - split; [discriminate|]. intros H. destruct Hne. apply (H c). by left.
Qed.

Lemma checkBalances_throw m e : checkBalances m = Throw e →
  ∃ c d r, e = DoubleEntryImbalance c d r ∧ (c, (d, r)) ∈ m ∧ d ≠ r.
Proof.
  induction m as [|[c [d r]] m IH]; cbn; [discriminate|].
  destruct (Z.eqb_spec d r) as [->|Hne]; cbn.
  - intros (c' & d' & r' & ? & ? & ?)%IH. exists c', d', r'. split_and!; [done|by right|done].
  - intros [= <-]. exists c, d, r. split_and!; [done|by left|done].
Qed.

Lemma validate_balanced l : validateDoubleEntry l = Ok tt ↔ balanced l.
Proof.
  unfold validateDoubleEntry. rewrite checkBalances_ok.
  destruct (validate_holds l) as (_ & Hkeys & Hsides). split.
  - intros H code. destruct (decide (code ∈ (foldl accumulate [] l).*1)) as [Hin|Hout].
    + apply list_elem_of_fmap in Hin as ([c [d r]] & -> & Hin). cbn.
      destruct (Hsides _ _ _ Hin) as [<- <-]. by eapply H.
    + rewrite !side_absent; [done|..]; intros e He Heq; apply Hout; rewrite <- Heq; by apply Hkeys.
  - intros H c d r [-> ->]%Hsides. apply H.
Qed.

Lemma create_balanced now id pid ty l : balanced l →
  create now id pid ty l = Ok (mk id pid ty l PENDING now None 0 None).
Proof. intros H%validate_balanced. unfold create, make. by rewrite H. Qed.

(** C3: the constructor of an outbox event accepts an entry list exactly when debits equal
    credits in every currency, and the event then has exactly the fields it was given;
    otherwise it throws for a currency whose totals differ, and reports those totals. *)
Theorem double_entry_exact id pid ty (l : list LedgerEntry) st createdAt processedAt retryCount lastError :
  let event := make id pid ty l st createdAt processedAt retryCount lastError in
  ((∃ ev, event = Ok ev) ↔ ∀ code, debits code l = credits code l)
  ∧ (∀ ev, event = Ok ev → ev = mk id pid ty l st createdAt processedAt retryCount lastError)
  ∧ (∀ e, event = Throw e → ∃ code, e = DoubleEntryImbalance code (debits code l) (credits code l) ∧ debits code l ≠ credits code l).
Proof.
  cbv zeta. unfold make. pose proof (validate_balanced l) as Hv. destruct (validateDoubleEntry l) as [[]|e] eqn:E; cbn [mbind result_bind].
  - split_and!; [|congruence|discriminate]. split; [intros _; by apply Hv|eauto].
  - split_and!; [|discriminate|].
    + split; [intros (ev & [=])|]. intros Hb. apply Hv in Hb. discriminate Hb.
    + intros e' [= <-]. apply checkBalances_throw in E as (c & d & r & -> & Hin & Hne).
      destruct (validate_holds l) as (_ & _ & Hsides). destruct (Hsides _ _ _ Hin) as [-> ->]. eauto.
Qed.

(** ** Lines of one account type *)

Definition line (e : LedgerEntry) : LedgerEntryType * string * Money.t := (entryType e, accountId e, amount e).

Definition lines (T : AccountType) (l : list LedgerEntry) : list (LedgerEntryType * string * Money.t) :=
  line <$> filter (λ e, accountType e = T) l.

Lemma lines_app T l1 l2 : lines T (l1 ++ l2) = lines T l1 ++ lines T l2.
Proof. unfold lines. by rewrite filter_app, fmap_app. Qed.

Lemma lines_cons T e l : lines T (e :: l) = if decide (accountType e = T) then line e :: lines T l else lines T l.
Proof. unfold lines. rewrite filter_cons. by case_decide. Qed.

Lemma lines_nil T : lines T [] = [].
Proof. done. Qed.

#[export] Hint Rewrite lines_app lines_cons lines_nil : ledger.

Ltac lines_simpl :=
  autorewrite with ledger; cbn [accountType entryType accountId amount line];
  repeat case_decide; try (done || congruence || (exfalso; congruence)).
Ltac lines_solve := solve [lines_simpl].

(** ** Charges *)

(** The parameters a charge is booked with: well-formed amounts of one currency.
    The converted amounts are arbitrary. *)
Record valid_charge (p : ChargeEntriesParams) : Prop := {
  vc_amount : Money.wf (ch_amount p);
  vc_fee : Money.wf (ch_platformFee p) ∧ Money.same (ch_amount p) (ch_platformFee p);
  vc_reserve r : ch_reserveHold p = Some r → Money.wf r ∧ Money.same (ch_amount p) r;
  vc_splits : Forall (λ s, Money.wf (cs_amount s) ∧ Money.same (ch_amount p) (cs_amount s))
                (nullish (ch_splits p) []) }.

Definition splits_total (l : list ChargeSplit) : Z := sumZ (λ s, Money.amountMinorUnits (cs_amount s)) l.

(** What is taken out of the charge before the merchant is paid. *)
Definition deductions (p : ChargeEntriesParams) : Z :=
  Money.amountMinorUnits (ch_platformFee p)
  + match ch_reserveHold p with Some r => Money.amountMinorUnits r | None => 0 end
  + splits_total (nullish (ch_splits p) []).

Definition remainder (p : ChargeEntriesParams) : Money.t :=
  Money.mk (Money.amountMinorUnits (ch_amount p) - deductions p) (Money.currency (ch_amount p)) None.

Definition settled (conv : option ConvertedAmount) (m : Money.t) : Money.t :=
  match conv with Some c => convertedAmount c | None => m end.

(** Who is paid what: each split recipient its share, the charging merchant what
    is left, each in its settlement currency. *)
Definition payouts (p : ChargeEntriesParams) : list (string * Money.t) :=
  ((λ s, (cs_merchantId s, settled (cs_settlementConversion s) (cs_amount s))) <$> nullish (ch_splits p) [])
  ++ (if Money.isZero (remainder p) then []
      else [(ch_merchantId p, settled (ch_settlementConversion p) (remainder p))]).

Definition credit_line (x : string * Money.t) : LedgerEntryType * string * Money.t := (CREDIT, x.1, x.2).

Lemma net_convertedPayout mid base conv label d pid code :
  net code (convertedPayout mid base conv label d pid)
  = if decide (code_of base = code) then Money.amountMinorUnits base else 0.
Proof. unfold convertedPayout. net_solve. Qed.

Lemma net_splitEntries pid s code :
  net code (splitEntries pid s)
  = if decide (code_of (cs_amount s) = code) then Money.amountMinorUnits (cs_amount s) else 0.
Proof.
  unfold splitEntries. destruct (cs_settlementConversion s); [apply net_convertedPayout|]. net_solve.
Qed.

Lemma net_remainderEntries p r code :
  net code (remainderEntries p r)
  = if decide (code_of r = code) then Money.amountMinorUnits r else 0.
Proof.
  unfold remainderEntries. destruct (Money.isZero r) eqn:E.
  - apply isZero_iff in E. rewrite E, net_nil. by case_decide.
  - destruct (ch_settlementConversion p); [apply net_convertedPayout|]. net_solve.
Qed.

Lemma net_splits pid code cur l : Forall (λ s, Currency.code cur = code_of (cs_amount s)) l →
  net code (concat (splitEntries pid <$> l))
  = if decide (Currency.code cur = code) then splits_total l else 0.
Proof.
  unfold splits_total. induction 1 as [|s l Hs _ IH]; cbn [sumZ concat fmap list_fmap].
  - rewrite net_nil. by case_decide.
  - rewrite net_app, net_splitEntries, IH, <- Hs. case_decide; lia.
Qed.

Lemma lines_splits pid l :
  lines MERCHANT (concat (splitEntries pid <$> l))
  = credit_line <$> ((λ s, (cs_merchantId s, settled (cs_settlementConversion s) (cs_amount s))) <$> l).
Proof.
  induction l as [|s l IH]; [done|]. cbn [concat fmap list_fmap]. rewrite lines_app, IH.
  unfold splitEntries, convertedPayout, settled, credit_line.
  destruct (cs_settlementConversion s); lines_solve.
Qed.

Lemma lines_splits_other T pid l : T ≠ MERCHANT → T ≠ FX_CLEARING →
  lines T (concat (splitEntries pid <$> l)) = [].
Proof.
  intros. induction l as [|s l IH]; [done|]. cbn [concat fmap list_fmap]. rewrite lines_app, IH.
  unfold splitEntries, convertedPayout. destruct (cs_settlementConversion s); lines_solve.
Qed.

Lemma lines_remainder p r :
  lines MERCHANT (remainderEntries p r)
  = credit_line <$> (if Money.isZero r then [] else [(ch_merchantId p, settled (ch_settlementConversion p) r)]).
Proof.
  unfold remainderEntries, convertedPayout, settled, credit_line.
  destruct (Money.isZero r), (ch_settlementConversion p); lines_solve.
Qed.

Lemma lines_remainder_other T p r : T ≠ MERCHANT → T ≠ FX_CLEARING → lines T (remainderEntries p r) = [].
Proof.
  intros. unfold remainderEntries, convertedPayout.
  destruct (Money.isZero r), (ch_settlementConversion p); lines_solve.
Qed.

(** The split loop either carves every share out or throws. *)
Lemma pushSplits_spec pid cur r entries l : 0 ≤ r →
  Forall (λ s, Money.wf (cs_amount s) ∧ Currency.code cur = code_of (cs_amount s)) l →
  (splits_total l ≤ r →
   pushSplits pid (Money.mk r cur None) entries l
   = Ok (Money.mk (r - splits_total l) cur None, entries ++ concat (splitEntries pid <$> l)))
  ∧ (r < splits_total l → ∃ a b, pushSplits pid (Money.mk r cur None) entries l = Throw (NegativeSubtraction a b)).
Proof.
  intros Hr0 Hl. revert r entries Hr0. unfold splits_total.
  induction Hl as [|s l [[Hs _] Hc] Hl IH]; intros r entries Hr0; cbn [sumZ pushSplits concat fmap list_fmap].
  - rewrite app_nil_r, Z.sub_0_r. split; [done|]. lia.
  - assert (0 ≤ sumZ (λ s, Money.amountMinorUnits (cs_amount s)) l).
    { apply sumZ_nonneg. intros x Hx%list_elem_of_In. rewrite Forall_forall in Hl. by apply Hl. }
    destruct (Z.le_gt_cases (Money.amountMinorUnits (cs_amount s)) r) as [Hle|Hgt].
    + rewrite subtract_total by done. cbn [mbind result_bind Money.amountMinorUnits Money.currency].
      destruct (IH (r - Money.amountMinorUnits (cs_amount s)) (entries ++ splitEntries pid s))
        as [IH1 IH2]; [lia|].
      rewrite <- app_assoc in IH1. split; intros Hr.
      * rewrite IH1 by lia. do 3 f_equal. lia.
      * apply IH2. lia.
    + split; [lia|]. intros _. unfold Money.subtract. rewrite assertSameCurrency_same by done.
      cbn [mbind result_bind Money.amountMinorUnits].
      rewrite (proj2 (Z.ltb_lt _ _)) by lia. eauto.
Qed.

Lemma subtract_short m o : Money.same m o → Money.amountMinorUnits m < Money.amountMinorUnits o →
  Money.subtract m o = Throw (NegativeSubtraction (Money.amountMinorUnits m) (Money.amountMinorUnits o)).
Proof.
  intros ? ?. unfold Money.subtract. rewrite assertSameCurrency_same by done.
  cbn [mbind result_bind]. by rewrite (proj2 (Z.ltb_lt _ _)) by lia.
Qed.

(** The entries of a charge that is covered. *)
Definition chargeEntries (p : ChargeEntriesParams) : list LedgerEntry :=
  [mkLedgerEntry "PSP_SETTLEMENT_ACCOUNT" PSP_SETTLEMENT DEBIT (ch_amount p)
     [Txt ("PSP settlement debit for payment " ++ ch_paymentId p)];
   mkLedgerEntry "PLATFORM_FEE_ACCOUNT" FEE CREDIT (ch_platformFee p)
     [Txt ("Platform fee for payment " ++ ch_paymentId p)]]
  ++ match ch_reserveHold p with
     | Some reserve => [mkLedgerEntry (ch_merchantId p ++ "_RESERVE") RESERVE CREDIT reserve
                          [Txt ("Reserve withheld from payment " ++ ch_paymentId p)]]
     | None => []
     end
  ++ concat (splitEntries (ch_paymentId p) <$> nullish (ch_splits p) [])
  ++ remainderEntries p (remainder p).

Lemma chargeEntries_balanced p : valid_charge p → balanced (chargeEntries p).
Proof.
  intros [Ha [Hf Hfs] Hr Hs]. apply balanced_net. intros code. unfold chargeEntries.
  rewrite !net_app, net_remainderEntries, (net_splits _ _ (Money.currency (ch_amount p))).
  2: { eapply Forall_impl; [exact Hs|]. by intros s [_ ?]. }
  unfold remainder, deductions, code_of, Money.same in *. cbn [Money.amountMinorUnits Money.currency].
  destruct (ch_reserveHold p) as [r|]; [destruct (Hr r eq_refl) as [_ Hrs]|]; net_solve.
Qed.

Lemma createChargeEntries_spec now p : valid_charge p →
  (deductions p ≤ Money.amountMinorUnits (ch_amount p) →
   createChargeEntries now p
   = create now (ch_id p) (ch_paymentId p) "PAYMENT_CHARGED" (chargeEntries p))
  ∧ (Money.amountMinorUnits (ch_amount p) < deductions p →
     ∃ a b, createChargeEntries now p = Throw (NegativeSubtraction a b)).
Proof.
  intros [[Ha Hac] [[Hf _] Hfs] Hr Hs].
  assert (0 ≤ splits_total (nullish (ch_splits p) [])) as Hst.
  { apply sumZ_nonneg. intros x Hx%list_elem_of_In. rewrite Forall_forall in Hs. by apply Hs. }
  unfold createChargeEntries, chargeEntries, remainder, deductions.
  destruct (Z.le_gt_cases (Money.amountMinorUnits (ch_platformFee p)) (Money.amountMinorUnits (ch_amount p)))
    as [Hle|Hgt].
  2: { rewrite subtract_short by done. split; [|by eauto].
       destruct (ch_reserveHold p) as [r|]; [destruct (Hr r eq_refl) as [[? _] _]|]; lia. }
  rewrite subtract_total by done. cbn [mbind result_bind].
  assert (∀ n entries, 0 ≤ n → (splits_total (nullish (ch_splits p) []) ≤ n →
     pushSplits (ch_paymentId p) (Money.mk n (Money.currency (ch_amount p)) None) entries (nullish (ch_splits p) [])
     = Ok (Money.mk (n - splits_total (nullish (ch_splits p) [])) (Money.currency (ch_amount p)) None,
           entries ++ concat (splitEntries (ch_paymentId p) <$> nullish (ch_splits p) [])))
   ∧ (n < splits_total (nullish (ch_splits p) []) → ∃ a b,
     pushSplits (ch_paymentId p) (Money.mk n (Money.currency (ch_amount p)) None) entries (nullish (ch_splits p) [])
     = Throw (NegativeSubtraction a b))) as Hpush by (intros; by apply pushSplits_spec).
  destruct (ch_reserveHold p) as [r|]; cbn [mbind result_bind].
  - destruct (Hr r eq_refl) as [[Hr0 _] Hrs].
    destruct (Z.le_gt_cases (Money.amountMinorUnits r)
      (Money.amountMinorUnits (ch_amount p) - Money.amountMinorUnits (ch_platformFee p))) as [Hle'|Hgt'].
    2: { rewrite subtract_short by done. split; [lia|by eauto]. }
    rewrite subtract_total by done. cbn [mbind result_bind Money.amountMinorUnits Money.currency].
    match goal with |- context [pushSplits _ (Money.mk ?n _ _) ?en _] =>
      destruct (Hpush n en ltac:(lia)) as [H1 H2] end. split; intros Hd.
    + rewrite H1 by lia. cbn [mbind result_bind]. rewrite <- !app_assoc, !Z.sub_add_distr, ?Z.sub_0_r. done.
    + edestruct H2 as (a & b & E); [lia|]. rewrite E. eauto.
  - match goal with |- context [pushSplits _ (Money.mk ?n _ _) ?en _] =>
      destruct (Hpush n en ltac:(lia)) as [H1 H2] end. split; intros Hd.
    + rewrite H1 by lia. cbn [mbind result_bind]. rewrite <- !app_assoc, !Z.sub_add_distr, ?Z.sub_0_r. done.
    + edestruct H2 as (a & b & E); [lia|]. rewrite E. eauto.
Qed.

Lemma charge_lines p :
  lines PSP_SETTLEMENT (chargeEntries p) = [(DEBIT, "PSP_SETTLEMENT_ACCOUNT"%string, ch_amount p)]
  ∧ lines FEE (chargeEntries p) = [(CREDIT, "PLATFORM_FEE_ACCOUNT"%string, ch_platformFee p)]
  ∧ lines RESERVE (chargeEntries p)
    = match ch_reserveHold p with
      | Some r => [(CREDIT, (ch_merchantId p ++ "_RESERVE")%string, r)]
      | None => []
      end
  ∧ lines MERCHANT (chargeEntries p) = credit_line <$> payouts p.
Proof.
  unfold chargeEntries, payouts. rewrite fmap_app, <- lines_splits with (pid := ch_paymentId p), <- lines_remainder.
  rewrite !lines_app, !lines_splits_other, !lines_remainder_other by done.
  destruct (ch_reserveHold p); split_and!; lines_solve.
Qed.

(** A charge that its deductions fit in is booked. *)
Lemma charge_booked now p : valid_charge p → deductions p ≤ Money.amountMinorUnits (ch_amount p) →
  ∃ ev, createChargeEntries now p = Ok ev ∧ balanced (entries ev)
    ∧ lines MERCHANT (entries ev) = credit_line <$> payouts p.
Proof.
  intros Hp Hd. destruct (createChargeEntries_spec now p Hp) as [-> _]; [|done].
  rewrite create_balanced by by apply chargeEntries_balanced. eexists.
  split_and!; [reflexivity|by apply chargeEntries_balanced|by apply charge_lines].
Qed.

(** C4: booking a charge succeeds exactly when the fee, the reserve and the
    splits together do not exceed the amount. The event then balances in every
    currency, debits the settlement account for the whole amount, credits the
    fee and the reserve, and pays exactly the [payouts]: each split recipient
    its share and the charging merchant the remainder, each in its settlement
    currency. Otherwise it throws before anything is booked. *)
Theorem charge_entries_exact (now : Date) (p : ChargeEntriesParams) :
  valid_charge p →
  (deductions p ≤ Money.amountMinorUnits (ch_amount p) →
   ∃ ev, createChargeEntries now p = Ok ev
     ∧ paymentId ev = ch_paymentId p ∧ eventType ev = "PAYMENT_CHARGED"%string ∧ status ev = PENDING
     ∧ balanced (entries ev)
     ∧ lines PSP_SETTLEMENT (entries ev) = [(DEBIT, "PSP_SETTLEMENT_ACCOUNT"%string, ch_amount p)]
     ∧ lines FEE (entries ev) = [(CREDIT, "PLATFORM_FEE_ACCOUNT"%string, ch_platformFee p)]
     ∧ lines RESERVE (entries ev)
       = match ch_reserveHold p with
         | Some r => [(CREDIT, (ch_merchantId p ++ "_RESERVE")%string, r)]
         | None => []
         end
     ∧ lines MERCHANT (entries ev) = credit_line <$> payouts p)
  ∧ (Money.amountMinorUnits (ch_amount p) < deductions p →
     ∃ a b, createChargeEntries now p = Throw (NegativeSubtraction a b)).
Proof.
  intros Hp. destruct (createChargeEntries_spec now p Hp) as [H1 H2]. split; [|done].
  intros Hd. rewrite H1, create_balanced by auto using chargeEntries_balanced. eexists.
  destruct (charge_lines p) as (? & ? & ? & ?).
  split_and!; [reflexivity..|by apply chargeEntries_balanced|done|done|done|done].
Qed.

(** ** Refunds *)

(** A split's share of a refund: its part of the charge, rounded down. *)
Definition refund_share (charge refund : Z) (s : PaymentSplit) : Z :=
  Z.quot (Money.amountMinorUnits (ps_amount s) * refund) charge.

Definition recorded_total (l : list PaymentSplit) : Z := sumZ (λ s, Money.amountMinorUnits (ps_amount s)) l.

(** A recorded conversion that can be replayed. *)
Definition conv_ok (o : option SettlementConversion) : Prop :=
  match o with
  | Some c => rate_ok (sc_rate c) ∧ is_ok (Currency.of_ (sc_currency c)) = true
  | None => True
  end.

(** The parameters of a refund: a well-formed amount of up to [2^53] minor units
    and the splits of the charge, which fit in the charge. *)
Record valid_refund (p : RefundEntriesParams) : Prop := {
  vr_amount : Money.wf (re_refundAmount p);
  vr_small : Money.amountMinorUnits (re_refundAmount p) ≤ 2 ^ 53;
  vr_conv : conv_ok (re_settlementConversion p);
  vr_splits : Forall (λ s, 0 ≤ Money.amountMinorUnits (ps_amount s) ∧ conv_ok (ps_settlementConversion s))
                (nullish (re_splits p) []);
  vr_charge c : re_originalChargeAmount p = Some c →
    0 < Money.amountMinorUnits c ∧ recorded_total (nullish (re_splits p) []) ≤ Money.amountMinorUnits c }.

(** A debit to book: the account, the amount in the refund's currency, and the
    conversion to replay. *)
Abbreviation base := (string * Z * option SettlementConversion)%type (only parsing).

Definition split_base (charge refund : Z) (s : PaymentSplit) : base :=
  (ps_merchantId s, refund_share charge refund s, ps_settlementConversion s).

Definition split_bases (p : RefundEntriesParams) : list base :=
  match re_originalChargeAmount p with
  | Some c => split_base (Money.amountMinorUnits c) (Money.amountMinorUnits (re_refundAmount p))
                <$> nullish (re_splits p) []
  | None => []
  end.

Definition bases_total (l : list base) : Z := sumZ (λ b, b.1.2) l.

(** Who gives back what: each split recipient its share, the charging merchant
    the rest; zero amounts are not booked. *)
Definition refund_bases (p : RefundEntriesParams) : list base :=
  filter (λ b, 0 < b.1.2)
    (split_bases p ++ [(re_merchantId p,
       Money.amountMinorUnits (re_refundAmount p) - bases_total (split_bases p),
       re_settlementConversion p)]).

(** A merchant line that books the debit [b] of currency [cur]. *)
Definition booked (now : Date) (cur : Currency.t) (b : base) (l : LedgerEntryType * string * Money.t) : Prop :=
  l.1.1 = DEBIT ∧ l.1.2 = b.1.1
  ∧ match b.2 with
    | None => l.2 = Money.mk b.1.2 cur None
    | Some c => Money.convertTo now (Money.mk b.1.2 cur None) (sc_currency c) (sc_rate c) (sc_provider c) = Ok l.2
    end.

(** Entries [ext] that book the debits [bs] and nothing else. *)
Record books (now : Date) (cur : Currency.t) (bs : list base) (ext : list LedgerEntry) : Prop := {
  bk_net code : net code ext = if decide (Currency.code cur = code) then - bases_total bs else 0;
  bk_psp : lines PSP_SETTLEMENT ext = [];
  bk_merchant : Forall2 (booked now cur) bs (lines MERCHANT ext) }.

Lemma books_nil now cur : books now cur [] [].
Proof. split; [|done|constructor]. intros. by case_decide. Qed.

Lemma books_app now cur bs1 bs2 e1 e2 :
  books now cur bs1 e1 → books now cur bs2 e2 → books now cur (bs1 ++ bs2) (e1 ++ e2).
Proof.
  intros [N1 P1 M1] [N2 P2 M2]. split.
  - intros code. rewrite net_app, N1, N2. unfold bases_total. rewrite sumZ_app. case_decide; lia.
  - by rewrite lines_app, P1, P2.
  - rewrite lines_app. by apply Forall2_app.
Qed.

Lemma debit_spec now pid acct cur n conv suffix entries :
  Currency.wf cur → 0 ≤ n ≤ 2 ^ 53 → conv_ok conv →
  ∃ ext, debit now pid acct (Money.mk n cur None) conv suffix entries = Ok (entries ++ ext)
         ∧ books now cur [(acct, n, conv)] ext.
Proof.
  intros Hc Hn Hconv. destruct conv as [c|]; cbn [debit].
  - destruct Hconv as [Hrate Hcode]. destruct (Currency.of_ (sc_currency c)) as [tc|] eqn:Etc; [|done].
    destruct (convertTo_total now (Money.mk n cur None) (sc_currency c) tc (sc_rate c) (sc_provider c))
      as (r & E & Hr); [by split; cbn; [lia|]|cbn; lia|done|done|].
    unfold pushConvertedDebit. rewrite E. cbn [mbind result_bind]. eexists. split; [reflexivity|]. split.
    + intros code. unfold bases_total. cbn [sumZ fst snd]. net_solve.
    + lines_solve.
    + lines_simpl. constructor; [|constructor]. done.
  - eexists. split; [reflexivity|]. split.
    + intros code. unfold bases_total. cbn [sumZ fst snd]. net_solve.
    + lines_solve.
    + lines_simpl. constructor; [|constructor]. done.
Qed.

(** A debit that is skipped when its amount is zero. *)
Lemma debit_positive now pid acct cur n conv suffix entries :
  Currency.wf cur → 0 ≤ n ≤ 2 ^ 53 → conv_ok conv →
  ∃ ext,
    (if 0 <? n then
       debitAmount ← Money.fromMinorUnits n (Currency.code cur) None;
       debit now pid acct debitAmount conv suffix entries
     else Ok entries) = Ok (entries ++ ext)
    ∧ books now cur (filter (λ b, 0 < b.1.2) [(acct, n, conv)]) ext.
Proof.
  intros Hc Hn Hconv. rewrite filter_cons, filter_nil. cbn [fst snd].
  destruct (Z.ltb_spec 0 n).
  - rewrite fromMinorUnits_wf_code by (done || lia). cbn [mbind result_bind].
    rewrite decide_True by done. by apply debit_spec.
  - exists []. rewrite app_nil_r, decide_False by lia. split; [done|apply books_nil].
Qed.

Lemma refund_share_bounds c r s : 0 < c → 0 ≤ r → 0 ≤ Money.amountMinorUnits (ps_amount s) →
  0 ≤ refund_share c r s ∧ refund_share c r s * c ≤ Money.amountMinorUnits (ps_amount s) * r.
Proof.
  intros. unfold refund_share. rewrite Z.quot_div_nonneg by nia. split.
  - apply Z.div_pos; nia.
  - rewrite Z.mul_comm. apply Z.mul_div_le. lia.
Qed.

Lemma shares_bound c r l : 0 < c → 0 ≤ r →
  Forall (λ s, 0 ≤ Money.amountMinorUnits (ps_amount s) ∧ conv_ok (ps_settlementConversion s)) l →
  0 ≤ bases_total (split_base c r <$> l) ∧ bases_total (split_base c r <$> l) * c ≤ recorded_total l * r.
Proof.
  unfold bases_total, recorded_total. induction 3 as [|s l [Hs _] Hl IH]; cbn; [lia|].
  destruct (refund_share_bounds c r s); [done..|]. nia.
Qed.

Lemma bases_total_filter l : Forall (λ b : base, 0 ≤ b.1.2) l →
  bases_total (filter (λ b, 0 < b.1.2) l) = bases_total l.
Proof.
  unfold bases_total. induction 1 as [|b l Hb Hl IH]; [done|]. rewrite filter_cons.
  case_decide; cbn [sumZ]; lia.
Qed.

(** The loop over the splits. *)
Lemma pushSplitDebits_spec now pid refund c total entries l :
  Money.wf refund → Money.amountMinorUnits refund ≤ 2 ^ 53 → 0 < c →
  Forall (λ s, 0 ≤ Money.amountMinorUnits (ps_amount s) ∧ conv_ok (ps_settlementConversion s)) l →
  recorded_total l ≤ c →
  ∃ ext,
    pushSplitDebits now pid refund c total entries l
    = Ok (total + bases_total (split_base c (Money.amountMinorUnits refund) <$> l), entries ++ ext)
    ∧ books now (Money.currency refund)
        (filter (λ b, 0 < b.1.2) (split_base c (Money.amountMinorUnits refund) <$> l)) ext.
Proof.
  intros [Hr0 Hcur] Hr Hc Hl. revert total entries. unfold recorded_total.
  induction Hl as [|s l [Hs Hconv] Hl IH]; intros total entries Hsum;
    cbn [pushSplitDebits fmap list_fmap sumZ] in *.
  { exists []. rewrite app_nil_r. unfold bases_total. cbn [sumZ]. rewrite Z.add_0_r.
    split; [done|apply books_nil]. }
  assert (0 ≤ sumZ (λ s, Money.amountMinorUnits (ps_amount s)) l).
  { apply sumZ_nonneg. intros x Hx%list_elem_of_In. rewrite Forall_forall in Hl. by apply Hl. }
  destruct (refund_share_bounds c (Money.amountMinorUnits refund) s) as [Hb1 Hb2]; [done..|].
  assert (refund_share c (Money.amountMinorUnits refund) s ≤ 2 ^ 53) by nia.
  unfold bigint_div. rewrite (proj2 (Z.eqb_neq c 0)) by lia. cbn [mbind result_bind].
  change (Z.quot (Money.amountMinorUnits (ps_amount s) * Money.amountMinorUnits refund) c)
    with (refund_share c (Money.amountMinorUnits refund) s).
  destruct (debit_positive now pid (ps_merchantId s) (Money.currency refund)
    (refund_share c (Money.amountMinorUnits refund) s) (ps_settlementConversion s)
    "Marketplace split refund debit" entries) as (ext1 & E1 & B1); [done|lia|done|].
  unfold code_of. rewrite E1. cbn [mbind result_bind].
  destruct (IH (total + refund_share c (Money.amountMinorUnits refund) s) (entries ++ ext1))
    as (ext2 & -> & B2); [lia|].
  exists (ext1 ++ ext2). split.
  - unfold bases_total. cbn [sumZ split_base fst snd]. rewrite app_assoc, Z.add_assoc. done.
  - change (filter ?P (?x :: ?l)) with (filter P ([x] ++ l)). rewrite filter_app. by apply books_app.
Qed.

Lemma split_bases_bounds p : valid_refund p →
  0 ≤ bases_total (split_bases p) ≤ Money.amountMinorUnits (re_refundAmount p)
  ∧ Forall (λ b, 0 ≤ b.1.2) (split_bases p).
Proof.
  intros [[Hr0 _] Hr _ Hs Hc]. unfold split_bases.
  destruct (re_originalChargeAmount p) as [c|]; [|by split; [cbn; lia|constructor]].
  destruct (Hc c eq_refl) as [Hc0 Hsum]. split.
  - destruct (shares_bound (Money.amountMinorUnits c) (Money.amountMinorUnits (re_refundAmount p)) _
                Hc0 Hr0 Hs) as [? H]. nia.
  - apply Forall_fmap. eapply Forall_impl; [exact Hs|]. intros s [? _].
    by apply (refund_share_bounds (Money.amountMinorUnits c) _ s).
Qed.

Lemma refund_bases_total p : valid_refund p →
  bases_total (refund_bases p) = Money.amountMinorUnits (re_refundAmount p).
Proof.
  intros Hp. destruct (split_bases_bounds p Hp) as [? Hf]. unfold refund_bases.
  rewrite bases_total_filter.
  - unfold bases_total in *. rewrite sumZ_app. cbn [sumZ fst snd]. lia.
  - apply Forall_app. split; [done|]. apply Forall_singleton. cbn. lia.
Qed.

Definition refund_credit (p : RefundEntriesParams) : LedgerEntry :=
  mkLedgerEntry "PSP_SETTLEMENT_ACCOUNT" PSP_SETTLEMENT CREDIT (re_refundAmount p)
    [Txt ("PSP refund credit for payment " ++ re_paymentId p)].

Lemma createRefundEntries_spec now p : valid_refund p →
  ∃ ext, createRefundEntries now p
         = create now (re_id p) (re_paymentId p) "PAYMENT_REFUNDED" (refund_credit p :: ext)
         ∧ books now (Money.currency (re_refundAmount p)) (refund_bases p) ext.
Proof.
  intros Hp. destruct (split_bases_bounds p Hp) as [Hb _]. pose proof Hp as [[Hr0 Hcur] Hr Hconv Hs Hc].
  unfold createRefundEntries. cbv zeta.
  match goal with |- ∃ ext, mbind ?k ?m = _ ∧ _ => set (cont := k); set (pre := m) end.
  assert (∃ ext, pre = Ok (Money.amountMinorUnits (re_refundAmount p) - bases_total (split_bases p),
                           [refund_credit p] ++ ext)
    ∧ books now (Money.currency (re_refundAmount p)) (filter (λ b, 0 < b.1.2) (split_bases p)) ext)
    as (ext1 & -> & B1).
  { subst pre. unfold split_bases in *. destruct (re_splits p) as [[|s l]|] eqn:Es, (re_originalChargeAmount p) as [c|] eqn:Ec;
      cbn [nullish fmap list_fmap] in *;
      try (exists []; rewrite Z.sub_0_r; split; [done|apply books_nil]).
    destruct (Hc c eq_refl) as [Hc0 Hsum].
    destruct (pushSplitDebits_spec now (re_paymentId p) (re_refundAmount p) (Money.amountMinorUnits c) 0
                [refund_credit p] (s :: l)) as (ext & E & B); [done..|].
    unfold refund_credit in E. rewrite E. cbn [mbind result_bind]. rewrite Z.add_0_l. eauto. }
  subst cont. cbn [mbind result_bind]. unfold code_of.
  edestruct (debit_positive now (re_paymentId p) (re_merchantId p) (Money.currency (re_refundAmount p))
    (Money.amountMinorUnits (re_refundAmount p) - bases_total (split_bases p))
    (re_settlementConversion p)) as (ext2 & E2 & B2); [done|lia|done|].
  rewrite E2. cbn [mbind result_bind]. exists (ext1 ++ ext2). split.
  - by rewrite <- app_assoc.
  - unfold refund_bases. rewrite filter_app. by apply books_app.
Qed.

Lemma createRefundEntries_ok now p : valid_refund p →
  ∃ ext, createRefundEntries now p
         = Ok (mk (re_id p) (re_paymentId p) "PAYMENT_REFUNDED" (refund_credit p :: ext) PENDING now None 0 None)
         ∧ balanced (refund_credit p :: ext)
         ∧ books now (Money.currency (re_refundAmount p)) (refund_bases p) ext.
Proof.
  intros Hp. destruct (createRefundEntries_spec now p Hp) as (ext & -> & B). exists ext.
  assert (balanced (refund_credit p :: ext)) as Hbal.
  { apply balanced_net. intros code. rewrite net_cons, (bk_net _ _ _ _ B), (refund_bases_total p Hp).
    unfold value, refund_credit, entry_code, code_of. cbn [amount entryType]. repeat case_decide; done || lia. }
  by rewrite create_balanced.
Qed.

(** C5: booking a refund succeeds for every refund of a charge its splits fit
    in. The event balances in every currency, credits the settlement account
    with the refund, and debits exactly the [refund_bases]: each split recipient
    its share rounded down, the charging merchant the rest, each converted at the
    rate recorded at charge time. The debits add up to the refund, to the minor
    unit. *)
Theorem refund_entries_exact (now : Date) (p : RefundEntriesParams) :
  valid_refund p →
  ∃ ev, createRefundEntries now p = Ok ev
    ∧ paymentId ev = re_paymentId p ∧ eventType ev = "PAYMENT_REFUNDED"%string ∧ status ev = PENDING
    ∧ balanced (entries ev)
    ∧ lines PSP_SETTLEMENT (entries ev) = [(CREDIT, "PSP_SETTLEMENT_ACCOUNT"%string, re_refundAmount p)]
    ∧ Forall2 (booked now (Money.currency (re_refundAmount p))) (refund_bases p) (lines MERCHANT (entries ev))
    ∧ bases_total (refund_bases p) = Money.amountMinorUnits (re_refundAmount p).
Proof.
  intros Hp. destruct (createRefundEntries_ok now p Hp) as (ext & E & Hbal & [_ Hpsp Hm]).
  eexists. split; [exact E|]. cbn [paymentId eventType status entries].
  split_and!; [done..| | |by apply refund_bases_total].
  - rewrite lines_cons, Hpsp. by lines_simpl.
  - rewrite lines_cons. by rewrite decide_False by done.
Qed.

(** ** Full and partial refunds of a split charge *)

Lemma refund_share_full c s : c ≠ 0 → refund_share c c s = Money.amountMinorUnits (ps_amount s).
Proof. intros. unfold refund_share. by rewrite Z.quot_mul. Qed.

(** Refunding the whole charge reverses it exactly: every split recipient is
    debited the very amount its split recorded and the charging merchant the
    rest, with no rounding drift. *)
Theorem full_refund_reverses (now : Date) (p : RefundEntriesParams) (l : list PaymentSplit) (c : Money.t) :
  valid_refund p → re_splits p = Some l → re_originalChargeAmount p = Some c →
  Money.amountMinorUnits (re_refundAmount p) = Money.amountMinorUnits c →
  ∃ ev, createRefundEntries now p = Ok ev
    ∧ Forall2 (booked now (Money.currency (re_refundAmount p)))
        (filter (λ b, 0 < b.1.2)
           (((λ s, (ps_merchantId s, Money.amountMinorUnits (ps_amount s), ps_settlementConversion s)) <$> l)
            ++ [(re_merchantId p, Money.amountMinorUnits c - recorded_total l, re_settlementConversion p)]))
        (lines MERCHANT (entries ev)).
Proof.
  intros Hp Hl Hc Hfull. destruct (createRefundEntries_ok now p Hp) as (ext & E & _ & [_ _ Hm]).
  eexists. split; [exact E|]. cbn [entries]. rewrite lines_cons, decide_False by done.
  assert (split_bases p = (λ s, (ps_merchantId s, Money.amountMinorUnits (ps_amount s),
                                 ps_settlementConversion s)) <$> l) as Eb.
  { unfold split_bases. rewrite Hc, Hl, Hfull. cbn [nullish]. apply list_fmap_ext. intros _ s _.
    unfold split_base. rewrite refund_share_full; [done|]. destruct (vr_charge p Hp c Hc). lia. }
  unfold refund_bases in Hm. rewrite Eb, Hfull in Hm.
  replace (bases_total _) with (recorded_total l) in Hm; [exact Hm|].
  clear. unfold bases_total, recorded_total. induction l as [|s l IH]; cbn [sumZ fmap list_fmap fst snd]; lia.
Qed.

(** What a merchant account is debited by a list of entries. *)
Definition debited (a : string) (l : list LedgerEntry) : Z :=
  sumZ (λ x, if String.eqb x.1.2 a then Money.amountMinorUnits x.2 else 0) (lines MERCHANT l).

(** What the charge's splits paid to an account. *)
Definition split_paid (a : string) (l : list PaymentSplit) : Z :=
  sumZ (λ s, if String.eqb (ps_merchantId s) a then Money.amountMinorUnits (ps_amount s) else 0) l.

Definition base_on (a : string) (b : base) : Z := if String.eqb b.1.1 a then b.1.2 else 0.

Lemma booked_debited now cur a bs ls :
  Forall2 (booked now cur) bs ls → Forall (λ b, b.2 = None) bs →
  sumZ (λ x, if String.eqb x.1.2 a then Money.amountMinorUnits x.2 else 0) ls = sumZ (base_on a) bs.
Proof.
  induction 1 as [|[[i n] o] [[ty i'] m] bs ls (Hty & Hi & Hm) _ IH]; [done|].
  intros [Ho Hbs]%Forall_cons. cbn in Ho, Hi, Hm. subst. cbn [sumZ fst snd base_on].
  rewrite IH by done. unfold base_on. cbn [fst snd]. rewrite Hm. by case_match.
Qed.

Lemma base_on_filter a l : Forall (λ b : base, 0 ≤ b.1.2) l →
  sumZ (base_on a) (filter (λ b, 0 < b.1.2) l) = sumZ (base_on a) l.
Proof.
  induction 1 as [|b l Hb Hl IH]; [done|]. rewrite filter_cons.
  case_decide; cbn [sumZ]; [lia|].
  assert (base_on a b = 0) by (unfold base_on; case_match; lia). lia.
Qed.

Lemma base_on_shares a c r l : 0 < c → 0 ≤ r →
  Forall (λ s, 0 ≤ Money.amountMinorUnits (ps_amount s) ∧ conv_ok (ps_settlementConversion s)) l →
  sumZ (base_on a) (split_base c r <$> l) * c ≤ split_paid a l * r.
Proof.
  unfold split_paid. induction 3 as [|s l [Hs _] Hl IH]; cbn [sumZ fmap list_fmap]; [lia|].
  unfold base_on at 1. cbn [split_base fst snd].
  destruct (refund_share_bounds c r s); [done..|]. case_match; nia.
Qed.

(** One refund takes back at most the recipient's part of it. *)
Lemma refund_debited now p l c a : valid_refund p →
  re_splits p = Some l → re_originalChargeAmount p = Some c →
  Forall (λ s, ps_settlementConversion s = None) l → re_settlementConversion p = None → a ≠ re_merchantId p →
  ∃ ev, createRefundEntries now p = Ok ev
    ∧ debited a (entries ev) * Money.amountMinorUnits c
      ≤ split_paid a l * Money.amountMinorUnits (re_refundAmount p).
Proof.
  intros Hp Hl Hc Hnone Hconv Ha. destruct (createRefundEntries_ok now p Hp) as (ext & E & _ & [_ _ Hm]).
  eexists. split; [exact E|]. unfold debited. cbn [entries]. rewrite lines_cons, decide_False by done.
  destruct (split_bases_bounds p Hp) as [Hb Hpos].
  assert (split_bases p = split_base (Money.amountMinorUnits c) (Money.amountMinorUnits (re_refundAmount p)) <$> l)
    as Es by (unfold split_bases; by rewrite Hc, Hl).
  rewrite (booked_debited _ _ a _ _ Hm).
  - unfold refund_bases. rewrite base_on_filter, sumZ_app, Es.
    + cbn [sumZ]. unfold base_on at 2. cbn [fst snd].
      rewrite (proj2 (String.eqb_neq _ _)), !Z.add_0_r by done.
      destruct (vr_charge p Hp c Hc). apply base_on_shares; [done|apply Hp|].
      pose proof (vr_splits p Hp) as Hv. by rewrite Hl in Hv.
    + apply Forall_app. split; [done|]. apply Forall_singleton. cbn. lia.
  - unfold refund_bases. apply Forall_forall. intros b [_ Hb']%list_elem_of_filter. revert b Hb'.
    apply Forall_forall, Forall_app. split.
    + rewrite Es. apply Forall_fmap. eapply Forall_impl; [exact Hnone|]. done.
    + by apply Forall_singleton.
Qed.

Lemma split_paid_nonneg a l : Forall (λ s, Money.wf (ps_amount s)) l → 0 ≤ split_paid a l.
Proof.
  unfold split_paid. induction 1 as [|s l [Hs _] Hl IH]; cbn [sumZ]; [lia|]. case_match; lia.
Qed.

(** However a charge is refunded in parts, the refunds that stay within the
    charge never debit a split recipient more, in total, than its splits were
    paid. *)
Theorem partial_refunds_bounded (now : Date) (ps : list RefundEntriesParams) (l : list PaymentSplit)
    (c : Money.t) (a : string) :
  Forall (λ p, valid_refund p ∧ re_splits p = Some l ∧ re_originalChargeAmount p = Some c
               ∧ re_settlementConversion p = None ∧ a ≠ re_merchantId p) ps →
  Forall (λ s, Money.wf (ps_amount s) ∧ ps_settlementConversion s = None) l →
  0 < Money.amountMinorUnits c →
  sumZ (λ p, Money.amountMinorUnits (re_refundAmount p)) ps ≤ Money.amountMinorUnits c →
  ∃ evs, Forall2 (λ p ev, createRefundEntries now p = Ok ev) ps evs
    ∧ sumZ (λ ev, debited a (entries ev)) evs ≤ split_paid a l.
Proof.
  intros Hps Hl Hc Hsum. apply Forall_and in Hl as [Hwf Hnone].
  pose proof (split_paid_nonneg a l Hwf) as Hpaid.
  assert (∃ evs, Forall2 (λ p ev, createRefundEntries now p = Ok ev) ps evs
    ∧ sumZ (λ ev, debited a (entries ev)) evs * Money.amountMinorUnits c
      ≤ split_paid a l * sumZ (λ p, Money.amountMinorUnits (re_refundAmount p)) ps) as (evs & ? & H).
  { clear Hsum. induction Hps as [|p ps (Hp & H1 & H2 & H3 & H4) _ (evs & Hevs & IH)].
    - exists []. split; [constructor|cbn [sumZ]; lia].
    - destruct (refund_debited now p l c a) as (ev & E & Hd); [done..|].
      exists (ev :: evs). split; [by constructor|cbn [sumZ]; lia]. }
  exists evs. split; [done|]. nia.
Qed.

(** ** Reserves and BNPL *)

(** The two-line and four-line factories always balance: releasing and
    topping up a reserve move the same amount between the merchant and its
    reserve account in opposite directions, a BNPL refund reverses the
    settlement, and a BNPL capture pays the merchant what is left after both
    fees, exactly when the fees fit in the amount. *)
Theorem reserve_and_bnpl_entries (now : Date) (id pid mid : string) (m fee pfee : Money.t) :
  Money.wf m → Money.wf fee → Money.wf pfee → Money.same m fee → Money.same m pfee →
  (∃ ev, createReserveReleaseEntries now id pid mid m = Ok ev ∧ balanced (entries ev)
     ∧ lines MERCHANT (entries ev) = [(CREDIT, mid, m)]
     ∧ lines RESERVE (entries ev) = [(DEBIT, (mid ++ "_RESERVE")%string, m)])
  ∧ (∃ ev, createReserveTopUpEntries now id pid mid m = Ok ev ∧ balanced (entries ev)
     ∧ lines MERCHANT (entries ev) = [(DEBIT, mid, m)]
     ∧ lines RESERVE (entries ev) = [(CREDIT, (mid ++ "_RESERVE")%string, m)])
  ∧ (∃ ev, createBnplRefundEntries now id pid mid m = Ok ev ∧ balanced (entries ev)
     ∧ lines MERCHANT (entries ev) = [(DEBIT, mid, m)])
  ∧ (Money.amountMinorUnits fee + Money.amountMinorUnits pfee ≤ Money.amountMinorUnits m →
     ∃ ev, createBnplCaptureEntries now id pid mid m fee pfee = Ok ev ∧ balanced (entries ev)
     ∧ lines MERCHANT (entries ev)
       = [(CREDIT, mid, Money.mk (Money.amountMinorUnits m - Money.amountMinorUnits fee
                                  - Money.amountMinorUnits pfee) (Money.currency m) None)])
  ∧ (Money.amountMinorUnits m < Money.amountMinorUnits fee + Money.amountMinorUnits pfee →
     is_ok (createBnplCaptureEntries now id pid mid m fee pfee) = false).
Proof.
  intros [Hm _] [Hf _] [Hp _] Hsf Hsp.
  unfold createReserveReleaseEntries, createReserveTopUpEntries, createBnplRefundEntries,
    createBnplCaptureEntries.
  split_and!.
  1-3: rewrite create_balanced by (apply balanced_net; intros code; net_solve);
    eexists; split_and!; [done|..]; cbn [entries]; [apply balanced_net; intros code; net_solve|try lines_solve..].
  - intros H. unfold Money.same in *. rewrite subtract_total by (done || lia). cbn [mbind result_bind].
    rewrite subtract_total by (done || cbn; lia). cbn [mbind result_bind Money.amountMinorUnits Money.currency].
    rewrite create_balanced by (apply balanced_net; intros code; net_solve).
    eexists. split_and!; [done|..]; cbn [entries]; [apply balanced_net; intros code; net_solve|lines_solve].
  - intros H. destruct (Z.le_gt_cases (Money.amountMinorUnits fee) (Money.amountMinorUnits m)).
    + rewrite subtract_total by done. cbn [mbind result_bind]. rewrite subtract_short; [done|done|cbn; lia].
    + by rewrite subtract_short.
Qed.

(** ** Concrete charge and refund *)

Definition eur (n : Z) : Money.t := Money.mk n (Currency.mk "EUR" 2) None.

(** 100.00 USD, 1.50 fee, 5.00 reserve, a split of 30.00 settled in EUR and one
    of 20.00; the merchant keeps 43.50. *)
Definition sample_charge : ChargeEntriesParams :=
  mkChargeEntriesParams "ev_1" "pay_1" "m_1" (usd 10000) (usd 150) None (Some (usd 500))
    (Some [mkChargeSplit "c_1" (usd 3000) (Some (mkConvertedAmount (eur 2700) (Num.lit 9 10) "ecb"));
           mkChargeSplit "c_2" (usd 2000) None]).

Lemma sample_charge_valid : valid_charge sample_charge.
Proof.
  split; cbn.
  - by apply usd_wf.
  - split; [by apply usd_wf|done].
  - intros r [= <-]. split; [by apply usd_wf|done].
  - repeat (apply Forall_cons; split; [split; [by apply usd_wf|done]|]). apply Forall_nil_2.
Qed.

Lemma charge_entries_exact_witness :
  ∃ ev, createChargeEntries 1000 sample_charge = Ok ev ∧ balanced (entries ev)
    ∧ lines MERCHANT (entries ev)
      = [(CREDIT, "c_1", eur 2700); (CREDIT, "c_2", usd 2000); (CREDIT, "m_1", usd 4350)]%string.
Proof.
  destruct (charge_entries_exact 1000 sample_charge sample_charge_valid) as [H _].
  destruct H as (ev & E & _ & _ & _ & Hb & _ & _ & _ & Hm); [vm_compute; discriminate|].
  exists ev. split_and!; [exact E|exact Hb|]. rewrite Hm. vm_compute. reflexivity.
Defined.

(** A third of that charge refunded: 10.00 and 6.66 from the recipients. *)
Definition sample_refund (n : Z) : RefundEntriesParams :=
  mkRefundEntriesParams "ev_2" "pay_1" "m_1" (usd n) None
    (Some [mkPaymentSplit "c_1" (usd 3000) None; mkPaymentSplit "c_2" (usd 2000) None]) (Some (usd 10000)).

Lemma sample_refund_valid n : 0 ≤ n ≤ 10000 → valid_refund (sample_refund n).
Proof.
  intros Hn. split; cbn.
  - apply usd_wf. lia.
  - lia.
  - done.
  - repeat (apply Forall_cons; split; [split; [cbn; lia|done]|]). apply Forall_nil_2.
  - intros c [= <-]. cbn. unfold recorded_total. cbn. lia.
Qed.

Lemma refund_entries_exact_witness :
  ∃ ev, createRefundEntries 1000 (sample_refund 3333) = Ok ev ∧ balanced (entries ev)
    ∧ Forall2 (booked 1000 (Currency.mk "USD" 2))
        [("c_1", 999, None); ("c_2", 666, None); ("m_1", 1668, None)]%string (lines MERCHANT (entries ev)).
Proof.
  destruct (refund_entries_exact 1000 (sample_refund 3333)) as (ev & E & _ & _ & _ & Hb & _ & Hm & _).
  - apply sample_refund_valid. lia.
  - exists ev. split_and!; [exact E|exact Hb|exact Hm].
Defined.

Lemma full_refund_reverses_witness :
  ∃ ev, createRefundEntries 1000 (sample_refund 10000) = Ok ev
    ∧ Forall2 (booked 1000 (Currency.mk "USD" 2))
        [("c_1", 3000, None); ("c_2", 2000, None); ("m_1", 5000, None)]%string (lines MERCHANT (entries ev)).
Proof.
  apply (full_refund_reverses 1000 (sample_refund 10000)
           [mkPaymentSplit "c_1" (usd 3000) None; mkPaymentSplit "c_2" (usd 2000) None] (usd 10000)).
  - apply sample_refund_valid. lia.
  - reflexivity.
  - reflexivity.
  - reflexivity.
Defined.

Lemma partial_refunds_bounded_witness :
  ∃ evs, Forall2 (λ p ev, createRefundEntries 1000 p = Ok ev) [sample_refund 3333; sample_refund 6667] evs
    ∧ sumZ (λ ev, debited "c_2" (entries ev)) evs ≤ 2000.
Proof.
  apply (partial_refunds_bounded 1000 [sample_refund 3333; sample_refund 6667]
           [mkPaymentSplit "c_1" (usd 3000) None; mkPaymentSplit "c_2" (usd 2000) None] (usd 10000) "c_2").
  - repeat (apply Forall_cons; split; [split_and!; [apply sample_refund_valid; lia|done..]|]).
    apply Forall_nil_2.
  - repeat (apply Forall_cons; split; [split; [by apply usd_wf|done]|]). apply Forall_nil_2.
  - cbn. lia.
  - cbn. lia.
Defined.

Lemma reserve_and_bnpl_entries_witness :
  ∃ ev, createBnplCaptureEntries 1000 "ev_3" "bnpl_1" "m_1" (usd 10000) (usd 150) (usd 329) = Ok ev
    ∧ balanced (entries ev) ∧ lines MERCHANT (entries ev) = [(CREDIT, "m_1"%string, usd 9521)].
Proof.
  apply (reserve_and_bnpl_entries 1000 "ev_3" "bnpl_1" "m_1" (usd 10000) (usd 150) (usd 329));
    [by apply usd_wf.. | done | done | cbn; lia].
Defined.
