(* ===== verification/LedgerParams.v ===== *)
(** * Resolution of a charge's ledger parameters
    ([charge-ledger-params-resolver.service.ts])

    The merchant lookup, the FX rate source and the volume query are the ports
    of the class [ChargePorts]; a lookup is a function because nothing in one
    call writes. [now] is the clock. *)

From S2P Require Import Prelude JsNumber JsDate Money Policies Payment Merchant Ledger.

(** What the resolver reads through its constructor arguments. *)
Class ChargePorts := {
  findByMerchantId : string → option MerchantEntity.t;
  getRate : string → string → result (number * string);
  sumSucceededVolumeSince : string → Date → string → Z }.

Definition DEFAULT_PLATFORM_FEE_BPS : Z := 150.

Record ReserveHoldParams := mkReserveHoldParams {
  rh_amount : Money.t;
  rh_holdDays : Z;
  rh_netAmount : Money.t }.

Record ChargeLedgerParams := mkChargeLedgerParams {
  platformFee : Money.t;
  settlementConversion : option ConvertedAmount;
  reserveHold : option ReserveHoldParams;
  splits : option (list ChargeSplit);
  enabledPspProviders : option (list PSPProvider) }.

(** One requested split: recipient and amount. *)
Abbreviation RequestedSplit := (string * Money.t)%type (only parsing).

Module ChargeLedgerParamsResolverService.

Section resolver.
Context `{Ports : ChargePorts}.

(** [for (const tier of merchant.feeTiers)]: stops at the first tier the volume
    has not reached. *)
Fixpoint scanTiers (volume bps : Z) (tiers : list FeeTier) : result Z :=
  match tiers with
  | [] => Ok bps
  | tier :: tiers =>
      threshold ← Str.BigInt (minVolumeMinorUnits tier);
      if threshold <=? volume then scanTiers volume (tier_bps tier) tiers else Ok bps
  end.

Definition resolvePlatformFeeBps (now : Date) (merchant : option MerchantEntity.t) (amount : Money.t)
    : result Z :=
  let baseBps := match merchant with
                 | Some m => MerchantEntity.platformFeeBps m
                 | None => DEFAULT_PLATFORM_FEE_BPS
                 end in
  match merchant with
  | Some m =>
      match MerchantEntity.feeTiers m with
      | None | Some [] => Ok baseBps
      | Some tiers =>
          let startOfMonth := JsDate.UTC (JsDate.getUTCFullYear now) (JsDate.getUTCMonth now) 1 in
          let volume := sumSucceededVolumeSince (MerchantEntity.merchantId m) startOfMonth
                          (Currency.code (Money.currency amount)) in
          scanTiers volume baseBps tiers
      end
  | None => Ok baseBps
  end.

(** The [try] block shared by both conversions: a failed rate lookup or a failed
    conversion is logged and dropped. *)
Definition tryConvert (now : Date) (fromCode : string) (base : Money.t) (settlementCurrency : string)
    : option ConvertedAmount :=
  match
    '(rate, provider) ← getRate fromCode settlementCurrency;
    converted ← Money.convertTo now base settlementCurrency rate provider;
    Ok (mkConvertedAmount converted rate provider)
  with
  | Ok c => Some c
  | Throw _ => None
  end.

(** [!settlementCurrency || settlementCurrency === code] negated: the currency to
    convert into. *)
Definition conversionTarget (settlementCurrency : option string) (code : string) : option string :=
  match settlementCurrency with
  | Some c => if String.eqb c "" || String.eqb c code then None else Some c
  | None => None
  end.

Definition resolveSplitConversion (now : Date) (recipientMerchantId : string) (splitAmount : Money.t)
    : option ConvertedAmount :=
  let recipient := findByMerchantId recipientMerchantId in
  let code := Currency.code (Money.currency splitAmount) in
  match conversionTarget (recipient ≫= MerchantEntity.settlementCurrency) code with
  | None => None
  | Some settlementCurrency => tryConvert now code splitAmount settlementCurrency
  end.

(** [recipient] is an active connected account of the charging merchant. *)
Definition validRecipient (merchantId : string) (recipient : option MerchantEntity.t) : bool :=
  match recipient with
  | Some r =>
      bool_decide (MerchantEntity.accountType r = CONNECTED)
      && bool_decide (MerchantEntity.platformMerchantId r = Some merchantId)
  | None => false
  end.

Fixpoint sumSplits (merchantId : string) (splitTotal : Money.t) (requested : list RequestedSplit)
    : result Money.t :=
  match requested with
  | [] => Ok splitTotal
  | (recipientId, amount) :: requested =>
      _ ← throw_if (negb (validRecipient merchantId (findByMerchantId recipientId)))
            (HttpException 422 "SPLIT_RECIPIENT_INVALID");
      splitTotal ← Money.add splitTotal amount;
      sumSplits merchantId splitTotal requested
  end.

(** The block that validates the splits: what is left for the charging merchant,
    and the splits with their conversions. *)
Definition resolveSplits (now : Date) (merchantId : string) (amount payoutAmount : Money.t)
    (requestedSplits : option (list RequestedSplit)) : result (Money.t * option (list ChargeSplit)) :=
  match requestedSplits with
  | None | Some [] => Ok (payoutAmount, None)
  | Some requested =>
      zero ← Money.zero (Currency.code (Money.currency amount));
      splitTotal ← sumSplits merchantId zero requested;
      exceeds ← Money.isGreaterThan splitTotal payoutAmount;
      _ ← throw_if exceeds (HttpException 422 "SPLIT_EXCEEDS_NET_AMOUNT");
      remainderAmount ← Money.subtract payoutAmount splitTotal;
      Ok (remainderAmount,
          Some ((λ s : RequestedSplit,
                   mkChargeSplit s.1 s.2 (resolveSplitConversion now s.1 s.2)) <$> requested))
  end.

Definition resolve (now : Date) (merchantId : string) (amount : Money.t)
    (requestedSplits : option (list RequestedSplit)) : result ChargeLedgerParams :=
  let merchant := findByMerchantId merchantId in
  let enabledPspProviders := MerchantEntity.enabledPspProviders <$> merchant in
  platformFeeBps ← resolvePlatformFeeBps now merchant amount;
  platformFee ← Money.multiply amount (bps_factor platformFeeBps);
  netAmount ← Money.subtract amount platformFee;
  '(reserveHold, payoutAmount) ←
    match merchant with
    | Some m =>
        if MerchantEntity.reserveBps m =? 0 then Ok (None, netAmount)
        else
          reserveAmount ← Money.multiply netAmount (bps_factor (MerchantEntity.reserveBps m));
          payoutAmount ← Money.subtract netAmount reserveAmount;
          Ok (Some (mkReserveHoldParams reserveAmount (MerchantEntity.reserveHoldDays m) netAmount), payoutAmount)
    | None => Ok (None, netAmount)
    end;
  '(remainderAmount, splits) ← resolveSplits now merchantId amount payoutAmount requestedSplits;
  let code := Currency.code (Money.currency amount) in
  let settlementConversion :=
    match conversionTarget (merchant ≫= MerchantEntity.settlementCurrency) code with
    | None => None
    | Some settlementCurrency => tryConvert now code remainderAmount settlementCurrency
    end in
  Ok (mkChargeLedgerParams platformFee settlementConversion reserveHold splits enabledPspProviders).

End resolver.

Definition toPaymentSplits (splits : option (list ChargeSplit)) : list PaymentSplit :=
  (λ split,
     mkPaymentSplit (cs_merchantId split) (cs_amount split)
       ((λ c, mkSettlementConversion (Currency.code (Money.currency (convertedAmount c))) (ca_rate c) (ca_provider c))
        <$> cs_settlementConversion split)) <$> nullish splits [].

End ChargeLedgerParamsResolverService.

(** What the callers of the resolver do with its answer: the argument of
    [createChargeEntries], and the conversion they record on the payment. *)
Definition charge_params (id pid mid : string) (amount : Money.t) (p : ChargeLedgerParams) : ChargeEntriesParams :=
  mkChargeEntriesParams id pid mid amount (platformFee p) (settlementConversion p)
    (rh_amount <$> reserveHold p) (splits p).

Definition recorded_conversion (c : ConvertedAmount) : SettlementConversion :=
  mkSettlementConversion (Currency.code (Money.currency (convertedAmount c))) (ca_rate c) (ca_provider c).
