(* ===== verification/LedgerParamsCorrect.v ===== *)
(** * Correctness of the ledger parameters

    What the resolver returns always books: the fee, the reserve and the splits
    it computes fit in the charge, so [createChargeEntries] succeeds, and the
    splits it records fit in the charge again when they are refunded. *)

From S2P Require Import Prelude JsNumber JsDate Money Policies Payment Merchant Ledger LedgerCorrect LedgerParams.
Import ChargeLedgerParamsResolverService.

(** ** Fee tiers *)

(** The rate a volume earns: that of the last tier whose threshold it reached. *)
Definition tier_rate (base volume : Z) (l : list (Z * Z)) : Z :=
  match last (filter (λ t, t.1 ≤ volume) l) with Some (_, b) => b | None => base end.

Lemma ascending_filter lo volume l : ascending lo l → volume < lo →
  filter (λ t, t.1 ≤ volume) l = [].
Proof.
  revert lo. induction l as [|[t b] l IH]; intros lo; [done|]. intros [Hlt Hasc] Hv.
  rewrite filter_cons, decide_False by (cbn; lia). apply (IH t); [done|lia].
Qed.

Lemma tier_rate_cons base volume t b l : t ≤ volume →
  tier_rate base volume ((t, b) :: l) = tier_rate b volume l.
Proof.
  intros. unfold tier_rate. rewrite filter_cons, decide_True by done.
  rewrite last_cons. by destruct (last _).
Qed.

Lemma scanTiers_spec lo volume base tiers l : thresholds tiers = Some l → ascending lo l →
  scanTiers volume base tiers = Ok (tier_rate base volume l).
Proof.
  revert lo base l. induction tiers as [|tier tiers IH]; intros lo base l; cbn [thresholds scanTiers].
  { by intros [= <-]. }
  destruct (Str.BigInt _) as [t|e]; [|discriminate]. destruct (thresholds tiers) as [l'|]; [|discriminate].
  intros [= <-] [_ Hasc]. cbn [mbind result_bind]. destruct (Z.leb_spec t volume).
  - rewrite tier_rate_cons by done. by apply (IH t).
  - unfold tier_rate. rewrite filter_cons, decide_False by (cbn; lia).
    by rewrite (ascending_filter t).
Qed.

Lemma tier_rate_range base volume l :
  0 ≤ base ≤ 10000 → Forall (λ t, 0 ≤ t.2 ≤ 10000) l → 0 ≤ tier_rate base volume l ≤ 10000.
Proof.
  intros Hb Hl. unfold tier_rate. destruct (last _) as [[t b]|] eqn:E; [|done].
  apply last_Some_elem_of in E. apply list_elem_of_filter in E as [_ Hin].
  rewrite Forall_forall in Hl. by apply (Hl (t, b)).
Qed.

(** ** Policies a merchant can hold *)

(** Rates within 100%, and a fee schedule [updateFeeTiers] accepts. *)
Record policy_ok (m : MerchantEntity.t) : Prop := {
  po_fee : 0 ≤ MerchantEntity.platformFeeBps m ≤ 10000;
  po_reserve : 0 ≤ MerchantEntity.reserveBps m ≤ 10000;
  po_tiers tiers : MerchantEntity.feeTiers m = Some tiers →
    ∃ l, thresholds tiers = Some l ∧ ascending (-1) l ∧ Forall (λ t, 0 ≤ t.2 ≤ 10000) l }.

Section correct.
Context `{Ports : ChargePorts}.
Context (policies : ∀ id m, findByMerchantId id = Some m → policy_ok m).

Lemma resolvePlatformFeeBps_range now id amount :
  ∃ bps, resolvePlatformFeeBps now (findByMerchantId id) amount = Ok bps ∧ 0 ≤ bps ≤ 10000.
Proof.
  unfold resolvePlatformFeeBps. destruct (findByMerchantId id) as [m|] eqn:E.
  2: { exists DEFAULT_PLATFORM_FEE_BPS. by split. }
  destruct (policies _ _ E) as [Hf _ Ht].
  destruct (MerchantEntity.feeTiers m) as [[|tier tiers]|] eqn:Em; [by eauto| |by eauto].
  destruct (Ht _ eq_refl) as (l & Hl & Hasc & Hr). cbv zeta.
  rewrite (scanTiers_spec (-1) _ _ _ _ Hl Hasc). eexists. split; [reflexivity|].
  by apply tier_rate_range.
Qed.

(** ** Splits *)

Definition requested_total (l : list RequestedSplit) : Z := sumZ (λ s, Money.amountMinorUnits s.2) l.

Definition all_connected (mid : string) (l : list RequestedSplit) : Prop :=
  Forall (λ s, validRecipient mid (findByMerchantId s.1) = true) l.

Lemma sumSplits_spec mid total l :
  Money.wf total → Forall (λ s, Money.wf s.2 ∧ Money.same total s.2) l →
  (all_connected mid l → ∃ r, sumSplits mid total l = Ok r
     ∧ Money.amountMinorUnits r = Money.amountMinorUnits total + requested_total l
     ∧ Money.currency r = Money.currency total)
  ∧ (¬ all_connected mid l → sumSplits mid total l = Throw (HttpException 422 "SPLIT_RECIPIENT_INVALID")).
Proof.
  unfold all_connected, requested_total. intros Ht Hl. revert total Ht Hl.
  induction l as [|[id a] l IH]; intros total Ht Hl; cbn [sumSplits sumZ snd].
  - split; [intros _; exists total; split_and!; [done|lia|done]|]. intros []. apply Forall_nil_2.
  - apply Forall_cons in Hl as [[Ha Hs] Hl]. cbn in Ha, Hs.
    destruct (validRecipient mid (findByMerchantId id)) eqn:E; cbn [negb throw_if mbind result_bind].
    + rewrite add_total by done. cbn [mbind result_bind].
      destruct (IH (Money.mk (Money.amountMinorUnits total + Money.amountMinorUnits a)
                      (Money.currency total) None)) as [IH1 IH2].
      { destruct Ht, Ha. split; cbn; [lia|done]. }
      { done. }
      rewrite Forall_cons. cbn [fst]. rewrite E. split.
      * intros [_ Hc]. destruct (IH1 Hc) as (r & -> & Hr & Hcur). exists r. cbn in Hr, Hcur.
        split_and!; [done|lia|done].
      * intros Hn. apply IH2. tauto.
    + split; [|done]. rewrite Forall_cons. cbn [fst]. rewrite E. by intros [? _].
Qed.

Lemma map_splits_total now (l : list RequestedSplit) :
  splits_total ((λ s : RequestedSplit, mkChargeSplit s.1 s.2 (resolveSplitConversion now s.1 s.2)) <$> l)
  = requested_total l.
Proof. unfold splits_total, requested_total. induction l; cbn [sumZ fmap list_fmap cs_amount]; [done|]. lia. Qed.

(** The split block: it throws for a bad recipient or an excess, and otherwise
    keeps the requested amounts. *)
Lemma resolveSplits_spec now mid amount payout req :
  let l := nullish req [] in
  Money.wf amount → Money.wf payout → Money.currency payout = Money.currency amount →
  Forall (λ s, Money.wf s.2 ∧ Money.same amount s.2) l →
  (all_connected mid l ∧ requested_total l ≤ Money.amountMinorUnits payout →
   ∃ r sp, resolveSplits now mid amount payout req = Ok (r, sp)
     ∧ nullish sp [] = (λ s : RequestedSplit, mkChargeSplit s.1 s.2 (resolveSplitConversion now s.1 s.2)) <$> l
     ∧ Money.wf r ∧ Money.amountMinorUnits r = Money.amountMinorUnits payout - requested_total l
     ∧ Money.currency r = Money.currency amount)
  ∧ (¬ all_connected mid l →
     resolveSplits now mid amount payout req = Throw (HttpException 422 "SPLIT_RECIPIENT_INVALID"))
  ∧ (all_connected mid l → Money.amountMinorUnits payout < requested_total l →
     resolveSplits now mid amount payout req = Throw (HttpException 422 "SPLIT_EXCEEDS_NET_AMOUNT")).
Proof.
  intros l Ha Hp Hcur Hl. subst l. unfold resolveSplits.
  assert (nullish req [] = [] →
    (all_connected mid [] ∧ requested_total [] ≤ Money.amountMinorUnits payout →
     ∃ r sp, Ok (payout, @None (list ChargeSplit)) = Ok (r, sp) ∧ nullish sp [] = []
     ∧ Money.wf r ∧ Money.amountMinorUnits r = Money.amountMinorUnits payout - requested_total []
     ∧ Money.currency r = Money.currency amount)
    ∧ all_connected mid [] ∧ ¬ Money.amountMinorUnits payout < requested_total []) as Hempty.
  { intros _. destruct Hp as [? ?]. split_and!; [|constructor|cbn; lia].
    intros _. exists payout, None. split_and!; [done..|cbn; lia|done]. }
  destruct req as [[|s0 l0]|]; cbn [nullish] in *.
  1, 3: destruct (Hempty eq_refl) as (H1 & H2 & H3); split_and!; [exact H1|tauto|tauto].
  clear Hempty. remember (s0 :: l0) as l eqn:El. clear El s0 l0.
  rewrite zero_wf_code by apply Ha. cbn [mbind result_bind].
  destruct (sumSplits_spec mid (Money.mk 0 (Money.currency amount) None) l) as [H1 H2].
  { by split; [|apply Ha]. } { done. }
  split_and!.
  - intros [Hc Hle]. destruct (H1 Hc) as (r & -> & Hr & Hrc). cbn in Hr, Hrc. cbn [mbind result_bind].
    assert (Money.isGreaterThan r payout = Ok false) as ->.
    { apply isGreaterThan_ok. split; [unfold Money.same; congruence|]. symmetry. apply Z.ltb_ge. lia. }
    cbn [mbind result_bind throw_if].
    rewrite subtract_total by (unfold Money.same; try congruence; lia). cbn [mbind result_bind].
    do 2 eexists. split_and!; [reflexivity|done| |cbn; lia|done].
    split; cbn; [lia|]. rewrite Hcur. apply Ha.
  - intros Hn. by rewrite H2.
  - intros Hc Hgt. destruct (H1 Hc) as (r & -> & Hr & Hrc). cbn in Hr, Hrc. cbn [mbind result_bind].
    assert (Money.isGreaterThan r payout = Ok true) as ->; [|done].
    apply isGreaterThan_ok. split; [unfold Money.same; congruence|]. symmetry. apply Z.ltb_lt. lia.
Qed.

(** ** Conversions *)

(** A conversion made at a rate the provider quoted, into a valid currency. *)
Definition quoted (c : ConvertedAmount) : Prop :=
  (∃ a b, getRate a b = Ok (ca_rate c, ca_provider c)) ∧ Money.wf (convertedAmount c).

Lemma tryConvert_quoted now a base b c : tryConvert now a base b = Some c → quoted c.
Proof.
  unfold tryConvert. destruct (getRate a b) as [[rate provider]|] eqn:E; [|discriminate].
  cbn [mbind result_bind]. destruct (Money.convertTo _ _ _ _ _) eqn:Ec; [|discriminate].
  cbn [mbind result_bind]. intros [= <-]. split; [by eauto|]. by eapply convertTo_wf.
Qed.

Lemma resolveSplitConversion_quoted now id m c : resolveSplitConversion now id m = Some c → quoted c.
Proof.
  unfold resolveSplitConversion. cbv zeta. destruct (conversionTarget _ _); [|discriminate].
  apply tryConvert_quoted.
Qed.

(** ** The whole resolution *)

Definition reserve_units (rh : option ReserveHoldParams) : Z :=
  match rh with Some r => Money.amountMinorUnits (rh_amount r) | None => 0 end.

(** The reserve block. *)
Definition resolveReserve (merchant : option MerchantEntity.t) (netAmount : Money.t)
    : result (option ReserveHoldParams * Money.t) :=
  match merchant with
  | Some m =>
      if MerchantEntity.reserveBps m =? 0 then Ok (None, netAmount)
      else
        reserveAmount ← Money.multiply netAmount (bps_factor (MerchantEntity.reserveBps m));
        payoutAmount ← Money.subtract netAmount reserveAmount;
        Ok (Some (mkReserveHoldParams reserveAmount (MerchantEntity.reserveHoldDays m) netAmount), payoutAmount)
  | None => Ok (None, netAmount)
  end.

(** An amount in the currency of the charge. *)
Definition in_currency (amount m : Money.t) : Prop := Money.wf m ∧ Money.currency m = Money.currency amount.

Lemma resolveReserve_spec id net : Money.wf net → Money.amountMinorUnits net ≤ 2 ^ 53 →
  ∃ rh payout, resolveReserve (findByMerchantId id) net = Ok (rh, payout)
    ∧ in_currency net payout
    ∧ Money.amountMinorUnits payout = Money.amountMinorUnits net - reserve_units rh
    ∧ (∀ r, rh = Some r → in_currency net (rh_amount r) ∧ rh_netAmount r = net).
Proof.
  intros Hn Hmax. unfold resolveReserve.
  assert (∃ rh payout, Ok (@None ReserveHoldParams, net) = Ok (rh, payout) ∧ in_currency net payout
    ∧ Money.amountMinorUnits payout = Money.amountMinorUnits net - reserve_units rh
    ∧ (∀ r, rh = Some r → in_currency net (rh_amount r) ∧ rh_netAmount r = net)) as Hnone.
  { exists None, net. split_and!; [done..|cbn; lia|done]. }
  destruct (findByMerchantId id) as [m|] eqn:E; [|done].
  destruct (MerchantEntity.reserveBps m =? 0); [done|]. clear Hnone.
  destruct (policies _ _ E) as [_ Hr _].
  destruct (multiply_bps_le net (MerchantEntity.reserveBps m)) as (r & -> & Hr'); [done..|].
  cbn [mbind result_bind]. rewrite subtract_total by (done || cbn; lia). cbn [mbind result_bind].
  destruct Hn as [? ?]. do 2 eexists. split_and!; [reflexivity|split; [split|]; cbn; [lia|done..]|cbn; lia|].
  intros x [= <-]. cbn. split; [|done]. split; [split|]; cbn; [lia|done..].
Qed.

Lemma resolve_unfold now mid amount : Money.wf amount → Money.amountMinorUnits amount ≤ 2 ^ 53 →
  ∃ fee rh payout,
    in_currency amount fee ∧ in_currency amount payout
    ∧ Money.amountMinorUnits payout
      = Money.amountMinorUnits amount - Money.amountMinorUnits fee - reserve_units rh
    ∧ (∀ r, rh = Some r → in_currency amount (rh_amount r)
         ∧ Money.amountMinorUnits (rh_netAmount r) = Money.amountMinorUnits amount - Money.amountMinorUnits fee)
    ∧ ∀ req, ∃ conv enabled, (∀ r c, conv r = Some c → quoted c)
        ∧ resolve now mid amount req =
            ('(r, sp) ← resolveSplits now mid amount payout req;
             Ok (mkChargeLedgerParams fee (conv r) rh sp enabled)).
Proof.
  intros Ha Hmax. destruct (resolvePlatformFeeBps_range now mid amount) as (bps & Hbps & Hrange).
  destruct (multiply_bps_le amount bps) as (fee & Hfee & Hf); [done..|].
  pose proof Ha as [Ha0 Hac].
  destruct (resolveReserve_spec mid
    (Money.mk (Money.amountMinorUnits amount - fee) (Money.currency amount) None))
    as (rh & payout & Hres & Hpay & Hunits & Hrh); [split; cbn; [lia|done]|cbn; lia|].
  exists (Money.mk fee (Money.currency amount) None), rh, payout. split_and!.
  - split; [split|]; cbn; [lia|done..].
  - exact Hpay.
  - exact Hunits.
  - intros r Hr. destruct (Hrh r Hr) as [? ->]. done.
  - intros req. eexists (λ r, match conversionTarget (findByMerchantId mid ≫= MerchantEntity.settlementCurrency)
        (Currency.code (Money.currency amount)) with
      | None => None
      | Some c => tryConvert now (Currency.code (Money.currency amount)) r c
      end), _.
    split; [intros r c; case_match; [apply tryConvert_quoted|discriminate]|].
    unfold resolve. rewrite Hbps. cbn [mbind result_bind]. rewrite Hfee. cbn [mbind result_bind].
    rewrite subtract_total by (done || cbn; lia). cbn [mbind result_bind Money.amountMinorUnits].
    unfold resolveReserve in Hres. rewrite Hres. cbn [mbind result_bind]. reflexivity.
Qed.

(** What a resolution guarantees about the charge it is made for. *)
Record resolved (mid : string) (amount : Money.t) (req : option (list RequestedSplit)) (p : ChargeLedgerParams)
    : Prop := {
  rs_valid id pid : valid_charge (charge_params id pid mid amount p);
  rs_fits id pid : deductions (charge_params id pid mid amount p) ≤ Money.amountMinorUnits amount;
  rs_splits : (λ s, (cs_merchantId s, cs_amount s)) <$> nullish (splits p) [] = nullish req [];
  rs_quoted : (∀ c, settlementConversion p = Some c → quoted c)
    ∧ Forall (λ s, ∀ c, cs_settlementConversion s = Some c → quoted c) (nullish (splits p) []);
  rs_reserve r : reserveHold p = Some r →
    Money.amountMinorUnits (rh_netAmount r) = Money.amountMinorUnits amount - Money.amountMinorUnits (platformFee p) }.

Lemma resolve_resolved now mid amount req p :
  Money.wf amount → Money.amountMinorUnits amount ≤ 2 ^ 53 →
  Forall (λ s, Money.wf s.2 ∧ Money.same amount s.2) (nullish req []) →
  resolve now mid amount req = Ok p → resolved mid amount req p.
Proof.
  intros Ha Hmax Hreq Hok.
  destruct (resolve_unfold now mid amount Ha Hmax) as (fee & rh & payout & Hfee & Hpay & Hunits & Hrh & Hres).
  destruct (Hres req) as (conv & enabled & Hq & E). rewrite E in Hok. clear E Hres.
  destruct (resolveSplits_spec now mid amount payout req Ha (proj1 Hpay) (proj2 Hpay) Hreq) as (H1 & H2 & H3).
  destruct (decide (all_connected mid (nullish req []))) as [Hc|Hc]; [|rewrite H2 in Hok by done; discriminate].
  destruct (Z.le_gt_cases (requested_total (nullish req [])) (Money.amountMinorUnits payout)) as [Hle|Hgt];
    [|rewrite H3 in Hok by done; discriminate].
  destruct (H1 (conj Hc Hle)) as (r & sp & E & Hsp & _). rewrite E in Hok. injection Hok as <-. clear E H1 H2 H3.
  assert (splits_total (nullish sp []) = requested_total (nullish req [])) as Htot
    by (rewrite Hsp; apply map_splits_total).
  split; cbn [charge_params platformFee splits reserveHold settlementConversion].
  - intros id pid. unfold charge_params.
    split; cbn [ch_amount ch_platformFee ch_reserveHold ch_splits platformFee reserveHold splits]; [done| | |].
    + split; [apply Hfee|]. unfold Money.same. f_equal. symmetry. apply Hfee.
    + intros r'. destruct rh as [r0|]; [|done]. intros [= <-]. destruct (Hrh r0 eq_refl) as [[? Hcur] _].
      split; [done|]. unfold Money.same. by rewrite Hcur.
    + rewrite Hsp. apply Forall_fmap. eapply Forall_impl; [exact Hreq|]. done.
  - intros id pid. unfold deductions, charge_params.
    cbn [ch_amount ch_platformFee ch_reserveHold ch_splits platformFee reserveHold splits].
    unfold reserve_units in Hunits. destruct rh as [r0|]; cbn [fmap option_fmap option_map] in *; lia.
  - rewrite Hsp, <- list_fmap_compose. rewrite <- (list_fmap_id (nullish req [])) at 2.
    apply list_fmap_ext. by intros _ [] _.
  - split; [by apply Hq|]. rewrite Hsp. apply Forall_fmap, Forall_true. intros s c.
    apply resolveSplitConversion_quoted.
  - intros r0 Hr0. by destruct (Hrh r0 Hr0).
Qed.

(** ** Refunding a resolved charge *)

(** The parameters the callers book a refund with, from what the charge recorded
    on the payment. *)
Definition refund_params (id pid mid : string) (amount refund : Money.t) (p : ChargeLedgerParams)
    : RefundEntriesParams :=
  mkRefundEntriesParams id pid mid refund (recorded_conversion <$> settlementConversion p)
    (toPaymentSplits <$> (Some <$> splits p)) (const amount <$> splits p).

Lemma quoted_conv_ok (o : option ConvertedAmount) :
  (∀ a b rate provider, getRate a b = Ok (rate, provider) → rate_ok rate) →
  (∀ c, o = Some c → quoted c) → conv_ok (recorded_conversion <$> o).
Proof.
  intros Hrates Hq. destruct o as [c|]; [|done]. destruct (Hq c eq_refl) as [(a & b & E) [_ Hw]].
  split; [by eapply Hrates|]. cbn. by rewrite Hw.
Qed.

Lemma toPaymentSplits_total sp : recorded_total (toPaymentSplits sp) = splits_total (nullish sp []).
Proof.
  unfold recorded_total, splits_total, toPaymentSplits.
  induction (nullish sp []); cbn [sumZ fmap list_fmap ps_amount]; [done|]. lia.
Qed.

Lemma refund_params_valid id pid mid amount refund req p :
  (∀ a b rate provider, getRate a b = Ok (rate, provider) → rate_ok rate) →
  resolved mid amount req p → Money.wf refund → Money.amountMinorUnits refund ≤ 2 ^ 53 →
  0 < Money.amountMinorUnits amount →
  valid_refund (refund_params id pid mid amount refund p).
Proof.
  intros Hrates [Hv Hfit _ [Hq Hqs] _] Hr Hmax Hpos.
  destruct (Hv id pid) as [_ [[Hfee _] _] Hres Hsp].
  unfold charge_params in *. cbn [ch_splits ch_amount ch_platformFee ch_reserveHold] in *.
  split; unfold refund_params; cbn [re_refundAmount re_settlementConversion re_splits re_originalChargeAmount].
  - done.
  - done.
  - by apply quoted_conv_ok.
  - destruct (splits p) as [l|]; cbn [fmap option_fmap option_map nullish]; [|constructor].
    apply Forall_fmap. cbn [nullish] in Hsp, Hqs.
    pose proof (proj2 (Forall_and _ _) (conj Hsp Hqs)) as H. eapply Forall_impl; [exact H|].
    intros s [[[Hs _] _] Hs2]. split; [done|]. cbn [ps_settlementConversion].
    by apply (quoted_conv_ok (cs_settlementConversion s)).
  - intros c. destruct (splits p) as [l|] eqn:El; [|done]. intros [= <-]. split; [done|].
    cbn [fmap option_fmap option_map nullish]. rewrite toPaymentSplits_total. cbn [nullish].
    specialize (Hfit id pid). unfold deductions in Hfit.
    cbn [ch_amount ch_platformFee ch_reserveHold ch_splits] in Hfit. rewrite ?El in Hfit. cbn [nullish] in Hfit.
    destruct (reserveHold p) as [r|] eqn:Er; cbn in Hfit; [|lia].
    destruct (Hres (rh_amount r) eq_refl) as [[? _] _]. lia.
Qed.

End correct.

(** ** Properties *)

(** For a fee schedule that [updateFeeTiers] accepted, the resolver bills the
    rate of the last tier whose threshold the merchant's volume since the start
    of the month has reached, and the base rate below the first; the scan that
    stops at the first unreached tier misses nothing. *)
Theorem fee_tier_exact `{Ports : ChargePorts} (now : Date) (m m' : MerchantEntity.t) (tiers : list FeeTier)
    (amount : Money.t) :
  MerchantService.updateFeeTiers tiers m = Ok m' →
  let since := JsDate.UTC (JsDate.getUTCFullYear now) (JsDate.getUTCMonth now) 1 in
  let volume := sumSucceededVolumeSince (MerchantEntity.merchantId m) since (Currency.code (Money.currency amount)) in
  ∃ l, thresholds tiers = Some l
    ∧ resolvePlatformFeeBps now (Some m') amount
      = Ok (match last (filter (λ t, t.1 ≤ volume) l) with
            | Some (_, b) => b
            | None => MerchantEntity.platformFeeBps m
            end).
Proof.
  intros H since volume. unfold MerchantService.updateFeeTiers in H.
  apply bind_ok_iff in H as ([] & (l & Hl & Hasc)%checkTiers_ok & [= <-]). exists l. split; [done|].
  unfold resolvePlatformFeeBps. destruct tiers as [|tier tiers].
  - injection Hl as <-. destruct m; reflexivity.
  - transitivity (scanTiers volume (MerchantEntity.platformFeeBps m) (tier :: tiers)).
    + destruct m; reflexivity.
    + by apply (scanTiers_spec (-1)).
Qed.

(** Whatever the resolver returns for a charge can be booked: the entries
    balance in every currency, and the merchants are credited exactly the
    payouts. No charge the resolver accepted fails after the PSP was paid. *)
Theorem resolved_charge_books `{Ports : ChargePorts} (now now' : Date) (id pid mid : string) (amount : Money.t)
    (req : option (list (string * Money.t))) (p : ChargeLedgerParams) :
  (∀ id m, findByMerchantId id = Some m → policy_ok m) →
  Money.wf amount → Money.amountMinorUnits amount ≤ 2 ^ 53 →
  Forall (λ s, Money.wf s.2 ∧ Money.same amount s.2) (nullish req []) →
  resolve now mid amount req = Ok p →
  ∃ ev, LedgerOutboxEvent.createChargeEntries now' (charge_params id pid mid amount p) = Ok ev
    ∧ balanced (LedgerOutboxEvent.entries ev)
    ∧ lines MERCHANT (LedgerOutboxEvent.entries ev) = credit_line <$> payouts (charge_params id pid mid amount p)
    ∧ (λ s, (cs_merchantId s, cs_amount s)) <$> nullish (splits p) [] = nullish req [].
Proof.
  intros Hpol Ha Hmax Hreq Hok. pose proof (resolve_resolved Hpol _ _ _ _ _ Ha Hmax Hreq Hok) as [Hv Hd Hs _ _].
  destruct (charge_booked now' (charge_params id pid mid amount p) (Hv id pid) (Hd id pid)) as (ev & E & Hb & Hm).
  eauto.
Qed.

(** The resolver refuses a charge only for its splits. Without splits it
    always returns; with splits it returns when every recipient is a connected
    account of the merchant and the splits fit in what is left after the fee and
    the reserve, and otherwise throws the 422 error that names the reason. *)
Theorem resolve_exact `{Ports : ChargePorts} (now : Date) (mid : string) (amount : Money.t)
    (req : option (list (string * Money.t))) :
  (∀ id m, findByMerchantId id = Some m → policy_ok m) →
  Money.wf amount → Money.amountMinorUnits amount ≤ 2 ^ 53 →
  Forall (λ s, Money.wf s.2 ∧ Money.same amount s.2) (nullish req []) →
  ∃ fee reserve, 0 ≤ fee ∧ 0 ≤ reserve ∧ fee + reserve ≤ Money.amountMinorUnits amount
    ∧ (¬ all_connected mid (nullish req []) →
       resolve now mid amount req = Throw (HttpException 422 "SPLIT_RECIPIENT_INVALID"))
    ∧ (all_connected mid (nullish req []) →
       Money.amountMinorUnits amount < fee + reserve + requested_total (nullish req []) →
       resolve now mid amount req = Throw (HttpException 422 "SPLIT_EXCEEDS_NET_AMOUNT"))
    ∧ (all_connected mid (nullish req []) →
       fee + reserve + requested_total (nullish req []) ≤ Money.amountMinorUnits amount →
       ∃ p, resolve now mid amount req = Ok p
         ∧ Money.amountMinorUnits (platformFee p) = fee ∧ reserve_units (reserveHold p) = reserve).
Proof.
  intros Hpol Ha Hmax Hreq.
  destruct (resolve_unfold Hpol now mid amount Ha Hmax) as (fee & rh & payout & Hfee & Hpay & Hunits & Hrh & Hres).
  destruct (Hres req) as (conv & enabled & _ & E). rewrite E.
  destruct (resolveSplits_spec now mid amount payout req Ha (proj1 Hpay) (proj2 Hpay) Hreq) as (H1 & H2 & H3).
  exists (Money.amountMinorUnits fee), (reserve_units rh).
  assert (0 ≤ reserve_units rh).
  { destruct rh as [r|]; [|cbn; lia]. destruct (Hrh r eq_refl) as [[[? _] _] _]. done. }
  destruct Hfee as [[? _] _], Hpay as [[? _] _]. split_and!; [done|done|lia|..].
  - intros Hc. by rewrite H2.
  - intros Hc Hgt. rewrite H3 by (done || lia). done.
  - intros Hc Hle. destruct H1 as (r & sp & -> & _); [split; [done|lia]|]. cbn [mbind result_bind]. eauto.
Qed.

(** A charge that was resolved and booked can always be refunded in any
    amount: the refund of what the charge recorded (splits and conversion rates)
    is booked, balances, and debits the merchants the whole refund. *)
Theorem resolved_charge_refundable `{Ports : ChargePorts} (now now' : Date) (id pid mid : string)
    (amount refund : Money.t) (req : option (list (string * Money.t))) (p : ChargeLedgerParams) :
  (∀ id m, findByMerchantId id = Some m → policy_ok m) →
  (∀ a b rate provider, getRate a b = Ok (rate, provider) → rate_ok rate) →
  Money.wf amount → 0 < Money.amountMinorUnits amount ≤ 2 ^ 53 →
  Forall (λ s, Money.wf s.2 ∧ Money.same amount s.2) (nullish req []) →
  resolve now mid amount req = Ok p →
  Money.wf refund → Money.amountMinorUnits refund ≤ Money.amountMinorUnits amount →
  ∃ ev, LedgerOutboxEvent.createRefundEntries now' (refund_params id pid mid amount refund p) = Ok ev
    ∧ balanced (LedgerOutboxEvent.entries ev)
    ∧ bases_total (refund_bases (refund_params id pid mid amount refund p)) = Money.amountMinorUnits refund.
Proof.
  intros Hpol Hrates Ha Hpos Hreq Hok Hr Hle.
  pose proof (resolve_resolved Hpol _ _ _ _ _ Ha (proj2 Hpos) Hreq Hok) as Hres.
  assert (valid_refund (refund_params id pid mid amount refund p)) as Hv.
  { eapply refund_params_valid; [exact Hrates|exact Hres|done|lia|lia]. }
  destruct (createRefundEntries_ok now' _ Hv) as (ext & E & Hb & _).
  eexists. split_and!; [exact E|exact Hb|by apply refund_bases_total].
Qed.

(** ** A concrete marketplace *)

(** A platform on a two-tier schedule with a 10% reserve, settled in EUR, and one
    connected seller; the rate source quotes 0.9 and the volume is 6000. *)
Definition sample_platform : MerchantEntity.t :=
  MerchantEntity.mk "m_1" 290 (Some [mkFeeTier "5000" 250; mkFeeTier "10000" 200]) (Some "EUR") 1000 30 true
    PLATFORM_ACCOUNT None 0 0 STANDARD KYC_VERIFIED [STRIPE; ADYEN].

Definition sample_seller : MerchantEntity.t :=
  MerchantEntity.mk "c_1" 150 None None 0 0 true CONNECTED (Some "m_1"%string) 0 0 STANDARD KYC_VERIFIED [STRIPE; ADYEN].

#[local] Instance sample_ports : ChargePorts := {|
  findByMerchantId id :=
    if String.eqb id "m_1" then Some sample_platform
    else if String.eqb id "c_1" then Some sample_seller else None;
  getRate _ _ := Ok (Fin Num.one, "mock-fx"%string);
  sumSucceededVolumeSince _ _ _ := 6000 |}.

Lemma sample_policies id m : findByMerchantId id = Some m → policy_ok m.
Proof.
  cbn. repeat case_match; intros [= <-]; split; cbn; try lia; [|done].
  intros tiers [= <-]. eexists. split; [reflexivity|]. cbn. split; [lia|].
  apply Forall_cons. split; [cbn; lia|]. apply Forall_singleton. cbn. lia.
Qed.

Lemma sample_rates a b rate provider : getRate a b = Ok (rate, provider) → rate_ok rate.
Proof. cbn. intros [= <- _]. exists Num.one. pose proof Num.one_pos. split; [done|lia]. Qed.

Lemma sample_resolves :
  ∃ p, resolve 0 "m_1" (usd 10000) (Some [("c_1"%string, usd 3000)]) = Ok p.
Proof.
  assert (is_ok (resolve 0 "m_1" (usd 10000) (Some [("c_1"%string, usd 3000)])) = true) as H by by vm_compute.
  destruct (resolve _ _ _ _) as [p|]; [by exists p|discriminate H].
Qed.

Lemma fee_tier_exact_witness :
  resolvePlatformFeeBps 0 (Some sample_platform) (usd 10000) = Ok 250.
Proof.
  destruct (fee_tier_exact 0 sample_platform sample_platform [mkFeeTier "5000" 250; mkFeeTier "10000" 200] (usd 10000))
    as (l & [= <-] & E).
  - reflexivity.
  - exact E.
Defined.

Lemma resolved_charge_books_witness :
  ∃ p ev, resolve 0 "m_1" (usd 10000) (Some [("c_1"%string, usd 3000)]) = Ok p
    ∧ LedgerOutboxEvent.createChargeEntries 0 (charge_params "ev" "pay" "m_1" (usd 10000) p) = Ok ev
    ∧ balanced (LedgerOutboxEvent.entries ev).
Proof.
  destruct sample_resolves as (p & E).
  destruct (resolved_charge_books 0 0 "ev" "pay" "m_1" (usd 10000) (Some [("c_1"%string, usd 3000)]) p)
    as (ev & Eev & Hb & _).
  - exact sample_policies.
  - by apply usd_wf.
  - cbn. lia.
  - apply Forall_singleton. split; [by apply usd_wf|done].
  - exact E.
  - exists p, ev. split_and!; [exact E|exact Eev|exact Hb].
Defined.

Lemma resolve_exact_witness :
  resolve 0 "m_1" (usd 10000) (Some [("m_1"%string, usd 3000)])
  = Throw (HttpException 422 "SPLIT_RECIPIENT_INVALID").
Proof.
  destruct (resolve_exact 0 "m_1" (usd 10000) (Some [("m_1"%string, usd 3000)]))
    as (fee & reserve & _ & _ & _ & H & _).
  - exact sample_policies.
  - by apply usd_wf.
  - cbn. lia.
  - apply Forall_singleton. split; [by apply usd_wf|done].
  - apply H. intros Hc. apply (Forall_inv (l := [])) in Hc. discriminate Hc.
Defined.

Lemma resolved_charge_refundable_witness :
  ∃ p ev, resolve 0 "m_1" (usd 10000) (Some [("c_1"%string, usd 3000)]) = Ok p
    ∧ LedgerOutboxEvent.createRefundEntries 0 (refund_params "ev" "pay" "m_1" (usd 10000) (usd 3333) p) = Ok ev
    ∧ balanced (LedgerOutboxEvent.entries ev).
Proof.
  destruct sample_resolves as (p & E).
  destruct (resolved_charge_refundable 0 0 "ev" "pay" "m_1" (usd 10000) (usd 3333)
              (Some [("c_1"%string, usd 3000)]) p) as (ev & Eev & Hb & _).
  - exact sample_policies.
  - exact sample_rates.
  - by apply usd_wf.
  - cbn. lia.
  - apply Forall_singleton. split; [by apply usd_wf|done].
  - exact E.
  - by apply usd_wf.
  - cbn. lia.
  - exists p, ev. split_and!; [exact E|exact Eev|exact Hb].
Defined.
