(* ===== verification/Routing.v ===== *)
(** * Smart routing ([smart-routing.strategy.ts])

    Choice of the payment service provider of a charge. Scores, rates and
    latencies are JavaScript numbers. The health map is an insertion-ordered list
    of distinct providers. *)

From S2P Require Import Prelude JsNumber Money Policies.

Inductive CircuitBreakerState := CLOSED | OPEN | HALF_OPEN.

#[global] Instance CircuitBreakerState_eq_dec : EqDecision CircuitBreakerState.
Proof. solve_decision. Defined.

Definition breaker_name (s : CircuitBreakerState) : string :=
  match s with CLOSED => "CLOSED" | OPEN => "OPEN" | HALF_OPEN => "HALF_OPEN" end.

Definition provider_name (p : PSPProvider) : string :=
  match p with STRIPE => "STRIPE" | ADYEN => "ADYEN" | PAYPAL => "PAYPAL" | CHASE => "CHASE" end.

Record PSPHealthStatus := mkPSPHealthStatus {
  provider : PSPProvider;
  circuitBreakerState : CircuitBreakerState;
  successRate : number;
  avgLatencyMs : number;
  feePercentage : number;
  fixedFeeMinorUnits : number;
  supportedCurrencies : list string;
  supportedCountries : list string;
  isAvailable : bool }.

Record RoutingContext := mkRoutingContext {
  rc_amount : Money.t;
  rc_binInfo : option Bin.t;
  rc_merchantId : string;
  preferredProvider : option PSPProvider;
  entitledProviders : option (list PSPProvider) }.

Record RoutingDecision := mkRoutingDecision {
  selectedProvider : PSPProvider;
  fallbackProviders : list PSPProvider;
  estimatedFee : Money.t;
  routingReason : template;
  score : number }.

Module SmartRoutingStrategy.

Abbreviation HealthMap := (list (PSPProvider * PSPHealthStatus)) (only parsing).

Definition get (m : HealthMap) (p : PSPProvider) : option PSPHealthStatus :=
  snd <$> head (filter (λ e, e.1 = p) m).

(** [entitledProviders === undefined || entitledProviders.includes(p)] *)
Definition entitled (context : RoutingContext) (p : PSPProvider) : bool :=
  match entitledProviders context with
  | Some l => bool_decide (p ∈ l)
  | None => true
  end.

(** The filter's predicate. *)
Definition viable (context : RoutingContext) (health : PSPHealthStatus) : bool :=
  let currency := Currency.code (Money.currency (rc_amount context)) in
  let country := Bin.country <$> rc_binInfo context in
  if negb (isAvailable health) || bool_decide (circuitBreakerState health = OPEN) then false
  else if negb (entitled context (provider health)) then false
  else if negb (includes (supportedCurrencies health) currency) then false
  else if truthy country && negb (Nat.eqb (length (supportedCountries health)) 0) then
    includes (supportedCountries health) (nullish country "") || includes (supportedCountries health) "*"
  else true.

Definition filterAvailableProviders (context : RoutingContext) (pspHealthMap : HealthMap) : list PSPProvider :=
  (filter (λ e : PSPProvider * PSPHealthStatus, viable context e.2 = true) pspHealthMap).*1.

Definition calculateFee (amount : Money.t) (health : PSPHealthStatus) : result Money.t :=
  percentageFee ← Money.multiply amount (Num.div (feePercentage health) (Num.of_bigint 100));
  fixedFee ← Money.fromMinorUnitsNumber (fixedFeeMinorUnits health) (Currency.code (Money.currency amount)) None;
  Money.add percentageFee fixedFee.

Definition scoreProvider (context : RoutingContext) (health : PSPHealthStatus) : result number :=
  let score := Num.of_bigint 0 in
  (* 1. circuit breaker state *)
  let score := match circuitBreakerState health with
               | CLOSED => Num.add score (Num.of_bigint 40)
               | HALF_OPEN => Num.add score (Num.of_bigint 10)
               | OPEN => score
               end in
  (* 2. success rate *)
  let score := Num.add score (Num.mul (Num.div (successRate health) (Num.of_bigint 100)) (Num.of_bigint 30)) in
  (* 3. latency *)
  let latencyScore := Num.max (Num.of_bigint 0)
    (Num.sub (Num.of_bigint 15) (Num.div (avgLatencyMs health) (Num.of_bigint 100))) in
  let score := Num.add score latencyScore in
  (* 4. fee *)
  feeAmount ← calculateFee (rc_amount context) health;
  let feeRatio := Num.div (Money.amount feeAmount) (Money.amount (rc_amount context)) in
  let feeScore := Num.max (Num.of_bigint 0)
    (Num.sub (Num.of_bigint 15) (Num.mul feeRatio (Num.of_bigint 100))) in
  let score := Num.add score feeScore in
  (* 5. geography *)
  let score :=
    match rc_binInfo context with
    | Some b =>
        let score := if Bin.isEuropean b && bool_decide (provider health = ADYEN)
                     then Num.add score (Num.of_bigint 10) else score in
        if negb (Bin.isEuropean b) && bool_decide (provider health = STRIPE)
        then Num.add score (Num.of_bigint 5) else score
    | None => score
    end in
  Ok (Num.round score).

Definition buildRoutingReason (context : RoutingContext) (health : PSPHealthStatus) (score : number) : template :=
  [Txt ("Selected " ++ provider_name (provider health) ++ " (score: "); Numb score;
   Txt ("), CB: " ++ breaker_name (circuitBreakerState health) ++ ", Success: "); Numb (successRate health);
   Txt "%, Latency: "; Numb (avgLatencyMs health); Txt "ms"]
  ++ match rc_binInfo context with
     | Some b => [Txt (", BIN country: " ++ Bin.country b)]
     | None => []
     end.

(** A scored candidate. *)
Record scored := mkScored { s_provider : PSPProvider; s_score : number; s_health : PSPHealthStatus }.

(** [availableProviders.map(...)]: the scores, in order. *)
Fixpoint scoreAll (context : RoutingContext) (m : HealthMap) (l : list PSPProvider) : result (list scored) :=
  match l with
  | [] => Ok []
  | p :: l =>
      match get m p with
      | None => Throw (TypeError "undefined health")
      | Some health =>
          s ← scoreProvider context health;
          rest ← scoreAll context m l;
          Ok (mkScored p s health :: rest)
      end
  end.

(** [sort((a, b) => b.score - a.score)]: the stable sort of the language; [b] is
    moved before [a] when the comparator is positive. *)
Definition before (a b : scored) : bool := Num.gtb (Num.sub (s_score b) (s_score a)) (Num.of_bigint 0).

Fixpoint insert (a : scored) (l : list scored) : list scored :=
  match l with
  | [] => [a]
  | b :: l' => if before a b then b :: insert a l' else a :: l
  end.

Definition sort (l : list scored) : list scored := foldr insert [] l.

Definition selectProvider (context : RoutingContext) (pspHealthMap : HealthMap) : result RoutingDecision :=
  let available := filterAvailableProviders context pspHealthMap in
  let competitive :=
    scored ← scoreAll context pspHealthMap available;
    match sort scored with
    | [] => Throw (TypeError "undefined best")
    | best :: rest =>
        estimatedFee ← calculateFee (rc_amount context) (s_health best);
        Ok (mkRoutingDecision (s_provider best) (s_provider <$> rest) estimatedFee
              (buildRoutingReason context (s_health best) (s_score best)) (s_score best))
    end in
  let routed :=
    match available with
    | [] => Throw (NoAvailableProvider (Currency.code (Money.currency (rc_amount context)))
                     (nullish (Bin.country <$> rc_binInfo context) "UNKNOWN"))
    | _ =>
        match preferredProvider context with
        | Some p =>
            if bool_decide (p ∈ available) then
              match get pspHealthMap p with
              | None => Throw (TypeError "undefined health")
              | Some health =>
                  score ← scoreProvider context health;
                  fallbacks ← scoreAll context pspHealthMap (filter (λ q, q ≠ p) available);
                  estimatedFee ← calculateFee (rc_amount context) health;
                  Ok (mkRoutingDecision p (s_provider <$> sort fallbacks) estimatedFee
                        [Txt ("Selected " ++ provider_name p ++ " (explicit preferredProvider override)")] score)
              end
            else competitive
        | None => competitive
        end
    end in
  match preferredProvider context with
  | Some p => if entitled context p then routed else Throw (PreferredProviderNotEntitled (provider_name p))
  | None => routed
  end.

End SmartRoutingStrategy.
