(* ===== verification/RoutingCorrect.v ===== *)
(** * Correctness of smart routing

    Under plausible health figures every score is an integer between 0 and 110,
    so the sort is a genuine stable sort, and [selectProvider] is characterised
    on each of its branches. *)

From Stdlib Require Import Sorted.
From S2P Require Import Prelude JsNumber Money Policies Routing.
Import SmartRoutingStrategy.

(** Health figures within their documented units. *)
Record sane (h : PSPHealthStatus) : Prop := {
  sn_success : Num.within (successRate h) 100;
  sn_latency : Num.nonneg (avgLatencyMs h);
  sn_fee : Num.within (feePercentage h) 100;
  sn_fixed : ∃ n, fixedFeeMinorUnits h = Num.of_bigint n ∧ 0 ≤ n ≤ 2 ^ 53 }.

(** A positive amount that binary64 holds exactly. *)
Definition chargeable (context : RoutingContext) : Prop :=
  Money.wf (rc_amount context) ∧ 0 < Money.amountMinorUnits (rc_amount context) ≤ 2 ^ 53.

(** ** Scores *)

Lemma within_weaken x a b : a ≤ b → Num.within x a → Num.within x b.
Proof. intros Hab (c & -> & Hc). exists c. pose proof Num.one_pos. split; [done|nia]. Qed.

Lemma to_bigint_of_bigint n : 0 ≤ n ≤ 2 ^ 53 → Num.to_bigint (Num.of_bigint n) = Ok n.
Proof.
  intros. rewrite Num.of_bigint_small by done. pose proof Num.one_pos. unfold Num.to_bigint.
  by rewrite Z.mod_mul, Z.div_mul by lia.
Qed.

Lemma calculateFee_total m h : Money.wf m → Money.amountMinorUnits m ≤ 2 ^ 53 → sane h →
  ∃ f, calculateFee m h = Ok f ∧ Money.wf f ∧ Money.currency f = Money.currency m.
Proof.
  intros Hm Hmax [_ _ Hfee (n & Hn & Hn0)]. unfold calculateFee. rewrite Hn.
  destruct (Num.div_within (feePercentage h) 1 100) as (b & -> & Hb); [lia..|done|].
  destruct (multiply_fraction m b) as (r & -> & Hr); [done|done|lia|]. cbn [mbind result_bind].
  pose proof Hm as [? Hc]. unfold Money.fromMinorUnitsNumber. rewrite Hc. cbn [mbind result_bind].
  rewrite to_bigint_of_bigint by done. cbn [mbind result_bind].
  rewrite (proj2 (make_ok n _ _ _)) by (split; [lia|reflexivity]). cbn [mbind result_bind].
  rewrite add_total; [|split; cbn; [lia|done]..|done]. eexists.
  split_and!; [reflexivity| |done]. split; cbn; [lia|done].
Qed.

Lemma amount_nonneg m : Money.wf m → Num.nonneg (Money.amount m).
Proof.
  intros [H Hc]. destruct (decimalFactor_range _ Hc) as [E Hf]. unfold Money.amount.
  rewrite E, (Num.of_bigint_small (10 ^ _)) by lia. pose proof Num.one_pos.
  apply Num.div_nonneg; [|nia]. unfold Num.of_bigint, Num.lit. apply Num.mk_nonneg; nia.
Qed.

Lemma amount_positive m : Money.wf m → 0 < Money.amountMinorUnits m ≤ 2 ^ 53 →
  ∃ k, Money.amount m = Fin k ∧ 0 < k.
Proof.
  intros [_ Hc] Hm. destruct (decimalFactor_range _ Hc) as [E Hf]. unfold Money.amount.
  rewrite E, Num.div_of_bigint by lia. unfold Num.lit. pose proof Num.one_pos.
  rewrite (Num.mk_bounded _ _ (Money.amountMinorUnits m)) by nia.
  eexists. split; [reflexivity|].
  assert (1 ≤ Num.rnd_pos (Money.amountMinorUnits m * Num.one) (10 ^ Currency.minorUnits (Money.currency m)));
    [|lia].
  apply Num.rnd_pos_ge; [lia|by exists 1, 0|lia|].
  assert (2 ^ 10 ≤ Num.one) by (unfold Num.one; apply Z.pow_le_mono_r; lia). nia.
Qed.

(** The points before the geographic preference. *)
Lemma score_range_lemma ctx h : chargeable ctx → sane h →
  ∃ s, scoreProvider ctx h = Ok (Fin (s * Num.one)) ∧ 0 ≤ s ≤ 110.
Proof.
  intros [Hm Hpos] Hs. unfold scoreProvider. cbv zeta.
  set (s1 := match circuitBreakerState h with CLOSED => _ | _ => _ end).
  assert (Num.within s1 40) as H1.
  { subst s1. assert (Num.within (Num.of_bigint 0) 0) by (apply Num.of_bigint_within; lia).
    destruct (circuitBreakerState h).
    - apply (Num.add_within _ _ 0 40); [lia..|done|apply Num.of_bigint_within; lia].
    - apply (within_weaken _ 0); [lia|done].
    - apply (within_weaken _ 10); [lia|].
      apply (Num.add_within _ _ 0 10); [lia..|done|apply Num.of_bigint_within; lia]. }
  set (s2 := Num.add s1 _).
  assert (Num.within s2 70) as H2.
  { apply (Num.add_within _ _ 40 30); [lia..|done|]. apply (Num.mul_within _ 1 30); [lia..|].
    apply Num.div_within; [lia..|apply Hs]. }
  clearbody s2. clear s1 H1. set (s3 := Num.add s2 _).
  assert (Num.within s3 85) as H3.
  { apply (Num.add_within _ _ 70 15); [lia..|done|]. apply Num.max_sub_within; [lia|].
    rewrite (Num.of_bigint_small 100) by lia. pose proof Num.one_pos.
    apply Num.div_nonneg; [apply Hs|lia]. }
  clearbody s3. clear s2 H2.
  destruct (calculateFee_total (rc_amount ctx) h) as (f & -> & Hf & _); [done|lia|done|].
  cbn [mbind result_bind]. set (s4 := Num.add s3 _).
  assert (Num.within s4 100) as H4.
  { apply (Num.add_within _ _ 85 15); [lia..|done|]. apply Num.max_sub_within; [lia|].
    rewrite (Num.of_bigint_small 100) by lia. pose proof Num.one_pos. apply Num.mul_nonneg; [|lia].
    destruct (amount_positive _ Hm Hpos) as (k & -> & Hk).
    apply Num.div_nonneg; [by apply amount_nonneg|done]. }
  clearbody s4. clear s3 H3.
  match goal with |- context [Num.round ?x] => assert (Num.within x 110) as H5 end.
  { assert (Num.within (Num.add s4 (Num.of_bigint 10)) 110)
      by (apply (Num.add_within _ _ 100 10); [lia..|done|apply Num.of_bigint_within; lia]).
    assert (Num.within (Num.add s4 (Num.of_bigint 5)) 110).
    { apply (within_weaken _ 105); [lia|].
      apply (Num.add_within _ _ 100 5); [lia..|done|apply Num.of_bigint_within; lia]. }
    assert (Num.within s4 110) by (apply (within_weaken _ 100); [lia|done]).
    destruct (rc_binInfo ctx) as [b|]; [|done]. destruct (Bin.isEuropean b); cbn [negb andb];
      case_bool_decide; done. }
  destruct (Num.round_within _ _ H5) as (r & -> & Hr). eauto.
Qed.

(** ** Sorting *)

(** A candidate with an integer score. *)
Definition scored_ok (a : scored) : Prop := ∃ s, s_score a = Fin (s * Num.one) ∧ 0 ≤ s ≤ 110.

Lemma gtb_sub_int r q : 0 ≤ r ≤ 2 ^ 53 → 0 ≤ q ≤ 2 ^ 53 →
  Num.gtb (Num.sub (Fin (r * Num.one)) (Fin (q * Num.one))) (Num.of_bigint 0) = (q <? r).
Proof.
  intros Hr Hq. pose proof Num.one_pos. rewrite Num.of_bigint_small by lia.
  unfold Num.sub, Num.gtb, Num.ltb. cbn [Num.opp Num.add]. rewrite Z.mul_0_l.
  destruct (Z.ltb_spec q r).
  - rewrite (Num.mk_bounded _ _ r) by nia. cbn [Num.compare].
    assert (Num.one ≤ Num.rnd_pos (r * Num.one + - (q * Num.one)) 1).
    { apply Num.rnd_pos_ge; [lia| |lia|nia]. rewrite <- (Z.mul_1_l Num.one). apply Num.repr_int. lia. }
    by rewrite (proj2 (Z.compare_lt_iff _ _)) by lia.
  - unfold Num.mk, Num.rnd. assert (0 < Num.overflow) by (apply Num.pow2_pos; lia).
    destruct (Z.ltb_spec (r * Num.one + - (q * Num.one)) 0).
    + pose proof (Num.rnd_pos_nonneg (- (r * Num.one + - (q * Num.one))) 1 ltac:(lia) ltac:(lia)).
      rewrite (proj2 (Z.leb_gt _ _)) by lia. destruct (_ <=? _); cbn [Num.compare]; [done|].
      destruct (Z.compare_spec 0 (- Num.rnd_pos (- (r * Num.one + - (q * Num.one))) 1)); done || lia.
    + replace (r * Num.one + - (q * Num.one)) with 0 by nia. rewrite Num.rnd_pos_0 by lia.
      rewrite !(proj2 (Z.leb_gt _ _)) by lia. done.
Qed.

(** The order the decision is made by. *)
Definition not_better (a b : scored) : Prop := Num.leb (s_score b) (s_score a) = true.

Lemma leb_int r q : Num.leb (Fin (r * Num.one)) (Fin (q * Num.one)) = (r <=? q).
Proof.
  pose proof Num.one_pos. unfold Num.leb. cbn [Num.compare].
  destruct (Z.leb_spec r q), (Z.compare_spec (r * Num.one) (q * Num.one)); nia || done.
Qed.

Lemma before_spec a b : scored_ok a → scored_ok b → before a b = negb (Num.leb (s_score b) (s_score a)).
Proof.
  intros (s & Ha & Hs) (r & Hb & Hr). unfold before. rewrite Ha, Hb, gtb_sub_int, leb_int by lia.
  by rewrite Z.leb_antisym, negb_involutive.
Qed.

Lemma not_better_trans a b c : scored_ok a → scored_ok b → scored_ok c →
  not_better a b → not_better b c → not_better a c.
Proof.
  intros (s & Ha & _) (r & Hb & _) (q & Hc & _). unfold not_better. rewrite Ha, Hb, Hc, !leb_int.
  rewrite !Z.leb_le. lia.
Qed.

Lemma before_not_better a b : scored_ok a → scored_ok b → before a b = true → not_better b a.
Proof.
  intros Ha Hb. rewrite before_spec by done. destruct Ha as (s & Ha & _), Hb as (r & Hb & _).
  unfold not_better. rewrite Ha, Hb, !leb_int, negb_true_iff, Z.leb_gt, Z.leb_le. lia.
Qed.

Lemma insert_perm a l : insert a l ≡ₚ a :: l.
Proof.
  induction l as [|b l IH]; cbn [insert]; [done|]. destruct (before a b); [|done].
  rewrite IH. apply Permutation_swap.
Qed.

Lemma sort_perm l : sort l ≡ₚ l.
Proof. induction l as [|a l IH]; cbn; [done|]. change (insert a (sort l) ≡ₚ a :: l). by rewrite insert_perm, IH. Qed.

Lemma insert_sorted a l : scored_ok a → Forall scored_ok l →
  StronglySorted not_better l → StronglySorted not_better (insert a l).
Proof.
  intros Ha Hl. induction 1 as [|b l Hsort IH Hb]; cbn [insert]; [by repeat constructor|].
  apply Forall_cons in Hl as [Hbo Hl]. destruct (before a b) eqn:E.
  - constructor; [by apply IH|]. rewrite insert_perm. apply Forall_cons. split; [|done].
    by apply before_not_better.
  - rewrite before_spec in E by done. apply negb_false_iff in E. constructor; [by constructor|].
    apply Forall_cons. split; [done|]. rewrite Forall_forall in *. intros c Hc.
    by apply (not_better_trans a b c); auto.
Qed.

Lemma sort_sorted l : Forall scored_ok l → StronglySorted not_better (sort l).
Proof.
  induction 1 as [|a l Ha Hl IH]; cbn; [constructor|]. apply insert_sorted; [done| |done].
  change (Forall scored_ok (sort l)). by rewrite sort_perm.
Qed.

(** Candidates of equal score keep their order. *)
Lemma insert_stable a l s : scored_ok a → Forall scored_ok l →
  filter (λ c, s_score c = s) (insert a l) = filter (λ c, s_score c = s) (a :: l).
Proof.
  intros Ha. induction 1 as [|b l Hb Hl IH]; cbn [insert]; [done|].
  destruct (before a b) eqn:E; [|done]. rewrite filter_cons, IH, !filter_cons.
  repeat case_decide; try done. exfalso. rewrite before_spec in E by done.
  destruct Ha as (q & Ha & _). replace (s_score b) with (s_score a) in E by congruence.
  rewrite Ha, leb_int, Z.leb_refl in E. done.
Qed.

Lemma sort_stable l s : Forall scored_ok l →
  filter (λ c, s_score c = s) (sort l) = filter (λ c, s_score c = s) l.
Proof.
  induction 1 as [|a l Ha Hl IH]; [done|]. change (sort (a :: l)) with (insert a (sort l)).
  rewrite insert_stable by (rewrite ?sort_perm; done). rewrite !filter_cons, IH. done.
Qed.

(** ** Selection *)

(** A health map: one sane entry per provider. *)
Definition health_map (m : HealthMap) : Prop := NoDup m.*1 ∧ Forall (λ e, sane e.2) m.

(** The score of a provider of the map. *)
Definition score_of (ctx : RoutingContext) (m : HealthMap) (p : PSPProvider) : number :=
  match get m p with
  | Some h => match scoreProvider ctx h with Ok s => s | Throw _ => NaN end
  | None => NaN
  end.

Lemma get_In m p h : NoDup m.*1 → (p, h) ∈ m → get m p = Some h.
Proof.
  unfold get. induction m as [|[q g] m IH]; cbn [fmap list_fmap fst]; intros Hnd Hin.
  { by apply not_elem_of_nil in Hin. }
  apply NoDup_cons in Hnd as [Hq Hnd]. apply elem_of_cons in Hin as [[= -> ->]|Hin].
  - rewrite filter_cons, decide_True by done. done.
  - rewrite filter_cons, decide_False; [by apply IH|]. cbn. intros ->. apply Hq.
    by apply (list_elem_of_fmap_2 fst) in Hin.
Qed.

Lemma available_In ctx m p : p ∈ filterAvailableProviders ctx m ↔ ∃ h, (p, h) ∈ m ∧ viable ctx h = true.
Proof.
  unfold filterAvailableProviders. rewrite list_elem_of_fmap. split.
  - intros ([q h] & -> & [Hv Hin]%list_elem_of_filter). cbn in *. eauto.
  - intros (h & Hin & Hv). exists (p, h). split; [done|]. by apply list_elem_of_filter.
Qed.

Lemma available_NoDup ctx m : NoDup m.*1 → NoDup (filterAvailableProviders ctx m).
Proof.
  unfold filterAvailableProviders. induction m as [|[q g] l IH]; cbn; intros Hnd; [constructor|].
  apply NoDup_cons in Hnd as [Hq Hnd]. destruct (decide _); cbn; [|by apply IH].
  apply NoDup_cons. split; [|by apply IH].
  intros ([q' g'] & -> & [_ Hin]%list_elem_of_filter)%list_elem_of_fmap. apply Hq.
  by apply (list_elem_of_fmap_2 fst) in Hin.
Qed.

Lemma filter_neq_perm (p : PSPProvider) l : NoDup l → p ∈ l → p :: filter (λ q, q ≠ p) l ≡ₚ l.
Proof.
  induction l as [|q l IH]; intros Hnd Hin; [by apply not_elem_of_nil in Hin|].
  apply NoDup_cons in Hnd as [Hq Hnd]. apply elem_of_cons in Hin as [->|Hin].
  - rewrite filter_cons, decide_False by tauto. f_equiv. clear IH Hnd.
    induction l as [|r l IH]; [done|]. rewrite filter_cons, decide_True by (intros ->; apply Hq; by left).
    f_equiv. apply IH. set_solver.
  - rewrite filter_cons, decide_True by (intros ->; done). rewrite Permutation_swap. f_equiv. by apply IH.
Qed.

Lemma available_get ctx m : health_map m →
  Forall (λ p, ∃ h, get m p = Some h ∧ sane h) (filterAvailableProviders ctx m).
Proof.
  intros [Hnd Hs]. apply Forall_forall. intros p (h & Hin & _)%available_In. exists h.
  split; [by apply get_In|]. rewrite Forall_forall in Hs. by apply (Hs (p, h)).
Qed.

(** A candidate that carries the map's entry and its score. *)
Definition scored_from (ctx : RoutingContext) (m : HealthMap) (a : scored) : Prop :=
  scored_ok a ∧ get m (s_provider a) = Some (s_health a) ∧ s_score a = score_of ctx m (s_provider a)
  ∧ sane (s_health a).

Lemma scoreAll_spec ctx m l : chargeable ctx → Forall (λ p, ∃ h, get m p = Some h ∧ sane h) l →
  ∃ sc, scoreAll ctx m l = Ok sc ∧ s_provider <$> sc = l ∧ Forall (scored_from ctx m) sc.
Proof.
  intros Hc. induction 1 as [|p l (h & Hg & Hs) _ (sc & IH & Hp & Hf)]; cbn [scoreAll]; [by exists []|].
  rewrite Hg. destruct (score_range_lemma ctx h Hc Hs) as (s & E & Hr). rewrite E, IH. cbn [mbind result_bind].
  eexists. split_and!; [reflexivity|by cbn; rewrite Hp|]. apply Forall_cons. split; [|done].
  unfold scored_from, score_of, scored_ok. cbn. rewrite Hg, E. split_and!; [by eauto|done..].
Qed.

Lemma scored_from_ok ctx m l : Forall (scored_from ctx m) l → Forall scored_ok l.
Proof. intros H. eapply Forall_impl; [exact H|]. by intros a [? _]. Qed.

(** The providers of a sorted candidate list, in descending order of score. *)
Definition descending (ctx : RoutingContext) (m : HealthMap) : list PSPProvider → Prop :=
  StronglySorted (λ p q, Num.leb (score_of ctx m q) (score_of ctx m p) = true).

Lemma sorted_descending ctx m l : Forall (scored_from ctx m) l →
  StronglySorted not_better l → descending ctx m (s_provider <$> l).
Proof.
  intros Hl. induction 1 as [|a l Hs IH Ha]; cbn; [constructor|].
  apply Forall_cons in Hl as [(_ & _ & Hsc & _) Hl]. constructor; [by apply IH|].
  apply Forall_fmap. rewrite Forall_forall in *. intros b Hb. cbn.
  destruct (Hl b Hb) as (_ & _ & Hsb & _). rewrite <- Hsc, <- Hsb. by apply Ha.
Qed.

Lemma score_refl ctx m p : chargeable ctx → health_map m → p ∈ filterAvailableProviders ctx m →
  Num.leb (score_of ctx m p) (score_of ctx m p) = true.
Proof.
  intros Hc Hm Hp. pose proof (available_get ctx m Hm) as Hav. rewrite Forall_forall in Hav.
  destruct (Hav p Hp) as (h & Hg & Hs). destruct (score_range_lemma ctx h Hc Hs) as (s & E & _).
  unfold score_of. rewrite Hg, E, leb_int. apply Z.leb_refl.
Qed.

Section select.
Context (ctx : RoutingContext) (m : HealthMap).
Context (Hctx : chargeable ctx) (Hmap : health_map m).

Abbreviation available := (filterAvailableProviders ctx m).

(** What a decision must satisfy. *)
Record decision_ok (d : RoutingDecision) : Prop := {
  dk_candidates : selectedProvider d :: fallbackProviders d ≡ₚ available;
  dk_score : score d = score_of ctx m (selectedProvider d);
  dk_fee : ∃ h, get m (selectedProvider d) = Some h ∧ calculateFee (rc_amount ctx) h = Ok (estimatedFee d);
  dk_fallbacks : descending ctx m (fallbackProviders d) }.

Definition competitive : result RoutingDecision :=
  scored ← scoreAll ctx m available;
  match sort scored with
  | [] => Throw (TypeError "undefined best")
  | best :: rest =>
      estimatedFee ← calculateFee (rc_amount ctx) (s_health best);
      Ok (mkRoutingDecision (s_provider best) (s_provider <$> rest) estimatedFee
            (buildRoutingReason ctx (s_health best) (s_score best)) (s_score best))
  end.

Lemma competitive_spec : available ≠ [] →
  ∃ d, competitive = Ok d ∧ decision_ok d ∧ descending ctx m (selectedProvider d :: fallbackProviders d).
Proof.
  intros Hne. unfold competitive.
  destruct (scoreAll_spec ctx m available Hctx (available_get ctx m Hmap)) as (sc & -> & Hp & Hf).
  cbn [mbind result_bind].
  pose proof (sort_perm sc) as Hperm. pose proof (sort_sorted sc (scored_from_ok _ _ _ Hf)) as Hsort.
  assert (Forall (scored_from ctx m) (sort sc)) as Hf' by by rewrite Hperm.
  destruct (sort sc) as [|best rest] eqn:Es.
  { apply Permutation_nil_l in Hperm as <-. by destruct Hne. }
  apply Forall_cons in Hf' as Hb. destruct Hb as [(_ & Hg & Hsc & Hsane) Hrest].
  destruct Hctx as [Hm Hpos]. destruct (calculateFee_total (rc_amount ctx) (s_health best)) as (f & Ef & _);
    [done|lia|done|]. rewrite Ef. cbn [mbind result_bind].
  pose proof (sorted_descending ctx m _ Hf' Hsort) as Hd.
  eexists. split_and!; [reflexivity| |exact Hd]. split; cbn.
  - change (s_provider best :: (s_provider <$> rest)) with (s_provider <$> best :: rest).
    by rewrite Hperm, Hp.
  - done.
  - eauto.
  - by inversion Hd.
Qed.

Lemma preferred_spec p : p ∈ available →
  ∃ h s d, get m p = Some h ∧ scoreProvider ctx h = Ok s
    ∧ (fallbacks ← scoreAll ctx m (filter (λ q, q ≠ p) available);
       estimatedFee ← calculateFee (rc_amount ctx) h;
       Ok (mkRoutingDecision p (s_provider <$> sort fallbacks) estimatedFee
             [Txt ("Selected " ++ provider_name p ++ " (explicit preferredProvider override)")] s)) = Ok d
    ∧ decision_ok d ∧ selectedProvider d = p.
Proof.
  intros Hin. pose proof (available_get ctx m Hmap) as Hav. rewrite Forall_forall in Hav.
  destruct (Hav p Hin) as (h & Hg & Hs).
  destruct (score_range_lemma ctx h Hctx Hs) as (s & Es & _).
  destruct (scoreAll_spec ctx m (filter (λ q, q ≠ p) available) Hctx) as (sc & -> & Hp & Hf).
  { apply Forall_forall. intros q [_ Hq]%list_elem_of_filter. by apply Hav. }
  cbn [mbind result_bind]. destruct Hctx as [Hm Hpos].
  destruct (calculateFee_total (rc_amount ctx) h) as (f & Ef & _); [done|lia|done|].
  exists h, (Fin (s * Num.one)). rewrite Ef. cbn [mbind result_bind]. eexists.
  split_and!; [done|done|reflexivity| |done]. split; cbn.
  - rewrite sort_perm, Hp. apply filter_neq_perm; [by apply available_NoDup, Hmap|done].
  - unfold score_of. by rewrite Hg, Es.
  - eauto.
  - apply sorted_descending; [by rewrite sort_perm|]. apply sort_sorted. by eapply scored_from_ok.
Qed.

Lemma select_preferred p : preferredProvider ctx = Some p → entitled ctx p = true → p ∈ available →
  ∃ d, selectProvider ctx m = Ok d ∧ decision_ok d ∧ selectedProvider d = p.
Proof.
  intros Hp Hent Hin. destruct (preferred_spec p Hin) as (h & s & d & Hg & Hs & E & Hd & Hsel).
  exists d. split_and!; [|done..]. unfold selectProvider. rewrite Hp, Hent.
  destruct available as [|a l] eqn:Eav; [by apply elem_of_nil in Hin|]. rewrite <- Eav in *.
  rewrite bool_decide_eq_true_2 by done. rewrite Hg, Hs. cbn [mbind result_bind]. exact E.
Qed.

End select.

(** ** Properties *)

(** For sane health figures and a positive amount the routing score never
    throws and is an integer between 0 and 110: none of the binary64 steps
    (success rate, latency, fee ratio) can leave the range or yield NaN. *)
Theorem routing_score_range (ctx : RoutingContext) (h : PSPHealthStatus) :
  chargeable ctx → sane h →
  ∃ s, scoreProvider ctx h = Ok (Fin (s * Num.one)) ∧ 0 ≤ s ≤ 110.
Proof. apply score_range_lemma. Qed.

(** A provider is a candidate exactly when it is available, its breaker is
    not open, the merchant is entitled to it, it supports the currency, and it
    supports the card's country whenever that is known and the provider
    restricts countries. *)
Theorem routing_candidates_exact (ctx : RoutingContext) (m : HealthMap) (p : PSPProvider) :
  p ∈ filterAvailableProviders ctx m ↔
  ∃ h, (p, h) ∈ m ∧ isAvailable h = true ∧ circuitBreakerState h ≠ OPEN
    ∧ (∀ l, entitledProviders ctx = Some l → provider h ∈ l)
    ∧ In (Currency.code (Money.currency (rc_amount ctx))) (supportedCurrencies h)
    ∧ (∀ b, rc_binInfo ctx = Some b → Bin.country b ≠ ""%string → supportedCountries h ≠ [] →
         In (Bin.country b) (supportedCountries h) ∨ In "*"%string (supportedCountries h)).
Proof.
  rewrite available_In. apply exist_proper. intros h. f_equiv. unfold viable. cbv zeta.
  rewrite <- !includes_In. unfold entitled, truthy.
  destruct (isAvailable h); cbn [negb orb]; [|naive_solver].
  case_bool_decide; [naive_solver|].
  assert ((if match entitledProviders ctx with Some l => bool_decide (provider h ∈ l) | None => true end
           then True else False) ↔ ∀ l, entitledProviders ctx = Some l → provider h ∈ l) as He.
  { destruct (entitledProviders ctx) as [l|]; [|naive_solver]. case_bool_decide; naive_solver. }
  destruct (match entitledProviders ctx with Some l => _ | None => _ end); cbn [negb];
    [|split; [discriminate|]; intros (_ & _ & H' & _); by apply He in H'].
  destruct (includes (supportedCurrencies h) _); cbn [negb]; [|naive_solver].
  destruct (rc_binInfo ctx) as [b|]; cbn [fmap option_fmap option_map andb nullish].
  2: { split; [|done]. intros _. split_and!; [done|done|tauto|done|done]. }
  destruct (String.eqb_spec (Bin.country b) ""); cbn [negb andb];
    [split; [|done]; intros _; split_and!; [done|done|tauto|done|]; intros b' [= <-]; done|].
  destruct (supportedCountries h) as [|c cs] eqn:Ec; cbn [length Nat.eqb negb];
    [split; [|done]; intros _; split_and!; [done|done|tauto|done|]; intros b' [= <-] _; done|].
  rewrite <- Ec, orb_true_iff. split.
  - intros Hor. split_and!; [done|done|tauto|done|]. intros b' [= <-] _ _. by rewrite <- !includes_In.
  - intros (_ & _ & _ & _ & Hb). rewrite !includes_In. apply Hb; [done|done|]. by rewrite Ec.
Qed.

(** The routing decision on every branch. A preferred provider outside the
    merchant's entitlement is refused, an empty candidate list is an error, and
    otherwise a decision is returned: the selected provider and the fallbacks
    are exactly the candidates, the fallbacks by descending score; a viable
    preferred provider is selected whatever its score, and without one the
    selected provider has the highest score of all candidates. *)
Theorem routing_decision_exact (ctx : RoutingContext) (m : HealthMap) :
  chargeable ctx → health_map m →
  let allowed := ∀ p, preferredProvider ctx = Some p → entitled ctx p = true in
  (∀ p, preferredProvider ctx = Some p → entitled ctx p = false →
     selectProvider ctx m = Throw (PreferredProviderNotEntitled (provider_name p)))
  ∧ (allowed → filterAvailableProviders ctx m = [] →
     ∃ c, selectProvider ctx m
          = Throw (NoAvailableProvider (Currency.code (Money.currency (rc_amount ctx))) c))
  ∧ (allowed → filterAvailableProviders ctx m ≠ [] →
     ∃ d, selectProvider ctx m = Ok d ∧ decision_ok ctx m d
       ∧ (∀ p, preferredProvider ctx = Some p → p ∈ filterAvailableProviders ctx m → selectedProvider d = p)
       ∧ ((∀ p, preferredProvider ctx = Some p → p ∉ filterAvailableProviders ctx m) →
          ∀ q, q ∈ filterAvailableProviders ctx m →
            Num.leb (score_of ctx m q) (score_of ctx m (selectedProvider d)) = true)).
Proof.
  intros Hctx Hmap allowed. unfold selectProvider. fold (competitive ctx m). split_and!.
  - intros p -> Hent. cbn. by rewrite Hent.
  - intros Hal ->. destruct (preferredProvider ctx) as [p|] eqn:E; [rewrite (Hal p) by done|]; eauto.
  - intros Hal Hne. destruct (competitive_spec ctx m Hctx Hmap Hne) as (dc & Ec & Hdc & Hmax).
    assert (∀ q, q ∈ filterAvailableProviders ctx m →
      Num.leb (score_of ctx m q) (score_of ctx m (selectedProvider dc)) = true) as Hbest.
    { intros q Hq. rewrite <- (dk_candidates _ _ _ Hdc) in Hq. apply elem_of_cons in Hq as [->|Hq].
      - apply (score_refl ctx m _ Hctx Hmap).
        rewrite <- (dk_candidates _ _ _ Hdc). by left.
      - inversion Hmax as [|? ? _ Hall]; subst. rewrite Forall_forall in Hall. by apply Hall. }
    destruct (filterAvailableProviders ctx m) as [|a l] eqn:Eav; [done|]. rewrite <- Eav in *.
    destruct (preferredProvider ctx) as [p|] eqn:Ep; [rewrite (Hal p) by done|].
    + case_bool_decide as Hin.
      * destruct (preferred_spec ctx m Hctx Hmap p Hin) as (h & s & d & -> & -> & E & Hd & Hsel).
        cbn [mbind result_bind]. rewrite E. exists d. split_and!; [done|done| |].
        -- by intros q [= <-].
        -- intros Hno. by destruct (Hno p eq_refl).
      * exists dc. split_and!; [done|done| |done]. by intros q [= <-].
    + exists dc. split_and!; [done..|]. done.
Qed.

(** ** Concrete health map *)

Definition sample_health (p : PSPProvider) (cb : CircuitBreakerState) (rate latency : Z) : PSPHealthStatus :=
  mkPSPHealthStatus p cb (Num.of_bigint rate) (Num.of_bigint latency) (Num.of_bigint 3) (Num.of_bigint 30)
    ["USD"; "EUR"]%string ["*"]%string true.

Definition sample_map : HealthMap :=
  [(STRIPE, sample_health STRIPE CLOSED 95 300); (ADYEN, sample_health ADYEN CLOSED 99 200);
   (PAYPAL, sample_health PAYPAL OPEN 99 100)].

Definition sample_context (preferred : option PSPProvider) : RoutingContext :=
  mkRoutingContext (usd 10000) None "m_1" preferred None.

Lemma sample_health_sane p cb rate latency : 0 ≤ rate ≤ 100 → 0 ≤ latency ≤ 2 ^ 53 →
  sane (sample_health p cb rate latency).
Proof.
  intros. split; cbn.
  - apply (within_weaken _ rate); [lia|]. apply Num.of_bigint_within. lia.
  - rewrite Num.of_bigint_small by lia. pose proof Num.one_pos. right. eexists. split; [done|]. nia.
  - apply (within_weaken _ 3); [lia|]. apply Num.of_bigint_within. lia.
  - exists 30. split; [done|lia].
Qed.

Lemma sample_map_ok : health_map sample_map.
Proof.
  split.
  - unfold sample_map. cbn. repeat (apply NoDup_cons; split; [set_solver|]). apply NoDup_nil_2.
  - repeat (apply Forall_cons; split; [apply sample_health_sane; lia|]). apply Forall_nil_2.
Qed.

Lemma sample_context_ok o : chargeable (sample_context o).
Proof. split; [by apply usd_wf|cbn; lia]. Qed.

Lemma routing_score_range_witness :
  ∃ s, scoreProvider (sample_context None) (sample_health ADYEN CLOSED 99 200) = Ok (Fin (s * Num.one))
    ∧ 0 ≤ s ≤ 110.
Proof.
  apply (routing_score_range (sample_context None) (sample_health ADYEN CLOSED 99 200)).
  - apply sample_context_ok.
  - apply sample_health_sane; lia.
Defined.

Lemma routing_decision_exact_witness :
  ∃ d, selectProvider (sample_context (Some STRIPE)) sample_map = Ok d ∧ selectedProvider d = STRIPE.
Proof.
  destruct (routing_decision_exact (sample_context (Some STRIPE)) sample_map) as (_ & _ & H).
  - apply sample_context_ok.
  - apply sample_map_ok.
  - destruct H as (d & E & _ & Hsel & _).
    + intros p [= <-]. reflexivity.
    + discriminate.
    + exists d. split; [exact E|]. apply Hsel; [reflexivity|]. apply available_In.
      exists (sample_health STRIPE CLOSED 95 300). split; [by left|reflexivity].
Defined.
