(* ===== verification/Subscription.v ===== *)
(** * Subscriptions ([subscription.aggregate.ts], [plan.aggregate.ts],
    [plan.service.ts], [subscription.service.ts])

    The billing schedule, the aggregate, the plan catalogue entry, and the body
    of the daily billing sweep for one subscription. Dates are time values in
    milliseconds; interval counts, attempt counters and trial days are integers. *)

From S2P Require Import Prelude JsNumber JsDate Money Policies PaymentStatus.

Inductive BillingInterval := day | week | month | year.

(** [new Date(date)] with one field moved. *)
Definition addBillingInterval (date : Date) (interval : BillingInterval) (count : Z) : Date :=
  match interval with
  | day => JsDate.setUTCDate date (JsDate.getUTCDate date + count)
  | week => JsDate.setUTCDate date (JsDate.getUTCDate date + count * 7)
  | month => JsDate.setUTCMonth date (JsDate.getUTCMonth date + count)
  | year => JsDate.setUTCFullYear date (JsDate.getUTCFullYear date + count)
  end.

Definition RETRY_SCHEDULE_DAYS : list Z := [1; 3; 7].

Definition dayMs : Z := 24 * 60 * 60 * 1000.

(** ** Plans *)

Module Plan.

Record t := mk {
  _id : string;
  _merchantId : string;
  _name : string;
  _amount : Money.t;
  _interval : BillingInterval;
  _intervalCount : Z;
  _isActive : bool;
  _createdAt : Date;
  _updatedAt : Date }.

Definition create (now : Date) (id merchantId name : string) (amount : Money.t) (interval : BillingInterval)
    (intervalCount : Z) : t :=
  mk id merchantId name amount interval intervalCount true now now.

Definition reconstitute (id merchantId name : string) (amount : Money.t) (interval : BillingInterval)
    (intervalCount : Z) (isActive : bool) (createdAt updatedAt : Date) : t :=
  mk id merchantId name amount interval intervalCount isActive createdAt updatedAt.

Definition deactivate (now : Date) (p : t) : t := p {{ _isActive := false; _updatedAt := now }}.

(** [PlanService.getUsablePlanOrThrow], on the row the repository returned. *)
Definition getUsablePlanOrThrow (row : option t) (merchantId : string) : result t :=
  match row with
  | None => Throw (HttpException 404 "PLAN_NOT_FOUND")
  | Some plan =>
      if negb (String.eqb (_merchantId plan) merchantId) then Throw (HttpException 403 "ACCESS_DENIED")
      else if negb (_isActive plan) then Throw (HttpException 404 "PLAN_DEACTIVATED")
      else Ok plan
  end.

End Plan.

(** ** The aggregate *)

Module Subscription.

Inductive SubscriptionStatus := TRIALING | ACTIVE | PAST_DUE | CANCELED.

#[global] Instance SubscriptionStatus_eq_dec : EqDecision SubscriptionStatus.
Proof. solve_decision. Defined.

Inductive DueAction := CHARGE | CANCEL | NONE.

Record t := mk {
  _id : string;
  _merchantId : string;
  _customerId : string;
  _amount : Money.t;
  _interval : BillingInterval;
  _intervalCount : Z;
  _paymentMethodId : string;
  _status : SubscriptionStatus;
  _currentPeriodStart : Date;
  _currentPeriodEnd : Date;
  _cancelAtPeriodEnd : bool;
  _failedAttempts : Z;
  _orderId : option string;
  _description : option string;
  _canceledAt : option Date;
  _createdAt : Date;
  _updatedAt : Date;
  _planId : option string;
  _pendingCredit : option Money.t;
  _nextRetryAt : option Date;
  _lastDeclineCode : option string;
  _lastDeclinePspProvider : option PSPProvider }.

Definition startTrial (now : Date) (id merchantId customerId : string) (amount : Money.t)
    (interval : BillingInterval) (intervalCount : Z) (paymentMethodId : string) (trialDays : Z)
    (orderId description planId : option string) : t :=
  let currentPeriodEnd := now + trialDays * 24 * 60 * 60 * 1000 in
  mk id merchantId customerId amount interval intervalCount paymentMethodId TRIALING now currentPeriodEnd
    false 0 orderId description None now now planId None None None None.

Definition startActive (now : Date) (id merchantId customerId : string) (amount : Money.t)
    (interval : BillingInterval) (intervalCount : Z) (paymentMethodId : string)
    (orderId description planId : option string) : t :=
  let currentPeriodEnd := addBillingInterval now interval intervalCount in
  mk id merchantId customerId amount interval intervalCount paymentMethodId ACTIVE now currentPeriodEnd
    false 0 orderId description None now now planId None None None None.

Definition reconstitute (id merchantId customerId : string) (amount : Money.t) (interval : BillingInterval)
    (intervalCount : Z) (paymentMethodId : string) (status : SubscriptionStatus)
    (currentPeriodStart currentPeriodEnd : Date) (cancelAtPeriodEnd : bool) (failedAttempts : Z)
    (orderId description : option string) (canceledAt : option Date) (createdAt updatedAt : Date)
    (planId : option string) (pendingCredit : option Money.t) (nextRetryAt : option Date)
    (lastDeclineCode : option string) (lastDeclinePspProvider : option PSPProvider) : t :=
  mk id merchantId customerId amount interval intervalCount paymentMethodId status currentPeriodStart
    currentPeriodEnd cancelAtPeriodEnd failedAttempts orderId description canceledAt createdAt updatedAt
    planId pendingCredit nextRetryAt lastDeclineCode lastDeclinePspProvider.

Definition dueAction (now : Date) (s : t) : DueAction :=
  if bool_decide (_status s = CANCELED) then NONE
  else if now <? _currentPeriodEnd s then NONE
  else if _cancelAtPeriodEnd s then CANCEL
  else if bool_decide (_status s = PAST_DUE)
          && match _nextRetryAt s with Some r => now <? r | None => false end then NONE
  else CHARGE.

Definition recordSuccessfulCharge (now : Date) (s : t) : t :=
  s {{ _currentPeriodStart := _currentPeriodEnd s;
       _currentPeriodEnd := addBillingInterval (_currentPeriodEnd s) (_interval s) (_intervalCount s);
       _status := ACTIVE; _failedAttempts := 0; _nextRetryAt := None; _lastDeclineCode := None;
       _lastDeclinePspProvider := None; _updatedAt := now }}.

(** [RETRY_SCHEDULE_DAYS[Math.min(failedAttempts - 1, length - 1)]] *)
Definition retryDelayDays (failedAttempts : Z) : Z :=
  nth (Z.to_nat (Z.min (failedAttempts - 1) (Z.of_nat (length RETRY_SCHEDULE_DAYS) - 1))) RETRY_SCHEDULE_DAYS 0.

Definition recordFailedCharge (now : Date) (maxAttempts : Z) (errorCode : option string)
    (pspProvider : option PSPProvider) (s : t) : t :=
  let s := s {{ _failedAttempts := _failedAttempts s + 1; _lastDeclineCode := errorCode;
                _lastDeclinePspProvider := pspProvider }} in
  let isHardDecline := bool_decide (Decline.classifyDeclineCode errorCode pspProvider = Decline.HARD_DECLINE) in
  let s :=
    if isHardDecline || (maxAttempts <=? _failedAttempts s) then
      s {{ _status := CANCELED; _canceledAt := Some now; _nextRetryAt := None }}
    else
      let delayDays := retryDelayDays (_failedAttempts s) in
      s {{ _status := PAST_DUE; _nextRetryAt := Some (now + delayDays * 24 * 60 * 60 * 1000) }} in
  s {{ _updatedAt := now }}.

Definition canceledByHardDecline (s : t) : bool :=
  bool_decide (_status s = CANCELED)
  && bool_decide (Decline.classifyDeclineCode (_lastDeclineCode s) (_lastDeclinePspProvider s)
                  = Decline.HARD_DECLINE).

Definition finalizeCancellation (now : Date) (s : t) : t :=
  s {{ _status := CANCELED; _canceledAt := Some now; _updatedAt := now }}.

Definition requestCancellation (now : Date) (immediate : bool) (s : t) : t :=
  if bool_decide (_status s = CANCELED) then s
  else
    let s := if immediate then s {{ _status := CANCELED; _canceledAt := Some now }}
             else s {{ _cancelAtPeriodEnd := true }} in
    s {{ _updatedAt := now }}.

(** The values of the rest of the period at the old and at the new price. *)
Definition remainingValues (newAmount : Money.t) (now : Date) (s : t) : result (Money.t * Money.t) :=
  let totalMs := _currentPeriodEnd s - _currentPeriodStart s in
  let remainingMs := Z.max 0 (Z.min totalMs (_currentPeriodEnd s - now)) in
  let remainingFraction :=
    if 0 <? totalMs then Num.div (Num.of_bigint remainingMs) (Num.of_bigint totalMs) else Num.of_bigint 0 in
  oldRemainingValue ← Money.multiply (_amount s) remainingFraction;
  newRemainingValue ← Money.multiply newAmount remainingFraction;
  Ok (oldRemainingValue, newRemainingValue).

Definition checkPlanCurrency (newAmount : Money.t) (s : t) : result unit :=
  throw_if (negb (String.eqb (Currency.code (Money.currency newAmount)) (Currency.code (Money.currency (_amount s)))))
    (PlanCurrencyMismatch (Currency.code (Money.currency (_amount s))) (Currency.code (Money.currency newAmount))).

Definition computeUpgradeProration (newAmount : Money.t) (now : Date) (s : t) : result (option Money.t) :=
  _ ← checkPlanCurrency newAmount s;
  '(oldRemainingValue, newRemainingValue) ← remainingValues newAmount now s;
  greater ← Money.isGreaterThan newRemainingValue oldRemainingValue;
  if greater : bool then Some <$> Money.subtract newRemainingValue oldRemainingValue else Ok None.

Definition computeDowngradeCredit (newAmount : Money.t) (now : Date) (s : t) : result (option Money.t) :=
  _ ← checkPlanCurrency newAmount s;
  '(oldRemainingValue, newRemainingValue) ← remainingValues newAmount now s;
  greater ← Money.isGreaterThan oldRemainingValue newRemainingValue;
  if greater : bool then Some <$> Money.subtract oldRemainingValue newRemainingValue else Ok None.

Definition applyDowngradeCredit (credit : Money.t) (s : t) : result t :=
  match _pendingCredit s with
  | Some pending => total ← Money.add pending credit; Ok (s {{ _pendingCredit := Some total }})
  | None => Ok (s {{ _pendingCredit := Some credit }})
  end.

(** [!this._pendingCredit || this._pendingCredit.isZero()] negated. *)
Definition usableCredit (s : t) : option Money.t :=
  match _pendingCredit s with
  | Some c => if Money.isZero c then None else Some c
  | None => None
  end.

Definition amountDueThisPeriod (s : t) : result Money.t :=
  match usableCredit s with
  | None => Ok (_amount s)
  | Some credit =>
      greater ← Money.isGreaterThan (_amount s) credit;
      if greater : bool then Money.subtract (_amount s) credit
      else Money.zero (Currency.code (Money.currency (_amount s)))
  end.

Definition consumeCredit (s : t) : result t :=
  match usableCredit s with
  | None => Ok s
  | Some credit =>
      greater ← Money.isGreaterThan credit (_amount s);
      let consumed := if greater : bool then _amount s else credit in
      remaining ← Money.subtract credit consumed;
      Ok (s {{ _pendingCredit := if Money.isZero remaining then None else Some remaining }})
  end.

Definition applyPlanChange (planId : string) (amount : Money.t) (interval : BillingInterval)
    (intervalCount : Z) (now : Date) (s : t) : t :=
  s {{ _planId := Some planId; _amount := amount; _interval := interval; _intervalCount := intervalCount;
       _updatedAt := now }}.

End Subscription.

(** ** The service *)

Module SubscriptionService.
Import Subscription.

Definition MAX_DUNNING_ATTEMPTS : Z := 4.

Inductive CanceledReason := dunning_exhausted | hard_decline | period_end_reached | merchant_requested.

Inductive SubscriptionEvent :=
  | PastDueEvent (subscriptionId : string) (failedAttempts : Z) (nextRetryAt : option Date)
      (declineCode : option string)
  | CanceledEvent (subscriptionId : string) (reason : CanceledReason) (declineCode : option string).

Definition emitPastDueEvent (s : t) : SubscriptionEvent :=
  PastDueEvent (_id s) (_failedAttempts s) (_nextRetryAt s) (_lastDeclineCode s).

Definition emitCanceledEvent (s : t) (reason : CanceledReason) : SubscriptionEvent :=
  CanceledEvent (_id s) reason (match reason with hard_decline => _lastDeclineCode s | _ => None end).

(** What the checkout saga answers. *)
Record SagaOutcome := mkSagaOutcome {
  so_status : PaymentStatus;
  so_errorCode : option string;
  so_pspProvider : option PSPProvider }.

(** The outside world of one iteration: the payment row of the period, the
    saga, and whether the first [save] and the one of the [catch] succeed. *)
Record World := mkWorld {
  w_findById : result (option PaymentStatus);
  w_execute : Money.t → result SagaOutcome;
  w_save : bool;
  w_saveInCatch : bool }.

Inductive Counted := charged | canceled | failed | skipped.

Record Billed := mkBilled {
  b_memory : t;
  b_persisted : option t;
  b_executed : option Money.t;
  b_counted : Counted;
  b_events : list SubscriptionEvent }.

(** One pass through the [try] block: the aggregate as mutated so far, the
    amount the saga was called with, and the outcome or the exception. *)
Definition attempt_result : Type := t * option Money.t * result (Counted * list SubscriptionEvent).

Definition save (w : World) : result unit := if w_save w then Ok tt else Throw (ExternalFailure "save").

(** [consumeCredit(); recordSuccessfulCharge(now); save; charged++] *)
Definition settle (now : Date) (w : World) (executed : option Money.t) (s : t) : attempt_result :=
  match consumeCredit s with
  | Throw e => (s, executed, Throw e)
  | Ok s' =>
      let s' := recordSuccessfulCharge now s' in
      (s', executed, (λ _, (charged, [])) <$> save w)
  end.

Definition attempt (now : Date) (w : World) (action : DueAction) (s : t) : attempt_result :=
  match action with
  | CANCEL =>
      let s := finalizeCancellation now s in
      (s, None, (λ _, (canceled, [emitCanceledEvent s period_end_reached])) <$> save w)
  | _ =>
      match amountDueThisPeriod s with
      | Throw e => (s, None, Throw e)
      | Ok chargeAmount =>
          if Money.isZero chargeAmount then settle now w None s
          else
            match w_findById w with
            | Throw e => (s, None, Throw e)
            | Ok (Some SUCCEEDED) => settle now w None s
            | Ok _ =>
                match w_execute w chargeAmount with
                | Throw e => (s, Some chargeAmount, Throw e)
                | Ok result =>
                    if bool_decide (so_status result = SUCCEEDED) then settle now w (Some chargeAmount) s
                    else
                      let s := recordFailedCharge now MAX_DUNNING_ATTEMPTS (so_errorCode result)
                                 (so_pspProvider result) s in
                      (s, Some chargeAmount,
                       (λ _, (failed,
                          [if bool_decide (_status s = CANCELED)
                           then emitCanceledEvent s (if canceledByHardDecline s then hard_decline else dunning_exhausted)
                           else emitPastDueEvent s])) <$> save w)
                end
            end
      end
  end.

(** One iteration of [runBillingSweep]. *)
Definition billOne (now : Date) (w : World) (s : t) : Billed :=
  match dueAction now s with
  | NONE => mkBilled s None None skipped []
  | action =>
      match attempt now w action s with
      | (s', executed, Ok (counted, events)) => mkBilled s' (Some s') executed counted events
      | (s', executed, Throw _) =>
          let s'' := recordFailedCharge now MAX_DUNNING_ATTEMPTS None None s' in
          if w_saveInCatch w then
            mkBilled s'' (Some s'') executed failed
              [if bool_decide (_status s'' = CANCELED) then emitCanceledEvent s'' dunning_exhausted
               else emitPastDueEvent s'']
          else mkBilled s'' None executed failed []
      end
  end.

(** [changePlan] on the loaded subscription and plan row: the subscription to
    save, the proration charged and the credit issued. [execute] charges the
    proration. *)
Definition changePlan (now : Date) (execute : Money.t → result SagaOutcome) (plan : option Plan.t) (s : t)
    : result (t * option Money.t * option Money.t) :=
  _ ← throw_if (negb (bool_decide (_status s = ACTIVE))) (HttpException 409 "SUBSCRIPTION_NOT_ACTIVE");
  newPlan ← Plan.getUsablePlanOrThrow plan (_merchantId s);
  '(proration, creditIssued) ←
    match
      proration ← computeUpgradeProration (Plan._amount newPlan) now s;
      match proration with
      | Some _ => Ok (proration, None)
      | None => creditIssued ← computeDowngradeCredit (Plan._amount newPlan) now s; Ok (None, creditIssued)
      end
    with
    | Ok r => Ok r
    | Throw _ => Throw (HttpException 409 "PLAN_CURRENCY_MISMATCH")
    end;
  _ ← match proration with
      | Some amount =>
          result ← execute amount;
          throw_if (negb (bool_decide (so_status result = SUCCEEDED))) (HttpException 422 "PRORATION_CHARGE_FAILED")
      | None => Ok tt
      end;
  let s := applyPlanChange (Plan._id newPlan) (Plan._amount newPlan) (Plan._interval newPlan)
             (Plan._intervalCount newPlan) now s in
  s ← match creditIssued with Some c => applyDowngradeCredit c s | None => Ok s end;
  Ok (s, proration, creditIssued).

(** [cancel]: the subscription to save and the event to emit. *)
Definition cancel (now : Date) (atPeriodEnd : bool) (s : t) : t * list SubscriptionEvent :=
  let s := requestCancellation now (negb atPeriodEnd) s in
  (s, if bool_decide (_status s = CANCELED) then [emitCanceledEvent s merchant_requested] else []).

End SubscriptionService.
