(* ===== verification/SubscriptionCorrect.v ===== *)
(** * Correctness of subscription billing

    The schedule only moves forward, the dunning process is bounded and spaced,
    proration and credits are exact, and every stored subscription satisfies the
    invariant [wf]. *)

From S2P Require Import Prelude JsNumber JsDate Money Policies PaymentStatus Subscription.
Import Subscription.

(** ** The schedule *)

Lemma dayMs_msPerDay : dayMs = JsDate.msPerDay.
Proof. reflexivity. Qed.

Lemma setUTCDate_add d n : JsDate.setUTCDate d (JsDate.getUTCDate d + n) = d + n * dayMs.
Proof.
  unfold JsDate.setUTCDate.
  replace (JsDate.MakeDay _ _ _) with (JsDate.Day d + n).
  - rewrite <- (JsDate.MakeDate_Day d) at 3. unfold JsDate.MakeDate. rewrite dayMs_msPerDay. ring.
  - rewrite <- JsDate.MakeDay_fields. unfold JsDate.MakeDay. lia.
Qed.

Lemma MakeDay_months y m n dt : 0 ≤ n → JsDate.MakeDay y m dt + 28 * n ≤ JsDate.MakeDay y (m + n) dt.
Proof.
  intros Hn. revert n Hn. apply (natlike_ind (λ n, JsDate.MakeDay y m dt + 28 * n ≤ JsDate.MakeDay y (m + n) dt)).
  - replace (m + 0) with m by lia. lia.
  - intros n Hn IH. pose proof (JsDate.MakeDay_next_month y (m + n) dt).
    replace (m + Z.succ n) with (m + n + 1) by lia. lia.
Qed.

Lemma MakeDate_le day day' n t : day + n ≤ day' →
  JsDate.MakeDate day t + n * dayMs ≤ JsDate.MakeDate day' t.
Proof. rewrite dayMs_msPerDay. unfold JsDate.MakeDate, JsDate.msPerDay. lia. Qed.

Lemma MakeDay_years y m n dt : 0 ≤ m ≤ 11 → 1 ≤ n →
  JsDate.MakeDay y m dt + 365 * n ≤ JsDate.MakeDay (y + n) m dt.
Proof.
  intros Hm Hn. unfold JsDate.MakeDay. rewrite Z.div_small, Z.mod_small, !Z.add_0_r by lia.
  pose proof (JsDate.InLeapYear_days y) as Hy. pose proof (JsDate.DayFromYear_gap (y + 1) (y + n) ltac:(lia)).
  assert (∀ b, JsDate.MonthStart false m ≤ JsDate.MonthStart b m ≤ JsDate.MonthStart false m + 1) as Hs.
  { intros b. unfold JsDate.MonthStart. destruct b; repeat case_match; lia. }
  pose proof (Hs (JsDate.InLeapYear (y + n))).
  destruct (JsDate.InLeapYear y); [pose proof (Hs true)|pose proof (Hs false)]; lia.
Qed.

(** How many days an interval adds at least. *)
Definition min_days (i : BillingInterval) : Z :=
  match i with day => 1 | week => 7 | month => 28 | year => 365 end.

Lemma addBillingInterval_advances d i c : 1 ≤ c → d + min_days i * c * dayMs ≤ addBillingInterval d i c.
Proof.
  intros Hc. pose proof (JsDate.getUTCMonth_range d). destruct i; cbn [addBillingInterval min_days].
  - rewrite setUTCDate_add. lia.
  - rewrite setUTCDate_add. lia.
  - unfold JsDate.setUTCMonth. rewrite <- (JsDate.MakeDate_Day d) at 1. apply MakeDate_le.
    rewrite <- JsDate.MakeDay_fields. apply MakeDay_months. lia.
  - unfold JsDate.setUTCFullYear. rewrite <- (JsDate.MakeDate_Day d) at 1. apply MakeDate_le.
    rewrite <- JsDate.MakeDay_fields. by apply MakeDay_years.
Qed.

Lemma addBillingInterval_later d i c : 1 ≤ c → d < addBillingInterval d i c.
Proof.
  intros Hc. pose proof (addBillingInterval_advances d i c Hc). unfold dayMs in *.
  destruct i; cbn [min_days] in *; lia.
Qed.

Lemma addBillingInterval_time d i c :
  JsDate.TimeWithinDay (addBillingInterval d i c) = JsDate.TimeWithinDay d.
Proof.
  pose proof (JsDate.TimeWithinDay_range d) as Ht.
  destruct i; cbn [addBillingInterval]; unfold JsDate.setUTCDate, JsDate.setUTCMonth, JsDate.setUTCFullYear;
    rewrite JsDate.TimeWithinDay_MakeDate; done.
Qed.

Lemma MakeDay_normalize y m dt : JsDate.MakeDay y m dt = JsDate.MakeDay (y + m / 12) (m mod 12) dt.
Proof.
  unfold JsDate.MakeDay. pose proof (Z.mod_pos_bound m 12 ltac:(lia)).
  by rewrite (Z.div_small (m mod 12)), (Z.mod_small (m mod 12)), Z.add_0_r by lia.
Qed.

(** The fields after a month or year was added, for days every month has. *)
Lemma calendar_add d y m : JsDate.getUTCDate d ≤ 28 →
  let d' := JsDate.MakeDate (JsDate.MakeDay y m (JsDate.getUTCDate d)) (JsDate.TimeWithinDay d) in
  JsDate.getUTCDate d' = JsDate.getUTCDate d
  ∧ 12 * JsDate.getUTCFullYear d' + JsDate.getUTCMonth d' = 12 * y + m.
Proof.
  intros H28 d'. subst d'. pose proof (JsDate.TimeWithinDay_range d) as Ht.
  pose proof (JsDate.getUTCDate_range d) as Hd. pose proof (Z.mod_pos_bound m 12 ltac:(lia)).
  pose proof (JsDate.DaysInMonth_range (y + m / 12) (m mod 12) ltac:(lia)).
  rewrite MakeDay_normalize.
  destruct (JsDate.fields_MakeDay (y + m / 12) (m mod 12) (JsDate.getUTCDate d)
    (JsDate.TimeWithinDay d)) as (-> & -> & -> & _); [lia..|].
  split; [done|]. pose proof (Z.div_mod m 12 ltac:(lia)). lia.
Qed.

(** A billing interval only moves the schedule forward: days and weeks are
    exact, a month adds at least 28 days and a year at least 365; the time of day
    never shifts, and a month or year from a day of the month up to the 28th
    keeps that day and advances the calendar by exactly that many months. *)
Theorem billing_interval_exact (d : Date) (i : BillingInterval) (c : Z) :
  1 ≤ c →
  let d' := addBillingInterval d i c in
  match i with
  | day => d' = d + c * dayMs
  | week => d' = d + 7 * c * dayMs
  | month => d + 28 * c * dayMs ≤ d'
  | year => d + 365 * c * dayMs ≤ d'
  end
  ∧ JsDate.TimeWithinDay d' = JsDate.TimeWithinDay d
  ∧ (JsDate.getUTCDate d ≤ 28 → i = month ∨ i = year →
     JsDate.getUTCDate d' = JsDate.getUTCDate d
     ∧ 12 * JsDate.getUTCFullYear d' + JsDate.getUTCMonth d'
       = 12 * JsDate.getUTCFullYear d + JsDate.getUTCMonth d
         + (match i with year => 12 | _ => 1 end) * c).
Proof.
  intros Hc d'. subst d'. split_and!.
  - pose proof (addBillingInterval_advances d i c Hc) as Ha. destruct i.
    + unfold addBillingInterval. by rewrite setUTCDate_add.
    + unfold addBillingInterval. rewrite setUTCDate_add. lia.
    + exact Ha.
    + exact Ha.
  - apply addBillingInterval_time.
  - intros H28 Hi. destruct Hi as [->| ->]; cbn [addBillingInterval].
    + destruct (calendar_add d (JsDate.getUTCFullYear d) (JsDate.getUTCMonth d + c) H28) as [H1 H2].
      unfold JsDate.setUTCMonth. rewrite H1, H2. split; [done|lia].
    + destruct (calendar_add d (JsDate.getUTCFullYear d + c) (JsDate.getUTCMonth d) H28) as [H1 H2].
      unfold JsDate.setUTCFullYear. rewrite H1, H2. split; [done|lia].
Qed.

Lemma billing_interval_exact_witness :
  JsDate.getUTCDate (addBillingInterval 0 month 13) = 1.
Proof.
  destruct (billing_interval_exact 0 month 13) as (_ & _ & H).
  - lia.
  - apply H; [vm_compute; discriminate|by left].
Defined.

(** ** The invariant of stored subscriptions *)

Definition retryable (s : t) : Prop :=
  Decline.classifyDeclineCode (_lastDeclineCode s) (_lastDeclinePspProvider s) = Decline.RETRYABLE.

Record wf (s : t) : Prop := {
  wf_amount : Money.wf (_amount s);
  wf_credit c : _pendingCredit s = Some c → Money.wf c ∧ Money.same (_amount s) c;
  wf_count : 1 ≤ _intervalCount s;
  wf_period : _currentPeriodStart s < _currentPeriodEnd s;
  wf_attempts : 0 ≤ _failedAttempts s;
  wf_current : _status s = ACTIVE ∨ _status s = TRIALING → _failedAttempts s = 0 ∧ _nextRetryAt s = None;
  wf_past_due : _status s = PAST_DUE →
    1 ≤ _failedAttempts s < SubscriptionService.MAX_DUNNING_ATTEMPTS ∧ isSome (_nextRetryAt s) = true ∧ retryable s }.

(** Destructs the record so that its updates compute. *)
Ltac fields s := destruct s; cbn in *.

Lemma recordSuccessfulCharge_wf now s : wf s → wf (recordSuccessfulCharge now s).
Proof.
  intros [Ha Hcr Hc Hp Hf Hcur Hpd]. fields s. split; cbn; try done.
  by apply addBillingInterval_later.
Qed.

Lemma classify_cases code p :
  Decline.classifyDeclineCode code p = Decline.HARD_DECLINE
  ∨ Decline.classifyDeclineCode code p = Decline.RETRYABLE.
Proof. destruct (Decline.classifyDeclineCode code p); auto. Qed.

(** The two outcomes of a failed charge. *)
Lemma recordFailedCharge_cases now max code p s :
  let s' := recordFailedCharge now max code p s in
  _failedAttempts s' = _failedAttempts s + 1
  ∧ _lastDeclineCode s' = code ∧ _lastDeclinePspProvider s' = p ∧ _updatedAt s' = now
  ∧ _currentPeriodEnd s' = _currentPeriodEnd s ∧ _currentPeriodStart s' = _currentPeriodStart s
  ∧ _amount s' = _amount s ∧ _pendingCredit s' = _pendingCredit s ∧ _intervalCount s' = _intervalCount s
  ∧ ((Decline.classifyDeclineCode code p = Decline.HARD_DECLINE ∨ max ≤ _failedAttempts s + 1)
       ∧ _status s' = CANCELED ∧ _canceledAt s' = Some now ∧ _nextRetryAt s' = None
     ∨ Decline.classifyDeclineCode code p = Decline.RETRYABLE ∧ _failedAttempts s + 1 < max
       ∧ _status s' = PAST_DUE
       ∧ _nextRetryAt s' = Some (now + retryDelayDays (_failedAttempts s + 1) * dayMs)).
Proof.
  intros s'. subst s'. unfold recordFailedCharge. cbv zeta. fields s.
  destruct (classify_cases code p) as [E|E]; rewrite E; cbn.
  - split_and!; try done. left. split_and!; auto.
  - destruct (Z.leb_spec max (_failedAttempts0 + 1)); cbn.
    + split_and!; try done. left. split_and!; auto.
    + split_and!; try done. right. split_and!; try done. do 2 f_equal. unfold dayMs. lia.
Qed.

Lemma recordFailedCharge_wf now code p s : wf s →
  wf (recordFailedCharge now SubscriptionService.MAX_DUNNING_ATTEMPTS code p s).
Proof.
  intros [Ha Hcr Hc Hp Hf Hcur Hpd].
  destruct (recordFailedCharge_cases now SubscriptionService.MAX_DUNNING_ATTEMPTS code p s)
    as (E1 & E2 & E3 & _ & E4 & E5 & E6 & E7 & E8 & Hst).
  split; rewrite ?E1, ?E4, ?E5, ?E6, ?E7, ?E8; try done; [lia| |].
  - destruct Hst as [(_ & -> & _)|(_ & _ & -> & _)]; by intros [?|?].
  - unfold retryable. rewrite E2, E3.
    destruct Hst as [(_ & -> & _)|(Hr & Hlt & -> & ->)]; [done|]. intros _. split_and!; [lia|lia|done|done].
Qed.

Lemma requestCancellation_wf now b s : wf s → wf (requestCancellation now b s).
Proof.
  intros [Ha Hcr Hc Hp Hf Hcur Hpd]. unfold requestCancellation. case_bool_decide; [done|].
  fields s. destruct b; split; cbn; try done. by intros [?|?].
Qed.

Lemma finalizeCancellation_wf now s : wf s → wf (finalizeCancellation now s).
Proof. intros [Ha Hcr Hc Hp Hf Hcur Hpd]. fields s. split; cbn; try done. by intros [?|?]. Qed.

Lemma usableCredit_Some s c : usableCredit s = Some c →
  _pendingCredit s = Some c ∧ Money.amountMinorUnits c ≠ 0.
Proof.
  unfold usableCredit. destruct (_pendingCredit s) as [c'|]; [|discriminate].
  destruct (Money.isZero c') eqn:E; [discriminate|]. intros [= <-]. split; [done|].
  intros H%isZero_iff. congruence.
Qed.

(** What a period costs and uses up: the charge and the credit it consumes. *)
Definition credit_units (s : t) : Z :=
  match _pendingCredit s with Some c => Money.amountMinorUnits c | None => 0 end.

Lemma amountDue_spec s : wf s →
  ∃ due, amountDueThisPeriod s = Ok due ∧ Money.wf due ∧ Money.currency due = Money.currency (_amount s)
    ∧ Money.amountMinorUnits due = Z.max 0 (Money.amountMinorUnits (_amount s) - credit_units s).
Proof.
  intros [Ha Hcr _ _ _ _ _]. unfold amountDueThisPeriod, credit_units.
  destruct (usableCredit s) as [c|] eqn:E.
  - apply usableCredit_Some in E as [E Hnz]. rewrite E. destruct (Hcr c E) as [[Hc0 _] Hs].
    rewrite (proj2 (isGreaterThan_ok _ _ _) (conj Hs eq_refl)). cbn [mbind result_bind].
    destruct (Z.ltb_spec (Money.amountMinorUnits c) (Money.amountMinorUnits (_amount s))).
    + rewrite subtract_total by (done || lia). eexists. split_and!; [reflexivity| |done|cbn; lia].
      split; cbn; [lia|apply Ha].
    + rewrite zero_wf_code by apply Ha. eexists. split_and!; [reflexivity| |done|cbn; lia].
      split; cbn; [lia|apply Ha].
  - exists (_amount s). destruct Ha as [Ha0 Hac]. split_and!; [done|done|done|].
    unfold usableCredit in E. destruct (_pendingCredit s) as [c|]; [|lia].
    destruct (Money.isZero c) eqn:Ez; [|discriminate]. apply isZero_iff in Ez. lia.
Qed.

Lemma consumeCredit_spec s : wf s →
  ∃ s', consumeCredit s = Ok s' ∧ wf s'
    ∧ credit_units s' = Z.max 0 (credit_units s - Money.amountMinorUnits (_amount s))
    ∧ ∃ o, s' = s {{ _pendingCredit := o }}.
Proof.
  intros Hw. pose proof Hw as [Ha Hcr Hc Hp Hf Hcur Hpd]. unfold consumeCredit, credit_units.
  destruct (usableCredit s) as [c|] eqn:E.
  - apply usableCredit_Some in E as [E Hnz]. rewrite E. destruct (Hcr c E) as [Hcw Hs]. pose proof Hcw as [Hc0 _].
    pose proof Ha as [Ha0 _]. symmetry in Hs.
    rewrite (proj2 (isGreaterThan_ok _ _ _) (conj Hs eq_refl)). cbn [mbind result_bind].
    assert (∃ r, Money.subtract c
        (if Money.amountMinorUnits (_amount s) <? Money.amountMinorUnits c then _amount s else c) = Ok r
      ∧ Money.wf r ∧ Money.same (_amount s) r
      ∧ Money.amountMinorUnits r = Z.max 0 (Money.amountMinorUnits c - Money.amountMinorUnits (_amount s)))
      as (r & Er & Hr & Hrs & Hru).
    { destruct (Z.ltb_spec (Money.amountMinorUnits (_amount s)) (Money.amountMinorUnits c));
        rewrite subtract_total by (done || lia); eexists;
        (split_and!; [reflexivity|split; cbn; [lia|apply Hcw]|by symmetry|cbn; lia]). }
    rewrite Er. cbn [mbind result_bind]. eexists. split_and!; [reflexivity|..].
    + fields s. split; cbn; try done. intros c' Hc'. destruct (Money.isZero r); [discriminate|].
      by injection Hc' as <-.
    + fields s. destruct (Money.isZero r) eqn:Ez; [apply isZero_iff in Ez|]; lia.
    + eauto.
  - exists s. split_and!; [done|done| |].
    + destruct Ha as [? _]. unfold usableCredit in E. destruct (_pendingCredit s) as [c|]; [|lia].
      destruct (Money.isZero c) eqn:Ez; [|discriminate]. apply isZero_iff in Ez. lia.
    + exists (_pendingCredit s). by destruct s.
Qed.

(** ** Proration *)

(** The rest of a period is worth between nothing and its price. *)
Lemma remainingValues_spec newAmount now s :
  wf s → Money.wf newAmount →
  Money.amountMinorUnits (_amount s) ≤ 2 ^ 53 → Money.amountMinorUnits newAmount ≤ 2 ^ 53 →
  _currentPeriodEnd s - _currentPeriodStart s ≤ 2 ^ 53 →
  ∃ o n, remainingValues newAmount now s
         = Ok (Money.mk o (Money.currency (_amount s)) None, Money.mk n (Money.currency newAmount) None)
    ∧ 0 ≤ o ≤ Money.amountMinorUnits (_amount s) ∧ 0 ≤ n ≤ Money.amountMinorUnits newAmount
    ∧ (now ≤ _currentPeriodStart s →
       o = Money.amountMinorUnits (_amount s) ∧ n = Money.amountMinorUnits newAmount)
    ∧ (_currentPeriodEnd s ≤ now → o = 0 ∧ n = 0).
Proof.
  intros Hw Hn Hmax Hnmax Htot. destruct Hw as [Ha _ _ Hp _ _ _]. unfold remainingValues. cbv zeta.
  set (total := _currentPeriodEnd s - _currentPeriodStart s) in *.
  set (rem := Z.max 0 (Z.min total (_currentPeriodEnd s - now))) in *.
  assert (0 < total) as Ht by lia. assert (0 ≤ rem ≤ total) as Hr by lia.
  rewrite (proj2 (Z.ltb_lt 0 total) Ht), Num.div_of_bigint by lia.
  destruct (Num.lit_fraction rem total) as [-> Hb]; [lia..|]. set (b := Num.rnd_pos (rem * Num.one) total) in *.
  destruct (multiply_fraction (_amount s) b) as (o & Eo & Ho); [done..|].
  destruct (multiply_fraction newAmount b) as (n & En & Hn'); [done..|].
  rewrite Eo, En. exists o, n. split_and!; [done|lia|lia|lia|lia| |].
  - intros Hnow. assert (rem = total) as -> by lia.
    assert (b = Num.one) as Hone.
    { subst b. rewrite Z.mul_comm. apply Num.rnd_pos_exact; [lia| |pose proof Num.one_pos; lia].
      rewrite <- (Z.mul_1_l Num.one). apply Num.repr_int. lia. }
    rewrite Hone in Eo, En. rewrite multiply_one in Eo, En by done.
    injection Eo as <-. injection En as <-. done.
  - intros Hnow. assert (rem = 0) as Hz by lia.
    assert (b = 0) as Hb0 by (subst b; rewrite Hz, Z.mul_0_l; apply Num.rnd_pos_0; lia).
    rewrite Hb0 in Eo, En. rewrite multiply_zero in Eo, En by done. injection Eo as <-. by injection En as <-.
Qed.

(** A plan change is either an upgrade that charges or a downgrade that
    credits, never both: both compare the same two values of the rest of the
    period, the charge is at most the new price and the credit at most the old
    one; at the start of the period they are the full price difference and at
    its end nothing. Plans of another currency are refused by both. *)
Theorem proration_exact (newAmount : Money.t) (now : Date) (s : t) :
  wf s → Money.wf newAmount →
  Money.amountMinorUnits (_amount s) ≤ 2 ^ 53 → Money.amountMinorUnits newAmount ≤ 2 ^ 53 →
  _currentPeriodEnd s - _currentPeriodStart s ≤ 2 ^ 53 →
  (Money.same newAmount (_amount s) →
   ∃ o n, 0 ≤ o ≤ Money.amountMinorUnits (_amount s) ∧ 0 ≤ n ≤ Money.amountMinorUnits newAmount
     ∧ computeUpgradeProration newAmount now s
       = Ok (if o <? n then Some (Money.mk (n - o) (Money.currency newAmount) None) else None)
     ∧ computeDowngradeCredit newAmount now s
       = Ok (if n <? o then Some (Money.mk (o - n) (Money.currency (_amount s)) None) else None)
     ∧ (now ≤ _currentPeriodStart s →
        o = Money.amountMinorUnits (_amount s) ∧ n = Money.amountMinorUnits newAmount)
     ∧ (_currentPeriodEnd s ≤ now → o = 0 ∧ n = 0))
  ∧ (¬ Money.same newAmount (_amount s) →
     ∃ a b, computeUpgradeProration newAmount now s = Throw (PlanCurrencyMismatch a b)
          ∧ computeDowngradeCredit newAmount now s = Throw (PlanCurrencyMismatch a b)).
Proof.
  intros Hw Hn Hmax Hnmax Htot. unfold computeUpgradeProration, computeDowngradeCredit, checkPlanCurrency.
  destruct (String.eqb_spec (Currency.code (Money.currency newAmount)) (Currency.code (Money.currency (_amount s))))
    as [Heq|Hne]; cbn [negb throw_if mbind result_bind].
  2: { split; [done|]. intros _. eauto. }
  split; [|done]. intros _.
  destruct (remainingValues_spec newAmount now s) as (o & n & -> & Ho & Hn' & Hstart & Hend); [done..|].
  cbn [mbind result_bind]. exists o, n.
  unfold Money.isGreaterThan. rewrite !assertSameCurrency_same by (unfold Money.same; cbn; congruence).
  cbn [mbind result_bind Money.amountMinorUnits].
  split_and!; [lia..| | |done|done].
  - destruct (Z.ltb_spec o n); [|done]. by rewrite subtract_total by (unfold Money.same; cbn; congruence || lia).
  - destruct (Z.ltb_spec n o); [|done]. by rewrite subtract_total by (unfold Money.same; cbn; congruence || lia).
Qed.

(** A downgrade credit is spent exactly: what a period charges plus the
    credit it consumes is the period's price, the charge is never negative, and
    credit is left over only when the period was free. *)
Theorem credit_conserved (s : t) :
  wf s →
  ∃ due s', amountDueThisPeriod s = Ok due ∧ consumeCredit s = Ok s'
    ∧ Money.amountMinorUnits due + (credit_units s - credit_units s') = Money.amountMinorUnits (_amount s)
    ∧ 0 ≤ Money.amountMinorUnits due ∧ 0 ≤ credit_units s' ≤ credit_units s
    ∧ (0 < credit_units s' → Money.amountMinorUnits due = 0)
    ∧ _amount s' = _amount s ∧ _status s' = _status s ∧ _currentPeriodEnd s' = _currentPeriodEnd s.
Proof.
  intros Hw. destruct (amountDue_spec s Hw) as (due & Ed & _ & _ & Hdue).
  destruct (consumeCredit_spec s Hw) as (s' & Es & _ & Hcr & (o & ->)).
  exists due. eexists. split_and!; [done|exact Es|..]; try (by destruct s).
  all: destruct Hw as [[Ha _] Hc _ _ _ _ _].
  all: assert (0 ≤ credit_units s) by (unfold credit_units; destruct (_pendingCredit s) as [c|];
    [destruct (Hc c eq_refl) as [[? _] _]; done|lia]); lia.
Qed.

(** ** The billing sweep *)

Import SubscriptionService.

Lemma settle_spec now w ex s : wf s →
  ∃ s', settle now w ex s = (recordSuccessfulCharge now s', ex, (λ _, (charged, [])) <$> save w)
    ∧ wf s' ∧ ∃ o, s' = s {{ _pendingCredit := o }}.
Proof.
  intros Hw. destruct (consumeCredit_spec s Hw) as (s' & E & Hw' & _ & Ho). unfold settle. rewrite E. eauto.
Qed.

Lemma settle_wf now w ex s : wf s → wf (settle now w ex s).1.1.
Proof. intros Hw. destruct (settle_spec now w ex s Hw) as (s' & -> & Hw' & _). by apply recordSuccessfulCharge_wf. Qed.

Lemma attempt_wf now w action s : wf s → wf (attempt now w action s).1.1.
Proof.
  intros Hw. destruct action; cbn [attempt]; try by apply finalizeCancellation_wf.
  all: destruct (amountDue_spec s Hw) as (due & -> & _);
    destruct (Money.isZero due); [by apply settle_wf|];
    destruct (w_findById w) as [[[]|]|]; try done; try by apply settle_wf.
  all: destruct (w_execute w due); [|done]; case_bool_decide; [by apply settle_wf|by apply recordFailedCharge_wf].
Qed.

Lemma billOne_wf now w s s' : wf s → b_persisted (billOne now w s) = Some s' → wf s'.
Proof.
  intros Hw. unfold billOne. destruct (dueAction now s) eqn:E; [| |discriminate].
  all: pose proof (attempt_wf now w (dueAction now s) s Hw) as Ha; rewrite E in Ha;
    destruct (attempt _ _ _ _) as [[s1 ex] [[c ev]|]]; cbn [fst snd] in Ha; cbv zeta; cbn [b_persisted];
    [by intros [= <-]|]; destruct (w_saveInCatch w); cbn [b_persisted]; [|discriminate];
    intros [= <-]; by apply recordFailedCharge_wf.
Qed.

(** A plan row the catalogue can hold. *)
Definition plan_ok (p : Plan.t) : Prop := Money.wf (Plan._amount p) ∧ 1 ≤ Plan._intervalCount p.

Lemma computeDowngradeCredit_wf newAmount now s c : wf s → Money.wf newAmount →
  computeDowngradeCredit newAmount now s = Ok (Some c) → Money.wf c ∧ Money.same newAmount c.
Proof.
  intros Hw Hn. unfold computeDowngradeCredit, checkPlanCurrency, remainingValues. cbv zeta. intros H.
  destruct (String.eqb_spec (Currency.code (Money.currency newAmount)) (Currency.code (Money.currency (_amount s))))
    as [Heq|]; [|discriminate]. cbn [negb throw_if mbind result_bind] in H.
  destruct (Money.multiply (_amount s) _) as [o|] eqn:Eo; [|discriminate]. cbn [mbind result_bind] in H.
  destruct (Money.multiply newAmount _) as [n|] eqn:En; [|discriminate]. cbn [mbind result_bind] in H.
  destruct (Money.isGreaterThan o n) as [[]|]; [|discriminate..]. cbn [mbind result_bind] in H.
  destruct (Money.subtract o n) as [r|] eqn:Er; [|discriminate]. injection H as ->.
  apply multiply_wf in Eo as Hwo; [|apply Hw]. split; [by eapply subtract_wf|].
  apply subtract_ok in Er as (_ & _ & ->). unfold Money.multiply in Eo.
  apply bind_ok_iff in Eo as (x & _ & (_ & ->)%make_ok). done.
Qed.

Lemma changePlan_wf now ex plan s s' pr cr : wf s → (∀ p, plan = Some p → plan_ok p) →
  changePlan now ex plan s = Ok (s', pr, cr) → wf s'.
Proof.
  intros Hw Hplan. unfold changePlan. case_bool_decide as Hact; [|discriminate]. cbn [negb throw_if mbind result_bind].
  unfold Plan.getUsablePlanOrThrow. destruct plan as [p|]; [|discriminate]. destruct (Hplan p eq_refl) as [Hpa Hpc].
  destruct (String.eqb _ _); [|discriminate]. destruct (Plan._isActive p); [|discriminate].
  cbn [negb mbind result_bind].
  destruct (computeUpgradeProration (Plan._amount p) now s) as [o|] eqn:Eu; [|discriminate].
  assert (Money.same (Plan._amount p) (_amount s)) as Hsame.
  { unfold computeUpgradeProration, checkPlanCurrency in Eu. unfold Money.same.
    destruct (String.eqb_spec (Currency.code (Money.currency (Plan._amount p)))
      (Currency.code (Money.currency (_amount s)))); [done|discriminate]. }
  assert (wf (applyPlanChange (Plan._id p) (Plan._amount p) (Plan._interval p) (Plan._intervalCount p) now s)) as Hw'.
  { destruct Hw as [Ha Hcr Hc Hp Hf Hcur Hpd]. fields s. split; cbn; try done.
    intros c Hc'. destruct (Hcr c Hc') as [? Hs]. split; [done|]. unfold Money.same in *. congruence. }
  destruct o as [amt|]; cbn [mbind result_bind].
  - destruct (ex amt) as [r|]; [|discriminate]. cbn [mbind result_bind].
    case_bool_decide; [|discriminate]. cbn. by intros [= <- _ _].
  - destruct (computeDowngradeCredit (Plan._amount p) now s) as [[c|]|] eqn:Ed; [| |discriminate];
      cbn [mbind result_bind]; [|by intros [= <- _ _]].
    destruct (computeDowngradeCredit_wf _ _ _ _ Hw Hpa Ed) as [Hcw Hcs].
    intros H. apply bind_ok_iff in H as (s1 & Es & [= <- _ _]). revert Es.
    unfold applyDowngradeCredit. destruct Hw' as [Ha Hcr Hc Hp Hf Hcur Hpd].
    set (s0 := applyPlanChange _ _ _ _ _ _) in *.
    assert (_amount s0 = Plan._amount p) as Ea by (subst s0; by destruct s).
    clearbody s0. destruct (_pendingCredit s0) as [pc|] eqn:Ep.
    + intros (tot & Et & [= <-])%bind_ok_iff. destruct (Hcr pc eq_refl) as [Hpw Hps].
      apply add_wf in Et as Htw; [|done]. apply add_ok in Et as (_ & _ & Et).
      fields s0. split; cbn; try done. intros c' [= <-]. split; [done|]. by rewrite Et.
    + intros [= <-]. fields s0. split; cbn; try done. intros c' [= <-]. split; [done|]. by rewrite Ea.
Qed.

(** How a stored subscription evolves. *)
Inductive step : t → t → Prop :=
  | step_bill now w s s' : b_persisted (billOne now w s) = Some s' → step s s'
  | step_change now ex plan s s' pr cr :
      (∀ p, plan = Some p → plan_ok p) → changePlan now ex plan s = Ok (s', pr, cr) → step s s'
  | step_cancel now atEnd s : step s (cancel now atEnd s).1.

(** A subscription as it is first stored. *)
Definition initial (s : t) : Prop :=
  ∃ now id mid cid amount i c pm o d p, Money.wf amount ∧ 1 ≤ c
    ∧ (s = startActive now id mid cid amount i c pm o d p
       ∨ ∃ days, 1 ≤ days ∧ s = startTrial now id mid cid amount i c pm days o d p).

Lemma initial_wf s : initial s → wf s.
Proof.
  intros (now & id & mid & cid & amount & i & c & pm & o & d & p & Ha & Hc & [->|(days & Hd & ->)]);
    (split; cbn; try done; try lia).
  by apply addBillingInterval_later.
Qed.

Lemma step_wf : invariant step wf.
Proof.
  intros s s' Hstep Hw. destruct Hstep as [now w s s' H|now ex plan s s' pr cr Hp H|now atEnd s].
  - by eapply billOne_wf.
  - by eapply changePlan_wf.
  - by apply requestCancellation_wf.
Qed.

(** Every subscription the service can store is well formed, whatever the
    saga answers and whichever saves fail: its period is not empty, an active or
    trialing one has no failed attempt and no retry scheduled, and a past-due one
    has between one and three failed attempts, a retry date, and no hard decline. *)
Theorem stored_subscription_wf (s0 s : t) : initial s0 → rtc step s0 s → wf s.
Proof. intros Hi%initial_wf Hr. by eapply invariant_rtc; [apply step_wf| |]. Qed.

Lemma stored_subscription_wf_witness :
  wf (startTrial 0 "sub_1" "m_1" "c_1" (usd 2900) month 1 "pm_1" 14 None None None).
Proof.
  apply (stored_subscription_wf (startTrial 0 "sub_1" "m_1" "c_1" (usd 2900) month 1 "pm_1" 14 None None None)).
  - exists 0, "sub_1"%string, "m_1"%string, "c_1"%string, (usd 2900), month, 1, "pm_1"%string, None, None, None.
    split_and!; [by apply usd_wf|lia|]. right. by exists 14.
  - apply rtc_refl.
Defined.

(** The three ways a due period is paid: nothing is owed, the period's payment
    already succeeded, or the saga charges it now. *)
Definition paid (w : World) (due : Money.t) : Prop :=
  Money.isZero due = true ∨ w_findById w = Ok (Some SUCCEEDED)
  ∨ ∃ o r, w_findById w = Ok o ∧ w_execute w due = Ok r ∧ so_status r = SUCCEEDED.

(** The charging attempt, with the payment lookup as one test. *)
Lemma attempt_charge now w s due : amountDueThisPeriod s = Ok due →
  attempt now w CHARGE s =
  if Money.isZero due then settle now w None s
  else match w_findById w with
  | Throw e => (s, None, Throw e)
  | Ok o =>
      if decide (o = Some SUCCEEDED) then settle now w None s
      else match w_execute w due with
      | Throw e => (s, Some due, Throw e)
      | Ok r =>
          if decide (so_status r = SUCCEEDED) then settle now w (Some due) s
          else
            let s := recordFailedCharge now MAX_DUNNING_ATTEMPTS (so_errorCode r) (so_pspProvider r) s in
            (s, Some due,
             (λ _, (failed,
                [if bool_decide (_status s = CANCELED)
                 then emitCanceledEvent s (if canceledByHardDecline s then hard_decline else dunning_exhausted)
                 else emitPastDueEvent s])) <$> save w)
      end
  end.
Proof.
  intros E. unfold attempt. rewrite E. destruct (Money.isZero due); [done|].
  destruct (w_findById w) as [[[]|]|]; try done;
    (rewrite decide_False by done; destruct (w_execute w due) as [r|]; [|done];
     destruct (decide (so_status r = SUCCEEDED)); [by rewrite bool_decide_true|by rewrite bool_decide_false]).
Qed.

(** A settled period, once saved. *)
Definition advanced (s s' : t) : Prop :=
  _status s' = ACTIVE ∧ _failedAttempts s' = 0 ∧ _currentPeriodStart s' = _currentPeriodEnd s
  ∧ _currentPeriodEnd s' = addBillingInterval (_currentPeriodEnd s) (_interval s) (_intervalCount s).

Lemma settle_saved now w ex s : wf s → w_save w = true →
  ∃ s', settle now w ex s = (s', ex, Ok (charged, [])) ∧ advanced s s' ∧ credit_units s' = Z.max 0 (credit_units s - Money.amountMinorUnits (_amount s)).
Proof.
  intros Hw Hsave. destruct (consumeCredit_spec s Hw) as (s' & E & _ & Hc & (o & Ho)). unfold settle, save. rewrite E, Hsave. cbn [fmap result_fmap].
  eexists. split; [reflexivity|]. subst s'. destruct s. split; [done|exact Hc].
Qed.

(** A period that stays open after a failed attempt. *)
Definition dunned (s s' : t) : Prop :=
  (_status s' = PAST_DUE ∨ _status s' = CANCELED) ∧ _failedAttempts s' = _failedAttempts s + 1
  ∧ _currentPeriodStart s' = _currentPeriodStart s ∧ _currentPeriodEnd s' = _currentPeriodEnd s ∧ _pendingCredit s' = _pendingCredit s.

Lemma failed_dunned now maxAttempts code psp s : dunned s (recordFailedCharge now maxAttempts code psp s).
Proof. unfold recordFailedCharge. destruct s. cbn. destruct (_ || _); unfold dunned; cbn; split_and!; auto. Qed.

(** When a subscription is to be charged: it runs, its period is over, it does not end with
    the period, and no retry is scheduled for later. *)
Record chargeable (now : Date) (s : t) : Prop := {
  cg_running : _status s ≠ CANCELED;
  cg_over : _currentPeriodEnd s ≤ now;
  cg_stays : _cancelAtPeriodEnd s = false;
  cg_retry r : _status s = PAST_DUE → _nextRetryAt s = Some r → r ≤ now }.

Lemma dueAction_charge now s : chargeable now s → dueAction now s = CHARGE.
Proof.
  intros [H1 H2 H3 H4]. unfold dueAction. rewrite bool_decide_eq_false_2, H3 by done. destruct (Z.ltb_spec now (_currentPeriodEnd s)); [lia|].
  case_bool_decide as Hp; [|done]. destruct (_nextRetryAt s) as [r|]; [|done]. specialize (H4 r Hp eq_refl). by destruct (Z.ltb_spec now r); [lia|].
Qed.

Lemma dueAction_none now s : _status s = CANCELED ∨ now < _currentPeriodEnd s
  ∨ (_cancelAtPeriodEnd s = false ∧ _status s = PAST_DUE ∧ ∃ r, _nextRetryAt s = Some r ∧ now < r) → dueAction now s = NONE.
Proof.
  unfold dueAction. case_bool_decide; [done|]. destruct (Z.ltb_spec now (_currentPeriodEnd s)); [done|]. intros [?|[?|(-> & Hp & r & -> & Hr)]]; [done|lia|].
  rewrite bool_decide_eq_true_2 by done. by rewrite (proj2 (Z.ltb_lt _ _) Hr).
Qed.

(** The charge of a due period: the request, and what becomes of the subscription. *)
Lemma charge_exact now w s due : wf s → w_save w = true → w_saveInCatch w = true → dueAction now s = CHARGE → amountDueThisPeriod s = Ok due →
  (∀ m, b_executed (billOne now w s) = Some m ↔ m = due ∧ Money.isZero due = false ∧ ∃ o, w_findById w = Ok o ∧ o ≠ Some SUCCEEDED)
  ∧ ∃ s', b_persisted (billOne now w s) = Some s'
    ∧ (paid w due → b_counted (billOne now w s) = charged ∧ advanced s s'
         ∧ credit_units s' = Z.max 0 (credit_units s - Money.amountMinorUnits (_amount s)))
    ∧ (¬ paid w due → b_counted (billOne now w s) = failed ∧ dunned s s').
Proof.
  intros Hw Hsave Hcatch Hdue Ed. unfold billOne. rewrite Hdue, (attempt_charge _ _ _ _ Ed), Hcatch. unfold paid.
  destruct (Money.isZero due) eqn:Hz.
  { destruct (settle_saved now w None s Hw Hsave) as (s' & -> & H & Hc). cbn [fmap result_fmap b_executed b_persisted b_counted]. split; [split; [done|naive_solver]|]. exists s'. split_and!; [done|done|naive_solver]. }
  destruct (w_findById w) as [o|e] eqn:Ef.
  2: { cbn [fmap result_fmap b_executed b_persisted b_counted]. split; [split; [done|naive_solver]|]. eexists. split_and!; [done|naive_solver|]. intros _. split; [done|apply failed_dunned]. }
  case_decide as Ho.
  { subst o. destruct (settle_saved now w None s Hw Hsave) as (s' & -> & H & Hc). cbn [fmap result_fmap b_executed b_persisted b_counted]. split; [split; [done|naive_solver]|]. exists s'. split_and!; [done|done|naive_solver]. }
  destruct (w_execute w due) as [r|] eqn:Ee; [case_decide as Hr|].
  - destruct (settle_saved now w (Some due) s Hw Hsave) as (s' & -> & H & Hc). cbn [fmap result_fmap b_executed b_persisted b_counted]. split; [naive_solver|]. exists s'. split_and!; [done|done|]. intros []. eauto 8.
  - unfold save. rewrite Hsave. cbn [fmap result_fmap b_executed b_persisted b_counted]. split; [naive_solver|]. eexists. split_and!; [done|naive_solver|]. intros _. split; [done|apply failed_dunned].
  - cbn [fmap result_fmap b_executed b_persisted b_counted]. split; [naive_solver|]. eexists. split_and!; [done|naive_solver|]. intros _. split; [done|apply failed_dunned].
Qed.

(** C18: the billing sweep on one subscription whose row can be saved. It is left alone once
    canceled, before its period is over, and until a scheduled retry; if it was to end with
    its period it ends without a charge. Otherwise the saga is called for exactly the price
    less the credit, once, and not at all when that is nothing, when the payment of the
    period already succeeded, or when it cannot be looked up. A paid period advances by
    exactly one interval from its scheduled end and uses up the credit it was paid with; an
    unpaid one stays open with one more failed attempt and its credit. *)
Theorem sweep_exact (now : Date) (w : World) (s : t) :
  wf s → w_save w = true → w_saveInCatch w = true →
  let b := billOne now w s in
  (_status s = CANCELED ∨ now < _currentPeriodEnd s
     ∨ (_cancelAtPeriodEnd s = false ∧ _status s = PAST_DUE ∧ ∃ r, _nextRetryAt s = Some r ∧ now < r) → b = mkBilled s None None skipped [])
  ∧ (_status s ≠ CANCELED → _currentPeriodEnd s ≤ now → _cancelAtPeriodEnd s = true →
     b_executed b = None ∧ b_counted b = canceled ∧ ∃ s', b_persisted b = Some s' ∧ _status s' = CANCELED ∧ _canceledAt s' = Some now)
  ∧ (chargeable now s →
     ∃ due, Money.currency due = Money.currency (_amount s)
       ∧ Money.amountMinorUnits due = Z.max 0 (Money.amountMinorUnits (_amount s) - credit_units s)
       ∧ (∀ m, b_executed b = Some m ↔ m = due ∧ 0 < Money.amountMinorUnits due ∧ ∃ o, w_findById w = Ok o ∧ o ≠ Some SUCCEEDED)
       ∧ ∃ s', b_persisted b = Some s'
         ∧ (paid w due → b_counted b = charged ∧ advanced s s' ∧ credit_units s' = Z.max 0 (credit_units s - Money.amountMinorUnits (_amount s)))
         ∧ (¬ paid w due → b_counted b = failed ∧ dunned s s')).
Proof.
  intros Hw Hsave Hcatch b. split; [|split].
  - intros H. unfold b, billOne. by rewrite (dueAction_none _ _ H).
  - intros H1 H2 H3. unfold b, billOne, dueAction. rewrite bool_decide_eq_false_2, H3 by done. destruct (Z.ltb_spec now (_currentPeriodEnd s)); [lia|].
    unfold attempt, save. rewrite Hsave. cbn. split_and!; [done..|]. eexists. split; [done|]. by destruct s.
  - intros Hc. destruct (amountDue_spec s Hw) as (due & Ed & [H0 _] & Hcur & Hunits). exists due. split_and!; [done|done| |].
    + destruct (charge_exact now w s due Hw Hsave Hcatch (dueAction_charge _ _ Hc) Ed) as [He _]. intros m. unfold b. rewrite He.
      unfold Money.isZero. rewrite Z.eqb_neq. split; intros (? & ? & ?); split_and!; try done; lia.
    + by destruct (charge_exact now w s due Hw Hsave Hcatch (dueAction_charge _ _ Hc) Ed) as [_ Hs].
Qed.

(** ** Dunning *)

(** A world where no charge of the period succeeds but the database works. *)
Record failing (w : World) : Prop := {
  fl_save : w_save w = true ∧ w_saveInCatch w = true;
  fl_find : ∃ o, w_findById w = Ok o ∧ o ≠ Some SUCCEEDED;
  fl_execute m r : w_execute w m = Ok r → so_status r ≠ SUCCEEDED }.

(** Something is owed every period. *)
Definition owing (s : t) : Prop := 0 < Money.amountMinorUnits (_amount s) ∧ credit_units s = 0.

(** One sweep of a failing charge. *)
Lemma failing_charge now w s : wf s → owing s → failing w → dueAction now s = CHARGE →
  ∃ code p due, b_executed (billOne now w s) = Some due
    ∧ b_persisted (billOne now w s) = Some (recordFailedCharge now MAX_DUNNING_ATTEMPTS code p s).
Proof.
  intros Hw [Hpos Hcr] [[Hs1 Hs2] (o & Ef & Ho) Hex] Hdue. unfold billOne. rewrite Hdue.
  destruct (amountDue_spec s Hw) as (due & Ed & _ & _ & Hdue'). rewrite Hcr in Hdue'.
  rewrite (attempt_charge _ _ _ _ Ed), Ef, decide_False by done.
  replace (Money.isZero due) with false by (symmetry; apply Z.eqb_neq; lia).
  destruct (w_execute w due) as [r|] eqn:Ee.
  - rewrite decide_False by (by eapply Hex). cbv zeta. unfold save. rewrite Hs1. cbn [fmap result_fmap]. eauto.
  - cbv zeta. rewrite Hs2. eauto.
Qed.

Lemma dueAction_canceled now s : _status s = CANCELED → dueAction now s = NONE.
Proof. intros E. unfold dueAction. by rewrite bool_decide_true. Qed.

Lemma recordFailedCharge_owing now max code p s : owing s → owing (recordFailedCharge now max code p s).
Proof.
  unfold owing, credit_units.
  destruct (recordFailedCharge_cases now max code p s) as (_ & _ & _ & _ & _ & _ & -> & -> & _). done.
Qed.

(** A run of sweeps over one stored subscription: how often the saga is called. *)
Fixpoint sweeps (l : list (Date * World)) (s : t) : Z * t :=
  match l with
  | [] => (0, s)
  | (now, w) :: l =>
      let b := billOne now w s in
      let '(n, s') := sweeps l (nullish (b_persisted b) s) in
      ((if isSome (b_executed b) then 1 else 0) + n, s')
  end.

Lemma sweeps_canceled l s : _status s = CANCELED → sweeps l s = (0, s).
Proof.
  intros E. induction l as [|[now w] l IH]; cbn [sweeps]; [done|].
  unfold billOne. rewrite dueAction_canceled by done. cbn [b_persisted b_executed nullish isSome]. by rewrite IH.
Qed.

Lemma attempts_left s : wf s → _status s ≠ CANCELED → 0 ≤ _failedAttempts s < MAX_DUNNING_ATTEMPTS.
Proof.
  intros [_ _ _ _ _ Hcur Hpd] Hst. unfold MAX_DUNNING_ATTEMPTS in *. destruct (_status s) eqn:E.
  - destruct (Hcur (or_intror eq_refl)) as [-> _]. lia.
  - destruct (Hcur (or_introl eq_refl)) as [-> _]. lia.
  - destruct (Hpd eq_refl). lia.
  - done.
Qed.

Lemma sweeps_bound l s : wf s → owing s → Forall (λ x, failing x.2) l → _status s ≠ CANCELED →
  let r := sweeps l s in
  0 ≤ r.1 ≤ MAX_DUNNING_ATTEMPTS - _failedAttempts s
  ∧ (r.1 = MAX_DUNNING_ATTEMPTS - _failedAttempts s → _status r.2 = CANCELED).
Proof.
  intros Hw Ho Hl. revert s Hw Ho. induction Hl as [|[now w] l Hf Hl IH]; intros s Hw Ho Hst;
    pose proof (attempts_left s Hw Hst) as Hleft.
  { cbn. split; lia. }
  cbn [sweeps fst snd] in *. destruct (dueAction now s) eqn:Ed.
  - destruct (failing_charge now w s Hw Ho Hf Ed) as (code & p & due & -> & ->). cbn [nullish isSome].
    set (s' := recordFailedCharge _ _ _ _ _).
    assert (_failedAttempts s' = _failedAttempts s + 1) as Hfa by apply recordFailedCharge_cases.
    destruct (decide (_status s' = CANCELED)) as [Hc|Hc].
    + rewrite sweeps_canceled by done. cbn [fst snd]. split; [lia|done].
    + specialize (IH s' (recordFailedCharge_wf _ _ _ _ Hw) (recordFailedCharge_owing _ _ _ _ _ Ho) Hc).
      destruct (sweeps l s') as [n s'']. cbn [fst snd] in *. rewrite Hfa in IH.
      destruct IH as [IH1 IH2]. split; [lia|]. intros. apply IH2. lia.
  - unfold billOne. rewrite Ed. cbn [attempt]. unfold save. rewrite (proj1 (fl_save w Hf)).
    cbn [fmap result_fmap b_persisted b_executed nullish isSome].
    rewrite sweeps_canceled by by destruct s. cbn [fst snd]. split; [lia|]. intros _. by destruct s.
  - unfold billOne. rewrite Ed. cbn [b_persisted b_executed nullish isSome].
    specialize (IH s Hw Ho Hst). destruct (sweeps l s) as [n s'']. cbn [fst snd] in *.
    destruct IH as [IH1 IH2]. split; [lia|]. intros. apply IH2. lia.
Qed.

(** Dunning ends: while the charges of a period keep failing, however the
    sweeps are scheduled, the saga is called at most four times in all (four
    less the attempts already made), and when that many were made the
    subscription is canceled. *)
Theorem dunning_bounded (s : t) (l : list (Date * World)) :
  wf s → owing s → Forall (λ x, failing x.2) l → _status s ≠ CANCELED →
  0 ≤ (sweeps l s).1 ≤ 4 - _failedAttempts s
  ∧ ((sweeps l s).1 = 4 - _failedAttempts s → _status (sweeps l s).2 = CANCELED).
Proof. apply sweeps_bound. Qed.

(** Retries are spaced: after the first, second and third failure of a
    period the next charge is attempted no sooner than one, three and seven days
    later; a hard decline cancels at once and is never retried. *)
Theorem dunning_spaced (now later : Date) (code : option string) (p : option PSPProvider) (s : t) :
  wf s → _status s ≠ CANCELED →
  let s' := recordFailedCharge now MAX_DUNNING_ATTEMPTS code p s in
  (Decline.classifyDeclineCode code p = Decline.HARD_DECLINE →
     _status s' = CANCELED ∧ dueAction later s' = NONE ∧ canceledByHardDecline s' = true)
  ∧ (dueAction later s' = CHARGE →
     now + (if _failedAttempts s =? 0 then 1 else if _failedAttempts s =? 1 then 3 else 7) * dayMs ≤ later).
Proof.
  intros Hw Hst s'. pose proof (attempts_left s Hw Hst) as Hleft.
  destruct (recordFailedCharge_cases now MAX_DUNNING_ATTEMPTS code p s)
    as (_ & Hc1 & Hc2 & _ & _ & _ & _ & _ & _ & Hcase). fold s' in Hc1, Hc2, Hcase. clearbody s'. split.
  - intros Hh. destruct Hcase as [(_ & Hcan & _)|(Hr & _)]; [|congruence].
    split_and!; [done|by apply dueAction_canceled|]. unfold canceledByHardDecline. rewrite Hc1, Hc2.
    by rewrite !bool_decide_true.
  - destruct Hcase as [(_ & Hcan & _)|(_ & Hlt & Hpd & Hnext)]; [by rewrite dueAction_canceled|].
    unfold dueAction. rewrite Hpd, Hnext, bool_decide_false, bool_decide_true by done. cbn [andb].
    destruct (later <? _currentPeriodEnd s'); [done|].
    destruct (_cancelAtPeriodEnd s'); [done|]. destruct (Z.ltb_spec later (now + retryDelayDays (_failedAttempts s + 1) * dayMs));
      [done|]. intros _. unfold MAX_DUNNING_ATTEMPTS in Hlt.
    assert (_failedAttempts s = 0 ∨ _failedAttempts s = 1 ∨ _failedAttempts s = 2) as [E|[E|E]] by lia;
      rewrite E in *; exact H.
Qed.

(** ** Examples *)

Definition sample_sub : t := startActive 0 "sub_1" "m_1" "c_1" (usd 2900) month 1 "pm_1" None None None.

Lemma sample_sub_wf : wf sample_sub.
Proof.
  apply initial_wf. exists 0, "sub_1"%string, "m_1"%string, "c_1"%string, (usd 2900), month, 1, "pm_1"%string, None, None, None.
  split_and!; [by apply usd_wf|lia|by left].
Qed.

(** The saga declines; the database works. *)
Definition declining : World :=
  mkWorld (Ok None) (λ _, Ok (mkSagaOutcome FAILED (Some "insufficient_funds"%string) (Some STRIPE))) true true.

Lemma declining_fails : failing declining.
Proof. split; cbn; [done|by exists None|by intros _ r [= <-]]. Qed.

Lemma dunning_bounded_witness :
  (sweeps [(40 * dayMs, declining); (41 * dayMs, declining); (44 * dayMs, declining); (51 * dayMs, declining);
           (52 * dayMs, declining)] sample_sub).1 ≤ 4.
Proof.
  apply (dunning_bounded sample_sub).
  - apply sample_sub_wf.
  - split; [cbn; lia|reflexivity].
  - repeat (apply Forall_cons; split; [apply declining_fails|]). apply Forall_nil_2.
  - discriminate.
Defined.

Lemma dunning_spaced_witness :
  _status (recordFailedCharge 0 MAX_DUNNING_ATTEMPTS (Some "stolen_card"%string) (Some STRIPE) sample_sub) = CANCELED.
Proof.
  destruct (dunning_spaced 0 0 (Some "stolen_card"%string) (Some STRIPE) sample_sub) as [H _].
  - apply sample_sub_wf.
  - discriminate.
  - apply H. reflexivity.
Defined.

Lemma sweep_exact_witness : ∃ s',
  b_executed (billOne (40 * dayMs) declining sample_sub) = Some (usd 2900)
  ∧ b_persisted (billOne (40 * dayMs) declining sample_sub) = Some s' ∧ dunned sample_sub s'.
Proof.
  destruct (sweep_exact (40 * dayMs) declining sample_sub sample_sub_wf eq_refl eq_refl) as (_ & _ & H).
  destruct H as (due & Hcur & Hunits & Hex & s' & Hp & _ & Hfail).
  - split; [discriminate|vm_compute; discriminate|reflexivity|discriminate].
  - exists s'. split_and!; [vm_compute; reflexivity|exact Hp|]. apply Hfail. intros [Hz|[Hf|(o & r & Hf & He & Hr)]].
    + unfold Money.isZero in Hz. rewrite Hunits in Hz. vm_compute in Hz. discriminate Hz.
    + discriminate Hf.
    + injection He as <-. discriminate Hr.
Defined.

Lemma proration_exact_witness :
  computeUpgradeProration (usd 4900) 0 sample_sub = Ok (Some (usd 2000)).
Proof.
  destruct (proration_exact (usd 4900) 0 sample_sub) as [H _];
    [apply sample_sub_wf|by apply usd_wf|cbn; lia|cbn; lia|vm_compute; discriminate|].
  destruct H as (o & n & _ & _ & E & _ & Hstart & _); [reflexivity|].
  destruct Hstart as [-> ->]; [vm_compute; discriminate|]. exact E.
Defined.

Lemma credit_conserved_witness :
  ∃ due s', amountDueThisPeriod sample_sub = Ok due ∧ consumeCredit sample_sub = Ok s'
    ∧ Money.amountMinorUnits due + (credit_units sample_sub - credit_units s') = 2900.
Proof.
  destruct (credit_conserved sample_sub sample_sub_wf) as (due & s' & E1 & E2 & E3 & _).
  exists due, s'. split_and!; [exact E1|exact E2|exact E3].
Defined.

(** A defect of the sweep's error path: when the charge succeeds and only
    the save that follows fails, the handler records a failed charge on the
    subscription it has already advanced. What it stores is a paid period marked
    past due, with one failed attempt and a past-due event. *)
Theorem paid_period_marked_past_due :
  ∃ now w s, wf s ∧ b_executed (billOne now w s) = Some (_amount s)
    ∧ w_execute w (_amount s) = Ok (mkSagaOutcome SUCCEEDED None (Some STRIPE))
    ∧ ∃ s', b_persisted (billOne now w s) = Some s' ∧ b_counted (billOne now w s) = failed
      ∧ _status s' = PAST_DUE ∧ _failedAttempts s' = 1 ∧ _currentPeriodStart s' = _currentPeriodEnd s.
Proof.
  exists (40 * dayMs), (mkWorld (Ok None) (λ _, Ok (mkSagaOutcome SUCCEEDED None (Some STRIPE))) false true), sample_sub.
  split_and!; [apply sample_sub_wf|by vm_compute|reflexivity|].
  eexists. split_and!; [by vm_compute|by vm_compute..].
Qed.
