(* ===== verification/Payout.v ===== *)
(** * Payouts and reserves

    [payout.aggregate.ts], [payout-sweep-run.aggregate.ts],
    [payout.service.ts] with the conditional updates of
    [payout-typeorm.repository.ts], [reserve-hold.aggregate.ts] and
    [reserve.service.ts]. A row of the database is the aggregate itself; a
    conditional [UPDATE ... WHERE] is a function on the row that also says
    whether it matched. *)

From S2P Require Import Prelude JsNumber Money Policies Merchant Ledger.

Inductive PayoutTransferStatus := NOT_INITIATED | PENDING_CONFIRMATION | INITIATED | TRANSFER_FAILED.

#[global] Instance PayoutTransferStatus_eq_dec : EqDecision PayoutTransferStatus.
Proof. solve_decision. Defined.

Inductive PayoutReserveStatus := RESERVE_NONE | RESERVE_HELD | RESERVE_RELEASED.

Module Payout.

Record t := mk {
  _id : string;
  _merchantId : string;
  _sweepRunId : string;
  _grossAmount : Money.t;
  _reserveAmount : Money.t;
  _netAmount : Money.t;
  _releaseEligibleAt : option Date;
  _reserveReleased : bool;
  _reserveReleasedAt : option Date;
  _createdAt : Date;
  _kycBlocked : bool;
  _kycClearedAt : option Date;
  _transferStatus : PayoutTransferStatus;
  _transferId : option string;
  _transferInitiatedAt : option Date;
  _transferError : option string;
  _reserveTransferStatus : PayoutTransferStatus;
  _reserveTransferId : option string;
  _reserveTransferInitiatedAt : option Date;
  _reserveTransferError : option string;
  _transferRail : option PayoutRail;
  _instantFeeAmount : option Money.t }.

Definition create (now : Date) (id merchantId sweepRunId : string) (grossAmount : Money.t)
    (reserveBps reserveHoldDays : Z) (kycVerified : bool) : result t :=
  reserveAmount ←
    (if 0 <? reserveBps then Money.multiply grossAmount (bps_factor reserveBps)
     else Money.zero (Currency.code (Money.currency grossAmount)));
  netAmount ← Money.subtract grossAmount reserveAmount;
  let releaseEligibleAt :=
    if Money.isZero reserveAmount then None
    else Some (now + reserveHoldDays * 24 * 60 * 60 * 1000) in
  Ok (mk id merchantId sweepRunId grossAmount reserveAmount netAmount releaseEligibleAt false None now
        (negb kycVerified) None NOT_INITIATED None None None NOT_INITIATED None None None None None).

Definition reconstitute (id merchantId sweepRunId : string) (grossAmount reserveAmount netAmount : Money.t)
    (releaseEligibleAt : option Date) (reserveReleased : bool) (reserveReleasedAt : option Date)
    (createdAt : Date) (kycBlocked : bool) (kycClearedAt : option Date)
    (transferStatus : PayoutTransferStatus) (transferId : option string) (transferInitiatedAt : option Date)
    (transferError : option string) (reserveTransferStatus : PayoutTransferStatus)
    (reserveTransferId : option string) (reserveTransferInitiatedAt : option Date)
    (reserveTransferError : option string) (transferRail : option PayoutRail)
    (instantFeeAmount : option Money.t) : t :=
  mk id merchantId sweepRunId grossAmount reserveAmount netAmount releaseEligibleAt reserveReleased
    reserveReleasedAt createdAt kycBlocked kycClearedAt transferStatus transferId transferInitiatedAt
    transferError reserveTransferStatus reserveTransferId reserveTransferInitiatedAt reserveTransferError
    transferRail instantFeeAmount.

(** [eligibleAt && now < eligibleAt] *)
Definition notYet (now : Date) (eligibleAt : option Date) : bool :=
  match eligibleAt with Some d => now <? d | None => false end.

Definition releaseReserve (now : Date) (force : bool) (p : t) : result t :=
  _ ← throw_if (Money.isZero (_reserveAmount p)) (Refused "releaseReserve" "no reserve");
  _ ← throw_if (_reserveReleased p) (Refused "releaseReserve" "already released");
  _ ← throw_if (negb force && notYet now (_releaseEligibleAt p)) (Refused "releaseReserve" "not yet eligible");
  Ok (p {{ _reserveReleased := true; _reserveReleasedAt := Some now }}).

Definition clearKycBlock (now : Date) (p : t) : result t :=
  _ ← throw_if (negb (_kycBlocked p)) (Refused "clearKycBlock" "not blocked");
  Ok (p {{ _kycBlocked := false; _kycClearedAt := Some now }}).

(** [if (rail) this._transferRail = rail] *)
Definition keep {A} (o previous : option A) : option A := match o with Some _ => o | None => previous end.

Definition assertTransferable (p : t) : result unit :=
  _ ← throw_if (_kycBlocked p) (Refused "transfer" "KYC-blocked");
  throw_if (Money.isZero (_netAmount p)) (Refused "transfer" "no net amount").

Definition recordTransferPending (transferId : string) (now : Date) (rail : option PayoutRail)
    (instantFeeAmount : option Money.t) (p : t) : result t :=
  _ ← assertTransferable p;
  _ ← throw_if (bool_decide (_transferStatus p = INITIATED) || bool_decide (_transferStatus p = PENDING_CONFIRMATION))
        (Refused "transfer" "already submitted");
  Ok (p {{ _transferStatus := PENDING_CONFIRMATION; _transferId := Some transferId;
           _transferInitiatedAt := Some now; _transferError := None;
           _transferRail := keep rail (_transferRail p);
           _instantFeeAmount := keep instantFeeAmount (_instantFeeAmount p) }}).

Definition recordTransferInitiated (transferId : string) (now : Date) (rail : option PayoutRail)
    (instantFeeAmount : option Money.t) (p : t) : result t :=
  _ ← assertTransferable p;
  _ ← throw_if (bool_decide (_transferStatus p = INITIATED)) (Refused "transfer" "already initiated");
  Ok (p {{ _transferStatus := INITIATED; _transferId := Some transferId;
           _transferInitiatedAt := Some now; _transferError := None;
           _transferRail := keep rail (_transferRail p);
           _instantFeeAmount := keep instantFeeAmount (_instantFeeAmount p) }}).

Definition recordTransferFailed (error : string) (p : t) : t :=
  p {{ _transferStatus := TRANSFER_FAILED; _transferError := Some error }}.

Definition assertReserveTransferable (p : t) : result unit :=
  _ ← throw_if (_kycBlocked p) (Refused "reserve transfer" "KYC-blocked");
  _ ← throw_if (Money.isZero (_reserveAmount p)) (Refused "reserve transfer" "no reserve");
  throw_if (negb (_reserveReleased p)) (Refused "reserve transfer" "not released").

Definition recordReserveTransferPending (transferId : string) (now : Date) (p : t) : result t :=
  _ ← assertReserveTransferable p;
  _ ← throw_if (bool_decide (_reserveTransferStatus p = INITIATED)
                || bool_decide (_reserveTransferStatus p = PENDING_CONFIRMATION))
        (Refused "reserve transfer" "already submitted");
  Ok (p {{ _reserveTransferStatus := PENDING_CONFIRMATION; _reserveTransferId := Some transferId;
           _reserveTransferInitiatedAt := Some now; _reserveTransferError := None }}).

Definition recordReserveTransferInitiated (transferId : string) (now : Date) (p : t) : result t :=
  _ ← assertReserveTransferable p;
  _ ← throw_if (bool_decide (_reserveTransferStatus p = INITIATED)) (Refused "reserve transfer" "already initiated");
  Ok (p {{ _reserveTransferStatus := INITIATED; _reserveTransferId := Some transferId;
           _reserveTransferInitiatedAt := Some now; _reserveTransferError := None }}).

Definition recordReserveTransferFailed (error : string) (p : t) : t :=
  p {{ _reserveTransferStatus := TRANSFER_FAILED; _reserveTransferError := Some error }}.

Definition reserveStatus (p : t) : PayoutReserveStatus :=
  if Money.isZero (_reserveAmount p) then RESERVE_NONE
  else if _reserveReleased p then RESERVE_RELEASED else RESERVE_HELD.

End Payout.

(** ** The repository's conditional updates *)

Module PayoutRepository.
Import Payout.

Definition markReserveReleased (releasedAt : Date) (row : t) : bool * t :=
  if _reserveReleased row then (false, row)
  else (true, row {{ _reserveReleased := true; _reserveReleasedAt := Some releasedAt }}).

Definition markKycCleared (clearedAt : Date) (row : t) : bool * t :=
  if _kycBlocked row then (true, row {{ _kycBlocked := false; _kycClearedAt := Some clearedAt }})
  else (false, row).

Definition markTransferPending (transferId : string) (submittedAt : Date) (rail : option PayoutRail)
    (instantFeeAmount : option Money.t) (row : t) : bool * t :=
  if bool_decide (_transferStatus row = INITIATED) || bool_decide (_transferStatus row = PENDING_CONFIRMATION)
  then (false, row)
  else (true, row {{ _transferStatus := PENDING_CONFIRMATION; _transferId := Some transferId;
                     _transferInitiatedAt := Some submittedAt; _transferError := None;
                     _transferRail := keep rail (_transferRail row);
                     _instantFeeAmount := keep instantFeeAmount (_instantFeeAmount row) }}).

Definition markTransferInitiated (transferId : string) (initiatedAt : Date) (rail : option PayoutRail)
    (instantFeeAmount : option Money.t) (row : t) : bool * t :=
  if bool_decide (_transferStatus row = INITIATED) then (false, row)
  else (true, row {{ _transferStatus := INITIATED; _transferId := Some transferId;
                     _transferInitiatedAt := Some initiatedAt; _transferError := None;
                     _transferRail := keep rail (_transferRail row);
                     _instantFeeAmount := keep instantFeeAmount (_instantFeeAmount row) }}).

(** Not conditional. *)
Definition markTransferFailed (error : string) (row : t) : t :=
  row {{ _transferStatus := TRANSFER_FAILED; _transferError := Some error }}.

Definition findReserveReleaseEligible (now : Date) (rows : list t) : list t :=
  filter (λ p, _reserveReleased p = false ∧ 0 < Money.amountMinorUnits (_reserveAmount p)
               ∧ match _releaseEligibleAt p with Some d => d <=? now | None => false end = true) rows.

Definition findTransferEligible (rows : list t) : list t :=
  filter (λ p, _kycBlocked p = false ∧ 0 < Money.amountMinorUnits (_netAmount p)
               ∧ _transferStatus p ≠ INITIATED ∧ _transferStatus p ≠ PENDING_CONFIRMATION) rows.

End PayoutRepository.

(** ** Sweep runs *)

Module PayoutSweepRun.

Record t := mk {
  id : string;
  windowStart : Date;
  windowEnd : Date;
  connectedMerchantsPaid : Z;
  ranAt : Date }.

Definition create (now : Date) (id : string) (windowStart windowEnd : Date) (connectedMerchantsPaid : Z) : t :=
  mk id windowStart windowEnd connectedMerchantsPaid now.

End PayoutSweepRun.

(** ** The service *)

Module PayoutService.
Import Payout.

(** One entry of [netByAccount]. *)
Record Balance := mkBalance {
  bl_merchantId : string;
  bl_currencyCode : string;
  bl_minorUnits : Z }.

Definition sign_of (e : LedgerEntry) : Z := match entryType e with CREDIT => 1 | DEBIT => -1 end.

Definition balance_key (e : LedgerEntry) : string :=
  accountId e ++ ":" ++ Currency.code (Money.currency (amount e)).

(** [netByAccount.get(key)], then the update or the insertion at the end. *)
Fixpoint addEntry (netByAccount : list (string * Balance)) (e : LedgerEntry) : list (string * Balance) :=
  let units := sign_of e * Money.amountMinorUnits (amount e) in
  match netByAccount with
  | [] => [(balance_key e, mkBalance (accountId e) (Currency.code (Money.currency (amount e))) units)]
  | (key, b) :: rest =>
      if String.eqb key (balance_key e)
      then (key, b {{ bl_minorUnits := bl_minorUnits b + units }}) :: rest
      else (key, b) :: addEntry rest e
  end.

Definition merchantEntries (events : list LedgerOutboxEvent.t) : list LedgerEntry :=
  filter (λ e, accountType e = MERCHANT) (concat (LedgerOutboxEvent.entries <$> events)).

Definition netByAccount (events : list LedgerOutboxEvent.t) : list Balance :=
  (foldl addEntry [] (merchantEntries events)).*2.

(** [findCreatedBetween]: the half-open window. *)
Definition findCreatedBetween (since until : Date) (ledger : list LedgerOutboxEvent.t) : list LedgerOutboxEvent.t :=
  filter (λ ev, since ≤ LedgerOutboxEvent.createdAt ev < until) ledger.

(** The payout of one balance, if any. [id] is the fresh identifier. *)
Definition payoutOf (findMerchant : string → option MerchantEntity.t) (now : Date) (id sweepRunId : string)
    (b : Balance) : result (option t) :=
  if bl_minorUnits b <=? 0 then Ok None
  else match findMerchant (bl_merchantId b) with
  | Some merchant =>
      if bool_decide (MerchantEntity.accountType merchant = CONNECTED) then
        grossAmount ← Money.fromMinorUnits (bl_minorUnits b) (bl_currencyCode b) None;
        payout ← Payout.create now id (bl_merchantId b) sweepRunId grossAmount
                   (MerchantEntity.payoutReserveBps merchant) (MerchantEntity.payoutReserveHoldDays merchant)
                   (bool_decide (MerchantEntity.kycStatus merchant = KYC_VERIFIED));
        Ok (Some payout)
      else Ok None
  | None => Ok None
  end.

(** The state a sweep reads and writes: the ledger, the payout rows and the runs. *)
Record Store := mkStore {
  ledger : list LedgerOutboxEvent.t;
  payouts : list t;
  runs : list PayoutSweepRun.t }.

(** [findLatestSweepRun]: the run with the greatest [windowEnd]. *)
Definition latestEnd (l : list PayoutSweepRun.t) : option Date :=
  foldr (λ r o, Some (match o with Some d => Z.max d (PayoutSweepRun.windowEnd r) | None => PayoutSweepRun.windowEnd r end))
    None l.

(** The payout loop. Each payout is saved as it is created; [crash] is the
    number of saves after which the process dies, if it does. *)
Fixpoint payBalances (findMerchant : string → option MerchantEntity.t) (now : Date) (ids : nat → string)
    (sweepRunId : string) (crash : option nat) (n : nat) (l : list Balance) (saved : list t)
    : list t * result Z :=
  match l with
  | [] => (saved, Ok (Z.of_nat (length saved)))
  | b :: l =>
      match payoutOf findMerchant now (ids n) sweepRunId b with
      | Throw e => (saved, Throw e)
      | Ok None => payBalances findMerchant now ids sweepRunId crash n l saved
      | Ok (Some p) =>
          if bool_decide (crash = Some (length saved)) then (saved, Throw (ExternalFailure "save"))
          else payBalances findMerchant now ids sweepRunId crash (S n) l (saved ++ [p])
      end
  end.

Definition runSweepLocked (findMerchant : string → option MerchantEntity.t) (now : Date) (ids : nat → string)
    (sweepRunId : string) (crash : option nat) (s : Store) : Store * result PayoutSweepRun.t :=
  let windowStart := nullish (latestEnd (runs s)) 0 in
  let events := findCreatedBetween windowStart now (ledger s) in
  let '(saved, r) := payBalances findMerchant now ids sweepRunId crash 0 (netByAccount events) [] in
  let s := s {{ payouts := payouts s ++ saved }} in
  match r with
  | Throw e => (s, Throw e)
  | Ok connectedMerchantsPaid =>
      if bool_decide (crash = Some (length saved)) then (s, Throw (ExternalFailure "saveSweepRun"))
      else
        let run := PayoutSweepRun.create now sweepRunId windowStart now connectedMerchantsPaid in
        (s {{ runs := runs s ++ [run] }}, Ok run)
  end.

(** [runSweep]: [setNX] takes the lock, [finally] gives it back. The components
    are the lock after the call, the store and the run, if one was made. *)
Definition runSweep (findMerchant : string → option MerchantEntity.t) (now : Date) (ids : nat → string)
    (sweepRunId : string) (locked : bool) (s : Store) : bool * Store * result (option PayoutSweepRun.t) :=
  if locked then (locked, s, Ok None)
  else
    let '(s, r) := runSweepLocked findMerchant now ids sweepRunId None s in
    (false, s, Some <$> r).

(** [releaseReserve] on the loaded row; the second component is the row after the
    conditional update. *)
Definition releaseReserve (now : Date) (force : bool) (row : option t) : result t * option t :=
  match row with
  | None => (Throw (HttpException 404 "PAYOUT_NOT_FOUND"), None)
  | Some payout =>
      if Money.isZero (_reserveAmount payout) then (Throw (HttpException 409 "PAYOUT_HAS_NO_RESERVE"), row)
      else if _reserveReleased payout then (Throw (HttpException 409 "PAYOUT_RESERVE_ALREADY_RELEASED"), row)
      else if negb force && notYet now (_releaseEligibleAt payout)
      then (Throw (HttpException 409 "PAYOUT_RESERVE_NOT_YET_ELIGIBLE"), row)
      else
        let '(released, row') := PayoutRepository.markReserveReleased now payout in
        if released then (Payout.releaseReserve now force payout, Some row')
        else (Throw (HttpException 409 "PAYOUT_RESERVE_ALREADY_RELEASED"), Some row')
  end.

(** The rows of the table, addressed by identifier. *)
Definition findById (id : string) (rows : list t) : option t := find (λ p, String.eqb (_id p) id) rows.

Definition updateById (id : string) (row : t) (rows : list t) : list t :=
  (λ p, if String.eqb (_id p) id then row else p) <$> rows.

(** [releaseEligibleReserves]: the identifiers come from the query at [now], each
    release reads its row again and takes its own [clock]. *)
Definition releaseEligibleReserves (now clock : Date) (rows : list t) : list t * (Z * Z) :=
  foldl (λ '(rows, (released, failed)) payout,
           let '(r, row) := releaseReserve clock false (findById (_id payout) rows) in
           let rows := match row with Some row => updateById (_id payout) row rows | None => rows end in
           match r with
           | Ok _ => (rows, (released + 1, failed))
           | Throw _ => (rows, (released, failed + 1))
           end)
    (rows, (0, 0)) (PayoutRepository.findReserveReleaseEligible now rows).

(** [recheckKycBlocks]: the lookup of the merchant may itself fail. *)
Definition recheckKycBlocks (findMerchant : string → result (option MerchantEntity.t)) (clock : Date) (rows : list t)
    : list t * Z :=
  foldl (λ '(rows, cleared) payout,
           match findMerchant (_merchantId payout), findById (_id payout) rows with
           | Ok (Some merchant), Some row =>
               if bool_decide (MerchantEntity.kycStatus merchant = KYC_VERIFIED) then
                 let '(didClear, row) := PayoutRepository.markKycCleared clock row in
                 (updateById (_id payout) row rows, if didClear then cleared + 1 else cleared)
               else (rows, cleared)
           | _, _ => (rows, cleared)
           end)
    (rows, 0) (filter (λ p, _kycBlocked p = true) rows).

(** *** Transfers *)

Inductive BankResponse := SENT (transferId : string) | PENDING (transferId : string) | DECLINED (error : option string).

(** The guards of [initiateTransfer], the rail and the amount: what the call
    hands to the bank. *)
Definition prepareTransfer (merchant : option MerchantEntity.t) (rail : option PayoutRail) (payout : t)
    : result (PayoutRail * Money.t * option Money.t) :=
  _ ← throw_if (_kycBlocked payout) (HttpException 409 "PAYOUT_KYC_BLOCKED");
  _ ← throw_if (Money.isZero (_netAmount payout)) (HttpException 409 "PAYOUT_NO_TRANSFERABLE_AMOUNT");
  _ ← throw_if (bool_decide (_transferStatus payout = INITIATED)
                || bool_decide (_transferStatus payout = PENDING_CONFIRMATION))
        (HttpException 409 "PAYOUT_TRANSFER_ALREADY_INITIATED");
  let rail := nullish rail (nullish (MerchantEntity.payoutRail <$> merchant) STANDARD) in
  match rail with
  | STANDARD => Ok (rail, _netAmount payout, None)
  | INSTANT =>
      instantFeeAmount ← Fees.calculateInstantPayoutFee (_netAmount payout);
      _ ← throw_if (Money.amountMinorUnits (_netAmount payout) <=? Money.amountMinorUnits instantFeeAmount)
            (HttpException 409 "PAYOUT_INSTANT_FEE_EXCEEDS_NET_AMOUNT");
      transferAmount ← Money.subtract (_netAmount payout) instantFeeAmount;
      Ok (rail, transferAmount, Some instantFeeAmount)
  end.

(** What [initiateTransfer] writes once the bank has answered, on the row as it
    is then. *)
Definition commitTransfer (now : Date) (rail : PayoutRail) (fee : option Money.t) (response : BankResponse)
    (row : t) : t * result unit :=
  match response with
  | DECLINED e =>
      (PayoutRepository.markTransferFailed (nullish e "Bank transfer declined") row,
       Throw (HttpException 422 "PAYOUT_TRANSFER_FAILED"))
  | PENDING tid =>
      let '(ok, row) := PayoutRepository.markTransferPending tid now (Some rail) fee row in
      (row, throw_if (negb ok) (HttpException 409 "PAYOUT_TRANSFER_ALREADY_INITIATED"))
  | SENT tid =>
      let '(ok, row) := PayoutRepository.markTransferInitiated tid now (Some rail) fee row in
      (row, throw_if (negb ok) (HttpException 409 "PAYOUT_TRANSFER_ALREADY_INITIATED"))
  end.

(** A call that nothing interleaves with: the row after it, the amount handed to
    the bank, and the outcome. A request that gets no answer (the adapter gives up after 15
    seconds) throws, and nothing is written. *)
Definition initiateTransfer (now : Date) (merchant : option MerchantEntity.t) (rail : option PayoutRail)
    (bank : Money.t → result BankResponse) (row : t) : t * option Money.t * result unit :=
  match prepareTransfer merchant rail row with
  | Throw e => (row, None, Throw e)
  | Ok (rail, transferAmount, fee) =>
      match bank transferAmount with
      | Throw e => (row, Some transferAmount, Throw e)
      | Ok response =>
          let '(row, r) := commitTransfer now rail fee response row in
          (row, Some transferAmount, r)
      end
  end.

Inductive Outcome := SETTLED | SETTLEMENT_FAILED.

(** [confirmNetAmountTransfer] *)
Definition confirmNetAmountTransfer (now : Date) (transferId : string) (outcome : Outcome) (reason : option string)
    (payout : t) : t :=
  if negb (bool_decide (_transferStatus payout = PENDING_CONFIRMATION)) then payout
  else match outcome with
  | SETTLEMENT_FAILED =>
      PayoutRepository.markTransferFailed (nullish reason "Bank transfer failed during settlement") payout
  | SETTLED => (PayoutRepository.markTransferInitiated transferId now None None payout).2
  end.

End PayoutService.

(** ** Reserve holds *)

Module ReserveHold.

Inductive Status := HELD | RELEASED.

#[global] Instance Status_eq_dec : EqDecision Status.
Proof. solve_decision. Defined.

Record t := mk {
  _id : string;
  _paymentId : string;
  _merchantId : string;
  _amount : Money.t;
  _netAmount : Money.t;
  _status : Status;
  _releaseEligibleAt : Date;
  _createdAt : Date;
  _releasedAt : option Date }.

Definition create (now : Date) (id paymentId merchantId : string) (amount netAmount : Money.t) (holdDays : Z) : t :=
  mk id paymentId merchantId amount netAmount HELD (now + holdDays * 24 * 60 * 60 * 1000) now None.

Definition reconstitute (id paymentId merchantId : string) (amount netAmount : Money.t) (status : Status)
    (releaseEligibleAt createdAt : Date) (releasedAt : option Date) : t :=
  mk id paymentId merchantId amount netAmount status releaseEligibleAt createdAt releasedAt.

Definition release (now : Date) (force : bool) (h : t) : result t :=
  _ ← throw_if (negb (bool_decide (_status h = HELD))) (Refused "release" "not held");
  _ ← throw_if (negb force && (now <? _releaseEligibleAt h)) (Refused "release" "not yet eligible");
  Ok (h {{ _status := RELEASED; _releasedAt := Some now }}).

Definition topUp (additionalAmount : Money.t) (h : t) : result t :=
  _ ← throw_if (negb (bool_decide (_status h = HELD))) (Refused "topUp" "not held");
  _ ← throw_if (Money.isZero additionalAmount) (Refused "topUp" "zero amount");
  total ← Money.add (_amount h) additionalAmount;
  Ok (h {{ _amount := total }}).

End ReserveHold.

Module ReserveService.
Import ReserveHold.

Definition markReleased (now : Date) (row : t) : bool * t :=
  if bool_decide (_status row = HELD) then (true, row {{ _status := RELEASED; _releasedAt := Some now }})
  else (false, row).

(** [release] on the row it loaded and the row the transaction finds: the
    released hold, the row after the transaction and the ledger event written in
    it. *)
Definition release (now : Date) (eventId : string) (force : bool) (loaded : option t) (row : t)
    : result t * t * option LedgerOutboxEvent.t :=
  match loaded with
  | None => (Throw (HttpException 404 "RESERVE_HOLD_NOT_FOUND"), row, None)
  | Some hold =>
      if negb (bool_decide (_status hold = HELD))
      then (Throw (HttpException 409 "RESERVE_HOLD_ALREADY_RELEASED"), row, None)
      else if negb force && (now <? _releaseEligibleAt hold)
      then (Throw (HttpException 409 "RESERVE_HOLD_NOT_YET_ELIGIBLE"), row, None)
      else
        let '(released, row') := markReleased now row in
        if released then
          match LedgerOutboxEvent.createReserveReleaseEntries now eventId (_paymentId hold) (_merchantId hold) (_amount hold) with
          | Ok ev => (ReserveHold.release now force hold, row', Some ev)
          | Throw e => (Throw e, row, None)
          end
        else (Throw (HttpException 409 "RESERVE_HOLD_ALREADY_RELEASED"), row, None)
  end.

(** One iteration of [topUpHeldReservesForMerchant]: the hold to save with the
    ledger event of the same transaction, or nothing. *)
Definition topUpOne (now : Date) (eventId : string) (newReserveBps : Z) (hold : t)
    : result (option (t * LedgerOutboxEvent.t)) :=
  targetAmount ← Money.multiply (_netAmount hold) (bps_factor newReserveBps);
  greater ← Money.isGreaterThan targetAmount (_amount hold);
  if negb greater then Ok None
  else
    additionalAmount ← Money.subtract targetAmount (_amount hold);
    hold' ← topUp additionalAmount hold;
    topUpEvent ← LedgerOutboxEvent.createReserveTopUpEntries now eventId (_paymentId hold) (_merchantId hold)
                   additionalAmount;
    Ok (Some (hold', topUpEvent)).

End ReserveService.
