(* ===== verification/PayoutCorrect.v ===== *)
(** * Correctness of payouts and reserves

    A payout splits its gross amount exactly; a sweep pays every connected
    account its net ledger balance of the window, and successive windows
    partition the ledger; transfers are submitted at most once when calls do not
    interleave, and the interleaving that breaks this is exhibited. *)

From S2P Require Import Prelude JsNumber Money Policies Payment Merchant Ledger LedgerCorrect Payout.
Import Payout.

(** ** Splitting the gross amount *)

Record split_ok (p : t) : Prop := {
  so_gross : Money.wf (_grossAmount p);
  so_net : Money.wf (_netAmount p) ∧ Money.currency (_netAmount p) = Money.currency (_grossAmount p);
  so_reserve : Money.wf (_reserveAmount p) ∧ Money.currency (_reserveAmount p) = Money.currency (_grossAmount p);
  so_sum : Money.amountMinorUnits (_netAmount p) + Money.amountMinorUnits (_reserveAmount p)
           = Money.amountMinorUnits (_grossAmount p);
  so_release : isSome (_releaseEligibleAt p) = negb (Money.isZero (_reserveAmount p)) }.

Lemma create_spec now id mid run gross bps days kyc :
  Money.wf gross → Money.amountMinorUnits gross ≤ 2 ^ 53 → bps ≤ 10000 →
  ∃ p, create now id mid run gross bps days kyc = Ok p ∧ split_ok p
    ∧ _grossAmount p = gross ∧ _merchantId p = mid ∧ _id p = id ∧ _sweepRunId p = run
    ∧ _kycBlocked p = negb kyc ∧ _transferStatus p = NOT_INITIATED
    ∧ _reserveTransferStatus p = NOT_INITIATED ∧ _reserveReleased p = false
    ∧ (bps ≤ 0 → _netAmount p = Money.mk (Money.amountMinorUnits gross) (Money.currency gross) None).
Proof.
  intros Hg Hmax Hb. unfold create. pose proof Hg as [Hg0 Hgc].
  assert (∃ r, (if 0 <? bps then Money.multiply gross (bps_factor bps)
                else Money.zero (Currency.code (Money.currency gross))) = Ok (Money.mk r (Money.currency gross) None)
    ∧ 0 ≤ r ≤ Money.amountMinorUnits gross ∧ (bps ≤ 0 → r = 0)) as (r & -> & Hr & Hr0).
  { destruct (Z.ltb_spec 0 bps).
    - destruct (multiply_bps_le gross bps) as (r & -> & Hr); [done|done|lia|]. exists r. split_and!; try lia. done.
    - rewrite zero_wf_code by done. exists 0. split_and!; try lia. done. }
  cbn [mbind result_bind]. rewrite subtract_total by (done || cbn; lia). cbn [mbind result_bind].
  eexists. split_and!; [reflexivity| |done..|].
  - split; cbn; [done|split; [split; cbn; [lia|done]|done]|split; [split; cbn; [lia|done]|done]|lia|].
    unfold Money.isZero. cbn. by destruct (r =? 0).
  - intros Hle. cbn. by rewrite (Hr0 Hle), Z.sub_0_r.
Qed.

(** ** Balances of a window *)

Import PayoutService.

(** The net MERCHANT balance of an account in one currency. *)
Definition entry_net (mid code : string) (e : LedgerEntry) : Z :=
  if decide (accountId e = mid ∧ entry_code e = code) then sign_of e * Money.amountMinorUnits (amount e) else 0.

Definition account_net (mid code : string) (events : list LedgerOutboxEvent.t) : Z :=
  sumZ (entry_net mid code) (merchantEntries events).

Lemma wf_code_length c : Currency.wf c → String.length (Currency.code c) = 3%nat.
Proof.
  unfold Currency.wf, Currency.of_. cbv zeta. intros H.
  destruct (Nat.eqb_spec (String.length (Str.trim (Str.toUpperCase (Currency.code c)))) 3) as [E|];
    [|discriminate]. injection H as H. rewrite <- E. by rewrite <- H at 1.
Qed.

(** Entries of valid currencies: the key identifies account and currency. *)
Definition entries_wf (l : list LedgerEntry) : Prop := Forall (λ e, Money.wf (amount e)) l.

Lemma balance_key_inj mid code e : Money.wf (amount e) → String.length code = 3%nat →
  balance_key e = (mid ++ ":" ++ code)%string → accountId e = mid ∧ entry_code e = code.
Proof.
  intros [_ Hc] Hlen H. unfold balance_key in H. apply append_same_length in H as [-> H].
  - change (String ":" (Currency.code (Money.currency (amount e))) = String ":" code) in H.
    by injection H as H.
  - rewrite !string_length_app, Hlen. f_equal. by apply wf_code_length.
Qed.

(** The map of a list of entries: distinct keys, each the key of its balance,
    every balance the net of its account. *)
Record nets (l : list LedgerEntry) (m : list (string * Balance)) : Prop := {
  nt_nodup : NoDup m.*1;
  nt_key k b : (k, b) ∈ m → k = (bl_merchantId b ++ ":" ++ bl_currencyCode b)%string
                            ∧ ∃ c, Currency.wf c ∧ bl_currencyCode b = Currency.code c;
  nt_net k b : (k, b) ∈ m → bl_minorUnits b = sumZ (entry_net (bl_merchantId b) (bl_currencyCode b)) l;
  nt_all e : e ∈ l → balance_key e ∈ m.*1 }.

Lemma addEntry_keys m e :
  (addEntry m e).*1 = if decide (balance_key e ∈ m.*1) then m.*1 else m.*1 ++ [balance_key e].
Proof.
  induction m as [|[k b] m IH]; cbn; [done|].
  destruct (String.eqb_spec k (balance_key e)) as [->|Hne]; cbn.
  - rewrite decide_True; [done|]. by left.
  - rewrite IH. repeat case_decide; try done.
    + match goal with H : ¬ _ |- _ => destruct H; by right end.
    + match goal with H : _ ∈ _ :: _ |- _ => apply elem_of_cons in H as [H|H]; [by destruct Hne|done] end.
Qed.

Lemma addEntry_In m e k b : NoDup m.*1 → (k, b) ∈ addEntry m e →
  (k ≠ balance_key e ∧ (k, b) ∈ m)
  ∨ (k = balance_key e
     ∧ ((∃ b0, (k, b0) ∈ m ∧ b = b0 {{ bl_minorUnits := bl_minorUnits b0 + sign_of e * Money.amountMinorUnits (amount e) }})
        ∨ k ∉ m.*1 ∧ b = mkBalance (accountId e) (entry_code e) (sign_of e * Money.amountMinorUnits (amount e)))).
Proof.
  induction m as [|[k' b'] m IH]; cbn [addEntry fmap list_fmap fst]; intros Hnd Hin.
  - apply list_elem_of_singleton in Hin as [= -> ->]. right. split; [done|]. right. split; [set_solver|done].
  - apply NoDup_cons in Hnd as [Hk' Hnd].
    destruct (String.eqb_spec k' (balance_key e)) as [->|Hne].
    + apply elem_of_cons in Hin as [[= -> ->]|Hin].
      * right. split; [done|]. left. exists b'. split; [by left|done].
      * left. split; [|by right]. intros ->. apply Hk'. by apply (list_elem_of_fmap_2 fst) in Hin.
    + apply elem_of_cons in Hin as [[= -> ->]|Hin].
      * left. split; [done|by left].
      * destruct (IH Hnd Hin) as [[? ?]|(-> & [(b0 & ? & ->)|[? ->]])].
        -- left. split; [done|by right].
        -- right. split; [done|]. left. exists b0. split; [by right|done].
        -- right. split; [done|]. right. split; [|done]. set_solver.
Qed.

Lemma nets_add l m e : Money.wf (amount e) → nets l m → nets (l ++ [e]) (addEntry m e).
Proof.
  intros Hwf [Hnd Hkey Hnet Hall]. split.
  - rewrite addEntry_keys. case_decide; [done|]. apply NoDup_app. split_and!; [done|set_solver|apply NoDup_singleton].
  - intros k b Hin. destruct (addEntry_In _ _ _ _ Hnd Hin) as [[_ H]|(-> & [(b0 & H & ->)|[_ ->]])]; [by apply Hkey| |].
    + by apply (Hkey _ b0).
    + split; [done|]. eexists. split; [apply Hwf|done].
  - intros k b Hin. rewrite sumZ_app. cbn [sumZ]. unfold entry_net at 2.
    destruct (addEntry_In _ _ _ _ Hnd Hin) as [[Hne H]|(-> & [(b0 & H & ->)|[Hno ->]])].
    + rewrite (Hnet _ _ H). destruct (Hkey _ _ H) as [-> _]. rewrite decide_False; [lia|].
      intros [Ha Hc]. apply Hne. unfold balance_key. by rewrite <- Ha, <- Hc.
    + specialize (Hnet _ _ H). destruct (Hkey _ _ H) as (Hk & c & Hc & Hb). destruct b0. cbn in *.
      rewrite decide_True by (apply balance_key_inj; [done| |done]; rewrite Hb; by apply wf_code_length). lia.
    + cbn. rewrite decide_True by done. enough (sumZ (entry_net (accountId e) (entry_code e)) l = 0) by lia.
      apply sumZ_zero. intros e' He'. unfold entry_net. rewrite decide_False; [done|].
      intros [Ha Hc]. apply Hno. replace (balance_key e) with (balance_key e'); [by apply Hall|].
      unfold balance_key. unfold entry_code, LedgerOutboxEvent.code_of in Hc. by rewrite Ha, Hc.
  - intros e' [He'|He']%elem_of_app; rewrite addEntry_keys.
    + apply Hall in He'. case_decide; set_solver.
    + apply list_elem_of_singleton in He' as ->. case_decide; set_solver.
Qed.

Lemma nets_fold l' l m : entries_wf l' → nets l m → nets (l ++ l') (foldl addEntry m l').
Proof.
  revert l m. induction l' as [|e l' IH]; intros l m Hwf Hm; cbn; [by rewrite app_nil_r|].
  apply Forall_cons in Hwf as [He Hwf]. rewrite (cons_middle e l l'), app_assoc. by apply IH, nets_add.
Qed.

Lemma netByAccount_nets events : entries_wf (merchantEntries events) →
  nets (merchantEntries events) (foldl addEntry [] (merchantEntries events)).
Proof.
  intros H. apply (nets_fold _ [] []); [done|]. split; cbn; [apply NoDup_nil_2|set_solver..].
Qed.

(** ** One sweep *)

(** A connected account. *)
Definition connected (findMerchant : string → option MerchantEntity.t) (mid : string) : bool :=
  match findMerchant mid with
  | Some m => bool_decide (MerchantEntity.accountType m = CONNECTED)
  | None => false
  end.

(** Reserve rates are at most 100 %, as the validation of the request has it. *)
Definition rates_ok (findMerchant : string → option MerchantEntity.t) : Prop :=
  ∀ mid m, findMerchant mid = Some m → MerchantEntity.payoutReserveBps m ≤ 10000.

(** What a batch of payouts disburses to an account in a currency. *)
Definition gross_of (mid code : string) (p : t) : Z :=
  if decide (_merchantId p = mid ∧ Currency.code (Money.currency (_grossAmount p)) = code)
  then Money.amountMinorUnits (_grossAmount p) else 0.

Definition paid (mid code : string) (l : list t) : Z := sumZ (gross_of mid code) l.

(** The balances a sweep pays. *)
Definition due (findMerchant : string → option MerchantEntity.t) (b : Balance) : Prop :=
  0 < bl_minorUnits b ∧ connected findMerchant (bl_merchantId b) = true.

#[global] Instance due_dec fm b : Decision (due fm b).
Proof. unfold due. apply _. Defined.

Definition balance_ok (b : Balance) : Prop :=
  (∃ c, Currency.wf c ∧ bl_currencyCode b = Currency.code c) ∧ bl_minorUnits b ≤ 2 ^ 53.

(** [p] pays the balance [b]. *)
Record pays (run : string) (b : Balance) (p : t) : Prop := {
  py_merchant : _merchantId p = bl_merchantId b;
  py_code : Currency.code (Money.currency (_grossAmount p)) = bl_currencyCode b;
  py_units : Money.amountMinorUnits (_grossAmount p) = bl_minorUnits b;
  py_split : split_ok p;
  py_run : _sweepRunId p = run;
  py_fresh : _transferStatus p = NOT_INITIATED ∧ _reserveReleased p = false }.

Lemma payoutOf_spec fm now id run b : rates_ok fm → balance_ok b →
  if decide (due fm b) then ∃ p, payoutOf fm now id run b = Ok (Some p) ∧ pays run b p
  else payoutOf fm now id run b = Ok None.
Proof.
  intros Hr [(c & Hc & Hcode) Hmax]. unfold payoutOf. case_decide as Hd; unfold due, connected in Hd.
  2:{ destruct (Z.leb_spec (bl_minorUnits b) 0); [done|]. destruct (fm (bl_merchantId b)); [|done].
      case_bool_decide; [|done]. by destruct Hd. }
  destruct Hd as [Hpos Hm]. rewrite (proj2 (Z.leb_gt _ _) Hpos).
  destruct (fm (bl_merchantId b)) as [m|] eqn:E; [|discriminate Hm]. rewrite Hm, Hcode.
  rewrite fromMinorUnits_wf_code by (done || lia). cbn [mbind result_bind].
  destruct (create_spec now id (bl_merchantId b) run (Money.mk (bl_minorUnits b) c None)
      (MerchantEntity.payoutReserveBps m) (MerchantEntity.payoutReserveHoldDays m)
      (bool_decide (MerchantEntity.kycStatus m = KYC_VERIFIED)))
    as (p & -> & Hs & Hg & Hmid & _ & Hrun & _ & Hts & _ & Hrr & _); [split; [cbn; lia|done]|done|by eapply Hr|].
  exists p. split; [done|]. split; try done; by rewrite Hg.
Qed.

Lemma payBalances_spec fm now ids run n l saved : rates_ok fm → Forall balance_ok l →
  ∃ new, payBalances fm now ids run None n l saved = (saved ++ new, Ok (Z.of_nat (length (saved ++ new))))
    ∧ Forall2 (pays run) (filter (due fm) l) new.
Proof.
  intros Hr Hl. revert n saved. induction Hl as [|b l Hb Hl IH]; intros n saved; cbn [payBalances].
  - exists []. rewrite app_nil_r. done.
  - pose proof (payoutOf_spec fm now (ids n) run b Hr Hb) as Hp. rewrite filter_cons. case_decide.
    + destruct Hp as (p & -> & Hp). cbn [payBalances]. rewrite bool_decide_eq_false_2 by done.
      destruct (IH (S n) (saved ++ [p])) as (new & -> & HF). exists (p :: new). rewrite <- app_assoc.
      split; [done|]. by constructor.
    + rewrite Hp. apply IH.
Qed.

(** A balance as seen by one account and currency. *)
Definition bal_of (mid code : string) (b : Balance) : Z :=
  if decide (bl_merchantId b = mid ∧ bl_currencyCode b = code) then bl_minorUnits b else 0.

Definition balance_pair (b : Balance) : string * string := (bl_merchantId b, bl_currencyCode b).
Definition payout_pair (p : t) : string * string :=
  (_merchantId p, Currency.code (Money.currency (_grossAmount p))).

Lemma pays_paid run mid code l new : Forall2 (pays run) l new →
  paid mid code new = sumZ (bal_of mid code) l ∧ payout_pair <$> new = balance_pair <$> l ∧ Forall split_ok new.
Proof.
  induction 1 as [|b p l new Hp _ (IH1 & IH2 & IH3)]; [done|]. destruct Hp as [H1 H2 H3 H4 _ _].
  split_and!; [|cbn; rewrite IH2; f_equal; unfold payout_pair, balance_pair; by rewrite H1, H2|by constructor].
  unfold paid in *. cbn [sumZ]. rewrite IH1. f_equal. unfold gross_of, bal_of. by rewrite H1, H2, H3.
Qed.

Section Nets.
Context (L : list LedgerEntry) (m : list (string * Balance)) (Hm : nets L m) (Hwf : entries_wf L).

Lemma nets_pairs_nodup : NoDup (balance_pair <$> m.*2).
Proof.
  destruct Hm as [Hnd Hkey _ _].
  apply (NoDup_fmap_1 (λ x : string * string, x.1 ++ ":" ++ x.2)%string).
  replace ((λ x : string * string, x.1 ++ ":" ++ x.2)%string <$> (balance_pair <$> m.*2)) with (m.*1); [done|].
  rewrite <- !list_fmap_compose. apply list_fmap_ext. intros i [k b] Hi%list_elem_of_lookup_2.
  cbn. by apply Hkey.
Qed.

Lemma nets_absent mid code : (∀ b, b ∈ m.*2 → balance_pair b ≠ (mid, code)) → sumZ (entry_net mid code) L = 0.
Proof.
  intros Habs. apply sumZ_zero. intros e He. unfold entry_net. case_decide as Hd; [|done]. exfalso.
  destruct Hm as [_ Hkey _ Hall]. specialize (Hall _ He). apply list_elem_of_fmap in Hall as ([k b] & Hk & Hin).
  cbn in Hk. subst k. destruct (Hkey _ _ Hin) as (Hk & c & Hc & Hb).
  apply balance_key_inj in Hk as [H1 H2]; [| |rewrite Hb; by apply wf_code_length].
  - apply (Habs b); [by apply (list_elem_of_fmap_2 snd) in Hin|]. unfold balance_pair.
    rewrite <- H1, <- H2. by destruct Hd as [-> ->].
  - unfold entries_wf in Hwf. rewrite Forall_forall in Hwf. by apply Hwf.
Qed.

Lemma nets_due fm mid code :
  sumZ (bal_of mid code) (filter (due fm) m.*2)
  = if connected fm mid then Z.max 0 (sumZ (entry_net mid code) L) else 0.
Proof.
  rewrite sumZ_filter. destruct (decide (Exists (λ b, balance_pair b = (mid, code)) m.*2)) as [Hex|Hno].
  - apply Exists_exists in Hex as (b & Hb & Hpair). pose proof Hb as ([k b'] & -> & Hin)%list_elem_of_fmap.
    injection Hpair as <- <-. rewrite (sumZ_unique balance_pair _ _ b'); [|apply nets_pairs_nodup|done|].
    + rewrite <- (nt_net _ _ Hm _ _ Hin). unfold bal_of. rewrite (decide_True (P := _ ∧ _)) by done.
      unfold due. cbn [snd]. case_decide as Hd; destruct (connected fm (bl_merchantId b')); try lia; naive_solver lia.
    + intros y _ Hne. case_decide; [|done]. unfold bal_of. rewrite decide_False; [done|].
      intros [H1 H2]. apply Hne. unfold balance_pair. by rewrite H1, H2.
  - rewrite nets_absent, sumZ_zero.
    + by destruct (connected fm mid).
    + intros b Hb. case_decide; [|done]. unfold bal_of. case_decide as Hd; [|done]. destruct Hno.
      apply Exists_exists. exists b. split; [done|]. unfold balance_pair. by destruct Hd as [-> ->].
    + intros b Hb E. apply Hno, Exists_exists. eauto.
Qed.

Lemma nets_balance_ok : (∀ mid code, sumZ (entry_net mid code) L ≤ 2 ^ 53) → Forall balance_ok m.*2.
Proof.
  intros Hmax. apply Forall_forall. intros b ([k b'] & -> & Hin)%list_elem_of_fmap. split.
  - by apply (nt_key _ _ Hm _ _ Hin).
  - cbn. rewrite (nt_net _ _ Hm _ _ Hin). apply Hmax.
Qed.
End Nets.

Definition swept_events (s : Store) (now : Date) : list LedgerOutboxEvent.t :=
  findCreatedBetween (nullish (latestEnd (runs s)) 0) now (ledger s).

(** What a sweep asks of the ledger it reads: valid amounts, balances a double
    represents. *)
Definition window_ok (events : list LedgerOutboxEvent.t) : Prop :=
  entries_wf (merchantEntries events) ∧ ∀ mid code, account_net mid code events ≤ 2 ^ 53.

Lemma sweep_spec fm now ids run s : rates_ok fm → window_ok (swept_events s now) →
  ∃ new r, runSweepLocked fm now ids run None s = (mkStore (ledger s) (payouts s ++ new) (runs s ++ [r]), Ok r)
    ∧ PayoutSweepRun.windowStart r = nullish (latestEnd (runs s)) 0 ∧ PayoutSweepRun.windowEnd r = now
    ∧ PayoutSweepRun.connectedMerchantsPaid r = Z.of_nat (length new)
    ∧ Forall split_ok new ∧ NoDup (payout_pair <$> new)
    ∧ ∀ mid code, paid mid code new
                  = if connected fm mid then Z.max 0 (account_net mid code (swept_events s now)) else 0.
Proof.
  intros Hr [Hwf Hmax]. pose proof (netByAccount_nets _ Hwf) as Hnets.
  unfold runSweepLocked. cbv zeta. fold (swept_events s now). unfold netByAccount.
  destruct (payBalances_spec fm now ids run 0 (foldl addEntry [] (merchantEntries (swept_events s now))).*2 [] Hr)
    as (new & -> & HF); [by eapply nets_balance_ok|].
  rewrite app_nil_l. rewrite bool_decide_eq_false_2 by done.
  eexists new, _. split; [reflexivity|]. cbn [PayoutSweepRun.create PayoutSweepRun.windowStart
    PayoutSweepRun.windowEnd PayoutSweepRun.connectedMerchantsPaid].
  split_and!; try done.
  - by destruct (pays_paid _ "" "" _ _ HF) as (_ & _ & ?).
  - destruct (pays_paid _ "" "" _ _ HF) as (_ & -> & _).
    eapply sublist_NoDup; [apply (nets_pairs_nodup _ _ Hnets)|]. apply fmap_sublist, sublist_filter.
  - intros mid code. destruct (pays_paid _ mid code _ _ HF) as (-> & _). by apply nets_due.
Qed.

(** C16: a sweep that is not interrupted pays every connected account, in every
    currency, exactly its net ledger balance of the window when that is
    positive and nothing otherwise, pays nobody else, makes at most one payout
    per account and currency, splits each exactly, and records its window. *)
Theorem payout_sweep_exact (findMerchant : string → option MerchantEntity.t) (now : Date) (ids : nat → string)
    (run : string) (s : Store) :
  rates_ok findMerchant → window_ok (swept_events s now) →
  ∃ new r, runSweep findMerchant now ids run false s
           = (false, mkStore (ledger s) (payouts s ++ new) (runs s ++ [r]), Ok (Some r))
    ∧ PayoutSweepRun.windowStart r = nullish (latestEnd (runs s)) 0 ∧ PayoutSweepRun.windowEnd r = now
    ∧ PayoutSweepRun.connectedMerchantsPaid r = Z.of_nat (length new)
    ∧ Forall split_ok new ∧ NoDup (payout_pair <$> new)
    ∧ ∀ mid code, paid mid code new
                  = if connected findMerchant mid
                    then Z.max 0 (account_net mid code (swept_events s now)) else 0.
Proof.
  intros Hr Hw. destruct (sweep_spec findMerchant now ids run s Hr Hw) as (new & r & E & H).
  exists new, r. split; [|exact H]. unfold runSweep. by rewrite E.
Qed.

(** ** Successive sweeps *)

(** The store, what each sweep had before it (the merchants as they were then, and the
    events it found in its window), and the events that were written behind the end of the
    last window: [created_at] is set before the transaction commits. *)
Record history := mkHistory {
  hs_store : Store;
  hs_sweeps : list ((string → option MerchantEntity.t) * list LedgerOutboxEvent.t);
  hs_missed : list LedgerOutboxEvent.t }.

Definition lastEnd (s : Store) : Date := nullish (latestEnd (runs s)) 0.

(** An event is written, with any time of creation; or a sweep runs to its end, not before
    the end of the last window, for the merchants there are. *)
Inductive step : history → history → Prop :=
| step_event s sweeps missed ev :
    0 ≤ LedgerOutboxEvent.createdAt ev →
    step (mkHistory s sweeps missed)
      (mkHistory (s {{ ledger := ledger s ++ [ev] }}) sweeps
         (if LedgerOutboxEvent.createdAt ev <? lastEnd s then missed ++ [ev] else missed))
| step_sweep s sweeps missed s' now fm ids run r :
    lastEnd s ≤ now → rates_ok fm → window_ok (swept_events s now) →
    runSweepLocked fm now ids run None s = (s', Ok r) →
    step (mkHistory s sweeps missed) (mkHistory s' (sweeps ++ [(fm, swept_events s now)]) missed).

Definition empty_history : history := mkHistory (mkStore [] [] []) [] [].

Definition in_window (d : Date) (r : PayoutSweepRun.t) : Prop :=
  PayoutSweepRun.windowStart r ≤ d < PayoutSweepRun.windowEnd r.

#[global] Instance in_window_dec d r : Decision (in_window d r).
Proof. unfold in_window. apply _. Defined.

Lemma latestEnd_app l r : latestEnd (l ++ [r]) =
  Some (Z.max (nullish (latestEnd l) (PayoutSweepRun.windowEnd r)) (PayoutSweepRun.windowEnd r)).
Proof.
  induction l as [|r' l IH]; cbn; [by rewrite Z.max_id|]. unfold latestEnd in IH. rewrite IH. f_equal.
  destruct (foldr _ None l); cbn; lia.
Qed.

Lemma findCreatedBetween_app a b l1 l2 :
  findCreatedBetween a b (l1 ++ l2) = findCreatedBetween a b l1 ++ findCreatedBetween a b l2.
Proof. apply filter_app. Qed.

Lemma merchantEntries_app l1 l2 : merchantEntries (l1 ++ l2) = merchantEntries l1 ++ merchantEntries l2.
Proof. unfold merchantEntries. by rewrite fmap_app, concat_app, filter_app. Qed.

Lemma account_net_app mid code l1 l2 :
  account_net mid code (l1 ++ l2) = account_net mid code l1 + account_net mid code l2.
Proof. unfold account_net. by rewrite merchantEntries_app, sumZ_app. Qed.

Lemma account_net_split mid code a b c l : a ≤ b ≤ c →
  account_net mid code (findCreatedBetween a c l)
  = account_net mid code (findCreatedBetween a b l) + account_net mid code (findCreatedBetween b c l).
Proof.
  intros Hab. unfold findCreatedBetween. induction l as [|ev l IH]; [done|]. rewrite !filter_cons.
  repeat case_decide; try lia; rewrite ?(account_net_app mid code [_]), 1?IH;
    change (ev :: ?l) with ([ev] ++ l); rewrite ?account_net_app; lia.
Qed.

(** The account of all sweeps so far. *)
Record ledger_swept (h : history) : Prop := {
  ls_end : ∀ r, r ∈ runs (hs_store h) → PayoutSweepRun.windowEnd r ≤ lastEnd (hs_store h);
  ls_zero : 0 ≤ lastEnd (hs_store h);
  ls_split : Forall split_ok (payouts (hs_store h));
  ls_once : ∀ d, 0 ≤ d < lastEnd (hs_store h) → length (filter (in_window d) (runs (hs_store h))) = 1%nat;
  ls_nets : ∀ mid code, account_net mid code (findCreatedBetween 0 (lastEnd (hs_store h)) (ledger (hs_store h)))
              = sumZ (λ x, account_net mid code x.2) (hs_sweeps h) + account_net mid code (hs_missed h);
  ls_paid : ∀ mid code, paid mid code (payouts (hs_store h))
              = sumZ (λ x, if connected x.1 mid then Z.max 0 (account_net mid code x.2) else 0) (hs_sweeps h) }.

Lemma event_preserves s sweeps missed ev : 0 ≤ LedgerOutboxEvent.createdAt ev → ledger_swept (mkHistory s sweeps missed) →
  ledger_swept (mkHistory (mkStore (ledger s ++ [ev]) (payouts s) (runs s)) sweeps
    (if LedgerOutboxEvent.createdAt ev <? lastEnd s then missed ++ [ev] else missed)).
Proof.
  intros Hev [H1 H2 H3 H4 H5 H6]. cbn [hs_store hs_sweeps hs_missed] in *. split; cbn [hs_store hs_sweeps hs_missed ledger payouts runs]; try done.
  intros mid code. specialize (H5 mid code). unfold lastEnd in *. cbn [runs]. rewrite findCreatedBetween_app, account_net_app, H5.
  unfold findCreatedBetween. rewrite filter_cons. destruct (Z.ltb_spec (LedgerOutboxEvent.createdAt ev) (nullish (latestEnd (runs s)) 0)).
  - rewrite decide_True, account_net_app by lia. rewrite filter_nil. lia.
  - rewrite decide_False by lia. rewrite filter_nil. change (account_net mid code []) with 0. lia.
Qed.

Lemma sweep_preserves fm now ids run s s' r sweeps missed : rates_ok fm →
  lastEnd s ≤ now → window_ok (swept_events s now) →
  runSweepLocked fm now ids run None s = (s', Ok r) → ledger_swept (mkHistory s sweeps missed) →
  ledger_swept (mkHistory s' (sweeps ++ [(fm, swept_events s now)]) missed).
Proof.
  intros Hr Hnow Hw E [H1 H2 H3 H4 H5 H6]. unfold lastEnd in *. cbn [hs_store hs_sweeps hs_missed] in *.
  destruct (sweep_spec fm now ids run s Hr Hw) as (new & r' & E' & Hs & He & _ & Hsp & _ & Hp).
  rewrite E' in E. injection E as <- ->.
  assert (nullish (latestEnd (runs s ++ [r])) 0 = now) as Hlast.
  { rewrite latestEnd_app, He. cbn. destruct (latestEnd (runs s)); cbn in *; lia. }
  split; unfold lastEnd; cbn [hs_store hs_sweeps hs_missed ledger payouts runs]; rewrite ?Hlast.
  - intros x [Hx|Hx]%elem_of_app; [specialize (H1 _ Hx); lia|]. apply list_elem_of_singleton in Hx as ->. lia.
  - lia.
  - by apply Forall_app.
  - intros d Hd. rewrite filter_app, length_app, filter_cons.
    destruct (decide (d < nullish (latestEnd (runs s)) 0)).
    + rewrite decide_False by (unfold in_window; rewrite Hs, He; lia). cbn. rewrite H4 by lia. done.
    + rewrite decide_True by (unfold in_window; rewrite Hs, He; lia). cbn. rewrite (proj2 (length_zero_iff_nil _)); [done|].
      apply elem_of_nil_inv. intros x [Hin Hx]%list_elem_of_filter. specialize (H1 _ Hx). unfold in_window in Hin. lia.
  - intros mid code. rewrite sumZ_app. cbn [sumZ snd]. unfold swept_events.
    rewrite (account_net_split mid code 0 (nullish (latestEnd (runs s)) 0) now) by lia. rewrite H5. lia.
  - intros mid code. unfold paid in *. rewrite !sumZ_app, H6, Hp. cbn [sumZ fst snd]. lia.
Qed.

Lemma reachable_swept h : rtc step empty_history h → ledger_swept h.
Proof.
  intros H. eapply (invariant_rtc step ledger_swept); [|exact H|].
  - intros x y [s sweeps missed ev Hev|s sweeps missed s' now fm ids run r Hn Hr Hw E] Hx; [by apply event_preserves|by eapply sweep_preserves].
  - split; unfold lastEnd; cbn; try lia; try done. set_solver.
Qed.

(** C15: over any history of ledger writes, whatever times of creation they carry, and of
    sweeps that run to their end, with merchants that change in between: every moment before
    the end of the last window lies in exactly one window; what the sweeps found adds up to
    the account's ledger balance before that end, up to the events that were written behind
    it, which no sweep ever finds; and an account was paid exactly the positive balances of
    the sweeps at whose time it was connected. *)
Theorem payouts_cover_ledger (h : history) (mid code : string) :
  rtc step empty_history h →
  let s := hs_store h in
  (∀ d, 0 ≤ d < lastEnd s → length (filter (in_window d) (runs s)) = 1%nat)
  ∧ account_net mid code (findCreatedBetween 0 (lastEnd s) (ledger s))
    = sumZ (λ x, account_net mid code x.2) (hs_sweeps h) + account_net mid code (hs_missed h)
  ∧ paid mid code (payouts s) = sumZ (λ x, if connected x.1 mid then Z.max 0 (account_net mid code x.2) else 0) (hs_sweeps h)
  ∧ Forall split_ok (payouts s).
Proof. intros H. destruct (reachable_swept h H). done. Qed.

(** *** A concrete history *)

Definition c1 : MerchantEntity.t :=
  MerchantEntity.mk "c_1" 150 None None 0 0 true CONNECTED (Some "m_1"%string) 1000 30 STANDARD KYC_VERIFIED [].

Definition only_c1 (mid : string) : option MerchantEntity.t := if String.eqb mid "c_1" then Some c1 else None.

(** The ledger events of a split charge to [c_1] and of its reversal. *)
Definition sale (at_ : Date) (cents : Z) : LedgerOutboxEvent.t :=
  LedgerOutboxEvent.mk "ev" "pay" "CHARGE"
    [mkLedgerEntry "psp" PSP_SETTLEMENT DEBIT (usd cents) []; mkLedgerEntry "c_1" MERCHANT CREDIT (usd cents) []]
    LedgerOutboxEvent.PENDING at_ None 0 None.

Definition reversal (at_ : Date) (cents : Z) : LedgerOutboxEvent.t :=
  LedgerOutboxEvent.mk "ev" "pay" "REFUND"
    [mkLedgerEntry "c_1" MERCHANT DEBIT (usd cents) []; mkLedgerEntry "psp" PSP_SETTLEMENT CREDIT (usd cents) []]
    LedgerOutboxEvent.PENDING at_ None 0 None.

Lemma only_c1_rates : rates_ok only_c1.
Proof. intros mid m. unfold only_c1. destruct (String.eqb mid "c_1"); [intros [= <-]; cbn; lia|discriminate]. Qed.

Lemma window_ok_bound events : entries_wf (merchantEntries events) →
  sumZ (λ e, Money.amountMinorUnits (amount e)) (merchantEntries events) ≤ 2 ^ 53 → window_ok events.
Proof.
  intros Hwf Hmax. split; [done|]. intros mid code. etransitivity; [|exact Hmax]. clear Hmax. unfold account_net.
  induction Hwf as [|e l [He _] _ IH]; cbn [sumZ]; [lia|]. apply Z.add_le_mono; [|exact IH].
  unfold entry_net, sign_of. destruct (entryType e); case_decide; lia.
Qed.

Lemma sale_reversal_window :
  window_ok (swept_events (mkStore [sale 10 10000; reversal 15 2500] [] []) 20).
Proof.
  assert (merchantEntries (swept_events (mkStore [sale 10 10000; reversal 15 2500] [] []) 20)
    = [mkLedgerEntry "c_1" MERCHANT CREDIT (usd 10000) []; mkLedgerEntry "c_1" MERCHANT DEBIT (usd 2500) []])
    as E by reflexivity.
  apply window_ok_bound; rewrite E; [|cbn; lia].
  constructor; [by apply usd_wf|]. constructor; [by apply usd_wf|]. constructor.
Qed.

Lemma sale_window : window_ok (swept_events (mkStore [sale 10 10000] [] []) 20).
Proof.
  assert (merchantEntries (swept_events (mkStore [sale 10 10000] [] []) 20)
    = [mkLedgerEntry "c_1" MERCHANT CREDIT (usd 10000) []]) as E by reflexivity.
  apply window_ok_bound; rewrite E; [|cbn; lia]. constructor; [by apply usd_wf|]. constructor.
Qed.

Lemma payout_sweep_exact_witness :
  ∃ new r, runSweep only_c1 20 (λ _, "po"%string) "run" false (mkStore [sale 10 10000; reversal 15 2500] [] [])
           = (false, mkStore [sale 10 10000; reversal 15 2500] ([] ++ new) ([] ++ [r]), Ok (Some r))
    ∧ PayoutSweepRun.windowStart r = 0 ∧ PayoutSweepRun.windowEnd r = 20
    ∧ PayoutSweepRun.connectedMerchantsPaid r = Z.of_nat (length new)
    ∧ Forall split_ok new ∧ NoDup (payout_pair <$> new)
    ∧ ∀ mid code, paid mid code new
        = if connected only_c1 mid
          then Z.max 0 (account_net mid code (swept_events (mkStore [sale 10 10000; reversal 15 2500] [] []) 20)) else 0.
Proof.
  apply (payout_sweep_exact only_c1 20 (λ _, "po"%string) "run" (mkStore [sale 10 10000; reversal 15 2500] [] [])).
  - exact only_c1_rates.
  - exact sale_reversal_window.
Defined.

(** A sale, the sweep of the window it lies in, and a sale of that window that commits too
    late. *)
Definition after_sweep : Store :=
  (runSweepLocked only_c1 20 (λ _, "po"%string) "run" None (mkStore [sale 10 10000] [] [])).1.

Definition after_late : history :=
  mkHistory (after_sweep {{ ledger := ledger after_sweep ++ [sale 15 300] }})
    [(only_c1, swept_events (mkStore [sale 10 10000] [] []) 20)] [sale 15 300].

Lemma after_late_reachable : rtc step empty_history after_late.
Proof.
  eapply rtc_l; [apply (step_event (mkStore [] [] []) [] [] (sale 10 10000)); cbn; lia|]. cbn.
  destruct (sweep_spec only_c1 20 (λ _, "po"%string) "run" _ only_c1_rates sale_window) as (new & r & E & Hs & He & _).
  eapply rtc_l; [eapply step_sweep; [|exact only_c1_rates|exact sale_window|exact E]; cbn; lia|].
  assert (lastEnd after_sweep = 20) as Hl by by vm_compute.
  assert (after_sweep = mkStore [sale 10 10000] new [r]) as Ha by by unfold after_sweep; rewrite E.
  pose proof (step_event after_sweep [(only_c1, swept_events (mkStore [sale 10 10000] [] []) 20)] [] (sale 15 300) ltac:(cbn; lia)) as Hstep.
  rewrite Hl in Hstep. unfold after_late. rewrite Ha in Hstep |- *. apply rtc_once. exact Hstep.
Qed.

Lemma payouts_cover_ledger_witness :
  let s := hs_store after_late in
  (∀ d, 0 ≤ d < lastEnd s → length (filter (in_window d) (runs s)) = 1%nat)
  ∧ account_net "c_1" "USD" (findCreatedBetween 0 (lastEnd s) (ledger s))
    = sumZ (λ x, account_net "c_1" "USD" x.2) (hs_sweeps after_late) + account_net "c_1" "USD" (hs_missed after_late)
  ∧ paid "c_1" "USD" (payouts s)
    = sumZ (λ x, if connected x.1 "c_1" then Z.max 0 (account_net "c_1" "USD" x.2) else 0) (hs_sweeps after_late)
  ∧ Forall split_ok (payouts s).
Proof. exact (payouts_cover_ledger after_late "c_1" "USD" after_late_reachable). Defined.

(** The sweeps of a list of times, with no reserve withheld. *)
Definition no_reserve (mid : string) : option MerchantEntity.t :=
  (λ m, m {{ MerchantEntity.payoutReserveBps := 0 }}) <$> only_c1 mid.

Definition sweeps (times : list Date) (s : Store) : Store :=
  foldl (λ s now, (runSweepLocked no_reserve now (λ _, "po"%string) "run" None s).1) s times.

(** A window in which an account's refunds exceed its charges is skipped and
    never settled against later windows: here an account whose ledger balance is
    90.00 has been paid 150.00. And a sweep that dies after saving its payouts
    but before saving its run is repeated on the same window: the account of
    100.00 is paid 200.00. *)
Theorem sweeps_can_overpay :
  (let s := sweeps [20; 40; 60] (mkStore [sale 10 10000; reversal 30 6000; sale 50 5000] [] []) in
   account_net "c_1" "USD" (findCreatedBetween 0 60 (ledger s)) = 9000 ∧ paid "c_1" "USD" (payouts s) = 15000)
  ∧ (let s := sweeps [20] (runSweepLocked no_reserve 15 (λ _, "po"%string) "run" (Some 1%nat)
                             (mkStore [sale 10 10000] [] [])).1 in
     account_net "c_1" "USD" (findCreatedBetween 0 20 (ledger s)) = 10000 ∧ paid "c_1" "USD" (payouts s) = 20000).
Proof. vm_compute. repeat split. Qed.

(** ** Transfers *)

(** The fee a payout's own record says was kept back from its transfer. *)
Definition recorded_fee (p : t) : Z :=
  match _transferRail p, _instantFeeAmount p with
  | Some INSTANT, Some fee => Money.amountMinorUnits fee
  | _, _ => 0
  end.

(** The transfers the bank has accepted for a payout and not returned, against its row. *)
Definition transfers_ok (p : t) (live : list Money.t) : Prop :=
  Money.wf (_netAmount p)
  ∧ if bool_decide (_transferStatus p = INITIATED) || bool_decide (_transferStatus p = PENDING_CONFIRMATION)
    then ∃ a, live = [a] ∧ 0 < Money.amountMinorUnits a ∧ _kycBlocked p = false
              ∧ Money.amountMinorUnits a + recorded_fee p = Money.amountMinorUnits (_netAmount p)
    else live = [].

(** A payout, the transfers the bank said it accepted and has not returned, and the requests
    that got no answer. *)
Record transfers := mkTransfers { tr_row : t; tr_live : list Money.t; tr_unanswered : list Money.t }.

(** What a request adds to them. *)
Definition answered (bank : Money.t → result BankResponse) (sent : option Money.t) (row : t) (x : transfers) : transfers :=
  match sent with
  | None => mkTransfers row (tr_live x) (tr_unanswered x)
  | Some a =>
      match bank a with
      | Throw _ => mkTransfers row (tr_live x) (a :: tr_unanswered x)
      | Ok (DECLINED _) => mkTransfers row (tr_live x) (tr_unanswered x)
      | Ok _ => mkTransfers row (a :: tr_live x) (tr_unanswered x)
      end
  end.

(** Calls that run one after the other. A failed settlement is reported for a
    transfer that awaits confirmation, and gives the money back. *)
Inductive tstep : transfers → transfers → Prop :=
| ts_initiate x now merchant rail bank row' sent r :
    initiateTransfer now merchant rail bank (tr_row x) = (row', sent, r) → tstep x (answered bank sent row' x)
| ts_settled x now tid reason :
    tstep x (mkTransfers (confirmNetAmountTransfer now tid SETTLED reason (tr_row x)) (tr_live x) (tr_unanswered x))
| ts_returned x now tid reason :
    _transferStatus (tr_row x) = PENDING_CONFIRMATION →
    tstep x (mkTransfers (confirmNetAmountTransfer now tid SETTLEMENT_FAILED reason (tr_row x)) (tail (tr_live x)) (tr_unanswered x))
| ts_kyc x now : tstep x (mkTransfers (PayoutRepository.markKycCleared now (tr_row x)).2 (tr_live x) (tr_unanswered x))
| ts_reserve x now : tstep x (mkTransfers (PayoutRepository.markReserveReleased now (tr_row x)).2 (tr_live x) (tr_unanswered x)).

Definition fee_units (fee : option Money.t) : Z :=
  match fee with Some f => Money.amountMinorUnits f | None => 0 end.

Lemma prepareTransfer_ok merchant rail p rail' a fee : Money.wf (_netAmount p) →
  prepareTransfer merchant rail p = Ok (rail', a, fee) →
  _kycBlocked p = false ∧ 0 < Money.amountMinorUnits a
  ∧ Money.amountMinorUnits a + fee_units fee = Money.amountMinorUnits (_netAmount p)
  ∧ (isSome fee = true ↔ rail' = INSTANT)
  ∧ bool_decide (_transferStatus p = INITIATED) || bool_decide (_transferStatus p = PENDING_CONFIRMATION) = false.
Proof.
  intros [Hn _] H. unfold prepareTransfer in H. cbv zeta in H.
  apply bind_ok_iff in H as (? & Hk%throw_if_ok & H). apply bind_ok_iff in H as (? & Hz%throw_if_ok & H).
  apply bind_ok_iff in H as (? & Hs%throw_if_ok & H). unfold Money.isZero in Hz. apply Z.eqb_neq in Hz.
  destruct (nullish rail _).
  - injection H as <- <- <-. cbn. split_and!; try done; try lia.
  - apply bind_ok_iff in H as (f & _ & H). apply bind_ok_iff in H as (? & Hlt%throw_if_ok & H).
    apply Z.leb_gt in Hlt. apply bind_ok_iff in H as (r & (_ & _ & ->)%subtract_ok & H).
    injection H as <- <- <-. cbn. split_and!; try done; lia.
Qed.

(** The bank's answer, once written, on a row that has no live transfer. *)
Lemma commitTransfer_ok now rail a fee response p : Money.wf (_netAmount p) → _kycBlocked p = false →
  0 < Money.amountMinorUnits a → Money.amountMinorUnits a + fee_units fee = Money.amountMinorUnits (_netAmount p) →
  (isSome fee = true ↔ rail = INSTANT) →
  bool_decide (_transferStatus p = INITIATED) || bool_decide (_transferStatus p = PENDING_CONFIRMATION) = false →
  transfers_ok (commitTransfer now rail fee response p).1 match response with DECLINED _ => [] | _ => [a] end.
Proof.
  intros Hn Hk Ha Hsum Hrail Hst. pose proof (proj1 (orb_false_elim _ _ Hst)) as Hi.
  destruct response as [tid|tid|e]; unfold commitTransfer.
  - unfold PayoutRepository.markTransferInitiated. rewrite Hi. destruct p. cbn in *. split; [done|]. exists a.
    split_and!; try done. destruct rail, fee; cbn in *; try lia; naive_solver.
  - unfold PayoutRepository.markTransferPending. rewrite Hst. destruct p. cbn in *. split; [done|]. exists a.
    split_and!; try done. destruct rail, fee; cbn in *; try lia; naive_solver.
  - destruct p. cbn in *. done.
Qed.

Lemma initiate_step x now merchant rail bank row' sent r :
  initiateTransfer now merchant rail bank (tr_row x) = (row', sent, r) → transfers_ok (tr_row x) (tr_live x) →
  transfers_ok (tr_row (answered bank sent row' x)) (tr_live (answered bank sent row' x)).
Proof.
  destruct x as [row live un]. cbn [tr_row tr_live]. intros E [Hn Hlive]. unfold initiateTransfer in E.
  destruct (prepareTransfer merchant rail row) as [[[rail' a] fee]|e] eqn:Ep; [|injection E as <- <- _; done].
  destruct (prepareTransfer_ok _ _ _ _ _ _ Hn Ep) as (Hk & Ha & Hsum & Hrail & Hst).
  unfold answered. destruct (bank a) as [response|e] eqn:Eb; [|injection E as <- <- _; rewrite Eb; done].
  rewrite Hst in Hlive. subst live. pose proof (commitTransfer_ok now rail' a fee response row Hn Hk Ha Hsum Hrail Hst) as Hc.
  destruct (commitTransfer now rail' fee response row) as [row1 r1]. injection E as <- <- _.
  cbn [fst] in Hc. rewrite Eb. destruct response; exact Hc.
Qed.

Lemma tstep_invariant : invariant tstep (λ x, transfers_ok (tr_row x) (tr_live x)).
Proof.
  intros x y [x' now m rail bank row' sent r E|[row live un] now tid reason|[row live un] now tid reason Hp
             |[row live un] now|[row live un] now] H; cbn [tr_row tr_live] in *.
  - by eapply initiate_step.
  - unfold confirmNetAmountTransfer. case_bool_decide as Hp; cbn [negb]; [|done].
    unfold PayoutRepository.markTransferInitiated. rewrite bool_decide_eq_false_2 by (by rewrite Hp).
    destruct row; cbn in *. by subst.
  - unfold confirmNetAmountTransfer. rewrite bool_decide_eq_true_2 by done. cbn [negb].
    destruct row; cbn in *; subst. destruct H as (Hn & a & -> & _). done.
  - unfold PayoutRepository.markKycCleared. destruct (_kycBlocked row) eqn:Hk; [|done].
    destruct row; cbn in *; subst. destruct H as [Hn H]. split; [done|]. cbn in *.
    destruct (_ || _); [|done]. by destruct H as (a & _ & _ & ? & _).
  - unfold PayoutRepository.markReserveReleased. destruct (_reserveReleased row) eqn:Hk; [done|]. by destruct row.
Qed.

Lemma tstep_net m : invariant tstep (λ x, _netAmount (tr_row x) = m).
Proof.
  intros x y [[row live un] now mc rail bank row' sent r E|[row live un] now tid reason|[row live un] now tid reason Hp
             |[row live un] now|[row live un] now] <-; cbn [tr_row] in *.
  - assert (tr_row (answered bank sent row' (mkTransfers row live un)) = row') as -> by by unfold answered; repeat case_match.
    unfold initiateTransfer in E. destruct (prepareTransfer mc rail row) as [[[rail' a] fee]|e];
      [|by injection E as <- _ _]. destruct (bank a) as [response|e]; [|by injection E as <- _ _].
    destruct (commitTransfer now rail' fee response row) as [row1 r1] eqn:Ec. injection E as <- _ _.
    unfold commitTransfer, PayoutRepository.markTransferInitiated, PayoutRepository.markTransferPending in Ec.
    destruct response; [destruct (bool_decide _)|destruct (bool_decide _ || bool_decide _)|];
      injection Ec as <- _; by destruct row.
  - unfold confirmNetAmountTransfer, PayoutRepository.markTransferInitiated. repeat case_match; by destruct row.
  - unfold confirmNetAmountTransfer. case_match; by destruct row.
  - unfold PayoutRepository.markKycCleared. case_match; by destruct row.
  - unfold PayoutRepository.markReserveReleased. case_match; by destruct row.
Qed.


(** A payout of 90.00 net, sent on the instant rail. *)
Definition po_90 : t :=
  mk "po_1" "c_1" "run" (usd 10000) (usd 1000) (usd 9000) (Some 30) false None 0 false None
     NOT_INITIATED None None None NOT_INITIATED None None None None None.

Definition pending_bank (a : Money.t) : result BankResponse := Ok (PENDING "tr_1").
Definition silent_bank (a : Money.t) : result BankResponse := Throw (ExternalFailure "timeout").

Definition po_90_sent : t := (initiateTransfer 5 (Some c1) (Some INSTANT) pending_bank po_90).1.1.

Definition sent_90 : transfers := mkTransfers po_90_sent [usd 8865] [].

Lemma po_90_steps : rtc tstep (mkTransfers po_90 [] []) sent_90.
Proof.
  apply rtc_once. apply (ts_initiate (mkTransfers po_90 [] []) 5 (Some c1) (Some INSTANT) pending_bank
    po_90_sent (Some (usd 8865)) (Ok tt)). vm_compute. reflexivity.
Qed.


(** A request that got no answer leaves the payout as it was, and the next call sends the
    money again, under another key. *)
Theorem unanswered_transfer_sent_again :
  rtc tstep (mkTransfers po_90 [] []) (mkTransfers po_90_sent [usd 8865] [usd 8865])
  ∧ (initiateTransfer 4 (Some c1) (Some INSTANT) silent_bank po_90).1.1 = po_90.
Proof.
  split; [|vm_compute; reflexivity]. eapply rtc_l; [|apply rtc_once].
  - apply (ts_initiate (mkTransfers po_90 [] []) 4 (Some c1) (Some INSTANT) silent_bank po_90 (Some (usd 8865)) (Throw (ExternalFailure "timeout"))).
    vm_compute. reflexivity.
  - apply (ts_initiate (mkTransfers po_90 [] [usd 8865]) 5 (Some c1) (Some INSTANT) pending_bank po_90_sent (Some (usd 8865)) (Ok tt)).
    vm_compute. reflexivity.
Qed.

(** Two calls of [initiateTransfer] that both read the payout before either
    writes it back both hand the full amount to the bank; the conditional update
    refuses the second only after its transfer has been sent. *)
Theorem concurrent_transfers_both_sent (merchant : option MerchantEntity.t) (rail : option PayoutRail) (p : t)
    (rail' : PayoutRail) (a : Money.t) (fee : option Money.t) (now1 now2 : Date) (t1 t2 : string) :
  prepareTransfer merchant rail p = Ok (rail', a, fee) →
  let '(p1, r1) := commitTransfer now1 rail' fee (SENT t1) p in
  let '(p2, r2) := commitTransfer now2 rail' fee (SENT t2) p1 in
  r1 = Ok tt ∧ r2 = Throw (HttpException 409 "PAYOUT_TRANSFER_ALREADY_INITIATED")
  ∧ p2 = p1 ∧ _transferId p2 = Some t1.
Proof.
  intros H. assert (_transferStatus p ≠ INITIATED) as Hs.
  { unfold prepareTransfer in H. do 2 apply bind_ok_iff in H as (? & _ & H).
    apply bind_ok_iff in H as (? & Hx%throw_if_ok & _). apply orb_false_iff in Hx as [Hx _]. by apply bool_decide_eq_false in Hx. }
  unfold commitTransfer, PayoutRepository.markTransferInitiated. rewrite bool_decide_eq_false_2 by done.
  by destruct p.
Qed.

Lemma concurrent_transfers_both_sent_witness :
  let '(p1, r1) := commitTransfer 5 STANDARD None (SENT "tr_1") po_90 in
  let '(p2, r2) := commitTransfer 6 STANDARD None (SENT "tr_2") p1 in
  r1 = Ok tt ∧ r2 = Throw (HttpException 409 "PAYOUT_TRANSFER_ALREADY_INITIATED")
  ∧ p2 = p1 ∧ _transferId p2 = Some "tr_1"%string.
Proof.
  apply (concurrent_transfers_both_sent (Some c1) None po_90 STANDARD (usd 9000) None 5 6 "tr_1" "tr_2").
  reflexivity.
Defined.
