(* ===== verification/ReserveCorrect.v ===== *)
(** * Correctness of the rolling reserve

    The reserve account of the ledger holds exactly what the hold says it does,
    over any sequence of top-ups and releases; and the interleaving of a top-up
    with a release that breaks this. *)

From S2P Require Import Prelude JsNumber Money Policies Payment Merchant Ledger LedgerCorrect Payout.
Import LedgerOutboxEvent ReserveHold ReserveService.

(** What an event moves into the reserve account. *)
Definition reserve_line (e : LedgerEntry) : Z :=
  if decide (accountType e = RESERVE) then
    match entryType e with CREDIT => 1 | DEBIT => -1 end * Money.amountMinorUnits (amount e)
  else 0.

Definition reserve_net (events : list LedgerOutboxEvent.t) : Z :=
  sumZ (λ ev, sumZ reserve_line (entries ev)) events.

Lemma release_event now id pid mid m :
  ∃ ev, createReserveReleaseEntries now id pid mid m = Ok ev ∧ balanced (entries ev)
        ∧ reserve_net [ev] = - Money.amountMinorUnits m.
Proof.
  unfold createReserveReleaseEntries. rewrite create_balanced by (apply balanced_net; intros code; net_solve).
  eexists. split_and!; [done|apply balanced_net; intros code; cbn [entries]; net_solve|].
  unfold reserve_net, reserve_line. cbn [entries sumZ accountType entryType amount].
  rewrite decide_True by done. rewrite decide_False by done. lia.
Qed.

Lemma topUp_event now id pid mid m :
  ∃ ev, createReserveTopUpEntries now id pid mid m = Ok ev ∧ balanced (entries ev)
        ∧ reserve_net [ev] = Money.amountMinorUnits m.
Proof.
  unfold createReserveTopUpEntries. rewrite create_balanced by (apply balanced_net; intros code; net_solve).
  eexists. split_and!; [done|apply balanced_net; intros code; cbn [entries]; net_solve|].
  unfold reserve_net, reserve_line. cbn [entries sumZ accountType entryType amount].
  rewrite decide_False by done. rewrite decide_True by done. lia.
Qed.

(** A hold withholds part of the net amount of its charge. *)
Record hold_ok (h : ReserveHold.t) : Prop := {
  ho_amount : Money.wf (_amount h);
  ho_net : Money.wf (_netAmount h);
  ho_same : Money.currency (_amount h) = Money.currency (_netAmount h);
  ho_le : Money.amountMinorUnits (_amount h) ≤ Money.amountMinorUnits (_netAmount h) ≤ 2 ^ 53 }.

Lemma topUpOne_spec now id bps h : hold_ok h → _status h = HELD → 0 ≤ bps ≤ 10000 →
  ∃ target, Money.multiply (_netAmount h) (bps_factor bps) = Ok target
  ∧ if decide (Money.amountMinorUnits target ≤ Money.amountMinorUnits (_amount h))
    then topUpOne now id bps h = Ok None
    else ∃ ev, topUpOne now id bps h
               = Ok (Some (h {{ _amount := Money.mk (Money.amountMinorUnits target) (Money.currency (_amount h)) None }}, ev))
           ∧ balanced (entries ev)
           ∧ reserve_net [ev] = Money.amountMinorUnits target - Money.amountMinorUnits (_amount h)
           ∧ Money.amountMinorUnits target ≤ Money.amountMinorUnits (_netAmount h).
Proof.
  intros [[Ha _] Hn Hs Hle] Hst Hb.
  destruct (multiply_bps_le (_netAmount h) bps) as (r & E & Hr); [done|lia|done|].
  exists (Money.mk r (Money.currency (_netAmount h)) None). split; [done|]. cbn [Money.amountMinorUnits].
  unfold topUpOne. rewrite E. cbn [mbind result_bind]. unfold Money.isGreaterThan.
  rewrite assertSameCurrency_same by (unfold Money.same; cbn; by rewrite Hs). cbn [mbind result_bind Money.amountMinorUnits].
  case_decide as Hd.
  - by rewrite (proj2 (Z.ltb_ge _ _) Hd).
  - rewrite (proj2 (Z.ltb_lt _ _)) by lia. cbn [negb].
    rewrite subtract_total by (unfold Money.same; cbn; rewrite ?Hs; done || lia). cbn [mbind result_bind].
    unfold topUp. rewrite bool_decide_eq_true_2 by done. cbn [negb throw_if mbind result_bind].
    unfold Money.isZero. cbn [Money.amountMinorUnits]. rewrite (proj2 (Z.eqb_neq _ _)) by lia.
    cbn [throw_if mbind result_bind]. rewrite (proj2 (add_ok _ _ _)) by (split_and!; [unfold Money.same; cbn; by rewrite Hs|cbn; lia|done]).
    cbn [mbind result_bind Money.amountMinorUnits Money.currency].
    destruct (topUp_event now id (_paymentId h) (_merchantId h)
      (Money.mk (r - Money.amountMinorUnits (_amount h)) (Money.currency (_netAmount h)) None)) as (ev & -> & Hbal & Hnet).
    exists ev. cbn [mbind result_bind]. split_and!; [|done..|lia]. rewrite Zplus_minus. by destruct h.
Qed.

(** ** The life of a hold *)

(** Calls that run one after the other on a hold, with the ledger events they
    write. The query behind the top-ups returns only holds that are HELD. *)
Inductive rstep : ReserveHold.t * list LedgerOutboxEvent.t → ReserveHold.t * list LedgerOutboxEvent.t → Prop :=
| rs_release h evs now id force r h' ev :
    release now id force (Some h) h = (r, h', ev) →
    rstep (h, evs) (h', evs ++ match ev with Some ev => [ev] | None => [] end)
| rs_topUp h evs now id bps h' ev :
    _status h = HELD → 0 ≤ bps ≤ 10000 → topUpOne now id bps h = Ok (Some (h', ev)) →
    rstep (h, evs) (h', evs ++ [ev]).

(** The reserve account of a hold that began with [initial] withheld. *)
Definition reserve_ok (initial : Z) (x : ReserveHold.t * list LedgerOutboxEvent.t) : Prop :=
  hold_ok x.1 ∧ Forall (λ ev, balanced (entries ev)) x.2
  ∧ initial + reserve_net x.2 = if decide (_status x.1 = HELD) then Money.amountMinorUnits (_amount x.1) else 0.

Lemma release_spec now id force h : _status h = HELD → force = true ∨ _releaseEligibleAt h ≤ now →
  ∃ ev, release now id force (Some h) h
        = (Ok (h {{ _status := RELEASED; _releasedAt := Some now }}),
           h {{ _status := RELEASED; _releasedAt := Some now }}, Some ev)
      ∧ balanced (entries ev) ∧ reserve_net [ev] = - Money.amountMinorUnits (_amount h).
Proof.
  intros Hs Hf. unfold release, markReleased. rewrite bool_decide_eq_true_2 by done. cbn [negb].
  assert (negb force && (now <? _releaseEligibleAt h) = false) as Hel.
  { destruct Hf as [->|Hf]; [done|]. rewrite (proj2 (Z.ltb_ge _ _) Hf). apply andb_false_r. }
  rewrite Hel. destruct (release_event now id (_paymentId h) (_merchantId h) (_amount h)) as (ev & -> & Hb & Hn).
  exists ev. split; [|done]. unfold ReserveHold.release. rewrite bool_decide_eq_true_2 by done. cbn [negb].
  by rewrite Hel.
Qed.

(** The calls that are refused. *)
Lemma release_refused now id force h :
  _status h ≠ HELD ∨ (force = false ∧ now < _releaseEligibleAt h) →
  ∃ e, release now id force (Some h) h = (Throw e, h, None).
Proof.
  intros Hd. unfold release. case_bool_decide; cbn [negb]; [|eauto].
  destruct Hd as [?|[-> Hlt]]; [done|]. rewrite (proj2 (Z.ltb_lt _ _) Hlt). cbn. eauto.
Qed.

Lemma reserve_net_app l1 l2 : reserve_net (l1 ++ l2) = reserve_net l1 + reserve_net l2.
Proof. apply sumZ_app. Qed.

Lemma rstep_invariant initial : invariant rstep (reserve_ok initial).
Proof.
  intros x y [h evs now id force r h' ev E|h evs now id bps h' ev Hs Hb E] (Hok & Hbal & Hnet); cbn [fst snd] in *.
  - destruct (decide (_status h = HELD ∧ (force = true ∨ _releaseEligibleAt h ≤ now))) as [[Hs Hf]|Hno].
    + destruct (release_spec now id force h Hs Hf) as (ev' & E' & Hb & Hn). rewrite E' in E. injection E as <- <- <-.
      split_and!; cbn [fst snd].
      * destruct Hok, h. by split.
      * by apply Forall_app, conj, Forall_singleton.
      * rewrite reserve_net_app, Hn. rewrite decide_True in Hnet by done. rewrite decide_False by (by destruct h). lia.
    + destruct (release_refused now id force h) as (e & E').
      { destruct (decide (_status h = HELD)); [right|by left]. destruct force; [naive_solver|]. split; [done|].
        destruct (Z.le_gt_cases (_releaseEligibleAt h) now); [naive_solver|lia]. }
      rewrite E' in E. injection E as <- <- <-. rewrite app_nil_r. done.
  - destruct (topUpOne_spec now id bps h Hok Hs Hb) as (target & Et & Hsp). case_decide; [congruence|].
    destruct Hsp as (ev' & E' & Hb' & Hn & Hle). rewrite E' in E. injection E as <- <-.
    destruct Hok as [[Ha Hc] Hn' Hsame Hle']. rewrite decide_True in Hnet by done.
    split_and!; cbn [fst snd].
    * destruct h. split; cbn in *; [split; cbn; [lia|done]|done|done|lia].
    * by apply Forall_app, conj, Forall_singleton.
    * rewrite reserve_net_app, Hn. destruct h. cbn in *. rewrite decide_True by done. lia.
Qed.

(** Over any sequence of top-ups and release attempts on a hold, the ledger's
    reserve account carries exactly the held amount while the hold is HELD and
    nothing once it is RELEASED, every event balances, and no more than the
    charge's net amount is ever withheld. *)
Theorem reserve_history_exact (h h' : ReserveHold.t) (evs : list LedgerOutboxEvent.t) :
  hold_ok h → _status h = HELD → rtc rstep (h, []) (h', evs) →
  Money.amountMinorUnits (_amount h) + reserve_net evs
    = (if decide (_status h' = HELD) then Money.amountMinorUnits (_amount h') else 0)
  ∧ Forall (λ ev, balanced (entries ev)) evs
  ∧ Money.amountMinorUnits (_amount h') ≤ Money.amountMinorUnits (_netAmount h').
Proof.
  intros Hok Hs H.
  destruct (invariant_rtc _ _ _ _ (rstep_invariant (Money.amountMinorUnits (_amount h))) H) as (Hok' & Hb & Hn).
  - split_and!; cbn [fst snd]; [done|constructor|]. rewrite decide_True by done. cbn. lia.
  - split_and!; [done..|]. apply Hok'.
Qed.

(** 5.00 held of 100.00, topped up to 10.00 and released. *)
Definition hold_5 : ReserveHold.t :=
  ReserveHold.mk "rh_1" "pay_1" "m_1" (usd 500) (usd 10000) HELD 1000 0 None.

Lemma hold_5_ok : hold_ok hold_5.
Proof. split; cbn; [by apply usd_wf|by apply usd_wf|done|lia]. Qed.

Definition hold_10 : ReserveHold.t :=
  ReserveHold.mk "rh_1" "pay_1" "m_1" (usd 1000) (usd 10000) HELD 1000 0 None.

Definition hold_10_released : ReserveHold.t :=
  ReserveHold.mk "rh_1" "pay_1" "m_1" (usd 1000) (usd 10000) RELEASED 1000 0 (Some 2000).

Definition topped_up : LedgerOutboxEvent.t :=
  LedgerOutboxEvent.mk "ev_1" "pay_1" "RESERVE_TOPPED_UP"
    [mkLedgerEntry "m_1" MERCHANT DEBIT (usd 500) [Txt "Reserve topped up (risk tier escalation) for payment pay_1"];
     mkLedgerEntry "m_1_RESERVE" RESERVE CREDIT (usd 500)
       [Txt "Reserve topped up (risk tier escalation) for payment pay_1"]]
    PENDING 10 None 0 None.

Definition released : LedgerOutboxEvent.t :=
  LedgerOutboxEvent.mk "ev_2" "pay_1" "RESERVE_RELEASED"
    [mkLedgerEntry "m_1_RESERVE" RESERVE DEBIT (usd 1000) [Txt "Reserve released for payment pay_1"];
     mkLedgerEntry "m_1" MERCHANT CREDIT (usd 1000) [Txt "Reserve released for payment pay_1"]]
    PENDING 2000 None 0 None.

Lemma hold_5_history : rtc rstep (hold_5, []) (hold_10_released, [topped_up; released]).
Proof.
  eapply rtc_l.
  - apply (rs_topUp hold_5 [] 10 "ev_1" 1000 hold_10 topped_up); [reflexivity|lia|vm_compute; reflexivity].
  - apply rtc_once.
    apply (rs_release hold_10 [topped_up] 2000 "ev_2" false (Ok hold_10_released) hold_10_released (Some released)).
    vm_compute. reflexivity.
Qed.

Lemma reserve_history_exact_witness :
  500 + reserve_net [topped_up; released]
    = (if decide (_status hold_10_released = HELD) then 1000 else 0)
  ∧ Forall (λ ev, balanced (entries ev)) [topped_up; released]
  ∧ 1000 ≤ 10000.
Proof.
  exact (reserve_history_exact hold_5 hold_10_released [topped_up; released] hold_5_ok eq_refl hold_5_history).
Defined.

(** A top-up that loaded its hold before a release committed writes the
    whole stale hold back: the released hold is HELD again, a second release
    succeeds, and the reserve account is overdrawn by the amount first
    released. *)
Theorem stale_top_up_releases_twice :
  match release 2000 "ev_1" false (Some hold_5) hold_5, topUpOne 2001 "ev_2" 1000 hold_5 with
  | (Ok _, h1, Some ev1), Ok (Some (h2, ev2)) =>
      _status h1 = RELEASED ∧ _status h2 = HELD
      ∧ match release 2002 "ev_3" false (Some h2) h2 with
        | (Ok h3, _, Some ev3) =>
            _status h3 = RELEASED
            ∧ Money.amountMinorUnits (_amount hold_5) + reserve_net [ev1; ev2; ev3]
              = - Money.amountMinorUnits (_amount hold_5)
        | _ => False
        end
  | _, _ => False
  end.
Proof. vm_compute. repeat split. Qed.
