(* ===== verification/Dispute.v ===== *)
(** * The dispute aggregate ([dispute.aggregate.ts]) *)

From S2P Require Import Prelude JsNumber Money Policies Payment.

Inductive DisputeStatus := NEEDS_RESPONSE | UNDER_REVIEW | RESOLVED (outcome : DisputeOutcome).

#[global] Instance DisputeOutcome_eq_dec : EqDecision DisputeOutcome.
Proof. solve_decision. Defined.
#[global] Instance DisputeStatus_eq_dec : EqDecision DisputeStatus.
Proof. solve_decision. Defined.

(** The string value of the status. *)
Definition dispute_status_str (s : DisputeStatus) : string :=
  match s with
  | NEEDS_RESPONSE => "NEEDS_RESPONSE"
  | UNDER_REVIEW => "UNDER_REVIEW"
  | RESOLVED WON => "WON"
  | RESOLVED LOST => "LOST"
  end.

Definition DEFAULT_RESPONSE_WINDOW_DAYS : Z := 7.

Module Dispute.

Record t := mk {
  _id : string;
  _paymentId : string;
  _merchantId : string;
  _pspProvider : PSPProvider;
  _pspDisputeId : string;
  _amount : Money.t;
  _reason : option string;
  _status : DisputeStatus;
  _respondBy : Date;
  _evidence : option string;
  _createdAt : Date;
  _updatedAt : Date;
  _autoDecision : option DisputePolicy.DisputeAutoDecision;
  _delegationId : option string;
  _initiatedBy : option PaymentInitiator;
  _merchantRiskTierAtDecision : option DisputePolicy.RiskTier }.

Definition create (now : Date) (id paymentId merchantId : string) (pspProvider : PSPProvider)
    (pspDisputeId : string) (amount : Money.t) (reason : option string)
    (autoDecision : option DisputePolicy.DisputeAutoDecision) (delegationId : option string)
    (initiatedBy : option PaymentInitiator) (tier : option DisputePolicy.RiskTier) : t :=
  mk id paymentId merchantId pspProvider pspDisputeId amount reason NEEDS_RESPONSE
    (now + DEFAULT_RESPONSE_WINDOW_DAYS * 24 * 60 * 60 * 1000) None now now autoDecision delegationId
    initiatedBy tier.

Definition reconstitute (id paymentId merchantId : string) (pspProvider : PSPProvider)
    (pspDisputeId : string) (amount : Money.t) (reason : option string) (status : DisputeStatus)
    (respondBy : Date) (evidence : option string) (createdAt updatedAt : Date)
    (autoDecision : option DisputePolicy.DisputeAutoDecision) (delegationId : option string)
    (initiatedBy : option PaymentInitiator) (tier : option DisputePolicy.RiskTier) : t :=
  mk id paymentId merchantId pspProvider pspDisputeId amount reason status respondBy evidence createdAt
    updatedAt autoDecision delegationId initiatedBy tier.

Definition submitEvidence (now : Date) (evidence : string) (d : t) : result t :=
  if bool_decide (_status d = NEEDS_RESPONSE)
  then Ok (d {{ _evidence := Some evidence; _status := UNDER_REVIEW; _updatedAt := now }})
  else Throw (Refused "submitEvidence" (dispute_status_str (_status d))).

Definition resolved (d : t) : bool := match _status d with RESOLVED _ => true | _ => false end.

Definition resolve (now : Date) (outcome : DisputeOutcome) (d : t) : result t :=
  if resolved d then Throw (Refused "resolve" (dispute_status_str (_status d)))
  else Ok (d {{ _status := RESOLVED outcome; _updatedAt := now }}).

End Dispute.
