(* ===== verification/Store.v ===== *)
(** * What the services write, and the monad they run in

    The services of one payment share its row, the ledger events booked for it,
    its reserve holds and its disputes; [Effects] collects them with the events
    they publish and the calls they make. A service method is a program of the
    state monad [M] with exceptions: what was written before a throw stays
    written. Hoare triples over [M] are how its theorems are stated. *)

From S2P Require Import Prelude JsNumber Money Policies Payment Ledger LedgerParams Payout Dispute.

Inductive StreakUpdate := USED | RESET.

(** ['dispute.created'] and ['dispute.resolved'] *)
Inductive DisputeEvent :=
  | DisputeCreated (d : Dispute.t)
  | DisputeResolved (d : Dispute.t) (outcome : DisputeOutcome).

Record Effects := mkEffects {
  row : option Payment.t;
  booked : list LedgerOutboxEvent.t;
  holds : list ReserveHold.t;
  disputes : list Dispute.t;
  published : list DomainEvent;
  disputeEvents : list DisputeEvent;
  streak : list StreakUpdate;
  calls : list PSPProvider }.

Definition no_effects : Effects := mkEffects None [] [] [] [] [] [] [].

Definition M (A : Type) : Type := Effects → Effects * result A.

#[global] Instance M_ret : MRet M := λ A a s, (s, Ok a).
#[global] Instance M_bind : MBind M := λ A B f m s,
  match m s with (s, Ok a) => f a s | (s, Throw e) => (s, Throw e) end.

Definition lift {A} (r : result A) : M A := λ s, (s, r).
Definition modify (f : Effects → Effects) : M unit := λ s, (f s, Ok tt).
Definition gets {A} (f : Effects → A) : M A := λ s, (s, Ok (f s)).
Definition throw {A} (e : js_error) : M A := lift (Throw e).

(** [try { m } catch (e) { h(e) }] *)
Definition catch {A} (m : M A) (h : js_error → M A) : M A := λ s,
  match m s with (s, Ok a) => (s, Ok a) | (s, Throw e) => h e s end.

(** [try { a = m } catch (e) { ... }], where the handler leaves the function. *)
Definition attempt {A} (m : M A) : M (A + js_error) := λ s,
  match m s with (s, Ok a) => (s, Ok (inl a)) | (s, Throw e) => (s, Ok (inr e)) end.

Definition write (p : Payment.t) : M unit := modify (λ s, s {{ row := Some p }}).

(** The events leave the aggregate; nothing reads it afterwards. *)
Definition publishDomainEvents (p : Payment.t) : M unit :=
  modify (λ s, s {{ published := published s ++ (Payment.pullDomainEvents p).1 }}).

(** [reserveService.recordHold], for the hold a charge may come with. *)
Definition recordHold (now : Date) (holdId paymentId merchantId : string) (hold : option ReserveHoldParams)
    : list ReserveHold.t :=
  match hold with
  | Some r => [ReserveHold.create now holdId paymentId merchantId (rh_amount r) (rh_netAmount r) (rh_holdDays r)]
  | None => []
  end.

(** The transaction that writes a charged payment: row, ledger event and reserve
    hold together. *)
Definition bookCharge (p : Payment.t) (ev : LedgerOutboxEvent.t) (hold : list ReserveHold.t) : M unit :=
  modify (λ s, s {{ row := Some p; booked := booked s ++ [ev]; holds := holds s ++ hold }}).

(** ** Hoare triples *)

Definition triple {A} (P : Effects → Prop) (m : M A) (Q : result A → Effects → Prop) : Prop :=
  ∀ s, P s → Q (m s).2 (m s).1.

Lemma triple_bind {A B} P (m : M A) (f : A → M B) (mid : A → Effects → Prop) Q :
  triple P m (λ r s, match r with Ok a => mid a s | Throw e => Q (Throw e) s end) →
  (∀ a, triple (mid a) (f a) Q) → triple P (m ≫= f) Q.
Proof.
  intros Hm Hf s Hs. specialize (Hm s Hs). unfold mbind, M_bind. destruct (m s) as [s' [a|e]]; cbn in *; [|done].
  by apply Hf.
Qed.

Lemma triple_ret {A} (P : Effects → Prop) (a : A) Q : (∀ s, P s → Q (Ok a) s) → triple P (mret a) Q.
Proof. intros H s Hs. by apply H. Qed.

Lemma triple_lift {A} (P : Effects → Prop) (r : result A) Q : (∀ s, P s → Q r s) → triple P (lift r) Q.
Proof. intros H s Hs. by apply H. Qed.

Lemma triple_modify (P : Effects → Prop) f Q : (∀ s, P s → Q (Ok tt) (f s)) → triple P (modify f) Q.
Proof. intros H s Hs. by apply H. Qed.

Lemma triple_gets {A} (P : Effects → Prop) (f : Effects → A) Q : (∀ s, P s → Q (Ok (f s)) s) → triple P (gets f) Q.
Proof. intros H s Hs. by apply H. Qed.

Lemma triple_attempt {A} P (m : M A) Q :
  triple P m (λ r s, Q (Ok (match r with Ok a => inl a | Throw e => inr e end)) s) → triple P (attempt m) Q.
Proof. intros Hm s Hs. specialize (Hm s Hs). unfold attempt. by destruct (m s) as [s' [a|e]]. Qed.

Lemma triple_catch {A} P (m : M A) (h : js_error → M A) (mid : js_error → Effects → Prop) Q :
  triple P m (λ r s, match r with Ok a => Q (Ok a) s | Throw e => mid e s end) →
  (∀ e, triple (mid e) (h e) Q) → triple P (catch m h) Q.
Proof.
  intros Hm Hh s Hs. specialize (Hm s Hs). unfold catch. destruct (m s) as [s' [a|e]]; cbn in *; [done|].
  by apply Hh.
Qed.

Lemma triple_weaken {A} (P : Effects → Prop) (m : M A) (Q Q' : result A → Effects → Prop) :
  triple P m Q → (∀ r s, Q r s → Q' r s) → triple P m Q'.
Proof. intros Hm HQ s Hs. by apply HQ, Hm. Qed.

(** A precondition on the data alone. *)
Lemma triple_pure {A} (φ : Prop) (P : Effects → Prop) (m : M A) Q :
  (φ → triple P m Q) → triple (λ s, P s ∧ φ) m Q.
Proof. intros H s [Hs Hφ]. by apply H. Qed.

Lemma triple_pre {A} (φ : Prop) (P P' : Effects → Prop) (m : M A) Q :
  (∀ s, P s → P' s ∧ φ) → (φ → triple P' m Q) → triple P m Q.
Proof. intros HP H s Hs. destruct (HP s Hs) as [Hs' Hφ]. by apply H. Qed.

(** Nothing is said of the answer: the invariant is kept on every path. *)
Abbreviation keeps I m := (triple I m (λ _, I)).

Lemma keeps_bind {A B} I (m : M A) (f : A → M B) : keeps I m → (∀ a, keeps I (f a)) → keeps I (m ≫= f).
Proof. intros Hm Hf. apply triple_bind with (λ _, I); [|done]. eapply triple_weaken; [exact Hm|]. by intros []. Qed.

Lemma keeps_ret {A} I (a : A) : keeps I (mret a).
Proof. by apply triple_ret. Qed.
Lemma keeps_lift {A} I (r : result A) : keeps I (lift r).
Proof. by apply triple_lift. Qed.
Lemma keeps_throw {A} I e : keeps I (throw (A := A) e).
Proof. by apply triple_lift. Qed.
Lemma keeps_attempt {A} I (m : M A) : keeps I m → keeps I (attempt m).
Proof. intros H. by apply triple_attempt. Qed.

(** A returned value of the error monad, and what it says. *)
Lemma triple_lift_bind {A B} P (r : result A) (f : A → M B) Q :
  (∀ a, r = Ok a → triple P (f a) Q) → (∀ e s, r = Throw e → P s → Q (Throw e) s) → triple P (lift r ≫= f) Q.
Proof.
  intros Hok Hthrow s Hs. unfold mbind, M_bind, lift. destruct r as [a|e]; [by apply Hok|by apply Hthrow].
Qed.

#[export] Hint Resolve keeps_bind keeps_ret keeps_lift keeps_throw keeps_attempt : omni.
