(* ===== verification/Checkout.v ===== *)
(** * Checkout: provider fallback and the saga

    [payment-processor.factory.ts], [acquirer-routing.service.ts] and
    [payment-checkout.saga.ts]. A provider's answer to a charge may depend on
    every call made before it, so the adapters are one function of the calls so
    far. What the saga writes (the payment row, the ledger, the reserve holds,
    the published events, the SCA streak) is the state [Effects] of a small
    monad with exceptions; a JavaScript object the saga mutates is rebound. *)

From S2P Require Import Prelude JsNumber Money Policies PaymentStatus Payment Merchant Ledger LedgerParams Routing Payout Dispute Store.

(** ** The processor factory *)

Definition isAmbiguousOutcomeError (e : js_error) : bool :=
  match e with PspError ambiguous _ _ => ambiguous | _ => false end.

Definition isTransientPspError (e : js_error) : bool :=
  match e with PspError _ (Some statusCode) _ => 500 <=? statusCode | _ => false end.

Module PaymentProcessorFactory.

(** The keys of [adapters], in insertion order. *)
Definition getRegisteredProviders : list PSPProvider := [STRIPE; ADYEN].

Definition getAdapter (provider : PSPProvider) : result PSPProvider :=
  if bool_decide (provider ∈ getRegisteredProviders) then Ok provider
  else Throw (NoAdapterRegistered (provider_name provider)).

(** The entry of a provider whose health check threw. *)
Definition unhealthy (provider : PSPProvider) : PSPHealthStatus :=
  mkPSPHealthStatus provider OPEN (Num.of_bigint 0) (Num.of_bigint 9999) (Num.of_bigint 99) (Num.of_bigint 9999)
    [] [] false.

Definition getAllHealthStatuses (getHealthStatus : PSPProvider → result PSPHealthStatus)
    : list (PSPProvider * PSPHealthStatus) :=
  (λ p, (p, match getHealthStatus p with Ok h => h | Throw _ => unhealthy p end)) <$> getRegisteredProviders.

Definition selectAdapter (getHealthStatus : PSPProvider → result PSPHealthStatus) (context : RoutingContext)
    : result RoutingDecision :=
  decision ← SmartRoutingStrategy.selectProvider context (getAllHealthStatuses getHealthStatus);
  _ ← getAdapter (selectedProvider decision);
  Ok decision.

Section execute.
Context {R : Type}.

(** [operation calls p]: the answer of provider [p] when [calls] were made
    before. [available]: the answer of [isAvailable()]. *)
Variable operation : list PSPProvider → PSPProvider → result R.
Variable available : PSPProvider → result bool.

(** The calls made, and the outcome: result, provider and [usedFallback]. *)
Definition outcome : Type := list PSPProvider * result (R * PSPProvider * bool).

(** The loop over [decision.fallbackProviders]. *)
Fixpoint tryFallbacks (calls : list PSPProvider) (lastFailureWasAmbiguous : bool) (l : list PSPProvider) : outcome :=
  match l with
  | [] => (calls, Throw (PspError lastFailureWasAmbiguous None "All PSP providers failed"))
  | fallbackProvider :: l =>
      match getAdapter fallbackProvider with
      | Throw e => (calls, Throw e)
      | Ok adapter =>
          match available adapter with
          | Throw e => (calls, Throw e)
          | Ok false => tryFallbacks calls lastFailureWasAmbiguous l
          | Ok true =>
              match operation calls adapter with
              | Ok result => (calls ++ [adapter], Ok (result, fallbackProvider, true))
              | Throw fallbackError => tryFallbacks (calls ++ [adapter]) (isAmbiguousOutcomeError fallbackError) l
              end
          end
      end
  end.

Definition executeDecision (decision : RoutingDecision) : outcome :=
  let adapter := selectedProvider decision in
  match operation [] adapter with
  | Ok result => ([adapter], Ok (result, adapter, false))
  | Throw primaryError =>
      if isAmbiguousOutcomeError primaryError || isTransientPspError primaryError then
        match operation [adapter] adapter with
        | Ok result => ([adapter; adapter], Ok (result, adapter, false))
        | Throw retryError =>
            if isAmbiguousOutcomeError retryError then
              ([adapter; adapter], Throw (PspError true None "outcome remains ambiguous after one retry"))
            else tryFallbacks [adapter; adapter] (isAmbiguousOutcomeError retryError) (fallbackProviders decision)
        end
      else tryFallbacks [adapter] (isAmbiguousOutcomeError primaryError) (fallbackProviders decision)
  end.

Definition executeWithFallback (getHealthStatus : PSPProvider → result PSPHealthStatus) (context : RoutingContext)
    : outcome :=
  match selectAdapter getHealthStatus context with
  | Throw e => ([], Throw e)
  | Ok decision => executeDecision decision
  end.

End execute.
End PaymentProcessorFactory.

(** ** The routing service *)

Module AcquirerRoutingService.
Import PaymentProcessorFactory.

Definition translateRoutingError (e : js_error) : js_error :=
  match e with
  | PreferredProviderNotEntitled _ => HttpException 422 "PREFERRED_PROVIDER_NOT_ENTITLED"
  | _ => e
  end.

Definition translated {A} (r : result A) : result A :=
  match r with Ok a => Ok a | Throw e => Throw (translateRoutingError e) end.

Definition selectOptimalAdapter (getHealthStatus : PSPProvider → result PSPHealthStatus) (context : RoutingContext)
    : result RoutingDecision :=
  translated (selectAdapter getHealthStatus context).

(** [recordRouting]: the answer of the exposure service, once a provider has
    answered. *)
Definition executeWithSmartRouting {R} (operation : list PSPProvider → PSPProvider → result R)
    (available : PSPProvider → result bool) (recordRouting : PSPProvider → result unit)
    (getHealthStatus : PSPProvider → result PSPHealthStatus) (context : RoutingContext) : @outcome R :=
  let '(calls, r) := executeWithFallback operation available getHealthStatus context in
  (calls, answer ← translated r; _ ← recordRouting answer.1.2; Ok answer).

End AcquirerRoutingService.

(** ** The saga *)

Inductive ChargeStatus := CHARGE_SUCCEEDED | CHARGE_REQUIRES_ACTION | CHARGE_REQUIRES_CAPTURE | CHARGE_FAILED.

#[global] Instance ChargeStatus_eq_dec : EqDecision ChargeStatus.
Proof. solve_decision. Defined.

(** [PSPChargeResponse]: [cr_answer] holds the fields that go into the payment. *)
Record PSPChargeResponse := mkPSPChargeResponse {
  cr_status : ChargeStatus;
  cr_answer : Payment.PspAnswer;
  cr_actionUrl : option string;
  cr_errorCode : option string;
  cr_errorMessage : option string }.

Inductive CaptureMethod := automatic | manual.

(** [in_metadata] holds the merchant, customer and order fields. *)
Record CheckoutSagaInput := mkCheckoutSagaInput {
  paymentId : string;
  in_idempotencyKey : string;
  in_amount : Money.t;
  in_metadata : PaymentMetadata;
  in_binInfo : option Bin.t;
  in_paymentMethodId : option string;
  in_cardToken : option string;
  in_preferredProvider : option PSPProvider;
  in_captureMethod : option CaptureMethod;
  in_splits : option (list (string * Money.t));
  in_delegationId : option string;
  in_initiatedBy : option PaymentInitiator;
  agentPercentOfRemainingMonthlyBudget : option number;
  in_isMitRenewal : option bool }.

Record CheckoutSagaResult := mkCheckoutSagaResult {
  res_paymentId : string;
  res_status : PaymentStatus;
  res_pspTransactionId : option string;
  res_pspProvider : PSPProvider;
  res_actionUrl : option string;
  res_riskScore : Z;
  res_requiresAction : bool;
  res_usedFallback : bool;
  res_estimatedFee : option Money.t;
  res_errorCode : option string }.

(** What the saga's ports answer in one run. A write is identified by the status
    of the payment it writes; the two routing calls read the health separately. A
    provider is asked with one request throughout the run, built from the input
    and the exemption. *)
Class CheckoutPorts := {
  existsForDelegationAndMerchant : string → string → result bool;
  save : result unit;
  update : PaymentStatus → result unit;
  transaction : result unit;
  getHealthStatus : PSPProvider → result PSPHealthStatus;
  getHealthStatusAgain : PSPProvider → result PSPHealthStatus;
  adapterAvailable : PSPProvider → result bool;
  charge : list PSPProvider → PSPProvider → result PSPChargeResponse;
  recordRouting : PSPProvider → result unit;
  getStreak : string → result Z;
  updateStreak : StreakUpdate → result unit;
  message : js_error → string }.

Module PaymentCheckoutSaga.

Section saga.
Context `{CheckoutPorts, ChargePorts}.
Context (now : Date) (eventId holdId : string).

(** [paymentRepository.update(payment)] *)
Definition updatePayment (p : Payment.t) : M unit := _ ← lift (update (Payment._status p)); write p.

Definition trackStreak (u : StreakUpdate) : M unit :=
  _ ← lift (updateStreak u); modify (λ s, s {{ streak := streak s ++ [u] }}).

(** The risk evaluations that follow a compensation are caught and logged, and
    so is a failure of the compensation itself. *)
Definition compensate_markFailed (p : Payment.t) (reason : string) (errorCode : option string)
    (pspProvider : option PSPProvider) (pspRiskSignal : option PspRiskSignal) : M unit :=
  catch (p ← lift (Payment.markFailed now reason errorCode pspProvider pspRiskSignal p);
         _ ← updatePayment p; publishDomainEvents p)
        (λ _, mret tt).

Definition compensate_markAmbiguous (p : Payment.t) (reason : string) : M unit :=
  catch (p ← lift (Payment.markAmbiguous now reason (Some "PSP_TIMEOUT_AMBIGUOUS"%string) p);
         _ ← updatePayment p; publishDomainEvents p)
        (λ _, mret tt).

(** The streak after a charge that went through. *)
Definition streakAfterCharge (input : CheckoutSagaInput) (requested : option Sca.ScaExemptionType)
    (a : Payment.PspAnswer) : M unit :=
  if truthy (in_paymentMethodId input) then
    if bool_decide (Payment.a_scaExemptionIndicator a = Some Sca.LOW_VALUE) then trackStreak USED
    else if bool_decide (requested = Some Sca.LOW_VALUE) then trackStreak RESET
    else mret tt
  else mret tt.

(** The SUCCEEDED branch up to the transaction: the payment and the ledger event. *)
Definition recordCharge (input : CheckoutSagaInput) (params : ChargeLedgerParams) (a : Payment.PspAnswer)
    (p : Payment.t) : result (Payment.t * LedgerOutboxEvent.t) :=
  let p :=
    match in_binInfo input with
    | Some bin =>
        Payment.recordInterchangeQualification
          (Interchange.evaluateInterchangeQualification (Bin.cardBrand bin) (Bin.cardProduct bin)
             (Payment.a_avsResult a) (Payment.a_cvvResult a) (Num.of_bigint 0)) p
    | None => p
    end in
  let p :=
    match settlementConversion params with
    | Some c =>
        let p := Payment.recordSettlementConversion (recorded_conversion c) p in
        match Tax.buildCrossBorderTaxRecord (in_amount input) (in_binInfo input) now with
        | Some taxRecord => Payment.recordTaxRecord taxRecord p
        | None => p
        end
    | None => p
    end in
  let p :=
    match splits params with
    | Some (_ :: _) =>
        Payment.finalizeSplitConversions (ChargeLedgerParamsResolverService.toPaymentSplits (splits params)) p
    | _ => p
    end in
  outboxEvent ← LedgerOutboxEvent.createChargeEntries now
    (charge_params eventId (paymentId input) (md_merchantId (in_metadata input)) (in_amount input) params);
  Ok (p, outboxEvent).

(** The transaction: payment row, ledger event and reserve hold together. *)
Definition commitCharge (input : CheckoutSagaInput) (params : ChargeLedgerParams) (p : Payment.t)
    (outboxEvent : LedgerOutboxEvent.t) : M unit :=
  _ ← lift transaction;
  bookCharge p outboxEvent
    (recordHold now holdId (paymentId input) (md_merchantId (in_metadata input)) (reserveHold params)).

(** Step 5. *)
Definition settle (input : CheckoutSagaInput) (params : ChargeLedgerParams)
    (requested : option Sca.ScaExemptionType) (riskScore : Z) (estimatedFee : Money.t)
    (chargeResult : PSPChargeResponse) (finalProvider : PSPProvider) (usedFallback : bool) (p : Payment.t)
    : M CheckoutSagaResult :=
  let a := cr_answer chargeResult in
  let transactionId := Some (Payment.a_pspTransactionId a) in
  match cr_status chargeResult with
  | CHARGE_SUCCEEDED =>
      p ← lift (Payment.markSucceeded now a p);
      _ ← streakAfterCharge input requested a;
      '(p, outboxEvent) ← lift (recordCharge input params a p);
      _ ← commitCharge input params p outboxEvent;
      _ ← publishDomainEvents p;
      mret (mkCheckoutSagaResult (paymentId input) SUCCEEDED transactionId finalProvider None riskScore false
              usedFallback (Some estimatedFee) None)
  | CHARGE_REQUIRES_CAPTURE =>
      p ← lift (Payment.requiresCapture now a p);
      _ ← streakAfterCharge input requested a;
      _ ← updatePayment p;
      _ ← publishDomainEvents p;
      mret (mkCheckoutSagaResult (paymentId input) REQUIRES_CAPTURE transactionId finalProvider None riskScore false
              usedFallback (Some estimatedFee) None)
  | CHARGE_REQUIRES_ACTION =>
      p ← lift (Payment.requiresAction now (nullish (cr_actionUrl chargeResult) "") riskScore transactionId p);
      _ ← (if truthy (in_paymentMethodId input) && bool_decide (requested = Some Sca.LOW_VALUE)
           then trackStreak RESET else mret tt);
      _ ← updatePayment p;
      _ ← publishDomainEvents p;
      mret (mkCheckoutSagaResult (paymentId input) REQUIRES_ACTION transactionId finalProvider (cr_actionUrl chargeResult)
              riskScore true usedFallback (Some estimatedFee) None)
  | CHARGE_FAILED =>
      _ ← compensate_markFailed p
            (if truthy (cr_errorMessage chargeResult) then nullish (cr_errorMessage chargeResult) "" else "PSP declined")
            (cr_errorCode chargeResult) (Some finalProvider) (Payment.a_pspRiskSignal a);
      mret (mkCheckoutSagaResult (paymentId input) FAILED None finalProvider None riskScore false usedFallback None
              (cr_errorCode chargeResult))
  end.

(** Step 4: the charge itself. A run that ends in an error after the payment is
    PROCESSING either returns AMBIGUOUS or rethrows. *)
Definition chargeWithFallback (context : RoutingContext) : M (PSPChargeResponse * PSPProvider * bool) := λ s,
  let '(made, r) := AcquirerRoutingService.executeWithSmartRouting charge adapterAvailable recordRouting
                      getHealthStatusAgain context in
  (s {{ calls := calls s ++ made }}, r).

Definition chargeStep (input : CheckoutSagaInput) (params : ChargeLedgerParams)
    (requested : option Sca.ScaExemptionType) (riskScore : Z) (context : RoutingContext)
    (routingDecision : RoutingDecision) (p : Payment.t) : M CheckoutSagaResult :=
  p ← lift (Payment.startProcessing now (selectedProvider routingDecision) p);
  _ ← updatePayment p;
  charged ← attempt (chargeWithFallback context);
  match charged with
  | inl (chargeResult, provider, usedFallback) =>
      settle input params requested riskScore (estimatedFee routingDecision) chargeResult provider usedFallback p
  | inr chargeError =>
      if isAmbiguousOutcomeError chargeError then
        _ ← compensate_markAmbiguous p (message chargeError);
        mret (mkCheckoutSagaResult (paymentId input) AMBIGUOUS None (selectedProvider routingDecision) None riskScore
                false false None (Some "PSP_TIMEOUT_AMBIGUOUS"%string))
      else
        _ ← compensate_markFailed p (message chargeError) (Some "PSP_ALL_FAILED"%string) None None;
        throw chargeError
  end.

(** The SCA exemption to request, and the payment with it recorded. *)
Definition scaStep (input : CheckoutSagaInput) (riskScore : Z) (p : Payment.t)
    : M (option Sca.ScaExemptionType * Payment.t) :=
  let isMitRenewal := bool_decide (in_isMitRenewal input = Some true) in
  let isEuropean := nullish (Bin.isEuropean <$> in_binInfo input) false in
  if isMitRenewal || isEuropean then
    lowValueStreakCount ←
      match in_paymentMethodId input with
      | Some pm => if negb isMitRenewal && truthy (in_paymentMethodId input) then lift (getStreak pm) else mret 0
      | None => mret 0
      end;
    let eligibility := Sca.evaluateScaExemption (in_amount input) riskScore isMitRenewal isEuropean lowValueStreakCount in
    mret (Sca.exemption eligibility,
          Payment.recordScaExemptionRequested (Sca.exemption eligibility) (Sca.reason eligibility) p)
  else mret (None, p).

Definition execute (input : CheckoutSagaInput) : M CheckoutSagaResult :=
  let merchantId := md_merchantId (in_metadata input) in
  isFirst ←
    match in_delegationId input with
    | Some d =>
        if truthy (in_delegationId input)
        then hasChargedBefore ← lift (existsForDelegationAndMerchant d merchantId); mret (Some (negb hasChargedBefore))
        else mret None
    | None => mret None
    end;
  let p := Payment.create now (paymentId input) (in_amount input) (in_idempotencyKey input) (in_metadata input)
             (in_binInfo input) (in_delegationId input) (in_initiatedBy input) in
  _ ← lift save;
  _ ← write p;
  resolved ← attempt (lift (ChargeLedgerParamsResolverService.resolve now merchantId (in_amount input) (in_splits input)));
  match resolved with
  | inr paramsError =>
      _ ← compensate_markFailed p (message paramsError) (Some "INVALID_CHARGE_PARAMS"%string) None None;
      throw paramsError
  | inl params =>
      let p :=
        match splits params with
        | Some (_ :: _) =>
            Payment.recordSplits (ChargeLedgerParamsResolverService.toPaymentSplits (splits params)) p
        | _ => p
        end in
      let '(riskScore, p) :=
        Payment.calculateRiskScore
          (if truthy (in_delegationId input)
           then Some (Payment.mkAgentContext isFirst (agentPercentOfRemainingMonthlyBudget input)) else None) p in
      '(requested, p) ← scaStep input riskScore p;
      let context := mkRoutingContext (in_amount input) (in_binInfo input) merchantId (in_preferredProvider input)
                       (enabledPspProviders params) in
      routed ← attempt (lift (AcquirerRoutingService.selectOptimalAdapter getHealthStatus context));
      match routed with
      | inr routingError =>
          _ ← compensate_markFailed p ("No available PSP: " ++ message routingError) None None None;
          throw routingError
      | inl routingDecision => chargeStep input params requested riskScore context routingDecision p
      end
  end.

End saga.
End PaymentCheckoutSaga.
