(* ===== verification/CheckoutCorrect.v ===== *)
(** * Correctness of the checkout

    The fallback chain never charges a second provider while the outcome at the
    first is unknown; the saga books a charge exactly when it stores it as
    SUCCEEDED, whichever port fails; and what a run with working ports achieves.
    The saga's statements are Hoare triples over its monad. *)

From S2P Require Import Prelude JsNumber Money Policies PaymentStatus Payment Merchant Ledger LedgerCorrect LedgerParams LedgerParamsCorrect Routing RoutingCorrect Payout Dispute Store Checkout.
Import PaymentProcessorFactory.

(** ** Decisions *)

Lemma scoreAll_providers ctx m l r : SmartRoutingStrategy.scoreAll ctx m l = Ok r →
  SmartRoutingStrategy.s_provider <$> r = l.
Proof.
  revert r. induction l as [|p l IH]; cbn; intros r H; [by injection H as <-|].
  destruct (SmartRoutingStrategy.get m p); [|discriminate H].
  apply bind_ok_iff in H as (s & _ & H). apply bind_ok_iff in H as (rest & Hr & H). injection H as <-.
  cbn. by rewrite (IH _ Hr).
Qed.

(** A decision ranks the candidates: each once. *)
Lemma decision_candidates ctx m d : NoDup m.*1 → SmartRoutingStrategy.selectProvider ctx m = Ok d →
  selectedProvider d :: fallbackProviders d ≡ₚ SmartRoutingStrategy.filterAvailableProviders ctx m.
Proof.
  intros Hnd. unfold SmartRoutingStrategy.selectProvider.
  set (av := SmartRoutingStrategy.filterAvailableProviders ctx m). cbv zeta.
  match goal with |- context [match preferredProvider ctx with Some p => if bool_decide _ then _ else ?c | None => _ end] =>
    set (comp := c) end.
  assert (comp = Ok d → selectedProvider d :: fallbackProviders d ≡ₚ av) as Hcomp.
  { intros H. apply bind_ok_iff in H as (sc & Hsc%scoreAll_providers & H). pose proof (sort_perm sc) as Hp.
    destruct (SmartRoutingStrategy.sort sc) as [|b rest]; [discriminate H|].
    apply bind_ok_iff in H as (fee & _ & H). injection H as <-. cbn [selectedProvider fallbackProviders].
    rewrite <- Hsc, <- Hp. done. }
  clearbody comp. intros H. destruct (preferredProvider ctx) as [p|].
  - destruct (SmartRoutingStrategy.entitled ctx p); [|discriminate H].
    destruct av as [|a l] eqn:Eav; [discriminate H|]. rewrite <- Eav in *.
    case_bool_decide as Hin; [|by apply Hcomp].
    destruct (SmartRoutingStrategy.get m p); [|discriminate H].
    apply bind_ok_iff in H as (s & _ & H). apply bind_ok_iff in H as (sc & Hsc%scoreAll_providers & H).
    apply bind_ok_iff in H as (fee & _ & H). injection H as <-. cbn [selectedProvider fallbackProviders].
    rewrite sort_perm, Hsc. apply filter_neq_perm; [by apply available_NoDup|done].
  - destruct av; [discriminate H|]. by apply Hcomp.
Qed.

Lemma registered_keys h : (getAllHealthStatuses h).*1 = getRegisteredProviders.
Proof. reflexivity. Qed.

(** With the two registered providers there is at most one fallback, and it is
    the other one. *)
Lemma one_fallback h ctx d : selectAdapter h ctx = Ok d →
  fallbackProviders d = [] ∨ ∃ q, fallbackProviders d = [q] ∧ q ≠ selectedProvider d ∧ getAdapter q = Ok q.
Proof.
  unfold selectAdapter. intros (d' & Hd & H)%bind_ok_iff. apply bind_ok_iff in H as (? & _ & H). injection H as ->.
  assert (NoDup (getAllHealthStatuses h).*1) as Hnd by (rewrite registered_keys; by apply (bool_decide_unpack (NoDup getRegisteredProviders))).
  pose proof (decision_candidates _ _ _ Hnd Hd) as Hp.
  assert (∀ p, p ∈ selectedProvider d :: fallbackProviders d → p ∈ getRegisteredProviders) as Hsub.
  { intros p Hin. rewrite Hp in Hin. apply available_In in Hin as (h' & Hin & _).
    rewrite <- (registered_keys h). by apply (list_elem_of_fmap_2 fst) in Hin. }
  assert (NoDup (selectedProvider d :: fallbackProviders d)) as Hn.
  { rewrite Hp. by apply available_NoDup. }
  destruct (fallbackProviders d) as [|q [|q' l]]; [by left| |exfalso].
  - right. exists q. apply NoDup_cons in Hn as [Hn _]. split_and!; [done|intros ->; apply Hn; by left|].
    unfold getAdapter. rewrite bool_decide_eq_true_2; [done|]. apply Hsub. by right; left.
  - assert (length (selectedProvider d :: q :: q' :: l) ≤ length getRegisteredProviders)%nat as Hlen.
    { apply submseteq_length, NoDup_submseteq; [done|]. exact Hsub. }
    cbn in Hlen. lia.
Qed.

(** ** The fallback chain *)

Section fallback.
Context {R : Type} (operation : list PSPProvider → PSPProvider → result R) (available : PSPProvider → result bool).

Definition ambiguous (r : result R) : bool := match r with Throw e => isAmbiguousOutcomeError e | Ok _ => false end.

(** The calls of a run are legal from the calls [pre] on: only a failed call is
    followed by another, and an ambiguous one only by a call of the same
    provider. *)
Fixpoint legal (pre calls : list PSPProvider) : Prop :=
  match calls with
  | [] => True
  | p :: rest =>
      match rest with
      | [] => True
      | q :: _ => is_ok (operation pre p) = false ∧ (ambiguous (operation pre p) = true → q = p)
      end ∧ legal (pre ++ [p]) rest
  end.

(** What the outcome says about the last call. *)
Definition faithful (o : outcome) : Prop :=
  match o with
  | (calls, Ok (x, p, _)) => ∃ pre, calls = pre ++ [p] ∧ operation pre p = Ok x
  | (calls, Throw e) =>
      ∀ pre p, calls = pre ++ [p] →
        is_ok (operation pre p) = false ∧ (ambiguous (operation pre p) = true → isAmbiguousOutcomeError e = true)
  end.
End fallback.

Section fallback_spec.
Context {R : Type} (operation : list PSPProvider → PSPProvider → result R) (available : PSPProvider → result bool).

(** The single fallback, after a definite failure of the last call. *)
Lemma try_one calls lastAmb q : getAdapter q = Ok q →
  tryFallbacks operation available calls lastAmb [q]
  = match available q with
    | Throw e => (calls, Throw e)
    | Ok false => (calls, Throw (PspError lastAmb None "All PSP providers failed"))
    | Ok true =>
        (calls ++ [q],
         match operation calls q with
         | Ok x => Ok (x, q, true)
         | Throw e => Throw (PspError (isAmbiguousOutcomeError e) None "All PSP providers failed")
         end)
    end.
Proof.
  intros Hq. cbn. rewrite Hq. destruct (available q) as [[|]|]; [|done..]. by destruct (operation calls q).
Qed.

Lemma snoc_inj {A} (pre l : list A) p q : l ++ [q] = pre ++ [p] → pre = l ∧ p = q.
Proof. intros H. apply app_inj_tail in H. naive_solver. Qed.

(** The chain after a definite failure of the primary provider. *)
Lemma fallback_part d pre : let p := selectedProvider d in
  (fallbackProviders d = [] ∨ ∃ q, fallbackProviders d = [q] ∧ q ≠ p ∧ getAdapter q = Ok q) →
  is_ok (operation pre p) = false → ambiguous (operation pre p) = false →
  legal operation [] (pre ++ [p]) →
  let '(calls, r) := tryFallbacks operation available (pre ++ [p]) false (fallbackProviders d) in
  legal operation [] calls ∧ faithful operation (calls, r) ∧ (length calls ≤ S (S (length pre)))%nat.
Proof.
  cbv zeta. intros Hfb Hok Hamb Hleg.
  assert (∀ e, faithful operation (pre ++ [selectedProvider d], Throw e)) as Hlast.
  { intros e pre' p' [-> ->]%snoc_inj. by rewrite Hok, Hamb. }
  destruct Hfb as [->|(q & -> & _ & Hq)].
  - cbn [tryFallbacks]. split_and!; [done|apply Hlast|rewrite length_app; cbn; lia].
  - rewrite try_one by done.
    destruct (available q) as [[|]|e]; [|split_and!; [done|apply Hlast|rewrite length_app; cbn; lia]..].
    split_and!; [| |rewrite !length_app; cbn; lia].
    + revert Hleg Hok Hamb. generalize (selectedProvider d) as p. intros p. clear Hlast.
      enough (∀ pre0, legal operation pre0 (pre ++ [p]) → is_ok (operation (pre0 ++ pre) p) = false →
        ambiguous (operation (pre0 ++ pre) p) = false → legal operation pre0 ((pre ++ [p]) ++ [q])) as Hg
        by (intros; by apply Hg).
      induction pre as [|a pre IH]; intros pre0; cbn [app legal].
      * rewrite app_nil_r. intros _ Hok Hamb. rewrite Hamb. done.
      * intros [H1 H2] Hok Hamb. split; [by destruct pre|]. rewrite (cons_middle a pre0 pre), app_assoc in Hok, Hamb.
        by apply IH.
    + destruct (operation (pre ++ [selectedProvider d]) q) as [x|e] eqn:E; cbn.
      * eauto.
      * intros pre' p' [-> ->]%snoc_inj. by rewrite E.
Qed.

Lemma executeDecision_spec d :
  (fallbackProviders d = [] ∨ ∃ q, fallbackProviders d = [q] ∧ q ≠ selectedProvider d ∧ getAdapter q = Ok q) →
  let '(calls, r) := executeDecision operation available d in
  legal operation [] calls ∧ faithful operation (calls, r) ∧ (length calls ≤ 3)%nat.
Proof.
  intros Hfb. unfold executeDecision. cbv zeta. set (p := selectedProvider d) in *.
  destruct (operation [] p) as [x|e] eqn:E1.
  { cbn. split_and!; [done..| |lia]. exists []. by rewrite E1. }
  assert (is_ok (operation [] p) = false) as Hok1 by by rewrite E1.
  destruct (isAmbiguousOutcomeError e) eqn:Ea; [|destruct (isTransientPspError e)]; cbn [orb].
  3:{ pose proof (fallback_part d [] Hfb Hok1) as H. fold p in H. rewrite E1 in H. specialize (H Ea).
      cbn [app] in H. destruct (tryFallbacks operation available [p] false (fallbackProviders d)) as [calls r].
      destruct H as (? & ? & ?); [by cbn|]. split_and!; [done..|]. cbn in *. lia. }
  all: assert (legal operation [] [p; p]) as Hleg by (cbn; rewrite E1; done).
  all: destruct (operation [p] p) as [x|e'] eqn:E2;
    [split_and!; [done|exists [p]; by rewrite E2|cbn; lia]|].
  all: destruct (isAmbiguousOutcomeError e') eqn:Ea';
    [split_and!; [done|intros pre p' [-> ->]%(snoc_inj _ [p]); by rewrite E2|cbn; lia]|].
  all: pose proof (fallback_part d [p] Hfb) as H; fold p in H; rewrite E2 in H; specialize (H eq_refl Ea' Hleg);
    cbn [app] in H; destruct (tryFallbacks operation available [p; p] false (fallbackProviders d)) as [calls r];
    destruct H as (? & ? & ?); split_and!; [done..|]; cbn in *; lia.
Qed.
End fallback_spec.

(** The fallback chain is safe. Whatever the health checks and the providers
    answer, at most three calls are made; a call follows another only when that
    one failed, and a call whose outcome is unknown is followed only by a retry
    at the same provider; a returned answer is the last call's; and when the
    last call's outcome is unknown the chain's error says so. *)
Theorem fallback_chain_safe {R} (operation : list PSPProvider → PSPProvider → result R)
    (available : PSPProvider → result bool) (h : PSPProvider → result PSPHealthStatus) (ctx : RoutingContext) :
  let '(calls, r) := executeWithFallback operation available h ctx in
  legal operation [] calls ∧ faithful operation (calls, r) ∧ (length calls ≤ 3)%nat.
Proof.
  unfold executeWithFallback. destruct (selectAdapter h ctx) as [d|e] eqn:E.
  - apply executeDecision_spec. by eapply one_fallback.
  - cbn. split_and!; [done| |lia]. intros pre p H. symmetry in H. by apply app_nil in H as [_ H].
Qed.

(** ** The saga *)

Import PaymentCheckoutSaga.

Section saga_spec.
Context `{Ports : CheckoutPorts, Charge : ChargePorts}.
Context (now : Date) (eventId holdId : string) (input : CheckoutSagaInput).

Abbreviation status_of p := (Payment._status p).

(** The calls made so far, nothing booked, and no stored payment that claims to
    have succeeded. *)
Definition quiet (made : list PSPProvider) (s : Effects) : Prop :=
  calls s = made ∧ booked s = [] ∧ holds s = [] ∧ ∀ p, row s = Some p → status_of p ≠ SUCCEEDED.

Definition stored (st : PaymentStatus) (s : Effects) : Prop := Payment._status <$> row s = Some st.

Definition core (p : Payment.t) : PaymentStatus * option PSPProvider := (status_of p, Payment._pspProvider p).

Abbreviation hold_of params :=
  (recordHold now holdId (paymentId input) (md_merchantId (in_metadata input)) (reserveHold params)).

(** The charge is stored, with the provider [prov], booked and its reserve held,
    together. *)
Definition booked_charge (made : list PSPProvider) (params : ChargeLedgerParams) (prov : option PSPProvider)
    (s : Effects) : Prop :=
  calls s = made ∧ core <$> row s = Some (SUCCEEDED, prov) ∧ holds s = hold_of params
  ∧ ∃ ev, booked s = [ev]
      ∧ LedgerOutboxEvent.createChargeEntries now
          (charge_params eventId (paymentId input) (md_merchantId (in_metadata input)) (in_amount input) params) = Ok ev.

(** The postcondition of a run that made the calls [made] and returns a result
    that is [good]. *)
Definition post (made : list PSPProvider) (params : ChargeLedgerParams) (prov : option PSPProvider) (good : CheckoutSagaResult → Prop)
    (r : result CheckoutSagaResult) (s : Effects) : Prop :=
  match r with
  | Throw _ => quiet made s
  | Ok res =>
      good res ∧
      if decide (res_status res = SUCCEEDED) then booked_charge made params prov s
      else quiet made s ∧ (is_ok (update (res_status res)) = true → stored (res_status res) s)
  end.

Context (made : list PSPProvider).

Lemma quiet_write p : status_of p ≠ SUCCEEDED → triple (quiet made) (write p) (λ r s, r = Ok tt ∧ (quiet made) s ∧ stored (status_of p) s).
Proof.
  intros Hp. apply triple_modify. intros s (Hc & Hb & Hh & Hr). destruct s. cbn in *.
  split; [done|]. split; [|done]. split_and!; [done|done|done|]. by intros p' [= <-].
Qed.

Lemma updatePayment_triple p : status_of p ≠ SUCCEEDED →
  triple (quiet made) (updatePayment p)
    (λ r s, (quiet made) s ∧ is_ok r = is_ok (update (status_of p)) ∧ (is_ok r = true → stored (status_of p) s)).
Proof.
  intros Hp. unfold updatePayment.
  apply triple_bind with (λ _ s, (quiet made) s ∧ is_ok (update (status_of p)) = true).
  - apply triple_lift. intros s Hs. by destruct (update (status_of p)).
  - intros _ s [Hs Hu]. destruct (quiet_write p Hp s Hs) as (-> & Hq & Hst). cbn. rewrite Hu. done.
Qed.

Lemma publish_triple (P : Effects → Prop) p :
  (∀ s l, P s → P (s {{ published := l }})) → triple P (publishDomainEvents p) (λ r s, r = Ok tt ∧ P s).
Proof. intros HP. apply triple_modify. intros s Hs. split; [done|]. by apply HP. Qed.

Lemma quiet_published s l : (quiet made) s → (quiet made) (s {{ published := l }}).
Proof. by destruct s. Qed.

Lemma stored_published st s l : stored st s → stored st (s {{ published := l }}).
Proof. by destruct s. Qed.

(** A compensation never throws, and its write decides what is stored. *)
Lemma compensate_triple (m : result Payment.t) st : st ≠ SUCCEEDED →
  (∀ p, m = Ok p → status_of p = st) → is_ok m = true →
  triple (quiet made) (catch (p ← lift m; _ ← updatePayment p; publishDomainEvents p) (λ _, mret tt))
    (λ r s, r = Ok tt ∧ (quiet made) s ∧ (is_ok (update st) = true → stored st s)).
Proof.
  intros Hst Hm Hok s Hs. destruct m as [p|e]; [|discriminate Hok]. rewrite <- (Hm p eq_refl) in *.
  pose proof (updatePayment_triple p Hst s Hs) as (Hq & Hu & Hstored).
  unfold catch, lift, mbind, M_bind. destruct (updatePayment p s) as [s' [[]|e]]; cbn in *.
  - split_and!; [done|by apply quiet_published|]. intros _. by apply stored_published, Hstored.
  - split_and!; [done|done|]. intros Hx. rewrite Hx in Hu. discriminate Hu.
Qed.

(** *** The payment's own transitions *)

Lemma addDomainEvent_status e p : status_of (Payment.addDomainEvent now e p) = status_of p.
Proof. by destruct p. Qed.

Lemma transitionTo_status st p : status_of (Payment.transitionTo now st p) = st.
Proof. by destruct p. Qed.

Lemma markSucceeded_processing a p : status_of p = PROCESSING →
  ∃ p', Payment.markSucceeded now a p = Ok p' ∧ core p' = (SUCCEEDED, Payment._pspProvider p).
Proof.
  intros Hp. unfold Payment.markSucceeded, assertValidTransition. rewrite Hp. cbn [throw_if mbind result_bind negb
    isValidTransition VALID_TRANSITIONS existsb].
  eexists. split; [reflexivity|]. by destruct p.
Qed.

Lemma requiresCapture_processing a p : status_of p = PROCESSING →
  ∃ p', Payment.requiresCapture now a p = Ok p' ∧ status_of p' = REQUIRES_CAPTURE.
Proof.
  intros Hp. unfold Payment.requiresCapture, assertValidTransition. rewrite Hp.
  eexists. split; [reflexivity|]. apply transitionTo_status.
Qed.

Lemma requiresAction_processing url n tid p : status_of p = PROCESSING →
  ∃ p', Payment.requiresAction now url n tid p = Ok p' ∧ status_of p' = REQUIRES_ACTION.
Proof.
  intros Hp. unfold Payment.requiresAction, assertValidTransition. rewrite Hp.
  eexists. split; [reflexivity|]. by rewrite addDomainEvent_status, transitionTo_status.
Qed.

Lemma markFailed_open reason code prov sig p : status_of p = PENDING ∨ status_of p = PROCESSING →
  ∃ p', Payment.markFailed now reason code prov sig p = Ok p' ∧ status_of p' = FAILED.
Proof.
  intros Hp. unfold Payment.markFailed, assertValidTransition. destruct Hp as [-> | ->];
  (eexists; split; [reflexivity|]; by rewrite addDomainEvent_status, transitionTo_status).
Qed.

Lemma markAmbiguous_processing reason code p : status_of p = PROCESSING →
  ∃ p', Payment.markAmbiguous now reason code p = Ok p' ∧ status_of p' = AMBIGUOUS.
Proof.
  intros Hp. unfold Payment.markAmbiguous, assertValidTransition. rewrite Hp.
  eexists. split; [reflexivity|]. by rewrite addDomainEvent_status, transitionTo_status.
Qed.

Lemma startProcessing_pending prov p : status_of p = PENDING →
  ∃ p', Payment.startProcessing now prov p = Ok p' ∧ status_of p' = PROCESSING ∧ Payment._pspProvider p' = Some prov.
Proof.
  intros Hp. unfold Payment.startProcessing, assertValidTransition. rewrite Hp.
  eexists. split; [reflexivity|]. by destruct p.
Qed.

(** The recording methods leave status and provider alone. *)

Lemma core_interchange r p : core (Payment.recordInterchangeQualification r p) = core p.
Proof. unfold Payment.recordInterchangeQualification. case_match; by destruct p. Qed.
Lemma core_conversion r p : core (Payment.recordSettlementConversion r p) = core p.
Proof. unfold Payment.recordSettlementConversion. case_match; by destruct p. Qed.
Lemma core_tax r p : core (Payment.recordTaxRecord r p) = core p.
Proof. unfold Payment.recordTaxRecord. case_match; by destruct p. Qed.
Lemma core_finalize l p : core (Payment.finalizeSplitConversions l p) = core p.
Proof. unfold Payment.finalizeSplitConversions. case_match; by destruct p. Qed.
Lemma core_splits l p : core (Payment.recordSplits l p) = core p.
Proof. unfold Payment.recordSplits. case_match; [done|]. case_match; by destruct p. Qed.
Lemma core_sca e r p : core (Payment.recordScaExemptionRequested e r p) = core p.
Proof. unfold Payment.recordScaExemptionRequested. case_match; by destruct p. Qed.
Lemma core_risk c p : core (Payment.calculateRiskScore c p).2 = core p.
Proof. unfold Payment.calculateRiskScore. cbv zeta. cbn [snd]. by destruct p. Qed.

Lemma recordCharge_spec params a p :
  (∀ p' ev, recordCharge now eventId input params a p = Ok (p', ev) →
     core p' = core p
     ∧ LedgerOutboxEvent.createChargeEntries now
         (charge_params eventId (paymentId input) (md_merchantId (in_metadata input)) (in_amount input) params) = Ok ev)
  ∧ is_ok (recordCharge now eventId input params a p)
    = is_ok (LedgerOutboxEvent.createChargeEntries now
         (charge_params eventId (paymentId input) (md_merchantId (in_metadata input)) (in_amount input) params)).
Proof.
  unfold recordCharge. cbv zeta.
  match goal with |- context [Ok (?x, _)] => set (p1 := x) end.
  assert (core p1 = core p) as Hcore.
  { subst p1. repeat case_match; by rewrite ?core_finalize, ?core_tax, ?core_conversion, ?core_interchange. }
  clearbody p1. destruct (LedgerOutboxEvent.createChargeEntries now _) as [ev|e]; cbn; [|done].
  split; [|done]. by intros p' ev' [= <- <-].
Qed.

(** A step that only tracks the streak. *)
Lemma trackStreak_triple u : triple (quiet made) (trackStreak u) (λ _ s, (quiet made) s).
Proof.
  unfold trackStreak. apply triple_bind with (λ _, quiet made).
  - apply triple_lift. intros s Hs. by destruct (updateStreak u).
  - intros _. apply triple_modify. intros s Hs. by destruct s.
Qed.

Lemma streakAfterCharge_triple requested a :
  triple (quiet made) (streakAfterCharge input requested a) (λ _ s, (quiet made) s).
Proof.
  unfold streakAfterCharge. repeat case_match; try apply trackStreak_triple; by apply triple_ret.
Qed.

Lemma compensate_failed_triple reason code prov sig p : status_of p = PENDING ∨ status_of p = PROCESSING →
  triple (quiet made) (compensate_markFailed now p reason code prov sig)
    (λ r s, r = Ok tt ∧ (quiet made) s ∧ (is_ok (update FAILED) = true → stored FAILED s)).
Proof.
  intros Hp. destruct (markFailed_open reason code prov sig p Hp) as (p' & E & Hs).
  apply compensate_triple; [done| |by rewrite E]. intros q Hq. rewrite E in Hq. by injection Hq as <-.
Qed.

Lemma compensate_ambiguous_triple reason p : status_of p = PROCESSING →
  triple (quiet made) (compensate_markAmbiguous now p reason)
    (λ r s, r = Ok tt ∧ (quiet made) s ∧ (is_ok (update AMBIGUOUS) = true → stored AMBIGUOUS s)).
Proof.
  intros Hp. destruct (markAmbiguous_processing reason (Some "PSP_TIMEOUT_AMBIGUOUS"%string) p Hp) as (p' & E & Hs).
  apply compensate_triple; [done| |by rewrite E]. intros q Hq. rewrite E in Hq. by injection Hq as <-.
Qed.

(** A branch that stores a status other than SUCCEEDED and returns it. *)
Lemma store_triple params prov p res good : status_of p ≠ SUCCEEDED → res_status res = status_of p → good res →
  triple (quiet made) (_ ← updatePayment p; _ ← publishDomainEvents p; mret res) (post made params prov good).
Proof.
  intros Hp Hres Hgood. apply triple_bind with (λ _ s, (quiet made) s ∧ stored (status_of p) s).
  - intros s Hs. destruct (updatePayment_triple p Hp s Hs) as (Hq & _ & Hst).
    destruct (updatePayment p s) as [s' [[]|e]]; cbn in *; auto.
  - intros _. apply triple_bind with (λ _ s, (quiet made) s ∧ stored (status_of p) s).
    + apply triple_modify. intros s [Hq Hst]. split; [by apply quiet_published|by apply stored_published].
    + intros _. apply triple_ret. intros s [Hq Hst]. split; [done|]. rewrite decide_False by (by rewrite Hres).
      rewrite Hres. done.
Qed.

(** The status a run ends in when a provider has answered. *)
Definition charged_status (st : ChargeStatus) : PaymentStatus :=
  match st with
  | CHARGE_SUCCEEDED => SUCCEEDED
  | CHARGE_REQUIRES_ACTION => REQUIRES_ACTION
  | CHARGE_REQUIRES_CAPTURE => REQUIRES_CAPTURE
  | CHARGE_FAILED => FAILED
  end.

Definition answered (answer : PSPChargeResponse) (provider : PSPProvider) (fb : bool) (res : CheckoutSagaResult) : Prop :=
  res_status res = charged_status (cr_status answer) ∧ res_pspProvider res = provider ∧ res_usedFallback res = fb.

Lemma settle_triple params requested riskScore fee answer provider fb p : status_of p = PROCESSING →
  triple (quiet made) (settle now eventId holdId input params requested riskScore fee answer provider fb p)
    (post made params (Payment._pspProvider p) (answered answer provider fb)).
Proof.
  intros Hp. unfold settle, answered. cbv zeta. destruct (cr_status answer).
  - destruct (markSucceeded_processing (cr_answer answer) p Hp) as (p' & -> & Hs).
    apply triple_bind with (λ q s, q = p' ∧ (quiet made) s); [by apply triple_lift|]. intros q s [-> Hq]. revert s Hq.
    apply triple_bind with (λ _, quiet made).
    { eapply triple_weaken; [apply streakAfterCharge_triple|]. by intros []. }
    intros _. destruct (recordCharge_spec params (cr_answer answer) p') as [Hrec _].
    destruct (recordCharge now eventId input params (cr_answer answer) p') as [[p1 ev]|e]; [|by apply triple_lift].
    destruct (Hrec p1 ev eq_refl) as (Hst & Hev). rewrite Hs in Hst.
    apply triple_bind with (λ q s, q = (p1, ev) ∧ (quiet made) s); [by apply triple_lift|]. intros q s [-> Hq]. revert s Hq.
    apply triple_bind with (λ _, booked_charge made params (Payment._pspProvider p)).
    { unfold commitCharge. apply triple_bind with (λ _, quiet made).
      - apply triple_lift. intros s Hs'. by destruct transaction.
      - intros _. apply triple_modify. intros [r0 b0 h0 d0 pub0 de0 st0 c0] (Hc & Hb & Hh & _). cbn [calls booked holds] in Hc, Hb, Hh. subst.
        split; [done|]. split; [change (Some (core p1) = Some (SUCCEEDED, Payment._pspProvider p)); by rewrite Hst|]. split; [done|]. by exists ev. }
    intros _. apply triple_bind with (λ _, booked_charge made params (Payment._pspProvider p)); [|by intros _; apply triple_ret].
    apply triple_modify. intros s Hs'. by destruct s.
  - destruct (requiresAction_processing (nullish (cr_actionUrl answer) "") riskScore
      (Some (Payment.a_pspTransactionId (cr_answer answer))) p Hp) as (p' & -> & Hs).
    apply triple_bind with (λ q s, q = p' ∧ (quiet made) s); [by apply triple_lift|]. intros q s [-> Hq]. revert s Hq.
    apply triple_bind with (λ _, quiet made).
    { case_match; [|by apply triple_ret]. eapply triple_weaken; [apply trackStreak_triple|]. by intros []. }
    intros _. apply store_triple; [by rewrite Hs..|done].
  - destruct (requiresCapture_processing (cr_answer answer) p Hp) as (p' & -> & Hs).
    apply triple_bind with (λ q s, q = p' ∧ (quiet made) s); [by apply triple_lift|]. intros q s [-> Hq]. revert s Hq.
    apply triple_bind with (λ _, quiet made).
    { eapply triple_weaken; [apply streakAfterCharge_triple|]. by intros []. }
    intros _. apply store_triple; [by rewrite Hs..|done].
  - apply triple_bind with (λ _ s, (quiet made) s ∧ (is_ok (update FAILED) = true → stored FAILED s)).
    + eapply triple_weaken; [apply compensate_failed_triple; by right|]. by intros r s (-> & ? & ?).
    + intros _. by apply triple_ret.
Qed.
End saga_spec.

Section run_spec.
Context `{Ports : CheckoutPorts, Charge : ChargePorts}.
Context (now : Date) (eventId holdId : string) (input : CheckoutSagaInput).

(** A result that reports the answer of the last call; a fallback is another
    provider than the primary of the second routing. *)
Definition last_answer (ctx : RoutingContext) (res : CheckoutSagaResult) (s : Effects) : Prop :=
  ∃ pre answer, calls s = pre ++ [res_pspProvider res] ∧ charge pre (res_pspProvider res) = Ok answer
    ∧ res_status res = charged_status (cr_status answer)
    ∧ (res_usedFallback res = true →
       ∃ d, selectAdapter getHealthStatusAgain ctx = Ok d ∧ res_pspProvider res ≠ selectedProvider d).

(** The postcondition of a whole run. *)
Definition run_post (params : ChargeLedgerParams) (ctx : RoutingContext) (prov : option PSPProvider) (r : result CheckoutSagaResult)
    (s : Effects) : Prop :=
  post now eventId holdId input (calls s) params prov (λ res, res_status res = AMBIGUOUS ∨ last_answer ctx res s) r s.

Lemma quiet_calls made s : quiet made s → calls s = made.
Proof. by intros []. Qed.

Lemma post_run params ctx prov answer provider fb made pre r s :
  made = pre ++ [provider] → charge pre provider = Ok answer →
  (fb = true → ∃ d, selectAdapter getHealthStatusAgain ctx = Ok d ∧ provider ≠ selectedProvider d) →
  post now eventId holdId input made params prov (answered answer provider fb) r s → run_post params ctx prov r s.
Proof.
  intros Hmade Hans Hfb Hpost. unfold run_post, post in *. destruct r as [res|e].
  - destruct Hpost as [(Hst & Hprov & Hres) Hrest].
    assert (calls s = made) as Hc by (case_decide; [apply Hrest|apply (proj1 Hrest)]).
    rewrite Hc. split; [|done]. right. exists pre, answer. rewrite Hprov, Hc, Hres. done.
  - by rewrite (quiet_calls _ _ Hpost).
Qed.

(** An answer marked as a fallback's comes from another provider. *)
Lemma fallback_other d made answer provider :
  (fallbackProviders d = [] ∨ ∃ q, fallbackProviders d = [q] ∧ q ≠ selectedProvider d ∧ getAdapter q = Ok q) →
  executeDecision charge adapterAvailable d = (made, Ok (answer, provider, true)) → provider ≠ selectedProvider d.
Proof.
  intros Hfb. assert (∀ pre b, tryFallbacks charge adapterAvailable pre b (fallbackProviders d)
    = (made, Ok (answer, provider, true)) → provider ≠ selectedProvider d) as Htry.
  { intros pre b. destruct Hfb as [->|(q & -> & Hq & Hget)]; [done|]. rewrite try_one by done.
    destruct (adapterAvailable q) as [[|]|]; [|done..]. destruct (charge pre q); [|done]. by intros [= _ _ <-]. }
  unfold executeDecision. cbv zeta. repeat case_match; try done; apply Htry.
Qed.

Lemma executeWithSmartRouting_answer ctx : 
  match AcquirerRoutingService.executeWithSmartRouting charge adapterAvailable recordRouting getHealthStatusAgain ctx with
  | (made, Ok (answer, provider, fb)) =>
      (∃ pre, made = pre ++ [provider] ∧ charge pre provider = Ok answer)
      ∧ (fb = true → ∃ d, selectAdapter getHealthStatusAgain ctx = Ok d ∧ provider ≠ selectedProvider d)
  | _ => True
  end.
Proof.
  unfold AcquirerRoutingService.executeWithSmartRouting, executeWithFallback.
  destruct (selectAdapter getHealthStatusAgain ctx) as [d|e] eqn:E; [|done].
  pose proof (executeDecision_spec charge adapterAvailable d (one_fallback _ _ _ E)) as H.
  destruct (executeDecision charge adapterAvailable d) as [made [[[answer provider] fb]|e]] eqn:E2; cbn; [|done].
  destruct (recordRouting provider); cbn; [|done]. split; [apply H|]. intros ->. exists d. split; [done|].
  eapply fallback_other; [by eapply one_fallback|exact E2].
Qed.

Lemma chargeStep_triple params requested riskScore ctx d p : Payment._status p = PENDING →
  triple (quiet []) (chargeStep now eventId holdId input params requested riskScore ctx d p)
    (run_post params ctx (Some (selectedProvider d))).
Proof.
  intros Hp. unfold chargeStep.
  destruct (startProcessing_pending now (selectedProvider d) p Hp) as (p' & -> & Hs & Hprov).
  apply triple_bind with (λ q s, q = p' ∧ quiet [] s); [by apply triple_lift|]. intros q s [-> Hq]. revert s Hq.
  apply triple_bind with (λ _, quiet []).
  { intros s Hs'. destruct (updatePayment_triple [] p' ltac:(by rewrite Hs) s Hs') as (Hq & _).
    destruct (updatePayment p' s) as [s' [|]]; cbn in *; [done|]. unfold run_post, post.
    by rewrite (quiet_calls _ _ Hq). }
  intros _. pose proof (executeWithSmartRouting_answer ctx) as Hans.
  destruct (AcquirerRoutingService.executeWithSmartRouting charge adapterAvailable recordRouting
    getHealthStatusAgain ctx) as [made r] eqn:E.
  apply triple_bind with (λ x s, quiet made s ∧ x = match r with Ok a => inl a | Throw e => inr e end).
  { apply triple_attempt. intros s (Hc & Hb & Hh & Hr). unfold chargeWithFallback. rewrite E. destruct s. cbn in *.
    subst. done. }
  intros x s [Hq ->]. revert s Hq. destruct r as [[[answer provider] fb]|e].
  - destruct Hans as [(pre & Hmade & Hans) Hfb].
    eapply triple_weaken; [by apply (settle_triple now eventId holdId input made)|]. intros r s. rewrite Hprov.
    by apply (post_run _ _ _ _ _ _ _ pre).
  - destruct (isAmbiguousOutcomeError e).
    + apply triple_bind with (λ _ s, quiet made s ∧ (is_ok (update AMBIGUOUS) = true → stored AMBIGUOUS s)).
      * eapply triple_weaken; [by apply compensate_ambiguous_triple|]. by intros r s (-> & ? & ?).
      * intros _. apply triple_ret. intros s [Hq Hst]. unfold run_post, post. rewrite (quiet_calls _ _ Hq).
        split; [by left|]. by rewrite decide_False.
    + apply triple_bind with (λ _, quiet made).
      * eapply triple_weaken; [apply compensate_failed_triple; by right|]. by intros r s (-> & ? & ?).
      * intros _. apply triple_lift. intros s Hq. unfold run_post, post. by rewrite (quiet_calls _ _ Hq).
Qed.

Lemma compensate_throw reason code prov sig e p : Payment._status p = PENDING →
  triple (quiet []) (_ ← compensate_markFailed now p reason code prov sig; throw e)
    (λ r s, quiet [] s ∧ r = (Throw e : result CheckoutSagaResult)).
Proof.
  intros Hp. apply triple_bind with (λ _, quiet []).
  - eapply triple_weaken; [apply compensate_failed_triple; by left|]. by intros r s (-> & ? & ?).
  - intros _. by apply triple_lift.
Qed.

Lemma quiet_throw params ctx prov e s : quiet [] s → run_post params ctx prov (Throw e) s.
Proof. intros Hq. unfold run_post, post. by rewrite (quiet_calls _ _ Hq). Qed.

Lemma scaStep_triple riskScore p :
  triple (quiet []) (scaStep input riskScore p)
    (λ r s, quiet [] s ∧ match r with Ok (_, p') => core p' = core p | Throw _ => True end).
Proof.
  unfold scaStep. cbv zeta. case_match; [|by apply triple_ret].
  apply triple_bind with (λ _, quiet []).
  - repeat case_match; try (by apply triple_ret). apply triple_lift. intros s0 Hs0. by destruct (getStreak _).
  - intros n. apply triple_ret. intros s Hs. split; [done|]. apply core_sca.
Qed.

Abbreviation resolved_params :=
  (ChargeLedgerParamsResolverService.resolve now (md_merchantId (in_metadata input)) (in_amount input) (in_splits input)).

Definition context_of (params : ChargeLedgerParams) : RoutingContext :=
  mkRoutingContext (in_amount input) (in_binInfo input) (md_merchantId (in_metadata input))
    (in_preferredProvider input) (enabledPspProviders params).

(** What the run guarantees once the charge is routed. *)
Definition routed_post (params : ChargeLedgerParams) (ctx : RoutingContext) (r : result CheckoutSagaResult)
    (s : Effects) : Prop :=
  match r with
  | Throw _ => quiet (calls s) s
  | Ok _ => ∃ d, AcquirerRoutingService.selectOptimalAdapter getHealthStatus ctx = Ok d
                 ∧ run_post params ctx (Some (selectedProvider d)) r s
  end.

(** From the resolved parameters on. *)
Lemma routed_triple params requested riskScore ctx p : Payment._status p = PENDING →
  triple (quiet [])
    (routed ← attempt (lift (AcquirerRoutingService.selectOptimalAdapter getHealthStatus ctx));
     match routed with
     | inr e => _ ← compensate_markFailed now p ("No available PSP: " ++ message e) None None None; throw e
     | inl d => chargeStep now eventId holdId input params requested riskScore ctx d p
     end) (routed_post params ctx).
Proof.
  intros Hp. apply triple_bind with (λ x s, quiet [] s ∧ ∀ d, x = inl d →
    AcquirerRoutingService.selectOptimalAdapter getHealthStatus ctx = Ok d).
  - apply triple_attempt, triple_lift. intros s Hs. split; [done|]. intros d. case_match; [|done]. by intros [= ->].
  - intros [d|e] s [Hq Hd]; revert s Hq.
    + eapply triple_weaken; [by apply chargeStep_triple|]. intros [res|e] s Hr; [|exact Hr]. exists d. auto.
    + eapply triple_weaken; [by apply compensate_throw|]. intros r s [Hq ->]. cbn. by rewrite (quiet_calls _ _ Hq).
Qed.

(** What a run guarantees, whatever its ports answer. *)
Definition checkout_post (r : result CheckoutSagaResult) (s : Effects) : Prop :=
  match r with
  | Throw _ => quiet (calls s) s
  | Ok _ => ∃ params, resolved_params = Ok params ∧ routed_post params (context_of params) r s
  end.

Lemma checkout_throw e s : quiet [] s → checkout_post (Throw e) s.
Proof. intros Hq. cbn. by rewrite (quiet_calls _ _ Hq). Qed.

Lemma run_checkout params r s : resolved_params = Ok params →
  routed_post params (context_of params) r s → checkout_post r s.
Proof. intros Hres Hr. destruct r; [by exists params|exact Hr]. Qed.

Lemma execute_triple : triple (λ s, s = no_effects) (execute now eventId holdId input) checkout_post.
Proof.
  unfold execute. cbv zeta.
  apply triple_bind with (λ _ s, s = no_effects).
  { repeat case_match; try (by apply triple_ret). apply triple_bind with (λ _ s, s = no_effects).
    - apply triple_lift. intros s0 ->. destruct (existsForDelegationAndMerchant _ _); [done|]. by apply checkout_throw.
    - intros x. by apply triple_ret. }
  intros isFirst. apply triple_bind with (λ _, quiet []).
  { apply triple_lift. intros s0 ->. destruct save; [done|]. by apply checkout_throw. }
  intros _. apply triple_bind with (λ _, quiet []).
  { eapply triple_weaken; [by apply quiet_write|]. by intros r s (-> & ? & _). }
  intros _. apply triple_bind with
    (λ x s, quiet [] s ∧ match x with inl params => resolved_params = Ok params | inr _ => True end).
  { apply triple_attempt, triple_lift. intros s Hs. by destruct resolved_params. }
  intros [params|e] s [Hq Hres]; revert s Hq.
  - eapply triple_weaken with (Q := routed_post params (context_of params)); [|intros r s; by apply run_checkout].
    match goal with |- context [Payment.calculateRiskScore ?c ?p0] => set (ctx0 := c); set (p1 := p0) end.
    assert (Payment._status p1 = PENDING) as Hp1.
    { assert (core p1 = (PENDING, None)) as Hc by (subst p1; repeat case_match; by rewrite ?core_splits).
      by injection Hc. }
    pose proof (core_risk ctx0 p1) as Hrisk. clearbody p1. destruct (Payment.calculateRiskScore ctx0 p1) as [risk p2].
    apply triple_bind with (λ x s, quiet [] s ∧ core x.2 = core p2).
    { eapply triple_weaken; [apply scaStep_triple|]. intros [[req p3]|e] s' [Hq ?]; [done|]. cbn. by rewrite (quiet_calls _ _ Hq). }
    intros [requested p3] s [Hq Hc]. revert s Hq. cbn in Hc, Hrisk. apply routed_triple.
    rewrite Hrisk in Hc. injection Hc as Hc _. by rewrite Hc.
  - eapply triple_weaken; [by apply compensate_throw|]. intros r s [Hq' ->]. by apply checkout_throw.
Qed.
End run_spec.

(** C6: the books follow the payment. Whatever the ports of a checkout answer,
    a run that returns SUCCEEDED has stored the payment as SUCCEEDED, booked
    exactly one ledger event (the charge's, with the resolved fee, reserve and
    splits), and created the reserve hold, all in one transaction; a run that
    returns anything else or throws has booked nothing and stored no SUCCEEDED
    payment. A returned status other than AMBIGUOUS is the answer of the last
    provider called, and it is what is stored whenever the write succeeds. *)
Theorem checkout_books_exactly `{Ports : CheckoutPorts, Charge : ChargePorts} (now : Date) (eventId holdId : string)
    (input : CheckoutSagaInput) :
  let '(s, r) := execute now eventId holdId input no_effects in
  match r with
  | Throw _ => booked s = [] ∧ holds s = [] ∧ ¬ stored SUCCEEDED s
  | Ok res =>
      (res_status res = SUCCEEDED →
         ∃ params, ChargeLedgerParamsResolverService.resolve now (md_merchantId (in_metadata input))
                     (in_amount input) (in_splits input) = Ok params
           ∧ ∃ prov, booked_charge now eventId holdId input (calls s) params prov s)
      ∧ (res_status res ≠ SUCCEEDED →
           booked s = [] ∧ holds s = [] ∧ ¬ stored SUCCEEDED s
           ∧ (is_ok (update (res_status res)) = true → stored (res_status res) s))
      ∧ (res_status res ≠ AMBIGUOUS → ∃ ctx, last_answer ctx res s)
  end.
Proof.
  assert (∀ made s, quiet made s → booked s = [] ∧ holds s = [] ∧ ¬ stored SUCCEEDED s) as Hquiet.
  { intros made s (_ & Hb & Hh & Hr). split_and!; [done..|]. unfold stored. intros Hst.
    destruct (row s) as [p|]; [|discriminate Hst]. injection Hst as Hst. by apply (Hr p). }
  pose proof (execute_triple now eventId holdId input no_effects eq_refl) as H.
  destruct (execute now eventId holdId input no_effects) as [s [res|e]]; cbn [fst snd] in H.
  - destruct H as (params & Hres & d & _ & Hgood & H). split_and!.
    + intros Hs. rewrite decide_True in H by done. eauto.
    + intros Hs. rewrite decide_False in H by done. destruct H as [Hq Hst].
      destruct (Hquiet _ _ Hq) as (? & ? & ?). done.
    + intros Hs. destruct Hgood; [done|eauto].
  - by eapply Hquiet.
Qed.

(** ** Runs whose ports work *)

(** [m] returns [a] from every state. *)
Definition runs {A} (m : M A) (a : A) : Prop := ∀ s, ∃ s', m s = (s', Ok a).

Lemma runs_bind {A B} (m : M A) (f : A → M B) a b : runs m a → runs (f a) b → runs (m ≫= f) b.
Proof.
  intros Hm Hf s. destruct (Hm s) as [s1 E]. destruct (Hf s1) as [s2 E2]. exists s2.
  unfold mbind, M_bind. by rewrite E.
Qed.

(** A run that passes [m] goes on as [f] does. *)
Lemma reaches_bind {A B} (m : M A) (f : A → M B) a (g : M B) s : runs m a →
  (∀ s, ∃ s', f a s = g s') → ∃ s', (m ≫= f) s = g s'.
Proof.
  intros Hm Hf. destruct (Hm s) as [s1 E]. destruct (Hf s1) as [s2 E2]. exists s2. unfold mbind, M_bind. by rewrite E.
Qed.

Lemma runs_lift {A} (r : result A) a : r = Ok a → runs (lift r) a.
Proof. intros -> s. by exists s. Qed.

Lemma runs_ret {A} (a : A) : runs (mret a) a.
Proof. intros s. by exists s. Qed.

Lemma runs_modify f : runs (modify f) tt.
Proof. intros s. by exists (f s). Qed.

Lemma runs_attempt {A} (m : M A) a : runs m a → runs (attempt m) (inl a).
Proof. intros Hm s. destruct (Hm s) as [s' E]. exists s'. unfold attempt. by rewrite E. Qed.

Section working.
Context `{Ports : CheckoutPorts, Charge : ChargePorts}.

(** Every port other than the providers and the routing history does its work. *)
Record working : Prop := {
  wk_exists : ∀ d m, is_ok (existsForDelegationAndMerchant d m) = true;
  wk_save : save = Ok tt;
  wk_update : ∀ st, update st = Ok tt;
  wk_transaction : transaction = Ok tt;
  wk_getStreak : ∀ pm, is_ok (getStreak pm) = true;
  wk_streak : ∀ u, updateStreak u = Ok tt }.

Context (W : working).
Context (now : Date) (eventId holdId : string) (input : CheckoutSagaInput).

Lemma runs_update p : runs (updatePayment p) tt.
Proof. eapply runs_bind; [apply runs_lift, W|apply runs_modify]. Qed.

Lemma runs_track u : runs (trackStreak u) tt.
Proof. eapply runs_bind; [apply runs_lift, W|apply runs_modify]. Qed.

Lemma runs_streak requested a : runs (streakAfterCharge input requested a) tt.
Proof. unfold streakAfterCharge. repeat case_match; auto using runs_track, runs_ret. Qed.

Lemma runs_commit params p ev : runs (commitCharge now holdId input params p ev) tt.
Proof. eapply runs_bind; [apply runs_lift, W|apply runs_modify]. Qed.

Lemma runs_failed reason code prov sig p : Payment._status p = PROCESSING →
  runs (compensate_markFailed now p reason code prov sig) tt.
Proof.
  intros Hp s. destruct (markFailed_open now reason code prov sig p (or_intror Hp)) as (p' & E & _).
  unfold compensate_markFailed. rewrite E. unfold catch.
  destruct (runs_bind (lift (Ok p')) (λ p, _ ← updatePayment p; publishDomainEvents p) p' tt
    (runs_lift _ _ eq_refl) (runs_bind _ _ _ _ (runs_update p') (runs_modify _)) s) as [s' ->]. by exists s'.
Qed.

Lemma runs_settle params requested riskScore fee answer provider fb p ev : Payment._status p = PROCESSING →
  LedgerOutboxEvent.createChargeEntries now
    (charge_params eventId (paymentId input) (md_merchantId (in_metadata input)) (in_amount input) params) = Ok ev →
  ∃ res, runs (settle now eventId holdId input params requested riskScore fee answer provider fb p) res
    ∧ answered answer provider fb res.
Proof.
  intros Hp Hev. unfold settle, answered. cbv zeta. destruct (cr_status answer).
  - destruct (markSucceeded_processing now (cr_answer answer) p Hp) as (p' & -> & _).
    destruct (recordCharge_spec now eventId input params (cr_answer answer) p') as [_ Hok]. rewrite Hev in Hok.
    destruct (recordCharge now eventId input params (cr_answer answer) p') as [[p1 ev1]|] eqn:Er; [|discriminate Hok].
    eexists. split.
    + eapply runs_bind; [by apply runs_lift|]. eapply runs_bind; [apply runs_streak|].
      eapply runs_bind; [apply runs_lift; exact Er|]. cbv beta iota. eapply runs_bind; [apply runs_commit|].
      eapply runs_bind; [apply runs_modify|apply runs_ret].
    + done.
  - destruct (requiresAction_processing now (nullish (cr_actionUrl answer) "") riskScore
      (Some (Payment.a_pspTransactionId (cr_answer answer))) p Hp) as (p' & -> & _).
    eexists. split.
    + eapply runs_bind; [by apply runs_lift|].
      eapply runs_bind with (a := tt); [case_match; [apply runs_track|apply runs_ret]|].
      eapply runs_bind; [apply runs_update|]. eapply runs_bind; [apply runs_modify|apply runs_ret].
    + done.
  - destruct (requiresCapture_processing now (cr_answer answer) p Hp) as (p' & -> & _).
    eexists. split.
    + eapply runs_bind; [by apply runs_lift|]. eapply runs_bind; [apply runs_streak|].
      eapply runs_bind; [apply runs_update|]. eapply runs_bind; [apply runs_modify|apply runs_ret].
    + done.
  - eexists. split; [eapply runs_bind; [by apply runs_failed|apply runs_ret]|done].
Qed.

Lemma runs_charge ctx calls answer provider fb : recordRouting provider = Ok tt →
  executeWithFallback charge adapterAvailable getHealthStatusAgain ctx = (calls, Ok (answer, provider, fb)) →
  runs (chargeWithFallback ctx) (answer, provider, fb).
Proof.
  intros Hrec E s. unfold chargeWithFallback, AcquirerRoutingService.executeWithSmartRouting. rewrite E.
  cbn [AcquirerRoutingService.translated mbind result_bind]. cbn [fst snd]. rewrite Hrec. by eexists.
Qed.

Lemma runs_sca riskScore p : ∃ x, runs (scaStep input riskScore p) x ∧ core x.2 = core p.
Proof.
  unfold scaStep. cbv zeta. case_match; [|eexists; split; [apply runs_ret|done]].
  assert (∃ n, runs (match in_paymentMethodId input with
    | Some pm => if negb (bool_decide (in_isMitRenewal input = Some true)) && truthy (in_paymentMethodId input)
                 then lift (getStreak pm) else mret 0
    | None => mret 0 end) n) as [n Hn].
  { destruct (in_paymentMethodId input) as [pm|]; [|exists 0; apply runs_ret].
    case_match; [|exists 0; apply runs_ret]. pose proof (wk_getStreak W pm) as Hok.
    destruct (getStreak pm) as [n|]; [|discriminate Hok]. exists n. by apply runs_lift. }
  eexists. split; [eapply runs_bind; [exact Hn|apply runs_ret]|]. apply core_sca.
Qed.

(** A run whose charge can be routed reaches the charge with a PENDING payment. *)
Lemma execute_reaches_charge params d :
  ChargeLedgerParamsResolverService.resolve now (md_merchantId (in_metadata input)) (in_amount input) (in_splits input)
    = Ok params →
  AcquirerRoutingService.selectOptimalAdapter getHealthStatus (context_of input params) = Ok d →
  ∃ requested riskScore p, Payment._status p = PENDING
    ∧ ∀ s, ∃ s', execute now eventId holdId input s
                 = chargeStep now eventId holdId input params requested riskScore (context_of input params) d p s'.
Proof.
  intros Hres Hroute.
  assert (∃ o, runs (match in_delegationId input with
    | Some d => if truthy (in_delegationId input)
        then hasChargedBefore ← lift (existsForDelegationAndMerchant d (md_merchantId (in_metadata input)));
             mret (Some (negb hasChargedBefore))
        else mret None
    | None => mret None end) o) as [isFirst Hfirst].
  { destruct (in_delegationId input) as [dl|]; [|exists None; apply runs_ret].
    case_match; [|exists None; apply runs_ret].
    pose proof (wk_exists W dl (md_merchantId (in_metadata input))) as Hok.
    destruct (existsForDelegationAndMerchant dl (md_merchantId (in_metadata input))) as [b|]; [|discriminate Hok].
    eexists. eapply runs_bind; [by apply runs_lift|apply runs_ret]. }
  set (p0 := Payment.create now (paymentId input) (in_amount input) (in_idempotencyKey input) (in_metadata input)
               (in_binInfo input) (in_delegationId input) (in_initiatedBy input)).
  set (ctx0 := if truthy (in_delegationId input) then
    Some (Payment.mkAgentContext isFirst (agentPercentOfRemainingMonthlyBudget input)) else None).
  set (p1 := match splits params with
    | Some (_ :: _) => Payment.recordSplits (ChargeLedgerParamsResolverService.toPaymentSplits (splits params)) p0
    | _ => p0 end).
  assert (core p1 = (PENDING, None)) as Hp1 by (subst p1; repeat case_match; by rewrite ?core_splits).
  pose proof (core_risk ctx0 p1) as Hrisk.
  destruct (Payment.calculateRiskScore ctx0 p1) as [risk p2] eqn:Ek. cbn [snd] in Hrisk.
  destruct (runs_sca risk p2) as ([req p3] & Hsca & Hp3). cbn [snd] in Hp3. rewrite Hrisk, Hp1 in Hp3.
  exists req, risk, p3. split; [by injection Hp3|]. intros s. unfold execute. cbv zeta.
  eapply reaches_bind; [exact Hfirst|]. clear s. intros s.
  eapply reaches_bind; [apply runs_lift, W|]. clear s. intros s. eapply reaches_bind; [apply runs_modify|]. clear s. intros s.
  eapply reaches_bind; [apply runs_attempt, runs_lift; exact Hres|]. clear s. intros s.
  cbv beta iota. fold p0 ctx0 p1. rewrite Ek.
  eapply reaches_bind; [exact Hsca|]. clear s. intros s. cbv beta iota.
  eapply reaches_bind; [apply runs_attempt, runs_lift; exact Hroute|]. clear s. intros s. by exists s.
Qed.

Lemma runs_execute params d made answer provider fb ev : recordRouting provider = Ok tt →
  ChargeLedgerParamsResolverService.resolve now (md_merchantId (in_metadata input)) (in_amount input) (in_splits input)
    = Ok params →
  AcquirerRoutingService.selectOptimalAdapter getHealthStatus (context_of input params) = Ok d →
  executeWithFallback charge adapterAvailable getHealthStatusAgain (context_of input params)
    = (made, Ok (answer, provider, fb)) →
  LedgerOutboxEvent.createChargeEntries now
    (charge_params eventId (paymentId input) (md_merchantId (in_metadata input)) (in_amount input) params) = Ok ev →
  ∃ res, runs (execute now eventId holdId input) res ∧ answered answer provider fb res.
Proof.
  intros Hrec Hres Hroute Hcharge Hev.
  destruct (execute_reaches_charge params d Hres Hroute) as (req & risk & p3 & Hp3 & Hreach).
  destruct (startProcessing_pending now (selectedProvider d) p3 Hp3) as (p4 & E4 & Hp4 & _).
  destruct (runs_settle params req risk (estimatedFee d) answer provider fb p4 ev Hp4 Hev) as (res & Hsettle & Hans).
  exists res. split; [|exact Hans]. intros s. destruct (Hreach s) as [s' ->]. revert s'.
  change (runs (chargeStep now eventId holdId input params req risk (context_of input params) d p3) res).
  unfold chargeStep. eapply runs_bind; [apply runs_lift; exact E4|]. eapply runs_bind; [by apply runs_update|].
  eapply runs_bind; [apply runs_attempt; by eapply runs_charge|]. exact Hsettle.
Qed.

(** The end of a run whose routing history cannot be written. *)
Lemma outage_chargeStep params req risk ctx d p made answer provider fb e : Payment._status p = PENDING →
  recordRouting provider = Throw e → isAmbiguousOutcomeError e = false →
  executeWithFallback charge adapterAvailable getHealthStatusAgain ctx = (made, Ok (answer, provider, fb)) →
  ∀ s, ∃ s', chargeStep now eventId holdId input params req risk ctx d p s = (s', Throw e) ∧ stored FAILED s'.
Proof.
  intros Hp Hrec Hamb E s. unfold chargeStep.
  destruct (startProcessing_pending now (selectedProvider d) p Hp) as (p4 & -> & Hp4 & _).
  destruct (runs_update p4 s) as [s1 E1].
  destruct (markFailed_open now (message e) (Some "PSP_ALL_FAILED"%string) None None p4 (or_intror Hp4))
    as (p5 & E5 & Hp5).
  unfold mbind, M_bind, lift at 1. rewrite E1. unfold attempt, chargeWithFallback,
    AcquirerRoutingService.executeWithSmartRouting. rewrite E.
  cbn [AcquirerRoutingService.translated mbind result_bind fst snd]. rewrite Hrec. cbn [mbind result_bind].
  rewrite Hamb. unfold compensate_markFailed, catch. rewrite E5. unfold updatePayment, mbind, M_bind, lift.
  rewrite (wk_update W). eexists. split; [reflexivity|]. unfold stored. cbn. by rewrite Hp5.
Qed.
End working.

(** When every port works, a checkout a provider answers always returns that
    answer's status, and a charge the provider reports as SUCCEEDED is stored
    and booked: the entries balance, so no charged customer is left without a
    ledger entry. *)
Theorem checkout_completes `{Ports : CheckoutPorts, Charge : ChargePorts} (now : Date) (eventId holdId : string)
    (input : CheckoutSagaInput) (params : ChargeLedgerParams) (d : RoutingDecision) (made : list PSPProvider)
    (answer : PSPChargeResponse) (provider : PSPProvider) (fb : bool) :
  working → recordRouting provider = Ok tt → (∀ id m, findByMerchantId id = Some m → policy_ok m) →
  Money.wf (in_amount input) → Money.amountMinorUnits (in_amount input) ≤ 2 ^ 53 →
  Forall (λ s, Money.wf s.2 ∧ Money.same (in_amount input) s.2) (nullish (in_splits input) []) →
  ChargeLedgerParamsResolverService.resolve now (md_merchantId (in_metadata input)) (in_amount input) (in_splits input)
    = Ok params →
  AcquirerRoutingService.selectOptimalAdapter getHealthStatus (context_of input params) = Ok d →
  executeWithFallback charge adapterAvailable getHealthStatusAgain (context_of input params)
    = (made, Ok (answer, provider, fb)) →
  ∃ s res, execute now eventId holdId input no_effects = (s, Ok res)
    ∧ res_status res = charged_status (cr_status answer) ∧ res_pspProvider res = provider
    ∧ (cr_status answer = CHARGE_SUCCEEDED →
       ∃ ev, booked s = [ev] ∧ balanced (LedgerOutboxEvent.entries ev) ∧ stored SUCCEEDED s
         ∧ holds s = recordHold now holdId (paymentId input) (md_merchantId (in_metadata input)) (reserveHold params)).
Proof.
  intros W Hrec Hpol Ha Hmax Hsp Hres Hroute Hcharge.
  destruct (resolve_resolved Hpol _ _ _ _ _ Ha Hmax Hsp Hres) as [Hv Hd _ _ _].
  destruct (charge_booked now _ (Hv eventId (paymentId input)) (Hd eventId (paymentId input))) as (ev & Hev & Hbal & _).
  destruct (runs_execute W now eventId holdId input params d made answer provider fb ev Hrec Hres Hroute Hcharge Hev)
    as (res & Hruns & Hst & Hprov & _).
  destruct (Hruns no_effects) as [s E]. exists s, res. split_and!; [done..|]. intros Hsucc. rewrite Hsucc in Hst.
  pose proof (execute_triple now eventId holdId input no_effects eq_refl) as H. rewrite E in H. cbn [fst snd] in H.
  destruct H as (params' & Hres' & d' & _ & _ & H). rewrite Hres in Hres'. injection Hres' as <-.
  rewrite decide_True in H by done. destruct H as (_ & Hrow & Hholds & ev' & Hb & Hev').
  exists ev. rewrite Hev in Hev'. injection Hev' as <-. split_and!; [done..| |done].
  unfold stored. destruct (row s) as [p|]; [|discriminate Hrow]. injection Hrow as Hrow _. cbn. by rewrite Hrow.
Qed.

(** The provider of a fallback charge is not recorded. When the health
    figures do not change during the checkout and a fallback provider took the
    charge, the payment is stored with the provider that failed: later refunds
    and captures of this payment go to a provider that does not know its
    transaction. *)
Theorem fallback_provider_not_stored `{Ports : CheckoutPorts, Charge : ChargePorts} (now : Date)
    (eventId holdId : string) (input : CheckoutSagaInput) (s : Effects) (res : CheckoutSagaResult) :
  (∀ p, getHealthStatusAgain p = getHealthStatus p) →
  execute now eventId holdId input no_effects = (s, Ok res) →
  res_status res = SUCCEEDED → res_usedFallback res = true →
  ∃ p q, row s = Some p ∧ Payment._pspProvider p = Some q ∧ q ≠ res_pspProvider res.
Proof.
  intros Hsame E Hst Hfb.
  pose proof (execute_triple now eventId holdId input no_effects eq_refl) as H. rewrite E in H. cbn [fst snd] in H.
  destruct H as (params & _ & d & Hd & Hgood & H). rewrite decide_True in H by done.
  destruct H as (_ & Hrow & _). destruct (row s) as [p|]; [|discriminate Hrow]. injection Hrow as _ Hprov.
  exists p, (selectedProvider d). split_and!; [done|done|].
  destruct Hgood as [Hgood|(pre & answer & _ & _ & _ & Hother)]; [congruence|].
  destruct (Hother Hfb) as (d2 & Hd2 & Hne).
  enough (d2 = d) as -> by congruence.
  unfold AcquirerRoutingService.selectOptimalAdapter in Hd.
  assert (selectAdapter getHealthStatusAgain (context_of input params) = selectAdapter getHealthStatus (context_of input params))
    as Heq by (unfold selectAdapter, getAllHealthStatuses; do 2 f_equal; cbn; by rewrite !Hsame).
  rewrite Heq in Hd2. rewrite Hd2 in Hd. cbn in Hd. by injection Hd.
Qed.

(** An outage of the routing history undoes a charge on paper only. When a
    provider has answered the charge, whatever its answer, but the counter of
    the merchant's routing history cannot be incremented, the run throws and the
    payment is stored as FAILED with nothing booked: a customer who was charged
    has a failed payment. *)
Theorem routing_history_outage `{Ports : CheckoutPorts, Charge : ChargePorts} (now : Date) (eventId holdId : string)
    (input : CheckoutSagaInput) (params : ChargeLedgerParams) (d : RoutingDecision) (made : list PSPProvider)
    (answer : PSPChargeResponse) (provider : PSPProvider) (fb : bool) (e : js_error) :
  working → recordRouting provider = Throw e → isAmbiguousOutcomeError e = false →
  ChargeLedgerParamsResolverService.resolve now (md_merchantId (in_metadata input)) (in_amount input) (in_splits input)
    = Ok params →
  AcquirerRoutingService.selectOptimalAdapter getHealthStatus (context_of input params) = Ok d →
  executeWithFallback charge adapterAvailable getHealthStatusAgain (context_of input params)
    = (made, Ok (answer, provider, fb)) →
  ∃ s, execute now eventId holdId input no_effects = (s, Throw e) ∧ stored FAILED s ∧ booked s = [].
Proof.
  intros W Hrec Hamb Hres Hroute Hcharge.
  destruct (execute_reaches_charge W now eventId holdId input params d Hres Hroute) as (req & risk & p & Hp & Hreach).
  destruct (Hreach no_effects) as [s1 E1].
  destruct (outage_chargeStep W now eventId holdId input params req risk _ d p made answer provider fb e
    Hp Hrec Hamb Hcharge s1) as (s & E & Hst).
  rewrite E in E1. exists s. split_and!; [done..|].
  pose proof (execute_triple now eventId holdId input no_effects eq_refl) as H. rewrite E1 in H. apply H.
Qed.

(** ** A concrete checkout *)

(** A 100.00 USD charge that prefers Stripe, with both providers healthy. Stripe
    succeeds, or declines with a definite error when [down]; Adyen succeeds. The
    routing history can be written when [counter]. *)
Definition sample_input : CheckoutSagaInput :=
  mkCheckoutSagaInput "pay_1" "key" (usd 10000) (mkPaymentMetadata "m_1" None None None None None) None None None
    (Some STRIPE) (Some automatic) None None None None None.

Definition sample_charge (tx : string) : PSPChargeResponse :=
  mkPSPChargeResponse CHARGE_SUCCEEDED (Payment.mkPspAnswer tx None None None None None None None) None None None.

Definition sample_checkout (down counter : bool) : CheckoutPorts := {|
  existsForDelegationAndMerchant _ _ := Ok false;
  save := Ok tt;
  update _ := Ok tt;
  transaction := Ok tt;
  getHealthStatus p := Ok (sample_health p CLOSED 99 200);
  getHealthStatusAgain p := Ok (sample_health p CLOSED 99 200);
  adapterAvailable _ := Ok true;
  charge _ p :=
    match p with
    | STRIPE => if down then Throw (PspError false (Some 402) "card_declined") else Ok (sample_charge "tx_stripe")
    | _ => Ok (sample_charge "tx_adyen")
    end;
  recordRouting _ := if counter then Ok tt else Throw (ExternalFailure "cache");
  getStreak _ := Ok 0;
  updateStreak _ := Ok tt;
  message _ := ""%string |}.

#[local] Existing Instance sample_ports.

Lemma sample_works down counter : @working (sample_checkout down counter).
Proof. by split. Qed.

Lemma sample_params : ∃ params,
  ChargeLedgerParamsResolverService.resolve 0 "m_1" (usd 10000) None = Ok params
  ∧ enabledPspProviders params = Some [STRIPE; ADYEN].
Proof.
  assert (match ChargeLedgerParamsResolverService.resolve 0 "m_1" (usd 10000) None with
    | Ok params => enabledPspProviders params | Throw _ => None end = Some [STRIPE; ADYEN]) as H by by vm_compute.
  destruct (ChargeLedgerParamsResolverService.resolve _ _ _ _) as [params|]; [|discriminate H].
  by exists params.
Qed.

Lemma sample_decision down counter params : enabledPspProviders params = Some [STRIPE; ADYEN] →
  ∃ d, selectAdapter (@getHealthStatus (sample_checkout down counter)) (context_of sample_input params) = Ok d
    ∧ selectedProvider d = STRIPE ∧ fallbackProviders d = [ADYEN].
Proof.
  intros Hent. unfold selectAdapter.
  set (m := getAllHealthStatuses _). set (ctx := context_of _ _).
  assert (SmartRoutingStrategy.filterAvailableProviders ctx m = [STRIPE; ADYEN]) as Hav.
  { unfold ctx, context_of. rewrite Hent. reflexivity. }
  destruct (select_preferred ctx m) with (p := STRIPE) as (d & Hd & Hok & Hsel).
  - split; [by apply usd_wf|cbn; lia].
  - split; [by apply (bool_decide_unpack (NoDup getRegisteredProviders))|].
    repeat (apply Forall_cons; split; [apply sample_health_sane; lia|]). apply Forall_nil_2.
  - done.
  - unfold ctx, context_of. rewrite Hent. reflexivity.
  - rewrite Hav. by left.
  - exists d. rewrite Hd. cbn [mbind result_bind]. rewrite Hsel. split_and!; [done..|].
    pose proof (dk_candidates _ _ _ Hok) as Hp. rewrite Hsel, Hav in Hp.
    apply Permutation_cons_inv in Hp. by apply Permutation_singleton_r in Hp.
Qed.

Lemma sample_charged down counter params : enabledPspProviders params = Some [STRIPE; ADYEN] →
  executeWithFallback (@charge (sample_checkout down counter)) (@adapterAvailable (sample_checkout down counter))
    (@getHealthStatusAgain (sample_checkout down counter)) (context_of sample_input params)
  = if down then ([STRIPE; ADYEN], Ok (sample_charge "tx_adyen", ADYEN, true))
    else ([STRIPE], Ok (sample_charge "tx_stripe", STRIPE, false)).
Proof.
  intros Hent. destruct (sample_decision down counter params Hent) as (d & Hd & Hsel & Hfb).
  unfold executeWithFallback.
  change (@getHealthStatusAgain (sample_checkout down counter)) with (@getHealthStatus (sample_checkout down counter)). rewrite Hd.
  unfold executeDecision. rewrite Hsel, Hfb. by destruct down.
Qed.

Lemma checkout_completes_witness :
  ∃ s res, execute (H := sample_checkout false true) 0 "ev" "hold" sample_input no_effects = (s, Ok res)
    ∧ res_status res = SUCCEEDED ∧ res_pspProvider res = STRIPE ∧ stored SUCCEEDED s.
Proof.
  destruct sample_params as (params & Hres & Hent).
  destruct (sample_decision false true params Hent) as (d & Hd & _).
  destruct (checkout_completes (Ports := sample_checkout false true) 0 "ev" "hold" sample_input params d [STRIPE]
              (sample_charge "tx_stripe") STRIPE false) as (s & res & E & Hst & Hprov & Hbook).
  - apply sample_works.
  - reflexivity.
  - exact sample_policies.
  - by apply usd_wf.
  - cbn. lia.
  - constructor.
  - exact Hres.
  - unfold AcquirerRoutingService.selectOptimalAdapter. by rewrite Hd.
  - exact (sample_charged false true params Hent).
  - exists s, res. destruct (Hbook eq_refl) as (_ & _ & _ & Hs & _). split_and!; [exact E|exact Hst|exact Hprov|exact Hs].
Defined.

Lemma sample_falls_back : ∃ s res,
  execute (H := sample_checkout true true) 0 "ev" "hold" sample_input no_effects = (s, Ok res)
  ∧ res_status res = SUCCEEDED ∧ res_pspProvider res = ADYEN ∧ res_usedFallback res = true.
Proof.
  destruct sample_params as (params & Hres & Hent).
  destruct (sample_decision true true params Hent) as (d & Hd & _).
  destruct (resolve_resolved sample_policies 0 "m_1" (usd 10000) None params) as [Hv Hdd _ _ _];
    [by apply usd_wf|cbn; lia|constructor|exact Hres|].
  destruct (charge_booked 0 _ (Hv "ev" "pay_1") (Hdd "ev" "pay_1"))%string as (ev & Hev & _).
  destruct (runs_execute (Ports := sample_checkout true true) (sample_works true true) 0 "ev" "hold" sample_input params d
    [STRIPE; ADYEN] (sample_charge "tx_adyen") ADYEN true ev) as (res & Hruns & Hst & Hprov & Hfb).
  - reflexivity.
  - exact Hres.
  - unfold AcquirerRoutingService.selectOptimalAdapter. by rewrite Hd.
  - exact (sample_charged true true params Hent).
  - exact Hev.
  - destruct (Hruns no_effects) as [s E]. exists s, res. split_and!; [exact E|exact Hst|exact Hprov|exact Hfb].
Qed.

Lemma fallback_provider_not_stored_witness :
  ∃ s res p q, execute (H := sample_checkout true true) 0 "ev" "hold" sample_input no_effects = (s, Ok res)
    ∧ res_pspProvider res = ADYEN ∧ row s = Some p ∧ Payment._pspProvider p = Some q ∧ q ≠ ADYEN.
Proof.
  destruct sample_falls_back as (s & res & E & Hst & Hprov & Hfb).
  destruct (fallback_provider_not_stored (Ports := sample_checkout true true) 0 "ev" "hold" sample_input s res)
    as (p & q & Hrow & Hq & Hne).
  - reflexivity.
  - exact E.
  - exact Hst.
  - exact Hfb.
  - exists s, res, p, q. rewrite Hprov in Hne. split_and!; [exact E|exact Hprov|exact Hrow|exact Hq|exact Hne].
Defined.

Lemma routing_history_outage_witness :
  ∃ s e, execute (H := sample_checkout false false) 0 "ev" "hold" sample_input no_effects = (s, Throw e)
    ∧ stored FAILED s ∧ booked s = [].
Proof.
  destruct sample_params as (params & Hres & Hent).
  destruct (sample_decision false false params Hent) as (d & Hd & _).
  destruct (routing_history_outage (Ports := sample_checkout false false) 0 "ev" "hold" sample_input params d [STRIPE]
              (sample_charge "tx_stripe") STRIPE false (ExternalFailure "cache")) as (s & E & Hst & Hb).
  - apply sample_works.
  - reflexivity.
  - reflexivity.
  - exact Hres.
  - unfold AcquirerRoutingService.selectOptimalAdapter. by rewrite Hd.
  - exact (sample_charged false false params Hent).
  - eexists s, _. split_and!; [exact E|exact Hst|exact Hb].
Defined.
