(* ===== verification/Lifecycle.v ===== *)
(** * After the charge: capture, refund, cancel, webhooks, ambiguous payments, disputes

    [payment-lifecycle.service.ts], [webhook-processing.service.ts],
    [ambiguous-payment.service.ts] and [dispute.service.ts], as programs of the
    monad of [Store] over the books of one payment. A method that takes the
    payment it works on keeps it as an argument, so that a caller can hand it a
    payment read earlier; a method that reads the payment itself reads the row on the
    master or, where the repository does not ask for the master, what the replica has of
    it. *)

From S2P Require Import Prelude JsNumber Money Policies PaymentStatus Payment Merchant Ledger LedgerParams Routing Payout Dispute Store Checkout.

(** ** What the providers and the database answer *)

Inductive PSPRefundStatus := REFUND_SUCCEEDED | REFUND_PENDING | REFUND_FAILED.

#[global] Instance PSPRefundStatus_eq_dec : EqDecision PSPRefundStatus.
Proof. solve_decision. Defined.

Record PSPRefundResponse := mkPSPRefundResponse {
  rr_success : bool;
  rr_pspRefundId : string;
  rr_status : PSPRefundStatus;
  rr_errorCode : option string }.

(** The answer of [capture] and of [cancel]. *)
Record PSPActionResponse := mkPSPActionResponse {
  ar_success : bool;
  ar_rawResponse : Json;
  ar_errorCode : option string }.

Inductive QueriedOutcome := Q_SUCCEEDED | Q_FAILED | Q_STILL_UNKNOWN.

Record PSPQueryOutcomeResult := mkPSPQueryOutcomeResult {
  q_outcome : QueriedOutcome;
  q_pspTransactionId : option string;
  q_errorCode : option string }.

(** What one call of a service finds: the answers of the providers, whether the
    writes go through, what the read replica has of the payment and of the disputes the
    master has, and the dispute configuration. *)
Class LifecyclePorts := {
  refundAtPsp : PSPProvider → Money.t → result PSPRefundResponse;
  captureAtPsp : PSPProvider → Money.t → result PSPActionResponse;
  cancelAtPsp : PSPProvider → result PSPActionResponse;
  queryOutcome : PSPProvider → string → result PSPQueryOutcomeResult;
  submitDisputeEvidence : PSPProvider → string → string → result bool;
  updateRow : result unit;
  commit : result unit;
  saveDispute : result unit;
  replicaRow : option Payment.t → option Payment.t;
  replicaDisputes : list Dispute.t → list Dispute.t;
  evaluateMerchant : string → result (option DisputePolicy.RiskTier);
  autoAcceptThreshold : number;
  lowRiskMultiplier : number;
  highRiskMultiplier : number }.

(** The replica has what the master has. *)
Class UpToDate (P : LifecyclePorts) : Prop := {
  replica_row r : replicaRow r = r;
  replica_disputes l : replicaDisputes l = l }.

(** ** Reading and writing the books *)

(** The mapper rebuilds the aggregate without pending events. *)
Definition loaded (p : Payment.t) : Payment.t := (Payment.pullDomainEvents p).2.

(** From the replica. *)
Definition findByPspTransactionId `{LifecyclePorts} (tx : string) : M (option Payment.t) :=
  gets (λ s, match replicaRow (row s) with
             | Some p => if bool_decide (Payment._pspTransactionId p = Some tx) then Some (loaded p) else None
             | None => None
             end).

Definition findByIdOnMaster (id : string) : M (option Payment.t) :=
  gets (λ s, match row s with
             | Some p => if String.eqb (Payment._id p) id then Some (loaded p) else None
             | None => None
             end).

(** What a truthy provider and transaction are. *)
Definition chargedAt (p : Payment.t) : option (PSPProvider * string) :=
  match Payment._pspProvider p, Payment._pspTransactionId p with
  | Some provider, Some tx => if String.eqb tx "" then None else Some (provider, tx)
  | _, _ => None
  end.

(** [params.amount ? Money.of(params.amount, code) : rest] *)
Definition requestedAmount (amount : option number) (p : Payment.t) (rest : result Money.t) : result Money.t :=
  match amount with
  | None | Some NaN | Some (Fin 0) => rest
  | Some x => Money.of_ (Money.ANumber x) (Currency.code (Money.currency (Payment._amount p))) None
  end.

(** [payment.splits], as the resolver reads them. *)
Definition recordedSplits (p : Payment.t) : option (list (string * Money.t)) :=
  map (λ s, (ps_merchantId s, ps_amount s)) <$> Payment._splits p.

(** The argument of [createRefundEntries] for a refund of [payment]. *)
Definition refundEntriesOf (id : string) (amount : Money.t) (p : Payment.t) : RefundEntriesParams :=
  mkRefundEntriesParams id (Payment._id p) (md_merchantId (Payment._metadata p)) amount
    (Payment._settlementConversion p) (Payment._splits p)
    (if isSome (Payment._splits p) then Some (Payment._amount p) else None).

Section services.
Context `{LifecyclePorts, ChargePorts}.
Context (now : Date).

(** [paymentRepository.update(payment)] *)
Definition updatePayment (p : Payment.t) : M unit := _ ← lift updateRow; write p.

(** The settlement conversion and tax record of a resolved charge of [amount]. *)
Definition recordConversion (params : ChargeLedgerParams) (amount : Money.t) (p : Payment.t) : Payment.t :=
  match settlementConversion params with
  | Some c =>
      let p := Payment.recordSettlementConversion (recorded_conversion c) p in
      match Tax.buildCrossBorderTaxRecord amount (Payment._binInfo p) now with
      | Some taxRecord => Payment.recordTaxRecord taxRecord p
      | None => p
      end
  | None => p
  end.
End services.

(** ** Refund, capture and cancel *)

Module PaymentLifecycleService.

(** The columns [refunds] and [captures] as they are compared. *)
Definition refundColumn (p : Payment.t) : list (string * Z * string * string * Date * option string) :=
  (λ r, (rf_refundId r, Money.amountMinorUnits (rf_amount r), Currency.code (Money.currency (rf_amount r)),
         rf_reason r, rf_createdAt r, rf_pspRefundId r)) <$> Payment._refunds p.

Definition captureColumn (p : Payment.t) : list (string * Z * string * Date * option string) :=
  (λ c, (cp_captureId c, Money.amountMinorUnits (cp_amount c), Currency.code (Money.currency (cp_amount c)),
         cp_createdAt c, cp_pspCaptureId c)) <$> Payment._captures p.

(** The [WHERE] clause of [saveIfUnchanged]. *)
Definition unchanged (before current : Payment.t) : bool :=
  bool_decide (Payment._id current = Payment._id before)
  && bool_decide (Payment._status current = Payment._status before)
  && bool_decide (refundColumn current = refundColumn before)
  && bool_decide (captureColumn current = captureColumn before).

Section lifecycle.
Context `{LifecyclePorts, ChargePorts}.
Context (now : Date).

Definition getOwnedPayment (paymentId : string) : M Payment.t :=
  payment ← findByIdOnMaster paymentId;
  match payment with
  | Some p => mret p
  | None => throw (HttpException 404 "PAYMENT_NOT_FOUND")
  end.

(** The transaction of a refund or capture: the conditional update, the ledger
    event and the reserve hold. *)
Definition saveIfUnchanged (before p : Payment.t) (ev : LedgerOutboxEvent.t) (hold : list ReserveHold.t) : M unit :=
  current ← gets row;
  if (match current with Some current => unchanged before current | None => false end) then
    _ ← lift commit;
    bookCharge (p {{ Payment._updatedAt := now }}) ev hold
  else throw (HttpException 409 "CONCURRENT_MODIFICATION").

Definition refund (refundId eventId : string) (amount : option number) (reason : option string)
    (payment : Payment.t) : M Payment.t :=
  let before := payment in
  match chargedAt payment with
  | None => throw (HttpException 409 "NOT_REFUNDABLE")
  | Some (provider, _) =>
      if negb (bool_decide (Payment._status payment = SUCCEEDED))
         && negb (bool_decide (Payment._status payment = PARTIALLY_REFUNDED))
      then throw (HttpException 409 "NOT_REFUNDABLE")
      else
        refundAmount ← lift (requestedAmount amount payment (Payment.remainingRefundable payment));
        refunded ← lift (Payment.totalRefunded payment);
        totalAfterRefund ← lift (Money.add refunded refundAmount);
        exceeds ← lift (Money.isGreaterThan totalAfterRefund (Payment._amount payment));
        if exceeds : bool then
          _ ← lift (Payment.remainingRefundable payment);
          throw (HttpException 409 "REFUND_EXCEEDS_BALANCE")
        else
          adapter ← lift (PaymentProcessorFactory.getAdapter provider);
          pspResult ← lift (refundAtPsp adapter refundAmount);
          if negb (rr_success pspResult) && negb (bool_decide (rr_status pspResult = REFUND_PENDING))
          then throw (HttpException 422 (nullish (rr_errorCode pspResult) "REFUND_DECLINED"))
          else
            payment ← lift (Payment.refund now refundId refundAmount (nullish reason "requested_by_customer")
                              (Some (rr_pspRefundId pspResult)) payment);
            outboxEvent ← lift (LedgerOutboxEvent.createRefundEntries now (refundEntriesOf eventId refundAmount payment));
            _ ← saveIfUnchanged before payment outboxEvent [];
            _ ← publishDomainEvents payment;
            mret payment
  end.

Definition capture (captureId eventId holdId : string) (amount : option number) (payment : Payment.t) : M Payment.t :=
  let before := payment in
  if negb (bool_decide (Payment._status payment = REQUIRES_CAPTURE))
     && negb (bool_decide (Payment._status payment = PARTIALLY_CAPTURED))
  then throw (HttpException 409 "NOT_CAPTURABLE")
  else match chargedAt payment with
  | None => throw (HttpException 409 "NOT_CAPTURABLE")
  | Some (provider, tx) =>
      captureAmount ← lift (requestedAmount amount payment (Payment.remainingCapturable payment));
      remaining ← lift (Payment.remainingCapturable payment);
      exceeds ← lift (Money.isGreaterThan captureAmount remaining);
      if exceeds : bool then throw (HttpException 409 "CAPTURE_EXCEEDS_AUTHORIZATION")
      else
        adapter ← lift (PaymentProcessorFactory.getAdapter provider);
        pspResult ← lift (captureAtPsp adapter captureAmount);
        if negb (ar_success pspResult)
        then throw (HttpException 422 (nullish (ar_errorCode pspResult) "CAPTURE_DECLINED"))
        else
          '(isFullyCaptured, payment) ←
            lift (Payment.recordCapture now captureId captureAmount tx (Some (ar_rawResponse pspResult)) payment);
          let payment :=
            match Payment._binInfo payment with
            | Some bin =>
                if isFullyCaptured : bool then
                  let settlementDelayHours :=
                    Num.div (Num.of_bigint (now - Payment._createdAt payment)) (Num.of_bigint (60 * 60 * 1000)) in
                  Payment.recordInterchangeQualification
                    (Interchange.evaluateInterchangeQualification (Bin.cardBrand bin) (Bin.cardProduct bin)
                       (Payment._avsResult payment) (Payment._cvvResult payment) settlementDelayHours) payment
                else payment
            | None => payment
            end in
          let merchantId := md_merchantId (Payment._metadata payment) in
          params ← lift (ChargeLedgerParamsResolverService.resolve now merchantId captureAmount None);
          let payment := recordConversion now params captureAmount payment in
          outboxEvent ← lift (LedgerOutboxEvent.createChargeEntries now
                                (mkChargeEntriesParams eventId (Payment._id payment) merchantId captureAmount
                                   (platformFee params) (settlementConversion params)
                                   (rh_amount <$> reserveHold params) None));
          _ ← saveIfUnchanged before payment outboxEvent
                (recordHold now holdId (Payment._id payment) merchantId (reserveHold params));
          _ ← publishDomainEvents payment;
          mret payment
  end.

Definition cancel (payment : Payment.t) : M Payment.t :=
  if bool_decide (Payment._status payment = CANCELLED) then mret payment
  else if negb (isValidTransition (Payment._status payment) CANCELLED)
  then throw (HttpException 409 "NOT_CANCELLABLE")
  else
    _ ← match chargedAt payment with
        | None => mret tt
        | Some (provider, _) =>
            adapter ← lift (PaymentProcessorFactory.getAdapter provider);
            pspResult ← lift (cancelAtPsp adapter);
            if negb (ar_success pspResult)
            then throw (HttpException 422 (nullish (ar_errorCode pspResult) "CANCEL_DECLINED"))
            else mret tt
        end;
    payment ← lift (Payment.cancel now payment);
    _ ← updatePayment payment;
    _ ← publishDomainEvents payment;
    mret payment.

End lifecycle.
End PaymentLifecycleService.

(** ** Disputes *)

Module DisputeService.

(** [disputePort.findByPspDisputeId] and [findById], from the replica *)
Definition findByPspDisputeId `{LifecyclePorts} (pspDisputeId : string) : M (option Dispute.t) :=
  gets (λ s, head (filter (λ d, Dispute._pspDisputeId d = pspDisputeId) (replicaDisputes (disputes s)))).

Definition findById `{LifecyclePorts} (id : string) : M (option Dispute.t) :=
  gets (λ s, head (filter (λ d, Dispute._id d = id) (replicaDisputes (disputes s)))).

Section disputes.
Context `{LifecyclePorts, ChargePorts}.
Context (now : Date).

(** [disputePort.save(dispute)]: an upsert by id. *)
Definition save (d : Dispute.t) : M unit :=
  _ ← lift saveDispute;
  modify (λ s, s {{ disputes := filter (λ d', Dispute._id d' ≠ Dispute._id d) (disputes s) ++ [d] }}).

Definition emit (e : DisputeEvent) : M unit := modify (λ s, s {{ disputeEvents := disputeEvents s ++ [e] }}).

(** The automatic contest: the PSP is called at once, and an answer other than
    success leaves the dispute for manual review. *)
Definition autoContest (reason : option string) (d : Dispute.t) : M Dispute.t :=
  let evidence := DisputePolicy.autoContestEvidenceFor reason in
  catch (adapter ← lift (PaymentProcessorFactory.getAdapter (Dispute._pspProvider d));
         success ← lift (submitDisputeEvidence adapter (Dispute._pspDisputeId d) evidence);
         if success : bool then lift (Dispute.submitEvidence now evidence d) else mret d)
        (λ _, mret d).

Definition recordDispute (disputeId paymentId merchantId : string) (pspProvider : PSPProvider)
    (pspDisputeId : string) (amount : Money.t) (reason : option string) : M Dispute.t :=
  existing ← findByPspDisputeId pspDisputeId;
  match existing with
  | Some d => mret d
  | None =>
      tier ← lift (evaluateMerchant merchantId);
      let autoDecision :=
        DisputePolicy.decideAutoDisposition amount reason autoAcceptThreshold tier lowRiskMultiplier
          highRiskMultiplier in
      payment ← findByIdOnMaster paymentId;
      let dispute :=
        Dispute.create now disputeId paymentId merchantId pspProvider pspDisputeId amount reason (Some autoDecision)
          (payment ≫= Payment._delegationId) (Payment._initiatedBy <$> payment) tier in
      dispute ← (if bool_decide (autoDecision = DisputePolicy.CONTEST) then autoContest reason dispute
                 else mret dispute);
      _ ← save dispute;
      _ ← emit (DisputeCreated dispute);
      mret dispute
  end.

Definition submitEvidence (disputeId evidence : string) : M Dispute.t :=
  found ← findById disputeId;
  match found with
  | None => throw (HttpException 404 "DISPUTE_NOT_FOUND")
  | Some dispute =>
      if negb (bool_decide (Dispute._status dispute = NEEDS_RESPONSE))
      then throw (HttpException 409 "DISPUTE_NOT_RESPONDABLE")
      else
        adapter ← lift (PaymentProcessorFactory.getAdapter (Dispute._pspProvider dispute));
        success ← lift (submitDisputeEvidence adapter (Dispute._pspDisputeId dispute) evidence);
        if negb success then throw (HttpException 422 "EVIDENCE_SUBMISSION_FAILED")
        else
          dispute ← lift (Dispute.submitEvidence now evidence dispute);
          _ ← save dispute;
          mret dispute
  end.

Definition resolveByPspDisputeId (eventId pspDisputeId : string) (outcome : DisputeOutcome) : M unit :=
  found ← findByPspDisputeId pspDisputeId;
  match found with
  | None => mret tt
  | Some dispute =>
      if Dispute.resolved dispute then mret tt
      else
        read ← findByIdOnMaster (Dispute._paymentId dispute);
        match read with
        | Some payment =>
            if bool_decide (Payment._status payment = DISPUTED) then
              dispute ← lift (Dispute.resolve now outcome dispute);
              payment ← lift (Payment.resolveDispute now outcome payment);
              _ ← match outcome with
                  | LOST =>
                      outboxEvent ← lift (LedgerOutboxEvent.createRefundEntries now
                                            (refundEntriesOf eventId (Dispute._amount dispute) payment));
                      _ ← lift commit;
                      bookCharge payment outboxEvent []
                  | WON => updatePayment payment
                  end;
              _ ← save dispute;
              _ ← publishDomainEvents payment;
              emit (DisputeResolved dispute outcome)
            else
              dispute ← lift (Dispute.resolve now outcome dispute);
              _ ← save dispute;
              emit (DisputeResolved dispute outcome)
        | None =>
            dispute ← lift (Dispute.resolve now outcome dispute);
            _ ← save dispute;
            emit (DisputeResolved dispute outcome)
        end
  end.

End disputes.
End DisputeService.

(** ** Webhooks *)

(** The fields of a Stripe event the handler reads: [type], [data.object.id] and
    the object itself with its failure, dispute and status fields. *)
Record StripeEvent := mkStripeEvent {
  se_type : option string;
  se_objectId : option string;
  se_object : Json;
  se_errorMessage : option string;
  se_errorCode : option string;
  se_paymentIntent : option string;
  se_reason : option string;
  se_status : option string }.

Record AdyenNotificationRequestItem := mkAdyenNotificationRequestItem {
  ad_pspReference : option string;
  ad_item : Json;
  ad_success : option string;
  ad_eventCode : string;
  ad_reason : option string;
  ad_originalReference : option string }.

(** Fresh identifiers of one call. *)
Record Ids := mkIds { id_event : string; id_hold : string; id_dispute : string }.

Module WebhookProcessingService.
Section webhooks.
Context `{LifecyclePorts, ChargePorts}.
Context (now : Date) (ids : Ids).

(** A payment a webhook may confirm or fail. *)
Definition awaiting (p : Payment.t) : bool :=
  bool_decide (Payment._status p = PROCESSING) || bool_decide (Payment._status p = REQUIRES_ACTION).

(** The part of [markSucceeded] after the payment was read. *)
Definition confirmSucceeded (pspTransactionId : string) (raw : Json) (payment : Payment.t) : M unit :=
  if bool_decide (Payment._status payment = SUCCEEDED) then mret tt
  else if negb (awaiting payment) then mret tt
  else
    payment ← lift (if bool_decide (Payment._status payment = REQUIRES_ACTION)
                    then Payment.completeThreeDS now (mkThreeDSResult true None None None None None) payment
                    else Ok payment);
    payment ← lift (Payment.markSucceeded now
                      (Payment.mkPspAnswer pspTransactionId (Some raw) None None None None None None) payment);
    let merchantId := md_merchantId (Payment._metadata payment) in
    params ← lift (ChargeLedgerParamsResolverService.resolve now merchantId (Payment._amount payment)
                     (recordedSplits payment));
    let payment := recordConversion now params (Payment._amount payment) payment in
    let payment :=
      match splits params with
      | Some (_ :: _) =>
          Payment.finalizeSplitConversions (ChargeLedgerParamsResolverService.toPaymentSplits (splits params)) payment
      | _ => payment
      end in
    outboxEvent ← lift (LedgerOutboxEvent.createChargeEntries now
                          (charge_params (id_event ids) (Payment._id payment) merchantId (Payment._amount payment) params));
    _ ← lift commit;
    _ ← bookCharge payment outboxEvent
          (recordHold now (id_hold ids) (Payment._id payment) merchantId (reserveHold params));
    publishDomainEvents payment.

Definition markSucceeded (pspTransactionId : string) (raw : Json) : M unit :=
  found ← findByPspTransactionId pspTransactionId;
  match found with
  | None => mret tt
  | Some payment => confirmSucceeded pspTransactionId raw payment
  end.

Definition markFailed (pspTransactionId reason : string) (errorCode : option string) : M unit :=
  found ← findByPspTransactionId pspTransactionId;
  match found with
  | None => mret tt
  | Some payment =>
      if bool_decide (Payment._status payment = FAILED) then mret tt
      else if negb (awaiting payment) then mret tt
      else
        payment ← lift (Payment.markFailed now reason errorCode None None payment);
        _ ← updatePayment payment;
        publishDomainEvents payment
  end.

Definition markDisputed (provider : PSPProvider) (pspTransactionId pspDisputeId : string) (reason : option string)
    : M unit :=
  found ← findByPspTransactionId pspTransactionId;
  match found with
  | None => mret tt
  | Some payment =>
      if bool_decide (Payment._status payment = DISPUTED) then mret tt
      else if negb (bool_decide (Payment._status payment = SUCCEEDED))
              && negb (bool_decide (Payment._status payment = PARTIALLY_REFUNDED))
      then mret tt
      else
        disputedAmount ← lift (Payment.remainingRefundable payment);
        payment ← lift (Payment.markDisputed now reason payment);
        _ ← updatePayment payment;
        _ ← DisputeService.recordDispute now (id_dispute ids) (Payment._id payment)
              (md_merchantId (Payment._metadata payment)) provider pspDisputeId disputedAmount reason;
        publishDomainEvents payment
  end.

Definition handleStripeEvent (event : StripeEvent) : M unit :=
  match se_type event, se_objectId event with
  | Some type, Some id =>
      if String.eqb type "" || String.eqb id "" then mret tt
      else if String.eqb type "payment_intent.succeeded" then markSucceeded id (se_object event)
      else if String.eqb type "payment_intent.payment_failed" then
        markFailed id (nullish (se_errorMessage event) "PSP reported payment failure") (se_errorCode event)
      else if String.eqb type "charge.dispute.created" then
        markDisputed STRIPE (nullish (se_paymentIntent event) id) id (se_reason event)
      else if String.eqb type "charge.dispute.closed" then
        if bool_decide (se_status event = Some "won"%string) then
          DisputeService.resolveByPspDisputeId now (id_event ids) id WON
        else if bool_decide (se_status event = Some "lost"%string) then
          DisputeService.resolveByPspDisputeId now (id_event ids) id LOST
        else mret tt
      else mret tt
  | _, _ => mret tt
  end.

Definition handleAdyenItem (item : AdyenNotificationRequestItem) : M unit :=
  match ad_pspReference item with
  | None => mret tt
  | Some reference =>
      let code := ad_eventCode item in
      if String.eqb reference "" then mret tt
      else if String.eqb code "AUTHORISATION" then
        if bool_decide (ad_success item = Some "true"%string) then markSucceeded reference (ad_item item)
        else markFailed reference (nullish (ad_reason item) "Adyen authorisation refused") None
      else if String.eqb code "NOTIFICATION_OF_CHARGEBACK" then
        markDisputed ADYEN (nullish (ad_originalReference item) reference) reference (ad_reason item)
      else if String.eqb code "CHARGEBACK" || String.eqb code "CHARGEBACK_REVERSED" then
        match ad_originalReference item with
        | Some original =>
            if String.eqb original "" then mret tt
            else DisputeService.resolveByPspDisputeId now (id_event ids) original
                   (if String.eqb code "CHARGEBACK_REVERSED" then WON else LOST)
        | None => mret tt
        end
      else mret tt
  end.

End webhooks.

(** The loop over [notificationItems]; each iteration has its own identifiers. *)
Fixpoint handleAdyenNotification `{LifecyclePorts, ChargePorts} (now : Date)
    (items : list (Ids * AdyenNotificationRequestItem)) : M unit :=
  match items with
  | [] => mret tt
  | (ids, item) :: items => _ ← handleAdyenItem now ids item; handleAdyenNotification now items
  end.

End WebhookProcessingService.

(** ** Ambiguous payments *)

Record SweepResult := mkSweepResult { sr_succeeded : Z; sr_failed : Z; sr_stillUnknown : Z; sr_skipped : Z }.

Module AmbiguousPaymentService.
Section ambiguous.
Context `{LifecyclePorts, ChargePorts}.
Context (now : Date) (ids : Ids).
Context (maxAutoResolutionAttempts minAutoResolutionAgeMinutes : Z).

Definition getOwnedAmbiguous (paymentId : string) : M Payment.t :=
  found ← findByIdOnMaster paymentId;
  match found with
  | None => throw (HttpException 404 "PAYMENT_NOT_FOUND")
  | Some payment =>
      if bool_decide (Payment._status payment = AMBIGUOUS) then mret payment
      else throw (HttpException 409 "PAYMENT_NOT_AMBIGUOUS")
  end.

(** The payment as written is the answer. *)
Definition bookSucceeded (payment : Payment.t) : M Payment.t :=
  let merchantId := md_merchantId (Payment._metadata payment) in
  params ← lift (ChargeLedgerParamsResolverService.resolve now merchantId (Payment._amount payment)
                   (recordedSplits payment));
  let payment := recordConversion now params (Payment._amount payment) payment in
  let payment :=
    match splits params with
    | Some (_ :: _) =>
        Payment.finalizeSplitConversions (ChargeLedgerParamsResolverService.toPaymentSplits (splits params)) payment
    | _ => payment
    end in
  outboxEvent ← lift (LedgerOutboxEvent.createChargeEntries now
                        (charge_params (id_event ids) (Payment._id payment) merchantId (Payment._amount payment) params));
  _ ← lift commit;
  _ ← bookCharge payment outboxEvent
        (recordHold now (id_hold ids) (Payment._id payment) merchantId (reserveHold params));
  mret payment.

(** [markSucceeded(pspTransactionId)] with every other argument left out. *)
Definition bare_answer (tx : string) : Payment.PspAnswer := Payment.mkPspAnswer tx None None None None None None None.

Definition resolve (paymentId : string) (succeeded : bool) (pspTransactionId : option string)
    (reason resolvedBy : string) : M Payment.t :=
  payment ← getOwnedAmbiguous paymentId;
  payment ←
    (if succeeded then
       match pspTransactionId with
       | Some tx =>
           if String.eqb tx "" then throw (HttpException 422 "PSP_TRANSACTION_ID_REQUIRED")
           else
             payment ← lift (Payment.markSucceeded now (bare_answer tx) payment);
             bookSucceeded (Payment.recordManualAmbiguousResolution now resolvedBy reason payment)
       | None => throw (HttpException 422 "PSP_TRANSACTION_ID_REQUIRED")
       end
     else
       payment ← lift (Payment.markFailed now reason (Some "MANUALLY_RESOLVED_AMBIGUOUS"%string) None None payment);
       let payment := Payment.recordManualAmbiguousResolution now resolvedBy reason payment in
       _ ← updatePayment payment;
       mret payment);
  _ ← publishDomainEvents payment;
  mret payment.

(** The row that the sweep selects. *)
Definition eligible (p : Payment.t) : bool :=
  bool_decide (Payment._status p = AMBIGUOUS)
  && (Payment._ambiguousAutoRetryCount p <? maxAutoResolutionAttempts)
  && (Payment._createdAt p <=? now - minAutoResolutionAgeMinutes * 60 * 1000).

Definition autoResolveOne (paymentId : string) (result : SweepResult) : M SweepResult :=
  found ← findByIdOnMaster paymentId;
  match found with
  | None => mret (result {{ sr_skipped := sr_skipped result + 1 }})
  | Some fresh =>
      if negb (bool_decide (Payment._status fresh = AMBIGUOUS))
      then mret (result {{ sr_skipped := sr_skipped result + 1 }})
      else match Payment._pspProvider fresh with
      | None => mret (result {{ sr_skipped := sr_skipped result + 1 }})
      | Some provider =>
          adapter ← lift (PaymentProcessorFactory.getAdapter provider);
          outcome ← lift (queryOutcome adapter (Payment._idempotencyKey fresh));
          let unknown :=
            let fresh := Payment.incrementAmbiguousAutoRetryCount fresh in
            _ ← updatePayment fresh;
            mret (result {{ sr_stillUnknown := sr_stillUnknown result + 1 }}) in
          match q_outcome outcome, q_pspTransactionId outcome with
          | Q_SUCCEEDED, Some tx =>
              if String.eqb tx "" then unknown
              else
                fresh ← lift (Payment.markSucceeded now (bare_answer tx) fresh);
                fresh ← bookSucceeded fresh;
                _ ← publishDomainEvents fresh;
                mret (result {{ sr_succeeded := sr_succeeded result + 1 }})
          | Q_FAILED, _ =>
              fresh ← lift (Payment.markFailed now
                              "Auto-resolved via PSP query: the PSP has no record of this charge succeeding"
                              (Some (nullish (q_errorCode outcome) "AUTO_RESOLVED_AMBIGUOUS"%string)) None None fresh);
              _ ← updatePayment fresh;
              _ ← publishDomainEvents fresh;
              mret (result {{ sr_failed := sr_failed result + 1 }})
          | _, _ => unknown
          end
      end
  end.

(** The sweep, on the one payment of these books. *)
Definition runAutoResolutionSweep : M SweepResult :=
  current ← gets row;
  let result := mkSweepResult 0 0 0 0 in
  match current with
  | Some p => if eligible p then catch (autoResolveOne (Payment._id p) result) (λ _, mret result) else mret result
  | None => mret result
  end.

End ambiguous.
End AmbiguousPaymentService.
