(* ===== verification/LifecycleCorrect.v ===== *)
(** * The books follow the payment

    The PSP settlement account of the ledger is the mirror of what the providers
    hold: a charge debits it, a refund or a lost dispute credits it. The central
    theorem says that its balance is always what the payment row says was paid
    less what was refunded, over any history of captures, refunds,
    cancellations, webhooks, ambiguous-payment resolutions and disputes, with
    any port failing, and with refunds and captures working on payments they
    read at any earlier time. *)

From S2P Require Import Prelude JsNumber Money Policies PaymentStatus Payment PaymentCorrect Merchant Ledger LedgerCorrect LedgerParams LedgerParamsCorrect Routing Payout Dispute Store Checkout Lifecycle.

(** ** The settlement account *)

(** What an entry moves on the PSP settlement account. *)
Definition psp_signed (e : LedgerEntry) : Z :=
  match accountType e with
  | PSP_SETTLEMENT =>
      match entryType e with
      | DEBIT => Money.amountMinorUnits (amount e)
      | CREDIT => - Money.amountMinorUnits (amount e)
      end
  | _ => 0
  end.

Definition psp_event (ev : LedgerOutboxEvent.t) : Z := sumZ psp_signed (LedgerOutboxEvent.entries ev).
Definition psp_net (l : list LedgerOutboxEvent.t) : Z := sumZ psp_event l.

Lemma psp_net_snoc l ev : psp_net (l ++ [ev]) = psp_net l + psp_event ev.
Proof. unfold psp_net. rewrite sumZ_app. cbn. lia. Qed.

Lemma create_entries now id pid ty l ev : LedgerOutboxEvent.create now id pid ty l = Ok ev →
  LedgerOutboxEvent.entries ev = l.
Proof. intros (u & _ & H)%bind_ok_iff. by injection H as <-. Qed.

Lemma psp_split pid s : sumZ psp_signed (LedgerOutboxEvent.splitEntries pid s) = 0.
Proof. unfold LedgerOutboxEvent.splitEntries. by destruct (cs_settlementConversion s). Qed.

Lemma psp_pushSplits pid r es l r' es' : LedgerOutboxEvent.pushSplits pid r es l = Ok (r', es') →
  sumZ psp_signed es' = sumZ psp_signed es.
Proof.
  revert r es. induction l as [|s l IH]; cbn; intros r es H; [by injection H as _ <-|].
  apply bind_ok_iff in H as (m & _ & H). rewrite (IH _ _ H), sumZ_app, psp_split. lia.
Qed.

Lemma psp_remainder p r : sumZ psp_signed (LedgerOutboxEvent.remainderEntries p r) = 0.
Proof. unfold LedgerOutboxEvent.remainderEntries. repeat case_match; done. Qed.

(** A charge debits the settlement account by its amount. *)
Lemma psp_charge now p ev : LedgerOutboxEvent.createChargeEntries now p = Ok ev →
  psp_event ev = Money.amountMinorUnits (ch_amount p).
Proof.
  unfold LedgerOutboxEvent.createChargeEntries. intros (net & _ & H)%bind_ok_iff.
  apply bind_ok_iff in H as (payout & _ & H). cbv zeta in H. apply bind_ok_iff in H as ([r es] & Hp & H).
  unfold psp_event. rewrite (create_entries _ _ _ _ _ _ H), sumZ_app, psp_remainder, (psp_pushSplits _ _ _ _ _ _ Hp).
  destruct (ch_reserveHold p); cbn; lia.
Qed.

Lemma psp_debit now pid acct m conv suffix es es' :
  LedgerOutboxEvent.debit now pid acct m conv suffix es = Ok es' → sumZ psp_signed es' = sumZ psp_signed es.
Proof.
  unfold LedgerOutboxEvent.debit. destruct conv as [c|]; intros H.
  - apply bind_ok_iff in H as (conv & _ & H). injection H as <-. rewrite sumZ_app. cbn. lia.
  - injection H as <-. unfold LedgerOutboxEvent.pushDebit. rewrite sumZ_app. cbn. lia.
Qed.

(** A debit that is made only for a positive amount. *)
Lemma psp_optional_debit now pid acct n code conv suffix es es' :
  (if 0 <? n then
     m ← Money.fromMinorUnits n code None; LedgerOutboxEvent.debit now pid acct m conv suffix es
   else Ok es) = Ok es' → sumZ psp_signed es' = sumZ psp_signed es.
Proof.
  case_match; [|by intros [= <-]]. intros (m & _ & Hd)%bind_ok_iff. by eapply psp_debit.
Qed.

Lemma psp_splitDebits now pid refund c total es l total' es' :
  LedgerOutboxEvent.pushSplitDebits now pid refund c total es l = Ok (total', es') →
  sumZ psp_signed es' = sumZ psp_signed es.
Proof.
  revert total es. induction l as [|s l IH]; cbn; intros total es H; [by injection H as _ <-|].
  apply bind_ok_iff in H as (n & _ & H). apply bind_ok_iff in H as (es1 & H1 & H).
  rewrite (IH _ _ H). by eapply psp_optional_debit.
Qed.

(** A refund credits it. *)
Lemma psp_refund now p ev : LedgerOutboxEvent.createRefundEntries now p = Ok ev →
  psp_event ev = - Money.amountMinorUnits (re_refundAmount p).
Proof.
  unfold LedgerOutboxEvent.createRefundEntries. cbv zeta. intros ([n es] & Hs & H)%bind_ok_iff.
  apply bind_ok_iff in H as (es' & Hd & H). unfold psp_event. rewrite (create_entries _ _ _ _ _ _ H).
  rewrite (psp_optional_debit _ _ _ _ _ _ _ _ _ Hd).
  destruct (re_splits p) as [[|s l]|]; [by injection Hs as _ <-; cbn; lia| |by injection Hs as _ <-; cbn; lia].
  destruct (re_originalChargeAmount p) as [orig|]; [|by injection Hs as _ <-; cbn; lia].
  apply bind_ok_iff in Hs as ([n1 es1] & Hs & H1). injection H1 as _ <-.
  rewrite (psp_splitDebits _ _ _ _ _ _ _ _ _ Hs). cbn. lia.
Qed.

(** ** What a payment is worth *)

(** The money the providers have taken for a payment. *)
Definition settled (a : PayAuto.state) : Z :=
  match PayAuto.status a with
  | SUCCEEDED | PARTIALLY_REFUNDED | REFUNDED | DISPUTED => PayAuto.amount a
  | PARTIALLY_CAPTURED => PayAuto.captured a
  | PENDING | PROCESSING | REQUIRES_ACTION | REQUIRES_CAPTURE | FAILED | AMBIGUOUS | CANCELLED => 0
  end.

(** ... and what is left of it. *)
Definition due (p : Payment.t) : Z := settled (abs p) - refunded_units p.

Definition good (p : Payment.t) : Prop := coherent p ∧ PayAuto.safe (abs p).

Abbreviation units p := (Money.amountMinorUnits (Payment._amount p)).

Lemma trans_amount a b : PayAuto.trans a b → PayAuto.amount b = PayAuto.amount a.
Proof. by destruct 1. Qed.

Lemma good_step p q : step p q → good p → good q ∧ units q = units p.
Proof.
  intros Hs [Hp Hsafe]. pose proof (step_effect _ _ Hs Hp) as He. pose proof (effect_trans _ _ He) as Ht.
  split; [split; [by eapply effect_coherent|by eapply PayAuto.safe_trans]|]. exact (trans_amount _ _ Ht).
Qed.

Lemma good_abs p q : abs q = abs p → due q = due p ∧ units q = units p ∧ Payment._status q = Payment._status p.
Proof.
  intros H. pose proof H as H'. unfold abs in H'. injection H' as Ha Hs Hr _. unfold due. rewrite H, Hr. done.
Qed.

Lemma good_untouched p q : untouched p q → good p → good q ∧ abs q = abs p.
Proof.
  intros Hu [Hp Hs]. destruct (untouched_abs p q Hu) as [E Hc]. split; [split; [by apply Hc|by rewrite E]|done].
Qed.

Lemma loaded_untouched p : abs (loaded p) = abs p ∧ (good p → good (loaded p)).
Proof. by destruct p. Qed.

(** How each operation changes what is due. *)
Lemma due_plain p q : good p → plain_step p q → Payment._status q ≠ SUCCEEDED → due q = due p.
Proof.
  intros Hg Hst. revert Hg. destruct Hst as [p' q' Hm Ht Hv]. intros [_ Hs] Hne. unfold due. rewrite (abs_moved _ _ _ _ Hm).
  assert (refunded_units q' = refunded_units p') as -> by (unfold refunded_units; by rewrite (proj1 (proj2 Hm)), app_nil_r).
  unfold settled, PayAuto.safe, abs in *. cbn in *. rewrite !Z.add_0_r.
  destruct (Payment._status p'), (Payment._status q'); try discriminate Hv; try done; lia.
Qed.

Lemma due_paid p q : good p → plain_step p q → Payment._status q = SUCCEEDED →
  Payment._status p = PROCESSING ∨ Payment._status p = AMBIGUOUS → due p = 0 ∧ due q = units q.
Proof.
  intros Hg Hst. revert Hg. destruct Hst as [p' q' Hm Ht Hv]. intros [_ Hs] Hq Hp.
  assert (refunded_units q' = refunded_units p') as Hr by (unfold refunded_units; by rewrite (proj1 (proj2 Hm)), app_nil_r).
  unfold due. rewrite Hr. rewrite (abs_moved _ _ _ _ Hm), (proj1 Hm). unfold settled, PayAuto.safe, abs in *. cbn in *.
  rewrite Hq. destruct Hp as [Hp | Hp]; rewrite Hp in *; lia.
Qed.

Lemma due_refund now id amt reason psp p q : good p → Money.wf amt → Payment.refund now id amt reason psp p = Ok q →
  due q = due p - Money.amountMinorUnits amt ∧ Payment._status p ≠ DISPUTED.
Proof.
  intros [Hp _] Ha H. destruct (refund_same _ _ _ _ _ _ _ Hp H) as [Hs Hst].
  pose proof (refund_run now id amt reason psp p Hp Ha Hs Hst) as Hrun. cbv zeta in Hrun.
  case_match; [rewrite Hrun in H; discriminate H|]. destruct Hrun as (q' & E & Hm & Hq). rewrite E in H. injection H as <-.
  split; [|by destruct Hst as [-> | ->]].
  assert (refunded_units q' = refunded_units p + Money.amountMinorUnits amt) as Hr.
  { unfold refunded_units. rewrite (proj1 (proj2 Hm)), sumZ_app. cbn. lia. }
  unfold due. rewrite Hr, (abs_moved _ _ _ _ Hm), Hq. unfold settled, abs. cbn.
  destruct (_ =? _), Hst as [-> | ->]; lia.
Qed.

Lemma due_capture now id amt tx raw p b q : good p → Money.wf amt → Payment.recordCapture now id amt tx raw p = Ok (b, q) →
  due q = due p + Money.amountMinorUnits amt ∧ Payment._status p ≠ DISPUTED.
Proof.
  intros [Hp Hsafe] Ha H. destruct (recordCapture_same _ _ _ _ _ _ _ Hp H) as [Hs Hst].
  pose proof (recordCapture_run now id amt tx raw p Hp Ha Hs Hst) as Hrun. cbv zeta in Hrun.
  case_match; [rewrite Hrun in H; by destruct (Payment.remainingCapturable p)|].
  destruct Hrun as (q' & E & Hm & Hq). rewrite E in H. injection H as _ <-.
  split; [|by destruct Hst as [-> | ->]].
  assert (refunded_units q' = refunded_units p) as Hr by (unfold refunded_units; by rewrite (proj1 (proj2 Hm)), app_nil_r).
  unfold due. rewrite Hr, (abs_moved _ _ _ _ Hm), Hq. unfold settled, PayAuto.safe, abs in *. cbn in *.
  rewrite !Z.add_0_r. destruct (Z.eqb_spec (captured_units p + Money.amountMinorUnits amt) (units p)), Hst as [Est | Est];
    rewrite Est in *; lia.
Qed.

Lemma due_won now p q : good p → Payment._status p = DISPUTED → Payment.resolveDispute now WON p = Ok q →
  due q = due p ∧ Payment._status q ≠ DISPUTED.
Proof.
  intros [Hp _] Hst H. destruct (resolveDispute_won _ _ _ Hp H) as (Hm & Hq & _).
  assert (refunded_units q = refunded_units p) as Hr by (unfold refunded_units; by rewrite (proj1 (proj2 Hm)), app_nil_r).
  unfold due. rewrite Hr, (abs_moved _ _ _ _ Hm), Hq. unfold settled, abs. cbn. rewrite Hst.
  destruct (refunded_units p =? 0); done.
Qed.

Lemma due_lost now p q : good p → Payment.resolveDispute now LOST p = Ok q →
  due q = 0 ∧ Payment._status q ≠ DISPUTED.
Proof.
  intros [Hp _] H. destruct (resolveDispute_lost _ _ _ Hp H) as (Hv & Hq & Hle & m & Hwf & Hs & Hmu & Hm).
  assert (refunded_units q = units p) as Hr.
  { unfold refunded_units. rewrite (proj1 (proj2 Hm)), sumZ_app. fold (refunded_units p). cbn. lia. }
  unfold due. rewrite Hr, (abs_moved _ _ _ _ Hm), Hq. unfold settled, abs. cbn. split; [lia|done].
Qed.

(** ** The invariant *)

Definition open_disputes (l : list Dispute.t) : list Dispute.t := filter (λ d, Dispute.resolved d = false) l.

(** At most one dispute is open; then the payment is DISPUTED, for all that is
    left of it. *)
Definition disputes_ok (p : Payment.t) (l : list Dispute.t) : Prop :=
  match open_disputes l with
  | [] => True
  | [d] => Payment._status p = DISPUTED ∧ Money.amountMinorUnits (Dispute._amount d) = due p
  | _ => False
  end.

Record follows (p : Payment.t) (s : Effects) : Prop := {
  fo_row : row s = Some p;
  fo_good : good p;
  fo_ledger : psp_net (booked s) = due p;
  fo_disputes : disputes_ok p (disputes s) }.

(** The books of a payment of [m] minor units. *)
Definition books (m : Z) (s : Effects) : Prop := ∃ p, follows p s ∧ units p = m.

Lemma disputes_none p l : disputes_ok p l → Payment._status p ≠ DISPUTED → open_disputes l = [].
Proof. unfold disputes_ok. destruct (open_disputes l) as [|d []]; naive_solver. Qed.

Lemma disputes_quiet p q l : disputes_ok p l → Payment._status p ≠ DISPUTED → disputes_ok q l.
Proof. intros H Hs. unfold disputes_ok. by rewrite (disputes_none _ _ H Hs). Qed.

Section triples.
Context `{Ports : LifecyclePorts, Charge : ChargePorts}.
Context (now : Date).

Lemma follows_publish p q : triple (follows p) (publishDomainEvents q) (λ _, follows p).
Proof. apply triple_modify. intros s [Hr Hg Hl Hd]. by destruct s. Qed.

(** [q] may replace the row [p] when [delta] is booked with it. *)
Record replaces (p q : Payment.t) (delta : Z) : Prop := {
  rp_good : good q;
  rp_units : units q = units p;
  rp_due : due q = due p + delta;
  rp_disputes : ∀ l, disputes_ok p l → disputes_ok q l }.

Lemma follows_books p s : follows p s → books (units p) s.
Proof. intros H. by exists p. Qed.

(** A continuation that changes neither row, ledger nor disputes. *)
Lemma finish {A} p q delta (k : M A) : replaces p q delta → keeps (follows q) k →
  triple (follows q) k (λ _, books (units p)).
Proof. intros [_ Hu _ _] Hk. eapply triple_weaken; [exact Hk|]. intros r s H. rewrite <- Hu. by apply follows_books. Qed.

(** An update that moves no money, and what follows it. *)
Lemma update_then {A} p q (k : M A) : replaces p q 0 → keeps (follows q) k →
  triple (follows p) (_ ← updatePayment q; k) (λ _, books (units p)).
Proof.
  intros Hr Hk. apply triple_bind with (λ _, follows q); [|intros _; by eapply finish].
  apply triple_bind with (λ _, follows p).
  { apply triple_lift. intros s Hs. destruct updateRow; [done|by apply follows_books]. }
  intros _. apply triple_modify. intros s [_ _ Hl Hd]. destruct Hr as [Hg _ Hdue Hds].
  destruct s as [r0 b0 h0 d0 pu0 de0 st0 c0]. change (psp_net b0 = due p) in Hl.
  split; [done|done| |by apply Hds]. change (psp_net b0 = due q). lia.
Qed.

(** A booking, and what follows it. *)
Lemma book_then {A} p q ev hold (k : M A) : replaces p q (psp_event ev) → keeps (follows q) k →
  triple (follows p) (_ ← bookCharge q ev hold; k) (λ _, books (units p)).
Proof.
  intros Hr Hk. apply triple_bind with (λ _, follows q); [|intros _; by eapply finish].
  apply triple_modify. intros s [_ _ Hl Hd]. destruct Hr as [Hg _ Hdue Hds].
  destruct s as [r0 b0 h0 d0 pu0 de0 st0 c0]. change (psp_net b0 = due p) in Hl.
  split; [done|done| |by apply Hds]. change (psp_net (b0 ++ [ev]) = due q). rewrite psp_net_snoc. lia.
Qed.

Lemma commit_then {A} p (k : M A) : triple (follows p) k (λ _, books (units p)) →
  triple (follows p) (_ ← lift commit; k) (λ _, books (units p)).
Proof.
  intros Hk. apply triple_lift_bind; [by intros [] _|]. intros e s _. apply follows_books.
Qed.

(** A failing or refused step leaves the books alone. *)
Lemma lift_then {A B} p (r : result A) (f : A → M B) :
  (∀ a, r = Ok a → triple (follows p) (f a) (λ _, books (units p))) →
  triple (follows p) (lift r ≫= f) (λ _, books (units p)).
Proof. intros Hf. apply triple_lift_bind; [done|]. intros e s _. apply follows_books. Qed.

Lemma stop_ret {A} p (a : A) : triple (follows p) (mret a) (λ _, books (units p)).
Proof. apply triple_ret. intros s. apply follows_books. Qed.
Lemma stop_throw {A} p e : triple (follows p) (throw (A := A) e) (λ _, books (units p)).
Proof. apply triple_lift. intros s. apply follows_books. Qed.

Lemma keeps_publish p q : keeps (follows p) (publishDomainEvents q).
Proof. apply follows_publish. Qed.

(** *** How rows replace one another *)

Lemma disputes_abs p q l : abs q = abs p → disputes_ok p l → disputes_ok q l.
Proof.
  intros E. destruct (good_abs p q E) as (Hdue & _ & Hst). unfold disputes_ok.
  destruct (open_disputes l) as [|d []]; [done| |done]. by rewrite Hdue, Hst.
Qed.

Lemma replaces_same p q : abs q = abs p → good q → replaces p q 0.
Proof.
  intros E Hg. destruct (good_abs p q E) as (Hdue & Hu & _). split; [done|done|lia|].
  intros l. by apply disputes_abs.
Qed.

Lemma replaces_trans p q r d1 d2 : replaces p q d1 → replaces q r d2 → replaces p r (d1 + d2).
Proof.
  intros [_ Hu1 Hd1 Hl1] [Hg Hu2 Hd2 Hl2]. split; [done|by rewrite Hu2|lia|]. intros l Hl. by apply Hl2, Hl1.
Qed.

Lemma replaces_untouched p q r d : replaces p q d → untouched q r → replaces p r d.
Proof.
  intros H Hu. destruct (good_untouched q r Hu (rp_good _ _ _ H)) as [Hg E].
  replace d with (d + 0) by lia. eapply replaces_trans; [exact H|by apply replaces_same].
Qed.

Lemma replaces_loaded p : good p → replaces p (loaded p) 0.
Proof. intros Hg. destruct (loaded_untouched p) as [E H]. by apply replaces_same; [|apply H]. Qed.

Lemma good_effect p q : effect p q → good p → good q ∧ units q = units p.
Proof.
  intros He [Hp Hs]. pose proof (effect_trans _ _ He) as Ht.
  split; [split; [by eapply effect_coherent|by eapply PayAuto.safe_trans]|]. exact (trans_amount _ _ Ht).
Qed.

Lemma replaces_plain p q : good p → plain_step p q → Payment._status q ≠ SUCCEEDED →
  Payment._status p ≠ DISPUTED → replaces p q 0.
Proof.
  intros Hg Hs Hq Hp. destruct (good_effect p q (effect_plain _ _ Hs) Hg) as [Hg' Hu].
  split; [done|done|rewrite (due_plain p q); [lia|done..]|]. intros l Hl. by eapply disputes_quiet.
Qed.

Lemma replaces_paid p q : good p → plain_step p q → Payment._status q = SUCCEEDED →
  Payment._status p = PROCESSING ∨ Payment._status p = AMBIGUOUS → replaces p q (units p).
Proof.
  intros Hg Hs Hq Hp. destruct (good_effect p q (effect_plain _ _ Hs) Hg) as [Hg' Hu].
  destruct (due_paid p q Hg Hs Hq Hp) as [H1 H2]. split; [done|done|lia|].
  intros l Hl. eapply disputes_quiet; [exact Hl|]. by destruct Hp as [-> | ->].
Qed.

Lemma recordConversion_untouched params m p : untouched p (recordConversion now params m p).
Proof.
  unfold recordConversion. destruct (settlementConversion params) as [c|]; [|by destruct p].
  pose proof (untouched_recordSettlementConversion (recorded_conversion c) p) as (? & ? & ? & ? & ?).
  destruct (Tax.buildCrossBorderTaxRecord _ _ _) as [x|]; [|by split_and!].
  pose proof (untouched_recordTaxRecord x (Payment.recordSettlementConversion (recorded_conversion c) p))
    as (? & ? & ? & ? & ?). split_and!; by etrans.
Qed.

Lemma requestedAmount_wf amount p rest m : (∀ m, rest = Ok m → Money.wf m) →
  requestedAmount amount p rest = Ok m → Money.wf m.
Proof. unfold requestedAmount. intros Hr H. repeat case_match; eauto using of_wf. Qed.

Lemma remaining_wf p m : good p → Payment.remainingRefundable p = Ok m → Money.wf m.
Proof. intros [[Ha _] _] (t & _ & H)%bind_ok_iff. by eapply subtract_wf. Qed.

Lemma capturable_wf p m : good p → Payment.remainingCapturable p = Ok m → Money.wf m.
Proof. intros [[Ha _] _] (t & _ & H)%bind_ok_iff. by eapply subtract_wf. Qed.

(** *** Conditional saves *)

Lemma refundColumn_units p :
  refunded_units p = sumZ (λ x : string * Z * string * string * Date * option string, x.1.1.1.1.2)
                       (PaymentLifecycleService.refundColumn p).
Proof.
  unfold refunded_units, PaymentLifecycleService.refundColumn. induction (Payment._refunds p); cbn; [done|]. by rewrite IHl.
Qed.

Lemma captureColumn_units p :
  captured_units p = sumZ (λ x : string * Z * string * Date * option string, x.1.1.1.2)
                       (PaymentLifecycleService.captureColumn p).
Proof.
  unfold captured_units, PaymentLifecycleService.captureColumn. induction (Payment._captures p); cbn; [done|]. by rewrite IHl.
Qed.

(** A row that still has the columns that were read stands for the same state. *)
Lemma unchanged_abs b p : PaymentLifecycleService.unchanged b p = true → units b = units p → abs p = abs b.
Proof.
  unfold PaymentLifecycleService.unchanged. intros H Hu. apply andb_true_iff in H as [H Hc%bool_decide_eq_true].
  apply andb_true_iff in H as [H Hr%bool_decide_eq_true]. apply andb_true_iff in H as [_ Hs%bool_decide_eq_true].
  unfold abs. by rewrite Hs, Hu, !refundColumn_units, !captureColumn_units, Hr, Hc.
Qed.

(** A transaction writes all or nothing. *)
Lemma committed p q ev hold : replaces p q (psp_event ev) →
  triple (follows p) (_ ← lift commit; bookCharge q ev hold)
    (λ r s, match r with Ok _ => follows q s | Throw _ => follows p s end).
Proof.
  intros [Hg Hu Hdue Hds]. apply triple_lift_bind; [|by intros e s _].
  intros [] _. apply triple_modify. intros s [_ _ Hl Hd].
  destruct s as [r0 b0 h0 d0 pu0 de0 st0 c0]. change (psp_net b0 = due p) in Hl.
  split; [done|done| |by apply Hds]. change (psp_net (b0 ++ [ev]) = due q). rewrite psp_net_snoc. lia.
Qed.

Lemma save_then {A} b p q ev hold (k : M A) : good b → units b = units p → replaces b q (psp_event ev) →
  (∀ q', keeps (follows q') k) →
  triple (follows p) (_ ← PaymentLifecycleService.saveIfUnchanged now b q ev hold; k) (λ _, books (units p)).
Proof.
  intros Hb Hu Hr Hk.
  assert (untouched q (q {{ Payment._updatedAt := now }})) as Hun by by destruct q.
  set (q' := q {{ Payment._updatedAt := now }}) in *.
  apply triple_bind with (λ _, λ s, follows q' s ∧ units q' = units p).
  - unfold PaymentLifecycleService.saveIfUnchanged.
    apply triple_bind with (λ c, λ s, follows p s ∧ c = Some p).
    { apply triple_gets. intros s Hs. split; [done|apply Hs]. }
    intros c s [Hs ->]. destruct (PaymentLifecycleService.unchanged b p) eqn:E.
    2:{ by apply follows_books. }
    pose proof (unchanged_abs b p E Hu) as Habs.
    assert (replaces p q' (psp_event ev)) as Hrp.
    { apply replaces_untouched with q; [|done]. replace (psp_event ev) with (0 + psp_event ev) by lia.
      eapply replaces_trans; [|exact Hr]. by apply replaces_same. }
    pose proof (committed p q' ev hold Hrp s Hs) as Hc. pose proof (rp_units _ _ _ Hrp) as Hu'.
    change ((λ r s, match r with Ok _ => follows q' s ∧ units q' = units p | Throw _ => books (units p) s end)
      ((_ ← lift commit; bookCharge q' ev hold) s).2 ((_ ← lift commit; bookCharge q' ev hold) s).1).
    destruct ((_ ← lift commit; bookCharge q' ev hold) s) as [s' [u|e]]; cbn [fst snd] in *; [done|by apply follows_books].
  - intros _ s [Hs Hu']. apply (Hk q') in Hs. rewrite <- Hu'. by apply follows_books.
Qed.

(** A refund or capture of a payment read at any time keeps the books. *)
Lemma refund_keeps rid eid amt reason b p : good b → units b = units p →
  triple (follows p) (PaymentLifecycleService.refund now rid eid amt reason b) (λ _, books (units p)).
Proof.
  intros Hb Hu. unfold PaymentLifecycleService.refund. cbv zeta.
  destruct (chargedAt b) as [[prov tx]|]; [|apply stop_throw]. case_match; [apply stop_throw|].
  apply lift_then. intros m Hm. apply lift_then. intros tot _. apply lift_then. intros tot' _.
  apply lift_then. intros exceeds _. destruct exceeds; [apply lift_then; intros; apply stop_throw|].
  apply lift_then. intros a _. apply lift_then. intros ans _. case_match; [apply stop_throw|].
  apply lift_then. intros q Hq. apply lift_then. intros ev Hev.
  assert (Money.wf m) as Hwf by (eapply requestedAmount_wf; [|exact Hm]; intros; by eapply remaining_wf).
  destruct (due_refund _ _ _ _ _ _ _ Hb Hwf Hq) as [Hdue Hst].
  destruct (good_step b q (step_refund _ _ _ _ _ _ _ Hwf Hq) Hb) as [Hg Hu'].
  apply save_then; [done|done| |intros q'; apply keeps_bind; [apply keeps_publish|intros; apply keeps_ret]].
  split; [done|done| |intros l Hl; by eapply disputes_quiet]. rewrite (psp_refund _ _ _ Hev). cbn. lia.
Qed.

Lemma capture_keeps cid eid hid amt b p : good b → units b = units p →
  triple (follows p) (PaymentLifecycleService.capture now cid eid hid amt b) (λ _, books (units p)).
Proof.
  intros Hb Hu. unfold PaymentLifecycleService.capture. cbv zeta. case_match; [apply stop_throw|].
  destruct (chargedAt b) as [[prov tx]|]; [|apply stop_throw].
  apply lift_then. intros m Hm. apply lift_then. intros rem _. apply lift_then. intros exceeds _.
  destruct exceeds; [apply stop_throw|]. apply lift_then. intros a _. apply lift_then. intros ans _.
  case_match; [apply stop_throw|]. apply lift_then. intros [full q] Hq.
  assert (Money.wf m) as Hwf by (eapply requestedAmount_wf; [|exact Hm]; intros; by eapply capturable_wf).
  destruct (due_capture _ _ _ _ _ _ _ _ Hb Hwf Hq) as [Hdue Hst].
  destruct (good_step b q (step_recordCapture _ _ _ _ _ _ _ _ Hwf Hq) Hb) as [Hg Hu'].
  assert (replaces b q (Money.amountMinorUnits m)) as Hr.
  { split; [done|done|lia|]. intros l Hl. by eapply disputes_quiet. }
  clear Hq Hdue Hg Hu'.
  set (q1 := match Payment._binInfo q with Some _ => _ | None => q end).
  assert (replaces b q1 (Money.amountMinorUnits m)) as Hr1.
  { subst q1. destruct (Payment._binInfo q) as [bin|]; [|done]. destruct full; [|done].
    eapply replaces_untouched; [exact Hr|]. apply untouched_recordInterchange. }
  clearbody q1. apply lift_then. intros params _.
  pose proof (replaces_untouched _ _ _ _ Hr1 (recordConversion_untouched params m q1)) as Hr2.
  set (q2 := recordConversion now params m q1) in *. clearbody q2.
  apply lift_then. intros ev Hev. apply psp_charge in Hev. cbn in Hev. rewrite <- Hev in Hr2.
  apply save_then; [done|done|exact Hr2|]. intros q'. apply keeps_bind; [apply keeps_publish|intros; apply keeps_ret].
Qed.

(** *** Target states *)

Ltac solve_target :=
  lazymatch goal with |- ?f ?p = Ok ?q → _ =>
    destruct p; unfold Payment.completeThreeDS, Payment.markSucceeded, Payment.markFailed, Payment.cancel,
      Payment.markDisputed; cbv zeta; intros (u & _ & H)%bind_ok_iff; by injection H as <- end.

Lemma target_threeDS t p q : Payment.completeThreeDS now t p = Ok q → Payment._status q = PROCESSING.
Proof. solve_target. Qed.
Lemma target_succeeded a p q : Payment.markSucceeded now a p = Ok q → Payment._status q = SUCCEEDED.
Proof. solve_target. Qed.
Lemma target_failed reason code psp sig p q : Payment.markFailed now reason code psp sig p = Ok q →
  Payment._status q = FAILED.
Proof. solve_target. Qed.
Lemma target_cancelled p q : Payment.cancel now p = Ok q → Payment._status q = CANCELLED.
Proof. solve_target. Qed.
Lemma target_disputed reason p q : Payment.markDisputed now reason p = Ok q → Payment._status q = DISPUTED.
Proof. solve_target. Qed.

(** Only an undisputed payment can be moved to these. *)
Lemma replaces_failed reason code psp sig p q : good p → Payment.markFailed now reason code psp sig p = Ok q →
  replaces p q 0.
Proof.
  intros Hg H. pose proof (target_failed _ _ _ _ _ _ H) as Ht. pose proof (plain_markFailed _ _ _ _ _ _ _ H) as Hs.
  apply replaces_plain; [done|done|by rewrite Ht|]. unfold Payment.markFailed in H.
  apply bind_ok_iff in H as (u & Hv%assertValidTransition_ok & _). by intros E; rewrite E in Hv.
Qed.

Lemma replaces_cancelled p q : good p → Payment.cancel now p = Ok q → replaces p q 0.
Proof.
  intros Hg H. pose proof (target_cancelled _ _ H) as Ht. pose proof (plain_cancel _ _ _ H) as Hs.
  apply replaces_plain; [done|done|by rewrite Ht|]. unfold Payment.cancel in H.
  apply bind_ok_iff in H as (u & Hv%assertValidTransition_ok & _). by intros E; rewrite E in Hv.
Qed.

Lemma replaces_succeeded a p q : good p → Payment._status p = PROCESSING ∨ Payment._status p = AMBIGUOUS →
  Payment.markSucceeded now a p = Ok q → replaces p q (units p).
Proof.
  intros Hg Hp H. apply replaces_paid; [done|by eapply plain_markSucceeded|by eapply target_succeeded|done].
Qed.

(** *** Reads *)

Lemma read_tx_then `{!UpToDate Ports} {A} p tx (f : option Payment.t → M A) Q :
  triple (follows p) (f None) Q → triple (follows p) (f (Some (loaded p))) Q →
  triple (follows p) (findByPspTransactionId tx ≫= f) Q.
Proof.
  intros Hn Hs. apply triple_bind with (λ o s, follows p s ∧ (o = None ∨ o = Some (loaded p))).
  - apply triple_gets. intros s H. split; [done|]. rewrite replica_row, (fo_row _ _ H). case_match; auto.
  - intros o s [H [-> | ->]]; [by apply Hn|by apply Hs].
Qed.

Lemma read_id_then {A} p id (f : option Payment.t → M A) Q :
  triple (follows p) (f None) Q → triple (follows p) (f (Some (loaded p))) Q →
  triple (follows p) (findByIdOnMaster id ≫= f) Q.
Proof.
  intros Hn Hs. apply triple_bind with (λ o s, follows p s ∧ (o = None ∨ o = Some (loaded p))).
  - apply triple_gets. intros s H. split; [done|]. rewrite (fo_row _ _ H). case_match; auto.
  - intros o s [H [-> | ->]]; [by apply Hn|by apply Hs].
Qed.

(** *** The operations *)

Lemma cancel_keeps p : good p → triple (follows p) (PaymentLifecycleService.cancel now (loaded p)) (λ _, books (units p)).
Proof.
  intros Hg. pose proof (replaces_loaded p Hg) as Hl. unfold PaymentLifecycleService.cancel.
  case_match; [apply stop_ret|]. case_match; [apply stop_throw|].
  apply triple_bind with (λ _, follows p).
  { destruct (chargedAt (loaded p)) as [[prov tx]|]; [|by apply triple_ret].
    apply triple_lift_bind; [|intros e s _; apply follows_books]. intros a _.
    apply triple_lift_bind; [|intros e s _; apply follows_books]. intros ans _.
    case_match; [apply triple_lift; intros s; apply follows_books|by apply triple_ret]. }
  intros _. apply lift_then. intros q Hq. apply update_then.
  - change 0 with (0 + 0). eapply replaces_trans; [exact Hl|]. apply replaces_cancelled; [apply Hl|done].
  - apply keeps_bind; [apply keeps_publish|intros; apply keeps_ret].
Qed.

(** The end of every confirmation: resolve, record, book. *)
Lemma booked_charge_replaces p q params ev eid pid mid : replaces p q (units p) → units q = units p →
  LedgerOutboxEvent.createChargeEntries now (charge_params eid pid mid (Payment._amount q) params) = Ok ev →
  replaces p q (psp_event ev).
Proof. intros Hr Hu Hev. rewrite (psp_charge _ _ _ Hev). cbn. by rewrite Hu. Qed.

Lemma finalized_untouched params p : untouched p
  match splits params with
  | Some (_ :: _) =>
      Payment.finalizeSplitConversions (ChargeLedgerParamsResolverService.toPaymentSplits (splits params)) p
  | _ => p
  end.
Proof. destruct (splits params) as [[|x l]|]; [by destruct p|apply untouched_finalizeSplitConversions|by destruct p]. Qed.

Section confirming.
Context (ids : Ids).

Lemma confirm_keeps tx raw p : good p →
  triple (follows p) (WebhookProcessingService.confirmSucceeded now ids tx raw (loaded p)) (λ _, books (units p)).
Proof.
  intros Hg. pose proof (replaces_loaded p Hg) as Hl. unfold WebhookProcessingService.confirmSucceeded. cbv zeta.
  case_bool_decide; [apply stop_ret|].
  destruct (WebhookProcessingService.awaiting (loaded p)) eqn:Haw; [|apply stop_ret]. cbn [negb].
  apply lift_then. intros q1 H1.
  assert (replaces p q1 0 ∧ Payment._status q1 = PROCESSING) as [Hr1 Hst1].
  { case_bool_decide as Hra.
    - split; [|by eapply target_threeDS]. change 0 with (0 + 0). eapply replaces_trans; [exact Hl|].
      apply replaces_plain; [apply Hl|by eapply plain_completeThreeDS|by rewrite (target_threeDS _ _ _ H1)|by rewrite Hra].
    - injection H1 as <-. split; [done|]. unfold WebhookProcessingService.awaiting in Haw.
      apply orb_true_iff in Haw as [?%bool_decide_eq_true|?%bool_decide_eq_true]; done. }
  apply lift_then. intros q2 H2.
  assert (replaces p q2 (units p)) as Hr2.
  { rewrite <- (Z.add_0_l (units p)). eapply replaces_trans; [exact Hr1|]. rewrite <- (rp_units _ _ _ Hr1).
    eapply replaces_succeeded; [apply Hr1|by left|exact H2]. }
  clear H2. apply lift_then. intros params _.
  pose proof (replaces_untouched _ _ _ _ Hr2 (recordConversion_untouched params (Payment._amount q2) q2)) as Hr3.
  set (q3 := recordConversion now params (Payment._amount q2) q2) in *.
  pose proof (replaces_untouched _ _ _ _ Hr3 (finalized_untouched params q3)) as Hr4.
  set (q4 := match splits params with Some (_ :: _) => _ | _ => q3 end) in *.
  apply lift_then. intros ev Hev. apply commit_then. apply book_then; [|apply keeps_publish].
  eapply booked_charge_replaces; [exact Hr4|by rewrite (rp_units _ _ _ Hr4)|exact Hev].
Qed.

Lemma markSucceeded_keeps `{!UpToDate Ports} tx raw p : good p →
  triple (follows p) (WebhookProcessingService.markSucceeded now ids tx raw) (λ _, books (units p)).
Proof. intros Hg. apply read_tx_then; [apply stop_ret|by apply confirm_keeps]. Qed.

Lemma markFailed_keeps `{!UpToDate Ports} tx reason code p : good p →
  triple (follows p) (WebhookProcessingService.markFailed now tx reason code) (λ _, books (units p)).
Proof.
  intros Hg. pose proof (replaces_loaded p Hg) as Hl. apply read_tx_then; [apply stop_ret|].
  case_match; [apply stop_ret|]. case_match; [apply stop_ret|]. apply lift_then. intros q Hq.
  apply update_then; [|apply keeps_publish]. change 0 with (0 + 0). eapply replaces_trans; [exact Hl|].
  eapply replaces_failed; [apply Hl|exact Hq].
Qed.

(** *** Ambiguous payments *)

(** What follows a finished write does not undo it. *)
Lemma books_then {A B} p (m : M A) (k : A → M B) : triple (follows p) m (λ _, books (units p)) →
  (∀ q x, keeps (follows q) (k x)) → triple (follows p) (m ≫= k) (λ _, books (units p)).
Proof.
  intros Hm Hk. apply triple_bind with (λ _, books (units p)); [eapply triple_weaken; [exact Hm|by intros []]|].
  intros x s (q' & Hf & Hu). apply (Hk q' x) in Hf. rewrite <- Hu. by apply follows_books.
Qed.

Lemma publish_ret_keeps {A} q x (a : A) : keeps (follows q) (_ ← publishDomainEvents x; mret a).
Proof. apply keeps_bind; [apply keeps_publish|intros; apply keeps_ret]. Qed.

Lemma bookSucceeded_keeps p q : replaces p q (units p) →
  triple (follows p) (AmbiguousPaymentService.bookSucceeded now ids q) (λ _, books (units p)).
Proof.
  intros Hr. unfold AmbiguousPaymentService.bookSucceeded. cbv zeta. apply lift_then. intros params _.
  pose proof (replaces_untouched _ _ _ _ Hr (recordConversion_untouched params (Payment._amount q) q)) as Hr3.
  set (q3 := recordConversion now params (Payment._amount q) q) in *.
  pose proof (replaces_untouched _ _ _ _ Hr3 (finalized_untouched params q3)) as Hr4.
  set (q4 := match splits params with Some (_ :: _) => _ | _ => q3 end) in *.
  apply lift_then. intros ev Hev. apply commit_then. apply book_then; [|apply keeps_ret].
  eapply booked_charge_replaces; [exact Hr4|by rewrite (rp_units _ _ _ Hr4)|exact Hev].
Qed.

(** An ambiguous payment, as read, that turns out to have succeeded. *)
Lemma replaces_confirmed a p q : good p → Payment._status (loaded p) = AMBIGUOUS →
  Payment.markSucceeded now a (loaded p) = Ok q → replaces p q (units p).
Proof.
  intros Hg Hst Hq. pose proof (replaces_loaded p Hg) as Hl. rewrite <- (Z.add_0_l (units p)).
  eapply replaces_trans; [exact Hl|]. rewrite <- (rp_units _ _ _ Hl).
  eapply replaces_succeeded; [apply Hl|by right|exact Hq].
Qed.

Lemma replaces_loaded_failed reason code psp sig p q : good p →
  Payment.markFailed now reason code psp sig (loaded p) = Ok q → replaces p q 0.
Proof.
  intros Hg Hq. change 0 with (0 + 0). eapply replaces_trans; [by apply replaces_loaded|].
  eapply replaces_failed; [by apply replaces_loaded|exact Hq].
Qed.

Lemma owned_then {A} p pid (f : Payment.t → M A) :
  (Payment._status (loaded p) = AMBIGUOUS → triple (follows p) (f (loaded p)) (λ _, books (units p))) →
  triple (follows p) (AmbiguousPaymentService.getOwnedAmbiguous pid ≫= f) (λ _, books (units p)).
Proof.
  intros Hf. apply triple_bind with (λ x s, follows p s ∧ x = loaded p ∧ Payment._status (loaded p) = AMBIGUOUS).
  - apply read_id_then; [apply triple_lift; intros s; apply follows_books|].
    case_bool_decide; [by apply triple_ret|apply triple_lift; intros s; apply follows_books].
  - intros x s (Hs & -> & Hst). by apply Hf.
Qed.

Lemma resolve_keeps pid succeeded tx reason by_ p : good p →
  triple (follows p) (AmbiguousPaymentService.resolve now ids pid succeeded tx reason by_) (λ _, books (units p)).
Proof.
  intros Hg. apply owned_then. intros Hst. apply books_then; [|intros; apply publish_ret_keeps].
  destruct succeeded.
  - destruct tx as [tx|]; [|apply stop_throw]. case_match; [apply stop_throw|].
    apply lift_then. intros q Hq. apply bookSucceeded_keeps. eapply replaces_untouched; [|apply untouched_recordManual].
    by eapply replaces_confirmed.
  - apply lift_then. intros q Hq. cbv zeta. apply update_then; [|apply keeps_ret].
    eapply replaces_untouched; [|apply untouched_recordManual]. by eapply replaces_loaded_failed.
Qed.

Lemma autoResolve_keeps pid res p : good p →
  triple (follows p) (AmbiguousPaymentService.autoResolveOne now ids pid res) (λ _, books (units p)).
Proof.
  intros Hg. apply read_id_then; [apply stop_ret|]. case_bool_decide as Hst; [cbn [negb]|apply stop_ret].
  destruct (Payment._pspProvider (loaded p)) as [prov|]; [|apply stop_ret].
  apply lift_then. intros a _. apply lift_then. intros out _. cbv zeta.
  assert (∀ r : SweepResult, triple (follows p)
    (_ ← updatePayment (Payment.incrementAmbiguousAutoRetryCount (loaded p)); mret r) (λ _, books (units p))) as Hunk.
  { intros r. apply update_then; [|apply keeps_ret].
    eapply replaces_untouched; [by apply replaces_loaded|apply untouched_increment]. }
  destruct (q_outcome out), (q_pspTransactionId out) as [tx|]; try (by apply Hunk).
  - case_match; [by apply Hunk|]. apply lift_then. intros q Hq.
    apply books_then; [apply bookSucceeded_keeps; by eapply replaces_confirmed|intros; apply publish_ret_keeps].
  - apply lift_then. intros q Hq. apply update_then; [by eapply replaces_loaded_failed|apply publish_ret_keeps].
  - apply lift_then. intros q Hq. apply update_then; [by eapply replaces_loaded_failed|apply publish_ret_keeps].
Qed.

Lemma sweep_keeps maxAttempts minAge p : good p →
  triple (follows p) (AmbiguousPaymentService.runAutoResolutionSweep now ids maxAttempts minAge) (λ _, books (units p)).
Proof.
  intros Hg. apply triple_bind with (λ c s, follows p s ∧ c = Some p).
  { apply triple_gets. intros s Hs. split; [done|apply Hs]. }
  intros c s [Hs ->]. cbv zeta. destruct (AmbiguousPaymentService.eligible _ _ _ p); [|by apply follows_books].
  revert s Hs. fold (triple (follows p) (catch (AmbiguousPaymentService.autoResolveOne now ids (Payment._id p)
    (mkSweepResult 0 0 0 0)) (λ _, mret (mkSweepResult 0 0 0 0))) (λ _, books (units p))).
  apply triple_catch with (λ _, books (units p)); [eapply triple_weaken; [by apply autoResolve_keeps|by intros []]|].
  intros e. by apply triple_ret.
Qed.
End confirming.

(** *** Disputes *)

Section disputing.
Context `{!UpToDate Ports} (Hsave : saveDispute = Ok tt).

Lemma open_saved d l :
  open_disputes (filter (λ d', Dispute._id d' ≠ Dispute._id d) l ++ [d])
  = filter (λ d', Dispute._id d' ≠ Dispute._id d) (open_disputes l) ++ (if Dispute.resolved d then [] else [d]).
Proof.
  unfold open_disputes. rewrite filter_app. f_equal.
  - rewrite !list_filter_filter. apply list_filter_iff. naive_solver.
  - destruct (Dispute.resolved d) eqn:E; [rewrite filter_cons_False|rewrite filter_cons_True]; rewrite ?E; done.
Qed.

(** The row and the ledger agree, and these are the disputes. *)
Definition holding (p : Payment.t) (l : list Dispute.t) (s : Effects) : Prop :=
  row s = Some p ∧ good p ∧ psp_net (booked s) = due p ∧ disputes s = l.

Lemma holding_follows p l s : holding p l s → disputes_ok p l → follows p s.
Proof. intros (? & ? & ? & <-). by split. Qed.

Lemma save_holding p l d : triple (holding p l) (DisputeService.save d)
  (λ r s, r = Ok tt ∧ holding p (filter (λ d', Dispute._id d' ≠ Dispute._id d) l ++ [d]) s).
Proof.
  unfold DisputeService.save. rewrite Hsave. apply triple_bind with (λ _, holding p l); [by apply triple_lift|].
  intros _. apply triple_modify. intros s (Hr & Hg & Hl & <-). by destruct s.
Qed.

Lemma emit_holding p l e : triple (holding p l) (DisputeService.emit e) (λ r s, r = Ok tt ∧ holding p l s).
Proof. apply triple_modify. intros s (Hr & Hg & Hl & <-). by destruct s. Qed.

Lemma publish_holding p l q : triple (holding p l) (publishDomainEvents q) (λ r s, r = Ok tt ∧ holding p l s).
Proof. apply triple_modify. intros s (Hr & Hg & Hl & <-). by destruct s. Qed.

(** Saving [d], and then writing no more than events, leaves [d] in place. *)
Lemma save_then_books {A} p l d m (k : M A) : units p = m →
  disputes_ok p (filter (λ d', Dispute._id d' ≠ Dispute._id d) l ++ [d]) →
  (∀ l', keeps (holding p l') k) →
  triple (holding p l) (_ ← DisputeService.save d; k) (λ _, books m).
Proof.
  intros <- Hok Hk. apply triple_bind with (λ _, holding p (filter (λ d', Dispute._id d' ≠ Dispute._id d) l ++ [d])).
  { eapply triple_weaken; [apply save_holding|]. by intros r s [-> H]. }
  intros _. eapply triple_weaken; [apply Hk|]. intros r s H. exists p. split; [eapply holding_follows; [exact H|exact Hok]|done].
Qed.

Lemma keeps_emit p l e : keeps (holding p l) (DisputeService.emit e).
Proof. eapply triple_weaken; [apply emit_holding|]. by intros r s [_ H]. Qed.
Lemma keeps_publish_holding p l q : keeps (holding p l) (publishDomainEvents q).
Proof. eapply triple_weaken; [apply publish_holding|]. by intros r s [_ H]. Qed.

(** A new dispute over all that is left, when none is open. *)
Lemma disputes_first p l d : open_disputes l = [] → Payment._status p = DISPUTED → Dispute.resolved d = false →
  Money.amountMinorUnits (Dispute._amount d) = due p →
  disputes_ok p (filter (λ d', Dispute._id d' ≠ Dispute._id d) l ++ [d]).
Proof. intros Hl Hp Hd Ha. unfold disputes_ok. rewrite open_saved, Hl, Hd. done. Qed.

(** The open dispute answered or resolved. *)
Lemma disputes_only p q l d d' : disputes_ok p l → d ∈ l → Dispute.resolved d = false →
  Dispute._id d' = Dispute._id d → Dispute._amount d' = Dispute._amount d →
  Dispute.resolved d' = true ∨ (Payment._status q = Payment._status p ∧ due q = due p) →
  Payment._status p = DISPUTED ∧ Money.amountMinorUnits (Dispute._amount d) = due p
  ∧ disputes_ok q (filter (λ x, Dispute._id x ≠ Dispute._id d') l ++ [d']).
Proof.
  intros Hok Hin Hop Hid Ha Hq. unfold disputes_ok in *. rewrite open_saved.
  assert (d ∈ open_disputes l) as Hino by by apply list_elem_of_filter.
  destruct (open_disputes l) as [|x [|y l']] eqn:E; [by apply elem_of_nil in Hino| |done].
  apply list_elem_of_singleton in Hino as <-. destruct Hok as [Hp Hd].
  rewrite filter_cons_False by (rewrite Hid; tauto). split_and!; [done|done|].
  destruct Hq as [-> | [Hs Hdue]]; [done|].
  destruct (Dispute.resolved d'); cbn; [done|]. rewrite Ha, Hs, Hdue. done.
Qed.

Lemma contested reason d : Dispute._status d = NEEDS_RESPONSE → ∀ P,
  triple P (DisputeService.autoContest now reason d)
    (λ r s, P s ∧ ∃ d', r = Ok d' ∧ Dispute.resolved d' = false ∧ Dispute._amount d' = Dispute._amount d).
Proof.
  intros Hd P. unfold DisputeService.autoContest. cbv zeta.
  assert (Dispute.resolved d = false) as Hres by (unfold Dispute.resolved; by rewrite Hd).
  apply triple_catch with (λ _, P); [|intros e; apply triple_ret; intros s Hs; by split; [|exists d]].
  apply triple_lift_bind; [|by intros]. intros a _. apply triple_lift_bind; [|by intros]. intros ok _.
  destruct ok; [|apply triple_ret; intros s Hs; by split; [|exists d]].
  unfold Dispute.submitEvidence. rewrite bool_decide_eq_true_2 by done. apply triple_lift. intros s Hs.
  split; [done|]. eexists. split; [reflexivity|]. by destruct d.
Qed.

Lemma recordDispute_books id pid mid prov psp m reason p l :
  open_disputes l = [] → Payment._status p = DISPUTED → Money.amountMinorUnits m = due p →
  ∀ {A} (k : Dispute.t → M A), (∀ d l', keeps (holding p l') (k d)) →
  triple (holding p l) (DisputeService.recordDispute now id pid mid prov psp m reason ≫= k) (λ _, books (units p)).
Proof.
  intros Hl Hp Hm A k Hk.
  assert (∀ d l', disputes_ok p l' → triple (holding p l') (k d) (λ _, books (units p))) as Hk'.
  { intros d l' Hok. eapply triple_weaken; [apply Hk|]. intros r s H. exists p. split; [eapply holding_follows; [exact H|exact Hok]|done]. }
  assert (disputes_ok p l) as Hok by (unfold disputes_ok; by rewrite Hl).
  assert (∀ s, holding p l s → books (units p) s) as Hbooks.
  { intros s H. exists p. split; [eapply holding_follows; [exact H|exact Hok]|done]. }
  apply triple_bind with (λ d s, ∃ l', holding p l' s ∧ disputes_ok p l'); [|intros d s (l' & H & H'); by apply (Hk' d l')].
  unfold DisputeService.recordDispute. apply triple_bind with (λ _, holding p l); [by apply triple_gets|].
  intros [d|]; [apply triple_ret; intros s H; by exists l|].
  apply triple_lift_bind; [|intros e s _; apply Hbooks]. intros tier _. cbv zeta.
  apply triple_bind with (λ _, holding p l); [by apply triple_gets|]. intros pay.
  set (d := Dispute.create _ _ _ _ _ _ _ _ _ _ _ _).
  apply triple_bind with (λ d' s, holding p l s ∧ Dispute.resolved d' = false ∧ Dispute._amount d' = m).
  { case_match; [|apply triple_ret; by intros].
    eapply triple_weaken; [by apply contested|]. intros r s (Hs & d' & -> & ? & ?). done. }
  intros d'. apply triple_pure. intros [Hres Ham].
  apply triple_bind with (λ _, holding p (filter (λ x, Dispute._id x ≠ Dispute._id d') l ++ [d'])).
  { eapply triple_weaken; [apply save_holding|]. by intros r s [-> H]. }
  intros _. apply triple_bind with (λ _, holding p (filter (λ x, Dispute._id x ≠ Dispute._id d') l ++ [d'])).
  { eapply triple_weaken; [apply emit_holding|]. by intros r s [-> H]. }
  intros _. apply triple_ret. intros s H. eexists. split; [exact H|]. apply disputes_first; [done..|]. by rewrite Ham.
Qed.

Lemma remaining_units p m : good p → Payment.remainingRefundable p = Ok m →
  Money.amountMinorUnits m = units p - refunded_units p.
Proof.
  intros [Hp _] H. destruct (totalRefunded_ok p Hp) as (t & Et & _ & _ & Htu).
  unfold Payment.remainingRefundable in H. rewrite Et in H. apply subtract_ok in H as (_ & _ & ->). cbn. lia.
Qed.

(** Disputing what is left of a paid payment. *)
Lemma disputed_due reason p q : good p → Payment._status p = SUCCEEDED ∨ Payment._status p = PARTIALLY_REFUNDED →
  Payment.markDisputed now reason p = Ok q → replaces p q 0 ∧ due q = units p - refunded_units p.
Proof.
  intros Hg Hst H. assert (replaces p q 0) as Hr.
  { apply replaces_plain; [done|by eapply plain_markDisputed|by rewrite (target_disputed _ _ _ H)|].
    by destruct Hst as [-> | ->]. }
  split; [done|]. rewrite (rp_due _ _ _ Hr). unfold due, settled, abs. cbn. destruct Hst as [-> | ->]; lia.
Qed.

Lemma update_holding p q l : replaces p q 0 →
  triple (λ s, follows p s ∧ disputes s = l) (updatePayment q)
    (λ r s, match r with Ok _ => holding q l s | Throw _ => books (units p) s end).
Proof.
  intros [Hg Hu Hdue Hds]. apply triple_lift_bind; [|intros e s _ [H _]; by apply follows_books].
  intros [] _. apply triple_modify. intros s [[Hr Hgp Hl Hd] <-]. destruct s as [r0 b0 h0 d0 pu0 de0 st0 c0].
  change (psp_net b0 = due p) in Hl. split_and!; [done|done| |done]. change (psp_net b0 = due q). lia.
Qed.

Lemma markDisputed_keeps ids prov tx psp reason p : good p →
  triple (follows p) (WebhookProcessingService.markDisputed now ids prov tx psp reason) (λ _, books (units p)).
Proof.
  intros Hg. pose proof (replaces_loaded p Hg) as Hl. apply read_tx_then; [apply stop_ret|].
  case_match; [apply stop_ret|]. destruct (_ && _) eqn:Hst; [apply stop_ret|].
  assert (Payment._status (loaded p) = SUCCEEDED ∨ Payment._status (loaded p) = PARTIALLY_REFUNDED) as Hpaid.
  { apply andb_false_iff in Hst as [H1|H1]; apply negb_false_iff, bool_decide_eq_true in H1; auto. }
  apply lift_then. intros m Hm. apply lift_then. intros q Hq.
  destruct (disputed_due _ _ _ (rp_good _ _ _ Hl) Hpaid Hq) as [Hr Hdue].
  pose proof (replaces_trans _ _ _ _ _ Hl Hr) as Hr'. cbn in Hr'.
  pose proof (remaining_units _ _ (rp_good _ _ _ Hl) Hm) as Hmu. clear Hm.
  assert (Payment._status p ≠ DISPUTED) as Hnd.
  { destruct (good_abs p (loaded p) (proj1 (loaded_untouched p))) as (_ & _ & E). rewrite <- E.
    by destruct Hpaid as [-> | ->]. }
  intros s Hs. pose proof (disputes_none _ _ (fo_disputes _ _ Hs) Hnd) as Hnone.
  assert (triple (λ s', follows p s' ∧ disputes s' = disputes s)
    (_ ← updatePayment q; _ ← DisputeService.recordDispute now (id_dispute ids) (Payment._id q)
       (md_merchantId (Payment._metadata q)) prov psp m reason; publishDomainEvents q) (λ _, books (units p))) as Hrun;
    [|by apply Hrun].
  apply triple_bind with (λ _, holding q (disputes s)).
  { eapply triple_weaken; [by apply (update_holding p q)|]. by intros [] s'. }
  intros _. rewrite <- (rp_units _ _ _ Hr'). apply recordDispute_books; [done|by eapply target_disputed|lia|].
  intros _ l'. apply keeps_publish_holding.
Qed.

(** A dispute that was found is in the store. *)
Lemma found_In {P : Dispute.t → Prop} `{∀ d, Decision (P d)} l d : head (filter P l) = Some d → d ∈ l ∧ P d.
Proof.
  intros E. assert (d ∈ filter P l) as Hin by (destruct (filter P l); [done|injection E as ->; by left]).
  apply list_elem_of_filter in Hin. naive_solver.
Qed.

Lemma dispute_read_then {A} {P : Dispute.t → Prop} `{∀ d, Decision (P d)} p (f : option Dispute.t → M A) Q :
  triple (follows p) (f None) Q →
  (∀ d l, d ∈ l → triple (λ s, follows p s ∧ disputes s = l) (f (Some d)) Q) →
  triple (follows p) (gets (λ s, head (filter P (replicaDisputes (disputes s)))) ≫= f) Q.
Proof.
  intros Hn Hs s Hf. unfold mbind, M_bind, gets. rewrite replica_disputes. destruct (head (filter P (disputes s))) as [d|] eqn:E; [|by apply Hn].
  apply found_In in E as [Hin _]. by apply (Hs d (disputes s)).
Qed.

(** Refusals and failures before anything is written. *)
Lemma hold_lift_then {A B} p l (r : result A) (f : A → M B) :
  (∀ a, r = Ok a → triple (λ s, follows p s ∧ disputes s = l) (f a) (λ _, books (units p))) →
  triple (λ s, follows p s ∧ disputes s = l) (lift r ≫= f) (λ _, books (units p)).
Proof. intros Hf. apply triple_lift_bind; [done|]. intros e s _ [H _]. by apply follows_books. Qed.

Lemma hold_stop {A} p l (m : M A) : triple (follows p) m (λ _, books (units p)) →
  triple (λ s, follows p s ∧ disputes s = l) m (λ _, books (units p)).
Proof. intros Hm s [H _]. by apply Hm. Qed.

Lemma follows_holding p l s : follows p s ∧ disputes s = l → holding p l s ∧ disputes_ok p l.
Proof. intros [[] <-]. by split. Qed.

Lemma submitEvidence_keeps id evidence p :
  triple (follows p) (DisputeService.submitEvidence now id evidence) (λ _, books (units p)).
Proof.
  apply dispute_read_then; [apply stop_throw|]. intros d l Hin.
  case_bool_decide as Hst; cbn [negb]; [|apply hold_stop, stop_throw].
  apply hold_lift_then. intros a _. apply hold_lift_then. intros ok _. destruct ok; [cbn [negb]|apply hold_stop, stop_throw].
  apply hold_lift_then. intros d' Hd'. apply (triple_pre (disputes_ok p l) _ (holding p l)); [apply follows_holding|]. intros Hok.
  assert (Dispute.resolved d = false) as Hres by (unfold Dispute.resolved; by rewrite Hst).
  assert (Dispute._id d' = Dispute._id d ∧ Dispute._amount d' = Dispute._amount d) as [Hid Ham].
  { unfold Dispute.submitEvidence in Hd'. rewrite bool_decide_eq_true_2 in Hd' by done. injection Hd' as <-. by destruct d. }
  apply (save_then_books p l d' (units p) (mret d')); [done| |intros; apply keeps_ret].
  eapply disputes_only; [exact Hok|done..|by right].
Qed.

(** What a resolution writes, for a dispute over all that is left. *)
Lemma resolution_written eid outcome m p b q l : good b → abs b = abs p → Payment._status b = DISPUTED →
  Money.amountMinorUnits m = due p → Payment.resolveDispute now outcome b = Ok q →
  triple (holding p l)
    match outcome with
    | LOST =>
        outboxEvent ← lift (LedgerOutboxEvent.createRefundEntries now (refundEntriesOf eid m q));
        _ ← lift commit; bookCharge q outboxEvent []
    | WON => updatePayment q
    end (λ r s, match r with Ok _ => holding q l s | Throw _ => holding p l s end).
Proof.
  intros Hg Eb Hst Hm Hq. destruct (good_step b q (step_resolveDispute _ _ _ _ Hq) Hg) as [Hgq Hu].
  destruct (good_abs p b Eb) as (Hdb & _ & _). destruct outcome.
  - destruct (due_won _ _ _ Hg Hst Hq) as [Hdue _]. apply triple_lift_bind; [|by intros e s _].
    intros [] _. apply triple_modify. intros s (Hr & _ & Hl & <-). destruct s as [r0 b0 h0 d0 pu0 de0 st0 c0].
    change (psp_net b0 = due p) in Hl. split_and!; [done|done| |done]. change (psp_net b0 = due q). lia.
  - destruct (due_lost _ _ _ Hg Hq) as [Hdue _]. apply triple_lift_bind; [|by intros e s _]. intros ev Hev.
    apply psp_refund in Hev. cbn in Hev. apply triple_lift_bind; [|by intros e s _]. intros [] _.
    apply triple_modify. intros s (Hr & _ & Hl & <-). destruct s as [r0 b0 h0 d0 pu0 de0 st0 c0].
    change (psp_net b0 = due p) in Hl. split_and!; [done|done| |done].
    change (psp_net (b0 ++ [ev]) = due q). rewrite psp_net_snoc. lia.
Qed.

Lemma resolve_dispute_keeps eid psp outcome p : good p →
  triple (follows p) (DisputeService.resolveByPspDisputeId now eid psp outcome) (λ _, books (units p)).
Proof.
  intros Hg. pose proof (replaces_loaded p Hg) as Hl.
  apply dispute_read_then; [apply stop_ret|]. intros d l Hin.
  destruct (Dispute.resolved d) eqn:Hres; [apply hold_stop, stop_ret|].
  assert (∀ d', Dispute.resolve now outcome d = Ok d' →
    Dispute._id d' = Dispute._id d ∧ Dispute._amount d' = Dispute._amount d ∧ Dispute.resolved d' = true) as Hd'.
  { unfold Dispute.resolve. rewrite Hres. intros d' [= <-]. by destruct d. }
  (* the branches that leave the payment alone *)
  assert (triple (λ s, follows p s ∧ disputes s = l)
    (dispute ← lift (Dispute.resolve now outcome d); _ ← DisputeService.save dispute;
     DisputeService.emit (DisputeResolved dispute outcome)) (λ _, books (units p))) as Halone.
  { apply hold_lift_then. intros d' E. destruct (Hd' d' E) as (Hid & Ham & Hres').
    apply (triple_pre (disputes_ok p l) _ (holding p l)); [apply follows_holding|]. intros Hok.
    apply (save_then_books p l d' (units p)); [done| |intros; apply keeps_emit].
    eapply disputes_only; [exact Hok|done..|by left]. }
  apply triple_bind with (λ o s, (follows p s ∧ disputes s = l) ∧ (o = None ∨ o = Some (loaded p))).
  { apply triple_gets. intros s [Hs <-]. split; [done|]. rewrite (fo_row _ _ Hs). case_match; auto. }
  intros o. apply triple_pure. intros [-> | ->]; [exact Halone|].
  case_bool_decide as Hst; [|exact Halone]. clear Halone.
  apply hold_lift_then. intros d' E. destruct (Hd' d' E) as (Hid & Ham & Hres').
  apply hold_lift_then. intros q Hq.
  apply (triple_pre (disputes_ok p l) _ (holding p l)); [apply follows_holding|]. intros Hok.
  destruct (disputes_only p q l d d' Hok Hin Hres Hid Ham (or_introl Hres')) as (_ & Hamt & Hok').
  destruct (good_step (loaded p) q (step_resolveDispute _ _ _ _ Hq) (rp_good _ _ _ Hl)) as [_ Huq].
  rewrite (rp_units _ _ _ Hl) in Huq. rewrite <- Ham in Hamt.
  apply triple_bind with (λ _, holding q l).
  { eapply triple_weaken.
    - apply (resolution_written eid outcome (Dispute._amount d') p (loaded p) q l);
        [apply Hl|apply loaded_untouched|done|done|done].
    - intros [] s Hs; [done|]. exists p. split; [by eapply holding_follows|done]. }
  intros _. apply (save_then_books q l d'); [done|done|]. intros l'.
  apply keeps_bind; [apply keeps_publish_holding|intros; apply keeps_emit].
Qed.
End disputing.

Section webhooks.
Context `{!UpToDate Ports} (ids : Ids) (Hsave : saveDispute = Ok tt).

Lemma stripe_keeps event p : good p →
  triple (follows p) (WebhookProcessingService.handleStripeEvent now ids event) (λ _, books (units p)).
Proof.
  intros Hg. unfold WebhookProcessingService.handleStripeEvent.
  destruct (se_type event), (se_objectId event); try apply stop_ret.
  repeat case_match; first [apply stop_ret|by apply markSucceeded_keeps|by apply markFailed_keeps
    |by apply markDisputed_keeps|by apply resolve_dispute_keeps].
Qed.

Lemma adyen_item_keeps item p : good p →
  triple (follows p) (WebhookProcessingService.handleAdyenItem now ids item) (λ _, books (units p)).
Proof.
  intros Hg. unfold WebhookProcessingService.handleAdyenItem. cbv zeta.
  destruct (ad_pspReference item); [|apply stop_ret].
  repeat case_match; first [apply stop_ret|by apply markSucceeded_keeps|by apply markFailed_keeps
    |by apply markDisputed_keeps|by apply resolve_dispute_keeps].
Qed.
End webhooks.

Lemma books_keeps {A} m (c : M A) : (∀ p, good p → triple (follows p) c (λ _, books (units p))) →
  keeps (books m) c.
Proof. intros Hc s (p & Hf & <-). apply (Hc p); [apply Hf|done]. Qed.

Lemma adyen_keeps `{!UpToDate Ports} items m : saveDispute = Ok tt →
  keeps (books m) (WebhookProcessingService.handleAdyenNotification now items).
Proof.
  intros Hsave. induction items as [|[ids item] items IH]; cbn; [apply keeps_ret|].
  apply keeps_bind; [|done]. apply books_keeps. intros p Hg. by apply adyen_item_keeps.
Qed.
End triples.
