(* ===== verification/HistoryCorrect.v ===== *)
(** * The whole life of a payment

    From the checkout on, over any history of service calls, the settlement
    account of the ledger carries what the payment row says it should. *)

From S2P Require Import Prelude JsNumber Money Policies PaymentStatus Payment PaymentCorrect Merchant Ledger LedgerCorrect LedgerParams LedgerParamsCorrect Routing RoutingCorrect Payout Dispute Store Checkout CheckoutCorrect Lifecycle LifecycleCorrect.

(** ** The checkout opens the books *)

Section opening.
Context `{Ports : CheckoutPorts, Charge : ChargePorts}.
Context (now : Date) (eventId holdId : string) (input : CheckoutSagaInput).
Context (Hamount : Money.wf (in_amount input)).
Import PaymentCheckoutSaga.

Abbreviation total := (Money.amountMinorUnits (in_amount input)).

(** The aggregate [p] in memory may replace the stored row. *)
Definition holds_as (p : Payment.t) (s : Effects) : Prop :=
  units p = total ∧ ∃ r, follows r s ∧ replaces r p 0.

Definition opened (s : Effects) : Prop := s = no_effects ∨ books total s.

Lemma held_opened p s : holds_as p s → opened s.
Proof. intros (Hu & r & Hf & Hr). right. exists r. split; [done|]. by rewrite <- (rp_units _ _ _ Hr). Qed.

Lemma held_good p s : holds_as p s → good p.
Proof. intros (_ & r & _ & Hr). apply Hr. Qed.

Lemma held_replaced p q s : holds_as p s → replaces p q 0 → holds_as q s.
Proof.
  intros (Hu & r & Hf & Hr) Hq. split; [by rewrite (rp_units _ _ _ Hq)|]. exists r. split; [done|].
  by pose proof (replaces_trans _ _ _ _ _ Hr Hq).
Qed.

Lemma held_untouched p q s : untouched p q → holds_as p s → holds_as q s.
Proof.
  intros Hu Hh. eapply held_replaced; [exact Hh|]. destruct (good_untouched p q Hu (held_good _ _ Hh)) as [Hg E].
  by apply replaces_same.
Qed.

Lemma held_publish p q : keeps (holds_as p) (publishDomainEvents q).
Proof.
  apply triple_modify. intros s (Hu & r & [H1 H2 H3 H4] & Hr). split; [done|]. exists r. split; [|done].
  destruct s. by split.
Qed.

(** Failing or leaving early. *)
Lemma held_lift_then {A B} p (r : result A) (f : A → M B) :
  (∀ a, r = Ok a → triple (holds_as p) (f a) (λ _, opened)) → triple (holds_as p) (lift r ≫= f) (λ _, opened).
Proof. intros Hf. apply triple_lift_bind; [done|]. intros e s _. apply held_opened. Qed.

Lemma opened_then {A B} P (m : M A) (k : A → M B) : triple P m (λ _, opened) →
  (∀ x, keeps opened (k x)) → triple P (m ≫= k) (λ _, opened).
Proof. intros Hm Hk. apply triple_bind with (λ _, opened); [eapply triple_weaken; [exact Hm|by intros []]|done]. Qed.

Lemma held_ret {A} p (a : A) : triple (holds_as p) (mret a) (λ _, opened).
Proof. apply triple_ret. intros s. apply held_opened. Qed.
Lemma held_throw {A} p e : triple (holds_as p) (throw (A := A) e) (λ _, opened).
Proof. apply triple_lift. intros s. apply held_opened. Qed.

Lemma held_update p q : replaces p q 0 →
  triple (holds_as p) (updatePayment q) (λ r s, match r with Ok _ => holds_as q s | Throw _ => opened s end).
Proof.
  intros Hq. apply triple_lift_bind; [|intros e s _; apply held_opened]. intros [] _.
  apply triple_modify. intros s (Hu & r & [H1 H2 H3 H4] & Hr).
  pose proof (replaces_trans _ _ _ _ _ Hr Hq) as [Hg Hu' Hdue Hds]. split; [by rewrite (rp_units _ _ _ Hq)|].
  exists q. split; [|by apply replaces_same; [|apply Hq]]. destruct s as [r0 b0 h0 d0 pu0 de0 st0 c0].
  change (psp_net b0 = due r) in H3. split; [done|done| |by apply Hds]. change (psp_net b0 = due q). lia.
Qed.

Lemma held_update_then {A} p q (k : M A) : replaces p q 0 → triple (holds_as q) k (λ _, opened) →
  triple (holds_as p) (_ ← updatePayment q; k) (λ _, opened).
Proof.
  intros Hq Hk. apply triple_bind with (λ _, holds_as q); [|done].
  eapply triple_weaken; [by apply held_update|]. by intros [].
Qed.

Lemma held_publish_ret {A} p q (a : A) : triple (holds_as p) (_ ← publishDomainEvents q; mret a) (λ _, opened).
Proof.
  apply triple_bind with (λ _, holds_as p); [eapply triple_weaken; [apply held_publish|]|intros _; apply held_ret].
  by intros [] s; [|apply held_opened].
Qed.

(** The state [p] has, for as long as it is held. *)
Lemma held_good_then {A} p (m : M A) : (good p → units p = total → triple (holds_as p) m (λ _, opened)) →
  triple (holds_as p) m (λ _, opened).
Proof. intros H s Hs. apply H; [by eapply held_good|apply Hs|done]. Qed.

Lemma compensate_opened p (m : result Payment.t) : (∀ q, m = Ok q → good p → replaces p q 0) →
  triple (holds_as p) (catch (q ← lift m; _ ← updatePayment q; publishDomainEvents q) (λ _, mret tt)) (λ _, opened).
Proof.
  intros Hm. apply triple_catch with (λ _, opened); [|intros e; apply keeps_ret].
  eapply triple_weaken with (Q := λ _, opened); [|by intros []]. apply held_good_then. intros Hg _.
  apply held_lift_then. intros q Hq. apply held_update_then; [by apply Hm|].
  eapply triple_weaken; [apply held_publish|]. intros r s. apply held_opened.
Qed.

Lemma failed_opened p reason code prov sig :
  triple (holds_as p) (compensate_markFailed now p reason code prov sig) (λ _, opened).
Proof. apply compensate_opened. intros q Hq Hg. by eapply replaces_failed. Qed.

Lemma ambiguous_opened p reason : triple (holds_as p) (compensate_markAmbiguous now p reason) (λ _, opened).
Proof.
  apply compensate_opened. intros q Hq Hg. apply replaces_plain; [done|by eapply plain_markAmbiguous| |].
  - unfold Payment.markAmbiguous in Hq. apply bind_ok_iff in Hq as (u & _ & Hq). injection Hq as <-. by destruct p.
  - unfold Payment.markAmbiguous in Hq. apply bind_ok_iff in Hq as (u & Hv%assertValidTransition_ok & _).
    by intros E; rewrite E in Hv.
Qed.

(** *** The steps of the saga *)

Lemma held_modify p (f : Effects → Effects) :
  (∀ s, row (f s) = row s ∧ booked (f s) = booked s ∧ disputes (f s) = disputes s) → keeps (holds_as p) (modify f).
Proof.
  intros Hf. apply triple_modify. intros s (Hu & r & [H1 H2 H3 H4] & Hr). destruct (Hf s) as (E1 & E2 & E3).
  split; [done|]. exists r. split; [|done]. split; [by rewrite E1|done|by rewrite E2|by rewrite E3].
Qed.

Lemma held_track p u : triple (holds_as p) (trackStreak u)
  (λ r s, match r with Ok _ => holds_as p s | Throw _ => opened s end).
Proof.
  apply triple_lift_bind; [|intros e s _; apply held_opened]. intros [] _.
  eapply triple_weaken; [apply held_modify; intros s; by destruct s|]. intros [] s; [done|apply held_opened].
Qed.

Lemma held_streak {A} p requested a (k : M A) : triple (holds_as p) k (λ _, opened) →
  triple (holds_as p) (_ ← streakAfterCharge input requested a; k) (λ _, opened).
Proof.
  intros Hk. apply triple_bind with (λ _, holds_as p); [|done]. unfold streakAfterCharge.
  repeat case_match; first [apply held_track|by apply triple_ret].
Qed.

Lemma recordCharge_ok params a p p' ev : recordCharge now eventId input params a p = Ok (p', ev) →
  good p → replaces p p' 0 ∧ psp_event ev = total.
Proof.
  unfold recordCharge. cbv zeta. intros (ev' & Hev & H)%bind_ok_iff Hg. injection H as <- <-.
  split; [|by apply psp_charge in Hev].
  assert (replaces p p 0) as Hr by by apply replaces_same.
  repeat case_match; repeat (eapply replaces_untouched; [|first [apply untouched_finalizeSplitConversions
    |apply untouched_recordTaxRecord|apply untouched_recordSettlementConversion|apply untouched_recordInterchange]]); done.
Qed.

Lemma commit_opened {A} p q params ev (a : A) : replaces p q (psp_event ev) →
  triple (holds_as p) (_ ← commitCharge now holdId input params q ev; _ ← publishDomainEvents q; mret a) (λ _, opened).
Proof.
  intros Hq. apply triple_bind with (λ _, holds_as q); [|intros _; apply held_publish_ret].
  apply triple_lift_bind; [|intros e s _; apply held_opened]. intros [] _.
  apply triple_modify. intros s (Hu & r & [H1 H2 H3 H4] & Hr).
  pose proof (replaces_trans _ _ _ _ _ Hr Hq) as [Hg Hu' Hdue Hds]. split; [by rewrite (rp_units _ _ _ Hq)|].
  exists q. split; [|by apply replaces_same; [|apply Hq]]. destruct s as [r0 b0 h0 d0 pu0 de0 st0 c0].
  change (psp_net b0 = due r) in H3. split; [done|done| |by apply Hds].
  change (psp_net (b0 ++ [ev]) = due q). rewrite psp_net_snoc. lia.
Qed.

(** A successful charge in memory: its amount has yet to be booked. *)
Lemma succeed_opened {A} p q params a requested (x : A) : good p → units p = total → Payment._status p = PROCESSING →
  Payment.markSucceeded now a p = Ok q →
  triple (holds_as p)
    (_ ← streakAfterCharge input requested a;
     '(q, ev) ← lift (recordCharge now eventId input params a q);
     _ ← commitCharge now holdId input params q ev; _ ← publishDomainEvents q; mret x) (λ _, opened).
Proof.
  intros Hg Hu Hst Hq. apply held_streak. apply held_lift_then. intros [q' ev] Hrec.
  pose proof (replaces_succeeded now a p q Hg (or_introl Hst) Hq) as Hr.
  destruct (recordCharge_ok _ _ _ _ _ Hrec (rp_good _ _ _ Hr)) as [Hr' Hev].
  apply commit_opened. rewrite Hev, <- Hu, <- (Z.add_0_r (units p)). by eapply replaces_trans.
Qed.

Lemma settle_opened params requested risk fee answer prov fb p : Payment._status p = PROCESSING →
  triple (holds_as p) (settle now eventId holdId input params requested risk fee answer prov fb p) (λ _, opened).
Proof.
  intros Hst. apply held_good_then. intros Hg Hu. unfold settle. cbv zeta. destruct (cr_status answer).
  - apply held_lift_then. intros q Hq. by apply (succeed_opened p).
  - apply held_lift_then. intros q Hq.
    apply triple_bind with (λ _, holds_as p); [case_match; [apply held_track|by apply triple_ret]|].
    intros _. apply held_update_then; [|apply held_publish_ret].
    apply replaces_plain; [done|by eapply plain_requiresAction| |by rewrite Hst].
    destruct (requiresAction_processing now (nullish (cr_actionUrl answer) "") risk
      (Some (Payment.a_pspTransactionId (cr_answer answer))) p Hst) as (q' & E & Hs). rewrite E in Hq. injection Hq as <-. by rewrite Hs.
  - apply held_lift_then. intros q Hq. apply held_streak.
    apply held_update_then; [|apply held_publish_ret].
    apply replaces_plain; [done|by eapply plain_requiresCapture| |by rewrite Hst].
    destruct (requiresCapture_processing now (cr_answer answer) p Hst) as (q' & E & Hs). rewrite E in Hq. injection Hq as <-. by rewrite Hs.
  - apply opened_then; [apply failed_opened|intros; apply keeps_ret].
Qed.

Lemma chargeStep_opened params requested risk ctx d p : 
  triple (holds_as p) (chargeStep now eventId holdId input params requested risk ctx d p) (λ _, opened).
Proof.
  apply held_good_then. intros Hg Hu. unfold chargeStep. apply held_lift_then. intros q Hq.
  assert (Payment._status q = PROCESSING ∧ Payment._status p ≠ DISPUTED) as [Hst Hnd].
  { unfold Payment.startProcessing in Hq. apply bind_ok_iff in Hq as (u & Hv%assertValidTransition_ok & Hq).
    injection Hq as <-. split; [by destruct p|]. by intros E; rewrite E in Hv. }
  apply held_update_then; [apply replaces_plain; [done|by eapply plain_startProcessing|by rewrite Hst|done]|].
  apply triple_bind with (λ _, holds_as q).
  - apply triple_attempt. intros s Hs. unfold chargeWithFallback.
    destruct (AcquirerRoutingService.executeWithSmartRouting _ _ _ _ _) as [made r]. cbn [fst snd].
    destruct Hs as (Hu' & r0 & [H1 H2 H3 H4] & Hr). split; [done|]. exists r0. split; [|done]. destruct s. by split.
  - intros [[[answer prov] fb]|e]; [by apply settle_opened|]. case_match.
    + apply opened_then; [apply ambiguous_opened|intros; apply keeps_ret].
    + apply opened_then; [apply failed_opened|intros; apply keeps_throw].
Qed.

Lemma scaStep_opened {A} risk p (k : option Sca.ScaExemptionType * Payment.t → M A) :
  (∀ x q, triple (holds_as q) (k (x, q)) (λ _, opened)) →
  triple (holds_as p) (scaStep input risk p ≫= k) (λ _, opened).
Proof.
  intros Hk. apply triple_bind with (λ x, holds_as x.2); [|intros [x q]; apply Hk].
  unfold scaStep. cbv zeta. case_match; [|by apply triple_ret].
  apply triple_bind with (λ _, holds_as p).
  { destruct (in_paymentMethodId input) as [pm|]; [|by apply triple_ret].
    destruct (_ && _); [|by apply triple_ret]. apply triple_lift. intros s Hs.
    destruct (getStreak pm); [done|by eapply held_opened]. }
  intros n. apply triple_ret. intros s Hs. cbn. eapply held_untouched; [apply untouched_recordSca|done].
Qed.

(** Whatever the ports answer, a checkout writes nothing or opens the books. *)
Lemma execute_opened : opened (execute now eventId holdId input no_effects).1.
Proof.
  assert (triple (λ s, s = no_effects) (execute now eventId holdId input) (λ _, opened)) as H; [|by apply H].
  unfold execute. cbv zeta. apply triple_bind with (λ _ s, s = no_effects).
  { repeat case_match; try (by apply triple_ret). apply triple_lift_bind; [|intros e t _ ->; by left].
    intros b _. by apply triple_ret. }
  intros isFirst. apply triple_lift_bind; [|intros e s _ ->; by left]. intros [] _.
  set (p0 := Payment.create _ _ _ _ _ _ _ _).
  apply triple_bind with (λ _, holds_as p0).
  { apply triple_modify. intros s ->. assert (good p0) as Hg.
    { split; [by apply coherent_create|]. subst p0. rewrite abs_create. apply PayAuto.safe_init, Hamount. }
    split; [done|]. exists p0. split; [by split|by apply replaces_same]. }
  intros _. apply triple_bind with (λ _, holds_as p0).
  { by apply triple_attempt, triple_lift. }
  intros [params|e]; [|apply opened_then; [apply failed_opened|intros; apply keeps_throw]].
  apply (triple_pre True _ (holds_as
    match splits params with
    | Some (_ :: _) => Payment.recordSplits (ChargeLedgerParamsResolverService.toPaymentSplits (splits params)) p0
    | _ => p0 end)).
  { intros s Hs. split; [|done]. repeat case_match; try done. eapply held_untouched; [apply untouched_recordSplits|done]. }
  intros _. set (p1 := match splits params with Some (_ :: _) => _ | _ => p0 end). clearbody p1. clear p0.
  match goal with |- context [Payment.calculateRiskScore ?c p1] => set (ctx0 := c) end.
  pose proof (untouched_calculateRiskScore ctx0 p1) as Hun.
  destruct (Payment.calculateRiskScore ctx0 p1) as [risk p2]. cbn [snd] in Hun.
  apply (triple_pre True _ (holds_as p2)); [intros s Hs; split; [by eapply held_untouched|done]|]. intros _.
  apply scaStep_opened. intros requested p3. apply triple_bind with (λ _, holds_as p3).
  { by apply triple_attempt, triple_lift. }
  intros [d|e]; [apply chargeStep_opened|apply opened_then; [apply failed_opened|intros; apply keeps_throw]].
Qed.
End opening.
(** ** Histories *)

(** The books of one payment, and every row it ever had. *)
Record world := mkWorld { w_books : Effects; w_seen : list Payment.t }.

Definition see (s : Effects) (seen : list Payment.t) : world :=
  mkWorld s (match row s with Some p => p :: seen | None => seen end).

(** One call of a service. A refund or capture works on a payment read at any
    earlier time; a cancellation and the resolutions work on the row as it is. Webhooks and
    evidence find [ok] ports. *)
Section services.
Context (ok : LifecyclePorts → Prop).

Inductive service : world → world → Prop :=
  | sv_refund (P : LifecyclePorts) now rid eid amt reason b s seen :
      b ∈ seen →
      service (mkWorld s seen) (see (PaymentLifecycleService.refund now rid eid amt reason (loaded b) s).1 seen)
  | sv_capture (P : LifecyclePorts) (C : ChargePorts) now cid eid hid amt b s seen :
      b ∈ seen →
      service (mkWorld s seen) (see (PaymentLifecycleService.capture now cid eid hid amt (loaded b) s).1 seen)
  | sv_cancel (P : LifecyclePorts) now p s seen :
      row s = Some p →
      service (mkWorld s seen) (see (PaymentLifecycleService.cancel now (loaded p) s).1 seen)
  | sv_stripe (P : LifecyclePorts) (C : ChargePorts) now ids event s seen :
      ok P →
      service (mkWorld s seen) (see (WebhookProcessingService.handleStripeEvent now ids event s).1 seen)
  | sv_adyen (P : LifecyclePorts) (C : ChargePorts) now items s seen :
      ok P →
      service (mkWorld s seen) (see (WebhookProcessingService.handleAdyenNotification now items s).1 seen)
  | sv_resolve (P : LifecyclePorts) (C : ChargePorts) now ids pid succeeded tx reason by_ s seen :
      service (mkWorld s seen) (see (AmbiguousPaymentService.resolve now ids pid succeeded tx reason by_ s).1 seen)
  | sv_sweep (P : LifecyclePorts) (C : ChargePorts) now ids maxAttempts minAge s seen :
      service (mkWorld s seen)
        (see (AmbiguousPaymentService.runAutoResolutionSweep now ids maxAttempts minAge s).1 seen)
  | sv_evidence (P : LifecyclePorts) now id evidence s seen :
      ok P →
      service (mkWorld s seen) (see (DisputeService.submitEvidence now id evidence s).1 seen).
End services.

(** Disputes can be saved, and the replica is current. *)
Definition dependable (P : LifecyclePorts) : Prop := saveDispute (LifecyclePorts := P) = Ok tt ∧ UpToDate P.

Definition world_ok (m : Z) (w : world) : Prop :=
  books m (w_books w) ∧ Forall (λ b, good b ∧ units b = m) (w_seen w).

Lemma see_ok m s seen : books m s → Forall (λ b, good b ∧ units b = m) seen → world_ok m (see s seen).
Proof.
  intros Hb Hs. split; [done|]. destruct Hb as (p & Hf & Hu). cbn. rewrite (fo_row _ _ Hf).
  apply Forall_cons. split; [split; [apply Hf|done]|done].
Qed.

Lemma seen_loaded m b seen : Forall (λ b, good b ∧ units b = m) seen → b ∈ seen →
  good (loaded b) ∧ units (loaded b) = m.
Proof.
  intros Hall Hb. rewrite Forall_forall in Hall. destruct (Hall b Hb) as [Hg <-].
  destruct (loaded_untouched b) as [E H]. split; [by apply H|]. by apply (good_abs b (loaded b) E).
Qed.

Lemma service_ok m : invariant (service dependable) (world_ok m).
Proof.
  intros w w' Hstep [Hb Hseen]. destruct Hstep; cbn in Hb, Hseen; (apply see_ok; [|done]).
  - destruct (seen_loaded m b seen Hseen H) as [Hg Hu]. destruct Hb as (p & Hf & Hp). rewrite <- Hp.
    apply (refund_keeps now rid eid amt reason (loaded b) p Hg); [by rewrite Hu|done].
  - destruct (seen_loaded m b seen Hseen H) as [Hg Hu]. destruct Hb as (p & Hf & Hp). rewrite <- Hp.
    apply (capture_keeps now cid eid hid amt (loaded b) p Hg); [by rewrite Hu|done].
  - destruct Hb as (q & Hf & Hq). rewrite (fo_row _ _ Hf) in H. injection H as ->. rewrite <- Hq.
    by apply (cancel_keeps now p (fo_good _ _ Hf)).
  - destruct H. revert s Hb. apply (books_keeps m (WebhookProcessingService.handleStripeEvent now ids event)).
    intros p Hg. by apply stripe_keeps.
  - destruct H. revert s Hb. by apply (adyen_keeps now items m).
  - revert s Hb. apply (books_keeps m (AmbiguousPaymentService.resolve now ids pid succeeded tx reason by_)).
    intros p Hg. by apply resolve_keeps.
  - revert s Hb. apply (books_keeps m (AmbiguousPaymentService.runAutoResolutionSweep now ids maxAttempts minAge)).
    intros p Hg. by apply sweep_keeps.
  - destruct H. revert s Hb. apply (books_keeps m (DisputeService.submitEvidence now id evidence)).
    intros p Hg. by apply submitEvidence_keeps.
Qed.

(** Without a payment there is nothing to work on. *)
Lemma nothing_found `{P : LifecyclePorts, !UpToDate P} tx psp :
  findByPspTransactionId tx no_effects = (no_effects, Ok None) ∧ DisputeService.findByPspDisputeId psp no_effects = (no_effects, Ok None).
Proof. unfold findByPspTransactionId, DisputeService.findByPspDisputeId, gets. by rewrite replica_row, replica_disputes. Qed.

Section idling.
Context `{P : LifecyclePorts, C : ChargePorts, !UpToDate P} (now : Date) (ids : Ids) (tx psp : string).
Import WebhookProcessingService.

Lemma succeeded_idle raw : markSucceeded now ids tx raw no_effects = (no_effects, Ok tt).
Proof. unfold markSucceeded, mbind, M_bind. by rewrite (proj1 (nothing_found tx tx)). Qed.
Lemma failed_idle reason code : markFailed now tx reason code no_effects = (no_effects, Ok tt).
Proof. unfold markFailed, mbind, M_bind. by rewrite (proj1 (nothing_found tx tx)). Qed.
Lemma disputed_idle prov reason : markDisputed now ids prov tx psp reason no_effects = (no_effects, Ok tt).
Proof. unfold markDisputed, mbind, M_bind. by rewrite (proj1 (nothing_found tx tx)). Qed.
Lemma resolved_idle eid outcome : DisputeService.resolveByPspDisputeId now eid psp outcome no_effects = (no_effects, Ok tt).
Proof. unfold DisputeService.resolveByPspDisputeId, mbind, M_bind. by rewrite (proj2 (nothing_found psp psp)). Qed.
End idling.

Lemma adyen_idle `{P : LifecyclePorts, C : ChargePorts, !UpToDate P} now items :
  (WebhookProcessingService.handleAdyenNotification now items no_effects).1 = no_effects.
Proof.
  induction items as [|[ids item] items IH]; [done|]. cbn. unfold mbind, M_bind.
  assert (WebhookProcessingService.handleAdyenItem now ids item no_effects = (no_effects, Ok tt)) as ->; [|done].
  unfold WebhookProcessingService.handleAdyenItem. cbv zeta. repeat case_match; first [done|apply succeeded_idle|apply failed_idle|apply disputed_idle|apply resolved_idle].
Qed.

Lemma stripe_idle `{P : LifecyclePorts, C : ChargePorts, !UpToDate P} now ids event :
  (WebhookProcessingService.handleStripeEvent now ids event no_effects).1 = no_effects.
Proof.
  assert (WebhookProcessingService.handleStripeEvent now ids event no_effects = (no_effects, Ok tt)) as ->; [|done].
  unfold WebhookProcessingService.handleStripeEvent. repeat case_match; first [done|apply succeeded_idle|apply failed_idle|apply disputed_idle|apply resolved_idle].
Qed.

Definition idle : world := mkWorld no_effects [].

Lemma service_idle : invariant (service dependable) (λ w, w = idle).
Proof.
  intros x y Hstep. destruct Hstep; intros [= -> ->]; try done.
  - by apply elem_of_nil in H.
  - by apply elem_of_nil in H.
  - destruct H. by rewrite stripe_idle.
  - destruct H. by rewrite adyen_idle.
  - destruct H. cbn. unfold DisputeService.submitEvidence, DisputeService.findById, mbind, M_bind, gets. by rewrite replica_disputes.
Qed.

Lemma due_range p : good p → 0 ≤ due p ≤ units p.
Proof.
  intros [_ Hs]. unfold due, settled, PayAuto.safe, abs in *. cbn in *.
  destruct (Payment._status p); lia.
Qed.

(** ** The books follow the payment *)

(** C7: from its checkout on, over any history of refunds, captures, cancellations,
    Stripe and Adyen webhooks, manual and automatic resolutions of ambiguous
    payments and dispute submissions that run one after the other, with refunds and captures
    working on payments read at any earlier time, the balance of the settlement account is
    what the payment row says was paid less what was refunded. It is never negative and
    never above the amount of the payment. Providers may answer anything or fail, and so may
    updates of the payment and the transactions that book; webhooks and evidence are for a
    replica that is current and a dispute table that can be written. *)
Theorem ledger_follows_payment `{Ports : CheckoutPorts, Charge : ChargePorts} (now : Date) (eventId holdId : string)
    (input : CheckoutSagaInput) (w : world) :
  Money.wf (in_amount input) →
  rtc (service dependable) (see (PaymentCheckoutSaga.execute now eventId holdId input no_effects).1 []) w →
  match row (w_books w) with
  | None => w_books w = no_effects
  | Some p =>
      units p = Money.amountMinorUnits (in_amount input) ∧ PayAuto.safe (abs p)
      ∧ psp_net (booked (w_books w)) = settled (abs p) - refunded_units p
      ∧ 0 ≤ psp_net (booked (w_books w)) ≤ units p
  end.
Proof.
  intros Ha Hrun. destruct (execute_opened now eventId holdId input Ha) as [E | Hb].
  - rewrite E in Hrun. change (rtc (service dependable) idle w) in Hrun.
    by rewrite (invariant_rtc _ _ _ _ service_idle Hrun eq_refl).
  - assert (world_ok (Money.amountMinorUnits (in_amount input)) w) as [(p & [Hr Hg Hl _] & Hu) _].
    { eapply invariant_rtc; [apply service_ok|exact Hrun|]. apply see_ok; [exact Hb|constructor]. }
    rewrite Hr, Hl. split_and!; [done|apply Hg|done|apply due_range, Hg|apply due_range, Hg].
Qed.

(** *** A concrete history *)

(** Every call goes through and every provider agrees; what it knows of an
    ambiguous charge is [outcome]. *)
Definition sample_answering (outcome : PSPQueryOutcomeResult) : LifecyclePorts := {|
  refundAtPsp _ _ := Ok (mkPSPRefundResponse true "re_1" REFUND_SUCCEEDED None);
  captureAtPsp _ _ := Ok (mkPSPActionResponse true (JObj []) None);
  cancelAtPsp _ := Ok (mkPSPActionResponse true (JObj []) None);
  queryOutcome _ _ := Ok outcome;
  submitDisputeEvidence _ _ _ := Ok true;
  updateRow := Ok tt;
  commit := Ok tt;
  saveDispute := Ok tt;
  replicaRow r := r;
  replicaDisputes l := l;
  evaluateMerchant _ := Ok None;
  autoAcceptThreshold := Fin 15;
  lowRiskMultiplier := Fin 1;
  highRiskMultiplier := Fin 1 |}.

Definition sample_lifecycle : LifecyclePorts :=
  sample_answering (mkPSPQueryOutcomeResult Q_SUCCEEDED (Some "tx_found"%string) None).

#[local] Existing Instance sample_ports.

Lemma sample_paid : ∃ s p,
  (PaymentCheckoutSaga.execute (H := sample_checkout true true) 0 "ev" "hold" sample_input no_effects).1 = s
  ∧ row s = Some p ∧ Payment._status p = SUCCEEDED.
Proof.
  destruct sample_falls_back as (s & res & E & Hst & _).
  pose proof (execute_triple (Ports := sample_checkout true true) 0 "ev" "hold" sample_input no_effects eq_refl) as H.
  rewrite E in H. cbn [fst snd] in H. destruct H as (params & _ & d & _ & _ & H). rewrite decide_True in H by exact Hst.
  destruct H as (_ & Hrow & _). apply fmap_Some in Hrow as (p & Hp & Hcore). injection Hcore as Hs _.
  exists s, p. rewrite E. split_and!; [reflexivity|exact Hp|symmetry; exact Hs].
Qed.

Lemma ledger_follows_payment_witness :
  ∃ s p w, (PaymentCheckoutSaga.execute (H := sample_checkout true true) 0 "ev" "hold" sample_input no_effects).1 = s
    ∧ row s = Some p ∧ Payment._status p = SUCCEEDED
    ∧ w = see (PaymentLifecycleService.refund (H := sample_lifecycle) 1 "r" "ev2" None None (loaded p) s).1 [p]
    ∧ match row (w_books w) with
      | None => w_books w = no_effects
      | Some q => units q = 10000 ∧ PayAuto.safe (abs q)
          ∧ psp_net (booked (w_books w)) = settled (abs q) - refunded_units q
          ∧ 0 ≤ psp_net (booked (w_books w)) ≤ units q
      end.
Proof.
  destruct sample_paid as (s & p & E & Hrow & Hst). eexists s, p, _. split_and!; [exact E|exact Hrow|exact Hst|reflexivity|].
  apply (ledger_follows_payment (Ports := sample_checkout true true) 0 "ev" "hold" sample_input).
  - by apply usd_wf.
  - rewrite E. unfold see at 1. rewrite Hrow. apply rtc_once. apply sv_refund. by left.
Defined.
