(* ===== verification/DeliveryCorrect.v ===== *)
(** * Deliveries and races

    Providers deliver an event at least once, and two deliveries may run side by
    side. Here: a redelivered event changes nothing when the first delivery was
    finished and is visible; what goes wrong when it is not; and that captures
    and refunds that the provider made are booked. *)

From S2P Require Import Prelude JsNumber Money Policies PaymentStatus Payment PaymentCorrect Merchant Ledger LedgerCorrect LedgerParams LedgerParamsCorrect Routing RoutingCorrect Payout Dispute Store Checkout CheckoutCorrect Lifecycle LifecycleCorrect HistoryCorrect.

(** ** Taking a run apart *)

Lemma run_bind {A B} (m : M A) (f : A → M B) s s' b : (m ≫= f) s = (s', Ok b) →
  ∃ s1 a, m s = (s1, Ok a) ∧ f a s1 = (s', Ok b).
Proof. unfold mbind, M_bind. destruct (m s) as [s1 [a|e]]; [by exists s1, a|discriminate 1]. Qed.

Lemma run_lift {A B} (r : result A) (f : A → M B) s s' b : (lift r ≫= f) s = (s', Ok b) →
  ∃ a, r = Ok a ∧ f a s = (s', Ok b).
Proof. unfold mbind, M_bind, lift. destruct r as [a|e]; [by exists a|discriminate 1]. Qed.

Lemma run_update {A} `{LifecyclePorts} q (k : M A) s s' b : (_ ← updatePayment q; k) s = (s', Ok b) →
  k (s {{ row := Some q }}) = (s', Ok b).
Proof. unfold updatePayment. intros (s1 & [] & (u & _ & [= <-])%run_lift & Hk)%run_bind. exact Hk. Qed.

Lemma bind_run {A B} (m : M A) (f : A → M B) s s' a : m s = (s', Ok a) → (m ≫= f) s = f a s'.
Proof. intros E. unfold mbind, M_bind. by rewrite E. Qed.

Lemma update_run `{LifecyclePorts} q s : updateRow = Ok tt → updatePayment q s = (s {{ row := Some q }}, Ok tt).
Proof. intros E. unfold updatePayment, mbind, M_bind, lift. by rewrite E. Qed.

Lemma recorded_run `{LifecyclePorts} now id pid mid prov psp m reason e s :
  DisputeService.findByPspDisputeId psp s = (s, Ok (Some e)) →
  DisputeService.recordDispute now id pid mid prov psp m reason s = (s, Ok e).
Proof. intros E. unfold DisputeService.recordDispute. by rewrite (bind_run _ _ _ _ _ E). Qed.

(** ** What each handler leaves behind *)

(** The row of transaction [tx], in a status [st]. *)
Definition rests (tx : string) (st : PaymentStatus → Prop) (s : Effects) : Prop :=
  ∀ p, row s = Some p → Payment._pspTransactionId p = Some tx → st (Payment._status p).

Lemma rests_row tx (st : PaymentStatus → Prop) q s : row s = Some q → st (Payment._status q) → rests tx st s.
Proof. intros Hr Hst p Hp _. rewrite Hr in Hp. by injection Hp as <-. Qed.

(** A payment that waits for no webhook. *)
Definition decided (st : PaymentStatus) : Prop := st ≠ PROCESSING ∧ st ≠ REQUIRES_ACTION.

Section rest.
Context `{P : LifecyclePorts, C : ChargePorts, !UpToDate P}.
Context (now : Date) (ids : Ids).
Import WebhookProcessingService.

Lemma confirmed_rests tx raw p s s' : confirmSucceeded now ids tx raw p s = (s', Ok tt) →
  (s' = s ∧ awaiting p = false) ∨ (∃ q, row s' = Some q ∧ Payment._status q = SUCCEEDED).
Proof.
  unfold confirmSucceeded. cbv zeta. case_bool_decide as Hs.
  { intros [= <-]. left. split; [done|]. unfold awaiting. by rewrite Hs. }
  destruct (awaiting p); [|intros [= <-]; by left]. cbn [negb].
  intros (q1 & _ & H)%run_lift. apply run_lift in H as (q2 & H2 & H). apply run_lift in H as (params & _ & H).
  apply run_lift in H as (ev & _ & H). apply run_lift in H as ([] & _ & H). right.
  eexists. split; [by injection H as <-|].
  destruct (finalized_untouched params (recordConversion now params (Payment._amount q2) q2)) as (_ & -> & _).
  destruct (recordConversion_untouched now params (Payment._amount q2) q2) as (_ & -> & _).
  by eapply target_succeeded.
Qed.

Lemma succeeded_rests tx raw s s' : markSucceeded now ids tx raw s = (s', Ok tt) →
  rests tx decided s'.
Proof.
  unfold markSucceeded, findByPspTransactionId. intros (s1 & o & [= <- <-] & H)%run_bind. rewrite replica_row in H.
  destruct (row s) as [p|] eqn:Hr; [|injection H as <-; intros p' Hp'; congruence].
  case_bool_decide as Htx; [|injection H as <-; intros p' Hp'; congruence].
  destruct (confirmed_rests _ _ _ _ _ H) as [[-> Haw] | (q & Hq & Hst)].
  - apply (rests_row _ _ p); [done|]. unfold awaiting in Haw. destruct p. cbn in *.
    apply orb_false_iff in Haw as [?%bool_decide_eq_false ?%bool_decide_eq_false]. done.
  - apply (rests_row _ _ q); [done|]. by rewrite Hst.
Qed.

Lemma succeeded_quiet tx raw s : rests tx decided s →
  markSucceeded now ids tx raw s = (s, Ok tt).
Proof.
  intros Hrest. unfold markSucceeded, findByPspTransactionId, mbind, M_bind, gets. rewrite replica_row.
  destruct (row s) as [p|] eqn:Hr; [|done]. case_bool_decide as Htx; [|done].
  destruct (Hrest p Hr Htx) as [H1 H2]. unfold confirmSucceeded, awaiting. destruct p. cbn in *.
  case_bool_decide; [done|]. by rewrite (bool_decide_eq_false_2 _ H1), (bool_decide_eq_false_2 _ H2).
Qed.

Lemma failed_rests tx reason code s s' : markFailed now tx reason code s = (s', Ok tt) →
  rests tx decided s'.
Proof.
  unfold markFailed, findByPspTransactionId. intros (s1 & o & [= <- <-] & H)%run_bind. rewrite replica_row in H.
  destruct (row s) as [p|] eqn:Hr; [|injection H as <-; intros p' Hp'; congruence].
  case_bool_decide as Htx; [|injection H as <-; intros p' Hp'; congruence].
  case_bool_decide as Hf.
  { injection H as <-. apply (rests_row _ _ p); [done|]. destruct p. cbn in *. by rewrite Hf. }
  destruct (awaiting (loaded p)) eqn:Haw; cbn [negb] in H.
  - apply run_lift in H as (q & Hq & H). apply run_update in H. injection H as <-.
    apply (rests_row _ _ q); [by destruct s|]. by rewrite (target_failed _ _ _ _ _ _ _ Hq).
  - injection H as <-. apply (rests_row _ _ p); [done|]. unfold awaiting in Haw. destruct p. cbn in *.
    apply orb_false_iff in Haw as [?%bool_decide_eq_false ?%bool_decide_eq_false]. done.
Qed.

Lemma failed_quiet tx reason code s : rests tx decided s →
  markFailed now tx reason code s = (s, Ok tt).
Proof.
  intros Hrest. unfold markFailed, findByPspTransactionId, mbind, M_bind, gets. rewrite replica_row.
  destruct (row s) as [p|] eqn:Hr; [|done]. case_bool_decide as Htx; [|done].
  destruct (Hrest p Hr Htx) as [H1 H2]. unfold awaiting. destruct p. cbn in *.
  case_bool_decide; [done|]. by rewrite (bool_decide_eq_false_2 _ H1), (bool_decide_eq_false_2 _ H2).
Qed.

(** Recording a dispute leaves the payment alone. *)
Lemma recordDispute_row id pid mid prov psp m reason o :
  keeps (λ s, row s = o) (DisputeService.recordDispute now id pid mid prov psp m reason).
Proof.
  unfold DisputeService.recordDispute. cbv zeta. apply keeps_bind; [by apply triple_gets|]. intros [d|]; [apply keeps_ret|].
  apply keeps_bind; [apply keeps_lift|]. intros tier. apply keeps_bind; [by apply triple_gets|]. intros payment.
  apply keeps_bind.
  { case_match; [|apply keeps_ret]. unfold DisputeService.autoContest. cbv zeta.
    apply triple_catch with (λ _ s, row s = o); [|intros; apply keeps_ret].
    eapply triple_weaken with (Q := λ _ s, row s = o); [|by intros []].
    apply keeps_bind; [apply keeps_lift|]. intros a. apply keeps_bind; [apply keeps_lift|]. intros [|].
    - apply keeps_lift.
    - apply keeps_ret. }
  intros d. apply keeps_bind; [|intros _; apply keeps_bind; [|intros _; apply keeps_ret]].
  - apply keeps_bind; [apply keeps_lift|]. intros _. apply triple_modify. by intros [].
  - apply triple_modify. by intros [].
Qed.

Lemma disputed_rests prov tx psp reason s s' : markDisputed now ids prov tx psp reason s = (s', Ok tt) →
  rests tx (λ st, st ≠ SUCCEEDED ∧ st ≠ PARTIALLY_REFUNDED) s'.
Proof.
  unfold markDisputed, findByPspTransactionId. intros (s1 & o & [= <- <-] & H)%run_bind. rewrite replica_row in H.
  destruct (row s) as [p|] eqn:Hr; [|injection H as <-; intros p' Hp'; congruence].
  case_bool_decide as Htx; [|injection H as <-; intros p' Hp'; congruence].
  case_bool_decide as Hf.
  { injection H as <-. apply (rests_row _ _ p); [done|]. destruct p. cbn in *. by rewrite Hf. }
  destruct (negb _ && negb _) eqn:Hno.
  { injection H as <-. apply (rests_row _ _ p); [done|]. destruct p. cbn in *.
    by apply andb_true_iff in Hno as [?%negb_true_iff%bool_decide_eq_false ?%negb_true_iff%bool_decide_eq_false]. }
  apply run_lift in H as (m & _ & H). apply run_lift in H as (q & Hq & H). apply run_update in H.
  apply run_bind in H as (s2 & d & H & Hpub). injection Hpub as <-.
  pose proof (recordDispute_row (id_dispute ids) (Payment._id q) (md_merchantId (Payment._metadata q)) prov psp m reason
    (Some q) (s {{ row := Some q }}) ltac:(by destruct s)) as Hrow. rewrite H in Hrow.
  apply (rests_row _ _ q); [by destruct s2|]. by rewrite (target_disputed _ _ _ _ Hq).
Qed.

Lemma disputed_quiet prov tx psp reason s : rests tx (λ st, st ≠ SUCCEEDED ∧ st ≠ PARTIALLY_REFUNDED) s →
  markDisputed now ids prov tx psp reason s = (s, Ok tt).
Proof.
  intros Hrest. unfold markDisputed, findByPspTransactionId, mbind, M_bind, gets. rewrite replica_row.
  destruct (row s) as [p|] eqn:Hr; [|done]. case_bool_decide as Htx; [|done].
  destruct (Hrest p Hr Htx) as [H1 H2]. destruct p. cbn in *.
  case_bool_decide; [done|]. by rewrite (bool_decide_eq_false_2 _ H1), (bool_decide_eq_false_2 _ H2).
Qed.
End rest.

(** *** Dispute outcomes *)

(** No dispute of this provider id is open. *)
Definition closed (psp : string) (s : Effects) : Prop :=
  ∀ d, d ∈ disputes s → Dispute._pspDisputeId d = psp → Dispute.resolved d = true.

(** The unique index on [pspDisputeId]. *)
Definition unique_disputes (s : Effects) : Prop :=
  ∀ d e, d ∈ disputes s → e ∈ disputes s → Dispute._pspDisputeId d = Dispute._pspDisputeId e → d = e.

Section outcomes.
Context `{P : LifecyclePorts, C : ChargePorts, !UpToDate P}.
Context (now : Date).
Import DisputeService.

Lemma found_none {Q : Dispute.t → Prop} `{∀ d, Decision (Q d)} l d : head (filter Q l) = None → d ∈ l → ¬ Q d.
Proof.
  intros Hh Hin HQ. assert (d ∈ filter Q l) as Hf by by apply list_elem_of_filter.
  destruct (filter Q l); [by apply elem_of_nil in Hf|discriminate Hh].
Qed.

Lemma saved_closed d d' outcome (k : M unit) s s' s0 : unique_disputes s0 → disputes s = disputes s0 → d ∈ disputes s0 →
  Dispute.resolve now outcome d = Ok d' →
  (∀ l t t', disputes t = l → k t = (t', Ok tt) → disputes t' = l) →
  (_ ← save d'; k) s = (s', Ok tt) → closed (Dispute._pspDisputeId d) s'.
Proof.
  intros Hun Hs Hd Hres Hk (s1 & [] & Hsave & Hrest)%run_bind.
  unfold save in Hsave. apply run_lift in Hsave as ([] & _ & Hm). injection Hm as <-.
  assert (Dispute._id d' = Dispute._id d ∧ Dispute.resolved d' = true) as [Hid Hdone].
  { unfold Dispute.resolve in Hres. destruct (Dispute.resolved d); [discriminate Hres|]. injection Hres as <-. by destruct d. }
  intros e He Hpsp. rewrite (Hk _ _ _ eq_refl Hrest) in He. destruct s as [r0 b0 h0 d0 pu0 de0 st0 c0]. cbn in Hs, He. subst d0.
  apply elem_of_app in He as [He | He%list_elem_of_singleton]; [|by subst e].
  apply list_elem_of_filter in He as [Hne Hin]. destruct Hne. by rewrite Hid, (Hun e d Hin Hd Hpsp).
Qed.

Lemma emit_same e l t t' : disputes t = l → emit e t = (t', Ok tt) → disputes t' = l.
Proof. unfold emit, modify. intros <- [= <-]. by destruct t. Qed.

Lemma publish_emit_same q e l t t' : disputes t = l → (_ ← publishDomainEvents q; emit e) t = (t', Ok tt) →
  disputes t' = l.
Proof. intros <- [= <-]. by destruct t. Qed.

Lemma resolved_closed eid psp outcome s s' : unique_disputes s →
  resolveByPspDisputeId now eid psp outcome s = (s', Ok tt) → closed psp s'.
Proof.
  intros Hun. unfold resolveByPspDisputeId, findByPspDisputeId. intros (s1 & o & [= <- <-] & H)%run_bind. rewrite replica_disputes in H.
  destruct (head _) as [d|] eqn:Hfind.
  - apply found_In in Hfind as [Hd <-]. destruct (Dispute.resolved d) eqn:Hdone.
    { injection H as <-. intros e He Hpsp. by rewrite (Hun e d He Hd Hpsp). }
    apply run_bind in H as (s2 & read & Hread & H). injection Hread as <- <-.
    destruct (match row s with Some p => _ | None => _ end) as [payment|];
      [case_bool_decide|].
    + apply run_lift in H as (d' & Hd' & H). apply run_lift in H as (q & _ & H).
      apply run_bind in H as (s2 & [] & Hw & H).
      assert (disputes s2 = disputes s) as Hs2.
      { destruct outcome; [unfold updatePayment in Hw|]; repeat (apply run_lift in Hw as (? & _ & Hw)); injection Hw as <-; by destruct s. }
      revert H. eapply saved_closed; [exact Hun|exact Hs2|exact Hd|exact Hd'|]. intros l t t'. apply publish_emit_same.
    + apply run_lift in H as (d' & Hd' & H). revert H. eapply saved_closed; [exact Hun|done|exact Hd|exact Hd'|].
      intros l t t'. apply emit_same.
    + apply run_lift in H as (d' & Hd' & H). revert H. eapply saved_closed; [exact Hun|done|exact Hd|exact Hd'|].
      intros l t t'. apply emit_same.
  - injection H as <-. intros e He Hpsp. by destruct (found_none _ _ Hfind He).
Qed.

Lemma closed_quiet eid psp outcome s : closed psp s → resolveByPspDisputeId now eid psp outcome s = (s, Ok tt).
Proof.
  intros Hc. unfold resolveByPspDisputeId, findByPspDisputeId, mbind, M_bind, gets. rewrite replica_disputes.
  destruct (head _) as [d|] eqn:Hfind; [|done]. apply found_In in Hfind as [Hd Hpsp].
  by rewrite (Hc d Hd Hpsp).
Qed.
End outcomes.

(** ** Redelivery *)

(** *** Nothing makes a payment wait again *)

Section later.
Context `{P : LifecyclePorts, C : ChargePorts} (now : Date) (tx : string).

Abbreviation calm := (rests tx decided).

Lemma calm_lift {A B} (r : result A) (f : A → M B) : (∀ a, r = Ok a → keeps calm (f a)) → keeps calm (lift r ≫= f).
Proof. intros Hf. apply triple_lift_bind; [exact Hf|]. by intros e s _. Qed.

Lemma calm_gets {A B} (g : Effects → A) (f : A → M B) : (∀ a, keeps calm (f a)) → keeps calm (gets g ≫= f).
Proof. intros Hf. apply keeps_bind; [by apply triple_gets|done]. Qed.

Lemma calm_modify (f : Effects → Effects) : (∀ s, row (f s) = row s) → keeps calm (modify f).
Proof. intros Hf. apply triple_modify. intros s Hs p. rewrite Hf. apply Hs. Qed.

Lemma calm_publish {A} q (k : M A) : keeps calm k → keeps calm (_ ← publishDomainEvents q; k).
Proof. intros Hk. apply keeps_bind; [apply calm_modify; by intros []|done]. Qed.

Lemma calm_write q : decided (Payment._status q) → keeps calm (updatePayment q).
Proof. intros Hq. apply calm_lift. intros [] _. apply triple_modify. intros s _. by apply (rests_row _ _ q); [destruct s|]. Qed.

Lemma calm_update {A} q (k : M A) : decided (Payment._status q) → keeps calm k → keeps calm (_ ← updatePayment q; k).
Proof. intros Hq Hk. apply keeps_bind; [by apply calm_write|done]. Qed.

Lemma calm_book {A} q ev hold (k : M A) : decided (Payment._status q) → keeps calm k → keeps calm (_ ← bookCharge q ev hold; k).
Proof. intros Hq Hk. apply keeps_bind; [|done]. apply triple_modify. intros s _. by apply (rests_row _ _ q); [destruct s|]. Qed.

Lemma calm_saveIfUnchanged {A} before q ev hold (k : M A) : decided (Payment._status q) → keeps calm k →
  keeps calm (_ ← PaymentLifecycleService.saveIfUnchanged now before q ev hold; k).
Proof.
  intros Hq Hk. apply keeps_bind; [|done]. apply calm_gets. intros current. case_match; [|apply keeps_throw]. apply calm_lift. intros [] _.
  apply triple_modify. intros s _. apply (rests_row _ _ (q {{ Payment._updatedAt := now }})); [by destruct s|by destruct q].
Qed.

Lemma calm_refund rid eid amt reason b : keeps calm (PaymentLifecycleService.refund now rid eid amt reason b).
Proof.
  unfold PaymentLifecycleService.refund. cbv zeta. destruct (chargedAt b) as [[provider ?]|]; [|apply keeps_throw]. case_match; [apply keeps_throw|].
  apply calm_lift. intros m _. apply calm_lift. intros t _. apply calm_lift. intros t' _. apply calm_lift. intros e _.
  destruct e; [apply calm_lift; intros ? _; apply keeps_throw|]. apply calm_lift. intros a _. apply calm_lift. intros r _. case_match; [apply keeps_throw|].
  apply calm_lift. intros q Hq. apply calm_lift. intros ev _. apply calm_saveIfUnchanged; [|apply calm_publish, keeps_ret].
  unfold Payment.refund in Hq. case_match; [discriminate Hq|]. apply bind_ok_iff in Hq as (c & _ & Hq). apply bind_ok_iff in Hq as (n & _ & Hq).
  apply bind_ok_iff in Hq as (x & _ & Hq). destruct x; [discriminate Hq|]. injection Hq as <-. destruct b. cbn. by case_match.
Qed.

Lemma calm_capture cid eid hid amt b : keeps calm (PaymentLifecycleService.capture now cid eid hid amt b).
Proof.
  unfold PaymentLifecycleService.capture. cbv zeta. case_match; [apply keeps_throw|]. destruct (chargedAt b) as [[provider tx']|]; [|apply keeps_throw].
  apply calm_lift. intros m _. apply calm_lift. intros t _. apply calm_lift. intros e _. destruct e; [apply keeps_throw|].
  apply calm_lift. intros a _. apply calm_lift. intros r _. case_match; [apply keeps_throw|]. apply calm_lift. intros [full q] Hq.
  apply calm_lift. intros params _. apply calm_lift. intros ev _. apply calm_saveIfUnchanged; [|apply calm_publish, keeps_ret].
  match goal with |- decided (Payment._status (recordConversion now params m ?q')) => destruct (recordConversion_untouched now params m q') as (_ & -> & _) end.
  assert (decided (Payment._status q)) as Hd.
  { unfold Payment.recordCapture in Hq. case_match; [discriminate Hq|]. apply bind_ok_iff in Hq as (c & _ & Hq). apply bind_ok_iff in Hq as (n & _ & Hq).
    apply bind_ok_iff in Hq as (x & _ & Hq). destruct x; [apply bind_ok_iff in Hq as (? & _ & [=])|]. injection Hq as _ <-. destruct b. cbn. by case_match. }
  repeat case_match; try done. unfold Payment.recordInterchangeQualification. case_match; [done|]. by destruct q.
Qed.

Lemma calm_cancel b : keeps calm (PaymentLifecycleService.cancel now b).
Proof.
  unfold PaymentLifecycleService.cancel. case_match; [apply keeps_ret|]. case_match; [apply keeps_throw|]. apply keeps_bind.
  - destruct (chargedAt b) as [[provider ?]|]; [|apply keeps_ret]. apply calm_lift. intros a _. apply calm_lift. intros r _. case_match; [apply keeps_throw|apply keeps_ret].
  - intros _. apply calm_lift. intros q Hq. apply calm_update; [by rewrite (target_cancelled _ _ _ Hq)|]. apply calm_publish, keeps_ret.
Qed.

Lemma decided_final q params :
  let final := match splits params with
               | Some (_ :: _) => Payment.finalizeSplitConversions (ChargeLedgerParamsResolverService.toPaymentSplits (splits params))
                                    (recordConversion now params (Payment._amount q) q)
               | _ => recordConversion now params (Payment._amount q) q
               end in
  decided (Payment._status q) → decided (Payment._status final).
Proof.
  cbv zeta. intros Hq. destruct (finalized_untouched params (recordConversion now params (Payment._amount q) q)) as (_ & -> & _).
  by destruct (recordConversion_untouched now params (Payment._amount q) q) as (_ & -> & _).
Qed.

Lemma calm_confirm ids tx' raw b : keeps calm (WebhookProcessingService.confirmSucceeded now ids tx' raw b).
Proof.
  unfold WebhookProcessingService.confirmSucceeded. cbv zeta. case_match; [apply keeps_ret|]. case_match; [apply keeps_ret|].
  apply calm_lift. intros q _. apply calm_lift. intros q' Hq. apply calm_lift. intros params _. apply calm_lift. intros ev _. apply calm_lift. intros [] _.
  apply calm_book; [|apply calm_modify; by intros []]. apply decided_final. by rewrite (target_succeeded _ _ _ _ Hq).
Qed.

Lemma calm_failed tx' reason code : keeps calm (WebhookProcessingService.markFailed now tx' reason code).
Proof.
  apply calm_gets. intros [b|]; [|apply keeps_ret]. case_match; [apply keeps_ret|]. case_match; [apply keeps_ret|]. apply calm_lift. intros q Hq.
  apply calm_update; [by rewrite (target_failed _ _ _ _ _ _ _ Hq)|]. apply calm_modify. by intros [].
Qed.

Lemma calm_recordDispute id pid mid prov psp m reason : keeps calm (DisputeService.recordDispute now id pid mid prov psp m reason).
Proof.
  intros s Hs p. rewrite (recordDispute_row now id pid mid prov psp m reason (row s) s eq_refl). apply Hs.
Qed.

Lemma calm_disputed ids prov tx' psp reason : keeps calm (WebhookProcessingService.markDisputed now ids prov tx' psp reason).
Proof.
  apply calm_gets. intros [b|]; [|apply keeps_ret]. case_match; [apply keeps_ret|]. case_match; [apply keeps_ret|]. apply calm_lift. intros m _.
  apply calm_lift. intros q Hq. apply calm_update; [by rewrite (target_disputed _ _ _ _ Hq)|]. apply keeps_bind; [apply calm_recordDispute|].
  intros _. apply calm_modify. by intros [].
Qed.

Lemma calm_save d : keeps calm (DisputeService.save d).
Proof. apply calm_lift. intros [] _. apply calm_modify. by intros []. Qed.

Lemma calm_resolved eid psp outcome : keeps calm (DisputeService.resolveByPspDisputeId now eid psp outcome).
Proof.
  assert (∀ d, keeps calm (dispute ← lift (Dispute.resolve now outcome d); _ ← DisputeService.save dispute; DisputeService.emit (DisputeResolved dispute outcome))) as Halone.
  { intros d. apply calm_lift. intros d' _. apply keeps_bind; [apply calm_save|]. intros _. apply calm_modify. by intros []. }
  apply calm_gets. intros [d|]; [|apply keeps_ret]. destruct (Dispute.resolved d); [apply keeps_ret|]. apply calm_gets. intros [b|]; [|apply Halone].
  case_match; [|apply Halone]. apply calm_lift. intros d' _. apply calm_lift. intros q Hq.
  assert (decided (Payment._status q)) as Hd.
  { unfold Payment.resolveDispute in Hq. destruct outcome; repeat (apply bind_ok_iff in Hq as (? & _ & Hq)); injection Hq as <-; destruct b; cbn; by repeat case_match. }
  apply keeps_bind.
  - destruct outcome; [by apply calm_write|].
    apply calm_lift. intros ev _. apply calm_lift. intros [] _. apply triple_modify. intros s _. by apply (rests_row _ _ q); [destruct s|].
  - intros _. apply keeps_bind; [apply calm_save|]. intros _. apply calm_publish, calm_modify. by intros [].
Qed.

Lemma calm_stripe ids event : keeps calm (WebhookProcessingService.handleStripeEvent now ids event).
Proof.
  unfold WebhookProcessingService.handleStripeEvent. repeat case_match;
    first [apply keeps_ret|apply calm_gets; intros [b|]; [apply calm_confirm|apply keeps_ret]|apply calm_failed|apply calm_disputed|apply calm_resolved].
Qed.

Lemma calm_item ids item : keeps calm (WebhookProcessingService.handleAdyenItem now ids item).
Proof.
  unfold WebhookProcessingService.handleAdyenItem. cbv zeta. repeat case_match;
    first [apply keeps_ret|apply calm_gets; intros [b|]; [apply calm_confirm|apply keeps_ret]|apply calm_failed|apply calm_disputed|apply calm_resolved].
Qed.

Lemma calm_adyen items : keeps calm (WebhookProcessingService.handleAdyenNotification now items).
Proof. induction items as [|[ids item] items IH]; [apply keeps_ret|]. apply keeps_bind; [apply calm_item|done]. Qed.

Lemma calm_bookSucceeded ids q : decided (Payment._status q) → keeps calm (AmbiguousPaymentService.bookSucceeded now ids q).
Proof.
  intros Hq. unfold AmbiguousPaymentService.bookSucceeded. cbv zeta. apply calm_lift. intros params _. apply calm_lift. intros ev _. apply calm_lift. intros [] _.
  apply calm_book; [by apply decided_final|apply keeps_ret].
Qed.

Lemma calm_resolve ids pid succeeded tx' reason by_ : keeps calm (AmbiguousPaymentService.resolve now ids pid succeeded tx' reason by_).
Proof.
  apply keeps_bind; [apply calm_gets; intros [b|]; [case_match; [apply keeps_ret|apply keeps_throw]|apply keeps_throw]|]. intros b. apply keeps_bind.
  - destruct succeeded.
    + destruct tx' as [tx'|]; [|apply keeps_throw]. case_match; [apply keeps_throw|]. apply calm_lift. intros q Hq. apply calm_bookSucceeded.
      destruct (untouched_recordManual now by_ reason q) as (_ & -> & _). by rewrite (target_succeeded _ _ _ _ Hq).
    + apply calm_lift. intros q Hq. apply calm_update; [|apply keeps_ret]. destruct (untouched_recordManual now by_ reason q) as (_ & -> & _).
      by rewrite (target_failed _ _ _ _ _ _ _ Hq).
  - intros q. apply calm_publish, keeps_ret.
Qed.

Lemma calm_autoResolve ids pid res : keeps calm (AmbiguousPaymentService.autoResolveOne now ids pid res).
Proof.
  apply calm_gets. intros [b|]; [|apply keeps_ret]. case_bool_decide as Hst; cbn [negb]; [|apply keeps_ret]. destruct (Payment._pspProvider b); [|apply keeps_ret].
  apply calm_lift. intros a _. apply calm_lift. intros out _. cbv zeta.
  assert (∀ x : SweepResult, keeps calm (_ ← updatePayment (Payment.incrementAmbiguousAutoRetryCount b); mret x)) as Hun.
  { intros x. apply calm_update; [|apply keeps_ret]. unfold decided. by destruct (untouched_increment b) as (_ & -> & _); rewrite Hst. }
  assert (∀ r c (x : SweepResult), keeps calm (fresh ← lift (Payment.markFailed now r c None None b); _ ← updatePayment fresh; _ ← publishDomainEvents fresh; mret x)) as Hfail.
  { intros r c x. apply calm_lift. intros q Hq. apply calm_update; [by rewrite (target_failed _ _ _ _ _ _ _ Hq)|]. apply calm_publish, keeps_ret. }
  destruct (q_outcome out), (q_pspTransactionId out) as [tx'|]; try apply Hun; try apply Hfail. case_match; [apply Hun|].
  apply calm_lift. intros q Hq. apply keeps_bind; [apply calm_bookSucceeded; by rewrite (target_succeeded _ _ _ _ Hq)|]. intros q'. apply calm_publish, keeps_ret.
Qed.

Lemma calm_sweep ids maxAttempts minAge : keeps calm (AmbiguousPaymentService.runAutoResolutionSweep now ids maxAttempts minAge).
Proof.
  apply calm_gets. intros [b|]; cbv zeta; [|apply keeps_ret]. case_match; [|apply keeps_ret].
  apply triple_catch with (λ _, calm); [|intros; apply keeps_ret]. eapply triple_weaken; [apply calm_autoResolve|]. by intros [].
Qed.

Lemma calm_evidence id evidence : keeps calm (DisputeService.submitEvidence now id evidence).
Proof.
  apply calm_gets. intros [d|]; [|apply keeps_throw]. case_match; [apply keeps_throw|]. apply calm_lift. intros a _. apply calm_lift. intros s _.
  case_match; [apply keeps_throw|]. apply calm_lift. intros d' _. apply keeps_bind; [apply calm_save|]. intros _. apply keeps_ret.
Qed.
End later.

(** Over any history of services, whatever their ports answer and replicas show. *)
Lemma calm_history tx w w' : rtc (service (λ _, True)) w w' → rests tx decided (w_books w) → rests tx decided (w_books w').
Proof.
  assert (invariant (service (λ _, True)) (λ w, rests tx decided (w_books w))) as Hinv; [|intros Hrun Hw; exact (invariant_rtc _ _ w w' Hinv Hrun Hw)]. intros x y Hstep Hx.
  destruct Hstep; cbn [w_books] in Hx; cbn [see w_books].
  - by apply calm_refund.
  - by apply calm_capture.
  - by apply calm_cancel.
  - by apply calm_stripe.
  - by apply calm_adyen.
  - by apply calm_resolve.
  - by apply calm_sweep.
  - by apply calm_evidence.
Qed.


(** *** The theorem *)

(** An event that says how a charge ended. *)
Definition endsCharge (event : StripeEvent) : bool :=
  match se_type event with Some type => String.eqb type "payment_intent.succeeded" || String.eqb type "payment_intent.payment_failed" | None => false end.

Section twice.
Context (P P' : LifecyclePorts) (C C' : ChargePorts) (now now' : Date) (ids ids' : Ids) (s s' : Effects).
Context `{!UpToDate P, !UpToDate P'} (Hun : unique_disputes s).
Import WebhookProcessingService.

Lemma stripe_twice event : handleStripeEvent (H := P) (H0 := C) now ids event s = (s', Ok tt) →
  handleStripeEvent (H := P') (H0 := C') now' ids' event s' = (s', Ok tt).
Proof.
  unfold handleStripeEvent.
    destruct (se_type event) as [type|]; [|by intros _]. destruct (se_objectId event) as [id|]; [|by intros _].
    destruct (_ || _); [by intros _|]. destruct (String.eqb type _).
    { intros H. eapply succeeded_quiet, (succeeded_rests (P := P) (C := C)). exact H. }
    destruct (String.eqb type _).
    { intros H. eapply failed_quiet, (failed_rests (P := P)). exact H. }
    destruct (String.eqb type _).
    { intros H. eapply disputed_quiet, (disputed_rests (P := P)). exact H. }
    destruct (String.eqb type _); [|by intros _]. destruct (bool_decide (_ = Some "won"%string)).
    { intros H. eapply closed_quiet, (resolved_closed (P := P)); [exact Hun|exact H]. }
    destruct (bool_decide _); [|by intros _]. intros H. eapply closed_quiet, (resolved_closed (P := P)); [exact Hun|exact H].
Qed.

Lemma item_twice item : handleAdyenItem (H := P) (H0 := C) now ids item s = (s', Ok tt) →
  handleAdyenItem (H := P') (H0 := C') now' ids' item s' = (s', Ok tt).
Proof.
  unfold handleAdyenItem. cbv zeta.
    destruct (ad_pspReference item) as [reference|]; [|by intros _]. destruct (String.eqb reference ""); [by intros _|].
    destruct (String.eqb _ "AUTHORISATION").
    { destruct (bool_decide _); intros H; [eapply succeeded_quiet, (succeeded_rests (P := P) (C := C))|eapply failed_quiet, (failed_rests (P := P))]; exact H. }
    destruct (String.eqb _ "NOTIFICATION_OF_CHARGEBACK").
    { intros H. eapply disputed_quiet, (disputed_rests (P := P)). exact H. }
    destruct (_ || _); [|by intros _]. destruct (ad_originalReference item) as [original|]; [|by intros _].
    destruct (String.eqb original ""); [by intros _|]. intros H. eapply closed_quiet, (resolved_closed (P := P)); [exact Hun|exact H].
Qed.

Context (seen : list Payment.t) (w : world) (Hrun : rtc (service (λ _, True)) (see s' seen) w).

Lemma stripe_late event : endsCharge event = true → handleStripeEvent (H := P) (H0 := C) now ids event s = (s', Ok tt) →
  handleStripeEvent (H := P') (H0 := C') now' ids' event (w_books w) = (w_books w, Ok tt).
Proof.
  unfold endsCharge, handleStripeEvent. destruct (se_type event) as [type|]; [|discriminate]. destruct (se_objectId event) as [id|]; [|by intros _ _].
  intros He. destruct (String.eqb type "" || _); [by intros _|]. destruct (String.eqb type "payment_intent.succeeded").
  - intros H. apply succeeded_quiet, (calm_history id _ _ Hrun). cbn [see w_books]. eapply (succeeded_rests (P := P) (C := C)). exact H.
  - cbn in He. rewrite He. intros H. apply failed_quiet, (calm_history id _ _ Hrun). cbn [see w_books]. eapply (failed_rests (P := P)). exact H.
Qed.

Lemma item_late item : ad_eventCode item = "AUTHORISATION"%string → handleAdyenItem (H := P) (H0 := C) now ids item s = (s', Ok tt) →
  handleAdyenItem (H := P') (H0 := C') now' ids' item (w_books w) = (w_books w, Ok tt).
Proof.
  unfold handleAdyenItem. cbv zeta. intros ->. destruct (ad_pspReference item) as [reference|]; [|by intros _]. destruct (String.eqb reference ""); [by intros _|].
  rewrite String.eqb_refl. destruct (bool_decide _); intros H.
  - apply succeeded_quiet, (calm_history reference _ _ Hrun). cbn [see w_books]. eapply (succeeded_rests (P := P) (C := C)). exact H.
  - apply failed_quiet, (calm_history reference _ _ Hrun). cbn [see w_books]. eapply (failed_rests (P := P)). exact H.
Qed.
End twice.

(** C10: redeliveries. Handled by a process whose replica is current, a Stripe event or an
    Adyen item changes nothing when it is delivered again right away. One that says how a
    charge ended changes nothing however late it is delivered again: over any history of
    service calls in between, whatever their ports answer and their replicas show, so that a
    charge confirmed by a webhook is booked once. *)
Theorem webhook_redelivery_quiet (P P' : LifecyclePorts) (C C' : ChargePorts) (now now' : Date) (ids ids' : Ids)
    (event : StripeEvent) (item : AdyenNotificationRequestItem) (s s' : Effects) (seen : list Payment.t) (w : world) :
  UpToDate P → UpToDate P' → unique_disputes s → rtc (service (λ _, True)) (see s' seen) w →
  (WebhookProcessingService.handleStripeEvent (H := P) (H0 := C) now ids event s = (s', Ok tt) →
   WebhookProcessingService.handleStripeEvent (H := P') (H0 := C') now' ids' event s' = (s', Ok tt)
   ∧ (endsCharge event = true → WebhookProcessingService.handleStripeEvent (H := P') (H0 := C') now' ids' event (w_books w) = (w_books w, Ok tt)))
  ∧ (WebhookProcessingService.handleAdyenItem (H := P) (H0 := C) now ids item s = (s', Ok tt) →
     WebhookProcessingService.handleAdyenItem (H := P') (H0 := C') now' ids' item s' = (s', Ok tt)
     ∧ (ad_eventCode item = "AUTHORISATION"%string →
        WebhookProcessingService.handleAdyenItem (H := P') (H0 := C') now' ids' item (w_books w) = (w_books w, Ok tt))).
Proof.
  intros Hu Hu' Hun Hrun. split; intros H; (split; [|intros Hend]).
  - exact (stripe_twice P P' C C' now now' ids ids' s s' Hun event H).
  - exact (stripe_late P P' C C' now now' ids ids' s s' seen w Hrun event Hend H).
  - exact (item_twice P P' C C' now now' ids ids' s s' Hun item H).
  - exact (item_late P P' C C' now now' ids ids' s s' seen w Hrun item Hend H).
Qed.

(** ** What the provider did is booked *)

Lemma unchanged_loaded p : PaymentLifecycleService.unchanged (loaded p) p = true.
Proof. unfold PaymentLifecycleService.unchanged. destruct p. cbn. by rewrite !bool_decide_eq_true_2. Qed.

Lemma lift_ok {A B} (a : A) (f : A → M B) s : (lift (Ok a) ≫= f) s = f a s.
Proof. done. Qed.

Section completes.
Context `{P : LifecyclePorts, C : ChargePorts}.
Context (now : Date).
Context (Hcommit : commit = Ok tt) (Hpol : ∀ id m, findByMerchantId id = Some m → policy_ok m).

Lemma save_fresh p q ev hold s : row s = Some p →
  PaymentLifecycleService.saveIfUnchanged now (loaded p) q ev hold s
  = bookCharge (q {{ Payment._updatedAt := now }}) ev hold s.
Proof.
  intros Hr. unfold PaymentLifecycleService.saveIfUnchanged, mbind, M_bind, gets. rewrite Hr, unchanged_loaded.
  unfold lift. by rewrite Hcommit.
Qed.

(** Reading a fresh payment: totals and what remains. *)
Lemma capturable_ok p : good p → ∃ m, Payment.remainingCapturable p = Ok m ∧ Money.same (Payment._amount p) m
  ∧ Money.amountMinorUnits m = units p - captured_units p.
Proof.
  intros [Hp (Hr & Hc & _)]. cbn in Hc. destruct (totalCaptured_ok p Hp) as (c & Ec & _ & Hcs & Hcu).
  unfold Payment.remainingCapturable. rewrite Ec. cbn [mbind result_bind].
  rewrite subtract_total by (done || lia). eexists. split_and!; [done|done|]. cbn. lia.
Qed.

(** The entries of one capture. *)
Lemma capture_entries eid pid mid m params : Money.wf m → Money.amountMinorUnits m ≤ 2 ^ 53 →
  ChargeLedgerParamsResolverService.resolve now mid m None = Ok params →
  ∃ ev, LedgerOutboxEvent.createChargeEntries now
      (mkChargeEntriesParams eid pid mid m (platformFee params) (settlementConversion params)
         (rh_amount <$> reserveHold params) None) = Ok ev
    ∧ balanced (LedgerOutboxEvent.entries ev) ∧ psp_event ev = Money.amountMinorUnits m.
Proof.
  intros Hm Hmax Hres.
  destruct (resolve_resolved Hpol now mid m None params Hm Hmax (Forall_nil_2 _) Hres) as [Hv Hd Hsp _ _].
  assert (nullish (splits params) [] = []) as Hnil by by eapply fmap_nil_inv.
  assert (deductions (mkChargeEntriesParams eid pid mid m (platformFee params)
    (settlementConversion params) (rh_amount <$> reserveHold params) None) ≤ Money.amountMinorUnits m) as Hfit.
  { specialize (Hd eid pid). unfold deductions, charge_params in *. cbn in *. rewrite Hnil in Hd. cbn in Hd. lia. }
  destruct (charge_booked now (mkChargeEntriesParams eid pid mid m (platformFee params)
    (settlementConversion params) (rh_amount <$> reserveHold params) None)) as (ev & Hev & Hbal & _); [|done|].
  { destruct (Hv eid pid) as [H1 H2 H3 H4]. by split. }
  exists ev. split_and!; [done..|]. by apply psp_charge in Hev.
Qed.
End completes.

(** The identity of a payment. *)
Definition who (p : Payment.t) : string * PaymentMetadata := (Payment._id p, Payment._metadata p).

Lemma who_recordCapture now cid m tx raw p full q : Payment.recordCapture now cid m tx raw p = Ok (full, q) → who q = who p.
Proof.
  unfold Payment.recordCapture. case_match; [discriminate 1|].
  intros (c & _ & (n & _ & (b & _ & Hq)%bind_ok_iff)%bind_ok_iff)%bind_ok_iff.
  destruct b; [by apply bind_ok_iff in Hq as (? & _ & Hq)|]. cbv zeta in Hq. destruct p.
  destruct (Money.equals _ _); by injection Hq as _ <-.
Qed.

Lemma who_recordConversion now params m p : who (recordConversion now params m p) = who p.
Proof.
  assert (∀ c p, who (Payment.recordSettlementConversion c p) = who p) as Hc.
  { intros c x. unfold Payment.recordSettlementConversion. case_match; [done|]. by destruct x. }
  unfold recordConversion. destruct (settlementConversion params); [|done]. cbv zeta.
  destruct (Tax.buildCrossBorderTaxRecord _ _ _); [|apply Hc]. rewrite <- (Hc (recorded_conversion c) p).
  unfold Payment.recordTaxRecord. case_match; [done|]. by destruct (Payment.recordSettlementConversion _ _).
Qed.

Lemma who_recordInterchange x p : who (Payment.recordInterchangeQualification x p) = who p.
Proof. unfold Payment.recordInterchangeQualification. case_match; [done|]. by destruct p. Qed.

Lemma fresh_capture p amt : let b := loaded p in
  Payment._status b = Payment._status p ∧ chargedAt b = chargedAt p
  ∧ Payment.remainingCapturable b = Payment.remainingCapturable p
  ∧ requestedAmount amt b (Payment.remainingCapturable b) = requestedAmount amt p (Payment.remainingCapturable p)
  ∧ Payment._amount b = Payment._amount p ∧ captured_units b = captured_units p ∧ who b = who p.
Proof. by destruct p. Qed.

(** The record of a capture that fits. *)
Lemma recordCapture_fits now cid m tx raw p : good p → Money.wf m → Money.same (Payment._amount p) m →
  Payment._status p = REQUIRES_CAPTURE ∨ Payment._status p = PARTIALLY_CAPTURED →
  captured_units p + Money.amountMinorUnits m ≤ units p →
  let full := captured_units p + Money.amountMinorUnits m =? units p in
  ∃ q, Payment.recordCapture now cid m tx raw (loaded p) = Ok (full, q) ∧ who q = who p
    ∧ Payment._captures q = Payment._captures p ++ [mkCaptureRecord cid m now (Some tx)]
    ∧ Payment._status q = (if full then SUCCEEDED else PARTIALLY_CAPTURED).
Proof.
  cbv zeta. intros Hg Hwf Hsame Hst Hfit. destruct (loaded_untouched p) as [_ Hgl].
  destruct (fresh_capture p None) as (Est & _ & _ & _ & Eamt & Ecap & Ewho).
  pose proof (recordCapture_run now cid m tx raw (loaded p) (proj1 (Hgl Hg)) Hwf) as Hrun. cbv zeta in Hrun.
  rewrite Est, Eamt, Ecap in Hrun. specialize (Hrun Hsame Hst).
  destruct (Z.ltb_spec (units p) (captured_units p + Money.amountMinorUnits m)); [lia|].
  destruct Hrun as (q & Hq & (_ & _ & Hc & _) & Hqst). exists q. split_and!; [done| | |done].
  - by rewrite (who_recordCapture _ _ _ _ _ _ _ _ Hq).
  - rewrite Hc. by destruct p.
Qed.

(** A capture, run step by step. *)
Lemma capture_runs `{P : LifecyclePorts, C : ChargePorts} (now : Date) (cid eid hid tx : string)
    (amt : option number) (provider : PSPProvider) (m : Money.t) (answer : PSPActionResponse)
    (params : ChargeLedgerParams) (p : Payment.t) (s : Effects) :
  commit = Ok tt → (∀ id e, findByMerchantId id = Some e → policy_ok e) →
  good p → row s = Some p →
  Payment._status p = REQUIRES_CAPTURE ∨ Payment._status p = PARTIALLY_CAPTURED →
  chargedAt p = Some (provider, tx) → PaymentProcessorFactory.getAdapter provider = Ok provider →
  requestedAmount amt p (Payment.remainingCapturable p) = Ok m → Money.same (Payment._amount p) m →
  captured_units p + Money.amountMinorUnits m ≤ units p → Money.amountMinorUnits m ≤ 2 ^ 53 →
  captureAtPsp provider m = Ok answer → ar_success answer = true →
  ChargeLedgerParamsResolverService.resolve now (md_merchantId (Payment._metadata p)) m None = Ok params →
  ∃ s' q r ev, PaymentLifecycleService.capture now cid eid hid amt (loaded p) s = (s', Ok q)
    ∧ row s' = Some r ∧ Payment._captures r = Payment._captures p ++ [mkCaptureRecord cid m now (Some tx)]
    ∧ Payment._status r =
        (if captured_units p + Money.amountMinorUnits m =? units p then SUCCEEDED else PARTIALLY_CAPTURED)
    ∧ booked s' = booked s ++ [ev] ∧ balanced (LedgerOutboxEvent.entries ev)
    ∧ psp_event ev = Money.amountMinorUnits m
    ∧ holds s' = holds s ++ recordHold now hid (Payment._id p) (md_merchantId (Payment._metadata p)) (reserveHold params).
Proof.
  intros Hcommit Hpol Hg Hrow Hst Hat Hadapter Hm Hsame Hfit Hmax Hans Hsucc Hres.
  assert (Money.wf m) as Hwf by (eapply requestedAmount_wf; [|exact Hm]; intros; by eapply capturable_wf).
  destruct (capturable_ok p Hg) as (rem & Hrem & Hrs & Hru).
  destruct (recordCapture_fits now cid m tx (Some (ar_rawResponse answer)) p Hg Hwf Hsame Hst Hfit)
    as (q & Hq & Hwho & Hcaps & Hqst).
  destruct (fresh_capture p amt) as (Est & Eat & Erem & Ereq & _ & _ & _).
  assert (Money.isGreaterThan m rem = Ok false) as Hle.
  { apply isGreaterThan_ok. split; [unfold Money.same in *; congruence|]. symmetry. apply Z.ltb_ge. lia. }
  unfold PaymentLifecycleService.capture. cbv zeta. rewrite Est, Eat, Ereq, Erem, Hat.
  assert (negb (bool_decide (Payment._status p = REQUIRES_CAPTURE))
    && negb (bool_decide (Payment._status p = PARTIALLY_CAPTURED)) = false) as -> by by destruct Hst as [-> | ->].
  rewrite Hm, lift_ok, Hrem, lift_ok, Hle, lift_ok, Hadapter, lift_ok, Hans, lift_ok, Hsucc. cbn [negb].
  rewrite Hq, lift_ok. set (full := _ =? _) in *.
  set (q1 := match Payment._binInfo q with Some _ => _ | None => q end).
  assert (untouched q q1 ∧ who q1 = who q) as [Hun1 Hwho1].
  { subst q1. destruct (Payment._binInfo q); [destruct full|]; [|by destruct q..].
    split; [apply untouched_recordInterchange|apply who_recordInterchange]. }
  clearbody q1. rewrite Hwho in Hwho1. injection Hwho1 as Hid1 Hmd1. rewrite Hmd1, Hres, lift_ok.
  pose proof (recordConversion_untouched now params m q1) as Hun2.
  pose proof (who_recordConversion now params m q1) as Hwho2. injection Hwho2 as Hid2 Hmd2.
  set (q2 := recordConversion now params m q1) in *. clearbody q2.
  destruct (capture_entries now Hpol eid (Payment._id q2) (md_merchantId (Payment._metadata p)) m params Hwf Hmax Hres)
    as (ev & Hev & Hbal & Hpsp).
  rewrite Hev, lift_ok, Hid2, Hid1. eexists _, _, _, ev. split_and!.
  - unfold mbind at 1, M_bind at 1. rewrite (save_fresh now Hcommit p q2 _ _ s Hrow). reflexivity.
  - destruct s. reflexivity.
  - transitivity (Payment._captures q); [|done]. destruct Hun1 as (_ & _ & _ & <- & _), Hun2 as (_ & _ & _ & <- & _). by destruct q2.
  - rewrite <- Hqst. destruct Hun1 as (_ & <- & _), Hun2 as (_ & <- & _). by destruct q2.
  - by destruct s.
  - done.
  - done.
  - by destruct s.
Qed.

(** A capture the provider made is booked. When the row is as it was read, the
    amount fits what is left of the authorization, the ledger parameters resolve
    and the transaction commits, a successful capture at the provider always
    ends with the capture recorded, a balanced ledger event for exactly its
    amount, the reserve hold of the merchant's policy, and the payment completed
    if nothing is left to capture. *)
Theorem capture_completes `{P : LifecyclePorts, C : ChargePorts} (now : Date) (cid eid hid tx : string)
    (amt : option number) (provider : PSPProvider) (m : Money.t) (answer : PSPActionResponse)
    (params : ChargeLedgerParams) (p : Payment.t) (s : Effects) :
  commit = Ok tt → (∀ id e, findByMerchantId id = Some e → policy_ok e) →
  good p → row s = Some p →
  Payment._status p = REQUIRES_CAPTURE ∨ Payment._status p = PARTIALLY_CAPTURED →
  chargedAt p = Some (provider, tx) → PaymentProcessorFactory.getAdapter provider = Ok provider →
  requestedAmount amt p (Payment.remainingCapturable p) = Ok m → Money.same (Payment._amount p) m →
  captured_units p + Money.amountMinorUnits m ≤ units p → Money.amountMinorUnits m ≤ 2 ^ 53 →
  captureAtPsp provider m = Ok answer → ar_success answer = true →
  ChargeLedgerParamsResolverService.resolve now (md_merchantId (Payment._metadata p)) m None = Ok params →
  ∃ s' q r ev, PaymentLifecycleService.capture now cid eid hid amt (loaded p) s = (s', Ok q)
    ∧ row s' = Some r ∧ Payment._captures r = Payment._captures p ++ [mkCaptureRecord cid m now (Some tx)]
    ∧ Payment._status r =
        (if captured_units p + Money.amountMinorUnits m =? units p then SUCCEEDED else PARTIALLY_CAPTURED)
    ∧ booked s' = booked s ++ [ev] ∧ balanced (LedgerOutboxEvent.entries ev)
    ∧ psp_event ev = Money.amountMinorUnits m
    ∧ holds s' = holds s ++ recordHold now hid (Payment._id p) (md_merchantId (Payment._metadata p)) (reserveHold params).
Proof. apply capture_runs. Qed.

Lemma refundable_total p m : good p → Money.wf m → Money.same (Payment._amount p) m →
  refunded_units p + Money.amountMinorUnits m ≤ units p →
  ∃ t t', Payment.totalRefunded p = Ok t ∧ Money.add t m = Ok t' ∧ Money.isGreaterThan t' (Payment._amount p) = Ok false.
Proof.
  intros [Hp _] Hm Hs Hle. destruct (totalRefunded_ok p Hp) as (t & Et & Hwf & Hts & Hu).
  assert (Money.same t m) as Htm by (unfold Money.same in *; congruence).
  eexists t, _. split_and!; [done|by apply add_total|]. apply isGreaterThan_ok. split; [exact Hts|].
  symmetry. apply Z.ltb_ge. cbn. lia.
Qed.

Lemma fresh_refund p amt : let b := loaded p in
  Payment._status b = Payment._status p ∧ chargedAt b = chargedAt p
  ∧ Payment.remainingRefundable b = Payment.remainingRefundable p
  ∧ requestedAmount amt b (Payment.remainingRefundable b) = requestedAmount amt p (Payment.remainingRefundable p)
  ∧ Payment._amount b = Payment._amount p ∧ Payment.totalRefunded b = Payment.totalRefunded p
  ∧ refunded_units b = refunded_units p.
Proof. by destruct p. Qed.

(** The record of a refund that fits. *)
Lemma refund_fits now rid m reason psp eid p : good p → Money.wf m → Money.same (Payment._amount p) m →
  Payment._status p = SUCCEEDED ∨ Payment._status p = PARTIALLY_REFUNDED →
  refunded_units p + Money.amountMinorUnits m ≤ units p →
  ∃ q, Payment.refund now rid m reason psp (loaded p) = Ok q
    ∧ Payment._refunds q = Payment._refunds p ++ [mkRefundRecord rid m reason now psp]
    ∧ Payment._status q =
        (if refunded_units p + Money.amountMinorUnits m =? units p then REFUNDED else PARTIALLY_REFUNDED)
    ∧ refundEntriesOf eid m q = refundEntriesOf eid m p.
Proof.
  intros Hg Hwf Hsame Hst Hfit. destruct (loaded_untouched p) as [_ Hgl].
  destruct (fresh_refund p None) as (Est & _ & _ & _ & Eamt & _ & Eref).
  pose proof (refund_run now rid m reason psp (loaded p) (proj1 (Hgl Hg)) Hwf) as Hrun. cbv zeta in Hrun.
  rewrite Est, Eamt, Eref in Hrun. specialize (Hrun Hsame Hst).
  destruct (Z.ltb_spec (units p) (refunded_units p + Money.amountMinorUnits m)); [lia|].
  destruct Hrun as (q & Hq & (_ & Hr & _) & Hqst). exists q. split_and!; [done| |done|].
  - rewrite Hr. by destruct p.
  - clear -Hq. unfold Payment.refund in Hq. destruct (negb _ && negb _); [discriminate Hq|].
    apply bind_ok_iff in Hq as (? & _ & Hq). apply bind_ok_iff in Hq as (? & _ & Hq). apply bind_ok_iff in Hq as (e & _ & Hq).
    destruct e; [discriminate Hq|]. injection Hq as <-. by destruct p.
Qed.

(** A refund the provider made is booked. When the row is as it was read, the
    amount fits what is left and the transaction commits, a refund the provider
    accepted or has pending always ends with the refund recorded, the status it
    implies, and a balanced ledger event that takes exactly its amount off the
    settlement account. *)
Theorem refund_completes `{P : LifecyclePorts} (now : Date) (rid eid tx : string) (amt : option number)
    (reason : option string) (provider : PSPProvider) (m : Money.t) (answer : PSPRefundResponse)
    (p : Payment.t) (s : Effects) :
  commit = Ok tt → good p → row s = Some p →
  Payment._status p = SUCCEEDED ∨ Payment._status p = PARTIALLY_REFUNDED →
  chargedAt p = Some (provider, tx) → PaymentProcessorFactory.getAdapter provider = Ok provider →
  requestedAmount amt p (Payment.remainingRefundable p) = Ok m → Money.same (Payment._amount p) m →
  refunded_units p + Money.amountMinorUnits m ≤ units p → valid_refund (refundEntriesOf eid m p) →
  refundAtPsp provider m = Ok answer → rr_success answer = true ∨ rr_status answer = REFUND_PENDING →
  ∃ s' q r ev, PaymentLifecycleService.refund now rid eid amt reason (loaded p) s = (s', Ok q)
    ∧ row s' = Some r
    ∧ Payment._refunds r =
        Payment._refunds p ++
          [mkRefundRecord rid m (nullish reason "requested_by_customer") now (Some (rr_pspRefundId answer))]
    ∧ Payment._status r =
        (if refunded_units p + Money.amountMinorUnits m =? units p then REFUNDED else PARTIALLY_REFUNDED)
    ∧ booked s' = booked s ++ [ev] ∧ balanced (LedgerOutboxEvent.entries ev)
    ∧ psp_event ev = - Money.amountMinorUnits m.
Proof.
  intros Hcommit Hg Hrow Hst Hat Hadapter Hm Hsame Hfit Hvalid Hans Hacc.
  assert (Money.wf m) as Hwf by (eapply requestedAmount_wf; [|exact Hm]; intros; by eapply remaining_wf).
  destruct (refundable_total p m Hg Hwf Hsame Hfit) as (t & t' & Ht & Ht' & Hle).
  destruct (refund_fits now rid m (nullish reason "requested_by_customer") (Some (rr_pspRefundId answer)) eid p
    Hg Hwf Hsame Hst Hfit) as (q & Hq & Hrs & Hqst & Hentries).
  destruct (fresh_refund p amt) as (Est & Eat & Erem & Ereq & Eamt & Etot & _).
  destruct (createRefundEntries_ok now _ Hvalid) as (ext & Hev & Hbal & _).
  unfold PaymentLifecycleService.refund. cbv zeta. rewrite Est, Eat, Ereq, Etot, Eamt, Hat.
  assert (negb (bool_decide (Payment._status p = SUCCEEDED))
    && negb (bool_decide (Payment._status p = PARTIALLY_REFUNDED)) = false) as -> by by destruct Hst as [-> | ->].
  rewrite Hm, lift_ok, Ht, lift_ok, Ht', lift_ok, Hle, lift_ok, Hadapter, lift_ok, Hans, lift_ok.
  assert (negb (rr_success answer) && negb (bool_decide (rr_status answer = REFUND_PENDING)) = false) as ->.
  { destruct Hacc as [-> | ->]; [done|]. apply andb_false_r. }
  rewrite Hq, lift_ok, Hentries, Hev, lift_ok. eexists _, _, _, _. split_and!.
  - unfold mbind at 1, M_bind at 1. rewrite (save_fresh now Hcommit p q _ _ s Hrow). reflexivity.
  - destruct s. reflexivity.
  - rewrite <- Hrs. by destruct q.
  - rewrite <- Hqst. by destruct q.
  - by destruct s.
  - done.
  - by apply psp_refund in Hev.
Qed.

(** ** Races *)

Lemma amount_threeDS now t p q : Payment.completeThreeDS now t p = Ok q → Payment._amount q = Payment._amount p.
Proof. unfold Payment.completeThreeDS. intros (u & _ & H)%bind_ok_iff. injection H as <-. by destruct p. Qed.

Lemma amount_succeeded now a p q : Payment.markSucceeded now a p = Ok q → Payment._amount q = Payment._amount p.
Proof. unfold Payment.markSucceeded. intros (u & _ & H)%bind_ok_iff. injection H as <-. by destruct p. Qed.

(** A confirmation of an awaiting payment books its amount, whatever is stored. *)
Lemma confirmed_books `{P : LifecyclePorts, C : ChargePorts} now ids tx raw p s s' :
  WebhookProcessingService.awaiting p = true →
  WebhookProcessingService.confirmSucceeded now ids tx raw p s = (s', Ok tt) →
  psp_net (booked s') = psp_net (booked s) + units p.
Proof.
  intros Haw. unfold WebhookProcessingService.confirmSucceeded. cbv zeta. case_bool_decide as Hs.
  { unfold WebhookProcessingService.awaiting in Haw. by rewrite Hs in Haw. }
  rewrite Haw. cbn [negb]. intros (q1 & H1 & H)%run_lift. apply run_lift in H as (q2 & H2%amount_succeeded & H).
  assert (Payment._amount q1 = Payment._amount p) as E1.
  { case_bool_decide; [by eapply amount_threeDS|by injection H1 as <-]. }
  apply run_lift in H as (params & _ & H). apply run_lift in H as (ev & Hev%psp_charge & H).
  apply run_lift in H as ([] & _ & H). injection H as <-. cbn [ch_amount charge_params] in Hev.
  destruct (finalized_untouched params (recordConversion now params (Payment._amount q2) q2)) as (E3 & _).
  destruct (recordConversion_untouched now params (Payment._amount q2) q2) as (E4 & _).
  rewrite E3, E4, H2, E1 in Hev. destruct s as [r0 b0 h0 d0 pu0 de0 st0 c0].
  change (psp_net (b0 ++ [ev]) = psp_net b0 + units p). rewrite psp_net_snoc. lia.
Qed.

(** The end of a confirmation that goes through. *)
Lemma confirm_runs `{P : LifecyclePorts, C : ChargePorts} now ids tx raw p params s :
  commit = Ok tt → (∀ id e, findByMerchantId id = Some e → policy_ok e) →
  good p → WebhookProcessingService.awaiting p = true → units p ≤ 2 ^ 53 →
  Forall (λ x, Money.wf x.2 ∧ Money.same (Payment._amount p) x.2) (nullish (recordedSplits p) []) →
  ChargeLedgerParamsResolverService.resolve now (md_merchantId (Payment._metadata p)) (Payment._amount p) (recordedSplits p)
    = Ok params →
  ∃ s', WebhookProcessingService.confirmSucceeded now ids tx raw (loaded p) s = (s', Ok tt).
Proof.
  intros Hcommit Hpol Hg Haw Hmax Hsp Hres.
  destruct (resolve_resolved Hpol _ _ _ _ _ (proj1 (proj1 Hg)) Hmax Hsp Hres) as [Hv Hd _ _ _].
  destruct (charge_booked now _ (Hv (id_event ids) (Payment._id p)) (Hd (id_event ids) (Payment._id p))) as (ev & Hev & _).
  set (answer := Payment.mkPspAnswer tx (Some raw) None None None None None None).
  assert (∃ q, (q1 ← (if bool_decide (Payment._status (loaded p) = REQUIRES_ACTION)
      then Payment.completeThreeDS now (mkThreeDSResult true None None None None None) (loaded p) else Ok (loaded p));
      Payment.markSucceeded now answer q1) = Ok q
    ∧ who q = who p ∧ Payment._amount q = Payment._amount p ∧ recordedSplits q = recordedSplits p) as (q & Hq & Hwho & Hamt & Hrs).
  { unfold WebhookProcessingService.awaiting in Haw. destruct p. cbn in Haw.
    apply orb_true_iff in Haw as [->%bool_decide_eq_true| ->%bool_decide_eq_true]; eexists; (split; [reflexivity|done]). }
  apply bind_ok_iff in Hq as (q1 & H1 & Hq). subst answer. injection Hwho as Hid Hmd.
  unfold WebhookProcessingService.confirmSucceeded. cbv zeta.
  assert (bool_decide (Payment._status (loaded p) = SUCCEEDED) = false ∧ WebhookProcessingService.awaiting (loaded p) = true)
    as [-> ->].
  { unfold WebhookProcessingService.awaiting in *. destruct p. cbn in *. split; [|done].
    apply orb_true_iff in Haw as [->%bool_decide_eq_true| ->%bool_decide_eq_true]; done. }
  cbn [negb]. rewrite H1, lift_ok, Hq, lift_ok, Hmd, Hamt, Hrs, Hres, lift_ok.
  set (q3 := recordConversion now params (Payment._amount p) q).
  assert (who q3 = who p ∧ Payment._amount q3 = Payment._amount p) as [Hw3 Ha3].
  { subst q3. rewrite who_recordConversion. split; [unfold who; congruence|].
    destruct (recordConversion_untouched now params (Payment._amount p) q) as (-> & _). done. }
  clearbody q3.
  set (q4 := match splits params with Some (_ :: _) => _ | _ => q3 end).
  assert (Payment._id q4 = Payment._id p ∧ Payment._amount q4 = Payment._amount p) as [Hi4 Ha4].
  { destruct (finalized_untouched params q3) as (E & _). fold q4 in E. rewrite E. split; [|done].
    injection Hw3 as <- _. subst q4. unfold Payment.finalizeSplitConversions. repeat case_match; by destruct q3. }
  clearbody q4. rewrite Hi4, Ha4, Hev, lift_ok, Hcommit. eexists. reflexivity.
Qed.

(** The success webhook has no guard against a concurrent delivery. Two
    deliveries that both read the payment before either wrote it (it is read
    from a replica, and written without a condition) both succeed, and the
    charge is booked twice: the settlement account carries the amount twice
    while the row says it was paid once. *)
Theorem stale_confirmation_books_twice (P P' : LifecyclePorts) (C C' : ChargePorts) (now now' : Date) (ids ids' : Ids)
    (tx : string) (raw raw' : Json) (p : Payment.t) (s s1 s2 : Effects) :
  follows p s → WebhookProcessingService.awaiting (loaded p) = true →
  WebhookProcessingService.confirmSucceeded (H := P) (H0 := C) now ids tx raw (loaded p) s = (s1, Ok tt) →
  WebhookProcessingService.confirmSucceeded (H := P') (H0 := C') now' ids' tx raw' (loaded p) s1 = (s2, Ok tt) →
  psp_net (booked s2) = 2 * units p ∧ (∃ q, row s2 = Some q ∧ Payment._status q = SUCCEEDED).
Proof.
  intros Hf Haw H1 H2. pose proof (confirmed_books (P := P) (C := C) _ _ _ _ _ _ _ Haw H1) as E1.
  pose proof (confirmed_books (P := P') (C := C') _ _ _ _ _ _ _ Haw H2) as E2.
  pose proof (fo_ledger _ _ Hf) as Hl.
  assert (due p = 0) as Hdue.
  { destruct (fo_good _ _ Hf) as [_ Hs]. unfold WebhookProcessingService.awaiting, due, settled, PayAuto.safe, abs in *.
    destruct p. cbn in *. apply orb_true_iff in Haw as [->%bool_decide_eq_true| ->%bool_decide_eq_true]; cbn in *; lia. }
  assert (units (loaded p) = units p) as Hu by by destruct p. split; [lia|].
  destruct (confirmed_rests (P := P') (C := C') _ _ _ _ _ _ _ H2) as [[_ Hno]|Hq]; [congruence|exact Hq].
Qed.

(** A cancellation writes the row it read without a condition. If a capture
    commits between its read and its write, the row says CANCELLED, with no
    capture and nothing paid, while the captured money stays booked on the
    settlement account. *)
Theorem cancel_loses_capture (P P' : LifecyclePorts) (C : ChargePorts) (now now' : Date) (cid eid hid : string)
    (amt : option number) (p c r q : Payment.t) (s s1 s2 : Effects) :
  follows p s → Payment._status p = REQUIRES_CAPTURE →
  PaymentLifecycleService.capture (H := P) (H0 := C) now cid eid hid amt (loaded p) s = (s1, Ok c) →
  row s1 = Some r →
  PaymentLifecycleService.cancel (H := P') now' (loaded p) s1 = (s2, Ok q) →
  row s2 = Some q ∧ Payment._status q = CANCELLED ∧ Payment._captures q = Payment._captures p ∧ due q = 0
  ∧ psp_net (booked s2) = due r.
Proof.
  intros Hf Hst Hcap Hr Hcan.
  pose proof (capture_keeps (Ports := P) (Charge := C) now cid eid hid amt (loaded p) p) as Hk.
  destruct (loaded_untouched p) as [Habs Hgl]. destruct (good_abs p (loaded p) Habs) as (_ & Hu & Hst').
  specialize (Hk (Hgl (fo_good _ _ Hf)) Hu s Hf). rewrite Hcap in Hk. destruct Hk as (r' & Hr' & _).
  pose proof (fo_row _ _ Hr') as Erow. cbn [fst] in Erow. rewrite Hr in Erow. injection Erow as <-.
  unfold PaymentLifecycleService.cancel in Hcan. rewrite Hst', Hst in Hcan.
  rewrite bool_decide_eq_false_2 in Hcan by done. change (negb (isValidTransition REQUIRES_CAPTURE CANCELLED)) with false in Hcan.
  apply run_bind in Hcan as (s3 & [] & Hpsp & Hcan).
  assert (s3 = s1) as ->.
  { destruct (chargedAt (loaded p)) as [[prov tx]|]; [|by injection Hpsp as <-].
    apply run_lift in Hpsp as (a & _ & Hpsp). apply run_lift in Hpsp as (ans & _ & Hpsp).
    destruct (negb _); [discriminate Hpsp|by injection Hpsp as <-]. }
  apply run_lift in Hcan as (q' & Hq & Hcan). apply run_update in Hcan. injection Hcan as <- <-.
  assert (Payment._captures q' = Payment._captures p) as Hcaps.
  { unfold Payment.cancel in Hq. apply bind_ok_iff in Hq as (? & _ & Hq). injection Hq as <-. by destruct p. }
  split_and!; [by destruct s1|by eapply target_cancelled|exact Hcaps| |].
  - pose proof (replaces_cancelled now' _ _ (Hgl (fo_good _ _ Hf)) Hq) as [[_ Hs] _ _ _].
    unfold due, settled, PayAuto.safe, abs in *. cbn in *. rewrite (target_cancelled _ _ _ Hq) in *. lia.
  - rewrite <- (fo_ledger _ _ Hr'). by destruct s1.
Qed.

Lemma refundable_ok p : good p → ∃ m, Payment.remainingRefundable p = Ok m.
Proof.
  intros [Hp (Hr & _)]. cbn in Hr. destruct (totalRefunded_ok p Hp) as (c & Ec & _ & Hcs & Hcu).
  unfold Payment.remainingRefundable. rewrite Ec. cbn [mbind result_bind].
  rewrite subtract_total by (done || lia). eauto.
Qed.

Lemma find_closed `{P : LifecyclePorts, !UpToDate P} d psp s : d ∈ disputes s → Dispute._pspDisputeId d = psp →
  ∃ e, DisputeService.findByPspDisputeId psp s = (s, Ok (Some e)).
Proof.
  intros Hd Hpsp. unfold DisputeService.findByPspDisputeId, gets. rewrite replica_disputes. destruct (head _) as [e|] eqn:E; [by exists e|].
  by destruct (found_none _ _ E Hd).
Qed.

(** A dispute that was won cannot be told from its redelivered opening. When
    the event that opened a dispute arrives again after the dispute was resolved
    and the payment restored, the payment is put back to DISPUTED without a
    dispute being opened, and no outcome for that dispute ever takes it out of
    that status again. *)
Theorem dispute_redelivery_sticks (P P' : LifecyclePorts) `{!UpToDate P, !UpToDate P'} (C C' : ChargePorts) (now now' : Date) (ids : Ids) (eid tx psp : string)
    (provider : PSPProvider) (reason : option string) (outcome : DisputeOutcome) (d : Dispute.t) (p : Payment.t)
    (s : Effects) :
  updateRow (LifecyclePorts := P) = Ok tt → good p → row s = Some p → Payment._pspTransactionId p = Some tx →
  Payment._status p = SUCCEEDED ∨ Payment._status p = PARTIALLY_REFUNDED →
  d ∈ disputes s → Dispute._pspDisputeId d = psp → closed psp s →
  ∃ s' q, WebhookProcessingService.markDisputed (H := P) now ids provider tx psp reason s = (s', Ok tt)
    ∧ row s' = Some q ∧ Payment._status q = DISPUTED ∧ disputes s' = disputes s
    ∧ DisputeService.resolveByPspDisputeId (H := P') now' eid psp outcome s' = (s', Ok tt).
Proof.
  intros Hup Hg Hrow Htx Hst Hd Hpsp Hclosed. destruct (loaded_untouched p) as [Habs Hgl].
  destruct (good_abs p (loaded p) Habs) as (_ & _ & Est). destruct (refundable_ok (loaded p) (Hgl Hg)) as (m & Hm).
  assert (∃ q, Payment.markDisputed now reason (loaded p) = Ok q) as (q & Hq).
  { unfold Payment.markDisputed. rewrite Est. destruct Hst as [-> | ->]; eexists; reflexivity. }
  destruct (find_closed (P := P) d psp (s {{ row := Some q }})) as (e & He); [by destruct s|done|].
  eexists _, q. split_and!.
  - unfold WebhookProcessingService.markDisputed, findByPspTransactionId. unfold mbind at 1, M_bind at 1, gets.
    rewrite replica_row, Hrow, bool_decide_eq_true_2, Est by done.
    rewrite bool_decide_eq_false_2 by (by destruct Hst as [-> | ->]).
    assert (negb (bool_decide (Payment._status p = SUCCEEDED))
      && negb (bool_decide (Payment._status p = PARTIALLY_REFUNDED)) = false) as -> by by destruct Hst as [-> | ->].
    rewrite Hm, lift_ok, Hq, lift_ok, (bind_run _ _ _ _ _ (update_run q s Hup)).
    rewrite (bind_run _ _ _ _ _ (recorded_run _ _ _ _ _ _ _ _ _ _ He)). reflexivity.
  - by destruct s.
  - by eapply target_disputed.
  - by destruct s.
  - apply closed_quiet. intros x Hx. apply Hclosed. by destruct s.
Qed.

(** ** Automatic resolution ends *)

Section sweeping.
Context (maxAttempts minAge : Z).

(** The attempts that are left. *)
Definition attempts_left (s : Effects) : nat :=
  match row s with
  | Some p =>
      if bool_decide (Payment._status p = AMBIGUOUS)
      then Z.to_nat (maxAttempts - Payment._ambiguousAutoRetryCount p) else 0%nat
  | None => 0%nat
  end.

Section one.
Context `{P : LifecyclePorts, C : ChargePorts}.
Context (now : Date) (ids : Ids) (s0 : Effects) (p : Payment.t).
Context (Hrow : row s0 = Some p) (Hst : Payment._status p = AMBIGUOUS)
  (Hleft : Payment._ambiguousAutoRetryCount p < maxAttempts).

(** A program that uses an attempt whenever it writes; it throws before that. *)
Definition uses {A} (m : M A) : Prop :=
  triple (λ s, s = s0) m (λ r s,
    match r with Ok _ => s = s0 ∨ (attempts_left s < attempts_left s0)%nat | Throw _ => s = s0 end).

Lemma left_now : attempts_left s0 = Z.to_nat (maxAttempts - Payment._ambiguousAutoRetryCount p).
Proof. unfold attempts_left. by rewrite Hrow, bool_decide_eq_true_2. Qed.

Lemma left_resolved q s : row s = Some q → Payment._status q ≠ AMBIGUOUS → (attempts_left s < attempts_left s0)%nat.
Proof. intros Hr Hs. rewrite left_now. unfold attempts_left. rewrite Hr, bool_decide_eq_false_2 by done. lia. Qed.

Lemma uses_lift {A B} (r : result A) (f : A → M B) : (∀ a, r = Ok a → uses (f a)) → uses (lift r ≫= f).
Proof. intros Hf. apply triple_lift_bind; [done|]. by intros e s _. Qed.

Lemma uses_update {A} q (k : M A) : (attempts_left (s0 {{ row := Some q }}) < attempts_left s0)%nat →
  (∀ s, ∃ s' a, k s = (s', Ok a) ∧ row s' = row s) → uses (_ ← updatePayment q; k).
Proof.
  intros Hlt Hk. unfold updatePayment. apply triple_bind with (λ _ s, s = s0 {{ row := Some q }}).
  - apply triple_lift_bind; [|by intros e s _]. intros [] _. apply triple_modify. by intros s ->.
  - intros _ s ->. destruct (Hk (s0 {{ row := Some q }})) as (s' & a & -> & Hr). cbn [fst snd].
    right. unfold attempts_left at 1. rewrite Hr. exact Hlt.
Qed.

Lemma uses_booked {A} q (k : Payment.t → M A) : Payment._status q ≠ AMBIGUOUS →
  (∀ x s, ∃ s' a, k x s = (s', Ok a) ∧ row s' = row s) →
  uses (q ← AmbiguousPaymentService.bookSucceeded now ids q; k q).
Proof.
  intros Hq Hk. apply triple_bind with (λ _ s, ∃ q, row s = Some q ∧ Payment._status q ≠ AMBIGUOUS).
  - unfold AmbiguousPaymentService.bookSucceeded. cbv zeta.
    repeat (apply triple_lift_bind; [|by intros e s _]; intros ? _).
    intros s ->. eexists. split; [destruct s0; reflexivity|].
    destruct (finalized_untouched a (recordConversion now a (Payment._amount q) q)) as (_ & -> & _).
    by destruct (recordConversion_untouched now a (Payment._amount q) q) as (_ & -> & _).
  - intros x s (r & Hr & Hs). destruct (Hk x s) as (s' & y & -> & Hr'). cbn [fst snd].
    right. apply (left_resolved r); [by rewrite Hr'|done].
Qed.

Lemma published_rest {A} q (a : A) s : ∃ s' x, (_ ← publishDomainEvents q; mret a) s = (s', Ok x) ∧ row s' = row s.
Proof. eexists _, a. split; [reflexivity|]. by destruct s. Qed.

Lemma read_self : findByIdOnMaster (Payment._id p) s0 = (s0, Ok (Some (loaded p))).
Proof. unfold findByIdOnMaster, gets. by rewrite Hrow, String.eqb_refl. Qed.

Lemma autoResolve_uses res : uses (AmbiguousPaymentService.autoResolveOne now ids (Payment._id p) res).
Proof.
  apply triple_bind with (λ o s, s = s0 ∧ o = Some (loaded p)).
  { intros s ->. by rewrite read_self. }
  intros o. apply (triple_pre (o = Some (loaded p)) _ (λ s, s = s0)); [done|]. intros ->.
  assert (Payment._status (loaded p) = AMBIGUOUS ∧
    Payment._ambiguousAutoRetryCount (loaded p) = Payment._ambiguousAutoRetryCount p) as [Hl Hc] by by destruct p.
  rewrite Hl. cbn [negb bool_decide decide_rel]. rewrite bool_decide_eq_true_2 by done. cbn [negb].
  destruct (Payment._pspProvider (loaded p)) as [prov|]; [|apply triple_ret; by left].
  apply uses_lift. intros a _. apply uses_lift. intros out _. cbv zeta.
  assert (∀ r : SweepResult, uses
    (_ ← updatePayment (Payment.incrementAmbiguousAutoRetryCount (loaded p)); mret r)) as Hunk.
  { intros r. apply uses_update; [|intros s; by exists s, r]. rewrite left_now. unfold attempts_left.
    set (q := Payment.incrementAmbiguousAutoRetryCount (loaded p)).
    assert (row (s0 {{ row := Some q }}) = Some q) as -> by by destruct s0.
    assert (Payment._status q = AMBIGUOUS ∧ Payment._ambiguousAutoRetryCount q = Payment._ambiguousAutoRetryCount p + 1)
      as [-> ->] by (subst q; by destruct p). rewrite bool_decide_eq_true_2 by done. lia. }
  destruct (q_outcome out), (q_pspTransactionId out) as [tx|]; try (by apply Hunk).
  - case_match; [by apply Hunk|]. apply uses_lift. intros q Hq.
    apply uses_booked; [by rewrite (target_succeeded _ _ _ _ Hq)|intros; apply published_rest].
  - apply uses_lift. intros q Hq. apply uses_update; [|intros; apply published_rest].
    apply (left_resolved q); [by destruct s0|by rewrite (target_failed _ _ _ _ _ _ _ Hq)].
  - apply uses_lift. intros q Hq. apply uses_update; [|intros; apply published_rest].
    apply (left_resolved q); [by destruct s0|by rewrite (target_failed _ _ _ _ _ _ _ Hq)].
Qed.
End one.

(** A sweep that writes uses up an attempt. *)
Lemma sweep_step `{P : LifecyclePorts, C : ChargePorts} now ids s :
  let s' := (AmbiguousPaymentService.runAutoResolutionSweep now ids maxAttempts minAge s).1 in
  s' = s ∨ (attempts_left s' < attempts_left s)%nat.
Proof.
  cbv zeta. unfold AmbiguousPaymentService.runAutoResolutionSweep, mbind, M_bind, gets.
  destruct (row s) as [p|] eqn:Hrow; [|by left].
  destruct (AmbiguousPaymentService.eligible now maxAttempts minAge p) eqn:He; [|by left].
  unfold AmbiguousPaymentService.eligible in He.
  apply andb_true_iff in He as [[Hst%bool_decide_eq_true Hlt%Z.ltb_lt]%andb_true_iff _].
  pose proof (autoResolve_uses now ids s p Hrow Hst Hlt (mkSweepResult 0 0 0 0) s eq_refl) as H. unfold catch.
  destruct (AmbiguousPaymentService.autoResolveOne _ _ _ _ s) as [s' [r|e]]; cbn [fst snd] in *; [done|by left].
Qed.

(** A sweep that changes the books, with any ports and at any time. *)
Definition swept (s s' : Effects) : Prop :=
  s' ≠ s ∧ ∃ (P : LifecyclePorts) (C : ChargePorts) now ids,
    s' = (AmbiguousPaymentService.runAutoResolutionSweep now ids maxAttempts minAge s).1.
End sweeping.

(** Automatic resolution of an ambiguous payment ends. Over any sequence of
    sweeps, whatever the providers answer and whichever writes fail, at most as
    many of them change anything as attempts are left; a payment that used them
    all, or left AMBIGUOUS, is never touched again. *)
Theorem auto_resolution_bounded (maxAttempts minAge : Z) (n : nat) (s s' : Effects) :
  nsteps (swept maxAttempts minAge) n s s' → (n + attempts_left maxAttempts s' ≤ attempts_left maxAttempts s)%nat.
Proof.
  induction 1 as [|n x y z [Hne (P & C & now & ids & ->)] _ IH]; [done|].
  destruct (sweep_step maxAttempts minAge (P := P) (C := C) now ids x) as [E | Hlt]; [done|]. lia.
Qed.

(** ** Concrete payments *)

Definition sample_awaiting : Payment.t :=
  match Payment.requiresAction 1002 "https://acs" 10 (Some "tx_1"%string) sample_processing with Ok q => q | Throw _ => sample end.
Definition sample_authorized : Payment.t :=
  match Payment.requiresCapture 1002 sample_answer sample_processing with Ok q => q | Throw _ => sample end.

Definition stored_only (p : Payment.t) (l : list Dispute.t) : Effects := mkEffects (Some p) [] [] l [] [] [] [].

Lemma good_sample : good sample.
Proof. split; [exact sample_coherent|]. unfold sample. rewrite abs_create. by apply PayAuto.safe_init. Qed.

Lemma good_plain p q : plain_step p q → good p → good q.
Proof. intros Hs Hg. by destruct (good_effect p q (effect_plain _ _ Hs) Hg). Qed.

Lemma good_processing : good sample_processing.
Proof. eapply good_plain, good_sample. by apply (plain_startProcessing 1001 STRIPE). Qed.
Lemma good_charged : good PaymentCorrect.sample_charged.
Proof. eapply good_plain, good_processing. by apply (plain_markSucceeded 1002 sample_answer). Qed.
Lemma good_awaiting : good sample_awaiting.
Proof. eapply good_plain, good_processing. by apply (plain_requiresAction 1002 "https://acs" 10 (Some "tx_1"%string)). Qed.
Lemma good_authorized : good sample_authorized.
Proof. eapply good_plain, good_processing. by apply (plain_requiresCapture 1002 sample_answer). Qed.

Lemma follows_unpaid p : good p → due p = 0 → follows p (stored_only p []).
Proof. intros Hg Hd. split; [done|done|by rewrite Hd|done]. Qed.

Definition sample_ids : Ids := mkIds "ev" "hold" "dp".
Definition sample_success : StripeEvent :=
  mkStripeEvent (Some "payment_intent.succeeded"%string) (Some "tx_1"%string) (JObj []) None None None None None.
Definition sample_item : AdyenNotificationRequestItem :=
  mkAdyenNotificationRequestItem (Some "tx_1"%string) (JObj []) (Some "true"%string) "AUTHORISATION" None None.

#[local] Existing Instance sample_ports.
#[local] Existing Instance sample_lifecycle.

#[local] Instance sample_current : UpToDate sample_lifecycle.
Proof. by split. Qed.

(** A confirmation of the awaiting sample goes through, from any state. *)
Lemma sample_confirms ids s : ∃ s',
  WebhookProcessingService.confirmSucceeded 0 ids "tx_1" (JObj []) (loaded sample_awaiting) s = (s', Ok tt).
Proof.
  destruct sample_params as (params & Hres & _).
  exact (confirm_runs 0 ids "tx_1" (JObj []) sample_awaiting params s eq_refl sample_policies good_awaiting eq_refl
    ltac:(vm_compute; discriminate) (Forall_nil_2 _) Hres).
Qed.

(** The charge is refunded before the event arrives again. *)
Lemma webhook_redelivery_quiet_witness : ∃ s q,
  WebhookProcessingService.handleStripeEvent 0 sample_ids sample_success (stored_only sample_awaiting []) = (s, Ok tt)
  ∧ WebhookProcessingService.handleStripeEvent 9000 sample_ids sample_success s = (s, Ok tt)
  ∧ row s = Some q
  ∧ let s2 := (PaymentLifecycleService.refund 3000 "r" "ev2" None None (loaded q) s).1 in
    WebhookProcessingService.handleStripeEvent 9000 sample_ids sample_success s2 = (s2, Ok tt).
Proof.
  destruct (sample_confirms sample_ids (stored_only sample_awaiting [])) as (s & E).
  assert (∃ q, row s = Some q) as (q & Hq).
  { destruct (confirmed_rests _ _ _ _ _ _ _ E) as [[-> _]|(q & Hq & _)]; [by exists sample_awaiting|by exists q]. }
  destruct (webhook_redelivery_quiet sample_lifecycle sample_lifecycle sample_ports sample_ports 0 9000
    sample_ids sample_ids sample_success sample_item (stored_only sample_awaiting []) s []
    (see (PaymentLifecycleService.refund 3000 "r" "ev2" None None (loaded q) s).1 [q])) as [H1 _].
  - exact sample_current.
  - exact sample_current.
  - intros d e Hd. destruct (not_elem_of_nil d Hd).
  - unfold see at 1. rewrite Hq. apply rtc_once, sv_refund. left.
  - destruct (H1 E) as [H2 H3]. exists s, q. split_and!; [exact E|exact H2|exact Hq|exact (H3 eq_refl)].
Defined.

Lemma sample_captures : ∃ s q r ev,
  PaymentLifecycleService.capture 0 "c" "ev" "h" None (loaded sample_authorized) (stored_only sample_authorized []) = (s, Ok q)
  ∧ row s = Some r ∧ Payment._status r = SUCCEEDED ∧ booked s = [ev] ∧ psp_event ev = 10000.
Proof.
  destruct sample_params as (params & Hres & _).
  destruct (capture_runs 0 "c" "ev" "h" "tx_1" None STRIPE (usd 10000)
    (mkPSPActionResponse true (JObj []) None) params sample_authorized (stored_only sample_authorized []))
    as (s & q & r & ev & Hrun & Hrow & _ & Hst & Hb & _ & Hpsp & _);
    [exact eq_refl|exact sample_policies|exact good_authorized|exact eq_refl|left; exact eq_refl|exact eq_refl|exact eq_refl
    |vm_compute; exact eq_refl|exact eq_refl|vm_compute; discriminate|vm_compute; discriminate|exact eq_refl|exact eq_refl
    |exact Hres|].
  exists s, q, r, ev. split_and!; [exact Hrun|exact Hrow|exact Hst|exact Hb|exact Hpsp].
Qed.

Lemma capture_completes_witness : ∃ s q r ev,
  PaymentLifecycleService.capture 0 "c" "ev" "h" None (loaded sample_authorized) (stored_only sample_authorized []) = (s, Ok q)
  ∧ row s = Some r ∧ Payment._status r = SUCCEEDED ∧ booked s = [ev] ∧ psp_event ev = 10000.
Proof.
  destruct sample_params as (params & Hres & _).
  destruct (capture_completes 0 "c" "ev" "h" "tx_1" None STRIPE (usd 10000)
    (mkPSPActionResponse true (JObj []) None) params sample_authorized (stored_only sample_authorized []))
    as (s & q & r & ev & Hrun & Hrow & _ & Hst & Hb & _ & Hpsp & _).
  - reflexivity.
  - exact sample_policies.
  - exact good_authorized.
  - reflexivity.
  - left. reflexivity.
  - reflexivity.
  - reflexivity.
  - vm_compute. reflexivity.
  - reflexivity.
  - vm_compute. discriminate.
  - vm_compute. discriminate.
  - reflexivity.
  - reflexivity.
  - exact Hres.
  - exists s, q, r, ev. split_and!; [exact Hrun|exact Hrow|exact Hst|exact Hb|exact Hpsp].
Defined.

Lemma refund_completes_witness : ∃ s q r ev,
  PaymentLifecycleService.refund 2000 "r" "ev" None None (loaded PaymentCorrect.sample_charged)
    (stored_only PaymentCorrect.sample_charged []) = (s, Ok q)
  ∧ row s = Some r ∧ Payment._status r = REFUNDED ∧ booked s = [ev] ∧ psp_event ev = -10000.
Proof.
  destruct (refund_completes 2000 "r" "ev" "tx_1" None None STRIPE (usd 10000)
    (mkPSPRefundResponse true "re_1" REFUND_SUCCEEDED None) PaymentCorrect.sample_charged
    (stored_only PaymentCorrect.sample_charged []))
    as (s & q & r & ev & Hrun & Hrow & _ & Hst & Hb & _ & Hpsp).
  - reflexivity.
  - exact good_charged.
  - reflexivity.
  - left. reflexivity.
  - reflexivity.
  - reflexivity.
  - vm_compute. reflexivity.
  - reflexivity.
  - vm_compute. discriminate.
  - split; [by apply usd_wf|vm_compute; discriminate|done|constructor|discriminate 1].
  - reflexivity.
  - left. reflexivity.
  - exists s, q, r, ev. split_and!; [exact Hrun|exact Hrow|exact Hst|exact Hb|exact Hpsp].
Defined.

Lemma stale_confirmation_books_twice_witness : ∃ s1 s2 q,
  WebhookProcessingService.confirmSucceeded 0 sample_ids "tx_1" (JObj []) (loaded sample_awaiting)
    (stored_only sample_awaiting []) = (s1, Ok tt)
  ∧ WebhookProcessingService.confirmSucceeded 0 sample_ids "tx_1" (JObj []) (loaded sample_awaiting) s1 = (s2, Ok tt)
  ∧ psp_net (booked s2) = 20000 ∧ row s2 = Some q ∧ Payment._status q = SUCCEEDED.
Proof.
  destruct (sample_confirms sample_ids (stored_only sample_awaiting [])) as (s1 & E1).
  destruct (sample_confirms sample_ids s1) as (s2 & E2).
  destruct (stale_confirmation_books_twice sample_lifecycle sample_lifecycle sample_ports sample_ports
    0 0 sample_ids sample_ids "tx_1" (JObj []) (JObj []) sample_awaiting _ _ _
    (follows_unpaid _ good_awaiting eq_refl) eq_refl E1 E2) as [Hnet (q & Hq & Hst)].
  exists s1, s2, q. split_and!; [exact E1|exact E2|exact Hnet|exact Hq|exact Hst].
Defined.

(** The same with two deliveries one after the other, when the replica does not have the
    first one yet. *)
Definition sample_lagging : LifecyclePorts := {|
  refundAtPsp := refundAtPsp; captureAtPsp := captureAtPsp; cancelAtPsp := cancelAtPsp; queryOutcome := queryOutcome;
  submitDisputeEvidence := submitDisputeEvidence; updateRow := updateRow; commit := commit; saveDispute := saveDispute;
  replicaRow _ := Some sample_awaiting; replicaDisputes l := l; evaluateMerchant := evaluateMerchant;
  autoAcceptThreshold := autoAcceptThreshold; lowRiskMultiplier := lowRiskMultiplier; highRiskMultiplier := highRiskMultiplier |}.

Lemma stale_delivery `{P : LifecyclePorts, C : ChargePorts} now ids tx raw b s : (∀ r, replicaRow r = Some b) → Payment._pspTransactionId b = Some tx →
  WebhookProcessingService.markSucceeded now ids tx raw s = WebhookProcessingService.confirmSucceeded now ids tx raw (loaded b) s.
Proof.
  intros Hr Htx. unfold WebhookProcessingService.markSucceeded, findByPspTransactionId, mbind, M_bind, gets. by rewrite Hr, bool_decide_eq_true_2.
Qed.

Lemma lagging_replica_books_twice : ∃ s1 s2 q,
  WebhookProcessingService.markSucceeded (H := sample_lagging) 0 sample_ids "tx_1" (JObj []) (stored_only sample_awaiting []) = (s1, Ok tt)
  ∧ WebhookProcessingService.markSucceeded (H := sample_lagging) 0 sample_ids "tx_1" (JObj []) s1 = (s2, Ok tt)
  ∧ psp_net (booked s2) = 20000 ∧ row s2 = Some q ∧ Payment._status q = SUCCEEDED.
Proof.
  destruct sample_params as (params & Hres & _).
  assert (∀ s, ∃ s', WebhookProcessingService.confirmSucceeded (H := sample_lagging) 0 sample_ids "tx_1" (JObj []) (loaded sample_awaiting) s = (s', Ok tt)) as Hrun.
  { intros s. exact (confirm_runs (P := sample_lagging) 0 sample_ids "tx_1" (JObj []) sample_awaiting params s eq_refl sample_policies good_awaiting eq_refl
      ltac:(vm_compute; discriminate) (Forall_nil_2 _) Hres). }
  destruct (Hrun (stored_only sample_awaiting [])) as (s1 & E1). destruct (Hrun s1) as (s2 & E2).
  destruct (stale_confirmation_books_twice sample_lagging sample_lagging sample_ports sample_ports
    0 0 sample_ids sample_ids "tx_1" (JObj []) (JObj []) sample_awaiting _ _ _
    (follows_unpaid _ good_awaiting eq_refl) eq_refl E1 E2) as [Hnet (q & Hq & Hst)].
  exists s1, s2, q. rewrite !(stale_delivery (P := sample_lagging) _ _ _ _ sample_awaiting) by reflexivity.
  split_and!; [exact E1|exact E2|exact Hnet|exact Hq|exact Hst].
Qed.

Lemma cancel_loses_capture_witness : ∃ s1 s2 c q,
  PaymentLifecycleService.capture 0 "c" "ev" "h" None (loaded sample_authorized) (stored_only sample_authorized []) = (s1, Ok c)
  ∧ PaymentLifecycleService.cancel 0 (loaded sample_authorized) s1 = (s2, Ok q)
  ∧ Payment._status q = CANCELLED ∧ due q = 0 ∧ 0 < psp_net (booked s2).
Proof.
  destruct sample_captures as (s1 & c & r & ev & E1 & Hr & Hst & Hb & Hev).
  assert (∃ s2 q, PaymentLifecycleService.cancel 0 (loaded sample_authorized) s1 = (s2, Ok q) ∧ booked s2 = booked s1)
    as (s2 & q & E2 & Hb2) by (eexists _, _; split; [reflexivity|destruct s1; reflexivity]).
  destruct (cancel_loses_capture sample_lifecycle sample_lifecycle sample_ports 0 0 "c" "ev" "h" None
    sample_authorized c r q (stored_only sample_authorized []) s1 s2) as (_ & Hcan & _ & Hdue & _).
  - exact (follows_unpaid _ good_authorized eq_refl).
  - reflexivity.
  - exact E1.
  - exact Hr.
  - exact E2.
  - exists s1, s2, c, q. split_and!; [exact E1|exact E2|exact Hcan|exact Hdue|].
    rewrite Hb2, Hb. unfold psp_net. cbn [sumZ]. rewrite Hev. reflexivity.
Defined.

(** A dispute of the charged sample that was won. *)
Definition sample_won : Dispute.t :=
  Dispute.mk "dp" "pay_1" "m_1" STRIPE "dp_psp" (usd 10000) None (RESOLVED WON) 0 None 0 0 None None None None.

Lemma dispute_redelivery_sticks_witness : ∃ s q,
  WebhookProcessingService.markDisputed 3000 sample_ids STRIPE "tx_1" "dp_psp" None
    (stored_only PaymentCorrect.sample_charged [sample_won]) = (s, Ok tt)
  ∧ row s = Some q ∧ Payment._status q = DISPUTED
  ∧ DisputeService.resolveByPspDisputeId 4000 "ev" "dp_psp" WON s = (s, Ok tt).
Proof.
  destruct (dispute_redelivery_sticks sample_lifecycle sample_lifecycle sample_ports sample_ports 3000 4000 sample_ids
    "ev" "tx_1" "dp_psp" STRIPE None WON sample_won PaymentCorrect.sample_charged
    (stored_only PaymentCorrect.sample_charged [sample_won])) as (s & q & Hrun & Hrow & Hst & _ & Hstuck).
  - reflexivity.
  - exact good_charged.
  - reflexivity.
  - reflexivity.
  - left. reflexivity.
  - left.
  - reflexivity.
  - intros d Hd _. apply list_elem_of_singleton in Hd as ->. reflexivity.
  - exists s, q. split_and!; [exact Hrun|exact Hrow|exact Hst|exact Hstuck].
Defined.

(** An ambiguous payment whose provider does not know it either. *)
Definition sample_ambiguous : Payment.t :=
  match Payment.markAmbiguous 1002 "timeout" None sample_processing with Ok q => q | Throw _ => sample end.
Definition sample_unknowing : LifecyclePorts := sample_answering (mkPSPQueryOutcomeResult Q_STILL_UNKNOWN None None).

Lemma auto_resolution_bounded_witness : ∃ s,
  nsteps (swept 3 0) 1 (stored_only sample_ambiguous []) s
  ∧ (1 + attempts_left 3 s ≤ attempts_left 3 (stored_only sample_ambiguous []))%nat.
Proof.
  assert (nsteps (swept 3 0) 1 (stored_only sample_ambiguous [])
    (AmbiguousPaymentService.runAutoResolutionSweep (H := sample_unknowing) 2000 sample_ids 3 0
       (stored_only sample_ambiguous [])).1) as H.
  { apply nsteps_once. split.
    - intros E. apply (f_equal (λ s, Payment._ambiguousAutoRetryCount <$> row s)) in E. vm_compute in E. discriminate E.
    - exists sample_unknowing, sample_ports, 2000, sample_ids. reflexivity. }
  eexists. split; [exact H|]. exact (auto_resolution_bounded 3 0 1 _ _ H).
Defined.
