(* ===== verification/Redis.v ===== *)
(** * Redis, and programs that share it

    The replicas of the gateway share one Redis. [redis-cache.adapter.ts] turns
    each method of the cache port into one Redis command; a service method is a
    program that issues commands one at a time, so that the commands of other
    replicas may run between any two of its own. Keys and values are parameters:
    every component has its own type of keys, one constructor per key pattern. *)

From S2P Require Import Prelude.

(** ** The store *)

(** A stored value that [INCR] accepts. *)
Class Numeric (V : Type) := { of_num : Z → V; to_num : V → option Z }.

Record cell (V : Type) := mkCell { value : V; expiresAt : option Date }.
Arguments mkCell {_} _ _.
Arguments value {_} _.
Arguments expiresAt {_} _.

Section store.
Context {K V : Type} `{Countable K, Numeric V}.

Abbreviation store := (gmap K (cell V)).

Definition live (now : Date) (c : cell V) : bool :=
  match expiresAt c with Some e => now <? e | None => true end.

(** An expired key is absent. *)
Definition find (now : Date) (k : K) (s : store) : option (cell V) :=
  match s !! k with Some c => if live now c then Some c else None | None => None end.

Definition peek (now : Date) (k : K) (s : store) : option V := value <$> find now k s.

(** The commands behind the methods of the cache port, and the wall clock. *)
Inductive command : Type → Type :=
  | GET (k : K) : command (option V)
  | SET (k : K) (v : V) (ttlSeconds : option Z) : command unit
  | DEL (k : K) : command unit
  | SETNX (k : K) (v : V) (ttlSeconds : Z) : command bool
  | INCRBY (k : K) (n : Z) : command Z
  | EXPIRE (k : K) (ttlSeconds : Z) : command unit
  | NOW : command Date.

Definition deadline (now ttlSeconds : Z) : option Date := Some (now + ttlSeconds * 1000).

Definition exec {A} (c : command A) (now : Date) (s : store) : store * result A :=
  match c in command B return store * result B with
  | GET k => (s, Ok (peek now k s))
  | SET k v ttl => (<[k := mkCell v (ttl ≫= deadline now)]> s, Ok tt)
  | DEL k => (delete k s, Ok tt)
  | SETNX k v ttl =>
      match find now k s with
      | Some _ => (s, Ok false)
      | None => (<[k := mkCell v (deadline now ttl)]> s, Ok true)
      end
  | INCRBY k n =>
      match find now k s with
      | None => (<[k := mkCell (of_num n) None]> s, Ok n)
      | Some c =>
          match to_num (value c) with
          | Some m => (<[k := mkCell (of_num (m + n)) (expiresAt c)]> s, Ok (m + n))
          | None => (s, Throw (ExternalFailure "value is not an integer"))
          end
      end
  | EXPIRE k ttl =>
      match find now k s with
      | Some c => (<[k := mkCell (value c) (deadline now ttl)]> s, Ok tt)
      | None => (s, Ok tt)
      end
  | NOW => (s, Ok now)
  end.
End store.

Arguments command : clear implicits.

(** ** Programs *)

(** A program over the events [E]: it has ended, thrown, or waits for the answer
    of an event. *)
Inductive prog (E : Type → Type) (A : Type) :=
  | Ret (a : A)
  | Fail (e : js_error)
  | Do {X : Type} (c : E X) (k : X → prog E A).
Arguments Ret {_ _} _.
Arguments Fail {_ _} _.
Arguments Do {_ _ _} _ _.

#[global] Instance prog_ret E : MRet (prog E) := λ A, Ret.
#[global] Instance prog_bind E : MBind (prog E) := λ A B f, fix go p :=
  match p with Ret a => f a | Fail e => Fail e | Do c k => Do c (λ x, go (k x)) end.

Definition call {E A} (c : E A) : prog E A := Do c Ret.

Section semantics.
Context {E : Type → Type} {S : Type} (handler : ∀ X, E X → Date → S → S * result X).

(** The next state and program, unless it has ended. *)
Definition resume {A X} (k : X → prog E A) (r : result X) : prog E A :=
  match r with Ok x => k x | Throw e => Fail e end.

Definition advance {A} (p : prog E A) (now : Date) (s : S) : option (S * prog E A) :=
  match p with
  | Do c k => let '(s, r) := handler _ c now s in Some (s, resume k r)
  | _ => None
  end.

(** A program that runs alone, at one instant. *)
Fixpoint run {A} (p : prog E A) (now : Date) (s : S) : S * result A :=
  match p with
  | Ret a => (s, Ok a)
  | Fail e => (s, Throw e)
  | Do c k =>
      match handler _ c now s with (s, Ok x) => run (k x) now s | (s, Throw e) => (s, Throw e) end
  end.

Lemma run_bind_prog {A B} (p : prog E A) (f : A → prog E B) now s :
  run (p ≫= f) now s = match run p now s with (s, Ok a) => run (f a) now s | (s, Throw e) => (s, Throw e) end.
Proof.
  revert s. induction p as [a|e|X c k IH]; intros s; [done|done|]. cbn.
  destruct (handler X c now s) as [s' [x|e]]; [apply IH|done].
Qed.

(** *** Replicas side by side *)

Record config (A : Type) := mkConfig { clock : Date; memory : S; pool : list (prog E A) }.
Arguments mkConfig {_} _ _ _.
Arguments clock {_} _.
Arguments memory {_} _.
Arguments pool {_} _.

(** One program of the pool executes its next command, or time passes. *)
Inductive interleave {A} : config A → config A → Prop :=
  | il_step now s pool i p s' p' :
      pool !! i = Some p → advance p now s = Some (s', p') →
      interleave (mkConfig now s pool) (mkConfig now s' (<[i := p']> pool))
  | il_tick now now' s pool :
      now ≤ now' → interleave (mkConfig now s pool) (mkConfig now' s pool).

(** A program that runs alone is one of the interleavings. *)
Lemma run_interleaves {A} (p : prog E A) now s pool i :
  pool !! i = Some p →
  rtc interleave (mkConfig now s pool)
    (mkConfig now (run p now s).1 (<[i := match (run p now s).2 with Ok a => Ret a | Throw e => Fail e end]> pool)).
Proof.
  revert s pool. induction p as [a|e|X c k IH]; intros s pool Hi; [cbn; rewrite list_insert_id by done; apply rtc_refl..|].
  assert (i < length pool)%nat as Hlt by by eapply lookup_lt_Some.
  cbn. destruct (handler X c now s) as [s' r] eqn:E1.
  eapply rtc_l; [eapply il_step; [exact Hi|cbn; rewrite E1; reflexivity]|].
  destruct r as [x|e]; cbn [resume]; [|apply rtc_refl].
  pose proof (IH x s' (<[i := k x]> pool)) as H. rewrite list_insert_insert_eq in H. apply H.
  by apply list_lookup_insert_eq.
Qed.

(** A prefix of a program, run alone. *)
Lemma prefix_interleaves {A B} (q : prog E A) (f : A → prog E B) now s s' a pool i :
  pool !! i = Some (q ≫= f) → run q now s = (s', Ok a) →
  rtc interleave (mkConfig now s pool) (mkConfig now s' (<[i := f a]> pool)).
Proof.
  revert s pool. induction q as [x|e|X c k IH]; intros s pool Hi Hrun; cbn in Hrun.
  - injection Hrun as -> ->. cbn in Hi. rewrite list_insert_id by done. apply rtc_refl.
  - discriminate Hrun.
  - destruct (handler X c now s) as [s1 r] eqn:Eh. destruct r as [x|e]; [|discriminate Hrun].
    assert (i < length pool)%nat as Hlt by by eapply lookup_lt_Some.
    eapply rtc_l; [eapply il_step; [exact Hi|cbn; rewrite Eh; reflexivity]|]. cbn [resume].
    pose proof (IH x s1 (<[i := k x ≫= f]> pool)) as H. rewrite list_insert_insert_eq in H. apply H; [|done].
    by apply list_lookup_insert_eq.
Qed.
End semantics.

Arguments mkConfig {_ _ _} _ _ _.
Arguments clock {_ _ _} _.
Arguments memory {_ _ _} _.
Arguments pool {_ _ _} _.

(** ** What a command does to a key *)

Section facts.
Context {K V : Type} `{Countable K, Numeric V}.
Implicit Types (s : gmap K (cell V)) (k j : K).

Lemma find_insert now k c s : find now k (<[k := c]> s) = if live now c then Some c else None.
Proof. unfold find. by rewrite lookup_insert_eq. Qed.

Lemma find_insert_ne now k j c s : k ≠ j → find now k (<[j := c]> s) = find now k s.
Proof. intros. unfold find. by rewrite lookup_insert_ne. Qed.

Lemma find_delete now k s : find now k (delete k s) = None.
Proof. unfold find. by rewrite lookup_delete_eq. Qed.

Lemma find_delete_ne now k j s : k ≠ j → find now k (delete j s) = find now k s.
Proof. intros. unfold find. by rewrite lookup_delete_ne. Qed.

Lemma find_later now now' k s c : now ≤ now' → find now' k s = Some c → find now k s = Some c.
Proof.
  intros Ht. unfold find. destruct (s !! k) as [c'|]; [|done]. unfold live. intros Hf.
  destruct (expiresAt c') as [e|]; [|done]. destruct (Z.ltb_spec now' e); [|done]. by destruct (Z.ltb_spec now e); [|lia].
Qed.
End facts.
