(* ===== verification/Breaker.v ===== *)
(** * The circuit breaker of the payment providers

    [redis-circuit-breaker.service.ts] and [merchant-psp-exposure.service.ts]:
    programs over the Redis that all replicas share. Commands that the code
    issues together ([Promise.all], pipelines) are issued in their order; the
    commands of other replicas may come between them. *)

From S2P Require Import Prelude JsNumber Policies Routing Redis.

(** ** Keys and values *)

Inductive MetricField := success | total | latencyMs.

(** The last part of [circuit:${provider}:${field}]. *)
Inductive Field :=
  | state
  | failureCount
  | lastFailureTime
  | recentCallCount
  | slowCallCount
  | halfOpenTrialCount
  | bucket (epochMinute : Z) (field : MetricField).

Inductive Key :=
  | circuit (provider : string) (field : Field)
  | routing (merchantId provider : string).

Inductive Val := VState (s : CircuitBreakerState) | VNum (n : Z).

#[global] Instance MetricField_eq_dec : EqDecision MetricField.
Proof. solve_decision. Defined.
#[global] Instance Field_eq_dec : EqDecision Field.
Proof. solve_decision. Defined.
#[global] Instance Key_eq_dec : EqDecision Key.
Proof. solve_decision. Defined.
#[global] Instance Val_eq_dec : EqDecision Val.
Proof. solve_decision. Defined.

#[global] Instance MetricField_countable : Countable MetricField.
Proof.
  refine (inj_countable' (λ f, match f with success => 0%nat | total => 1%nat | latencyMs => 2%nat end)
    (λ n, match n with 0%nat => success | 1%nat => total | _ => latencyMs end) _).
  by intros [].
Defined.

#[global] Instance Field_countable : Countable Field.
Proof.
  refine (inj_countable'
    (λ f, match f with
          | state => inl 0%nat | failureCount => inl 1%nat | lastFailureTime => inl 2%nat | recentCallCount => inl 3%nat
          | slowCallCount => inl 4%nat | halfOpenTrialCount => inl 5%nat | bucket e f => inr (e, f)
          end)
    (λ x, match x with
          | inl 0%nat => state | inl 1%nat => failureCount | inl 2%nat => lastFailureTime | inl 3%nat => recentCallCount
          | inl 4%nat => slowCallCount | inl _ => halfOpenTrialCount | inr (e, f) => bucket e f
          end) _).
  by intros [].
Defined.

#[global] Instance Key_countable : Countable Key.
Proof.
  refine (inj_countable' (λ k, match k with circuit p f => inl (p, f) | routing m p => inr (m, p) end)
    (λ x, match x with inl (p, f) => circuit p f | inr (m, p) => routing m p end) _).
  by intros [].
Defined.

#[global] Instance Val_numeric : Numeric Val :=
  {| of_num := VNum; to_num v := match v with VNum n => Some n | VState _ => None end |}.

Abbreviation cache := (gmap Key (cell Val)).
Abbreviation P := (prog (command Key Val)).

Definition get (k : Key) : P (option Val) := call (GET k).
Definition set (k : Key) (v : Val) : P unit := call (SET k v None).
Definition del (k : Key) : P unit := call (DEL k).
Definition incrby (k : Key) (n : Z) : P Z := call (INCRBY k n).
Definition incr (k : Key) : P Z := incrby k 1.
Definition expire (k : Key) (ttl : Z) : P unit := call (EXPIRE k ttl).
Definition now_ : P Date := call NOW.

(** A number read back, [null] and [NaN] counting as 0. *)
Definition number_or_0 (v : option Val) : Z := match v with Some (VNum n) => n | _ => 0 end.

Module RedisCircuitBreakerService.

Definition FAILURE_THRESHOLD : Z := 5.
Definition RECOVERY_TIME_MS : Z := 30000.
Definition HALF_OPEN_TRIAL_CALLS : Z := 1.
Definition SLOW_CALL_THRESHOLD_MS : Z := 5000.
Definition SLOW_CALL_MIN_CALLS : Z := 5.
Definition SLOW_CALL_RATE_THRESHOLD : number := Num.lit 1 2.
Definition FAILURE_WINDOW_SECONDS : Z := 60.
Definition METRICS_BUCKET_SECONDS : Z := 60.
Definition METRICS_WINDOW_MINUTES : Z := 15.
Definition METRICS_BUCKET_TTL_SECONDS : Z := (METRICS_WINDOW_MINUTES + 5) * 60.

Record CircuitMetrics := mkCircuitMetrics {
  cm_state : CircuitBreakerState;
  cm_successCount : Z;
  cm_totalRequests : Z;
  cm_avgLatencyMs : number }.

(** [Math.floor(now / (METRICS_BUCKET_SECONDS * 1000))] *)
Definition epochMinute (now : Date) : Z := now / (METRICS_BUCKET_SECONDS * 1000).
Definition currentEpochMinute : P Z := now ← now_; mret (epochMinute now).

Section breaker.
Context (provider : string).
Abbreviation key := (circuit provider).

Definition incrBucket (k : Key) (by_ : Z) : P unit :=
  _ ← incrby k by_;
  expire k METRICS_BUCKET_TTL_SECONDS.

Definition hasRecoveryWindowElapsed : P bool :=
  t ← get (key lastFailureTime);
  now ← now_;
  mret (match t with Some (VNum t) => negb (t =? 0) && (RECOVERY_TIME_MS <? now - t) | _ => false end).

(** The state as read, a missing key being CLOSED. *)
Definition stored_state (v : option Val) : Val := nullish v (VState CLOSED).

Definition computeEffectiveState : P Val :=
  v ← get (key state);
  if bool_decide (stored_state v = VState OPEN) then
    elapsed ← hasRecoveryWindowElapsed;
    mret (if elapsed : bool then VState HALF_OPEN else stored_state v)
  else mret (stored_state v).

(** The trial budget of a HALF_OPEN episode, once INCR has answered. *)
Definition claimed (trialNumber : Z) : P unit :=
  _ ← (if trialNumber =? 1 then expire (key halfOpenTrialCount) (RECOVERY_TIME_MS / 1000) else mret tt);
  if HALF_OPEN_TRIAL_CALLS <? trialNumber then Fail (CircuitOpen provider) else mret tt.

Definition claimTrial : P unit :=
  trialNumber ← incr (key halfOpenTrialCount);
  claimed trialNumber.

Definition assertAvailable : P unit :=
  v ← get (key state);
  if bool_decide (stored_state v = VState CLOSED) then mret tt
  else if bool_decide (stored_state v = VState OPEN) then
    elapsed ← hasRecoveryWindowElapsed;
    if negb elapsed then Fail (CircuitOpen provider)
    else
      _ ← set (key state) (VState HALF_OPEN);
      claimTrial
  else claimTrial.

(** [slowCallCount / recentCallCount >= SLOW_CALL_RATE_THRESHOLD] *)
Definition slowRateReached (slow : option Val) (recent : Z) : bool :=
  match slow with
  | Some (VState _) => false
  | _ => Num.geb (Num.div (Num.of_bigint (number_or_0 slow)) (Num.of_bigint recent)) SLOW_CALL_RATE_THRESHOLD
  end.

Definition recordSlowCallSample (latency : Z) : P unit :=
  let isSlow := SLOW_CALL_THRESHOLD_MS <? latency in
  recent ← incr (key recentCallCount);
  _ ← expire (key recentCallCount) FAILURE_WINDOW_SECONDS;
  _ ← (if isSlow then incr (key slowCallCount) else mret 0);
  _ ← (if isSlow then expire (key slowCallCount) FAILURE_WINDOW_SECONDS else mret tt);
  if recent <? SLOW_CALL_MIN_CALLS then mret tt
  else
    slow ← get (key slowCallCount);
    if slowRateReached slow recent then
      _ ← set (key state) (VState OPEN);
      now ← now_;
      set (key lastFailureTime) (VNum now)
    else mret tt.

Definition recordSuccess (latency : Z) : P unit :=
  epoch ← currentEpochMinute;
  _ ← incrBucket (key (bucket epoch success)) 1;
  _ ← incrBucket (key (bucket epoch total)) 1;
  _ ← incrBucket (key (bucket epoch latencyMs)) latency;
  v ← get (key state);
  if bool_decide (v = Some (VState HALF_OPEN)) then
    _ ← set (key state) (VState CLOSED);
    _ ← set (key failureCount) (VNum 0);
    _ ← set (key recentCallCount) (VNum 0);
    _ ← set (key slowCallCount) (VNum 0);
    del (key halfOpenTrialCount)
  else recordSlowCallSample latency.

Definition recordFailure : P unit :=
  epoch ← currentEpochMinute;
  before ← get (key state);
  count ← incr (key failureCount);
  _ ← expire (key failureCount) FAILURE_WINDOW_SECONDS;
  _ ← incrBucket (key (bucket epoch total)) 1;
  now ← now_;
  _ ← set (key lastFailureTime) (VNum now);
  if bool_decide (before = Some (VState HALF_OPEN)) || (FAILURE_THRESHOLD <=? count) then
    _ ← set (key state) (VState OPEN);
    del (key halfOpenTrialCount)
  else mret tt.

(** The pipeline of [getMetrics] and the sums over its answers. *)
Fixpoint sumBuckets (epochs : list Z) (acc : Z * Z * Z) : P (Z * Z * Z) :=
  match epochs with
  | [] => mret acc
  | epoch :: epochs =>
      s ← get (key (bucket epoch success));
      t ← get (key (bucket epoch total));
      l ← get (key (bucket epoch latencyMs));
      let '(successCount, totalRequests, totalLatencyMs) := acc in
      sumBuckets epochs
        (successCount + number_or_0 s, totalRequests + number_or_0 t, totalLatencyMs + number_or_0 l)
  end.

Definition windowEpochs (currentEpoch : Z) : list Z :=
  (λ i : nat, currentEpoch - Z.of_nat i) <$> seq 0 (Z.to_nat METRICS_WINDOW_MINUTES).

Definition getMetrics : P CircuitMetrics :=
  v ← computeEffectiveState;
  currentEpoch ← currentEpochMinute;
  '(successCount, totalRequests, totalLatencyMs) ← sumBuckets (windowEpochs currentEpoch) (0, 0, 0);
  mret (mkCircuitMetrics (match v with VState s => s | VNum _ => CLOSED end) successCount totalRequests
          (if 0 <? totalRequests then Num.div (Num.of_bigint totalLatencyMs) (Num.of_bigint totalRequests)
           else Num.of_bigint 0)).

Definition isAvailable : P bool :=
  v ← computeEffectiveState;
  mret (negb (bool_decide (v = VState OPEN))).

Definition resetCircuit : P unit :=
  _ ← set (key state) (VState CLOSED);
  _ ← set (key failureCount) (VNum 0);
  _ ← set (key recentCallCount) (VNum 0);
  _ ← set (key slowCallCount) (VNum 0);
  _ ← del (key halfOpenTrialCount);
  del (key lastFailureTime).

End breaker.
End RedisCircuitBreakerService.

Module MerchantPspExposureService.

Definition ROUTING_HISTORY_WINDOW_SECONDS : Z := 60.
Definition ROUTING_HISTORY_MIN_SAMPLES : Z := 3.
Definition DEGRADED_CONCENTRATION_THRESHOLD : number := Num.lit 1 2.

Definition recordRouting (merchantId provider : string) : P unit :=
  _ ← incr (routing merchantId provider);
  expire (routing merchantId provider) ROUTING_HISTORY_WINDOW_SECONDS.

Fixpoint readCounts (merchantId : string) (providers : list string) : P (list (string * Z)) :=
  match providers with
  | [] => mret []
  | provider :: providers =>
      v ← get (routing merchantId provider);
      counts ← readCounts merchantId providers;
      mret ((provider, number_or_0 v) :: counts)
  end.

Fixpoint sumDegraded (counts : list (string * Z)) (degradedCount : Z) : P Z :=
  match counts with
  | [] => mret degradedCount
  | (provider, count) :: counts =>
      if count =? 0 then sumDegraded counts degradedCount
      else
        metrics ← RedisCircuitBreakerService.getMetrics provider;
        sumDegraded counts
          (match RedisCircuitBreakerService.cm_state metrics with
           | OPEN | HALF_OPEN => degradedCount + count
           | CLOSED => degradedCount
           end)
  end.

Definition isExposedToDegradedPsp (merchantId : string) (providers : list string) : P bool :=
  counts ← readCounts merchantId providers;
  let total := sumZ snd counts in
  if total <? ROUTING_HISTORY_MIN_SAMPLES then mret false
  else
    degradedCount ← sumDegraded counts 0;
    mret (Num.geb (Num.div (Num.of_bigint degradedCount) (Num.of_bigint total)) DEGRADED_CONCENTRATION_THRESHOLD).

End MerchantPspExposureService.
