(* ===== verification/BreakerCorrect.v ===== *)
(** * The circuit breaker: sequential behaviour, races, metrics

    One call of the breaker, run alone, is an update of a few cells; its
    invariant gives recovery, and a log of the calls gives the meaning of the
    counters. Run side by side, the calls keep the trial budget, but two races
    and a lost command leave a provider shut out for good. *)

From S2P Require Import Prelude JsNumber Policies Routing Redis Breaker.
Import RedisCircuitBreakerService.

Abbreviation runs p now s := (run (λ X, @exec Key Val _ _ _ X) p now s).

(** ** Well-formed caches *)

(** What a key may hold. *)
Definition typed (k : Key) (c : cell Val) : Prop :=
  match k with
  | circuit _ state => ∃ x, c = mkCell (VState x) None
  | circuit _ lastFailureTime => ∃ t, c = mkCell (VNum t) None
  | _ => ∃ n e, c = mkCell (VNum n) e
  end.

Definition wf (s : cache) : Prop := map_Forall typed s.

Definition count (now : Date) (k : Key) (s : cache) : Z := number_or_0 (peek now k s).

(** [INCRBY], and [INCRBY] followed by [EXPIRE]. *)
Definition bump (now : Date) (k : Key) (n : Z) (s : cache) : cache :=
  <[k := mkCell (VNum (count now k s + n)) (find now k s ≫= expiresAt)]> s.
Definition touch (now : Date) (k : Key) (n ttl : Z) (s : cache) : cache :=
  <[k := mkCell (VNum (count now k s + n)) (deadline now ttl)]> s.

(** A key that only ever holds a number. *)
Definition counter (k : Key) : Prop :=
  match k with circuit _ state | circuit _ lastFailureTime => False | _ => True end.

Lemma counter_typed k n e : counter k → typed k (mkCell (VNum n) e).
Proof. destruct k as [p []|]; cbn; naive_solver. Qed.

Lemma wf_insert k c s : typed k c → wf s → wf (<[k := c]> s).
Proof. intros. by apply map_Forall_insert_2. Qed.
Lemma wf_delete k s : wf s → wf (delete k s).
Proof. apply map_Forall_delete. Qed.
Lemma wf_touch now k n ttl s : counter k → wf s → wf (touch now k n ttl s).
Proof. intros. apply wf_insert; [by apply counter_typed|done]. Qed.
Lemma wf_bump now k n s : counter k → wf s → wf (bump now k n s).
Proof. intros. apply wf_insert; [by apply counter_typed|done]. Qed.

Lemma wf_counter now k s c : counter k → wf s → find now k s = Some c → ∃ n, value c = VNum n.
Proof.
  intros Hk Hwf. unfold find. destruct (s !! k) as [c'|] eqn:E; [|done]. destruct (live now c'); [|done].
  intros [= <-]. pose proof (map_Forall_lookup_1 _ _ _ _ Hwf E) as Ht. destruct k as [p []|]; cbn in *; naive_solver.
Qed.

Lemma exec_incrby now k n s : counter k → wf s →
  exec (INCRBY k n) now s = (bump now k n s, Ok (count now k s + n)).
Proof.
  intros Hk Hwf. cbn. unfold bump, count, peek. destruct (find now k s) as [c|] eqn:E; cbn; [|done].
  destruct (wf_counter now k s c Hk Hwf E) as [m ->]. done.
Qed.

Lemma find_bump now k n s : live now (mkCell (VNum (count now k s + n)) (find now k s ≫= expiresAt)) = true.
Proof.
  unfold live. cbn. destruct (find now k s) as [c|] eqn:E; cbn; [|done]. unfold find in E.
  destruct (s !! k) as [c'|]; [|done]. destruct (live now c') eqn:El; [|done]. injection E as <-.
  unfold live in El. destruct (expiresAt c'); [done|done].
Qed.

Lemma exec_expire_bump now k n ttl s :
  exec (EXPIRE k ttl) now (bump now k n s) = (touch now k n ttl s, Ok tt).
Proof.
  cbn. unfold bump at 1. rewrite find_insert, find_bump. cbn. unfold touch, bump. by rewrite insert_insert_eq.
Qed.

(** ** Running the operations *)

Section runs.
Context (provider : string).
Abbreviation key := (circuit provider).

Lemma run_ret {A B} (a : A) (f : A → P B) now s : runs (mret a ≫= f) now s = runs (f a) now s.
Proof. done. Qed.
Lemma run_get {A} k (f : option Val → P A) now s : runs (get k ≫= f) now s = runs (f (peek now k s)) now s.
Proof. done. Qed.
Lemma run_set {A} k v (f : unit → P A) now s : runs (set k v ≫= f) now s = runs (f tt) now (<[k := mkCell v None]> s).
Proof. done. Qed.
Lemma run_del {A} k (f : unit → P A) now s : runs (del k ≫= f) now s = runs (f tt) now (delete k s).
Proof. done. Qed.
Lemma run_now {A} (f : Date → P A) now s : runs (now_ ≫= f) now s = runs (f now) now s.
Proof. done. Qed.
Lemma run_epoch {A} (f : Z → P A) now s : runs (currentEpochMinute ≫= f) now s = runs (f (epochMinute now)) now s.
Proof. done. Qed.
Lemma run_incr {A} k n (f : Z → P A) now s : counter k → wf s →
  runs (incrby k n ≫= f) now s = runs (f (count now k s + n)) now (bump now k n s).
Proof. intros Hk Hwf. cbn -[exec]. by rewrite exec_incrby. Qed.
Lemma run_expire {A} k n ttl (f : unit → P A) now s :
  runs (expire k ttl ≫= f) now (bump now k n s) = runs (f tt) now (touch now k n ttl s).
Proof. cbn -[exec]. by rewrite exec_expire_bump. Qed.
Lemma run_bucket {A} k n (f : unit → P A) now s : counter k → wf s →
  runs (incrBucket k n ≫= f) now s = runs (f tt) now (touch now k n METRICS_BUCKET_TTL_SECONDS s).
Proof. intros Hk Hwf. rewrite run_bind_prog. unfold incrBucket. rewrite run_incr by done. cbn -[exec]. by rewrite exec_expire_bump. Qed.
Lemma run_incr_expire {A} k n ttl (f : Z → P A) now s : counter k → wf s →
  runs (x ← incrby k n; _ ← expire k ttl; f x) now s = runs (f (count now k s + n)) now (touch now k n ttl s).
Proof. intros Hk Hwf. rewrite run_incr by done. by rewrite run_expire. Qed.

Lemma count_touch_ne now t k j n ttl s : k ≠ j → count now k (touch t j n ttl s) = count now k s.
Proof. intros. unfold count, peek, touch. by rewrite find_insert_ne. Qed.
Lemma peek_touch_ne now t k j n ttl s : k ≠ j → peek now k (touch t j n ttl s) = peek now k s.
Proof. intros. unfold peek, touch. by rewrite find_insert_ne. Qed.
Lemma lookup_touch_ne t k j n ttl s : k ≠ j → touch t j n ttl s !! k = s !! k.
Proof. intros. unfold touch. by rewrite lookup_insert_ne. Qed.

(** What [recordFailure] writes. *)
Definition after_failure (now : Date) (s : cache) : cache :=
  let s1 := touch now (key failureCount) 1 FAILURE_WINDOW_SECONDS s in
  let s2 := touch now (key (bucket (epochMinute now) total)) 1 METRICS_BUCKET_TTL_SECONDS s1 in
  let s3 := <[key lastFailureTime := mkCell (VNum now) None]> s2 in
  if bool_decide (peek now (key state) s = Some (VState HALF_OPEN))
     || (FAILURE_THRESHOLD <=? count now (key failureCount) s + 1)
  then delete (key halfOpenTrialCount) (<[key state := mkCell (VState OPEN) None]> s3)
  else s3.

Lemma run_failure now s : wf s → runs (recordFailure provider) now s = (after_failure now s, Ok tt).
Proof.
  intros Hwf. unfold recordFailure, incr. rewrite run_epoch.
  rewrite run_get, run_incr_expire by done. rewrite run_bucket; [|done|by apply wf_touch].
  rewrite run_now, run_set. unfold after_failure. cbv zeta.
  destruct (bool_decide _ || _); reflexivity.
Qed.

(** [slowCallCount / recentCallCount >= 0.5] in binary64 is exact. *)
Lemma rate_exact a b : 0 ≤ a ≤ 2 ^ 53 → 0 < b ≤ 2 ^ 53 →
  Num.geb (Num.div (Num.of_bigint a) (Num.of_bigint b)) (Num.lit 1 2) = (b <=? 2 * a).
Proof.
  intros Ha Hb. rewrite Num.div_of_bigint by lia. unfold Num.lit. pose proof Num.one_pos as H1. pose proof Num.half_one as H2.
  assert (Num.rnd_pos (1 * Num.one) 2 = Num.half) as Ehalf.
  { replace (1 * Num.one) with (Num.half * 2) by lia. apply Num.rnd_pos_exact; [lia| |lia].
    replace Num.half with (1 * 2 ^ 1073) by (unfold Num.half; lia). apply Num.repr_of_small; lia. }
  rewrite (Num.mk_bounded (a * Num.one) b a), (Num.mk_bounded (1 * Num.one) 2 1), Ehalf by nia.
  unfold Num.geb, Num.leb, Num.compare.
  destruct (Z.leb_spec b (2 * a)) as [Hle|Hlt].
  - assert (Num.half ≤ Num.rnd_pos (a * Num.one) b) as Hge.
    { apply Num.rnd_pos_ge; [lia| |lia|nia].
      replace Num.half with (1 * 2 ^ 1073) by (unfold Num.half; lia). apply Num.repr_of_small; lia. }
    destruct (Z.compare_spec Num.half (Num.rnd_pos (a * Num.one) b)); [done|done|lia].
  - assert (Num.half = 2 ^ 53 * 2 ^ 1020) as E53 by (unfold Num.half; rewrite <- Z.pow_add_r by lia; done).
    assert (0 < 2 ^ 1020) as Hp by (apply Num.pow2_pos; lia).
    assert (Num.rnd_pos (a * Num.one) b ≤ (2 ^ 53 - 1) * 2 ^ 1020) as Hl.
    { apply Num.rnd_pos_le; [lia|nia|apply Num.repr_of_small; lia|]. nia. }
    destruct (Z.compare_spec Num.half (Num.rnd_pos (a * Num.one) b)); [nia|nia|done].
Qed.

Definition after_sample (now : Date) (latency : Z) (s : cache) : cache :=
  let recent := count now (key recentCallCount) s + 1 in
  let s1 := touch now (key recentCallCount) 1 FAILURE_WINDOW_SECONDS s in
  let s2 := if SLOW_CALL_THRESHOLD_MS <? latency then touch now (key slowCallCount) 1 FAILURE_WINDOW_SECONDS s1 else s1 in
  if recent <? SLOW_CALL_MIN_CALLS then s2
  else if slowRateReached (peek now (key slowCallCount) s2) recent
  then <[key lastFailureTime := mkCell (VNum now) None]> (<[key state := mkCell (VState OPEN) None]> s2)
  else s2.

Lemma run_sample now latency s : wf s → runs (recordSlowCallSample provider latency) now s = (after_sample now latency s, Ok tt).
Proof.
  intros Hwf. unfold recordSlowCallSample, incr. cbv zeta. rewrite run_incr_expire by done.
  unfold after_sample. cbv zeta. destruct (SLOW_CALL_THRESHOLD_MS <? latency).
  - rewrite (run_incr_expire (key slowCallCount) 1 FAILURE_WINDOW_SECONDS (λ _, _)) by (done || by apply wf_touch).
    destruct (_ <? SLOW_CALL_MIN_CALLS); [done|]. rewrite run_get. by destruct (slowRateReached _ _).
  - rewrite !run_ret.
    destruct (_ <? SLOW_CALL_MIN_CALLS); [done|]. rewrite run_get. by destruct (slowRateReached _ _).
Qed.

(** The metric buckets of a successful call. *)
Definition measured (now : Date) (latency : Z) (s : cache) : cache :=
  let b f := key (bucket (epochMinute now) f) in
  touch now (b latencyMs) latency METRICS_BUCKET_TTL_SECONDS
    (touch now (b total) 1 METRICS_BUCKET_TTL_SECONDS (touch now (b success) 1 METRICS_BUCKET_TTL_SECONDS s)).

Definition zero : cell Val := mkCell (VNum 0) None.

Definition closed (s : cache) : cache :=
  delete (key halfOpenTrialCount) (<[key slowCallCount := zero]> (<[key recentCallCount := zero]>
    (<[key failureCount := zero]> (<[key state := mkCell (VState CLOSED) None]> s)))).

Definition after_success (now : Date) (latency : Z) (s : cache) : cache :=
  if bool_decide (peek now (key state) s = Some (VState HALF_OPEN)) then closed (measured now latency s)
  else after_sample now latency (measured now latency s).

Lemma wf_measured now latency s : wf s → wf (measured now latency s).
Proof. intros. by repeat apply wf_touch. Qed.

Lemma run_success now latency s : wf s → runs (recordSuccess provider latency) now s = (after_success now latency s, Ok tt).
Proof.
  intros Hwf. unfold recordSuccess. rewrite run_epoch.
  rewrite !run_bucket by (done || by repeat apply wf_touch). rewrite run_get, !peek_touch_ne by done.
  unfold after_success. destruct (bool_decide _); [reflexivity|]. by apply run_sample, wf_measured.
Qed.

Definition after_reset (s : cache) : cache := delete (key lastFailureTime) (closed s).

Lemma run_reset now s : runs (resetCircuit provider) now s = (after_reset s, Ok tt).
Proof. done. Qed.

(** The trial budget. *)
Definition claim (now : Date) (s : cache) : cache * result unit :=
  let n := count now (key halfOpenTrialCount) s + 1 in
  (if n =? 1 then touch now (key halfOpenTrialCount) 1 (RECOVERY_TIME_MS / 1000) s else bump now (key halfOpenTrialCount) 1 s,
   if 1 <? n then Throw (CircuitOpen provider) else Ok tt).

Lemma run_claim now s : wf s → runs (claimTrial provider) now s = claim now s.
Proof.
  intros Hwf. unfold claimTrial, incr. rewrite run_incr by done. unfold claim, claimed, HALF_OPEN_TRIAL_CALLS.
  destruct (Z.eqb_spec (count now (key halfOpenTrialCount) s + 1) 1) as [E|E].
  - rewrite run_expire, E. done.
  - rewrite run_ret. by destruct (1 <? _).
Qed.

(** The recovery window, as [hasRecoveryWindowElapsed] reads it. *)
Definition elapsed (now : Date) (s : cache) : bool :=
  match peek now (key lastFailureTime) s with Some (VNum t) => negb (t =? 0) && (RECOVERY_TIME_MS <? now - t) | _ => false end.

Definition after_assert (now : Date) (s : cache) : cache * result unit :=
  match stored_state (peek now (key state) s) with
  | VState CLOSED => (s, Ok tt)
  | VState OPEN =>
      if elapsed now s then claim now (<[key state := mkCell (VState HALF_OPEN) None]> s)
      else (s, Throw (CircuitOpen provider))
  | _ => claim now s
  end.

Lemma run_assert now s : wf s → runs (assertAvailable provider) now s = after_assert now s.
Proof.
  intros Hwf. unfold assertAvailable, after_assert. rewrite run_get.
  destruct (stored_state _) as [[]|n]; [done| |by apply run_claim|by apply run_claim].
  rewrite bool_decide_eq_false_2, bool_decide_eq_true_2 by done. unfold hasRecoveryWindowElapsed.
  rewrite run_bind_prog, run_get, run_now. cbn [run mret prog_ret]. fold (elapsed now s).
  destruct (elapsed now s); cbn [negb]; [|done].
  rewrite run_set. apply run_claim. apply wf_insert; [by eexists|done].
Qed.
End runs.

(** ** Histories of calls *)

Inductive op := Assert | Success (latency : Z) | Failure | Reset.

Definition program (provider : string) (o : op) : P unit :=
  match o with
  | Assert => assertAvailable provider
  | Success latency => recordSuccess provider latency
  | Failure => recordFailure provider
  | Reset => resetCircuit provider
  end.

(** A call that runs alone, for any provider, and the time it runs at. *)
Inductive serve : Date * cache → Date * cache → Prop :=
  | sv_call provider o now now' s : now ≤ now' →
      serve (now, s) (now', (runs (program provider o) now' s).1).

(** Its effect, in closed form. *)
Definition served (provider : string) (o : op) (now : Date) (s : cache) : cache :=
  match o with
  | Assert => (after_assert provider now s).1
  | Success latency => after_success provider now latency s
  | Failure => after_failure provider now s
  | Reset => after_reset provider s
  end.

Lemma run_program provider o now s : wf s → (runs (program provider o) now s).1 = served provider o now s.
Proof.
  intros Hwf. destruct o; cbn [program served].
  - by rewrite run_assert.
  - by rewrite run_success.
  - by rewrite run_failure.
  - done.
Qed.

Ltac look :=
  repeat first [ rewrite lookup_insert_eq | rewrite lookup_insert_ne by (discriminate || congruence)
               | rewrite lookup_delete_eq | rewrite lookup_delete_ne by (discriminate || congruence) ].

Ltac open_ops :=
  unfold after_failure, after_success, after_sample, after_assert, after_reset, claim, closed, measured, touch, bump; cbv zeta.

(** The well-formedness of the cache is kept. *)
Lemma wf_state s k x : wf s → typed k (mkCell x None) → wf (<[k := mkCell x None]> s).
Proof. intros. by apply wf_insert. Qed.

Ltac solve_wf :=
  repeat first [ apply wf_delete | apply wf_touch; [done|] | apply wf_bump; [done|] | apply wf_insert; [by repeat eexists|] ]; try done.

Lemma wf_served provider o now s : wf s → wf (served provider o now s).
Proof.
  intros Hwf. destruct o; cbn [served].
  - unfold after_assert, claim. repeat case_match; cbn [fst]; solve_wf.
  - unfold after_success, closed, after_sample, measured. cbv zeta. repeat case_match; solve_wf.
  - unfold after_failure. cbv zeta. case_match; solve_wf.
  - unfold after_reset, closed. solve_wf.
Qed.

(** A call touches the keys of its provider only. *)
Lemma served_frame provider q o now s f : q ≠ provider →
  served provider o now s !! circuit q f = s !! circuit q f.
Proof.
  intros Hq. destruct o; cbn [served]; open_ops; repeat case_match; cbn [fst]; by look.
Qed.

(** ** Recovery *)

Record shape (now : Date) (s : cache) (p : string) : Prop := {
  sh_open : s !! circuit p state = Some (mkCell (VState OPEN) None) →
    ∃ t, s !! circuit p lastFailureTime = Some (mkCell (VNum t) None) ∧ 0 < t ≤ now;
  sh_trial c : s !! circuit p halfOpenTrialCount = Some c →
    ∃ n e, c = mkCell (VNum n) (Some e) ∧ e ≤ now + RECOVERY_TIME_MS }.

Definition sound (w : Date * cache) : Prop := 0 < w.1 ∧ wf w.2 ∧ ∀ p, shape w.1 w.2 p.

Lemma shape_later now now' s p : now ≤ now' → shape now s p → shape now' s p.
Proof.
  intros Ht [Ho Htr]. split.
  - intros H. destruct (Ho H) as (t & ? & ?). exists t. split; [done|lia].
  - intros c H. destruct (Htr c H) as (n & e & ? & ?). exists n, e. split; [done|lia].
Qed.

Lemma shape_frame now s s' p : (∀ f, s' !! circuit p f = s !! circuit p f) → shape now s p → shape now s' p.
Proof. intros E [Ho Htr]. split; rewrite !E; done. Qed.

(** A claimed trial is due to expire. *)
Lemma claim_trial p now s c : 0 < now → shape now s p → (claim p now s).1 !! circuit p halfOpenTrialCount = Some c →
  ∃ n e, c = mkCell (VNum n) (Some e) ∧ e ≤ now + RECOVERY_TIME_MS.
Proof.
  intros Hnow [_ Htr]. unfold claim, touch, bump. cbn [fst]. destruct (Z.eqb_spec (count now (circuit p halfOpenTrialCount) s + 1) 1) as [E|E].
  - rewrite lookup_insert_eq. intros [= <-]. eexists _, _. split; [done|].
    change (RECOVERY_TIME_MS / 1000 * 1000) with RECOVERY_TIME_MS. lia.
  - rewrite lookup_insert_eq. intros [= <-]. unfold count, peek, find in *.
    destruct (s !! circuit p halfOpenTrialCount) as [c'|]; [|done]. destruct (live now c') eqn:El; [|done].
    destruct (Htr c' eq_refl) as (n & e & -> & He). by exists (n + 1), e.
Qed.

Lemma claim_frame p now s f : f ≠ halfOpenTrialCount → (claim p now s).1 !! circuit p f = s !! circuit p f.
Proof. intros Hf. unfold claim, touch, bump. cbn [fst]. case_match; by look. Qed.

(** Marking a provider HALF_OPEN. *)
Lemma shape_half p now s : shape now s p → shape now (<[circuit p state := mkCell (VState HALF_OPEN) None]> s) p.
Proof. intros [Ho Htr]. split; look; [done|exact Htr]. Qed.

Lemma shape_claim p now s : 0 < now → shape now s p → shape now (claim p now s).1 p.
Proof.
  intros Hnow Hs. split.
  - rewrite !claim_frame by done. apply Hs.
  - intros c. by apply claim_trial.
Qed.

Lemma shape_served p o now s : 0 < now → shape now s p → shape now (served p o now s) p.
Proof.
  intros Hnow Hs. destruct o; cbn [served].
  - unfold after_assert. repeat case_match; cbn [fst]; try done; apply shape_claim; try done. by apply shape_half.
  - destruct Hs as [Ho Htr]. unfold after_success, after_sample, closed, measured, touch. cbv zeta.
    repeat case_match; split; look; try done; intros _; exists now; by split.
  - destruct Hs as [Ho Htr]. unfold after_failure, touch. cbv zeta. case_match; split; look; try done; intros _; exists now; by split.
  - split; unfold after_reset, closed; look; done.
Qed.

Lemma sound_serve : invariant serve sound.
Proof.
  intros w w' Hstep. destruct Hstep as [p o now now' s Ht]. intros (Hnow & Hwf & Hs). cbn in *.
  rewrite run_program by done. split_and!; [cbn; lia|by apply wf_served|]. intros q. cbn.
  destruct (decide (q = p)) as [->|Hq].
  - apply shape_served; [lia|]. by eapply shape_later.
  - eapply shape_frame; [intros f; by apply served_frame|]. by eapply shape_later.
Qed.

(** The breaker never shuts a provider out for good. After any history of
    calls that run one after the other, for any providers and with any results,
    the first call of [assertAvailable] that comes more than 30 s later is let
    through, whatever state the circuit was left in: an OPEN circuit has always
    recorded when it opened, and a used trial budget always expires. *)
Theorem breaker_recovers (provider : string) (t0 t now : Date) (s : cache) :
  0 < t0 → rtc serve (t0, ∅) (t, s) → t + RECOVERY_TIME_MS < now →
  (runs (assertAvailable provider) now s).2 = Ok tt.
Proof.
  intros H0 Hrun Hlate.
  assert (sound (t, s)) as (Ht & Hwf & Hs).
  { eapply invariant_rtc; [apply sound_serve|exact Hrun|]. split_and!; [done|apply map_Forall_empty|]. split; done. }
  cbn [fst snd] in Ht, Hwf, Hs. rewrite run_assert by done. destruct (Hs provider) as [Ho Htr]. unfold RECOVERY_TIME_MS in *.
  assert (∀ s', s' !! circuit provider halfOpenTrialCount = s !! circuit provider halfOpenTrialCount →
    (claim provider now s').2 = Ok tt) as Hclaim.
  { intros s' E. unfold claim, count, peek, find. cbn [snd]. rewrite E.
    destruct (s !! circuit provider halfOpenTrialCount) as [c|]; [|done].
    destruct (Htr c eq_refl) as (n & e & -> & He). unfold live. cbn. by destruct (Z.ltb_spec now e); [lia|]. }
  unfold after_assert, peek, find. destruct (s !! circuit provider state) as [c|] eqn:E; [|done].
  destruct (map_Forall_lookup_1 _ _ _ _ Hwf E) as [x ->]. cbn. destruct x; [done| |by apply Hclaim].
  destruct (Ho eq_refl) as (t' & Et & Ht'). unfold elapsed, peek, find. rewrite Et. cbn.
  destruct (Z.eqb_spec t' 0); [lia|]. destruct (Z.ltb_spec RECOVERY_TIME_MS (now - t')); unfold RECOVERY_TIME_MS in *; [|lia].
  apply Hclaim. by look.
Qed.

(** ** Lock-outs *)

(** Calls of [assertAvailable] one after the other, at the times [ts]. *)
Fixpoint asserts (provider : string) (ts : list Date) (s : cache) : list (result unit) :=
  match ts with
  | [] => []
  | t :: ts => let '(s, r) := runs (assertAvailable provider) t s in r :: asserts provider ts s
  end.

(** A state that refuses every call and is kept by refusing. *)
Lemma asserts_refused provider (I : cache → Prop) :
  (∀ now s, I s → (runs (assertAvailable provider) now s).2 = Throw (CircuitOpen provider)
     ∧ I (runs (assertAvailable provider) now s).1) →
  ∀ ts s, I s → Forall (λ r, r = Throw (CircuitOpen provider)) (asserts provider ts s).
Proof.
  intros Hstep. induction ts as [|t ts IH]; intros s Hs; cbn [asserts]; [constructor|].
  destruct (Hstep t s Hs) as [Hr Hs']. destruct (runs (assertAvailable provider) t s) as [s' r]. cbn in *.
  constructor; [exact Hr|by apply IH].
Qed.

(** HALF_OPEN, with a trial budget that is used up and never expires. *)
Definition stuck_half (provider : string) (s : cache) : Prop :=
  wf s ∧ s !! circuit provider state = Some (mkCell (VState HALF_OPEN) None)
  ∧ ∃ n, 1 ≤ n ∧ s !! circuit provider halfOpenTrialCount = Some (mkCell (VNum n) None).

(** OPEN, without the time it opened. *)
Definition stuck_open (provider : string) (s : cache) : Prop :=
  wf s ∧ s !! circuit provider state = Some (mkCell (VState OPEN) None)
  ∧ s !! circuit provider lastFailureTime = None.

Lemma stuck_half_refuses provider now s : stuck_half provider s →
  (runs (assertAvailable provider) now s).2 = Throw (CircuitOpen provider)
  ∧ stuck_half provider (runs (assertAvailable provider) now s).1.
Proof.
  intros (Hwf & Hst & n & Hn & Htr). rewrite run_assert by done.
  unfold after_assert, peek, find. rewrite Hst. cbn [live expiresAt fmap option_fmap option_map value stored_state nullish].
  unfold claim, count, peek, find, bump, touch. rewrite Htr. cbn [live expiresAt fmap option_fmap option_map value number_or_0].
  destruct (Z.eqb_spec (n + 1) 1); [lia|]. destruct (Z.ltb_spec 1 (n + 1)); [|lia]. cbn [fst snd]. split; [done|].
  split_and!; [apply wf_insert; [by repeat eexists|done]|by look|]. exists (n + 1). split; [lia|].
  look. unfold count, peek, find. by rewrite Htr.
Qed.

Lemma stuck_open_refuses provider now s : stuck_open provider s →
  (runs (assertAvailable provider) now s).2 = Throw (CircuitOpen provider)
  ∧ stuck_open provider (runs (assertAvailable provider) now s).1.
Proof.
  intros (Hwf & Hst & Hl). rewrite run_assert by done. unfold after_assert, peek, find. rewrite Hst.
  cbn [live expiresAt fmap option_fmap option_map value stored_state nullish]. unfold elapsed, peek, find. rewrite Hl. done.
Qed.

Section lockouts.
Context (provider : string) (now : Date) (s : cache) (Hwf : wf s).
Abbreviation key := (circuit provider).
Abbreviation together := (interleave (λ X, @exec Key Val _ _ _ X)).

(** The commands of [assertAvailable] up to INCR, on an OPEN circuit whose
    recovery window has elapsed. *)
Lemma claims_alone t : s !! key state = Some (mkCell (VState OPEN) None) →
  s !! key lastFailureTime = Some (mkCell (VNum t) None) → t ≠ 0 → RECOVERY_TIME_MS < now - t →
  s !! key halfOpenTrialCount = None →
  rtc together (mkConfig now s [assertAvailable provider])
    (mkConfig now (<[key halfOpenTrialCount := mkCell (VNum 1) None]> (<[key state := mkCell (VState HALF_OPEN) None]> s))
       [claimed provider 1]).
Proof.
  intros Hst Hl Ht Hlate Htr. unfold assertAvailable.
  etrans; [eapply (prefix_interleaves _ (get (key state)) _ now s s (Some (VState OPEN)) _ 0%nat); [reflexivity|]|].
  { cbn. unfold peek, find. by rewrite Hst. }
  cbn [stored_state nullish list_insert insert]. rewrite bool_decide_eq_false_2, bool_decide_eq_true_2 by done.
  etrans; [eapply (prefix_interleaves _ (hasRecoveryWindowElapsed provider) _ now s s true _ 0%nat); [reflexivity|]|].
  { unfold hasRecoveryWindowElapsed. rewrite run_get, run_now. cbn [run mret prog_ret]. unfold peek, find. rewrite Hl.
    cbn [live expiresAt fmap option_fmap option_map value]. destruct (Z.eqb_spec t 0); [done|].
    by rewrite (proj2 (Z.ltb_lt _ _) Hlate). }
  cbn [negb list_insert insert].
  etrans; [eapply (prefix_interleaves _ (set (key state) (VState HALF_OPEN)) _ now s _ tt _ 0%nat); [reflexivity|reflexivity]|].
  cbn [list_insert insert].
  apply (prefix_interleaves _ (incr (key halfOpenTrialCount)) (claimed provider) now _ _ 1 [claimTrial provider] 0%nat);
    [reflexivity|].
  cbn. unfold find. look. rewrite Htr. reflexivity.
Qed.

(** The commands of [recordFailure] up to the decision. *)
Definition failing : P bool :=
  epoch ← currentEpochMinute;
  before ← get (key state);
  count ← incr (key failureCount);
  _ ← expire (key failureCount) FAILURE_WINDOW_SECONDS;
  _ ← incrBucket (key (bucket epoch total)) 1;
  now ← now_;
  _ ← set (key lastFailureTime) (VNum now);
  mret (bool_decide (before = Some (VState HALF_OPEN)) || (FAILURE_THRESHOLD <=? count)).

Definition tripping (b : bool) : P unit :=
  if b then _ ← set (key state) (VState OPEN); del (key halfOpenTrialCount) else mret tt.

Lemma failure_split : recordFailure provider = (failing ≫= tripping).
Proof. reflexivity. Qed.

Lemma failing_runs : 4 ≤ count now (key failureCount) s → ∃ s', wf s' ∧ runs failing now s = (s', Ok true).
Proof.
  intros H4. unfold failing, incr. rewrite run_epoch, run_get, run_incr_expire by done.
  rewrite run_bucket; [|done|by apply wf_touch]. rewrite run_now, run_set.
  eexists. split; [|cbn [run mret prog_ret]; f_equal; f_equal; apply orb_true_iff; right; apply Z.leb_le; unfold FAILURE_THRESHOLD; lia].
  apply wf_insert; [by eexists|]. by repeat apply wf_touch.
Qed.

(** A reset that runs between the two parts of [recordFailure]. *)
Lemma reset_between : 4 ≤ count now (key failureCount) s →
  ∃ s', rtc together (mkConfig now s [recordFailure provider; resetCircuit provider]) (mkConfig now s' [Ret tt; Ret tt])
    ∧ stuck_open provider s'.
Proof.
  intros H4. destruct (failing_runs H4) as (s1 & Hwf1 & Hrun). rewrite failure_split.
  exists (delete (key halfOpenTrialCount) (<[key state := mkCell (VState OPEN) None]> (after_reset provider s1))). split.
  - etrans; [by apply (prefix_interleaves _ failing tripping now s s1 true _ 0%nat)|]. cbn [list_insert insert].
    etrans; [apply (run_interleaves _ (resetCircuit provider) now s1 _ 1%nat); reflexivity|].
    rewrite run_reset. cbn [fst snd list_insert insert].
    etrans; [apply (run_interleaves _ (tripping true) now _ _ 0%nat); reflexivity|]. cbn. apply rtc_refl.
  - unfold after_reset, closed. split_and!; [|by look..].
    apply wf_delete, wf_insert; [by eexists|]. unfold zero. solve_wf.
Qed.
End lockouts.

Abbreviation together := (interleave (λ X, @exec Key Val _ _ _ X)).

(** The trial budget is claimed with two commands. If the replica that claims
    the trial of an OPEN circuit stops between INCR and EXPIRE, the budget never
    expires: from then on every call of [assertAvailable] is refused, at any
    time, while [isAvailable] keeps offering the provider to the routing. *)
Theorem lost_expire_locks_out (provider : string) (now t : Date) (s : cache) :
  wf s → s !! circuit provider state = Some (mkCell (VState OPEN) None) →
  s !! circuit provider lastFailureTime = Some (mkCell (VNum t) None) → t ≠ 0 → RECOVERY_TIME_MS < now - t →
  s !! circuit provider halfOpenTrialCount = None →
  ∃ s' p, rtc together (mkConfig now s [assertAvailable provider]) (mkConfig now s' [p])
    ∧ (∀ ts, Forall (λ r, r = Throw (CircuitOpen provider)) (asserts provider ts s'))
    ∧ (∀ later, (runs (isAvailable provider) later s').2 = Ok true).
Proof.
  intros Hwf Hst Hl Ht Hlate Htr. eexists _, _. split; [by eapply claims_alone|].
  assert (stuck_half provider (<[circuit provider halfOpenTrialCount := mkCell (VNum 1) None]>
    (<[circuit provider state := mkCell (VState HALF_OPEN) None]> s))) as Hstuck.
  { split_and!; [solve_wf|by look|]. exists 1. split; [done|by look]. }
  split; [intros ts; by apply (asserts_refused provider (stuck_half provider)); [intros; apply stuck_half_refuses|]|].
  intros later. unfold isAvailable, computeEffectiveState. rewrite run_bind_prog, run_get. unfold peek, find.
  rewrite (proj1 (proj2 Hstuck)). cbn [live expiresAt fmap option_fmap option_map value stored_state nullish].
  by rewrite bool_decide_eq_false_2.
Qed.

(** A reset can shut a provider out. When an operator resets the circuit while
    another replica records the failure that trips it, the reset may delete
    [lastFailureTime] before the circuit is set to OPEN; then no recovery window
    ever elapses: the provider is refused and not offered, at any later time. *)
Theorem reset_race_locks_out (provider : string) (now : Date) (s : cache) :
  wf s → 4 ≤ count now (circuit provider failureCount) s →
  ∃ s', rtc together (mkConfig now s [recordFailure provider; resetCircuit provider]) (mkConfig now s' [Ret tt; Ret tt])
    ∧ (∀ ts, Forall (λ r, r = Throw (CircuitOpen provider)) (asserts provider ts s'))
    ∧ (∀ later, (runs (isAvailable provider) later s').2 = Ok false).
Proof.
  intros Hwf H4. destruct (reset_between provider now s Hwf H4) as (s' & Hrun & Hstuck). exists s'. split; [exact Hrun|].
  split; [intros ts; by apply (asserts_refused provider (stuck_open provider)); [intros; apply stuck_open_refuses|]|].
  intros later. destruct Hstuck as (_ & Hst & Hl). unfold isAvailable, computeEffectiveState. rewrite run_bind_prog, run_get.
  unfold peek, find. rewrite Hst. cbn [live expiresAt fmap option_fmap option_map value stored_state nullish].
  rewrite bool_decide_eq_true_2 by done. unfold hasRecoveryWindowElapsed. rewrite run_bind_prog, run_get, run_now.
  unfold peek, find. by rewrite Hl.
Qed.

(** ** The trial budget under concurrency *)

(** A call that was let through, or is about to be. *)
Definition admitted (p : P unit) : bool :=
  match p with
  | Ret _ => true
  | Do c _ => match c with EXPIRE _ _ => true | _ => false end
  | Fail _ => false
  end.

Definition returned (p : P unit) : bool := match p with Ret _ => true | _ => false end.

Fixpoint tally {A} (f : A → bool) (l : list A) : nat :=
  match l with [] => 0 | x :: l => (if f x then 1 else 0) + tally f l end%nat.

Lemma tally_insert {A} (f : A → bool) l i x y : l !! i = Some x →
  (tally f (<[i := y]> l) + (if f x then 1 else 0) = tally f l + (if f y then 1 else 0))%nat.
Proof.
  revert i. induction l as [|z l IH]; intros [|i] H; cbn in H |- *; [done|done| |].
  - injection H as ->. lia.
  - specialize (IH i H). rewrite <- !Nat.add_assoc. by f_equal.
Qed.

Lemma tally_member {A} (f : A → bool) l i x : l !! i = Some x → ((if f x then 1 else 0) ≤ tally f l)%nat.
Proof.
  revert i. induction l as [|z l IH]; intros [|i] H; cbn in H |- *; [done|done| |].
  - injection H as ->. lia.
  - specialize (IH i H). destruct (f x), (f z); lia.
Qed.

Section trials.
Context (provider : string) (t0 : Date).
Abbreviation key := (circuit provider).

(** Where a call may stand before it claims a trial. *)
Inductive waiting : P unit → Prop :=
  | w_start : waiting (assertAvailable provider)
  | w_window (v : option Val) :
      waiting (elapsed ← (now ← now_; mret (match v with Some (VNum t) => negb (t =? 0) && (RECOVERY_TIME_MS <? now - t) | _ => false end));
               if negb elapsed then Fail (CircuitOpen provider)
               else _ ← set (key state) (VState HALF_OPEN); claimTrial provider)
  | w_open :
      waiting (elapsed ← hasRecoveryWindowElapsed provider;
               if negb elapsed then Fail (CircuitOpen provider)
               else _ ← set (key state) (VState HALF_OPEN); claimTrial provider)
  | w_elapsed : waiting (_ ← set (key state) (VState HALF_OPEN); claimTrial provider)
  | w_claim : waiting (claimTrial provider).

Inductive position : P unit → Prop :=
  | at_waiting p : waiting p → position p
  | at_claimed : position (claimed provider 1)
  | at_admitted : position (Ret tt)
  | at_refused e : position (Fail e).

(** The shared cells while the calls run. *)
Record budget (s : cache) (winners : nat) : Prop := {
  bu_wf : wf s;
  bu_state : ∃ x, s !! key state = Some (mkCell (VState x) None) ∧ x ≠ CLOSED;
  bu_trial :
    (s !! key halfOpenTrialCount = None ∧ winners = 0%nat)
    ∨ (∃ n e, s !! key halfOpenTrialCount = Some (mkCell (VNum n) e) ∧ 1 ≤ n ∧ (winners ≤ 1)%nat
         ∧ ∀ d, e = Some d → t0 + RECOVERY_TIME_MS ≤ d) }.

Definition contended (c : config (E := command Key Val) (S := cache) unit) : Prop :=
  t0 ≤ clock c ∧ Forall position (pool c) ∧ budget (memory c) (tally admitted (pool c)).

Abbreviation moves p now s := (advance (λ X, @exec Key Val _ _ _ X) p now s).
Abbreviation one_if b := (if b then 1 else 0)%nat.

Lemma budget_state s w x : budget s w → x ≠ CLOSED → budget (<[key state := mkCell (VState x) None]> s) w.
Proof.
  intros [Hwf _ Htr] Hx. split; [solve_wf|look; by exists x|by look].
Qed.

Lemma waiting_moves now s w p s' p' : t0 ≤ now < t0 + RECOVERY_TIME_MS → budget s w → waiting p →
  moves p now s = Some (s', p') → position p' ∧ budget s' (w + one_if (admitted p'))%nat.
Proof.
  intros Hnow Hb Hw. destruct Hw as [|v| | |].
  - destruct (bu_state _ _ Hb) as (x & Hst & Hx). cbn -[claimTrial hasRecoveryWindowElapsed].
    unfold peek, find. rewrite Hst. cbn [live expiresAt fmap option_fmap option_map value stored_state nullish resume].
    destruct x; [done|..]; cbn -[claimTrial hasRecoveryWindowElapsed]; intros [= <- <-].
    + split; [apply at_waiting, w_open|]. cbn. by rewrite Nat.add_0_r.
    + split; [apply at_waiting, w_claim|]. cbn. by rewrite Nat.add_0_r.
  - cbn -[claimTrial RECOVERY_TIME_MS]. destruct (match v with Some _ => _ | None => _ end); cbn -[claimTrial]; intros [= <- <-].
    + split; [apply at_waiting, w_elapsed|]. cbn. by rewrite Nat.add_0_r.
    + split; [apply at_refused|]. cbn. by rewrite Nat.add_0_r.
  - intros [= <- <-]. split; [apply at_waiting, w_window|]. cbn. by rewrite Nat.add_0_r.
  - intros [= <- <-]. split; [apply at_waiting, w_claim|]. cbn [admitted claimTrial incr incrby call mbind prog_bind].
    rewrite Nat.add_0_r. by apply budget_state.
  - unfold claimTrial, incr, incrby, call. cbn [mbind prog_bind advance]. rewrite exec_incrby by (done || apply Hb).
    cbn [resume]. intros [= <- <-]. destruct Hb as [Hwf Hst [[Hn Hw0] | (n & e & Hn & H1 & Hw1 & He)]].
    + assert (count now (key halfOpenTrialCount) s + 1 = 1) as Hc by (unfold count, peek, find; by rewrite Hn).
      rewrite Hc. split; [apply at_claimed|]. cbn [admitted claimed]. split; [solve_wf| |].
      * destruct Hst as (x & Hst & Hx). exists x. unfold bump. by look.
      * right. exists 1, None. unfold bump. look. rewrite Hc. unfold find. rewrite Hn. split_and!; [done|done|cbn; lia|done].
    + assert (find now (key halfOpenTrialCount) s = Some (mkCell (VNum n) e)) as Hf.
      { unfold find. rewrite Hn. unfold live. cbn. destruct e as [d|]; [|done]. specialize (He d eq_refl).
        by destruct (Z.ltb_spec now d); [|lia]. }
      assert (count now (key halfOpenTrialCount) s + 1 = n + 1) as Hc by (unfold count, peek; by rewrite Hf).
      assert (claimed provider (n + 1) = Fail (CircuitOpen provider)) as Hfail.
      { unfold claimed, HALF_OPEN_TRIAL_CALLS. destruct (Z.eqb_spec (n + 1) 1); [lia|]. cbn.
        by destruct (Z.ltb_spec 1 (n + 1)); [|lia]. }
      rewrite Hc, Hfail. split; [apply at_refused|]. cbn [admitted]. rewrite Nat.add_0_r. split; [solve_wf| |].
      * destruct Hst as (x & Hst & Hx). exists x. unfold bump. by look.
      * right. exists (n + 1), e. unfold bump. look. rewrite Hc, Hf. cbn. split_and!; [done|lia|done|done].
Qed.

Lemma claimed_moves now s w s' p' : t0 ≤ now < t0 + RECOVERY_TIME_MS → budget s (S w) →
  moves (claimed provider 1) now s = Some (s', p') → p' = Ret tt ∧ budget s' (S w).
Proof.
  intros Hnow Hb. cbn -[RECOVERY_TIME_MS]. destruct Hb as [Hwf Hst [[Hn Hw0] | (n & e & Hn & H1 & Hw1 & He)]]; [discriminate Hw0|].
  unfold find. rewrite Hn.
  assert (live now (mkCell (VNum n) e) = true) as ->.
  { unfold live. cbn. destruct e as [d|]; [|done]. specialize (He d eq_refl). by destruct (Z.ltb_spec now d); [|lia]. }
  intros [= <- <-]. split; [done|]. split; [solve_wf| |].
  - destruct Hst as (x & Hst & Hx). exists x. by look.
  - right. eexists n, _. look. split_and!; [reflexivity|done|done|]. intros d [= <-].
    change (RECOVERY_TIME_MS / 1000 * 1000) with RECOVERY_TIME_MS. lia.
Qed.

Lemma waiting_quiet p : waiting p → admitted p = false.
Proof. by intros []. Qed.

Lemma position_moves now s w p s' p' : t0 ≤ now < t0 + RECOVERY_TIME_MS → position p →
  budget s (w + one_if (admitted p))%nat →
  moves p now s = Some (s', p') → position p' ∧ budget s' (w + one_if (admitted p'))%nat.
Proof.
  intros Hnow Hp Hb. destruct Hp as [p Hw| | |e]; [| |discriminate 1|discriminate 1].
  - rewrite (waiting_quiet p Hw), Nat.add_0_r in Hb. by apply waiting_moves.
  - cbn [admitted claimed] in Hb. change (one_if (admitted (claimed provider 1))) with 1%nat in Hb.
    rewrite Nat.add_1_r in Hb. intros Hm. destruct (claimed_moves _ _ _ _ _ Hnow Hb Hm) as [-> Hb'].
    split; [apply at_admitted|]. cbn. by rewrite Nat.add_1_r.
Qed.

Lemma contended_step c c' : together c c' → clock c' < t0 + RECOVERY_TIME_MS → contended c → contended c'.
Proof.
  intros Hs Hlt (Ht & Hpos & Hb). destruct Hs as [now s l i p s' p' Hi Hm|now now' s l Hle]; cbn in *.
  - pose proof (tally_member admitted l i p Hi) as Hmem. pose proof (tally_insert admitted l i p p' Hi) as Htal.
    destruct (position_moves now s (tally admitted l - one_if (admitted p)) p s' p') as [Hp' Hb'].
    + lia.
    + by eapply Forall_lookup_1.
    + by replace (tally admitted l - one_if (admitted p) + one_if (admitted p))%nat with (tally admitted l) by lia.
    + exact Hm.
    + split_and!; [done|by apply Forall_insert|]. cbn.
      by replace (tally admitted (<[i:=p']> l)) with (tally admitted l - one_if (admitted p) + one_if (admitted p'))%nat by lia.
  - split_and!; [cbn; lia|done|done].
Qed.

Lemma contended_run c c' : rtc together c c' → contended c → clock c' < t0 + RECOVERY_TIME_MS → contended c'.
Proof.
  intros Hrun Hc. revert c' Hrun. apply (rtc_ind_r (λ c', clock c' < t0 + RECOVERY_TIME_MS → contended c') c); [done|].
  intros y z _ Hstep IH Hlt. eapply contended_step; [exact Hstep|exact Hlt|]. apply IH. destruct Hstep; cbn in *; lia.
Qed.
End trials.

Lemma tally_le {A} (f g : A → bool) l : (∀ x, f x = true → g x = true) → (tally f l ≤ tally g l)%nat.
Proof.
  intros H. induction l as [|x l IH]; cbn; [done|]. pose proof (H x). destruct (f x), (g x); try lia; naive_solver.
Qed.

(** C13: a recovering provider is probed by one call. However many replicas call
    [assertAvailable] on a circuit that is OPEN or HALF_OPEN with an unused trial
    budget, and however their commands interleave, within the 30 s of the trial
    at most one of the calls is let through. *)
Theorem half_open_single_trial (provider : string) (t0 : Date) (n : nat) (s : cache) (x : CircuitBreakerState)
    (c : config (E := command Key Val) (S := cache) unit) :
  wf s → s !! circuit provider state = Some (mkCell (VState x) None) → x ≠ CLOSED →
  s !! circuit provider halfOpenTrialCount = None →
  rtc together (mkConfig t0 s (replicate n (assertAvailable provider))) c → clock c < t0 + RECOVERY_TIME_MS →
  (tally returned (pool c) ≤ 1)%nat.
Proof.
  intros Hwf Hst Hx Htr Hrun Hlt.
  assert (contended provider t0 c) as (_ & _ & [_ _ Hb]).
  { eapply contended_run; [exact Hrun| |exact Hlt]. split_and!; [cbn; lia| |].
    - apply Forall_replicate, at_waiting, w_start.
    - split; [done|by exists x|]. left. split; [done|]. cbn [pool]. clear. induction n as [|n IH]; [done|exact IH]. }
  etrans; [apply (tally_le returned admitted); by intros []|]. destruct Hb as [[_ ->]|(k & e & _ & _ & H & _)]; [lia|done].
Qed.

(** ** The metrics are those of the log *)

Abbreviation entry := (Date * string * op)%type.

Fixpoint replay (h : list entry) (s : cache) : cache :=
  match h with
  | [] => s
  | (t, p, o) :: h => replay h (runs (program p o) t s).1
  end.

(** What a call counts for in a metric, if it does. *)
Definition weight (f : MetricField) (o : op) : option Z :=
  match f, o with
  | success, Success _ => Some 1
  | total, Success _ | total, Failure => Some 1
  | latencyMs, Success latency => Some latency
  | _, _ => None
  end.

Definition counted (p : string) (in_window : Z → bool) (f : MetricField) (x : entry) : Z :=
  let '(t, q, o) := x in
  if bool_decide (q = p) && in_window (epochMinute t) then nullish (weight f o) 0 else 0.

(** The reference: sums over the whole log. *)
Definition logged (p : string) (in_window : Z → bool) (f : MetricField) (h : list entry) : Z :=
  sumZ (counted p in_window f) h.

Abbreviation in_minute e := (λ m, m =? e).
Abbreviation in_last m := (λ e, (m - METRICS_WINDOW_MINUTES <? e) && (e <=? m)).

(** The effect of a call on a bucket. *)
Lemma served_bucket p o t s q e f :
  served p o t s !! circuit q (bucket e f) =
  match weight f o with
  | Some n =>
      if bool_decide (p = q) && (epochMinute t =? e)
      then Some (mkCell (VNum (count t (circuit q (bucket e f)) s + n)) (deadline t METRICS_BUCKET_TTL_SECONDS))
      else s !! circuit q (bucket e f)
  | None => s !! circuit q (bucket e f)
  end.
Proof.
  case_bool_decide as Hp; cbn [andb]; [subst q; destruct (Z.eqb_spec (epochMinute t) e) as [<-|He]|].
  - destruct o; cbn [served].
    + open_ops. repeat case_match; cbn [fst]; destruct f; by look.
    + unfold after_success, after_sample, closed, measured. cbv zeta. unfold touch at 1.
      destruct f; cbn [weight]; repeat case_match; unfold touch; look; rewrite ?(count_touch_ne t t) by done;
        unfold count, peek; rewrite ?find_insert_ne by done; done.
    + unfold after_failure. cbv zeta. destruct f; cbn [weight]; case_match; unfold touch; look;
        unfold count, peek; rewrite ?find_insert_ne by done; done.
    + destruct f; unfold after_reset, closed; by look.
  - assert (served p o t s !! circuit p (bucket e f) = s !! circuit p (bucket e f)) as ->; [|by destruct (weight f o)].
    destruct o; cbn [served]; open_ops; repeat case_match; cbn [fst]; by look.
  - assert (served p o t s !! circuit q (bucket e f) = s !! circuit q (bucket e f)) as ->; [|by destruct (weight f o)].
    apply served_frame. congruence.
Qed.

Lemma minute_bounds t : epochMinute t * 60000 ≤ t < (epochMinute t + 1) * 60000.
Proof. unfold epochMinute. change (METRICS_BUCKET_SECONDS * 1000) with 60000. pose proof (Z.div_mod t 60000). pose proof (Z.mod_pos_bound t 60000). lia. Qed.

(** The buckets of the log [h]. *)
Definition buckets_ok (h : list entry) (s : cache) : Prop :=
  ∀ p e f, let k := circuit p (bucket e f) in
    (s !! k = None ∧ logged p (in_minute e) f h = 0)
    ∨ ∃ d, s !! k = Some (mkCell (VNum (logged p (in_minute e) f h)) (Some d)) ∧ e * 60000 + 1200000 ≤ d.

(** While it matters, a bucket holds its sum. *)
Lemma bucket_count h s now p e f : buckets_ok h s → now < (e + 20) * 60000 →
  count now (circuit p (bucket e f)) s = logged p (in_minute e) f h.
Proof.
  intros Hb Hnow. unfold count, peek, find. destruct (Hb p e f) as [[-> ->] | (d & -> & Hd)]; [done|].
  unfold live. cbn. by destruct (Z.ltb_spec now d); [|lia].
Qed.

Lemma logged_snoc p w f h x : logged p w f (h ++ [x]) = logged p w f h + counted p w f x.
Proof. unfold logged. rewrite sumZ_app. cbn. lia. Qed.

Lemma buckets_served h s t p o : buckets_ok h s → buckets_ok (h ++ [(t, p, o)]) (served p o t s).
Proof.
  intros Hb q e f. cbv zeta. rewrite served_bucket, logged_snoc. unfold counted.
  destruct (weight f o) as [n|] eqn:Ew; cbn [nullish].
  - destruct (bool_decide (p = q) && (epochMinute t =? e)) eqn:E; [|rewrite Z.add_0_r; apply Hb].
    right. apply andb_true_iff in E as [_ <-%Z.eqb_eq]. pose proof (minute_bounds t).
    eexists. split; [rewrite (bucket_count h) by (done || lia); reflexivity|].
    change (METRICS_BUCKET_TTL_SECONDS * 1000) with 1200000. lia.
  - destruct (bool_decide (p = q) && (epochMinute t =? e)); rewrite Z.add_0_r; apply Hb.
Qed.

Lemma buckets_replay h0 h s : wf s → buckets_ok h0 s → buckets_ok (h0 ++ h) (replay h s) ∧ wf (replay h s).
Proof.
  revert h0 s. induction h as [|[[t p] o] h IH]; intros h0 s Hwf Hb; cbn [replay]; [by rewrite app_nil_r|].
  rewrite run_program by done. rewrite (cons_middle (t, p, o) h0 h), app_assoc. apply IH; [by apply wf_served|].
  by apply buckets_served.
Qed.

(** The minutes of the window partition it. *)
Lemma window_minute m e f x p :
  sumZ (λ i : nat, counted p (in_minute (m - Z.of_nat i)) f x) (seq 0 e)
  = counted p (λ y, (m - Z.of_nat e <? y) && (y <=? m)) f x.
Proof.
  destruct x as [[t q] o]. unfold counted. destruct (bool_decide (q = p)); cbn [andb].
  2:{ induction (seq 0 e) as [|i l IH]; [done|]. cbn [sumZ]. by rewrite IH. }
  induction e as [|e IH].
  - cbn [sumZ seq]. destruct (Z.ltb_spec (m - Z.of_nat 0) (epochMinute t)), (Z.leb_spec (epochMinute t) m); cbn [andb]; lia.
  - rewrite seq_S, sumZ_app, IH. cbn [sumZ plus].
    destruct (Z.ltb_spec (m - Z.of_nat e) (epochMinute t)), (Z.ltb_spec (m - Z.of_nat (S e)) (epochMinute t)),
      (Z.leb_spec (epochMinute t) m), (Z.eqb_spec (epochMinute t) (m - Z.of_nat e)); cbn [andb]; lia.
Qed.

Lemma sumZ_swap {A B} (g : A → B → Z) (l : list A) (h : list B) :
  sumZ (λ a, sumZ (g a) h) l = sumZ (λ b, sumZ (λ a, g a b) l) h.
Proof.
  induction l as [|a l IH]; cbn [sumZ].
  - by induction h as [|b h IHh]; cbn [sumZ]; [|rewrite <- IHh].
  - rewrite IH. clear IH. induction h as [|b h IHh]; cbn [sumZ]; [done|]. rewrite <- IHh. lia.
Qed.

Lemma window_logged p f h m :
  sumZ (λ e, logged p (in_minute e) f h) (windowEpochs m) = logged p (in_last m) f h.
Proof.
  unfold windowEpochs. change (Z.to_nat METRICS_WINDOW_MINUTES) with 15%nat.
  assert (∀ (g : Z → Z) l, sumZ g ((λ i : nat, m - Z.of_nat i) <$> l) = sumZ (λ i, g (m - Z.of_nat i)) l) as ->.
  { intros g l. induction l as [|i l IH]; [done|]. cbn [fmap list_fmap sumZ]. f_equal. exact IH. }
  unfold logged. rewrite sumZ_swap. apply sumZ_ext. intros x _. exact (window_minute m 15 f x p).
Qed.

(** The pipeline of [getMetrics] adds up the buckets. *)
Lemma run_sums p now s epochs acc :
  runs (sumBuckets p epochs acc) now s =
  let c f := sumZ (λ e, count now (circuit p (bucket e f)) s) epochs in
  (s, Ok (acc.1.1 + c success, acc.1.2 + c total, acc.2 + c latencyMs)).
Proof.
  cbv zeta. revert acc. induction epochs as [|e epochs IH]; intros [[a b] c]; cbn [sumBuckets sumZ fst snd].
  - cbn. by rewrite !Z.add_0_r.
  - rewrite !run_get, IH. cbn [fst snd]. unfold count. by rewrite !Z.add_assoc.
Qed.

Lemma state_read p now s : wf s → ∃ x, runs (computeEffectiveState p) now s = (s, Ok (VState x)).
Proof.
  intros Hwf. unfold computeEffectiveState. rewrite run_get.
  assert (∃ x, stored_state (peek now (circuit p state) s) = VState x) as (x & ->).
  { unfold peek, find. destruct (s !! circuit p state) as [c|] eqn:E; [|by exists CLOSED].
    destruct (map_Forall_lookup_1 _ _ _ _ Hwf E) as [x ->]. by exists x. }
  destruct x; [by eexists| |by eexists]. rewrite bool_decide_eq_true_2 by done. unfold hasRecoveryWindowElapsed.
  rewrite run_bind_prog, run_get, run_now. cbn [run mret prog_ret]. destruct (match peek _ _ _ with Some _ => _ | None => _ end); by eexists.
Qed.

(** The reported metrics are those of the log. After any history of calls for
    any providers, [getMetrics] returns the number of successes and of calls of
    the provider in the current minute and the fourteen before it, and their
    average latency: the per-minute counters neither lose calls to their expiry
    nor keep calls that left the window. *)
Theorem metrics_exact (provider : string) (now : Date) (h : list (Date * string * op)) :
  let window := in_last (epochMinute now) in
  let calls := logged provider window total h in
  ∃ s x, runs (getMetrics provider) now (replay h ∅)
    = (s, Ok (mkCircuitMetrics x (logged provider window success h) calls
                (if 0 <? calls then Num.div (Num.of_bigint (logged provider window latencyMs h)) (Num.of_bigint calls)
                 else Num.of_bigint 0))).
Proof.
  cbv zeta. destruct (buckets_replay [] h ∅) as [Hb Hwf]; [apply map_Forall_empty|by left|]. cbn [app] in Hb.
  destruct (state_read provider now (replay h ∅) Hwf) as (x & Hx). unfold getMetrics.
  rewrite run_bind_prog, Hx, run_epoch, run_bind_prog, run_sums. cbn [fst snd run mret prog_ret]. rewrite !Z.add_0_l.
  assert (∀ f, sumZ (λ e, count now (circuit provider (bucket e f)) (replay h ∅)) (windowEpochs (epochMinute now))
    = logged provider (in_last (epochMinute now)) f h) as Hsum.
  { intros f. rewrite <- window_logged. apply sumZ_ext. intros e He. apply bucket_count; [done|].
    unfold windowEpochs in He. apply list_elem_of_fmap in He as (i & -> & Hi%elem_of_seq).
    change (Z.to_nat METRICS_WINDOW_MINUTES) with 15%nat in Hi. pose proof (minute_bounds now). lia. }
  rewrite !Hsum. by eexists _, _.
Qed.

(** ** The failure threshold *)

(** The run of failures, newest first, in which each comes less than a minute
    after the one before. *)
Fixpoint streak (ts : list Date) : Z :=
  match ts with
  | [] => 0
  | t :: ts => match ts with t' :: _ => if t <? t' + FAILURE_WINDOW_SECONDS * 1000 then 1 + streak ts else 1 | [] => 1 end
  end.

(** Whether a run ever reached the threshold. *)
Fixpoint tripped (ts : list Date) : bool :=
  match ts with
  | [] => false
  | t :: older => (FAILURE_THRESHOLD <=? streak ts) || tripped older
  end.

(** The cache after these failures. *)
Fixpoint failures (provider : string) (ts : list Date) : cache :=
  match ts with
  | [] => ∅
  | t :: ts => (runs (recordFailure provider) t (failures provider ts)).1
  end.

Section threshold.
Context (provider : string).
Abbreviation key := (circuit provider).

Record failed (ts : list Date) (s : cache) : Prop := {
  fl_wf : wf s;
  fl_state : s !! key state = if tripped ts then Some (mkCell (VState OPEN) None) else None;
  fl_trial : s !! key halfOpenTrialCount = None;
  fl_last : s !! key lastFailureTime = (λ t, mkCell (VNum t) None) <$> head ts;
  fl_count : s !! key failureCount = (λ t, mkCell (VNum (streak ts)) (deadline t FAILURE_WINDOW_SECONDS)) <$> head ts }.

Lemma failed_count ts s t : failed ts s → count t (key failureCount) s + 1 = streak (t :: ts).
Proof.
  intros [_ _ _ _ Hc]. unfold count, peek, find. rewrite Hc. destruct ts as [|t' ts]; [done|].
  cbn [head fmap option_fmap option_map]. unfold live, deadline. cbn [expiresAt]. change (streak (t :: t' :: ts)) with
    (if t <? t' + FAILURE_WINDOW_SECONDS * 1000 then 1 + streak (t' :: ts) else 1).
  destruct (t <? _); cbn [fmap option_fmap option_map value number_or_0]; lia.
Qed.

Lemma failed_step ts s t : failed ts s → failed (t :: ts) (after_failure provider t s).
Proof.
  intros Hf. pose proof (failed_count ts s t Hf) as Hcount. destruct Hf as [Hwf Hst Htr Hl Hc].
  assert (bool_decide (peek t (key state) s = Some (VState HALF_OPEN)) = false) as Hno.
  { unfold peek, find. rewrite Hst. by destruct (tripped ts). }
  unfold after_failure. cbv zeta. rewrite Hno, Hcount, orb_false_l.
  assert (tripped (t :: ts) = (FAILURE_THRESHOLD <=? streak (t :: ts)) || tripped ts) as Htrip by done.
  destruct (FAILURE_THRESHOLD <=? streak (t :: ts)); cbn [orb] in Htrip;
    split; unfold touch; look; rewrite ?Hcount, ?Htrip; try done; solve_wf.
Qed.

Lemma failures_failed ts : failed ts (failures provider ts).
Proof.
  induction ts as [|t ts IH]; cbn [failures]; [split; [apply map_Forall_empty|done..]|].
  rewrite run_failure by apply IH. by apply failed_step.
Qed.
End threshold.

(** Failures open the circuit exactly at the threshold. Over any sequence of
    failures, however far apart, the provider is refused exactly when five of
    them in a row came less than a minute after one another, and the last
    failure is no more than 30 s ago; failures that are spread out never open
    the circuit. *)
Theorem breaker_trips_exactly (provider : string) (now : Date) (ts : list Date) :
  Forall (λ t, 0 < t) ts →
  (runs (assertAvailable provider) now (failures provider ts)).2
  = if tripped ts && (now - nullish (head ts) 0 <=? RECOVERY_TIME_MS) then Throw (CircuitOpen provider) else Ok tt.
Proof.
  intros Hpos. destruct (failures_failed provider ts) as [Hwf Hst Htr Hl _]. rewrite run_assert by done.
  unfold after_assert, peek, find. rewrite Hst. destruct (tripped ts) eqn:Et; [|done].
  destruct ts as [|t ts]; [done|]. apply Forall_cons in Hpos as [Ht _].
  cbn [live expiresAt fmap option_fmap option_map value stored_state nullish andb head].
  unfold elapsed, peek, find. rewrite Hl. cbn [head fmap option_fmap option_map live expiresAt value].
  destruct (Z.eqb_spec t 0); [lia|]. cbn [negb andb].
  destruct (Z.ltb_spec RECOVERY_TIME_MS (now - t)), (Z.leb_spec (now - t) RECOVERY_TIME_MS); try lia; [|done].
  unfold claim, count, peek, find. look. by rewrite Htr.
Qed.

(** ** Concrete circuits *)

Definition stripe_open : cache :=
  <[circuit "STRIPE" state := mkCell (VState OPEN) None]> (<[circuit "STRIPE" lastFailureTime := mkCell (VNum 1) None]> ∅).
Definition stripe_failing : cache := <[circuit "STRIPE" failureCount := mkCell (VNum 4) None]> ∅.

Lemma stripe_open_wf : wf stripe_open.
Proof. apply wf_insert; [by eexists|]. apply wf_insert; [by eexists|]. apply map_Forall_empty. Qed.
Lemma stripe_failing_wf : wf stripe_failing.
Proof. apply wf_insert; [by repeat eexists|]. apply map_Forall_empty. Qed.

Lemma breaker_recovers_witness : ∃ s, rtc serve (1, ∅) (2, s) ∧ (runs (assertAvailable "STRIPE") 40000 s).2 = Ok tt.
Proof.
  eexists. split; [apply rtc_once, (sv_call "STRIPE" Failure); lia|].
  eapply (breaker_recovers "STRIPE" 1 2 40000); [lia| |unfold RECOVERY_TIME_MS; lia].
  apply rtc_once, (sv_call "STRIPE" Failure). lia.
Defined.

Lemma lost_expire_locks_out_witness : ∃ s p,
  rtc together (mkConfig 40000 stripe_open [assertAvailable "STRIPE"]) (mkConfig 40000 s [p])
  ∧ asserts "STRIPE" [50000; 10000000] s = [Throw (CircuitOpen "STRIPE"); Throw (CircuitOpen "STRIPE")].
Proof.
  destruct (lost_expire_locks_out "STRIPE" 40000 1 stripe_open) as (s & p & Hrun & Hts & _).
  - exact stripe_open_wf.
  - reflexivity.
  - reflexivity.
  - lia.
  - reflexivity.
  - reflexivity.
  - exists s, p. split; [exact Hrun|]. pose proof (Hts [50000; 10000000]) as H. cbn [asserts] in *.
    destruct (runs (assertAvailable "STRIPE") 50000 s) as [s1 r1].
    destruct (runs (assertAvailable "STRIPE") 10000000 s1) as [s2 r2].
    apply Forall_cons in H as [-> H]. apply Forall_cons in H as [-> _]. reflexivity.
Defined.

Lemma reset_race_locks_out_witness : ∃ s,
  rtc together (mkConfig 7 stripe_failing [recordFailure "STRIPE"; resetCircuit "STRIPE"]) (mkConfig 7 s [Ret tt; Ret tt])
  ∧ (runs (isAvailable "STRIPE") 10000000 s).2 = Ok false.
Proof.
  destruct (reset_race_locks_out "STRIPE" 7 stripe_failing) as (s & Hrun & _ & Hoff).
  - exact stripe_failing_wf.
  - vm_compute. discriminate.
  - exists s. split; [exact Hrun|exact (Hoff 10000000)].
Defined.

Lemma half_open_single_trial_witness : ∃ c : config (E := command Key Val) (S := cache) unit,
  rtc together (mkConfig 40000 stripe_open (replicate 2 (assertAvailable "STRIPE"))) c ∧ (tally returned (pool c) ≤ 1)%nat.
Proof.
  eexists. split; [apply (run_interleaves _ (assertAvailable "STRIPE") 40000 stripe_open _ 0%nat); reflexivity|].
  eapply (half_open_single_trial "STRIPE" 40000 2 stripe_open OPEN).
  - exact stripe_open_wf.
  - reflexivity.
  - discriminate.
  - reflexivity.
  - apply (run_interleaves _ (assertAvailable "STRIPE") 40000 stripe_open _ 0%nat). reflexivity.
  - cbn [clock]. unfold RECOVERY_TIME_MS. lia.
Defined.

Lemma breaker_trips_exactly_witness :
  (runs (assertAvailable "STRIPE") 6 (failures "STRIPE" [5; 4; 3; 2; 1])).2 = Throw (CircuitOpen "STRIPE")
  ∧ (runs (assertAvailable "STRIPE") 6 (failures "STRIPE" [4; 3; 2; 1])).2 = Ok tt.
Proof.
  split.
  - rewrite (breaker_trips_exactly "STRIPE" 6); [reflexivity|]. repeat (apply Forall_cons; split; [lia|]). constructor.
  - rewrite (breaker_trips_exactly "STRIPE" 6); [reflexivity|]. repeat (apply Forall_cons; split; [lia|]). constructor.
Defined.
