(* ===== verification/Idempotency.v ===== *)
(** * The idempotency interceptor

    [idempotency.interceptor.ts]: a request with an Idempotency-Key is answered
    from Redis, refused, or executed under a lock. The requests of one merchant
    with one key are programs over the Redis they share; the request handler is
    an event of its own, with a start and an end, so that other requests may run
    while it is executing. *)

From S2P Require Import Prelude Redis.

(** ** Keys and records *)

(** [idempotency:${merchantId}:${key}] and [idempotency:lock:${merchantId}:${key}] *)
Inductive IKey := record (merchantId key : string) | lock (merchantId key : string).

#[global] Instance IKey_eq_dec : EqDecision IKey.
Proof. solve_decision. Defined.
#[global] Instance IKey_countable : Countable IKey.
Proof.
  refine (inj_countable' (λ k, match k with record m x => (true, m, x) | lock m x => (false, m, x) end)
            (λ x, match x with (true, m, x) => record m x | (false, m, x) => lock m x end) _).
  by intros [].
Defined.

Section interceptor.
(** A response body; a handler without a body answers [None]. *)
Context {R : Type}.

Inductive IVal :=
  | LOCKED (acquiredAt : Date)
  | PROCESSING
  | COMPLETED (response : option R) (statusCode : Z) (completedAt : Date).

#[export] Instance IVal_numeric : Numeric IVal := {| of_num := LOCKED; to_num _ := None |}.

(** What a handler answers. *)
Abbreviation outcome := (result (option R * Z)).

Inductive event : Type → Type :=
  | Redis {X} (c : command IKey IVal X) : event X
  | START : event unit
  | FINISH : event outcome.

Abbreviation Q := (prog event).

Inductive Answer := Replayed (response : R) (statusCode : Z) | Executed (response : option R).

Definition IDEMPOTENCY_TTL_SECONDS : Z := 86400.
Definition LOCK_TTL_SECONDS : Z := 30.

Definition redis {X} (c : command IKey IVal X) : Q X := call (Redis c).

(** [code || 200] *)
Definition status_or_200 (code : Z) : Z := if code =? 0 then 200 else code.

Section request.
Context (merchantId key : string).

Definition completed (body : option R) (statusCode : Z) : Q Answer :=
  now ← redis NOW;
  _ ← redis (SET (record merchantId key) (COMPLETED body (status_or_200 statusCode) now) (Some IDEMPOTENCY_TTL_SECONDS));
  _ ← redis (DEL (lock merchantId key));
  mret (Executed body).

Definition failed (error : js_error) : Q Answer :=
  _ ← redis (DEL (lock merchantId key));
  _ ← redis (DEL (record merchantId key));
  Fail error.

(** The handler, and what the pipe does with its answer. *)
Definition execute : Q Answer :=
  _ ← call START;
  answer ← call FINISH;
  match answer with
  | Ok (body, statusCode) => completed body statusCode
  | Throw error => failed error
  end.

Definition acquire : Q Answer :=
  now ← redis NOW;
  lockAcquired ← redis (SETNX (lock merchantId key) (LOCKED now) LOCK_TTL_SECONDS);
  if negb lockAcquired then Fail (HttpException 409 "IDEMPOTENCY_LOCK_CONFLICT")
  else
    _ ← redis (SET (record merchantId key) PROCESSING (Some IDEMPOTENCY_TTL_SECONDS));
    execute.

Definition processIdempotency : Q Answer :=
  existing ← redis (GET (record merchantId key));
  match existing with
  | Some (COMPLETED (Some response) statusCode _) => mret (Replayed response (status_or_200 statusCode))
  | Some PROCESSING => Fail (HttpException 409 "IDEMPOTENCY_CONFLICT")
  | _ => acquire
  end.
End request.

(** *** The key format *)

Definition is_hex (c : ascii) : bool :=
  let n := N_of_ascii c in
  ((48 <=? n)%N && (n <=? 57)%N) || ((97 <=? n)%N && (n <=? 102)%N) || ((65 <=? n)%N && (n <=? 70)%N).

Definition one_of (l : list ascii) (c : ascii) : bool := existsb (Ascii.eqb c) l.

(** The classes of the regular expression, character by character. *)
Definition hexes (n : nat) : list (ascii → bool) := replicate n is_hex.
Definition uuidV4Regex : list (ascii → bool) :=
  hexes 8 ++ [one_of ["-"%char]] ++ hexes 4 ++ [one_of ["-"%char]] ++ [one_of ["4"%char]] ++ hexes 3 ++ [one_of ["-"%char]]
  ++ [one_of ["8"%char; "9"%char; "a"%char; "b"%char; "A"%char; "B"%char]] ++ hexes 3 ++ [one_of ["-"%char]] ++ hexes 12.

Fixpoint matches (classes : list (ascii → bool)) (s : string) : bool :=
  match classes, s with
  | [], EmptyString => true
  | c :: classes, String a s => c a && matches classes s
  | _, _ => false
  end.

Definition isValidIdempotencyKey (key : string) : bool := matches uuidV4Regex key.

(** A missing or empty header skips the interceptor. *)
Definition intercept (merchantId : string) (idempotencyKey : option string) : Q Answer :=
  let unguarded :=
    _ ← call START;
    answer ← call FINISH;
    match answer with Ok (body, _) => mret (Executed body) | Throw error => Fail error end in
  match idempotencyKey with
  | None => unguarded
  | Some key =>
      if String.eqb key "" then unguarded
      else if negb (isValidIdempotencyKey key) then Fail (HttpException 400 "INVALID_IDEMPOTENCY_KEY")
      else processIdempotency merchantId key
  end.

(** ** The machine *)

(** The store, and how many handler executions have started and how many have
    ended. The [n]-th to end answers [script n]. *)
Record machine := mkMachine { cells : gmap IKey (cell IVal); started : nat; ended : nat }.

Section handler.
Context (script : nat → outcome).

Definition handle (X : Type) (e : event X) (now : Date) (m : machine) : machine * result X :=
  match e in event Y return machine * result Y with
  | Redis c => let '(s, r) := exec c now (cells m) in (m {{ cells := s }}, r)
  | START => (mkMachine (cells m) (S (started m)) (ended m), Ok tt)
  | FINISH => (mkMachine (cells m) (started m) (S (ended m)), Ok (script (ended m)))
  end.
End handler.
End interceptor.

Arguments IVal : clear implicits.
Arguments event : clear implicits.
Arguments Answer : clear implicits.
Arguments machine : clear implicits.
