(* ===== verification/IdempotencyCorrect.v ===== *)
(** * The idempotency interceptor: replay, mutual exclusion, and its race

    A request that runs alone is replayed or executed as the interceptor says.
    Side by side, at most one handler executes while the lock lasts; but a
    request that looked before another one started and locks after it ended
    executes the handler again. *)

From S2P Require Import Prelude Redis Idempotency.

Section correct.
Context {R : Type} (script : nat → result (option R * Z)).
Context (merchantId key : string).

Abbreviation alone p now m := (run (handle script) p now m).
Abbreviation together := (interleave (handle script)).
Abbreviation request := (processIdempotency merchantId key).
Abbreviation rec := (record merchantId key).
Abbreviation lck := (lock merchantId key).

Implicit Types (m : machine R).

(** ** A request on its own *)

Definition stored (body : option R) (code now : Z) (m : machine R) : machine R :=
  mkMachine (delete lck (<[rec := mkCell (COMPLETED body (status_or_200 code) now) (deadline now IDEMPOTENCY_TTL_SECONDS)]> (cells m)))
    (started m) (ended m).

(** After the lock was acquired. *)
Definition locked (now : Date) (m : machine R) : gmap IKey (cell (IVal R)) :=
  <[rec := mkCell PROCESSING (deadline now IDEMPOTENCY_TTL_SECONDS)]>
    (<[lck := mkCell (LOCKED now) (deadline now LOCK_TTL_SECONDS)]> (cells m)).

Lemma acquire_alone now m : find now lck (cells m) = None →
  alone (acquire merchantId key) now m =
  let m' := mkMachine (locked now m) (S (started m)) (S (ended m)) in
  match script (ended m) with
  | Ok (body, code) => (stored body code now m', Ok (Executed body))
  | Throw e => (mkMachine (delete rec (delete lck (locked now m))) (S (started m)) (S (ended m)), Throw e)
  end.
Proof.
  intros Hf. destruct m as [s a b]. cbn [cells] in Hf. cbn -[locked stored]. rewrite Hf. cbn -[locked stored].
  destruct (script b) as [[body code]|e]; reflexivity.
Qed.

Lemma busy_alone now m (c : cell (IVal R)) : find now lck (cells m) = Some c →
  alone (acquire merchantId key) now m = (m, Throw (HttpException 409 "IDEMPOTENCY_LOCK_CONFLICT")).
Proof. intros Hf. destruct m as [s a b]. cbn [cells] in Hf. cbn. rewrite Hf. by cbn. Qed.

Lemma request_alone now m :
  alone request now m =
  match peek now rec (cells m) with
  | Some (COMPLETED (Some response) code _) => (m, Ok (Replayed response (status_or_200 code)))
  | Some PROCESSING => (m, Throw (HttpException 409 "IDEMPOTENCY_CONFLICT"))
  | _ => alone (acquire merchantId key) now m
  end.
Proof.
  destruct m as [s a b]. cbn -[acquire]. destruct (peek now rec s) as [[t| |[r|] code t]|]; reflexivity.
Qed.

(** A request that executed the handler and answered. *)
Lemma executed_stored t m m' body : alone request t m = (m', Ok (Executed body)) →
  ∃ code, cells m' !! rec = Some (mkCell (COMPLETED body (status_or_200 code) t) (deadline t IDEMPOTENCY_TTL_SECONDS)).
Proof.
  intros H. rewrite request_alone in H.
  assert (alone (acquire merchantId key) t m = (m', Ok (Executed body))) as Ha
    by (destruct (peek t rec (cells m)) as [[]|]; repeat case_match; done).
  destruct (find t lck (cells m)) as [c|] eqn:Hf; [by rewrite (busy_alone _ _ _ Hf) in Ha|].
  rewrite (acquire_alone _ _ Hf) in Ha. cbv zeta in Ha.
  destruct (script (ended m)) as [[b code]|e]; [|discriminate Ha]. injection Ha as <- ->. exists code.
  unfold stored. cbn [cells]. by rewrite lookup_delete_ne, lookup_insert_eq by done.
Qed.

(** A request that executed the handler and threw. *)
Lemma thrown_cleared t m m' e : alone request t m = (m', Throw e) → started m' ≠ started m →
  cells m' !! rec = None ∧ cells m' !! lck = None.
Proof.
  intros H Hne. rewrite request_alone in H.
  assert (alone (acquire merchantId key) t m = (m', Throw e)) as Ha.
  { destruct (peek t rec (cells m)) as [[]|]; repeat case_match; try done; by injection H as <- _. }
  destruct (find t lck (cells m)) as [c|] eqn:Hf; [rewrite (busy_alone _ _ _ Hf) in Ha; by injection Ha as <- _|].
  rewrite (acquire_alone _ _ Hf) in Ha. cbv zeta in Ha.
  destruct (script (ended m)) as [[b code]|e']; [discriminate Ha|]. injection Ha as <- _. cbn [cells].
  split; [by rewrite lookup_delete_eq|]. by rewrite lookup_delete_ne, lookup_delete_eq by done.
Qed.

(** ** Requests side by side *)

(** Where a request may stand, whether it holds the lock (from SETNX to DEL), and
    whether its handler is executing. *)
Inductive stands : prog (event R) (Answer R) → bool → bool → Prop :=
  | st_start : stands request false false
  | st_acquire : stands (acquire merchantId key) false false
  | st_setnx (t : Date) :
      stands (lockAcquired ← redis (SETNX lck (LOCKED t) LOCK_TTL_SECONDS);
              if negb lockAcquired then Fail (HttpException 409 "IDEMPOTENCY_LOCK_CONFLICT")
              else _ ← redis (SET rec PROCESSING (Some IDEMPOTENCY_TTL_SECONDS)); execute merchantId key) false false
  | st_locked : stands (_ ← redis (SET rec PROCESSING (Some IDEMPOTENCY_TTL_SECONDS)); execute merchantId key) true false
  | st_execute : stands (execute merchantId key) true false
  | st_running :
      stands (answer ← call FINISH;
              match answer with
              | Ok (body, statusCode) => completed merchantId key body statusCode
              | Throw error => failed merchantId key error
              end) true true
  | st_completed b code : stands (completed merchantId key b code) true false
  | st_store b v :
      stands (_ ← redis (SET rec v (Some IDEMPOTENCY_TTL_SECONDS)); _ ← redis (DEL lck); mret (Executed b)) true false
  | st_release b : stands (_ ← redis (DEL lck); mret (Executed b)) true false
  | st_failed e : stands (failed merchantId key e) true false
  | st_clear e : stands (_ ← redis (DEL rec); Fail e) false false
  | st_ret a : stands (Ret a) false false
  | st_fail e : stands (Fail e) false false.

Context (t0 : Date).

(** The lock has one holder or none; the executions are those of the running
    requests. *)
Record exclusive (m : machine R) (holders runners : nat) : Prop := {
  ex_runs : started m = (ended m + runners)%nat;
  ex_lock :
    (cells m !! lck = None ∧ holders = 0%nat)
    ∨ (∃ v d, cells m !! lck = Some (mkCell v (Some d)) ∧ t0 + LOCK_TTL_SECONDS * 1000 ≤ d ∧ holders = 1%nat) }.

Abbreviation one_if b := (if b then 1 else 0)%nat.

Lemma exclusive_record m h r (c : cell (IVal R)) : exclusive m h r → exclusive (mkMachine (<[rec := c]> (cells m)) (started m) (ended m)) h r.
Proof. intros [Hr Hl]. split; [done|]. cbn. by rewrite lookup_insert_ne. Qed.

Lemma exclusive_clear m h r : exclusive m h r → exclusive (mkMachine (delete rec (cells m)) (started m) (ended m)) h r.
Proof. intros [Hr Hl]. split; [done|]. cbn. by rewrite lookup_delete_ne. Qed.

Lemma exclusive_release m w r : exclusive m (w + 1) r → exclusive (mkMachine (delete lck (cells m)) (started m) (ended m)) w r.
Proof.
  intros [Hr Hl]. split; [done|]. cbn. left. rewrite lookup_delete_eq. split; [done|].
  destruct Hl as [[_ H] | (v & d & _ & _ & H)]; lia.
Qed.

Lemma exclusive_acquire now t m r : t0 ≤ now → exclusive m 0 r → find now lck (cells m) = None →
  exclusive (mkMachine (<[lck := mkCell (LOCKED t) (deadline now LOCK_TTL_SECONDS)]> (cells m)) (started m) (ended m)) 1 r.
Proof.
  intros Hnow [Hr _] _. split; [done|]. cbn. right. eexists _, _. rewrite lookup_insert_eq. split_and!; [done|lia|done].
Qed.

Lemma stands_moves now m p h x w r m' p' : t0 ≤ now < t0 + LOCK_TTL_SECONDS * 1000 → stands p h x →
  exclusive m (w + one_if h) (r + one_if x) → advance (handle script) p now m = Some (m', p') →
  ∃ h' x', stands p' h' x' ∧ exclusive m' (w + one_if h') (r + one_if x').
Proof.
  intros Hnow Hp Hex. destruct m as [s a b]. destruct Hp; cbn -[acquire completed failed execute IDEMPOTENCY_TTL_SECONDS];
    try discriminate 1; rewrite ?Nat.add_0_r in Hex.
  - intros [= <- <-]. exists false, false. rewrite !Nat.add_0_r. split; [|exact Hex].
    destruct (peek now rec s) as [[t| |[y|] code t]|]; constructor.
  - intros [= <- <-]. exists false, false. rewrite !Nat.add_0_r. split; [constructor|exact Hex].
  - destruct (find now lck s) as [c|] eqn:Hf; cbn -[execute IDEMPOTENCY_TTL_SECONDS]; intros [= <- <-].
    + exists false, false. rewrite !Nat.add_0_r. split; [constructor|exact Hex].
    + exists true, false. rewrite !Nat.add_0_r. split; [constructor|].
      assert (w = 0)%nat as ->.
      { destruct (ex_lock _ _ _ Hex) as [[_ H] | (v & d & H & Hd & _)]; [lia|]. cbn in H. unfold find, live in Hf.
        rewrite H in Hf. cbn in Hf. destruct (Z.ltb_spec now d); [done|lia]. }
      apply (exclusive_acquire now _ (mkMachine s a b)); [lia|done|done].
  - intros [= <- <-]. exists true, false. rewrite !Nat.add_0_r. split; [constructor|].
    by apply (exclusive_record (mkMachine s a b)).
  - intros [= <- <-]. exists true, true. split; [constructor|]. destruct Hex as [Hr Hl]. split; [cbn in *; lia|done].
  - destruct (script b) as [[body code]|e] eqn:Es; intros [= <- <-]; exists true, false; rewrite !Nat.add_0_r;
      (split; [constructor|]); destruct Hex as [Hr Hl]; (split; [cbn in *; lia|done]).
  - intros [= <- <-]. exists true, false. rewrite !Nat.add_0_r. split; [constructor|exact Hex].
  - intros [= <- <-]. exists true, false. rewrite !Nat.add_0_r. split; [constructor|].
    by apply (exclusive_record (mkMachine s a b)).
  - intros [= <- <-]. exists false, false. rewrite !Nat.add_0_r. split; [constructor|].
    by apply (exclusive_release (mkMachine s a b)).
  - intros [= <- <-]. exists false, false. rewrite !Nat.add_0_r. split; [constructor|].
    by apply (exclusive_release (mkMachine s a b)).
  - intros [= <- <-]. exists false, false. rewrite !Nat.add_0_r. split; [constructor|].
    by apply (exclusive_clear (mkMachine s a b)).
Qed.

(** A pool of requests, with its holders and runners. *)
Inductive crowd : list (prog (event R) (Answer R)) → nat → nat → Prop :=
  | crowd_nil : crowd [] 0 0
  | crowd_cons p h x l H X : stands p h x → crowd l H X → crowd (p :: l) (H + one_if h) (X + one_if x).

Lemma crowd_lookup l H X i p : crowd l H X → l !! i = Some p →
  ∃ h x w r, stands p h x ∧ H = (w + one_if h)%nat ∧ X = (r + one_if x)%nat
    ∧ ∀ p' h' x', stands p' h' x' → crowd (<[i := p']> l) (w + one_if h') (r + one_if x').
Proof.
  intros Hc. revert i. induction Hc as [|q hq xq l H X Hq Hl IH]; intros [|i] Hi; cbn in Hi; [done|done| |].
  - injection Hi as ->. exists hq, xq, H, X. split_and!; [done..|]. intros p' h' x' Hp'. by constructor.
  - destruct (IH i Hi) as (h & x & w & r & Hp & -> & -> & Hins).
    exists h, x, (w + one_if hq)%nat, (r + one_if xq)%nat. split_and!; [done|lia|lia|]. intros p' h' x' Hp'. cbn.
    replace (w + one_if hq + one_if h')%nat with (w + one_if h' + one_if hq)%nat by lia.
    replace (r + one_if xq + one_if x')%nat with (r + one_if x' + one_if xq)%nat by lia.
    constructor; [done|]. by apply Hins.
Qed.

Lemma crowd_runners l H X : crowd l H X → (X ≤ H)%nat.
Proof. induction 1 as [|p h x l H X Hp _ IH]; [done|]. destruct Hp; lia. Qed.

Lemma crowd_start n : crowd (replicate n request) 0 0.
Proof. induction n as [|n IH]; [constructor|]. exact (crowd_cons _ _ _ _ _ _ st_start IH). Qed.

Definition contended (c : config (E := event R) (S := machine R) (Answer R)) : Prop :=
  t0 ≤ clock c ∧ ∃ H X, crowd (pool c) H X ∧ exclusive (memory c) H X.

Lemma crowd_step c c' : together c c' → clock c' < t0 + LOCK_TTL_SECONDS * 1000 → contended c → contended c'.
Proof.
  intros Hs Hlt (Ht & H & X & Hc & Hex). destruct Hs as [now m l i p m' p' Hi Hm|now now' m l Hle]; cbn [clock pool memory] in *.
  - destruct (crowd_lookup l H X i p Hc Hi) as (h & x & w & r & Hp & -> & -> & Hins).
    destruct (stands_moves now m p h x w r m' p') as (h' & x' & Hp' & Hex'); [lia|done..|].
    split; [done|]. eexists _, _. split; [by apply Hins|exact Hex'].
  - split; [cbn; lia|]. by exists H, X.
Qed.

Lemma crowd_run c c' : rtc together c c' → contended c → clock c' < t0 + LOCK_TTL_SECONDS * 1000 → contended c'.
Proof.
  intros Hrun Hc. revert c' Hrun.
  apply (rtc_ind_r (λ c', clock c' < t0 + LOCK_TTL_SECONDS * 1000 → contended c') c); [done|].
  intros y z _ Hstep IH Hlt. eapply crowd_step; [exact Hstep|exact Hlt|]. apply IH. destruct Hstep; cbn in *; lia.
Qed.
End correct.

(** A request is executed once and replayed after that. When a request ran
    the handler and answered with a body, every request with its key within the
    next 24 hours gets that body again and changes nothing. When its handler
    threw, the key is free again: the next request executes the handler. *)
Theorem idempotent_replay {R : Type} (script : nat → result (option R * Z)) (merchantId key : string) (t t' : Date)
    (m m' : machine R) (r : result (Answer R)) :
  run (handle script) (processIdempotency merchantId key) t m = (m', r) → t ≤ t' < t + 86400000 →
  match r with
  | Ok (Executed (Some body)) =>
      ∃ code, run (handle script) (processIdempotency merchantId key) t' m' = (m', Ok (Replayed body code))
  | Throw _ =>
      started m' ≠ started m →
      started (run (handle script) (processIdempotency merchantId key) t' m').1 = S (started m')
  | _ => True
  end.
Proof.
  intros Hrun Ht. destruct r as [[b code|[body|]]|e]; [done| |done|].
  - destruct (executed_stored script merchantId key t m m' (Some body) Hrun) as (code & Hrec).
    exists (status_or_200 (status_or_200 code)). rewrite request_alone. unfold peek, find. rewrite Hrec. unfold live. cbn.
    change (IDEMPOTENCY_TTL_SECONDS * 1000) with 86400000. by destruct (Z.ltb_spec t' (t + 86400000)); [|lia].
  - intros Hne. destruct (thrown_cleared script merchantId key t m m' e Hrun Hne) as [Hrec Hlck].
    rewrite request_alone. unfold peek, find. rewrite Hrec. cbn [fmap option_fmap option_map].
    rewrite acquire_alone by (unfold find; by rewrite Hlck). cbv zeta. by destruct (script (ended m')) as [[]|].
Qed.

(** C14: the handler never executes twice at once. However many requests with one
    key arrive, and however their commands interleave, within the 30 s of the
    lock at most one handler execution is in progress. *)
Theorem handler_exclusive {R : Type} (script : nat → result (option R * Z)) (merchantId key : string) (t0 : Date)
    (n : nat) (m : machine R) (c : config (E := event R) (S := machine R) (Answer R)) :
  cells m !! lock merchantId key = None → started m = ended m →
  rtc (interleave (handle script)) (mkConfig t0 m (replicate n (processIdempotency merchantId key))) c →
  clock c < t0 + LOCK_TTL_SECONDS * 1000 →
  (ended (memory c) ≤ started (memory c) ≤ S (ended (memory c)))%nat.
Proof.
  intros Hl He Hrun Hlt.
  assert (contended merchantId key t0 c) as (_ & H & X & Hc & [Hr Hlock]).
  { eapply crowd_run; [exact Hrun| |exact Hlt]. split; [cbn; lia|]. exists 0%nat, 0%nat. cbn [pool memory].
    split; [apply crowd_start|]. split; [lia|by left]. }
  pose proof (crowd_runners _ _ _ _ _ Hc). destruct Hlock as [[_ ->] | (v & d & _ & _ & ->)]; lia.
Qed.

(** The look-up and the lock are two steps. A request that looked before
    another one started and takes the lock after that one ended executes the
    handler again: both requests of one key execute, both answer as if they were
    the first, and the second answer replaces the stored one. *)
Theorem late_lock_executes_twice {R : Type} (script : nat → result (option R * Z)) (merchantId key : string) (t : Date)
    (m : machine R) (b0 b1 : option R) (c0 c1 : Z) :
  cells m !! record merchantId key = None → cells m !! lock merchantId key = None →
  script (ended m) = Ok (b0, c0) → script (S (ended m)) = Ok (b1, c1) →
  ∃ m', rtc (interleave (handle script))
      (mkConfig t m [processIdempotency merchantId key; processIdempotency merchantId key])
      (mkConfig t m' [Ret (Executed b1); Ret (Executed b0)])
    ∧ started m' = S (S (started m))
    ∧ cells m' !! record merchantId key
      = Some (mkCell (COMPLETED b1 (status_or_200 c1) t) (deadline t IDEMPOTENCY_TTL_SECONDS)).
Proof.
  intros Hrec Hlck H0 H1.
  pose proof (run_interleaves (handle script) (processIdempotency merchantId key) t m
    [acquire merchantId key; processIdempotency merchantId key] 1 eq_refl) as Hb.
  rewrite request_alone in Hb. unfold peek, find at 1 2 in Hb. rewrite Hrec in Hb. cbn [fmap option_fmap option_map] in Hb.
  rewrite (acquire_alone script merchantId key t m) in Hb by (unfold find; by rewrite Hlck). rewrite H0 in Hb.
  cbn [fst snd insert list_insert] in Hb. set (m1 := stored _ _ _ _ _ _) in Hb.
  pose proof (run_interleaves (handle script) (acquire merchantId key) t m1
    [acquire merchantId key; Ret (Executed b0)] 0 eq_refl) as Ha.
  assert (cells m1 !! lock merchantId key = None) as Hl1 by (subst m1; unfold stored; cbn; by rewrite lookup_delete_eq).
  rewrite (acquire_alone script merchantId key t m1) in Ha by (unfold find; by rewrite Hl1). cbn [ended m1] in Ha.
  change (ended m1) with (S (ended m)) in Ha. rewrite H1 in Ha. cbn [fst snd insert list_insert] in Ha.
  eexists. split_and!; [|..].
  - eapply rtc_l.
    { apply (il_step _ t m _ 0%nat (processIdempotency merchantId key) m (acquire merchantId key)); [reflexivity|].
      destruct m as [s a b]. cbn -[acquire]. unfold peek, find. cbn [cells] in Hrec. rewrite Hrec. reflexivity. }
    etrans; [exact Hb|exact Ha].
  - reflexivity.
  - unfold stored. cbn [cells]. by rewrite lookup_delete_ne, lookup_insert_eq by done.
Qed.

(** A request that is lost blocks its key for a day. If the replica stops
    after it marked the key PROCESSING, the lock expires after 30 s, but every
    further request with the key is refused with 409 for 24 hours. *)
Theorem lost_request_blocks_key {R : Type} (script : nat → result (option R * Z)) (merchantId key : string) (t : Date)
    (m : machine R) :
  cells m !! record merchantId key = None → cells m !! lock merchantId key = None →
  ∃ m' p, rtc (interleave (handle script)) (mkConfig t m [processIdempotency merchantId key]) (mkConfig t m' [p])
    ∧ ∀ t', t ≤ t' < t + 86400000 →
        run (handle script) (processIdempotency merchantId key) t' m'
        = (m', Throw (HttpException 409 "IDEMPOTENCY_CONFLICT")).
Proof.
  intros Hrec Hlck. destruct m as [s a b]. cbn [cells] in Hrec, Hlck.
  exists (mkMachine (locked merchantId key t (mkMachine s a b)) a b), (execute merchantId key). split.
  - unfold processIdempotency.
    etrans; [eapply (prefix_interleaves _ (redis (GET (record merchantId key))) _ t _ (mkMachine s a b) None _ 0%nat); [reflexivity|]|].
    { cbn. unfold peek, find. rewrite Hrec. reflexivity. }
    cbn [insert list_insert]. unfold acquire.
    etrans; [eapply (prefix_interleaves _ (redis NOW) _ t _ (mkMachine s a b) t _ 0%nat); reflexivity|]. cbn [insert list_insert].
    etrans; [eapply (prefix_interleaves _ (redis (SETNX (lock merchantId key) (LOCKED t) LOCK_TTL_SECONDS)) _ t _ _ true _ 0%nat);
             [reflexivity|]|].
    { cbn. unfold find. rewrite Hlck. reflexivity. }
    cbn [negb insert list_insert].
    apply (prefix_interleaves _ (redis (SET (record merchantId key) PROCESSING (Some IDEMPOTENCY_TTL_SECONDS)))
      (λ _, execute merchantId key) t _ _ tt
      [_ ← redis (SET (record merchantId key) PROCESSING (Some IDEMPOTENCY_TTL_SECONDS)); execute merchantId key] 0%nat);
      reflexivity.
  - intros t' Ht. rewrite request_alone. unfold peek, find, locked. cbn [cells]. rewrite lookup_insert_eq. unfold live. cbn.
    change (IDEMPOTENCY_TTL_SECONDS * 1000) with 86400000. by destruct (Z.ltb_spec t' (t + 86400000)); [|lia].
Qed.

(** ** Concrete requests *)

(** A handler that answers 201 with the number of the execution. *)
Definition sample_script (n : nat) : result (option nat * Z) := Ok (Some n, 201).
Definition idle_machine : machine nat := mkMachine ∅ 0 0.

Lemma idempotent_replay_witness : ∃ m code,
  run (handle sample_script) (processIdempotency "m_1" "k") 5 idle_machine = (m, Ok (Executed (Some 0%nat)))
  ∧ run (handle sample_script) (processIdempotency "m_1" "k") 1000 m = (m, Ok (Replayed 0%nat code)).
Proof.
  eexists. destruct (idempotent_replay sample_script "m_1" "k" 5 1000 idle_machine _ (Ok (Executed (Some 0%nat))) eq_refl)
    as (code & H); [lia|]. exists code. split; [reflexivity|exact H].
Defined.

Lemma handler_exclusive_witness : ∃ c : config (E := event nat) (S := machine nat) (Answer nat),
  rtc (interleave (handle sample_script)) (mkConfig 5 idle_machine (replicate 3 (processIdempotency "m_1" "k"))) c
  ∧ (ended (memory c) ≤ started (memory c) ≤ S (ended (memory c)))%nat.
Proof.
  eexists. split; [apply (run_interleaves _ (processIdempotency "m_1" "k") 5 idle_machine _ 1%nat); reflexivity|].
  eapply (handler_exclusive sample_script "m_1" "k" 5 3 idle_machine).
  - reflexivity.
  - reflexivity.
  - apply (run_interleaves _ (processIdempotency "m_1" "k") 5 idle_machine _ 1%nat). reflexivity.
  - cbn [clock]. unfold LOCK_TTL_SECONDS. lia.
Defined.

Lemma late_lock_executes_twice_witness : ∃ m,
  rtc (interleave (handle sample_script))
    (mkConfig 5 idle_machine [processIdempotency "m_1" "k"; processIdempotency "m_1" "k"])
    (mkConfig 5 m [Ret (Executed (Some 1%nat)); Ret (Executed (Some 0%nat))])
  ∧ started m = 2%nat.
Proof.
  destruct (late_lock_executes_twice sample_script "m_1" "k" 5 idle_machine (Some 0%nat) (Some 1%nat) 201 201)
    as (m & Hrun & Hst & _).
  - reflexivity.
  - reflexivity.
  - reflexivity.
  - reflexivity.
  - exists m. split; [exact Hrun|exact Hst].
Defined.

Lemma lost_request_blocks_key_witness : ∃ m p,
  rtc (interleave (handle sample_script)) (mkConfig 5 idle_machine [processIdempotency "m_1" "k"]) (mkConfig 5 m [p])
  ∧ run (handle sample_script) (processIdempotency "m_1" "k") 60000000 m
    = (m, Throw (HttpException 409 "IDEMPOTENCY_CONFLICT")).
Proof.
  destruct (lost_request_blocks_key sample_script "m_1" "k" 5 idle_machine) as (m & p & Hrun & H).
  - reflexivity.
  - reflexivity.
  - exists m, p. split; [exact Hrun|]. apply H. lia.
Defined.
