(* ===== verification/Shared.v ===== *)
(** * Programs that share a state: a logic of local knowledge

    Each program of a pool carries a ghost value of its own, such as the amount it
    has reserved. An invariant ties the shared state to the ghost values of all
    programs, and a preorder says what a program may remember of a state it saw
    while others go on. The assertion [wp] is by recursion on the program; the
    invariant of a pool whose programs all satisfy it holds under every
    interleaving. *)

From S2P Require Import Prelude Redis.

Section logic.
Context {E : Type → Type} {S : Type} (handler : ∀ X, E X → Date → S → S * result X).
Context {L : Type} (inv : S → list L → Prop).
Context (grows : S → S → Prop) `{!PreOrder grows}.
Context (admissible : Date → Prop).

Implicit Types (s : S) (l : L).

(** From what the program saw last, [s], with the ghost value [l]: every event keeps
    the invariant, and the program ends in [Φ] or fails in [Ψ]. *)
Fixpoint wp {A} (p : prog E A) (Φ : S → L → A → Prop) (Ψ : S → L → js_error → Prop) s l : Prop :=
  match p with
  | Ret a => Φ s l a
  | Fail e => Ψ s l e
  | Do c k =>
      ∀ now s1 pre post, admissible now → grows s s1 → inv s1 (pre ++ l :: post) →
      ∃ s2 r l', handler _ c now s1 = (s2, r) ∧ grows s1 s2 ∧ inv s2 (pre ++ l' :: post) ∧
        match r with Ok x => wp (k x) Φ Ψ s2 l' | Throw e => Ψ s2 l' e end
  end.

Lemma wp_mono {A} (p : prog E A) (Φ Φ' : S → L → A → Prop) (Ψ Ψ' : S → L → js_error → Prop) s l :
  (∀ s l a, Φ s l a → Φ' s l a) → (∀ s l e, Ψ s l e → Ψ' s l e) → wp p Φ Ψ s l → wp p Φ' Ψ' s l.
Proof.
  intros HΦ HΨ. revert s l. induction p as [a|e|X c k IH]; intros s l Hp; cbn in *; [by apply HΦ|by apply HΨ|].
  intros now s1 pre post Ha Hg Hi. destruct (Hp now s1 pre post Ha Hg Hi) as (s2 & r & l' & Hh & Hg2 & Hi2 & Hr).
  exists s2, r, l'. split_and!; [done..|]. destruct r; [by apply IH|by apply HΨ].
Qed.

Lemma wp_bind {A B} (p : prog E A) (f : A → prog E B) Φ Ψ s l :
  wp p (λ s l a, wp (f a) Φ Ψ s l) Ψ s l → wp (p ≫= f) Φ Ψ s l.
Proof.
  revert s l. induction p as [a|e|X c k IH]; intros s l Hp; cbn in *; [done..|].
  intros now s1 pre post Ha Hg Hi. destruct (Hp now s1 pre post Ha Hg Hi) as (s2 & r & l' & Hh & Hg2 & Hi2 & Hr).
  exists s2, r, l'. split_and!; [done..|]. destruct r; [by apply IH|done].
Qed.

(** One event. *)
Lemma wp_call {X} (c : E X) (Φ : S → L → X → Prop) Ψ s l :
  (∀ now s1 pre post, admissible now → grows s s1 → inv s1 (pre ++ l :: post) →
   ∃ s2 x l', handler _ c now s1 = (s2, Ok x) ∧ grows s1 s2 ∧ inv s2 (pre ++ l' :: post) ∧ Φ s2 l' x) →
  wp (call c) Φ Ψ s l.
Proof.
  intros Hc now s1 pre post Ha Hg Hi. destruct (Hc now s1 pre post Ha Hg Hi) as (s2 & x & l' & Hh & Hg2 & Hi2 & Hr).
  exists s2, (Ok x), l'. by split_and!.
Qed.

(** ** Pools *)

Definition keeps_going {A} (Φ : S → L → A → Prop) Ψ s (p : prog E A) l : Prop := ∃ s0, grows s0 s ∧ wp p Φ Ψ s0 l.

Lemma keeps_later {A} Φ Ψ s s' (p : prog E A) l : grows s s' → keeps_going Φ Ψ s p l → keeps_going Φ Ψ s' p l.
Proof. intros Hg (s0 & Hg0 & Hp). exists s0. split; [by etrans|done]. Qed.

Lemma pool_step {A} Φ Ψ (c c' : config A) ls :
  interleave handler c c' → admissible (clock c) → inv (memory c) ls →
  Forall2 (keeps_going Φ Ψ (memory c)) (pool c) ls →
  ∃ ls', inv (memory c') ls' ∧ Forall2 (keeps_going Φ Ψ (memory c')) (pool c') ls'.
Proof.
  intros [now s pl i p s' p' Hp Hadv|now now' s pl Ht] Ha Hi Hall; cbn [clock memory pool] in *; [|by exists ls].
  destruct (Forall2_lookup_l _ _ _ _ _ Hall Hp) as (l & Hl & s0 & Hg0 & Hwp).
  destruct p as [a|e|X ev k]; [discriminate Hadv..|]. cbn in Hadv.
  pose proof (take_drop_middle _ _ _ Hl) as Hls. rewrite <- Hls in Hi.
  destruct (Hwp now s _ _ Ha Hg0 Hi) as (s2 & r & l' & Hh & Hg2 & Hi2 & Hr).
  rewrite Hh in Hadv. injection Hadv as <- <-.
  exists (<[i := l']> ls). split; [by rewrite insert_take_drop by by eapply lookup_lt_Some|].
  apply Forall2_insert.
  - eapply Forall2_impl; [exact Hall|]. intros q x Hq. by eapply keeps_later.
  - exists s2. split; [reflexivity|]. by destruct r.
Qed.

Lemma pool_run {A} Φ Ψ (c c' : config A) ls :
  rtc (interleave handler) c c' → (∀ t, clock c ≤ t ≤ clock c' → admissible t) → inv (memory c) ls →
  Forall2 (keeps_going Φ Ψ (memory c)) (pool c) ls →
  ∃ ls', inv (memory c') ls' ∧ Forall2 (keeps_going Φ Ψ (memory c')) (pool c') ls'.
Proof.
  intros Hrun. revert ls. induction Hrun as [c|c c1 c' Hstep Hrun IH]; intros ls Ha Hi Hall; [by exists ls|].
  assert (clock c1 ≤ clock c') as Hle.
  { clear -Hrun. induction Hrun as [|? ? ? Hs _ IH]; [lia|]. by destruct Hs; cbn in *; lia. }
  assert (clock c ≤ clock c1) as Hle1 by by destruct Hstep; cbn in *; lia.
  destruct (pool_step Φ Ψ c c1 ls Hstep) as (ls1 & Hi1 & Hall1); [apply Ha; lia|done|done|].
  apply (IH ls1); [|done|done]. intros t Ht. apply Ha. lia.
Qed.

(** The state only moves forward. *)
Lemma pool_step_grows {A} Φ Ψ (c c' : config A) ls :
  interleave handler c c' → admissible (clock c) → inv (memory c) ls → Forall2 (keeps_going Φ Ψ (memory c)) (pool c) ls → grows (memory c) (memory c').
Proof.
  intros [now s pl i p s' p' Hp Hadv|now now' s pl Ht] Ha Hi Hall; cbn [clock memory pool] in *; [|reflexivity].
  destruct (Forall2_lookup_l _ _ _ _ _ Hall Hp) as (l & Hl & s0 & Hg0 & Hwp). destruct p as [a|e|X ev k]; [discriminate Hadv..|]. cbn in Hadv.
  pose proof (take_drop_middle _ _ _ Hl) as Hls. rewrite <- Hls in Hi. destruct (Hwp now s _ _ Ha Hg0 Hi) as (s2 & r & l' & Hh & Hg2 & _).
  rewrite Hh in Hadv. by injection Hadv as <- <-.
Qed.

Lemma pool_grows {A} Φ Ψ (c c' : config A) ls :
  rtc (interleave handler) c c' → (∀ t, admissible t) → inv (memory c) ls → Forall2 (keeps_going Φ Ψ (memory c)) (pool c) ls → grows (memory c) (memory c').
Proof.
  intros Hrun Ha. revert ls. induction Hrun as [c|c c1 c' Hstep Hrun IH]; intros ls Hi Hall; [reflexivity|].
  destruct (pool_step Φ Ψ c c1 ls Hstep (Ha _) Hi Hall) as (ls1 & Hi1 & Hall1). etrans; [by eapply pool_step_grows|by eapply IH].
Qed.
End logic.
