(* ===== verification/Delegation.v ===== *)
(** * Delegated spending

    [spend-policy.vo.ts], [delegation.aggregate.ts], [charge-approval.aggregate.ts],
    their repositories, [delegation.service.ts], [charge-approval.service.ts] and
    [PaymentController.charge]: an agent spends on a merchant's behalf, within a
    policy, and above a threshold only with an operator's consent. The services are
    programs whose database calls other requests may come between. *)

From stdpp Require Import pretty.
From S2P Require Import Prelude JsNumber JsDate Money Policies PaymentStatus Payment Ledger LedgerParams Routing Store Checkout Redis.

(** ** The policy ([spend-policy.vo.ts]) *)

Module SpendPolicy.

Record t := mk {
  perTransactionLimit : Money.t;
  monthlyLimit : Money.t;
  allowedCategories : option (list string);
  requireApprovalAboveAmount : option Money.t }.

Definition code (m : Money.t) : string := Currency.code (Money.currency m).

Definition create (perTransactionLimit monthlyLimit : Money.t) (allowedCategories : option (list string))
    (requireApprovalAboveAmount : option Money.t) : result t :=
  _ ← throw_if (negb (String.eqb (code perTransactionLimit) (code monthlyLimit)))
        (DomainError "perTransactionLimit and monthlyLimit must be in the same currency");
  beyond ← Money.isGreaterThan perTransactionLimit monthlyLimit;
  _ ← throw_if beyond (DomainError "perTransactionLimit cannot exceed monthlyLimit");
  _ ← match requireApprovalAboveAmount with
      | Some threshold =>
          _ ← throw_if (negb (String.eqb (code threshold) (code perTransactionLimit)))
                (DomainError "requireApprovalAboveAmount must be in the same currency as perTransactionLimit");
          unreachable ← Money.isGreaterThan threshold perTransactionLimit;
          throw_if unreachable (DomainError "requireApprovalAboveAmount cannot exceed perTransactionLimit")
      | None => Ok tt
      end;
  Ok (mk perTransactionLimit monthlyLimit
        (match allowedCategories with Some (c :: l) => Some (c :: l) | _ => None end)
        requireApprovalAboveAmount).

Definition currency (p : t) : string := code (perTransactionLimit p).

Definition isCategoryAllowed (category : option string) (p : t) : bool :=
  match allowedCategories p with
  | None => true
  | Some allowed => truthy category && match category with Some c => includes allowed c | None => false end
  end.

Definition requiresApproval (amount : Money.t) (p : t) : result bool :=
  match requireApprovalAboveAmount p with
  | None => Ok false
  | Some threshold => Money.isGreaterThan amount threshold
  end.

End SpendPolicy.

(** ** The delegation ([delegation.aggregate.ts]) *)

(** [String(n).padStart(2, '0')] *)
Definition padStart2 (s : string) : string :=
  match String.length s with O => "00" | S O => "0" ++ s | _ => s end.

(** The UTC calendar month, e.g. ["2026-08"]. *)
Definition monthKeyOf (date : Date) : string :=
  pretty (JsDate.getUTCFullYear date) ++ "-" ++ padStart2 (pretty (JsDate.getUTCMonth date + 1)).

Module Delegation.

Inductive DelegationStatus := ACTIVE | REVOKED.

#[global] Instance DelegationStatus_eq_dec : EqDecision DelegationStatus.
Proof. solve_decision. Defined.

Record t := mk {
  id : string;
  merchantId : string;
  agentName : string;
  spendPolicy : SpendPolicy.t;
  status : DelegationStatus;
  currentMonthKey : string;
  currentMonthSpent : Money.t;
  jti : string;
  tokenExpiresAt : Date;
  createdAt : Date;
  revokedAt : option Date;
  updatedAt : Date;
  signingKeyCiphertext : option string }.

Definition create (now : Date) (id merchantId agentName : string) (spendPolicy : SpendPolicy.t) (jti : string)
    (tokenExpiresAt : Date) (signingKeyCiphertext : string) : result t :=
  zero ← Money.zero (SpendPolicy.currency spendPolicy);
  Ok (mk id merchantId agentName spendPolicy ACTIVE (monthKeyOf now) zero jti tokenExpiresAt now None now
        (Some signingKeyCiphertext)).

Definition spentThisMonth (now : Date) (d : t) : result Money.t :=
  if String.eqb (monthKeyOf now) (currentMonthKey d) then Ok (currentMonthSpent d)
  else Money.zero (SpendPolicy.currency (spendPolicy d)).

Definition revoke (now : Date) (d : t) : t :=
  d {{ status := REVOKED; revokedAt := Some now; updatedAt := now }}.

End Delegation.

(** ** The request ([charge-payment.dto.ts], [build-checkout-saga-input.ts]) *)

Record BinInfoDto := mkBinInfoDto {
  dto_bin : string;
  dto_country : string;
  dto_cardBrand : Bin.CardBrand;
  dto_cardType : Bin.CardType;
  dto_cardProduct : option Bin.CardProduct;
  dto_issuingBank : option string }.

Record ChargePaymentDto := mkChargePaymentDto {
  dto_amount : number;
  dto_currency : string;
  dto_paymentMethodId : option string;
  dto_cardToken : option string;
  dto_orderId : option string;
  dto_customerId : option string;
  dto_description : option string;
  dto_statementDescriptor : option string;
  dto_binInfo : option BinInfoDto;
  dto_preferredProvider : option PSPProvider;
  dto_metadata : option (list (string * string));
  dto_category : option string;
  dto_captureMethod : option CaptureMethod;
  dto_presentmentCurrency : option string;
  dto_splits : option (list (string * number)) }.

Fixpoint splitAmounts (currency : string) (l : list (string * number)) : result (list (string * Money.t)) :=
  match l with
  | [] => Ok []
  | (m, x) :: l => a ← Money.of_ (Money.ANumber x) currency None; l ← splitAmounts currency l; Ok ((m, a) :: l)
  end.

Definition buildCheckoutSagaInput (paymentId merchantId idempotencyKey : string) (dto : ChargePaymentDto)
    (delegationId : option string) (initiatedBy : option PaymentInitiator)
    (agentPercentOfRemainingMonthlyBudget : option number) : result CheckoutSagaInput :=
  amount ← Money.of_ (Money.ANumber (dto_amount dto)) (dto_currency dto) None;
  splits ← match dto_splits dto with
           | Some l => Some <$> splitAmounts (dto_currency dto) l
           | None => Ok None
           end;
  binInfo ← match dto_binInfo dto with
            | Some b =>
                Some <$> Bin.create (dto_bin b) (dto_country b) (dto_cardBrand b) (dto_cardType b) (dto_cardProduct b)
                  (dto_issuingBank b)
            | None => Ok None
            end;
  Ok (mkCheckoutSagaInput paymentId idempotencyKey amount
        (mkPaymentMetadata merchantId (dto_customerId dto) (dto_orderId dto) (dto_description dto)
           (dto_statementDescriptor dto) (dto_metadata dto))
        binInfo (dto_paymentMethodId dto) (dto_cardToken dto) (dto_preferredProvider dto) (dto_captureMethod dto)
        splits delegationId initiatedBy agentPercentOfRemainingMonthlyBudget None).

(** ** The approval ([charge-approval.aggregate.ts]) *)

Module ChargeApproval.

Inductive ChargeApprovalStatus := PENDING | APPROVED | DENIED.

#[global] Instance ChargeApprovalStatus_eq_dec : EqDecision ChargeApprovalStatus.
Proof. solve_decision. Defined.

(** [chargeRequest] is the request that was deferred. *)
Record t := mk {
  id : string;
  paymentId : string;
  delegationId : string;
  merchantId : string;
  amount : Money.t;
  idempotencyKey : string;
  chargeRequest : ChargePaymentDto;
  status : ChargeApprovalStatus;
  createdAt : Date;
  decidedAt : option Date;
  decidedBy : option string;
  denialReason : option string }.

Definition create (now : Date) (id paymentId delegationId merchantId : string) (amount : Money.t)
    (idempotencyKey : string) (chargeRequest : ChargePaymentDto) : t :=
  mk id paymentId delegationId merchantId amount idempotencyKey chargeRequest PENDING now None None None.

Definition deny (now : Date) (by_ : string) (reason : option string) (a : t) : result t :=
  if bool_decide (status a = PENDING)
  then Ok (a {{ status := DENIED; decidedAt := Some now; decidedBy := Some by_; denialReason := reason }})
  else Throw (DomainError "already decided").

End ChargeApproval.

(** ** The tables ([delegation.entity.ts], [charge-approval.entity.ts]) *)

(** What the database driver does with a value, as its documentation says:
    [update_returning n] is the length of the array that [query] resolves with
    when an [UPDATE ... RETURNING] changed [n] rows, and [simple_array l] what is
    read from a [simple-array] column after [l] was written. *)
Class Driver := { update_returning : nat → nat; simple_array : list string → list string }.

Record DelegationEntity := mkDelegationEntity {
  e_merchantId : string;
  e_agentName : string;
  perTransactionLimitMinorUnits : Z;
  monthlyLimitMinorUnits : Z;
  e_currencyCode : string;
  e_allowedCategories : option (list string);
  requireApprovalAboveAmountMinorUnits : option Z;
  e_status : Delegation.DelegationStatus;
  e_currentMonthKey : string;
  currentMonthSpentMinorUnits : Z;
  e_jti : string;
  e_tokenExpiresAt : Date;
  e_signingKeyCiphertext : option string;
  e_createdAt : Date;
  e_updatedAt : Date;
  e_revokedAt : option Date }.

(** The range of a [bigint] column. *)
Definition int8 (z : Z) : bool := (- 2 ^ 63 <=? z) && (z <? 2 ^ 63).

Definition out_of_range : js_error := ExternalFailure "bigint out of range".

Module DelegationTypeOrmRepository.
Section repository.
Context `{Driver}.
Abbreviation rows := (gmap string DelegationEntity).

(** [repo.save]: the whole row; [created_at] stays, [updated_at] is now. *)
Definition save (now : Date) (d : Delegation.t) (s : rows) : result rows :=
  let policy := Delegation.spendPolicy d in
  let per := Money.amountMinorUnits (SpendPolicy.perTransactionLimit policy) in
  let monthly := Money.amountMinorUnits (SpendPolicy.monthlyLimit policy) in
  let threshold := Money.amountMinorUnits <$> SpendPolicy.requireApprovalAboveAmount policy in
  let spent := Money.amountMinorUnits (Delegation.currentMonthSpent d) in
  if negb (int8 per && int8 monthly && int8 spent && match threshold with Some x => int8 x | None => true end)
  then Throw out_of_range
  else
    let created := match s !! Delegation.id d with Some e => e_createdAt e | None => now end in
    Ok (<[Delegation.id d :=
          mkDelegationEntity (Delegation.merchantId d) (Delegation.agentName d) per monthly
            (SpendPolicy.currency policy) (simple_array <$> SpendPolicy.allowedCategories policy) threshold
            (Delegation.status d) (Delegation.currentMonthKey d) spent (Delegation.jti d) (Delegation.tokenExpiresAt d)
            (Delegation.signingKeyCiphertext d) created now (Delegation.revokedAt d)]> s).

Definition toDomain (id : string) (e : DelegationEntity) : result Delegation.t :=
  per ← Money.fromMinorUnits (perTransactionLimitMinorUnits e) (e_currencyCode e) None;
  monthly ← Money.fromMinorUnits (monthlyLimitMinorUnits e) (e_currencyCode e) None;
  threshold ← match requireApprovalAboveAmountMinorUnits e with
              | Some x => Some <$> Money.fromMinorUnits x (e_currencyCode e) None
              | None => Ok None
              end;
  policy ← SpendPolicy.create per monthly (e_allowedCategories e) threshold;
  spent ← Money.fromMinorUnits (currentMonthSpentMinorUnits e) (e_currencyCode e) None;
  Ok (Delegation.mk id (e_merchantId e) (e_agentName e) policy (e_status e) (e_currentMonthKey e) spent (e_jti e)
        (e_tokenExpiresAt e) (e_createdAt e) (e_revokedAt e) (e_updatedAt e) (e_signingKeyCiphertext e)).

Definition findById (id : string) (s : rows) : result (option Delegation.t) :=
  match s !! id with Some e => Some <$> toDomain id e | None => Ok None end.

(** [CASE WHEN current_month_key = $2 THEN current_month_spent_minor_units ELSE 0 END] *)
Definition bucket (monthKey : string) (e : DelegationEntity) : Z :=
  if String.eqb (e_currentMonthKey e) monthKey then currentMonthSpentMinorUnits e else 0.

(** The [WHERE] of the reservation. *)
Definition reservable (monthKey : string) (units : Z) (e : DelegationEntity) : bool :=
  bool_decide (e_status e = Delegation.ACTIVE) && (units <=? perTransactionLimitMinorUnits e)
  && (bucket monthKey e + units <=? monthlyLimitMinorUnits e).

Definition tryReserveSpend (id : string) (amount : Money.t) (now : Date) (s : rows) : rows * result bool :=
  let monthKey := monthKeyOf now in
  let units := Money.amountMinorUnits amount in
  if negb (int8 units) then (s, Throw out_of_range)
  else
    match s !! id with
    | Some e =>
        if negb (int8 (bucket monthKey e + units)) then (s, Throw out_of_range)
        else if reservable monthKey units e then
          (<[id := e {{ currentMonthSpentMinorUnits := bucket monthKey e + units; e_currentMonthKey := monthKey }}]> s,
           Ok (0 <? update_returning 1)%nat)
        else (s, Ok (0 <? update_returning 0)%nat)
    | None => (s, Ok (0 <? update_returning 0)%nat)
    end.

(** What is let through without a reservation: an update that changed no row and is
    reported as made. *)
Definition passed (id : string) (amount : Money.t) (now : Date) (s : rows) (r : result bool) : list (string * Money.t) :=
  let matched := match s !! id with Some e => reservable (monthKeyOf now) (Money.amountMinorUnits amount) e | None => false end in
  match r with Ok true => if matched then [] else [(id, amount)] | _ => [] end.

(** [GREATEST(current_month_spent_minor_units - $2::bigint, 0)] *)
Definition releaseSpend (id : string) (amount : Money.t) (s : rows) : rows * result unit :=
  let units := Money.amountMinorUnits amount in
  if negb (int8 units) then (s, Throw out_of_range)
  else
    match s !! id with
    | Some e =>
        (<[id := e {{ currentMonthSpentMinorUnits := Z.max (currentMonthSpentMinorUnits e - units) 0 }}]> s, Ok tt)
    | None => (s, Ok tt)
    end.

End repository.
End DelegationTypeOrmRepository.

(** [toDomain] and [save] of an approval are inverse but for [createdAt], which
    the column sets itself: the row is the aggregate. *)
Module ChargeApprovalTypeOrmRepository.
Abbreviation rows := (gmap string ChargeApproval.t).

Definition save (now : Date) (a : ChargeApproval.t) (s : rows) : rows :=
  let created := match s !! ChargeApproval.id a with Some o => ChargeApproval.createdAt o | None => now end in
  <[ChargeApproval.id a := a {{ ChargeApproval.createdAt := created }}]> s.

Definition pending (id : string) (s : rows) : option ChargeApproval.t :=
  match s !! id with
  | Some a => if bool_decide (ChargeApproval.status a = ChargeApproval.PENDING) then Some a else None
  | None => None
  end.

Definition markApproved (id : string) (now : Date) (by_ : string) (s : rows) : rows * bool :=
  match pending id s with
  | Some a =>
      (<[id := a {{ ChargeApproval.status := ChargeApproval.APPROVED; ChargeApproval.decidedAt := Some now;
                    ChargeApproval.decidedBy := Some by_ }}]> s, true)
  | None => (s, false)
  end.

Definition markDenied (id : string) (now : Date) (by_ : string) (reason : option string) (s : rows) : rows * bool :=
  match pending id s with
  | Some a =>
      (<[id := a {{ ChargeApproval.status := ChargeApproval.DENIED; ChargeApproval.decidedAt := Some now;
                    ChargeApproval.decidedBy := Some by_; ChargeApproval.denialReason := reason }}]> s, true)
  | None => (s, false)
  end.

End ChargeApprovalTypeOrmRepository.

(** ** Programs over the tables *)

(** A call that can fail answers a [result]. The checkout saga and the clock are
    events too. *)
Inductive event : Type → Type :=
  | CLOCK : event Date
  | UUID : event string
  | FIND_DELEGATION (id : string) : event (result (option Delegation.t))
  | SAVE_DELEGATION (d : Delegation.t) : event (result unit)
  | TRY_RESERVE_SPEND (id : string) (amount : Money.t) (now : Date) : event (result bool)
  | RELEASE_SPEND (id : string) (amount : Money.t) : event (result unit)
  | FIND_APPROVAL_ON_MASTER (id : string) : event (option ChargeApproval.t)
  | SAVE_APPROVAL (a : ChargeApproval.t) : event unit
  | MARK_APPROVED (id : string) (now : Date) (by_ : string) : event bool
  | MARK_DENIED (id : string) (now : Date) (by_ : string) (reason : option string) : event bool
  | SAGA (input : CheckoutSagaInput) : event (result CheckoutSagaResult)
  | REVOKE_TOKEN (jti : string) (seconds : Z) : event unit
  | REPLICATE : event unit.

Abbreviation Q := (prog event).

Definition of_result {A} (r : result A) : Q A := match r with Ok a => Ret a | Throw e => Fail e end.

Definition ask {A} (c : event (result A)) : Q A := r ← call c; of_result r.

(** [try { p } catch (err) { h(err) }] *)
Fixpoint catch {A} (p : Q A) (h : js_error → Q A) : Q A :=
  match p with Ret a => Ret a | Fail e => h e | Do c k => Do c (λ x, catch (k x) h) end.

(** ** [delegation.service.ts] *)

(** [sanctionsScreeningStatus] of [merchant.entity.ts] *)
Inductive ScreeningStatus := NOT_SCREENED | CLEAR | POTENTIAL_MATCH | HIT.

#[global] Instance ScreeningStatus_eq_dec : EqDecision ScreeningStatus.
Proof. solve_decision. Defined.

Module TokenRevocationService.

Definition revokeToken (jti : string) (remainingLifetimeSeconds : Z) : Q unit :=
  if remainingLifetimeSeconds <=? 0 then mret tt else call (REVOKE_TOKEN jti remainingLifetimeSeconds).

End TokenRevocationService.

Module DelegationService.

Definition DEFAULT_AGENT_TOKEN_TTL_SECONDS : Z := 24 * 3600.

(** [screening] is that of the merchant, if there is one; [ciphertext] what the
    vault answers for the new signing key. *)
Definition createDelegation (screening : option ScreeningStatus) (ciphertext : result string)
    (merchantId agentName : string) (perTransactionLimit monthlyLimit : Money.t)
    (allowedCategories : option (list string)) (tokenTtlSeconds : option Z) (requireApprovalAboveAmount : option Money.t)
    : Q (Delegation.t * Z) :=
  if bool_decide (screening = Some HIT) then Fail (HttpException 422 "SANCTIONS_SCREENING_HIT")
  else
    spendPolicy ← of_result (SpendPolicy.create perTransactionLimit monthlyLimit allowedCategories
                               requireApprovalAboveAmount);
    id ← call UUID;
    jti ← call UUID;
    now ← call CLOCK;
    let expiresIn := nullish tokenTtlSeconds DEFAULT_AGENT_TOKEN_TTL_SECONDS in
    let tokenExpiresAt := now + expiresIn * 1000 in
    key ← of_result ciphertext;
    now ← call CLOCK;
    delegation ← of_result (Delegation.create now id merchantId agentName spendPolicy jti tokenExpiresAt key);
    _ ← ask (SAVE_DELEGATION delegation);
    mret (delegation, expiresIn).

Definition getOrThrow (id : string) : Q Delegation.t :=
  found ← ask (FIND_DELEGATION id);
  match found with Some d => mret d | None => Fail (HttpException 404 "DELEGATION_NOT_FOUND") end.

Definition revoke (id : string) : Q Delegation.t :=
  delegation ← getOrThrow id;
  if bool_decide (Delegation.status delegation = Delegation.REVOKED)
  then Fail (HttpException 409 "DELEGATION_ALREADY_REVOKED")
  else
    now ← call CLOCK;
    let delegation := Delegation.revoke now delegation in
    _ ← ask (SAVE_DELEGATION delegation);
    let remainingSeconds := (Delegation.tokenExpiresAt delegation - now) `div` 1000 in
    _ ← TokenRevocationService.revokeToken (Delegation.jti delegation) remainingSeconds;
    mret delegation.

(** What is checked before the reservation. *)
Definition precheck (amount : Money.t) (category : option string) (now : Date) (d : Delegation.t) : result unit :=
  let policy := Delegation.spendPolicy d in
  _ ← throw_if (negb (bool_decide (Delegation.status d = Delegation.ACTIVE)))
        (HttpException 403 "DELEGATION_REVOKED");
  _ ← throw_if (negb (String.eqb (SpendPolicy.code amount) (SpendPolicy.currency policy)))
        (HttpException 422 "DELEGATION_CURRENCY_MISMATCH");
  large ← Money.isGreaterThan amount (SpendPolicy.perTransactionLimit policy);
  _ ← throw_if large (HttpException 422 "DELEGATION_PER_TRANSACTION_LIMIT_EXCEEDED");
  _ ← throw_if (negb (SpendPolicy.isCategoryAllowed category policy))
        (HttpException 422 "DELEGATION_CATEGORY_NOT_ALLOWED");
  spentSoFar ← Delegation.spentThisMonth now d;
  total ← Money.add spentSoFar amount;
  beyond ← Money.isGreaterThan total (SpendPolicy.monthlyLimit policy);
  throw_if beyond (HttpException 422 "DELEGATION_MONTHLY_LIMIT_EXCEEDED").

Definition reserveSpendOrThrow (id : string) (amount : Money.t) (category : option string) (now : Date)
    : Q Delegation.t :=
  delegation ← getOrThrow id;
  _ ← of_result (precheck amount category now delegation);
  reserved ← ask (TRY_RESERVE_SPEND id amount now);
  if negb reserved then Fail (HttpException 422 "DELEGATION_SPEND_LIMIT_EXCEEDED") else mret delegation.

Definition releaseReservation (id : string) (amount : Money.t) : Q unit := ask (RELEASE_SPEND id amount).

End DelegationService.

(** ** [charge-approval.service.ts] *)

(** [(amount / remaining) * 100] *)
Definition percent (amount remaining : Money.t) : number :=
  Num.mul (Num.div (Money.amount amount) (Money.amount remaining)) (Num.lit 100 1).

Module ChargeApprovalService.

Definition createPendingApproval (paymentId delegationId merchantId : string) (amount : Money.t)
    (idempotencyKey : string) (chargeRequest : ChargePaymentDto) : Q ChargeApproval.t :=
  id ← call UUID;
  now ← call CLOCK;
  let approval := ChargeApproval.create now id paymentId delegationId merchantId amount idempotencyKey chargeRequest in
  _ ← call (SAVE_APPROVAL approval);
  mret approval.

Definition findById (id : string) : Q ChargeApproval.t :=
  found ← call (FIND_APPROVAL_ON_MASTER id);
  match found with Some a => mret a | None => Fail (HttpException 404 "CHARGE_APPROVAL_NOT_FOUND") end.

(** The guard that [approve] and [deny] share. *)
Definition findPending (id : string) : Q ChargeApproval.t :=
  approval ← findById id;
  if bool_decide (ChargeApproval.status approval = ChargeApproval.PENDING) then mret approval
  else Fail (HttpException 409 "CHARGE_APPROVAL_ALREADY_DECIDED").

Definition budgetShare (chargeAmount : Money.t) (now : Date) (delegation : Delegation.t) : result (option number) :=
  currentSpent ← Delegation.spentThisMonth now delegation;
  rolled ← Money.isLessThan currentSpent chargeAmount;
  if (rolled : bool) then Ok None
  else
    others ← Money.subtract currentSpent chargeAmount;
    remaining ← Money.subtract (SpendPolicy.monthlyLimit (Delegation.spendPolicy delegation)) others;
    short ← Money.isLessThan remaining chargeAmount;
    if Money.isZero remaining || short then Ok None else Ok (Some (percent chargeAmount remaining)).

Definition deriveAgentPercentOfRemainingMonthlyBudget (delegationId : string) (chargeAmount : Money.t) (now : Date)
    : Q (option number) :=
  catch (delegation ← DelegationService.getOrThrow delegationId; of_result (budgetShare chargeAmount now delegation))
    (λ _, mret None).

(** The deferred charge, and what becomes of its reservation: kept unless the
    charge failed. *)
Definition executeApproved (approval : ChargeApproval.t) (share : option number) : Q CheckoutSagaResult :=
  result ← catch
    (input ← of_result (buildCheckoutSagaInput (ChargeApproval.paymentId approval) (ChargeApproval.merchantId approval)
                          (ChargeApproval.idempotencyKey approval) (ChargeApproval.chargeRequest approval)
                          (Some (ChargeApproval.delegationId approval)) (Some agent) share);
     ask (SAGA input))
    (λ err, _ ← DelegationService.releaseReservation (ChargeApproval.delegationId approval)
                  (ChargeApproval.amount approval);
            Fail err);
  _ ← (if bool_decide (res_status result = FAILED)
       then DelegationService.releaseReservation (ChargeApproval.delegationId approval) (ChargeApproval.amount approval)
       else mret tt);
  mret result.

Definition approve (id decidedBy : string) : Q CheckoutSagaResult :=
  approval ← findPending id;
  now ← call CLOCK;
  marked ← call (MARK_APPROVED id now decidedBy);
  if negb marked then Fail (HttpException 409 "CHARGE_APPROVAL_ALREADY_DECIDED")
  else
    share ← deriveAgentPercentOfRemainingMonthlyBudget (ChargeApproval.delegationId approval)
              (ChargeApproval.amount approval) now;
    executeApproved approval share.

Definition deny (id decidedBy : string) (reason : option string) : Q ChargeApproval.t :=
  approval ← findPending id;
  now ← call CLOCK;
  marked ← call (MARK_DENIED id now decidedBy reason);
  if negb marked then Fail (HttpException 409 "CHARGE_APPROVAL_ALREADY_DECIDED")
  else
    _ ← DelegationService.releaseReservation (ChargeApproval.delegationId approval) (ChargeApproval.amount approval);
    of_result (ChargeApproval.deny now decidedBy reason approval).

End ChargeApprovalService.

(** ** [PaymentController.charge] *)

(** The authenticated caller: [agentDelegation] is [Some delegationId] for a
    caller with the AGENT role. *)
Record Caller := mkCaller { caller_merchantId : string; agentDelegation : option (option string) }.

Record Presentment := mkPresentment {
  pr_amount : number;
  pr_currency : string;
  pr_rate : number;
  pr_provider : string }.

Inductive ChargePaymentResponse :=
  | PendingApproval (paymentId approvalId : string) (createdAt : Date)
  | Charged (result : CheckoutSagaResult) (presentment : option Presentment) (createdAt : Date).

Module PaymentController.
Section controller.
(** [fxRateProvider.getRate] *)
Context (getRate : string → string → result (number * string)).

(** What the customer's statement will show; a failure omits it. *)
Definition presentmentOf (now : Date) (dto : ChargePaymentDto) (amount : Money.t) : option Presentment :=
  match dto_presentmentCurrency dto with
  | Some currency =>
      if truthy (Some currency) && negb (String.eqb (Str.toUpperCase currency) (Str.toUpperCase (dto_currency dto)))
      then
        match getRate (dto_currency dto) currency with
        | Ok (rate, provider) =>
            match Money.convertTo now amount currency rate provider with
            | Ok c => Some (mkPresentment (Money.amount c) (Currency.code (Money.currency c)) rate provider)
            | Throw _ => None
            end
        | Throw _ => None
        end
      else None
  | None => None
  end.

(** The charge itself, with the reservation it holds, if any. *)
Definition execute (paymentId idempotencyKey : string) (dto : ChargePaymentDto) (merchantId : string)
    (amount : Money.t) (reserved : option string) (share : option number) (presentment : option Presentment)
    : Q ChargePaymentResponse :=
  result ← catch
    (input ← of_result (buildCheckoutSagaInput paymentId merchantId idempotencyKey dto reserved
                          (if truthy reserved then Some agent else None) share);
     ask (SAGA input))
    (λ err, _ ← match reserved with
                | Some id => if truthy reserved then DelegationService.releaseReservation id amount else mret tt
                | None => mret tt
                end;
            Fail err);
  _ ← match reserved with
      | Some id =>
          if truthy reserved && bool_decide (res_status result = FAILED)
          then DelegationService.releaseReservation id amount else mret tt
      | None => mret tt
      end;
  now ← call CLOCK;
  mret (Charged result presentment now).

(** An agent's charge: reserve, then ask for approval or execute. *)
Definition chargeAsAgent (paymentId idempotencyKey : string) (dto : ChargePaymentDto) (merchantId delegationId : string)
    (amount : Money.t) (presentment : option Presentment) : Q ChargePaymentResponse :=
  now ← call CLOCK;
  delegation ← DelegationService.reserveSpendOrThrow delegationId amount (dto_category dto) now;
  let policy := Delegation.spendPolicy delegation in
  spentBefore ← of_result (Delegation.spentThisMonth now delegation);
  remainingBeforeThisCharge ← of_result (Money.subtract (SpendPolicy.monthlyLimit policy) spentBefore);
  let share := percent amount remainingBeforeThisCharge in
  needed ← of_result (SpendPolicy.requiresApproval amount policy);
  if (needed : bool) then
    approval ← ChargeApprovalService.createPendingApproval paymentId delegationId (Delegation.merchantId delegation)
                 amount idempotencyKey dto;
    mret (PendingApproval paymentId (ChargeApproval.id approval) (ChargeApproval.createdAt approval))
  else execute paymentId idempotencyKey dto merchantId amount (Some delegationId) (Some share) presentment.

Definition charge (dto : ChargePaymentDto) (idempotencyKey : option string) (user : Caller) : Q ChargePaymentResponse :=
  paymentId ← call UUID;
  match idempotencyKey with
  | Some key =>
      if negb (truthy idempotencyKey) then Fail (HttpException 400 "MISSING_IDEMPOTENCY_KEY")
      else
        amount ← of_result (Money.of_ (Money.ANumber (dto_amount dto)) (dto_currency dto) None);
        if match dto_splits dto with Some (_ :: _) => true | _ => false end
           && match dto_captureMethod dto with Some manual => true | _ => false end
        then Fail (HttpException 409 "SPLIT_REQUIRES_AUTOMATIC_CAPTURE")
        else
          now ← call CLOCK;
          let presentment := presentmentOf now dto amount in
          match agentDelegation user with
          | Some (Some id) =>
              if truthy (Some id) then chargeAsAgent paymentId key dto (caller_merchantId user) id amount presentment
              else Fail (HttpException 403 "DELEGATION_MISSING")
          | Some None => Fail (HttpException 403 "DELEGATION_MISSING")
          | None => execute paymentId key dto (caller_merchantId user) amount None None presentment
          end
  | None => Fail (HttpException 400 "MISSING_IDEMPOTENCY_KEY")
  end.

End controller.
End PaymentController.

(** ** What the events do *)

(** [unmatched] collects what was let through without a reservation. *)
Record machine := mkMachine {
  delegations : gmap string DelegationEntity;
  replica : gmap string DelegationEntity;
  approvals : gmap string ChargeApproval.t;
  issued : nat;
  ran : list (CheckoutSagaInput * result CheckoutSagaResult);
  revokedTokens : list (string * Z);
  unmatched : list (string * Money.t) }.

Section handler.
(** [saga n] is the answer of the n-th run of the checkout saga, [uuid n] the n-th
    identifier. *)
Context `{Driver} (saga : nat → CheckoutSagaInput → result CheckoutSagaResult) (uuid : nat → string).

(** Reads of delegations go to the replica, which [REPLICATE] brings up to date;
    all other statements go to the master. *)
Definition handle X (c : event X) (now : Date) (m : machine) : machine * result X :=
  match c in event Y return machine * result Y with
  | CLOCK => (m, Ok now)
  | UUID => (m {{ issued := S (issued m) }}, Ok (uuid (issued m)))
  | FIND_DELEGATION id => (m, Ok (DelegationTypeOrmRepository.findById id (replica m)))
  | SAVE_DELEGATION d =>
      match DelegationTypeOrmRepository.save now d (delegations m) with
      | Ok s => (m {{ delegations := s }}, Ok (Ok tt))
      | Throw e => (m, Ok (Throw e))
      end
  | TRY_RESERVE_SPEND id amount at_ =>
      let '(s, r) := DelegationTypeOrmRepository.tryReserveSpend id amount at_ (delegations m) in
      (m {{ delegations := s;
            unmatched := unmatched m ++ DelegationTypeOrmRepository.passed id amount at_ (delegations m) r }}, Ok r)
  | RELEASE_SPEND id amount =>
      let '(s, r) := DelegationTypeOrmRepository.releaseSpend id amount (delegations m) in
      (m {{ delegations := s }}, Ok r)
  | FIND_APPROVAL_ON_MASTER id => (m, Ok (approvals m !! id))
  | SAVE_APPROVAL a => (m {{ approvals := ChargeApprovalTypeOrmRepository.save now a (approvals m) }}, Ok tt)
  | MARK_APPROVED id at_ by_ =>
      let '(s, r) := ChargeApprovalTypeOrmRepository.markApproved id at_ by_ (approvals m) in
      (m {{ approvals := s }}, Ok r)
  | MARK_DENIED id at_ by_ reason =>
      let '(s, r) := ChargeApprovalTypeOrmRepository.markDenied id at_ by_ reason (approvals m) in
      (m {{ approvals := s }}, Ok r)
  | SAGA input =>
      let r := saga (length (ran m)) input in (m {{ ran := ran m ++ [(input, r)] }}, Ok r)
  | REVOKE_TOKEN jti seconds => (m {{ revokedTokens := revokedTokens m ++ [(jti, seconds)] }}, Ok tt)
  | REPLICATE => (m {{ replica := delegations m }}, Ok tt)
  end.
End handler.

(** ** Requests *)

Inductive request :=
  | Charge (dto : ChargePaymentDto) (idempotencyKey : option string) (user : Caller)
  | Approve (approvalId decidedBy : string)
  | Deny (approvalId decidedBy : string) (reason : option string)
  | Revoke (delegationId : string)
  | Replicate.

Definition serve (getRate : string → string → result (number * string)) (r : request) : Q unit :=
  match r with
  | Charge dto key user => _ ← PaymentController.charge getRate dto key user; mret tt
  | Approve id by_ => _ ← ChargeApprovalService.approve id by_; mret tt
  | Deny id by_ reason => _ ← ChargeApprovalService.deny id by_ reason; mret tt
  | Revoke id => _ ← DelegationService.revoke id; mret tt
  | Replicate => call REPLICATE
  end.
