(* ===== verification/DelegationCorrect.v ===== *)
(** * Delegated spending: what an agent can spend

    The reservation on every branch, the row round trip, and, under every
    interleaving of charges, approvals, denials and revocations, the monthly limit
    and the single decision on an approval; then the ways around the limit. *)

From stdpp Require Import pretty.
From S2P Require Import Prelude JsNumber JsDate Money Policies PaymentStatus Payment Ledger LedgerParams LedgerParamsCorrect Routing Store Checkout CheckoutCorrect Redis Shared Delegation.

(** ** The calendar month *)

Lemma padded_month m : 0 ≤ m ≤ 11 → String.length (padStart2 (pretty (m + 1))) = 2%nat.
Proof. intros Hm%JsDate.month_cases. repeat (destruct Hm as [->|Hm]); subst; vm_compute; reflexivity. Qed.

Lemma padded_month_inj m n : 0 ≤ m ≤ 11 → 0 ≤ n ≤ 11 →
  padStart2 (pretty (m + 1)) = padStart2 (pretty (n + 1)) → m = n.
Proof.
  intros Hm%JsDate.month_cases Hn%JsDate.month_cases.
  repeat (destruct Hm as [->|Hm]); subst; repeat (destruct Hn as [->|Hn]); subst; intros H;
    first [reflexivity | exfalso; vm_compute in H; discriminate H].
Qed.

Lemma month_key_iff a b :
  monthKeyOf a = monthKeyOf b ↔
  JsDate.getUTCFullYear a = JsDate.getUTCFullYear b ∧ JsDate.getUTCMonth a = JsDate.getUTCMonth b.
Proof.
  pose proof (JsDate.getUTCMonth_range a) as Ha. pose proof (JsDate.getUTCMonth_range b) as Hb.
  unfold monthKeyOf. split; [|by intros [-> ->]]. intros H.
  apply append_same_length in H as [Hy Hm]; [|by rewrite !string_length_app, !padded_month].
  apply append_same_length in Hm as [_ Hm]; [|by rewrite !padded_month].
  split; [by apply (inj pretty)|by apply padded_month_inj].
Qed.

(** Months do not come back. *)
Lemma year_mono a b : a ≤ b → JsDate.getUTCFullYear a ≤ JsDate.getUTCFullYear b.
Proof.
  intros Hab. unfold JsDate.getUTCFullYear.
  assert (JsDate.Day a ≤ JsDate.Day b) as Hd by (unfold JsDate.Day; apply Z.div_le_mono; [unfold JsDate.msPerDay; lia|done]).
  pose proof (JsDate.YearFromDay_spec (JsDate.Day a)). pose proof (JsDate.YearFromDay_spec (JsDate.Day b)).
  destruct (Z.le_gt_cases (JsDate.YearFromDay (JsDate.Day a)) (JsDate.YearFromDay (JsDate.Day b))) as [|Hgt]; [done|].
  pose proof (JsDate.DayFromYear_mono (JsDate.YearFromDay (JsDate.Day b) + 1) (JsDate.YearFromDay (JsDate.Day a)) ltac:(lia)).
  lia.
Qed.

Lemma month_mono a b : a ≤ b → JsDate.getUTCFullYear a = JsDate.getUTCFullYear b →
  JsDate.getUTCMonth a ≤ JsDate.getUTCMonth b.
Proof.
  intros Hab Hy. unfold JsDate.getUTCMonth. cbv zeta. rewrite Hy.
  assert (JsDate.Day a ≤ JsDate.Day b) as Hd by (unfold JsDate.Day; apply Z.div_le_mono; [unfold JsDate.msPerDay; lia|done]).
  set (l := JsDate.InLeapYear _). set (f := JsDate.DayFromYear _).
  unfold JsDate.MonthFromDayInYear. destruct l; repeat case_match; lia.
Qed.

Lemma month_between a t b : a ≤ t ≤ b → monthKeyOf a = monthKeyOf b → monthKeyOf t = monthKeyOf a.
Proof.
  intros [Hat Htb] [Hy Hm]%month_key_iff. apply month_key_iff.
  pose proof (year_mono a t Hat). pose proof (year_mono t b Htb).
  assert (JsDate.getUTCFullYear t = JsDate.getUTCFullYear a) as E by lia. split; [done|].
  pose proof (month_mono a t Hat ltac:(lia)). pose proof (month_mono t b Htb ltac:(lia)). lia.
Qed.

(** ** Exceptions *)

(** No event throws: the errors of the database are answers. *)
Lemma wp_catch_events `{Driver} saga uuid {L} (inv : machine → list L → Prop) grows adm {A} (p : Q A) h Φ Ψ m l :
  wp (handle saga uuid) inv grows adm p Φ (λ m l e, wp (handle saga uuid) inv grows adm (h e) Φ Ψ m l) m l →
  wp (handle saga uuid) inv grows adm (catch p h) Φ Ψ m l.
Proof.
  revert m l. induction p as [a|e|X c k IH]; intros m l Hp; cbn in *; [done..|].
  intros now s1 pre post Ha Hg Hi. destruct (Hp now s1 pre post Ha Hg Hi) as (s2 & r & l' & Hh & Hg2 & Hi2 & Hr).
  exists s2, r, l'. split_and!; [done..|]. destruct r as [x|e]; [by apply IH|].
  exfalso. clear -Hh. destruct c; cbn in Hh; repeat case_match; discriminate Hh.
Qed.

(** ** What a delegation has spent *)

Definition units (m : Money.t) : Z := Money.amountMinorUnits m.

(** The sum over the rows of a table. *)
Definition rowSum {V} (f : V → Z) (m : gmap string V) : Z := sumZ (λ x, f x.2) (map_to_list m).

Lemma rowSum_fresh {V} (f : V → Z) m k v : m !! k = None → rowSum f (<[k := v]> m) = f v + rowSum f m.
Proof. intros Hk. unfold rowSum. by rewrite (sumZ_Permutation _ _ _ (map_to_list_insert m k v Hk)). Qed.

Lemma rowSum_update {V} (f : V → Z) m k v v' : m !! k = Some v → rowSum f (<[k := v']> m) = rowSum f m - f v + f v'.
Proof.
  intros Hk. pose proof (lookup_delete_eq m k) as Hd.
  assert (rowSum f m = f v + rowSum f (delete k m)) as -> by by rewrite <- (rowSum_fresh f _ k v Hd), insert_delete_id.
  rewrite <- (insert_delete_eq m k v'), rowSum_fresh by done. lia.
Qed.

(** The charges the delegation is answerable for: run, and not known to have
    failed. *)
Definition kept (id : string) (x : CheckoutSagaInput * result CheckoutSagaResult) : Z :=
  match x.2 with
  | Ok r =>
      if bool_decide (in_delegationId x.1 = Some id) && negb (bool_decide (res_status r = FAILED))
      then units (in_amount x.1) else 0
  | Throw _ => 0
  end.

Definition spent_on (id : string) (m : machine) : Z := sumZ (kept id) (ran m).

(** The charges that wait for an operator. *)
Definition waiting (id : string) (a : ChargeApproval.t) : Z :=
  if bool_decide (ChargeApproval.status a = ChargeApproval.PENDING) && bool_decide (ChargeApproval.delegationId a = id)
  then units (ChargeApproval.amount a) else 0.

Definition pending_on (id : string) (m : machine) : Z := rowSum (waiting id) (approvals m).

(** What the delegation's limit has to cover of an amount. *)
Definition share (id did : string) (a : Money.t) : Z := if bool_decide (did = id) then units a else 0.

(** What was let through under the delegation without a reservation. *)
Definition unmatched_on (id : string) (m : machine) : Z := sumZ (λ x, share id x.1 x.2) (unmatched m).

(** ** The monthly limit under every interleaving *)

Section spending.
Context `{Driver} (saga : nat → CheckoutSagaInput → result CheckoutSagaResult) (uuid : nat → string).
Context (getRate : string → string → result (number * string)).
Context (Huuid : Inj (=) (=) uuid).
Context (id key : string) (base limit : Z) (cur : Currency.t).

Abbreviation share := (share id).

(** What a request holds: an amount it reserved and has neither charged, handed to
    an approval, nor released; and identifiers for approvals it has not saved. *)
Record stake := mkStake { held : Z; minted : list string }.

Implicit Types (m : machine) (l : stake) (ls : list stake).

Definition total m ls : Z := base + sumZ held ls + pending_on id m + spent_on id m - unmatched_on id m.

(** An amount charged under the delegation is in its currency. *)
Definition proper (did : string) (a : Money.t) : Prop := did = id → SpendPolicy.code a = Currency.code cur.

(** The approval is the deferred request's. *)
Definition authentic (aid : string) (a : ChargeApproval.t) : Prop :=
  ChargeApproval.id a = aid ∧
  Money.of_ (Money.ANumber (dto_amount (ChargeApproval.chargeRequest a))) (dto_currency (ChargeApproval.chargeRequest a)) None
    = Ok (ChargeApproval.amount a) ∧
  proper (ChargeApproval.delegationId a) (ChargeApproval.amount a).

Record covered m ls : Prop := {
  cv_row : ∃ e, delegations m !! id = Some e ∧
    (e_status e = Delegation.ACTIVE →
     monthlyLimitMinorUnits e = limit ∧ total m ls ≤ DelegationTypeOrmRepository.bucket key e);
  cv_total : total m ls ≤ limit;
  cv_currency e : delegations m !! id = Some e ∨ replica m !! id = Some e → Currency.of_ (e_currencyCode e) = Ok cur;
  cv_ran : Forall (λ x, ∀ did, in_delegationId x.1 = Some did → proper did (in_amount x.1)) (ran m);
  cv_held : Forall (λ l, 0 ≤ held l) ls;
  cv_authentic : map_Forall authentic (approvals m);
  cv_minted : NoDup (ls ≫= minted);
  cv_fresh x : x ∈ ls ≫= minted → approvals m !! x = None ∧ ∃ k, (k < issued m)%nat ∧ x = uuid k;
  cv_issued k : (issued m ≤ k)%nat → approvals m !! uuid k = None }.

(** An approval stays, with its amount and its delegation. *)
Definition frozen (a : ChargeApproval.t) := (ChargeApproval.delegationId a, ChargeApproval.amount a).

Definition grows m m' : Prop :=
  ∀ aid a, approvals m !! aid = Some a → ∃ a', approvals m' !! aid = Some a' ∧ frozen a' = frozen a.

#[global] Instance grows_preorder : PreOrder grows.
Proof.
  split; [intros m aid a Ha; by exists a|].
  intros m1 m2 m3 H12 H23 aid a Ha. destruct (H12 aid a Ha) as (a2 & Ha2 & E2).
  destruct (H23 aid a2 Ha2) as (a3 & Ha3 & E3). exists a3. split; [done|congruence].
Qed.

Lemma grows_same m m' : approvals m' = approvals m → grows m m'.
Proof. intros Hm aid a Ha. exists a. by rewrite Hm. Qed.

Abbreviation safe := (wp (handle saga uuid) covered grows (λ t, monthKeyOf t = key)).

Lemma total_local m pre l l' post :
  total m (pre ++ l' :: post) = total m (pre ++ l :: post) - held l + held l'.
Proof. unfold total. rewrite !sumZ_app. cbn [sumZ]. lia. Qed.

Lemma held_local pre l l' post :
  Forall (λ l, 0 ≤ held l) (pre ++ l :: post) → 0 ≤ held l' → Forall (λ l, 0 ≤ held l) (pre ++ l' :: post).
Proof. rewrite !Forall_app, !Forall_cons. tauto. Qed.

(** Only the machine changes, and nothing the invariant speaks of. *)
Lemma covered_frame m m' ls :
  delegations m' !! id = delegations m !! id → (∀ e, replica m' !! id = Some e → delegations m !! id = Some e ∨ replica m !! id = Some e) →
  approvals m' = approvals m → ran m' = ran m → issued m' = issued m → unmatched m' = unmatched m →
  covered m ls → covered m' ls.
Proof.
  intros Hd Hre Ha Hr Hi Hu [Hrow Htot Hcur Hran Hheld Hauth Hmint Hfresh Hiss].
  assert (total m' ls = total m ls) as Ht by (unfold total, pending_on, spent_on, unmatched_on; by rewrite Ha, Hr, Hu).
  split; rewrite ?Ht, ?Hd, ?Ha, ?Hi, ?Hr; try done. intros e [He|He]; [by apply Hcur; left|by apply Hcur, Hre].
Qed.

(** Runs one event, and leaves what is to be shown of the next state. *)
Ltac event l' :=
  apply wp_call; intros now s1 pre post Ha Hg Hi; eexists _, _, l'; split; [reflexivity|]; cbn [issued approvals].

Lemma wp_clock Φ Ψ m l : (∀ m' t, grows m m' → monthKeyOf t = key → Φ m' l t) → safe (call CLOCK) Φ Ψ m l.
Proof. intros HΦ. event l. split_and!; [reflexivity|done|by apply HΦ]. Qed.

(** What a request knows of a delegation it has read. *)
Definition known (did : string) (d : Delegation.t) : Prop :=
  Delegation.id d = did ∧ (did = id → SpendPolicy.currency (Delegation.spendPolicy d) = Currency.code cur).

Lemma create_policy per mon cats thr p : SpendPolicy.create per mon cats thr = Ok p → SpendPolicy.perTransactionLimit p = per.
Proof.
  unfold SpendPolicy.create. intros H1. repeat (apply bind_ok_iff in H1 as (? & _ & H1)). by injection H1 as <-.
Qed.

Lemma toDomain_currency did e d c : DelegationTypeOrmRepository.toDomain did e = Ok d →
  Currency.of_ (e_currencyCode e) = Ok c → Delegation.id d = did ∧ SpendPolicy.currency (Delegation.spendPolicy d) = Currency.code c.
Proof.
  unfold DelegationTypeOrmRepository.toDomain. intros Hd Hc.
  apply bind_ok_iff in Hd as (per & Hper & Hd). do 2 apply bind_ok_iff in Hd as (? & _ & Hd).
  apply bind_ok_iff in Hd as (p & Hp & Hd). apply bind_ok_iff in Hd as (? & _ & Hd). injection Hd as <-. cbn. split; [done|].
  unfold SpendPolicy.currency. rewrite (create_policy _ _ _ _ _ Hp). unfold Money.fromMinorUnits in Hper.
  rewrite Hc in Hper. cbn in Hper. by apply make_ok in Hper as [_ ->].
Qed.

Lemma toDomain_id did e d : DelegationTypeOrmRepository.toDomain did e = Ok d → Delegation.id d = did.
Proof.
  unfold DelegationTypeOrmRepository.toDomain. intros Hd. do 5 apply bind_ok_iff in Hd as (? & _ & Hd). by injection Hd as <-.
Qed.

Lemma wp_find did Φ Ψ m l : (∀ m' r, grows m m' → (∀ d, r = Ok (Some d) → known did d) → Φ m' l r) →
  safe (call (FIND_DELEGATION did)) Φ Ψ m l.
Proof.
  intros HΦ. event l. split_and!; [reflexivity|done|]. apply HΦ; [done|]. intros d Hd.
  unfold DelegationTypeOrmRepository.findById in Hd. destruct (replica s1 !! did) as [e|] eqn:He; [|discriminate Hd].
  destruct (DelegationTypeOrmRepository.toDomain did e) as [d'|] eqn:Ed; [|discriminate Hd]. injection Hd as ->.
  split; [by eapply toDomain_id|]. intros ->. eapply toDomain_currency; [exact Ed|]. apply (cv_currency _ _ Hi). by right.
Qed.

Lemma wp_find_approval aid Φ Ψ m l :
  (∀ m' r, grows m m' → (∀ a, r = Some a → approvals m' !! aid = Some a ∧ authentic aid a) → Φ m' l r) →
  safe (call (FIND_APPROVAL_ON_MASTER aid)) Φ Ψ m l.
Proof.
  intros HΦ. event l. split_and!; [reflexivity|done|]. apply HΦ; [done|]. intros a Hr. split; [done|].
  by apply (cv_authentic _ _ Hi).
Qed.

Lemma wp_revoke_token jti n Φ Ψ m l : (∀ m', grows m m' → Φ m' l tt) → safe (call (REVOKE_TOKEN jti n)) Φ Ψ m l.
Proof.
  intros HΦ. event l. split_and!; [by apply grows_same|apply (covered_frame s1); auto|].
  apply HΦ. etrans; [exact Hg|by apply grows_same].
Qed.

Lemma wp_replicate Φ Ψ m l : (∀ m', grows m m' → Φ m' l tt) → safe (call REPLICATE) Φ Ψ m l.
Proof.
  intros HΦ. event l. split_and!; [by apply grows_same|apply (covered_frame s1); auto|].
  apply HΦ. etrans; [exact Hg|by apply grows_same].
Qed.

(** An identifier is new; the request may keep it for an approval. *)
Lemma covered_uuid m pre l post l' :
  held l' = held l → minted l' = minted l ∨ minted l' = uuid (issued m) :: minted l →
  covered m (pre ++ l :: post) → covered (m {{ issued := S (issued m) }}) (pre ++ l' :: post).
Proof.
  intros Hh Hm [Hrow Htot Hcur Hran Hheld Hauth Hmint Hfresh Hiss].
  assert (∀ m', approvals m' = approvals m → ran m' = ran m → unmatched m' = unmatched m →
          total m' (pre ++ l' :: post) = total m (pre ++ l :: post)) as Ht.
  { intros m' E1 E2 E3. rewrite (total_local _ _ l l'). unfold total, pending_on, spent_on, unmatched_on. rewrite E1, E2, E3. lia. }
  assert ((pre ++ l' :: post) ≫= minted ≡ₚ (pre ++ l :: post) ≫= minted ∨
          (pre ++ l' :: post) ≫= minted ≡ₚ uuid (issued m) :: ((pre ++ l :: post) ≫= minted)) as Hp.
  { rewrite !bind_app, !bind_cons. destruct Hm as [-> | ->]; [by left|right]. symmetry. apply Permutation_middle. }
  split; cbn [delegations approvals issued]; rewrite ?Ht by done; [done..| |done| | |].
  - eapply held_local; [done|]. rewrite Hh. rewrite Forall_app, Forall_cons in Hheld. tauto.
  - destruct Hp as [-> | ->]; [done|]. apply NoDup_cons. split; [|done]. intros Hin.
    destruct (Hfresh _ Hin) as (_ & k & Hk & E). apply (inj uuid) in E. lia.
  - intros x. destruct Hp as [-> | ->]; rewrite ?elem_of_cons; [|intros [-> | Hx]].
    + intros Hx. destruct (Hfresh _ Hx) as (Hn & k & Hk & E). split; [done|]. exists k. split; [cbn; lia|done].
    + split; [by apply Hiss|]. exists (issued m). split; [cbn; lia|done].
    + destruct (Hfresh _ Hx) as (Hn & k & Hk & E). split; [done|]. exists k. split; [cbn; lia|done].
  - intros k Hk. apply Hiss. cbn in Hk. lia.
Qed.

Lemma wp_uuid Φ Ψ m l : (∀ m' x, grows m m' → Φ m' l x) → safe (call UUID) Φ Ψ m l.
Proof.
  intros HΦ. event l. split_and!; [by apply grows_same|eapply covered_uuid; [..|exact Hi]; auto|].
  apply HΦ. etrans; [exact Hg|by apply grows_same].
Qed.

Lemma wp_mint Φ Ψ m l : (∀ m' x, grows m m' → Φ m' (mkStake (held l) (x :: minted l)) x) → safe (call UUID) Φ Ψ m l.
Proof.
  intros HΦ. apply wp_call; intros now s1 pre post Ha Hg Hi. eexists _, _, (mkStake (held l) (uuid (issued s1) :: minted l)).
  split; [reflexivity|].
  split_and!; [by apply grows_same|eapply covered_uuid; [..|exact Hi]; auto|]. apply HΦ. etrans; [exact Hg|by apply grows_same].
Qed.

(** *** The counter *)

(** Only the counters change. *)
Lemma covered_counter m s pre l l' post :
  minted l' = minted l → 0 ≤ held l' → covered m (pre ++ l :: post) → total m (pre ++ l' :: post) ≤ limit →
  (∃ e, s !! id = Some e ∧ Currency.of_ (e_currencyCode e) = Ok cur ∧
    (e_status e = Delegation.ACTIVE →
     monthlyLimitMinorUnits e = limit ∧ total m (pre ++ l' :: post) ≤ DelegationTypeOrmRepository.bucket key e)) →
  covered (m {{ delegations := s }}) (pre ++ l' :: post).
Proof.
  intros Hm Hpos [Hrow Htot Hcur Hran Hheld Hauth Hmint Hfresh Hiss] Hlim (e & He & Hec & Hact).
  assert ((pre ++ l' :: post) ≫= minted = (pre ++ l :: post) ≫= minted) as Hp by by rewrite !bind_app, !bind_cons, Hm.
  split; rewrite ?Hp; [by exists e|done| |done|by eapply held_local|done|done|done|done].
  change (delegations m{{delegations := s}}) with s. intros e' [He'|He']; [congruence|by apply Hcur; right].
Qed.

Lemma covered_held m pre l post : covered m (pre ++ l :: post) → 0 ≤ held l.
Proof. intros Hi. pose proof (cv_held _ _ Hi) as Hh. rewrite Forall_app, Forall_cons in Hh. tauto. Qed.

(** What passes without a reservation. *)
Lemma covered_unmatched m did a pre l post : 0 ≤ units a → covered m (pre ++ l :: post) →
  covered (m {{ unmatched := unmatched m ++ [(did, a)] }}) (pre ++ mkStake (held l + share did a) (minted l) :: post).
Proof.
  intros Hpos Hi. pose proof (covered_held _ _ _ _ Hi) as Hh. assert (0 ≤ share did a) as Hsh by (unfold DelegationCorrect.share; case_bool_decide; lia).
  destruct Hi as [Hrow Htot Hcur Hran Hheld Hauth Hmint Hfresh Hiss]. set (l' := mkStake _ _).
  assert (total (m {{ unmatched := unmatched m ++ [(did, a)] }}) (pre ++ l' :: post) = total m (pre ++ l :: post)) as Ht.
  { rewrite (total_local _ _ l l'). subst l'. unfold total, unmatched_on. cbn [held].
    change (unmatched m{{unmatched := ?x}}) with x. rewrite (sumZ_app _ (unmatched m)). cbn [sumZ fst snd].
    change (pending_on id m{{unmatched := ?x}}) with (pending_on id m). change (spent_on id m{{unmatched := ?x}}) with (spent_on id m). lia. }
  assert ((pre ++ l' :: post) ≫= minted = (pre ++ l :: post) ≫= minted) as Hmm by by rewrite !bind_app, !bind_cons.
  split; rewrite ?Ht, ?Hmm; [done|done|done|done| |done..]. eapply held_local; [done|]. subst l'. cbn [held]. lia.
Qed.

Lemma covered_reserve m did a t pre l post s r :
  monthKeyOf t = key → 0 ≤ units a → DelegationTypeOrmRepository.tryReserveSpend did a t (delegations m) = (s, r) →
  covered m (pre ++ l :: post) →
  covered (m {{ delegations := s; unmatched := unmatched m ++ DelegationTypeOrmRepository.passed did a t (delegations m) r }})
    (pre ++ mkStake (held l + match r with Ok true => share did a | _ => 0 end) (minted l) :: post).
Proof.
  intros Ht Hpos Hr Hi. pose proof (covered_held _ _ _ _ Hi) as Hh.
  assert (0 ≤ share did a) as Hsh by (unfold DelegationCorrect.share; case_bool_decide; lia).
  unfold DelegationTypeOrmRepository.passed. unfold DelegationTypeOrmRepository.tryReserveSpend in Hr. rewrite Ht in *. fold (units a) in *.
  assert (∀ r' u, match r' with Ok true => u = [(did, a)] | _ => u = [] end → (delegations m, r') = (s, r) →
    covered (m {{ delegations := s; unmatched := unmatched m ++ u }})
      (pre ++ mkStake (held l + match r with Ok true => share did a | _ => 0 end) (minted l) :: post)) as Hno.
  { intros r' u Hu [= <- <-]. assert (u = [(did, a)] ∧ r' = Ok true ∨ u = [] ∧ r' ≠ Ok true) as [[-> ->]|[-> Hne]]
      by (destruct r' as [[]|]; auto).
    - destruct m. by apply (covered_unmatched _ did a pre l post).
    - rewrite app_nil_r. assert (match r' with Ok true => share did a | _ => 0 end = 0) as -> by (by destruct r' as [[]|]).
      rewrite Z.add_0_r. by destruct m, l. }
  destruct (cv_row _ _ Hi) as (e & He & Hact). pose proof (cv_total _ _ Hi) as Htot.
  pose proof (cv_currency _ _ Hi e (or_introl He)) as Hec.
  destruct (negb (int8 (units a))); [injection Hr as <- <-; by apply (Hno (Throw out_of_range) [])|].
  destruct (delegations m !! did) as [e'|] eqn:He'; [|injection Hr as <- <-; by apply (Hno (Ok (0 <? update_returning 0)%nat)); [case_match|]].
  destruct (negb (int8 _)); [injection Hr as <- <-; by apply (Hno (Throw out_of_range) [])|].
  destruct (DelegationTypeOrmRepository.reservable key (units a) e') eqn:Hres;
    [|injection Hr as <- <-; by apply (Hno (Ok (0 <? update_returning 0)%nat)); [case_match|]].
  clear Hno. injection Hr as <- <-. unfold DelegationTypeOrmRepository.reservable in Hres.
  apply andb_true_iff in Hres as [[Hst%bool_decide_eq_true Hper]%andb_true_iff Hmon%Z.leb_le].
  assert (∀ h, 0 ≤ h ≤ share did a → ∀ u, u = [] →
    covered (m {{ delegations := <[did := e' {{ currentMonthSpentMinorUnits := DelegationTypeOrmRepository.bucket key e' + units a;
                                                e_currentMonthKey := key }}]> (delegations m); unmatched := unmatched m ++ u }})
      (pre ++ mkStake (held l + h) (minted l) :: post)) as Hyes.
  { intros h Hle u ->. rewrite app_nil_r.
    assert (∀ s', covered (m {{ delegations := s' }}) (pre ++ mkStake (held l + h) (minted l) :: post) →
      covered (m {{ delegations := s'; unmatched := unmatched m }}) (pre ++ mkStake (held l + h) (minted l) :: post)) as Heta by by destruct m.
    apply Heta. clear Heta. unfold DelegationCorrect.share in *. destruct (decide (did = id)) as [->|Hne].
    - rewrite bool_decide_eq_true_2 in * by done. rewrite He in He'. injection He' as <-. destruct (Hact Hst) as [Hl Hb].
      eapply (covered_counter _ _ _ l); [done|cbn [held]; lia|done|rewrite (total_local _ _ l); cbn [held]; lia|].
      eexists. rewrite lookup_insert_eq. split; [reflexivity|]. split; [by destruct e|]. intros _. cbn. split; [done|].
      rewrite (total_local _ _ l). unfold DelegationTypeOrmRepository.bucket at 1. cbn. rewrite String.eqb_refl. lia.
    - rewrite bool_decide_eq_false_2 in * by done. eapply (covered_counter _ _ _ l); [done|cbn [held]; lia|done|rewrite (total_local _ _ l); cbn [held]; lia|].
      exists e. rewrite lookup_insert_ne by done. split_and!; [done..|]. intros Hs. destruct (Hact Hs) as [Hl Hb]. split; [done|].
      rewrite (total_local _ _ l). cbn [held]. lia. }
  destruct (0 <? update_returning 1)%nat; apply Hyes; (done || lia).
Qed.

Lemma covered_release m did a pre l post s r :
  0 ≤ units a → share did a ≤ held l →
  DelegationTypeOrmRepository.releaseSpend did a (delegations m) = (s, r) → covered m (pre ++ l :: post) →
  covered (m {{ delegations := s }})
    (pre ++ mkStake (held l - match r with Ok _ => share did a | _ => 0 end) (minted l) :: post).
Proof.
  intros Hpos Hheld Hr Hi. unfold DelegationTypeOrmRepository.releaseSpend in Hr. fold (units a) in Hr.
  destruct (cv_row _ _ Hi) as (e & He & Hact). pose proof (cv_total _ _ Hi) as Htot.
  pose proof (cv_currency _ _ Hi e (or_introl He)) as Hec.
  assert (0 ≤ share did a) as Hsh by (unfold DelegationCorrect.share; destruct (bool_decide _); lia).
  destruct (negb (int8 (units a))).
  { injection Hr as <- <-. eapply (covered_counter _ _ _ l); [done|cbn [held]; lia|done|rewrite (total_local _ _ l); cbn [held]; lia|].
    exists e. split_and!; [done..|]. intros Hs. destruct (Hact Hs) as [Hl Hb]. split; [done|]. rewrite (total_local _ _ l). cbn [held]. lia. }
  assert (∃ e', s !! id = Some e' ∧ e_currencyCode e' = e_currencyCode e ∧ e_status e' = e_status e ∧ monthlyLimitMinorUnits e' = monthlyLimitMinorUnits e ∧
          DelegationTypeOrmRepository.bucket key e - share did a ≤ DelegationTypeOrmRepository.bucket key e')
    as (e' & He1 & Hc1 & Hs1 & Hl1 & Hb1).
  { destruct (delegations m !! did) as [e1|] eqn:Hd; injection Hr as <- <-.
    - destruct (decide (did = id)) as [->|Hne].
      + rewrite He in Hd. injection Hd as <-. eexists. rewrite lookup_insert_eq. split; [reflexivity|]. split_and!; [by destruct e..|].
        unfold DelegationTypeOrmRepository.bucket, DelegationCorrect.share. rewrite bool_decide_eq_true_2 by done. destruct e. cbn. case_match; lia.
      + exists e. rewrite lookup_insert_ne by done. split_and!; [done..|lia].
    - exists e. split_and!; [done..|lia]. }
  assert (r = Ok tt) as -> by (destruct (delegations m !! did); by injection Hr).
  eapply (covered_counter _ _ _ l); [done|cbn [held]; lia|done|rewrite (total_local _ _ l); cbn [held]; lia|].
  exists e'. split; [done|]. split; [by rewrite Hc1|]. rewrite Hs1, Hl1. intros Hs. destruct (Hact Hs) as [Hl Hb]. split; [done|].
  rewrite (total_local _ _ l). cbn [held]. lia.
Qed.

Lemma wp_reserve did a t Φ Ψ m l : monthKeyOf t = key → 0 ≤ units a →
  (∀ m' r, grows m m' →
     Φ m' (mkStake (held l + match r with Ok true => share did a | _ => 0 end) (minted l)) r) →
  safe (call (TRY_RESERVE_SPEND did a t)) Φ Ψ m l.
Proof.
  intros Ht Hpos HΦ. apply wp_call. intros now s1 pre post Ha Hg Hi. cbn [handle].
  destruct (DelegationTypeOrmRepository.tryReserveSpend did a t (delegations s1)) as [s r] eqn:Hr.
  eexists _, _, _. split; [reflexivity|]. split; [by apply grows_same|]. split; [eapply covered_reserve; [exact Ht|exact Hpos|exact Hr|exact Hi]|].
  apply HΦ. etrans; [exact Hg|by apply grows_same].
Qed.

Lemma wp_release did a Φ Ψ m l : 0 ≤ units a → share did a ≤ held l →
  (∀ m', grows m m' → Φ m' (mkStake (held l - share did a) (minted l)) tt) → (∀ m' l' e, Ψ m' l' e) →
  safe (DelegationService.releaseReservation did a) Φ Ψ m l.
Proof.
  intros Hpos Hsh HΦ HΨ. unfold DelegationService.releaseReservation, ask. apply wp_bind, wp_call.
  intros now s1 pre post Ha Hg Hi. cbn [handle].
  destruct (DelegationTypeOrmRepository.releaseSpend did a (delegations s1)) as [s r] eqn:Hr.
  pose proof (covered_release _ _ _ _ _ _ _ _ Hpos Hsh Hr Hi) as Hc.
  eexists _, _, _. split; [reflexivity|]. split; [by apply grows_same|]. split; [exact Hc|].
  destruct r as [[]|e]; cbn [of_result wp]; [|apply HΨ]. apply HΦ. etrans; [exact Hg|by apply grows_same].
Qed.

(** A revoked delegation is saved. *)
Lemma wp_save_revoked did d Φ Ψ m l : Delegation.status d = Delegation.REVOKED → known did d →
  (∀ m' r, grows m m' → Φ m' l r) → safe (call (SAVE_DELEGATION d)) Φ Ψ m l.
Proof.
  intros Hs [Hid Hcur] HΦ. apply wp_call. intros now s1 pre post Ha Hg Hi. cbn [handle].
  destruct (DelegationTypeOrmRepository.save now d (delegations s1)) as [s|e] eqn:Hsv.
  - eexists _, _, l. split; [reflexivity|]. split; [by apply grows_same|].
    split; [|apply HΦ; etrans; [exact Hg|by apply grows_same]].
    eapply (covered_counter _ _ _ l); [done|by eapply covered_held|done|apply (cv_total _ _ Hi)|]. unfold DelegationTypeOrmRepository.save in Hsv.
    case_match; [discriminate Hsv|]. injection Hsv as <-. destruct (cv_row _ _ Hi) as (e & He & Hact).
    pose proof (cv_currency _ _ Hi e (or_introl He)) as Hec.
    destruct (decide (Delegation.id d = id)) as [E|Hne]; [|by exists e; rewrite lookup_insert_ne].
    eexists. rewrite E, lookup_insert_eq. split; [reflexivity|]. cbn. rewrite Hs, Hcur by congruence.
    split; [by eapply Currency_of_wf|by intros].
  - eexists s1, _, l. split; [reflexivity|]. split; [reflexivity|]. split; [done|]. by apply HΦ.
Qed.

(** *** Approvals *)

Lemma waiting_share a : ChargeApproval.status a = ChargeApproval.PENDING →
  waiting id a = share (ChargeApproval.delegationId a) (ChargeApproval.amount a).
Proof. intros Hs. unfold waiting, DelegationCorrect.share. by rewrite Hs, bool_decide_eq_true_2. Qed.

Lemma waiting_decided a : ChargeApproval.status a ≠ ChargeApproval.PENDING → waiting id a = 0.
Proof. intros Hs. unfold waiting. by rewrite bool_decide_eq_false_2. Qed.

Lemma authentic_pos aid a : authentic aid a → 0 ≤ units (ChargeApproval.amount a).
Proof. intros (_ & Hof & _). apply of_wf in Hof. apply Hof. Qed.

Lemma share_pos aid a : authentic aid a → 0 ≤ share (ChargeApproval.delegationId a) (ChargeApproval.amount a).
Proof. intros Ha%authentic_pos. unfold DelegationCorrect.share. case_bool_decide; lia. Qed.

Lemma covered_decide m aid a a' pre l post :
  approvals m !! aid = Some a → ChargeApproval.status a = ChargeApproval.PENDING →
  ChargeApproval.status a' ≠ ChargeApproval.PENDING → authentic aid a' →
  covered m (pre ++ l :: post) →
  covered (m {{ approvals := <[aid := a']> (approvals m) }})
    (pre ++ mkStake (held l + share (ChargeApproval.delegationId a) (ChargeApproval.amount a)) (minted l) :: post).
Proof.
  intros Ha Hp Hd Hauth' [Hrow Htot Hcur Hran Hheld Hauth Hmint Hfresh Hiss]. set (l' := mkStake _ _).
  assert (total (m {{ approvals := <[aid := a']> (approvals m) }}) (pre ++ l' :: post) = total m (pre ++ l :: post)) as Ht.
  { rewrite (total_local _ _ l l'). subst l'. unfold total, pending_on, spent_on. cbn [approvals ran held].
    change (unmatched_on id m{{approvals := ?x}}) with (unmatched_on id m).
    change (approvals m{{approvals := <[aid:=a']> (approvals m)}}) with (<[aid:=a']> (approvals m)).
    rewrite (rowSum_update _ _ _ _ _ Ha), (waiting_share a Hp), (waiting_decided a' Hd).
    change (ran m{{approvals := <[aid:=a']> (approvals m)}}) with (ran m). lia. }
  assert ((pre ++ l' :: post) ≫= minted = (pre ++ l :: post) ≫= minted) as Hmm by by rewrite !bind_app, !bind_cons.
  split; rewrite ?Ht, ?Hmm; [done|done|done|done| | |done| |].
  - eapply held_local; [done|]. subst l'. cbn [held]. rewrite Forall_app, Forall_cons in Hheld.
    pose proof (share_pos aid a (Hauth _ _ Ha)). lia.
  - by apply map_Forall_insert_2.
  - intros x Hx. destruct (Hfresh x Hx) as [Hn Hk]. split; [|done]. cbn. rewrite lookup_insert_ne; [done|]. congruence.
  - intros k Hk. cbn. rewrite lookup_insert_ne; [by apply Hiss|]. specialize (Hiss k Hk). congruence.
Qed.

(** The update that decides an approval: [f] is what it sets. *)
Lemma wp_mark (f : ChargeApproval.t → ChargeApproval.t) (c : event bool) aid a Φ Ψ m l :
  (∀ now m, handle saga uuid _ c now m =
     match ChargeApprovalTypeOrmRepository.pending aid (approvals m) with
     | Some a => (m {{ approvals := <[aid := f a]> (approvals m) }}, Ok true)
     | None => (m, Ok false)
     end) →
  (∀ a, ChargeApproval.status (f a) ≠ ChargeApproval.PENDING ∧ frozen (f a) = frozen a ∧
        (authentic aid a → authentic aid (f a))) →
  approvals m !! aid = Some a →
  (∀ m' b, grows m m' →
     Φ m' (mkStake (held l + if (b : bool) then share (ChargeApproval.delegationId a) (ChargeApproval.amount a) else 0) (minted l)) b) →
  safe (call c) Φ Ψ m l.
Proof.
  intros Hc Hf Hseen HΦ. apply wp_call. intros now s1 pre post Ha Hg Hi. rewrite Hc.
  unfold ChargeApprovalTypeOrmRepository.pending. destruct (Hg aid a Hseen) as (b & Hb & Efr). rewrite Hb.
  injection Efr as Ed Em. destruct (Hf b) as (Hnp & Hfr & Hau). pose proof (HΦ) as HΦ'.
  case_bool_decide as Hp; eexists _, _, _; (split; [reflexivity|]).
  - assert (grows s1 (s1 {{ approvals := <[aid := f b]> (approvals s1) }})) as Hg2.
    { intros x y Hx. cbn. destruct (decide (x = aid)) as [->|Hne]; [|rewrite lookup_insert_ne by done; by exists y].
      exists (f b). rewrite lookup_insert_eq. split; [done|]. congruence. }
    split; [exact Hg2|]. split; [|eapply (HΦ' _ true); by etrans]. rewrite <- Ed, <- Em.
    apply covered_decide; [done..|apply Hau, (cv_authentic _ _ Hi), Hb|done].
  - split; [reflexivity|]. split; [|by eapply (HΦ' _ false)]. rewrite Z.add_0_r. by destruct l.
Qed.

(** A new approval takes over what the request had reserved for it. *)
Lemma wp_save_approval a rest Φ Ψ m l :
  minted l = ChargeApproval.id a :: rest → ChargeApproval.status a = ChargeApproval.PENDING →
  authentic (ChargeApproval.id a) a → share (ChargeApproval.delegationId a) (ChargeApproval.amount a) ≤ held l →
  (∀ m', grows m m' →
     Φ m' (mkStake (held l - share (ChargeApproval.delegationId a) (ChargeApproval.amount a)) rest) tt) →
  safe (call (SAVE_APPROVAL a)) Φ Ψ m l.
Proof.
  intros Hl Hp Hau Hsh HΦ. apply wp_call. intros now s1 pre post Ha Hg Hi. cbn [handle].
  assert (ChargeApproval.id a ∈ (pre ++ l :: post) ≫= minted) as Hin.
  { rewrite bind_app, bind_cons, Hl. apply elem_of_app. right. apply elem_of_app. left. by left. }
  destruct (cv_fresh _ _ Hi _ Hin) as [Hn _]. unfold ChargeApprovalTypeOrmRepository.save. rewrite Hn.
  set (a' := a {{ ChargeApproval.createdAt := now }}). 
  set (l' := mkStake (held l - share (ChargeApproval.delegationId a) (ChargeApproval.amount a)) rest).
  assert (grows s1 (s1 {{ approvals := <[ChargeApproval.id a := a']> (approvals s1) }})) as Hg2.
  { intros x y Hx. exists y. cbn. rewrite lookup_insert_ne; [done|]. congruence. }
  eexists _, _, l'. split; [reflexivity|]. split; [exact Hg2|]. split; [|apply HΦ; by etrans]. clear HΦ.
  destruct Hi as [Hrow Htot Hcur Hran Hheld Hauth Hmint Hfresh Hiss]. destruct l as [h mi]. cbn [minted held] in *. subst mi.
  assert (total (s1 {{ approvals := <[ChargeApproval.id a := a']> (approvals s1) }}) (pre ++ l' :: post)
          = total s1 (pre ++ mkStake h (ChargeApproval.id a :: rest) :: post)) as Ht.
  { rewrite (total_local _ _ (mkStake h (ChargeApproval.id a :: rest)) l'). subst l'. unfold total, pending_on, spent_on.
    cbn [held]. cbn [approvals ran]. change (unmatched_on id s1{{approvals := ?x}}) with (unmatched_on id s1). change (approvals s1{{approvals := ?x}}) with x.
    rewrite rowSum_fresh by done. assert (waiting id a' = share (ChargeApproval.delegationId a) (ChargeApproval.amount a)) as ->.
    { subst a'. rewrite waiting_share; [by destruct a|by destruct a]. }
    change (ran s1{{approvals := ?x}}) with (ran s1). lia. }
  assert ((pre ++ mkStake h (ChargeApproval.id a :: rest) :: post) ≫= minted
          ≡ₚ ChargeApproval.id a :: ((pre ++ l' :: post) ≫= minted)) as Hmm.
  { rewrite !bind_app, !bind_cons. cbn. symmetry. apply Permutation_middle. }
  rewrite Hmm in Hmint. apply NoDup_cons in Hmint as [Hni Hnd].
  split; rewrite ?Ht; [done|done|done|done| | |done| |].
  - eapply held_local; [done|]. subst l'. cbn [held]. lia.
  - apply map_Forall_insert_2; [|done]. subst a'. by destruct a.
  - intros x Hx. destruct (Hfresh x) as [Hxn Hk]; [rewrite Hmm; by right|]. split; [|done]. cbn. rewrite lookup_insert_ne; [done|].
    intros <-. done.
  - intros k Hk. change (issued s1 ≤ k)%nat in Hk. cbn. rewrite lookup_insert_ne; [by apply Hiss|]. intros E.
    destruct (Hfresh (ChargeApproval.id a)) as (_ & k' & Hk' & E'); [rewrite Hmm; by left|]. rewrite E' in E.
    apply (inj uuid) in E. subst k'. lia.
Qed.

(** *** The charge *)

Lemma wp_saga input Φ Ψ m l : (∀ r, kept id (input, r) ≤ held l) →
  (∀ did, in_delegationId input = Some did → proper did (in_amount input)) →
  (∀ m' r, grows m m' → Φ m' (mkStake (held l - kept id (input, r)) (minted l)) r) →
  safe (call (SAGA input)) Φ Ψ m l.
Proof.
  intros Hk Hpr HΦ. apply wp_call. intros now s1 pre post Ha Hg Hi. cbn [handle].
  set (r := saga _ input). eexists _, _, (mkStake (held l - kept id (input, r)) (minted l)). split; [reflexivity|].
  split; [by apply grows_same|]. split; [|apply HΦ; etrans; [exact Hg|by apply grows_same]].
  destruct Hi as [Hrow Htot Hcur Hran Hheld Hauth Hmint Hfresh Hiss]. set (l' := mkStake _ _).
  assert (total (s1 {{ ran := ran s1 ++ [(input, r)] }}) (pre ++ l' :: post) = total s1 (pre ++ l :: post)) as Ht.
  { rewrite (total_local _ _ l l'). subst l'. unfold total, pending_on, spent_on. cbn [held].
    change (unmatched_on id s1{{ran := ?x}}) with (unmatched_on id s1). change (ran s1{{ran := ?x}}) with x. change (approvals s1{{ran := ?x}}) with (approvals s1).
    rewrite !sumZ_app. cbn [sumZ]. lia. }
  assert ((pre ++ l' :: post) ≫= minted = (pre ++ l :: post) ≫= minted) as Hmm by by rewrite !bind_app, !bind_cons.
  split; rewrite ?Ht, ?Hmm; [done|done|done| | |done..].
  - apply Forall_app. split; [done|]. by apply Forall_singleton.
  - eapply held_local; [done|]. subst l'. cbn [held]. specialize (Hk r). lia.
Qed.

Lemma wp_of_result {A} (r : result A) Φ Ψ m l :
  (∀ a, r = Ok a → Φ m l a) → (∀ e, r = Throw e → Ψ m l e) → safe (of_result r) Φ Ψ m l.
Proof. intros HΦ HΨ. destruct r; [by apply HΦ|by apply HΨ]. Qed.

Lemma wp_catch {A} (p : Q A) h Φ Ψ m l :
  safe p Φ (λ m l e, safe (h e) Φ Ψ m l) m l → safe (catch p h) Φ Ψ m l.
Proof. apply wp_catch_events. Qed.

Lemma build_input paymentId merchantId key' dto did who sh input :
  buildCheckoutSagaInput paymentId merchantId key' dto did who sh = Ok input →
  in_delegationId input = did ∧ Money.of_ (Money.ANumber (dto_amount dto)) (dto_currency dto) None = Ok (in_amount input).
Proof.
  unfold buildCheckoutSagaInput. destruct (Money.of_ _ _ _) as [a|] eqn:Ha; cbn; [|done].
  destruct (match dto_splits dto with Some _ => _ | None => _ end); cbn; [|done].
  destruct (match dto_binInfo dto with Some _ => _ | None => _ end); cbn; [|done]. by intros [= <-].
Qed.

Lemma kept_other input r : in_delegationId input ≠ Some id → kept id (input, r) = 0.
Proof. intros Hne. unfold kept. cbn. destruct r; [|done]. by rewrite bool_decide_eq_false_2. Qed.

Lemma kept_share input r did : in_delegationId input = Some did →
  kept id (input, r) = match r with Ok x => if bool_decide (res_status x = FAILED) then 0 else share did (in_amount input) | Throw _ => 0 end.
Proof.
  intros Hd. unfold kept, DelegationCorrect.share. cbn. rewrite Hd. destruct r as [x|]; [|done].
  repeat case_bool_decide; cbn; congruence.
Qed.

(** The saga with a reservation: it keeps what it charged, and what it has not
    charged is released. *)
Lemma wp_charge (bld : result CheckoutSagaInput) did a (release : Q unit) Φ m l :
  (∀ input, bld = Ok input → in_delegationId input = Some did ∧ in_amount input = a) →
  0 ≤ units a → share did a ≤ held l → proper did a →
  release = DelegationService.releaseReservation did a →
  (∀ m' l' r, grows m m' → (res_status r = FAILED → share did a ≤ held l') → minted l' = minted l → Φ m' l' r) →
  safe (catch (input ← of_result bld; ask (SAGA input)) (λ err, _ ← release; Fail err)) Φ (λ _ _ _, True) m l.
Proof.
  intros Hb Hpos Hh Hpr -> HΦ. apply wp_catch, wp_bind.
  assert (∀ m' l' e, share did a ≤ held l' →
    safe (_ ← DelegationService.releaseReservation did a; Fail e) Φ (λ _ _ _, True) m' l') as Hrel.
  { intros m' l' e Hl. by apply wp_bind, wp_release. }
  apply wp_of_result; [intros input Hi|intros e _; by apply Hrel]. destruct (Hb input Hi) as [Hd Ha].
  assert (∀ r, kept id (input, r) = match r with Ok x => if bool_decide (res_status x = FAILED) then 0 else share did a | Throw _ => 0 end) as Hk
    by (intros r; by rewrite (kept_share _ _ _ Hd), Ha).
  assert (0 ≤ share did a) by (unfold DelegationCorrect.share; case_bool_decide; lia).
  unfold ask. apply wp_bind, wp_saga.
  { intros r. rewrite Hk. destruct r; [case_bool_decide|]; lia. }
  { intros did' Hd'. rewrite Hd in Hd'. injection Hd' as <-. by rewrite Ha. }
  intros m' r Hg. apply wp_of_result.
  - intros x ->. apply HΦ; [done| |done]. intros Hf. cbn [held]. rewrite Hk, bool_decide_eq_true_2 by done. lia.
  - intros e ->. apply Hrel. cbn [held]. rewrite Hk. lia.
Qed.

(** *** The requests *)

Abbreviation ends p m l := (safe p (λ _ _ _, True) (λ _ _ _, True) m l).
Abbreviation nothing := (mkStake 0 []).

Lemma wp_getOrThrow did Φ Ψ m l :
  (∀ m' d, grows m m' → known did d → Φ m' l d) → (∀ m' e, grows m m' → Ψ m' l e) → safe (DelegationService.getOrThrow did) Φ Ψ m l.
Proof.
  intros HΦ HΨ. unfold DelegationService.getOrThrow, ask. apply wp_bind, wp_bind, wp_find. intros m' r Hg Hr.
  apply wp_of_result; [intros [d|] ->|intros e _]; cbn; auto.
Qed.

Lemma ends_execute paymentId k dto merchantId a did sh pr m l :
  Money.of_ (Money.ANumber (dto_amount dto)) (dto_currency dto) None = Ok a → share did a ≤ held l → did ≠ ""%string → proper did a →
  ends (PaymentController.execute paymentId k dto merchantId a (Some did) sh pr) m l.
Proof.
  intros Ha Hh Hne Hpr. unfold PaymentController.execute. pose proof (of_wf _ _ _ _ Ha) as [Hpos _].
  assert (truthy (Some did) = true) as -> by by destruct did.
  apply wp_bind. eapply (wp_charge _ did a); [|done|done|done|reflexivity|].
  { intros input Hb. apply build_input in Hb as [-> Hof]. split; [done|]. congruence. }
  intros m' l' r Hg Hf _. apply wp_bind. cbn [andb].
  assert (∀ m' l', ends (now ← call CLOCK; mret (Charged r pr now)) m' l') as Hend
    by (intros ? ?; apply wp_bind, wp_clock; done).
  case_bool_decide as Hs; [|apply Hend]. apply wp_release; auto.
Qed.

Lemma ends_execute_plain paymentId k dto merchantId a sh pr m l :
  0 ≤ held l → ends (PaymentController.execute paymentId k dto merchantId a None sh pr) m l.
Proof.
  intros Hh. unfold PaymentController.execute. apply wp_bind, wp_catch, wp_bind.
  apply wp_of_result; [intros input Hb|intros e _; exact I]. apply build_input in Hb as [Hd _].
  unfold ask. apply wp_bind, wp_saga.
  { intros r. rewrite kept_other by by rewrite Hd. done. }
  { by rewrite Hd. }
  intros m' r Hg. apply wp_of_result; [intros x _|intros e _; exact I]. apply wp_bind, wp_bind, wp_clock. done.
Qed.

Lemma ends_charge dto k user m : ends (PaymentController.charge getRate dto k user) m nothing.
Proof.
  unfold PaymentController.charge. apply wp_bind, wp_uuid. intros m1 paymentId _.
  destruct k as [k|]; [|exact I]. destruct (negb (truthy (Some k))); [exact I|]. apply wp_bind.
  apply wp_of_result; [intros a Ha|intros e _; exact I]. destruct (_ && _); [exact I|].
  apply wp_bind, wp_clock. intros m2 t _ _. destruct (agentDelegation user) as [[did|]|]; [|exact I|by apply ends_execute_plain].
  destruct (truthy (Some did)) eqn:Htr; [|exact I]. assert (did ≠ ""%string) as Hne by by intros ->.
  pose proof (of_wf _ _ _ _ Ha) as [Hpos _]. unfold PaymentController.chargeAsAgent.
  apply wp_bind, wp_clock. intros m3 now _ Hnow. unfold DelegationService.reserveSpendOrThrow.
  apply wp_bind, wp_bind, wp_getOrThrow; [intros m4 d _ Hd|intros; exact I].
  apply wp_bind, wp_of_result; [intros [] Hpre|intros e _; exact I].
  assert (proper did a) as Hpr.
  { intros E. destruct Hd as [_ Hd]. rewrite <- (Hd E). apply bind_ok_iff in Hpre as (? & _ & Hpre).
    apply bind_ok_iff in Hpre as (? & Hc & _). apply throw_if_ok, negb_false_iff, String.eqb_eq in Hc. done. }
  unfold ask. apply wp_bind, wp_bind, wp_reserve; [done..|].
  intros m5 r _. apply wp_of_result; [intros [|] ->|intros e _; exact I]; [|exact I]. cbn [negb]. cbn [wp held minted].
  apply wp_bind, wp_of_result; [intros spent _|intros e _; exact I].
  apply wp_bind, wp_of_result; [intros rem _|intros e _; exact I].
  apply wp_bind, wp_of_result; [intros [|] _|intros e _; exact I]; [|by apply ends_execute].
  unfold ChargeApprovalService.createPendingApproval. apply wp_bind, wp_bind, wp_mint. intros m6 aid _.
  apply wp_bind, wp_clock. intros m7 t7 _ _. cbn [held minted].
  by apply wp_bind, (wp_save_approval _ []).
Qed.

Lemma wp_findPending aid Φ Ψ m l :
  (∀ m' a, grows m m' → approvals m' !! aid = Some a → authentic aid a → Φ m' l a) → (∀ m' e, Ψ m' l e) →
  safe (ChargeApprovalService.findPending aid) Φ Ψ m l.
Proof.
  intros HΦ HΨ. unfold ChargeApprovalService.findPending, ChargeApprovalService.findById.
  apply wp_bind, wp_bind, wp_find_approval. intros m' [a|] Hg Hr; [|apply HΨ]. destruct (Hr a eq_refl) as [Hl Hau].
  cbn. case_bool_decide; [by apply HΦ|apply HΨ].
Qed.

Lemma ends_approve aid by_ m : ends (ChargeApprovalService.approve aid by_) m nothing.
Proof.
  unfold ChargeApprovalService.approve. apply wp_bind, wp_findPending; [intros m1 a _ Hseen Hau|done].
  pose proof (authentic_pos _ _ Hau) as Hpos. apply wp_bind, wp_clock. intros m2 now Hg2 _.
  destruct (Hg2 _ _ Hseen) as (a2 & Hseen2 & Efr). apply wp_bind.
  eapply (wp_mark (λ a, a {{ ChargeApproval.status := ChargeApproval.APPROVED; ChargeApproval.decidedAt := Some now;
                             ChargeApproval.decidedBy := Some by_ }}) _ aid a2); [|by intros []|exact Hseen2|].
  { intros t s. cbn. unfold ChargeApprovalTypeOrmRepository.markApproved. by destruct (ChargeApprovalTypeOrmRepository.pending _ _), s. }
  injection Efr as -> ->. intros m3 [|] _; [|exact I]. cbn [negb]. apply wp_bind.
  unfold ChargeApprovalService.deriveAgentPercentOfRemainingMonthlyBudget. apply wp_catch, wp_bind.
  set (l3 := mkStake _ _).
  assert (∀ m4 sh, ends (ChargeApprovalService.executeApproved a sh) m4 l3) as Hrest.
  { intros m4 sh. unfold ChargeApprovalService.executeApproved. apply wp_bind. eapply (wp_charge _ (ChargeApproval.delegationId a) (ChargeApproval.amount a));
      [|done|subst l3; cbn [held]; lia|apply Hau|reflexivity|].
    { intros input Hb. apply build_input in Hb as [-> Hof]. split; [done|]. destruct Hau as (_ & Hof' & _). congruence. }
    intros m5 l5 r _ Hf _. apply wp_bind. case_bool_decide as Hs; [|exact I]. apply wp_release; [done|by apply Hf|done|done]. }
  apply wp_getOrThrow; [intros m4 d _ _|intros m4 e _; apply Hrest]. apply wp_of_result; intros; apply Hrest.
Qed.

Lemma ends_deny aid by_ reason m : ends (ChargeApprovalService.deny aid by_ reason) m nothing.
Proof.
  unfold ChargeApprovalService.deny. apply wp_bind, wp_findPending; [intros m1 a _ Hseen Hau|done].
  pose proof (authentic_pos _ _ Hau) as Hpos. apply wp_bind, wp_clock. intros m2 now Hg2 _.
  destruct (Hg2 _ _ Hseen) as (a2 & Hseen2 & Efr). apply wp_bind.
  eapply (wp_mark (λ a, a {{ ChargeApproval.status := ChargeApproval.DENIED; ChargeApproval.decidedAt := Some now;
                             ChargeApproval.decidedBy := Some by_; ChargeApproval.denialReason := reason }}) _ aid a2);
    [|by intros []|exact Hseen2|].
  { intros t s. cbn. unfold ChargeApprovalTypeOrmRepository.markDenied. by destruct (ChargeApprovalTypeOrmRepository.pending _ _), s. }
  injection Efr as -> ->. intros m3 [|] _; [|exact I]. cbn [negb].
  apply wp_bind, wp_release; [done|cbn [held]; lia|intros m4 _|done]. apply wp_of_result; done.
Qed.

Lemma ends_revoke did m : ends (DelegationService.revoke did) m nothing.
Proof.
  unfold DelegationService.revoke. apply wp_bind, wp_getOrThrow; [intros m1 d _ Hd|done]. case_bool_decide; [exact I|].
  apply wp_bind, wp_clock. intros m2 now _ _. unfold ask. apply wp_bind, wp_bind, (wp_save_revoked did); [by destruct d|by destruct d|].
  intros m3 r _. apply wp_of_result; [intros [] _|done]. apply wp_bind. unfold TokenRevocationService.revokeToken.
  case_match; [exact I|]. by apply wp_revoke_token.
Qed.

Lemma ends_serve r m : ends (serve getRate r) m nothing.
Proof.
  destruct r as [dto k user|aid by_|aid by_ reason|did|]; cbn [serve].
  - apply wp_bind. eapply wp_mono; [..|apply ends_charge]; done.
  - apply wp_bind. eapply wp_mono; [..|apply ends_approve]; done.
  - apply wp_bind. eapply wp_mono; [..|apply ends_deny]; done.
  - apply wp_bind. eapply wp_mono; [..|apply ends_revoke]; done.
  - by apply wp_replicate.
Qed.
End spending.

(** A driver that answers an update that changed no row with no row lets nothing through. *)
Lemma passed_none `{Driver} id a t s : update_returning 0 = 0%nat →
  DelegationTypeOrmRepository.passed id a t s (DelegationTypeOrmRepository.tryReserveSpend id a t s).2 = [].
Proof.
  intros Hdrv. unfold DelegationTypeOrmRepository.passed, DelegationTypeOrmRepository.tryReserveSpend. rewrite Hdrv. cbn [Nat.ltb Nat.leb].
  destruct (negb (int8 _)); [done|]. destruct (s !! id) as [e|]; [|done]. destruct (negb (int8 _)); [done|].
  destruct (DelegationTypeOrmRepository.reservable _ _ e); cbn [snd]; [by case_match|done].
Qed.

Lemma handle_unmatched `{Driver} saga uuid X (c : event X) now m : update_returning 0 = 0%nat →
  unmatched (handle saga uuid X c now m).1 = unmatched m.
Proof.
  intros Hdrv. destruct c as [| |did|d|did a t|did a|aid|a|aid t by_|aid t by_ reason|input|jti n|]; cbn [handle]; try done.
  - by destruct (DelegationTypeOrmRepository.save _ _ _).
  - pose proof (passed_none did a t (delegations m) Hdrv) as Hp. destruct (DelegationTypeOrmRepository.tryReserveSpend _ _ _ _) as [s r].
    cbn in *. by rewrite Hp, app_nil_r.
  - by destruct (DelegationTypeOrmRepository.releaseSpend _ _ _).
  - by destruct (ChargeApprovalTypeOrmRepository.markApproved _ _ _ _).
  - by destruct (ChargeApprovalTypeOrmRepository.markDenied _ _ _ _ _).
Qed.

Lemma unmatched_none `{Driver} saga uuid {A} (c c' : config A) : update_returning 0 = 0%nat →
  rtc (interleave (handle saga uuid)) c c' → unmatched (memory c') = unmatched (memory c).
Proof.
  intros Hdrv. induction 1 as [|c1 c2 c3 Hs _ IH]; [done|]. rewrite IH. destruct Hs as [now m pool i p m' p' _ Ha|]; [|done].
  destruct p as [| |X c k]; try discriminate Ha. cbn in Ha. pose proof (handle_unmatched saga uuid X c now m Hdrv) as Hu.
  destruct (handle saga uuid X c now m) as [m1 r]. by injection Ha as <- _.
Qed.

(** An empty hand for every request. *)
Lemma sum_nothing {A} (l : list A) : sumZ held ((λ _, mkStake 0 []) <$> l) = 0.
Proof. induction l as [|x l IH]; [done|]. cbn. by rewrite IH. Qed.

Lemma minted_nothing {A} (l : list A) : ((λ _, mkStake 0 []) <$> l) ≫= minted = [].
Proof. induction l as [|x l IH]; [done|]. cbn. by rewrite IH. Qed.


(** ** An approval is decided once *)

Section deciding.
Context `{Driver} (saga : nat → CheckoutSagaInput → result CheckoutSagaResult) (uuid : nat → string).
Context (aid : string) (a : ChargeApproval.t) (m0 : machine).

(** How far the request that decided has come. *)
Inductive phase := Idle | Charging | Ran | Closing | Done.

Definition busy (l : phase) : Z := match l with Idle => 0 | _ => 1 end.

Definition ran_once (m : machine) : Prop := ∃ x, ran m = ran m0 ++ [x].

(** The reservation of the approval is still there, or was released once. *)
Definition released : gmap string DelegationEntity :=
  (DelegationTypeOrmRepository.releaseSpend (ChargeApproval.delegationId a) (ChargeApproval.amount a) (delegations m0)).1.

Definition stage (status : ChargeApproval.ChargeApprovalStatus) (m : machine) (l : phase) : Prop :=
  match l with
  | Idle => True
  | Charging => status = ChargeApproval.APPROVED ∧ ran m = ran m0 ∧ delegations m = delegations m0
  | Ran => status = ChargeApproval.APPROVED ∧ ran_once m ∧ delegations m = delegations m0
  | Closing => status = ChargeApproval.DENIED ∧ ran m = ran m0 ∧ delegations m = delegations m0
  | Done =>
      (ran m = ran m0 ∨ status = ChargeApproval.APPROVED ∧ ran_once m)
      ∧ (delegations m = delegations m0 ∨ delegations m = released)
  end.

Record decided_once (m : machine) (ls : list phase) : Prop := {
  do_row : ∃ b, approvals m !! aid = Some b ∧ frozen b = frozen a ∧ Forall (stage (ChargeApproval.status b) m) ls ∧
    if bool_decide (ChargeApproval.status b = ChargeApproval.PENDING)
    then sumZ busy ls = 0 ∧ ran m = ran m0 ∧ delegations m = delegations m0
    else sumZ busy ls = 1 }.

Abbreviation careful := (wp (handle saga uuid) decided_once grows (λ _, True)).

Lemma busy_nonneg ls : 0 ≤ sumZ busy ls.
Proof. apply sumZ_nonneg. by intros []. Qed.

(** The others are idle. *)
Lemma alone_busy pre l post : sumZ busy (pre ++ l :: post) ≤ 1 → l ≠ Idle → Forall (λ x, x = Idle) (pre ++ post).
Proof.
  intros Hs Hl. apply Forall_forall. intros x Hx.
  assert (sumZ busy (pre ++ post) = 0) as Hz.
  { rewrite sumZ_app in *. cbn [sumZ] in Hs. pose proof (busy_nonneg pre). pose proof (busy_nonneg post).
    destruct l; cbn [busy] in Hs; [done|lia..]. }
  apply elem_of_Permutation in Hx as [k Hk]. rewrite (sumZ_Permutation _ _ _ Hk) in Hz. cbn [sumZ] in Hz.
  pose proof (busy_nonneg k). destruct x; cbn [busy] in Hz; [done|lia..].
Qed.

Lemma stage_all st m pre l post : Forall (λ x, x = Idle) (pre ++ post) → stage st m l → Forall (stage st m) (pre ++ l :: post).
Proof.
  intros Hidle Hl. rewrite Forall_app in Hidle |- *. destruct Hidle as [H1 H2].
  split; [|constructor; [done|]]; (eapply Forall_impl; [eassumption|]); by intros x ->.
Qed.

(** The request that decided goes on. *)
Lemma decided_step m m' pre l l' post :
  decided_once m (pre ++ l :: post) → l ≠ Idle → l' ≠ Idle → approvals m' = approvals m →
  (∀ st, stage st m l → stage st m' l') → decided_once m' (pre ++ l' :: post).
Proof.
  intros [(b & Hb & Hfr & Hall & Hif)] Hl Hl' Ha Hst. split. exists b. rewrite Ha. split; [done|]. split; [done|].
  assert (sumZ busy (pre ++ l' :: post) = sumZ busy (pre ++ l :: post)) as Hs
    by (rewrite !sumZ_app; cbn [sumZ]; by destruct l, l').
  pose proof (Forall_elt _ _ _ Hall) as Hme.
  case_bool_decide as Hp.
  - exfalso. destruct Hif as [Hz _]. rewrite sumZ_app in Hz. cbn [sumZ] in Hz. pose proof (busy_nonneg pre).
    pose proof (busy_nonneg post). destruct l; cbn [busy] in Hz; [done|lia..].
  - split; [|lia]. apply stage_all; [|by apply Hst]. eapply alone_busy; [|exact Hl]. lia.
Qed.

Lemma careful_same {X} (c : event X) Φ Ψ m l :
  (∀ now m, ∃ x, handle saga uuid _ c now m = (m, Ok x)) → (∀ m' x, grows m m' → Φ m' l x) → careful (call c) Φ Ψ m l.
Proof.
  intros Hc HΦ. apply wp_call. intros now s1 pre post _ Hg Hi. destruct (Hc now s1) as [x Hx].
  exists s1, x, l. split_and!; [done|reflexivity|done|]. by apply HΦ.
Qed.

Lemma careful_findPending Φ Ψ m l :
  (∀ m' b, frozen b = frozen a → ChargeApproval.status b = ChargeApproval.PENDING → Φ m' l b) → (∀ m' e, Ψ m' l e) →
  careful (ChargeApprovalService.findPending aid) Φ Ψ m l.
Proof.
  intros HΦ HΨ. unfold ChargeApprovalService.findPending, ChargeApprovalService.findById. apply wp_bind, wp_bind, wp_call.
  intros now s1 pre post _ Hg Hi. exists s1, (approvals s1 !! aid), l. split_and!; [done|reflexivity|done|].
  destruct Hi as [(b & Hb & Hfr & _)]. rewrite Hb. cbn. case_bool_decide; [by apply HΦ|apply HΨ].
Qed.

Lemma careful_release b Φ Ψ m l : frozen b = frozen a → l = Charging ∨ l = Ran ∨ l = Closing →
  (∀ m', Φ m' Done tt) → (∀ m' e, Ψ m' Done e) →
  careful (DelegationService.releaseReservation (ChargeApproval.delegationId b) (ChargeApproval.amount b)) Φ Ψ m l.
Proof.
  intros [= Hd Hm] Hl HΦ HΨ. unfold DelegationService.releaseReservation, ask. apply wp_bind, wp_call.
  intros now s1 pre post _ Hg Hi. cbn [handle]. rewrite Hd, Hm.
  destruct (DelegationTypeOrmRepository.releaseSpend _ _ (delegations s1)) as [s r] eqn:Hr.
  eexists _, _, Done. split; [reflexivity|]. split; [by apply grows_same|]. split.
  - eapply decided_step; [exact Hi|by destruct Hl as [-> | [-> | ->]]|done|done|].
    intros st Hs. assert (delegations s1 = delegations m0) as Hs1 by (destruct Hl as [-> | [-> | ->]]; apply Hs).
    cbn [stage]. change (delegations s1{{delegations := s}}) with s. change (ran s1{{delegations := s}}) with (ran s1).
    split; [destruct Hl as [-> | [-> | ->]]; cbn in Hs; unfold ran_once in *; tauto|].
    right. unfold released. by rewrite <- Hs1, Hr.
  - destruct r as [[]|e]; cbn [of_result wp]; [apply HΦ|apply HΨ].
Qed.

Lemma careful_mark (f : ChargeApproval.t → ChargeApproval.t) st l' (c : event bool) Φ Ψ m :
  (∀ now m, handle saga uuid _ c now m =
     match ChargeApprovalTypeOrmRepository.pending aid (approvals m) with
     | Some a => (m {{ approvals := <[aid := f a]> (approvals m) }}, Ok true)
     | None => (m, Ok false)
     end) →
  (∀ b, ChargeApproval.status (f b) = st ∧ frozen (f b) = frozen b) →
  st = ChargeApproval.APPROVED ∧ l' = Charging ∨ st = ChargeApproval.DENIED ∧ l' = Closing →
  (∀ m', grows m m' → Φ m' l' true) → (∀ m', grows m m' → Φ m' Idle false) →
  careful (call c) Φ Ψ m Idle.
Proof.
  intros Hc Hf Hst HΦt HΦf. apply wp_call. intros now s1 pre post _ Hg Hi. rewrite Hc.
  unfold ChargeApprovalTypeOrmRepository.pending. destruct Hi as [(b & Hb & Hfr & Hall & Hif)]. rewrite Hb.
  destruct (Hf b) as [Hs Hfz]. case_bool_decide as Hp.
  - assert (grows s1 (s1 {{ approvals := <[aid := f b]> (approvals s1) }})) as Hg2.
    { intros x y Hx. cbn. destruct (decide (x = aid)) as [->|Hne]; [|rewrite lookup_insert_ne by done; by exists y].
      exists (f b). rewrite lookup_insert_eq. split; [done|]. congruence. }
    eexists _, _, l'. split; [reflexivity|]. split; [exact Hg2|]. split; [|apply HΦt; by etrans].
    destruct Hif as (Hz & Hr & Hd). split. exists (f b). cbn. rewrite lookup_insert_eq. split; [done|]. split; [congruence|].
    rewrite Hs. assert (sumZ busy (pre ++ l' :: post) = 1) as Hsum.
    { rewrite sumZ_app in *. cbn [sumZ] in *. destruct Hst as [[_ ->] | [_ ->]]; cbn [busy] in *; lia. }
    split; [|destruct Hst as [[-> _] | [-> _]]; exact Hsum]. apply stage_all; [|by destruct Hst as [[-> ->] | [-> ->]]].
    eapply (alone_busy _ l'); [lia|]. by destruct Hst as [[_ ->] | [_ ->]].
  - eexists _, _, Idle. split; [reflexivity|]. split; [reflexivity|]. split; [|by apply HΦf].
    split. exists b. by rewrite bool_decide_eq_false_2.
Qed.

Lemma careful_catch {A} (p : Q A) h Φ Ψ m l :
  careful p Φ (λ m l e, careful (h e) Φ Ψ m l) m l → careful (catch p h) Φ Ψ m l.
Proof. apply wp_catch_events. Qed.

Lemma careful_of_result {A} (r : result A) Φ Ψ m l :
  (∀ x, r = Ok x → Φ m l x) → (∀ e, Ψ m l e) → careful (of_result r) Φ Ψ m l.
Proof. intros HΦ HΨ. destruct r; [by apply HΦ|apply HΨ]. Qed.

(** A request that answers has decided. *)
Abbreviation decides p := (careful p (λ _ l _, l ≠ Idle) (λ _ _ _, True)).

Lemma decides_execute b sh m : frozen b = frozen a → decides (ChargeApprovalService.executeApproved b sh) m Charging.
Proof.
  intros Hfr. unfold ChargeApprovalService.executeApproved. apply wp_bind, careful_catch, wp_bind.
  assert (∀ m' l e, l = Charging ∨ l = Ran ∨ l = Closing →
    careful (_ ← DelegationService.releaseReservation (ChargeApproval.delegationId b) (ChargeApproval.amount b); Fail e)
      (λ m l r, decides (_ ← (if bool_decide (res_status r = FAILED)
         then DelegationService.releaseReservation (ChargeApproval.delegationId b) (ChargeApproval.amount b)
         else mret tt); mret r) m l) (λ _ _ _, True) m' l) as Hrel.
  { intros m' l e Hl. by apply wp_bind, careful_release. }
  apply careful_of_result; [intros input _|intros e; apply Hrel; auto]. unfold ask. apply wp_bind, wp_call.
  intros now s1 pre post _ Hg Hi. eexists _, _, Ran. split; [reflexivity|]. split; [by apply grows_same|]. split.
  - eapply decided_step; [exact Hi|done|done|done|]. intros st (Hs & Hr & Hd). cbn. rewrite Hr. split_and!; [done|by eexists|done].
  - apply careful_of_result; [intros r _|intros e; apply Hrel; auto].
    apply wp_bind. case_bool_decide; [|done]. by apply careful_release; auto.
Qed.

Lemma decides_approve by_ m : decides (ChargeApprovalService.approve aid by_) m Idle.
Proof.
  unfold ChargeApprovalService.approve. apply wp_bind, careful_findPending; [intros m1 b Hfr _|done].
  apply wp_bind, careful_same; [by eexists|]. intros m2 now _. apply wp_bind.
  eapply (careful_mark (λ a, a {{ ChargeApproval.status := ChargeApproval.APPROVED; ChargeApproval.decidedAt := Some now;
                             ChargeApproval.decidedBy := Some by_ }}) ChargeApproval.APPROVED Charging);
    [|by intros []|by left|intros m3 _; cbn [negb]|done].
  { intros t s. cbn. unfold ChargeApprovalTypeOrmRepository.markApproved. by destruct (ChargeApprovalTypeOrmRepository.pending _ _), s. }
  apply wp_bind. unfold ChargeApprovalService.deriveAgentPercentOfRemainingMonthlyBudget, DelegationService.getOrThrow, ask.
  apply careful_catch, wp_bind, wp_bind, wp_bind, careful_same; [by eexists|]. intros m4 r _.
  apply careful_of_result; [intros [d|] _|intros e; by apply decides_execute]; [|by apply decides_execute].
  apply careful_of_result; [intros|intros e]; by apply decides_execute.
Qed.

Lemma decides_deny by_ reason m : decides (ChargeApprovalService.deny aid by_ reason) m Idle.
Proof.
  unfold ChargeApprovalService.deny. apply wp_bind, careful_findPending; [intros m1 b Hfr Hp|done].
  apply wp_bind, careful_same; [by eexists|]. intros m2 now _. apply wp_bind.
  eapply (careful_mark (λ a, a {{ ChargeApproval.status := ChargeApproval.DENIED; ChargeApproval.decidedAt := Some now;
                             ChargeApproval.decidedBy := Some by_; ChargeApproval.denialReason := reason }}) ChargeApproval.DENIED Closing);
    [|by intros []|by right|intros m3 _; cbn [negb]|done].
  { intros t s. cbn. unfold ChargeApprovalTypeOrmRepository.markDenied. by destruct (ChargeApprovalTypeOrmRepository.pending _ _), s. }
  apply wp_bind, careful_release; auto. intros m4. by apply careful_of_result.
Qed.
End deciding.

Definition answered {A} (p : Q A) : Z := match p with Ret _ => 1 | _ => 0 end.

(** C12: of all requests that approve or deny one pending approval, however they
    interleave, at most one is answered with success; the deferred charge runs at
    most once, and only if the approval is APPROVED; and the reservation is
    released at most once. *)
Theorem approval_decided_once `{Driver} saga uuid getRate aid a t0 m0 requests c :
  approvals m0 !! aid = Some a → ChargeApproval.status a = ChargeApproval.PENDING →
  Forall (λ r, (∃ by_, r = Approve aid by_) ∨ (∃ by_ reason, r = Deny aid by_ reason)) requests →
  rtc (interleave (handle saga uuid)) (mkConfig t0 m0 (serve getRate <$> requests)) c →
  let m := memory c in
  sumZ answered (pool c) ≤ 1 ∧
  (ran m = ran m0 ∨
   (∃ x, ran m = ran m0 ++ [x]) ∧ ∃ b, approvals m !! aid = Some b ∧ ChargeApproval.status b = ChargeApproval.APPROVED) ∧
  (delegations m = delegations m0 ∨ delegations m = released a m0).
Proof.
  intros Ha Hp Hreq Hrun m.
  set (none := (λ _, Idle) <$> requests).
  assert (sumZ busy none = 0) as Hz by (subst none; clear; induction requests as [|x l IH]; [done|cbn; by rewrite IH]).
  destruct (pool_run (handle saga uuid) (decided_once aid a m0) grows (λ _, True) (λ _ l _, l ≠ Idle) (λ _ _ _, True) _ _
              none Hrun) as (ls & [(b & Hb & Hfr & Hall & Hif)] & Hpool).
  - done.
  - split. exists a. cbn [memory]. split; [done|]. split; [done|]. rewrite Hp. split; [|by rewrite bool_decide_eq_true_2].
    subst none. apply Forall_fmap, Forall_true. done.
  - cbn [pool memory]. subst none. apply Forall2_fmap, Forall_Forall2_diag. eapply Forall_impl; [exact Hreq|].
    intros r Hr. exists m0. split; [reflexivity|]. destruct Hr as [(by_ & ->) | (by_ & reason & ->)]; cbn [serve]; apply wp_bind;
      [eapply wp_mono; [..|apply decides_approve]|eapply wp_mono; [..|apply decides_deny]]; done.
  - assert (sumZ answered (pool c) ≤ sumZ busy ls) as Hle.
    { clear -Hpool. induction Hpool as [|p l ps ls (s0 & _ & Hp) _ IH]; [done|]. cbn [sumZ]. destruct p as [x|e|X ev k]; cbn [answered].
      - cbn in Hp. destruct l; [done|cbn [busy]; lia..].
      - destruct l; cbn [busy]; lia.
      - destruct l; cbn [busy]; lia. }
    case_bool_decide as Hpd; [destruct Hif as (Hz1 & Hr & Hd); split_and!; [lia|by left|by left]|].
    split; [lia|]. assert (∃ l, l ∈ ls ∧ l ≠ Idle) as (l & Hl & Hne).
    { clear -Hif. induction ls as [|l ls IH]; [done|]. cbn [sumZ] in Hif.
      destruct l; [destruct IH as (l & Hl & Hne); [cbn [busy] in Hif; lia|]; exists l; split; [by right|done]|eexists; split; [by left|done]..]. }
    rewrite Forall_forall in Hall. specialize (Hall l Hl). unfold ran_once in Hall. fold m in Hall.
    destruct l; cbn in Hall; [done|naive_solver..].
Qed.

(** ** One request at a time *)

Lemma reserve_run `{Driver} saga uuid id amount category now m :
  run (handle saga uuid) (DelegationService.reserveSpendOrThrow id amount category now) now m =
  match DelegationTypeOrmRepository.findById id (replica m) with
  | Ok (Some d) =>
      match DelegationService.precheck amount category now d with
      | Ok _ =>
          let '(s, r) := DelegationTypeOrmRepository.tryReserveSpend id amount now (delegations m) in
          (m {{ delegations := s; unmatched := unmatched m ++ DelegationTypeOrmRepository.passed id amount now (delegations m) r }},
           match r with
           | Ok true => Ok d
           | Ok false => Throw (HttpException 422 "DELEGATION_SPEND_LIMIT_EXCEEDED")
           | Throw e => Throw e
           end)
      | Throw e => (m, Throw e)
      end
  | Ok None => (m, Throw (HttpException 404 "DELEGATION_NOT_FOUND"))
  | Throw e => (m, Throw e)
  end.
Proof.
  unfold DelegationService.reserveSpendOrThrow, DelegationService.getOrThrow, ask. rewrite !run_bind_prog.
  cbn [run call handle]. destruct (DelegationTypeOrmRepository.findById id (replica m)) as [[d|]|e]; [|done..].
  cbn [of_result run mret prog_ret]. rewrite run_bind_prog.
  destruct (DelegationService.precheck amount category now d) as [[]|e]; [|done]. cbn [of_result run].
  rewrite !run_bind_prog. cbn [run call handle].
  destruct (DelegationTypeOrmRepository.tryReserveSpend id amount now (delegations m)) as [s [[]|e]]; reflexivity.
Qed.

(** What a row means. *)
Lemma toDomain_fields did e d : DelegationTypeOrmRepository.toDomain did e = Ok d →
  ∃ c thr, Currency.of_ (e_currencyCode e) = Ok c ∧
  0 ≤ currentMonthSpentMinorUnits e ∧
  SpendPolicy.create (Money.mk (perTransactionLimitMinorUnits e) c None) (Money.mk (monthlyLimitMinorUnits e) c None)
    (e_allowedCategories e) thr = Ok (Delegation.spendPolicy d) ∧
  d = Delegation.mk did (e_merchantId e) (e_agentName e) (Delegation.spendPolicy d) (e_status e) (e_currentMonthKey e)
        (Money.mk (currentMonthSpentMinorUnits e) c None) (e_jti e) (e_tokenExpiresAt e) (e_createdAt e) (e_revokedAt e)
        (e_updatedAt e) (e_signingKeyCiphertext e).
Proof.
  unfold DelegationTypeOrmRepository.toDomain, Money.fromMinorUnits. intros Hd.
  destruct (Currency.of_ (e_currencyCode e)) as [c|] eqn:Hc; [|discriminate Hd]. cbn [mbind result_bind] in Hd.
  apply bind_ok_iff in Hd as (per & [_ ->]%make_ok & Hd). apply bind_ok_iff in Hd as (mon & [_ ->]%make_ok & Hd).
  apply bind_ok_iff in Hd as (thr & _ & Hd). apply bind_ok_iff in Hd as (p & Hp & Hd).
  apply bind_ok_iff in Hd as (sp & [Hsp ->]%make_ok & Hd). injection Hd as <-. exists c, thr. by split_and!.
Qed.

Lemma create_fields per mon cats thr p : SpendPolicy.create per mon cats thr = Ok p →
  SpendPolicy.perTransactionLimit p = per ∧ SpendPolicy.monthlyLimit p = mon ∧ SpendPolicy.requireApprovalAboveAmount p = thr ∧
  SpendPolicy.allowedCategories p = match cats with Some (c :: l) => Some (c :: l) | _ => None end.
Proof. unfold SpendPolicy.create. intros H1. repeat (apply bind_ok_iff in H1 as (? & _ & H1)). by injection H1 as <-. Qed.

(** The checks in memory, in terms of the row that was read. *)
Definition verdict (e : DelegationEntity) (c : Currency.t) (p : SpendPolicy.t) (amount : Money.t) (category : option string)
    (now : Date) : option js_error :=
  if negb (bool_decide (e_status e = Delegation.ACTIVE)) then Some (HttpException 403 "DELEGATION_REVOKED")
  else if negb (String.eqb (SpendPolicy.code amount) (Currency.code c))
    then Some (HttpException 422 "DELEGATION_CURRENCY_MISMATCH")
  else if perTransactionLimitMinorUnits e <? units amount
    then Some (HttpException 422 "DELEGATION_PER_TRANSACTION_LIMIT_EXCEEDED")
  else if negb (SpendPolicy.isCategoryAllowed category p)
    then Some (HttpException 422 "DELEGATION_CATEGORY_NOT_ALLOWED")
  else if monthlyLimitMinorUnits e <? DelegationTypeOrmRepository.bucket (monthKeyOf now) e + units amount
    then Some (HttpException 422 "DELEGATION_MONTHLY_LIMIT_EXCEEDED")
  else None.

Lemma verdict_pass e c p amount category now : verdict e c p amount category now = None →
  e_status e = Delegation.ACTIVE ∧ units amount ≤ perTransactionLimitMinorUnits e ∧
  DelegationTypeOrmRepository.bucket (monthKeyOf now) e + units amount ≤ monthlyLimitMinorUnits e.
Proof.
  unfold verdict. case_bool_decide; [|done]. cbn [negb]. intros Hv. repeat case_match; try discriminate Hv. reflect_tests. done.
Qed.

Lemma spentThisMonth_bucket id e d c now :
  DelegationTypeOrmRepository.toDomain id e = Ok d → Currency.of_ (e_currencyCode e) = Ok c →
  Delegation.spentThisMonth now d = Ok (Money.mk (DelegationTypeOrmRepository.bucket (monthKeyOf now) e) c None)
  ∧ 0 ≤ DelegationTypeOrmRepository.bucket (monthKeyOf now) e.
Proof.
  intros Hd Hc. destruct (toDomain_fields _ _ _ Hd) as (c' & thr & Hc' & Hsp & Hp & Ed). rewrite Hc in Hc'. injection Hc' as <-.
  destruct (create_fields _ _ _ _ _ Hp) as (Eper & _). unfold Delegation.spentThisMonth, DelegationTypeOrmRepository.bucket.
  assert (Delegation.currentMonthKey d = e_currentMonthKey e ∧
          Delegation.currentMonthSpent d = Money.mk (currentMonthSpentMinorUnits e) c None) as [-> ->] by by rewrite Ed.
  rewrite String.eqb_sym.
  destruct (e_currentMonthKey e =? monthKeyOf now)%string; (split; [|lia]); [done|].
  unfold SpendPolicy.currency, SpendPolicy.code. rewrite Eper. cbn. by rewrite zero_wf_code by by eapply Currency_of_wf.
Qed.

Lemma precheck_exact id e d c amount category now :
  DelegationTypeOrmRepository.toDomain id e = Ok d → Currency.of_ (e_currencyCode e) = Ok c → Money.wf amount →
  DelegationService.precheck amount category now d =
  match verdict e c (Delegation.spendPolicy d) amount category now with Some err => Throw err | None => Ok tt end.
Proof.
  intros Hd Hc [Hpos Hwf]. destruct (spentThisMonth_bucket id e d c now Hd Hc) as [Espm Hb].
  destruct (toDomain_fields _ _ _ Hd) as (c' & thr & Hc' & _ & Hp & Ed). rewrite Hc in Hc'. injection Hc' as <-.
  destruct (create_fields _ _ _ _ _ Hp) as (Eper & Emon & _ & _).
  assert (Delegation.status d = e_status e) as Est by by rewrite Ed. clear Ed.
  unfold DelegationService.precheck, verdict. rewrite Est.
  case_bool_decide as Hact; cbn [negb throw_if mbind result_bind]; [|done].
  unfold SpendPolicy.currency. rewrite Eper. unfold SpendPolicy.code at 2. cbn [Money.currency].
  destruct (String.eqb_spec (SpendPolicy.code amount) (Currency.code c)) as [Hcode|]; cbn [negb throw_if mbind result_bind]; [|done].
  assert (∀ x, Money.same amount (Money.mk x c None)) as Hsame by done.
  unfold Money.isGreaterThan. rewrite assertSameCurrency_same by done. cbn [mbind result_bind Money.amountMinorUnits].
  fold (units amount). destruct (perTransactionLimitMinorUnits e <? units amount); cbn [throw_if mbind result_bind]; [done|].
  destruct (SpendPolicy.isCategoryAllowed category (Delegation.spendPolicy d)); cbn [negb throw_if mbind result_bind]; [|done].
  rewrite Espm. cbn [mbind result_bind]. unfold Money.add. rewrite assertSameCurrency_same by (unfold Money.same; symmetry; exact Hcode).
  cbn [mbind result_bind Money.amountMinorUnits Money.currency]. fold (units amount). set (left_ := _ + units amount).
  assert (Money.make left_ c None = Ok (Money.mk left_ c None)) as -> by (apply make_ok; unfold left_, units; split; [lia|done]).
  cbn [mbind result_bind]. rewrite assertSameCurrency_same by by rewrite Emon. cbn [mbind result_bind]. rewrite Emon.
  cbn [Money.amountMinorUnits]. by destruct (monthlyLimitMinorUnits e <? left_).
Qed.

Lemma int8_below x y : 0 ≤ x ≤ y → int8 y = true → int8 x = true.
Proof. unfold int8. intros Hx [_ Hy%Z.ltb_lt]%andb_true_iff. apply andb_true_iff. split; [apply Z.leb_le|apply Z.ltb_lt]; lia. Qed.

(** With a current read, a reservation succeeds exactly when the delegation is
    active, the amount is in its currency, within the per-transaction limit, in an
    allowed category, and fits what is left of the month; it then changes the
    counter of that month and nothing else. Otherwise nothing changes and the
    error names the first condition that fails. The checks in memory and those of
    the update agree. *)
Theorem reserve_exact `{Driver} saga uuid id e d c amount category now m :
  (∀ n, (0 <? update_returning n)%nat = (0 <? n)%nat) →
  delegations m !! id = Some e → replica m !! id = Some e → DelegationTypeOrmRepository.toDomain id e = Ok d →
  Currency.of_ (e_currencyCode e) = Ok c → Money.wf amount → int8 (monthlyLimitMinorUnits e) = true →
  run (handle saga uuid) (DelegationService.reserveSpendOrThrow id amount category now) now m =
  match verdict e c (Delegation.spendPolicy d) amount category now with
  | Some err => (m, Throw err)
  | None =>
      (m {{ delegations :=
              <[id := e {{ currentMonthSpentMinorUnits :=
                             DelegationTypeOrmRepository.bucket (monthKeyOf now) e + units amount;
                           e_currentMonthKey := monthKeyOf now }}]> (delegations m) }}, Ok d)
  end.
Proof.
  intros Hdrv He Hr Hd Hc Hwf Hmax. rewrite reserve_run. unfold DelegationTypeOrmRepository.findById. rewrite Hr, Hd.
  cbn [fmap result_fmap]. rewrite (precheck_exact id e d c) by done.
  destruct (verdict e c (Delegation.spendPolicy d) amount category now) as [err|] eqn:Hv; [done|].
  destruct (spentThisMonth_bucket id e d c now Hd Hc) as [_ Hb]. destruct Hwf as [Hpos _]. fold (units amount) in Hpos.
  apply verdict_pass in Hv as (Hact & Hper & Hmon).
  unfold DelegationTypeOrmRepository.passed, DelegationTypeOrmRepository.tryReserveSpend, DelegationTypeOrmRepository.reservable. fold (units amount). rewrite He.
  rewrite (int8_below (units amount) (monthlyLimitMinorUnits e)), (int8_below _ (monthlyLimitMinorUnits e)) by (lia || done).
  cbn [negb]. rewrite bool_decide_eq_true_2 by done.
  assert ((units amount <=? perTransactionLimitMinorUnits e) = true) as -> by lia.
  assert ((DelegationTypeOrmRepository.bucket (monthKeyOf now) e + units amount <=? monthlyLimitMinorUnits e) = true) as -> by lia.
  cbn [andb]. rewrite Hdrv. cbn [Nat.ltb Nat.leb]. rewrite app_nil_r. by destruct m.
Qed.

(** ** The row *)

(** The categories a [simple-array] column can hold: not empty, without commas. *)
Fixpoint commaless (s : string) : bool :=
  match s with EmptyString => true | String c s => negb (Ascii.eqb c ",") && commaless s end.

Definition plain (s : string) : Prop := s ≠ ""%string ∧ commaless s = true.

(** A delegation whose policy [SpendPolicy.create] accepted, with amounts in
    range and categories the column can hold, is read back as it was saved, with
    the timestamps of the database. *)
Theorem delegation_roundtrip `{Driver} now d s :
  let p := Delegation.spendPolicy d in
  let c := Money.currency (SpendPolicy.perTransactionLimit p) in
  (∀ l, Forall plain l → simple_array l = l) →
  SpendPolicy.create (SpendPolicy.perTransactionLimit p) (SpendPolicy.monthlyLimit p) (SpendPolicy.allowedCategories p)
    (SpendPolicy.requireApprovalAboveAmount p) = Ok p →
  Forall (λ x, Money.wf x ∧ Money.currency x = c ∧ Money.fxSnapshot x = None ∧ int8 (units x) = true)
    (SpendPolicy.perTransactionLimit p :: SpendPolicy.monthlyLimit p :: Delegation.currentMonthSpent d
       :: match SpendPolicy.requireApprovalAboveAmount p with Some x => [x] | None => [] end) →
  match SpendPolicy.allowedCategories p with Some l => Forall plain l | None => True end →
  ∃ s', DelegationTypeOrmRepository.save now d s = Ok s' ∧
    DelegationTypeOrmRepository.findById (Delegation.id d) s' =
    Ok (Some (d {{ Delegation.createdAt := match s !! Delegation.id d with Some e => e_createdAt e | None => now end;
                   Delegation.updatedAt := now }})).
Proof.
  intros p c Hsimple Hcreate Hamounts Hcats.
  apply Forall_cons in Hamounts as [(Hw1 & Hc1 & Hf1 & Hi1) Hamounts].
  apply Forall_cons in Hamounts as [(Hw2 & Hc2 & Hf2 & Hi2) Hamounts].
  apply Forall_cons in Hamounts as [(Hw3 & Hc3 & Hf3 & Hi3) Hthr].
  assert (∀ x, Money.wf x → Money.currency x = c → Money.fxSnapshot x = None →
          Money.fromMinorUnits (units x) (Currency.code c) None = Ok x) as Hback.
  { intros x [Hpos Hwf] Hx Hfx. rewrite fromMinorUnits_wf_code by (done || by rewrite <- Hx). destruct x; cbn in *. by subst. }
  unfold DelegationTypeOrmRepository.save. fold p. fold (units (SpendPolicy.perTransactionLimit p)).
  fold (units (SpendPolicy.monthlyLimit p)). fold (units (Delegation.currentMonthSpent d)). rewrite Hi1, Hi2, Hi3.
  assert (match Money.amountMinorUnits <$> SpendPolicy.requireApprovalAboveAmount p with Some x => int8 x | None => true end = true) as ->.
  { destruct (SpendPolicy.requireApprovalAboveAmount p) as [x|]; [|done]. by apply Forall_singleton in Hthr as (_ & _ & _ & ?). }
  cbn [andb negb]. eexists. split; [reflexivity|]. unfold DelegationTypeOrmRepository.findById. rewrite lookup_insert_eq.
  unfold DelegationTypeOrmRepository.toDomain.
  cbn [perTransactionLimitMinorUnits monthlyLimitMinorUnits e_currencyCode requireApprovalAboveAmountMinorUnits
       e_allowedCategories currentMonthSpentMinorUnits].
  change (SpendPolicy.currency p) with (Currency.code c). rewrite !Hback by done. cbn [mbind result_bind].
  assert ((simple_array <$> SpendPolicy.allowedCategories p) = SpendPolicy.allowedCategories p) as ->
    by (destruct (SpendPolicy.allowedCategories p); cbn; [by rewrite Hsimple|done]).
  assert (∀ {B} (f : option Money.t → result B),
    (thr ← match Money.amountMinorUnits <$> SpendPolicy.requireApprovalAboveAmount p with
           | Some x => Some <$> Money.fromMinorUnits x (Currency.code c) None
           | None => Ok None
           end; f thr) = f (SpendPolicy.requireApprovalAboveAmount p)) as ->.
  { intros B f. destruct (SpendPolicy.requireApprovalAboveAmount p) as [x|]; [|done].
    apply Forall_singleton in Hthr as (Hw & Hcx & Hfx & _). cbn. fold (units x). by rewrite Hback. }
  rewrite Hcreate. cbn. by destruct d.
Qed.

(** ** Around the limit *)

(** The guard of the reservation is the length of what the driver answers. If
    the driver answers an update that changed nothing with a non-empty array, a
    charge whose checks passed on an old read goes ahead although the delegation
    has no budget left, and nothing is reserved for it. *)
Theorem unmatched_update_passes `{Driver} saga uuid id d e amount category now m :
  (0 < update_returning 0)%nat →
  DelegationTypeOrmRepository.findById id (replica m) = Ok (Some d) →
  DelegationService.precheck amount category now d = Ok tt →
  delegations m !! id = Some e → int8 (units amount) = true →
  int8 (DelegationTypeOrmRepository.bucket (monthKeyOf now) e + units amount) = true →
  DelegationTypeOrmRepository.reservable (monthKeyOf now) (units amount) e = false →
  run (handle saga uuid) (DelegationService.reserveSpendOrThrow id amount category now) now m = (m {{ unmatched := unmatched m ++ [(id, amount)] }}, Ok d).
Proof.
  intros Hdrv Hd Hpre He Hint Hsum Hres. rewrite reserve_run, Hd, Hpre. unfold DelegationTypeOrmRepository.passed, DelegationTypeOrmRepository.tryReserveSpend.
  fold (units amount). rewrite Hint, He, Hsum, Hres. cbn [negb]. assert ((0 <? update_returning 0)%nat = true) as -> by by apply Nat.ltb_lt.
  by destruct m.
Qed.

(** What a denial does, run on its own. *)
Lemma deny_run `{Driver} saga uuid aid by_ reason now m b :
  approvals m !! aid = Some b → ChargeApproval.status b = ChargeApproval.PENDING → int8 (units (ChargeApproval.amount b)) = true →
  ∃ b', run (handle saga uuid) (ChargeApprovalService.deny aid by_ reason) now m =
    (m {{ approvals := (ChargeApprovalTypeOrmRepository.markDenied aid now by_ reason (approvals m)).1;
          delegations := (DelegationTypeOrmRepository.releaseSpend (ChargeApproval.delegationId b) (ChargeApproval.amount b)
                            (delegations m)).1 }}, Ok b').
Proof.
  intros Hb Hp Hint. unfold ChargeApprovalService.deny, ChargeApprovalService.findPending, ChargeApprovalService.findById.
  rewrite !run_bind_prog. cbn [run call handle]. rewrite Hb. cbn [run mret prog_ret]. rewrite bool_decide_eq_true_2 by done.
  cbn [run mret prog_ret]. rewrite run_bind_prog. cbn [run call handle]. rewrite run_bind_prog. cbn [run call handle].
  unfold ChargeApprovalTypeOrmRepository.markDenied, ChargeApprovalTypeOrmRepository.pending. rewrite Hb, bool_decide_eq_true_2 by done.
  cbn [run call handle negb]. rewrite run_bind_prog. unfold DelegationService.releaseReservation, ask. rewrite run_bind_prog. cbn [run call handle].
  unfold DelegationTypeOrmRepository.releaseSpend. fold (units (ChargeApproval.amount b)). rewrite Hint. cbn [negb].
  unfold ChargeApproval.deny. rewrite bool_decide_eq_true_2 by done. cbn [delegations].
  change (delegations m{{approvals := ?x}}) with (delegations m).
  destruct (delegations m !! ChargeApproval.delegationId b); cbn [of_result run]; eexists; reflexivity.
Qed.

(** A denial gives its amount back to the month in which it is made, not to the
    month in which it was reserved. An agent that has used up this month's limit
    can spend the amount of an older approval once more, over the limit, as soon as
    that approval is denied. *)
Theorem late_denial_raises_limit `{Driver} saga uuid aid by_ reason now m b e :
  approvals m !! aid = Some b → ChargeApproval.status b = ChargeApproval.PENDING →
  monthKeyOf (ChargeApproval.createdAt b) ≠ monthKeyOf now →
  delegations m !! ChargeApproval.delegationId b = Some e → e_status e = Delegation.ACTIVE →
  e_currentMonthKey e = monthKeyOf now → currentMonthSpentMinorUnits e = monthlyLimitMinorUnits e →
  0 < units (ChargeApproval.amount b) ≤ perTransactionLimitMinorUnits e →
  perTransactionLimitMinorUnits e ≤ monthlyLimitMinorUnits e → int8 (monthlyLimitMinorUnits e) = true →
  let m' := (run (handle saga uuid) (ChargeApprovalService.deny aid by_ reason) now m).1 in
  DelegationTypeOrmRepository.reservable (monthKeyOf now) (units (ChargeApproval.amount b)) e = false ∧
  DelegationTypeOrmRepository.tryReserveSpend (ChargeApproval.delegationId b) (ChargeApproval.amount b) now (delegations m')
    = (delegations m, Ok (0 <? update_returning 1)%nat).
Proof.
  intros Hb Hp Hmonth He Hact Hkey Hfull Hu Hper Hmax m'. set (u := units (ChargeApproval.amount b)) in *.
  assert (int8 u = true) as Hint by (eapply int8_below; [|exact Hmax]; lia).
  assert (delegations m' = <[ChargeApproval.delegationId b := e {{ currentMonthSpentMinorUnits := monthlyLimitMinorUnits e - u }}]>
            (delegations m)) as Hm'.
  { subst m'. destruct (deny_run saga uuid aid by_ reason now m b Hb Hp Hint) as [b' ->]. cbn [fst delegations].
    unfold DelegationTypeOrmRepository.releaseSpend. fold (units (ChargeApproval.amount b)). fold u. rewrite Hint, He, Hfull. cbn. by rewrite Z.max_l by lia. }
  rewrite Hm'. unfold DelegationTypeOrmRepository.tryReserveSpend, DelegationTypeOrmRepository.reservable,
    DelegationTypeOrmRepository.bucket. fold (units (ChargeApproval.amount b)). fold u.
  rewrite Hint, lookup_insert_eq, insert_insert_eq. cbn [negb]. rewrite Hkey, String.eqb_refl, Hfull, bool_decide_eq_true_2 by done.
  split; [destruct (u <=? _); [|done]; cbn [andb]; lia|].
  clear m' Hm' Hb Hp.
  destruct e as [f1 f2 per mon f5 f6 f7 st mk sp f11 f12 f13 f14 f15 f16]. cbn in *. subst. rewrite String.eqb_refl.
  rewrite Z.sub_add, Hmax, bool_decide_eq_true_2 by done. cbn [negb andb].
  assert ((u <=? per) = true) as -> by lia. assert ((mon <=? mon) = true) as -> by lia.
  cbn [andb]. by rewrite insert_id.
Qed.

(** A charge that the provider has made is not covered by the budget when the
    routing history cannot be written: the saga throws after the provider
    answered, and the controller releases the reservation of the charged amount. *)
Theorem outage_frees_charged_budget `{Ports : CheckoutPorts, Charge : ChargePorts, Drv : Driver} uuid started eventId holdId
    pid key dto mid did sh pr input params d made answer provider fb err now m :
  working → recordRouting provider = Throw err → isAmbiguousOutcomeError err = false →
  ChargeLedgerParamsResolverService.resolve started (md_merchantId (in_metadata input)) (in_amount input) (in_splits input)
    = Ok params →
  AcquirerRoutingService.selectOptimalAdapter getHealthStatus (context_of input params) = Ok d →
  PaymentProcessorFactory.executeWithFallback charge adapterAvailable getHealthStatusAgain (context_of input params)
    = (made, Ok (answer, provider, fb)) → cr_status answer = CHARGE_SUCCEEDED →
  buildCheckoutSagaInput pid mid key dto (Some did) (Some agent) sh = Ok input → did ≠ ""%string →
  int8 (units (in_amount input)) = true →
  let saga := λ (_ : nat) i, (PaymentCheckoutSaga.execute started eventId holdId i no_effects).2 in
  run (handle saga uuid) (PaymentController.execute pid key dto mid (in_amount input) (Some did) sh pr) now m =
  (m {{ ran := ran m ++ [(input, Throw err)];
        delegations := (DelegationTypeOrmRepository.releaseSpend did (in_amount input) (delegations m)).1 }}, Throw err).
Proof.
  intros W Hrec Hamb Hres Hroute Hcharge _ Hbuild Hne Hint saga.
  destruct (routing_history_outage started eventId holdId input params d made answer provider fb err W Hrec Hamb Hres Hroute Hcharge)
    as (s & E & _).
  unfold PaymentController.execute. assert (truthy (Some did) = true) as -> by by destruct did. rewrite Hbuild.
  rewrite run_bind_prog. cbn [of_result mbind prog_bind ask call catch run handle]. subst saga. cbv beta. rewrite E.
  cbn [snd of_result catch run mbind prog_bind DelegationService.releaseReservation ask call handle].
  change (delegations m{{ran := ?x}}) with (delegations m).
  unfold DelegationTypeOrmRepository.releaseSpend. fold (units (in_amount input)). rewrite Hint. cbn [negb].
  destruct (delegations m !! did); reflexivity.
Qed.

(** ** A concrete delegation

    100.00 USD a month, 60.00 a charge, of which 30.00 were spent in January 1970. *)

(** The column keeps the categories separated by commas. *)
Fixpoint join (l : list string) : string :=
  match l with [] => "" | [x] => x | x :: l => x ++ "," ++ join l end.

Fixpoint split (s : string) : list string :=
  match s with
  | EmptyString => [""%string]
  | String c s =>
      if Ascii.eqb c "," then ""%string :: split s
      else match split s with x :: l => String c x :: l | [] => [String c ""] end
  end.

Definition stored_array (l : list string) : list string := match join l with EmptyString => [] | s => split s end.

Lemma split_comma x y : commaless x = true → split (x ++ "," ++ y)%string = x :: split y.
Proof.
  induction x as [|c x IH]; [done|]. cbn [commaless]. intros [Hc Hx]%andb_true_iff. apply negb_true_iff in Hc.
  change (split (String c x ++ "," ++ y)%string) with (if Ascii.eqb c "," then ""%string :: split (x ++ "," ++ y)%string
    else match split (x ++ "," ++ y)%string with z :: l => String c z :: l | [] => [String c ""] end).
  by rewrite Hc, IH.
Qed.

Lemma split_last x : commaless x = true → split x = [x].
Proof.
  induction x as [|c x IH]; [done|]. cbn [commaless split]. intros [Hc Hx]%andb_true_iff. apply negb_true_iff in Hc. by rewrite Hc, IH.
Qed.

Lemma stored_plain l : Forall plain l → stored_array l = l.
Proof.
  intros Hl. assert (∀ x l, Forall plain (x :: l) → split (join (x :: l)) = x :: l) as Hsplit.
  { clear. intros x l. revert x. induction l as [|y l IH]; intros x [[_ Hx] Hl]%Forall_cons; [by apply split_last|].
    change (join (x :: y :: l)) with (x ++ "," ++ join (y :: l))%string. rewrite split_comma by done. by rewrite IH. }
  destruct l as [|x l]; [done|]. unfold stored_array. specialize (Hsplit x l Hl).
  destruct (join (x :: l)) as [|c s] eqn:E; [|done]. exfalso. apply Forall_cons in Hl as [[Hx _] _].
  destruct l; destruct x; discriminate || done.
Qed.

Definition rows_driver : Driver := {| update_returning n := n; simple_array := stored_array |}.

(** Answers an update with the rows and their number. *)
Definition paired_driver : Driver := {| update_returning _ := 2%nat; simple_array := stored_array |}.

Definition sample_row (month : string) (spent : Z) : DelegationEntity :=
  mkDelegationEntity "m_1" "Assistant" 6000 10000 "USD" (Some ["books"%string]) None Delegation.ACTIVE month spent "jti" 86400000
    None 0 0 None.

Definition sample_dto (x : number) : ChargePaymentDto :=
  mkChargePaymentDto x "USD" None None None None None None None (Some STRIPE) None (Some "books"%string) (Some automatic) None None.

Definition sample_saga (_ : nat) (input : CheckoutSagaInput) : result CheckoutSagaResult :=
  Ok (mkCheckoutSagaResult (paymentId input) SUCCEEDED None STRIPE None 0 false false None None).

Definition sample_machine (e : DelegationEntity) (pending : gmap string ChargeApproval.t) : machine :=
  mkMachine {["d_1"%string := e]} {["d_1"%string := e]} pending 0 [] [] [].

Definition sample_approval (createdAt : Date) : ChargeApproval.t :=
  ChargeApproval.create createdAt "a_1" "pay_1" "d_1" "m_1" (usd 5000) "key" (sample_dto (Num.lit 50 1)).

Definition sample_rate (_ _ : string) : result (number * string) := Throw (ExternalFailure "no rate").

Definition sample_requests : list request :=
  [Charge (sample_dto (Num.lit 60 1)) (Some "key"%string) (mkCaller "m_1" (Some (Some "d_1"%string)));
   Charge (sample_dto (Num.lit 50 1)) (Some "key_2"%string) (mkCaller "m_1" (Some (Some "d_1"%string)))].

(** The first request runs to its end; the second has not started. *)
Definition sample_start : machine := sample_machine (sample_row "1970-01" 3000) ∅.

Definition sample_run : machine * result unit :=
  run (handle (H := rows_driver) sample_saga pretty)
    (serve sample_rate (Charge (sample_dto (Num.lit 60 1)) (Some "key"%string) (mkCaller "m_1" (Some (Some "d_1"%string)))))
    0 sample_start.

Definition sample_end : config unit :=
  mkConfig 0 sample_run.1
    (<[0%nat := match sample_run.2 with Ok a => Ret a | Throw e => Fail e end]> (serve sample_rate <$> sample_requests)).

Lemma sample_reaches :
  rtc (interleave (handle (H := rows_driver) sample_saga pretty))
    (mkConfig 0 sample_start (serve sample_rate <$> sample_requests)) sample_end.
Proof.
  unfold sample_end, sample_run. apply run_interleaves. unfold sample_requests. by rewrite fmap_cons.
Qed.

Lemma sample_spent : spent_on "d_1" sample_run.1 = 6000.
Proof. vm_compute. reflexivity. Qed.


(** An approval and a denial race. *)
Definition sample_deciding : machine :=
  sample_machine (sample_row "1970-01" 5000) {["a_1"%string := sample_approval 0]}.

Definition sample_decisions : list request := [Approve "a_1" "ann"; Deny "a_1" "bob" None].

Definition sample_approved : machine * result unit :=
  run (handle (H := rows_driver) sample_saga pretty) (serve sample_rate (Approve "a_1" "ann")) 0 sample_deciding.

Definition sample_decided : config unit :=
  mkConfig 0 sample_approved.1
    (<[0%nat := match sample_approved.2 with Ok a => Ret a | Throw e => Fail e end]> (serve sample_rate <$> sample_decisions)).

Lemma sample_decides :
  rtc (interleave (handle (H := rows_driver) sample_saga pretty))
    (mkConfig 0 sample_deciding (serve sample_rate <$> sample_decisions)) sample_decided.
Proof. unfold sample_decided, sample_approved. apply run_interleaves. unfold sample_decisions. by rewrite fmap_cons. Qed.

Lemma approval_decided_once_witness :
  rtc (interleave (handle (H := rows_driver) sample_saga pretty))
    (mkConfig 0 sample_deciding (serve sample_rate <$> sample_decisions)) sample_decided
  ∧ sumZ answered (pool sample_decided) ≤ 1.
Proof.
  destruct (approval_decided_once (H := rows_driver) sample_saga pretty sample_rate "a_1" (sample_approval 0) 0 sample_deciding
              sample_decisions sample_decided) as [Hle _].
  - vm_compute. reflexivity.
  - reflexivity.
  - apply Forall_cons. split; [left; by exists "ann"%string|]. apply Forall_cons. split; [right; by exists "bob"%string, None|].
    apply Forall_nil_2.
  - exact sample_decides.
  - split; [exact sample_decides|exact Hle].
Defined.

Definition sample_read : Delegation.t :=
  Delegation.mk "d_1" "m_1" "Assistant" (SpendPolicy.mk (usd 6000) (usd 10000) (Some ["books"%string]) None)
    Delegation.ACTIVE "1970-01" (usd 3000) "jti" 86400000 0 None 0 None.

Lemma reserve_exact_witness :
  (run (handle (H := rows_driver) sample_saga pretty)
     (DelegationService.reserveSpendOrThrow "d_1" (usd 6000) (Some "books"%string) 0) 0 sample_start).2 = Ok sample_read.
Proof.
  rewrite (reserve_exact (H := rows_driver) sample_saga pretty "d_1" (sample_row "1970-01" 3000) sample_read (Currency.mk "USD" 2)
             (usd 6000) (Some "books"%string) 0 sample_start).
  - vm_compute. reflexivity.
  - reflexivity.
  - vm_compute. reflexivity.
  - vm_compute. reflexivity.
  - vm_compute. reflexivity.
  - vm_compute. reflexivity.
  - by apply usd_wf.
  - vm_compute. reflexivity.
Defined.

(** As [Delegation.create] makes it. *)
Definition sample_delegation : Delegation.t :=
  Delegation.mk "d_1" "m_1" "Assistant"
    (SpendPolicy.mk (usd 6000) (usd 10000) (Some ["books"%string; "toys"%string]) (Some (usd 5000)))
    Delegation.ACTIVE "1970-01" (usd 0) "jti" 86400000 0 None 0 (Some "cipher"%string).

Lemma delegation_roundtrip_witness : ∃ s,
  DelegationTypeOrmRepository.save (H := rows_driver) 0 sample_delegation ∅ = Ok s
  ∧ DelegationTypeOrmRepository.findById "d_1" s = Ok (Some sample_delegation).
Proof.
  destruct (delegation_roundtrip (H := rows_driver) 0 sample_delegation ∅) as (s & Hs & Hf).
  - exact stored_plain.
  - vm_compute. reflexivity.
  - repeat (apply Forall_cons; split; [split_and!; [by apply usd_wf|reflexivity|reflexivity|reflexivity]|]). apply Forall_nil_2.
  - repeat (apply Forall_cons; split; [by split|]). apply Forall_nil_2.
  - exists s. split; [exact Hs|exact Hf].
Defined.

(** The replica has not seen the last reservation. *)
Definition sample_lagging : machine :=
  mkMachine {["d_1"%string := sample_row "1970-01" 9000]} {["d_1"%string := sample_row "1970-01" 3000]} ∅ 0 [] [] [].

Lemma unmatched_update_passes_witness :
  run (handle (H := paired_driver) sample_saga pretty)
    (DelegationService.reserveSpendOrThrow "d_1" (usd 6000) (Some "books"%string) 0) 0 sample_lagging
  = (sample_lagging {{ unmatched := unmatched sample_lagging ++ [("d_1"%string, usd 6000)] }}, Ok sample_read).
Proof.
  apply (unmatched_update_passes (H := paired_driver) sample_saga pretty "d_1" sample_read (sample_row "1970-01" 9000) (usd 6000)
                    (Some "books"%string) 0 sample_lagging).
  - cbn. lia.
  - vm_compute. reflexivity.
  - vm_compute. reflexivity.
  - vm_compute. reflexivity.
  - vm_compute. reflexivity.
  - vm_compute. reflexivity.
  - vm_compute. reflexivity.
Defined.

(** February, its limit used up; the approval is from January. *)
Definition sample_february : Date := 40 * 86400000.

Lemma late_denial_raises_limit_witness :
  let m := sample_machine (sample_row "1970-02" 10000) {["a_1"%string := sample_approval 0]} in
  let m' := (run (handle (H := rows_driver) sample_saga pretty) (ChargeApprovalService.deny "a_1" "ann" None) sample_february m).1 in
  DelegationTypeOrmRepository.reservable (monthKeyOf sample_february) 5000 (sample_row "1970-02" 10000) = false
  ∧ DelegationTypeOrmRepository.tryReserveSpend (H := rows_driver) "d_1" (usd 5000) sample_february (delegations m')
    = (delegations m, Ok true).
Proof.
  intros m m'.
  destruct (late_denial_raises_limit (H := rows_driver) sample_saga pretty "a_1" "ann" None sample_february m (sample_approval 0)
              (sample_row "1970-02" 10000)) as [Hno Hyes].
  - vm_compute. reflexivity.
  - reflexivity.
  - vm_compute. discriminate.
  - vm_compute. reflexivity.
  - reflexivity.
  - vm_compute. reflexivity.
  - reflexivity.
  - cbn. lia.
  - cbn. lia.
  - vm_compute. reflexivity.
  - split; [exact Hno|exact Hyes].
Defined.

#[local] Existing Instance sample_ports.

Definition agent_input : CheckoutSagaInput :=
  sample_input {{ in_delegationId := Some "d_1"%string; in_initiatedBy := Some agent }}.

Lemma outage_frees_charged_budget_witness :
  let m := sample_machine (sample_row "1970-01" 10000) ∅ in
  ∃ err, run (handle (H := rows_driver)
    (λ _ i, (PaymentCheckoutSaga.execute (H := sample_checkout false false) 0 "ev" "hold" i no_effects).2) pretty)
    (PaymentController.execute "pay_1" "key" (sample_dto (Num.lit 100 1)) "m_1" (usd 10000) (Some "d_1"%string) None None) 0 m
  = (m {{ ran := [(agent_input, Throw err)];
          delegations := (DelegationTypeOrmRepository.releaseSpend "d_1" (usd 10000) (delegations m)).1 }}, Throw err).
Proof.
  intros m. exists (ExternalFailure "cache"). destruct sample_params as (params & Hres & Hent).
  destruct (sample_decision false false params Hent) as (d & Hd & _).
  apply (outage_frees_charged_budget (Ports := sample_checkout false false) (Drv := rows_driver) pretty 0 "ev" "hold" "pay_1" "key"
           (sample_dto (Num.lit 100 1)) "m_1" "d_1" None None agent_input params d [STRIPE] (sample_charge "tx_stripe") STRIPE false
           (ExternalFailure "cache") 0 m).
  - apply sample_works.
  - reflexivity.
  - reflexivity.
  - exact Hres.
  - unfold AcquirerRoutingService.selectOptimalAdapter. change (context_of agent_input params) with (context_of sample_input params).
    by rewrite Hd.
  - exact (sample_charged false false params Hent).
  - reflexivity.
  - vm_compute. reflexivity.
  - discriminate.
  - vm_compute. reflexivity.
Defined.
