(* ===== verification/Reconciliation.v ===== *)
(** * Reconciliation with the providers

    [reconciliation.service.ts], [reconciliation-run.aggregate.ts] and the query
    [findByProviderAndDateRange]: the payments of a window against a provider's own
    settlement report. The texts of the mismatches are not modelled. *)

From S2P Require Import Prelude JsNumber Money Policies PaymentStatus Payment Routing Checkout.

(** ** Data *)

Record PSPSettlementTransaction := mkPSPSettlementTransaction {
  st_pspTransactionId : string;
  st_amount : Money.t;
  settledAt : Date }.

Inductive ReconciliationStatus := CLEAN | MISMATCHES_FOUND.

Inductive MismatchType :=
  | MISSING_AT_PSP | AMOUNT_MISMATCH | CURRENCY_MISMATCH | UNKNOWN_AT_PSP | COMPARISON_ERROR.

Record ReconciliationMismatch := mkReconciliationMismatch {
  mi_type : MismatchType;
  mi_paymentId : option string;
  mi_pspTransactionId : option string;
  expectedAmount : option Money.t;
  actualAmount : option Money.t }.

Module ReconciliationRun.

Record t := mk {
  id : string;
  pspProvider : PSPProvider;
  windowStart : Date;
  windowEnd : Date;
  transactionsChecked : nat;
  mismatches : list ReconciliationMismatch;
  status : ReconciliationStatus;
  ranAt : Date }.

Definition create (now : Date) (id : string) (pspProvider : PSPProvider) (windowStart windowEnd : Date)
    (transactionsChecked : nat) (mismatches : list ReconciliationMismatch) : t :=
  mk id pspProvider windowStart windowEnd transactionsChecked mismatches
    (if (0 <? length mismatches)%nat then MISMATCHES_FOUND else CLEAN) now.

End ReconciliationRun.

(** ** The service *)

Definition chargedStatuses : list PaymentStatus := [SUCCEEDED; PARTIALLY_REFUNDED; REFUNDED; DISPUTED].

(** [findByProviderAndDateRange] on the stored payments. *)
Definition findByProviderAndDateRange (provider : PSPProvider) (fromDate toDate : Date) (rows : list Payment.t)
    : list Payment.t :=
  filter (λ p, Payment._pspProvider p = Some provider ∧ Payment._status p ∈ chargedStatuses
               ∧ fromDate ≤ Payment._createdAt p ≤ toDate) rows.

Module ReconciliationService.

Definition RECONCILED_PROVIDERS : list PSPProvider := [STRIPE; ADYEN].
Definition WINDOW_MS : Z := 60 * 60 * 1000.

Definition code (m : Money.t) : string := Currency.code (Money.currency m).

(** [pspTotalsByTxId] and [currencyInconsistentTxIds] *)
Record Totals := mkTotals { pspTotalsByTxId : gmap string Money.t; currencyInconsistentTxIds : gset string }.

Definition addTransaction (acc : Totals) (tx : PSPSettlementTransaction) : result Totals :=
  let id := st_pspTransactionId tx in
  if bool_decide (id ∈ currencyInconsistentTxIds acc) then Ok acc
  else
    match pspTotalsByTxId acc !! id with
    | None => Ok (mkTotals (<[id := st_amount tx]> (pspTotalsByTxId acc)) (currencyInconsistentTxIds acc))
    | Some running =>
        if negb (String.eqb (code running) (code (st_amount tx)))
        then Ok (mkTotals (delete id (pspTotalsByTxId acc)) ({[id]} ∪ currencyInconsistentTxIds acc))
        else
          total ← Money.add running (st_amount tx);
          Ok (mkTotals (<[id := total]> (pspTotalsByTxId acc)) (currencyInconsistentTxIds acc))
    end.

Fixpoint sumTransactions (acc : Totals) (l : list PSPSettlementTransaction) : result Totals :=
  match l with [] => Ok acc | tx :: l => acc ← addTransaction acc tx; sumTransactions acc l end.

(** One payment: the transactions matched so far and the mismatches found so far.
    Nothing in the body of the [try] can throw: currencies are compared before
    amounts. *)
Definition comparePayment (totals : Totals) (acc : gset string * list ReconciliationMismatch) (payment : Payment.t)
    : gset string * list ReconciliationMismatch :=
  let '(matched, mismatches) := acc in
  match Payment._pspTransactionId payment with
  | Some id =>
      if negb (truthy (Some id)) then acc
      else
        let mismatch type actual :=
          mismatches ++ [mkReconciliationMismatch type (Some (Payment._id payment)) (Some id)
                           (Some (Payment._amount payment)) actual] in
        if bool_decide (id ∈ currencyInconsistentTxIds totals) then ({[id]} ∪ matched, mismatch CURRENCY_MISMATCH None)
        else
          match pspTotalsByTxId totals !! id with
          | None => (matched, mismatch MISSING_AT_PSP None)
          | Some pspTotal =>
              let matched := {[id]} ∪ matched in
              if negb (String.eqb (code pspTotal) (code (Payment._amount payment)))
              then (matched, mismatch CURRENCY_MISMATCH (Some pspTotal))
              else if negb (Money.equals pspTotal (Payment._amount payment))
              then (matched, mismatch AMOUNT_MISMATCH (Some pspTotal))
              else (matched, mismatches)
          end
  | None => acc
  end.

(** Whatever the provider settled and no payment matched. *)
Definition unknownTransactions (matched : gset string) (l : list PSPSettlementTransaction)
    : list ReconciliationMismatch :=
  (λ tx, mkReconciliationMismatch UNKNOWN_AT_PSP None (Some (st_pspTransactionId tx)) None (Some (st_amount tx)))
    <$> filter (λ tx, st_pspTransactionId tx ∉ matched) l.

Definition findMismatches (ourPayments : list Payment.t) (pspTransactions : list PSPSettlementTransaction)
    : result (list ReconciliationMismatch) :=
  totals ← sumTransactions (mkTotals ∅ ∅) pspTransactions;
  let '(matched, mismatches) := fold_left (comparePayment totals) ourPayments (∅, []) in
  Ok (mismatches ++ unknownTransactions matched pspTransactions).

Section reconcile.
(** The provider's report, and whether the run could be saved. *)
Context (fetchSettlementTransactions : PSPProvider → Date → Date → result (list PSPSettlementTransaction)).
Context (save : ReconciliationRun.t → result unit).

Definition reconcile (now : Date) (runId : string) (rows : list Payment.t) (provider : PSPProvider) (since until : Date)
    : result ReconciliationRun.t :=
  adapter ← PaymentProcessorFactory.getAdapter provider;
  let ourPayments := findByProviderAndDateRange provider since until rows in
  pspTransactions ← fetchSettlementTransactions adapter since until;
  mismatches ← findMismatches ourPayments pspTransactions;
  let run := ReconciliationRun.create now runId provider since until
               (length ourPayments + length pspTransactions) mismatches in
  _ ← save run;
  Ok run.

(** The hourly run: a provider that fails does not stop the next. *)
Definition runScheduled (now : Date) (runId : PSPProvider → string) (rows : list Payment.t)
    : list (PSPProvider * result ReconciliationRun.t) :=
  (λ p, (p, reconcile now (runId p) rows p (now - WINDOW_MS) now)) <$> RECONCILED_PROVIDERS.

End reconcile.
End ReconciliationService.
