(* ===== verification/ReconciliationCorrect.v ===== *)
(** * Reconciliation: what a run reports

    The one-pass totals against the plain definition of what a provider settled for
    a transaction, every verdict, and when a run is clean; then the charges a clean
    system reports because the two sides are cut at different times. *)

From S2P Require Import Prelude JsNumber Money Policies PaymentStatus Payment PaymentCorrect Routing Checkout Reconciliation.
Import ReconciliationService.

(** ** What was settled for a transaction *)

Definition amounts (t : string) (l : list PSPSettlementTransaction) : list Money.t :=
  st_amount <$> filter (λ tx, st_pspTransactionId tx = t) l.

Inductive settlement := Absent | Mixed | Settled (total : Money.t).

(** The records of one transaction: none, in several currencies, or their sum. *)
Definition settle (l : list Money.t) : settlement :=
  match l with
  | [] => Absent
  | [m] => Settled m
  | m :: ms =>
      if forallb (λ x, String.eqb (code m) (code x)) ms
      then Settled (Money.mk (sumZ Money.amountMinorUnits l) (Money.currency m) None) else Mixed
  end.

Definition extend (s : settlement) (a : Money.t) : settlement :=
  match s with
  | Absent => Settled a
  | Mixed => Mixed
  | Settled m =>
      if String.eqb (code m) (code a)
      then Settled (Money.mk (Money.amountMinorUnits m + Money.amountMinorUnits a) (Money.currency m) None) else Mixed
  end.

Lemma settle_snoc l a : settle (l ++ [a]) = extend (settle l) a.
Proof.
  destruct l as [|m [|x ms]]; [done| |].
  - cbn. rewrite andb_true_r. destruct (_ =? _)%string; [|done]. do 2 f_equal. lia.
  - change ((m :: x :: ms) ++ [a]) with (m :: x :: (ms ++ [a])). unfold settle.
    change (x :: (ms ++ [a])) with ((x :: ms) ++ [a]). rewrite forallb_app.
    destruct (forallb _ (x :: ms)); cbn [andb]; [|done]. unfold extend. cbn [forallb]. rewrite andb_true_r.
    change (code (Money.mk _ (Money.currency m) None)) with (code m). destruct (_ =? _)%string; [|done].
    do 2 f_equal. change (m :: (x :: ms) ++ [a]) with ((m :: x :: ms) ++ [a]). rewrite sumZ_app. cbn [sumZ Money.amountMinorUnits]. lia.
Qed.

Lemma amounts_snoc t l tx :
  amounts t (l ++ [tx]) = if bool_decide (st_pspTransactionId tx = t) then amounts t l ++ [st_amount tx] else amounts t l.
Proof.
  unfold amounts. rewrite filter_app, fmap_app. case_bool_decide as Ht.
  - by rewrite filter_cons_True by done.
  - rewrite filter_cons_False by done. cbn. by rewrite app_nil_r.
Qed.

(** ** The one-pass totals *)

Definition holds (l : list PSPSettlementTransaction) (acc : Totals) : Prop :=
  ∀ t, match settle (amounts t l) with
       | Absent => t ∉ currencyInconsistentTxIds acc ∧ pspTotalsByTxId acc !! t = None
       | Mixed => t ∈ currencyInconsistentTxIds acc ∧ pspTotalsByTxId acc !! t = None
       | Settled m => t ∉ currencyInconsistentTxIds acc ∧ pspTotalsByTxId acc !! t = Some m ∧ Money.wf m
       end.

Lemma holds_start : holds [] (mkTotals ∅ ∅).
Proof. intros t. cbn. split; [set_solver|done]. Qed.

Lemma holds_add l acc tx : Money.wf (st_amount tx) → holds l acc →
  ∃ acc', addTransaction acc tx = Ok acc' ∧ holds (l ++ [tx]) acc'.
Proof.
  intros Hwf Hh. set (id := st_pspTransactionId tx). pose proof (Hh id) as Hid. unfold addTransaction. fold id.
  assert (∀ acc', (∀ t, t ≠ id → (t ∈ currencyInconsistentTxIds acc' ↔ t ∈ currencyInconsistentTxIds acc)
                                 ∧ pspTotalsByTxId acc' !! t = pspTotalsByTxId acc !! t) →
    match extend (settle (amounts id l)) (st_amount tx) with
    | Absent => False
    | Mixed => id ∈ currencyInconsistentTxIds acc' ∧ pspTotalsByTxId acc' !! id = None
    | Settled m => id ∉ currencyInconsistentTxIds acc' ∧ pspTotalsByTxId acc' !! id = Some m ∧ Money.wf m
    end → holds (l ++ [tx]) acc') as Hnext.
  { intros acc' Hother Hme t. rewrite amounts_snoc. fold id. case_bool_decide as Ht.
    - subst t. rewrite settle_snoc. by destruct (extend _ _).
    - specialize (Hh t). destruct (Hother t) as [Hb Hp]; [done|]. rewrite Hp. destruct (settle (amounts t l)); tauto. }
  destruct (settle (amounts id l)) as [| |m]; cbn [extend] in Hnext.
  - destruct Hid as [Hb Hp]. rewrite bool_decide_eq_false_2, Hp by done. eexists. split; [done|]. apply Hnext; cbn.
    + intros t Ht. by rewrite lookup_insert_ne by done.
    + by rewrite lookup_insert_eq.
  - destruct Hid as [Hb Hp]. rewrite bool_decide_eq_true_2 by done. exists acc. split; [done|]. by apply Hnext.
  - destruct Hid as (Hb & Hp & Hm). rewrite bool_decide_eq_false_2, Hp by done.
    destruct (String.eqb_spec (code m) (code (st_amount tx))) as [Hc|Hc]; cbn [negb].
    + rewrite add_total by done. cbn [mbind result_bind]. eexists. split; [done|]. apply Hnext; cbn.
      * intros t Ht. by rewrite lookup_insert_ne by done.
      * rewrite lookup_insert_eq. split; [done|]. split; [done|]. destruct Hm as [Hpos Hcw], Hwf as [Hpos2 _]. split; [cbn; lia|done].
    + eexists. split; [done|]. apply Hnext; cbn.
      * intros t Ht. rewrite lookup_delete_ne by done. split; [set_solver|done].
      * rewrite lookup_delete_eq. split; [set_solver|done].
Qed.

Lemma sum_holds l : Forall (λ tx, Money.wf (st_amount tx)) l → ∀ pre acc, holds pre acc →
  ∃ acc', sumTransactions acc l = Ok acc' ∧ holds (pre ++ l) acc'.
Proof.
  induction 1 as [|tx l Hwf Hl IH]; intros pre acc Hh; [exists acc; by rewrite app_nil_r|].
  destruct (holds_add pre acc tx Hwf Hh) as (acc1 & E1 & H1). cbn. rewrite E1. cbn.
  destruct (IH (pre ++ [tx]) acc1 H1) as (acc2 & E2 & H2). exists acc2. rewrite <- app_assoc in H2. done.
Qed.

(** ** Verdicts *)

Lemma filter_ext_in {A} (P R : A → Prop) `{!∀ x, Decision (P x), !∀ x, Decision (R x)} (l : list A) :
  (∀ x, x ∈ l → P x ↔ R x) → filter P l = filter R l.
Proof.
  induction l as [|x l IH]; intros Hiff; [done|]. rewrite !filter_cons, IH by (intros y Hy; apply Hiff; by right).
  pose proof (Hiff x ltac:(by left)). do 2 case_decide; tauto.
Qed.

(** The transaction a payment is matched by. *)
Definition txOf (p : Payment.t) : option string :=
  match Payment._pspTransactionId p with Some t => if truthy (Some t) then Some t else None | None => None end.

Definition verdict (l : list PSPSettlementTransaction) (p : Payment.t) : list ReconciliationMismatch :=
  match txOf p with
  | Some t =>
      let mismatch type actual :=
        [mkReconciliationMismatch type (Some (Payment._id p)) (Some t) (Some (Payment._amount p)) actual] in
      match settle (amounts t l) with
      | Absent => mismatch MISSING_AT_PSP None
      | Mixed => mismatch CURRENCY_MISMATCH None
      | Settled m =>
          if negb (String.eqb (code m) (code (Payment._amount p))) then mismatch CURRENCY_MISMATCH (Some m)
          else if Money.amountMinorUnits m =? Money.amountMinorUnits (Payment._amount p) then []
          else mismatch AMOUNT_MISMATCH (Some m)
      end
  | None => []
  end.

(** The settled transactions no payment of the window has. *)
Definition strangers (payments : list Payment.t) (l : list PSPSettlementTransaction) : list PSPSettlementTransaction :=
  filter (λ tx, st_pspTransactionId tx ∉ omap txOf payments) l.

Definition unknown (tx : PSPSettlementTransaction) : ReconciliationMismatch :=
  mkReconciliationMismatch UNKNOWN_AT_PSP None (Some (st_pspTransactionId tx)) None (Some (st_amount tx)).

Lemma amounts_absent t l : settle (amounts t l) = Absent ↔ Forall (λ tx, st_pspTransactionId tx ≠ t) l.
Proof.
  unfold amounts. split.
  - intros Hs. apply Forall_forall. intros tx Hin Ht.
    assert (tx ∈ filter (λ tx, st_pspTransactionId tx = t) l) as Hf by by apply list_elem_of_filter.
    destruct (filter _ l) as [|x [|y k]]; [by apply not_elem_of_nil in Hf|discriminate Hs|]. cbn in Hs. by destruct (_ && _).
  - intros Hl. induction Hl as [|tx l Ht Hl IH]; [done|]. by rewrite filter_cons_False.
Qed.

Lemma compare_all l totals payments : holds l totals → ∀ matched found,
  ∃ matched', fold_left (comparePayment totals) payments (matched, found) = (matched', found ++ flat_map (verdict l) payments)
    ∧ ∀ t, t ∈ matched' ↔ t ∈ matched ∨ t ∈ omap txOf payments ∧ settle (amounts t l) ≠ Absent.
Proof.
  intros Hh. induction payments as [|p ps IH]; intros matched found.
  { exists matched. cbn. rewrite app_nil_r. split; [done|]. intros t. rewrite elem_of_nil. tauto. }
  assert (∃ m', comparePayment totals (matched, found) p = (m', found ++ verdict l p)
    ∧ ∀ t, t ∈ m' ↔ t ∈ matched ∨ txOf p = Some t ∧ settle (amounts t l) ≠ Absent) as (m' & Ep & Hm').
  { unfold comparePayment, verdict, txOf.
    destruct (Payment._pspTransactionId p) as [t|]; [|exists matched; rewrite app_nil_r; naive_solver].
    destruct (truthy (Some t)); cbn [negb]; [|exists matched; rewrite app_nil_r; naive_solver].
    specialize (Hh t). destruct (settle (amounts t l)) as [| |m] eqn:Hs.
    - destruct Hh as [Hb ->]. rewrite bool_decide_eq_false_2 by done. exists matched. split; [done|].
      intros u. split; [tauto|]. intros [|[[= <-] Hn]]; [done|]. by rewrite Hs in Hn.
    - destruct Hh as [Hb _]. rewrite bool_decide_eq_true_2 by done. eexists. split; [done|].
      intros u. rewrite elem_of_union, elem_of_singleton. split; [intros [-> |]; [right; by rewrite Hs|tauto]|].
      intros [|[[= <-] _]]; tauto.
    - destruct Hh as (Hb & -> & _). rewrite bool_decide_eq_false_2 by done.
      assert (∀ u, u ∈ {[t]} ∪ matched ↔ u ∈ matched ∨ Some t = Some u ∧ settle (amounts u l) ≠ Absent) as Hu.
      { intros u. rewrite elem_of_union, elem_of_singleton. split; [intros [-> |]; [right; by rewrite Hs|tauto]|].
        intros [|[[= <-] _]]; tauto. }
      destruct (String.eqb_spec (code m) (code (Payment._amount p))) as [Hc|Hc]; cbn [negb]; [|by eexists].
      assert (Money.equals m (Payment._amount p) = (Money.amountMinorUnits m =? Money.amountMinorUnits (Payment._amount p))) as ->.
      { unfold Money.equals, Currency.equals. fold (code m). fold (code (Payment._amount p)). rewrite Hc. by rewrite String.eqb_refl. }
      destruct (_ =? _); cbn [negb]; eexists; [rewrite app_nil_r|]; done. }
  cbn [fold_left]. rewrite Ep. destruct (IH m' (found ++ verdict l p)) as (m'' & E & Hm''). exists m''. rewrite E. cbn [flat_map].
  rewrite <- app_assoc. split; [done|]. intros t. rewrite Hm'', Hm'. cbn. destruct (txOf p) as [u|].
  - rewrite elem_of_cons. naive_solver.
  - naive_solver.
Qed.

Lemma find_exact payments l : Forall (λ tx, Money.wf (st_amount tx)) l →
  findMismatches payments l = Ok (flat_map (verdict l) payments ++ (unknown <$> strangers payments l)).
Proof.
  intros Hwf. destruct (sum_holds l Hwf [] _ holds_start) as (totals & E & Hh). unfold findMismatches. rewrite E. cbn [mbind result_bind].
  destruct (compare_all l totals payments Hh ∅ []) as (matched & -> & Hm). cbn [app]. do 2 f_equal. unfold unknownTransactions, strangers.
  f_equal. apply filter_ext_in. intros tx Hin. rewrite Hm.
  assert (settle (amounts (st_pspTransactionId tx) l) ≠ Absent) as Hn.
  { rewrite amounts_absent. intros Hall. eapply Forall_forall in Hall; [|exact Hin]. done. }
  set_solver.
Qed.

(** What the provider settled for the payment is what the payment says. *)
Definition settled_exactly (l : list PSPSettlementTransaction) (p : Payment.t) (t : string) : Prop :=
  amounts t l ≠ [] ∧ Forall (λ a, code a = code (Payment._amount p)) (amounts t l) ∧
  sumZ Money.amountMinorUnits (amounts t l) = Money.amountMinorUnits (Payment._amount p).

Lemma report_spec l c n :
  (∃ m, settle l = Settled m ∧ code m = c ∧ Money.amountMinorUnits m = n) ↔
  l ≠ [] ∧ Forall (λ a, code a = c) l ∧ sumZ Money.amountMinorUnits l = n.
Proof.
  destruct l as [|m [|x ms]].
  - split; [by intros (m & Hm & _)|by intros [? _]].
  - cbn [settle sumZ]. rewrite Forall_singleton. split.
    + intros (m' & [= <-] & Hc & Hn). split_and!; [done|done|lia].
    + intros (_ & Hc & Hn). exists m. split_and!; [done|done|lia].
  - unfold settle. destruct (forallb _ (x :: ms)) eqn:Hf.
    + rewrite forallb_forall in Hf. assert (Forall (λ a, code a = code m) (x :: ms)) as Hall.
      { apply Forall_forall. intros a Ha%list_elem_of_In. specialize (Hf a Ha). by apply String.eqb_eq in Hf. }
      split.
      * intros (m' & [= <-] & Hc & Hn). split; [done|]. split; [|done]. cbn in Hc. change (code m = c) in Hc. subst c.
        constructor; [done|]. exact Hall.
      * intros (_ & [Hc _]%Forall_cons & Hn). eexists. split; [done|]. split; [exact Hc|exact Hn].
    + split; [by intros (m' & [=] & _)|]. intros (_ & [Hc Hall]%Forall_cons & _). exfalso.
      apply not_true_iff_false in Hf. apply Hf. apply forallb_forall. intros a Ha%list_elem_of_In. eapply Forall_forall in Hall; [|exact Ha].
      apply String.eqb_eq. congruence.
Qed.

Lemma verdict_clean l p : verdict l p = [] ↔ ∀ t, txOf p = Some t → settled_exactly l p t.
Proof.
  unfold verdict. destruct (txOf p) as [t|]; [|naive_solver].
  assert ((∀ u, Some t = Some u → settled_exactly l p u) ↔ settled_exactly l p t) as -> by naive_solver.
  unfold settled_exactly. rewrite <- report_spec. destruct (settle (amounts t l)) as [| |m].
  - split; [done|]. by intros (m & [=] & _).
  - split; [done|]. by intros (m & [=] & _).
  - destruct (String.eqb_spec (code m) (code (Payment._amount p))) as [Hc|Hc]; cbn [negb].
    + destruct (Z.eqb_spec (Money.amountMinorUnits m) (Money.amountMinorUnits (Payment._amount p))) as [Hn|Hn].
      * split; [|done]. intros _. by exists m.
      * split; [done|]. by intros (m' & [= <-] & _ & ?).
    + split; [done|]. by intros (m' & [= <-] & ? & _).
Qed.

Lemma flat_map_nil {A B} (f : A → list B) l : flat_map f l = [] ↔ ∀ x, x ∈ l → f x = [].
Proof.
  induction l as [|x l IH]; cbn; [split; [by intros _ ? ?%not_elem_of_nil|done]|].
  rewrite app_nil, IH. split.
  - intros [Hx Hl] y [-> |Hy]%elem_of_cons; auto.
  - intros Hall. split; [apply Hall; by left|]. intros y Hy. apply Hall. by right.
Qed.

(** C20: a reconciliation run reports exactly this: for every charged payment of the
    window with a transaction id, that the provider settled nothing for it, settled
    it in several currencies or in another one, or settled another amount in total;
    and every settled transaction no such payment has. It is CLEAN exactly when the
    records of every payment add up to its amount in its currency and every settled
    transaction belongs to a payment. *)
Theorem reconciliation_exact fetch save now runId rows provider since until l :
  provider ∈ RECONCILED_PROVIDERS → fetch provider since until = Ok l → (∀ run, save run = Ok tt) →
  Forall (λ tx, Money.wf (st_amount tx)) l →
  let payments := findByProviderAndDateRange provider since until rows in
  ∃ run, reconcile fetch save now runId rows provider since until = Ok run ∧
    ReconciliationRun.mismatches run = flat_map (verdict l) payments ++ (unknown <$> strangers payments l) ∧
    (ReconciliationRun.status run = CLEAN ↔
     (∀ p t, p ∈ payments → txOf p = Some t → settled_exactly l p t) ∧
     (∀ tx, tx ∈ l → ∃ p, p ∈ payments ∧ txOf p = Some (st_pspTransactionId tx))).
Proof.
  intros Hp Hf Hsave Hwf payments. unfold reconcile, PaymentProcessorFactory.getAdapter.
  rewrite bool_decide_eq_true_2 by done. cbn [mbind result_bind]. rewrite Hf. cbn [mbind result_bind]. fold payments.
  rewrite (find_exact payments l Hwf). cbn [mbind result_bind]. rewrite Hsave. cbn [mbind result_bind].
  eexists. split; [done|]. cbn [ReconciliationRun.create ReconciliationRun.mismatches ReconciliationRun.status]. split; [done|].
  set (found := _ ++ _). transitivity (found = []).
  { destruct found; cbn; [done|]. by split. }
  unfold found. rewrite app_nil, flat_map_nil. apply Morphisms_Prop.and_iff_morphism.
  - setoid_rewrite verdict_clean. naive_solver.
  - unfold strangers. split.
    + intros Hs%fmap_nil_inv tx Hin. destruct (decide (st_pspTransactionId tx ∈ omap txOf payments)) as [Hm|Hn].
      * apply list_elem_of_omap in Hm as (p & Hin' & Ht). by exists p.
      * exfalso. apply (filter_nil_not_elem_of _ _ tx Hs Hn). done.
    + intros Hall. assert (filter (λ tx, st_pspTransactionId tx ∉ omap txOf payments) l = []) as ->; [|done].
      clear -Hall. induction l as [|tx l IH]; [done|]. rewrite filter_cons_False; [apply IH; intros y Hy; apply Hall; by right|].
      intros Hn. apply Hn. apply list_elem_of_omap. apply Hall. by left.
Qed.

(** The two sides are cut at different times: payments by when they were
    created, settlements by when the provider settled. A charge created before the
    end of one window and settled after it is reported as MISSING_AT_PSP in the
    first run and as UNKNOWN_AT_PSP in the next, although both sides agree. *)
Theorem straddling_charge_reported_twice fetch save now now' runId runId' rows provider since mid until p t tx l1 l2 :
  provider ∈ RECONCILED_PROVIDERS → (∀ run, save run = Ok tt) →
  fetch provider since mid = Ok l1 → fetch provider mid until = Ok l2 →
  Forall (λ tx, Money.wf (st_amount tx)) l1 → Forall (λ tx, Money.wf (st_amount tx)) l2 →
  p ∈ rows → Payment._pspProvider p = Some provider → Payment._status p ∈ chargedStatuses → txOf p = Some t →
  since ≤ Payment._createdAt p < mid → (∀ q, q ∈ rows → txOf q = Some t → q = p) →
  st_pspTransactionId tx = t → st_amount tx = Payment._amount p →
  (∀ y, y ∈ l1 → st_pspTransactionId y ≠ t) → tx ∈ l2 →
  ∃ run1 run2, reconcile fetch save now runId rows provider since mid = Ok run1 ∧
    reconcile fetch save now' runId' rows provider mid until = Ok run2 ∧
    mkReconciliationMismatch MISSING_AT_PSP (Some (Payment._id p)) (Some t) (Some (Payment._amount p)) None
      ∈ ReconciliationRun.mismatches run1 ∧
    mkReconciliationMismatch UNKNOWN_AT_PSP None (Some t) None (Some (Payment._amount p)) ∈ ReconciliationRun.mismatches run2.
Proof.
  intros Hp Hsave Hf1 Hf2 Hw1 Hw2 Hin Hprov Hst Ht Hcr Huniq Htx Ham Hno Hyes.
  unfold reconcile, PaymentProcessorFactory.getAdapter. rewrite bool_decide_eq_true_2 by done. cbn [mbind result_bind].
  rewrite Hf1, Hf2. cbn [mbind result_bind]. rewrite !find_exact by done. cbn [mbind result_bind]. rewrite !Hsave. cbn [mbind result_bind].
  eexists _, _. split; [done|]. split; [done|]. cbn [ReconciliationRun.create ReconciliationRun.mismatches]. split.
  - apply elem_of_app. left. apply list_elem_of_In, in_flat_map. exists p. split.
    + apply list_elem_of_In, list_elem_of_filter. split; [|done]. split_and!; [done..|lia|lia].
    + unfold verdict. rewrite Ht. assert (settle (amounts t l1) = Absent) as -> by by apply amounts_absent, Forall_forall. by left.
  - apply elem_of_app. right. apply list_elem_of_fmap. exists tx. split; [unfold unknown; by rewrite Htx, Ham|].
    apply list_elem_of_filter. split; [|done]. rewrite Htx. intros (q & Hq & Htq)%list_elem_of_omap.
    apply list_elem_of_filter in Hq as [(_ & _ & Hq & _) Hr]. rewrite (Huniq q Hr Htq) in Hq. lia.
Qed.

(** ** A concrete window *)

Definition charged_payment : Payment.t :=
  (Payment.create 3500000 "pay_1" (usd 10000) "key" (mkPaymentMetadata "m_1" None None None None None) None None None)
    {{ Payment._pspProvider := Some STRIPE; Payment._pspTransactionId := Some "tx_1"%string; Payment._status := SUCCEEDED }}.

(** Our transaction and one nobody knows, settled at one time. *)
Definition sample_report (t : Date) : list PSPSettlementTransaction :=
  [mkPSPSettlementTransaction "tx_1" (usd 10000) t; mkPSPSettlementTransaction "tx_2" (usd 700) t].

Definition sample_fetch (t : Date) (_ : PSPProvider) (since until : Date) : result (list PSPSettlementTransaction) :=
  Ok (if (since <=? t) && (t <? until) then sample_report t else []).

Lemma sample_report_wf t : Forall (λ tx, Money.wf (st_amount tx)) (sample_report t).
Proof. repeat (apply Forall_cons; split; [by apply usd_wf|]). apply Forall_nil_2. Qed.

Lemma reconciliation_exact_witness : ∃ run,
  reconcile (sample_fetch 3590000) (λ _, Ok tt) 3600000 "run" [charged_payment] STRIPE 0 3600000 = Ok run
  ∧ ReconciliationRun.mismatches run = [unknown (mkPSPSettlementTransaction "tx_2" (usd 700) 3590000)]
  ∧ ReconciliationRun.status run ≠ CLEAN.
Proof.
  destruct (reconciliation_exact (sample_fetch 3590000) (λ _, Ok tt) 3600000 "run" [charged_payment] STRIPE 0 3600000
              (sample_report 3590000)) as (run & E & Hm & Hc).
  - by left.
  - reflexivity.
  - reflexivity.
  - apply sample_report_wf.
  - exists run. split; [exact E|]. split; [rewrite Hm; vm_compute; reflexivity|]. intros Hclean. apply Hc in Hclean as [_ Hall].
    destruct (Hall (mkPSPSettlementTransaction "tx_2" (usd 700) 3590000)) as (p & Hp & Ht); [by right; left|].
    assert (findByProviderAndDateRange STRIPE 0 3600000 [charged_payment] = [charged_payment]) as Hf by (vm_compute; reflexivity).
    rewrite Hf in Hp. apply list_elem_of_singleton in Hp as ->. discriminate Ht.
Defined.

Lemma straddling_charge_reported_twice_witness : ∃ run1 run2,
  reconcile (sample_fetch 3610000) (λ _, Ok tt) 3600000 "run_1" [charged_payment] STRIPE 0 3600000 = Ok run1
  ∧ reconcile (sample_fetch 3610000) (λ _, Ok tt) 7200000 "run_2" [charged_payment] STRIPE 3600000 7200000 = Ok run2
  ∧ ReconciliationRun.mismatches run1 ≠ [] ∧ ReconciliationRun.mismatches run2 ≠ [].
Proof.
  destruct (straddling_charge_reported_twice (sample_fetch 3610000) (λ _, Ok tt) 3600000 7200000 "run_1" "run_2" [charged_payment] STRIPE
              0 3600000 7200000 charged_payment "tx_1" (mkPSPSettlementTransaction "tx_1" (usd 10000) 3610000) [] (sample_report 3610000))
    as (run1 & run2 & E1 & E2 & H1 & H2).
  - by left.
  - reflexivity.
  - reflexivity.
  - reflexivity.
  - constructor.
  - apply sample_report_wf.
  - by left.
  - reflexivity.
  - by left.
  - reflexivity.
  - cbn. lia.
  - intros q Hq _. by apply list_elem_of_singleton in Hq.
  - reflexivity.
  - reflexivity.
  - intros y Hy. by apply not_elem_of_nil in Hy.
  - by left.
  - exists run1, run2. split_and!; [exact E1|exact E2|intros E; rewrite E in H1; by apply not_elem_of_nil in H1|
      intros E; rewrite E in H2; by apply not_elem_of_nil in H2].
Defined.
