(* ===== verification/Bnpl.v ===== *)
(** * Buy now, pay later

    [bnpl-order.aggregate.ts] and [bnpl.service.ts]: an order at Klarna is created
    and captured in one call, and refunded later. A service call is a program: its
    database and provider calls are events, so that it can stop between two of them
    or run beside others. *)

From S2P Require Import Prelude JsNumber Money Policies Ledger Redis.

(** ** The order *)

Module BnplOrder.

Inductive BnplOrderStatus :=
  | PENDING_AUTHORIZATION | AUTHORIZED | REJECTED | CAPTURED | REFUNDED | PARTIALLY_REFUNDED.

#[global] Instance BnplOrderStatus_eq_dec : EqDecision BnplOrderStatus.
Proof. solve_decision. Defined.

Record BnplRefundRecord := mkBnplRefundRecord {
  refundId : string;
  rf_amount : Money.t;
  rf_reason : string;
  rf_createdAt : Date;
  providerRefundId : option string }.

Record t := mk {
  id : string;
  merchantId : string;
  amount : Money.t;
  idempotencyKey : string;
  status : BnplOrderStatus;
  customerId : option string;
  description : option string;
  providerOrderId : option string;
  providerCaptureId : option string;
  failureReason : option string;
  refunds : list BnplRefundRecord;
  createdAt : Date;
  capturedAt : option Date }.

Definition create (now : Date) (id merchantId : string) (amount : Money.t) (idempotencyKey : string)
    (customerId description : option string) : t :=
  mk id merchantId amount idempotencyKey PENDING_AUTHORIZATION customerId description None None None [] now None.

Definition authorize (provider : string) (o : t) : result t :=
  if negb (bool_decide (status o = PENDING_AUTHORIZATION)) then Throw (DomainError "cannot authorize")
  else Ok (o {{ status := AUTHORIZED; providerOrderId := Some provider }}).

Definition reject (reason : string) (o : t) : result t :=
  if negb (bool_decide (status o = PENDING_AUTHORIZATION)) then Throw (DomainError "cannot reject")
  else Ok (o {{ status := REJECTED; failureReason := Some reason }}).

Definition capture (capture : string) (now : Date) (o : t) : result t :=
  if negb (bool_decide (status o = AUTHORIZED)) then Throw (DomainError "cannot capture")
  else Ok (o {{ status := CAPTURED; providerCaptureId := Some capture; capturedAt := Some now }}).

Definition refundable (o : t) : bool := bool_decide (status o = CAPTURED) || bool_decide (status o = PARTIALLY_REFUNDED).

Definition refund (rid : string) (m : Money.t) (reason provider : string) (now : Date) (o : t) : result t :=
  if negb (refundable o) then Throw (DomainError "cannot refund")
  else
    zero ← Money.zero (Currency.code (Money.currency (amount o)));
    alreadyRefunded ← Money.sum_from rf_amount zero (refunds o);
    total ← Money.add alreadyRefunded m;
    exceeds ← Money.isGreaterThan total (amount o);
    if (exceeds : bool) then Throw (DomainError "refund would exceed the original order amount")
    else
      let o := o {{ refunds := refunds o ++ [mkBnplRefundRecord rid m reason now (Some provider)] }} in
      totalRefunded ← Money.add alreadyRefunded m;
      Ok (o {{ status := if Money.equals totalRefunded (amount o) then REFUNDED else PARTIALLY_REFUNDED }}).

End BnplOrder.

(** ** The service *)

Inductive BnplOrderAnswer := ORDER_AUTHORIZED (providerOrderId : string) | ORDER_REJECTED (errorMessage : option string).

(** [success] with the provider's id, or an error message *)
Abbreviation ProviderAnswer := (string + option string)%type.

Inductive bnpl_event : Type → Type :=
  | CLOCK : bnpl_event Date
  | UUID : bnpl_event string
  | FIND_BY_KEY (key : string) : bnpl_event (option BnplOrder.t)
  | FIND_ORDER (id : string) : bnpl_event (option BnplOrder.t)
  | FIND_FEE (merchantId : string) : bnpl_event (option Z)
  | SAVE_ORDER (o : BnplOrder.t) : bnpl_event unit
  | SAVE_LEDGER (ev : LedgerOutboxEvent.t) : bnpl_event unit
  | KLARNA_CREATE (bnplOrderId : string) (amount : Money.t) : bnpl_event BnplOrderAnswer
  | KLARNA_CAPTURE (providerOrderId : string) (amount : Money.t) : bnpl_event ProviderAnswer
  | KLARNA_REFUND (providerOrderId : string) (amount : Money.t) : bnpl_event ProviderAnswer.

Abbreviation B := (prog bnpl_event).

Definition or_fail {A} (r : result A) : B A := match r with Ok a => Ret a | Throw e => Fail e end.

Module BnplService.

(** From the capture Klarna made to the entries in the ledger. *)
Definition book (order : BnplOrder.t) (captureId merchantId : string) (amount : Money.t) (platformFeeBps : Z) : B BnplOrder.t :=
  now ← call CLOCK;
  order ← or_fail (BnplOrder.capture captureId now order);
  platformFee ← or_fail (Money.multiply amount (Num.div (Num.of_bigint platformFeeBps) (Num.of_bigint 10000)));
  providerFee ← or_fail (Fees.calculateBnplProviderFee amount);
  evId ← call UUID;
  outboxEvent ← or_fail (LedgerOutboxEvent.createBnplCaptureEntries now evId (BnplOrder.id order) merchantId amount
                           platformFee providerFee);
  _ ← call (SAVE_ORDER order);
  _ ← call (SAVE_LEDGER outboxEvent);
  mret order.

Definition createOrder (merchantId : string) (amount : Money.t) (idempotencyKey : string)
    (customerId description : option string) : B BnplOrder.t :=
  existing ← call (FIND_BY_KEY idempotencyKey);
  match existing with
  | Some o => mret o
  | None =>
      merchant ← call (FIND_FEE merchantId);
      match merchant with
      | None => Fail (HttpException 404 "MERCHANT_NOT_FOUND")
      | Some platformFeeBps =>
          id ← call UUID;
          now ← call CLOCK;
          let order := BnplOrder.create now id merchantId amount idempotencyKey customerId description in
          answer ← call (KLARNA_CREATE id amount);
          match answer with
          | ORDER_REJECTED message =>
              order ← or_fail (BnplOrder.reject (nullish message "Klarna declined this order"%string) order);
              _ ← call (SAVE_ORDER order);
              Fail (HttpException 422 "BNPL_ORDER_REJECTED")
          | ORDER_AUTHORIZED provider =>
              order ← or_fail (BnplOrder.authorize provider order);
              _ ← call (SAVE_ORDER order);
              _ ← call UUID;
              captured ← call (KLARNA_CAPTURE provider amount);
              match captured with
              | inr _ => Fail (HttpException 422 "BNPL_CAPTURE_FAILED")
              | inl captureId => book order captureId merchantId amount platformFeeBps
              end
          end
      end
  end.

Definition refundOrder (id : string) (amount : Money.t) (reason : string) : B BnplOrder.t :=
  found ← call (FIND_ORDER id);
  match found with
  | None => Fail (HttpException 404 "BNPL_ORDER_NOT_FOUND")
  | Some order =>
      if negb (BnplOrder.refundable order) then Fail (HttpException 409 "BNPL_ORDER_NOT_REFUNDABLE")
      else
        _ ← call UUID;
        answer ← call (KLARNA_REFUND (nullish (BnplOrder.providerOrderId order) ""%string) amount);
        match answer with
        | inr _ => Fail (HttpException 422 "BNPL_REFUND_FAILED")
        | inl provider =>
            refundId ← call UUID;
            now ← call CLOCK;
            order ← or_fail (BnplOrder.refund refundId amount reason provider now order);
            evId ← call UUID;
            outboxEvent ← or_fail (LedgerOutboxEvent.createBnplRefundEntries now evId (BnplOrder.id order)
                                     (BnplOrder.merchantId order) amount);
            _ ← call (SAVE_ORDER order);
            _ ← call (SAVE_LEDGER outboxEvent);
            mret order
        end
  end.

End BnplService.

(** ** What the events do *)

(** [captures] and [returns]: what Klarna said it paid to the platform and gave back
    to customers; [unanswered]: the captures and refunds it gave no answer to;
    [missed]: the ledger events whose write failed; [drawn] identifiers, and [calls]
    to the database and to Klarna so far. *)
Record shop := mkShop {
  orders : gmap string BnplOrder.t;
  ledger : list LedgerOutboxEvent.t;
  missed : list LedgerOutboxEvent.t;
  captures : list Money.t;
  returns : list Money.t;
  unanswered : list Money.t;
  drawn : nat;
  calls : nat }.

(** What the [n]-th call meets: whether the database answers it, what the replica
    shows of the orders, the merchant's fee, and Klarna's answer, which is missing
    when the request is cut off after fifteen seconds. *)
Record weather := mkWeather {
  up : nat → bool;
  replica : nat → gmap string BnplOrder.t → gmap string BnplOrder.t;
  feeOf : nat → option Z;
  authorizes : nat → result BnplOrderAnswer;
  pays : nat → result ProviderAnswer }.

Definition findByIdempotencyKey (key : string) (os : gmap string BnplOrder.t) : option BnplOrder.t :=
  snd <$> head (filter (λ x, BnplOrder.idempotencyKey x.2 = key) (map_to_list os)).

(** The unique index on the key. *)
Definition taken (o : BnplOrder.t) (os : gmap string BnplOrder.t) : bool :=
  match findByIdempotencyKey (BnplOrder.idempotencyKey o) os with
  | Some o' => negb (String.eqb (BnplOrder.id o') (BnplOrder.id o))
  | None => false
  end.

Section bnpl_handler.
Context (w : weather) (uuid : nat → string).

Definition next (s : shop) : shop := s {{ calls := S (calls s) }}.

Definition answer {X} (n : nat) (x : X) : result X := if up w n then Ok x else Throw (ExternalFailure "database").

(** The finders read the replica; a write that fails has no effect. *)
Definition bnpl_handle X (c : bnpl_event X) (now : Date) (s : shop) : shop * result X :=
  match c in bnpl_event Y return shop * result Y with
  | CLOCK => (s, Ok now)
  | UUID => (s {{ drawn := S (drawn s) }}, Ok (uuid (drawn s)))
  | FIND_BY_KEY key => (next s, answer (calls s) (findByIdempotencyKey key (replica w (calls s) (orders s))))
  | FIND_ORDER id => (next s, answer (calls s) (replica w (calls s) (orders s) !! id))
  | FIND_FEE _ => (next s, answer (calls s) (feeOf w (calls s)))
  | SAVE_ORDER o =>
      if negb (up w (calls s)) then (next s, Throw (ExternalFailure "database"))
      else if taken o (orders s) then (next s, Throw (ExternalFailure "duplicate idempotency key"))
      else (next (s {{ orders := <[BnplOrder.id o := o]> (orders s) }}), Ok tt)
  | SAVE_LEDGER ev =>
      if up w (calls s) then (next (s {{ ledger := ledger s ++ [ev] }}), Ok tt)
      else (next (s {{ missed := missed s ++ [ev] }}), Throw (ExternalFailure "database"))
  | KLARNA_CREATE _ _ => (next s, authorizes w (calls s))
  | KLARNA_CAPTURE _ m =>
      (next match pays w (calls s) with
            | Ok (inl _) => s {{ captures := captures s ++ [m] }}
            | Ok (inr _) => s
            | Throw _ => s {{ unanswered := unanswered s ++ [m] }}
            end, pays w (calls s))
  | KLARNA_REFUND _ m =>
      (next match pays w (calls s) with
            | Ok (inl _) => s {{ returns := returns s ++ [m] }}
            | Ok (inr _) => s
            | Throw _ => s {{ unanswered := unanswered s ++ [m] }}
            end, pays w (calls s))
  end.
End bnpl_handler.
