(* ===== verification/BnplCorrect.v ===== *)
(** * Buy now, pay later: orders, refunds and the ledger

    Refunds stay within the order; over any history of requests that run one after
    the other the ledger carries for every order what was captured less what was
    refunded; and the places where Klarna and the books part ways. *)

From stdpp Require Import pretty.
From S2P Require Import Prelude JsNumber Money Policies Ledger LedgerCorrect Redis Bnpl.
Import BnplOrder.

(** ** Orders *)

Definition refunded (o : BnplOrder.t) : Z := sumZ (λ r, Money.amountMinorUnits (rf_amount r)) (refunds o).

(** Klarna has paid for the order. *)
Definition paid (o : BnplOrder.t) : bool := bool_decide (status o ∈ [CAPTURED; REFUNDED; PARTIALLY_REFUNDED]).

Record good (o : BnplOrder.t) : Prop := {
  gd_amount : Money.wf (amount o);
  gd_refunds : Forall (λ r, Money.wf (rf_amount r) ∧ Money.same (amount o) (rf_amount r)) (refunds o);
  gd_bound : refunded o ≤ Money.amountMinorUnits (amount o);
  gd_full : status o = REFUNDED → refunded o = Money.amountMinorUnits (amount o);
  gd_unpaid : paid o = false → refunds o = [] }.

Lemma good_create now oid mid m key cust desc : Money.wf m → good (BnplOrder.create now oid mid m key cust desc).
Proof. intros Hm. split; [done|constructor|cbn; apply Hm|done|done]. Qed.

Lemma good_authorize p o o' : good o → authorize p o = Ok o' → good o' ∧ id o' = id o ∧ paid o' = false ∧ status o' = AUTHORIZED
  ∧ idempotencyKey o' = idempotencyKey o ∧ amount o' = amount o ∧ merchantId o' = merchantId o.
Proof.
  intros [Ha Hr Hb Hf Hu]. unfold authorize. case_bool_decide as Hs; [|done]. intros [= <-]. destruct o; cbn in *. subst.
  split_and!; try done; split; cbn in *; auto; done.
Qed.

Lemma good_reject p o o' : good o → reject p o = Ok o' → good o' ∧ id o' = id o ∧ paid o' = false ∧ idempotencyKey o' = idempotencyKey o.
Proof.
  intros [Ha Hr Hb Hf Hu]. unfold reject. case_bool_decide as Hs; [|done]. intros [= <-]. destruct o; cbn in *. subst.
  split_and!; try done; split; cbn in *; auto; done.
Qed.

Lemma good_capture c now o o' : good o → status o = AUTHORIZED → capture c now o = Ok o' →
  good o' ∧ id o' = id o ∧ paid o' = true ∧ refunded o' = 0 ∧ idempotencyKey o' = idempotencyKey o ∧ amount o' = amount o.
Proof.
  intros [Ha Hr Hb Hf Hu] Hs. unfold capture. rewrite Hs. cbn. intros [= <-].
  destruct o; cbn in *. subst. rewrite (Hu eq_refl) in *. split_and!; try done; split; cbn in *; auto; done.
Qed.

(** A refund is recorded exactly when it fits into what is left. *)
Lemma good_refund rid m reason p now o : good o → refundable o = true → Money.wf m → Money.same (amount o) m →
  match refund rid m reason p now o with
  | Ok o' => refunded o + Money.amountMinorUnits m ≤ Money.amountMinorUnits (amount o) ∧ good o' ∧ paid o' = true
      ∧ refunded o' = refunded o + Money.amountMinorUnits m ∧ id o' = id o ∧ idempotencyKey o' = idempotencyKey o
      ∧ amount o' = amount o ∧ merchantId o' = merchantId o
  | Throw _ => Money.amountMinorUnits (amount o) < refunded o + Money.amountMinorUnits m
  end.
Proof.
  intros [Ha Hr Hb Hf Hu] Href Hm Hsame. unfold refund. rewrite Href. cbn [negb].
  destruct Ha as [Hpos Hcw]. rewrite zero_wf_code by done. cbn [mbind result_bind].
  destruct (sum_from_total rf_amount (Money.mk 0 (Money.currency (amount o)) None) (refunds o)) as (s & Es & Hs); [by split|done|].
  rewrite Es. cbn [mbind result_bind]. pose proof (sum_from_ok _ _ _ _ Es) as (Hc & Hv & _). cbn in Hc, Hv.
  fold (refunded o) in Hv.
  assert (Money.same s m) as Hsm by (unfold Money.same in *; by rewrite Hc). rewrite add_total by done. cbn [mbind result_bind].
  unfold Money.isGreaterThan. rewrite assertSameCurrency_same by (unfold Money.same; cbn; by rewrite Hc). cbn [mbind result_bind Money.amountMinorUnits].
  assert (Money.amountMinorUnits s = refunded o) as -> by (rewrite Hv; unfold refunded, compose; lia).
  destruct (Z.ltb_spec (Money.amountMinorUnits (amount o)) (refunded o + Money.amountMinorUnits m)) as [Hlt|Hle]; [done|].
  split; [done|].
  assert (∀ st, st = REFUNDED ∨ st = PARTIALLY_REFUNDED →
    (st = REFUNDED → refunded o + Money.amountMinorUnits m = Money.amountMinorUnits (amount o)) →
    let o' := (o {{ refunds := refunds o ++ [mkBnplRefundRecord rid m reason now (Some p)] }}) {{ status := st }} in
    good o' ∧ paid o' = true ∧ refunded o' = refunded o + Money.amountMinorUnits m ∧ id o' = id o ∧ idempotencyKey o' = idempotencyKey o
      ∧ amount o' = amount o ∧ merchantId o' = merchantId o) as Hfin.
  { intros st Hst Hfull o'. assert (refunded o' = refunded o + Money.amountMinorUnits m) as Hro.
    { unfold o', refunded. destruct o. cbn. rewrite sumZ_app. cbn [sumZ rf_amount]. lia. }
    assert (paid o' = true) as Hpd by (unfold o', paid; destruct o; cbn; by destruct Hst as [-> | ->]).
    assert (amount o' = amount o) as Ham by by destruct o.
    assert (status o' = st ∧ refunds o' = refunds o ++ [mkBnplRefundRecord rid m reason now (Some p)]) as [Est Erf] by by destruct o.
    split_and!; [|done|done|by destruct o..]. split; rewrite ?Hro, ?Ham, ?Est, ?Hpd; [done| |lia|done|done].
    rewrite Erf. apply Forall_app. split; [done|]. by apply Forall_singleton. }
  apply Hfin; [by destruct (Money.equals _ _); auto|]. destruct (Money.equals _ _) eqn:Heq; [|done]. intros _.
  apply equals_iff in Heq as [_ Heq]. cbn [Money.amountMinorUnits] in Heq. etrans; [exact Heq|]. by destruct o.
Qed.

Lemma bnpl_refund_same rid m reason p now o o' : refund rid m reason p now o = Ok o' → Money.wf (amount o) → Money.same (amount o) m.
Proof.
  unfold refund. destruct (refundable o); [|done]. cbn [negb]. intros H [_ Hc]. rewrite zero_wf_code in H by done.
  cbn [mbind result_bind] in H. apply bind_ok_iff in H as (s & (Hs & _)%sum_from_ok & H).
  apply bind_ok_iff in H as (t & (Hsame & _)%add_ok & _). unfold Money.same in *. by rewrite <- Hsame, Hs.
Qed.

(** ** The books *)

(** What a ledger event brings to the settlement account, in a currency. *)
Definition signed (code : string) (x : LedgerEntryType * string * Money.t) : Z :=
  if decide (LedgerOutboxEvent.code_of x.2 = code) then
    match x.1.1 with DEBIT => Money.amountMinorUnits x.2 | CREDIT => - Money.amountMinorUnits x.2 end
  else 0.

Definition settlement (code : string) (ev : LedgerOutboxEvent.t) : Z :=
  sumZ (signed code) (lines BNPL_SETTLEMENT (LedgerOutboxEvent.entries ev)).

(** The settlement booked for an order. *)
Definition booked (code oid : string) (l : list LedgerOutboxEvent.t) : Z :=
  sumZ (λ ev, if decide (LedgerOutboxEvent.paymentId ev = oid) then settlement code ev else 0) l.

(** What the order says Klarna owes for it. *)
Definition due (code : string) (x : option BnplOrder.t) : Z :=
  match x with
  | Some o => if paid o then if decide (LedgerOutboxEvent.code_of (amount o) = code) then Money.amountMinorUnits (amount o) - refunded o else 0 else 0
  | None => 0
  end.

Lemma booked_snoc code oid l ev : booked code oid (l ++ [ev])
  = booked code oid l + (if decide (LedgerOutboxEvent.paymentId ev = oid) then settlement code ev else 0).
Proof. unfold booked. rewrite sumZ_app. cbn [sumZ]. lia. Qed.

Lemma created now evid pid ty l ev : LedgerOutboxEvent.create now evid pid ty l = Ok ev →
  LedgerOutboxEvent.paymentId ev = pid ∧ LedgerOutboxEvent.entries ev = l.
Proof. intros (u & _ & H)%bind_ok_iff. by injection H as <-. Qed.

Lemma capture_settlement now evid oid mid m fee pfee ev :
  LedgerOutboxEvent.createBnplCaptureEntries now evid oid mid m fee pfee = Ok ev →
  LedgerOutboxEvent.paymentId ev = oid
  ∧ ∀ code, settlement code ev = if decide (LedgerOutboxEvent.code_of m = code) then Money.amountMinorUnits m else 0.
Proof.
  intros (n & _ & (n' & _ & H)%bind_ok_iff)%bind_ok_iff. apply created in H as [Hp He]. split; [done|].
  intros code. unfold settlement. rewrite He. lines_simpl; cbn [sumZ signed fst snd]; unfold signed; cbn; repeat case_decide; done || lia.
Qed.

Lemma refund_settlement now evid oid mid m ev :
  LedgerOutboxEvent.createBnplRefundEntries now evid oid mid m = Ok ev →
  LedgerOutboxEvent.paymentId ev = oid
  ∧ ∀ code, settlement code ev = if decide (LedgerOutboxEvent.code_of m = code) then - Money.amountMinorUnits m else 0.
Proof.
  intros H. apply created in H as [Hp He]. split; [done|].
  intros code. unfold settlement. rewrite He. lines_simpl; cbn [sumZ signed fst snd]; unfold signed; cbn; repeat case_decide; done || lia.
Qed.

(** ** The invariant *)

Lemma run_or_fail {A B} w uuid (r : result A) (f : A → prog bnpl_event B) now s :
  run (bnpl_handle w uuid) (or_fail r ≫= f) now s = match r with Ok a => run (bnpl_handle w uuid) (f a) now s | Throw e => (s, Throw e) end.
Proof. by destruct r. Qed.

Lemma run_bnpl_event {X B} w uuid (c : bnpl_event X) (f : X → prog bnpl_event B) now s :
  run (bnpl_handle w uuid) (call c ≫= f) now s
  = match bnpl_handle w uuid X c now s with (s, Ok x) => run (bnpl_handle w uuid) (f x) now s | (s, Throw e) => (s, Throw e) end.
Proof. rewrite run_bind_prog. cbn [run call]. by destruct (bnpl_handle w uuid X c now s) as [s' []]. Qed.

(** The next event of a program, on a state that is a record. *)
#[local] Ltac event :=
  rewrite run_bnpl_event;
  match goal with |- context [bnpl_handle ?w ?u ?X ?c ?now ?s] =>
    let r := eval cbn in (bnpl_handle w u X c now s) in change (bnpl_handle w u X c now s) with r end;
  unfold answer; cbn match.

Section books.
Context (w : weather) (uuid : nat → string) `{!Inj (=) (=) uuid}.

Abbreviation handler := (bnpl_handle w uuid).

(** [b] is what is booked in a currency for an order. *)
Record books (os : gmap string BnplOrder.t) (b : string → string → Z) (n : nat) : Prop := {
  bk_good : map_Forall (λ oid o, good o ∧ id o = oid) os;
  bk_drawn : map_Forall (λ oid o, ∃ k, (k < n)%nat ∧ oid = uuid k) os;
  bk_due code oid : b code oid = due code (os !! oid) }.

Lemma books_later os b n n' : (n ≤ n')%nat → books os b n → books os b n'.
Proof.
  intros Hn [Hg Hd Hb]. split; [done| |done]. intros oid o Ho. destruct (Hd oid o Ho) as (k & ? & ?). exists k. split; [lia|done].
Qed.

(** A drawn identifier names no order yet. *)
Lemma books_fresh os b n : books os b n → os !! uuid n = None.
Proof.
  intros [_ Hd _]. destruct (os !! uuid n) as [o|] eqn:Ho; [|done]. destruct (Hd _ _ Ho) as (k & Hk & Heq).
  apply (inj uuid) in Heq. lia.
Qed.

(** An order is saved under a drawn identifier, with the entries that account for it. *)
Lemma books_save os b n o k : books os b n → good o → id o = uuid k → (k < n)%nat →
  (∀ code, due code (os !! id o) = due code (Some o)) → books (<[id o := o]> os) b n.
Proof.
  intros [Hg Hd Hb] Ho Hid Hk Hdue. split.
  - by apply map_Forall_insert_2.
  - apply map_Forall_insert_2; [by exists k|done].
  - intros code oid. rewrite Hb. destruct (decide (oid = id o)) as [->|Hne]; [by rewrite lookup_insert_eq|by rewrite lookup_insert_ne].
Qed.

Lemma books_post os b b' n o k ev : books os b n → good o → id o = uuid k → (k < n)%nat →
  LedgerOutboxEvent.paymentId ev = id o →
  (∀ code oid, b' code oid = b code oid + (if decide (LedgerOutboxEvent.paymentId ev = oid) then settlement code ev else 0)) →
  (∀ code, due code (os !! id o) + settlement code ev = due code (Some o)) → books (<[id o := o]> os) b' n.
Proof.
  intros [Hg Hd Hb] Ho Hid Hk Hev Hb' Hdue. split.
  - by apply map_Forall_insert_2.
  - apply map_Forall_insert_2; [by exists k|done].
  - intros code oid. rewrite Hb', Hb, Hev. case_decide as Heq; [subst oid|].
    + by rewrite lookup_insert_eq.
    + rewrite lookup_insert_ne by done. lia.
Qed.

(** What was booked, and what would have been had the write not failed. *)
Definition accounted (s : shop) (code oid : string) : Z := booked code oid (ledger s) + booked code oid (missed s).

Definition books_of (s : shop) : Prop := books (orders s) (accounted s) (drawn s).

#[local] Arguments taken : simpl never.
#[local] Arguments findByIdempotencyKey : simpl never.
#[local] Arguments Money.multiply : simpl never.
#[local] Arguments Fees.calculateBnplProviderFee : simpl never.
#[local] Arguments LedgerOutboxEvent.createBnplCaptureEntries : simpl never.
#[local] Arguments LedgerOutboxEvent.createBnplRefundEntries : simpl never.
#[local] Arguments BnplOrder.refund : simpl never.
#[local] Arguments BnplOrder.capture : simpl never.
#[local] Arguments bps_factor : simpl never.

(** The events that leave the orders and the ledger alone. *)
Definition asks {X} (c : bnpl_event X) : bool :=
  match c with SAVE_ORDER _ | SAVE_LEDGER _ | UUID => false | _ => true end.

Lemma ask_books {X B} (c : bnpl_event X) (f : X → prog bnpl_event B) now s : asks c = true → books_of s →
  (∀ x s', handler X c now s = (s', Ok x) → books_of s' → orders s' = orders s → drawn s' = drawn s →
    books_of (run handler (f x) now s').1) →
  books_of (run handler (call c ≫= f) now s).1.
Proof.
  intros Hc Hb Hf. rewrite run_bnpl_event. destruct (handler X c now s) as [s' r] eqn:E.
  assert (orders s' = orders s ∧ ledger s' = ledger s ∧ missed s' = missed s ∧ drawn s' = drawn s) as (Ho & Hl & Hm & Hd).
  { destruct s, c; try discriminate Hc; cbn in E; injection E as <- _; try done; by destruct (pays w _) as [[]|]. }
  assert (books_of s') as Hb' by (unfold books_of, accounted in *; by rewrite Ho, Hl, Hm, Hd). destruct r; [|done]. by apply Hf.
Qed.

Lemma uuid_books {B} (f : string → prog bnpl_event B) now s : books_of s →
  (books_of (s {{ drawn := S (drawn s) }}) → books_of (run handler (f (uuid (drawn s))) now (s {{ drawn := S (drawn s) }})).1) →
  books_of (run handler (call UUID ≫= f) now s).1.
Proof. intros Hb Hf. rewrite run_bnpl_event. cbn. apply Hf. destruct s as [os l ms cs rs us n c]. by apply (books_later _ _ n); [cbn; lia|]. Qed.

(** Saving an order that changes nothing that is due. *)
Lemma order_books {B} (f : unit → prog bnpl_event B) o k now s : books_of s → good o → id o = uuid k → (k < drawn s)%nat →
  (∀ code, due code (orders s !! id o) = due code (Some o)) →
  (∀ s', books_of s' → orders s' = <[id o := o]> (orders s) → drawn s' = drawn s → books_of (run handler (f tt) now s').1) →
  books_of (run handler (call (SAVE_ORDER o) ≫= f) now s).1.
Proof.
  intros Hb Ho Hid Hk Hdue Hf. rewrite run_bnpl_event. destruct s as [os l ms cs rs us n c]. cbn.
  destruct (up w c); [|exact Hb]. cbn. destruct (taken o os); [exact Hb|].
  apply Hf; [|done|done]. unfold books_of in *. cbn in *. by apply (books_save _ _ _ o k).
Qed.

(** Saving an order and the entries that account for it. *)
Lemma entries_books o k ev now s (A : Type) (x : A) : books_of s → good o → id o = uuid k → (k < drawn s)%nat →
  LedgerOutboxEvent.paymentId ev = id o →
  (∀ code, due code (orders s !! id o) + settlement code ev = due code (Some o)) →
  books_of (run handler (_ ← call (SAVE_ORDER o); _ ← call (SAVE_LEDGER ev); mret x) now s).1.
Proof.
  intros Hb Ho Hid Hk Hev Hdue. rewrite run_bnpl_event. destruct s as [os l ms cs rs us n c]. cbn.
  destruct (up w c); [|exact Hb]. cbn. destruct (taken o os); [exact Hb|].
  unfold books_of in *. cbn. destruct (up w (S c)); cbn; apply (books_post _ _ _ _ o k ev Hb Ho Hid Hk Hev); try done;
    intros code oid; unfold accounted; cbn [ledger missed]; rewrite booked_snoc; lia.
Qed.

(** The capture of an authorized order. *)
Lemma book_books o captureId mid fee k now s : books_of s → orders s !! id o = Some o → good o → status o = AUTHORIZED → id o = uuid k → (k < drawn s)%nat →
  books_of (run handler (BnplService.book o captureId mid (amount o) fee) now s).1.
Proof.
  intros Hb Ho Hgood Hs Hid Hk. apply ask_books; [done..|]. intros t s1 [= <- <-] _ _ _.
  rewrite run_or_fail. destruct (capture captureId now o) as [o'|] eqn:Ecap; [|done].
  destruct (good_capture _ _ _ _ Hgood Hs Ecap) as (Hg' & Hid' & Hpaid & Hr & _ & Ham).
  rewrite run_or_fail. destruct (Money.multiply _ _) as [pf|]; [|done].
  rewrite run_or_fail. destruct (Fees.calculateBnplProviderFee _) as [kf|]; [|done].
  apply uuid_books; [done|]. intros Hb1. rewrite run_or_fail.
  destruct (LedgerOutboxEvent.createBnplCaptureEntries _ _ _ _ _ _ _) as [ev|] eqn:Eev; [|done].
  apply capture_settlement in Eev as [Hev Hset]. destruct s as [os l ms cs rs us n a].
  apply (entries_books o' k); [done|done|congruence|cbn in *; lia|done|].
  intros code. rewrite Hset, Hid'. change (due code (orders _ !! id o)) with (due code (os !! id o)). cbn [orders] in Ho. rewrite Ho. cbn [due]. rewrite Hpaid, Ham, Hr.
  assert (paid o = false) as -> by (unfold paid; by rewrite Hs). case_decide; lia.
Qed.

Lemma createOrder_books mid m key cust desc now s : Money.wf m → books_of s →
  books_of (run handler (BnplService.createOrder mid m key cust desc) now s).1.
Proof.
  intros Hm Hb. apply ask_books; [done..|]. intros [o|] s1 _ Hb1 _ _; [done|].
  apply ask_books; [done..|]. intros [bps|] s2 _ Hb2 _ _; [|done]. clear s Hb s1 Hb1.
  apply uuid_books; [done|]. intros Hb. apply ask_books; [done..|]. intros t s3 [= <- <-] _ _ _.
  pose proof (books_fresh _ _ _ Hb2) as Hfresh.
  pose proof (good_create now (uuid (drawn s2)) mid m key cust desc Hm) as Hgood. set (o := BnplOrder.create _ _ _ _ _ _ _) in *.
  apply ask_books; [done..|]. intros x s3 _ Hb3 Ho3 Hd3. assert (drawn s3 = S (drawn s2)) as Hd by (rewrite Hd3; by destruct s2).
  assert (orders s3 !! uuid (drawn s2) = None) as Hfree by (rewrite Ho3; by destruct s2). clear Ho3 Hd3.
  destruct x as [pid|msg]; rewrite run_or_fail.
  - destruct (authorize pid o) as [o1|] eqn:E1; [|done].
    destruct (good_authorize _ _ _ Hgood E1) as (Hg1 & Hid1 & Hp1 & Hs1 & _ & Ham1 & _). cbn in Hid1, Ham1.
    apply (order_books _ o1 (drawn s2)); [done|done|done|lia|intros code; rewrite Hid1, Hfree; cbn; by rewrite Hp1|].
    intros s4 Hb4 Ho4 Hd4. apply uuid_books; [done|]. intros Hb5. apply ask_books; [done..|]. intros y s6 _ Hb6 Ho6 Hd6.
    destruct y as [cid|]; [|done]. rewrite <- Ham1.
    apply (book_books _ _ _ _ (drawn s2)); [done|rewrite Ho6|done|done|done|rewrite Hd6; destruct s4; cbn in *; lia].
    destruct s4 as [os l ms cs rs us n a]. cbn in *. rewrite Ho4. apply lookup_insert_eq.
  - destruct (reject _ o) as [o1|] eqn:E1; [|done]. destruct (good_reject _ _ _ Hgood E1) as (Hg1 & Hid1 & Hp1 & _). cbn in Hid1.
    apply (order_books _ o1 (drawn s2)); [done|done|done|lia|intros code; rewrite Hid1, Hfree; cbn; by rewrite Hp1|]. by intros.
Qed.

(** A refund needs the order as it is. *)
Lemma refundOrder_books oid m reason now s : (∀ n os, replica w n os = os) → Money.wf m → books_of s →
  books_of (run handler (BnplService.refundOrder oid m reason) now s).1.
Proof.
  intros Hcur Hm Hb. apply ask_books; [done..|]. intros found s1 E Hb1 Ho1 _. cbn in E. rewrite Hcur in E.
  unfold answer in E. destruct (up w _) in E; [|done]. injection E as _ E.
  destruct found as [o|]; [|done]. rewrite <- Ho1 in E. destruct (refundable o) eqn:Href; [|done]. cbn [negb].
  apply uuid_books; [done|]. intros Hb2. apply ask_books; [done..|]. intros x s3 _ Hb3 Ho3 _.
  destruct x as [rpid|]; [|done]. assert (orders s3 !! oid = Some o) as Ho by (rewrite Ho3; by destruct s1). clear - Hb3 Ho Href Hm.
  apply uuid_books; [done|]. intros Hb4. apply ask_books; [done..|]. intros t s5 [= <- <-] _ _ _. rewrite run_or_fail.
  destruct (bk_good _ _ _ Hb3 _ _ Ho) as [Hgood Hid]. destruct (bk_drawn _ _ _ Hb3 _ _ Ho) as (k & Hk & Hok).
  destruct (refund _ m reason rpid now o) as [o1|] eqn:E1; [|done].
  pose proof (bnpl_refund_same _ _ _ _ _ _ _ E1 (gd_amount _ Hgood)) as Hsame.
  pose proof (good_refund (uuid (drawn s3)) m reason rpid now o Hgood Href Hm Hsame) as Hr. rewrite E1 in Hr.
  destruct Hr as (Hle & Hg1 & Hp1 & Hr1 & Hid1 & _ & Ham1 & _).
  apply uuid_books; [done|]. intros Hb5. rewrite run_or_fail.
  destruct (LedgerOutboxEvent.createBnplRefundEntries _ _ _ _ _) as [ev|] eqn:Eev; [|done].
  apply refund_settlement in Eev as [Hev Hset]. destruct s3 as [os l ms cs rs us n a].
  apply (entries_books o1 k); [done|done|congruence|cbn in *; lia|done|].
  intros code. rewrite Hset, Hid1, Hid. change (due code (orders _ !! oid)) with (due code (os !! oid)). cbn [orders] in Ho. rewrite Ho. cbn [due]. rewrite Hp1, Hr1, Ham1.
  assert (paid o = true) as -> by (unfold refundable in Href; unfold paid; destruct (status o); done || discriminate Href).
  unfold Money.same in Hsame. unfold LedgerOutboxEvent.code_of. rewrite <- Hsame. case_decide; lia.
Qed.

(** *** A new order *)

Lemma find_key key os o : findByIdempotencyKey key os = Some o → idempotencyKey o = key ∧ ∃ oid, os !! oid = Some o.
Proof.
  unfold findByIdempotencyKey. destruct (filter _ _) as [|[oid x] l] eqn:E; [done|]. intros [= <-].
  assert ((oid, x) ∈ filter (λ y : string * t, idempotencyKey y.2 = key) (map_to_list os)) as H by (rewrite E; left).
  apply list_elem_of_filter in H as [Hk H%elem_of_map_to_list]. split; [done|by exists oid].
Qed.

Lemma key_free key os oid o : findByIdempotencyKey key os = None → os !! oid = Some o → idempotencyKey o ≠ key.
Proof.
  unfold findByIdempotencyKey. destruct (filter _ _) as [|x l] eqn:E; [|done]. intros _ Ho Hk.
  assert ((oid, o) ∈ filter (λ y : string * t, idempotencyKey y.2 = key) (map_to_list os)) as H
    by (apply list_elem_of_filter; split; [done|by apply elem_of_map_to_list]).
  rewrite E in H. by apply not_elem_of_nil in H.
Qed.

(** The unique index admits an order under a free key, and its later versions. *)
Lemma taken_free os o : findByIdempotencyKey (idempotencyKey o) os = None → taken o os = false.
Proof. unfold taken. by intros ->. Qed.

Lemma taken_again os o o' : findByIdempotencyKey (idempotencyKey o) os = None →
  id o' = id o → idempotencyKey o' = idempotencyKey o → taken o' (<[id o := o]> os) = false.
Proof.
  intros Hfree Hid Hkey. unfold taken. rewrite Hkey. destruct (findByIdempotencyKey _ (<[_ := _]> _)) as [x|] eqn:E; [|done].
  apply find_key in E as (Hk & oid & Hx). apply lookup_insert_Some in Hx as [[_ <-]|[_ Hx]].
  - rewrite Hid, String.eqb_refl. done.
  - exfalso. by apply (key_free _ _ _ _ Hfree Hx).
Qed.

Definition fits (m : Money.t) (bps : Z) : Prop :=
  ∃ fee kfee, Money.multiply m (Num.div (Num.of_bigint bps) (Num.of_bigint 10000)) = Ok fee
    ∧ Fees.calculateBnplProviderFee m = Ok kfee
    ∧ Money.amountMinorUnits fee + Money.amountMinorUnits kfee ≤ Money.amountMinorUnits m.

Lemma multiply_same m x r : Money.wf m → Money.multiply m x = Ok r → Money.wf r ∧ Money.same m r.
Proof.
  intros Hm Hr. split; [by eapply multiply_wf|]. unfold Money.multiply in Hr. apply bind_ok_iff in Hr as (a & _ & Hr).
  unfold Money.make in Hr. destruct (a <? 0); [done|]. by injection Hr as <-.
Qed.

Lemma capture_entries_total now evid oid mid m fee kfee : Money.wf m → Money.wf fee → Money.same m fee → Money.same m kfee →
  0 ≤ Money.amountMinorUnits kfee →
  Money.amountMinorUnits fee + Money.amountMinorUnits kfee ≤ Money.amountMinorUnits m →
  ∃ ev, LedgerOutboxEvent.createBnplCaptureEntries now evid oid mid m fee kfee = Ok ev.
Proof.
  intros _ [? _] Hf Hk ? ?. unfold LedgerOutboxEvent.createBnplCaptureEntries, Money.same in *. rewrite subtract_total by (done || lia).
  cbn [mbind result_bind]. rewrite subtract_total by (done || cbn; lia). cbn [mbind result_bind Money.amountMinorUnits Money.currency].
  rewrite create_balanced by (apply balanced_net; intros code; net_solve). by eexists.
Qed.

(** An authorized order that Klarna captures, with fees that fit into it. *)
Lemma book_captures o c mid bps now s : (∀ n, up w n = true) → good o → status o = AUTHORIZED → fits (amount o) bps →
  (∀ o', id o' = id o → idempotencyKey o' = idempotencyKey o → taken o' (orders s) = false) →
  ∃ s' o' ev, run handler (BnplService.book o c mid (amount o) bps) now s = (s', Ok o')
    ∧ status o' = CAPTURED ∧ amount o' = amount o ∧ idempotencyKey o' = idempotencyKey o
    ∧ orders s' = <[id o := o']> (orders s) ∧ captures s' = captures s ∧ ledger s' = ledger s ++ [ev].
Proof.
  intros Hup Hg Hs (fee & kfee & Efee & Ekfee & Hfit) Hfree. unfold BnplService.book. rewrite run_bnpl_event. cbn [bnpl_handle].
  rewrite run_or_fail. destruct (capture c now o) as [o2|] eqn:E2; [|unfold capture in E2; rewrite Hs in E2; discriminate E2].
  destruct (good_capture _ _ _ _ Hg Hs E2) as (_ & Hid2 & _ & _ & Hkey2 & Ham2).
  rewrite run_or_fail, Efee, run_or_fail, Ekfee, run_bnpl_event. destruct s as [os l ms cs rs us n a]. cbn [bnpl_handle orders drawn] in *. rewrite run_or_fail.
  destruct (multiply_same _ _ _ (gd_amount _ Hg) Efee), (multiply_same _ _ _ (gd_amount _ Hg) Ekfee) as [[? ?] ?].
  destruct (capture_entries_total now (uuid n) (id o2) mid (amount o) fee kfee) as [ev ->]; [apply Hg|done..|].
  rewrite run_bnpl_event. cbn. rewrite Hup. cbn. rewrite Hfree by done. cbn. rewrite Hup. cbn.
  eexists _, o2, ev. split_and!; [done| |done|done|by rewrite Hid2|done|done].
  unfold capture in E2. rewrite Hs in E2. injection E2 as <-. by destruct o.
Qed.

(** [createOrder]'s calls, counted from the [n]-th: both finders, Klarna's answer to the
    order, the first save, and Klarna's answer to the capture. *)
Lemma createOrder_captures mid m key cust desc now s bps p c :
  (∀ n os, replica w n os = os) → (∀ n, up w n = true) →
  Money.wf m → findByIdempotencyKey key (orders s) = None → feeOf w (S (calls s)) = Some bps →
  authorizes w (2 + calls s) = Ok (ORDER_AUTHORIZED p) → pays w (4 + calls s) = Ok (inl c) → fits m bps →
  ∃ s' o ev, run handler (BnplService.createOrder mid m key cust desc) now s = (s', Ok o)
    ∧ status o = CAPTURED ∧ amount o = m ∧ idempotencyKey o = key ∧ orders s' = <[uuid (drawn s) := o]> (orders s)
    ∧ captures s' = captures s ++ [m] ∧ ledger s' = ledger s ++ [ev].
Proof.
  intros Hcur Hup Hm Hfree Hfee Hk Hp Hfit. unfold BnplService.createOrder. destruct s as [os l ms cs rs us n a]. cbn in Hfree, Hfee, Hk, Hp.
  event. rewrite Hup, Hcur, Hfree. event. rewrite Hup, Hfee. do 3 event. rewrite Hk, run_or_fail.
  pose proof (good_create now (uuid n) mid m key cust desc Hm) as Hgood.
  destruct (authorize p _) as [o1|] eqn:E1; [|discriminate E1].
  destruct (good_authorize _ _ _ Hgood E1) as (Hg1 & Hid1 & _ & Hs1 & Hkey1 & Ham1 & _). cbn in Hid1, Hkey1, Ham1.
  event. rewrite Hup. cbn [negb]. cbn match. rewrite taken_free by by rewrite Hkey1. do 2 event. rewrite Hp, <- Ham1.
  match goal with |- context [run handler (BnplService.book o1 c mid (amount o1) bps) now ?x] =>
    destruct (book_captures o1 c mid bps now x) as (s' & o' & ev & E & Hst & Hamt & Hkey & Ho & Hc & Hl) end;
    [done|done|done|by rewrite Ham1| |]; cbn [orders captures ledger] in *.
  - intros. apply taken_again; [by rewrite Hkey1|done|done].
  - exists s', o', ev. split_and!; [exact E|done|done|congruence| |done|done]. by rewrite Ho, Hid1, insert_insert_eq.
Qed.

(** *** Histories of requests *)

Inductive request :=
  | CREATE (merchantId : string) (amount : Money.t) (idempotencyKey : string) (customerId description : option string)
  | REFUND (id : string) (amount : Money.t) (reason : string).

Definition request_amount (r : request) : Money.t := match r with CREATE _ m _ _ _ | REFUND _ m _ => m end.

Definition serve (r : request) : B BnplOrder.t :=
  match r with
  | CREATE mid m key cust desc => BnplService.createOrder mid m key cust desc
  | REFUND oid m reason => BnplService.refundOrder oid m reason
  end.

Definition history (l : list (Date * request)) (s : shop) : shop := foldl (λ s x, (run handler (serve x.2) x.1 s).1) s l.

Lemma history_books l s : (∀ n os, replica w n os = os) → Forall (λ x, Money.wf (request_amount x.2)) l →
  books_of s → books_of (history l s).
Proof.
  intros Hcur. revert s. induction l as [|[t r] l IH]; intros s Hl Hs; [done|]. apply Forall_cons in Hl as [Hr Hl]. apply IH; [done|].
  destruct r; [by apply createOrder_books|by apply refundOrder_books].
Qed.

(** Only a write that fails is missed. *)
Lemma run_missed {A} (p : prog bnpl_event A) now s : (∀ n, up w n = true) → missed (run handler p now s).1 = missed s.
Proof.
  intros Hup. revert s. induction p as [a|e|X c k IH]; intros s; [done|done|]. cbn.
  assert (missed (handler X c now s).1 = missed s) as E.
  { destruct s, c; cbn; rewrite ?Hup; try done; [by destruct (taken _ _)|by destruct (pays w _) as [[]|]..]. }
  destruct (handler X c now s) as [s' [x|e]]; cbn in E; [by rewrite IH|done].
Qed.

Lemma history_missed l s : (∀ n, up w n = true) → missed (history l s) = missed s.
Proof. intros Hup. revert s. induction l as [|x l IH]; intros s; [done|]. cbn. etrans; [apply IH|by apply run_missed]. Qed.
End books.

(** ** The theorems *)

Definition empty_shop : shop := mkShop ∅ [] [] [] [] [] 0 0.

Lemma empty_books uuid : books_of uuid empty_shop.
Proof. split; [by apply map_Forall_empty..|done]. Qed.

(** C19: after any history of createOrder and refundOrder calls that run one after the
    other against a replica that shows the orders as they are, whatever Klarna
    answers to each request or fails to answer, and whichever database calls fail,
    every stored order is well formed and refunded for at most its amount, and the
    settlement account carries for it, in every currency, exactly what the order says
    was captured less what it says was refunded (nothing for an order that was
    rejected or never captured, or that does not exist), up to the ledger events
    whose own write failed; where the database answers every call there are none of
    those. In that case an order under a new key that Klarna authorizes and captures,
    and whose fees fit into it, is answered and stored as captured, with its ledger
    event. *)
Theorem bnpl_books_follow_orders w uuid (l : list (Date * request)) :
  Inj (=) (=) uuid → (∀ n os, replica w n os = os) → Forall (λ x, Money.wf (request_amount x.2)) l →
  let s := history w uuid l empty_shop in
  (∀ oid o, orders s !! oid = Some o → good o ∧ id o = oid)
  ∧ (∀ code oid, booked code oid (ledger s) + booked code oid (missed s) = due code (orders s !! oid))
  ∧ ((∀ n, up w n = true) →
     missed s = []
     ∧ ∀ mid m key cust desc now bps p c,
       Money.wf m → findByIdempotencyKey key (orders s) = None → feeOf w (S (calls s)) = Some bps →
       authorizes w (2 + calls s) = Ok (ORDER_AUTHORIZED p) → pays w (4 + calls s) = Ok (inl c) → fits m bps →
       ∃ s' o ev, run (bnpl_handle w uuid) (BnplService.createOrder mid m key cust desc) now s = (s', Ok o)
         ∧ status o = CAPTURED ∧ amount o = m ∧ idempotencyKey o = key
         ∧ orders s' = <[uuid (drawn s) := o]> (orders s) ∧ captures s' = captures s ++ [m] ∧ ledger s' = ledger s ++ [ev]).
Proof.
  intros Hinj Hcur Hl s. destruct (history_books w uuid l empty_shop Hcur Hl (empty_books uuid)) as [Hg _ Hb].
  split_and!; [exact Hg|exact Hb|]. intros Hup. split; [by apply history_missed|]. intros. by eapply createOrder_captures.
Qed.

(** *** Where Klarna and the books part ways *)

(** A refund that does not fit into what is left of the order is refused only after
    Klarna has paid it out: the caller gets an error, the order and the books do not
    change, and the customer has the money. *)
Theorem bnpl_over_refund_paid w uuid oid m reason now s o p :
  up w (calls s) = true → replica w (calls s) (orders s) !! oid = Some o →
  good o → refundable o = true → Money.wf m → Money.same (amount o) m →
  Money.amountMinorUnits (amount o) < refunded o + Money.amountMinorUnits m →
  pays w (S (calls s)) = Ok (inl p) →
  ∃ e, run (bnpl_handle w uuid) (BnplService.refundOrder oid m reason) now s
       = (s {{ returns := returns s ++ [m]; drawn := S (S (drawn s)); calls := S (S (calls s)) }}, Throw e).
Proof.
  intros Hup Ho Hg Href Hm Hsame Hlt Hp. unfold BnplService.refundOrder. destruct s as [os l ms cs rs us n a]. cbn in Hup, Ho, Hp.
  event. rewrite Hup, Ho, Href. cbn [negb]. do 2 event. rewrite Hp. do 2 event. rewrite run_or_fail.
  match goal with |- context [refund ?r m reason p now o] => pose proof (good_refund r m reason p now o Hg Href Hm Hsame) as Hr;
    destruct (refund r m reason p now o) as [o'|e] end; [lia|]. by exists e.
Qed.

(** A call with a key that is in use answers the order under that key, whatever its
    status and whoever its merchant, and does nothing else. *)
Lemma createOrder_retry w uuid mid m key cust desc now s o :
  up w (calls s) = true → findByIdempotencyKey key (replica w (calls s) (orders s)) = Some o →
  run (bnpl_handle w uuid) (BnplService.createOrder mid m key cust desc) now s = (next s, Ok o).
Proof.
  intros Hup Ho. unfold BnplService.createOrder. rewrite run_bnpl_event. cbn [bnpl_handle]. unfold answer. by rewrite Hup, Ho.
Qed.

(** The first [n] events of a program. *)
Fixpoint first_events {E S A} (handler : ∀ X, E X → Date → S → S * result X) (n : nat) (p : prog E A) (now : Date) (s : S) : S * prog E A :=
  match n, advance handler p now s with
  | Datatypes.S n, Some (s, p) => first_events handler n p now s
  | _, _ => (s, p)
  end.

Lemma first_interleave {E S A} (handler : ∀ X, E X → Date → S → S * result X) n (p : prog E A) now s :
  rtc (interleave handler) (mkConfig now s [p]) (mkConfig now (first_events handler n p now s).1 [(first_events handler n p now s).2]).
Proof.
  revert p s. induction n as [|n IH]; intros p s; cbn; [apply rtc_refl|].
  destruct (advance handler p now s) as [[s1 p1]|] eqn:E1; [|apply rtc_refl].
  eapply rtc_l; [by apply (il_step handler now s [p] 0 p s1 p1)|]. apply IH.
Qed.

(** Klarna pays and the database answers. *)
Definition fair_weather : weather :=
  mkWeather (λ _, true) (λ _ os, os) (λ _, Some 150) (λ _, Ok (ORDER_AUTHORIZED "k_1")) (λ _, Ok (inl "ok"%string)).
Definition sample_bnpl := bnpl_handle fair_weather (pretty : nat → string).
Definition sample_order : B BnplOrder.t := BnplService.createOrder "m_1" (usd 10000) "key_1" None None.

(** A replica of the service that stops between the two writes leaves a captured
    order, paid by Klarna, without its entries; a retry with the key answers that
    order and books nothing. *)
Theorem bnpl_lost_booking :
  ∃ s p, rtc (interleave sample_bnpl) (mkConfig 0 empty_shop [sample_order]) (mkConfig 0 s [p])
  ∧ captures s = [usd 10000] ∧ ledger s = []
  ∧ ∃ o, status o = CAPTURED ∧ orders s !! "0"%string = Some o ∧ ∀ now, run sample_bnpl sample_order now s = (next s, Ok o).
Proof.
  exists (first_events sample_bnpl 11 sample_order 0 empty_shop).1, (first_events sample_bnpl 11 sample_order 0 empty_shop).2.
  split; [apply first_interleave|]. set (s := (first_events sample_bnpl 11 sample_order 0 empty_shop).1).
  assert (captures s = [usd 10000] ∧ ledger s = [] ∧ status <$> orders s !! "0"%string = Some CAPTURED
    ∧ findByIdempotencyKey "key_1" (orders s) = orders s !! "0"%string) as (Hc & Hl & Hs & Hk) by (split_and!; vm_compute; reflexivity).
  clearbody s. split_and!; [done|done|]. destruct (orders s !! "0"%string) as [o|]; [|done]. injection Hs as Hs.
  exists o. split_and!; [done|done|]. intros now. by apply createOrder_retry.
Qed.

(** A merchant whose own rate is the highest one allowed. *)
Definition dear : weather :=
  mkWeather (λ _, true) (λ _ os, os) (λ _, Some 10000) (λ _, Ok (ORDER_AUTHORIZED "k_1")) (λ _, Ok (inl "ok"%string)).

(** An order whose fees exceed it is captured by Klarna and then refused: it stays
    authorized and nothing is booked. *)
Theorem bnpl_fees_exceed :
  let s := history dear pretty [(0, CREATE "m_1" (usd 10000) "key_1" None None)] empty_shop in
  captures s = [usd 10000] ∧ ledger s = [] ∧ missed s = [] ∧ status <$> orders s !! "0"%string = Some AUTHORIZED.
Proof. split_and!; vm_compute; reflexivity. Qed.

(** The replica still shows the order as it was captured. *)
Definition behind : weather :=
  mkWeather (λ _, true)
    (λ _ os, (λ o : BnplOrder.t, if bool_decide (status o = REFUNDED) then o {{ status := CAPTURED; refunds := [] }} else o) <$> os)
    (λ _, Some 150) (λ _, Ok (ORDER_AUTHORIZED "k_1")) (λ _, Ok (inl "ok"%string)).

(** A refund repeated before the replica has caught up is paid and booked again: the
    customer gets the order's amount twice, and the order shows one refund. *)
Theorem bnpl_lagging_refund_paid_twice :
  let s := history behind pretty [(0, CREATE "m_1" (usd 10000) "key_1" None None); (5, REFUND "0" (usd 10000) "returned"); (6, REFUND "0" (usd 10000) "returned")] empty_shop in
  captures s = [usd 10000] ∧ returns s = [usd 10000; usd 10000]
  ∧ refunded <$> orders s !! "0"%string = Some 10000 ∧ booked "USD" "0" (ledger s) = -10000.
Proof. split_and!; vm_compute; reflexivity. Qed.

(** ** Witnesses *)

Definition sample_history : list (Date * request) :=
  [(0, CREATE "m_1" (usd 10000) "key_1" None None); (5, REFUND "0" (usd 4000) "damaged"); (9, REFUND "0" (usd 7000) "returned");
   (12, REFUND "0" (usd 1000) "late")].

(** Klarna gives no answer to the last refund. *)
Definition sample_weather : weather :=
  mkWeather (λ _, true) (λ _ os, os) (λ _, Some 150) (λ _, Ok (ORDER_AUTHORIZED "k_1"))
    (λ n, if (Nat.eqb n 14) then Throw (ExternalFailure "timeout") else Ok (inl "ok"%string)).

Lemma bnpl_books_follow_orders_witness :
  let s := history sample_weather pretty sample_history empty_shop in
  booked "USD" "0" (ledger s) + booked "USD" "0" (missed s) = 6000
  ∧ due "USD" (orders s !! "0"%string) = 6000 ∧ unanswered s = [usd 1000] ∧ missed s = [].
Proof.
  destruct (bnpl_books_follow_orders sample_weather pretty sample_history) as (_ & Hb & Hm).
  - exact pretty_nat_inj.
  - done.
  - repeat (apply Forall_cons; split; [by apply usd_wf|]). apply Forall_nil_2.
  - split_and!; [rewrite Hb|..|apply Hm; done]; vm_compute; reflexivity.
Defined.
