(* ===== verification/Decimal.v ===== *)
(** * Decimal strings

    Amounts travel as decimal strings: [bigint.toString()] on the way out,
    [BigInt(...)] on the way in, in JSON columns and [bigint] columns alike. *)

From stdpp Require Import pretty.
From S2P Require Import Prelude JsNumber Money.

Fixpoint all_chars (P : ascii → bool) (s : string) : bool :=
  match s with EmptyString => true | String c s => P c && all_chars P s end.

Definition is_digit (c : ascii) : bool := let n := N_of_ascii c in (48 <=? n)%N && (n <=? 57)%N.

Lemma digit_char x : (x < 10)%N → is_digit (pretty_N_char x) = true ∧ Str.digit_value (pretty_N_char x) = Some (Z.of_N x).
Proof.
  intros Hx. assert (x = 0 ∨ x = 1 ∨ x = 2 ∨ x = 3 ∨ x = 4 ∨ x = 5 ∨ x = 6 ∨ x = 7 ∨ x = 8 ∨ x = 9)%N as H by lia.
  repeat (destruct H as [->|H]); subst; split; reflexivity.
Qed.

Lemma pretty_go_digits x s : all_chars is_digit s = true → all_chars is_digit (pretty_N_go x s) = true.
Proof.
  revert s. induction (N.lt_wf_0 x) as [x _ IH]; intros s Hs. destruct (decide (x = 0)%N) as [->|Hx]; [done|].
  rewrite pretty_N_go_step by lia. apply IH; [apply N.div_lt; lia|]. cbn [all_chars]. rewrite Hs.
  by rewrite (proj1 (digit_char (x `mod` 10) ltac:(apply N.mod_lt; lia))).
Qed.

Lemma pretty_go_value x s : Str.radix_value 10 0 (pretty_N_go x s) = Str.radix_value 10 (Z.of_N x) s.
Proof.
  revert s. induction (N.lt_wf_0 x) as [x _ IH]; intros s. destruct (decide (x = 0)%N) as [->|Hx]; [done|].
  rewrite pretty_N_go_step by lia. rewrite IH by (apply N.div_lt; lia). cbn [Str.radix_value].
  assert (x `mod` 10 < 10)%N as Hm by (apply N.mod_lt; lia). rewrite (proj2 (digit_char _ Hm)).
  destruct (Z.ltb_spec (Z.of_N (x `mod` 10)) 10); [|lia]. f_equal.
  pose proof (N.div_mod x 10 ltac:(lia)). lia.
Qed.

(** *** A string of digits is read as such *)

Lemma digit_not_space c : is_digit c = true → Str.is_space c = false.
Proof.
  unfold is_digit, Str.is_space. intros [H1 H2]%andb_true_iff. apply N.leb_le in H1, H2.
  destruct (N.eqb_spec (N_of_ascii c) 32), (N.leb_spec 9 (N_of_ascii c)), (N.leb_spec (N_of_ascii c) 13); (done || lia).
Qed.

Lemma trim_digits s : all_chars is_digit s = true → Str.trim s = s.
Proof.
  intros Hs. unfold Str.trim.
  assert (Str.trimStart s = s) as ->.
  { destruct s as [|c s]; [done|]. cbn in *. apply andb_true_iff in Hs as [Hc _]. by rewrite digit_not_space. }
  induction s as [|c s IH]; [done|]. cbn in *. apply andb_true_iff in Hs as [Hc Hs]. rewrite IH by done.
  destruct s; [|done]. by rewrite digit_not_space.
Qed.

Lemma BigInt_digits s n : s ≠ ""%string → all_chars is_digit s = true → Str.radix_value 10 0 s = Some n → Str.BigInt s = Ok n.
Proof.
  intros Hne Hd Hv. unfold Str.BigInt. rewrite trim_digits by done.
  destruct s as [|c s]; [done|]. unfold Str.radix_literal.
  destruct c as [[] [] [] [] [] [] [] []]; try discriminate Hd; try (by rewrite Hv).
  destruct s as [|d s]; [by rewrite Hv|].
  destruct d as [[] [] [] [] [] [] [] []]; try discriminate Hd; by rewrite Hv.
Qed.

(** [BigInt(n.toString())] is [n]. *)
Lemma BigInt_pretty n : 0 ≤ n → Str.BigInt (pretty n) = Ok n.
Proof.
  intros Hn. destruct (decide (n = 0)) as [->|Hne]; [done|].
  assert (pretty n = pretty_N_go (Z.to_N n) "") as ->.
  { unfold pretty at 1, pretty_Z. destruct n as [|p|p]; [done| |lia]. unfold pretty, pretty_positive, pretty, pretty_N.
    by rewrite decide_False by done. }
  apply BigInt_digits.
  - intros H. pose proof (pretty_go_value (Z.to_N n) "") as Hv. rewrite H in Hv. cbn in Hv. injection Hv as Hv. lia.
  - by apply pretty_go_digits.
  - rewrite pretty_go_value. cbn. f_equal. lia.
Qed.

(** With its sign. *)
Lemma BigInt_pretty_Z n : Str.BigInt (pretty n) = Ok n.
Proof.
  destruct (Z.leb_spec 0 n) as [|Hn]; [by apply BigInt_pretty|]. destruct n as [|p|p]; [lia..|].
  assert (pretty (Z.neg p) = String "-" (pretty_N_go (N.pos p) "")) as ->.
  { unfold pretty at 1, pretty_Z. unfold pretty, pretty_positive, pretty, pretty_N. by rewrite decide_False by done. }
  set (s := pretty_N_go (N.pos p) ""). assert (all_chars is_digit s = true) as Hd by by apply pretty_go_digits.
  pose proof (pretty_go_value (N.pos p) "") as Hv. fold s in Hv. clearbody s. cbn in Hv.
  assert (Str.trim (String "-" s) = String "-" s) as Ht.
  { unfold Str.trim. change (Str.trimStart (String "-" s)) with (String "-" s). pose proof (trim_digits s Hd) as Hs. unfold Str.trim in Hs.
    assert (Str.trimStart s = s) as Hss. { destruct s as [|c s']; [done|]. cbn in Hd |- *. apply andb_true_iff in Hd as [Hc _]. by rewrite digit_not_space. }
    rewrite Hss in Hs. cbn. rewrite Hs. by destruct s. }
  unfold Str.BigInt. rewrite Ht. unfold Str.radix_literal. destruct s as [|c s'] eqn:Es; [discriminate Hv|]. rewrite Hv. done.
Qed.
