(* ===== verification/Program.v ===== *)
(** * Programs that catch errors

    A call that can fail answers a [result], so that the program can catch the
    error; [ask] throws it on. The handlers of such events always answer
    ([Answers]), and then [catch] has the rules of a [try] statement, for a program
    that runs alone and in the logic of [Shared]. *)

From S2P Require Import Prelude Redis Shared.

Section programs.
Context {E : Type → Type}.

Definition of_result {A} (r : result A) : prog E A := match r with Ok a => Ret a | Throw e => Fail e end.

Definition ask {A} (c : E (result A)) : prog E A := r ← call c; of_result r.

(** [try { p } catch (err) { h(err) }] *)
Fixpoint catch {A} (p : prog E A) (h : js_error → prog E A) : prog E A :=
  match p with Ret a => Ret a | Fail e => h e | Do c k => Do c (λ x, catch (k x) h) end.

(** A program over other events. *)
Fixpoint translate {F : Type → Type} (f : ∀ X, E X → F X) {A} (p : prog E A) : prog F A :=
  match p with Ret a => Ret a | Fail e => Fail e | Do c k => Do (f _ c) (λ x, translate f (k x)) end.

(** [for (const x of l) await body(x)] *)
Fixpoint for_each {A} (body : A → prog E unit) (l : list A) : prog E unit :=
  match l with [] => mret tt | x :: l => _ ← body x; for_each body l end.

(** [const results = await Promise.allSettled(l.map(body))], the bodies one after the
    other, or a [for] loop whose body is a [try] statement: the results are counted, a
    body that threw as [None]. *)
Fixpoint allSettled {A R C} (body : A → prog E R) (count : C → option R → C) (l : list A) (c : C) : prog E C :=
  match l with
  | [] => mret c
  | x :: l =>
      r ← catch (r ← body x; mret (Some r)) (λ _, mret None);
      allSettled body count l (count c r)
  end.

(** [for (;;)] over the pages of a table by ascending id, for at most [fuel] pages: an
    empty page or a short one is the last. *)
Fixpoint forPages {A C} (id : A → string) (page : option string → prog E (list A)) (size : nat) (process : list A → C → prog E C)
    (fuel : nat) (afterId : option string) (c : C) : prog E (option C) :=
  match fuel with
  | O => mret None
  | S fuel =>
      batch ← page afterId;
      match last batch with
      | None => mret (Some c)
      | Some lastOne =>
          c ← process batch c;
          if (length batch <? size)%nat then mret (Some c) else forPages id page size process fuel (Some (id lastOne)) c
      end
  end.
End programs.

(** *** Calls that fail *)

(** A call works, fails without effect, or has its effect and fails (its answer is
    lost). *)
Inductive Fault := Works | Refused | Lost.

Definition broken {A} : result A := Throw (ExternalFailure "connection lost").

(** A call with the state after its effect and its answer. *)
Definition faulty {S A} (f : Fault) (before after : S) (answer : result A) : S * result (result A) :=
  match f with Works => (after, Ok answer) | Refused => (before, Ok broken) | Lost => (after, Ok broken) end.

(** Every event is answered. *)
Class Answers {E : Type → Type} {S : Type} (handler : ∀ X, E X → Date → S → S * result X) : Prop :=
  answers X (c : E X) now s : ∃ s' x, handler X c now s = (s', Ok x).

(** *** Programs that run one after the other *)

Section sequence.
Context {E : Type → Type} {S : Type} (handler : ∀ X, E X → Date → S → S * result X).

Fixpoint run_all {A} (ps : list (prog E A)) (now : Date) (s : S) : S * list (prog E A) :=
  match ps with
  | [] => (s, [])
  | p :: ps =>
      let '(s, r) := run handler p now s in
      let '(s, qs) := run_all ps now s in (s, of_result r :: qs)
  end.

(** It is one of the interleavings. *)
Lemma run_all_interleaves {A} (pre ps : list (prog E A)) now s :
  rtc (interleave handler) (mkConfig now s (pre ++ ps)) (mkConfig now (run_all ps now s).1 (pre ++ (run_all ps now s).2)).
Proof.
  revert pre s. induction ps as [|p ps IH]; intros pre s; [apply rtc_refl|]. cbn.
  pose proof (run_interleaves handler p now s (pre ++ p :: ps) (length pre)) as Hp. rewrite list_lookup_middle in Hp by done.
  specialize (Hp eq_refl). rewrite insert_app_r_alt in Hp by done. rewrite Nat.sub_diag in Hp. cbn in Hp.
  destruct (run handler p now s) as [s1 r]. cbn in Hp. fold (of_result (E := E) r) in Hp.
  etrans; [exact Hp|]. specialize (IH (pre ++ [of_result r]) s1). rewrite <- !app_assoc in IH. cbn in IH.
  destruct (run_all ps now s1) as [s2 qs]. exact IH.
Qed.
End sequence.

(** *** Schedules *)

Section schedules.
Context {E : Type → Type} {S : Type} (handler : ∀ X, E X → Date → S → S * result X).

(** The programs take their next steps in the order given; one that has ended stays. *)
Fixpoint schedule {A} (turns : list nat) (c : config A) : config A :=
  match turns with
  | [] => c
  | i :: turns =>
      schedule turns match pool c !! i with
                     | Some p =>
                         match advance handler p (clock c) (memory c) with
                         | Some (s, p) => mkConfig (clock c) s (<[i := p]> (pool c))
                         | None => c
                         end
                     | None => c
                     end
  end.

Lemma schedule_reaches {A} turns (c : config A) : rtc (interleave handler) c (schedule turns c).
Proof.
  revert c. induction turns as [|i turns IH]; intros c; [apply rtc_refl|]. cbn. destruct c as [now s ps]. cbn.
  destruct (ps !! i) as [p|] eqn:Hp; [|apply IH]. destruct (advance handler p now s) as [[s' p']|] eqn:Ha; [|apply IH].
  eapply rtc_l; [by eapply il_step|apply IH].
Qed.

(** A prefix of a program whose result is passed on twice. *)
Lemma prefix_interleaves_assoc {A B C} (q : prog E A) (f : A → prog E B) (g : B → prog E C) now s s' a ps i :
  ps !! i = Some ((q ≫= f) ≫= g) → run handler q now s = (s', Ok a) →
  rtc (interleave handler) (mkConfig now s ps) (mkConfig now s' (<[i := f a ≫= g]> ps)).
Proof.
  revert s ps. induction q as [x|e|X c k IH]; intros s ps Hi Hrun; cbn in Hrun.
  - injection Hrun as -> ->. rewrite list_insert_id by done. apply rtc_refl.
  - discriminate Hrun.
  - destruct (handler X c now s) as [s1 r] eqn:Eh. destruct r as [x|e]; [|discriminate Hrun].
    assert (i < length ps)%nat as Hlt by by eapply lookup_lt_Some.
    eapply rtc_l; [eapply il_step; [exact Hi|cbn; rewrite Eh; reflexivity]|]. cbn [resume].
    pose proof (IH x s1 (<[i := (k x ≫= f) ≫= g]> ps)) as H. rewrite list_insert_insert_eq in H. apply H; [|done].
    by apply list_lookup_insert_eq.
Qed.
End schedules.

(** Where the translated events act on a part of the state, so does the program. *)
Lemma run_translate {E F : Type → Type} {S T : Type} (handler : ∀ X, E X → Date → S → S * result X) (outer : ∀ X, F X → Date → T → T * result X)
    (f : ∀ X, E X → F X) (get : T → S) (put : S → T → T) {A} (p : prog E A) now t :
  (∀ X (c : E X) now t, outer X (f X c) now t = let '(s, r) := handler X c now (get t) in (put s t, r)) →
  (∀ s t, get (put s t) = s) → (∀ s s' t, put s (put s' t) = put s t) → (∀ t, put (get t) t = t) →
  run outer (translate f p) now t = (put (run handler p now (get t)).1 t, (run handler p now (get t)).2).
Proof.
  intros Hf Hget Hput Hid. revert t. induction p as [a|e|X c k IH]; intros t; cbn; [by rewrite Hid..|].
  rewrite Hf. destruct (handler X c now (get t)) as [s r] eqn:Eh. destruct r as [x|e]; [|done].
  rewrite IH, Hget, Hput. done.
Qed.

Section rules.
Context {E : Type → Type} {S : Type} (handler : ∀ X, E X → Date → S → S * result X).

Lemma run_call {X} (c : E X) now s : run handler (call c) now s = handler X c now s.
Proof. cbn. by destruct (handler X c now s) as [s' [x|e]]. Qed.

Lemma run_of_result {A} (r : result A) now s : run handler (of_result r) now s = (s, r).
Proof. by destruct r. Qed.

Lemma run_bind_of_result {A B} (r : result A) (f : A → prog E B) now s :
  run handler (of_result r ≫= f) now s = match r with Ok a => run handler (f a) now s | Throw e => (s, Throw e) end.
Proof. by destruct r. Qed.

(** One event, then the rest. *)
Lemma run_event {X A} (c : E X) (f : X → prog E A) now s s' x :
  handler X c now s = (s', Ok x) → run handler (call c ≫= f) now s = run handler (f x) now s'.
Proof. intros H. cbn. by rewrite H. Qed.

Lemma run_ask {X A} (c : E (result X)) (f : X → prog E A) now s s' r :
  handler _ c now s = (s', Ok r) →
  run handler (ask c ≫= f) now s = match r with Ok x => run handler (f x) now s' | Throw e => (s', Throw e) end.
Proof. intros H. cbn. rewrite H. by destruct r. Qed.

Lemma run_catch `{!Answers handler} {A} (p : prog E A) h now s :
  run handler (catch p h) now s
  = match run handler p now s with (s', Ok a) => (s', Ok a) | (s', Throw e) => run handler (h e) now s' end.
Proof.
  revert s. induction p as [a|e|X c k IH]; intros s; cbn; [done..|].
  destruct (answers X c now s) as (s' & x & ->). apply IH.
Qed.

Context {L : Type} (inv : S → list L → Prop) (grows : S → S → Prop) (admissible : Date → Prop).

Lemma wp_catch_answers `{!Answers handler} {A} (p : prog E A) h Φ Ψ s l :
  wp handler inv grows admissible p Φ (λ s l e, wp handler inv grows admissible (h e) Φ Ψ s l) s l →
  wp handler inv grows admissible (catch p h) Φ Ψ s l.
Proof.
  revert s l. induction p as [a|e|X c k IH]; intros s l Hp; cbn in *; [done..|].
  intros now s1 pre post Ha Hg Hi. destruct (Hp now s1 pre post Ha Hg Hi) as (s2 & r & l' & Hh & Hg2 & Hi2 & Hr).
  exists s2, r, l'. split_and!; [done..|]. destruct (answers X c now s1) as (s' & x & Hx).
  rewrite Hx in Hh. injection Hh as <- <-. by apply IH.
Qed.

Lemma wp_of_result_rule {A} (r : result A) (Φ : S → L → A → Prop) Ψ s l :
  (∀ a, r = Ok a → Φ s l a) → (∀ e, r = Throw e → Ψ s l e) → wp handler inv grows admissible (of_result r) Φ Ψ s l.
Proof. destruct r; cbn; auto. Qed.

(** A program only moves the state forward. *)
Lemma wp_grows `{!PreOrder grows} {A} (p : prog E A) (Φ : S → L → A → Prop) Ψ s l :
  wp handler inv grows admissible p Φ Ψ s l →
  wp handler inv grows admissible p (λ s' l' a, grows s s' ∧ Φ s' l' a) (λ s' l' e, grows s s' ∧ Ψ s' l' e) s l.
Proof.
  revert s l. induction p as [a|e|X c k IH]; intros s l Hp; cbn in *; [by split..|].
  intros now s1 pre post Ha Hg Hi. destruct (Hp now s1 pre post Ha Hg Hi) as (s2 & r & l' & Hh & Hg2 & Hi2 & Hr).
  exists s2, r, l'. split_and!; [done..|]. assert (grows s s2) as Hs2 by by etrans. destruct r as [x|e]; [|by split].
  eapply wp_mono; [..|apply (IH x s2 l' Hr)]; cbn; intros s3 l3 y [Hg3 H3]; (split; [by etrans|done]).
Qed.

(** Where the invariant fixes the ghost values, a program keeps its own. *)
Lemma wp_constant (fixed : list L) {A} (p : prog E A) (Φ : S → L → A → Prop) Ψ s l :
  (∀ s ls, inv s ls → ls = fixed) →
  wp handler inv grows admissible p Φ Ψ s l →
  wp handler inv grows admissible p (λ s' l' a, l' = l ∧ Φ s' l' a) (λ s' l' e, l' = l ∧ Ψ s' l' e) s l.
Proof.
  intros Hfix. revert s. induction p as [a|e|X c k IH]; intros s Hp; cbn in *; [by split..|].
  intros now s1 pre post Ha Hg Hi. destruct (Hp now s1 pre post Ha Hg Hi) as (s2 & r & l' & Hh & Hg2 & Hi2 & Hr).
  assert (l' = l) as ->.
  { pose proof (Hfix _ _ Hi) as H1. pose proof (Hfix _ _ Hi2) as H2. rewrite <- H1 in H2. apply app_inv_head in H2. by injection H2. }
  exists s2, r, l. split_and!; [done..|]. destruct r as [x|e]; [by apply IH|by split].
Qed.

(** A loop keeps what each round keeps. *)
Lemma wp_for_each {A} (body : A → prog E unit) (I : S → L → Prop) Ψ l s g :
  I s g →
  (∀ x s g, x ∈ l → I s g → wp handler inv grows admissible (body x) (λ s g _, I s g) Ψ s g) →
  wp handler inv grows admissible (for_each body l) (λ s g _, I s g) Ψ s g.
Proof.
  revert s g. induction l as [|x l IH]; intros s g Hi Hb; cbn; [done|]. apply wp_bind.
  eapply wp_mono; [..|apply Hb; [left|done]]; [|done]. intros s' g' u Hi'. apply IH; [done|]. intros y s2 g2 Hy. apply Hb. by right.
Qed.

(** ** Loops over pages *)

Lemma run_settled {A R C} `{!Answers handler} (body : A → prog E R) (count : C → option R → C) x l c now s s' r :
  run handler (body x) now s = (s', Ok r) →
  run handler (allSettled body count (x :: l) c) now s = run handler (allSettled body count l (count c (Some r))) now s'.
Proof. intros H. cbn [allSettled]. by rewrite run_bind_prog, (run_catch _), run_bind_prog, H. Qed.

(** A batch whose bodies all return, with what holds after each of them. *)
Lemma run_allSettled {A R C} `{!Answers handler} (body : A → prog E R) (count : C → option R → C) (answer : A → R)
    (J : list A → S → Prop) now l processed c s :
  (∀ processed x rest s, l = processed ++ x :: rest → J processed s →
     ∃ s', run handler (body x) now s = (s', Ok (answer x)) ∧ J (processed ++ [x]) s') →
  (∃ rest, l = processed ++ rest) → J processed s →
  ∃ s', run handler (allSettled body count (drop (length processed) l) c) now s
        = (s', Ok (foldl (λ c x, count c (Some (answer x))) c (drop (length processed) l))) ∧ J l s'.
Proof.
  intros Hbody (rest & Hl). assert (drop (length processed) l = rest) as -> by by rewrite Hl, drop_app_length.
  revert processed c s Hl. induction rest as [|x rest IH]; intros processed c s Hl HJ.
  - exists s. rewrite app_nil_r in Hl. by subst.
  - destruct (Hbody processed x rest s Hl HJ) as (s1 & Hrun & H1). rewrite (run_settled _ _ _ _ _ _ _ _ _ Hrun). apply (IH (processed ++ [x])); [|done].
    by rewrite <- app_assoc.
Qed.

(** A loop over the pages of a list: with more fuel than full pages it ends, and has
    processed the list from where it started. *)
Lemma run_forPages {A C} (id : A → string) (page : option string → prog E (list A)) (size : nat) (process : list A → C → prog E C)
    (total : list A → C → C) (J : nat → S → Prop) (rows : list A) now fuel k c s :
  (0 < size)%nat →
  (∀ k s, J k s → ∃ s', run handler (page (id <$> last (take k rows))) now s = (s', Ok (take size (drop k rows))) ∧ J k s') →
  (∀ k c s, J k s → let batch := take size (drop k rows) in
     ∃ s', run handler (process batch c) now s = (s', Ok (total batch c)) ∧ J (k + length batch)%nat s') →
  (∀ l1 l2 c, total (l1 ++ l2) c = total l2 (total l1 c)) → (∀ c, total [] c = c) →
  (k ≤ length rows)%nat → (length (drop k rows) < size * fuel)%nat → J k s →
  ∃ s', run handler (forPages id page size process fuel (id <$> last (take k rows)) c) now s = (s', Ok (Some (total (drop k rows) c))) ∧ J (length rows) s'.
Proof.
  intros Hsize Hpage Hproc Happ Hnil. revert k c s. induction fuel as [|fuel IH]; intros k c s Hk Hf HJ; [lia|]. cbn [forPages].
  destruct (Hpage k s HJ) as (s1 & Hrun1 & HJ1). rewrite run_bind_prog, Hrun1. specialize (Hproc k c s1 HJ1). cbv zeta in Hproc.
  set (batch := take size (drop k rows)) in *. assert (length batch = Nat.min size (length rows - k)) as Hlen by by unfold batch; rewrite length_take, length_drop.
  rewrite length_drop in Hf. destruct (last batch) as [lastOne|] eqn:El.
  - destruct Hproc as (s2 & Hrun2 & HJ2). rewrite run_bind_prog, Hrun2. destruct (Nat.ltb_spec (length batch) size) as [Hlt|Hge].
    + assert (batch = drop k rows) as Hb by by apply take_ge; rewrite length_drop; lia. exists s2. rewrite <- Hb.
      replace (length rows) with (k + length batch)%nat by lia. done.
    + assert (take (k + size) rows = take k rows ++ batch) as Htake by by unfold batch; rewrite take_take_drop.
      destruct (IH (k + size)%nat (total batch c) s2) as (s3 & Hrun3 & HJ3); [lia|rewrite length_drop; lia|by replace (k + size)%nat with (k + length batch)%nat by lia|].
      rewrite Htake, last_app, El in Hrun3. exists s3. split; [|done]. cbn [fmap option_fmap option_map] in Hrun3. rewrite Hrun3. do 3 f_equal.
      rewrite <- (take_drop size (drop k rows)). fold batch. by rewrite Happ, drop_drop.
  - apply last_None in El. assert (drop k rows = []) as Hd by (apply nil_length_inv; rewrite length_drop; rewrite El in Hlen; cbn in Hlen; lia).
    exists s1. rewrite Hd, Hnil. split; [done|]. replace (length rows) with k; [done|]. apply (f_equal length) in Hd. rewrite length_drop in Hd. cbn in Hd. lia.
Qed.

Lemma wp_allSettled `{!Answers handler, !PreOrder grows} {A R C} (body : A → prog E R) (count : C → option R → C) (Φ : S → L → C → Prop) Ψ l c s g :
  (∀ s g c, Φ s g c) → (∀ x s g, wp handler inv grows admissible (body x) (λ _ _ _, True) (λ _ _ _, True) s g) →
  wp handler inv grows admissible (allSettled body count l c) Φ Ψ s g.
Proof.
  intros HΦ Hb. revert c s g. induction l as [|x l IH]; intros c s g; [apply HΦ|]. apply wp_bind, (wp_catch_answers), wp_bind.
  eapply wp_mono; [..|apply Hb]; cbn; intros; apply IH.
Qed.

Lemma wp_forPages `{!Answers handler, !PreOrder grows} {A C} (id : A → string) page size (process : list A → C → prog E C) Ψ fuel afterId c s g :
  (∀ afterId s g (Φ : S → L → list A → Prop), (∀ s g l, Φ s g l) → wp handler inv grows admissible (page afterId) Φ Ψ s g) →
  (∀ l c s g (Φ : S → L → C → Prop), (∀ s g c, Φ s g c) → wp handler inv grows admissible (process l c) Φ Ψ s g) →
  wp handler inv grows admissible (forPages id page size process fuel afterId c) (λ _ _ _, True) Ψ s g.
Proof.
  intros Hpage Hproc. revert afterId c s g. induction fuel as [|fuel IH]; intros afterId c s g; [done|]. apply wp_bind, Hpage. intros s1 g1 batch.
  destruct (last batch); [|done]. apply wp_bind, Hproc. intros s2 g2 c2. case_match; [done|apply IH].
Qed.
End rules.

(** ** Programs that run alone, whatever fails

    [alone I p Q]: from a state of [I] the program ends in one, and what it returns
    satisfies [Q]. *)

Section alone.
Context {E : Type → Type} {S : Type} (handler : ∀ X, E X → Date → S → S * result X) `{!Answers handler} (I : S → Prop).

Definition alone {A} (p : prog E A) (Q : A → Prop) : Prop :=
  ∀ now s, I s → I (run handler p now s).1 ∧ ∀ a, (run handler p now s).2 = Ok a → Q a.

Lemma alone_ret {A} (a : A) (Q : A → Prop) : Q a → alone (mret a) Q.
Proof. intros Ha now s Hs. split; [done|]. intros ? [= <-]. done. Qed.

Lemma alone_fail {A} e (Q : A → Prop) : alone (Fail e) Q.
Proof. intros now s Hs. done. Qed.

Lemma alone_of_result {A} (r : result A) (Q : A → Prop) : (∀ a, r = Ok a → Q a) → alone (of_result r) Q.
Proof. intros Hr. destruct r; [apply alone_ret; auto|apply alone_fail]. Qed.

Lemma alone_mono {A} (p : prog E A) (Q Q' : A → Prop) : (∀ a, Q a → Q' a) → alone p Q → alone p Q'.
Proof. intros HQ Hp now s Hs. destruct (Hp now s Hs) as [H1 H2]. auto. Qed.

Lemma alone_bind {A B} (p : prog E A) (f : A → prog E B) Q Q' : alone p Q → (∀ a, Q a → alone (f a) Q') → alone (p ≫= f) Q'.
Proof.
  intros Hp Hf now s Hs. rewrite run_bind_prog. destruct (Hp now s Hs) as [H1 H2]. destruct (run handler p now s) as [s1 [a|e]]; [|done].
  by apply (Hf a); [apply H2|].
Qed.

Lemma alone_then {A B} (p : prog E A) (f : A → prog E B) Q : alone p (λ _, True) → (∀ a, alone (f a) Q) → alone (p ≫= f) Q.
Proof. intros Hp Hf. eapply alone_bind; [exact Hp|auto]. Qed.

Lemma alone_catch {A} (p : prog E A) h (Q : A → Prop) : alone p Q → (∀ e, alone (h e) Q) → alone (catch p h) Q.
Proof.
  intros Hp Hh now s Hs. rewrite (run_catch _). destruct (Hp now s Hs) as [H1 H2]. destruct (run handler p now s) as [s1 [a|e]]; [done|]. by apply Hh.
Qed.

(** An event that keeps [I], with what its answers say. *)
Lemma alone_call {X} (c : E X) (Q : X → Prop) : (∀ now s s' x, I s → handler X c now s = (s', Ok x) → I s' ∧ Q x) → alone (call c) Q.
Proof.
  intros Hc now s Hs. rewrite run_call. destruct (answers X c now s) as (s' & x & Hx). rewrite Hx. cbn. destruct (Hc now s s' x Hs Hx). split; [done|]. by intros ? [= <-].
Qed.

Lemma alone_ask {X} (c : E (result X)) (Q : X → Prop) :
  (∀ now s s' r, I s → handler _ c now s = (s', Ok r) → I s' ∧ ∀ x, r = Ok x → Q x) → alone (ask c) Q.
Proof. intros Hc. eapply alone_bind; [apply alone_call; exact Hc|]. intros r Hr. by apply alone_of_result. Qed.

Lemma alone_allSettled {A R C} (body : A → prog E R) (count : C → option R → C) l c :
  (∀ x, x ∈ l → alone (body x) (λ _, True)) → alone (allSettled body count l c) (λ _, True).
Proof.
  revert c. induction l as [|x l IH]; intros c Hb; [by apply alone_ret|]. cbn [allSettled]. apply alone_then.
  - apply alone_catch; [|intros; by apply alone_ret]. apply alone_then; [apply Hb; left|intros; by apply alone_ret].
  - intros r. apply IH. intros y Hy. apply Hb. by right.
Qed.

Lemma alone_forPages {A C} (id : A → string) (page : option string → prog E (list A)) size (process : list A → C → prog E C) (Q : list A → Prop) fuel afterId c :
  (∀ afterId, alone (page afterId) Q) → (∀ l c, Q l → alone (process l c) (λ _, True)) → alone (forPages id page size process fuel afterId c) (λ _, True).
Proof.
  intros Hpage Hproc. revert afterId c. induction fuel as [|fuel IH]; intros afterId c; [by apply alone_ret|]. cbn [forPages].
  eapply alone_bind; [apply Hpage|]. intros batch Hb. destruct (last batch); [|by apply alone_ret]. apply alone_then; [by apply Hproc|].
  intros c'. case_match; [by apply alone_ret|apply IH].
Qed.

(** One after the other. *)
Lemma alone_all {A} (ps : list (prog E A)) now s : (∀ p, p ∈ ps → alone p (λ _, True)) → I s → I (run_all handler ps now s).1.
Proof.
  revert s. induction ps as [|p ps IH]; intros s Hp Hs; [done|]. cbn. destruct (Hp p ltac:(left) now s Hs) as [H1 _].
  destruct (run handler p now s) as [s1 r]. cbn in H1. specialize (IH s1 ltac:(intros q Hq; apply Hp; by right) H1). by destruct (run_all handler ps now s1).
Qed.
End alone.
