(* ===== verification/Outbox.v ===== *)
(** * The ledger outbox: rows, relay and recovery

    [LedgerOutboxTypeOrmRepository] (in [payment-typeorm.repository.ts]),
    [ledger-outbox-relay.service.ts] and [outbox-recovery.service.ts]. Every replica
    runs the relay; its database calls and the emission are events, so that replicas
    interleave, and each of them can fail, before or after its effect. *)

From stdpp Require Import pretty.
From S2P Require Import Prelude Rows JsNumber Money Ledger Redis Program.

Abbreviation Ev := LedgerOutboxEvent.t.

(** ** Rows *)

#[global] Instance OutboxStatus_eq_dec : EqDecision LedgerOutboxEvent.OutboxStatus.
Proof. solve_decision. Defined.

(** An element of the [jsonb] column. *)
Record EntryRow := mkEntryRow {
  er_accountId : string;
  er_accountType : AccountType;
  er_entryType : LedgerEntryType;
  er_amountMinorUnits : string;
  er_currencyCode : string;
  er_description : template }.

Record LedgerOutboxEntity := mkLedgerOutboxEntity {
  ro_id : string;
  ro_paymentId : string;
  ro_eventType : string;
  ro_entries : list EntryRow;
  ro_status : LedgerOutboxEvent.OutboxStatus;
  ro_retryCount : Z;
  ro_lastError : option string;
  ro_processedAt : option Date;
  ro_createdAt : Date }.

Abbreviation table := (list LedgerOutboxEntity).

Module LedgerOutboxTypeOrmRepository.

Definition toRow (e : LedgerEntry) : EntryRow :=
  mkEntryRow (accountId e) (accountType e) (entryType e) (pretty (Money.amountMinorUnits (amount e)))
    (Currency.code (Money.currency (amount e))) (description e).

(** [save] of the entity: an update of the columns it sets when the id is known, else
    an insert, which fills [created_at]. *)
Definition saveWithPayment (now : Date) (ev : Ev) (rows : table) : table :=
  let set row := row {{ ro_paymentId := LedgerOutboxEvent.paymentId ev; ro_eventType := LedgerOutboxEvent.eventType ev;
                        ro_entries := toRow <$> LedgerOutboxEvent.entries ev; ro_status := LedgerOutboxEvent.status ev;
                        ro_retryCount := LedgerOutboxEvent.retryCount ev }} in
  if existsb (λ row, String.eqb (ro_id row) (LedgerOutboxEvent.id ev)) rows
  then (λ row, if String.eqb (ro_id row) (LedgerOutboxEvent.id ev) then set row else row) <$> rows
  else rows ++ [mkLedgerOutboxEntity (LedgerOutboxEvent.id ev) (LedgerOutboxEvent.paymentId ev) (LedgerOutboxEvent.eventType ev)
                  (toRow <$> LedgerOutboxEvent.entries ev) (LedgerOutboxEvent.status ev) (LedgerOutboxEvent.retryCount ev) None None now].

(** [(entity.entries || []).map(...)] *)
Fixpoint toEntries (l : list EntryRow) : result (list LedgerEntry) :=
  match l with
  | [] => Ok []
  | raw :: l =>
      units ← Str.BigInt (er_amountMinorUnits raw);
      amount ← Money.fromMinorUnits units (er_currencyCode raw) None;
      rest ← toEntries l;
      Ok (mkLedgerEntry (er_accountId raw) (er_accountType raw) (er_entryType raw) amount (er_description raw) :: rest)
  end.

Definition toDomain (row : LedgerOutboxEntity) : result Ev :=
  entries ← toEntries (ro_entries row);
  LedgerOutboxEvent.reconstitute (ro_id row) (ro_paymentId row) (ro_eventType row) entries (ro_status row) (ro_createdAt row)
    (ro_processedAt row) (Some (ro_retryCount row)) (ro_lastError row).

Fixpoint toDomains (l : table) : result (list Ev) :=
  match l with [] => Ok [] | row :: l => ev ← toDomain row; rest ← toDomains l; Ok (ev :: rest) end.

(** [ORDER BY created_at ASC] *)
Definition oldestFirst (l : table) : table := orderBy (λ r r', ro_createdAt r <=? ro_createdAt r') l.

Definition withStatus (st : LedgerOutboxEvent.OutboxStatus) (rows : table) : table := filter (λ row, ro_status row = st) rows.

Definition findPending (limit : nat) (rows : table) : result (list Ev) :=
  toDomains (take limit (oldestFirst (withStatus LedgerOutboxEvent.PENDING rows))).

Definition findFailed (limit : nat) (rows : table) : result (list Ev) :=
  toDomains (take limit (oldestFirst (withStatus LedgerOutboxEvent.FAILED rows))).

Definition findStale (now olderThanMinutes : Z) (rows : table) : result (list Ev) :=
  toDomains (filter (λ row, ro_createdAt row < now - olderThanMinutes * 60 * 1000) (withStatus LedgerOutboxEvent.PENDING rows)).

Definition findRow (id : string) (rows : table) : option LedgerOutboxEntity :=
  List.find (λ row, String.eqb (ro_id row) id) rows.

Definition findById (id : string) (rows : table) : result (option Ev) :=
  match findRow id rows with None => Ok None | Some row => ev ← toDomain row; Ok (Some ev) end.

(** [UPDATE ... WHERE id = :id] *)
Definition update (id : string) (f : LedgerOutboxEntity → LedgerOutboxEntity) (rows : table) : table :=
  (λ row, if String.eqb (ro_id row) id then f row else row) <$> rows.

Definition markPublished (now : Date) (id : string) (rows : table) : table :=
  update id (λ row, row {{ ro_status := LedgerOutboxEvent.PUBLISHED; ro_processedAt := Some now }}) rows.

(** The update of [markFailed]; the retry count is that of an earlier read. *)
Definition setFailed (id error : string) (retryCount : Z) (rows : table) : table :=
  update id (λ row, row {{ ro_status := LedgerOutboxEvent.FAILED; ro_lastError := Some error; ro_retryCount := retryCount }}) rows.

Definition resetToPending (id : string) (rows : table) : table * bool :=
  let hit row := String.eqb (ro_id row) id && bool_decide (ro_status row = LedgerOutboxEvent.FAILED) in
  ((λ row, if hit row then row {{ ro_status := LedgerOutboxEvent.PENDING; ro_lastError := None }} else row) <$> rows,
   existsb hit rows).

Definition countByStatus (st : LedgerOutboxEvent.OutboxStatus) (rows : table) : nat := length (withStatus st rows).

End LedgerOutboxTypeOrmRepository.

(** ** Programs *)

Inductive outbox_event : Type → Type :=
  | SAVE_EVENT (ev : Ev) : outbox_event (result unit)
  | FIND_PENDING (limit : nat) : outbox_event (result (list Ev))
  | FIND_ROW (id : string) : outbox_event (result (option LedgerOutboxEntity))
  | FIND_EVENT (id : string) : outbox_event (result (option Ev))
  | EMIT (ev : Ev) : outbox_event (result unit)
  | MARK_PUBLISHED (id : string) : outbox_event (result unit)
  | SET_FAILED (id error : string) (retryCount : Z) : outbox_event (result unit)
  | RESET_TO_PENDING (id : string) : outbox_event (result bool).

Abbreviation O := (prog outbox_event).

(** The message of an error. *)
Definition message (e : js_error) : string := match e with ExternalFailure what => what | _ => "error" end.

Module LedgerOutboxRelayService.

Definition RELAY_BATCH_SIZE : nat := 50.
Definition STALE_THRESHOLD_MINUTES : Z := 5.

Definition markFailed (id error : string) : O unit :=
  entity ← ask (FIND_ROW id);
  match entity with
  | Some entity => ask (SET_FAILED id error (ro_retryCount entity + 1))
  | None => mret tt
  end.

Definition relayOne (event : Ev) : O unit :=
  catch (_ ← ask (EMIT event); ask (MARK_PUBLISHED (LedgerOutboxEvent.id event)))
        (λ err, markFailed (LedgerOutboxEvent.id event) (message err)).

Definition relayPendingEvents : O unit :=
  events ← ask (FIND_PENDING RELAY_BATCH_SIZE);
  for_each relayOne events.

End LedgerOutboxRelayService.

Module OutboxRecoveryService.

Definition retry (eventId : string) : O unit :=
  event ← ask (FIND_EVENT eventId);
  match event with
  | None => Fail (HttpException 404 "OUTBOX_EVENT_NOT_FOUND")
  | Some _ =>
      reset ← ask (RESET_TO_PENDING eventId);
      if (reset : bool) then mret tt else Fail (HttpException 409 "OUTBOX_EVENT_NOT_FAILED")
  end.

End OutboxRecoveryService.

(** ** What the events do *)

(** [emitted]: what the listeners have received. *)
Record outbox := mkOutbox { ob_rows : table; ob_emitted : list Ev; ob_calls : nat }.

Section outbox_handler.
(** What happens to the [n]th call; an emission is lost when a listener throws after
    the event went out. *)
Context (fault : nat → Fault).

Import LedgerOutboxTypeOrmRepository.

Definition outbox_handle X (c : outbox_event X) (now : Date) (s0 : outbox) : outbox * result X :=
  let f := fault (ob_calls s0) in
  let s := s0 {{ ob_calls := S (ob_calls s0) }} in
  match c in outbox_event Y return outbox * result Y with
  | SAVE_EVENT ev => faulty f s (s {{ ob_rows := saveWithPayment now ev (ob_rows s) }}) (Ok tt)
  | FIND_PENDING limit => faulty f s s (findPending limit (ob_rows s))
  | FIND_ROW id => faulty f s s (Ok (findRow id (ob_rows s)))
  | FIND_EVENT id => faulty f s s (findById id (ob_rows s))
  | EMIT ev => faulty f s (s {{ ob_emitted := ob_emitted s ++ [ev] }}) (Ok tt)
  | MARK_PUBLISHED id => faulty f s (s {{ ob_rows := markPublished now id (ob_rows s) }}) (Ok tt)
  | SET_FAILED id error n => faulty f s (s {{ ob_rows := setFailed id error n (ob_rows s) }}) (Ok tt)
  | RESET_TO_PENDING id =>
      faulty f s (s {{ ob_rows := (resetToPending id (ob_rows s)).1 }}) (Ok (resetToPending id (ob_rows s)).2)
  end.
End outbox_handler.

(** What reaches a replica. *)
Inductive outbox_request :=
  | BOOK (ev : Ev)
  | RELAY
  | RETRY (id : string).

Definition serve_outbox (r : outbox_request) : O unit :=
  match r with
  | BOOK ev => ask (SAVE_EVENT ev)
  | RELAY => LedgerOutboxRelayService.relayPendingEvents
  | RETRY id => OutboxRecoveryService.retry id
  end.
