(* ===== verification/OutboxCorrect.v ===== *)
(** * The ledger outbox: nothing is lost, nothing is invented

    Rows round-trip; under every interleaving of bookings, relays and retries, with
    calls failing anywhere, what the listeners receive is what was booked, and only
    what they received is marked as published; relays that work publish everything
    that is pending, oldest first; and how an event is published twice. *)

From Stdlib Require Import Sorted.
From stdpp Require Import pretty.
From S2P Require Import Prelude Rows JsNumber Money Ledger LedgerCorrect Redis Shared Decimal Program Outbox.
Import LedgerOutboxTypeOrmRepository.

(** ** Rows *)

(** What is left of an amount in the column: the rate snapshot is not stored. *)
Definition plain (m : Money.t) : Money.t := Money.mk (Money.amountMinorUnits m) (Money.currency m) None.
Definition plain_entry (e : LedgerEntry) : LedgerEntry :=
  mkLedgerEntry (accountId e) (accountType e) (entryType e) (plain (amount e)) (description e).

(** What the services book: a new event, balanced, with well-formed amounts. *)
Record valid_event (ev : Ev) : Prop := {
  ve_new : LedgerOutboxEvent.status ev = LedgerOutboxEvent.PENDING;
  ve_wf : Forall (λ e, Money.wf (amount e)) (LedgerOutboxEvent.entries ev);
  ve_balanced : balanced (LedgerOutboxEvent.entries ev) }.

Lemma side_plain t code l : side t code (plain_entry <$> l) = side t code l.
Proof. unfold side. induction l as [|e l IH]; [done|]. cbn. by rewrite IH. Qed.

Lemma balanced_plain l : balanced l → balanced (plain_entry <$> l).
Proof. intros H code. by rewrite !side_plain. Qed.

Lemma toEntries_toRow l : Forall (λ e, Money.wf (amount e)) l → toEntries (toRow <$> l) = Ok (plain_entry <$> l).
Proof.
  induction l as [|e l IH]; [done|]. intros [[Hn Hc] Hl]%Forall_cons. cbn [fmap list_fmap toEntries].
  cbn [toRow er_amountMinorUnits er_currencyCode]. rewrite BigInt_pretty by done. cbn [mbind result_bind].
  rewrite fromMinorUnits_wf_code by done. cbn [mbind result_bind]. rewrite IH by done. done.
Qed.

(** The event a row of [ev] is read as. *)
Definition read_as (row : LedgerOutboxEntity) (entries : list LedgerEntry) : Ev :=
  LedgerOutboxEvent.mk (ro_id row) (ro_paymentId row) (ro_eventType row) (plain_entry <$> entries) (ro_status row)
    (ro_createdAt row) (ro_processedAt row) (ro_retryCount row) (ro_lastError row).

Lemma toDomain_row row l : ro_entries row = toRow <$> l → Forall (λ e, Money.wf (amount e)) l → balanced l →
  toDomain row = Ok (read_as row l).
Proof.
  intros He Hw Hb. unfold toDomain. rewrite He, toEntries_toRow by done. cbn [mbind result_bind].
  unfold LedgerOutboxEvent.reconstitute, LedgerOutboxEvent.make. cbn [nullish].
  by rewrite (proj2 (validate_balanced _) (balanced_plain _ Hb)).
Qed.

(** *** Finding and updating rows *)

Definition has_row (id : string) (rows : table) : Prop := ∃ row, row ∈ rows ∧ ro_id row = id.

Lemma update_elem id f rows row : row ∈ update id f rows →
  ∃ row0, row0 ∈ rows ∧ (row = row0 ∨ ro_id row0 = id ∧ row = f row0).
Proof.
  intros (row0 & -> & H0)%list_elem_of_fmap. exists row0. split; [done|].
  destruct (String.eqb_spec (ro_id row0) id); auto.
Qed.

Lemma update_has id f rows id' : (∀ row, ro_id (f row) = ro_id row) → has_row id' rows → has_row id' (update id f rows).
Proof.
  intros Hf (row & Hr & Hid). eexists. split; [apply list_elem_of_fmap_2; exact Hr|]. cbn.
  destruct (String.eqb_spec (ro_id row) id); [by rewrite Hf|done].
Qed.

Lemma existsb_id id rows : existsb (λ row, String.eqb (ro_id row) id) rows = true ↔ has_row id rows.
Proof.
  rewrite existsb_exists. split.
  - intros (row & Hr & He%String.eqb_eq). exists row. split; [by apply list_elem_of_In|done].
  - intros (row & Hr & He). exists row. split; [by apply list_elem_of_In|]. by apply String.eqb_eq.
Qed.

(** Saving an event writes its columns and no other row. *)
Lemma save_elem now ev rows row : row ∈ saveWithPayment now ev rows →
  row ∈ rows ∧ ro_id row ≠ LedgerOutboxEvent.id ev ∨
  ro_id row = LedgerOutboxEvent.id ev ∧ ro_paymentId row = LedgerOutboxEvent.paymentId ev ∧ ro_eventType row = LedgerOutboxEvent.eventType ev
  ∧ ro_entries row = toRow <$> LedgerOutboxEvent.entries ev ∧ ro_status row = LedgerOutboxEvent.status ev.
Proof.
  unfold saveWithPayment. destruct (existsb _ rows) eqn:Hex.
  - intros (row0 & -> & H0)%list_elem_of_fmap. destruct (String.eqb_spec (ro_id row0) (LedgerOutboxEvent.id ev)) as [Hid|Hne]; [right|left; done].
    by destruct row0.
  - intros [H0| ->%list_elem_of_singleton]%elem_of_app; [|right; done]. left. split; [done|]. intros Hid.
    assert (existsb (λ row, String.eqb (ro_id row) (LedgerOutboxEvent.id ev)) rows = true) by (apply existsb_id; by exists row). congruence.
Qed.

Lemma save_has now ev rows : has_row (LedgerOutboxEvent.id ev) (saveWithPayment now ev rows).
Proof.
  unfold saveWithPayment. destruct (existsb _ rows) eqn:Hex.
  - apply existsb_id in Hex as (row & Hr & Hid). eexists. split; [apply list_elem_of_fmap_2; exact Hr|]. cbn.
    destruct (String.eqb_spec (ro_id row) (LedgerOutboxEvent.id ev)); [|done]. by destruct row.
  - eexists. split; [apply elem_of_app; right; by apply list_elem_of_singleton|done].
Qed.

Lemma save_keeps now ev rows id : has_row id rows → has_row id (saveWithPayment now ev rows).
Proof.
  intros (row & Hr & Hid). unfold saveWithPayment. destruct (existsb _ rows) eqn:Hex.
  - eexists. split; [apply list_elem_of_fmap_2; exact Hr|]. cbn.
    destruct (String.eqb_spec (ro_id row) (LedgerOutboxEvent.id ev)); [by destruct row|done].
  - exists row. split; [apply elem_of_app; by left|done].
Qed.

Lemma update_ids id f rows : (∀ row, ro_id (f row) = ro_id row) → ro_id <$> update id f rows = ro_id <$> rows.
Proof.
  intros Hf. unfold update. rewrite <- list_fmap_compose. apply list_fmap_ext. intros _ row _. cbn. by case_match.
Qed.

Lemma save_unique now ev rows : NoDup (ro_id <$> rows) → NoDup (ro_id <$> saveWithPayment now ev rows).
Proof.
  intros Hn. unfold saveWithPayment. destruct (existsb _ rows) eqn:Hex.
  - rewrite <- list_fmap_compose. erewrite list_fmap_ext; [exact Hn|]. intros _ row _. cbn. case_match; [by destruct row|done].
  - rewrite fmap_app. apply NoDup_app. split_and!; [done| |apply NoDup_singleton].
    intros id (row & -> & Hr)%list_elem_of_fmap Hid%list_elem_of_singleton. cbn in Hid.
    assert (existsb (λ row, String.eqb (ro_id row) (LedgerOutboxEvent.id ev)) rows = true) by (apply existsb_id; by exists row). congruence.
Qed.

Lemma reset_ids id rows : ro_id <$> (resetToPending id rows).1 = ro_id <$> rows.
Proof. cbn. rewrite <- list_fmap_compose. apply list_fmap_ext. intros _ row _. cbn. case_match; [by destruct row|done]. Qed.

Lemma reset_elem id rows row : row ∈ (resetToPending id rows).1 →
  ∃ row0, row0 ∈ rows ∧ (row = row0 ∨ row = row0 {{ ro_status := LedgerOutboxEvent.PENDING; ro_lastError := None }}).
Proof.
  cbn. intros (row0 & -> & H0)%list_elem_of_fmap. exists row0. split; [done|]. case_match; auto.
Qed.

Lemma reset_has id rows id' : has_row id' rows → has_row id' (resetToPending id rows).1.
Proof.
  intros (row & Hr & Hid). eexists. split; [cbn; apply list_elem_of_fmap_2; exact Hr|]. cbn. case_match; [by destruct row|done].
Qed.

Lemma toDomains_elem l evs ev : toDomains l = Ok evs → ev ∈ evs → ∃ row, row ∈ l ∧ toDomain row = Ok ev.
Proof.
  revert evs. induction l as [|row l IH]; intros evs; cbn; [by intros [= <-] ?%not_elem_of_nil|].
  intros (ev0 & H0 & (rest & Hrest & [= <-])%bind_ok_iff)%bind_ok_iff [->|Hin]%elem_of_cons.
  - exists row. split; [left|done].
  - destruct (IH rest Hrest Hin) as (row' & ? & ?). exists row'. split; [by right|done].
Qed.

(** ** Under every interleaving *)

#[global] Instance outbox_answers fault : Answers (outbox_handle fault).
Proof. intros X c now s. destruct c; cbn; unfold faulty; destruct (fault _); eauto. Qed.

Section faithful.
Context (fault : nat → Fault).
(** What is booked under an identifier: payment, event type and entries. *)
Context (agreed : string → option (string * string * list LedgerEntry)).
(** The pool of requests, each the ghost value of its program. *)
Context (requests : list outbox_request).

Definition booked_row (row : LedgerOutboxEntity) : Prop :=
  match agreed (ro_id row) with
  | Some (pid, ty, l) =>
      ro_paymentId row = pid ∧ ro_eventType row = ty ∧ ro_entries row = toRow <$> l ∧ Forall (λ e, Money.wf (amount e)) l ∧ balanced l
  | None => False
  end.

Definition booked_event (ev : Ev) : Prop :=
  match agreed (LedgerOutboxEvent.id ev) with
  | Some (pid, ty, l) => LedgerOutboxEvent.paymentId ev = pid ∧ LedgerOutboxEvent.eventType ev = ty ∧ LedgerOutboxEvent.entries ev = plain_entry <$> l
  | None => False
  end.

Definition agrees (ev : Ev) : Prop :=
  valid_event ev ∧ agreed (LedgerOutboxEvent.id ev) = Some (LedgerOutboxEvent.paymentId ev, LedgerOutboxEvent.eventType ev, LedgerOutboxEvent.entries ev).

Definition sent (id : string) (l : list Ev) : Prop := ∃ ev, ev ∈ l ∧ LedgerOutboxEvent.id ev = id.

Record faithful_tables (rows : table) (emitted : list Ev) : Prop := {
  ft_unique : NoDup (ro_id <$> rows);
  ft_rows row : row ∈ rows → booked_row row;
  ft_published row : row ∈ rows → ro_status row = LedgerOutboxEvent.PUBLISHED → sent (ro_id row) emitted;
  ft_emitted ev : ev ∈ emitted → booked_event ev ∧ has_row (LedgerOutboxEvent.id ev) rows }.

Definition fine (s : outbox) : Prop := faithful_tables (ob_rows s) (ob_emitted s).
Definition faithful (s : outbox) (ls : list outbox_request) : Prop := fine s ∧ ls = requests.

Definition later (s s' : outbox) : Prop :=
  (∀ id, has_row id (ob_rows s) → has_row id (ob_rows s')) ∧ (∀ ev, ev ∈ ob_emitted s → ev ∈ ob_emitted s').

#[global] Instance later_PreOrder : PreOrder later.
Proof. split; [by intros s|]. intros s1 s2 s3 [H1 H1'] [H2 H2']. split; auto. Qed.

Abbreviation ok := (wp (outbox_handle fault) faithful later (λ _, True)).

(** *** The tables after each write *)

Lemma faithful_save now ev rows emitted : agrees ev → faithful_tables rows emitted → faithful_tables (saveWithPayment now ev rows) emitted.
Proof.
  intros [[Hnew Hwf Hbal] Hag] [Hn Hr Hp He]. split.
  - by apply save_unique.
  - intros row [[H _]|(Hid & Hpid & Hty & Hent & Hst)]%save_elem; [by apply Hr|]. unfold booked_row. by rewrite Hid, Hag.
  - intros row [[H _]|(Hid & Hpid & Hty & Hent & Hst)]%save_elem Hpub; [by apply Hp|]. rewrite Hst, Hnew in Hpub. discriminate Hpub.
  - intros e H. destruct (He e H). split; [done|by apply save_keeps].
Qed.

Lemma faithful_update id f rows emitted : faithful_tables rows emitted →
  (∀ row, ro_id (f row) = ro_id row ∧ ro_paymentId (f row) = ro_paymentId row ∧ ro_eventType (f row) = ro_eventType row ∧ ro_entries (f row) = ro_entries row) →
  (∀ row, ro_status (f row) = LedgerOutboxEvent.PUBLISHED → sent id emitted) →
  faithful_tables (update id f rows) emitted.
Proof.
  intros [Hn Hr Hp He] Hf Hs. split.
  - rewrite update_ids; [done|]. intros row. apply Hf.
  - intros row (row0 & H0 & [->|[_ ->]])%update_elem; [by apply Hr|]. destruct (Hf row0) as (Hi & Hpid & Hty & Hent).
    pose proof (Hr row0 H0) as Hb. unfold booked_row in *. by rewrite Hi, Hpid, Hty, Hent.
  - intros row (row0 & H0 & [->|[<- ->]])%update_elem Hpub; [by apply Hp|]. rewrite (proj1 (Hf row0)). by apply (Hs row0).
  - intros e H. destruct (He e H). split; [done|]. apply update_has; [|done]. intros row. apply Hf.
Qed.

Lemma faithful_reset id rows emitted : faithful_tables rows emitted → faithful_tables (resetToPending id rows).1 emitted.
Proof.
  intros [Hn Hr Hp He]. split.
  - by rewrite reset_ids.
  - intros row (row0 & H0 & [-> | ->])%reset_elem; [by apply Hr|]. pose proof (Hr row0 H0) as Hb. by destruct row0.
  - intros row (row0 & H0 & [-> | ->])%reset_elem Hpub; [by apply Hp|]. destruct row0. discriminate Hpub.
  - intros e H. destruct (He e H). split; [done|by apply reset_has].
Qed.

Lemma faithful_emit ev rows emitted : booked_event ev → has_row (LedgerOutboxEvent.id ev) rows →
  faithful_tables rows emitted → faithful_tables rows (emitted ++ [ev]).
Proof.
  intros Hb Hrow [Hn Hr Hp He]. split; [done|done|..].
  - intros row H Hpub. destruct (Hp row H Hpub) as (e & ? & ?). exists e. split; [apply elem_of_app; by left|done].
  - intros e [H| ->%list_elem_of_singleton]%elem_of_app; auto.
Qed.

(** *** The events *)

Lemma ok_event {A} (c : outbox_event (result A)) (after : Date → outbox → outbox) (answer : outbox → result A) Φ Ψ s g :
  (∀ now s, outbox_handle fault _ c now s
            = let s' := s {{ ob_calls := S (ob_calls s) }} in faulty (fault (ob_calls s)) s' (after now s') (answer s')) →
  (∀ now s1, later s s1 → fine s1 → fine (after now s1) ∧ later s1 (after now s1)) →
  (∀ now s1 x, later s s1 → fine s1 → answer s1 = Ok x → Φ (after now s1) g x) →
  (∀ s1 e, later s s1 → Ψ s1 g e) →
  ok (ask c) Φ Ψ s g.
Proof.
  intros Hh Hstep HΦ HΨ. unfold ask. apply wp_bind. apply wp_call. intros now s1 pre post _ Hl Hi.
  destruct Hi as [Hi Hreq]. rewrite Hh. cbn zeta. set (s1' := s1 {{ ob_calls := _ }}).
  assert (fine s1' ∧ later s1 s1') as [Hi' Hl'] by by destruct s1.
  assert (later s s1') as Hl1 by by etrans.
  destruct (Hstep now s1' Hl1 Hi') as [Ha Hla].
  assert (∀ r, (∀ e, r = Throw e) ∨ r = answer s1' →
    wp (outbox_handle fault) faithful later (λ _, True) (of_result r) Φ Ψ (after now s1') g) as Hres.
  { intros [x|e] [H|H]; try discriminate (H (ExternalFailure "")).
    - eapply HΦ; [exact Hl1|exact Hi'|done].
    - apply HΨ. by etrans.
    - apply HΨ. by etrans. }
  unfold faulty. destruct (fault _); eexists _, _, g; (split; [reflexivity|]).
  - split; [by etrans|]. split; [by split|]. apply Hres. by right.
  - split; [done|]. split; [by split|]. cbn. by apply HΨ.
  - split; [by etrans|]. split; [by split|]. cbn. apply HΨ. by etrans.
Qed.

Lemma later_has s s' id : later s s' → has_row id (ob_rows s) → has_row id (ob_rows s').
Proof. intros H. apply H. Qed.
Lemma later_sent s s' id : later s s' → sent id (ob_emitted s) → sent id (ob_emitted s').
Proof. intros [_ H] (ev & ? & ?). exists ev. auto. Qed.

Lemma ok_save ev Ψ s g : agrees ev → (∀ s g e, Ψ s g e) → ok (ask (SAVE_EVENT ev)) (λ s _ _, has_row (LedgerOutboxEvent.id ev) (ob_rows s)) Ψ s g.
Proof.
  intros Hag HΨ. eapply (ok_event _ (λ now s, s {{ ob_rows := saveWithPayment now ev (ob_rows s) }}) (λ _, Ok tt)); [done|..|by auto].
  - intros now s1 _ Hi. destruct s1. split; [by apply faithful_save|]. split; [|done]. intros id. apply save_keeps.
  - intros now s1 x _ _ _. destruct s1. apply save_has.
Qed.

Lemma ok_read {A} (c : outbox_event (result A)) answer Φ Ψ s g :
  (∀ now s, outbox_handle fault _ c now s
            = let s' := s {{ ob_calls := S (ob_calls s) }} in faulty (fault (ob_calls s)) s' s' (answer s')) →
  (∀ s1 x, later s s1 → fine s1 → answer s1 = Ok x → Φ s1 g x) →
  (∀ s1 e, later s s1 → Ψ s1 g e) → ok (ask c) Φ Ψ s g.
Proof. intros Hh HΦ HΨ. eapply (ok_event _ (λ _ s, s) answer); [done|by split|by eauto|done]. Qed.

Lemma ok_emit ev Ψ s g : booked_event ev → has_row (LedgerOutboxEvent.id ev) (ob_rows s) → (∀ s g e, Ψ s g e) →
  ok (ask (EMIT ev)) (λ s _ _, sent (LedgerOutboxEvent.id ev) (ob_emitted s)) Ψ s g.
Proof.
  intros Hb Hrow HΨ. eapply (ok_event _ (λ now s, s {{ ob_emitted := ob_emitted s ++ [ev] }}) (λ _, Ok tt)); [done|..|by auto].
  - intros now s1 Hl Hi. pose proof (later_has _ _ _ Hl Hrow). destruct s1. split; [by apply faithful_emit|].
    split; [done|]. intros e He. apply elem_of_app. by left.
  - intros now s1 x _ _ _. destruct s1. exists ev. split; [apply elem_of_app; right; by apply list_elem_of_singleton|done].
Qed.

Lemma ok_published id Ψ s g : sent id (ob_emitted s) → (∀ s g e, Ψ s g e) → ok (ask (MARK_PUBLISHED id)) (λ _ _ _, True) Ψ s g.
Proof.
  intros Hs HΨ. eapply (ok_event _ (λ now s, s {{ ob_rows := markPublished now id (ob_rows s) }}) (λ _, Ok tt)); [done|..|by auto]; [|done].
  intros now s1 Hl Hi. pose proof (later_sent _ _ _ Hl Hs). destruct s1. split.
  - apply faithful_update; [done|by intros []|done].
  - split; [|done]. intros id'. apply update_has. by intros [].
Qed.

Lemma ok_failed id error n Ψ s g : (∀ s g e, Ψ s g e) → ok (ask (SET_FAILED id error n)) (λ _ _ _, True) Ψ s g.
Proof.
  intros HΨ. eapply (ok_event _ (λ now s, s {{ ob_rows := setFailed id error n (ob_rows s) }}) (λ _, Ok tt)); [done|..|by auto]; [|done].
  intros now s1 Hl Hi. destruct s1. split.
  - apply faithful_update; [done|by intros []|by intros []].
  - split; [|done]. intros id'. apply update_has. by intros [].
Qed.

Lemma ok_reset id Ψ s g : (∀ s g e, Ψ s g e) → ok (ask (RESET_TO_PENDING id)) (λ _ _ _, True) Ψ s g.
Proof.
  intros HΨ. eapply (ok_event _ (λ now s, s {{ ob_rows := (resetToPending id (ob_rows s)).1 }}) (λ s, Ok (resetToPending id (ob_rows s)).2));
    [by intros now []|..|by auto]; [|done].
  intros now s1 Hl Hi. destruct s1. split; [by apply faithful_reset|]. split; [|done]. intros id'. apply reset_has.
Qed.

(** *** The services *)

Lemma found_booked limit s evs ev : fine s → findPending limit (ob_rows s) = Ok evs → ev ∈ evs →
  booked_event ev ∧ has_row (LedgerOutboxEvent.id ev) (ob_rows s).
Proof.
  intros [_ Hr _ _] Hf Hin. destruct (toDomains_elem _ _ _ Hf Hin) as (row & Hrow & Hd).
  assert (row ∈ ob_rows s) as Hrs.
  { apply elem_of_take in Hrow as (i & Hrow%list_elem_of_lookup_2 & _). apply orderBy_elem, list_elem_of_filter in Hrow. by destruct Hrow. }
  pose proof (Hr row Hrs) as Hb. unfold booked_row in Hb. destruct (agreed (ro_id row)) as [[[pid ty] l]|] eqn:Hag; [|done].
  destruct Hb as (Hpid & Hty & Hent & Hwf & Hbal). rewrite (toDomain_row row l) in Hd by done. injection Hd as <-.
  split; [|by exists row]. unfold booked_event. cbn. by rewrite Hag.
Qed.

Lemma ok_markFailed id error Ψ s g : (∀ s g e, Ψ s g e) → ok (LedgerOutboxRelayService.markFailed id error) (λ _ _ _, True) Ψ s g.
Proof.
  intros HΨ. apply wp_bind. eapply (ok_read _ (λ s, Ok (findRow id (ob_rows s)))); [done|..|by auto].
  intros s1 row _ _ _. destruct row; [by apply ok_failed|done].
Qed.

Lemma ok_relayOne ev Ψ s g : booked_event ev → has_row (LedgerOutboxEvent.id ev) (ob_rows s) → (∀ s g e, Ψ s g e) →
  ok (LedgerOutboxRelayService.relayOne ev) (λ s' _ _, True) Ψ s g.
Proof.
  intros Hb Hrow HΨ. apply wp_catch_answers; [apply _|]. apply wp_bind.
  eapply wp_mono; [..|apply (ok_emit ev (λ s g e, ok (LedgerOutboxRelayService.markFailed (LedgerOutboxEvent.id ev) (message e)) (λ _ _ _, True) Ψ s g)); [done|done|]].
  - intros s1 g' u Hs. apply ok_published; [done|]. intros s2 g2 e. by apply ok_markFailed.
  - by intros s1 g' e H.
  - intros s1 g1 e. by apply ok_markFailed.
Qed.

Lemma ok_relay Ψ s g : (∀ s g e, Ψ s g e) → ok LedgerOutboxRelayService.relayPendingEvents (λ _ _ _, True) Ψ s g.
Proof.
  intros HΨ. apply wp_bind. eapply (ok_read _ (λ s, findPending LedgerOutboxRelayService.RELAY_BATCH_SIZE (ob_rows s))); [done|..|by auto].
  intros s1 evs _ Hi Hf.
  apply wp_mono with (Φ := λ s _ _, ∀ ev, ev ∈ evs → has_row (LedgerOutboxEvent.id ev) (ob_rows s)) (Ψ := Ψ); [done..|].
  apply (wp_for_each _ _ _ _ _ (λ s _, ∀ ev, ev ∈ evs → has_row (LedgerOutboxEvent.id ev) (ob_rows s))).
  - intros ev Hev. by destruct (found_booked _ _ _ ev Hi Hf Hev).
  - intros ev s2 g' Hev Hrows. destruct (found_booked _ _ _ ev Hi Hf Hev) as [Hb _].
    eapply wp_mono; [..|apply wp_grows; [apply _|]; apply (ok_relayOne ev Ψ s2 g' Hb); auto]; cbn; [|by intros s3 g3 e [_ H]].
    intros s3 g3 u [Hl _] ev' Hev'. apply (later_has s2); auto.
Qed.

Lemma ok_retry id Ψ s g : (∀ s g e, Ψ s g e) → ok (OutboxRecoveryService.retry id) (λ _ _ _, True) Ψ s g.
Proof.
  intros HΨ. apply wp_bind. eapply (ok_read _ (λ s, findById id (ob_rows s))); [done|..|by auto].
  intros s1 ev _ _ _. destruct ev as [ev|]; [|apply HΨ]. apply wp_bind.
  eapply wp_mono; [..|by apply (ok_reset id Ψ)]; [|by intros s2 g' e H]. intros s2 g' [] u; [done|apply HΨ].
Qed.

(** What a finished request leaves: a booking its row. *)
Definition settled_request (r : outbox_request) (s : outbox) : Prop :=
  match r with BOOK ev => has_row (LedgerOutboxEvent.id ev) (ob_rows s) | _ => True end.

Lemma ok_serve r s : match r with BOOK ev => agrees ev | _ => True end →
  ok (serve_outbox r) (λ s r _, settled_request r s) (λ _ _ _, True) s r.
Proof.
  intros Hr. eapply wp_mono; [..|apply (wp_constant _ _ _ _ requests _ (λ s _ _, settled_request r s) (λ _ _ _, True)); [by intros s' ls [_ ->]|]].
  - cbn. by intros s' r' u [-> H].
  - done.
  - destruct r; [by apply ok_save|by apply ok_relay|by apply ok_retry].
Qed.
End faithful.

(** What the requests book under an identifier. *)
Definition booking (id : string) (r : outbox_request) : option Ev :=
  match r with BOOK ev => if String.eqb (LedgerOutboxEvent.id ev) id then Some ev else None | _ => None end.

Definition bookings (requests : list outbox_request) (id : string) : option (string * string * list LedgerEntry) :=
  (λ ev, (LedgerOutboxEvent.paymentId ev, LedgerOutboxEvent.eventType ev, LedgerOutboxEvent.entries ev)) <$> head (omap (booking id) requests).

Lemma bookings_some requests id x : bookings requests id = Some x →
  ∃ ev, BOOK ev ∈ requests ∧ LedgerOutboxEvent.id ev = id
        ∧ x = (LedgerOutboxEvent.paymentId ev, LedgerOutboxEvent.eventType ev, LedgerOutboxEvent.entries ev).
Proof.
  unfold bookings. destruct (omap (booking id) requests) as [|ev l] eqn:E; [done|]. intros [= <-].
  assert (ev ∈ omap (booking id) requests) as Hin by (rewrite E; left).
  apply list_elem_of_omap in Hin as (r & Hr & Hb). destruct r as [ev'| |]; [|done..]. cbn in Hb.
  destruct (String.eqb_spec (LedgerOutboxEvent.id ev') id) as [<-|]; [|done]. injection Hb as ->. by exists ev.
Qed.

Lemma bookings_agree requests ev : (∀ ev', BOOK ev' ∈ requests → valid_event ev') →
  (∀ ev1 ev2, BOOK ev1 ∈ requests → BOOK ev2 ∈ requests → LedgerOutboxEvent.id ev1 = LedgerOutboxEvent.id ev2 → ev1 = ev2) →
  BOOK ev ∈ requests → agrees (bookings requests) ev.
Proof.
  intros Hv Hu Hin. split; [by apply Hv|].
  destruct (bookings requests (LedgerOutboxEvent.id ev)) as [x|] eqn:E.
  - apply bookings_some in E as (ev' & Hin' & Hid & ->). by rewrite (Hu ev' ev Hin' Hin Hid).
  - exfalso. unfold bookings in E. destruct (omap _ requests) as [|y l] eqn:El; [|done].
    assert (ev ∈ omap (booking (LedgerOutboxEvent.id ev)) requests) as H.
    { apply list_elem_of_omap. exists (BOOK ev). split; [done|]. cbn. by rewrite String.eqb_refl. }
    rewrite El in H. by apply not_elem_of_nil in H.
Qed.

(** The states a pool of requests can reach from an empty outbox. *)
Lemma outbox_reached fault t0 requests c : (∀ ev, BOOK ev ∈ requests → valid_event ev) →
  (∀ ev1 ev2, BOOK ev1 ∈ requests → BOOK ev2 ∈ requests → LedgerOutboxEvent.id ev1 = LedgerOutboxEvent.id ev2 → ev1 = ev2) →
  rtc (interleave (outbox_handle fault)) (mkConfig t0 (mkOutbox [] [] 0) (serve_outbox <$> requests)) c →
  faithful_tables (bookings requests) (ob_rows (memory c)) (ob_emitted (memory c))
  ∧ ∀ i r, requests !! i = Some r → pool c !! i = Some (Ret tt) → settled_request r (memory c).
Proof.
  intros Hv Hu Hrun.
  destruct (pool_run (outbox_handle fault) (faithful (bookings requests) requests) later (λ _, True)
              (λ s r _, settled_request r s) (λ _ _ _, True) _ _ requests Hrun) as (ls & [Hf ->] & Hall).
  - done.
  - split; [|done]. split; [constructor|..]; cbn; intros x Hx; by apply not_elem_of_nil in Hx.
  - cbn. apply Forall2_fmap_l, Forall_Forall2_diag, Forall_forall. intros r Hr. exists (mkOutbox [] [] 0). split; [reflexivity|].
    apply ok_serve. destruct r; [|done..]. by apply bookings_agree.
  - split; [exact Hf|]. intros i r Hr Hp. destruct (Forall2_lookup_l _ _ _ _ _ Hall Hp) as (r' & Hr' & s0 & Hg & Hw).
    rewrite Hr in Hr'. injection Hr' as <-. cbn in Hw. destruct r; [|done..]. by apply (later_has s0).
Qed.

(** C21: the outbox loses and invents nothing. Under every interleaving of bookings,
    relays and retries on any number of replicas, with any call failing before or
    after its effect: a row is marked PUBLISHED only after the listeners received its
    event; whatever they received is an event that was booked, with its payment, type
    and entries (without rate snapshots); and a booking that returned has a row that
    reads back as booked. *)
Theorem outbox_faithful fault t0 requests c :
  (∀ ev, BOOK ev ∈ requests → valid_event ev) →
  (∀ ev1 ev2, BOOK ev1 ∈ requests → BOOK ev2 ∈ requests → LedgerOutboxEvent.id ev1 = LedgerOutboxEvent.id ev2 → ev1 = ev2) →
  rtc (interleave (outbox_handle fault)) (mkConfig t0 (mkOutbox [] [] 0) (serve_outbox <$> requests)) c →
  (∀ row, row ∈ ob_rows (memory c) → ro_status row = LedgerOutboxEvent.PUBLISHED → sent (ro_id row) (ob_emitted (memory c)))
  ∧ (∀ ev, ev ∈ ob_emitted (memory c) → ∃ ev0, BOOK ev0 ∈ requests ∧ LedgerOutboxEvent.id ev = LedgerOutboxEvent.id ev0
       ∧ LedgerOutboxEvent.paymentId ev = LedgerOutboxEvent.paymentId ev0 ∧ LedgerOutboxEvent.eventType ev = LedgerOutboxEvent.eventType ev0
       ∧ LedgerOutboxEvent.entries ev = plain_entry <$> LedgerOutboxEvent.entries ev0)
  ∧ (∀ i ev, requests !! i = Some (BOOK ev) → pool c !! i = Some (Ret tt) →
       ∃ row, row ∈ ob_rows (memory c) ∧ ro_id row = LedgerOutboxEvent.id ev
              ∧ toDomain row = Ok (read_as row (LedgerOutboxEvent.entries ev))).
Proof.
  intros Hv Hu Hrun. destruct (outbox_reached _ _ _ _ Hv Hu Hrun) as [[_ Hr Hp He] Hs]. split_and!; [done|..].
  - intros ev [Hb _]%He. unfold booked_event in Hb. destruct (bookings requests _) as [[[pid ty] l]|] eqn:E; [|done].
    apply bookings_some in E as (ev0 & Hin & Hid & [= -> -> ->]). exists ev0. by destruct Hb as (? & ? & ?).
  - intros i ev Hi Hret. destruct (Hs i _ Hi Hret) as (row & Hrow & Hid). exists row. split_and!; [done|done|].
    apply list_elem_of_lookup_2 in Hi. pose proof (bookings_agree _ _ Hv Hu Hi) as [_ Hag].
    pose proof (Hr row Hrow) as Hb. unfold booked_row in Hb. rewrite Hid, Hag in Hb. destruct Hb as (_ & _ & ? & ? & ?).
    by apply toDomain_row.
Qed.

(** ** Relays that work publish everything *)

(** *** The order of the rows *)

Definition older (r r' : LedgerOutboxEntity) : bool := ro_createdAt r <=? ro_createdAt r'.

Lemma older_total r r' : older r r' = true ∨ older r' r = true.
Proof. unfold older. rewrite !Z.leb_le. lia. Qed.

Lemma older_trans r1 r2 r3 : older r1 r2 = true → older r2 r3 = true → older r1 r3 = true.
Proof. unfold older. rewrite !Z.leb_le. lia. Qed.

(** A batch taken off the front of a list without repetitions leaves the rest. *)
Lemma filter_batch (l1 l2 : table) : NoDup (ro_id <$> l1 ++ l2) → filter (λ r, ro_id r ∉ (ro_id <$> l1)) (l1 ++ l2) = l2.
Proof.
  rewrite fmap_app, NoDup_app. intros (_ & Hd & _). rewrite filter_app, filter_none, filter_every; [done|..].
  - intros r Hr Hin. apply (Hd (ro_id r) Hin). by apply list_elem_of_fmap_2.
  - intros r Hr Hin. apply Hin. by apply list_elem_of_fmap_2.
Qed.

(** *** One tick *)

Definition publish_all (now : Date) (ids : list string) (rows : table) : table := foldl (λ rows id, markPublished now id rows) rows ids.

Definition pending (rows : table) : table := oldestFirst (withStatus LedgerOutboxEvent.PENDING rows).

Definition published (now : Date) (row : LedgerOutboxEntity) : LedgerOutboxEntity :=
  row {{ ro_status := LedgerOutboxEvent.PUBLISHED; ro_processedAt := Some now }}.

Lemma publish_all_map now ids rows :
  publish_all now ids rows = (λ row, if decide (ro_id row ∈ ids) then published now row else row) <$> rows.
Proof.
  revert rows. induction ids as [|id ids IH]; intros rows.
  - cbn [publish_all foldl]. rewrite <- (list_fmap_id rows) at 1. apply list_fmap_ext. intros _ row _. rewrite decide_False by apply not_elem_of_nil. done.
  - change (publish_all now (id :: ids) rows) with (publish_all now ids (markPublished now id rows)).
    rewrite IH. unfold markPublished, update. rewrite <- list_fmap_compose. apply list_fmap_ext. intros _ row _. cbn.
    destruct (String.eqb_spec (ro_id row) id) as [Heq|Hne].
    + rewrite (decide_True (P := ro_id row ∈ id :: ids)) by (rewrite Heq; left). destruct row; cbn. by case_decide.
    + repeat case_decide; try done; set_solver.
Qed.

Lemma pending_publish_all now ids rows : pending (publish_all now ids rows) = filter (λ r, ro_id r ∉ ids) (pending rows).
Proof.
  unfold pending. unfold oldestFirst. rewrite (filter_orderBy _ older_total older_trans), publish_all_map. f_equal. unfold withStatus.
  induction rows as [|row rows IH]; [done|]. cbn [fmap list_fmap]. rewrite !filter_cons, IH.
  destruct (decide (ro_id row ∈ ids)) as [Hin|Hout].
  - rewrite decide_False by (by destruct row). case_decide; [|done]. rewrite filter_cons. by rewrite decide_False by (intros Hn; by apply Hn).
  - case_decide; [|done]. rewrite filter_cons. by rewrite decide_True.
Qed.

Lemma published_stays now ids rows row : row ∈ rows → ro_id row ∈ ids ∨ ro_status row = LedgerOutboxEvent.PUBLISHED →
  ∃ row', row' ∈ publish_all now ids rows ∧ ro_id row' = ro_id row ∧ ro_status row' = LedgerOutboxEvent.PUBLISHED.
Proof.
  intros Hr Hin. rewrite publish_all_map. eexists. split; [apply list_elem_of_fmap_2; exact Hr|]. cbn.
  case_decide; [by destruct row|]. destruct Hin; done.
Qed.

Section working.
Context (fault : nat → Fault).

Definition working (s : outbox) : Prop := ∀ n, (ob_calls s ≤ n)%nat → fault n = Works.

Lemma relayOne_works ev now s : working s →
  run (outbox_handle fault) (LedgerOutboxRelayService.relayOne ev) now s
  = (mkOutbox (markPublished now (LedgerOutboxEvent.id ev) (ob_rows s)) (ob_emitted s ++ [ev]) (S (S (ob_calls s))), Ok tt).
Proof.
  intros Hw. destruct s as [rows em n]. unfold working in Hw. cbn in Hw.
  unfold LedgerOutboxRelayService.relayOne. rewrite (run_catch _). cbn. rewrite (Hw n) by lia. cbn. rewrite (Hw (S n)) by lia. done.
Qed.

Lemma relay_each evs now s : working s →
  run (outbox_handle fault) (for_each LedgerOutboxRelayService.relayOne evs) now s
  = (mkOutbox (publish_all now (LedgerOutboxEvent.id <$> evs) (ob_rows s)) (ob_emitted s ++ evs) (2 * length evs + ob_calls s), Ok tt).
Proof.
  revert s. induction evs as [|ev evs IH]; intros s Hw; cbn [for_each]; [destruct s; cbn; by rewrite app_nil_r|].
  rewrite run_bind_prog, relayOne_works, IH; [|intros m Hm; apply Hw; cbn in *; lia|done].
  cbn. rewrite <- app_assoc. cbn. repeat f_equal. lia.
Qed.

Lemma toDomain_kept row ev : toDomain row = Ok ev → LedgerOutboxEvent.id ev = ro_id row ∧ LedgerOutboxEvent.createdAt ev = ro_createdAt row.
Proof.
  unfold toDomain, LedgerOutboxEvent.reconstitute, LedgerOutboxEvent.make. intros (es & _ & (u & _ & [= <-])%bind_ok_iff)%bind_ok_iff. done.
Qed.

Lemma toDomains_ids l evs : toDomains l = Ok evs →
  LedgerOutboxEvent.id <$> evs = ro_id <$> l ∧ LedgerOutboxEvent.createdAt <$> evs = ro_createdAt <$> l.
Proof.
  revert evs. induction l as [|row l IH]; intros evs; cbn; [by intros [= <-]|].
  intros (ev & [Hid Hat]%toDomain_kept & (rest & [IHi IHa]%IH & [= <-])%bind_ok_iff)%bind_ok_iff. cbn. by rewrite Hid, Hat, IHi, IHa.
Qed.

Lemma toDomains_app l1 l2 evs1 evs2 : toDomains l1 = Ok evs1 → toDomains l2 = Ok evs2 → toDomains (l1 ++ l2) = Ok (evs1 ++ evs2).
Proof.
  revert evs1. induction l1 as [|row l1 IH]; intros evs1; cbn; [by intros [= <-]|].
  intros (ev & Hev & (rest & Hrest & [= <-])%bind_ok_iff)%bind_ok_iff H2. rewrite Hev. cbn. by rewrite (IH _ Hrest H2).
Qed.

(** Every row can be read. *)
Definition readable (rows : table) : Prop := ∀ row, row ∈ rows → ∃ ev, toDomain row = Ok ev.

Lemma readable_all l : readable l → ∃ evs, toDomains l = Ok evs.
Proof.
  induction l as [|row l IH]; intros Hr; [by exists []|]. destruct (Hr row ltac:(left)) as [ev Hev].
  destruct IH as [evs Hevs]; [intros r ?; apply Hr; by right|]. exists (ev :: evs). cbn. by rewrite Hev; cbn; rewrite Hevs.
Qed.

Lemma tick_works now s : working s → readable (ob_rows s) → NoDup (ro_id <$> ob_rows s) →
  ∃ evs n, toDomains (take 50 (pending (ob_rows s))) = Ok evs ∧
  run (outbox_handle fault) LedgerOutboxRelayService.relayPendingEvents now s
  = (mkOutbox (publish_all now (ro_id <$> take 50 (pending (ob_rows s))) (ob_rows s)) (ob_emitted s ++ evs) (n + ob_calls s), Ok tt).
Proof.
  intros Hw Hr Hn. destruct (readable_all (take 50 (pending (ob_rows s)))) as [evs Hevs].
  { intros row (i & Hi%list_elem_of_lookup_2 & _)%elem_of_take. apply Hr. apply orderBy_elem, list_elem_of_filter in Hi. by destruct Hi. }
  exists evs, (S (2 * length evs)). split; [done|]. unfold LedgerOutboxRelayService.relayPendingEvents.
  destruct s as [rows em n]. cbn [ob_rows ob_emitted ob_calls] in *.
  rewrite (run_ask _ _ _ _ _ (mkOutbox rows em (S n)) (Ok evs)).
  - rewrite relay_each by (intros m Hm; apply Hw; cbn in *; lia). cbn. rewrite (proj1 (toDomains_ids _ _ Hevs)). repeat f_equal. lia.
  - cbn -[findPending]. rewrite (Hw n) by (cbn; lia). cbn -[findPending].
    by rewrite (Hevs : findPending LedgerOutboxRelayService.RELAY_BATCH_SIZE rows = Ok evs).
Qed.
End working.

(** *** Many ticks *)

(** The relay runs at each of the times, alone. *)
Definition relays (fault : nat → Fault) (ticks : list Date) (s : outbox) : outbox :=
  foldl (λ s now, (run (outbox_handle fault) LedgerOutboxRelayService.relayPendingEvents now s).1) s ticks.

Lemma readable_publish now ids rows : readable rows → readable (publish_all now ids rows).
Proof.
  intros Hr row. rewrite publish_all_map. intros (row0 & -> & H0)%list_elem_of_fmap. destruct (Hr row0 H0) as [ev Hev].
  case_decide; [|by exists ev]. destruct row0. unfold published, toDomain in *. cbn in *. apply bind_ok_iff in Hev as (es & -> & Hev). cbn.
  unfold LedgerOutboxEvent.reconstitute, LedgerOutboxEvent.make in *. apply bind_ok_iff in Hev as (u & -> & _). cbn. by eexists.
Qed.

Lemma publish_all_ids now ids rows : ro_id <$> publish_all now ids rows = ro_id <$> rows.
Proof.
  rewrite publish_all_map, <- list_fmap_compose. apply list_fmap_ext. intros _ row _. cbn. case_decide; [by destruct row|done].
Qed.

Lemma pending_unique rows : NoDup (ro_id <$> rows) → NoDup (ro_id <$> pending rows).
Proof.
  intros Hn. unfold pending. unfold oldestFirst. rewrite orderBy_perm. unfold withStatus. revert Hn. induction rows as [|r l IH]; [done|].
  rewrite fmap_cons, NoDup_cons. intros [Hr Hn]. rewrite filter_cons. case_decide; [|by apply IH]. rewrite fmap_cons. apply NoDup_cons. split; [|by apply IH].
  intros (x & Hx & Hin)%list_elem_of_fmap. apply Hr. rewrite Hx. apply list_elem_of_fmap_2. apply list_elem_of_filter in Hin. by destruct Hin.
Qed.

Lemma relays_drain fault ticks s : working fault s → readable (ob_rows s) → NoDup (ro_id <$> ob_rows s) →
  let n := (50 * length ticks)%nat in let s' := relays fault ticks s in
  ∃ evs, toDomains (take n (pending (ob_rows s))) = Ok evs ∧ ob_emitted s' = ob_emitted s ++ evs
  ∧ pending (ob_rows s') = drop n (pending (ob_rows s)) ∧ ro_id <$> ob_rows s' = ro_id <$> ob_rows s
  ∧ ∀ row, row ∈ ob_rows s → row ∈ take n (pending (ob_rows s)) ∨ ro_status row = LedgerOutboxEvent.PUBLISHED →
      ∃ row', row' ∈ ob_rows s' ∧ ro_id row' = ro_id row ∧ ro_status row' = LedgerOutboxEvent.PUBLISHED.
Proof.
  revert s. induction ticks as [|t ticks IH]; intros s Hw Hr Hn; cbn zeta.
  - exists []. cbn. rewrite app_nil_r. split_and!; [done..|]. intros row Hin [Hx|Hx]; [by apply not_elem_of_nil in Hx|by exists row].
  - change (relays fault (t :: ticks) s) with (relays fault ticks (run (outbox_handle fault) LedgerOutboxRelayService.relayPendingEvents t s).1).
    destruct (tick_works fault t s Hw Hr Hn) as (evs & k & Hevs & Hrun). rewrite Hrun. cbn [fst].
    set (s1 := mkOutbox _ _ _). set (pend := pending (ob_rows s)) in *.
    assert (pending (ob_rows s1) = drop 50 pend) as Hp1.
    { subst s1. cbn [ob_rows]. rewrite pending_publish_all. fold pend.
      pose proof (filter_batch (take 50 pend) (drop 50 pend)) as Hb. rewrite take_drop in Hb. apply Hb. by apply pending_unique. }
    destruct (IH s1) as (evs' & Hevs' & Hem & Hpend & Hids & Hpub).
    { intros m Hm. apply Hw. cbn in Hm. lia. }
    { by apply readable_publish. }
    { subst s1. cbn [ob_rows]. by rewrite publish_all_ids. }
    rewrite Hp1 in Hevs', Hpend, Hpub.
    assert (take (50 * length (t :: ticks)) pend = take 50 pend ++ take (50 * length ticks) (drop 50 pend)) as Htake.
    { cbn [length]. rewrite Nat.mul_succ_r, Nat.add_comm. symmetry. apply take_take_drop. }
    exists (evs ++ evs'). split_and!.
    + rewrite Htake. by apply toDomains_app.
    + rewrite Hem. cbn. by rewrite app_assoc.
    + rewrite Hpend, drop_drop. f_equal. cbn [length]. lia.
    + rewrite Hids. subst s1. cbn [ob_rows]. apply publish_all_ids.
    + intros row Hrow Hcase.
      assert (row ∈ take 50 pend ∨ ro_status row = LedgerOutboxEvent.PUBLISHED ∨ row ∈ take (50 * length ticks) (drop 50 pend)) as Hc.
      { destruct Hcase as [Hin|?]; [|auto]. rewrite Htake in Hin. apply elem_of_app in Hin as [?|?]; auto. }
      destruct Hc as [Hin|[Hst|Hin]].
      * destruct (published_stays t (ro_id <$> take 50 pend) (ob_rows s) row Hrow) as (r1 & Hr1 & Hid1 & Hs1); [left; by apply list_elem_of_fmap_2|].
        destruct (Hpub r1 Hr1 ltac:(by right)) as (r2 & ? & ? & ?). exists r2. split_and!; [done|congruence|done].
      * destruct (published_stays t (ro_id <$> take 50 pend) (ob_rows s) row Hrow ltac:(by right)) as (r1 & Hr1 & Hid1 & Hs1).
        destruct (Hpub r1 Hr1 ltac:(by right)) as (r2 & ? & ? & ?). exists r2. split_and!; [done|congruence|done].
      * destruct (Hpub row) as (r2 & ? & ? & ?); [|by left|by exists r2].
        subst s1. cbn [ob_rows]. rewrite publish_all_map. apply list_elem_of_fmap. exists row. split; [|done].
        rewrite decide_False; [done|]. intros (r & Hid & Hrin)%list_elem_of_fmap.
        pose proof (pending_unique _ Hn) as Hu. fold pend in Hu. rewrite <- (take_drop 50 pend), fmap_app, NoDup_app in Hu.
        destruct Hu as (_ & Hd & _). apply (Hd (ro_id row)); [rewrite Hid; by apply list_elem_of_fmap_2|].
        apply list_elem_of_fmap_2. apply elem_of_take in Hin as (i & Hi & _). by apply list_elem_of_lookup_2 in Hi.
Qed.

(** *** Recovery *)

Definition reset (row : LedgerOutboxEntity) : LedgerOutboxEntity :=
  if decide (ro_status row = LedgerOutboxEvent.FAILED) then row {{ ro_status := LedgerOutboxEvent.PENDING; ro_lastError := None }} else row.

Lemma reset_fields row : ro_id (reset row) = ro_id row ∧ ro_paymentId (reset row) = ro_paymentId row ∧ ro_eventType (reset row) = ro_eventType row
  ∧ ro_entries (reset row) = ro_entries row ∧ reset (reset row) = reset row.
Proof. destruct row as [? ? ? ? []]; done. Qed.

(** An operator retries the events, one after the other. *)
Definition retries (fault : nat → Fault) (now : Date) (ids : list string) (s : outbox) : outbox :=
  foldl (λ s id, (run (outbox_handle fault) (OutboxRecoveryService.retry id) now s).1) s ids.

Lemma resetToPending_rows id rows : (resetToPending id rows).1 = (λ row, if String.eqb (ro_id row) id then reset row else row) <$> rows.
Proof.
  cbn. apply list_fmap_ext. intros _ row _. unfold reset. destruct (String.eqb (ro_id row) id); cbn; [|done].
  case_bool_decide; case_decide; done.
Qed.

Lemma find_readable id rows : readable rows → ∃ r, findById id rows = Ok r ∧ (r = None → findRow id rows = None).
Proof.
  intros Hr. unfold findById, findRow. destruct (List.find _ rows) as [row|] eqn:E; [|by exists None].
  apply List.find_some in E as [Hin _]. destruct (Hr row) as [ev Hev]; [by apply list_elem_of_In|]. exists (Some ev). by rewrite Hev.
Qed.

Lemma missing_row id rows : findRow id rows = None → (λ row, if String.eqb (ro_id row) id then reset row else row) <$> rows = rows.
Proof.
  unfold findRow. intros Hf. rewrite <- (list_fmap_id rows) at 2. apply list_fmap_ext. intros i row Hi.
  assert (String.eqb (ro_id row) id = false) as -> by (apply (List.find_none _ _ Hf), list_elem_of_In; by eapply list_elem_of_lookup_2). done.
Qed.

Lemma retry_works fault id now s : working fault s → readable (ob_rows s) →
  let s' := (run (outbox_handle fault) (OutboxRecoveryService.retry id) now s).1 in
  ob_rows s' = ((λ row, if String.eqb (ro_id row) id then reset row else row) <$> ob_rows s)
  ∧ ob_emitted s' = ob_emitted s ∧ (ob_calls s ≤ ob_calls s')%nat.
Proof.
  intros Hw Hr. destruct s as [rows em n]. cbn [ob_rows ob_emitted ob_calls] in *. cbn zeta.
  destruct (find_readable id rows Hr) as (r & Hf & Hnone). unfold OutboxRecoveryService.retry.
  rewrite (run_ask _ _ _ _ _ (mkOutbox rows em (S n)) (Ok r));
    [|cbn -[findById]; rewrite (Hw n) by (cbn; lia); cbn -[findById]; by rewrite Hf].
  destruct r as [ev|]; [|cbn; split_and!; [by rewrite missing_row by auto|done|lia]].
  rewrite (run_ask _ _ _ _ _ (mkOutbox (resetToPending id rows).1 em (S (S n))) (Ok (resetToPending id rows).2));
    [|cbn -[resetToPending]; by rewrite (Hw (S n)) by (cbn; lia)].
  rewrite resetToPending_rows. destruct (resetToPending id rows).2; cbn; split_and!; (done || lia).
Qed.

Lemma readable_reset id rows : readable rows → readable ((λ row, if String.eqb (ro_id row) id then reset row else row) <$> rows).
Proof.
  intros Hr row (row0 & -> & H0)%list_elem_of_fmap. destruct (Hr row0 H0) as [ev Hev]. case_match; [|by exists ev].
  unfold reset. case_decide; [|by exists ev]. destruct row0. unfold toDomain in *. cbn in *. apply bind_ok_iff in Hev as (es & -> & Hev). cbn.
  unfold LedgerOutboxEvent.reconstitute, LedgerOutboxEvent.make in *. apply bind_ok_iff in Hev as (u & -> & _). cbn. by eexists.
Qed.

Lemma retries_work fault now ids s : working fault s → readable (ob_rows s) →
  let s' := retries fault now ids s in
  ob_rows s' = ((λ row, if decide (ro_id row ∈ ids) then reset row else row) <$> ob_rows s)
  ∧ ob_emitted s' = ob_emitted s ∧ working fault s' ∧ readable (ob_rows s').
Proof.
  revert s. induction ids as [|id ids IH]; intros s Hw Hr; cbn zeta.
  - cbn. split_and!; [|done..]. rewrite <- (list_fmap_id (ob_rows s)) at 1. apply list_fmap_ext. intros _ row _.
    by rewrite decide_False by apply not_elem_of_nil.
  - change (retries fault now (id :: ids) s) with (retries fault now ids (run (outbox_handle fault) (OutboxRecoveryService.retry id) now s).1).
    destruct (retry_works fault id now s Hw Hr) as (Hrows & Hem & Hcalls). cbn zeta in *.
    set (s1 := (run _ _ _ s).1) in *. destruct (IH s1) as (Hrows' & Hem' & Hw' & Hr').
    { intros m Hm. apply Hw. lia. }
    { rewrite Hrows. by apply readable_reset. }
    split_and!; [|congruence|done|done]. rewrite Hrows', Hrows, <- list_fmap_compose. apply list_fmap_ext. intros _ row _. cbn.
    destruct (reset_fields row) as (Hi & _ & _ & _ & Hrr). destruct (String.eqb_spec (ro_id row) id) as [Heq|Hne].
    + rewrite Hi, Hrr, (decide_True (P := ro_id row ∈ id :: ids)) by (rewrite Heq; left). by case_decide.
    + repeat case_decide; try done; set_solver.
Qed.

Lemma sorted_ages l : StronglySorted (λ r r', older r r' = true) l → StronglySorted Z.le (ro_createdAt <$> l).
Proof.
  induction l as [|r l IH]; intros Hs; [constructor|]. apply StronglySorted_inv in Hs as [Hs Hr]. cbn. constructor; [by apply IH|].
  apply List.Forall_map. eapply List.Forall_impl; [|exact Hr]. intros r'. apply Z.leb_le.
Qed.

(** The rows of a list without repetitions are determined by their identifiers. *)
Lemma unique_row rows r r' : NoDup (ro_id <$> rows) → r ∈ rows → r' ∈ rows → ro_id r = ro_id r' → r = r'.
Proof. apply keyed_unique. Qed.

Lemma withStatus_reset rows :
  ro_id <$> withStatus LedgerOutboxEvent.PENDING (reset <$> rows)
  = ro_id <$> filter (λ row, ro_status row ≠ LedgerOutboxEvent.PUBLISHED) rows.
Proof.
  unfold withStatus. induction rows as [|row rows IH]; [done|]. cbn [fmap list_fmap]. rewrite !filter_cons.
  destruct (reset_fields row) as (Hi & _).
  assert (ro_status (reset row) = LedgerOutboxEvent.PENDING ↔ ro_status row ≠ LedgerOutboxEvent.PUBLISHED) as Hs.
  { destruct row as [? ? ? ? []]; cbn; done. }
  case_decide; case_decide; try (exfalso; tauto); rewrite ?fmap_cons, ?Hi, IH; done.
Qed.

(** C22: nothing stays in the outbox. From any state that bookings, relays and retries
    reach, with whatever failures: once the calls work, an operator who retries the
    FAILED events, followed by a tick for every fifty rows, leaves every row
    PUBLISHED; the listeners receive every event that was not, exactly once more,
    oldest first. *)
Theorem outbox_drains fault t0 requests c now ticks :
  (∀ ev, BOOK ev ∈ requests → valid_event ev) →
  (∀ ev1 ev2, BOOK ev1 ∈ requests → BOOK ev2 ∈ requests → LedgerOutboxEvent.id ev1 = LedgerOutboxEvent.id ev2 → ev1 = ev2) →
  rtc (interleave (outbox_handle fault)) (mkConfig t0 (mkOutbox [] [] 0) (serve_outbox <$> requests)) c →
  (∀ n, (ob_calls (memory c) ≤ n)%nat → fault n = Works) →
  (length (ob_rows (memory c)) ≤ 50 * length ticks)%nat →
  let failed := ro_id <$> withStatus LedgerOutboxEvent.FAILED (ob_rows (memory c)) in
  let s := relays fault ticks (retries fault now failed (memory c)) in
  (∀ row, row ∈ ob_rows s → ro_status row = LedgerOutboxEvent.PUBLISHED)
  ∧ ∃ evs, ob_emitted s = ob_emitted (memory c) ++ evs
      ∧ LedgerOutboxEvent.id <$> evs ≡ₚ ro_id <$> filter (λ row, ro_status row ≠ LedgerOutboxEvent.PUBLISHED) (ob_rows (memory c))
      ∧ StronglySorted Z.le (LedgerOutboxEvent.createdAt <$> evs).
Proof.
  intros Hv Hu Hrun Hw Hlen failed s.
  destruct (outbox_reached _ _ _ _ Hv Hu Hrun) as [[Hn Hr _ _] _].
  assert (readable (ob_rows (memory c))) as Hread.
  { intros row Hrow. pose proof (Hr row Hrow) as Hb. unfold booked_row in Hb. destruct (bookings requests _) as [[[pid ty] l]|]; [|done].
    destruct Hb as (_ & _ & ? & ? & ?). eexists. by apply (toDomain_row row l). }
  destruct (retries_work fault now failed (memory c) Hw Hread) as (Hrows & Hem & Hw1 & Hr1).
  set (s1 := retries fault now failed (memory c)) in *.
  assert (ob_rows s1 = reset <$> ob_rows (memory c)) as Hrows1.
  { rewrite Hrows. apply list_fmap_ext. intros i row Hi%list_elem_of_lookup_2. case_decide as Hin; [done|]. unfold reset.
    rewrite decide_False; [done|]. intros Hf. apply Hin. apply list_elem_of_fmap_2, list_elem_of_filter. done. }
  assert (ro_id <$> ob_rows s1 = ro_id <$> ob_rows (memory c)) as Hids1.
  { rewrite Hrows1, <- list_fmap_compose. apply list_fmap_ext. intros _ row _. apply reset_fields. }
  destruct (relays_drain fault ticks s1 Hw1 Hr1) as (evs & Hevs & Hem' & Hpend & Hids & Hpub); [by rewrite Hids1|].
  fold s in Hem', Hpend, Hids, Hpub.
  assert (length (pending (ob_rows s1)) ≤ 50 * length ticks)%nat as Hle.
  { unfold pending. unfold oldestFirst. rewrite orderBy_perm. etrans; [apply length_filter|]. by rewrite Hrows1, length_fmap. }
  rewrite take_ge in Hevs by done. split.
  - intros row Hrow.
    assert (ro_id row ∈ ro_id <$> ob_rows s1) as (r1 & Hid & Hr1in)%list_elem_of_fmap by (rewrite <- Hids; by apply list_elem_of_fmap_2).
    destruct (Hpub r1 Hr1in) as (r2 & Hr2 & Hid2 & Hs2).
    { rewrite take_ge by done. destruct (ro_status r1) eqn:Es; [left|by right|exfalso].
      - apply orderBy_elem, list_elem_of_filter. done.
      - rewrite Hrows1 in Hr1in. apply list_elem_of_fmap in Hr1in as (r0 & -> & _). unfold reset in Es. case_decide; [by destruct r0|done]. }
    assert (row = r2) as -> by (apply (unique_row (ob_rows s)); [by rewrite Hids, Hids1|done|done|congruence]). done.
  - exists evs. destruct (toDomains_ids _ _ Hevs) as [Hi Ha]. split_and!; [by rewrite Hem', Hem|..].
    + rewrite Hi. unfold pending. unfold oldestFirst. rewrite orderBy_perm, Hrows1. by rewrite withStatus_reset.
    + rewrite Ha. apply sorted_ages, orderBy_ordered; [apply older_total|apply older_trans].
Qed.

(** ** How an event is published twice *)

(** The relay of another replica reads the same batch before the first one has marked
    it: with every call working, the listeners receive each of its events twice. *)
Theorem replicas_publish_twice fault now s evs :
  working fault s → readable (ob_rows s) → NoDup (ro_id <$> ob_rows s) → toDomains (take 50 (pending (ob_rows s))) = Ok evs →
  ∃ c, rtc (interleave (outbox_handle fault)) (mkConfig now s (serve_outbox <$> [RELAY; RELAY])) c
    ∧ pool c = [Ret tt; Ret tt] ∧ ob_emitted (memory c) = ob_emitted s ++ evs ++ evs.
Proof.
  intros Hw Hr Hn Hevs. destruct s as [rows em n]. cbn [ob_rows ob_emitted] in *. set (p := LedgerOutboxRelayService.relayPendingEvents).
  set (s1 := mkOutbox rows em (S n)). assert (working fault s1) as Hw1 by (intros m Hm; apply Hw; cbn in *; lia).
  assert (run (outbox_handle fault) (ask (FIND_PENDING 50)) now (mkOutbox rows em n) = (s1, Ok evs)) as Hq.
  { unfold ask. rewrite run_bind_prog, run_call. cbn -[findPending]. rewrite (Hw n) by (cbn; lia). cbn -[findPending].
    by rewrite (Hevs : findPending 50 rows = Ok evs). }
  pose proof (prefix_interleaves (outbox_handle fault) (ask (FIND_PENDING 50)) (for_each LedgerOutboxRelayService.relayOne) now
    (mkOutbox rows em n) s1 evs [p; p] 0 eq_refl Hq) as H0. cbn [insert list_insert] in H0.
  destruct (tick_works fault now s1 Hw1 Hr Hn) as (evs' & k & Hevs' & Htick).
  cbn [ob_rows s1] in Hevs'. rewrite Hevs in Hevs'. injection Hevs' as <-. fold p in Htick.
  pose proof (run_interleaves (outbox_handle fault) p now s1 [for_each LedgerOutboxRelayService.relayOne evs; p] 1 eq_refl) as H1.
  rewrite Htick in H1. cbn in H1. set (s2 := mkOutbox _ _ _) in H1.
  assert (working fault s2) as Hw2 by (intros m Hm; apply Hw1; cbn in *; lia).
  pose proof (run_interleaves (outbox_handle fault) (for_each LedgerOutboxRelayService.relayOne evs) now s2
    [for_each LedgerOutboxRelayService.relayOne evs; Ret tt] 0 eq_refl) as H2.
  rewrite relay_each in H2 by done. cbn in H2.
  eexists. split; [etrans; [exact H0|]; etrans; [exact H1|exact H2]|]. split; [done|]. cbn. by rewrite app_assoc.
Qed.

(** ** Witnesses *)

Definition sample_entries : list LedgerEntry :=
  [mkLedgerEntry "PSP" PSP_SETTLEMENT DEBIT (usd 500) []; mkLedgerEntry "m_1" MERCHANT CREDIT (usd 500) []].
Definition sample_event (id : string) : Ev := LedgerOutboxEvent.mk id "p_1" "CHARGE" sample_entries LedgerOutboxEvent.PENDING 0 None 0 None.
Definition sample_outbox_requests : list outbox_request := [BOOK (sample_event "e_1"); BOOK (sample_event "e_2"); RELAY].

Lemma sample_event_valid id : valid_event (sample_event id).
Proof.
  split; [done|repeat constructor; by apply usd_wf|]. apply balanced_net. intros code. cbn [sample_event LedgerOutboxEvent.entries]. unfold sample_entries.
  net_solve.
Qed.

(** The mark of the first event fails after it went out; the mark of [FAILED] works. *)
Definition sample_fault (n : nat) : Fault := if (n =? 4)%nat then Refused else Works.

Definition sample_drained : outbox * list (O unit) := run_all (outbox_handle sample_fault) (serve_outbox <$> sample_outbox_requests) 0 (mkOutbox [] [] 0).

Lemma sample_outbox_reached :
  rtc (interleave (outbox_handle sample_fault)) (mkConfig 0 (mkOutbox [] [] 0) (serve_outbox <$> sample_outbox_requests))
    (mkConfig 0 sample_drained.1 sample_drained.2).
Proof. apply (run_all_interleaves (outbox_handle sample_fault) []). Qed.

Lemma sample_outbox_valid : (∀ ev, BOOK ev ∈ sample_outbox_requests → valid_event ev)
  ∧ ∀ ev1 ev2, BOOK ev1 ∈ sample_outbox_requests → BOOK ev2 ∈ sample_outbox_requests → LedgerOutboxEvent.id ev1 = LedgerOutboxEvent.id ev2 → ev1 = ev2.
Proof.
  assert (∀ ev, BOOK ev ∈ sample_outbox_requests → ev = sample_event "e_1" ∨ ev = sample_event "e_2") as Hcase.
  { intros ev [[= ->]|[[= ->]|[H|H%not_elem_of_nil]%elem_of_cons]%elem_of_cons]%elem_of_cons; auto; done. }
  split; [intros ev [-> | ->]%Hcase; apply sample_event_valid|]. intros ev1 ev2 [-> | ->]%Hcase [-> | ->]%Hcase; done.
Qed.

Lemma outbox_faithful_witness :
  let s := sample_drained.1 in
  (ro_status <$> ob_rows s = [LedgerOutboxEvent.FAILED; LedgerOutboxEvent.PUBLISHED])
  ∧ ∀ row, row ∈ ob_rows s → ro_status row = LedgerOutboxEvent.PUBLISHED → sent (ro_id row) (ob_emitted s).
Proof.
  destruct (outbox_faithful sample_fault 0 sample_outbox_requests (mkConfig 0 sample_drained.1 sample_drained.2)) as (H & _ & _).
  - exact (proj1 sample_outbox_valid).
  - exact (proj2 sample_outbox_valid).
  - exact sample_outbox_reached.
  - split; [vm_compute; reflexivity|exact H].
Defined.

(** The first event went out before its mark failed: it is received twice. *)
Lemma outbox_drains_witness :
  let s := relays sample_fault [10] (retries sample_fault 5 ["e_1"%string] sample_drained.1) in
  (∀ row, row ∈ ob_rows s → ro_status row = LedgerOutboxEvent.PUBLISHED)
  ∧ LedgerOutboxEvent.id <$> ob_emitted s = ["e_1"; "e_2"; "e_1"]%string.
Proof.
  destruct (outbox_drains sample_fault 0 sample_outbox_requests (mkConfig 0 sample_drained.1 sample_drained.2) 5 [10]) as [H _].
  - exact (proj1 sample_outbox_valid).
  - exact (proj2 sample_outbox_valid).
  - exact sample_outbox_reached.
  - intros n Hn. assert (9 ≤ n)%nat as H9 by (revert Hn; vm_compute; lia). unfold sample_fault. by destruct (Nat.eqb_spec n 4); [lia|].
  - vm_compute. lia.
  - split; [exact H|vm_compute; reflexivity].
Defined.
