(* ===== verification/Sanctions.v ===== *)
(** * Sanctions screening

    [sanctions/jaro-winkler.ts], [sanctions/sanctions-list-refresh.service.ts],
    [sanctions/sanctions-list.store.ts] and [ofac-sdn-sanctions.adapter.ts]: names,
    their similarity, the list and the decision. Scores are binary64 numbers; names
    are ASCII, with the case mapping and the white space of ASCII. *)

From S2P Require Import Prelude JsNumber Money.

(** ** Names *)

(** [\[^A-Z0-9\s\]] becomes a space. *)
Definition nameChar (c : ascii) : ascii :=
  let n := N_of_ascii c in
  if ((65 <=? n)%N && (n <=? 90)%N) || ((48 <=? n)%N && (n <=? 57)%N) || Str.is_space c then c else " "%char.

Fixpoint mapChars (f : ascii → ascii) (s : string) : string :=
  match s with EmptyString => EmptyString | String c s => String (f c) (mapChars f s) end.

(** [.replace(/\s+/g, ' ')]; [inRun] after a white space. *)
Fixpoint collapse (inRun : bool) (s : string) : string :=
  match s with
  | EmptyString => EmptyString
  | String c s =>
      if Str.is_space c then if inRun then collapse true s else String " " (collapse true s)
      else String c (collapse false s)
  end.

Definition normalizeName (name : string) : string := Str.trim (collapse false (mapChars nameChar (Str.toUpperCase name))).

(** ** Jaro-Winkler similarity *)

Section jaro.
Abbreviation chars := (list ascii).

(** The inner loop: the first free position of [b] with the character, among the
    [n] positions from [j]. *)
Fixpoint findMatch (n j : nat) (c : ascii) (b : chars) (bMatches : list bool) : option nat :=
  match n with
  | O => None
  | S n =>
      if nth j bMatches false || negb (bool_decide (b !! j = Some c)) then findMatch n (S j) c b bMatches
      else Some j
  end.

(** The outer loop, from position [i] of [a]: [aMatches], [bMatches] and the count. *)
Fixpoint matchChars (matchDistance i : nat) (a b : chars) (bMatches : list bool) (matches : Z) : list bool * list bool * Z :=
  match a with
  | [] => ([], bMatches, matches)
  | c :: a =>
      let start := (i - matchDistance)%nat in
      let fin := Nat.min (i + matchDistance + 1) (length b) in
      match findMatch (fin - start) start c b bMatches with
      | Some j =>
          let '(aMatches, bMatches, matches) := matchChars matchDistance (S i) a b (<[j := true]> bMatches) (matches + 1) in
          (true :: aMatches, bMatches, matches)
      | None =>
          let '(aMatches, bMatches, matches) := matchChars matchDistance (S i) a b bMatches matches in
          (false :: aMatches, bMatches, matches)
      end
  end.

(** [while (!bMatches\[k\]) k++] over the [n] positions from [k]. Beyond the end every
    element is undefined, so the loop would not end: no answer. *)
Fixpoint skipUnmatched (n k : nat) (bMatches : list bool) : option nat :=
  match n with
  | O => None
  | S n => if nth k bMatches false then Some k else skipUnmatched n (S k) bMatches
  end.

Fixpoint countTranspositions (a : chars) (aMatches : list bool) (b : chars) (bMatches : list bool) (k : nat) (transpositions : Z)
    : option Z :=
  match a, aMatches with
  | c :: a, matched :: aMatches =>
      if matched : bool then
        k ← skipUnmatched (length bMatches - k) k bMatches;
        countTranspositions a aMatches b bMatches (S k)
          (if bool_decide (b !! k = Some c) then transpositions else transpositions + 1)
      else countTranspositions a aMatches b bMatches k transpositions
  | _, _ => Some transpositions
  end.

Definition num (n : nat) : number := Num.of_bigint (Z.of_nat n).

Definition jaroScore (matches transpositions : Z) (la lb : nat) : number :=
  let m := Num.of_bigint matches in
  Num.div
    (Num.add (Num.add (Num.div m (num la)) (Num.div m (num lb)))
       (Num.div (Num.sub m (Num.div (Num.of_bigint transpositions) (Num.of_bigint 2))) m))
    (Num.of_bigint 3).

(** [None] when the function does not return. *)
Definition jaro (a b : chars) : option number :=
  if bool_decide (a = b) then Some (Num.of_bigint 1)
  else if (length a =? 0)%nat || (length b =? 0)%nat then Some (Num.of_bigint 0)
  else
    let matchDistance := (Nat.div (Nat.max (length a) (length b)) 2 - 1)%nat in
    let '(aMatches, bMatches, matches) := matchChars matchDistance 0 a b (replicate (length b) false) 0 in
    if matches =? 0 then Some (Num.of_bigint 0)
    else
      transpositions ← countTranspositions a aMatches b bMatches 0 0;
      Some (jaroScore matches transpositions (length a) (length b)).

(** The length of the common prefix, at most [n]. *)
Fixpoint commonPrefix (n : nat) (a b : chars) : Z :=
  match n, a, b with
  | S n, c :: a, d :: b => if bool_decide (c = d) then 1 + commonPrefix n a b else 0
  | _, _, _ => 0
  end.

Definition prefixScale : number := Num.lit 1 10.
Definition maxPrefix : nat := 4.
End jaro.

Definition jaroSimilarity (a b : string) : option number := jaro (String.list_ascii_of_string a) (String.list_ascii_of_string b).

Definition jaroWinklerSimilarity (a b : string) : option number :=
  jaro ← jaroSimilarity a b;
  let prefixLength := commonPrefix maxPrefix (String.list_ascii_of_string a) (String.list_ascii_of_string b) in
  Some (Num.add jaro (Num.mul (Num.mul (Num.of_bigint prefixLength) prefixScale) (Num.sub (Num.of_bigint 1) jaro))).

(** ** The list *)

Record SanctionsListEntry := mkSanctionsListEntry { normalizedName : string; displayName : string }.

Definition entryOf (name : string) : SanctionsListEntry := mkSanctionsListEntry (normalizeName name) name.

Definition BUNDLED_SDN_SNAPSHOT : list SanctionsListEntry :=
  entryOf <$> ["USAMA BIN LADIN"; "SADDAM HUSSEIN AL-TIKRITI"; "SLOBODAN MILOSEVIC"]%string.

Module SanctionsListStore.
Record t := mk { entries : list SanctionsListEntry; lastRefreshedAt : option Date }.
Definition init : t := mk BUNDLED_SDN_SNAPSHOT None.
Definition setEntries (now : Date) (l : list SanctionsListEntry) (_ : t) : t := mk l (Some now).
End SanctionsListStore.

Definition SDN_NAME_COLUMN_INDEX : nat := 1.
Definition quote : ascii := ascii_of_nat 34.
Definition newline : ascii := ascii_of_nat 10.

Definition snoc (s : string) (c : ascii) : string := s +:+ String c EmptyString.

Fixpoint splitFields (current : string) (inQuotes : bool) (line : string) : list string :=
  match line with
  | EmptyString => [Str.trim current]
  | String c line =>
      if bool_decide (c = quote) then splitFields current (negb inQuotes) line
      else if bool_decide (c = ","%char) && negb inQuotes then Str.trim current :: splitFields "" inQuotes line
      else splitFields (snoc current c) inQuotes line
  end.

Definition splitCsvRow (line : string) : list string := splitFields "" false line.

(** [csv.split('\n')] *)
Fixpoint splitLines (current : string) (csv : string) : list string :=
  match csv with
  | EmptyString => [current]
  | String c csv => if bool_decide (c = newline) then current :: splitLines "" csv else splitLines (snoc current c) csv
  end.

Definition parseLine (line : string) : option SanctionsListEntry :=
  if bool_decide (Str.trim line = ""%string) then None
  else
    match splitCsvRow line !! SDN_NAME_COLUMN_INDEX with
    | Some name => if bool_decide (name = ""%string) || bool_decide (name = "-0-"%string) then None else Some (entryOf name)
    | None => None
    end.

Definition parseSdnCsv (csv : string) : list SanctionsListEntry := omap parseLine (splitLines "" csv).

(** [response]: what the fetch answers, an error or a body; [None] when no source is
    configured. The number of entries when the list was replaced. *)
Definition refresh (now : Date) (response : option (result string)) (store : SanctionsListStore.t) : SanctionsListStore.t * option nat :=
  match response with
  | Some (Ok csv) =>
      let entries := parseSdnCsv csv in
      if (length entries =? 0)%nat then (store, None)
      else (SanctionsListStore.setEntries now entries store, Some (length entries))
  | _ => (store, None)
  end.

(** ** Screening *)

Inductive SanctionsScreeningStatus := CLEAR | POTENTIAL_MATCH | HIT.

#[global] Instance SanctionsScreeningStatus_eq_dec : EqDecision SanctionsScreeningStatus.
Proof. solve_decision. Defined.

Record SanctionsScreeningResult := mkSanctionsScreeningResult {
  sr_status : SanctionsScreeningStatus;
  sr_matchedListEntry : option string;
  sr_score : option number }.

Definition DEFAULT_MATCH_THRESHOLD : number := Num.lit 92 100.

Module OfacSdnSanctionsAdapter.

(** The best entry so far and its score. *)
Fixpoint bestMatch (normalized : string) (best : option (SanctionsListEntry * number)) (l : list SanctionsListEntry)
    : option (option (SanctionsListEntry * number)) :=
  match l with
  | [] => Some best
  | entry :: l =>
      score ← (if bool_decide (normalizedName entry = normalized) then Some (Num.of_bigint 1)
               else jaroWinklerSimilarity normalized (normalizedName entry));
      let best :=
        match best with
        | Some (_, s) => if Num.gtb score s then Some (entry, score) else best
        | None => Some (entry, score)
        end in
      bestMatch normalized best l
  end.

(** [None] when the search does not return. *)
Definition screen (matchThreshold : number) (entries : list SanctionsListEntry) (name : string) : option SanctionsScreeningResult :=
  best ← bestMatch (normalizeName name) None entries;
  Some match best with
       | None => mkSanctionsScreeningResult CLEAR None None
       | Some (entry, score) =>
           if Num.ltb score matchThreshold then mkSanctionsScreeningResult CLEAR None None
           else mkSanctionsScreeningResult (if bool_decide (score = Num.of_bigint 1) then HIT else POTENTIAL_MATCH)
                  (Some (displayName entry)) (Some score)
       end.

End OfacSdnSanctionsAdapter.
