(* ===== verification/SanctionsCorrect.v ===== *)
(** * Sanctions screening: who is stopped

    The similarity always returns, lies between zero and one, and is one for equal
    names only, in binary64; so a name is a HIT exactly when it is on the list. *)

From S2P Require Import Prelude JsNumber Money Sanctions.

(** ** The loops *)

Definition count (l : list bool) : nat := length (filter (λ x : bool, x = true) l).

Lemma count_cons x l : count (x :: l) = ((if x then 1 else 0) + count l)%nat.
Proof. unfold count. rewrite filter_cons. destruct x; case_decide; done. Qed.

Lemma count_insert j l : l !! j = Some false → count (<[j := true]> l) = S (count l).
Proof.
  revert j. induction l as [|x l IH]; intros [|j] Hj; [done..| |].
  - injection Hj as ->. change (count (true :: l) = S (count (false :: l))). by rewrite !count_cons.
  - change (count (x :: <[j := true]> l) = S (count (x :: l))). rewrite !count_cons, (IH j Hj). lia.
Qed.

Lemma count_le l : (count l ≤ length l)%nat.
Proof. apply length_filter. Qed.

Lemma count_replicate n : count (replicate n false) = 0%nat.
Proof. induction n; [done|]. cbn [replicate]. by rewrite count_cons. Qed.

Lemma count_full l : count l = length l → l = replicate (length l) true.
Proof.
  induction l as [|x l IH]; [done|]. rewrite count_cons. pose proof (count_le l). destruct x; cbn in *; [|lia].
  intros [= Hc]. by rewrite <- IH.
Qed.

Lemma findMatch_some n j c b bm k : findMatch n j c b bm = Some k →
  (j ≤ k < j + n)%nat ∧ nth k bm false = false ∧ b !! k = Some c.
Proof.
  revert j. induction n as [|n IH]; intros j; cbn; [done|].
  destruct (nth j bm false) eqn:Hm; cbn; [intros (? & ?)%IH; split; [lia|done]|].
  case_bool_decide as Hc; cbn; [|intros (? & ?)%IH; split; [lia|done]]. intros [= <-]. split; [lia|done].
Qed.

(** The matches of both strings are equally many, and counted. *)
Lemma matchChars_spec md i a b bm m : length bm = length b →
  let '(am', bm', m') := matchChars md i a b bm m in
  length am' = length a ∧ length bm' = length b ∧ count bm' = (count am' + count bm)%nat ∧ m' = m + Z.of_nat (count am').
Proof.
  revert i bm m. induction a as [|c a IH]; intros i bm m Hlen; cbn [matchChars].
  - split_and!; [done|done|done|unfold count; cbn; lia].
  - destruct (findMatch _ _ c b bm) as [j|] eqn:Hf.
    + apply findMatch_some in Hf as (Hj & Hm & Hb). assert (bm !! j = Some false) as Hbm.
      { apply lookup_lt_Some in Hb. destruct (bm !! j) as [x|] eqn:E; [|apply lookup_ge_None in E; lia].
        apply (nth_lookup_Some _ _ false) in E. congruence. }
      specialize (IH (S i) (<[j := true]> bm) (m + 1)). rewrite length_insert in IH. specialize (IH Hlen).
      destruct (matchChars md (S i) a b _ _) as [[am' bm'] m']. destruct IH as (? & ? & Hc & ?). rewrite count_insert in Hc by done.
      rewrite count_cons. split_and!; [cbn; lia|done|lia|lia].
    + specialize (IH (S i) bm m Hlen). destruct (matchChars md (S i) a b _ _) as [[am' bm'] m']. destruct IH as (? & ? & ? & ?).
      rewrite count_cons. split_and!; [cbn; lia|done|lia|lia].
Qed.

(** The characters at the matched positions. *)
Fixpoint matched (l : list ascii) (ms : list bool) : list ascii :=
  match l, ms with c :: l, m :: ms => if m : bool then c :: matched l ms else matched l ms | _, _ => [] end.

Lemma matched_full l : matched l (replicate (length l) true) = l.
Proof. induction l; cbn; congruence. Qed.

Lemma matched_length l ms : length l = length ms → length (matched l ms) = count ms.
Proof.
  revert ms. induction l as [|c l IH]; intros [|m ms] Hlen; try done. rewrite count_cons. cbn in *. destruct m; cbn; rewrite IH; lia.
Qed.

(** From the position [k] on there is a match; the loop finds the first. *)
Lemma skip_spec n k b bm : length b = length bm → (length bm ≤ n + k)%nat → (0 < count (drop k bm))%nat →
  ∃ k' c, skipUnmatched n k bm = Some k' ∧ b !! k' = Some c ∧ matched (drop k b) (drop k bm) = c :: matched (drop (S k') b) (drop (S k') bm)
    ∧ count (drop k bm) = S (count (drop (S k') bm)).
Proof.
  intros Hlen. revert k. induction n as [|n IH]; intros k Hn Hc.
  - rewrite drop_ge in Hc by lia. cbn in Hc. lia.
  - destruct (bm !! k) as [x|] eqn:Ex; [|apply lookup_ge_None in Ex; rewrite drop_ge in Hc by lia; cbn in Hc; lia].
    destruct (lookup_lt_is_Some_2 b k) as [c Hb]; [rewrite Hlen; by eapply lookup_lt_Some|].
    rewrite (drop_S bm x k Ex), (drop_S b c k Hb) in *. rewrite count_cons in *. cbn [skipUnmatched].
    rewrite (nth_lookup_Some _ _ false _ Ex). destruct x.
    + exists k, c. done.
    + destruct (IH (S k)) as (k' & c' & ? & ? & ? & ?); [lia|done|]. exists k', c'. done.
Qed.

(** The loop over the matches ends; without a transposition both strings match in
    the same characters. *)
Lemma transpositions_spec a am b bm k t : length am = length a → length b = length bm → (count am ≤ count (drop k bm))%nat →
  ∃ t', countTranspositions a am b bm k t = Some t' ∧ t ≤ t' ≤ t + Z.of_nat (count am)
    ∧ (t' = t → matched a am = take (count am) (matched (drop k b) (drop k bm))).
Proof.
  intros Hlen Hb. revert am k t Hlen. induction a as [|c a IH]; intros [|m am] k t Hlen Hc; try done; cbn [countTranspositions].
  - exists t. split; [done|]. split; [unfold count; cbn; lia|done].
  - rewrite count_cons in *. destruct m; cbn in Hlen, Hc.
    + destruct (skip_spec (length bm - k) k b bm Hb) as (k' & d & -> & Hk & Hm & Hcnt); [lia|lia|]. cbn [mbind option_bind].
      destruct (IH am (S k') (if bool_decide (b !! k' = Some c) then t else t + 1)) as (t' & Ht & Hr & Heq); [lia|lia|].
      exists t'. split; [done|]. rewrite Hk in *. case_bool_decide as Hcd; [|split; [lia|]; intros ->; lia].
      injection Hcd as ->. split; [lia|]. intros ->. cbn. rewrite Hm. cbn. f_equal. by apply Heq.
    + destruct (IH am k t) as (t' & Ht & Hr & Heq); [lia|done|]. exists t'. split_and!; [done|lia|lia|]. cbn. exact Heq.
Qed.

(** What the two loops establish about different strings. *)
Lemma jaro_loops a b : a ≠ b → a ≠ [] → b ≠ [] →
  let '(am, bm, m) := matchChars (Nat.div (Nat.max (length a) (length b)) 2 - 1) 0 a b (replicate (length b) false) 0 in
  0 ≤ m ≤ Z.of_nat (length a) ∧ m ≤ Z.of_nat (length b) ∧
  ∃ t, countTranspositions a am b bm 0 0 = Some t ∧ 0 ≤ t ≤ m ∧ (m < Z.of_nat (length a) ∨ m < Z.of_nat (length b) ∨ 1 ≤ t).
Proof.
  intros Hne Ha Hb. pose proof (matchChars_spec (Nat.div (Nat.max (length a) (length b)) 2 - 1) 0 a b (replicate (length b) false) 0) as H.
  rewrite length_replicate in H. specialize (H eq_refl). destruct (matchChars _ 0 a b _ 0) as [[am bm] m]. destruct H as (Hla & Hlb & Hc & Hm).
  rewrite count_replicate in Hc. pose proof (count_le am). pose proof (count_le bm).
  destruct (transpositions_spec a am b bm 0 0) as (t & Ht & Hr & Heq); [done|done|rewrite drop_0; lia|].
  split_and!; [lia|lia|lia|]. exists t. split_and!; [done|lia|lia|].
  destruct (decide (m < Z.of_nat (length a))) as [?|Hma]; [by left|]. destruct (decide (m < Z.of_nat (length b))) as [?|Hmb]; [right; by left|].
  right. right. destruct (decide (t = 0)) as [->|?]; [|lia]. exfalso. apply Hne. specialize (Heq eq_refl). rewrite !drop_0 in Heq.
  assert (am = replicate (length a) true) as -> by (rewrite <- Hla; apply count_full; lia).
  assert (bm = replicate (length b) true) as -> by (rewrite <- Hlb; apply count_full; lia).
  rewrite !matched_full, take_ge in Heq; [done|]. lia.
Qed.

(** ** The score in binary64 *)

(** Scores are measured in units of [2^-42]. *)
Definition g : Z := 2 ^ 1032.

Lemma one_g : Num.one = 2 ^ 42 * g.
Proof. unfold Num.one, g. by rewrite <- Z.pow_add_r. Qed.

Lemma g_pos : 0 < g.
Proof. apply Num.pow2_pos. lia. Qed.

Lemma repr_g j : 0 ≤ j ≤ 2 ^ 53 → Num.repr (j * g).
Proof. intros. unfold g. apply Num.repr_of_small; lia. Qed.

(** A number between zero and a bound. *)
Definition atmost (x : number) (k : Z) : Prop := ∃ c, x = Num.Fin c ∧ 0 ≤ c ≤ k.

Lemma mk_atmost n d k : 0 < d → 0 ≤ n → Num.repr k → k ≤ 4 * Num.one → n ≤ k * d → atmost (Num.mk n d) k.
Proof.
  intros Hd Hn Hk Hk4 Hle. pose proof Num.one_pos. rewrite (Num.mk_bounded n d 4) by nia. eexists. split; [reflexivity|].
  split; [apply Num.rnd_pos_nonneg; lia|]. apply Num.rnd_pos_le; done.
Qed.

Lemma atmost_le x j k : j ≤ k → atmost x j → atmost x k.
Proof. intros Hle (c & -> & ?). exists c. split; [done|lia]. Qed.

Lemma add_atmost x y i j : 0 ≤ i → 0 ≤ j → i + j ≤ 2 ^ 44 → atmost x (i * g) → atmost y (j * g) → atmost (Num.add x y) ((i + j) * g).
Proof.
  intros Hi Hj Hij (c & -> & Hc) (d & -> & Hd). pose proof g_pos. cbn [Num.add].
  apply mk_atmost; [lia|lia|apply repr_g; lia|rewrite one_g; nia|lia].
Qed.

(** A quotient of lengths is at most one, and by a unit less when it is proper. *)
Lemma quotient_atmost n d : 0 ≤ n ≤ d → 0 < d ≤ 2 ^ 39 →
  atmost (Num.div (Num.of_bigint n) (Num.of_bigint d)) ((2 ^ 42 - if decide (n < d) then 4 else 0) * g).
Proof.
  intros Hn Hd. pose proof g_pos. rewrite Num.div_of_bigint by lia. unfold Num.lit.
  apply mk_atmost; [lia|rewrite one_g; nia|apply repr_g; case_decide; lia|rewrite one_g; case_decide; nia|].
  rewrite one_g. case_decide; nia.
Qed.

Lemma transposed_atmost m t : 0 < m ≤ 2 ^ 39 → 0 ≤ t ≤ m →
  atmost (Num.div (Num.sub (Num.of_bigint m) (Num.div (Num.of_bigint t) (Num.of_bigint 2))) (Num.of_bigint m))
    ((2 ^ 42 - if decide (1 ≤ t) then 4 else 0) * g).
Proof.
  intros Hm Ht. pose proof g_pos. pose proof Num.one_pos. rewrite Num.div_of_bigint by lia.
  assert (Num.repr ((2 * m - t) * Num.half) ∧ Num.repr (t * Num.half)) as [Hr Hr2].
  { split; unfold Num.half; apply Num.repr_of_small; lia. }
  pose proof Num.half_one as Hh. assert (0 < Num.half) by lia.
  assert (Num.lit t 2 = Num.Fin (t * Num.half)) as ->.
  { unfold Num.lit. rewrite (Num.mk_bounded _ _ m) by nia. f_equal.
    replace (t * Num.one) with (t * Num.half * 2) by lia. apply Num.rnd_pos_exact; [lia|done|nia]. }
  rewrite !Num.of_bigint_small by lia. unfold Num.sub. cbn [Num.opp Num.add].
  replace (m * Num.one + - (t * Num.half)) with ((2 * m - t) * Num.half * 1) by lia.
  rewrite (Num.mk_bounded _ _ m), Num.rnd_pos_exact by (done || nia). cbn [Num.div].
  rewrite (proj2 (Z.eqb_neq _ _)), Z.sgn_pos, Z.mul_1_r, Z.abs_eq by nia.
  assert (Num.half = 2 ^ 41 * g) as Hhg by (pose proof one_g; lia).
  apply mk_atmost; [nia|nia|apply repr_g; case_decide; lia|rewrite one_g; case_decide; nia|].
  rewrite Z.mul_assoc. apply Z.mul_le_mono_nonneg_r; [lia|]. rewrite Hhg. case_decide; nia.
Qed.

Lemma third_atmost x : atmost x ((3 * 2 ^ 42 - 4) * g) → atmost (Num.div x (Num.of_bigint 3)) ((2 ^ 42 - 1) * g).
Proof.
  intros (c & -> & Hc). pose proof g_pos. pose proof Num.one_pos. rewrite Num.of_bigint_small by lia. cbn [Num.div].
  rewrite (proj2 (Z.eqb_neq _ _)), Z.sgn_pos, Z.mul_1_r, Z.abs_eq by nia.
  apply mk_atmost; [lia|nia|apply repr_g; lia|rewrite one_g; nia|].
  rewrite Z.mul_assoc. apply Z.mul_le_mono_nonneg_r; [lia|]. nia.
Qed.

(** The Jaro score of different strings stays below one. *)
Lemma jaroScore_below m t la lb : 0 < m → (Z.of_nat la ≤ 2 ^ 39) → (Z.of_nat lb ≤ 2 ^ 39) → m ≤ Z.of_nat la → m ≤ Z.of_nat lb → 0 ≤ t ≤ m →
  m < Z.of_nat la ∨ m < Z.of_nat lb ∨ 1 ≤ t → atmost (jaroScore m t la lb) ((2 ^ 42 - 1) * g).
Proof.
  intros Hm Hla Hlb Hma Hmb Ht Hcase. pose proof g_pos. unfold jaroScore, num. apply third_atmost.
  pose proof (quotient_atmost m (Z.of_nat la) ltac:(lia) ltac:(lia)) as H1.
  pose proof (quotient_atmost m (Z.of_nat lb) ltac:(lia) ltac:(lia)) as H2.
  pose proof (transposed_atmost m t ltac:(lia) Ht) as H3.
  eapply atmost_le; [|apply add_atmost; [| | |apply add_atmost; [| | |exact H1|exact H2]|exact H3]]; repeat case_decide; nia.
Qed.

(** The boost for a common prefix keeps it there. *)
Lemma commonPrefix_range n a b : 0 ≤ commonPrefix n a b ≤ Z.of_nat n.
Proof.
  revert a b. induction n as [|n IH]; intros [|c a] [|d b]; cbn -[Z.add]; try lia. case_bool_decide; [|lia]. specialize (IH a b). lia.
Qed.

Lemma boost_atmost p : 0 ≤ p ≤ 4 → atmost (Num.mul (Num.of_bigint p) prefixScale) Num.half.
Proof.
  intros Hp. pose proof Num.one_pos. pose proof Num.half_one.
  assert (atmost prefixScale (2 ^ 1071)) as (s & -> & Hs).
  { assert (Num.one = 8 * 2 ^ 1071) as E by exact (Z.pow_add_r 2 3 1071 ltac:(done) ltac:(done)). assert (0 < 2 ^ 1071) by lia.
    apply mk_atmost; [lia|lia| |lia|lia]. rewrite <- (Z.mul_1_l (2 ^ 1071)). apply Num.repr_of_small; lia. }
  assert (Num.half = 4 * 2 ^ 1071) as Eh by exact (Z.pow_add_r 2 2 1071 ltac:(done) ltac:(done)).
  rewrite Num.of_bigint_small by lia. cbn [Num.mul].
  apply mk_atmost; [lia|nia| |lia|]; [rewrite <- (Z.mul_1_l Num.half); unfold Num.half; apply Num.repr_of_small; lia|].
  rewrite Eh. replace (p * Num.one * s) with (p * s * Num.one) by ring. apply Z.mul_le_mono_nonneg_r; nia.
Qed.

Lemma repr_halved y : Num.repr y → 2 ^ 53 < y → ∃ h, y = 2 * h ∧ Num.repr h.
Proof.
  intros (m & s & Hs & Hm & ->) Hy. destruct (decide (s = 0)) as [->|Hne]; [rewrite Z.pow_0_r in Hy; lia|].
  exists (m * 2 ^ (s - 1)). split; [|exists m, (s - 1); split_and!; [lia|done|done]].
  replace s with (1 + (s - 1)) at 1 by lia. rewrite Z.pow_add_r by lia. ring.
Qed.

(** What is left to one, halved. *)
Lemma rest_atmost k : 0 ≤ k ≤ (2 ^ 42 - 1) * g → let d := Num.one - k in
  ∃ h, Num.sub (Num.of_bigint 1) (Num.Fin k) = Num.Fin (2 * h) ∧ Num.repr h ∧ 0 ≤ h ∧ 4 * h ≤ 3 * d.
Proof.
  intros Hk d. pose proof one_g. pose proof g_pos. pose proof Num.one_pos. assert (g ≤ d ≤ Num.one) as Hd by (unfold d; nia).
  rewrite Num.of_bigint_small by lia. unfold Num.sub. cbn [Num.opp Num.add]. replace (1 * Num.one + - k) with d by (unfold d; lia).
  rewrite (Num.mk_bounded d 1 1) by lia. pose proof (Num.rnd_pos_units_error d 1 ltac:(lia) ltac:(lia)) as He. rewrite Z.mul_1_r in He.
  set (y := Num.rnd_pos d 1) in *.
  assert (2 ^ 53 * y ≤ (2 ^ 53 + 1) * d ∧ (2 ^ 53 - 1) * d ≤ 2 ^ 53 * y) as [Hy1 Hy2] by lia.
  assert (2 ^ 54 < g) as Hg by (unfold g; apply Z.pow_lt_mono_r; lia).
  destruct (repr_halved y) as (h & Hh & Hr); [apply Num.repr_rnd_pos; lia|lia|].
  exists h. rewrite Hh. split_and!; [done|done|lia|lia].
Qed.

Lemma winkler_below x p : 0 ≤ p ≤ 4 → atmost x ((2 ^ 42 - 1) * g) →
  ∃ c, Num.add x (Num.mul (Num.mul (Num.of_bigint p) prefixScale) (Num.sub (Num.of_bigint 1) x)) = Num.Fin c ∧ 0 ≤ c < Num.one.
Proof.
  intros Hp (k & -> & Hk). destruct (rest_atmost k Hk) as (h & -> & Hr & Hh0 & Hh). destruct (boost_atmost p Hp) as (c & -> & Hc).
  pose proof one_g. pose proof g_pos. pose proof Num.one_pos. pose proof Num.half_one. cbn [Num.mul].
  destruct (mk_atmost (c * (2 * h)) Num.one h) as (w & -> & Hw); [lia|nia|done|nia|nia|]. cbn [Num.add].
  assert (2 ^ 44 - 1 ≤ 2 ^ 53 ∧ g = 4 * 2 ^ 1030) as [_ Hg4] by (split; [lia|exact (Z.pow_add_r 2 2 1030 ltac:(done) ltac:(done))]).
  destruct (mk_atmost (k + w) 1 ((2 ^ 44 - 1) * 2 ^ 1030)) as (r & -> & Hrr); [lia|lia|apply Num.repr_of_small; lia|nia|nia|].
  exists r. split; [done|]. assert (0 < 2 ^ 1030) by lia. nia.
Qed.

(** Two different strings: the score exists and is below one. *)
Lemma similarity_below a b : a ≠ b → Z.of_nat (String.length a) ≤ 2 ^ 39 → Z.of_nat (String.length b) ≤ 2 ^ 39 →
  ∃ c, jaroWinklerSimilarity a b = Some (Num.Fin c) ∧ 0 ≤ c < Num.one.
Proof.
  intros Hne Ha Hb. unfold jaroWinklerSimilarity, jaroSimilarity. set (la := String.list_ascii_of_string a). set (lb := String.list_ascii_of_string b).
  assert (la ≠ lb) as Hl.
  { intros Heq%(f_equal String.string_of_list_ascii). unfold la, lb in Heq. by rewrite !String.string_of_list_ascii_of_string in Heq. }
  assert (∀ s, length (String.list_ascii_of_string s) = String.length s) as Hlen by (intros s; induction s; cbn; congruence).
  pose proof (commonPrefix_range maxPrefix la lb) as Hp. change (Z.of_nat maxPrefix) with 4 in Hp.
  assert (∃ x, jaro la lb = Some x ∧ atmost x ((2 ^ 42 - 1) * g)) as (x & -> & Hx); [|cbn [mbind option_bind]; destruct (winkler_below x _ Hp Hx) as (c & -> & ?); by exists c].
  pose proof g_pos. assert (atmost (Num.of_bigint 0) ((2 ^ 42 - 1) * g)) as H0 by (exists 0; split; [by rewrite Num.of_bigint_small by lia|lia]).
  unfold jaro. rewrite bool_decide_eq_false_2 by done.
  destruct (Nat.eqb_spec (length la) 0) as [|Hla0]; [by eexists|]. destruct (Nat.eqb_spec (length lb) 0) as [|Hlb0]; [by eexists|]. cbn [orb].
  pose proof (jaro_loops la lb Hl) as Hj. destruct (matchChars _ 0 la lb _ 0) as [[am bm] m].
  destruct Hj as ([Hm Hma] & Hmb & t & Ht & Htr & Hcase); [by intros ->|by intros ->|].
  destruct (Z.eqb_spec m 0); [by eexists|]. rewrite Ht. cbn [mbind option_bind]. eexists. split; [done|].
  apply jaroScore_below; unfold la, lb in *; rewrite ?Hlen in *; lia.
Qed.

Lemma similarity_self a : jaroWinklerSimilarity a a = Some (Num.of_bigint 1).
Proof.
  unfold jaroWinklerSimilarity, jaroSimilarity, jaro. rewrite bool_decide_eq_true_2 by done. cbn [mbind option_bind].
  set (p := commonPrefix _ _ _). assert (0 ≤ p ≤ 4) as Hp by apply commonPrefix_range. destruct (boost_atmost p Hp) as (c & -> & Hc).
  pose proof Num.one_pos. rewrite !Num.of_bigint_small by lia. unfold Num.sub. cbn [Num.opp Num.add].
  rewrite Z.mul_1_l, Z.add_opp_diag_r. assert (Num.mk 0 1 = Num.Fin 0) as -> by done. cbn [Num.mul]. rewrite Z.mul_0_r.
  destruct (mk_atmost 0 Num.one 0) as (w & -> & Hw); [lia|lia|by exists 0, 0|lia|lia|]. assert (w = 0) as -> by lia. cbn [Num.add].
  rewrite Z.add_0_r. rewrite (Num.mk_bounded Num.one 1 1) by lia. by do 2 f_equal.
Qed.

(** ** Screening *)

Definition fits_name (s : string) : Prop := Z.of_nat (String.length s) ≤ 2 ^ 39.

(** Normalising, splitting and trimming do not lengthen. *)
Lemma trim_length s : (String.length (Str.trim s) ≤ String.length s)%nat.
Proof.
  assert (∀ s, String.length (Str.trimStart s) ≤ String.length s)%nat as Ht1 by (clear s; intros s; induction s as [|c s IH]; cbn; [done|]; case_match; cbn; lia).
  assert (∀ s, String.length (Str.trimEnd s) ≤ String.length s)%nat as Ht2.
  { clear s. intros s. induction s as [|c s IH]; cbn; [done|]. destruct (Str.trimEnd s); cbn in *; [case_match; cbn; lia|lia]. }
  unfold Str.trim. etrans; [apply Ht2|apply Ht1].
Qed.

Lemma normalizeName_length name : (String.length (normalizeName name) ≤ String.length name)%nat.
Proof.
  assert (∀ s b, String.length (collapse b s) ≤ String.length s)%nat as Hc.
  { intros s. induction s as [|c s IH]; intros b; cbn; [done|]. destruct (Str.is_space c), b; cbn; [specialize (IH true)..|specialize (IH false)|specialize (IH false)]; lia. }
  assert (∀ s f, String.length (mapChars f s) = String.length s) as Hm by (intros s f; induction s; cbn; congruence).
  assert (∀ s, String.length (Str.toUpperCase s) = String.length s) as Hu by (intros s; induction s; cbn; congruence).
  unfold normalizeName. etrans; [apply trim_length|]. etrans; [apply Hc|]. by rewrite Hm, Hu.
Qed.

Lemma snoc_length s c : String.length (snoc s c) = S (String.length s).
Proof. unfold snoc. rewrite string_length_app. cbn. lia. Qed.

Lemma splitFields_length line current q f : f ∈ splitFields current q line → (String.length f ≤ String.length current + String.length line)%nat.
Proof.
  revert current q. induction line as [|c line IH]; intros current q; cbn.
  - intros ->%list_elem_of_singleton. pose proof (trim_length current). lia.
  - case_bool_decide; [intros ?%IH; lia|]. destruct (_ && _).
    + intros [->|Hin]%elem_of_cons; [pose proof (trim_length current); lia|]. apply IH in Hin. cbn in Hin. lia.
    + intros Hin%IH. rewrite snoc_length in Hin. lia.
Qed.

Lemma splitLines_length csv current l : l ∈ splitLines current csv → (String.length l ≤ String.length current + String.length csv)%nat.
Proof.
  revert current. induction csv as [|c csv IH]; intros current; cbn.
  - intros ->%list_elem_of_singleton. lia.
  - case_bool_decide.
    + intros [->|Hin]%elem_of_cons; [lia|]. apply IH in Hin. cbn in Hin. lia.
    + intros Hin%IH. rewrite snoc_length in Hin. lia.
Qed.

Lemma name_fits name : Z.of_nat (String.length name) ≤ 2 ^ 39 → fits_name (normalizeName name).
Proof. unfold fits_name. pose proof (normalizeName_length name). lia. Qed.

Lemma parsed_fits csv : Z.of_nat (String.length csv) ≤ 2 ^ 39 → Forall (λ e, fits_name (normalizedName e)) (parseSdnCsv csv).
Proof.
  intros Hlen. apply Forall_forall. intros e (line & Hline & He)%list_elem_of_omap. unfold parseLine in He. case_bool_decide; [done|].
  destruct (splitCsvRow line !! _) as [name|] eqn:En; [|done]. destruct (_ || _); [done|]. injection He as <-.
  apply list_elem_of_lookup_2, splitFields_length in En. apply splitLines_length in Hline. cbn in En, Hline. apply name_fits. lia.
Qed.

(** The score the adapter gives to an entry. *)
Definition scores (name : string) (e : SanctionsListEntry) (c : Z) : Prop :=
  jaroWinklerSimilarity name (normalizedName e) = Some (Num.Fin c).

Lemma scores_total name e : fits_name name → fits_name (normalizedName e) →
  ∃ c, scores name e c ∧ 0 ≤ c ≤ Num.one ∧ (c = Num.one ↔ normalizedName e = name)
    ∧ (if bool_decide (normalizedName e = name) then Some (Num.of_bigint 1) else jaroWinklerSimilarity name (normalizedName e)) = Some (Num.Fin c).
Proof.
  intros Hn He. pose proof Num.one_pos. unfold scores. case_bool_decide as Heq.
  - rewrite Heq, similarity_self, Num.of_bigint_small by lia. rewrite Z.mul_1_l. exists Num.one. split_and!; (done || lia).
  - destruct (similarity_below name (normalizedName e)) as (c & -> & Hc); [congruence|done|done|].
    exists c. split_and!; [done|lia|lia|split; [lia|congruence]|done].
Qed.

Lemma scores_unique name e c d : scores name e c → scores name e d → c = d.
Proof. unfold scores. congruence. Qed.

(** The search returns the first entry of the greatest score. *)
Lemma bestMatch_spec name l best : fits_name name → Forall (λ e, fits_name (normalizedName e)) l →
  (∀ e s, best = Some (e, s) → ∃ c, s = Num.Fin c) →
  ∃ best', OfacSdnSanctionsAdapter.bestMatch name best l = Some best'
  ∧ (best' = best ∧ (l ≠ [] → best ≠ None) ∨ ∃ e c, best' = Some (e, Num.Fin c) ∧ e ∈ l ∧ scores name e c)
  ∧ ∀ e' c', best' = Some (e', Num.Fin c') →
      (∀ e s, best = Some (e, Num.Fin s) → s ≤ c') ∧ ∀ e c, e ∈ l → scores name e c → c ≤ c'.
Proof.
  intros Hn. revert best. induction l as [|e l IH]; intros best Hl Hbest; cbn [OfacSdnSanctionsAdapter.bestMatch].
  - exists best. split_and!; [done|by left|]. intros e' c' ->. split; [by intros e s [= -> ->]|]. by intros e c ?%not_elem_of_nil.
  - apply Forall_cons in Hl as [He Hl]. destruct (scores_total name e Hn He) as (c & Hc & _ & _ & ->). cbn [mbind option_bind].
    set (next := match best with Some (_, s) => _ | None => _ end).
    assert (∃ e0 s0, next = Some (e0, Num.Fin s0) ∧ c ≤ s0 ∧ (∀ e1 s1, best = Some (e1, Num.Fin s1) → s1 ≤ s0)
      ∧ (next = best ∨ e0 = e ∧ s0 = c)) as (e0 & s0 & Hnext & Hcs & Hbs & Hor).
    { unfold next. destruct best as [[e1 s1]|]; [|by exists e, c; split_and!; [done|lia|done|right]].
      destruct (Hbest _ _ eq_refl) as (s1' & ->). unfold Num.gtb, Num.ltb. cbn [Num.compare].
      destruct (Z.compare_spec s1' c); [exists e1, s1'|exists e, c|exists e1, s1'];
        split_and!; try done; try lia; try (by intros e2 s2 [= -> ->]); try (intros e2 s2 [= -> ->]; lia); auto. }
    destruct (IH next Hl) as (best' & Hb & Hcase & Hmax); [intros e2 s2 H2; rewrite Hnext in H2; injection H2 as <- <-; by exists s0|].
    exists best'. split; [done|]. split.
    + destruct Hcase as [[-> _]|(e2 & c2 & -> & Hin & Hs)]; [|right; exists e2, c2; split_and!; [done|by right|done]].
      destruct Hor as [Heq|[-> ->]].
      * left. split; [done|]. intros _ Hnone. rewrite Hnone in Heq. congruence.
      * right. exists e, c. split_and!; [done|left|done].
    + intros e' c' He'. destruct (Hmax e' c' He') as [Hm1 Hm2]. specialize (Hm1 _ _ Hnext). split.
      * intros e1 s1 H1. specialize (Hbs _ _ H1). lia.
      * intros e1 c1 [->|Hin]%elem_of_cons Hs1; [rewrite (scores_unique _ _ _ _ Hs1 Hc); lia|by eapply Hm2].
Qed.

(** Every entry has a score; it is one for the entries of that name. *)
Lemma entries_scored name entries e : fits_name name → Forall (λ e, fits_name (normalizedName e)) entries → e ∈ entries →
  ∃ c, scores name e c ∧ 0 ≤ c ≤ Num.one ∧ (c = Num.one ↔ normalizedName e = name).
Proof. intros Hn Hl He. rewrite Forall_forall in Hl. destruct (scores_total name e Hn (Hl e He)) as (c & ? & ? & ? & _). by exists c. Qed.

(** The two outcomes: everything is below the threshold, or the best entry is not. *)
Lemma screen_cases k entries name : fits_name (normalizeName name) → Forall (λ e, fits_name (normalizedName e)) entries →
  OfacSdnSanctionsAdapter.screen (Num.Fin k) entries name = Some (mkSanctionsScreeningResult CLEAR None None)
    ∧ (∀ e c, e ∈ entries → scores (normalizeName name) e c → c < k)
  ∨ ∃ e c, e ∈ entries ∧ scores (normalizeName name) e c ∧ k ≤ c
      ∧ OfacSdnSanctionsAdapter.screen (Num.Fin k) entries name
        = Some (mkSanctionsScreeningResult (if bool_decide (c = Num.one) then HIT else POTENTIAL_MATCH) (Some (displayName e)) (Some (Num.Fin c)))
      ∧ ∀ e' c', e' ∈ entries → scores (normalizeName name) e' c' → c' ≤ c.
Proof.
  intros Hn Hl. pose proof Num.one_pos. unfold OfacSdnSanctionsAdapter.screen.
  destruct (bestMatch_spec (normalizeName name) entries None Hn Hl) as (best & -> & Hcase & Hmax); [done|]. cbn [mbind option_bind].
  destruct Hcase as [[-> Hnil]|(e & c & -> & He & Hc)].
  - left. split; [done|]. intros e c He. exfalso. apply (Hnil (elem_of_not_nil _ _ He)). done.
  - destruct (Hmax e c eq_refl) as [_ Hbest]. unfold Num.ltb. cbn [Num.compare]. rewrite Num.of_bigint_small, Z.mul_1_l by lia.
    assert (bool_decide (Num.Fin c = Num.Fin Num.one) = bool_decide (c = Num.one)) as -> by (apply bool_decide_ext; split; congruence).
    destruct (Z.compare_spec c k) as [->|Hlt|Hgt].
    1, 3: right; exists e; eexists; split_and!; [done|done|lia|done|done].
    left. split; [done|]. intros e' c' He' Hc'. specialize (Hbest _ _ He' Hc'). lia.
Qed.

(** A HIT is a name of the list. *)
Lemma screen_hit k entries name : 0 < k ≤ Num.one → fits_name (normalizeName name) → Forall (λ e, fits_name (normalizedName e)) entries →
  ∃ r, OfacSdnSanctionsAdapter.screen (Num.Fin k) entries name = Some r ∧ (sr_status r = HIT ↔ normalizeName name ∈ normalizedName <$> entries).
Proof.
  intros Hk Hn Hl. destruct (screen_cases k entries name Hn Hl) as [[-> Hall]|(e & c & He & Hc & Hkc & -> & Hmax)]; eexists; (split; [done|]); cbn [sr_status].
  - split; [done|]. intros (e & Heq & He)%list_elem_of_fmap. destruct (entries_scored _ _ e Hn Hl He) as (c & Hc & _ & Hone).
    specialize (Hall e c He Hc). assert (c = Num.one) by by apply Hone. lia.
  - destruct (entries_scored _ _ e Hn Hl He) as (c1 & Hc1 & Hr1 & Hone). rewrite (scores_unique _ _ _ _ Hc1 Hc) in Hr1, Hone.
    rewrite list_elem_of_fmap. case_bool_decide as H1; (split; [try done|]).
    + intros _. exists e. split; [symmetry; by apply Hone|done].
    + done.
    + intros (e' & Heq & He'). destruct (entries_scored _ _ e' Hn Hl He') as (c' & Hc' & _ & Hone'). specialize (Hmax e' c' He' Hc').
      assert (c' = Num.one) by by apply Hone'. lia.
Qed.

(** C23: whatever the list, the screening of a name returns. It is a HIT exactly when
    the normalised name is one of the normalised names of the list, CLEAR exactly
    when every similarity, computed in binary64 as the code does, is below the
    threshold, and otherwise a POTENTIAL_MATCH; the entry it reports has the greatest
    similarity. *)
Theorem screening_exact (k : Z) (entries : list SanctionsListEntry) (name : string) :
  0 < k ≤ Num.one → fits_name (normalizeName name) → Forall (λ e, fits_name (normalizedName e)) entries →
  ∃ r, OfacSdnSanctionsAdapter.screen (Num.Fin k) entries name = Some r
  ∧ (sr_status r = HIT ↔ normalizeName name ∈ normalizedName <$> entries)
  ∧ (sr_status r = CLEAR ↔ ∀ e, e ∈ entries → ∃ c, scores (normalizeName name) e c ∧ 0 ≤ c < k)
  ∧ (sr_status r ≠ CLEAR → ∃ e c, e ∈ entries ∧ scores (normalizeName name) e c ∧ sr_matchedListEntry r = Some (displayName e)
       ∧ sr_score r = Some (Num.Fin c) ∧ ∀ e' c', e' ∈ entries → scores (normalizeName name) e' c' → c' ≤ c).
Proof.
  intros Hk Hn Hl. destruct (screen_hit k entries name Hk Hn Hl) as (r & Hr & Hhit). exists r. split_and!; [done|done|..];
    destruct (screen_cases k entries name Hn Hl) as [[E Hall]|(e & c & He & Hc & Hkc & E & Hmax)]; rewrite Hr in E; injection E as ->; cbn [sr_status].
  - split; [|done]. intros _ e He. destruct (entries_scored _ _ e Hn Hl He) as (c & Hc & ? & _). exists c. split; [done|]. specialize (Hall e c He Hc). lia.
  - split; [by case_bool_decide|]. intros Hall. destruct (Hall e He) as (c' & Hc' & ?). rewrite (scores_unique _ _ _ _ Hc' Hc) in *. lia.
  - done.
  - intros _. by exists e, c.
Qed.

Definition defaultUnits : Z := match DEFAULT_MATCH_THRESHOLD with Num.Fin k => k | _ => 1 end.

Lemma screening_exact_witness :
  ∃ r, OfacSdnSanctionsAdapter.screen (Num.Fin defaultUnits) BUNDLED_SDN_SNAPSHOT "Slobodan  Milosevic" = Some r ∧ sr_status r = HIT.
Proof.
  destruct (screening_exact defaultUnits BUNDLED_SDN_SNAPSHOT "Slobodan  Milosevic") as (r & Hr & Hhit & _).
  - split; vm_compute; done.
  - by vm_compute.
  - repeat constructor; by vm_compute.
  - exists r. split; [done|]. apply Hhit. right. right. left.
Defined.

(** A name without ASCII letters or digits normalises to nothing, and nothing is on
    the list. *)
Lemma unscreenable_name_clear :
  OfacSdnSanctionsAdapter.screen DEFAULT_MATCH_THRESHOLD BUNDLED_SDN_SNAPSHOT "---" = Some (mkSanctionsScreeningResult CLEAR None None).
Proof. by vm_compute. Qed.

(** An apostrophe separates words. *)
Lemma apostrophe_separates : normalizeName "O'Brien, John." = "O BRIEN JOHN"%string ∧ normalizeName "OBRIEN JOHN" = "OBRIEN JOHN"%string.
Proof. by vm_compute. Qed.
