(* ===== verification/Accounts.v ===== *)
(** * Merchant accounts

    [merchant.entity.ts], [merchant.service.ts], [mcc-risk-lookup.ts],
    [persona-inquiry-status.ts], the request bodies of [create-merchant.dto.ts] that
    capture an identity, [sanctions-screening.service.ts],
    [sanctions-notification-dispatcher.service.ts] and
    [sanctions-screening-sweep.service.ts]: how a merchant comes to exist, is
    verified, screened, flagged, suspended and reported. The service is a set of
    programs whose database and provider calls are events, each of which can fail. *)

From stdpp Require Import pretty.
From coqutil Require Datatypes.String.
From S2P Require Import Prelude Rows JsNumber Money Policies Merchant Redis Program Sanctions.

(** ** Rows ([merchant.entity.ts]) *)

(** A property of an entity: [undefined], which [save] skips, or a value or [null]. *)
Inductive field (A : Type) := Undefined | Defined (x : option A).
Arguments Undefined {A}.
Arguments Defined {A} x.

Definition written {A} (old new : field A) : field A := match new with Undefined => old | Defined x => Defined x end.

Inductive IndustryRiskCategory := RISK_LOW | RISK_MEDIUM | RISK_HIGH | RISK_UNKNOWN.

#[global] Instance IndustryRiskCategory_eq_dec : EqDecision IndustryRiskCategory.
Proof. solve_decision. Defined.

Definition MCC_RISK_TABLE : list (string * IndustryRiskCategory) :=
  [("7995", RISK_HIGH); ("7273", RISK_HIGH); ("5967", RISK_HIGH); ("6051", RISK_HIGH); ("4829", RISK_HIGH); ("5933", RISK_HIGH);
   ("7841", RISK_HIGH); ("5816", RISK_HIGH); ("5122", RISK_MEDIUM); ("4411", RISK_MEDIUM); ("4511", RISK_MEDIUM); ("7011", RISK_MEDIUM);
   ("5912", RISK_LOW); ("5411", RISK_LOW); ("5812", RISK_LOW); ("5311", RISK_LOW); ("5651", RISK_LOW); ("8011", RISK_LOW);
   ("8021", RISK_LOW)]%string.

(** The request allows four digits only, so no property is inherited. *)
Definition lookupIndustryRiskCategory (mccCode : option string) : IndustryRiskCategory :=
  match mccCode with
  | Some code => match List.find (λ p, String.eqb (fst p) code) MCC_RISK_TABLE with Some (_, c) => c | None => RISK_UNKNOWN end
  | None => RISK_UNKNOWN
  end.

Inductive NotificationChannel := EMAIL | SLACK | WEBHOOK.

Record Channel := mkChannel { ch_channel : NotificationChannel; ch_target : option string }.

Record Channels := mkChannels {
  cs_dispute : Channel; cs_subscription : Channel; cs_amlReview : Channel; cs_chargebackMonitoring : Channel; cs_sanctions : Channel }.

(** The columns of a flag that is raised automatically or by an operator. *)
Record RiskFlag (T : Type) := mkRiskFlag {
  rf_value : T;
  rf_flaggedAt : field Date;
  rf_reason : field string;
  rf_flaggedBy : field string;
  rf_autoManaged : bool }.
Arguments mkRiskFlag {T} _ _ _ _ _.
Arguments rf_value {T} _.
Arguments rf_flaggedAt {T} _.
Arguments rf_reason {T} _.
Arguments rf_flaggedBy {T} _.
Arguments rf_autoManaged {T} _.

Record Credentials := mkCredentials {
  cr_apiKeyId : string; cr_apiKeySecretHash : string; cr_hmacSecretCiphertext : string; cr_roles : list string }.

Record BeneficialOwner := mkBeneficialOwner { bo_name : string; bo_ownershipPercentage : Z }.

(** The columns of the last KYC or KYB submission. *)
Record Application := mkApplication {
  ap_legalName : option string;
  ap_taxId : option string;
  ap_country : option string;
  ap_beneficialOwners : option (list BeneficialOwner);
  ap_applicationId : option string }.

Inductive Confidence := FULL | DEGRADED.
Inductive Resolution := CLEARED | CONFIRMED.

(** [sc_status]: [None] is [NOT_SCREENED]. *)
Record SanctionsColumns := mkSanctionsColumns {
  sc_status : option SanctionsScreeningStatus;
  sc_confidence : option Confidence;
  sc_screenedAt : option Date;
  sc_matchDetails : option string;
  sc_reviewedBy : option string;
  sc_reviewedAt : option Date;
  sc_reviewResolution : option Resolution }.

Record MatchColumns := mkMatchColumns {
  mt_terminatedForCause : bool;
  mt_reasonCode : option string;
  mt_reason : option string;
  mt_terminatedBy : option string;
  mt_terminatedAt : option Date;
  mt_reportedAt : option Date;
  mt_reportId : option string }.

(** A row; the columns the payment core reads are those of [Merchant]. *)
Record Account := mkAccount {
  ac_id : string;
  ac_name : string;
  ac_isActive : bool;
  ac_credentials : Credentials;
  ac_config : MerchantEntity.t;
  ac_legalName : option string;
  ac_taxId : option string;
  ac_country : option string;
  ac_mccCode : option string;
  ac_industryRiskCategory : IndustryRiskCategory;
  ac_kyc : Application;
  ac_kyb : Application;
  ac_kybStatus : KycStatus;
  ac_sanctions : SanctionsColumns;
  ac_match : MatchColumns;
  ac_ambiguousRisk : RiskFlag bool;
  ac_amlReview : RiskFlag bool;
  ac_chargeback : RiskFlag ChargebackTier.ChargebackMonitoringTier;
  ac_channels : Channels }.

Definition ac_merchantId (m : Account) : string := MerchantEntity.merchantId (ac_config m).

(** ** Flags *)

Section flags.
Context {T : Type} (isRaised : T → bool).

Definition applyAuto (now : Date) (value : T) (reason : string) (f : RiskFlag T) : RiskFlag T :=
  mkRiskFlag value (if isRaised value then Defined (Some now) else Undefined)
    (if isRaised value then Defined (Some reason) else Undefined) Undefined (rf_autoManaged f).

Definition setManual (now : Date) (value : T) (reason flaggedBy : string) (f : RiskFlag T) : RiskFlag T :=
  mkRiskFlag value (if isRaised value then Defined (Some now) else Undefined) (Defined (Some reason)) (Defined (Some flaggedBy)) false.

Definition setAutoManaged (enabled : bool) (f : RiskFlag T) : RiskFlag T :=
  mkRiskFlag (rf_value f) (rf_flaggedAt f) (rf_reason f) (rf_flaggedBy f) enabled.

(** What [save] leaves in the row. *)
Definition writtenFlag (old new : RiskFlag T) : RiskFlag T :=
  mkRiskFlag (rf_value new) (written (rf_flaggedAt old) (rf_flaggedAt new)) (written (rf_reason old) (rf_reason new))
    (written (rf_flaggedBy old) (rf_flaggedBy new)) (rf_autoManaged new).
End flags.

Definition tierRaised (t : ChargebackTier.ChargebackMonitoringTier) : bool :=
  match t with ChargebackTier.NONE => false | _ => true end.

(** ** The table *)

Abbreviation registryTable := (list Account).

Definition findMerchant (merchantId : string) (rows : registryTable) : option Account :=
  List.find (λ m, String.eqb (ac_merchantId m) merchantId) rows.

Definition writtenRow (old new : Account) : Account :=
  new {{ ac_ambiguousRisk := writtenFlag (ac_ambiguousRisk old) (ac_ambiguousRisk new);
         ac_amlReview := writtenFlag (ac_amlReview old) (ac_amlReview new);
         ac_chargeback := writtenFlag (ac_chargeback old) (ac_chargeback new) }}.

(** [save]: every defined column of the row with the id is written; a new row must not
    have the merchant id or the key id of another. *)
Definition saveMerchant (m : Account) (rows : registryTable) : option registryTable :=
  if existsb (λ r, String.eqb (ac_id r) (ac_id m)) rows
  then Some ((λ r, if String.eqb (ac_id r) (ac_id m) then writtenRow r m else r) <$> rows)
  else if existsb (λ r, String.eqb (ac_merchantId r) (ac_merchantId m)
                        || String.eqb (cr_apiKeyId (ac_credentials r)) (cr_apiKeyId (ac_credentials m))) rows
  then None
  else Some (rows ++ [m]).

Definition beforeId (r r' : Account) : bool := negb (coqutil.Datatypes.String.ltb (ac_id r') (ac_id r)).

(** A page of the rows that satisfy a condition, by ascending id from the cursor on. *)
Definition keysetBatch (condition : Account → bool) (afterId : option string) (limit : nat) (rows : registryTable) : registryTable :=
  take limit (orderBy beforeId (filter (λ r, ac_isActive r && condition r
    && (if truthy afterId then match afterId with Some i => coqutil.Datatypes.String.ltb i (ac_id r) | None => true end else true)) rows)).

(** ** Requests ([create-merchant.dto.ts]) *)

(** [@MinLength(lo) @MaxLength(hi)] *)
Definition lengthBetween (lo hi : nat) (s : string) : bool := (lo <=? String.length s)%nat && (String.length s <=? hi)%nat.

Definition optional {A} (check : A → bool) (o : option A) : bool := match o with Some a => check a | None => true end.

Definition between (lo hi n : Z) : bool := (lo <=? n) && (n <=? hi).

Definition VALID_ROLES : list string := ["ADMIN"; "MERCHANT"; "OPERATOR"; "READONLY"]%string.

(** [@IsArray @ArrayNotEmpty @IsIn(VALID_PSP_PROVIDERS)] *)
Definition validPsps (l : list PSPProvider) : bool :=
  match l with [] => false | _ => forallb (λ p, match p with STRIPE | ADYEN => true | _ => false end) l end.

Fixpoint allChars (ok : N → bool) (s : string) : bool :=
  match s with EmptyString => true | String c s => ok (N_of_ascii c) && allChars ok s end.

Definition isLetter (n : N) : bool := ((65 <=? n)%N && (n <=? 90)%N) || ((97 <=? n)%N && (n <=? 122)%N).
Definition isDigit (n : N) : bool := (48 <=? n)%N && (n <=? 57)%N.

(** [/^\[a-zA-Z0-9_-\]+$/] *)
Definition identifierChars : string → bool := allChars (λ n, isLetter n || isDigit n || (n =? 95)%N || (n =? 45)%N).

Record CreateMerchantDto := mkCreateMerchantDto {
  cm_merchantId : string;
  cm_name : string;
  cm_legalName : option string;
  cm_taxId : option string;
  cm_country : option string;
  cm_roles : list string;
  cm_platformFeeBps : option Z;
  cm_settlementCurrency : option string;
  cm_reserveBps : option Z;
  cm_reserveHoldDays : option Z;
  cm_accountType : option AccountKind;
  cm_platformMerchantId : option string;
  cm_payoutReserveBps : option Z;
  cm_payoutReserveHoldDays : option Z;
  cm_payoutRail : option PayoutRail;
  cm_enabledPspProviders : option (list PSPProvider) }.

Definition validCreateMerchant (d : CreateMerchantDto) : bool :=
  lengthBetween 3 64 (cm_merchantId d) && identifierChars (cm_merchantId d)
  && lengthBetween 1 255 (cm_name d) && optional (lengthBetween 1 255) (cm_legalName d)
  && optional (lengthBetween 1 64) (cm_taxId d) && optional (lengthBetween 2 2) (cm_country d)
  && match cm_roles d with [] => false | _ => forallb (includes VALID_ROLES) (cm_roles d) end
  && optional (between 0 10000) (cm_platformFeeBps d) && optional (lengthBetween 3 3) (cm_settlementCurrency d)
  && optional (between 0 10000) (cm_reserveBps d) && optional (between 0 3650) (cm_reserveHoldDays d)
  && optional (between 0 10000) (cm_payoutReserveBps d) && optional (between 0 3650) (cm_payoutReserveHoldDays d)
  && optional validPsps (cm_enabledPspProviders d).

Record SubmitKycDto := mkSubmitKycDto { kd_legalName : string; kd_taxId : string }.

Definition validSubmitKyc (d : SubmitKycDto) : bool := lengthBetween 1 255 (kd_legalName d) && lengthBetween 1 64 (kd_taxId d).

Record SubmitKybDto := mkSubmitKybDto {
  bd_legalName : string; bd_taxId : string; bd_country : string; bd_beneficialOwners : option (list BeneficialOwner) }.

Definition validOwner (o : BeneficialOwner) : bool := lengthBetween 1 255 (bo_name o) && between 0 100 (bo_ownershipPercentage o).

Definition validSubmitKyb (d : SubmitKybDto) : bool :=
  lengthBetween 1 255 (bd_legalName d) && lengthBetween 1 64 (bd_taxId d) && lengthBetween 2 2 (bd_country d)
  && optional (λ l, (length l <=? 20)%nat && forallb validOwner l) (bd_beneficialOwners d).

(** The bodies of single settings: [UpdateFeeTiersDto] (the thresholds are parsed by the
    service), [UpdateMccCodeDto], [UpdateCountryDto]. *)
Definition validTiers (tiers : list FeeTier) : bool :=
  (length tiers <=? 20)%nat && forallb (λ t, between 0 10000 (tier_bps t)) tiers.

Definition validMcc (code : string) : bool := lengthBetween 4 4 code && allChars isDigit code.

Definition validCountry (country : string) : bool := lengthBetween 2 2 country && allChars isLetter country.

(** The reserve policy of a tier of the risk sweep ([risk-tiering.service.ts]): basis
    points and days. *)
Definition TIER_POLICIES (tier : DisputePolicy.RiskTier) : Z * Z :=
  match tier with
  | DisputePolicy.LOW => (0, 0)
  | DisputePolicy.MEDIUM => (500, 30)
  | DisputePolicy.HIGH => (1500, 90)
  end.

(** ** Providers *)

Inductive VerificationStatus := APPROVED | DECLINED | PENDING_DECISION.

Record VerificationResult := mkVerificationResult { vr_status : VerificationStatus; vr_applicationId : string }.

(** Which of the two reviews. *)
Inductive review := KYC | KYB.

#[global] Instance review_eq_dec : EqDecision review.
Proof. solve_decision. Defined.

Definition mapPersonaInquiryStatus (status : option string) : VerificationStatus :=
  match status with
  | Some s =>
      if String.eqb s "approved" then APPROVED
      else if String.eqb s "declined" || String.eqb s "expired" || String.eqb s "failed" then DECLINED
      else PENDING_DECISION
  | None => PENDING_DECISION
  end.

Record SanctionsScreeningOutcome := mkSanctionsScreeningOutcome {
  so_status : SanctionsScreeningStatus;
  so_confidence : Confidence;
  so_matchedListEntry : option string;
  so_score : option number }.

Inductive account_event : Type → Type :=
  | CLOCK : account_event Date
  | UUID : account_event string
  | RANDOM_TOKEN : account_event string
  | HASH (secret : string) : account_event string
  | ENCRYPT (plaintext : string) : account_event (result string)
  | FIND_ON_REPLICA (merchantId : string) : account_event (result (option Account))
  | FIND_ON_MASTER (merchantId : string) : account_event (result (option Account))
  | FIND_BY_API_KEY (apiKeyId : string) : account_event (result (option Account))
  | FIND_BY_APPLICATION (r : review) (applicationId : string) : account_event (result (option Account))
  | FIND_BATCH (condition : Account → bool) (afterId : option string) (limit : nat) : account_event (result (list Account))
  | SAVE_MERCHANT (m : Account) : account_event (result unit)
  | SCREEN (name : string) (taxId : option string) : account_event (result SanctionsScreeningResult)
  | VERIFY (r : review) (a : Application) : account_event (result VerificationResult)
  | REPORT_MATCH (merchantId legalName : string) (reasonCode : option string) (reason : string) : account_event (result (string * Date))
  | REVOKE_ALL (merchantId : string) : account_event (result unit)
  | EMIT_FLAGGED (merchantId : string) (o : SanctionsScreeningOutcome) : account_event unit
  | EMIT_ESCALATED (merchantId : string) (reserveBps : Z) : account_event unit
  | SEND (c : Channel) (merchantId : string) (o : SanctionsScreeningOutcome) : account_event (result unit)
  | FETCH_LIST (response : option (result string)) : account_event unit
  | REPLICATION : account_event unit.

Abbreviation P := (prog account_event).

(** ** Screening ([sanctions-screening.service.ts]) *)

(** [score.toFixed(3)] of a score between zero and one: the nearest thousandth, the
    larger one of two. *)
Definition toFixed3 (score : number) : string :=
  match score with
  | Num.Fin c =>
      let n := (2 * 1000 * c + Num.one) / (2 * Num.one) in
      let digits := pretty (n mod 1000) in
      pretty (n / 1000) +:+ "." +:+ match String.length digits with 1%nat => "00" +:+ digits | 2%nat => "0" +:+ digits | _ => digits end
  | _ => "NaN"
  end.

Module SanctionsScreeningService.

Definition screen (legalName : option string) (displayName : string) (taxId : option string) : P SanctionsScreeningOutcome :=
  let usingLegalName := truthy legalName in
  let nameToScreen := nullish legalName displayName in
  r ← ask (SCREEN nameToScreen (if truthy taxId then taxId else None));
  mret (mkSanctionsScreeningOutcome (sr_status r) (if usingLegalName then FULL else DEGRADED) (sr_matchedListEntry r) (sr_score r)).

Definition formatMatchDetails (matchedListEntry : option string) (score : option number) : option string :=
  match matchedListEntry with
  | Some entry =>
      if String.eqb entry "" then None
      else Some (entry +:+ " (score=" +:+ match score with Some s => toFixed3 s | None => "n/a" end +:+ ")")
  | None => None
  end.

End SanctionsScreeningService.

(** ** The service ([merchant.service.ts]) *)

Definition noApplication : Application := mkApplication None None None None None.
Definition noFlag {T} (value : T) : RiskFlag T := mkRiskFlag value (Defined None) (Defined None) (Defined None) true.
Definition defaultChannel : Channel := mkChannel WEBHOOK None.

(** The columns of a screening. *)
Definition screened (now : Date) (o : SanctionsScreeningOutcome) (c : SanctionsColumns) : SanctionsColumns :=
  c {{ sc_status := Some (so_status o); sc_confidence := Some (so_confidence o); sc_screenedAt := Some now;
       sc_matchDetails := SanctionsScreeningService.formatMatchDetails (so_matchedListEntry o) (so_score o) }}.

Definition notScreened : SanctionsColumns := mkSanctionsColumns None None None None None None None.

Definition upper (o : option string) : option string := if truthy o then Str.toUpperCase <$> o else None.

Definition ifTruthy (o : option string) : option string := if truthy o then o else None.

Module MerchantService.

Definition getOrThrow (merchantId : string) : P Account :=
  merchant ← ask (FIND_ON_MASTER merchantId);
  match merchant with Some m => mret m | None => Fail (HttpException 404 "MERCHANT_NOT_FOUND") end.

Definition save (m : Account) : P unit := ask (SAVE_MERCHANT m).

(** The shape of most operations: load, assign, save. *)
Definition modify (merchantId : string) (assign : Account → result Account) : P Account :=
  merchant ← getOrThrow merchantId;
  merchant ← of_result (assign merchant);
  _ ← save merchant;
  mret merchant.

Definition verifyCredentials (compare : string → string → bool) (dummyHash apiKeyId apiKeySecret : string) : P (option Account) :=
  merchant ← ask (FIND_BY_API_KEY apiKeyId);
  let hashToCompare := match merchant with Some m => cr_apiKeySecretHash (ac_credentials m) | None => dummyHash end in
  let matches := compare apiKeySecret hashToCompare in
  mret match merchant with Some m => if ac_isActive m && matches then Some m else None | None => None end.

(** *** Creation *)

(** The marketplace role: one level deep only. *)
Definition checkPlatform (params : CreateMerchantDto) : P unit :=
  match nullish (cm_accountType params) PLATFORM_ACCOUNT with
  | CONNECTED =>
      if negb (truthy (cm_platformMerchantId params)) then Fail (HttpException 409 "PLATFORM_MERCHANT_ID_REQUIRED")
      else
        platform ← ask (FIND_ON_MASTER (nullish (cm_platformMerchantId params) ""));
        match platform with
        | None => Fail (HttpException 404 "PLATFORM_MERCHANT_NOT_FOUND")
        | Some platform =>
            if bool_decide (MerchantEntity.accountType (ac_config platform) = PLATFORM_ACCOUNT) then mret tt
            else Fail (HttpException 409 "PLATFORM_MERCHANT_INVALID")
        end
  | PLATFORM_ACCOUNT =>
      if truthy (cm_platformMerchantId params) then Fail (HttpException 409 "PLATFORM_MERCHANT_ID_NOT_ALLOWED") else mret tt
  end.

(** The row of [merchantRepo.create], with the defaults of the columns. *)
Definition newAccount (id apiKeyId secretHash hmacCiphertext : string) (now : Date) (params : CreateMerchantDto)
    (screening : SanctionsScreeningOutcome) : Account :=
  mkAccount id (cm_name params) true (mkCredentials apiKeyId secretHash hmacCiphertext (cm_roles params))
    (MerchantEntity.mk (cm_merchantId params) (nullish (cm_platformFeeBps params) 150) None (upper (cm_settlementCurrency params))
       (nullish (cm_reserveBps params) 0) (nullish (cm_reserveHoldDays params) 0) true
       (nullish (cm_accountType params) PLATFORM_ACCOUNT) (ifTruthy (cm_platformMerchantId params))
       (nullish (cm_payoutReserveBps params) 0) (nullish (cm_payoutReserveHoldDays params) 0)
       (nullish (cm_payoutRail params) STANDARD) KYC_NOT_STARTED (nullish (cm_enabledPspProviders params) [STRIPE; ADYEN]))
    (ifTruthy (cm_legalName params)) (ifTruthy (cm_taxId params)) (upper (cm_country params)) None RISK_UNKNOWN
    noApplication noApplication KYC_NOT_STARTED (screened now screening notScreened)
    (mkMatchColumns false None None None None None None)
    (noFlag false) (noFlag false) (noFlag ChargebackTier.NONE)
    (mkChannels defaultChannel defaultChannel defaultChannel defaultChannel defaultChannel).

(** A [POTENTIAL_MATCH] is announced once the row exists. *)
Definition announce (merchantId : string) (screening : SanctionsScreeningOutcome) : P unit :=
  if bool_decide (so_status screening = POTENTIAL_MATCH) then call (EMIT_FLAGGED merchantId screening) else mret tt.

Definition refuseHit (screening : SanctionsScreeningOutcome) : P unit :=
  if bool_decide (so_status screening = HIT) then Fail (HttpException 422 "SANCTIONS_SCREENING_HIT") else mret tt.

(** The new merchant, the secret and the signing key. *)
Definition createMerchant (params : CreateMerchantDto) : P (Account * string * string) :=
  existing ← ask (FIND_ON_REPLICA (cm_merchantId params));
  if isSome existing then Fail (HttpException 409 "MERCHANT_ALREADY_EXISTS")
  else
    _ ← checkPlatform params;
    screening ← SanctionsScreeningService.screen (cm_legalName params) (cm_name params) (cm_taxId params);
    _ ← refuseHit screening;
    secret ← call RANDOM_TOKEN;
    let apiKeySecret := "sk_" +:+ secret in
    hmacSecret ← call RANDOM_TOKEN;
    id ← call UUID;
    keyId ← call RANDOM_TOKEN;
    secretHash ← call (HASH apiKeySecret);
    ciphertext ← ask (ENCRYPT hmacSecret);
    now ← call CLOCK;
    let merchant := newAccount id ("ak_" +:+ keyId) secretHash ciphertext now params screening in
    _ ← save merchant;
    _ ← announce (cm_merchantId params) screening;
    mret (merchant, apiKeySecret, hmacSecret).

(** *** Credentials and sessions *)

Definition rotateApiKeySecret (merchantId : string) : P string :=
  merchant ← getOrThrow merchantId;
  secret ← call RANDOM_TOKEN;
  let apiKeySecret := "sk_" +:+ secret in
  secretHash ← call (HASH apiKeySecret);
  _ ← save (merchant {{ ac_credentials := (ac_credentials merchant) {{ cr_apiKeySecretHash := secretHash }} }});
  _ ← ask (REVOKE_ALL merchantId);
  mret apiKeySecret.

Definition rotateHmacSecret (merchantId : string) : P string :=
  merchant ← getOrThrow merchantId;
  hmacSecret ← call RANDOM_TOKEN;
  ciphertext ← ask (ENCRYPT hmacSecret);
  _ ← save (merchant {{ ac_credentials := (ac_credentials merchant) {{ cr_hmacSecretCiphertext := ciphertext }} }});
  mret hmacSecret.

Definition revokeAllSessions (merchantId : string) : P unit :=
  _ ← getOrThrow merchantId;
  ask (REVOKE_ALL merchantId).

Definition setActive (merchantId : string) (isActive : bool) : P Account :=
  merchant ← modify merchantId (λ m, Ok (m {{ ac_isActive := isActive }}));
  _ ← (if isActive then mret tt else ask (REVOKE_ALL merchantId));
  mret merchant.

(** *** Settings *)

Definition configure (merchantId : string) (f : MerchantEntity.t → result MerchantEntity.t) : P Account :=
  modify merchantId (λ m, c ← f (ac_config m); Ok (m {{ ac_config := c }})).

Definition updateFeeRate (merchantId : string) (platformFeeBps : Z) : P Account :=
  configure merchantId (λ c, Ok (Merchant.MerchantService.updateFeeRate platformFeeBps c)).

Definition updateFeeTiers (merchantId : string) (tiers : list FeeTier) : P Account :=
  configure merchantId (Merchant.MerchantService.updateFeeTiers tiers).

Definition updateSettlementCurrency (merchantId : string) (currency : option string) : P Account :=
  configure merchantId (λ c, Ok (Merchant.MerchantService.updateSettlementCurrency currency c)).

Definition updateReservePolicy (merchantId : string) (reserveBps reserveHoldDays : Z) : P Account :=
  merchant ← getOrThrow merchantId;
  let '(c, escalated) := Merchant.MerchantService.updateReservePolicy reserveBps reserveHoldDays (ac_config merchant) in
  let merchant := merchant {{ ac_config := c }} in
  _ ← save merchant;
  _ ← (if escalated then call (EMIT_ESCALATED merchantId reserveBps) else mret tt);
  mret merchant.

Definition updatePayoutReservePolicy (merchantId : string) (bps holdDays : Z) : P Account :=
  configure merchantId (λ c, Ok (c {{ MerchantEntity.payoutReserveBps := bps; MerchantEntity.payoutReserveHoldDays := holdDays }})).

Definition updatePayoutRail (merchantId : string) (rail : PayoutRail) : P Account :=
  configure merchantId (λ c, Ok (c {{ MerchantEntity.payoutRail := rail }})).

Definition updatePspEntitlement (merchantId : string) (psps : list PSPProvider) : P Account :=
  match psps with
  | [] => Fail (HttpException 422 "PSP_ENTITLEMENT_EMPTY")
  | _ => configure merchantId (λ c, Ok (c {{ MerchantEntity.enabledPspProviders := psps }}))
  end.

Definition setRiskTierAutoManaged (merchantId : string) (enabled : bool) : P Account :=
  configure merchantId (λ c, Ok (c {{ MerchantEntity.riskTierAutoManaged := enabled }})).

Definition applyAutoRiskTier (merchantId : string) (reserveBps reserveHoldDays : Z) : P Account :=
  configure merchantId (λ c, Ok (c {{ MerchantEntity.reserveBps := reserveBps; MerchantEntity.reserveHoldDays := reserveHoldDays }})).

Definition updateDisputeNotificationChannel (merchantId : string) (c : Channel) : P Account :=
  modify merchantId (λ m, Ok (m {{ ac_channels := (ac_channels m) {{ cs_dispute := c }} }})).

Definition updateSubscriptionNotificationChannel (merchantId : string) (c : Channel) : P Account :=
  modify merchantId (λ m, Ok (m {{ ac_channels := (ac_channels m) {{ cs_subscription := c }} }})).

Definition updateAmlReviewNotificationChannel (merchantId : string) (c : Channel) : P Account :=
  modify merchantId (λ m, Ok (m {{ ac_channels := (ac_channels m) {{ cs_amlReview := c }} }})).

Definition updateChargebackMonitoringNotificationChannel (merchantId : string) (c : Channel) : P Account :=
  modify merchantId (λ m, Ok (m {{ ac_channels := (ac_channels m) {{ cs_chargebackMonitoring := c }} }})).

Definition updateSanctionsNotificationChannel (merchantId : string) (c : Channel) : P Account :=
  modify merchantId (λ m, Ok (m {{ ac_channels := (ac_channels m) {{ cs_sanctions := c }} }})).

Definition updateCountry (merchantId : string) (country : option string) : P Account :=
  modify merchantId (λ m, Ok (m {{ ac_country := upper country }})).

Definition updateMccCode (merchantId : string) (mccCode : option string) : P Account :=
  modify merchantId (λ m, Ok (m {{ ac_mccCode := mccCode; ac_industryRiskCategory := lookupIndustryRiskCategory mccCode }})).

(** *** Identity reviews *)

(** The status and the application id after the provider answered. *)
Definition decided (v : VerificationResult) : KycStatus * option string :=
  match vr_status v with
  | PENDING_DECISION => (KYC_PENDING_REVIEW, Some (vr_applicationId v))
  | APPROVED => (KYC_VERIFIED, None)
  | DECLINED => (KYC_REJECTED, None)
  end.

Definition setKycStatus (status : KycStatus) (m : Account) : Account :=
  m {{ ac_config := (ac_config m) {{ MerchantEntity.kycStatus := status }} }}.

(** The identity a submission captures, screened. *)
Definition identified (legalName taxId : string) (now : Date) (screening : SanctionsScreeningOutcome) (m : Account) : Account :=
  m {{ ac_legalName := Some legalName; ac_taxId := Some taxId; ac_sanctions := screened now screening (ac_sanctions m) }}.

Definition submitKyc (merchantId legalName taxId : string) : P Account :=
  merchant ← getOrThrow merchantId;
  screening ← SanctionsScreeningService.screen (Some legalName) (ac_name merchant) (Some taxId);
  _ ← refuseHit screening;
  let application := mkApplication (Some legalName) (Some taxId) None None None in
  v ← ask (VERIFY KYC application);
  now ← call CLOCK;
  let '(status, applicationId) := decided v in
  let merchant := setKycStatus status (identified legalName taxId now screening
    (merchant {{ ac_kyc := application {{ ap_applicationId := applicationId }} }})) in
  _ ← save merchant;
  _ ← announce merchantId screening;
  mret merchant.

Definition submitKyb (merchantId legalName taxId country : string) (beneficialOwners : option (list BeneficialOwner)) : P Account :=
  merchant ← getOrThrow merchantId;
  screening ← SanctionsScreeningService.screen (Some legalName) (ac_name merchant) (Some taxId);
  _ ← refuseHit screening;
  let application := mkApplication (Some legalName) (Some taxId) (Some country) beneficialOwners None in
  v ← ask (VERIFY KYB application);
  now ← call CLOCK;
  let '(status, applicationId) := decided v in
  let merchant := identified legalName taxId now screening
    (merchant {{ ac_kyb := application {{ ap_applicationId := applicationId }}; ac_kybStatus := status }}) in
  _ ← save merchant;
  _ ← announce merchantId screening;
  mret merchant.

Definition confirmKyc (applicationId : string) (outcome : KycStatus) : P unit :=
  merchant ← ask (FIND_BY_APPLICATION KYC applicationId);
  match merchant with
  | None => mret tt
  | Some merchant =>
      if bool_decide (MerchantEntity.kycStatus (ac_config merchant) = KYC_PENDING_REVIEW) then save (setKycStatus outcome merchant)
      else mret tt
  end.

Definition confirmKyb (applicationId : string) (outcome : KycStatus) : P unit :=
  merchant ← ask (FIND_BY_APPLICATION KYB applicationId);
  match merchant with
  | None => mret tt
  | Some merchant =>
      if bool_decide (ac_kybStatus merchant = KYC_PENDING_REVIEW) then save (merchant {{ ac_kybStatus := outcome }})
      else mret tt
  end.

(** *** Flags *)

Definition timed (merchantId : string) (assign : Date → Account → Account) : P Account :=
  merchant ← getOrThrow merchantId;
  now ← call CLOCK;
  let merchant := assign now merchant in
  _ ← save merchant;
  mret merchant.

Definition applyAutoAmbiguousRiskFlag (merchantId : string) (flagged : bool) (reason : string) : P Account :=
  timed merchantId (λ now m, m {{ ac_ambiguousRisk := applyAuto (λ b, b) now flagged reason (ac_ambiguousRisk m) }}).

Definition setAmbiguousRiskFlagManual (merchantId : string) (flagged : bool) (reason flaggedBy : string) : P Account :=
  timed merchantId (λ now m, m {{ ac_ambiguousRisk := setManual (λ b, b) now flagged reason flaggedBy (ac_ambiguousRisk m) }}).

Definition setAmbiguousRiskAutoManaged (merchantId : string) (enabled : bool) : P Account :=
  modify merchantId (λ m, Ok (m {{ ac_ambiguousRisk := setAutoManaged enabled (ac_ambiguousRisk m) }})).

Definition applyAutoAmlReviewFlag (merchantId : string) (flagged : bool) (reason : string) : P Account :=
  timed merchantId (λ now m, m {{ ac_amlReview := applyAuto (λ b, b) now flagged reason (ac_amlReview m) }}).

Definition setAmlReviewFlagManual (merchantId : string) (flagged : bool) (reason flaggedBy : string) : P Account :=
  timed merchantId (λ now m, m {{ ac_amlReview := setManual (λ b, b) now flagged reason flaggedBy (ac_amlReview m) }}).

Definition setAmlReviewAutoManaged (merchantId : string) (enabled : bool) : P Account :=
  modify merchantId (λ m, Ok (m {{ ac_amlReview := setAutoManaged enabled (ac_amlReview m) }})).

Definition applyAutoChargebackMonitoringTier (merchantId : string) (tier : ChargebackTier.ChargebackMonitoringTier) (reason : string) : P Account :=
  timed merchantId (λ now m, m {{ ac_chargeback := applyAuto tierRaised now tier reason (ac_chargeback m) }}).

Definition setChargebackMonitoringTierManual (merchantId : string) (tier : ChargebackTier.ChargebackMonitoringTier) (reason flaggedBy : string)
    : P Account :=
  timed merchantId (λ now m, m {{ ac_chargeback := setManual tierRaised now tier reason flaggedBy (ac_chargeback m) }}).

Definition setChargebackMonitoringAutoManaged (merchantId : string) (enabled : bool) : P Account :=
  modify merchantId (λ m, Ok (m {{ ac_chargeback := setAutoManaged enabled (ac_chargeback m) }})).

(** *** Sanctions *)

Definition applySanctionsScreeningResult (merchantId : string) (screening : SanctionsScreeningOutcome) : P Account :=
  timed merchantId (λ now m, m {{ ac_sanctions := screened now screening (ac_sanctions m) }}).

(** The merchant and its status before. *)
Definition rescreenSanctions (merchantId : string) : P (Account * option SanctionsScreeningStatus) :=
  merchant ← getOrThrow merchantId;
  let previousStatus := sc_status (ac_sanctions merchant) in
  screening ← SanctionsScreeningService.screen (ac_legalName merchant) (ac_name merchant) (ac_taxId merchant);
  updated ← applySanctionsScreeningResult merchantId screening;
  mret (updated, previousStatus).

Definition reviewed (now : Date) (resolution : Resolution) (reviewedBy : string) (c : SanctionsColumns) : SanctionsColumns :=
  mkSanctionsColumns (match resolution with CLEARED => Some CLEAR | CONFIRMED => sc_status c end) (sc_confidence c) (sc_screenedAt c)
    (sc_matchDetails c) (Some reviewedBy) (Some now) (Some resolution).

Definition applySanctionsReview (merchantId : string) (resolution : Resolution) (reviewedBy : string) : P Account :=
  timed merchantId (λ now m, m {{ ac_sanctions := reviewed now resolution reviewedBy (ac_sanctions m) }}).

(** *** Termination for cause *)

Definition report (merchant : Account) : P (string * Date) :=
  ask (REPORT_MATCH (ac_merchantId merchant) (nullish (ac_legalName merchant) (ac_name merchant))
         (mt_reasonCode (ac_match merchant)) (nullish (mt_reason (ac_match merchant)) "")).

Definition reported (r : string * Date) (m : Account) : Account :=
  m {{ ac_match := (ac_match m) {{ mt_reportedAt := Some (snd r); mt_reportId := Some (fst r) }} }}.

Definition fileMatchReport (merchant : Account) : P Account :=
  r ← report merchant;
  let merchant := reported r merchant in
  _ ← save merchant;
  mret merchant.

Definition terminated (now : Date) (reasonCode reason actingAdmin : string) (m : Account) : Account :=
  m {{ ac_isActive := false;
       ac_match := mkMatchColumns true (Some reasonCode) (Some reason) (Some actingAdmin) (Some now)
                     (mt_reportedAt (ac_match m)) (mt_reportId (ac_match m)) }}.

(** A failure to file is logged, whether the report or the save of its number failed. *)
Definition terminateForCause (merchantId reasonCode reason actingAdmin : string) : P Account :=
  merchant ← timed merchantId (λ now, terminated now reasonCode reason actingAdmin);
  _ ← ask (REVOKE_ALL merchantId);
  r ← catch (r ← report merchant; mret (Some r)) (λ _, mret None);
  match r with
  | None => mret merchant
  | Some r =>
      let merchant := reported r merchant in
      _ ← catch (save merchant) (λ _, mret tt);
      mret merchant
  end.

Definition retryMatchReport (merchantId : string) : P Account :=
  merchant ← getOrThrow merchantId;
  if mt_terminatedForCause (ac_match merchant) then fileMatchReport merchant
  else Fail (HttpException 422 "NOT_TERMINATED_FOR_CAUSE").

(** *** Pages of merchants *)

Definition findActiveAutoManagedBatch : option string → nat → P (list Account) :=
  λ afterId limit, ask (FIND_BATCH (λ m, MerchantEntity.riskTierAutoManaged (ac_config m)) afterId limit).

Definition findActiveChargebackMonitoringAutoManagedBatch : option string → nat → P (list Account) :=
  λ afterId limit, ask (FIND_BATCH (λ m, rf_autoManaged (ac_chargeback m)) afterId limit).

Definition notHit (m : Account) : bool := bool_decide (sc_status (ac_sanctions m) ≠ Some HIT).

Definition findActiveNotHitBatch : option string → nat → P (list Account) :=
  λ afterId limit, ask (FIND_BATCH notHit afterId limit).

Definition findActiveBatch : option string → nat → P (list Account) :=
  λ afterId limit, ask (FIND_BATCH (λ _, true) afterId limit).

Definition findActiveByCountryBatch (country : string) : option string → nat → P (list Account) :=
  λ afterId limit, ask (FIND_BATCH (λ m, bool_decide (ac_country m = Some country)) afterId limit).

End MerchantService.

(** ** Webhooks ([kyc-webhook.controller.ts], [kyb-webhook.controller.ts]) *)

Definition decisionWebhook (confirm : string → KycStatus → P unit) (inquiryId status : option string) : P unit :=
  match inquiryId, mapPersonaInquiryStatus status with
  | Some applicationId, APPROVED => if String.eqb applicationId "" then mret tt else confirm applicationId KYC_VERIFIED
  | Some applicationId, DECLINED => if String.eqb applicationId "" then mret tt else confirm applicationId KYC_REJECTED
  | _, _ => mret tt
  end.

Definition kycWebhook := decisionWebhook MerchantService.confirmKyc.
Definition kybWebhook := decisionWebhook MerchantService.confirmKyb.

(** ** The sweep *)

Module SanctionsNotificationDispatcherService.

Definition notify (merchantId : string) (o : SanctionsScreeningOutcome) : P unit :=
  merchant ← ask (FIND_ON_REPLICA merchantId);
  match merchant with
  | Some m =>
      if ac_isActive m && truthy (ch_target (cs_sanctions (ac_channels m)))
      then catch (ask (SEND (cs_sanctions (ac_channels m)) merchantId o)) (λ _, mret tt)
      else mret tt
  | None => mret tt
  end.

End SanctionsNotificationDispatcherService.

Module SanctionsScreeningSweepService.

Definition SANCTIONS_SWEEP_BATCH_SIZE : nat := 50.

Record SweepResult := mkSweepResult { sw_screened : Z; sw_newHits : Z; sw_newPotentialMatches : Z; sw_skipped : Z }.

(** Whether the merchant is a new HIT, and a new POTENTIAL_MATCH. *)
Definition evaluateOne (merchant : Account) : P (bool * bool) :=
  let previousStatus := sc_status (ac_sanctions merchant) in
  screening ← SanctionsScreeningService.screen (ac_legalName merchant) (ac_name merchant) (ac_taxId merchant);
  _ ← MerchantService.applySanctionsScreeningResult (ac_merchantId merchant) screening;
  let isNew := bool_decide (Some (so_status screening) ≠ previousStatus) in
  _ ← (if isNew && bool_decide (so_status screening ≠ CLEAR)
       then SanctionsNotificationDispatcherService.notify (ac_merchantId merchant) screening else mret tt);
  mret (isNew && bool_decide (so_status screening = HIT), isNew && bool_decide (so_status screening = POTENTIAL_MATCH)).

Definition count (c : SweepResult) (r : option (bool * bool)) : SweepResult :=
  match r with
  | None => c {{ sw_skipped := sw_skipped c + 1 }}
  | Some (newHit, newPotentialMatch) =>
      mkSweepResult (sw_screened c + 1) (if newHit : bool then sw_newHits c + 1 else sw_newHits c)
        (if newPotentialMatch : bool then sw_newPotentialMatches c + 1 else sw_newPotentialMatches c) (sw_skipped c)
  end.

Definition settle : list Account → SweepResult → P SweepResult := allSettled evaluateOne count.

(** The loop, for at most [fuel] batches. *)
Definition sweepFrom : nat → option string → SweepResult → P (option SweepResult) :=
  forPages ac_id (λ afterId, MerchantService.findActiveNotHitBatch afterId SANCTIONS_SWEEP_BATCH_SIZE) SANCTIONS_SWEEP_BATCH_SIZE settle.

Definition runSweep (fuel : nat) : P (option SweepResult) := sweepFrom fuel None (mkSweepResult 0 0 0 0).

End SanctionsScreeningSweepService.

(** ** What the events do *)

(** A screening: the name, the list and the verdict. *)
Record Screening := mkScreening { sg_name : string; sg_list : list SanctionsListEntry; sg_status : SanctionsScreeningStatus }.

(** An answer of a provider. *)
Record Verification := mkVerification { vf_review : review; vf_application : Application; vf_result : VerificationResult }.

Record registry := mkRegistry {
  rg_merchants : registryTable;
  rg_replica : registryTable;
  rg_list : SanctionsListStore.t;
  rg_screenings : list Screening;
  rg_verifications : list Verification;
  rg_sent : list (string * SanctionsScreeningStatus);
  rg_revoked : list (string * Date);
  rg_uuids : nat;
  rg_calls : nat }.

(** What the code does not define: faults, identifiers, random bytes, hashes,
    ciphertexts, and the answers of the providers, by the number of the call. *)
Class World := {
  fault : nat → Fault;
  uuid : nat → string;
  uuid_inj : ∀ n n', uuid n = uuid n' → n = n';
  random : nat → string;
  hash : nat → string → string;
  encrypt : nat → string → string;
  verification : nat → review → Application → VerificationResult;
  matchReport : nat → string * Date;
  matchThreshold : Z }.

Section handler.
Context `{World}.

Definition account_handle X (c : account_event X) (now : Date) (s0 : registry) : registry * result X :=
  let n := rg_calls s0 in
  let f := fault n in
  let s := s0 {{ rg_calls := S n }} in
  match c in account_event Y return registry * result Y with
  | CLOCK => (s, Ok now)
  | UUID => (s {{ rg_uuids := S (rg_uuids s) }}, Ok (uuid (rg_uuids s)))
  | RANDOM_TOKEN => (s, Ok (random n))
  | HASH secret => (s, Ok (hash n secret))
  | ENCRYPT text => faulty f s s (Ok (encrypt n text))
  | FIND_ON_REPLICA merchantId => faulty f s s (Ok (findMerchant merchantId (rg_replica s)))
  | FIND_ON_MASTER merchantId => faulty f s s (Ok (findMerchant merchantId (rg_merchants s)))
  | FIND_BY_API_KEY key => faulty f s s (Ok (List.find (λ m, String.eqb (cr_apiKeyId (ac_credentials m)) key) (rg_merchants s)))
  | FIND_BY_APPLICATION r applicationId =>
      faulty f s s (Ok (List.find (λ m, bool_decide (ap_applicationId (match r with KYC => ac_kyc m | KYB => ac_kyb m end) = Some applicationId))
                          (rg_merchants s)))
  | FIND_BATCH condition afterId limit => faulty f s s (Ok (keysetBatch condition afterId limit (rg_merchants s)))
  | SAVE_MERCHANT m =>
      match saveMerchant m (rg_merchants s) with
      | Some rows => faulty f s (s {{ rg_merchants := rows }}) (Ok tt)
      | None => (s, Ok (Throw (ExternalFailure "duplicate key")))
      end
  | SCREEN name _ =>
      let entries := SanctionsListStore.entries (rg_list s) in
      match OfacSdnSanctionsAdapter.screen (Num.Fin matchThreshold) entries name with
      | Some r => faulty f s (s {{ rg_screenings := rg_screenings s ++ [mkScreening name entries (sr_status r)] }}) (Ok r)
      | None => (s, Ok broken)
      end
  | VERIFY r a =>
      faulty f s (s {{ rg_verifications := rg_verifications s ++ [mkVerification r a (verification n r a)] }}) (Ok (verification n r a))
  | REPORT_MATCH _ _ _ _ => faulty f s s (Ok (matchReport n))
  | REVOKE_ALL merchantId => faulty f s (s {{ rg_revoked := rg_revoked s ++ [(merchantId, now)] }}) (Ok tt)
  | EMIT_FLAGGED _ _ => (s, Ok tt)
  | EMIT_ESCALATED _ _ => (s, Ok tt)
  | SEND _ merchantId o => faulty f s (s {{ rg_sent := rg_sent s ++ [(merchantId, so_status o)] }}) (Ok tt)
  | FETCH_LIST response => (s {{ rg_list := (refresh now response (rg_list s)).1 }}, Ok tt)
  | REPLICATION => (s {{ rg_replica := rg_merchants s }}, Ok tt)
  end.
End handler.

(** ** What reaches a replica *)

Inductive account_request :=
  | CREATE (d : CreateMerchantDto)
  | ROTATE_API_KEY (merchantId : string)
  | ROTATE_HMAC (merchantId : string)
  | REVOKE_SESSIONS (merchantId : string)
  | SET_ACTIVE (merchantId : string) (isActive : bool)
  | FEE_RATE (merchantId : string) (bps : Z)
  | FEE_TIERS (merchantId : string) (tiers : list FeeTier)
  | SETTLEMENT_CURRENCY (merchantId : string) (currency : option string)
  | RESERVE_POLICY (merchantId : string) (bps holdDays : Z)
  | PAYOUT_RESERVE_POLICY (merchantId : string) (bps holdDays : Z)
  | PAYOUT_RAIL (merchantId : string) (rail : PayoutRail)
  | PSP_ENTITLEMENT (merchantId : string) (psps : list PSPProvider)
  | RISK_TIER_AUTO (merchantId : string) (enabled : bool)
  | AUTO_RISK_TIER (merchantId : string) (tier : DisputePolicy.RiskTier)
  | DISPUTE_CHANNEL (merchantId : string) (c : Channel)
  | SUBSCRIPTION_CHANNEL (merchantId : string) (c : Channel)
  | AML_CHANNEL (merchantId : string) (c : Channel)
  | CHARGEBACK_CHANNEL (merchantId : string) (c : Channel)
  | SANCTIONS_CHANNEL (merchantId : string) (c : Channel)
  | COUNTRY (merchantId : string) (country : option string)
  | MCC (merchantId : string) (code : option string)
  | SUBMIT_KYC (merchantId : string) (d : SubmitKycDto)
  | SUBMIT_KYB (merchantId : string) (d : SubmitKybDto)
  | KYC_WEBHOOK (inquiryId status : option string)
  | KYB_WEBHOOK (inquiryId status : option string)
  | AUTO_AMBIGUOUS (merchantId : string) (flagged : bool) (reason : string)
  | MANUAL_AMBIGUOUS (merchantId : string) (flagged : bool) (reason flaggedBy : string)
  | AMBIGUOUS_AUTO (merchantId : string) (enabled : bool)
  | AUTO_AML (merchantId : string) (flagged : bool) (reason : string)
  | MANUAL_AML (merchantId : string) (flagged : bool) (reason flaggedBy : string)
  | AML_AUTO (merchantId : string) (enabled : bool)
  | AUTO_CHARGEBACK (merchantId : string) (tier : ChargebackTier.ChargebackMonitoringTier) (reason : string)
  | MANUAL_CHARGEBACK (merchantId : string) (tier : ChargebackTier.ChargebackMonitoringTier) (reason flaggedBy : string)
  | CHARGEBACK_AUTO (merchantId : string) (enabled : bool)
  | RESCREEN (merchantId : string)
  | SANCTIONS_REVIEW (merchantId : string) (resolution : Resolution) (reviewedBy : string)
  | TERMINATE (merchantId reasonCode reason actingAdmin : string)
  | RETRY_MATCH (merchantId : string)
  | SANCTIONS_SWEEP (fuel : nat)
  | LIST_REFRESH (response : option (result string))
  | REPLICATE.

Definition discard {A} (p : P A) : P unit := _ ← p; mret tt.

(** A body that fails its validation is answered by the pipe. *)
Definition validated {A} (ok : bool) (p : P A) : P unit :=
  if ok then discard p else Fail (HttpException 422 "VALIDATION").

Import MerchantService.

Definition serve_account (r : account_request) : P unit :=
  match r with
  | CREATE d => validated (validCreateMerchant d) (createMerchant d)
  | ROTATE_API_KEY mid => discard (rotateApiKeySecret mid)
  | ROTATE_HMAC mid => discard (rotateHmacSecret mid)
  | REVOKE_SESSIONS mid => revokeAllSessions mid
  | SET_ACTIVE mid b => discard (setActive mid b)
  | FEE_RATE mid bps => validated (between 0 10000 bps) (updateFeeRate mid bps)
  | FEE_TIERS mid tiers => validated (validTiers tiers) (updateFeeTiers mid tiers)
  | SETTLEMENT_CURRENCY mid c => validated (optional (lengthBetween 3 3) c) (updateSettlementCurrency mid c)
  | RESERVE_POLICY mid bps days => validated (between 0 10000 bps && between 0 3650 days) (updateReservePolicy mid bps days)
  | PAYOUT_RESERVE_POLICY mid bps days => validated (between 0 10000 bps && between 0 3650 days) (updatePayoutReservePolicy mid bps days)
  | PAYOUT_RAIL mid rail => discard (updatePayoutRail mid rail)
  | PSP_ENTITLEMENT mid psps => validated (validPsps psps) (updatePspEntitlement mid psps)
  | RISK_TIER_AUTO mid b => discard (setRiskTierAutoManaged mid b)
  | AUTO_RISK_TIER mid tier => discard (applyAutoRiskTier mid (TIER_POLICIES tier).1 (TIER_POLICIES tier).2)
  | DISPUTE_CHANNEL mid c => discard (updateDisputeNotificationChannel mid c)
  | SUBSCRIPTION_CHANNEL mid c => discard (updateSubscriptionNotificationChannel mid c)
  | AML_CHANNEL mid c => discard (updateAmlReviewNotificationChannel mid c)
  | CHARGEBACK_CHANNEL mid c => discard (updateChargebackMonitoringNotificationChannel mid c)
  | SANCTIONS_CHANNEL mid c => discard (updateSanctionsNotificationChannel mid c)
  | COUNTRY mid c => validated (optional validCountry c) (updateCountry mid c)
  | MCC mid c => validated (optional validMcc c) (updateMccCode mid c)
  | SUBMIT_KYC mid d => validated (validSubmitKyc d) (submitKyc mid (kd_legalName d) (kd_taxId d))
  | SUBMIT_KYB mid d =>
      validated (validSubmitKyb d) (submitKyb mid (bd_legalName d) (bd_taxId d) (bd_country d) (bd_beneficialOwners d))
  | KYC_WEBHOOK i st => kycWebhook i st
  | KYB_WEBHOOK i st => kybWebhook i st
  | AUTO_AMBIGUOUS mid b why => discard (applyAutoAmbiguousRiskFlag mid b why)
  | MANUAL_AMBIGUOUS mid b why who => discard (setAmbiguousRiskFlagManual mid b why who)
  | AMBIGUOUS_AUTO mid b => discard (setAmbiguousRiskAutoManaged mid b)
  | AUTO_AML mid b why => discard (applyAutoAmlReviewFlag mid b why)
  | MANUAL_AML mid b why who => discard (setAmlReviewFlagManual mid b why who)
  | AML_AUTO mid b => discard (setAmlReviewAutoManaged mid b)
  | AUTO_CHARGEBACK mid t why => discard (applyAutoChargebackMonitoringTier mid t why)
  | MANUAL_CHARGEBACK mid t why who => discard (setChargebackMonitoringTierManual mid t why who)
  | CHARGEBACK_AUTO mid b => discard (setChargebackMonitoringAutoManaged mid b)
  | RESCREEN mid => discard (rescreenSanctions mid)
  | SANCTIONS_REVIEW mid res who => discard (applySanctionsReview mid res who)
  | TERMINATE mid code why who => discard (terminateForCause mid code why who)
  | RETRY_MATCH mid => discard (retryMatchReport mid)
  | SANCTIONS_SWEEP fuel => discard (SanctionsScreeningSweepService.runSweep fuel)
  | LIST_REFRESH response => call (FETCH_LIST response)
  | REPLICATE => call REPLICATION
  end.

Definition emptyRegistry : registry := mkRegistry [] [] SanctionsListStore.init [] [] [] [] 0 0.
