(* ===== verification/AccountsCorrect.v ===== *)
(** * Merchant accounts: who is on the books

    Under every interleaving of the operations of the merchant service, with any call
    failing: the rows are well formed, every identity was screened and not found on the
    list, and a verification rests on an approval of the provider. A sweep screens
    every active merchant that is no HIT, once. *)

From Stdlib Require Import Sorted.
From coqutil Require Datatypes.String.
From S2P Require Import Prelude Rows JsNumber Money Policies Merchant Redis Shared Program Sanctions SanctionsCorrect Accounts.

(** ** What holds of a row *)

(** The name a merchant is known by. *)
Definition identity (m : Account) : string := if truthy (ac_legalName m) then nullish (ac_legalName m) "" else ac_name m.

(** The columns no operation changes. *)
Definition frozen (m : Account) : string * string * string * AccountKind * option string :=
  (ac_id m, ac_name m, ac_merchantId m, MerchantEntity.accountType (ac_config m), MerchantEntity.platformMerchantId (ac_config m)).

(** The application without the number the provider gave it. *)
Definition submitted (a : Application) : Application :=
  mkApplication (ap_legalName a) (ap_taxId a) (ap_country a) (ap_beneficialOwners a) None.

Definition bps (n : Z) : Prop := 0 ≤ n ≤ 10000.
Definition days (n : Z) : Prop := 0 ≤ n ≤ 3650.

(** Rates in range, a fee schedule that ascends, providers that exist. *)
Definition sane_config (c : MerchantEntity.t) : Prop :=
  bps (MerchantEntity.platformFeeBps c) ∧ bps (MerchantEntity.reserveBps c) ∧ bps (MerchantEntity.payoutReserveBps c)
  ∧ days (MerchantEntity.reserveHoldDays c) ∧ days (MerchantEntity.payoutReserveHoldDays c)
  ∧ validPsps (MerchantEntity.enabledPspProviders c) = true
  ∧ ∀ tiers, MerchantEntity.feeTiers c = Some tiers →
      tiers ≠ [] ∧ Forall (λ t, bps (tier_bps t)) tiers ∧ ∃ l, thresholds tiers = Some l ∧ ascending (-1) l.

(** A connected merchant has a platform, which is one; a platform has none. *)
Definition hierarchy (rows : registryTable) (m : Account) : Prop :=
  match MerchantEntity.accountType (ac_config m) with
  | PLATFORM_ACCOUNT => MerchantEntity.platformMerchantId (ac_config m) = None
  | CONNECTED => ∃ p, p ∈ rows ∧ MerchantEntity.platformMerchantId (ac_config m) = Some (ac_merchantId p)
                   ∧ MerchantEntity.accountType (ac_config p) = PLATFORM_ACCOUNT
  end.

Definition well_formed (rows : registryTable) (m : Account) : Prop :=
  sane_config (ac_config m) ∧ hierarchy rows m
  ∧ ac_industryRiskCategory m = lookupIndustryRiskCategory (ac_mccCode m)
  ∧ sc_status (ac_sanctions m) ≠ None ∧ ac_legalName m ≠ Some ""%string.

(** The identity was screened, and not found. *)
Definition vetted (s : registry) (m : Account) : Prop :=
  ∃ g, g ∈ rg_screenings s ∧ sg_name g = identity m ∧ sg_status g ≠ HIT ∧ lengthBetween 1 255 (identity m) = true.

Section evidence.
Context (requests : list account_request).

(** The provider approved later. *)
Definition approved_later (r : review) (applicationId : string) : Prop :=
  ∃ status, match r with KYC => KYC_WEBHOOK (Some applicationId) status | KYB => KYB_WEBHOOK (Some applicationId) status end ∈ requests
    ∧ mapPersonaInquiryStatus status = APPROVED.

(** What stands behind a status: an answer of the provider for exactly this application. *)
Definition evidence (s : registry) (r : review) (status : KycStatus) (a : Application) : Prop :=
  match status with
  | KYC_VERIFIED =>
      ∃ v, v ∈ rg_verifications s ∧ vf_review v = r ∧ vf_application v = submitted a
        ∧ (vr_status (vf_result v) = APPROVED
           ∨ vr_status (vf_result v) = PENDING_DECISION ∧ ap_applicationId a = Some (vr_applicationId (vf_result v))
             ∧ approved_later r (vr_applicationId (vf_result v)))
  | KYC_PENDING_REVIEW =>
      ∃ v, v ∈ rg_verifications s ∧ vf_review v = r ∧ vf_application v = submitted a
        ∧ vr_status (vf_result v) = PENDING_DECISION ∧ ap_applicationId a = Some (vr_applicationId (vf_result v))
  | _ => True
  end.

Record good (s : registry) (m : Account) : Prop := {
  good_formed : well_formed (rg_merchants s) m;
  good_vetted : vetted s m;
  good_kyc : evidence s KYC (MerchantEntity.kycStatus (ac_config m)) (ac_kyc m);
  good_kyb : evidence s KYB (ac_kybStatus m) (ac_kyb m) }.

(** ** What others may do meanwhile *)

Definition stored (rows : registryTable) (m : Account) : Prop := ∃ r, r ∈ rows ∧ frozen r = frozen m.

Record grows (s s' : registry) : Prop := {
  grows_screenings : rg_screenings s ⊆ rg_screenings s';
  grows_verifications : rg_verifications s ⊆ rg_verifications s';
  grows_rows : ∀ m, stored (rg_merchants s) m → stored (rg_merchants s') m }.

#[export] Instance grows_preorder : PreOrder grows.
Proof.
  split; [by intros s; split|]. intros s1 s2 s3 [A1 B1 C1] [A2 B2 C2]. split; [by etrans..|auto].
Qed.

Lemma stored_in rows m : m ∈ rows → stored rows m.
Proof. intros. by exists m. Qed.

Lemma hierarchy_later rows rows' m : (∀ r, stored rows r → stored rows' r) → hierarchy rows m → hierarchy rows' m.
Proof.
  unfold hierarchy. intros Hs. destruct (MerchantEntity.accountType _); [done|]. intros (p & Hp & Hid & Ht).
  destruct (Hs p (stored_in _ _ Hp)) as (r & Hr & Hf). unfold frozen in Hf. injection Hf as _ _ Hm Hk _.
  exists r. split_and!; congruence.
Qed.

Lemma good_later s s' m : grows s s' → good s m → good s' m.
Proof.
  intros [HA HB HC] [(H1 & H2 & H3 & H4 & H5) (g & Hg & Hg') Hk Hb]. split.
  - split_and!; [done|by eapply hierarchy_later|done|done|done].
  - exists g. split; [by apply HA|done].
  - destruct (MerchantEntity.kycStatus _); cbn in *; try done; destruct Hk as (v & Hv & ?); exists v; (split; [by apply HB|done]).
  - destruct (ac_kybStatus m); cbn in *; try done; destruct Hb as (v & Hv & ?); exists v; (split; [by apply HB|done]).
Qed.

(** The invariant; the ghost value of a program is the ids it drew and has not stored. *)
Record sound `{World} (s : registry) (gs : list (list string)) : Prop := {
  sound_ids : NoDup ((ac_id <$> rg_merchants s) ++ mjoin gs);
  sound_drawn : ∀ i, i ∈ (ac_id <$> rg_merchants s) ++ mjoin gs → ∃ n, i = uuid n ∧ (n < rg_uuids s)%nat;
  sound_merchantIds : NoDup (ac_merchantId <$> rg_merchants s);
  sound_rows : ∀ m, m ∈ rg_merchants s → good s m;
  sound_list : Forall (λ e, fits_name (normalizedName e)) (SanctionsListStore.entries (rg_list s));
  sound_screenings : ∀ g, g ∈ rg_screenings s → sg_status g ≠ HIT → fits_name (normalizeName (sg_name g)) →
                       normalizeName (sg_name g) ∉ normalizedName <$> sg_list g }.

End evidence.

(** ** The events *)

Definition tick (s : registry) : registry := s {{ rg_calls := S (rg_calls s) }}.

#[export] Instance account_answers `{World} : Answers account_handle.
Proof.
  intros X c now s. destruct c; cbn [account_handle]; unfold faulty;
    repeat match goal with
    | |- context [saveMerchant ?m ?r] => destruct (saveMerchant m r)
    | |- context [OfacSdnSanctionsAdapter.screen ?k ?e ?n] => destruct (OfacSdnSanctionsAdapter.screen k e n)
    | |- context [fault ?n] => destruct (fault n)
    end; eauto.
Qed.

Section logic.
Context `{W : World} (requests : list account_request) (threshold_range : 0 < matchThreshold ≤ Num.one).
Abbreviation sound := (sound requests).
Abbreviation good := (good requests).

Definition safe {A} (p : P A) (Φ : registry → list string → A → Prop) (s : registry) (g : list string) : Prop :=
  wp account_handle sound grows (λ _, True) p Φ (λ _ _ _, True) s g.

Lemma safe_bind {A B} (p : P A) (f : A → P B) Φ s g : safe p (λ s g a, safe (f a) Φ s g) s g → safe (p ≫= f) Φ s g.
Proof. apply wp_bind. Qed.

Lemma safe_mono {A} (p : P A) (Φ Φ' : registry → list string → A → Prop) s g :
  (∀ s g a, Φ s g a → Φ' s g a) → safe p Φ s g → safe p Φ' s g.
Proof. intros H. by apply wp_mono. Qed.

Lemma safe_of_result {A} (r : result A) (Φ : registry → list string → A → Prop) s g : (∀ a, r = Ok a → Φ s g a) → safe (of_result r) Φ s g.
Proof. intros H. by apply wp_of_result_rule. Qed.

(** Whatever happened, the registry only grew. *)
Lemma safe_try {A} (p : P A) h (Φ : registry → list string → A → Prop) s g :
  safe p (λ _ _ _, True) s g → (∀ s' g' a, grows s s' → Φ s' g' a) → (∀ s' g' e, grows s s' → safe (h e) Φ s' g') → safe (catch p h) Φ s g.
Proof.
  intros Hp HΦ Hh. apply wp_catch_answers; [apply _|]. eapply wp_mono; [..|apply wp_grows; [apply _|exact Hp]]; cbn.
  - intros s' g' a [Hg _]. by apply HΦ.
  - intros s' g' e [Hg _]. by apply Hh.
Qed.

Lemma grows_tick s : grows s (tick s).
Proof. by split. Qed.

(** The rows stay what they are. *)
Lemma sound_frame s s' gs : rg_merchants s' = rg_merchants s → rg_uuids s' = rg_uuids s → grows s s' →
  Forall (λ e, fits_name (normalizedName e)) (SanctionsListStore.entries (rg_list s')) →
  (∀ g, g ∈ rg_screenings s' → sg_status g ≠ HIT → fits_name (normalizeName (sg_name g)) →
     normalizeName (sg_name g) ∉ normalizedName <$> sg_list g) →
  sound s gs → sound s' gs.
Proof.
  intros Hm Hu Hg Hl Hs [H1 H2 H3 H4 H5 H6]. split; rewrite ?Hm, ?Hu; try done. intros m Hin. eapply good_later; [done|by apply H4].
Qed.

Lemma sound_tick s gs : sound s gs → sound (tick s) gs.
Proof. intros Hi. eapply sound_frame; [..|exact Hi]; [done|done|apply grows_tick|by destruct Hi|by destruct Hi]. Qed.

(** Calls that change nothing but the count. *)
Lemma safe_quiet {X} (c : account_event X) Φ s g :
  (∀ now s1, ∃ x, account_handle _ c now s1 = (tick s1, Ok x)) → (∀ s' x, grows s s' → Φ s' g x) → safe (call c) Φ s g.
Proof.
  intros Hc HΦ. apply wp_call. intros now s1 pre post _ Hg Hi. destruct (Hc now s1) as (x & ->). exists (tick s1), x, g.
  split_and!; [done|apply grows_tick|by apply sound_tick|]. apply HΦ. by etrans; [|apply grows_tick].
Qed.

(** Calls that can fail. *)
Lemma safe_ask {X} (c : account_event (result X)) (after : Date → registry → registry) (answer : registry → X) g' Φ s g :
  (∀ now s1, account_handle _ c now s1 = faulty (fault (rg_calls s1)) (tick s1) (after now s1) (Ok (answer s1))) →
  (∀ now s1 pre post, grows s s1 → sound s1 (pre ++ g :: post) →
     grows s1 (after now s1) ∧ sound (after now s1) (pre ++ g' :: post) ∧ Φ (after now s1) g' (answer s1)) →
  safe (ask c) Φ s g.
Proof.
  intros Hc HΦ. apply safe_bind, wp_call. intros now s1 pre post _ Hg Hi. rewrite Hc.
  destruct (HΦ now s1 pre post Hg Hi) as (Hg2 & Hi2 & Hφ). unfold faulty. destruct (fault _).
  - exists (after now s1), (Ok (answer s1)), g'. done.
  - exists (tick s1), broken, g. split_and!; [done|apply grows_tick|by apply sound_tick|done].
  - exists (after now s1), broken, g'. done.
Qed.

Lemma safe_read {X} (c : account_event (result X)) (answer : registry → X) Φ s g :
  (∀ now s1, account_handle _ c now s1 = faulty (fault (rg_calls s1)) (tick s1) (tick s1) (Ok (answer s1))) →
  (∀ s1 gs, grows s s1 → sound s1 gs → Φ (tick s1) g (answer s1)) →
  safe (ask c) Φ s g.
Proof.
  intros Hc HΦ. apply (safe_ask c (λ _, tick) answer g); [exact Hc|]. intros now s1 pre post Hg Hi.
  split_and!; [apply grows_tick|by apply sound_tick|by eapply HΦ].
Qed.

(** ** Lookups *)

Definition found (s : registry) (m : Account) : Prop := good s m ∧ stored (rg_merchants s) m.

Lemma found_later s s' m : grows s s' → found s m → found s' m.
Proof. intros Hg [H1 H2]. split; [by eapply good_later|by eapply grows_rows]. Qed.

Lemma found_row s gs m : sound s gs → m ∈ rg_merchants s → found s m.
Proof. intros Hi Hm. split; [by eapply sound_rows|by apply stored_in]. Qed.

Lemma find_elem (f : Account → bool) l m : List.find f l = Some m → m ∈ l ∧ f m = true.
Proof. intros H. apply List.find_some in H as [H ?]. split; [by apply list_elem_of_In|done]. Qed.

Lemma safe_findMaster mid Φ s g :
  (∀ s' m, grows s s' → (∀ a, m = Some a → found s' a ∧ ac_merchantId a = mid) → Φ s' g m) → safe (ask (FIND_ON_MASTER mid)) Φ s g.
Proof.
  intros HΦ. eapply safe_read; [by intros|]. intros s1 gs Hg Hi. apply HΦ; [by etrans; [|apply grows_tick]|].
  intros a Ha. apply find_elem in Ha as [Ha Hm%String.eqb_eq]. split; [|done]. eapply found_later; [apply grows_tick|by eapply found_row].
Qed.

Lemma safe_findApplication r aid Φ s g :
  (∀ s' m, grows s s' →
     (∀ a, m = Some a → found s' a ∧ ap_applicationId (match r with KYC => ac_kyc a | KYB => ac_kyb a end) = Some aid) → Φ s' g m) →
  safe (ask (FIND_BY_APPLICATION r aid)) Φ s g.
Proof.
  intros HΦ. eapply safe_read; [by intros|]. intros s1 gs Hg Hi. apply HΦ; [by etrans; [|apply grows_tick]|].
  intros a Ha. apply find_elem in Ha as [Ha Hm%bool_decide_eq_true]. split; [|done]. eapply found_later; [apply grows_tick|by eapply found_row].
Qed.

Lemma safe_any {X} (c : account_event (result X)) (answer : registry → X) Φ s g :
  (∀ now s1, account_handle _ c now s1 = faulty (fault (rg_calls s1)) (tick s1) (tick s1) (Ok (answer s1))) →
  (∀ s' x, grows s s' → Φ s' g x) → safe (ask c) Φ s g.
Proof. intros Hc HΦ. eapply safe_read; [exact Hc|]. intros s1 gs Hg _. apply HΦ. by etrans; [|apply grows_tick]. Qed.

(** ** Saves *)

Lemma good_written s r m : good s m → good s (writtenRow r m).
Proof. intros [H1 H2 H3 H4]. by split. Qed.

Lemma unique_id rows r r' : NoDup (ac_id <$> rows) → r ∈ rows → r' ∈ rows → ac_id r = ac_id r' → r = r'.
Proof. apply keyed_unique. Qed.

(** The rows after an update. *)
Definition updated (m : Account) (rows : registryTable) : registryTable :=
  (λ r, if String.eqb (ac_id r) (ac_id m) then writtenRow r m else r) <$> rows.

Lemma updated_frozen m rows : NoDup (ac_id <$> rows) → stored rows m → frozen <$> updated m rows = frozen <$> rows.
Proof.
  intros Hn (r0 & Hr0 & Hf0). unfold updated. rewrite <- list_fmap_compose. apply list_fmap_ext. intros i r Hr%list_elem_of_lookup_2. cbn.
  destruct (String.eqb_spec (ac_id r) (ac_id m)) as [Heq|]; [|done].
  assert (r = r0) as -> by (apply (unique_id rows); [done..|]; unfold frozen in Hf0; congruence).
  change (frozen (writtenRow r0 m)) with (frozen m). done.
Qed.

Lemma stored_frozen rows rows' m : frozen <$> rows' = frozen <$> rows → stored rows m → stored rows' m.
Proof.
  intros Heq (r & Hr & Hf). assert (frozen r ∈ frozen <$> rows') as (r' & Hf' & Hr')%list_elem_of_fmap by (rewrite Heq; by apply list_elem_of_fmap_2).
  exists r'. split; [done|congruence].
Qed.

Lemma ids_of_frozen (rows : registryTable) : ac_id <$> rows = (λ f, f.1.1.1.1) <$> (frozen <$> rows).
Proof. by rewrite <- list_fmap_compose. Qed.

Lemma merchantIds_of_frozen (rows : registryTable) : ac_merchantId <$> rows = (λ f, f.1.1.2) <$> (frozen <$> rows).
Proof. by rewrite <- list_fmap_compose. Qed.

Lemma sound_update s gs m : sound s gs → found s m →
  let s' := tick s {{ rg_merchants := updated m (rg_merchants s) }} in grows s s' ∧ sound s' gs.
Proof.
  intros Hi [Hm Hs] s'. assert (NoDup (ac_id <$> rg_merchants s)) as Hn by (by apply sound_ids, NoDup_app in Hi as [? _]).
  pose proof (updated_frozen m _ Hn Hs) as Hf.
  assert (grows s s') as Hg by (split; [done..|]; intros r; by apply stored_frozen). split; [done|].
  assert (ac_id <$> rg_merchants s' = ac_id <$> rg_merchants s ∧ ac_merchantId <$> rg_merchants s' = ac_merchantId <$> rg_merchants s) as [Hi1 Hi2].
  { rewrite !ids_of_frozen, !merchantIds_of_frozen. change (rg_merchants s') with (updated m (rg_merchants s)). by rewrite Hf. }
  destruct Hi as [H1 H2 H3 H4 H5 H6]. split; rewrite ?Hi1, ?Hi2; try done.
  - intros r Hr. apply (good_later _ s); [done|]. apply list_elem_of_fmap in Hr as (r0 & -> & Hr0).
    case_match; [by apply good_written|by apply H4].
Qed.

Lemma saveMerchant_stored m rows : stored rows m → saveMerchant m rows = Some (updated m rows).
Proof.
  intros (r & Hr & Hf). unfold saveMerchant. rewrite (proj2 (existsb_exists _ _)); [done|]. exists r. split; [by apply list_elem_of_In|].
  apply String.eqb_eq. unfold frozen in Hf. congruence.
Qed.

(** An update of a merchant that was found. *)
Lemma safe_save m Φ s g : found s m → (∀ s', grows s s' → Φ s' g tt) → safe (MerchantService.save m) Φ s g.
Proof.
  intros Hm HΦ. apply safe_bind, wp_call. intros now s1 pre post _ Hg Hi. pose proof (found_later _ _ _ Hg Hm) as Hm1.
  destruct (sound_update _ _ _ Hi Hm1) as [Hg2 Hi2]. cbn [account_handle].
  change (rg_merchants (s1 {{ rg_calls := S (rg_calls s1) }})) with (rg_merchants s1). rewrite (saveMerchant_stored m) by apply Hm1.
  unfold faulty. destruct (fault _).
  - eexists _, (Ok tt), g. split_and!; [reflexivity|done|done|]. apply HΦ. by etrans.
  - exists (tick s1), broken, g. split_and!; [done|apply grows_tick|by apply sound_tick|done].
  - eexists _, broken, g. split_and!; [reflexivity|done|done|done].
Qed.

(** A new row, with an id the program drew. *)
Lemma sound_insert s pre post m : sound s (pre ++ [ac_id m] :: post) → good s m → ac_merchantId m ∉ ac_merchantId <$> rg_merchants s →
  let s' := tick s {{ rg_merchants := rg_merchants s ++ [m] }} in grows s s' ∧ sound s' (pre ++ [] :: post).
Proof.
  intros Hi Hm Hnew s'. assert (grows s s') as Hg.
  { split; [done..|]. intros r (r' & Hr & Hf). exists r'. split; [|done]. apply elem_of_app. by left. }
  split; [done|].
  assert ((ac_id <$> rg_merchants s') ++ mjoin (pre ++ [] :: post) ≡ₚ (ac_id <$> rg_merchants s) ++ mjoin (pre ++ [ac_id m] :: post)) as Hp.
  { change (rg_merchants s') with (rg_merchants s ++ [m]). rewrite fmap_app, !join_app. cbn. solve_Permutation. }
  destruct Hi as [H1 H2 H3 H4 H5 H6]. split; try done.
  - by rewrite Hp.
  - intros i. rewrite Hp. apply H2.
  - change (rg_merchants s') with (rg_merchants s ++ [m]). rewrite fmap_app. apply NoDup_app. split_and!; [done| |apply NoDup_singleton].
    intros x Hx Hin. apply list_elem_of_singleton in Hin as ->. done.
  - intros r [Hr|Hr%list_elem_of_singleton]%elem_of_app; (apply (good_later _ s); [done|]); [by apply H4|by rewrite Hr].
Qed.

Lemma safe_insert m Φ s : good s m → (∀ s', grows s s' → Φ s' [] tt) → safe (MerchantService.save m) Φ s [ac_id m].
Proof.
  intros Hm HΦ. apply safe_bind, wp_call. intros now s1 pre post _ Hg Hi. pose proof (good_later _ _ _ _ Hg Hm) as Hm1. cbn [account_handle].
  change (rg_merchants (s1 {{ rg_calls := S (rg_calls s1) }})) with (rg_merchants s1). unfold saveMerchant.
  destruct (existsb (λ r, String.eqb (ac_id r) (ac_id m)) (rg_merchants s1)) eqn:E1.
  { exfalso. apply existsb_exists in E1 as (r & Hr%list_elem_of_In & Heq%String.eqb_eq). pose proof (sound_ids _ _ _ Hi) as (_ & Hdis & _)%NoDup_app.
    apply (Hdis (ac_id r)); [by apply list_elem_of_fmap_2|].
    rewrite Heq. apply list_elem_of_join. exists [ac_id m]. split; [left|]. apply elem_of_app. right. left. }
  match goal with |- context [existsb ?f ?l] => destruct (existsb f l) eqn:E2 end.
  { exists (tick s1), (Throw (ExternalFailure "duplicate key")), [ac_id m]. split_and!; [done|apply grows_tick|by apply sound_tick|done]. }
  assert (ac_merchantId m ∉ ac_merchantId <$> rg_merchants s1) as Hnew.
  { intros (r & Heq & Hr)%list_elem_of_fmap. apply not_true_iff_false in E2. apply E2, existsb_exists. exists r.
    split; [by apply list_elem_of_In|]. cbv beta. by rewrite Heq, String.eqb_refl. }
  destruct (sound_insert _ _ _ _ Hi Hm1 Hnew) as [Hg2 Hi2]. unfold faulty. destruct (fault _).
  - eexists _, (Ok tt), []. split_and!; [reflexivity|done|done|]. apply HΦ. by etrans.
  - exists (tick s1), broken, [ac_id m]. split_and!; [done|apply grows_tick|by apply sound_tick|done].
  - eexists _, broken, []. split_and!; [reflexivity|done|done|done].
Qed.

(** ** Other events *)

Lemma safe_uuid Φ s : (∀ s' i, grows s s' → Φ s' [i] i) → safe (call UUID) Φ s [].
Proof.
  intros HΦ. apply wp_call. intros now s1 pre post _ Hg Hi. cbn [account_handle]. eexists _, _, [uuid (rg_uuids s1)]. split; [reflexivity|].
  set (s2 := tick s1 {{ rg_uuids := S (rg_uuids s1) }}). assert (grows s1 s2) as Hg2 by by split. split; [exact Hg2|]. split; [change (sound s2 (pre ++ [uuid (rg_uuids s1)] :: post))|apply HΦ; by etrans].
  destruct Hi as [H1 H2 H3 H4 H5 H6].
  assert (uuid (rg_uuids s1) ∉ (ac_id <$> rg_merchants s1) ++ mjoin (pre ++ [] :: post)) as Hnew.
  { intros (n & Hn%uuid_inj & Hlt)%H2. lia. }
  assert ((ac_id <$> rg_merchants s1) ++ mjoin (pre ++ [uuid (rg_uuids s1)] :: post)
    ≡ₚ uuid (rg_uuids s1) :: (ac_id <$> rg_merchants s1) ++ mjoin (pre ++ [] :: post)) as Hp by (rewrite !join_app; cbn; solve_Permutation).
  split; try done; change (rg_merchants s2) with (rg_merchants s1); change (rg_uuids s2) with (S (rg_uuids s1)).
  - rewrite Hp. by constructor.
  - intros i. rewrite Hp, elem_of_cons. intros [->|(n & -> & ?)%H2]; [exists (rg_uuids s1)|exists n]; (split; [done|lia]).
  - intros m Hm. by apply (good_later _ s1), H4.
Qed.

(** A screening that is no HIT is on record. *)
Definition on_record (s : registry) (name : string) (st : SanctionsScreeningStatus) : Prop :=
  ∃ g, g ∈ rg_screenings s ∧ sg_name g = name ∧ sg_status g = st.

Lemma safe_screenCall name tax Φ s g :
  (∀ s' r, grows s s' → on_record s' name (sr_status r) → Φ s' g r) → safe (ask (SCREEN name tax)) Φ s g.
Proof.
  intros HΦ. apply safe_bind, wp_call. intros now s1 pre post _ Hg Hi. cbn [account_handle].
  change (rg_list (s1 {{ rg_calls := S (rg_calls s1) }})) with (rg_list s1). set (entries := SanctionsListStore.entries (rg_list s1)).
  destruct (OfacSdnSanctionsAdapter.screen _ entries name) as [r|] eqn:Es;
    [|exists (tick s1), broken, g; split_and!; [done|apply grows_tick|by apply sound_tick|done]].
  set (s2 := tick s1 {{ rg_screenings := rg_screenings s1 ++ [mkScreening name entries (sr_status r)] }}).
  assert (grows s1 s2) as Hg2 by (split; [|done..]; cbn; set_solver).
  assert (sound s2 (pre ++ g :: post)) as Hi2.
  { eapply sound_frame; [..|exact Hi]; [done|done|done|by destruct Hi|]. intros g0 [Hin|Hin]%elem_of_app; [by eapply sound_screenings|].
    apply list_elem_of_singleton in Hin as ->. cbn. intros Hh Hf Hin. apply Hh.
    destruct (screen_hit matchThreshold entries name threshold_range Hf (sound_list _ _ _ Hi)) as (r' & Hr' & Hhit).
    rewrite Es in Hr'. injection Hr' as <-. by apply Hhit. }
  unfold faulty. destruct (fault _).
  - exists s2, (Ok r), g. split_and!; [reflexivity|done|done|]. cbn. apply HΦ; [by etrans|]. exists (mkScreening name entries (sr_status r)).
    split; [|done]. apply elem_of_app. right. left.
  - exists (tick s1), broken, g. split_and!; [done|apply grows_tick|by apply sound_tick|done].
  - exists s2, broken, g. by split_and!.
Qed.

Lemma safe_verify r a Φ s g :
  (∀ s' v, grows s s' → mkVerification r a v ∈ rg_verifications s' → Φ s' g v) → safe (ask (VERIFY r a)) Φ s g.
Proof.
  intros HΦ. eapply (safe_ask _ (λ _ s1, tick s1 {{ rg_verifications := rg_verifications s1 ++ [mkVerification r a (verification (rg_calls s1) r a)] }})
    (λ s1, verification (rg_calls s1) r a) g); [done|]. intros now s1 pre post Hg Hi.
  match goal with |- grows _ ?s ∧ _ => set (s2 := s) end. assert (grows s1 s2) as Hg2 by (split; [done| |done]; cbn; set_solver).
  split_and!; [done|eapply sound_frame; [..|exact Hi]; [done|done|done|by destruct Hi|by destruct Hi]|].
  apply HΦ; [by etrans|]. apply elem_of_app. right. left.
Qed.

(** Effects the invariant does not mention. *)
Lemma safe_effect {X} (c : account_event (result X)) (after : Date → registry → registry) (answer : registry → X) Φ s g :
  (∀ now s1, account_handle _ c now s1 = faulty (fault (rg_calls s1)) (tick s1) (after now s1) (Ok (answer s1))) →
  (∀ now s1, rg_merchants (after now s1) = rg_merchants s1 ∧ rg_uuids (after now s1) = rg_uuids s1 ∧ rg_list (after now s1) = rg_list s1
     ∧ rg_screenings (after now s1) = rg_screenings s1 ∧ rg_verifications (after now s1) = rg_verifications s1) →
  (∀ s' x, grows s s' → Φ s' g x) → safe (ask c) Φ s g.
Proof.
  intros Hc Ha HΦ. eapply (safe_ask _ after answer g); [exact Hc|]. intros now s1 pre post Hg Hi. destruct (Ha now s1) as (H1 & H2 & H3 & H4 & H5).
  assert (grows s1 (after now s1)) as Hg2 by (split; [by rewrite H4|by rewrite H5|by rewrite H1]).
  split_and!; [done|eapply sound_frame; [..|exact Hi]; [done|done|done|by rewrite H3; destruct Hi|by rewrite H4; destruct Hi]|]. apply HΦ. by etrans.
Qed.

Lemma safe_revoke mid Φ s g : (∀ s', grows s s' → Φ s' g tt) → safe (ask (REVOKE_ALL mid)) Φ s g.
Proof.
  intros HΦ. eapply (safe_effect _ (λ now s1, tick s1 {{ rg_revoked := rg_revoked s1 ++ [(mid, now)] }}) (λ _, tt)); [done|done|].
  intros s' []. apply HΦ.
Qed.

Lemma safe_send c mid o Φ s g : (∀ s', grows s s' → Φ s' g tt) → safe (ask (SEND c mid o)) Φ s g.
Proof.
  intros HΦ. eapply (safe_effect _ (λ now s1, tick s1 {{ rg_sent := rg_sent s1 ++ [(mid, so_status o)] }}) (λ _, tt)); [done|done|].
  intros s' []. apply HΦ.
Qed.

(** A state change of one atomic event. *)
Lemma safe_atomic (c : account_event unit) (after : Date → registry → registry) Φ s g :
  (∀ now s1, account_handle _ c now s1 = (after now s1, Ok tt)) →
  (∀ now s1 gs, sound s1 gs → grows s1 (after now s1) ∧ sound (after now s1) gs) → (∀ s', grows s s' → Φ s' g tt) → safe (call c) Φ s g.
Proof.
  intros Hc Ha HΦ. apply wp_call. intros now s1 pre post _ Hg Hi. rewrite Hc. destruct (Ha now s1 _ Hi) as [Hg2 Hi2].
  exists (after now s1), tt, g. split_and!; [done..|]. apply HΦ. by etrans.
Qed.

Lemma safe_replication Φ s g : (∀ s', grows s s' → Φ s' g tt) → safe (call REPLICATION) Φ s g.
Proof.
  apply (safe_atomic _ (λ _ s1, tick s1 {{ rg_replica := rg_merchants s1 }})); [done|]. intros now s1 gs Hi. split; [by split|].
  eapply sound_frame; [..|exact Hi]; [done|done|by split|by destruct Hi|by destruct Hi].
Qed.

Lemma safe_refresh response Φ s g : (∀ csv, response = Some (Ok csv) → Z.of_nat (String.length csv) ≤ 2 ^ 39) →
  (∀ s', grows s s' → Φ s' g tt) → safe (call (FETCH_LIST response)) Φ s g.
Proof.
  intros Hlen. apply (safe_atomic _ (λ now s1, tick s1 {{ rg_list := (refresh now response (rg_list s1)).1 }})); [done|].
  intros now s1 gs Hi. split; [by split|]. eapply sound_frame; [..|exact Hi]; [done|done|by split| |by destruct Hi].
  cbn. pose proof (sound_list _ _ _ Hi) as Hl. unfold refresh. destruct response as [[csv|e]|]; [|done..]. case_match; [done|].
  by apply parsed_fits, Hlen.
Qed.

(** ** The operations *)

(** What an assignment must keep. *)
Definition keeps (assign : Account → result Account) : Prop :=
  ∀ s m m', good s m → assign m = Ok m' → good s m' ∧ frozen m' = frozen m.

Lemma found_keeps assign s m m' : keeps assign → found s m → assign m = Ok m' → found s m'.
Proof.
  intros Hk [Hg (r & Hr & Hf)] Ha. destruct (Hk s m m' Hg Ha) as [H1 H2]. split; [done|]. exists r. split; [done|congruence].
Qed.

Lemma safe_getOrThrow mid Φ s g :
  (∀ s' m, grows s s' → found s' m → ac_merchantId m = mid → Φ s' g m) → safe (MerchantService.getOrThrow mid) Φ s g.
Proof.
  intros HΦ. apply safe_bind, safe_findMaster. intros s' [m|] Hg Hm; [|done]. destruct (Hm m eq_refl). by apply HΦ.
Qed.

Lemma safe_modify mid assign Φ s g : keeps assign → (∀ s' m, grows s s' → Φ s' g m) → safe (MerchantService.modify mid assign) Φ s g.
Proof.
  intros Hk HΦ. apply safe_bind, safe_getOrThrow. intros s1 m H1 Hm _. apply safe_bind, safe_of_result. intros m' Ha.
  apply safe_bind, safe_save; [by eapply found_keeps|]. intros s2 H2. apply HΦ. by etrans.
Qed.

Lemma safe_timed mid assign Φ s g : (∀ now, keeps (λ m, Ok (assign now m))) → (∀ s' m, grows s s' → Φ s' g m) →
  safe (MerchantService.timed mid assign) Φ s g.
Proof.
  intros Hk HΦ. apply safe_bind, safe_getOrThrow. intros s1 m H1 Hm _. apply safe_bind. eapply safe_quiet; [by eauto|]. intros s2 now H2.
  apply safe_bind, safe_save; [|intros s3 H3; apply HΦ; by repeat (etrans; [eassumption|])].
  eapply (found_keeps (λ m, Ok (assign now m))); [done|by eapply found_later|done].
Qed.

Lemma safe_configure mid f Φ s g :
  (∀ c c', sane_config c → f c = Ok c' → sane_config c' ∧ MerchantEntity.kycStatus c' = MerchantEntity.kycStatus c
     ∧ MerchantEntity.merchantId c' = MerchantEntity.merchantId c ∧ MerchantEntity.accountType c' = MerchantEntity.accountType c
     ∧ MerchantEntity.platformMerchantId c' = MerchantEntity.platformMerchantId c) →
  (∀ s' m, grows s s' → Φ s' g m) → safe (MerchantService.configure mid f) Φ s g.
Proof.
  intros Hf. apply safe_modify. intros s' m m' [(H1 & H2 & H3 & H4 & H5) Hv Hk Hb] Ha. cbn in Ha. inv_ok.
  destruct (Hf _ _ H1 E) as (Hs & Hks & Hmid & Hat & Hpm). split.
  - split; cbn; [|done|by rewrite Hks|done]. split_and!; [done| |done|done|done]. unfold hierarchy in *. cbn. by rewrite Hat, Hpm.
  - unfold frozen, ac_merchantId. cbn. by rewrite Hmid, Hat, Hpm.
Qed.

(** Assignments that keep the identity, the configuration and the reviews. *)
Ltac keep_columns :=
  let s := fresh "s" in let m := fresh "m" in let m' := fresh "m'" in let Hg := fresh "Hg" in let Ha := fresh "Ha" in
  intros s m m' Hg Ha; injection Ha as <-; split; [destruct Hg as [(? & ? & ? & ? & ?) ? ? ?]; split; try done; by split_and!|done].

(** Settings that keep the configuration sane. *)
Ltac keep_sane :=
  match goal with H : sane_config _ |- _ => destruct H as (? & ? & ? & ? & ? & ? & ?) end;
  unfold sane_config; repeat match goal with |- _ ∧ _ => split end; try first [assumption | reflexivity].

Lemma safe_screen legal name tax Φ s g :
  (∀ s' o, grows s s' → on_record s' (nullish legal name) (so_status o) → Φ s' g o) → safe (SanctionsScreeningService.screen legal name tax) Φ s g.
Proof. intros HΦ. apply safe_bind, safe_screenCall. intros s1 r H1 Hr. by apply HΦ. Qed.

Lemma safe_refuseHit o Φ s g : (so_status o ≠ HIT → Φ s g tt) → safe (MerchantService.refuseHit o) Φ s g.
Proof. intros HΦ. unfold MerchantService.refuseHit. case_bool_decide; [done|by apply HΦ]. Qed.

Lemma safe_announce mid o Φ s g : (∀ s', grows s s' → Φ s' g tt) → safe (MerchantService.announce mid o) Φ s g.
Proof.
  intros HΦ. unfold MerchantService.announce. case_bool_decide; [|by apply HΦ]. eapply safe_quiet; [by eauto|]. intros s' []. apply HΦ.
Qed.

Lemma safe_done {A B} (p : P A) (f : A → B) s g : safe p (λ _ _ _, True) s g → safe (a ← p; mret (f a)) (λ _ _ _, True) s g.
Proof. intros Hp. apply safe_bind. eapply safe_mono; [|exact Hp]. done. Qed.

Lemma truthy_some o : truthy o = true → ∃ x, o = Some x ∧ (x =? "")%string = false.
Proof. destruct o as [x|]; [|done]. cbn. intros H%negb_true_iff. by exists x. Qed.

Lemma safe_checkPlatform d Φ s g :
  (∀ s', grows s s' →
     (match nullish (cm_accountType d) PLATFORM_ACCOUNT with
      | PLATFORM_ACCOUNT => ifTruthy (cm_platformMerchantId d) = None
      | CONNECTED => ∃ p, p ∈ rg_merchants s' ∧ ifTruthy (cm_platformMerchantId d) = Some (ac_merchantId p)
                     ∧ MerchantEntity.accountType (ac_config p) = PLATFORM_ACCOUNT
      end) → Φ s' g tt) → safe (MerchantService.checkPlatform d) Φ s g.
Proof.
  intros HΦ. unfold MerchantService.checkPlatform, ifTruthy in *. destruct (nullish _ PLATFORM_ACCOUNT); destruct (truthy (cm_platformMerchantId d)) eqn:Ht; cbn [negb].
  - done.
  - by apply HΦ.
  - apply safe_bind, safe_findMaster. intros s1 [p|] H1 Hp; [|done]. destruct (Hp p eq_refl) as [[_ (r & Hr & Hf)] Hid].
    case_bool_decide as Hk; [|done]. apply HΦ; [done|]. unfold frozen in Hf. injection Hf as _ _ Hm Ha _. exists r. split_and!; [done| |congruence].
    destruct (truthy_some _ Ht) as (x & Hx & _). rewrite Hx in *. cbn in Hid. congruence.
  - done.
Qed.

Lemma between_iff lo hi n : between lo hi n = true → lo ≤ n ≤ hi.
Proof. unfold between. intros. reflect_tests. lia. Qed.

Lemma optional_nullish {A} (check : A → bool) (Q : A → Prop) o d : (∀ x, check x = true → Q x) → Q d → optional check o = true → Q (nullish o d).
Proof. destruct o; cbn; auto. Qed.

Lemma new_sane d id k h c now o : validCreateMerchant d = true → sane_config (ac_config (MerchantService.newAccount id k h c now d o)).
Proof.
  unfold validCreateMerchant. intros Hv. reflect_tests. unfold sane_config, MerchantService.newAccount. cbn.
  split_and!; try (eapply optional_nullish; [apply between_iff|unfold bps, days; lia|done]); [|done].
  by eapply (optional_nullish validPsps (λ l, validPsps l = true)).
Qed.

Lemma ifTruthy_identity d : optional (lengthBetween 1 255) (cm_legalName d) = true →
  (if truthy (ifTruthy (cm_legalName d)) then nullish (ifTruthy (cm_legalName d)) "" else cm_name d) = nullish (cm_legalName d) (cm_name d).
Proof. unfold ifTruthy. destruct (cm_legalName d) as [[|c l]|]; cbn; done. Qed.

Lemma new_good s d id k h c now o : validCreateMerchant d = true →
  on_record s (nullish (cm_legalName d) (cm_name d)) (so_status o) → so_status o ≠ HIT →
  (match nullish (cm_accountType d) PLATFORM_ACCOUNT with
   | PLATFORM_ACCOUNT => ifTruthy (cm_platformMerchantId d) = None
   | CONNECTED => ∃ p, p ∈ rg_merchants s ∧ ifTruthy (cm_platformMerchantId d) = Some (ac_merchantId p)
                  ∧ MerchantEntity.accountType (ac_config p) = PLATFORM_ACCOUNT
   end) → good s (MerchantService.newAccount id k h c now d o).
Proof.
  intros Hv (gg & Hin & Hname & Hst) Hhit Hp. split; [|..|done|done].
  - split_and!; [by apply new_sane|exact Hp|done|done|]. cbn. unfold ifTruthy. by destruct (cm_legalName d) as [[]|].
  - exists gg. unfold identity. cbn. unfold validCreateMerchant in Hv. reflect_tests. rewrite ifTruthy_identity by done. split_and!; [done|done|congruence|].
    by destruct (cm_legalName d).
Qed.

Lemma safe_create d s : validCreateMerchant d = true → safe (MerchantService.createMerchant d) (λ _ _ _, True) s [].
Proof.
  intros Hv. apply safe_bind. eapply safe_any; [done|]. intros s1 existing H1. destruct existing; [done|]. cbn [isSome].
  apply safe_bind, safe_checkPlatform. intros s2 H2 Hp. apply safe_bind, safe_screen. intros s3 o H3 Ho. apply safe_bind, safe_refuseHit. intros Hhit.
  do 2 (apply safe_bind; eapply safe_quiet; [by eauto|]; let Q := fresh "Q" in intros ? ? Q).
  apply safe_bind, safe_uuid. intros s4 id H4. do 2 (apply safe_bind; eapply safe_quiet; [by eauto|]; let Q := fresh "Q" in intros ? ? Q).
  apply safe_bind. eapply safe_any; [done|]. intros s5 ct H5. apply safe_bind. eapply safe_quiet; [by eauto|]. intros s6 now H6.
  assert (grows s3 s6) as H36 by by repeat (etrans; [eassumption|]). assert (grows s2 s6) as H26 by by etrans.
  apply safe_bind, (safe_insert (MerchantService.newAccount id _ _ _ _ _ _)).
  - apply new_good; [done| |done|].
    + destruct Ho as (gg & Hin & ?). exists gg. split; [by apply (grows_screenings s3)|done].
    + destruct (nullish (cm_accountType d) PLATFORM_ACCOUNT) eqn:Ek; [done|]. destruct Hp as (p & Hp & Hid & Hk).
      destruct (grows_rows _ _ H26 p (stored_in _ _ Hp)) as (r & Hr & Hf). unfold frozen in Hf. injection Hf as _ _ Hm Ha _. exists r. split_and!; congruence.
  - intros s7 H7. by apply safe_bind, safe_announce.
Qed.

(** The row of a submission. *)
Lemma identified_vetted s m legal tax now o : on_record s legal (so_status o) → so_status o ≠ HIT → lengthBetween 1 255 legal = true →
  vetted s (MerchantService.identified legal tax now o m).
Proof.
  intros (gg & Hin & Hn & Hst) Hhit Hl. assert (identity (MerchantService.identified legal tax now o m) = legal) as Hid.
  { unfold identity. cbn. destruct legal; [done|]. done. }
  exists gg. rewrite Hid. split_and!; [done|done|congruence|done].
Qed.

Lemma decided_evidence s r a v st aid : mkVerification r a v ∈ rg_verifications s → submitted a = a → MerchantService.decided v = (st, aid) →
  evidence requests s r st (a {{ ap_applicationId := aid }}).
Proof.
  intros Hv Ha. unfold MerchantService.decided. destruct (vr_status v) eqn:Es; intros [= <- <-]; cbn; [| |].
  - exists (mkVerification r a v). split_and!; [done|done|by rewrite <- Ha at 1|by left].
  - done.
  - exists (mkVerification r a v). split_and!; [done|done|by rewrite <- Ha at 1|done|done].
Qed.

Lemma on_record_later s s' name st : grows s s' → on_record s name st → on_record s' name st.
Proof. intros Hg (gg & Hin & ?). exists gg. split; [by apply (grows_screenings s)|done]. Qed.

Lemma verification_later s s' v : grows s s' → v ∈ rg_verifications s → v ∈ rg_verifications s'.
Proof. intros Hg. apply (grows_verifications _ _ Hg). Qed.

Lemma safe_submitKyc mid legal tax s : lengthBetween 1 255 legal = true →
  safe (MerchantService.submitKyc mid legal tax) (λ _ _ _, True) s [].
Proof.
  intros Hl. apply safe_bind, safe_getOrThrow. intros s1 m H1 Hm _. apply safe_bind, safe_screen. cbn [nullish]. intros s2 o H2 Ho.
  apply safe_bind, safe_refuseHit. intros Hhit. apply safe_bind, safe_verify. intros s3 v H3 Hv. apply safe_bind. eapply safe_quiet; [by eauto|].
  intros s4 now H4. destruct (MerchantService.decided v) as [st aid] eqn:Ed.
  assert (grows s1 s4) as H14 by by repeat (etrans; [eassumption|]).
  destruct (found_later _ _ _ H14 Hm) as [[(G1 & G2 & G3 & G4 & G5) Gv Gk Gb] Gs].
  apply safe_bind, safe_save; [|intros s5 H5; by apply safe_bind, safe_announce]. split; [|exact Gs]. split.
  - split_and!; try done. cbn. by intros [= ->].
  - apply (identified_vetted s4 m legal tax now o); [|done|done]. eapply on_record_later; [|exact Ho]. by etrans.
  - apply (decided_evidence s4 KYC (mkApplication (Some legal) (Some tax) None None None) v); [exact (verification_later _ _ _ H4 Hv)|done|done].
  - exact Gb.
Qed.

Lemma safe_submitKyb mid legal tax country owners s : lengthBetween 1 255 legal = true →
  safe (MerchantService.submitKyb mid legal tax country owners) (λ _ _ _, True) s [].
Proof.
  intros Hl. apply safe_bind, safe_getOrThrow. intros s1 m H1 Hm _. apply safe_bind, safe_screen. cbn [nullish]. intros s2 o H2 Ho.
  apply safe_bind, safe_refuseHit. intros Hhit. apply safe_bind, safe_verify. intros s3 v H3 Hv. apply safe_bind. eapply safe_quiet; [by eauto|].
  intros s4 now H4. destruct (MerchantService.decided v) as [st aid] eqn:Ed.
  assert (grows s1 s4) as H14 by by repeat (etrans; [eassumption|]).
  destruct (found_later _ _ _ H14 Hm) as [[(G1 & G2 & G3 & G4 & G5) Gv Gk Gb] Gs].
  apply safe_bind, safe_save; [|intros s5 H5; by apply safe_bind, safe_announce]. split; [|exact Gs]. split.
  - split_and!; try done. cbn. by intros [= ->].
  - apply (identified_vetted s4 m legal tax now o); [|done|done]. eapply on_record_later; [|exact Ho]. by etrans.
  - exact Gk.
  - apply (decided_evidence s4 KYB (mkApplication (Some legal) (Some tax) (Some country) owners None) v); [exact (verification_later _ _ _ H4 Hv)|done|done].
Qed.

(** A decision by webhook. *)
Lemma confirmed_evidence s r st a aid outcome : evidence requests s r st a → st = KYC_PENDING_REVIEW → ap_applicationId a = Some aid →
  (outcome = KYC_VERIFIED → approved_later requests r aid) → outcome = KYC_VERIFIED ∨ outcome = KYC_REJECTED → evidence requests s r outcome a.
Proof.
  intros He -> Ha Hw [-> | ->]; [|done]. destruct He as (v & Hv & Hr & Happ & Hp & Hid). exists v. split_and!; [done..|]. right.
  split_and!; [done|done|]. rewrite Ha in Hid. injection Hid as <-. by apply Hw.
Qed.

Lemma safe_confirmKyc aid outcome s : (outcome = KYC_VERIFIED → approved_later requests KYC aid) → outcome = KYC_VERIFIED ∨ outcome = KYC_REJECTED →
  safe (MerchantService.confirmKyc aid outcome) (λ _ _ _, True) s [].
Proof.
  intros Hw Ho. apply safe_bind, safe_findApplication. intros s1 [m|] H1 Hm; [|done]. destruct (Hm m eq_refl) as [[[(G1 & G2 & G3 & G4 & G5) Gv Gk Gb] Gs] Hid].
  case_bool_decide as Hp; [|done]. apply safe_save; [|done]. split; [|exact Gs]. split; [by split_and!|exact Gv| |exact Gb].
  by eapply confirmed_evidence.
Qed.

Lemma safe_confirmKyb aid outcome s : (outcome = KYC_VERIFIED → approved_later requests KYB aid) → outcome = KYC_VERIFIED ∨ outcome = KYC_REJECTED →
  safe (MerchantService.confirmKyb aid outcome) (λ _ _ _, True) s [].
Proof.
  intros Hw Ho. apply safe_bind, safe_findApplication. intros s1 [m|] H1 Hm; [|done]. destruct (Hm m eq_refl) as [[[(G1 & G2 & G3 & G4 & G5) Gv Gk Gb] Gs] Hid].
  case_bool_decide as Hp; [|done]. apply safe_save; [|done]. split; [|exact Gs]. split; [by split_and!|exact Gv|exact Gk|].
  by eapply confirmed_evidence.
Qed.

(** The sweep. *)
Lemma safe_apply mid o Φ s g : (∀ s' m, grows s s' → Φ s' g m) → safe (MerchantService.applySanctionsScreeningResult mid o) Φ s g.
Proof. apply safe_timed. intros now. keep_columns. Qed.

Lemma safe_notify mid o s g : safe (SanctionsNotificationDispatcherService.notify mid o) (λ _ _ _, True) s g.
Proof.
  apply safe_bind. eapply safe_any; [done|]. intros s1 [m|] H1; [|done]. destruct (_ && _); [|done]. apply safe_try; [by apply safe_send|done|done].
Qed.

Lemma safe_evaluateOne m s g : safe (SanctionsScreeningSweepService.evaluateOne m) (λ _ _ _, True) s g.
Proof.
  apply safe_bind, safe_screen. intros s1 o H1 _. apply safe_bind, safe_apply. intros s2 m' H2. apply safe_done. destruct (_ && _); [apply safe_notify|done].
Qed.

Lemma safe_sweep fuel afterId c s g : safe (SanctionsScreeningSweepService.sweepFrom fuel afterId c) (λ _ _ _, True) s g.
Proof.
  apply (wp_forPages _ _ _ _).
  - intros a s1 g1 Φ HΦ. eapply safe_any; [done|]. intros. apply HΦ.
  - intros l c1 s1 g1 Φ HΦ. apply (wp_allSettled _ _ _ _); [exact HΦ|]. intros. apply safe_evaluateOne.
Qed.

(** Terminations. *)
Lemma safe_report m s g : safe (MerchantService.report m) (λ _ _ _, True) s g.
Proof. by eapply safe_any. Qed.

Lemma safe_fileMatchReport m s g : found s m → safe (MerchantService.fileMatchReport m) (λ _ _ _, True) s g.
Proof.
  intros Hm. apply safe_bind. eapply safe_any; [done|]. intros s1 r H1. apply safe_done, safe_save; [|done].
  eapply (found_keeps (λ m, Ok (MerchantService.reported r m))); [keep_columns|by eapply found_later|done].
Qed.

Lemma safe_terminate mid code why who s g : safe (MerchantService.terminateForCause mid code why who) (λ _ _ _, True) s g.
Proof.
  apply safe_bind, safe_bind, safe_getOrThrow. intros s1 m H1 Hm _. apply safe_bind. eapply safe_quiet; [by eauto|]. intros s2 now H2.
  assert (found s2 (MerchantService.terminated now code why who m)) as Hm2.
  { eapply (found_keeps (λ m, Ok (MerchantService.terminated now code why who m))); [keep_columns|by eapply found_later|done]. }
  apply safe_bind, safe_save; [done|]. intros s3 H3. apply safe_bind, safe_revoke. intros s4 H4. apply safe_bind, safe_try.
  - apply safe_done, safe_report.
  - intros s5 g5 [r|] H5; [|done]. apply safe_done, safe_try; [|done|done]. apply safe_save; [|done].
    eapply (found_keeps (λ m, Ok (MerchantService.reported r m))); [keep_columns| |done].
    apply (found_later s2); [by repeat (etrans; [eassumption|])|exact Hm2].
  - done.
Qed.

Lemma safe_rotateApi mid s g : safe (MerchantService.rotateApiKeySecret mid) (λ _ _ _, True) s g.
Proof.
  apply safe_bind, safe_getOrThrow. intros s1 m H1 Hm _. do 2 (apply safe_bind; eapply safe_quiet; [by eauto|]; let Q := fresh "Q" in intros ? ? Q).
  apply safe_bind, safe_save; [|intros; by apply safe_bind, safe_revoke].
  eapply (found_keeps (λ m, Ok (m {{ ac_credentials := (ac_credentials m) {{ cr_apiKeySecretHash := _ }} }}))); [keep_columns| |done]. eapply found_later; [|exact Hm]. by etrans.
Qed.

Lemma safe_rotateHmac mid s g : safe (MerchantService.rotateHmacSecret mid) (λ _ _ _, True) s g.
Proof.
  apply safe_bind, safe_getOrThrow. intros s1 m H1 Hm _. apply safe_bind. eapply safe_quiet; [by eauto|]. intros s2 x H2.
  apply safe_bind. eapply safe_any; [done|]. intros s3 c H3. apply safe_done, safe_save; [|done].
  eapply (found_keeps (λ m, Ok (m {{ ac_credentials := (ac_credentials m) {{ cr_hmacSecretCiphertext := _ }} }}))); [keep_columns| |done]. eapply found_later; [|exact Hm]. by etrans.
Qed.

Lemma safe_reservePolicy mid b d s g : bps b → days d → safe (MerchantService.updateReservePolicy mid b d) (λ _ _ _, True) s g.
Proof.
  intros Hb Hd. apply safe_bind, safe_getOrThrow. intros s1 m H1 [[(G1 & G2 & G3 & G4 & G5) Gv Gk Gb] Gs] _. apply safe_bind, safe_save.
  - split; [|exact Gs]. split; [|exact Gv|exact Gk|exact Gb]. split_and!; [keep_sane|exact G2|done|done|done].
  - intros s2 H2. apply safe_done. case_match; [|done]. eapply safe_quiet; [by eauto|done].
Qed.

Lemma tiers_sane tiers : validTiers tiers = true → Forall (λ t, bps (tier_bps t)) tiers.
Proof.
  unfold validTiers. intros [_ H]%andb_true_iff. apply Forall_forall. intros t Ht%list_elem_of_In. rewrite forallb_forall in H. by apply between_iff, H.
Qed.

(** Every request keeps the invariant. *)
Lemma safe_serve r s : r ∈ requests →
  (∀ csv, LIST_REFRESH (Some (Ok csv)) ∈ requests → Z.of_nat (String.length csv) ≤ 2 ^ 39) →
  safe (serve_account r) (λ _ _ _, True) s [].
Proof.
  intros Hr Hcsv. destruct r; cbn [serve_account]; unfold validated, discard;
    repeat match goal with |- safe (if ?b then _ else _) _ _ _ => destruct b eqn:?; [|done] end; reflect_tests;
    repeat match goal with H : between _ _ _ = true |- _ => apply between_iff in H end; try apply safe_done.
  - by apply safe_create.
  - apply safe_rotateApi.
  - apply safe_rotateHmac.
  - apply safe_bind, safe_getOrThrow. intros. by apply safe_revoke.
  - apply safe_bind, safe_modify; [keep_columns|]. intros s1 m H1. apply safe_done. destruct isActive; [done|by apply safe_revoke].
  - apply safe_configure; [|done]. intros c c' Hc [= <-]. keep_sane.
  - apply safe_configure; [|done]. intros c c' Hs Hc. unfold Merchant.MerchantService.updateFeeTiers in Hc. inv_ok.
    keep_sane. intros l Hl. destruct tiers as [|t tiers]; [done|]. injection Hl as <-.
    split_and!; [done|by apply tiers_sane|]. destruct a. by apply checkTiers_ok.
  - apply safe_configure; [|done]. intros c c' Hc [= <-]. keep_sane.
  - by apply safe_reservePolicy.
  - apply safe_configure; [|done]. intros c c' Hc [= <-]. keep_sane.
  - apply safe_configure; [|done]. intros c c' Hc [= <-]. keep_sane.
  - destruct psps as [|p psps]; [done|]. apply safe_configure; [|done]. intros c c' Hc [= <-]. keep_sane.
  - apply safe_configure; [|done]. intros c c' Hc [= <-]. keep_sane.
  - apply safe_configure; [|done]. intros c c' Hc [= <-]. keep_sane; destruct tier; cbn; unfold bps, days; lia.
  - apply safe_modify; [keep_columns|done].
  - apply safe_modify; [keep_columns|done].
  - apply safe_modify; [keep_columns|done].
  - apply safe_modify; [keep_columns|done].
  - apply safe_modify; [keep_columns|done].
  - apply safe_modify; [keep_columns|done].
  - apply safe_modify; [keep_columns|done].
  - unfold validSubmitKyc in *. reflect_tests. by apply safe_submitKyc.
  - unfold validSubmitKyb in *. reflect_tests. by apply safe_submitKyb.
  - unfold kycWebhook, decisionWebhook. destruct inquiryId as [i|]; [|done]. destruct (mapPersonaInquiryStatus status) eqn:Es; [| |done];
      (case_match; [done|]); apply safe_confirmKyc; auto; [|done]. intros _. by exists status.
  - unfold kybWebhook, decisionWebhook. destruct inquiryId as [i|]; [|done]. destruct (mapPersonaInquiryStatus status) eqn:Es; [| |done];
      (case_match; [done|]); apply safe_confirmKyb; auto; [|done]. intros _. by exists status.
  - apply safe_timed; [intros now; keep_columns|done].
  - apply safe_timed; [intros now; keep_columns|done].
  - apply safe_modify; [keep_columns|done].
  - apply safe_timed; [intros now; keep_columns|done].
  - apply safe_timed; [intros now; keep_columns|done].
  - apply safe_modify; [keep_columns|done].
  - apply safe_timed; [intros now; keep_columns|done].
  - apply safe_timed; [intros now; keep_columns|done].
  - apply safe_modify; [keep_columns|done].
  - apply safe_bind, safe_getOrThrow. intros s1 m H1 Hm _. apply safe_bind, safe_screen. intros s2 o H2 _. by apply safe_done, safe_apply.
  - apply safe_timed; [|done]. intros now s' m m' [(G1 & G2 & G3 & G4 & G5) Gv Gk Gb] [= <-]. split; [|done]. split; try done. split_and!; try done. by destruct resolution.
  - apply safe_terminate.
  - apply safe_bind, safe_getOrThrow. intros s1 m H1 Hm _. case_match; [by apply safe_fileMatchReport|done].
  - apply safe_sweep.
  - apply safe_refresh; [|done]. intros csv ->. by apply Hcsv.
  - by apply safe_replication.
Qed.
End logic.

(** ** What every history leaves *)

Section histories.
Context `{W : World}.

(** Bodies of responses have the length a JavaScript string can have. *)
Definition fetched_fits (requests : list account_request) : Prop :=
  ∀ csv, LIST_REFRESH (Some (Ok csv)) ∈ requests → Z.of_nat (String.length csv) ≤ 2 ^ 39.

Lemma empty_sound requests gs : mjoin gs = [] → sound requests emptyRegistry gs.
Proof.
  intros Hgs. split; cbn; rewrite ?Hgs; try (by intros x Hx%not_elem_of_nil); [constructor|constructor|].
  repeat constructor; by vm_compute.
Qed.

Lemma registry_sound requests t0 c : 0 < matchThreshold ≤ Num.one → fetched_fits requests →
  rtc (interleave account_handle) (mkConfig t0 emptyRegistry (serve_account <$> requests)) c → ∃ gs, sound requests (memory c) gs.
Proof.
  intros Hk Hf Hrun.
  destruct (pool_run account_handle (sound requests) grows (λ _, True) (λ _ _ _, True) (λ _ _ _, True) _ _ ((λ _, []) <$> requests) Hrun) as (gs & Hi & _).
  - done.
  - apply empty_sound. clear. induction requests; [done|]. cbn. done.
  - cbn. rewrite Forall2_fmap. apply Forall_Forall2_diag, Forall_forall. intros r Hr. exists emptyRegistry. split; [reflexivity|].
    by apply safe_serve.
  - by exists gs.
Qed.

(** C24: under every interleaving of the operations of the merchant service, webhooks,
    sweeps and list refreshes on any number of replicas, with any call failing before
    or after its effect, the merchants table is well formed: ids and merchant ids are
    unique; a connected merchant names an existing platform and a platform names none,
    one level deep; rates, hold times and fee schedules are in range and the schedules
    ascend; the providers are such as there are; the risk category is that of the
    merchant category code; and everyone has been screened. *)
Theorem merchants_well_formed requests t0 c : 0 < matchThreshold ≤ Num.one → fetched_fits requests →
  rtc (interleave account_handle) (mkConfig t0 emptyRegistry (serve_account <$> requests)) c →
  let rows := rg_merchants (memory c) in
  NoDup (ac_id <$> rows) ∧ NoDup (ac_merchantId <$> rows) ∧ ∀ m, m ∈ rows → well_formed rows m.
Proof.
  intros Hk Hf Hrun rows. destruct (registry_sound _ _ _ Hk Hf Hrun) as (gs & Hi). split_and!.
  - by apply sound_ids, NoDup_app in Hi as [? _].
  - by apply sound_merchantIds in Hi.
  - intros m Hm. by apply (sound_rows _ _ _ Hi).
Qed.

(** C25: no one whose name is on the list becomes a merchant or changes into one. Under
    every interleaving and all failures, the name each merchant is stored under, the
    legal name once there is one and the display name before, was screened, and its
    normal form was not on the list that was in force at that screening. *)
Theorem no_listed_identity requests t0 c m : 0 < matchThreshold ≤ Num.one → fetched_fits requests →
  rtc (interleave account_handle) (mkConfig t0 emptyRegistry (serve_account <$> requests)) c → m ∈ rg_merchants (memory c) →
  ∃ g, g ∈ rg_screenings (memory c) ∧ sg_name g = identity m ∧ normalizeName (identity m) ∉ normalizedName <$> sg_list g.
Proof.
  intros Hk Hf Hrun Hm. destruct (registry_sound _ _ _ Hk Hf Hrun) as (gs & Hi).
  destruct (good_vetted _ _ _ (sound_rows _ _ _ Hi m Hm)) as (g & Hg & Hn & Hh & Hl). exists g. split_and!; [done|done|].
  rewrite <- Hn. apply (sound_screenings _ _ _ Hi); [done|done|]. apply name_fits. rewrite Hn. unfold lengthBetween in Hl.
  apply andb_true_iff in Hl as [_ Hl%Nat.leb_le]. lia.
Qed.

(** A verified merchant was approved. Under every interleaving and all failures,
    behind each VERIFIED status, of KYC and of KYB, stands an answer of the provider for
    exactly the stored application (names, tax id, country and owners): it approved it
    at once, or it took it for review and later reported the application as approved. *)
Theorem verified_means_approved requests t0 c m : 0 < matchThreshold ≤ Num.one → fetched_fits requests →
  rtc (interleave account_handle) (mkConfig t0 emptyRegistry (serve_account <$> requests)) c → m ∈ rg_merchants (memory c) →
  (MerchantEntity.kycStatus (ac_config m) = KYC_VERIFIED → evidence requests (memory c) KYC KYC_VERIFIED (ac_kyc m))
  ∧ (ac_kybStatus m = KYC_VERIFIED → evidence requests (memory c) KYB KYC_VERIFIED (ac_kyb m)).
Proof.
  intros Hk Hf Hrun Hm. destruct (registry_sound _ _ _ Hk Hf Hrun) as (gs & Hi). destruct (sound_rows _ _ _ Hi m Hm) as [_ _ H1 H2].
  split; intros Hs; by rewrite Hs in *.
Qed.
End histories.
