(* ===== verification/Paging.v ===== *)
(** * Pages of merchants

    The sweeps over the merchants read pages by ascending id while they rewrite the rows
    they have passed. Such pages never skip or repeat a row: for any condition on the
    rows and any rewriting of them that keeps ids, the pages of a sweep are the
    successive parts of one list. *)

From Stdlib Require Import Sorted.
From stdpp Require Import sorting.
From coqutil Require Datatypes.String.
From S2P Require Import Prelude Rows JsNumber Money Policies Merchant Redis Shared Program Sanctions Accounts AccountsCorrect.

(** ** The order of ids *)

Abbreviation ltb := coqutil.Datatypes.String.ltb.

Lemma beforeId_total r r' : beforeId r r' = true ∨ beforeId r' r = true.
Proof.
  unfold beforeId. destruct (ltb (ac_id r') (ac_id r)) eqn:E1; [|by left]. right. destruct (ltb (ac_id r) (ac_id r')) eqn:E2; [|done].
  pose proof (coqutil.Datatypes.String.ltb_trans _ _ _ E1 E2) as H. by rewrite coqutil.Datatypes.String.ltb_antirefl in H.
Qed.

Lemma ltb_asym a b : ltb a b = true → ltb b a = false.
Proof.
  intros H. destruct (ltb b a) eqn:E; [|done]. pose proof (coqutil.Datatypes.String.ltb_trans _ _ _ H E) as H'. by rewrite coqutil.Datatypes.String.ltb_antirefl in H'.
Qed.

Lemma ltb_cases a b : ltb a b = true ∨ a = b ∨ ltb b a = true.
Proof.
  destruct (ltb a b) eqn:E1; [by left|]. destruct (ltb b a) eqn:E2; [by right; right|]. right. left. by apply coqutil.Datatypes.String.ltb_total.
Qed.

Lemma beforeId_trans r1 r2 r3 : beforeId r1 r2 = true → beforeId r2 r3 = true → beforeId r1 r3 = true.
Proof.
  unfold beforeId. intros H1%negb_true_iff H2%negb_true_iff. apply negb_true_iff. destruct (ltb (ac_id r3) (ac_id r1)) eqn:E; [|done].
  destruct (ltb_cases (ac_id r1) (ac_id r2)) as [H|[H|H]]; [|congruence|congruence].
  pose proof (coqutil.Datatypes.String.ltb_trans _ _ _ E H). congruence.
Qed.

(** Strictly ascending ids. *)
Definition increasing (l : registryTable) : Prop := StronglySorted (λ r r', ltb (ac_id r) (ac_id r') = true) l.

(** In a list of ascending ids, those after an element are the rest. *)
Lemma after_element l1 r l2 : increasing (l1 ++ r :: l2) → filter (λ x, ltb (ac_id r) (ac_id x)) (l1 ++ r :: l2) = l2.
Proof.
  intros Hs. rewrite filter_app, filter_cons_False by (rewrite coqutil.Datatypes.String.ltb_antirefl; exact (λ H, H)).
  rewrite filter_none, filter_every; [done|..].
  - intros x Hx. assert (increasing (r :: l2)) as Hr by by apply StronglySorted_app_1_r in Hs. apply StronglySorted_inv in Hr as [_ Hr].
    rewrite List.Forall_forall in Hr. rewrite (Hr x); [done|by apply list_elem_of_In].
  - intros x Hx. rewrite ltb_asym; [exact (λ H, H)|]. exact (StronglySorted_app_1_elem_of _ l1 (r :: l2) x r Hs Hx ltac:(left)).
Qed.

(** ** One row *)

(** A save of a row that was just read. *)
Lemma updated_treat (f : Account → Account) m rows : NoDup (ac_id <$> rows) → m ∈ rows → ac_id (f m) = ac_id m →
  updated (f m) rows = treatRow ac_id (λ m, writtenRow m (f m)) m rows.
Proof.
  intros Hn Hm Hid. apply list_fmap_ext. intros i r Hr%list_elem_of_lookup_2. rewrite Hid.
  destruct (String.eqb_spec (ac_id r) (ac_id m)) as [He|]; [|done]. by rewrite (unique_id rows r m).
Qed.

Lemma writtenFlag_same {T} (f : RiskFlag T) : writtenFlag f f = f.
Proof. destruct f as [v [|?] [|?] [|?] a]; done. Qed.

(** ** One sweep *)

Section paging.
Context (condition : Account → bool) (treat : Account → Account).
Context (treat_frozen : ∀ m, frozen (treat m) = frozen m).
Implicit Types (m : Account) (rows : registryTable).

(** The merchants a sweep is for. *)
Definition candidate m : bool := ac_isActive m && condition m.

Definition candidates rows : registryTable := orderBy beforeId (filter (λ m, candidate m) rows).

Lemma candidates_increasing rows : NoDup (ac_id <$> rows) → increasing (candidates rows).
Proof.
  intros Hn. pose proof (orderBy_ordered beforeId beforeId_total beforeId_trans (filter (λ m, candidate m) rows)) as Hs.
  assert (NoDup (ac_id <$> candidates rows)) as Hn2.
  { unfold candidates. rewrite orderBy_perm. eapply sublist_NoDup; [exact Hn|]. apply fmap_sublist, sublist_filter. }
  fold (candidates rows) in Hs. revert Hs Hn2. generalize (candidates rows). clear. intros l. induction l as [|r l IH]; intros Hs Hn; [constructor|].
  apply StronglySorted_inv in Hs as [Hs Hr]. rewrite fmap_cons, NoDup_cons in Hn. destruct Hn as [Hx Hn]. constructor; [by apply IH|].
  apply List.Forall_forall. intros r' Hr'. rewrite List.Forall_forall in Hr. specialize (Hr r' Hr'). unfold beforeId in Hr. apply negb_true_iff in Hr.
  destruct (ltb_cases (ac_id r) (ac_id r')) as [H|[H|H]]; [done| |congruence]. exfalso. apply Hx. rewrite H. by apply list_elem_of_fmap_2, list_elem_of_In.
Qed.

Lemma candidates_in rows m : m ∈ candidates rows → m ∈ rows ∧ candidate m = true.
Proof. intros Hm. unfold candidates in Hm. apply orderBy_elem, list_elem_of_filter in Hm as [Hc ?]. split; [done|]. by destruct (candidate m). Qed.

Lemma candidates_NoDup rows : NoDup (ac_id <$> rows) → NoDup (ac_id <$> candidates rows).
Proof. intros Hn. unfold candidates. rewrite orderBy_perm. eapply sublist_NoDup; [exact Hn|]. apply fmap_sublist, sublist_filter. Qed.

Lemma treat_id m : ac_id (treat m) = ac_id m.
Proof. pose proof (treat_frozen m) as H. unfold frozen in H. congruence. Qed.

Lemma sweepRows_frozen ids rows : frozen <$> sweepRows ac_id treat ids rows = frozen <$> rows.
Proof. unfold sweepRows. rewrite <- list_fmap_compose. apply list_fmap_ext. intros i r _. cbn. case_decide; [apply treat_frozen|done]. Qed.

Lemma swept_all rows : NoDup (ac_id <$> rows) → sweepRows ac_id treat (ac_id <$> candidates rows) rows = (λ m, if candidate m then treat m else m) <$> rows.
Proof.
  intros Hn. apply sweepRows_part; [done|]. intros m. split; [apply candidates_in|]. intros [Hm Hc]. apply orderBy_elem, list_elem_of_filter. by rewrite Hc.
Qed.

(** *** Pages *)

Lemma first_page rows limit : keysetBatch condition None limit rows = take limit (candidates rows).
Proof. unfold keysetBatch, candidates. do 2 f_equal. apply list_filter_iff. intros r. cbn. by rewrite andb_true_r. Qed.

(** Rows behind the cursor do not matter, whatever the sweep made of them. *)
Lemma swept_behind ids cursor rows : (∀ r, r ∈ rows → ac_id r ∈ ids → ltb cursor (ac_id r) = false) →
  filter (λ r, ac_isActive r && condition r && ltb cursor (ac_id r)) (sweepRows ac_id treat ids rows) = filter (λ r, ltb cursor (ac_id r)) (filter (λ m, candidate m) rows).
Proof.
  induction rows as [|r rows IH]; intros Hb; [done|]. unfold sweepRows. rewrite fmap_cons, !filter_cons. fold (sweepRows ac_id treat ids rows).
  rewrite IH by (intros x Hx; apply Hb; by right). clear IH. unfold candidate. specialize (Hb r (list_elem_of_here _ _)).
  destruct (decide (ac_id r ∈ ids)) as [Hin|Hout].
  - rewrite treat_id, (Hb Hin), andb_false_r. rewrite decide_False by (exact (λ H, H)).
    case_decide; [|done]. by rewrite filter_cons_False by (rewrite (Hb Hin); exact (λ H, H)).
  - destruct (ac_isActive r && condition r); cbn [andb]; [|done]. rewrite (decide_True (P := Is_true true)) by done. rewrite filter_cons. done.
Qed.

Lemma next_page rows l1 r l2 limit : NoDup (ac_id <$> rows) → candidates rows = l1 ++ r :: l2 → ac_id r ≠ ""%string →
  keysetBatch condition (Some (ac_id r)) limit (sweepRows ac_id treat (ac_id <$> l1 ++ [r]) rows) = take limit l2.
Proof.
  intros Hn Hc Hid. pose proof (candidates_increasing rows Hn) as Hs. rewrite Hc in Hs. unfold keysetBatch. f_equal.
  assert (truthy (Some (ac_id r)) = true) as -> by by cbn; apply negb_true_iff, String.eqb_neq.
  rewrite swept_behind.
  - rewrite <- (filter_orderBy beforeId beforeId_total beforeId_trans). fold (candidates rows). rewrite Hc. by apply after_element.
  - intros x _ (y & He & Hy)%list_elem_of_fmap. rewrite He. apply elem_of_app in Hy as [Hy| ->%list_elem_of_singleton]; [|apply coqutil.Datatypes.String.ltb_antirefl].
    apply ltb_asym. exact (StronglySorted_app_1_elem_of _ l1 (r :: l2) y r Hs Hy ltac:(left)).
Qed.

Lemma page_after rows k limit : NoDup (ac_id <$> rows) → (∀ m, m ∈ rows → ac_id m ≠ ""%string) →
  keysetBatch condition (ac_id <$> last (take k (candidates rows))) limit (sweepRows ac_id treat (ac_id <$> take k (candidates rows)) rows)
  = take limit (drop k (candidates rows)).
Proof.
  intros Hn Hid. pose proof (take_drop k (candidates rows)) as Hsplit. destruct (last (take k (candidates rows))) as [r|] eqn:El.
  - apply last_Some in El as (l1 & El). rewrite El in *. rewrite <- app_assoc in Hsplit. cbn. apply next_page; [done|done|].
    apply Hid, candidates_in. rewrite <- Hsplit. apply elem_of_app. right. left.
  - apply last_None in El. rewrite El in *. cbn in Hsplit. rewrite Hsplit. rewrite sweepRows_nil. apply first_page.
Qed.

(** *** The loop *)

Context {E : Type → Type} {S : Type} (handler : ∀ X, E X → Date → S → S * result X) `{!Answers handler} (table : S → registryTable).
Context {R C : Type} (page : option string → prog E (list Account)) (body : Account → prog E R) (count : C → option R → C).

(** A sweep whose pages are those of the table and whose body treats one row: it ends,
    and treats every candidate exactly once by ascending id. [K] is what else holds when
    some of them have been treated. *)
Lemma run_sweep (answer : Account → R) (K : list Account → S → Prop) now size fuel rows c s :
  (0 < size)%nat → NoDup (ac_id <$> rows) → (∀ m, m ∈ rows → ac_id m ≠ ""%string) → (length (candidates rows) < size * fuel)%nat →
  (∀ afterId done s, K done s → ∃ s', run handler (page afterId) now s = (s', Ok (keysetBatch condition afterId size (table s)))
     ∧ table s' = table s ∧ K done s') →
  (∀ done m rest s, candidates rows = done ++ m :: rest → m ∈ table s → frozen <$> table s = frozen <$> rows → K done s →
     ∃ s', run handler (body m) now s = (s', Ok (answer m)) ∧ table s' = treatRow ac_id treat m (table s) ∧ K (done ++ [m]) s') →
  table s = rows → K [] s →
  ∃ s', run handler (forPages ac_id page size (allSettled body count) fuel None c) now s
        = (s', Ok (Some (foldl (λ c m, count c (Some (answer m))) c (candidates rows))))
    ∧ table s' = (λ m, if candidate m then treat m else m) <$> rows ∧ K (candidates rows) s'.
Proof.
  intros Hsize Hn Hid Hfuel Hpage Hbody Ht HK. set (l := candidates rows) in *.
  pose (J k s := table s = sweepRows ac_id treat (ac_id <$> take k l) rows ∧ K (take k l) s).
  destruct (run_forPages handler ac_id page size (allSettled body count) (λ l c, foldl (λ c m, count c (Some (answer m))) c l) J l now fuel 0 c s)
    as (s' & Hrun & Ht' & HK'); [done|..].
  - intros k s1 [Ht1 HK1]. destruct (Hpage (ac_id <$> last (take k l)) _ s1 HK1) as (s2 & Hrun & Ht2 & HK2). exists s2.
    split; [|split; [congruence|done]]. rewrite Hrun, Ht1. unfold l. by rewrite page_after.
  - intros k c1 s1 HJ1 batch.
    destruct (run_allSettled handler body count answer (λ d, J (k + length d)%nat) now batch [] c1 s1) as (s2 & Hrun & HJ2);
      [|by exists batch|by rewrite Nat.add_0_r|by exists s2].
    intros d m rest s2 Hb [Ht2 HK2]. assert (drop (k + length d) l = m :: rest ++ drop size (drop k l)) as Hd.
    { assert (drop k l = batch ++ drop size (drop k l)) as Hk by (symmetry; apply take_drop). rewrite <- drop_drop, Hk at 1. by rewrite Hb, <- app_assoc, drop_app_length. }
    assert (take (k + length (d ++ [m])) l = take (k + length d) l ++ [m]) as Htake.
    { rewrite length_app, Nat.add_assoc, <- take_take_drop, Hd. done. }
    assert (m ∈ l) as Hml by (rewrite <- (take_drop (k + length d) l), Hd; apply elem_of_app; right; left).
    pose proof (proj1 (candidates_in _ _ Hml)) as Hmr.
    assert (ac_id m ∉ ac_id <$> take (k + length d) l) as Hnew.
    { pose proof (candidates_NoDup rows Hn) as Hnl. fold l in Hnl. rewrite <- (take_drop (k + length d) l), fmap_app, Hd in Hnl.
      apply NoDup_app in Hnl as (_ & Hdis & _). intros Hin. apply (Hdis _ Hin). left. }
    destruct (Hbody (take (k + length d) l) m (rest ++ drop size (drop k l)) s2) as (s3 & Hrun & Ht3 & HK3); [by rewrite <- Hd, take_drop|by rewrite Ht2; apply sweepRows_elem|by rewrite Ht2, sweepRows_frozen|exact HK2|].
    exists s3. split; [done|]. unfold J. rewrite Htake. split; [|done]. by rewrite Ht3, Ht2, (sweepRows_snoc _ _ treat_id), fmap_app.
  - intros l1 l2 c1. apply foldl_app.
  - done.
  - lia.
  - by rewrite drop_0.
  - split; [by rewrite Ht, sweepRows_nil|done].
  - rewrite firstn_all in Ht', HK'. exists s'. split_and!; [done| |done]. rewrite Ht'. unfold l. by rewrite swept_all.
Qed.
End paging.
