(* ===== verification/AccountsSweep.v ===== *)
(** * The weekly sanctions sweep: everyone, once

    Once the calls work a sweep ends, screens every active merchant that is no HIT
    exactly once, in order, and stores exactly the verdicts. *)

From stdpp Require Import pretty.
From S2P Require Import Prelude Rows JsNumber Money Policies Merchant Redis Shared Program Sanctions SanctionsCorrect Accounts AccountsCorrect Paging.

(** ** One merchant *)

Section sweep.
Context `{W : World} (threshold_range : 0 < matchThreshold ≤ Num.one).
Implicit Types (s : registry) (m : Account) (rows : registryTable).

Definition working s : Prop := ∀ n, (rg_calls s ≤ n)%nat → fault n = Works.

(** The outcome of the screening of a merchant. *)
Definition outcome (entries : list SanctionsListEntry) (m : Account) : SanctionsScreeningOutcome :=
  match OfacSdnSanctionsAdapter.screen (Num.Fin matchThreshold) entries (nullish (ac_legalName m) (ac_name m)) with
  | Some r => mkSanctionsScreeningOutcome (sr_status r) (if truthy (ac_legalName m) then FULL else DEGRADED) (sr_matchedListEntry r) (sr_score r)
  | None => mkSanctionsScreeningOutcome CLEAR DEGRADED None None
  end.

Definition rescreened (now : Date) (entries : list SanctionsListEntry) (m : Account) : Account :=
  m {{ ac_sanctions := screened now (outcome entries m) (ac_sanctions m) }}.

(** What the sweep reports of a merchant. *)
Definition news (entries : list SanctionsListEntry) (m : Account) : bool * bool :=
  let st := so_status (outcome entries m) in
  let isNew := bool_decide (Some st ≠ sc_status (ac_sanctions m)) in
  (isNew && bool_decide (st = HIT), isNew && bool_decide (st = POTENTIAL_MATCH)).

Definition the_screening (entries : list SanctionsListEntry) (m : Account) : Screening :=
  mkScreening (nullish (ac_legalName m) (ac_name m)) entries (so_status (outcome entries m)).

(** What the parts of the sweep need. *)
Definition screenable (entries : list SanctionsListEntry) (m : Account) : Prop :=
  isSome (OfacSdnSanctionsAdapter.screen (Num.Fin matchThreshold) entries (nullish (ac_legalName m) (ac_name m))) = true.

Lemma working_tick s : working s → working (tick s).
Proof. intros Hw n Hn. apply Hw. cbn in Hn. lia. Qed.

Lemma works_ask {X A} (c : account_event (result X)) (f : X → P A) (after : Date → registry → registry) (answer : registry → result X) now s :
  (∀ now s1, account_handle _ c now s1 = faulty (fault (rg_calls s1)) (tick s1) (after now s1) (answer s1)) → working s →
  run account_handle (ask c ≫= f) now s
  = match answer s with Ok x => run account_handle (f x) now (after now s) | Throw e => (after now s, Throw e) end.
Proof. intros Hc Hw. apply run_ask. rewrite Hc. by rewrite (Hw (rg_calls s)) by done. Qed.

Lemma works_last {X} (c : account_event (result X)) (after : Date → registry → registry) (answer : registry → result X) now s :
  (∀ now s1, account_handle _ c now s1 = faulty (fault (rg_calls s1)) (tick s1) (after now s1) (answer s1)) → working s →
  run account_handle (ask c) now s = (after now s, answer s).
Proof. intros Hc Hw. unfold ask. rewrite (run_event _ _ _ _ _ (after now s) (answer s)); [apply run_of_result|]. by rewrite Hc, (Hw (rg_calls s)) by done. Qed.

Lemma notify_works mid o now s : working s →
  ∃ s', run account_handle (SanctionsNotificationDispatcherService.notify mid o) now s = (s', Ok tt) ∧ working s'
    ∧ rg_merchants s' = rg_merchants s ∧ rg_list s' = rg_list s ∧ rg_screenings s' = rg_screenings s.
Proof.
  intros Hw. unfold SanctionsNotificationDispatcherService.notify.
  rewrite (works_ask _ _ (λ _, tick) (λ s1, Ok (findMerchant mid (rg_replica s1)))) by done.
  pose proof (working_tick _ Hw) as Hw1. destruct (findMerchant mid (rg_replica s)) as [m|]; [|by exists (tick s)].
  destruct (_ && _); [|by exists (tick s)]. rewrite (run_catch _).
  rewrite (works_last _ (λ now s1, tick s1 {{ rg_sent := rg_sent s1 ++ [(mid, so_status o)] }}) (λ _, Ok tt)) by done.
  eexists. split_and!; [reflexivity| |done..]. by apply working_tick, working_tick.
Qed.

Lemma find_unique mid rows m : NoDup (ac_merchantId <$> rows) → m ∈ rows → ac_merchantId m = mid → findMerchant mid rows = Some m.
Proof.
  intros Hn Hm <-. unfold findMerchant. induction rows as [|r rows IH]; [by apply not_elem_of_nil in Hm|]. rewrite fmap_cons, NoDup_cons in Hn. destruct Hn as [Hr Hn].
  cbn. apply elem_of_cons in Hm as [->|Hm]; [by rewrite String.eqb_refl|]. destruct (String.eqb_spec (ac_merchantId r) (ac_merchantId m)) as [He|]; [|by apply IH].
  exfalso. apply Hr. rewrite He. by apply list_elem_of_fmap_2.
Qed.

Lemma updated_rescreened now entries m rows : NoDup (ac_id <$> rows) → m ∈ rows →
  updated (rescreened now entries m) rows = treatRow ac_id (rescreened now entries) m rows.
Proof.
  intros Hn Hm. rewrite (updated_treat (rescreened now entries)) by done. unfold treatRow.
  assert (writtenRow m (rescreened now entries m) = rescreened now entries m) as ->; [|done]. unfold writtenRow, rescreened. cbn. by rewrite !writtenFlag_same.
Qed.

Lemma screening_works now s legal name tax r : working s → let entries := SanctionsListStore.entries (rg_list s) in
  OfacSdnSanctionsAdapter.screen (Num.Fin matchThreshold) entries (nullish legal name) = Some r →
  run account_handle (SanctionsScreeningService.screen legal name tax) now s
  = (tick s {{ rg_screenings := rg_screenings s ++ [mkScreening (nullish legal name) entries (sr_status r)] }},
     Ok (mkSanctionsScreeningOutcome (sr_status r) (if truthy legal then FULL else DEGRADED) (sr_matchedListEntry r) (sr_score r))).
Proof.
  intros Hw entries Es. unfold SanctionsScreeningService.screen. set (n := nullish legal name) in *.
  rewrite (run_ask _ _ _ _ _ (tick s {{ rg_screenings := rg_screenings s ++ [mkScreening n entries (sr_status r)] }}) (Ok r)); [done|].
  cbn [account_handle]. change (rg_list (s {{ rg_calls := S (rg_calls s) }})) with (rg_list s). fold entries. rewrite Es.
  unfold faulty. by rewrite (Hw (rg_calls s)) by done.
Qed.

Lemma screen_works now s m : working s → let entries := SanctionsListStore.entries (rg_list s) in screenable entries m →
  run account_handle (SanctionsScreeningService.screen (ac_legalName m) (ac_name m) (ac_taxId m)) now s
  = (tick s {{ rg_screenings := rg_screenings s ++ [the_screening entries m] }}, Ok (outcome entries m)).
Proof.
  intros Hw entries Hs. unfold the_screening, outcome, screenable in *.
  destruct (OfacSdnSanctionsAdapter.screen _ entries _) as [r|] eqn:Es; [|done]. by apply screening_works.
Qed.

Lemma save_works m now s : working s → stored (rg_merchants s) m →
  run account_handle (MerchantService.save m) now s = (tick s {{ rg_merchants := updated m (rg_merchants s) }}, Ok tt).
Proof.
  intros Hw Hm. unfold MerchantService.save, ask. rewrite (run_event _ _ _ _ _ (tick s {{ rg_merchants := updated m (rg_merchants s) }}) (Ok tt)); [done|].
  cbn [account_handle]. change (rg_merchants (s {{ rg_calls := S (rg_calls s) }})) with (rg_merchants s).
  rewrite saveMerchant_stored by done. unfold faulty. by rewrite Hw.
Qed.

Lemma getOrThrow_works now s m : working s → NoDup (ac_merchantId <$> rg_merchants s) → m ∈ rg_merchants s →
  run account_handle (MerchantService.getOrThrow (ac_merchantId m)) now s = (tick s, Ok m).
Proof.
  intros Hw Hmi Hm. unfold MerchantService.getOrThrow.
  rewrite (works_ask _ _ (λ _, tick) (λ s1, Ok (findMerchant (ac_merchantId m) (rg_merchants s1)))) by done. by rewrite (find_unique _ _ m).
Qed.

Lemma apply_works now s m o : working s → NoDup (ac_id <$> rg_merchants s) → NoDup (ac_merchantId <$> rg_merchants s) → m ∈ rg_merchants s →
  let m' := m {{ ac_sanctions := screened now o (ac_sanctions m) }} in
  run account_handle (MerchantService.applySanctionsScreeningResult (ac_merchantId m) o) now s
  = (tick (tick (tick s)) {{ rg_merchants := updated m' (rg_merchants s) }}, Ok m').
Proof.
  intros Hw Hi Hmi Hm m'. unfold MerchantService.applySanctionsScreeningResult, MerchantService.timed. rewrite run_bind_prog, getOrThrow_works by done.
  rewrite (run_event _ _ _ _ _ (tick (tick s)) now) by done.
  rewrite run_bind_prog, save_works; [done|by apply working_tick, working_tick|by exists m].
Qed.

Lemma evaluate_works now s m : working s → NoDup (ac_id <$> rg_merchants s) → NoDup (ac_merchantId <$> rg_merchants s) → m ∈ rg_merchants s →
  let entries := SanctionsListStore.entries (rg_list s) in screenable entries m →
  ∃ s', run account_handle (SanctionsScreeningSweepService.evaluateOne m) now s = (s', Ok (news entries m)) ∧ working s'
    ∧ rg_merchants s' = treatRow ac_id (rescreened now entries) m (rg_merchants s) ∧ rg_list s' = rg_list s
    ∧ rg_screenings s' = rg_screenings s ++ [the_screening entries m].
Proof.
  intros Hw Hi Hmi Hm entries Hs. unfold SanctionsScreeningSweepService.evaluateOne.
  rewrite run_bind_prog, screen_works by done. fold entries. set (s1 := tick s {{ rg_screenings := _ }}).
  assert (working s1) as Hw1 by by apply working_tick. rewrite run_bind_prog, apply_works by done.
  set (s2 := tick (tick (tick s1)) {{ rg_merchants := _ }}). assert (working s2) as Hw2 by by do 3 apply working_tick. rewrite run_bind_prog.
  assert (rg_merchants s2 = treatRow ac_id (rescreened now entries) m (rg_merchants s)) as Hm2 by by apply updated_rescreened.
  destruct (_ && _).
  - destruct (notify_works (ac_merchantId m) (outcome entries m) now s2 Hw2) as (s3 & -> & Hw3 & H1 & H2 & H3). exists s3.
    split_and!; [done|done|congruence|done|done].
  - exists s2. by split_and!.
Qed.

(** The counts after a batch. *)
Definition tally (entries : list SanctionsListEntry) (l : list Account) (c : SanctionsScreeningSweepService.SweepResult) :=
  foldl (λ c m, SanctionsScreeningSweepService.count c (Some (news entries m))) c l.

(** ** The sweep *)

Definition verdict (entries : list SanctionsListEntry) (m : Account) : SanctionsScreeningStatus := so_status (outcome entries m).

Lemma tally_counts entries l a b d e :
  (∀ m, m ∈ l → sc_status (ac_sanctions m) ≠ Some HIT) →
  tally entries l (SanctionsScreeningSweepService.mkSweepResult a b d e)
  = SanctionsScreeningSweepService.mkSweepResult (a + Z.of_nat (length l)) (b + Z.of_nat (length (filter (λ m, verdict entries m = HIT) l)))
      (d + Z.of_nat (length (filter (λ m, verdict entries m = POTENTIAL_MATCH ∧ sc_status (ac_sanctions m) ≠ Some POTENTIAL_MATCH) l))) e.
Proof.
  revert a b d. induction l as [|m l IH]; intros a b d Hl; [cbn; f_equal; lia|].
  specialize (Hl m (list_elem_of_here _ _)) as Hm. change (tally entries (m :: l) ?c) with (tally entries l (SanctionsScreeningSweepService.count c (Some (news entries m)))).
  unfold SanctionsScreeningSweepService.count, news. fold (verdict entries m). rewrite !filter_cons. cbn [SanctionsScreeningSweepService.sw_screened
    SanctionsScreeningSweepService.sw_newHits SanctionsScreeningSweepService.sw_newPotentialMatches SanctionsScreeningSweepService.sw_skipped].
  rewrite IH by (intros x Hx; apply Hl; by right). cbn [length].
  destruct (verdict entries m).
  - rewrite (bool_decide_eq_false_2 (CLEAR = HIT)), (bool_decide_eq_false_2 (CLEAR = POTENTIAL_MATCH)), !andb_false_r by done.
    rewrite (decide_False (P := CLEAR = HIT)), (decide_False (P := CLEAR = POTENTIAL_MATCH ∧ _)) by (done || by intros [? _]). f_equal; lia.
  - rewrite (bool_decide_eq_false_2 (POTENTIAL_MATCH = HIT)), (bool_decide_eq_true_2 (POTENTIAL_MATCH = POTENTIAL_MATCH)), andb_false_r, andb_true_r by done.
    rewrite (decide_False (P := POTENTIAL_MATCH = HIT)) by done. destruct (decide (sc_status (ac_sanctions m) = Some POTENTIAL_MATCH)) as [He|He].
    + rewrite bool_decide_eq_false_2, decide_False by (rewrite He; tauto). f_equal; lia.
    + rewrite bool_decide_eq_true_2, decide_True by (congruence || done). cbn [length]. f_equal; lia.
  - rewrite (bool_decide_eq_true_2 (HIT = HIT)), (bool_decide_eq_false_2 (HIT = POTENTIAL_MATCH)), andb_false_r, andb_true_r by done.
    rewrite bool_decide_eq_true_2 by congruence. rewrite (decide_True (P := HIT = HIT)), (decide_False (P := HIT = POTENTIAL_MATCH ∧ _)) by (done || by intros [? _]).
    cbn [length]. f_equal; lia.
Qed.

(** Names and lists as long as they are stored can be screened. *)
Lemma rows_screenable requests s gs m : sound requests s gs → m ∈ rg_merchants s → screenable (SanctionsListStore.entries (rg_list s)) m.
Proof.
  intros Hi Hin. destruct (sound_rows _ _ _ Hi m Hin) as [(_ & _ & _ & _ & Hl) (g & _ & _ & _ & Hlen) _ _]. unfold screenable.
  assert (nullish (ac_legalName m) (ac_name m) = identity m) as -> by (unfold identity; by destruct (ac_legalName m) as [[]|]).
  destruct (screen_hit matchThreshold (SanctionsListStore.entries (rg_list s)) (identity m) threshold_range) as (r & -> & _); [|by apply (sound_list _ _ _ Hi)|done].
  apply name_fits. unfold lengthBetween in Hlen. apply andb_true_iff in Hlen as [_ Hlen%Nat.leb_le]. lia.
Qed.

(** C26: the weekly sweep misses no one. From every state the merchant service reaches,
    once the calls work: the loop over pages of fifty ends; every active merchant that is
    no HIT is screened exactly once, by ascending id, against the list in force; each
    of them is stored with exactly its verdict, no other row changes, no one is
    skipped, and the counts returned are those of the new findings. *)
Theorem sanctions_sweep_complete requests t0 c now fuel :
  fetched_fits requests → (∀ n, uuid n ≠ ""%string) →
  rtc (interleave account_handle) (mkConfig t0 emptyRegistry (serve_account <$> requests)) c →
  let s := memory c in let rows := rg_merchants s in let entries := SanctionsListStore.entries (rg_list s) in let l := candidates MerchantService.notHit rows in
  working s → (length rows < 50 * fuel)%nat →
  l ≡ₚ filter (λ m, candidate MerchantService.notHit m) rows ∧ increasing l ∧
  ∃ s', run account_handle (SanctionsScreeningSweepService.runSweep fuel) now s
    = (s', Ok (Some (SanctionsScreeningSweepService.mkSweepResult (Z.of_nat (length l)) (Z.of_nat (length (filter (λ m, verdict entries m = HIT) l)))
        (Z.of_nat (length (filter (λ m, verdict entries m = POTENTIAL_MATCH ∧ sc_status (ac_sanctions m) ≠ Some POTENTIAL_MATCH) l))) 0)))
    ∧ rg_screenings s' = rg_screenings s ++ (the_screening entries <$> l)
    ∧ rg_merchants s' = (λ m, if candidate MerchantService.notHit m then rescreened now entries m else m) <$> rows.
Proof.
  intros Hf Hu Hrun s rows entries l Hw Hfuel. destruct (registry_sound _ _ _ threshold_range Hf Hrun) as (gs & Hi). fold s in Hi.
  pose proof (sound_ids _ _ _ Hi) as (Hn & _ & _)%NoDup_app. pose proof (sound_merchantIds _ _ _ Hi) as Hmi.
  split_and!; [apply orderBy_perm|by apply candidates_increasing|].
  assert (length l ≤ length rows)%nat as Hle by (unfold l, candidates; rewrite orderBy_perm; apply length_filter).
  pose (K d s1 := working s1 ∧ rg_list s1 = rg_list s ∧ rg_screenings s1 = rg_screenings s ++ (the_screening entries <$> d)).
  destruct (run_sweep MerchantService.notHit (rescreened now entries) (λ _, eq_refl) account_handle rg_merchants
    (λ afterId, MerchantService.findActiveNotHitBatch afterId 50) SanctionsScreeningSweepService.evaluateOne SanctionsScreeningSweepService.count
    (news entries) K now 50 fuel rows (SanctionsScreeningSweepService.mkSweepResult 0 0 0 0) s) as (s' & Hrun' & Hm & _ & _ & Hs).
  - lia.
  - done.
  - intros m Hin. destruct (sound_drawn _ _ _ Hi (ac_id m)) as (n & -> & _); [|by apply Hu]. apply elem_of_app. left. by apply list_elem_of_fmap_2.
  - fold l. lia.
  - intros afterId d s1 (Hw1 & HK). exists (tick s1). split_and!; [|done|split; [by apply working_tick|exact HK]].
    by apply (works_last _ (λ _, tick) (λ s1, Ok (keysetBatch MerchantService.notHit afterId 50 (rg_merchants s1)))).
  - intros d m rest s1 Hml Hms Hfr (Hw1 & Hl1 & Hs1).
    assert (m ∈ rows) as Hin by (apply (candidates_in MerchantService.notHit); rewrite Hml; apply elem_of_app; right; left).
    assert (SanctionsListStore.entries (rg_list s1) = entries) as He by by rewrite Hl1.
    destruct (evaluate_works now s1 m) as (s2 & Hrun2 & Hw2 & Hm2 & Hl2 & Hs2); [done|..|done| |].
    + by rewrite ids_of_frozen, Hfr, <- ids_of_frozen.
    + by rewrite merchantIds_of_frozen, Hfr, <- merchantIds_of_frozen.
    + rewrite He. by apply (rows_screenable _ _ _ _ Hi).
    + rewrite He in *. exists s2. split_and!; [done|done|]. unfold K. split_and!; [done|congruence|]. by rewrite Hs2, Hs1, fmap_app, app_assoc.
  - done.
  - unfold K. split_and!; [done|done|]. by rewrite app_nil_r.
  - fold l in Hrun', Hs. exists s'. pose proof (tally_counts entries l 0 0 0 0) as Ht. unfold tally in Ht. rewrite Ht in Hrun'; [by split_and!|].
    intros m [_ Hc%andb_true_iff]%candidates_in. destruct Hc as [_ Hc]. by apply bool_decide_eq_true in Hc.
Qed.

(** ** What a sweep can undo *)

Lemma submit_works now s m legal tax r : working s → NoDup (ac_id <$> rg_merchants s) → NoDup (ac_merchantId <$> rg_merchants s) → m ∈ rg_merchants s →
  OfacSdnSanctionsAdapter.screen (Num.Fin matchThreshold) (SanctionsListStore.entries (rg_list s)) legal = Some r → sr_status r ≠ HIT →
  ∃ s' m', run account_handle (MerchantService.submitKyc (ac_merchantId m) legal tax) now s = (s', Ok m') ∧ working s'
    ∧ rg_merchants s' = updated m' (rg_merchants s) ∧ frozen m' = frozen m ∧ ac_legalName m' = Some legal ∧ sc_status (ac_sanctions m') = Some (sr_status r).
Proof.
  intros Hw Hi Hmi Hm Hs Hh. unfold MerchantService.submitKyc. rewrite run_bind_prog, getOrThrow_works by done.
  pose proof (working_tick _ Hw) as Hw1. rewrite run_bind_prog, (screening_works _ _ _ _ _ r) by done.
  set (s2 := tick (tick s) {{ rg_screenings := _ }}). assert (working s2) as Hw2 by by apply working_tick. set (o := mkSanctionsScreeningOutcome _ _ _ _).
  rewrite run_bind_prog. unfold MerchantService.refuseHit. rewrite bool_decide_eq_false_2 by done. cbn [run mret prog_ret].
  set (a := mkApplication _ _ _ _ _).
  rewrite (works_ask _ _ (λ _ s, tick s {{ rg_verifications := rg_verifications s ++ [mkVerification KYC a (verification (rg_calls s) KYC a)] }})
    (λ s, Ok (verification (rg_calls s) KYC a))) by done. set (s3 := tick s2 {{ rg_verifications := _ }}). assert (working s3) as Hw3 by by apply working_tick.
  rewrite (run_event _ _ _ _ _ (tick s3) now) by done. destruct (MerchantService.decided _) as [st aid]. pose proof (working_tick _ Hw3) as Hw4.
  set (m' := MerchantService.setKycStatus _ _). rewrite run_bind_prog, save_works; [|done|by exists m].
  set (s5 := tick (tick s3) {{ rg_merchants := _ }}). assert (working s5) as Hw5 by by apply working_tick.
  rewrite run_bind_prog. unfold MerchantService.announce. case_bool_decide.
  - rewrite run_call. cbn [account_handle]. eexists _, m'. split; [reflexivity|]. split; [by apply working_tick|]. by split_and!.
  - eexists _, m'. split; [reflexivity|]. by split_and!.
Qed.

Lemma updated_elem m m' rows : m ∈ rows → ac_id m = ac_id m' → writtenRow m m' ∈ updated m' rows.
Proof. intros Hm He. apply list_elem_of_fmap. exists m. split; [by rewrite He, String.eqb_refl|done]. Qed.

(** A sweep that has screened the name a merchant had when a legal name arrives stores
    its verdict over that of the legal name: both calls return, and the merchant is CLEAR
    under a name that is a potential match. *)
Theorem sweep_forgets_match now s m legal tax r : let entries := SanctionsListStore.entries (rg_list s) in
  working s → NoDup (ac_id <$> rg_merchants s) → NoDup (ac_merchantId <$> rg_merchants s) → m ∈ rg_merchants s →
  screenable entries m → verdict entries m = CLEAR →
  OfacSdnSanctionsAdapter.screen (Num.Fin matchThreshold) entries legal = Some r → sr_status r = POTENTIAL_MATCH →
  ∃ s', rtc (interleave account_handle)
      (mkConfig now s [discard (SanctionsScreeningSweepService.evaluateOne m); discard (MerchantService.submitKyc (ac_merchantId m) legal tax)])
      (mkConfig now s' [Ret tt; Ret tt])
    ∧ ∃ m', m' ∈ rg_merchants s' ∧ ac_id m' = ac_id m ∧ ac_legalName m' = Some legal ∧ sc_status (ac_sanctions m') = Some CLEAR.
Proof.
  intros entries Hw Hi Hmi Hm Hsc Hv Hr Hp. set (ps := [_; _]).
  pose proof (prefix_interleaves_assoc account_handle (SanctionsScreeningService.screen (ac_legalName m) (ac_name m) (ac_taxId m)) _ _ now s _ _ ps 0
    eq_refl (screen_works now s m Hw Hsc)) as H1. fold entries in H1. set (s1 := tick s {{ rg_screenings := _ }}) in H1.
  destruct (submit_works now s1 m legal tax r) as (s2 & m' & Hrun2 & Hw2 & Hm2 & Hf & Hl & _); [by apply working_tick|done|done|done|done|by rewrite Hp|].
  match type of H1 with rtc _ _ (mkConfig _ _ ?x) => set (ps1 := x) in H1 end.
  pose proof (run_interleaves account_handle (discard (MerchantService.submitKyc (ac_merchantId m) legal tax)) now s1 ps1 1 eq_refl) as H2.
  unfold discard in H2 at 1 2. rewrite run_bind_prog, Hrun2 in H2. cbn [run mret prog_ret fst snd] in H2.
  assert (ac_id m = ac_id m') as Hid by (unfold frozen in Hf; congruence). set (m2 := writtenRow m m').
  assert (m2 ∈ rg_merchants s2) as Hin2 by (rewrite Hm2; by apply updated_elem).
  assert (frozen <$> rg_merchants s2 = frozen <$> rg_merchants s) as Hfs by (rewrite Hm2; apply updated_frozen; [done|exists m; split; [done|congruence]]).
  assert (NoDup (ac_id <$> rg_merchants s2)) as Hi2 by by rewrite ids_of_frozen, Hfs, <- ids_of_frozen.
  assert (NoDup (ac_merchantId <$> rg_merchants s2)) as Hmi2 by by rewrite merchantIds_of_frozen, Hfs, <- merchantIds_of_frozen.
  pose proof (apply_works now s2 m2 (outcome entries m) Hw2 Hi2 Hmi2 Hin2) as Hrun3. cbv zeta in Hrun3.
  change (ac_merchantId m2) with (ac_merchantId m') in Hrun3. assert (ac_merchantId m' = ac_merchantId m) as Hmid by (unfold frozen in Hf; congruence).
  rewrite Hmid in Hrun3.
  match type of H2 with rtc _ _ (mkConfig _ _ ?x) => set (ps2 := x) in H2 end.
  pose proof (run_interleaves account_handle _ now s2 ps2 0 eq_refl) as H3. unfold verdict in Hv.
  rewrite !run_bind_prog, Hrun3, run_bind_prog in H3. rewrite (bool_decide_eq_false_2 (so_status (outcome entries m) ≠ CLEAR)), andb_false_r in H3 by (rewrite Hv; tauto).
  cbn [run mret prog_ret fst snd] in H3. set (m3 := m2 {{ ac_sanctions := _ }}) in H3. eexists. split; [etrans; [exact H1|]; etrans; [exact H2|exact H3]|].
  exists (writtenRow m2 m3). split; [by apply updated_elem|]. split_and!; [done|done|]. cbn. by rewrite Hv.
Qed.
End sweep.

(** * Merchant accounts: concrete histories

    Witnesses of the theorems on accounts, and histories in which the service loses
    information: saves of whole rows that were read earlier, and columns that a save
    skips. *)

Lemma sample_uuid_inj (n n' : nat) : ("id" +:+ pretty n)%string = ("id" +:+ pretty n')%string → n = n'.
Proof. intros H. by apply (inj (String.append "id")), (inj pretty) in H. Qed.


(** Everything works; the provider approves. *)
#[global] Instance sample_world : World := {|
  fault := λ _, Works;
  uuid := λ n, ("id" +:+ pretty n)%string;
  uuid_inj := sample_uuid_inj;
  random := λ n, pretty n;
  hash := λ _ s, s;
  encrypt := λ _ s, s;
  verification := λ _ _ _, mkVerificationResult APPROVED "app";
  matchReport := λ _, ("report"%string, 0);
  matchThreshold := defaultUnits |}.

Definition sample_dto : CreateMerchantDto :=
  mkCreateMerchantDto "acme" "Acme" None None None ["MERCHANT"%string] None None None None None None None None None None.

Definition start (requests : list account_request) : config unit := mkConfig 0 emptyRegistry (serve_account <$> requests).

(** A list of one name, which shares no letter with the merchant. *)
Definition sample_list : string := "1,Q".

Definition sample_requests : list account_request :=
  [LIST_REFRESH (Some (Ok sample_list)); CREATE sample_dto; SUBMIT_KYC "acme" (mkSubmitKycDto "Acme Corp" "12")].
Definition sample_turns : list nat := [0%nat] ++ replicate 10 1%nat ++ replicate 5 2%nat.

(** Acme is verified. *)
Definition sample_outcome (rows : registryTable) : bool :=
  match rows with
  | [m] => bool_decide (MerchantEntity.kycStatus (ac_config m) = KYC_VERIFIED) && String.eqb (identity m) "Acme Corp"
  | _ => false
  end.

Lemma sample_history : ∃ c, rtc (interleave account_handle) (mkConfig 0 emptyRegistry (serve_account <$> sample_requests)) c
  ∧ ∃ m, rg_merchants (memory c) = [m] ∧ MerchantEntity.kycStatus (ac_config m) = KYC_VERIFIED ∧ identity m = "Acme Corp"%string.
Proof.
  assert (sample_outcome (rg_merchants (memory (schedule account_handle sample_turns (start sample_requests)))) = true) as H by by vm_compute.
  pose proof (schedule_reaches account_handle sample_turns (start sample_requests)) as Hr.
  generalize dependent (schedule account_handle sample_turns (start sample_requests)). intros c H Hr.
  exists c. split; [exact Hr|]. unfold sample_outcome in H. destruct (rg_merchants (memory c)) as [|m [|]]; [done| |done].
  apply andb_true_iff in H as [H1%bool_decide_eq_true H2%String.eqb_eq]. by exists m.
Qed.

Lemma sample_threshold : 0 < matchThreshold ≤ Num.one.
Proof. split; by vm_compute. Qed.

Lemma sample_fits : fetched_fits sample_requests.
Proof.
  intros csv Hin. apply elem_of_cons in Hin as [[= ->]|Hin]; [by vm_compute|].
  apply elem_of_cons in Hin as [Hin|Hin]; [discriminate|]. apply list_elem_of_singleton in Hin. discriminate.
Qed.

Lemma merchants_well_formed_witness : ∃ m rows, m ∈ rows ∧ NoDup (ac_merchantId <$> rows) ∧ well_formed rows m.
Proof.
  destruct sample_history as (c & Hc & m & Hm & _). exists m, (rg_merchants (memory c)).
  destruct (merchants_well_formed sample_requests 0 c sample_threshold sample_fits Hc) as (_ & H2 & H3).
  assert (m ∈ rg_merchants (memory c)) as Hin by (rewrite Hm; left). split_and!; [exact Hin|exact H2|exact (H3 m Hin)].
Defined.

Lemma no_listed_identity_witness : ∃ g : Screening, sg_name g = "Acme Corp"%string ∧ normalizeName "Acme Corp" ∉ normalizedName <$> sg_list g.
Proof.
  destruct sample_history as (c & Hc & m & Hm & _ & Hid). assert (m ∈ rg_merchants (memory c)) as Hin by (rewrite Hm; left).
  destruct (no_listed_identity sample_requests 0 c m sample_threshold sample_fits Hc Hin) as (g & _ & Hn & Hl).
  exists g. rewrite Hid in Hn, Hl. split; [exact Hn|exact Hl].
Defined.

Lemma verified_means_approved_witness : ∃ s m, MerchantEntity.kycStatus (ac_config m) = KYC_VERIFIED ∧ evidence sample_requests s KYC KYC_VERIFIED (ac_kyc m).
Proof.
  destruct sample_history as (c & Hc & m & Hm & Hs & _). assert (m ∈ rg_merchants (memory c)) as Hin by (rewrite Hm; left). exists (memory c), m.
  split; [exact Hs|]. exact (proj1 (verified_means_approved sample_requests 0 c m sample_threshold sample_fits Hc Hin) Hs).
Defined.

Lemma sample_uuid n : uuid n ≠ ""%string.
Proof. done. Qed.

Lemma sanctions_sweep_complete_witness : ∃ s s' r, rg_merchants s ≠ []
  ∧ run account_handle (SanctionsScreeningSweepService.runSweep 1) 5 s = (s', Ok (Some r)) ∧ SanctionsScreeningSweepService.sw_skipped r = 0.
Proof.
  destruct sample_history as (c & Hc & m & Hm & _).
  destruct (sanctions_sweep_complete sample_threshold sample_requests 0 c 5 1 sample_fits sample_uuid Hc) as (_ & _ & s' & Hrun & _).
  - intros n _. reflexivity.
  - rewrite Hm. cbn. lia.
  - exists (memory c), s'. eexists. split; [by rewrite Hm|]. split; [exact Hrun|reflexivity].
Defined.

(** ** Saves of rows that were read earlier *)

(** Every program returned. *)
Definition ended (c : @config account_event registry unit) : Prop := Forall (λ p, p = Ret tt) (pool c).

Definition endedb (c : @config account_event registry unit) : bool := forallb (λ p, match p with Ret _ => true | _ => false end) (pool c).

(** A schedule is evaluated once, for all that is observed of its end. *)
Lemma observe {A} turns requests (f : registry → A) (x : A) :
  (λ c, (endedb c, f (memory c))) (schedule account_handle turns (start requests)) = (true, x) →
  ∃ c, rtc (interleave account_handle) (start requests) c ∧ ended c ∧ f (memory c) = x.
Proof.
  pose proof (schedule_reaches account_handle turns (start requests)) as Hr. generalize dependent (schedule account_handle turns (start requests)).
  intros c Hr [= He Hf]. exists c. split_and!; [done| |done]. apply Forall_forall. intros p Hp%list_elem_of_In. unfold endedb in He. rewrite forallb_forall in He.
  specialize (He p Hp). by destruct p as [[]| |].
Qed.

(** A submission of KYC documents that is under way when an operator terminates the
    merchant for cause writes back the row it read: both calls return, the filing went
    out, and the merchant is active, with no trace of the termination. *)
Theorem submission_undoes_termination :
  let requests := [LIST_REFRESH (Some (Ok sample_list)); CREATE sample_dto; TERMINATE "acme" "04" "chargebacks" "root"; SUBMIT_KYC "acme" (mkSubmitKycDto "Acme Corp" "12")] in
  ∃ c, rtc (interleave account_handle) (start requests) c ∧ ended c
    ∧ (λ m, (ac_isActive m, ac_match m)) <$> rg_merchants (memory c) = [(true, mkMatchColumns false None None None None None None)].
Proof.
  intros requests.
  apply (observe ([0%nat] ++ replicate 10 1%nat ++ [3%nat] ++ replicate 6 2%nat ++ replicate 4 3%nat) requests
    (λ s, (λ m, (ac_isActive m, ac_match m)) <$> rg_merchants s)). by vm_compute.
Qed.

(** ** Columns a save skips *)

(** An automatic flag is attributed to the operator who raised the one before: the
    assignment of [undefined] leaves the old name in the row. *)
Theorem automatic_flag_keeps_operator :
  let requests := [LIST_REFRESH (Some (Ok sample_list)); CREATE sample_dto; MANUAL_AMBIGUOUS "acme" true "complaint" "alice"; AMBIGUOUS_AUTO "acme" true; AUTO_AMBIGUOUS "acme" false "";
                   AUTO_AMBIGUOUS "acme" true "daily volume"] in
  ∃ c, rtc (interleave account_handle) (start requests) c ∧ ended c
    ∧ (λ m, (rf_value (ac_ambiguousRisk m), rf_reason (ac_ambiguousRisk m), rf_flaggedBy (ac_ambiguousRisk m))) <$> rg_merchants (memory c)
      = [(true, Defined (Some "daily volume"%string), Defined (Some "alice"%string))].
Proof.
  intros requests.
  apply (observe ([0%nat] ++ replicate 10 1%nat ++ replicate 3 2%nat ++ replicate 2 3%nat ++ replicate 3 4%nat ++ replicate 3 5%nat) requests
    (λ s, (λ m, (rf_value (ac_ambiguousRisk m), rf_reason (ac_ambiguousRisk m), rf_flaggedBy (ac_ambiguousRisk m))) <$> rg_merchants s)). by vm_compute.
Qed.
