(* ===== verification/Rates.v ===== *)
(** * Rates against thresholds, exactly

    The monitors divide two counts in binary64 and compare the quotient with a decimal
    literal, which binary64 does not represent. Rounding is monotone, and fractions of
    moderate terms lie further apart than it moves them; so such a comparison decides
    the comparison of the exact fractions. *)

From S2P Require Import Prelude JsNumber.

Module Rates.
Import Num.

(** ** Rounding is monotone *)

Lemma div_rne_mono n n' d : 0 < d → n ≤ n' → div_rne n d ≤ div_rne n' d.
Proof.
  intros Hd Hn. pose proof (Z.div_mod n d) as Hdiv. pose proof (Z.mod_pos_bound n d Hd) as Hr.
  pose proof (Z.div_mod n' d) as Hdiv'. pose proof (Z.mod_pos_bound n' d Hd) as Hr'.
  pose proof (Z.div_le_mono n n' d Hd Hn) as Hq. unfold div_rne. cbv zeta.
  destruct (Z.eq_dec (n / d) (n' / d)) as [He|Hne].
  - rewrite He in *. assert (n mod d ≤ n' mod d) by nia.
    destruct (Z.compare_spec (2 * (n mod d)) d), (Z.compare_spec (2 * (n' mod d)) d), (Z.even (n' / d)); lia.
  - assert (n / d + 1 ≤ n' / d) by lia.
    destruct (Z.compare_spec (2 * (n mod d)) d), (Z.compare_spec (2 * (n' mod d)) d), (Z.even (n / d)), (Z.even (n' / d)); lia.
Qed.

Lemma shift_of_mono f f' : f ≤ f' → shift_of f ≤ shift_of f'.
Proof. intros H. unfold shift_of. pose proof (Z.log2_le_mono f f' H). lia. Qed.

Lemma rnd_pos_mono n n' d : 0 < d → 0 ≤ n ≤ n' → rnd_pos n d ≤ rnd_pos n' d.
Proof.
  intros Hd Hn. pose proof (shift_of_mono _ _ (Z.div_le_mono n n' d Hd (proj2 Hn))) as Hs.
  set (s := shift_of (n / d)) in *. set (s' := shift_of (n' / d)) in *.
  pose proof (shift_of_nonneg (n / d)) as H0. fold s in H0. pose proof (pow2_pos s H0).
  destruct (Z.eq_dec s s') as [He|Hne].
  - unfold rnd_pos. cbv zeta. fold s s'. rewrite <- He. apply Z.mul_le_mono_nonneg_r; [lia|]. apply div_rne_mono; nia.
  - pose proof (shift_of_high (n / d) ltac:(apply Z.div_pos; lia)) as Hhi. fold s in Hhi.
    pose proof (shift_of_low (n' / d)) as Hlo. fold s' in Hlo. specialize (Hlo ltac:(lia)).
    assert (2 ^ (53 + s) ≤ 2 ^ (52 + s')) as Hmid by (apply Z.pow_le_mono_r; lia).
    assert (repr (2 ^ (53 + s))) as Hrepr.
    { rewrite <- (Z.mul_1_l (2 ^ (53 + s))). apply repr_of_small; lia. }
    pose proof (Z.mul_div_le n' d Hd). pose proof (Z.mul_succ_div_gt n d Hd).
    transitivity (2 ^ (53 + s)); [apply rnd_pos_le|apply rnd_pos_ge]; try done; nia.
Qed.

(** ** Comparing two fractions *)

Lemma lit_small p q : 0 ≤ p ≤ 2 ^ 53 → 0 < q → lit p q = Fin (rnd_pos (p * one) q).
Proof. intros Hp Hq. pose proof one_pos. apply (mk_bounded _ _ p); nia. Qed.

Lemma rnd_fraction_mono p q a b : 0 ≤ p → 0 < q → 0 < b → p * b ≤ a * q → rnd_pos (p * one) q ≤ rnd_pos (a * one) b.
Proof.
  intros Hp Hq Hb Hle. pose proof one_pos. rewrite <- (rnd_pos_scale (p * one) q b), <- (rnd_pos_scale (a * one) b q), (Z.mul_comm b q) by done.
  apply rnd_pos_mono; nia.
Qed.

Lemma ltb_fractions p q a b : 0 ≤ p ≤ 2 ^ 53 → 0 < q ≤ 2 ^ 53 → 0 ≤ a ≤ 2 ^ 53 → 0 < b ≤ 2 ^ 53 → a * q < 2 ^ 52 →
  ltb (lit p q) (lit a b) = (p * b <? a * q).
Proof.
  intros Hp Hq Ha Hb Hsmall. rewrite !lit_small by lia. unfold ltb, compare. pose proof one_pos as H1. destruct (Z.ltb_spec (p * b) (a * q)) as [Hlt|Hge].
  - pose proof (rnd_pos_quotient_error p q Hq ltac:(lia)) as He1. pose proof (rnd_pos_quotient_error a b Hb ltac:(lia)) as He2.
    set (x := rnd_pos (p * one) q) in *. set (y := rnd_pos (a * one) b) in *.
    assert (2 ^ 53 * (x * q) ≤ (2 ^ 53 + 1) * (p * one)) as Hx by lia.
    assert ((2 ^ 53 - 1) * (a * one) ≤ 2 ^ 53 * (y * b)) as Hy by lia.
    assert ((2 ^ 53 + 1) * (p * b) < (2 ^ 53 - 1) * (a * q)) as Hgap by lia.
    assert (2 ^ 53 * (x * (q * b)) < 2 ^ 53 * (y * (q * b))) as Hlt'.
    { apply Z.le_lt_trans with ((2 ^ 53 + 1) * (p * b) * one); [nia|]. apply Z.lt_le_trans with ((2 ^ 53 - 1) * (a * q) * one); [nia|nia]. }
    rewrite (proj2 (Z.compare_lt_iff x y)); [done|]. apply (Z.mul_lt_mono_pos_r (q * b)); nia.
  - pose proof (rnd_fraction_mono a b p q ltac:(lia) ltac:(lia) ltac:(lia) ltac:(lia)) as Hle.
    destruct (Z.compare_spec (rnd_pos (p * one) q) (rnd_pos (a * one) b)); [done|lia|done].
Qed.

(** ** Sums of quarters *)

Definition quarters (k : Z) : number := Fin (k * 2 ^ 1072).

Lemma quarter_one : one = 4 * 2 ^ 1072.
Proof. unfold one. change 4 with (2 ^ 2). rewrite <- Z.pow_add_r by lia. done. Qed.

Lemma mk_quarters k : 0 ≤ k ≤ 2 ^ 53 → mk (k * 2 ^ 1072) 1 = quarters k.
Proof.
  intros Hk. pose proof quarter_one as H1. pose proof (pow2_pos 1072 ltac:(lia)) as Hp. rewrite (mk_bounded _ _ k) by nia. unfold quarters. f_equal.
  rewrite <- (Z.mul_1_r (k * 2 ^ 1072)) at 1. apply rnd_pos_exact; [lia|apply repr_of_small; lia|nia].
Qed.

Lemma add_quarters j k : 0 ≤ j → 0 ≤ k → j + k ≤ 2 ^ 53 → add (quarters j) (quarters k) = quarters (j + k).
Proof. intros Hj Hk Hs. change (add (quarters j) (quarters k)) with (mk (j * 2 ^ 1072 + k * 2 ^ 1072) 1). rewrite <- Z.mul_add_distr_r. apply mk_quarters. lia. Qed.

Lemma lit_quarters p q : (q | 4) → 0 < q → 0 ≤ p ≤ 2 ^ 50 → lit p q = quarters (4 / q * p).
Proof.
  intros [c Hc] Hq Hp. pose proof quarter_one as H1. pose proof (pow2_pos 1072 ltac:(lia)) as Hpos. unfold lit. assert (0 < c ≤ 4) as Hcp by nia.
  assert (4 / q = c) as -> by (rewrite Hc; apply Z.div_mul; lia). rewrite (mk_bounded _ _ p) by nia. unfold quarters. f_equal.
  replace (p * one) with (c * p * 2 ^ 1072 * q) by (rewrite H1, Hc; ring). apply rnd_pos_exact; [lia|apply repr_of_small; nia|nia].
Qed.

(** A sum of quarters over a count is the fraction. *)
Lemma div_quarters k n : 0 ≤ k ≤ 2 ^ 53 → 0 < n ≤ 2 ^ 53 → div (quarters k) (of_bigint n) = lit k (4 * n).
Proof.
  intros Hk Hn. pose proof quarter_one as H1. pose proof (pow2_pos 1072 ltac:(lia)) as Hp. pose proof one_pos.
  rewrite of_bigint_small by lia. unfold div, quarters, lit. rewrite (proj2 (Z.eqb_neq (n * one) 0)), Z.sgn_pos, Z.mul_1_r, Z.abs_eq by nia.
  rewrite (mk_bounded _ _ k), (mk_bounded _ (4 * n) k) by nia. f_equal.
  replace (k * 2 ^ 1072 * one) with (k * one * 2 ^ 1072) by ring. replace (n * one) with (4 * n * 2 ^ 1072) by (rewrite H1; ring). apply rnd_pos_scale; lia.
Qed.

End Rates.
