(* ===== verification/Risk.v ===== *)
(** * Risk monitoring

    [risk-tiering.service.ts], [chargeback-monitoring.service.ts] with its dispatcher,
    [ambiguous-risk-monitoring.service.ts], [aml-review-monitoring.service.ts] with its
    dispatcher, [reserve-policy-escalation.listener.ts], the top-ups of
    [reserve.service.ts], and the queries behind them: services that count what happened
    to a merchant's payments and set its reserve policy, tier and flags. They are
    programs over the merchants of [Accounts] and the tables of payments, disputes and
    reserve holds. *)

From stdpp Require Import pretty.
From S2P Require Import Prelude Rows JsNumber Money Policies PaymentStatus Payment Merchant Ledger Payout Dispute Redis Program Sanctions Accounts.

(** ** Tables and queries *)

Record tables := mkTables { tb_payments : list Payment.t; tb_disputes : list Dispute.t; tb_holds : list ReserveHold.t }.

Definition pay_merchantId (p : Payment.t) : string := md_merchantId (Payment._metadata p).

Definition countRows {A} (f : A → bool) (l : list A) : Z := Z.of_nat (length (filter (λ x, f x) l)).

(** A filter by merchant is left out when the id is empty. *)
Definition ofMerchant (merchantId : string) (p : Payment.t) : bool :=
  String.eqb merchantId "" || String.eqb (pay_merchantId p) merchantId.

Module PaymentTypeOrmRepository.

Definition count (merchantId : string) (status : PaymentStatus) (fromDate toDate : Date) (payments : list Payment.t) : Z :=
  countRows (λ p, ofMerchant merchantId p && bool_decide (Payment._status p = status)
                  && (fromDate <=? Payment._createdAt p) && (Payment._createdAt p <=? toDate)) payments.

(** A payment that is or was AMBIGUOUS. *)
Definition everAmbiguous (p : Payment.t) : bool :=
  bool_decide (Payment._status p = AMBIGUOUS) || isSome (Payment._ambiguousResolvedAt p).

Definition countAmbiguousIncidentsSince (merchantId : string) (since : Date) (payments : list Payment.t) : Z :=
  countRows (λ p, String.eqb (pay_merchantId p) merchantId && everAmbiguous p && (since <=? Payment._createdAt p)) payments.

Definition newestFirst (p p' : Payment.t) : bool := Payment._createdAt p' <=? Payment._createdAt p.

Definition findRecentAmbiguousFlags (merchantId : string) (limit : nat) (payments : list Payment.t) : list bool :=
  everAmbiguous <$> take limit (orderBy newestFirst (filter (λ p, String.eqb (pay_merchantId p) merchantId) payments)).

Definition countHardDeclinesSince (merchantId : string) (since : Date) (payments : list Payment.t) : Z :=
  countRows (λ p, bool_decide (Decline.classifyDeclineCode (Payment._failureCode p) (Payment._pspProvider p) = Decline.HARD_DECLINE))
    (filter (λ p, String.eqb (pay_merchantId p) merchantId && bool_decide (Payment._status p = FAILED) && (since <=? Payment._createdAt p)) payments).

End PaymentTypeOrmRepository.

Module DisputeTypeOrmRepository.

Definition countAllByMerchantSince (merchantId : string) (since : Date) (disputes : list Dispute.t) : Z :=
  countRows (λ d, String.eqb (Dispute._merchantId d) merchantId && (since <=? Dispute._createdAt d)) disputes.

Definition findReasonsByMerchantStatusSince (merchantId : string) (status : DisputeStatus) (since : Date) (disputes : list Dispute.t)
    : list (option string) :=
  Dispute._reason <$> filter (λ d, String.eqb (Dispute._merchantId d) merchantId && bool_decide (Dispute._status d = status)
                                   && (since <=? Dispute._createdAt d)) disputes.

End DisputeTypeOrmRepository.

Module ReserveHoldTypeOrmRepository.

Definition oldestFirst (h h' : ReserveHold.t) : bool := ReserveHold._createdAt h <=? ReserveHold._createdAt h'.

Definition heldBy (merchantId : string) (h : ReserveHold.t) : bool :=
  String.eqb (ReserveHold._merchantId h) merchantId && bool_decide (ReserveHold._status h = ReserveHold.HELD).

Definition findHeldByMerchant (merchantId : string) (holds : list ReserveHold.t) : list ReserveHold.t :=
  orderBy oldestFirst (filter (λ h, heldBy merchantId h) holds).

(** [save] of a hold that was loaded. *)
Definition save (h : ReserveHold.t) (holds : list ReserveHold.t) : list ReserveHold.t :=
  (λ r, if String.eqb (ReserveHold._id r) (ReserveHold._id h) then h else r) <$> holds.

End ReserveHoldTypeOrmRepository.

(** ** Events *)

Inductive Notice :=
  | TIER_CHANGED (merchantId : string) (previousTier tier : ChargebackTier.ChargebackMonitoringTier) (reason : string)
      (disputeCount settledCharges windowDays : Z)
  | AML_FLAGGED (merchantId reason : string) (hardDeclineCount windowDays : Z).

Inductive risk_event : Type → Type :=
  | MERCHANTS {X} (c : account_event X) : risk_event X
  | LIST_MERCHANTS : risk_event (result (list Account))
  | COUNT_PAYMENTS (merchantId : string) (status : PaymentStatus) (fromDate toDate : Date) : risk_event (result Z)
  | LOST_REASONS (merchantId : string) (since : Date) : risk_event (result (list (option string)))
  | COUNT_DISPUTES (merchantId : string) (since : Date) : risk_event (result Z)
  | COUNT_AMBIGUOUS (merchantId : string) (since : Date) : risk_event (result Z)
  | RECENT_AMBIGUOUS (merchantId : string) (limit : nat) : risk_event (result (list bool))
  | COUNT_HARD_DECLINES (merchantId : string) (since : Date) : risk_event (result Z)
  | FIND_HELD (merchantId : string) : risk_event (result (list ReserveHold.t))
  | SAVE_TOP_UP (hold : ReserveHold.t) (event : LedgerOutboxEvent.t) : risk_event (result unit)
  | SEND_NOTICE (c : Channel) (n : Notice) : risk_event (result unit).

Abbreviation R := (prog risk_event).

(** A program of the merchant service. *)
Fixpoint lift {A} (p : P A) : R A :=
  match p with Ret a => Ret a | Fail e => Fail e | Do c k => Do (MERCHANTS c) (λ x, lift (k x)) end.

(** [merchantService.findByMerchantId]: active merchants only, on the replica. *)
Definition findByMerchantId (merchantId : string) : R (option Account) :=
  merchant ← lift (ask (FIND_ON_REPLICA merchantId));
  mret (match merchant with Some m => if ac_isActive m then Some m else None | None => None end).

(** What the deployment configures, and [created_at], which the database sets when it
    inserts a row and nothing changes. *)
Class RiskConfig := {
  highRiskThreshold : number;
  mediumRiskThreshold : number;
  newMerchantAgeDays : number;
  monitoringThreshold : number;
  excessiveThreshold : number;
  chargebackWindowDays : Z;
  minSettledCharges : Z;
  dailyThreshold : Z;
  consecutiveThreshold : nat;
  autoClearDays : Z;
  amlThreshold : Z;
  amlWindowDays : Z;
  createdAt : Account → Date;
  createdAt_id m m' : ac_id m = ac_id m' → createdAt m = createdAt m' }.

Definition DAY : Z := 24 * 60 * 60 * 1000.

Definition SETTLED_STATUSES : list PaymentStatus := [SUCCEEDED; PARTIALLY_REFUNDED; REFUNDED; DISPUTED].

(** The sum of the counts of [SETTLED_STATUSES]. *)
Fixpoint countSettled (merchantId : string) (since now : Date) (statuses : list PaymentStatus) : R Z :=
  match statuses with
  | [] => mret 0
  | status :: statuses =>
      n ← ask (COUNT_PAYMENTS merchantId status since now);
      rest ← countSettled merchantId since now statuses;
      mret (n + rest)
  end.

(** What a daily sweep reports. *)
Record SweepCounts := mkSweepCounts { sc_evaluated : Z; sc_changed : Z; sc_skipped : Z }.

Definition countEvaluation {T} (c : SweepCounts) (r : option (option (T * bool))) : SweepCounts :=
  match r with
  | Some (Some (_, changed)) => mkSweepCounts (sc_evaluated c + 1) (if changed : bool then sc_changed c + 1 else sc_changed c) (sc_skipped c)
  | _ => c {{ sc_skipped := sc_skipped c + 1 }}
  end.

Definition noCounts : SweepCounts := mkSweepCounts 0 0 0.

(** ** Top-ups ([reserve.service.ts], [reserve-policy-escalation.listener.ts]) *)

Module ReserveTopUps.
Import ReserveHold.

(** One round of the loop: whether the hold was topped up. *)
Definition topUpHold (newReserveBps : Z) (hold : t) : R bool :=
  targetAmount ← of_result (Money.multiply (_netAmount hold) (bps_factor newReserveBps));
  greater ← of_result (Money.isGreaterThan targetAmount (_amount hold));
  if negb greater then mret false
  else
    id ← call (MERCHANTS UUID);
    now ← call (MERCHANTS CLOCK);
    r ← of_result (ReserveService.topUpOne now id newReserveBps hold);
    match r with
    | None => mret false
    | Some (hold, topUpEvent) => _ ← ask (SAVE_TOP_UP hold topUpEvent); mret true
    end.

Definition countTopUp (c : Z * Z) (r : option bool) : Z * Z :=
  match r with Some true => (fst c + 1, snd c) | Some false => c | None => (fst c, snd c + 1) end.

(** The number of holds topped up, and of failures. *)
Definition topUpHeldReservesForMerchant (merchantId : string) (newReserveBps : Z) : R (Z * Z) :=
  holds ← ask (FIND_HELD merchantId);
  allSettled (topUpHold newReserveBps) countTopUp holds (0, 0).

Definition onReservePolicyEscalated (merchantId : string) (reserveBps : Z) : R unit :=
  catch (_ ← topUpHeldReservesForMerchant merchantId reserveBps; mret tt) (λ _, mret tt).

End ReserveTopUps.

(** ** Reserve policy by risk tier ([risk-tiering.service.ts]) *)

Definition WINDOW_DAYS : Z := 90.
Definition MIN_SAMPLE_SIZE : Z := 10.
Definition RISK_TIERING_SWEEP_BATCH_SIZE : nat := 50.

Definition DEFAULT_HIGH_RISK_THRESHOLD : number := Num.lit 1 100.
Definition DEFAULT_MEDIUM_RISK_THRESHOLD : number := Num.lit 5 1000.
Definition DEFAULT_NEW_MERCHANT_AGE_DAYS : number := Num.lit 30 1.

Definition tierFor (lostDisputeRate highThreshold mediumThreshold : number) : DisputePolicy.RiskTier :=
  if Num.gtb lostDisputeRate highThreshold then DisputePolicy.HIGH
  else if Num.gtb lostDisputeRate mediumThreshold then DisputePolicy.MEDIUM
  else DisputePolicy.LOW.

Definition escalate (tier : DisputePolicy.RiskTier) : DisputePolicy.RiskTier :=
  match tier with DisputePolicy.LOW => DisputePolicy.MEDIUM | _ => DisputePolicy.HIGH end.

(** The tier of a merchant with these counts. *)
Definition riskTier `{RiskConfig} (now : Date) (settledCharges : Z) (lostDisputeReasons : list (option string)) (merchant : Account) : DisputePolicy.RiskTier :=
  let lostDisputes := foldl (λ sum reason, Num.add sum (DisputePolicy.getDisputeRiskWeight reason)) (Num.of_bigint 0) lostDisputeReasons in
  let lostDisputeRate := Num.div lostDisputes (Num.of_bigint settledCharges) in
  let tier := tierFor lostDisputeRate highRiskThreshold mediumRiskThreshold in
  let tier := if bool_decide (ac_industryRiskCategory merchant = RISK_HIGH) then escalate tier else tier in
  let accountAgeDays := Num.div (Num.of_bigint (now - createdAt merchant)) (Num.of_bigint DAY) in
  let tier := if Num.ltb accountAgeDays newMerchantAgeDays then escalate tier else tier in
  if bool_decide (MerchantEntity.accountType (ac_config merchant) = CONNECTED)
     && negb (bool_decide (MerchantEntity.kycStatus (ac_config merchant) = KYC_VERIFIED))
  then DisputePolicy.HIGH else tier.

Module RiskTieringService.
Section service.
Context `{RiskConfig}.

Definition evaluateMerchantEntity (now : Date) (merchant : Account) : R (option (DisputePolicy.RiskTier * bool)) :=
  if negb (MerchantEntity.riskTierAutoManaged (ac_config merchant)) then mret None
  else
    let merchantId := ac_merchantId merchant in
    let since := now - WINDOW_DAYS * DAY in
    settledCharges ← countSettled merchantId since now SETTLED_STATUSES;
    lostDisputeReasons ← ask (LOST_REASONS merchantId since);
    if settledCharges <? MIN_SAMPLE_SIZE then mret None
    else
      let tier := riskTier now settledCharges lostDisputeReasons merchant in
      let '(reserveBps, reserveHoldDays) := TIER_POLICIES tier in
      let isEscalation := MerchantEntity.reserveBps (ac_config merchant) <? reserveBps in
      let changed := negb (MerchantEntity.reserveBps (ac_config merchant) =? reserveBps)
                     || negb (MerchantEntity.reserveHoldDays (ac_config merchant) =? reserveHoldDays) in
      _ ← (if changed then
             _ ← lift (MerchantService.applyAutoRiskTier merchantId reserveBps reserveHoldDays);
             if isEscalation then _ ← ReserveTopUps.topUpHeldReservesForMerchant merchantId reserveBps; mret tt else mret tt
           else mret tt);
      mret (Some (tier, changed)).

Definition evaluateMerchant (merchantId : string) (now : Date) : R (option (DisputePolicy.RiskTier * bool)) :=
  merchant ← findByMerchantId merchantId;
  match merchant with None => mret None | Some merchant => evaluateMerchantEntity now merchant end.

(** For at most [fuel] batches. *)
Definition runTieringSweep (fuel : nat) (now : Date) : R (option SweepCounts) :=
  forPages ac_id (λ afterId, lift (MerchantService.findActiveAutoManagedBatch afterId RISK_TIERING_SWEEP_BATCH_SIZE))
    RISK_TIERING_SWEEP_BATCH_SIZE (allSettled (evaluateMerchantEntity now) countEvaluation) fuel None noCounts.

End service.
End RiskTieringService.

(** ** Chargeback monitoring ([chargeback-monitoring.service.ts]) *)

Definition DEFAULT_MONITORING_THRESHOLD : number := Num.lit 65 10000.
Definition DEFAULT_EXCESSIVE_THRESHOLD : number := Num.lit 18 1000.
Definition SWEEP_BATCH_SIZE : nat := 50.

(** [x.toFixed(2)] of a number that is not negative and below [10^21]. *)
Definition toFixed2 (x : number) : string :=
  match x with
  | Num.Fin c =>
      let n := (2 * 100 * c + Num.one) / (2 * Num.one) in
      let digits := pretty (n mod 100) in
      pretty (n / 100) +:+ "." +:+ match String.length digits with 1%nat => "0" +:+ digits | _ => digits end
  | Num.PosInf => "Infinity"
  | Num.NegInf => "-Infinity"
  | Num.NaN => "NaN"
  end.

Module ChargebackMonitoringNotificationDispatcherService.

Definition notify (merchantId : string) (n : Notice) : R unit :=
  merchant ← findByMerchantId merchantId;
  match merchant with
  | None => mret tt
  | Some merchant =>
      let channel := cs_chargebackMonitoring (ac_channels merchant) in
      if truthy (ch_target channel) then catch (ask (SEND_NOTICE channel n)) (λ _, mret tt) else mret tt
  end.

End ChargebackMonitoringNotificationDispatcherService.

Module ChargebackMonitoringService.
Section service.
Context `{RiskConfig}.

Definition tierFor (disputeRate excessiveThreshold monitoringThreshold : number) : ChargebackTier.ChargebackMonitoringTier :=
  if Num.gtb disputeRate excessiveThreshold then ChargebackTier.EXCESSIVE
  else if Num.gtb disputeRate monitoringThreshold then ChargebackTier.MONITORING
  else ChargebackTier.NONE.

Definition sameTier (t t' : ChargebackTier.ChargebackMonitoringTier) : bool :=
  ChargebackTier.chargebackTierRank t =? ChargebackTier.chargebackTierRank t'.

Definition reasonText (disputeRate : number) (settledCharges disputeCount : Z) : string :=
  toFixed2 (Num.mul disputeRate (Num.of_bigint 100)) +:+ "% dispute rate over " +:+ pretty settledCharges +:+ " settled charges/"
  +:+ pretty chargebackWindowDays +:+ "d (" +:+ pretty disputeCount +:+ " disputes)".

Definition evaluateMerchantEntity (now : Date) (merchant : Account) : R (option (ChargebackTier.ChargebackMonitoringTier * bool)) :=
  if negb (rf_autoManaged (ac_chargeback merchant)) then mret None
  else
    let merchantId := ac_merchantId merchant in
    let since := now - chargebackWindowDays * DAY in
    settledCharges ← countSettled merchantId since now SETTLED_STATUSES;
    disputeCount ← ask (COUNT_DISPUTES merchantId since);
    if settledCharges <? minSettledCharges then mret None
    else
      let disputeRate := Num.div (Num.of_bigint disputeCount) (Num.of_bigint settledCharges) in
      let tier := tierFor disputeRate excessiveThreshold monitoringThreshold in
      let previousTier := rf_value (ac_chargeback merchant) in
      if sameTier tier previousTier then mret (Some (tier, false))
      else
        let reason := reasonText disputeRate settledCharges disputeCount in
        _ ← lift (MerchantService.applyAutoChargebackMonitoringTier merchantId tier reason);
        _ ← catch (ChargebackMonitoringNotificationDispatcherService.notify merchantId
                     (TIER_CHANGED merchantId previousTier tier reason disputeCount settledCharges chargebackWindowDays)) (λ _, mret tt);
        mret (Some (tier, true)).

Definition evaluateMerchant (merchantId : string) (now : Date) : R (option (ChargebackTier.ChargebackMonitoringTier * bool)) :=
  merchant ← findByMerchantId merchantId;
  match merchant with None => mret None | Some merchant => evaluateMerchantEntity now merchant end.

Definition runMonitoringSweep (fuel : nat) (now : Date) : R (option SweepCounts) :=
  forPages ac_id (λ afterId, lift (MerchantService.findActiveChargebackMonitoringAutoManagedBatch afterId SWEEP_BATCH_SIZE))
    SWEEP_BATCH_SIZE (allSettled (evaluateMerchantEntity now) countEvaluation) fuel None noCounts.

End service.
End ChargebackMonitoringService.

(** ** Ambiguous outcomes ([ambiguous-risk-monitoring.service.ts]) *)

(** A column as it is read. *)
Definition columnValue {A} (f : field A) : option A := match f with Defined x => x | Undefined => None end.

Module AmbiguousRiskMonitoringService.
Section service.
Context `{RiskConfig}.

Definition flag (merchantId reason : string) : R unit :=
  _ ← lift (MerchantService.applyAutoAmbiguousRiskFlag merchantId true reason); mret tt.

Definition evaluate (merchantId : string) : R unit :=
  merchant ← findByMerchantId merchantId;
  match merchant with
  | None => mret tt
  | Some merchant =>
      let risk := ac_ambiguousRisk merchant in
      if negb (rf_autoManaged risk) then mret tt
      else if rf_value risk then flag merchantId (nullish (columnValue (rf_reason risk)) "Repeated AMBIGUOUS incident while already flagged")
      else
        now ← call (MERCHANTS CLOCK);
        let since := now - DAY in
        dailyCount ← ask (COUNT_AMBIGUOUS merchantId since);
        if dailyThreshold <? dailyCount
        then flag merchantId (pretty dailyCount +:+ " AMBIGUOUS incidents in the trailing 24 hours (threshold: " +:+ pretty dailyThreshold +:+ ")")
        else
          recent ← ask (RECENT_AMBIGUOUS merchantId consecutiveThreshold);
          if (length recent =? consecutiveThreshold)%nat && forallb (λ b, b) recent
          then flag merchantId ("last " +:+ pretty consecutiveThreshold +:+ " consecutive payments were all AMBIGUOUS")
          else mret tt
  end.

(** Flagged automatically, and not since the cutoff. *)
Definition clearable (cutoff : Date) (m : Account) : bool :=
  let risk := ac_ambiguousRisk m in
  rf_value risk && rf_autoManaged risk && match columnValue (rf_flaggedAt risk) with Some t => t <=? cutoff | None => false end.

Definition clearOne (merchant : Account) : R unit :=
  _ ← lift (MerchantService.applyAutoAmbiguousRiskFlag (ac_merchantId merchant) false ""); mret tt.

(** The number of flags cleared. *)
Definition runAutoClearSweep (now : Date) : R Z :=
  let cutoff := now - autoClearDays * DAY in
  merchants ← ask LIST_MERCHANTS;
  allSettled clearOne (λ cleared r, match r with Some _ => cleared + 1 | None => cleared end) (filter (λ m, clearable cutoff m) merchants) 0.

End service.
End AmbiguousRiskMonitoringService.

(** ** Hard declines ([aml-review-monitoring.service.ts]) *)

Module AmlReviewNotificationDispatcherService.

Definition notify (merchantId : string) (n : Notice) : R unit :=
  merchant ← findByMerchantId merchantId;
  match merchant with
  | None => mret tt
  | Some merchant =>
      let channel := cs_amlReview (ac_channels merchant) in
      if truthy (ch_target channel) then catch (ask (SEND_NOTICE channel n)) (λ _, mret tt) else mret tt
  end.

End AmlReviewNotificationDispatcherService.

Module AmlReviewMonitoringService.
Section service.
Context `{RiskConfig}.

Definition evaluate (merchantId : string) (errorCode : option string) (pspProvider : option PSPProvider) : R unit :=
  if negb (bool_decide (Decline.classifyDeclineCode errorCode pspProvider = Decline.HARD_DECLINE)) then mret tt
  else
    merchant ← findByMerchantId merchantId;
    match merchant with
    | None => mret tt
    | Some merchant =>
        let review := ac_amlReview merchant in
        if negb (bool_decide (ac_industryRiskCategory merchant = RISK_HIGH)) || negb (rf_autoManaged review) then mret tt
        else if rf_value review then
          _ ← lift (MerchantService.applyAutoAmlReviewFlag merchantId true
                      (nullish (columnValue (rf_reason review)) "Repeated hard-decline while already flagged for AML review"));
          mret tt
        else
          now ← call (MERCHANTS CLOCK);
          let since := now - amlWindowDays * DAY in
          hardDeclineCount ← ask (COUNT_HARD_DECLINES merchantId since);
          if hardDeclineCount <? amlThreshold then mret tt
          else
            let reason := pretty hardDeclineCount +:+ " hard-declines in the trailing " +:+ pretty amlWindowDays +:+ " days (threshold: "
                          +:+ pretty amlThreshold +:+ ")" in
            _ ← lift (MerchantService.applyAutoAmlReviewFlag merchantId true reason);
            catch (AmlReviewNotificationDispatcherService.notify merchantId (AML_FLAGGED merchantId reason hardDeclineCount amlWindowDays))
              (λ _, mret tt)
    end.

End service.
End AmlReviewMonitoringService.

(** ** What the events do *)

Record risk_state := mkRiskState {
  rk_registry : registry;
  rk_master : tables;
  rk_replica : tables;
  rk_ledger : list LedgerOutboxEvent.t;
  rk_notices : list Notice }.

Section handler.
Context `{World, RiskConfig}.

(** [ORDER BY created_at DESC] *)
Definition youngestFirst (m m' : Account) : bool := createdAt m' <=? createdAt m.

Definition risk_handle X (c : risk_event X) (now : Date) (s : risk_state) : risk_state * result X :=
  let n := rg_calls (rk_registry s) in
  let f := fault n in
  let s1 := s {{ rk_registry := (rk_registry s) {{ rg_calls := S n }} }} in
  let master := rk_master s in
  let replica := rk_replica s in
  match c in risk_event Y return risk_state * result Y with
  | MERCHANTS c => let '(reg, r) := account_handle _ c now (rk_registry s) in (s {{ rk_registry := reg }}, r)
  | LIST_MERCHANTS => faulty f s1 s1 (Ok (orderBy youngestFirst (rg_merchants (rk_registry s))))
  | COUNT_PAYMENTS mid status from to => faulty f s1 s1 (Ok (PaymentTypeOrmRepository.count mid status from to (tb_payments replica)))
  | LOST_REASONS mid since =>
      faulty f s1 s1 (Ok (DisputeTypeOrmRepository.findReasonsByMerchantStatusSince mid (RESOLVED LOST) since (tb_disputes replica)))
  | COUNT_DISPUTES mid since => faulty f s1 s1 (Ok (DisputeTypeOrmRepository.countAllByMerchantSince mid since (tb_disputes replica)))
  | COUNT_AMBIGUOUS mid since => faulty f s1 s1 (Ok (PaymentTypeOrmRepository.countAmbiguousIncidentsSince mid since (tb_payments master)))
  | RECENT_AMBIGUOUS mid limit => faulty f s1 s1 (Ok (PaymentTypeOrmRepository.findRecentAmbiguousFlags mid limit (tb_payments master)))
  | COUNT_HARD_DECLINES mid since => faulty f s1 s1 (Ok (PaymentTypeOrmRepository.countHardDeclinesSince mid since (tb_payments master)))
  | FIND_HELD mid => faulty f s1 s1 (Ok (ReserveHoldTypeOrmRepository.findHeldByMerchant mid (tb_holds replica)))
  | SAVE_TOP_UP hold event =>
      faulty f s1 (s1 {{ rk_master := master {{ tb_holds := ReserveHoldTypeOrmRepository.save hold (tb_holds master) }};
                         rk_ledger := rk_ledger s ++ [event] }}) (Ok tt)
  | SEND_NOTICE _ n => faulty f s1 (s1 {{ rk_notices := rk_notices s ++ [n] }}) (Ok tt)
  end.
End handler.

(** ** What starts them *)

Inductive monitor_request :=
  | TIERING_SWEEP (fuel : nat) (now : Date)
  | EVALUATE_TIER (merchantId : string) (now : Date)
  | CHARGEBACK_SWEEP (fuel : nat) (now : Date)
  | EVALUATE_CHARGEBACKS (merchantId : string) (now : Date)
  | AMBIGUOUS_INCIDENT (merchantId : string)
  | AUTO_CLEAR (now : Date)
  | CHARGE_FAILED (merchantId : string) (errorCode : option string) (pspProvider : option PSPProvider)
  | POLICY_ESCALATED (merchantId : string) (reserveBps : Z).

Definition ignore {A} (p : R A) : R unit := _ ← p; mret tt.

Definition serve_monitor `{RiskConfig} (r : monitor_request) : R unit :=
  match r with
  | TIERING_SWEEP fuel now => ignore (RiskTieringService.runTieringSweep fuel now)
  | EVALUATE_TIER mid now => ignore (RiskTieringService.evaluateMerchant mid now)
  | CHARGEBACK_SWEEP fuel now => ignore (ChargebackMonitoringService.runMonitoringSweep fuel now)
  | EVALUATE_CHARGEBACKS mid now => ignore (ChargebackMonitoringService.evaluateMerchant mid now)
  | AMBIGUOUS_INCIDENT mid => AmbiguousRiskMonitoringService.evaluate mid
  | AUTO_CLEAR now => ignore (AmbiguousRiskMonitoringService.runAutoClearSweep now)
  | CHARGE_FAILED mid code psp => AmlReviewMonitoringService.evaluate mid code psp
  | POLICY_ESCALATED mid bps => ReserveTopUps.onReservePolicyEscalated mid bps
  end.
