(* ===== verification/RiskCorrect.v ===== *)
(** * Correctness of the risk decisions

    The tiers computed in binary64 are those of exact arithmetic over the tables; a
    top-up raises every held reserve of a merchant to its share and books exactly the
    difference. *)

From S2P Require Import Prelude Rows JsNumber Money Policies PaymentStatus Payment Merchant Ledger LedgerCorrect Payout ReserveCorrect Dispute Redis Shared Program Sanctions Accounts AccountsCorrect Paging AccountsSweep Rates Risk.

(** ** Counts *)

Lemma countRows_cons {A} (f : A → bool) x l : countRows f (x :: l) = (if f x then 1 else 0) + countRows f l.
Proof. unfold countRows. rewrite filter_cons. destruct (f x); [rewrite decide_True by done|rewrite decide_False by tauto]; cbn [length]; lia. Qed.

Lemma countRows_bound {A} (f : A → bool) l : 0 ≤ countRows f l ≤ Z.of_nat (length l).
Proof. unfold countRows. pose proof (length_filter (λ x, f x) l). lia. Qed.

(** The payments of a merchant in a window that were charges. *)
Definition settledCharges (payments : list Payment.t) (merchantId : string) (since now : Date) : Z :=
  countRows (λ p, ofMerchant merchantId p && bool_decide (Payment._status p ∈ SETTLED_STATUSES)
                  && (since <=? Payment._createdAt p) && (Payment._createdAt p <=? now)) payments.

Lemma settled_once st : (if bool_decide (st ∈ SETTLED_STATUSES) then 1 else 0) = sumZ (λ status, if bool_decide (st = status) then 1 else 0) SETTLED_STATUSES.
Proof. by destruct st. Qed.

Lemma settledCharges_sum payments mid since now :
  settledCharges payments mid since now
  = sumZ (λ status, PaymentTypeOrmRepository.count mid status since now payments) SETTLED_STATUSES.
Proof.
  unfold settledCharges, PaymentTypeOrmRepository.count, SETTLED_STATUSES. cbn [sumZ].
  induction payments as [|p payments IH]; [done|]. rewrite !countRows_cons, IH. clear IH. destruct (ofMerchant mid p); cbn [andb]; [|lia].
  destruct (since <=? Payment._createdAt p), (Payment._createdAt p <=? now); rewrite ?andb_false_r, ?andb_true_r; cbn [andb]; try lia.
  pose proof (settled_once (Payment._status p)) as H. unfold SETTLED_STATUSES in H. cbn [sumZ] in H. lia.
Qed.

(** ** The tier of exact arithmetic *)

(** The weight of a lost dispute, in quarters. *)
Definition quarterWeight (reason : option string) : Z :=
  match reason with
  | Some r =>
      if String.eqb r "product_not_received" || String.eqb r "subscription_canceled" then 2
      else if String.eqb r "duplicate" then 1 else 4
  | None => 4
  end.

Definition lostQuarters (reasons : list (option string)) : Z := sumZ quarterWeight reasons.

Lemma quarterWeight_range r : 1 ≤ quarterWeight r ≤ 4.
Proof. destruct r as [r|]; cbn; [|lia]. destruct (_ || _); [lia|]. destruct (String.eqb r "duplicate"); lia. Qed.

Lemma lostQuarters_range reasons : 0 ≤ lostQuarters reasons ≤ 4 * Z.of_nat (length reasons).
Proof. unfold lostQuarters. induction reasons as [|r l IH]; cbn [sumZ length]; [lia|]. pose proof (quarterWeight_range r). lia. Qed.

Lemma weight_quarters r : DisputePolicy.getDisputeRiskWeight r = Rates.quarters (quarterWeight r).
Proof.
  destruct r as [r|]; [|by apply (Rates.lit_quarters 1 1); [exists 4|lia|lia]].
  unfold DisputePolicy.getDisputeRiskWeight, quarterWeight, DisputePolicy.DISPUTE_RISK_WEIGHTS, DisputePolicy.DEFAULT_DISPUTE_RISK_WEIGHT.
  destruct (String.eqb_spec r ""); [subst; by apply (Rates.lit_quarters 1 1); [exists 4|lia|lia]|].
  destruct (String.eqb_spec r "fraudulent"); [subst; by apply (Rates.lit_quarters 1 1); [exists 4|lia|lia]|].
  destruct (String.eqb r "product_not_received"); [by apply (Rates.lit_quarters 1 2); [exists 2|lia|lia]|].
  destruct (String.eqb r "subscription_canceled"); [by apply (Rates.lit_quarters 1 2); [exists 2|lia|lia]|].
  destruct (String.eqb r "duplicate"); [by apply (Rates.lit_quarters 1 4); [exists 1|lia|lia]|].
  by apply (Rates.lit_quarters 1 1); [exists 4|lia|lia].
Qed.

Lemma weights_sum reasons k : 0 ≤ k → k + lostQuarters reasons ≤ 2 ^ 53 →
  foldl (λ sum reason, Num.add sum (DisputePolicy.getDisputeRiskWeight reason)) (Rates.quarters k) reasons = Rates.quarters (k + lostQuarters reasons).
Proof.
  revert k. induction reasons as [|r reasons IH]; intros k Hk Hb; cbn [foldl]; unfold lostQuarters in *; cbn [sumZ] in *; [by rewrite Z.add_0_r|].
  pose proof (quarterWeight_range r). pose proof (lostQuarters_range reasons). unfold lostQuarters in *.
  rewrite weight_quarters, Rates.add_quarters by lia. rewrite IH by lia. f_equal. lia.
Qed.

(** A lost-dispute rate above 1% is HIGH, above 0.5% MEDIUM. *)
Definition baseTier (charges quarters : Z) : DisputePolicy.RiskTier :=
  if charges <? 25 * quarters then DisputePolicy.HIGH else if charges <? 50 * quarters then DisputePolicy.MEDIUM else DisputePolicy.LOW.

(** The tier: the rate, one step up for a risky category and for an account younger than
    30 days, HIGH for a connected account that is not verified. *)
Definition exactTier (created now : Date) (charges quarters : Z) (m : Account) : DisputePolicy.RiskTier :=
  if bool_decide (MerchantEntity.accountType (ac_config m) = CONNECTED ∧ MerchantEntity.kycStatus (ac_config m) ≠ KYC_VERIFIED) then DisputePolicy.HIGH
  else
    let step (b : bool) t := if b then escalate t else t in
    step (now <? created + 30 * DAY) (step (bool_decide (ac_industryRiskCategory m = RISK_HIGH)) (baseTier charges quarters)).

Section tiers.
Context `{C : RiskConfig}.

Definition default_tiering : Prop :=
  highRiskThreshold = DEFAULT_HIGH_RISK_THRESHOLD ∧ mediumRiskThreshold = DEFAULT_MEDIUM_RISK_THRESHOLD
  ∧ newMerchantAgeDays = DEFAULT_NEW_MERCHANT_AGE_DAYS.

Lemma rate_gtb n q p d : 0 < n ≤ 2 ^ 45 → 0 ≤ q ≤ 2 ^ 38 → 0 ≤ p ≤ 2 ^ 13 → 0 < d ≤ 2 ^ 13 →
  Num.gtb (Num.div (Rates.quarters q) (Num.of_bigint n)) (Num.lit p d) = (4 * p * n <? d * q).
Proof.
  intros Hn Hq Hp Hd. rewrite Rates.div_quarters by lia. unfold Num.gtb. rewrite Rates.ltb_fractions by nia. f_equal; lia.
Qed.

Lemma riskTier_exact now n reasons m : default_tiering → 0 < n ≤ 2 ^ 45 → Z.of_nat (length reasons) ≤ 2 ^ 36 → 0 ≤ now - createdAt m ≤ 2 ^ 53 →
  riskTier now n reasons m = exactTier (createdAt m) now n (lostQuarters reasons) m.
Proof.
  intros (Hh & Hm & Ha) Hn Hl Hage. unfold riskTier, exactTier. rewrite Hh, Hm, Ha. pose proof (lostQuarters_range reasons) as Hq.
  assert (Num.of_bigint 0 = Rates.quarters 0) as -> by (rewrite Num.of_bigint_small by lia; unfold Rates.quarters; rewrite !Z.mul_0_l; reflexivity).
  rewrite weights_sum by lia. rewrite Z.add_0_l.
  assert (tierFor (Num.div (Rates.quarters (lostQuarters reasons)) (Num.of_bigint n)) DEFAULT_HIGH_RISK_THRESHOLD DEFAULT_MEDIUM_RISK_THRESHOLD
          = baseTier n (lostQuarters reasons)) as ->.
  { unfold tierFor, baseTier, DEFAULT_HIGH_RISK_THRESHOLD, DEFAULT_MEDIUM_RISK_THRESHOLD. rewrite !rate_gtb by lia.
    replace (4 * 1 * n <? 100 * lostQuarters reasons) with (n <? 25 * lostQuarters reasons) by (destruct (Z.ltb_spec n (25 * lostQuarters reasons)), (Z.ltb_spec (4 * 1 * n) (100 * lostQuarters reasons)); lia).
    replace (4 * 5 * n <? 1000 * lostQuarters reasons) with (n <? 50 * lostQuarters reasons) by (destruct (Z.ltb_spec n (50 * lostQuarters reasons)), (Z.ltb_spec (4 * 5 * n) (1000 * lostQuarters reasons)); lia).
    reflexivity. }
  assert (Num.ltb (Num.div (Num.of_bigint (now - createdAt m)) (Num.of_bigint DAY)) DEFAULT_NEW_MERCHANT_AGE_DAYS = (now <? createdAt m + 30 * DAY)) as ->.
  { unfold DEFAULT_NEW_MERCHANT_AGE_DAYS. rewrite Num.div_of_bigint by (unfold DAY; lia). rewrite Rates.ltb_fractions by (unfold DAY; lia).
    destruct (Z.ltb_spec ((now - createdAt m) * 1) (30 * DAY)), (Z.ltb_spec now (createdAt m + 30 * DAY)); lia. }
  rewrite bool_decide_and, bool_decide_not. cbv beta zeta. reflexivity.
Qed.

(** The tier of the card networks, likewise: above 1.8% of disputes EXCESSIVE, above
    0.65% MONITORING. *)
Theorem chargeback_tier_exact charges disputes : 0 < charges ≤ 2 ^ 53 → 0 ≤ disputes ≤ 2 ^ 38 →
  ChargebackMonitoringService.tierFor (Num.div (Num.of_bigint disputes) (Num.of_bigint charges)) DEFAULT_EXCESSIVE_THRESHOLD DEFAULT_MONITORING_THRESHOLD
  = if 18 * charges <? 1000 * disputes then ChargebackTier.EXCESSIVE
    else if 65 * charges <? 10000 * disputes then ChargebackTier.MONITORING else ChargebackTier.NONE.
Proof.
  intros Hn Hd. unfold ChargebackMonitoringService.tierFor, Num.gtb, DEFAULT_EXCESSIVE_THRESHOLD, DEFAULT_MONITORING_THRESHOLD. rewrite Num.div_of_bigint by lia.
  rewrite !Rates.ltb_fractions by lia. by rewrite (Z.mul_comm disputes 1000), (Z.mul_comm disputes 10000).
Qed.
End tiers.

(** ** Programs over the tables *)

Section runs.
Context `{W : World, C : RiskConfig}.
Implicit Types (s : risk_state) (m : Account) (h : ReserveHold.t).

#[global] Instance risk_answers : Answers risk_handle.
Proof.
  intros X c now s. destruct c as [X c| | | | | | | | | |]; cbn [risk_handle]; [|unfold faulty; destruct (fault _); eauto..].
  destruct (answers X c now (rk_registry s)) as (reg & x & ->). eauto.
Qed.

Lemma run_merchants {A} (p : P A) now s :
  run risk_handle (lift p) now s = ((s {{ rk_registry := (run account_handle p now (rk_registry s)).1 }}), (run account_handle p now (rk_registry s)).2).
Proof.
  revert s. induction p as [a|e|X c k IH]; intros s; [by destruct s..|]. cbn [lift run risk_handle].
  destruct (account_handle X c now (rk_registry s)) as [reg [x|e]]; [|done]. rewrite IH. by destruct s.
Qed.

Definition live s : Prop := working (rk_registry s).

Definition rtick s : risk_state := s {{ rk_registry := tick (rk_registry s) }}.

(** Only calls and identifiers were spent. *)
Record quiet s s' : Prop := {
  qt_live : live s';
  qt_merchants : rg_merchants (rk_registry s') = rg_merchants (rk_registry s);
  qt_replica : rg_replica (rk_registry s') = rg_replica (rk_registry s);
  qt_tables : rk_master s' = rk_master s;
  qt_tables_replica : rk_replica s' = rk_replica s;
  qt_ledger : rk_ledger s' = rk_ledger s;
  qt_notices : rk_notices s' = rk_notices s }.

Lemma quiet_refl s : live s → quiet s s.
Proof. by split. Qed.

Lemma quiet_trans s1 s2 s3 : quiet s1 s2 → quiet s2 s3 → quiet s1 s3.
Proof. intros [] []. split; [done|congruence..]. Qed.

Lemma quiet_tick s : live s → quiet s (rtick s).
Proof. intros Hl. split; [by apply working_tick|done..]. Qed.

(** An event that works. *)
Lemma run_works {X A} (c : risk_event (result X)) (f : X → R A) (after : risk_state → risk_state) (answer : risk_state → X) now s :
  (∀ now s, risk_handle _ c now s = faulty (fault (rg_calls (rk_registry s))) (rtick s) (after s) (Ok (answer s))) → live s →
  run risk_handle (ask c ≫= f) now s = run risk_handle (f (answer s)) now (after s).
Proof. intros Hc Hl. rewrite (run_ask _ _ _ _ _ (after s) (Ok (answer s))); [done|]. by rewrite Hc, Hl. Qed.

Lemma countSettled_works mid since now' statuses now s : live s →
  ∃ s', run risk_handle (countSettled mid since now' statuses) now s
        = (s', Ok (sumZ (λ status, PaymentTypeOrmRepository.count mid status since now' (tb_payments (rk_replica s))) statuses)) ∧ quiet s s'.
Proof.
  revert s. induction statuses as [|status statuses IH]; intros s Hl; [exists s; split; [done|by apply quiet_refl]|]. cbn [countSettled].
  rewrite (run_works _ _ rtick (λ s, PaymentTypeOrmRepository.count mid status since now' (tb_payments (rk_replica s)))) by done.
  destruct (IH (rtick s)) as (s' & Hrun & Hq); [by apply working_tick|]. rewrite run_bind_prog, Hrun. exists s'. split; [done|].
  by eapply quiet_trans; [apply quiet_tick|].
Qed.

(** ** Top-ups *)

Definition held_minor h : Z := Money.amountMinorUnits (ReserveHold._amount h).

(** A hold at the share of its charge. *)
Definition raised (bps : Z) h : ReserveHold.t :=
  match Money.multiply (ReserveHold._netAmount h) (bps_factor bps) with
  | Ok target =>
      if Money.amountMinorUnits target <=? held_minor h then h
      else h {{ ReserveHold._amount := Money.mk (Money.amountMinorUnits target) (Money.currency (ReserveHold._amount h)) None }}
  | Throw _ => h
  end.

Lemma raised_id bps h : ReserveHold._id (raised bps h) = ReserveHold._id h.
Proof. unfold raised. destruct (Money.multiply _ _); [|done]. by case_match. Qed.

(** A balanced event that moves money into the reserve account. *)
Definition reserve_booking (ev : LedgerOutboxEvent.t) : Prop := balanced (LedgerOutboxEvent.entries ev) ∧ 0 < reserve_net [ev].

(** What a top-up leaves: the holds, and the events booked. *)
Record topped (bps : Z) (l : list ReserveHold.t) (holds : list ReserveHold.t) s s' : Prop := {
  tp_live : live s';
  tp_merchants : rg_merchants (rk_registry s') = rg_merchants (rk_registry s);
  tp_replica : rg_replica (rk_registry s') = rg_replica (rk_registry s);
  tp_payments : tb_payments (rk_master s') = tb_payments (rk_master s);
  tp_disputes : tb_disputes (rk_master s') = tb_disputes (rk_master s);
  tp_tables_replica : rk_replica s' = rk_replica s;
  tp_notices : rk_notices s' = rk_notices s;
  tp_holds : tb_holds (rk_master s') = sweepRows ReserveHold._id (raised bps) (ReserveHold._id <$> l) holds;
  tp_ledger : ∃ evs, rk_ledger s' = rk_ledger s ++ evs ∧ Forall reserve_booking evs
                     ∧ reserve_net evs = sumZ (λ h, held_minor (raised bps h) - held_minor h) l }.

(** Whether there is something to add. *)
Definition short (bps : Z) h : bool := held_minor h <? held_minor (raised bps h).

Lemma run_uuid {A} (f : string → R A) now s : ∃ id, run risk_handle (call (MERCHANTS UUID) ≫= f) now s
  = run risk_handle (f id) now (s {{ rk_registry := (tick (rk_registry s)) {{ rg_uuids := S (rg_uuids (rk_registry s)) }} }}).
Proof. eexists. by apply run_event. Qed.

Lemma topUpHold_works bps h now s : live s → hold_ok h → ReserveHold._status h = ReserveHold.HELD → 0 ≤ bps ≤ 10000 →
  ∃ s', run risk_handle (ReserveTopUps.topUpHold bps h) now s = (s', Ok (short bps h))
    ∧ if short bps h then
        ∃ ev, s' = s {{ rk_registry := rk_registry s'; rk_master := (rk_master s) {{ tb_holds := ReserveHoldTypeOrmRepository.save (raised bps h) (tb_holds (rk_master s)) }};
                        rk_ledger := rk_ledger s ++ [ev] }}
           ∧ live s' ∧ rg_merchants (rk_registry s') = rg_merchants (rk_registry s) ∧ rg_replica (rk_registry s') = rg_replica (rk_registry s)
           ∧ reserve_booking ev ∧ reserve_net [ev] = held_minor (raised bps h) - held_minor h
      else s' = s ∧ raised bps h = h.
Proof.
  intros Hl Hok Hs Hb. destruct (topUpOne_spec now "" bps h Hok Hs Hb) as (target & Et & Hsp).
  unfold ReserveTopUps.topUpHold. rewrite run_bind_prog, Et. cbn [of_result run]. rewrite run_bind_prog, run_of_result.
  assert (Money.isGreaterThan target (ReserveHold._amount h) = Ok (held_minor h <? Money.amountMinorUnits target)) as Hgt.
  { unfold Money.isGreaterThan. destruct (multiply_bps_le (ReserveHold._netAmount h) bps) as (r & E & _); [apply Hok|apply Hok|done|].
    rewrite Et in E. injection E as ->. rewrite assertSameCurrency_same; [done|]. unfold Money.same. cbn. by rewrite <- (ho_same _ Hok). }
  rewrite Hgt. change (Money.amountMinorUnits (ReserveHold._amount h)) with (held_minor h) in Hsp. case_decide as Hd.
  - assert (raised bps h = h) as Hr by by unfold raised; rewrite Et, (proj2 (Z.leb_le _ _)) by done.
    unfold short. rewrite Hr, Z.ltb_irrefl, (proj2 (Z.ltb_ge _ _)) by done. by exists s.
  - set (h' := h {{ ReserveHold._amount := Money.mk (Money.amountMinorUnits target) (Money.currency (ReserveHold._amount h)) None }}).
    assert (raised bps h = h') as Hr by by unfold raised; rewrite Et, (proj2 (Z.leb_gt _ _)) by lia.
    unfold short. rewrite Hr. change (held_minor h') with (Money.amountMinorUnits target). rewrite (proj2 (Z.ltb_lt _ _)) by lia. cbn [negb].
    destruct (run_uuid (λ id, now ← call (MERCHANTS CLOCK); r ← of_result (ReserveService.topUpOne now id bps h);
      match r with None => mret false | Some (hold, topUpEvent) => _ ← ask (SAVE_TOP_UP hold topUpEvent); mret true end) now s) as [id Hid]. rewrite Hid. clear Hid Hsp.
    set (s1 := s {{ rk_registry := _ }}). assert (live s1) as Hl1 by by apply working_tick. rewrite (run_event _ _ _ _ _ (rtick s1) now) by done.
    destruct (topUpOne_spec now id bps h Hok Hs Hb) as (target' & Et' & Hsp). rewrite Et in Et'. injection Et' as <-. rewrite decide_False in Hsp by done.
    destruct Hsp as (ev & E & Hbal & Hnet & _). rewrite run_bind_of_result, E.
    fold h'. assert (live (rtick s1)) as Hl2 by by apply working_tick.
    rewrite (run_works _ _ (λ s, rtick s {{ rk_master := (rk_master s) {{ tb_holds := ReserveHoldTypeOrmRepository.save h' (tb_holds (rk_master s)) }};
      rk_ledger := rk_ledger s ++ [ev] }}) (λ _, tt)) by done. eexists. split; [reflexivity|].
    exists ev. split; [by destruct s|]. split; [by do 2 apply working_tick|].
    split_and!; [done|done|split; [done|rewrite Hnet; unfold held_minor in Hd; lia]|exact Hnet].
Qed.

Lemma held_in mid h holds : h ∈ ReserveHoldTypeOrmRepository.findHeldByMerchant mid holds ↔ h ∈ holds ∧ ReserveHoldTypeOrmRepository.heldBy mid h = true.
Proof. unfold ReserveHoldTypeOrmRepository.findHeldByMerchant. rewrite orderBy_elem, list_elem_of_filter. destruct (ReserveHoldTypeOrmRepository.heldBy mid h); naive_solver. Qed.

Lemma held_NoDup mid holds : NoDup (ReserveHold._id <$> holds) → NoDup (ReserveHold._id <$> ReserveHoldTypeOrmRepository.findHeldByMerchant mid holds).
Proof. intros Hn. unfold ReserveHoldTypeOrmRepository.findHeldByMerchant. rewrite orderBy_perm. eapply sublist_NoDup; [exact Hn|]. apply fmap_sublist, sublist_filter. Qed.

(** One hold more. *)
Lemma topped_next bps d h holds now s s1 : NoDup (ReserveHold._id <$> holds) → h ∈ holds → ReserveHold._id h ∉ ReserveHold._id <$> d →
  hold_ok h → ReserveHold._status h = ReserveHold.HELD → 0 ≤ bps ≤ 10000 → topped bps d holds s s1 →
  ∃ s', run risk_handle (ReserveTopUps.topUpHold bps h) now s1 = (s', Ok (short bps h)) ∧ topped bps (d ++ [h]) holds s s'.
Proof.
  intros Hn Hh Hd Hok Hs Hb [H1 H2 H3 H4 H5 H6 H7 H8 (evs & H9 & H10 & H11)].
  pose proof (sweepRows_snoc ReserveHold._id (raised bps) (raised_id bps) (ReserveHold._id <$> d) holds h Hn Hh Hd) as Hsnoc. rewrite <- H8 in Hsnoc.
  destruct (topUpHold_works bps h now s1 H1 Hok Hs Hb) as (s' & Hrun & Hcase). exists s'. split; [done|]. destruct (short bps h).
  - destruct Hcase as (ev & Hs' & Hl' & Hm' & Hr' & Hbal & Hnet). rewrite Hs'. split; cbn; rewrite <- ?Hs'; [done|congruence|congruence|done..| |].
    + rewrite fmap_app. cbn. rewrite <- Hsnoc. unfold ReserveHoldTypeOrmRepository.save, treatRow. by rewrite raised_id.
    + exists (evs ++ [ev]). rewrite H9, app_assoc, Forall_app, Forall_singleton, reserve_net_app, sumZ_app, H11, Hnet. cbn [sumZ]. split_and!; [done|done|done|lia].
  - destruct Hcase as [-> Hr]. split; [done..| |].
    + rewrite fmap_app. cbn. rewrite <- Hsnoc. symmetry. apply treatRow_same; [|rewrite H8; by apply sweepRows_elem|done].
      by rewrite H8, (sweepRows_ids _ _ (raised_id bps)).
    + exists evs. rewrite sumZ_app, H11. cbn [sumZ]. rewrite Hr. split_and!; [done|done|lia].
Qed.

(** All holds of a merchant. *)
Lemma topUpHeld_works mid bps now s : let holds := tb_holds (rk_master s) in let l := ReserveHoldTypeOrmRepository.findHeldByMerchant mid holds in
  live s → NoDup (ReserveHold._id <$> holds) → (∀ h, h ∈ holds → hold_ok h) → 0 ≤ bps ≤ 10000 →
  ReserveHoldTypeOrmRepository.findHeldByMerchant mid (tb_holds (rk_replica s)) = l →
  ∃ s' c, run risk_handle (ReserveTopUps.topUpHeldReservesForMerchant mid bps) now s = (s', Ok c) ∧ topped bps l holds s s'.
Proof.
  intros holds l Hl Hn Hok Hb Hrep. unfold ReserveTopUps.topUpHeldReservesForMerchant.
  rewrite (run_works _ _ rtick (λ s, ReserveHoldTypeOrmRepository.findHeldByMerchant mid (tb_holds (rk_replica s)))) by done. rewrite Hrep.
  destruct (run_allSettled risk_handle (ReserveTopUps.topUpHold bps) ReserveTopUps.countTopUp (short bps) (λ d, topped bps d holds s) now l [] (0, 0) (rtick s))
    as (s' & Hrun & Ht).
  - intros d h rest s1 Hl1 Ht. assert (h ∈ l) as [Hh Hheld]%held_in by (rewrite Hl1; apply elem_of_app; right; left).
    apply andb_true_iff in Hheld as [_ Hheld%bool_decide_eq_true]. apply topped_next; auto.
    pose proof (held_NoDup mid holds Hn) as Hnl. fold l in Hnl. rewrite Hl1, fmap_app in Hnl. apply NoDup_app in Hnl as (_ & Hdis & _). intros Hin. apply (Hdis _ Hin). left.
  - by exists l.
  - split; [by apply working_tick|done..|cbn; by rewrite sweepRows_nil|]. exists []. by rewrite app_nil_r.
  - eexists s', _. split; [exact Hrun|done].
Qed.

(** The holds of a merchant at their share, the others as they were. *)
Definition raiseHeld (mid : string) (bps : Z) h : ReserveHold.t := if ReserveHoldTypeOrmRepository.heldBy mid h then raised bps h else h.

Lemma topped_holds mid bps holds s s' : NoDup (ReserveHold._id <$> holds) →
  topped bps (ReserveHoldTypeOrmRepository.findHeldByMerchant mid holds) holds s s' → tb_holds (rk_master s') = raiseHeld mid bps <$> holds.
Proof. intros Hn Ht. rewrite (tp_holds _ _ _ _ _ Ht). apply sweepRows_part; [done|]. intros h. apply held_in. Qed.

Lemma topped_net mid bps holds : sumZ (λ h, held_minor (raised bps h) - held_minor h) (ReserveHoldTypeOrmRepository.findHeldByMerchant mid holds)
  = sumZ held_minor (raiseHeld mid bps <$> holds) - sumZ held_minor holds.
Proof.
  unfold ReserveHoldTypeOrmRepository.findHeldByMerchant. rewrite (sumZ_Permutation _ _ _ (orderBy_perm _ _)), sumZ_filter.
  induction holds as [|h holds IH]; [done|]. rewrite fmap_cons. cbn [sumZ]. rewrite IH. unfold raiseHeld at 2.
  destruct (ReserveHoldTypeOrmRepository.heldBy mid h); [rewrite decide_True by done|rewrite decide_False by (exact (λ H, H))]; lia.
Qed.
End runs.
