(* ===== verification/RiskSweep.v ===== *)
(** * The daily risk sweeps

    Once the calls work, the tiering sweep gives every active merchant it manages the
    reserve policy of its tier, raises the held reserves of those whose rate went up,
    and books exactly that; run again, it changes nothing. The chargeback sweep sets
    every tier to the rate of the window. Between its read and its write, each of them
    can undo an operator's decision. *)

From S2P Require Import Prelude Rows JsNumber Money Policies PaymentStatus Payment Merchant Ledger LedgerCorrect Payout ReserveCorrect Dispute Redis Shared Program Sanctions Accounts AccountsCorrect Paging AccountsSweep Rates Risk RiskCorrect.

Section sweeps.
Context `{W : World, C : RiskConfig}.
Implicit Types (s : risk_state) (m : Account) (h : ReserveHold.t) (t : tables) (rows : registryTable).

(** ** One merchant *)

(** The tier of a merchant by the tables, if it has enough charges. *)
Definition tierOf t (now : Date) m : option DisputePolicy.RiskTier :=
  let since := now - WINDOW_DAYS * DAY in
  let charges := settledCharges (tb_payments t) (ac_merchantId m) since now in
  let lost := DisputeTypeOrmRepository.findReasonsByMerchantStatusSince (ac_merchantId m) (RESOLVED LOST) since (tb_disputes t) in
  if charges <? MIN_SAMPLE_SIZE then None else Some (exactTier (createdAt m) now charges (lostQuarters lost) m).

Definition withPolicy (policy : Z * Z) m : Account :=
  m {{ ac_config := (ac_config m) {{ MerchantEntity.reserveBps := fst policy; MerchantEntity.reserveHoldDays := snd policy }} }}.

(** The merchant with the policy of its tier. *)
Definition retiered t now m : Account := match tierOf t now m with Some tier => withPolicy (TIER_POLICIES tier) m | None => m end.

Definition currentPolicy m : Z * Z := (MerchantEntity.reserveBps (ac_config m), MerchantEntity.reserveHoldDays (ac_config m)).

(** Whether the policy changes, and the rate it rises to. *)
Definition moved t now m : bool :=
  match tierOf t now m with Some tier => negb (bool_decide (currentPolicy m = TIER_POLICIES tier)) | None => false end.

Definition rise t now m : option Z :=
  match tierOf t now m with
  | Some tier => if MerchantEntity.reserveBps (ac_config m) <? fst (TIER_POLICIES tier) then Some (fst (TIER_POLICIES tier)) else None
  | None => None
  end.

Lemma rise_range t now m b : rise t now m = Some b → 0 ≤ b ≤ 10000.
Proof. unfold rise. destruct (tierOf t now m) as [[]|]; [..|done]; cbn; case_match; intros [= <-]; lia. Qed.

Lemma rise_moved t now m b : rise t now m = Some b → moved t now m = true.
Proof.
  unfold rise, moved. destruct (tierOf t now m) as [tier|]; [|done]. destruct (Z.ltb_spec (MerchantEntity.reserveBps (ac_config m)) (TIER_POLICIES tier).1) as [Hlt|]; [|done].
  intros _. rewrite bool_decide_eq_false_2; [done|]. unfold currentPolicy. intros He. rewrite <- He in Hlt. cbn in Hlt. lia.
Qed.

Lemma moved_same t now m : moved t now m = false → retiered t now m = m.
Proof.
  unfold moved, retiered. destruct (tierOf t now m) as [tier|]; [|done]. intros H%negb_false_iff%bool_decide_eq_true. rewrite <- H. by destruct m as [? ? ? ? []].
Qed.

Lemma retiered_frozen t now m : frozen (retiered t now m) = frozen m.
Proof. unfold retiered. by destruct (tierOf t now m). Qed.

(** A policy does not feed back into the tier. *)
Lemma tierOf_retiered t now m : tierOf t now (retiered t now m) = tierOf t now m.
Proof.
  unfold retiered. destruct (tierOf t now m) as [tier|] eqn:E; [|done]. rewrite <- E. unfold tierOf. change (ac_merchantId (withPolicy (TIER_POLICIES tier) m)) with (ac_merchantId m).
  by rewrite (createdAt_id (withPolicy (TIER_POLICIES tier) m) m).
Qed.

Lemma retiered_settled t now m : moved t now (retiered t now m) = false.
Proof.
  unfold moved. rewrite tierOf_retiered. unfold retiered. destruct (tierOf t now m) as [tier|]; [|done].
  rewrite bool_decide_eq_true_2; [done|]. unfold currentPolicy. cbn. by destruct (TIER_POLICIES tier).
Qed.

(** Table sizes and ages within which the doubles are exact. *)
Definition small_tables t : Prop := Z.of_nat (length (tb_payments t)) ≤ 2 ^ 45 ∧ Z.of_nat (length (tb_disputes t)) ≤ 2 ^ 36.
Definition aged now rows : Prop := ∀ m, m ∈ rows → 0 ≤ now - createdAt m ≤ 2 ^ 53.

Lemma modify_works mid assign m now (r : registry) : working r → NoDup (ac_id <$> rg_merchants r) → NoDup (ac_merchantId <$> rg_merchants r) → m ∈ rg_merchants r →
  ac_merchantId m = mid → frozen (assign m) = frozen m →
  run account_handle (MerchantService.modify mid (λ m, Ok (assign m))) now r = ((tick (tick r)) {{ rg_merchants := updated (assign m) (rg_merchants r) }}, Ok (assign m)).
Proof.
  intros Hw Hi Hmi Hm <- Hf. unfold MerchantService.modify. rewrite run_bind_prog, getOrThrow_works by done. cbn [of_result].
  rewrite run_bind_prog. cbn [run]. rewrite run_bind_prog, save_works; [done|by apply working_tick|by exists m].
Qed.

(** What evaluating one merchant leaves. *)
Record evaluated t now m s s' : Prop := {
  ev_live : live s';
  ev_merchants : rg_merchants (rk_registry s') = treatRow ac_id (retiered t now) m (rg_merchants (rk_registry s));
  ev_tables_replica : rk_replica s' = rk_replica s;
  ev_holds : tb_holds (rk_master s') = (match rise t now m with Some b => raiseHeld (ac_merchantId m) b | None => id end) <$> tb_holds (rk_master s);
  ev_ledger : ∃ evs, rk_ledger s' = rk_ledger s ++ evs ∧ Forall reserve_booking evs
                     ∧ reserve_net evs = sumZ held_minor (tb_holds (rk_master s')) - sumZ held_minor (tb_holds (rk_master s)) }.

Lemma policy_works t now m tier s : live s → NoDup (ac_id <$> rg_merchants (rk_registry s)) → NoDup (ac_merchantId <$> rg_merchants (rk_registry s)) →
  m ∈ rg_merchants (rk_registry s) → tierOf t now m = Some tier →
  ∃ s' m', run risk_handle (lift (MerchantService.applyAutoRiskTier (ac_merchantId m) (TIER_POLICIES tier).1 (TIER_POLICIES tier).2)) now s = (s', Ok m')
    ∧ s' = s {{ rk_registry := rk_registry s' }} ∧ live s' ∧ rg_merchants (rk_registry s') = treatRow ac_id (retiered t now) m (rg_merchants (rk_registry s)).
Proof.
  intros Hl Hi Hmi Hm Ht. rewrite run_merchants. unfold MerchantService.applyAutoRiskTier, MerchantService.configure.
  rewrite (modify_works _ (withPolicy (TIER_POLICIES tier)) m now (rk_registry s)) by done. eexists _, _. split; [reflexivity|]. cbn [fst snd].
  split; [by destruct s|]. split; [by do 2 apply working_tick|]. cbn [rk_registry rg_merchants]. rewrite updated_treat by done. unfold treatRow.
  assert (writtenRow m (withPolicy (TIER_POLICIES tier) m) = retiered t now m) as ->; [|done]. unfold retiered. rewrite Ht. unfold writtenRow, withPolicy. cbn. by rewrite !writtenFlag_same.
Qed.

Lemma policy_differs m p : negb (MerchantEntity.reserveBps (ac_config m) =? fst p) || negb (MerchantEntity.reserveHoldDays (ac_config m) =? snd p)
  = negb (bool_decide (currentPolicy m = p)).
Proof.
  destruct p as [b d]. unfold currentPolicy. cbn [fst snd]. rewrite <- negb_andb. f_equal. destruct (Z.eqb_spec (MerchantEntity.reserveBps (ac_config m)) b), (Z.eqb_spec (MerchantEntity.reserveHoldDays (ac_config m)) d);
    cbn; symmetry; (apply bool_decide_eq_true_2 || apply bool_decide_eq_false_2); congruence.
Qed.

(** A merchant whose policy stays. *)
Lemma evaluated_quiet t now m s s' : NoDup (ac_id <$> rg_merchants (rk_registry s)) → m ∈ rg_merchants (rk_registry s) → moved t now m = false →
  quiet s s' → evaluated t now m s s'.
Proof.
  intros Hi Hm Hmv [H1 H2 H3 H4 H5 H6 H7]. split; [done| |done| |].
  - rewrite H2. symmetry. apply treatRow_same; [done..|]. by apply moved_same.
  - rewrite H4. destruct (rise t now m) eqn:E; [by rewrite (rise_moved _ _ _ _ E) in Hmv|]. by rewrite list_fmap_id.
  - exists []. rewrite H6, H4, app_nil_r. split_and!; [done|done|cbn; lia].
Qed.

(** The decision, before anything is written. *)
Lemma tier_decided t now m : default_tiering → small_tables t → 0 ≤ now - createdAt m ≤ 2 ^ 53 →
  let since := now - WINDOW_DAYS * DAY in
  let charges := sumZ (λ status, PaymentTypeOrmRepository.count (ac_merchantId m) status since now (tb_payments t)) SETTLED_STATUSES in
  let lost := DisputeTypeOrmRepository.findReasonsByMerchantStatusSince (ac_merchantId m) (RESOLVED LOST) since (tb_disputes t) in
  tierOf t now m = if charges <? MIN_SAMPLE_SIZE then None else Some (riskTier now charges lost m).
Proof.
  intros Hd [Hp Hq] Hage since charges lost. unfold charges. rewrite <- settledCharges_sum. unfold tierOf. fold since lost.
  destruct (Z.ltb_spec (settledCharges (tb_payments t) (ac_merchantId m) since now) MIN_SAMPLE_SIZE) as [|Hn]; [done|]. unfold MIN_SAMPLE_SIZE in Hn.
  rewrite riskTier_exact; [done|done| | |done].
  - pose proof (countRows_bound (λ p, ofMerchant (ac_merchantId m) p && bool_decide (Payment._status p ∈ SETTLED_STATUSES)
      && (since <=? Payment._createdAt p) && (Payment._createdAt p <=? now)) (tb_payments t)) as Hb. unfold settledCharges in *. lia.
  - unfold lost, DisputeTypeOrmRepository.findReasonsByMerchantStatusSince. rewrite length_fmap.
    pose proof (length_filter (λ d, String.eqb (Dispute._merchantId d) (ac_merchantId m) && bool_decide (Dispute._status d = RESOLVED LOST)
                                   && (since <=? Dispute._createdAt d)) (tb_disputes t)). lia.
Qed.

(** What is known when a merchant is evaluated. *)
Record ready t now m s : Prop := {
  rd_live : live s;
  rd_ids : NoDup (ac_id <$> rg_merchants (rk_registry s));
  rd_merchantIds : NoDup (ac_merchantId <$> rg_merchants (rk_registry s));
  rd_row : m ∈ rg_merchants (rk_registry s);
  rd_tables : rk_replica s = t;
  rd_hold_ids : NoDup (ReserveHold._id <$> tb_holds (rk_master s));
  rd_holds : ∀ h, h ∈ tb_holds (rk_master s) → hold_ok h;
  rd_fresh : ∀ b, rise t now m = Some b → ReserveHoldTypeOrmRepository.findHeldByMerchant (ac_merchantId m) (tb_holds t)
                                        = ReserveHoldTypeOrmRepository.findHeldByMerchant (ac_merchantId m) (tb_holds (rk_master s)) }.

Lemma ready_quiet t now m s s' : ready t now m s → quiet s s' → ready t now m s'.
Proof.
  intros [] [Q1 Q2 Q3 Q4 Q5 Q6 Q7]. split; [done|by rewrite Q2|by rewrite Q2|by rewrite Q2|congruence|by rewrite Q4..].
Qed.

(** The policy is written, and a rise tops up. *)
Lemma change_works t now m tier s : ready t now m s → tierOf t now m = Some tier → moved t now m = true →
  ∃ s', run risk_handle (_ ← lift (MerchantService.applyAutoRiskTier (ac_merchantId m) (TIER_POLICIES tier).1 (TIER_POLICIES tier).2);
                         if MerchantEntity.reserveBps (ac_config m) <? (TIER_POLICIES tier).1
                         then _ ← ReserveTopUps.topUpHeldReservesForMerchant (ac_merchantId m) (TIER_POLICIES tier).1; mret tt else mret tt) now s
        = (s', Ok tt) ∧ evaluated t now m s s'.
Proof.
  intros [H1 H2 H3 H4 H5 H6 H7 H8] Ht Hmv. destruct (policy_works t now m tier s) as (s1 & m' & Hrun & Hs1 & Hl1 & Hm1); [done..|].
  rewrite run_bind_prog, Hrun. assert (rise t now m = if MerchantEntity.reserveBps (ac_config m) <? (TIER_POLICIES tier).1 then Some (TIER_POLICIES tier).1 else None) as Hr.
  { unfold rise. by rewrite Ht. }
  assert (rk_master s1 = rk_master s ∧ rk_replica s1 = rk_replica s ∧ rk_ledger s1 = rk_ledger s) as (E1 & E2 & E3) by (rewrite Hs1; done).
  destruct (_ <? _).
  - destruct (topUpHeld_works (ac_merchantId m) (TIER_POLICIES tier).1 now s1) as (s2 & c & Hrun2 & Htop).
    + done.
    + by rewrite E1.
    + by rewrite E1.
    + by apply (rise_range t now m).
    + rewrite E1, E2, H5. by eapply H8.
    + rewrite run_bind_prog, Hrun2. exists s2. split; [done|]. rewrite E1 in Htop. pose proof (topped_holds _ _ _ _ _ H6 Htop) as Hh.
      destruct Htop as [T1 T2 T3 T4 T5 T6 T7 T8 (evs & T9 & T10 & T11)]. split; [done|by rewrite T2|congruence|by rewrite Hr|].
      exists evs. rewrite T9, E3. split_and!; [done|done|]. by rewrite T11, topped_net, Hh.
  - exists s1. split; [done|]. split; [done|done|done|rewrite Hr, E1; by rewrite list_fmap_id|]. exists []. rewrite E1, E3, app_nil_r. split_and!; [done|done|cbn; lia].
Qed.

Lemma evaluate_tier t now m s : default_tiering → small_tables t → 0 ≤ now - createdAt m ≤ 2 ^ 53 → ready t now m s →
  MerchantEntity.riskTierAutoManaged (ac_config m) = true →
  ∃ s', run risk_handle (RiskTieringService.evaluateMerchantEntity now m) now s = (s', Ok ((λ tier, (tier, moved t now m)) <$> tierOf t now m)) ∧ evaluated t now m s s'.
Proof.
  intros Hd Hsm Hage Hr Ha. unfold RiskTieringService.evaluateMerchantEntity. rewrite Ha. cbn [negb].
  pose proof (tier_decided t now m Hd Hsm Hage) as Ht. cbv zeta in Ht |- *.
  destruct (countSettled_works (ac_merchantId m) (now - WINDOW_DAYS * DAY) now SETTLED_STATUSES now s) as (s1 & Hrun & Hq1); [apply Hr|].
  rewrite run_bind_prog, Hrun, (rd_tables _ _ _ _ Hr).
  rewrite (run_works _ _ rtick (λ s, DisputeTypeOrmRepository.findReasonsByMerchantStatusSince (ac_merchantId m) (RESOLVED LOST) (now - WINDOW_DAYS * DAY) (tb_disputes (rk_replica s))))
    by (done || apply Hq1).
  pose proof (quiet_trans _ _ _ Hq1 (quiet_tick _ (qt_live _ _ Hq1))) as Hq. rewrite (qt_tables_replica _ _ Hq1), (rd_tables _ _ _ _ Hr).
  set (charges := sumZ _ _) in *. set (lost := DisputeTypeOrmRepository.findReasonsByMerchantStatusSince _ _ _ _) in *.
  destruct (charges <? MIN_SAMPLE_SIZE).
  - exists (rtick s1). rewrite Ht. split; [done|]. apply evaluated_quiet; [apply Hr|apply Hr| |done]. unfold moved. by rewrite Ht.
  - set (tier := riskTier now charges lost m) in *. rewrite (surjective_pairing (TIER_POLICIES tier)). cbn [fst snd].
    rewrite policy_differs. assert (negb (bool_decide (currentPolicy m = TIER_POLICIES tier)) = moved t now m) as -> by (unfold moved; by rewrite Ht).
    rewrite run_bind_prog, Ht. destruct (moved t now m) eqn:Em.
    + destruct (change_works t now m tier (rtick s1)) as (s2 & Hrun2 & He); [by eapply ready_quiet|done|done|]. rewrite Hrun2. exists s2. split; [done|].
      destruct Hq as [Q1 Q2 Q3 Q4 Q5 Q6 Q7]. destruct He as [E1 E2 E3 E4 E5]. split; [done|congruence|congruence|by rewrite E4, Q4|]. by rewrite Q6, Q4 in E5.
    + exists (rtick s1). split; [done|]. by apply evaluated_quiet; [apply Hr|apply Hr| |].
Qed.

(** ** Reserves of many merchants *)

Lemma raised_owner bps h : ReserveHold._merchantId (raised bps h) = ReserveHold._merchantId h ∧ ReserveHold._status (raised bps h) = ReserveHold._status h.
Proof. unfold raised. destruct (Money.multiply _ _); [|done]. by case_match. Qed.

Lemma raised_ok bps h : 0 ≤ bps ≤ 10000 → hold_ok h → hold_ok (raised bps h).
Proof.
  intros Hb Hok. destruct (multiply_bps_le (ReserveHold._netAmount h) bps) as (r & E & Hr); [apply Hok|apply Hok|done|].
  unfold raised. rewrite E. case_match; [done|]. destruct Hok as [[Ha Hc] Hn Hs Hle]. destruct h. split; cbn in *; [split; cbn; [lia|done]|done|done|lia].
Qed.

(** A hold when the merchants of the list have been evaluated. *)
Definition reserved t now (l : list Account) h : ReserveHold.t :=
  match List.find (λ m, String.eqb (ac_merchantId m) (ReserveHold._merchantId h)) l ≫= rise t now with
  | Some b => raiseHeld (ReserveHold._merchantId h) b h
  | None => h
  end.

Lemma raiseHeld_cases mid b h : raiseHeld mid b h = h ∨ raiseHeld mid b h = raised b h.
Proof. unfold raiseHeld. case_match; auto. Qed.

Lemma reserved_keeps t now l h : let h' := reserved t now l h in
  ReserveHold._id h' = ReserveHold._id h ∧ ReserveHold._merchantId h' = ReserveHold._merchantId h ∧ ReserveHold._status h' = ReserveHold._status h
  ∧ (hold_ok h → hold_ok h').
Proof.
  unfold reserved. destruct (List.find _ l) as [m|]; cbn [mbind option_bind]; [|done]. destruct (rise t now m) as [b|] eqn:Er; [|done].
  destruct (raiseHeld_cases (ReserveHold._merchantId h) b h) as [-> | ->]; [done|]. destruct (raised_owner b h) as [H1 H2].
  split_and!; [apply raised_id|done|done|]. by apply raised_ok, (rise_range t now m).
Qed.

Lemma find_absent mid (l : list Account) : mid ∉ ac_merchantId <$> l → List.find (λ m, String.eqb (ac_merchantId m) mid) l = None.
Proof.
  induction l as [|m l IH]; [done|]. rewrite fmap_cons, not_elem_of_cons. intros [Hne Hl]. cbn. destruct (String.eqb_spec (ac_merchantId m) mid); [congruence|by apply IH].
Qed.

Lemma find_snoc mid (l : list Account) m : List.find (λ m, String.eqb (ac_merchantId m) mid) (l ++ [m])
  = match List.find (λ m, String.eqb (ac_merchantId m) mid) l with Some x => Some x | None => if String.eqb (ac_merchantId m) mid then Some m else None end.
Proof. induction l as [|x l IH]; cbn; [done|]. by destruct (String.eqb (ac_merchantId x) mid). Qed.

Lemma reserved_snoc t now l m h : ac_merchantId m ∉ ac_merchantId <$> l →
  (match rise t now m with Some b => raiseHeld (ac_merchantId m) b | None => id end) (reserved t now l h) = reserved t now (l ++ [m]) h.
Proof.
  intros Hm. unfold reserved at 2. rewrite find_snoc. destruct (String.eqb_spec (ac_merchantId m) (ReserveHold._merchantId h)) as [He|Hne].
  - assert (List.find (λ m, String.eqb (ac_merchantId m) (ReserveHold._merchantId h)) l = None) as Hf by (apply find_absent; by rewrite <- He).
    unfold reserved. rewrite Hf. cbn [mbind option_bind]. rewrite He. by destruct (rise t now m).
  - assert (∀ b, raiseHeld (ac_merchantId m) b (reserved t now l h) = reserved t now l h) as Hskip.
    { intros b. unfold raiseHeld, ReserveHoldTypeOrmRepository.heldBy. destruct (reserved_keeps t now l h) as (_ & -> & _).
      rewrite (proj2 (String.eqb_neq _ _)) by congruence. done. }
    transitivity (reserved t now l h); [destruct (rise t now m); [apply Hskip|done]|]. unfold reserved. by destruct (List.find _ l).
Qed.

Lemma reserved_nil t now (holds : list ReserveHold.t) : reserved t now [] <$> holds = holds.
Proof. rewrite <- (list_fmap_id holds) at 2. by apply list_fmap_ext. Qed.

(** The holds of a merchant that is not on the list. *)
Lemma held_reserved t now l mid (holds : list ReserveHold.t) : mid ∉ ac_merchantId <$> l →
  ReserveHoldTypeOrmRepository.findHeldByMerchant mid (reserved t now l <$> holds) = ReserveHoldTypeOrmRepository.findHeldByMerchant mid holds.
Proof.
  intros Hm. unfold ReserveHoldTypeOrmRepository.findHeldByMerchant. f_equal. induction holds as [|h holds IH]; [done|]. rewrite fmap_cons, !filter_cons, IH.
  unfold ReserveHoldTypeOrmRepository.heldBy. destruct (reserved_keeps t now l h) as (_ & -> & -> & _).
  destruct (String.eqb_spec (ReserveHold._merchantId h) mid) as [He|]; [|done]. assert (reserved t now l h = h) as ->; [|done].
  unfold reserved. rewrite find_absent; [done|]. by rewrite He.
Qed.

(** ** The tiering sweep *)

Definition autoManaged m : bool := MerchantEntity.riskTierAutoManaged (ac_config m).

(** Its counts: the merchants with enough charges, those whose policy changed, and the
    others. *)
Definition tierCounts t now rows : SweepCounts :=
  mkSweepCounts (countRows (λ m, candidate autoManaged m && isSome (tierOf t now m)) rows)
    (countRows (λ m, candidate autoManaged m && moved t now m) rows)
    (countRows (λ m, candidate autoManaged m && negb (isSome (tierOf t now m))) rows).

Lemma countRows_filter {A} (P f : A → bool) l : countRows f (filter (λ x, P x) l) = countRows (λ x, P x && f x) l.
Proof.
  induction l as [|x l IH]; [done|]. rewrite countRows_cons, filter_cons. destruct (P x); [rewrite decide_True by done; rewrite countRows_cons|rewrite decide_False by (exact (λ H, H))];
    cbn [andb]; lia.
Qed.

Lemma countRows_perm {A} (f : A → bool) l l' : l ≡ₚ l' → countRows f l = countRows f l'.
Proof. intros H. unfold countRows. by rewrite H. Qed.

Lemma counts_fold t now l a b c : foldl (λ c m, countEvaluation c (Some ((λ tier, (tier, moved t now m)) <$> tierOf t now m))) (mkSweepCounts a b c) l
  = mkSweepCounts (a + countRows (λ m, isSome (tierOf t now m)) l) (b + countRows (moved t now) l) (c + countRows (λ m, negb (isSome (tierOf t now m))) l).
Proof.
  revert a b c. induction l as [|m l IH]; intros a b c; [unfold countRows; cbn; f_equal; lia|]. cbn [foldl]. rewrite !countRows_cons.
  destruct (tierOf t now m) as [tier|] eqn:E; cbn [fmap option_fmap option_map countEvaluation sc_evaluated sc_changed sc_skipped isSome negb].
  - rewrite IH. destruct (moved t now m); f_equal; lia.
  - assert (moved t now m = false) as -> by (unfold moved; by rewrite E).
    match goal with |- foldl _ ?x l = _ => change x with (mkSweepCounts a b (c + 1)) end. rewrite IH. f_equal; lia.
Qed.

Lemma tierCounts_fold t now rows : foldl (λ c m, countEvaluation c (Some ((λ tier, (tier, moved t now m)) <$> tierOf t now m))) noCounts (candidates autoManaged rows)
  = tierCounts t now rows.
Proof.
  unfold noCounts. rewrite counts_fold. unfold tierCounts, candidates. rewrite !(countRows_perm _ _ _ (orderBy_perm _ _)), !countRows_filter. done.
Qed.

(** What a sweep relies on. *)
Record sweepable t now s : Prop := {
  sw_live : live s;
  sw_ids : NoDup (ac_id <$> rg_merchants (rk_registry s));
  sw_merchantIds : NoDup (ac_merchantId <$> rg_merchants (rk_registry s));
  sw_named : ∀ m, m ∈ rg_merchants (rk_registry s) → ac_id m ≠ ""%string;
  sw_tables : rk_replica s = t;
  sw_aged : aged now (rg_merchants (rk_registry s)) }.

(** The merchants and the reserves when everyone has been evaluated, and what was
    booked. *)
Definition tiered t now m : Account := if candidate autoManaged m then retiered t now m else m.

Definition tiered_holds t now rows : list ReserveHold.t → list ReserveHold.t := fmap (reserved t now (candidates autoManaged rows)).

Definition booked (s s' : risk_state) : Prop :=
  ∃ evs, rk_ledger s' = rk_ledger s ++ evs ∧ Forall reserve_booking evs
       ∧ reserve_net evs = sumZ held_minor (tb_holds (rk_master s')) - sumZ held_minor (tb_holds (rk_master s)).

Lemma booked_trans s1 s2 s3 : booked s1 s2 → booked s2 s3 → booked s1 s3.
Proof.
  intros (e1 & H1 & B1 & N1) (e2 & H2 & B2 & N2). exists (e1 ++ e2). rewrite H2, H1, app_assoc, Forall_app, reserve_net_app. split_and!; [done..|lia].
Qed.

Lemma tiering_run t now fuel s : let rows := rg_merchants (rk_registry s) in let holds := tb_holds (rk_master s) in
  default_tiering → small_tables t → sweepable t now s → (length rows < 50 * fuel)%nat →
  NoDup (ReserveHold._id <$> holds) → (∀ h, h ∈ holds → hold_ok h) →
  (∀ m b, m ∈ candidates autoManaged rows → rise t now m = Some b →
     ReserveHoldTypeOrmRepository.findHeldByMerchant (ac_merchantId m) (tb_holds t) = ReserveHoldTypeOrmRepository.findHeldByMerchant (ac_merchantId m) holds) →
  ∃ s', run risk_handle (RiskTieringService.runTieringSweep fuel now) now s = (s', Ok (Some (tierCounts t now rows)))
    ∧ live s' ∧ rk_replica s' = t ∧ rg_merchants (rk_registry s') = tiered t now <$> rows
    ∧ tb_holds (rk_master s') = tiered_holds t now rows holds ∧ booked s s'.
Proof.
  intros rows holds Hd Hsm [S1 S2 S3 S4 S5 S6] Hf Hn Hok Hfresh. set (l := candidates autoManaged rows).
  assert (length l ≤ length rows)%nat as Hle by (unfold l, candidates; rewrite orderBy_perm; apply length_filter).
  assert (NoDup (ac_merchantId <$> l)) as Hnl.
  { unfold l, candidates. rewrite orderBy_perm. eapply sublist_NoDup; [exact S3|]. apply fmap_sublist, sublist_filter. }
  pose (K d s1 := live s1 ∧ rk_replica s1 = t ∧ tb_holds (rk_master s1) = reserved t now d <$> holds ∧ booked s s1).
  destruct (run_sweep autoManaged (retiered t now) (retiered_frozen t now) risk_handle (λ s, rg_merchants (rk_registry s))
    (λ afterId, lift (MerchantService.findActiveAutoManagedBatch afterId 50)) (RiskTieringService.evaluateMerchantEntity now) countEvaluation
    (λ m, (λ tier, (tier, moved t now m)) <$> tierOf t now m) K now 50 fuel rows noCounts s) as (s' & Hrun & Hm & Hl' & Hr' & Hh' & Hb').
  - lia.
  - done.
  - done.
  - fold l. lia.
  - intros afterId d s1 (Hl1 & HK). exists (rtick s1). split_and!; [|done|split; [by apply working_tick|exact HK]]. rewrite run_merchants.
    unfold MerchantService.findActiveAutoManagedBatch. by rewrite (works_last _ (λ _, tick) (λ r, Ok (keysetBatch autoManaged afterId 50 (rg_merchants r)))).
  - intros d m rest s1 Hml Hms Hfr (Hl1 & Hr1 & Hh1 & Hb1). fold l in Hml. assert (m ∈ l) as Hin by (rewrite Hml; apply elem_of_app; right; left).
    destruct (candidates_in _ _ _ Hin) as [Hmr Hc]. apply andb_true_iff in Hc as [_ Hc].
    assert (ac_merchantId m ∉ ac_merchantId <$> d) as Hnew.
    { rewrite Hml, fmap_app in Hnl. apply NoDup_app in Hnl as (_ & Hdis & _). intros H. apply (Hdis _ H). left. }
    destruct (evaluate_tier t now m s1) as (s2 & Hrun2 & [E1 E2 E3 E4 E5]); [done|done|by apply S6| |exact Hc|].
    + split; [done|by rewrite ids_of_frozen, Hfr, <- ids_of_frozen|by rewrite merchantIds_of_frozen, Hfr, <- merchantIds_of_frozen|done|done|..]; rewrite Hh1.
      * rewrite <- list_fmap_compose. erewrite list_fmap_ext; [exact Hn|]. intros i h _. apply reserved_keeps.
      * intros h (h0 & -> & Hh0)%list_elem_of_fmap. by apply reserved_keeps, Hok.
      * intros b Hb. rewrite held_reserved by done. by eapply Hfresh.
    + exists s2. split_and!; [done|done|]. unfold K. split_and!; [done|congruence| |by eapply booked_trans].
      rewrite E4, Hh1, <- list_fmap_compose. apply list_fmap_ext. intros i h _. by apply reserved_snoc.
  - done.
  - unfold K. split_and!; [done|done|by rewrite reserved_nil|]. exists []. rewrite app_nil_r. split_and!; [done|done|cbn; lia].
  - rewrite tierCounts_fold in Hrun. exists s'. by split_and!.
Qed.

(** *** Once more *)

Lemma tiered_frozen t now rows : frozen <$> (tiered t now <$> rows) = frozen <$> rows.
Proof. rewrite <- list_fmap_compose. apply list_fmap_ext. intros i m _. unfold compose, tiered. destruct (candidate _ m); [apply retiered_frozen|done]. Qed.

Lemma candidate_retiered t now m : candidate autoManaged (retiered t now m) = candidate autoManaged m.
Proof. unfold retiered. by destruct (tierOf t now m). Qed.

Lemma tiered_candidate t now m : candidate autoManaged (tiered t now m) = true → candidate autoManaged m = true ∧ tiered t now m = retiered t now m.
Proof. unfold tiered. destruct (candidate autoManaged m) eqn:E; [done|]. by rewrite E. Qed.

Lemma tiered_settled t now m : candidate autoManaged (tiered t now m) = true → moved t now (tiered t now m) = false.
Proof. intros [_ ->]%tiered_candidate. apply retiered_settled. Qed.

Lemma tiered_twice t now m : tiered t now (tiered t now m) = tiered t now m.
Proof.
  destruct (candidate autoManaged (tiered t now m)) eqn:E; [|unfold tiered at 1; by rewrite E].
  pose proof (moved_same _ _ _ (tiered_settled _ _ _ E)) as H. unfold tiered at 1. by rewrite E.
Qed.

Lemma tierOf_tiered t now m : tierOf t now (tiered t now m) = tierOf t now m.
Proof. unfold tiered. destruct (candidate _ m); [apply tierOf_retiered|done]. Qed.

Lemma candidate_tiered t now m : candidate autoManaged (tiered t now m) = candidate autoManaged m.
Proof. unfold tiered. destruct (candidate autoManaged m) eqn:E; [by rewrite candidate_retiered|done]. Qed.

Lemma countRows_fmap {A B} (g : A → B) (f : B → bool) l : countRows f (g <$> l) = countRows (λ x, f (g x)) l.
Proof. induction l as [|x l IH]; [done|]. by rewrite fmap_cons, !countRows_cons, IH. Qed.

Lemma countRows_ext {A} (f g : A → bool) l : (∀ x, f x = g x) → countRows f l = countRows g l.
Proof. intros H. induction l as [|x l IH]; [done|]. by rewrite !countRows_cons, IH, H. Qed.

Lemma tierCounts_again t now rows : tierCounts t now (tiered t now <$> rows) = mkSweepCounts (sc_evaluated (tierCounts t now rows)) 0 (sc_skipped (tierCounts t now rows)).
Proof.
  unfold tierCounts. rewrite !countRows_fmap. f_equal.
  - apply countRows_ext. intros m. by rewrite candidate_tiered, tierOf_tiered.
  - rewrite (countRows_ext _ (λ _, false)); [induction rows as [|m rows IH]; [done|by rewrite countRows_cons, IH]|].
    intros m. destruct (candidate autoManaged (tiered t now m)) eqn:E; [by rewrite tiered_settled|done].
  - apply countRows_ext. intros m. by rewrite candidate_tiered, tierOf_tiered.
Qed.

Lemma tiered_no_rise t now rows m : m ∈ candidates autoManaged (tiered t now <$> rows) → rise t now m = None.
Proof.
  intros [(m0 & -> & _)%list_elem_of_fmap Hc]%candidates_in. destruct (rise t now (tiered t now m0)) eqn:E; [|done]. apply rise_moved in E. by rewrite tiered_settled in E.
Qed.

Lemma holds_again t now rows holds : tiered_holds t now (tiered t now <$> rows) holds = holds.
Proof.
  unfold tiered_holds. rewrite <- (list_fmap_id holds) at 2. apply list_fmap_ext. intros i h _. unfold reserved.
  destruct (List.find _ (candidates _ _)) as [m|] eqn:E; [|done]. apply find_elem in E as [Hm _]. cbn [mbind option_bind]. by rewrite (tiered_no_rise t now rows).
Qed.

Lemma nothing_booked s s' : tb_holds (rk_master s') = tb_holds (rk_master s) → booked s s' → rk_ledger s' = rk_ledger s.
Proof.
  intros Hh (evs & -> & Hall & Hnet). rewrite Hh, Z.sub_diag in Hnet. assert (evs = []) as ->; [|apply app_nil_r]. destruct evs as [|ev evs]; [done|].
  exfalso. apply Forall_cons in Hall as [[_ Hpos] Hall]. assert (0 ≤ reserve_net evs); [|change (ev :: evs) with ([ev] ++ evs) in Hnet; rewrite reserve_net_app in Hnet; lia].
  clear Hnet Hpos. induction evs as [|e evs IH]; [done|]. apply Forall_cons in Hall as [[_ Hpos] Hall]. specialize (IH Hall).
  change (e :: evs) with ([e] ++ evs). rewrite reserve_net_app. lia.
Qed.

(** The reserves a sweep can work with: they are on the replica, and each withholds
    part of its charge. *)
Definition sound_holds s : Prop :=
  let holds := tb_holds (rk_master s) in
  NoDup (ReserveHold._id <$> holds) ∧ (∀ h, h ∈ holds → hold_ok h) ∧ tb_holds (rk_replica s) = holds.

End sweeps.
