(* ===== verification/RiskGuards.v ===== *)
(** * Operators and automation

    A manual decision pauses the automation: monitors that run one after the other never
    change a column an operator has taken over, whatever calls fail. Interleaved with
    the operator they can: the decision is read before, and not checked again. *)

From S2P Require Import Prelude Rows JsNumber Money Policies PaymentStatus Payment Merchant Ledger LedgerCorrect Payout ReserveCorrect Dispute Redis Shared Program Sanctions Accounts AccountsCorrect Paging AccountsSweep Rates Risk RiskCorrect RiskSweep.

(** ** What the operator owns *)

Definition ownedFlag {T} (f : RiskFlag T) : option (RiskFlag T) := if rf_autoManaged f then None else Some f.

Definition ownedPolicy (m : Account) : option (Z * Z) := if autoManaged m then None else Some (currentPolicy m).

(** The columns under manual control, [None] where the automation is in charge. *)
Definition owned (m : Account) :=
  (ownedPolicy m, ownedFlag (ac_ambiguousRisk m), ownedFlag (ac_amlReview m), ownedFlag (ac_chargeback m)).

(** With the merchant they are of. *)
Definition guarded (m : Account) := (ac_id m, ac_merchantId m, owned m).

Lemma guarded_eq m m' : guarded m = guarded m' ↔ ac_id m = ac_id m' ∧ ac_merchantId m = ac_merchantId m' ∧ owned m = owned m'.
Proof.
  split; [|intros (H1 & H2 & H3); unfold guarded; congruence].
  intros H. split_and!; [exact (f_equal (λ g, g.1.1) H)|exact (f_equal (λ g, g.1.2) H)|exact (f_equal snd H)].
Qed.

Lemma owned_eq m m' : owned m = owned m' ↔ ownedPolicy m = ownedPolicy m' ∧ ownedFlag (ac_ambiguousRisk m) = ownedFlag (ac_ambiguousRisk m')
  ∧ ownedFlag (ac_amlReview m) = ownedFlag (ac_amlReview m') ∧ ownedFlag (ac_chargeback m) = ownedFlag (ac_chargeback m').
Proof.
  split; [|intros (H1 & H2 & H3 & H4); unfold owned; congruence].
  intros H. split_and!; [exact (f_equal (λ g, g.1.1.1) H)|exact (f_equal (λ g, g.1.1.2) H)|exact (f_equal (λ g, g.1.2) H)|exact (f_equal snd H)].
Qed.

Lemma ownedFlag_written {T} (x f : RiskFlag T) : ownedFlag f = ownedFlag x → ownedFlag (writtenFlag x f) = ownedFlag x.
Proof.
  unfold ownedFlag. destruct (rf_autoManaged f) eqn:Ef, (rf_autoManaged x) eqn:Ex; cbn; [|done|done|]; intros H; [by rewrite Ef|].
  injection H as ->. by rewrite Ef, writtenFlag_same.
Qed.

(** A save over the row of the same merchant keeps what is owned. *)
Lemma guarded_written x m : guarded m = guarded x → guarded (writtenRow x m) = guarded x.
Proof.
  rewrite !guarded_eq, !owned_eq. intros (H1 & H2 & H3 & H4 & H5 & H6). split_and!; [done..| | |]; by apply ownedFlag_written.
Qed.

Section guards.
Context `{W : World, C : RiskConfig}.
Context (rows : registryTable) (ids : NoDup (ac_id <$> rows)) (merchantIds : NoDup (ac_merchantId <$> rows)).
Implicit Types (m : Account) (s : risk_state) (r : registry).

(** A table as it was, but for what the automation may change. *)
Definition like (l : registryTable) : Prop := guarded <$> l = guarded <$> rows.

Definition kept r : Prop := like (rg_merchants r) ∧ like (rg_replica r).

(** A row of such a table. *)
Definition known m : Prop := ∃ m0, m0 ∈ rows ∧ guarded m = guarded m0.

Lemma like_known l m : like l → m ∈ l → known m.
Proof.
  intros Hl Hm. apply (list_elem_of_fmap_2 guarded) in Hm. rewrite Hl in Hm. apply list_elem_of_fmap in Hm as (m0 & He & Hm0). by exists m0.
Qed.

Lemma known_unique m m' : known m → known m' → ac_merchantId m = ac_merchantId m' → guarded m = guarded m'.
Proof.
  intros (m0 & Hm0 & He) (m1 & Hm1 & He') Hid. rewrite He, He'. f_equal. apply (keyed_unique ac_merchantId rows); [done..|].
  apply guarded_eq in He as (_ & He & _). apply guarded_eq in He' as (_ & He' & _). congruence.
Qed.

Lemma like_ids l : like l → NoDup (ac_id <$> l).
Proof.
  intros Hl. assert (ac_id <$> l = ac_id <$> rows) as ->; [|done]. apply (f_equal (fmap (λ g, g.1.1))) in Hl. rewrite <- !list_fmap_compose in Hl. exact Hl.
Qed.

(** Saving a row that keeps what is owned. *)
Lemma like_updated l m : like l → known m → like (updated m l).
Proof.
  intros Hl Hm. unfold like. rewrite <- Hl. unfold updated. rewrite <- list_fmap_compose. apply list_fmap_ext. intros i x Hx%list_elem_of_lookup_2. unfold compose.
  destruct (String.eqb_spec (ac_id x) (ac_id m)) as [He|]; [|done]. apply guarded_written.
  destruct (like_known l x Hl Hx) as (x0 & Hx0 & Ex). destruct Hm as (m0 & Hm0 & Em). rewrite Ex, Em. f_equal. apply (keyed_unique ac_id rows); [done..|].
  apply guarded_eq in Ex as (Ex & _). apply guarded_eq in Em as (Em & _). congruence.
Qed.

Lemma known_stored r m : kept r → known m → saveMerchant m (rg_merchants r) = Some (updated m (rg_merchants r)).
Proof.
  intros Hr (m0 & Hm0 & He). apply (list_elem_of_fmap_2 guarded) in Hm0. rewrite <- (proj1 Hr) in Hm0. apply list_elem_of_fmap in Hm0 as (x & Hx & Hin).
  rewrite Hx in He. apply guarded_eq in He as (He & _). unfold saveMerchant. rewrite (proj2 (existsb_exists _ _)); [done|]. exists x.
  split; [by apply list_elem_of_In|by apply String.eqb_eq].
Qed.

(** ** Programs of the merchant service *)

Lemma kept_faulty f r r' {A} (x : result A) (r2 : registry) y : kept r → kept r' → faulty f r r' x = (r2, Ok y) → kept r2.
Proof. intros H1 H2. destruct f; cbn; by intros [= <- _]. Qed.

Lemma alone_getOrThrow mid : alone account_handle kept (MerchantService.getOrThrow mid) (λ m, known m ∧ ac_merchantId m = mid).
Proof.
  apply (alone_bind _ _ _ _ (λ o, ∀ m, o = Some m → known m ∧ ac_merchantId m = mid)).
  - apply (alone_ask _ _). intros now r r' x Hr Hh. cbn [account_handle] in Hh. split; [eapply (kept_faulty _ (tick r) (tick r)); [exact Hr|exact Hr|exact Hh]|].
    intros o -> m ->. assert (findMerchant mid (rg_merchants r) = Some m) as [Hin Hid]%find_elem by by destruct (fault _); cbn in Hh; injection Hh.
    split; [exact (like_known _ _ (proj1 Hr) Hin)|by apply String.eqb_eq].
  - intros [m|] Hm; [by apply alone_ret, Hm|apply alone_fail].
Qed.

Lemma alone_save m : known m → alone account_handle kept (MerchantService.save m) (λ _, True).
Proof.
  intros Hm. apply (alone_ask _ _). intros now r r' x Hr Hh. split; [|done]. cbn [account_handle] in Hh.
  change (rg_merchants (r {{ rg_calls := S (rg_calls r) }})) with (rg_merchants r) in Hh. rewrite known_stored in Hh by done.
  eapply kept_faulty; [| |exact Hh]; [exact Hr|]. split; [exact (like_updated _ _ (proj1 Hr) Hm)|exact (proj2 Hr)].
Qed.

Lemma alone_clock : alone account_handle kept (call CLOCK) (λ _, True).
Proof. apply (alone_call _ _). intros now r r' x Hr [= <- _]. split; [exact Hr|done]. Qed.

(** An operation on a merchant that leaves what is owned alone. *)
Definition respects (mid : string) (assign : Account → Account) : Prop := ∀ m, known m → ac_merchantId m = mid → guarded (assign m) = guarded m.

Lemma known_respects mid assign m : respects mid assign → known m → ac_merchantId m = mid → known (assign m).
Proof. intros Hr Hm Hid. destruct (Hm) as (m0 & Hm0 & He). exists m0. by rewrite Hr. Qed.

Lemma alone_modify mid assign : respects mid assign → alone account_handle kept (MerchantService.modify mid (λ m, Ok (assign m))) (λ _, True).
Proof.
  intros Hr. eapply alone_bind; [apply alone_getOrThrow|]. intros m [Hm Hid]. cbn [of_result].
  eapply alone_bind; [by apply (alone_ret _ _ (assign m) (λ a, a = assign m))|]. intros ? ->. apply alone_then; [|intros; by apply alone_ret]. apply alone_save. by eapply known_respects.
Qed.

Lemma alone_timed mid assign : (∀ now, respects mid (assign now)) → alone account_handle kept (MerchantService.timed mid assign) (λ _, True).
Proof.
  intros Hr. eapply alone_bind; [apply alone_getOrThrow|]. intros m [Hm Hid]. apply alone_then; [apply alone_clock|]. intros now.
  apply alone_then; [|intros; by apply alone_ret]. apply alone_save. by eapply known_respects.
Qed.

(** ** The monitors *)

Definition steady s : Prop := kept (rk_registry s).

Lemma alone_lift {A} (p : P A) Q : alone account_handle kept p Q → alone risk_handle steady (lift p) Q.
Proof. intros Hp now s Hs. rewrite run_merchants. exact (Hp now (rk_registry s) Hs). Qed.

(** Reads, notices and reserves do not touch merchants. *)
Lemma alone_event {X} (c : risk_event (result X)) (Q : X → Prop) :
  (∀ now s, ∃ after answer, risk_handle _ c now s = faulty (fault (rg_calls (rk_registry s))) (rtick s) after (Ok answer)
     ∧ rk_registry after = tick (rk_registry s) ∧ (steady s → Q answer)) → alone risk_handle steady (ask c) Q.
Proof.
  intros Hc. apply (alone_ask _ _). intros now s s' r Hs Hh. destruct (Hc now s) as (after & answer & Ha & Hreg & HQ). rewrite Ha in Hh. unfold steady in *.
  destruct (fault (rg_calls (rk_registry s))); injection Hh as <- <-; (split; [rewrite ?Hreg; exact Hs|]); try done. intros x [= <-]. by apply HQ.
Qed.

Lemma alone_silent {X} (c : risk_event (result X)) :
  (∀ now s, ∃ after answer, risk_handle _ c now s = faulty (fault (rg_calls (rk_registry s))) (rtick s) after (Ok answer)
     ∧ rk_registry after = tick (rk_registry s)) → alone risk_handle steady (ask c) (λ _, True).
Proof. intros Hc. apply alone_event. intros now s. destruct (Hc now s) as (after & answer & H1 & H2). by exists after, answer. Qed.

Lemma alone_find mid : alone risk_handle steady (findByMerchantId mid) (λ o, ∀ m, o = Some m → known m ∧ ac_merchantId m = mid).
Proof.
  apply (alone_bind _ _ _ _ (λ o, ∀ m, o = Some m → known m ∧ ac_merchantId m = mid)).
  - apply alone_lift, (alone_ask _ _). intros now r r' x Hr Hh. cbn [account_handle] in Hh. split; [eapply (kept_faulty _ (tick r) (tick r)); [exact Hr|exact Hr|exact Hh]|].
    intros o -> m ->. assert (findMerchant mid (rg_replica r) = Some m) as [Hin Hid]%find_elem by by destruct (fault _); cbn in Hh; injection Hh.
    split; [exact (like_known _ _ (proj2 Hr) Hin)|by apply String.eqb_eq].
  - intros [m|] Hm; apply alone_ret; [|done]. intros m'. case_match; [|done]. auto.
Qed.

Lemma alone_batch condition afterId limit : alone risk_handle steady (lift (ask (FIND_BATCH condition afterId limit))) (λ l, ∀ m, m ∈ l → known m).
Proof.
  apply alone_lift, (alone_ask _ _). intros now r r' x Hr Hh. cbn [account_handle] in Hh. split; [eapply (kept_faulty _ (tick r) (tick r)); [exact Hr|exact Hr|exact Hh]|].
  intros l -> m Hm. apply (like_known _ _ (proj1 Hr)). assert (keysetBatch condition afterId limit (rg_merchants r) = l) as <- by by destruct (fault _); cbn in Hh; injection Hh.
  unfold keysetBatch in Hm. apply elem_of_take in Hm as (i & Hi%list_elem_of_lookup_2 & _). by apply orderBy_elem, list_elem_of_filter in Hi as [_ ?].
Qed.

Lemma alone_countSettled mid since until statuses : alone risk_handle steady (countSettled mid since until statuses) (λ _, True).
Proof.
  induction statuses as [|status statuses IH]; [by apply alone_ret|]. cbn [countSettled]. apply alone_then; [apply alone_silent; by repeat eexists|].
  intros n. apply alone_then; [exact IH|]. intros. by apply alone_ret.
Qed.

Lemma alone_uuid : alone account_handle kept (call UUID) (λ _, True).
Proof. apply (alone_call _ _). intros now r r' x Hr [= <- _]. split; [exact Hr|done]. Qed.

Lemma alone_topUps mid bps : alone risk_handle steady (ReserveTopUps.topUpHeldReservesForMerchant mid bps) (λ _, True).
Proof.
  apply alone_then; [apply alone_silent; by repeat eexists|]. intros holds. apply (alone_allSettled _ _). intros h _. unfold ReserveTopUps.topUpHold.
  apply alone_then; [by apply alone_of_result|]. intros target. apply alone_then; [by apply alone_of_result|]. intros [|]; cbn [negb]; [|by apply alone_ret].
  apply alone_then; [exact (alone_lift (call UUID) _ alone_uuid)|]. intros id. apply alone_then; [exact (alone_lift (call CLOCK) _ alone_clock)|]. intros now.
  apply alone_then; [by apply alone_of_result|]. intros [[h' ev]|]; [|by apply alone_ret]. apply alone_then; [apply alone_silent; by repeat eexists|]. intros. by apply alone_ret.
Qed.

(** What the automation writes about a merchant it manages. *)
Lemma respects_policy m p : known m → autoManaged m = true → respects (ac_merchantId m) (withPolicy p).
Proof.
  intros Hm Ha m' Hm' Hid. pose proof (known_unique _ _ Hm' Hm Hid) as H. rewrite guarded_eq, owned_eq in H. destruct H as (_ & _ & Hp & _).
  rewrite guarded_eq, owned_eq. split_and!; try done. unfold ownedPolicy in *. rewrite Ha in Hp. change (autoManaged (withPolicy p m')) with (autoManaged m').
  by destruct (autoManaged m').
Qed.

Lemma applyAuto_owned {T} (raised : T → bool) now v why (f : RiskFlag T) : rf_autoManaged f = true → ownedFlag (applyAuto raised now v why f) = ownedFlag f.
Proof. intros H. unfold ownedFlag. cbn. by rewrite H. Qed.

Lemma owned_auto {T} (f g : RiskFlag T) : ownedFlag f = ownedFlag g → rf_autoManaged g = true → rf_autoManaged f = true.
Proof. unfold ownedFlag. intros H Hg. rewrite Hg in H. by destruct (rf_autoManaged f). Qed.

Ltac own_flag :=
  intros Hm Ha m' Hm' Hid; pose proof (known_unique _ _ Hm' Hm Hid) as H; rewrite guarded_eq, owned_eq in H; destruct H as (_ & _ & _ & Hf1 & Hf2 & Hf3);
  rewrite guarded_eq, owned_eq; split_and!; try done; apply applyAuto_owned; eauto using owned_auto.

Lemma respects_chargeback m now v why : known m → rf_autoManaged (ac_chargeback m) = true →
  respects (ac_merchantId m) (λ m, m {{ ac_chargeback := applyAuto tierRaised now v why (ac_chargeback m) }}).
Proof. own_flag. Qed.

Lemma respects_ambiguous m now v why : known m → rf_autoManaged (ac_ambiguousRisk m) = true →
  respects (ac_merchantId m) (λ m, m {{ ac_ambiguousRisk := applyAuto (λ b, b) now v why (ac_ambiguousRisk m) }}).
Proof. own_flag. Qed.

Lemma respects_aml m now v why : known m → rf_autoManaged (ac_amlReview m) = true →
  respects (ac_merchantId m) (λ m, m {{ ac_amlReview := applyAuto (λ b, b) now v why (ac_amlReview m) }}).
Proof. own_flag. Qed.

Lemma alone_evaluateTier now m : known m → alone risk_handle steady (RiskTieringService.evaluateMerchantEntity now m) (λ _, True).
Proof.
  intros Hm. unfold RiskTieringService.evaluateMerchantEntity. fold (autoManaged m). destruct (autoManaged m) eqn:Ha; cbn [negb]; [|by apply alone_ret].
  apply alone_then; [apply alone_countSettled|]. intros charges. apply alone_then; [apply alone_silent; by repeat eexists|]. intros lost.
  destruct (charges <? MIN_SAMPLE_SIZE); [by apply alone_ret|]. cbv zeta. destruct (TIER_POLICIES _) as [b d].
  apply alone_then; [|intros; by apply alone_ret]. destruct (_ || _); [|by apply alone_ret]. apply alone_then.
  - apply alone_lift, (alone_modify _ (withPolicy (b, d))). by apply respects_policy.
  - intros _. case_match; [|by apply alone_ret]. apply alone_then; [apply alone_topUps|]. intros. by apply alone_ret.
Qed.

Lemma alone_notice channel n : alone risk_handle steady (catch (ask (SEND_NOTICE channel n)) (λ _, mret tt)) (λ _, True).
Proof. apply (alone_catch _ _); [apply alone_silent; by repeat eexists|]. intros. by apply alone_ret. Qed.

Lemma alone_evaluateChargebacks now m : known m → alone risk_handle steady (ChargebackMonitoringService.evaluateMerchantEntity now m) (λ _, True).
Proof.
  intros Hm. unfold ChargebackMonitoringService.evaluateMerchantEntity. destruct (rf_autoManaged (ac_chargeback m)) eqn:Ha; cbn [negb]; [|by apply alone_ret].
  apply alone_then; [apply alone_countSettled|]. intros charges. apply alone_then; [apply alone_silent; by repeat eexists|]. intros count.
  destruct (charges <? minSettledCharges); [by apply alone_ret|]. destruct (ChargebackMonitoringService.sameTier _ _); [by apply alone_ret|].
  apply alone_then; [apply alone_lift, alone_timed; intros; by apply respects_chargeback|]. intros _. apply alone_then; [|intros; by apply alone_ret].
  apply (alone_catch _ _); [|intros; by apply alone_ret]. eapply alone_bind; [apply alone_find|]. intros [x|] _; [|by apply alone_ret].
  cbv zeta. case_match; [apply alone_notice|by apply alone_ret].
Qed.

Lemma alone_evaluateAmbiguous mid : alone risk_handle steady (AmbiguousRiskMonitoringService.evaluate mid) (λ _, True).
Proof.
  eapply alone_bind; [apply alone_find|]. intros [m|] Hm; [|by apply alone_ret]. destruct (Hm m eq_refl) as [Hk <-]. clear Hm. cbv zeta.
  destruct (rf_autoManaged (ac_ambiguousRisk m)) eqn:Ha; cbn [negb]; [|by apply alone_ret].
  assert (∀ why, alone risk_handle steady (AmbiguousRiskMonitoringService.flag (ac_merchantId m) why) (λ _, True)) as Hflag.
  { intros why. apply alone_then; [apply alone_lift, alone_timed; intros; by apply respects_ambiguous|]. intros. by apply alone_ret. }
  case_match; [apply Hflag|]. apply alone_then; [exact (alone_lift (call CLOCK) _ alone_clock)|]. intros now.
  apply alone_then; [apply alone_silent; by repeat eexists|]. intros daily. case_match; [apply Hflag|].
  apply alone_then; [apply alone_silent; by repeat eexists|]. intros recent. case_match; [apply Hflag|by apply alone_ret].
Qed.

Lemma alone_autoClear now : alone risk_handle steady (AmbiguousRiskMonitoringService.runAutoClearSweep now) (λ _, True).
Proof.
  eapply alone_bind.
  - apply (alone_event _ (λ l, ∀ m, m ∈ l → known m)). intros now' s. eexists _, _. split_and!; [done|done|]. intros Hs m [Hm%orderBy_elem]%(λ H, conj H I).
    exact (like_known _ _ (proj1 Hs) Hm).
  - intros l Hl. apply (alone_allSettled _ _). intros m [Hc Hin]%list_elem_of_filter. apply alone_then; [|intros; by apply alone_ret].
    apply alone_lift, alone_timed. intros t. apply respects_ambiguous; [by apply Hl|]. unfold AmbiguousRiskMonitoringService.clearable in Hc.
    apply Is_true_true, andb_true_iff in Hc as [Hc _]. by apply andb_true_iff in Hc as [_ Hc].
Qed.

Lemma alone_evaluateAml mid code psp : alone risk_handle steady (AmlReviewMonitoringService.evaluate mid code psp) (λ _, True).
Proof.
  unfold AmlReviewMonitoringService.evaluate. case_match; [by apply alone_ret|]. eapply alone_bind; [apply alone_find|]. intros [m|] Hm; [|by apply alone_ret].
  destruct (Hm m eq_refl) as [Hk <-]. clear Hm. cbv zeta. destruct (rf_autoManaged (ac_amlReview m)) eqn:Ha; [|rewrite orb_true_r; by apply alone_ret]. case_match; [by apply alone_ret|].
  assert (∀ why, alone risk_handle steady (lift (MerchantService.applyAutoAmlReviewFlag (ac_merchantId m) true why)) (λ _, True)) as Hflag.
  { intros why. apply alone_lift, alone_timed. intros. by apply respects_aml. }
  case_match; [apply alone_then; [apply Hflag|intros; by apply alone_ret]|]. apply alone_then; [exact (alone_lift (call CLOCK) _ alone_clock)|]. intros now.
  apply alone_then; [apply alone_silent; by repeat eexists|]. intros n. case_match; [by apply alone_ret|]. apply alone_then; [apply Hflag|]. intros _.
  apply (alone_catch _ _); [|intros; by apply alone_ret]. eapply alone_bind; [apply alone_find|]. intros [x|] _; [|by apply alone_ret].
  cbv zeta. case_match; [apply alone_notice|by apply alone_ret].
Qed.

Lemma alone_sweep {T} (batch : option string → P (list Account)) condition (body : Account → R (option (T * bool))) limit fuel :
  (∀ afterId, batch afterId = ask (FIND_BATCH condition afterId limit)) → (∀ m, known m → alone risk_handle steady (body m) (λ _, True)) →
  alone risk_handle steady (forPages ac_id (λ afterId, lift (batch afterId)) limit (allSettled body countEvaluation) fuel None noCounts) (λ _, True).
Proof.
  intros Hb Hbody. apply (alone_forPages _ _ _ _ _ _ (λ l, ∀ m, m ∈ l → known m)).
  - intros afterId. rewrite Hb. apply alone_batch.
  - intros l c Hl. apply (alone_allSettled _ _). auto.
Qed.

Lemma alone_monitor q : alone risk_handle steady (serve_monitor q) (λ _, True).
Proof.
  assert (∀ A (p : R A), alone risk_handle steady p (λ _, True) → alone risk_handle steady (ignore p) (λ _, True)) as Hig.
  { intros A p Hp. apply alone_then; [exact Hp|]. intros. by apply alone_ret. }
  destruct q; cbn [serve_monitor].
  - apply Hig. eapply alone_sweep; [done|]. apply alone_evaluateTier.
  - apply Hig. eapply alone_bind; [apply alone_find|]. intros [m|] Hm; [|by apply alone_ret]. by apply alone_evaluateTier, Hm.
  - apply Hig. eapply alone_sweep; [done|]. apply alone_evaluateChargebacks.
  - apply Hig. eapply alone_bind; [apply alone_find|]. intros [m|] Hm; [|by apply alone_ret]. by apply alone_evaluateChargebacks, Hm.
  - apply alone_evaluateAmbiguous.
  - apply Hig, alone_autoClear.
  - apply alone_evaluateAml.
  - apply (alone_catch _ _); [|intros; by apply alone_ret]. apply Hig, alone_topUps.
Qed.
End guards.

(** C28: a manual decision pauses the automation. Whatever risk monitors run one after the
    other (both nightly sweeps, the auto-clear sweep, the evaluations on a failed or
    ambiguous charge, top-ups), on whatever payments and disputes, and with any call
    failing before or after its effect: of every merchant, the reserve policy and
    each flag that an operator has taken over stay exactly as they are, and the
    automation stays switched on or off, as long as the replica does not lag on what
    operators decided. *)
Theorem manual_decisions_stick `{World, RiskConfig} (monitors : list monitor_request) now s :
  let rows := rg_merchants (rk_registry s) in
  NoDup (ac_id <$> rows) → NoDup (ac_merchantId <$> rows) → guarded <$> rg_replica (rk_registry s) = guarded <$> rows →
  guarded <$> rg_merchants (rk_registry (run_all risk_handle (serve_monitor <$> monitors) now s).1) = guarded <$> rows.
Proof.
  intros rows Hi Hm Hrep. apply (alone_all risk_handle (steady rows)).
  - intros p (q & -> & _)%list_elem_of_fmap. by apply alone_monitor.
  - split; [done|exact Hrep].
Qed.
