(* ===== verification/RiskRaces.v ===== *)
(** * Risk monitoring: concrete histories

    Witnesses of the theorems on the monitors, and histories in which an automatic write
    undoes the decision of an operator that it did not see. *)

From S2P Require Import Prelude JsNumber Money Policies PaymentStatus Payment Merchant Ledger LedgerCorrect Payout ReserveCorrect Dispute Redis Shared Program Sanctions SanctionsCorrect Accounts AccountsCorrect AccountsSweep Risk RiskCorrect RiskSweep RiskGuards.

(** The defaults of every variable; all merchants are old. *)
#[global] Instance sample_risk : RiskConfig := {|
  highRiskThreshold := DEFAULT_HIGH_RISK_THRESHOLD;
  mediumRiskThreshold := DEFAULT_MEDIUM_RISK_THRESHOLD;
  newMerchantAgeDays := DEFAULT_NEW_MERCHANT_AGE_DAYS;
  monitoringThreshold := DEFAULT_MONITORING_THRESHOLD;
  excessiveThreshold := DEFAULT_EXCESSIVE_THRESHOLD;
  chargebackWindowDays := 30;
  minSettledCharges := 10;
  dailyThreshold := 100;
  consecutiveThreshold := 5;
  autoClearDays := 60;
  amlThreshold := 5;
  amlWindowDays := 30;
  createdAt := λ _, 0;
  createdAt_id := λ _ _ _, eq_refl |}.

Definition today : Date := 100 * DAY.

Definition acme_payment (status : PaymentStatus) : Payment.t :=
  (Payment.create (99 * DAY) "pay_1" (usd 10000) "key" (mkPaymentMetadata "acme" None None None None None) None None None) {{ Payment._status := status }}.

Definition acme_dispute : Dispute.t :=
  (Dispute.create (99 * DAY) "d_1" "pay_1" "acme" STRIPE "dp_1" (usd 10000) (Some "fraudulent"%string) None None None None) {{ Dispute._status := RESOLVED LOST }}.

Definition acme_hold : ReserveHold.t := ReserveHold.mk "rh_1" "pay_1" "acme" (usd 500) (usd 10000) ReserveHold.HELD 1000 0 None.

(** Ten charges, one of them lost to a fraud dispute: a rate of 10%. *)
Definition sample_tables : tables := mkTables (replicate 10 (acme_payment SUCCEEDED)) [acme_dispute] [acme_hold].

Definition sample_state (r : registry) : risk_state := mkRiskState r sample_tables sample_tables [] [].

Lemma acme_hold_ok : hold_ok acme_hold.
Proof. destruct hold_5_ok as [H1 H2 H3 H4]. by split. Qed.

Lemma sample_sound_holds r : sound_holds (sample_state r).
Proof.
  split_and!; [apply NoDup_singleton| |done]. intros h Hh. cbn in Hh. apply list_elem_of_singleton in Hh as ->. apply acme_hold_ok.
Qed.


(** ** Histories *)

Definition risk_start (t : tables) (requests : list account_request) (monitors : list monitor_request) : config unit :=
  mkConfig today (mkRiskState emptyRegistry t t [] []) ((lift ∘ serve_account <$> requests) ++ (serve_monitor <$> monitors)).

Definition risk_ended (c : @config risk_event risk_state unit) : Prop := Forall (λ p, p = Ret tt) (pool c).

Definition risk_endedb (c : @config risk_event risk_state unit) : bool := forallb (λ p, match p with Ret _ => true | _ => false end) (pool c).

Lemma risk_observe {A} turns t requests monitors (f : risk_state → A) (x : A) :
  (λ c, (risk_endedb c, f (memory c))) (schedule risk_handle turns (risk_start t requests monitors)) = (true, x) →
  ∃ c, rtc (interleave risk_handle) (risk_start t requests monitors) c ∧ risk_ended c ∧ f (memory c) = x.
Proof.
  pose proof (schedule_reaches risk_handle turns (risk_start t requests monitors)) as Hr. generalize dependent (schedule risk_handle turns (risk_start t requests monitors)).
  intros c Hr [= He Hf]. exists c. split_and!; [done| |done]. apply Forall_forall. intros p Hp%list_elem_of_In. unfold risk_endedb in He. rewrite forallb_forall in He.
  specialize (He p Hp). by destruct p as [[]| |].
Qed.

(** The manual policy of a merchant, after a sweep that had read the merchant before: an
    operator raises the reserve to 30% and so takes it over; the sweep, which decided
    on 15%, stores its own rate over it. Both return, and no later sweep will touch it. *)
Theorem sweep_overrides_operator :
  ∃ c, rtc (interleave risk_handle)
      (risk_start sample_tables [LIST_REFRESH (Some (Ok sample_list)); CREATE sample_dto; RESERVE_POLICY "acme" 3000 60] [TIERING_SWEEP 1 today]) c
    ∧ risk_ended c ∧ (λ m, (currentPolicy m, autoManaged m)) <$> rg_merchants (rk_registry (memory c)) = [((1500, 90), false)].
Proof.
  apply (risk_observe ([0%nat] ++ replicate 10 1%nat ++ replicate 6 3%nat ++ replicate 3 2%nat ++ replicate 6 3%nat) _ _ _
    (λ s, (λ m, (currentPolicy m, autoManaged m)) <$> rg_merchants (rk_registry s))). by vm_compute.
Qed.

(** The fifth ambiguous charge in a row after an operator has cleared the merchant for
    good: the evaluation reads the replica, which does not know yet, and raises the
    flag in the row that is no longer its own, under the operator's name. *)
Theorem lagging_replica_overrides_operator :
  ∃ c, rtc (interleave risk_handle)
      (risk_start (mkTables (replicate 5 (acme_payment AMBIGUOUS)) [] []) 
         [LIST_REFRESH (Some (Ok sample_list)); CREATE sample_dto; REPLICATE; MANUAL_AMBIGUOUS "acme" false "checked" "alice"] [AMBIGUOUS_INCIDENT "acme"]) c
    ∧ risk_ended c
    ∧ (λ m, (rf_value (ac_ambiguousRisk m), rf_autoManaged (ac_ambiguousRisk m), rf_flaggedBy (ac_ambiguousRisk m))) <$> rg_merchants (rk_registry (memory c))
      = [(true, false, Defined (Some "alice"%string))].
Proof.
  apply (risk_observe ([0%nat] ++ replicate 10 1%nat ++ [2%nat] ++ replicate 3 3%nat ++ replicate 9 4%nat) _ _ _
    (λ s, (λ m, (rf_value (ac_ambiguousRisk m), rf_autoManaged (ac_ambiguousRisk m), rf_flaggedBy (ac_ambiguousRisk m))) <$> rg_merchants (rk_registry s))). by vm_compute.
Qed.

(** Acme when an operator has taken over its reserve. *)
Definition taken_over : list (string * string * (option (Z * Z) * option (RiskFlag bool) * option (RiskFlag bool) * option (RiskFlag ChargebackTier.ChargebackMonitoringTier))) :=
  [("id0"%string, "acme"%string, (Some (3000, 60), None, None, None))].

Lemma sample_taken_over : ∃ r, guarded <$> rg_merchants r = taken_over ∧ guarded <$> rg_replica r = taken_over.
Proof.
  destruct (observe ([0%nat] ++ replicate 10 1%nat ++ replicate 3 2%nat ++ [3%nat])
    [LIST_REFRESH (Some (Ok sample_list)); CREATE sample_dto; RESERVE_POLICY "acme" 3000 60; REPLICATE]
    (λ r, (guarded <$> rg_merchants r, guarded <$> rg_replica r)) (taken_over, taken_over)) as (c & _ & _ & [= H1 H2]); [by vm_compute|]. by exists (memory c).
Qed.

Lemma single_row {A} (key : Account → A) (rows : registryTable) : guarded <$> rows = taken_over → NoDup (key <$> rows).
Proof. intros H. destruct rows as [|m [|]]; [discriminate| |discriminate]. apply NoDup_singleton. Qed.

Lemma manual_decisions_stick_witness : ∃ r, guarded <$> rg_merchants r = taken_over
  ∧ guarded <$> rg_merchants (rk_registry (run_all risk_handle (serve_monitor <$> [TIERING_SWEEP 1 today; AMBIGUOUS_INCIDENT "acme"]) today (sample_state r)).1) = taken_over.
Proof.
  destruct sample_taken_over as (r & H1 & H2). exists r. split; [exact H1|]. rewrite <- H1.
  exact (manual_decisions_stick [TIERING_SWEEP 1 today; AMBIGUOUS_INCIDENT "acme"] today (sample_state r)
           (single_row ac_id _ H1) (single_row ac_merchantId _ H1) (eq_trans H2 (eq_sym H1))).
Defined.

(** ** A top-up that fails *)

(** Everything works but one call. *)
Definition one_fault (k : nat) : World := {|
  fault := λ n, if (n =? k)%nat then Refused else Works;
  uuid := @uuid sample_world;
  uuid_inj := sample_uuid_inj;
  random := @random sample_world;
  hash := @hash sample_world;
  encrypt := @encrypt sample_world;
  verification := @verification sample_world;
  matchReport := @matchReport sample_world;
  matchThreshold := defaultUnits |}.

Definition acme : Account :=
  MerchantService.newAccount "id0" "ak_1" "hash" "cipher" 0 sample_dto (mkSanctionsScreeningOutcome CLEAR DEGRADED None None).

Definition acme_registry : registry := mkRegistry [acme] [acme] SanctionsListStore.init [] [] [] [] 1 0.

(** The lookup of the held reserves (the ninth call) fails once: the new policy is stored,
    the merchant counted as skipped, and the next sweep, which sees no change of the
    policy, leaves the old reserves at their old rate. *)
Theorem failed_top_up_forgotten :
  let s := (run_all (@risk_handle (one_fault 8) sample_risk) (serve_monitor <$> [TIERING_SWEEP 1 today; TIERING_SWEEP 1 today]) today (sample_state acme_registry)).1 in
  currentPolicy <$> rg_merchants (rk_registry s) = [(1500, 90)] ∧ held_minor <$> tb_holds (rk_master s) = [500] ∧ rk_ledger s = [].
Proof. by vm_compute. Qed.

(** The replica does not show the hold yet: it keeps its old rate, and so it does when the
    replica has caught up, for the next sweep sees no change of the policy. *)
Theorem fresh_hold_not_raised :
  let s0 := mkRiskState acme_registry sample_tables (mkTables (tb_payments sample_tables) (tb_disputes sample_tables) []) [] [] in
  let s1 := (run_all risk_handle (serve_monitor <$> [TIERING_SWEEP 1 today]) today s0).1 in
  let s2 := (run_all risk_handle (serve_monitor <$> [TIERING_SWEEP 1 today]) today (s1 {{ rk_replica := rk_master s1 }})).1 in
  currentPolicy <$> rg_merchants (rk_registry s2) = [(1500, 90)] ∧ held_minor <$> tb_holds (rk_master s2) = [500] ∧ rk_ledger s2 = [].
Proof. by vm_compute. Qed.
