(* ===== verification/Statement.v ===== *)
(** * Merchant statements and 1099-K forms

    [merchant-statement.service.ts], [tax-form-1099k.service.ts], their aggregates and
    repositories: what the ledger and the disputes say about a merchant in a period, by
    currency, generated once per merchant and period, on demand or by a sweep over the
    merchants. *)

From stdpp Require Import pretty.
From S2P Require Import Prelude Rows JsNumber JsDate Money Payment Merchant Ledger Payout Dispute Redis Shared Program Accounts.

(** ** One currency of a period *)

(** [MutableBreakdown]: amounts in minor units. *)
Record MutableBreakdown := mkBreakdown {
  bk_currencyCode : string;
  bk_chargeCount : Z;
  bk_grossVolume : Z;
  bk_platformFee : Z;
  bk_providerFee : Z;
  bk_refundedAmount : Z;
  bk_chargebackCount : Z;
  bk_chargebackAmount : Z;
  bk_splitProceeds : Z;
  bk_netSettlement : Z }.

Record StatementCurrencyBreakdown := mkStatementBreakdown {
  sb_currencyCode : string;
  sb_chargeCount : Z;
  sb_grossVolume : Money.t;
  sb_platformFee : Money.t;
  sb_providerFee : Money.t;
  sb_refundedAmount : Money.t;
  sb_chargebackCount : Z;
  sb_chargebackAmount : Money.t;
  sb_splitProceeds : Z;
  sb_netSettlement : Z }.

Module MerchantStatement.

Record t := mk {
  id : string;
  merchantId : string;
  periodStart : Date;
  periodEnd : Date;
  breakdowns : list StatementCurrencyBreakdown;
  generatedAt : Date }.

Definition create (now : Date) (id merchantId : string) (periodStart periodEnd : Date)
    (breakdowns : list StatementCurrencyBreakdown) : t :=
  mk id merchantId periodStart periodEnd breakdowns now.

Definition reconstitute (id merchantId : string) (periodStart periodEnd : Date)
    (breakdowns : list StatementCurrencyBreakdown) (generatedAt : Date) : t :=
  mk id merchantId periodStart periodEnd breakdowns generatedAt.

End MerchantStatement.

Module MerchantTaxForm1099K.

Record t := mk {
  id : string;
  merchantId : string;
  taxYear : Z;
  currencyCode : string;
  grossAmount : Money.t;
  transactionCount : Z;
  monthlyAmounts : list Money.t;
  thresholdApplied : Money.t;
  reportable : bool;
  generatedAt : Date }.

Definition create (now : Date) (id merchantId : string) (taxYear : Z) (currencyCode : string) (grossAmount : Money.t)
    (transactionCount : Z) (monthlyAmounts : list Money.t) (thresholdApplied : Money.t) : result t :=
  less ← Money.isLessThan grossAmount thresholdApplied;
  Ok (mk id merchantId taxYear currencyCode grossAmount transactionCount monthlyAmounts thresholdApplied (negb less) now).

Definition reconstitute (id merchantId : string) (taxYear : Z) (currencyCode : string) (grossAmount : Money.t)
    (transactionCount : Z) (monthlyAmounts : list Money.t) (thresholdApplied : Money.t) (reportable : bool)
    (generatedAt : Date) : t :=
  mk id merchantId taxYear currencyCode grossAmount transactionCount monthlyAmounts thresholdApplied reportable generatedAt.

End MerchantTaxForm1099K.

(** ** The computation *)

Module Breakdowns.

(** [new Map<string, MutableBreakdown>()]: by insertion, each breakdown under its code. *)
Definition table := list MutableBreakdown.

Definition fresh (currencyCode : string) : MutableBreakdown := mkBreakdown currencyCode 0 0 0 0 0 0 0 0 0.

(** [const b = getBreakdown(code)], then the assignments [f] to it. *)
Fixpoint update (code : string) (f : MutableBreakdown → MutableBreakdown) (byCurrency : table) : table :=
  match byCurrency with
  | [] => [f (fresh code)]
  | b :: rest => if String.eqb (bk_currencyCode b) code then f b :: rest else b :: update code f rest
  end.

Definition CHARGE_EVENT_TYPES : list string := ["PAYMENT_CHARGED"; "BNPL_CAPTURED"].
Definition REFUND_EVENT_TYPES : list string := ["PAYMENT_REFUNDED"; "BNPL_REFUNDED"].

Definition codeOf (e : LedgerEntry) : string := Currency.code (Money.currency (amount e)).
Definition unitsOf (e : LedgerEntry) : Z := Money.amountMinorUnits (amount e).

Definition addNet (byCurrency : table) (e : LedgerEntry) : table :=
  update (codeOf e) (λ b, b {{ bk_netSettlement := bk_netSettlement b + PayoutService.sign_of e * unitsOf e }}) byCurrency.

Definition addSplit (byCurrency : table) (e : LedgerEntry) : table :=
  update (codeOf e) (λ b, b {{ bk_splitProceeds := bk_splitProceeds b + PayoutService.sign_of e * unitsOf e }}) byCurrency.

Definition addRefund (byCurrency : table) (e : LedgerEntry) : table :=
  match entryType e with
  | DEBIT => update (codeOf e) (λ b, b {{ bk_refundedAmount := bk_refundedAmount b + unitsOf e }}) byCurrency
  | CREDIT => byCurrency
  end.

(** The first entry on an account of this type, in minor units, or zero. *)
Definition feeOf (T : AccountType) (entries : list LedgerEntry) : Z :=
  match List.find (λ e, bool_decide (accountType e = T)) entries with Some e => unitsOf e | None => 0 end.

Definition addCharge (entries : list LedgerEntry) (creditEntry : LedgerEntry) (byCurrency : table) : table :=
  let feeAmount := feeOf FEE entries in
  let providerFeeAmount := feeOf BNPL_PROVIDER_FEE entries in
  update (codeOf creditEntry)
    (λ b, b {{ bk_chargeCount := bk_chargeCount b + 1;
               bk_grossVolume := bk_grossVolume b + (unitsOf creditEntry + feeAmount + providerFeeAmount);
               bk_platformFee := bk_platformFee b + feeAmount;
               bk_providerFee := bk_providerFee b + providerFeeAmount }}) byCurrency.

(** This merchant's entries of an event. *)
Definition ownEntries (merchantId : string) (entries : list LedgerEntry) : list LedgerEntry :=
  filter (λ e, accountType e = MERCHANT ∧ accountId e = merchantId) entries.

Definition isSplit (entries : list LedgerEntry) : bool :=
  (1 <? length (filter (λ e, accountType e = MERCHANT) entries))%nat.

(** One round of [for (const event of events)]. *)
Definition bucket (merchantId : string) (byCurrency : table) (event : LedgerOutboxEvent.t) : table :=
  let entries := LedgerOutboxEvent.entries event in
  let merchantEntries := ownEntries merchantId entries in
  match merchantEntries with
  | [] => byCurrency
  | _ =>
      let byCurrency := foldl addNet byCurrency merchantEntries in
      if includes CHARGE_EVENT_TYPES (LedgerOutboxEvent.eventType event) then
        if negb (isSplit entries) then
          match List.find (λ e, bool_decide (entryType e = CREDIT)) merchantEntries with
          | Some creditEntry => addCharge entries creditEntry byCurrency
          | None => byCurrency
          end
        else foldl addSplit byCurrency merchantEntries
      else if includes REFUND_EVENT_TYPES (LedgerOutboxEvent.eventType event) then foldl addRefund byCurrency merchantEntries
      else byCurrency
  end.

Definition addDispute (byCurrency : table) (dispute : Dispute.t) : table :=
  update (Currency.code (Money.currency (Dispute._amount dispute)))
    (λ b, b {{ bk_chargebackCount := bk_chargebackCount b + 1;
               bk_chargebackAmount := bk_chargebackAmount b + Money.amountMinorUnits (Dispute._amount dispute) }}) byCurrency.

(** [Array.from(byCurrency.values()).map(...)] *)
Definition toStatement (b : MutableBreakdown) : result StatementCurrencyBreakdown :=
  let money units := Money.fromMinorUnits units (bk_currencyCode b) None in
  grossVolume ← money (bk_grossVolume b);
  platformFee ← money (bk_platformFee b);
  providerFee ← money (bk_providerFee b);
  refundedAmount ← money (bk_refundedAmount b);
  chargebackAmount ← money (bk_chargebackAmount b);
  Ok (mkStatementBreakdown (bk_currencyCode b) (bk_chargeCount b) grossVolume platformFee providerFee refundedAmount
        (bk_chargebackCount b) chargebackAmount (bk_splitProceeds b) (bk_netSettlement b)).

Definition tally (merchantId : string) (events : list LedgerOutboxEvent.t) (lostDisputes : list Dispute.t) : table :=
  foldl addDispute (foldl (bucket merchantId) [] events) lostDisputes.

Definition breakdownsOf (merchantId : string) (events : list LedgerOutboxEvent.t) (lostDisputes : list Dispute.t)
    : result (list StatementCurrencyBreakdown) :=
  mapM toStatement (tally merchantId events lostDisputes).

End Breakdowns.

(** ** Tables *)

(** The JSON of a breakdown: amounts as decimal strings. *)
Record RawBreakdown := mkRawBreakdown {
  rb_currencyCode : string;
  rb_chargeCount : Z;
  rb_grossVolume : string;
  rb_platformFee : string;
  rb_providerFee : string;
  rb_refundedAmount : string;
  rb_chargebackCount : Z;
  rb_chargebackAmount : string;
  rb_splitProceeds : string;
  rb_netSettlement : string }.

Record MerchantStatementEntity := mkStatementEntity {
  se_id : string;
  se_merchantId : string;
  se_periodStart : Date;
  se_periodEnd : Date;
  se_breakdowns : list RawBreakdown;
  se_generatedAt : Date }.

Module MerchantStatementTypeOrmRepository.

Definition toRaw (b : StatementCurrencyBreakdown) : RawBreakdown :=
  let text m := pretty (Money.amountMinorUnits m) in
  mkRawBreakdown (sb_currencyCode b) (sb_chargeCount b) (text (sb_grossVolume b)) (text (sb_platformFee b)) (text (sb_providerFee b))
    (text (sb_refundedAmount b)) (sb_chargebackCount b) (text (sb_chargebackAmount b)) (pretty (sb_splitProceeds b))
    (pretty (sb_netSettlement b)).

Definition fromRaw (raw : RawBreakdown) : result StatementCurrencyBreakdown :=
  let money text := units ← Str.BigInt text; Money.fromMinorUnits units (rb_currencyCode raw) None in
  grossVolume ← money (rb_grossVolume raw);
  platformFee ← money (rb_platformFee raw);
  providerFee ← money (rb_providerFee raw);
  refundedAmount ← money (rb_refundedAmount raw);
  chargebackAmount ← money (rb_chargebackAmount raw);
  splitProceeds ← Str.BigInt (rb_splitProceeds raw);
  netSettlement ← Str.BigInt (rb_netSettlement raw);
  Ok (mkStatementBreakdown (rb_currencyCode raw) (rb_chargeCount raw) grossVolume platformFee providerFee refundedAmount
        (rb_chargebackCount raw) chargebackAmount splitProceeds netSettlement).

Definition toEntity (s : MerchantStatement.t) : MerchantStatementEntity :=
  mkStatementEntity (MerchantStatement.id s) (MerchantStatement.merchantId s) (MerchantStatement.periodStart s)
    (MerchantStatement.periodEnd s) (toRaw <$> MerchantStatement.breakdowns s) (MerchantStatement.generatedAt s).

Definition toDomain (e : MerchantStatementEntity) : result MerchantStatement.t :=
  breakdowns ← mapM fromRaw (se_breakdowns e);
  Ok (MerchantStatement.reconstitute (se_id e) (se_merchantId e) (se_periodStart e) (se_periodEnd e) breakdowns (se_generatedAt e)).

Definition samePeriod (merchantId : string) (periodStart periodEnd : Date) (e : MerchantStatementEntity) : bool :=
  String.eqb (se_merchantId e) merchantId && (se_periodStart e =? periodStart) && (se_periodEnd e =? periodEnd).

(** The unique index on merchant and period. *)
Definition save (e : MerchantStatementEntity) (rows : list MerchantStatementEntity) : option (list MerchantStatementEntity) :=
  if existsb (λ r, samePeriod (se_merchantId e) (se_periodStart e) (se_periodEnd e) r && negb (String.eqb (se_id r) (se_id e))) rows then None
  else if existsb (λ r, String.eqb (se_id r) (se_id e)) rows
  then Some ((λ r, if String.eqb (se_id r) (se_id e) then e else r) <$> rows)
  else Some (rows ++ [e]).

(** [findOne], read as an aggregate. *)
Definition findByMerchantAndPeriod (merchantId : string) (periodStart periodEnd : Date) (rows : list MerchantStatementEntity)
    : result (option MerchantStatement.t) :=
  match List.find (samePeriod merchantId periodStart periodEnd) rows with
  | Some e => s ← toDomain e; Ok (Some s)
  | None => Ok None
  end.

Definition findById (id : string) (rows : list MerchantStatementEntity) : result (option MerchantStatement.t) :=
  match List.find (λ e, String.eqb (se_id e) id) rows with
  | Some e => s ← toDomain e; Ok (Some s)
  | None => Ok None
  end.

Definition latestFirst (e e' : MerchantStatementEntity) : bool := se_periodStart e' <=? se_periodStart e.

Definition findByMerchantId (merchantId : string) (limit offset : option nat) (rows : list MerchantStatementEntity)
    : result (list MerchantStatement.t) :=
  mapM toDomain (take (nullish limit 50%nat) (drop (nullish offset 0%nat)
    (orderBy latestFirst (filter (λ e, se_merchantId e = merchantId) rows)))).

End MerchantStatementTypeOrmRepository.

Record MerchantTaxForm1099KEntity := mkTaxFormEntity {
  te_id : string;
  te_merchantId : string;
  te_taxYear : Z;
  te_currencyCode : string;
  te_grossAmount : string;
  te_transactionCount : Z;
  te_monthlyAmounts : list string;
  te_thresholdApplied : string;
  te_reportable : bool;
  te_generatedAt : Date }.

Module MerchantTaxForm1099KTypeOrmRepository.
Import MerchantTaxForm1099K.

Definition toEntity (f : t) : MerchantTaxForm1099KEntity :=
  let text m := pretty (Money.amountMinorUnits m) in
  mkTaxFormEntity (id f) (merchantId f) (taxYear f) (currencyCode f) (text (grossAmount f)) (transactionCount f)
    (text <$> monthlyAmounts f) (text (thresholdApplied f)) (reportable f) (generatedAt f).

Definition toDomain (e : MerchantTaxForm1099KEntity) : result t :=
  let money text := units ← Str.BigInt text; Money.fromMinorUnits units (te_currencyCode e) None in
  grossAmount ← money (te_grossAmount e);
  monthlyAmounts ← mapM money (te_monthlyAmounts e);
  thresholdApplied ← money (te_thresholdApplied e);
  Ok (reconstitute (te_id e) (te_merchantId e) (te_taxYear e) (te_currencyCode e) grossAmount (te_transactionCount e)
        monthlyAmounts thresholdApplied (te_reportable e) (te_generatedAt e)).

Definition sameYear (merchantId : string) (taxYear : Z) (e : MerchantTaxForm1099KEntity) : bool :=
  String.eqb (te_merchantId e) merchantId && (te_taxYear e =? taxYear).

(** The unique index on merchant and year. *)
Definition save (e : MerchantTaxForm1099KEntity) (rows : list MerchantTaxForm1099KEntity) : option (list MerchantTaxForm1099KEntity) :=
  if existsb (λ r, sameYear (te_merchantId e) (te_taxYear e) r && negb (String.eqb (te_id r) (te_id e))) rows then None
  else if existsb (λ r, String.eqb (te_id r) (te_id e)) rows
  then Some ((λ r, if String.eqb (te_id r) (te_id e) then e else r) <$> rows)
  else Some (rows ++ [e]).

Definition findByMerchantAndYear (merchantId : string) (taxYear : Z) (rows : list MerchantTaxForm1099KEntity) : result (option t) :=
  match List.find (sameYear merchantId taxYear) rows with
  | Some e => f ← toDomain e; Ok (Some f)
  | None => Ok None
  end.

End MerchantTaxForm1099KTypeOrmRepository.

(** ** Events *)

Inductive report_event : Type → Type :=
  | ACCOUNTS {X} (c : account_event X) : report_event X
  | CREATED_BETWEEN (since until : Date) : report_event (result (list LedgerOutboxEvent.t))
  | LOST_DISPUTES (merchantId : string) (since until : Date) : report_event (result (list Dispute.t))
  | FIND_STATEMENT (merchantId : string) (periodStart periodEnd : Date) : report_event (result (option MerchantStatement.t))
  | SAVE_STATEMENT (s : MerchantStatement.t) : report_event (result unit)
  | FIND_TAX_FORM (merchantId : string) (taxYear : Z) : report_event (result (option MerchantTaxForm1099K.t))
  | SAVE_TAX_FORM (f : MerchantTaxForm1099K.t) : report_event (result unit)
  | BOOK (event : LedgerOutboxEvent.t) : report_event unit
  | RESOLVE_DISPUTE (disputeId : string) (outcome : DisputeOutcome) : report_event unit
  | CATCH_UP : report_event unit.

Abbreviation Reports := (prog report_event).

Definition accounts {A} : P A → Reports A := translate (@ACCOUNTS).

(** How a sweep counts: a merchant whose turn threw is skipped. *)
Record ReportCounts := mkReportCounts { rc_generated : Z; rc_skipped : Z }.

Definition noReports : ReportCounts := mkReportCounts 0 0.

Definition countReport (c : ReportCounts) (r : option bool) : ReportCounts :=
  match r with
  | Some true => c {{ rc_generated := rc_generated c + 1 }}
  | _ => c {{ rc_skipped := rc_skipped c + 1 }}
  end.

(** ** The statement service *)

Definition STATEMENT_SWEEP_BATCH_SIZE : nat := 50.

Module MerchantStatementService.

Definition computeBreakdowns (merchantId : string) (periodStart periodEnd : Date) : Reports (list StatementCurrencyBreakdown) :=
  if periodEnd <=? periodStart then Fail (HttpException 400 "INVALID_PERIOD_RANGE")
  else
    events ← ask (CREATED_BETWEEN periodStart periodEnd);
    lostDisputes ← ask (LOST_DISPUTES merchantId periodStart periodEnd);
    of_result (Breakdowns.breakdownsOf merchantId events lostDisputes).

(** [MerchantStatement.create] with its id and clock, and [save]. *)
Definition store (merchantId : string) (periodStart periodEnd : Date) (breakdowns : list StatementCurrencyBreakdown)
    : Reports MerchantStatement.t :=
  id ← accounts (call UUID);
  now ← accounts (call CLOCK);
  let statement := MerchantStatement.create now id merchantId periodStart periodEnd breakdowns in
  _ ← ask (SAVE_STATEMENT statement);
  mret statement.

Definition generateForMerchant (merchantId : string) (periodStart periodEnd : Date) : Reports MerchantStatement.t :=
  existing ← ask (FIND_STATEMENT merchantId periodStart periodEnd);
  match existing with
  | Some existing => mret existing
  | None =>
      breakdowns ← computeBreakdowns merchantId periodStart periodEnd;
      store merchantId periodStart periodEnd breakdowns
  end.

(** One merchant of the sweep: whether a statement was generated. *)
Definition sweepOne (periodStart periodEnd : Date) (merchant : Account) : Reports bool :=
  breakdowns ← computeBreakdowns (ac_merchantId merchant) periodStart periodEnd;
  match breakdowns with
  | [] => mret false
  | _ =>
      existing ← ask (FIND_STATEMENT (ac_merchantId merchant) periodStart periodEnd);
      match existing with
      | Some _ => mret false
      | None => _ ← store (ac_merchantId merchant) periodStart periodEnd breakdowns; mret true
      end
  end.

Definition previousMonth (now : Date) : Date * Date :=
  let y := JsDate.getUTCFullYear now in
  let m := JsDate.getUTCMonth now in
  (JsDate.UTC y (m - 1) 1, JsDate.UTC y m 1).

(** For at most [fuel] batches. *)
Definition runMonthlySweep (fuel : nat) (now : Date) : Reports (option ReportCounts) :=
  let '(periodStart, periodEnd) := previousMonth now in
  forPages ac_id (λ afterId, accounts (MerchantService.findActiveBatch afterId STATEMENT_SWEEP_BATCH_SIZE))
    STATEMENT_SWEEP_BATCH_SIZE (allSettled (sweepOne periodStart periodEnd) countReport) fuel None noReports.

End MerchantStatementService.

(** ** The 1099-K service *)

Definition TAX_FORM_SWEEP_BATCH_SIZE : nat := 50.
Definition DEFAULT_1099K_THRESHOLD_USD : number := Num.lit 600 1.

(** The configured threshold, and [a.localeCompare(b) <= 0], an order of the locale. *)
Class TaxConfig := {
  thresholdUsd : number;
  localeBefore : string → string → bool;
  localeBefore_total a b : localeBefore a b = true ∨ localeBefore b a = true;
  localeBefore_trans a b c : localeBefore a b = true → localeBefore b c = true → localeBefore a c = true }.

Module TaxForm1099KService.
Section service.
Context `{TaxConfig}.

Definition grossWithSplits (b : StatementCurrencyBreakdown) : Z :=
  Money.amountMinorUnits (sb_grossVolume b) + (if 0 <? sb_splitProceeds b then sb_splitProceeds b else 0).

(** The comparison of the sort, when it is not positive. *)
Definition dominates (a b : StatementCurrencyBreakdown) : bool :=
  let diff := grossWithSplits b - grossWithSplits a in
  if negb (diff =? 0) then negb (0 <? diff) else localeBefore (sb_currencyCode a) (sb_currencyCode b).

(** The amount of one month in the currency of the form. *)
Definition monthAmount (currencyCode : string) (monthBreakdowns : list StatementCurrencyBreakdown) : result Money.t :=
  match List.find (λ b, String.eqb (sb_currencyCode b) currencyCode) monthBreakdowns with
  | Some b => Money.fromMinorUnits (grossWithSplits b) currencyCode None
  | None => Money.zero currencyCode
  end.

(** [for (let month = 0; month < 12; month++)] *)
Fixpoint monthly (merchantId : string) (taxYear : Z) (currencyCode : string) (months : list Z) : Reports (list Money.t) :=
  match months with
  | [] => mret []
  | month :: months =>
      monthBreakdowns ← MerchantStatementService.computeBreakdowns merchantId (JsDate.UTC taxYear month 1) (JsDate.UTC taxYear (month + 1) 1);
      amount ← of_result (monthAmount currencyCode monthBreakdowns);
      rest ← monthly merchantId taxYear currencyCode months;
      mret (amount :: rest)
  end.

Definition computeForMerchant (merchantId : string) (taxYear : Z) : Reports (option MerchantTaxForm1099K.t) :=
  let yearStart := JsDate.UTC taxYear 0 1 in
  let yearEnd := JsDate.UTC (taxYear + 1) 0 1 in
  breakdowns ← MerchantStatementService.computeBreakdowns merchantId yearStart yearEnd;
  match orderBy dominates breakdowns with
  | [] => mret None
  | dominant :: _ =>
      let currencyCode := sb_currencyCode dominant in
      grossAmount ← of_result (Money.fromMinorUnits (grossWithSplits dominant) currencyCode None);
      monthlyAmounts ← monthly merchantId taxYear currencyCode (Z.of_nat <$> seq 0 12);
      thresholdApplied ← of_result (Money.of_ (Money.ANumber thresholdUsd) currencyCode None);
      id ← accounts (call UUID);
      now ← accounts (call CLOCK);
      form ← of_result (MerchantTaxForm1099K.create now id merchantId taxYear currencyCode grossAmount (sb_chargeCount dominant)
                          monthlyAmounts thresholdApplied);
      mret (Some form)
  end.

Definition generateForMerchant (merchantId : string) (taxYear : Z) : Reports (option MerchantTaxForm1099K.t) :=
  existing ← ask (FIND_TAX_FORM merchantId taxYear);
  match existing with
  | Some existing => mret (Some existing)
  | None =>
      form ← computeForMerchant merchantId taxYear;
      match form with
      | None => mret None
      | Some form => _ ← ask (SAVE_TAX_FORM form); mret (Some form)
      end
  end.

(** One merchant of the sweep: whether a form was generated. *)
Definition sweepOne (taxYear : Z) (merchant : Account) : Reports bool :=
  existing ← ask (FIND_TAX_FORM (ac_merchantId merchant) taxYear);
  match existing with
  | Some _ => mret false
  | None =>
      form ← computeForMerchant (ac_merchantId merchant) taxYear;
      match form with
      | None => mret false
      | Some form => _ ← ask (SAVE_TAX_FORM form); mret true
      end
  end.

Definition runAnnualSweep (fuel : nat) (now : Date) : Reports (option ReportCounts) :=
  let taxYear := JsDate.getUTCFullYear now - 1 in
  forPages ac_id (λ afterId, accounts (MerchantService.findActiveByCountryBatch "US" afterId TAX_FORM_SWEEP_BATCH_SIZE))
    TAX_FORM_SWEEP_BATCH_SIZE (allSettled (sweepOne taxYear) countReport) fuel None noReports.

End service.
End TaxForm1099KService.

(** ** What the events do

    Statements, forms and disputes are read on a replica, the ledger on the master. *)

Record report_state := mkReportState {
  rp_registry : registry;
  rp_ledger : list LedgerOutboxEvent.t;
  rp_disputes : list Dispute.t;
  rp_disputesReplica : list Dispute.t;
  rp_statements : list MerchantStatementEntity;
  rp_statementsReplica : list MerchantStatementEntity;
  rp_forms : list MerchantTaxForm1099KEntity;
  rp_formsReplica : list MerchantTaxForm1099KEntity }.

Definition earlierFirst (ev ev' : LedgerOutboxEvent.t) : bool := LedgerOutboxEvent.createdAt ev <=? LedgerOutboxEvent.createdAt ev'.

Definition findCreatedBetween (since until : Date) (ledger : list LedgerOutboxEvent.t) : list LedgerOutboxEvent.t :=
  orderBy earlierFirst (PayoutService.findCreatedBetween since until ledger).

Definition findByMerchantStatusInRange (merchantId : string) (status : DisputeStatus) (since until : Date) (disputes : list Dispute.t)
    : list Dispute.t :=
  filter (λ d, Dispute._merchantId d = merchantId ∧ Dispute._status d = status ∧ since ≤ Dispute._createdAt d < until) disputes.

Definition resolveIn (now : Date) (disputeId : string) (outcome : DisputeOutcome) (disputes : list Dispute.t) : list Dispute.t :=
  (λ d, if String.eqb (Dispute._id d) disputeId then match Dispute.resolve now outcome d with Ok d' => d' | Throw _ => d end else d) <$> disputes.

Section handler.
Context `{World}.

Definition report_handle X (c : report_event X) (now : Date) (s : report_state) : report_state * result X :=
  let n := rg_calls (rp_registry s) in
  let f := fault n in
  let s1 := s {{ rp_registry := (rp_registry s) {{ rg_calls := S n }} }} in
  match c in report_event Y return report_state * result Y with
  | ACCOUNTS c => let '(reg, r) := account_handle _ c now (rp_registry s) in (s {{ rp_registry := reg }}, r)
  | CREATED_BETWEEN since until => faulty f s1 s1 (Ok (findCreatedBetween since until (rp_ledger s)))
  | LOST_DISPUTES mid since until =>
      faulty f s1 s1 (Ok (findByMerchantStatusInRange mid (RESOLVED LOST) since until (rp_disputesReplica s)))
  | FIND_STATEMENT mid start end_ =>
      faulty f s1 s1 (MerchantStatementTypeOrmRepository.findByMerchantAndPeriod mid start end_ (rp_statementsReplica s))
  | SAVE_STATEMENT st =>
      match MerchantStatementTypeOrmRepository.save (MerchantStatementTypeOrmRepository.toEntity st) (rp_statements s) with
      | Some rows => faulty f s1 (s1 {{ rp_statements := rows }}) (Ok tt)
      | None => (s1, Ok (Throw (ExternalFailure "duplicate key")))
      end
  | FIND_TAX_FORM mid year =>
      faulty f s1 s1 (MerchantTaxForm1099KTypeOrmRepository.findByMerchantAndYear mid year (rp_formsReplica s))
  | SAVE_TAX_FORM form =>
      match MerchantTaxForm1099KTypeOrmRepository.save (MerchantTaxForm1099KTypeOrmRepository.toEntity form) (rp_forms s) with
      | Some rows => faulty f s1 (s1 {{ rp_forms := rows }}) (Ok tt)
      | None => (s1, Ok (Throw (ExternalFailure "duplicate key")))
      end
  | BOOK event => (s1 {{ rp_ledger := rp_ledger s ++ [event] }}, Ok tt)
  | RESOLVE_DISPUTE did outcome => (s1 {{ rp_disputes := resolveIn now did outcome (rp_disputes s) }}, Ok tt)
  | CATCH_UP => (s1 {{ rp_disputesReplica := rp_disputes s; rp_statementsReplica := rp_statements s; rp_formsReplica := rp_forms s }}, Ok tt)
  end.
End handler.
