(* ===== verification/StatementCorrect.v ===== *)
(** * Correctness of statements

    The breakdowns of a period are exactly the sums of what its ledger events and lost
    disputes contribute, one per currency with activity; for ordinary charges, captures
    and refunds these are their numbers, sums and fees; the net settlement is the balance
    payouts are made from; adjacent periods add up; rows round-trip. *)

From stdpp Require Import pretty.
From S2P Require Import Prelude Rows JsNumber JsDate Money Payment Merchant Ledger LedgerCorrect Payout PayoutCorrect Dispute Redis Shared Decimal Program Accounts Statement.
Import Breakdowns.

(** ** Tables by currency *)

Definition codes (m : table) : list string := bk_currencyCode <$> m.

(** The breakdown of a currency, zero where there is none. *)
Definition atCode (m : table) (code : string) : MutableBreakdown :=
  match List.find (λ b, String.eqb (bk_currencyCode b) code) m with Some b => b | None => fresh code end.

Section table.
Implicit Types (m : table) (b : MutableBreakdown).

Lemma update_codes code f m : (∀ b, bk_currencyCode (f b) = bk_currencyCode b) →
  codes (update code f m) = if decide (code ∈ codes m) then codes m else codes m ++ [code].
Proof.
  intros Hf. unfold codes. induction m as [|b m IH]; cbn; [by rewrite Hf|].
  destruct (String.eqb_spec (bk_currencyCode b) code) as [<-|Hne]; cbn.
  - rewrite Hf, decide_True; [done|]. by left.
  - rewrite IH. repeat case_decide; try done.
    + match goal with H : ¬ _ |- _ => destruct H; by right end.
    + match goal with H : _ ∈ _ :: _ |- _ => apply elem_of_cons in H as [H|H]; [by destruct Hne|done] end.
Qed.

Lemma update_at code f m c : (∀ b, bk_currencyCode (f b) = bk_currencyCode b) →
  atCode (update code f m) c = if decide (c = code) then f (atCode m c) else atCode m c.
Proof.
  intros Hf. unfold atCode. induction m as [|b m IH]; cbn.
  - rewrite Hf. cbn. destruct (String.eqb_spec code c); case_decide; naive_solver.
  - destruct (String.eqb_spec (bk_currencyCode b) code) as [<-|Hne]; cbn.
    + rewrite Hf. destruct (String.eqb_spec (bk_currencyCode b) c); case_decide; naive_solver.
    + destruct (String.eqb_spec (bk_currencyCode b) c) as [<-|]; [by rewrite decide_False|]. apply IH.
Qed.

Lemma atCode_elem m b : NoDup (codes m) → b ∈ m → atCode m (bk_currencyCode b) = b.
Proof.
  unfold atCode, codes. induction m as [|x m IH]; cbn; intros Hn Hb; [by apply not_elem_of_nil in Hb|].
  apply NoDup_cons in Hn as [Hx Hn]. apply elem_of_cons in Hb as [<-|Hb]; [by rewrite String.eqb_refl|].
  destruct (String.eqb_spec (bk_currencyCode x) (bk_currencyCode b)) as [He|]; [|by apply IH].
  destruct Hx. rewrite He. by apply list_elem_of_fmap_2.
Qed.

(** *** Sums of breakdowns *)

Definition plus (a b : MutableBreakdown) : MutableBreakdown :=
  mkBreakdown (bk_currencyCode a) (bk_chargeCount a + bk_chargeCount b) (bk_grossVolume a + bk_grossVolume b)
    (bk_platformFee a + bk_platformFee b) (bk_providerFee a + bk_providerFee b) (bk_refundedAmount a + bk_refundedAmount b)
    (bk_chargebackCount a + bk_chargebackCount b) (bk_chargebackAmount a + bk_chargebackAmount b)
    (bk_splitProceeds a + bk_splitProceeds b) (bk_netSettlement a + bk_netSettlement b).

Definition total {A} (code : string) (d : A → MutableBreakdown) (l : list A) : MutableBreakdown :=
  foldr (λ x acc, plus acc (d x)) (fresh code) l.

Lemma breakdown_ext a b : bk_currencyCode a = bk_currencyCode b → bk_chargeCount a = bk_chargeCount b → bk_grossVolume a = bk_grossVolume b →
  bk_platformFee a = bk_platformFee b → bk_providerFee a = bk_providerFee b → bk_refundedAmount a = bk_refundedAmount b →
  bk_chargebackCount a = bk_chargebackCount b → bk_chargebackAmount a = bk_chargebackAmount b →
  bk_splitProceeds a = bk_splitProceeds b → bk_netSettlement a = bk_netSettlement b → a = b.
Proof. destruct a, b. cbn. congruence. Qed.

Ltac by_fields := apply breakdown_ext; cbn; try done; try lia.

Lemma plus_assoc a b c : plus (plus a b) c = plus a (plus b c).
Proof. by_fields. Qed.

Lemma plus_swap a b c : plus (plus a b) c = plus (plus a c) b.
Proof. by_fields. Qed.

Lemma plus_fresh a code : plus a (fresh code) = a.
Proof. by_fields. Qed.

Lemma plus_fresh_l a : plus (fresh (bk_currencyCode a)) a = a.
Proof. by_fields. Qed.

Lemma total_nil {A} code (d : A → MutableBreakdown) : total code d [] = fresh code.
Proof. done. Qed.

Lemma total_cons {A} code (d : A → MutableBreakdown) x l : total code d (x :: l) = plus (total code d l) (d x).
Proof. done. Qed.

Lemma total_code {A} code (d : A → MutableBreakdown) l : bk_currencyCode (total code d l) = code.
Proof. induction l; done. Qed.

Lemma total_app {A} code (d : A → MutableBreakdown) l1 l2 : total code d (l1 ++ l2) = plus (total code d l1) (total code d l2).
Proof.
  induction l1 as [|x l1 IH]; [|by rewrite <- app_comm_cons, !total_cons, IH, plus_swap].
  rewrite total_nil. rewrite <- (total_code code d l2) at 2. by rewrite plus_fresh_l.
Qed.

Lemma total_perm {A} code (d : A → MutableBreakdown) l1 l2 : l1 ≡ₚ l2 → total code d l1 = total code d l2.
Proof. induction 1; rewrite ?total_cons; [done|congruence|apply plus_swap|congruence]. Qed.

(** A total, field by field. *)
Lemma total_sum {A} (π : MutableBreakdown → Z) code (d : A → MutableBreakdown) l :
  (∀ a b, π (plus a b) = π a + π b) → (∀ code, π (fresh code) = 0) → π (total code d l) = sumZ (λ x, π (d x)) l.
Proof. intros Hp H0. induction l as [|x l IH]; [apply H0|]. rewrite total_cons, Hp, IH. cbn [sumZ]. lia. Qed.

(** A loop whose rounds each add something adds the total. *)
Lemma foldl_adds {A} (step : table → A → table) (d : A → MutableBreakdown) code l m :
  (∀ m x, x ∈ l → atCode (step m x) code = plus (atCode m code) (d x)) →
  atCode (foldl step m l) code = plus (atCode m code) (total code d l).
Proof.
  revert m. induction l as [|x l IH]; intros m Hs; [by rewrite total_nil, plus_fresh|]. cbn [foldl].
  rewrite IH by (intros; apply Hs; by right). rewrite (Hs m x (list_elem_of_here _ _)), total_cons, <- (plus_assoc (atCode m code)). apply plus_swap.
Qed.
End table.

(** ** What an event and a dispute contribute *)

(** The credit of a charge this merchant alone received. *)
Definition directCredit (merchantId : string) (ev : LedgerOutboxEvent.t) : option LedgerEntry :=
  let entries := LedgerOutboxEvent.entries ev in
  if includes CHARGE_EVENT_TYPES (LedgerOutboxEvent.eventType ev) && negb (isSplit entries)
  then List.find (λ e, bool_decide (entryType e = CREDIT)) (ownEntries merchantId entries) else None.

(** An amount, where the entry is in this currency. *)
Definition ifCode (code : string) (e : LedgerEntry) (n : Z) : Z := if decide (codeOf e = code) then n else 0.

(** This merchant's credits less its debits in one event. *)
Definition ownNet (merchantId code : string) (ev : LedgerOutboxEvent.t) : Z :=
  sumZ (λ e, ifCode code e (PayoutService.sign_of e * unitsOf e)) (ownEntries merchantId (LedgerOutboxEvent.entries ev)).

Definition ownDebits (merchantId code : string) (ev : LedgerOutboxEvent.t) : Z :=
  sumZ (λ e, match entryType e with DEBIT => ifCode code e (unitsOf e) | CREDIT => 0 end) (ownEntries merchantId (LedgerOutboxEvent.entries ev)).

Definition contribution (merchantId code : string) (ev : LedgerOutboxEvent.t) : MutableBreakdown :=
  let entries := LedgerOutboxEvent.entries ev in
  let charge := includes CHARGE_EVENT_TYPES (LedgerOutboxEvent.eventType ev) in
  let refund := includes REFUND_EVENT_TYPES (LedgerOutboxEvent.eventType ev) in
  let direct n := match directCredit merchantId ev with Some e => ifCode code e (n e) | None => 0 end in
  mkBreakdown code (direct (λ _, 1)) (direct (λ e, unitsOf e + feeOf FEE entries + feeOf BNPL_PROVIDER_FEE entries))
    (direct (λ _, feeOf FEE entries)) (direct (λ _, feeOf BNPL_PROVIDER_FEE entries))
    (if negb charge && refund then ownDebits merchantId code ev else 0) 0 0
    (if charge && isSplit entries then ownNet merchantId code ev else 0) (ownNet merchantId code ev).

Definition disputeCode (d : Dispute.t) : string := Currency.code (Money.currency (Dispute._amount d)).

Definition chargeback (code : string) (d : Dispute.t) : MutableBreakdown :=
  if decide (disputeCode d = code) then mkBreakdown code 0 0 0 0 0 1 (Money.amountMinorUnits (Dispute._amount d)) 0 0 else fresh code.

(** All events and disputes of a period. *)
Definition exact (merchantId code : string) (events : list LedgerOutboxEvent.t) (lost : list Dispute.t) : MutableBreakdown :=
  plus (total code (contribution merchantId code) events) (total code (chargeback code) lost).

Definition mentioned (merchantId code : string) (events : list LedgerOutboxEvent.t) (lost : list Dispute.t) : Prop :=
  (∃ ev e, ev ∈ events ∧ e ∈ ownEntries merchantId (LedgerOutboxEvent.entries ev) ∧ codeOf e = code)
  ∨ ∃ d, d ∈ lost ∧ disputeCode d = code.

Section tally.
Context (mid : string).
Implicit Types (m : table) (e : LedgerEntry) (ev : LedgerOutboxEvent.t).

Definition onlyNet code n : MutableBreakdown := (fresh code) {{ bk_netSettlement := n }}.
Definition onlySplit code n : MutableBreakdown := (fresh code) {{ bk_splitProceeds := n }}.
Definition onlyRefund code n : MutableBreakdown := (fresh code) {{ bk_refundedAmount := n }}.

Ltac by_fields := repeat match goal with |- context [atCode ?m ?c] => destruct (atCode m c) end; apply breakdown_ext; cbn; try done; try lia.

Lemma at_code m code : bk_currencyCode (atCode m code) = code.
Proof. unfold atCode. destruct (List.find _ m) as [b|] eqn:E; [|done]. by apply List.find_some in E as [_ ?%String.eqb_eq]. Qed.

Lemma addNet_at m e code : atCode (addNet m e) code = plus (atCode m code) (onlyNet code (ifCode code e (PayoutService.sign_of e * unitsOf e))).
Proof. unfold addNet, ifCode. rewrite update_at by done. repeat case_decide; try congruence; by_fields. Qed.

Lemma addSplit_at m e code : atCode (addSplit m e) code = plus (atCode m code) (onlySplit code (ifCode code e (PayoutService.sign_of e * unitsOf e))).
Proof. unfold addSplit, ifCode. rewrite update_at by done. repeat case_decide; try congruence; by_fields. Qed.

Lemma addRefund_at m e code :
  atCode (addRefund m e) code = plus (atCode m code) (onlyRefund code (match entryType e with DEBIT => ifCode code e (unitsOf e) | CREDIT => 0 end)).
Proof. unfold addRefund, ifCode. destruct (entryType e); [rewrite update_at by done|]; repeat case_decide; try congruence; by_fields. Qed.

Lemma total_onlyNet code f (l : list LedgerEntry) : total code (λ e, onlyNet code (f e)) l = onlyNet code (sumZ f l).
Proof. induction l as [|e l IH]; [done|]. rewrite total_cons, IH. by_fields. Qed.
Lemma total_onlySplit code f (l : list LedgerEntry) : total code (λ e, onlySplit code (f e)) l = onlySplit code (sumZ f l).
Proof. induction l as [|e l IH]; [done|]. rewrite total_cons, IH. by_fields. Qed.
Lemma total_onlyRefund code f (l : list LedgerEntry) : total code (λ e, onlyRefund code (f e)) l = onlyRefund code (sumZ f l).
Proof. induction l as [|e l IH]; [done|]. rewrite total_cons, IH. by_fields. Qed.

Lemma bucket_at m ev code : atCode (bucket mid m ev) code = plus (atCode m code) (contribution mid code ev).
Proof.
  unfold bucket, contribution, directCredit, ownNet, ownDebits. set (entries := LedgerOutboxEvent.entries ev). set (own := ownEntries mid entries).
  pose proof (foldl_adds addNet (λ e, onlyNet code (ifCode code e (PayoutService.sign_of e * unitsOf e))) code own m (λ m e _, addNet_at m e code)) as Hnet.
  rewrite total_onlyNet in Hnet. destruct own as [|e0 own0] eqn:Eown.
  - destruct (includes CHARGE_EVENT_TYPES _), (isSplit entries), (includes REFUND_EVENT_TYPES _); by_fields.
  - rewrite <- Eown in *. set (m1 := foldl addNet m own) in *. clearbody m1.
    destruct (includes CHARGE_EVENT_TYPES _); cbn [andb negb].
    + destruct (isSplit entries); cbn [andb negb].
      * rewrite (foldl_adds addSplit _ code own m1 (λ m e _, addSplit_at m e code)), total_onlySplit, Hnet. by_fields.
      * destruct (List.find _ own) as [e|]; [|rewrite Hnet; by_fields]. unfold addCharge. rewrite update_at by done. unfold ifCode at 1 2 3 4.
        repeat case_decide; try congruence; rewrite Hnet; by_fields.
    + destruct (includes REFUND_EVENT_TYPES _); [|rewrite Hnet; by_fields].
      rewrite (foldl_adds addRefund _ code own m1 (λ m e _, addRefund_at m e code)), total_onlyRefund, Hnet. by_fields.
Qed.

Lemma addDispute_at m d code : atCode (addDispute m d) code = plus (atCode m code) (chargeback code d).
Proof. unfold addDispute, chargeback, disputeCode. rewrite update_at by done. repeat case_decide; try congruence; by_fields. Qed.

Lemma tally_at events lost code : atCode (tally mid events lost) code = exact mid code events lost.
Proof.
  unfold tally, exact. rewrite (foldl_adds addDispute (chargeback code) code lost _ (λ m d _, addDispute_at m d code)).
  rewrite (foldl_adds (bucket mid) (contribution mid code) code events _ (λ m ev _, bucket_at m ev code)).
  change (atCode [] code) with (fresh code). rewrite <- (total_code code (contribution mid code) events) at 1. by rewrite plus_fresh_l.
Qed.

(** *** The currencies of a tally *)

(** The table after a step has the currencies it had and those of [T]. *)
Definition extends m m' (T : string → Prop) : Prop := NoDup (codes m) → NoDup (codes m') ∧ ∀ c, c ∈ codes m' ↔ c ∈ codes m ∨ T c.

Lemma update_extends code f m : (∀ b, bk_currencyCode (f b) = bk_currencyCode b) → extends m (update code f m) (λ c, c = code).
Proof.
  intros Hf Hn. rewrite update_codes by done. case_decide as Hc; [split; [done|]; intros c; split; [by left|intros [?| ->]; done]|].
  split; [apply NoDup_app; split_and!; [done|set_solver|apply NoDup_singleton]|]. intros c. rewrite elem_of_app, list_elem_of_singleton. done.
Qed.

Lemma extends_refl m (T : string → Prop) : (∀ c, ¬ T c) → extends m m T.
Proof. intros HT Hn. split; [done|]. intros c. specialize (HT c). tauto. Qed.

Lemma extends_iff m m' (T T' : string → Prop) : (∀ c, T c ↔ T' c) → extends m m' T → extends m m' T'.
Proof. intros HT Hm Hn. destruct (Hm Hn) as [H1 H2]. split; [done|]. intros c. by rewrite H2, HT. Qed.

Lemma extends_trans m1 m2 m3 (T T' T'' : string → Prop) : extends m1 m2 T → extends m2 m3 T' → (∀ c, T'' c ↔ T c ∨ T' c) → extends m1 m3 T''.
Proof.
  intros H1 H2 HT Hn. destruct (H1 Hn) as [Hn2 Hc2]. destruct (H2 Hn2) as [Hn3 Hc3]. split; [done|]. intros c. rewrite Hc3, Hc2, HT. tauto.
Qed.

Lemma foldl_extends {A} (step : table → A → table) (T : A → string → Prop) l m :
  (∀ m x, x ∈ l → extends m (step m x) (T x)) → extends m (foldl step m l) (λ c, ∃ x, x ∈ l ∧ T x c).
Proof.
  revert m. induction l as [|x l IH]; intros m Hs; [apply extends_refl; intros c (x & []%not_elem_of_nil & _)|].
  eapply (extends_trans m (step m x)); [apply Hs; left|apply IH; intros; apply Hs; by right|]. intros c. set_solver.
Qed.

Definition touches ev (c : string) : Prop := ∃ e, e ∈ ownEntries mid (LedgerOutboxEvent.entries ev) ∧ codeOf e = c.

Lemma bucket_extends m ev : extends m (bucket mid m ev) (touches ev).
Proof.
  unfold bucket, touches. set (entries := LedgerOutboxEvent.entries ev). set (own := ownEntries mid entries).
  destruct own as [|e0 own0] eqn:Eown; [apply extends_refl; intros c (e & []%not_elem_of_nil & _)|]. rewrite <- Eown.
  assert (extends m (foldl addNet m own) (λ c, ∃ e, e ∈ own ∧ codeOf e = c)) as Hnet.
  { eapply extends_iff; [|apply (foldl_extends addNet (λ e c, c = codeOf e)); intros; by apply update_extends]. intros c. cbn. naive_solver. }
  set (m1 := foldl addNet m own) in *. clearbody m1.
  destruct (includes CHARGE_EVENT_TYPES _); cbn [negb].
  - destruct (negb (isSplit entries)).
    + destruct (List.find _ own) as [e|] eqn:Ef; [|done]. apply List.find_some in Ef as [He%list_elem_of_In _].
      eapply extends_trans; [exact Hnet|by apply (update_extends (codeOf e))|]. intros c. cbn. naive_solver.
    + eapply extends_trans; [exact Hnet|apply (foldl_extends addSplit (λ e c, c = codeOf e)); intros; by apply update_extends|]. intros c. cbn. naive_solver.
  - destruct (includes REFUND_EVENT_TYPES _); [|done].
    eapply extends_trans; [exact Hnet|apply (foldl_extends addRefund (λ e c, entryType e = DEBIT ∧ c = codeOf e))|intros c; cbn; naive_solver].
    intros m2 e _. unfold addRefund. destruct (entryType e).
    + eapply extends_iff; [|by apply (update_extends (codeOf e))]. intros c. cbn. naive_solver.
    + apply extends_refl. naive_solver.
Qed.

Lemma tally_codes events lost : NoDup (codes (tally mid events lost)) ∧ ∀ c, c ∈ codes (tally mid events lost) ↔ mentioned mid c events lost.
Proof.
  assert (extends [] (tally mid events lost) (λ c, mentioned mid c events lost)) as H.
  { eapply extends_trans; [apply (foldl_extends (bucket mid) touches); intros; apply bucket_extends
                          |apply (foldl_extends addDispute (λ d c, c = disputeCode d)); intros; by apply update_extends|].
    intros c. unfold mentioned, touches. naive_solver. }
  destruct (H (NoDup_nil_2)) as [H1 H2]. split; [done|]. intros c. rewrite H2. cbn. split; [intros [[]%not_elem_of_nil|?]; done|by right].
Qed.
End tally.

(** ** Statements as money *)

Definition ledger_wf (events : list LedgerOutboxEvent.t) : Prop := ∀ ev, ev ∈ events → entries_wf (LedgerOutboxEvent.entries ev).
Definition disputes_wf (l : list Dispute.t) : Prop := ∀ d, d ∈ l → Money.wf (Dispute._amount d).

(** The numbers of a breakdown. *)
Definition numbers (b : StatementCurrencyBreakdown) : MutableBreakdown :=
  let units := Money.amountMinorUnits in
  mkBreakdown (sb_currencyCode b) (sb_chargeCount b) (units (sb_grossVolume b)) (units (sb_platformFee b)) (units (sb_providerFee b))
    (units (sb_refundedAmount b)) (sb_chargebackCount b) (units (sb_chargebackAmount b)) (sb_splitProceeds b) (sb_netSettlement b).

(** Amounts of one currency. *)
Definition in_currency (c : Currency.t) (m : Money.t) : Prop := Money.currency m = c ∧ 0 ≤ Money.amountMinorUnits m ∧ Money.fxSnapshot m = None.

Record breakdown_wf (b : StatementCurrencyBreakdown) : Prop := {
  bw_currency : ∃ c, Currency.wf c ∧ sb_currencyCode b = Currency.code c
    ∧ Forall (in_currency c) [sb_grossVolume b; sb_platformFee b; sb_providerFee b; sb_refundedAmount b; sb_chargebackAmount b] }.

(** A list of results. *)
Lemma mapM_ok {A B} (f : A → result B) (P : A → B → Prop) l :
  (∀ x, x ∈ l → ∃ y, f x = Ok y ∧ P x y) → ∃ ys, mapM f l = Ok ys ∧ Forall2 P l ys.
Proof.
  induction l as [|x l IH]; intros Hl; [by exists []|].
  destruct (Hl x ltac:(left)) as (y & Hy & HP). destruct IH as (ys & Hys & HF); [intros; apply Hl; by right|].
  exists (y :: ys). split; [|by constructor]. change ((y ← f x; ys ← mapM f l; mret (y :: ys)) = Ok (y :: ys)). by rewrite Hy; cbn; rewrite Hys.
Qed.

Definition nonneg (b : MutableBreakdown) : Prop :=
  0 ≤ bk_grossVolume b ∧ 0 ≤ bk_platformFee b ∧ 0 ≤ bk_providerFee b ∧ 0 ≤ bk_refundedAmount b ∧ 0 ≤ bk_chargebackAmount b.

Lemma plus_nonneg a b : nonneg a → nonneg b → nonneg (plus a b).
Proof. unfold nonneg. cbn. lia. Qed.

Lemma total_nonneg {A} code (d : A → MutableBreakdown) l : (∀ x, x ∈ l → nonneg (d x)) → nonneg (total code d l).
Proof.
  induction l as [|x l IH]; intros Hl; [by unfold nonneg; cbn; lia|]. rewrite total_cons. apply plus_nonneg; [apply IH; intros; apply Hl; by right|apply Hl; left].
Qed.

Lemma own_elem mid l e : e ∈ ownEntries mid l → e ∈ l ∧ accountType e = MERCHANT ∧ accountId e = mid.
Proof. intros [[??]?]%list_elem_of_filter. done. Qed.

Lemma feeOf_nonneg T l : entries_wf l → 0 ≤ feeOf T l.
Proof.
  intros Hl. unfold feeOf. destruct (List.find _ l) as [e|] eqn:E; [|lia]. apply List.find_some in E as [He%list_elem_of_In _].
  unfold entries_wf in Hl. rewrite Forall_forall in Hl. apply (Hl e He).
Qed.

Lemma direct_elem mid ev e : directCredit mid ev = Some e → e ∈ ownEntries mid (LedgerOutboxEvent.entries ev).
Proof. unfold directCredit. case_match; [|done]. intros [He _]%List.find_some. by apply list_elem_of_In. Qed.

Lemma ifCode_nonneg code e n : 0 ≤ n → 0 ≤ ifCode code e n.
Proof. unfold ifCode. case_decide; lia. Qed.

Lemma contribution_nonneg mid code ev : entries_wf (LedgerOutboxEvent.entries ev) → nonneg (contribution mid code ev).
Proof.
  intros Hwf. pose proof (feeOf_nonneg FEE _ Hwf). pose proof (feeOf_nonneg BNPL_PROVIDER_FEE _ Hwf).
  assert (∀ e, e ∈ ownEntries mid (LedgerOutboxEvent.entries ev) → 0 ≤ unitsOf e) as Hpos.
  { intros e [He _]%own_elem. unfold entries_wf in Hwf. rewrite Forall_forall in Hwf. apply (Hwf e He). }
  unfold contribution, nonneg. cbn [bk_grossVolume bk_platformFee bk_providerFee bk_refundedAmount bk_chargebackAmount].
  split_and!; [..|lia].
  1-3: destruct (directCredit mid ev) as [e|] eqn:E; [|lia]; apply direct_elem, Hpos in E; apply ifCode_nonneg; lia.
  case_match; [|lia]. apply sumZ_nonneg. intros e He%list_elem_of_In%Hpos. destruct (entryType e); [by apply ifCode_nonneg|lia].
Qed.

Lemma chargeback_nonneg code d : Money.wf (Dispute._amount d) → nonneg (chargeback code d).
Proof. intros [Hd _]. unfold chargeback, nonneg. case_decide; cbn; lia. Qed.

Lemma exact_nonneg mid code events lost : ledger_wf events → disputes_wf lost → nonneg (exact mid code events lost).
Proof. intros He Hd. apply plus_nonneg; apply total_nonneg; intros; [by apply contribution_nonneg, He|by apply chargeback_nonneg, Hd]. Qed.

Lemma mentioned_currency mid code events lost : ledger_wf events → disputes_wf lost → mentioned mid code events lost → ∃ c, Currency.wf c ∧ code = Currency.code c.
Proof.
  intros He Hd [(ev & e & Hev & [Hin _]%own_elem & <-)|(d & Hin & <-)].
  - specialize (He ev Hev). unfold entries_wf in He. rewrite Forall_forall in He. destruct (He e Hin) as [_ Hc]. by eexists.
  - destruct (Hd d Hin) as [_ Hc]. by eexists.
Qed.

Lemma toStatement_ok b c : Currency.wf c → bk_currencyCode b = Currency.code c → nonneg b →
  ∃ sb, toStatement b = Ok sb ∧ numbers sb = b ∧ breakdown_wf sb.
Proof.
  intros Hc Hcode (H1 & H2 & H3 & H4 & H5). unfold toStatement. rewrite Hcode, !fromMinorUnits_wf_code by done. cbn [mbind result_bind].
  eexists. split; [reflexivity|]. split; [by destruct b; cbn in Hcode |- *; rewrite Hcode|].
  split. exists c. split; [done|]. split; [done|]. repeat constructor; done.
Qed.

Lemma breakdowns_ok mid events lost : ledger_wf events → disputes_wf lost →
  ∃ bs, breakdownsOf mid events lost = Ok bs ∧ numbers <$> bs = tally mid events lost ∧ Forall breakdown_wf bs.
Proof.
  intros He Hd. destruct (tally_codes mid events lost) as [Hn Hc].
  destruct (mapM_ok toStatement (λ b sb, numbers sb = b ∧ breakdown_wf sb) (tally mid events lost)) as (bs & Hbs & HF).
  - intros b Hb. assert (bk_currencyCode b ∈ codes (tally mid events lost)) as Hcode by by apply list_elem_of_fmap_2.
    destruct (mentioned_currency mid (bk_currencyCode b) events lost) as (c & Hwf & Hb'); [done|done|by apply Hc|].
    destruct (toStatement_ok b c) as (sb & ? & ? & ?); [done|done| |by exists sb].
    rewrite <- (atCode_elem _ _ Hn Hb), tally_at. by apply exact_nonneg.
  - exists bs. split; [exact Hbs|]. clear -HF. induction HF as [|b sb l bs [H1 H2] HF [IH1 IH2]]; [done|]. cbn. by rewrite H1, IH1; split; [|constructor].
Qed.

(** ** The ledger behind the net settlement *)

Lemma exact_net mid code events lost : bk_netSettlement (exact mid code events lost) = account_net mid code events.
Proof.
  unfold exact. cbn [plus bk_netSettlement]. rewrite !(total_sum bk_netSettlement) by done.
  rewrite (sumZ_zero _ lost) by (intros d _; unfold chargeback; by case_decide). rewrite Z.add_0_r. unfold account_net, PayoutService.merchantEntries.
  induction events as [|ev events IH]; [done|]. cbn [sumZ]. rewrite IH. cbn [fmap list_fmap concat]. rewrite filter_app, sumZ_app. f_equal.
  change (bk_netSettlement (contribution mid code ev)) with (ownNet mid code ev). unfold ownNet, ownEntries. rewrite !sumZ_filter.
  apply sumZ_ext. intros e _. unfold entry_net, ifCode. change (codeOf e) with (entry_code e). repeat case_decide; try tauto.
Qed.

Lemma account_net_perm mid code l1 l2 : l1 ≡ₚ l2 → account_net mid code l1 = account_net mid code l2.
Proof.
  intros H. unfold account_net, PayoutService.merchantEntries. rewrite !sumZ_filter. apply sumZ_Permutation.
  induction H as [|x l l' _ IH|x y l|? ? ? _ IH1 _ IH2]; cbn; [done|by rewrite IH| |by rewrite IH1].
  rewrite !app_assoc. apply Permutation_app; [apply Permutation_app_comm|done].
Qed.

(** Every balance comes from an entry. *)
Lemma balance_origin l m : (foldl PayoutService.addEntry m l).*1 ⊆ m.*1 ++ (PayoutService.balance_key <$> l).
Proof.
  revert m. induction l as [|e l IH]; intros m; cbn [foldl]; [by rewrite app_nil_r|]. rewrite IH, addEntry_keys, fmap_cons. case_decide; set_solver.
Qed.

Definition own_activity (mid code : string) (events : list LedgerOutboxEvent.t) : Prop :=
  ∃ ev e, ev ∈ events ∧ e ∈ ownEntries mid (LedgerOutboxEvent.entries ev) ∧ codeOf e = code.

Lemma ledger_elem e (events : list LedgerOutboxEvent.t) :
  e ∈ concat (LedgerOutboxEvent.entries <$> events) ↔ ∃ ev, ev ∈ events ∧ e ∈ LedgerOutboxEvent.entries ev.
Proof. induction events as [|ev l IH]; cbn; [set_solver|]. rewrite elem_of_app, IH. set_solver. Qed.

Lemma own_activity_entries mid code events :
  own_activity mid code events ↔ ∃ e, e ∈ PayoutService.merchantEntries events ∧ accountId e = mid ∧ entry_code e = code.
Proof.
  unfold own_activity, PayoutService.merchantEntries, ownEntries. setoid_rewrite list_elem_of_filter. setoid_rewrite ledger_elem.
  change codeOf with entry_code. naive_solver.
Qed.

Lemma ledger_merchant_wf events : ledger_wf events → entries_wf (PayoutService.merchantEntries events).
Proof.
  intros H. apply Forall_forall. intros e [_ (ev & Hev & Hin)%ledger_elem]%list_elem_of_filter. specialize (H ev Hev). unfold entries_wf in H. rewrite Forall_forall in H. by apply H.
Qed.

(** The payouts' balances of one merchant. *)
Lemma balance_spec mid code n events : ledger_wf events → (∃ c, Currency.wf c ∧ code = Currency.code c) →
  PayoutService.mkBalance mid code n ∈ PayoutService.netByAccount events ↔ own_activity mid code events ∧ n = account_net mid code events.
Proof.
  intros Hwf (c & Hc & Hcode). pose proof (ledger_merchant_wf _ Hwf) as Hm. pose proof (netByAccount_nets events Hm) as [Hnd Hkey Hnet Hall]. rewrite own_activity_entries.
  unfold PayoutService.netByAccount. set (m := foldl _ _ _) in *. assert (String.length code = 3%nat) as Hlen by by rewrite Hcode; apply wf_code_length.
  split.
  - intros ([k b] & Hb & Hin)%list_elem_of_fmap. cbn in Hb. subst b. split; [|exact (Hnet k _ Hin)]. destruct (Hkey _ _ Hin) as [-> _]. cbn in Hin.
    apply (list_elem_of_fmap_2 fst) in Hin. apply balance_origin in Hin. cbn [app fmap list_fmap] in Hin. apply list_elem_of_fmap in Hin as (e & He & Hein).
    exists e. split; [done|]. apply balance_key_inj; [|done|by rewrite <- He]. unfold entries_wf in Hm. rewrite Forall_forall in Hm. by apply Hm.
  - intros [(e & He & <- & <-) ->]. specialize (Hall e He) as Hk. apply list_elem_of_fmap in Hk as ([k b] & Hk & Hin). cbn in Hk. subst k.
    apply list_elem_of_fmap. exists (PayoutService.balance_key e, b). split; [|done]. cbn. destruct (Hkey _ _ Hin) as [Hk (c' & Hc' & Hb)].
    destruct (balance_key_inj (PayoutService.bl_merchantId b) (PayoutService.bl_currencyCode b) e) as [E1 E2]; [|by rewrite Hb; apply wf_code_length|done|].
    { unfold entries_wf in Hm. rewrite Forall_forall in Hm. by apply Hm. }
    pose proof (Hnet _ _ Hin) as Hn. rewrite <- E1, <- E2 in Hn. unfold account_net. rewrite <- Hn. destruct b as [bm bc bn]. cbn in E1, E2 |- *. by rewrite E1, E2.
Qed.

(** C36: statements reconcile with payouts: over the same window, the balance the payout
    sweep computes for a merchant in a currency is exactly the net settlement of the
    merchant's statement in that currency, and every currency the merchant has ledger
    activity in has one. *)
Theorem net_settlement_reconciles (mid : string) (since until : Date) (ledger : list LedgerOutboxEvent.t) (lost : list Dispute.t)
    (bs : list StatementCurrencyBreakdown) :
  ledger_wf ledger → disputes_wf lost → breakdownsOf mid (findCreatedBetween since until ledger) lost = Ok bs →
  ∀ code n, PayoutService.mkBalance mid code n ∈ PayoutService.netByAccount (PayoutService.findCreatedBetween since until ledger)
    ↔ own_activity mid code (PayoutService.findCreatedBetween since until ledger)
      ∧ ∃ b, b ∈ bs ∧ sb_currencyCode b = code ∧ sb_netSettlement b = n.
Proof.
  intros Hl Hd Hbs code n. set (window := PayoutService.findCreatedBetween since until ledger).
  assert (window ≡ₚ findCreatedBetween since until ledger) as Hp by (symmetry; apply orderBy_perm).
  assert (ledger_wf window) as Hw by (intros ev [_ Hev]%list_elem_of_filter; by apply Hl).
  assert (ledger_wf (findCreatedBetween since until ledger)) as Hw' by (intros ev Hev; apply Hw; by rewrite Hp).
  destruct (breakdowns_ok mid _ lost Hw' Hd) as (bs' & Hbs' & Hn & Hwf). rewrite Hbs in Hbs'. injection Hbs' as <-.
  destruct (tally_codes mid (findCreatedBetween since until ledger) lost) as [Hnd Hc].
  assert (∀ b, b ∈ bs → sb_netSettlement b = account_net mid (sb_currencyCode b) window) as Hnet.
  { intros b Hb. rewrite (account_net_perm mid _ _ _ Hp), <- (exact_net mid _ _ lost), <- tally_at.
    change (sb_currencyCode b) with (bk_currencyCode (numbers b)). rewrite atCode_elem; [done|done|]. rewrite <- Hn. by apply list_elem_of_fmap_2. }
  assert (own_activity mid code window → code ∈ sb_currencyCode <$> bs) as Hact.
  { intros (ev & e & Hev & Hrest). assert (code ∈ codes (tally mid (findCreatedBetween since until ledger) lost)) as Hin
      by (apply Hc; left; exists ev, e; by rewrite <- Hp). rewrite <- Hn in Hin. unfold codes in Hin. by rewrite <- list_fmap_compose in Hin. }
  split.
  - intros Hin. assert (∃ c, Currency.wf c ∧ code = Currency.code c) as Hcur.
    { pose proof (netByAccount_nets _ (ledger_merchant_wf _ Hw)) as [_ Hkey _ _]. apply list_elem_of_fmap in Hin as ([k b] & Hb & Hin). cbn in Hb. subst b. by apply (Hkey k _ Hin). }
    apply balance_spec in Hin as [Ha ->]; [|done|done]. split; [done|]. apply Hact, list_elem_of_fmap in Ha as (b & -> & Hb). exists b. split_and!; [done|done|]. by apply Hnet.
  - intros [Ha (b & Hb & <- & <-)]. apply balance_spec; [done| |by split; [|apply Hnet]]. rewrite Forall_forall in Hwf. destruct (Hwf b Hb) as [(c & Hc' & Hb' & _)]. by exists c.
Qed.

(** ** Adjacent periods *)

Lemma window_split {A} (time : A → Date) (Q : A → Prop) `{∀ x, Decision (Q x)} a b c (l : list A) : a ≤ b ≤ c →
  filter (λ x, Q x ∧ a ≤ time x < c) l ≡ₚ filter (λ x, Q x ∧ a ≤ time x < b) l ++ filter (λ x, Q x ∧ b ≤ time x < c) l.
Proof.
  intros Hle. induction l as [|x l IH]; [done|]. rewrite !filter_cons. repeat case_decide; try (exfalso; destruct (Z.lt_ge_cases (time x) b); naive_solver lia).
  - by rewrite IH.
  - rewrite IH. by apply Permutation_middle.
  - done.
Qed.

Lemma findCreatedBetween_split a b c ledger : a ≤ b ≤ c →
  findCreatedBetween a c ledger ≡ₚ findCreatedBetween a b ledger ++ findCreatedBetween b c ledger.
Proof.
  intros Hle. unfold findCreatedBetween. rewrite !orderBy_perm. unfold PayoutService.findCreatedBetween.
  pose proof (window_split LedgerOutboxEvent.createdAt (λ _, True) a b c ledger Hle) as H.
  assert (∀ a c, filter (λ ev, True ∧ a ≤ LedgerOutboxEvent.createdAt ev < c) ledger = filter (λ ev, a ≤ LedgerOutboxEvent.createdAt ev < c) ledger) as E
    by (intros; apply list_filter_iff; tauto). by rewrite !E in H.
Qed.

Lemma disputes_split mid status a b c l : a ≤ b ≤ c →
  findByMerchantStatusInRange mid status a c l ≡ₚ findByMerchantStatusInRange mid status a b l ++ findByMerchantStatusInRange mid status b c l.
Proof.
  intros Hle. unfold findByMerchantStatusInRange.
  pose proof (window_split Dispute._createdAt (λ d, Dispute._merchantId d = mid ∧ Dispute._status d = status) a b c l Hle) as H.
  assert (∀ a c, filter (λ d, (Dispute._merchantId d = mid ∧ Dispute._status d = status) ∧ a ≤ Dispute._createdAt d < c) l
                 = filter (λ d, Dispute._merchantId d = mid ∧ Dispute._status d = status ∧ a ≤ Dispute._createdAt d < c) l) as E
    by (intros; apply list_filter_iff; tauto). by rewrite !E in H.
Qed.

(** What is in the tables for a merchant and a period. *)
Definition exactPeriod (mid code : string) (since until : Date) (ledger : list LedgerOutboxEvent.t) (disputes : list Dispute.t) : MutableBreakdown :=
  exact mid code (findCreatedBetween since until ledger) (findByMerchantStatusInRange mid (RESOLVED LOST) since until disputes).

Lemma exactPeriod_split mid code a b c ledger disputes : a ≤ b ≤ c →
  exactPeriod mid code a c ledger disputes = plus (exactPeriod mid code a b ledger disputes) (exactPeriod mid code b c ledger disputes).
Proof.
  intros Hle. unfold exactPeriod, exact. rewrite (total_perm _ _ _ _ (findCreatedBetween_split a b c ledger Hle)).
  rewrite (total_perm _ _ _ _ (disputes_split mid (RESOLVED LOST) a b c disputes Hle)). rewrite !total_app, <- !plus_assoc. f_equal. by rewrite plus_swap.
Qed.

(** What a statement says in a currency, zero where it has no breakdown. *)
Definition stated (bs : list StatementCurrencyBreakdown) (code : string) : MutableBreakdown := atCode (numbers <$> bs) code.

Definition breakdownsBetween (mid : string) (since until : Date) (ledger : list LedgerOutboxEvent.t) (disputes : list Dispute.t)
    : result (list StatementCurrencyBreakdown) :=
  breakdownsOf mid (findCreatedBetween since until ledger) (findByMerchantStatusInRange mid (RESOLVED LOST) since until disputes).

Lemma findCreatedBetween_wf a b ledger : ledger_wf ledger → ledger_wf (findCreatedBetween a b ledger).
Proof. intros Hl ev [_ Hev]%orderBy_elem%list_elem_of_filter. by apply Hl. Qed.

Lemma disputes_range_wf mid status a b l : disputes_wf l → disputes_wf (findByMerchantStatusInRange mid status a b l).
Proof. intros Hl d [_ Hd]%list_elem_of_filter. by apply Hl. Qed.

Lemma breakdownsBetween_ok mid a b ledger disputes : ledger_wf ledger → disputes_wf disputes →
  ∃ bs, breakdownsBetween mid a b ledger disputes = Ok bs ∧ Forall breakdown_wf bs ∧ NoDup (sb_currencyCode <$> bs)
    ∧ (∀ code, stated bs code = exactPeriod mid code a b ledger disputes)
    ∧ ∀ b', b' ∈ bs → stated bs (sb_currencyCode b') = numbers b'.
Proof.
  intros Hl Hd. destruct (breakdowns_ok mid (findCreatedBetween a b ledger) (findByMerchantStatusInRange mid (RESOLVED LOST) a b disputes)) as (bs & Hbs & Hn & Hwf);
    [by apply findCreatedBetween_wf|by apply disputes_range_wf|]. exists bs.
  destruct (tally_codes mid (findCreatedBetween a b ledger) (findByMerchantStatusInRange mid (RESOLVED LOST) a b disputes)) as [Hnd _].
  assert (sb_currencyCode <$> bs = codes (numbers <$> bs)) as Hc by (unfold codes; by rewrite <- list_fmap_compose). rewrite <- Hn in Hnd.
  split_and!; [done|done|by rewrite Hc|intros code; unfold stated; rewrite Hn; apply tally_at|].
  intros b' Hb'. change (sb_currencyCode b') with (bk_currencyCode (numbers b')). apply atCode_elem; [done|by apply list_elem_of_fmap_2].
Qed.

(** Statements add up: over the same ledger and disputes, the statement of a period
    says in every currency and every number the sum of what the statements of its two
    parts say. *)
Theorem adjacent_periods_add_up (mid : string) (a b c : Date) (ledger : list LedgerOutboxEvent.t) (disputes : list Dispute.t) :
  a ≤ b ≤ c → ledger_wf ledger → disputes_wf disputes →
  ∃ whole part1 part2, breakdownsBetween mid a c ledger disputes = Ok whole
    ∧ breakdownsBetween mid a b ledger disputes = Ok part1 ∧ breakdownsBetween mid b c ledger disputes = Ok part2
    ∧ ∀ code, stated whole code = plus (stated part1 code) (stated part2 code).
Proof.
  intros Hle Hl Hd. destruct (breakdownsBetween_ok mid a c ledger disputes Hl Hd) as (w & Hw & _ & _ & Ew & _).
  destruct (breakdownsBetween_ok mid a b ledger disputes Hl Hd) as (p1 & H1 & _ & _ & E1 & _).
  destruct (breakdownsBetween_ok mid b c ledger disputes Hl Hd) as (p2 & H2 & _ & _ & E2 & _).
  exists w, p1, p2. split_and!; [done..|]. intros code. rewrite Ew, E1, E2. by apply exactPeriod_split.
Qed.

(** ** What was done for a merchant *)

(** Ordinary business: a card charge and a buy-now-pay-later order, with their fees, and
    their refunds. A charge that is split, converted or partly held back is not. *)
Inductive dealing :=
  | SOLD (amount platformFee : Money.t)
  | SOLD_LATER (amount platformFee providerFee : Money.t)
  | RETURNED (amount : Money.t)
  | RETURNED_LATER (amount : Money.t).

Record deal := mkDeal { dl_merchant : string; dl_at : Date; dl_what : dealing }.

(** The event the deal is booked with. *)
Definition booking (d : deal) (id subject : string) : result LedgerOutboxEvent.t :=
  match dl_what d with
  | SOLD m fee => LedgerOutboxEvent.createChargeEntries (dl_at d) (mkChargeEntriesParams id subject (dl_merchant d) m fee None None None)
  | SOLD_LATER m fee providerFee => LedgerOutboxEvent.createBnplCaptureEntries (dl_at d) id subject (dl_merchant d) m fee providerFee
  | RETURNED m => LedgerOutboxEvent.createRefundEntries (dl_at d) (mkRefundEntriesParams id subject (dl_merchant d) m None None None)
  | RETURNED_LATER m => LedgerOutboxEvent.createBnplRefundEntries (dl_at d) id subject (dl_merchant d) m
  end.

(** The merchant gets something from a card charge: nothing is credited otherwise. *)
Definition pays (d : deal) : Prop :=
  match dl_what d with SOLD m fee => Money.amountMinorUnits fee < Money.amountMinorUnits m | _ => True end.

(** The row of the deal, whether it is published already or not; and a row that has
    nothing to do with the merchant. *)
Definition rowOf (mid : string) (ev : LedgerOutboxEvent.t) (o : option deal) : Prop :=
  match o with
  | Some d => pays d ∧ ∃ id subject ev0, booking d id subject = Ok ev0 ∧ LedgerOutboxEvent.entries ev = LedgerOutboxEvent.entries ev0
      ∧ LedgerOutboxEvent.eventType ev = LedgerOutboxEvent.eventType ev0 ∧ LedgerOutboxEvent.createdAt ev = dl_at d
  | None => ∀ e, e ∈ LedgerOutboxEvent.entries ev → accountType e = MERCHANT → accountId e ≠ mid
  end.

Definition inCode (code : string) (m : Money.t) : Z := if decide (LedgerOutboxEvent.code_of m = code) then Money.amountMinorUnits m else 0.

Definition sold (code : string) (d : deal) : Z := match dl_what d with SOLD m _ | SOLD_LATER m _ _ => inCode code m | _ => 0 end.
Definition sales (code : string) (d : deal) : Z :=
  match dl_what d with SOLD m _ | SOLD_LATER m _ _ => if decide (LedgerOutboxEvent.code_of m = code) then 1 else 0 | _ => 0 end.
Definition platformFees (code : string) (d : deal) : Z := match dl_what d with SOLD _ fee | SOLD_LATER _ fee _ => inCode code fee | _ => 0 end.
Definition providerFees (code : string) (d : deal) : Z := match dl_what d with SOLD_LATER _ _ fee => inCode code fee | _ => 0 end.
Definition returned (code : string) (d : deal) : Z := match dl_what d with RETURNED m | RETURNED_LATER m => inCode code m | _ => 0 end.

(** What the statement of a period has to say in a currency: the deals and the lost
    disputes of the merchant, by the time they were booked and opened. *)
Definition expected (mid code : string) (since until : Date) (deals : list (option deal)) (disputes : list Dispute.t) : MutableBreakdown :=
  let l := filter (λ d, dl_merchant d = mid ∧ since ≤ dl_at d < until) (omap id deals) in
  let lost := filter (λ d, Dispute._merchantId d = mid ∧ Dispute._status d = RESOLVED LOST ∧ since ≤ Dispute._createdAt d < until
                           ∧ LedgerOutboxEvent.code_of (Dispute._amount d) = code) disputes in
  mkBreakdown code (sumZ (sales code) l) (sumZ (sold code) l) (sumZ (platformFees code) l) (sumZ (providerFees code) l) (sumZ (returned code) l)
    (Z.of_nat (length lost)) (sumZ (λ d, Money.amountMinorUnits (Dispute._amount d)) lost) 0
    (sumZ (sold code) l - sumZ (platformFees code) l - sumZ (providerFees code) l - sumZ (returned code) l).

(** What one row contributes. *)
Definition effect (mid code : string) (o : option deal) : MutableBreakdown :=
  match o with
  | Some d =>
      if decide (dl_merchant d = mid) then
        mkBreakdown code (sales code d) (sold code d) (platformFees code d) (providerFees code d) (returned code d) 0 0 0
          (sold code d - platformFees code d - providerFees code d - returned code d)
      else fresh code
  | None => fresh code
  end.

(** *** What the rows contribute *)

Lemma contribution_none mid code ev : ownEntries mid (LedgerOutboxEvent.entries ev) = [] → contribution mid code ev = fresh code.
Proof. intros H. unfold contribution, directCredit, ownNet, ownDebits. rewrite H. cbn. repeat case_match; done. Qed.

Lemma own_none mid entries : (∀ e, e ∈ entries → accountType e = MERCHANT → accountId e ≠ mid) → ownEntries mid entries = [].
Proof.
  intros H. unfold ownEntries. induction entries as [|e l IH]; [done|]. rewrite filter_cons, decide_False.
  - apply IH. intros x Hx. apply H. by right.
  - intros [Ht Hm]. exact (H e (list_elem_of_here _ _) Ht Hm).
Qed.

(** A booked deal, by its entries. *)
Lemma sold_entries d m fee id subject ev : dl_what d = SOLD m fee → pays d → booking d id subject = Ok ev →
  Money.same m fee ∧ LedgerOutboxEvent.eventType ev = "PAYMENT_CHARGED"%string ∧ ∃ t1 t2 t3, LedgerOutboxEvent.entries ev =
    [mkLedgerEntry "PSP_SETTLEMENT_ACCOUNT" PSP_SETTLEMENT DEBIT m t1; mkLedgerEntry "PLATFORM_FEE_ACCOUNT" FEE CREDIT fee t2;
     mkLedgerEntry (dl_merchant d) MERCHANT CREDIT (Money.mk (Money.amountMinorUnits m - Money.amountMinorUnits fee) (Money.currency m) None) t3].
Proof.
  unfold booking, pays. intros -> Hlt. unfold LedgerOutboxEvent.createChargeEntries. cbn [ch_amount ch_platformFee ch_reserveHold ch_splits nullish].
  intros (n & (Hs & _ & ->)%subtract_ok & H)%bind_ok_iff. cbn in H. unfold LedgerOutboxEvent.remainderEntries, Money.isZero in H. cbn in H.
  destruct (Z.eqb_spec (Money.amountMinorUnits m - Money.amountMinorUnits fee) 0); [lia|].
  apply bind_ok_iff in H as (u & _ & [= <-]). split; [done|]. split; [done|]. by eexists _, _, _.
Qed.

Lemma sold_later_entries d m fee pfee id subject ev : dl_what d = SOLD_LATER m fee pfee → booking d id subject = Ok ev →
  Money.same m fee ∧ Money.same m pfee ∧ LedgerOutboxEvent.eventType ev = "BNPL_CAPTURED"%string ∧ ∃ t1 t2 t3 t4, LedgerOutboxEvent.entries ev =
    [mkLedgerEntry "BNPL_SETTLEMENT_ACCOUNT" BNPL_SETTLEMENT DEBIT m t1; mkLedgerEntry "PLATFORM_FEE_ACCOUNT" FEE CREDIT fee t2;
     mkLedgerEntry "KLARNA_FEE_ACCOUNT" BNPL_PROVIDER_FEE CREDIT pfee t3;
     mkLedgerEntry (dl_merchant d) MERCHANT CREDIT
       (Money.mk (Money.amountMinorUnits m - Money.amountMinorUnits fee - Money.amountMinorUnits pfee) (Money.currency m) None) t4].
Proof.
  unfold booking. intros ->. unfold LedgerOutboxEvent.createBnplCaptureEntries.
  intros (n & (Hs & _ & ->)%subtract_ok & (n' & (Hs' & _ & ->)%subtract_ok & H)%bind_ok_iff)%bind_ok_iff.
  apply bind_ok_iff in H as (u & _ & [= <-]). split_and!; [done|done|done|]. by eexists _, _, _, _.
Qed.

Lemma returned_entries d m id subject ev : dl_what d = RETURNED m → Currency.wf (Money.currency m) → booking d id subject = Ok ev →
  LedgerOutboxEvent.eventType ev = "PAYMENT_REFUNDED"%string ∧ ∃ t1 l, LedgerOutboxEvent.entries ev =
    mkLedgerEntry "PSP_SETTLEMENT_ACCOUNT" PSP_SETTLEMENT CREDIT m t1 :: l
    ∧ (l = [] ∧ Money.amountMinorUnits m ≤ 0
       ∨ ∃ t2, l = [mkLedgerEntry (dl_merchant d) MERCHANT DEBIT (Money.mk (Money.amountMinorUnits m) (Money.currency m) None) t2]).
Proof.
  unfold booking. intros -> Hc. unfold LedgerOutboxEvent.createRefundEntries. cbn [re_splits re_refundAmount re_settlementConversion mbind result_bind].
  destruct (Z.ltb_spec 0 (Money.amountMinorUnits m)).
  - unfold LedgerOutboxEvent.code_of. rewrite fromMinorUnits_wf_code by (done || lia). cbn.
    intros (u & _ & [= <-])%bind_ok_iff. split; [done|]. eexists _, _. split; [done|]. right. by eexists.
  - cbn. intros (u & _ & [= <-])%bind_ok_iff. split; [done|]. eexists _, _. split; [done|]. by left.
Qed.

Lemma booking_refund_first d m id subject ev : dl_what d = RETURNED m → booking d id subject = Ok ev →
  ∃ e, e ∈ LedgerOutboxEvent.entries ev ∧ amount e = m.
Proof.
  unfold booking. intros ->. unfold LedgerOutboxEvent.createRefundEntries. cbn.
  intros (l & Hl & (u & _ & [= <-])%bind_ok_iff)%bind_ok_iff. cbn.
  destruct (0 <? _); [apply bind_ok_iff in Hl as (? & _ & [= <-])|injection Hl as <-]; eexists; (split; [left|done]).
Qed.

Lemma returned_later_entries d m id subject ev : dl_what d = RETURNED_LATER m → booking d id subject = Ok ev →
  LedgerOutboxEvent.eventType ev = "BNPL_REFUNDED"%string ∧ ∃ t1 t2, LedgerOutboxEvent.entries ev =
    [mkLedgerEntry "BNPL_SETTLEMENT_ACCOUNT" BNPL_SETTLEMENT CREDIT m t1; mkLedgerEntry (dl_merchant d) MERCHANT DEBIT m t2].
Proof. unfold booking. intros -> (u & _ & [= <-])%bind_ok_iff. split; [done|]. by eexists _, _. Qed.

(** The merchant's own entries among entries of several accounts. *)
Lemma own_skip mid e l : accountType e ≠ MERCHANT → ownEntries mid (e :: l) = ownEntries mid l.
Proof. intros He. unfold ownEntries. by rewrite filter_cons, decide_False by by intros [? _]. Qed.

Lemma own_last mid x t m' text : ownEntries mid [mkLedgerEntry x MERCHANT t m' text] = if decide (x = mid) then [mkLedgerEntry x MERCHANT t m' text] else [].
Proof. unfold ownEntries. rewrite filter_cons, filter_nil. repeat case_decide; naive_solver. Qed.

Lemma contribution_charge mid code ev x e fee pfee : includes CHARGE_EVENT_TYPES (LedgerOutboxEvent.eventType ev) = true →
  isSplit (LedgerOutboxEvent.entries ev) = false → feeOf FEE (LedgerOutboxEvent.entries ev) = fee → feeOf BNPL_PROVIDER_FEE (LedgerOutboxEvent.entries ev) = pfee →
  ownEntries mid (LedgerOutboxEvent.entries ev) = (if decide (x = mid) then [e] else []) → entryType e = CREDIT →
  contribution mid code ev = if decide (x = mid) then
    mkBreakdown code (ifCode code e 1) (ifCode code e (unitsOf e + fee + pfee)) (ifCode code e fee) (ifCode code e pfee) 0 0 0 0 (ifCode code e (unitsOf e))
    else fresh code.
Proof.
  intros Ht Hs <- <- Ho Hc. case_decide as Hx; [|by apply contribution_none]. unfold contribution, directCredit, ownNet, ownDebits.
  rewrite Ht, Hs, Ho. cbn [andb negb List.find sumZ]. rewrite bool_decide_eq_true_2 by done. apply breakdown_ext; try done.
  cbn. unfold PayoutService.sign_of, ifCode. rewrite Hc. case_decide; lia.
Qed.

Lemma contribution_refund mid code ev x e : includes CHARGE_EVENT_TYPES (LedgerOutboxEvent.eventType ev) = false →
  includes REFUND_EVENT_TYPES (LedgerOutboxEvent.eventType ev) = true →
  ownEntries mid (LedgerOutboxEvent.entries ev) = (if decide (x = mid) then [e] else []) → entryType e = DEBIT →
  contribution mid code ev = if decide (x = mid) then
    mkBreakdown code 0 0 0 0 (ifCode code e (unitsOf e)) 0 0 0 (- ifCode code e (unitsOf e)) else fresh code.
Proof.
  intros Ht Hr Ho Hc. case_decide as Hx; [|by apply contribution_none]. unfold contribution, directCredit, ownNet, ownDebits.
  rewrite Ht, Hr, Ho. cbn [andb negb List.find sumZ]. rewrite Hc. apply breakdown_ext; try done; cbn; [lia|].
  unfold PayoutService.sign_of, ifCode. rewrite Hc. case_decide; lia.
Qed.

Lemma contribution_effect mid code ev o : rowOf mid ev o → entries_wf (LedgerOutboxEvent.entries ev) → contribution mid code ev = effect mid code o.
Proof.
  destruct o as [d|]; [|by intros H _; apply contribution_none, own_none].
  intros (Hp & id & subject & ev0 & Hb & He & Ht & _) Hwf. unfold effect, sold, sales, platformFees, providerFees, returned, inCode.
  destruct (dl_what d) as [m fee|m fee pfee|m|m] eqn:Ew.
  - destruct (sold_entries d m fee _ _ _ Ew Hp Hb) as (Hs & Ht0 & t1 & t2 & t3 & He0). rewrite He0 in He. rewrite Ht0 in Ht.
    assert (LedgerOutboxEvent.code_of fee = LedgerOutboxEvent.code_of m) as -> by (unfold Money.same in Hs; unfold LedgerOutboxEvent.code_of; congruence).
    rewrite (contribution_charge mid code ev (dl_merchant d) _ (Money.amountMinorUnits fee) 0 ltac:(by rewrite Ht) ltac:(by rewrite He) ltac:(by rewrite He) ltac:(by rewrite He)
               ltac:(rewrite He, !own_skip by done; apply own_last)) by done.
    case_decide; [|done]. unfold ifCode, codeOf, unitsOf, LedgerOutboxEvent.code_of. cbn. apply breakdown_ext; cbn; repeat case_decide; done || lia.
  - destruct (sold_later_entries d m fee pfee _ _ _ Ew Hb) as (Hs & Hs' & Ht0 & t1 & t2 & t3 & t4 & He0). rewrite He0 in He. rewrite Ht0 in Ht.
    assert (LedgerOutboxEvent.code_of fee = LedgerOutboxEvent.code_of m ∧ LedgerOutboxEvent.code_of pfee = LedgerOutboxEvent.code_of m) as [-> ->]
      by (unfold Money.same in Hs, Hs'; unfold LedgerOutboxEvent.code_of; split; congruence).
    rewrite (contribution_charge mid code ev (dl_merchant d) _ (Money.amountMinorUnits fee) (Money.amountMinorUnits pfee) ltac:(by rewrite Ht) ltac:(by rewrite He)
               ltac:(by rewrite He) ltac:(by rewrite He) ltac:(rewrite He, !own_skip by done; apply own_last)) by done.
    case_decide; [|done]. unfold ifCode, codeOf, unitsOf, LedgerOutboxEvent.code_of. cbn. apply breakdown_ext; cbn; repeat case_decide; done || lia.
  - assert (Money.wf m) as [Hm0 Hmc].
    { destruct (booking_refund_first d m _ _ _ Ew Hb) as (e & Hin & <-). rewrite <- He in Hin. unfold entries_wf in Hwf. rewrite Forall_forall in Hwf. by apply Hwf. }
    destruct (returned_entries d m _ _ _ Ew Hmc Hb) as (Ht0 & t1 & l & He0 & Hl). rewrite He0 in He. rewrite Ht0 in Ht. destruct Hl as [[-> Hz]|(t2 & ->)].
    + rewrite contribution_none by (rewrite He, own_skip by done; done). case_decide; [|done]. apply breakdown_ext; cbn; repeat case_decide; done || lia.
    + rewrite (contribution_refund mid code ev (dl_merchant d) _ ltac:(by rewrite Ht) ltac:(by rewrite Ht) ltac:(rewrite He, !own_skip by done; apply own_last)) by done.
      case_decide; [|done]. unfold ifCode, codeOf, unitsOf, LedgerOutboxEvent.code_of. cbn. apply breakdown_ext; cbn; repeat case_decide; done || lia.
  - destruct (returned_later_entries d m _ _ _ Ew Hb) as (Ht0 & t1 & t2 & He0). rewrite He0 in He. rewrite Ht0 in Ht.
    rewrite (contribution_refund mid code ev (dl_merchant d) _ ltac:(by rewrite Ht) ltac:(by rewrite Ht) ltac:(rewrite He, !own_skip by done; apply own_last)) by done.
    case_decide; [|done]. unfold ifCode, codeOf, unitsOf, LedgerOutboxEvent.code_of. cbn. apply breakdown_ext; cbn; repeat case_decide; done || lia.
Qed.

(** *** The period *)

Lemma deals_total mid code since until ledger deals : ledger_wf ledger → Forall2 (rowOf mid) ledger deals →
  total code (contribution mid code) (PayoutService.findCreatedBetween since until ledger)
  = total code (λ d, effect mid code (Some d)) (filter (λ d, since ≤ dl_at d < until) (omap id deals)).
Proof.
  intros Hwf H. induction H as [|ev o ledger deals Hr _ IH]; [done|].
  assert (ledger_wf ledger) as Hl by (intros x Hx; apply Hwf; by right). specialize (IH Hl).
  pose proof (contribution_effect mid code ev o Hr (Hwf ev (list_elem_of_here _ _))) as Hc.
  unfold PayoutService.findCreatedBetween in *. rewrite filter_cons. destruct o as [d|]; cbn [omap list_omap id].
  - destruct Hr as (_ & _ & _ & _ & _ & _ & _ & Hat). rewrite filter_cons, Hat. case_decide; [|done]. by rewrite !total_cons, Hc, IH.
  - case_decide; [|done]. rewrite total_cons, Hc, IH. apply plus_fresh.
Qed.

(** A sum over the deals of the merchant. *)
Lemma total_deals (π : MutableBreakdown → Z) q mid code since until (l : list deal) : (∀ a b, π (plus a b) = π a + π b) → (∀ code, π (fresh code) = 0) →
  (∀ d, π (effect mid code (Some d)) = if decide (dl_merchant d = mid) then q d else 0) →
  π (total code (λ d, effect mid code (Some d)) (filter (λ d, since ≤ dl_at d < until) l))
  = sumZ q (filter (λ d, dl_merchant d = mid ∧ since ≤ dl_at d < until) l).
Proof.
  intros Hp Hf Hq. rewrite total_sum by done. induction l as [|d l IH]; [done|]. rewrite !filter_cons. case_decide as Ht.
  - cbn [sumZ]. rewrite IH, Hq. destruct (decide (dl_merchant d = mid)) as [Hm|Hm].
    + by rewrite decide_True.
    + rewrite decide_False by tauto. lia.
  - by rewrite decide_False by tauto.
Qed.

(** A sum over the lost disputes in a currency. *)
Lemma total_lost (π : MutableBreakdown → Z) q code (P : Dispute.t → Prop) `{∀ d, Decision (P d)} (l : list Dispute.t) :
  (∀ a b, π (plus a b) = π a + π b) → (∀ code, π (fresh code) = 0) →
  (∀ d, π (chargeback code d) = if decide (disputeCode d = code) then q d else 0) →
  π (total code (chargeback code) (filter P l)) = sumZ q (filter (λ d, P d ∧ disputeCode d = code) l).
Proof.
  intros Hp Hf Hq. rewrite total_sum by done. induction l as [|d l IH]; [done|]. rewrite !filter_cons. case_decide as Ht.
  - cbn [sumZ]. rewrite IH, Hq. destruct (decide (disputeCode d = code)) as [Hm|Hm].
    + by rewrite decide_True.
    + rewrite decide_False by tauto. lia.
  - by rewrite decide_False by tauto.
Qed.

Ltac field π q r :=
  rewrite (total_deals π q), (total_lost π r) by (done || (intros; unfold effect, chargeback; by case_decide)).

Lemma exactPeriod_expected mid code since until ledger deals disputes : ledger_wf ledger → Forall2 (rowOf mid) ledger deals →
  exactPeriod mid code since until ledger disputes = expected mid code since until deals disputes.
Proof.
  intros Hwf H. unfold exactPeriod, exact, findCreatedBetween, findByMerchantStatusInRange.
  rewrite (total_perm _ _ _ _ (orderBy_perm _ _)), (deals_total _ _ _ _ _ deals Hwf H). unfold expected. cbv zeta.
  assert (∀ l : list Dispute.t, filter (λ d, Dispute._merchantId d = mid ∧ Dispute._status d = RESOLVED LOST ∧ since ≤ Dispute._createdAt d < until
                           ∧ LedgerOutboxEvent.code_of (Dispute._amount d) = code) l
    = filter (λ d, (Dispute._merchantId d = mid ∧ Dispute._status d = RESOLVED LOST ∧ since ≤ Dispute._createdAt d < until) ∧ disputeCode d = code) l) as ->
    by (intros; apply list_filter_iff; unfold disputeCode, LedgerOutboxEvent.code_of; tauto).
  set (l := omap id deals). assert (∀ k : list Dispute.t, sumZ (λ _, 1) k = Z.of_nat (length k)) as Hone by (induction k as [|d k IH]; cbn [sumZ length]; lia).
  assert (∀ f : Dispute.t → Z, (∀ d, f d = 0) → ∀ l, sumZ f l = 0) as Hz by (intros f Hf l'; apply sumZ_zero; auto).
  assert (∀ f : deal → Z, (∀ d, f d = 0) → ∀ l, sumZ f l = 0) as Hz' by (intros f Hf l'; apply sumZ_zero; auto).
  apply breakdown_ext; cbn [plus bk_currencyCode bk_chargeCount bk_grossVolume bk_platformFee bk_providerFee bk_refundedAmount bk_chargebackCount bk_chargebackAmount
    bk_splitProceeds bk_netSettlement].
  - apply total_code.
  - field bk_chargeCount (sales code) (λ _ : Dispute.t, 0). rewrite (Hz (λ _, 0)) by done. lia.
  - field bk_grossVolume (sold code) (λ _ : Dispute.t, 0). rewrite (Hz (λ _, 0)) by done. lia.
  - field bk_platformFee (platformFees code) (λ _ : Dispute.t, 0). rewrite (Hz (λ _, 0)) by done. lia.
  - field bk_providerFee (providerFees code) (λ _ : Dispute.t, 0). rewrite (Hz (λ _, 0)) by done. lia.
  - field bk_refundedAmount (returned code) (λ _ : Dispute.t, 0). rewrite (Hz (λ _, 0)) by done. lia.
  - field bk_chargebackCount (λ _ : deal, 0) (λ _ : Dispute.t, 1). rewrite (Hz' (λ _, 0)) by done. rewrite Hone. reflexivity.
  - field bk_chargebackAmount (λ _ : deal, 0) (λ d : Dispute.t, Money.amountMinorUnits (Dispute._amount d)). rewrite (Hz' (λ _, 0)) by done. lia.
  - field bk_splitProceeds (λ _ : deal, 0) (λ _ : Dispute.t, 0). by rewrite (Hz (λ _, 0)), (Hz' (λ _, 0)).
  - field bk_netSettlement (λ d, sold code d - platformFees code d - providerFees code d - returned code d) (λ _ : Dispute.t, 0). rewrite (Hz (λ _, 0)) by done.
    generalize (filter (λ d, dl_merchant d = mid ∧ since ≤ dl_at d < until) l). clear. intros k. induction k as [|d k IH]; cbn [sumZ] in *; lia.
Qed.

(** ** Rows *)

Lemma money_text c m : Currency.wf c → in_currency c m →
  (units ← Str.BigInt (pretty (Money.amountMinorUnits m)); Money.fromMinorUnits units (Currency.code c) None) = Ok m.
Proof.
  intros Hc (<- & Hpos & Hfx). rewrite BigInt_pretty_Z. cbn [mbind result_bind]. rewrite fromMinorUnits_wf_code by done. destruct m as [n cur fx]. cbn in *. by subst.
Qed.

Lemma raw_roundtrip b : breakdown_wf b → MerchantStatementTypeOrmRepository.fromRaw (MerchantStatementTypeOrmRepository.toRaw b) = Ok b.
Proof.
  intros [(c & Hc & Hcode & Hm)]. unfold MerchantStatementTypeOrmRepository.fromRaw, MerchantStatementTypeOrmRepository.toRaw.
  cbn [rb_currencyCode rb_chargeCount rb_grossVolume rb_platformFee rb_providerFee rb_refundedAmount rb_chargebackCount rb_chargebackAmount rb_splitProceeds rb_netSettlement].
  rewrite Hcode. repeat (apply Forall_cons in Hm as [?H Hm]). rewrite !(money_text c) by done. cbn [mbind result_bind]. rewrite !BigInt_pretty_Z. cbn [mbind result_bind].
  rewrite <- Hcode. by destruct b.
Qed.

Lemma mapM_inverse {A B} (f : A → B) (g : B → result A) l : Forall (λ x, g (f x) = Ok x) l → mapM g (f <$> l) = Ok l.
Proof.
  induction 1 as [|x l Hx _ IH]; [done|]. change ((y ← g (f x); ys ← mapM g (f <$> l); mret (y :: ys)) = Ok (x :: l)). rewrite Hx. cbn. by rewrite IH.
Qed.

Definition statement_wf (s : MerchantStatement.t) : Prop := Forall breakdown_wf (MerchantStatement.breakdowns s).

Record form_wf (f : MerchantTaxForm1099K.t) : Prop := {
  fw_currency : ∃ c, Currency.wf c ∧ MerchantTaxForm1099K.currencyCode f = Currency.code c
    ∧ Forall (in_currency c) (MerchantTaxForm1099K.grossAmount f :: MerchantTaxForm1099K.thresholdApplied f :: MerchantTaxForm1099K.monthlyAmounts f) }.

Lemma statement_roundtrip s : statement_wf s → MerchantStatementTypeOrmRepository.toDomain (MerchantStatementTypeOrmRepository.toEntity s) = Ok s.
Proof.
  intros Hs. unfold MerchantStatementTypeOrmRepository.toDomain, MerchantStatementTypeOrmRepository.toEntity. cbn [se_breakdowns se_id se_merchantId se_periodStart se_periodEnd se_generatedAt].
  rewrite mapM_inverse; [by destruct s|]. eapply Forall_impl; [exact Hs|]. apply raw_roundtrip.
Qed.

Lemma form_roundtrip f : form_wf f → MerchantTaxForm1099KTypeOrmRepository.toDomain (MerchantTaxForm1099KTypeOrmRepository.toEntity f) = Ok f.
Proof.
  intros [(c & Hc & Hcode & Hm)]. unfold MerchantTaxForm1099KTypeOrmRepository.toDomain, MerchantTaxForm1099KTypeOrmRepository.toEntity.
  cbn [te_id te_merchantId te_taxYear te_currencyCode te_grossAmount te_transactionCount te_monthlyAmounts te_thresholdApplied te_reportable te_generatedAt].
  rewrite Hcode. apply Forall_cons in Hm as [Hg Hm]. apply Forall_cons in Hm as [Ht Hm]. rewrite (money_text c _ Hc Hg). cbn [mbind result_bind].
  rewrite mapM_inverse by (eapply Forall_impl; [exact Hm|]; intros; by apply money_text). cbn [mbind result_bind].
  rewrite (money_text c _ Hc Ht). cbn [mbind result_bind]. rewrite <- Hcode. by destruct f.
Qed.
