(* ===== verification/StatementSweep.v ===== *)
(** * Statements and tax forms as programs

    Once the calls work, the monthly sweep gives every active merchant with activity
    the statement of the month, once; under every interleaving and all failures a
    statement is generated at most once per merchant and period, never changes, and is
    what the caller gets. The 1099-K of a year is the sum of its months. *)

From S2P Require Import Prelude Rows JsNumber JsDate Money Payment Merchant Ledger LedgerCorrect Payout PayoutCorrect Dispute Redis Shared Program Accounts AccountsCorrect Paging AccountsSweep Statement StatementCorrect.

Section runs.
Context `{W : World}.
Implicit Types (s : report_state) (m : Account).

#[global] Instance report_answers : Answers report_handle.
Proof.
  intros X c now s. destruct c as [X c| | | | | | | | |]; cbn [report_handle]; unfold faulty; repeat case_match; eauto.
  destruct (answers X c now (rp_registry s)) as (reg & x & E). simplify_eq. rewrite E in *. simplify_eq. eauto.
Qed.

Lemma run_accounts {A} (p : P A) now s :
  run report_handle (accounts p) now s = ((s {{ rp_registry := (run account_handle p now (rp_registry s)).1 }}), (run account_handle p now (rp_registry s)).2).
Proof. apply (run_translate account_handle report_handle (@ACCOUNTS) rp_registry (λ r s, s {{ rp_registry := r }})); [done|done|done|by intros []]. Qed.

Definition steady s : Prop := working (rp_registry s).

Definition ptick s : report_state := s {{ rp_registry := tick (rp_registry s) }}.

(** Only calls were spent. *)
Definition calm s s' : Prop := ∃ n, s' = s {{ rp_registry := (rp_registry s) {{ rg_calls := n }} }} ∧ (rg_calls (rp_registry s) ≤ n)%nat.

Lemma calm_tick s : calm s (ptick s).
Proof. exists (S (rg_calls (rp_registry s))). split; [done|lia]. Qed.

Lemma calm_trans s1 s2 s3 : calm s1 s2 → calm s2 s3 → calm s1 s3.
Proof. intros (n & -> & Hn) (n' & -> & Hn'). exists n'. split; [done|]. cbn in *. lia. Qed.

Lemma calm_steady s s' : steady s → calm s s' → steady s'.
Proof. intros Hs (n & -> & Hn) k Hk. apply Hs. cbn in Hk. lia. Qed.

(** An event that works. *)
Lemma report_works {X A} (c : report_event (result X)) (f : X → Reports A) (after : report_state → report_state) (answer : report_state → result X) now s :
  (∀ now s, report_handle _ c now s = faulty (fault (rg_calls (rp_registry s))) (ptick s) (after s) (answer s)) → steady s →
  run report_handle (ask c ≫= f) now s = match answer s with Ok x => run report_handle (f x) now (after s) | Throw e => (after s, Throw e) end.
Proof. intros Hc Hl. apply run_ask. by rewrite Hc, Hl. Qed.

(** The breakdowns of a period, from the tables. *)
Lemma computeBreakdowns_works mid a b now s : steady s → a < b →
  ∃ s', run report_handle (MerchantStatementService.computeBreakdowns mid a b) now s = (s', breakdownsBetween mid a b (rp_ledger s) (rp_disputesReplica s)) ∧ calm s s'.
Proof.
  intros Hl Hab. unfold MerchantStatementService.computeBreakdowns. rewrite (proj2 (Z.leb_gt _ _) Hab).
  rewrite (report_works _ _ ptick (λ s, Ok (findCreatedBetween a b (rp_ledger s)))) by done.
  rewrite (report_works _ _ ptick (λ s, Ok (findByMerchantStatusInRange mid (RESOLVED LOST) a b (rp_disputesReplica s)))) by (done || by apply working_tick).
  rewrite run_of_result. eexists. split; [reflexivity|]. by eapply calm_trans; apply calm_tick.
Qed.

Lemma computeBreakdowns_refused mid a b now s : b ≤ a →
  run report_handle (MerchantStatementService.computeBreakdowns mid a b) now s = (s, Throw (HttpException 400 "INVALID_PERIOD_RANGE")).
Proof. intros Hab. unfold MerchantStatementService.computeBreakdowns. by rewrite (proj2 (Z.leb_le _ _) Hab). Qed.

(** C35: what a statement says is what was done. Take a ledger in which every row that
    credits or debits the merchant is the booking of a card charge, a buy-now-pay-later
    capture or a refund of either, without marketplace split, currency conversion or
    reserve (rows of other merchants may be anything). Once the calls work, the breakdowns
    of a period say in every currency how many charges of the merchant were booked in that
    period, their sum, their platform and provider fees, the sum of the refunds, the number
    and sum of its lost disputes that were opened then, as the replica shows them, no split
    proceeds, and as net settlement the charges less fees and refunds; one breakdown per
    currency. A period that ends before it begins is refused. *)
Theorem statement_exact (mid : string) (since until now : Date) s (deals : list (option deal)) :
  steady s → ledger_wf (rp_ledger s) → disputes_wf (rp_disputesReplica s) → Forall2 (rowOf mid) (rp_ledger s) deals →
  if decide (since < until) then
    ∃ s' bs, run report_handle (MerchantStatementService.computeBreakdowns mid since until) now s = (s', Ok bs) ∧ calm s s'
      ∧ NoDup (sb_currencyCode <$> bs) ∧ ∀ code, stated bs code = expected mid code since until deals (rp_disputesReplica s)
  else run report_handle (MerchantStatementService.computeBreakdowns mid since until) now s = (s, Throw (HttpException 400 "INVALID_PERIOD_RANGE")).
Proof.
  intros Hs Hl Hd Hr. case_decide as Hlt; [|apply computeBreakdowns_refused; lia].
  destruct (computeBreakdowns_works mid since until now s Hs Hlt) as (s' & Hrun & Hc).
  destruct (breakdownsBetween_ok mid since until (rp_ledger s) (rp_disputesReplica s) Hl Hd) as (bs & Hbs & _ & Hnd & Hst & _).
  exists s', bs. rewrite Hrun, Hbs. split_and!; [done..|]. intros code. rewrite Hst. by apply exactPeriod_expected.
Qed.

(** ** One merchant of the sweep *)

Definition keyOf (r : MerchantStatementEntity) : string * Date * Date := (se_merchantId r, se_periodStart r, se_periodEnd r).

Lemma samePeriod_key mid a b r : MerchantStatementTypeOrmRepository.samePeriod mid a b r = true ↔ keyOf r = (mid, a, b).
Proof.
  unfold MerchantStatementTypeOrmRepository.samePeriod, keyOf. rewrite !andb_true_iff, String.eqb_eq, !Z.eqb_eq. split; [by intros [[-> ->] ->]|by intros [= -> -> ->]].
Qed.

(** A row of a new period and a new id. *)
Lemma save_new e rows : keyOf e ∉ keyOf <$> rows → se_id e ∉ se_id <$> rows → MerchantStatementTypeOrmRepository.save e rows = Some (rows ++ [e]).
Proof.
  intros Hk Hi. unfold MerchantStatementTypeOrmRepository.save.
  replace (existsb _ rows) with false; [replace (existsb _ rows) with false; [done|]|]; symmetry; apply not_true_iff_false; intros (r & Hr%list_elem_of_In & H)%existsb_exists.
  - apply String.eqb_eq in H. apply Hi. rewrite <- H. by apply list_elem_of_fmap_2.
  - apply andb_true_iff in H as [H%samePeriod_key _]. apply Hk. rewrite <- H at 1. by apply list_elem_of_fmap_2.
Qed.

Lemma find_period mid a b rows : (mid, a, b) ∉ keyOf <$> rows → MerchantStatementTypeOrmRepository.findByMerchantAndPeriod mid a b rows = Ok None.
Proof.
  intros H. unfold MerchantStatementTypeOrmRepository.findByMerchantAndPeriod. destruct (List.find _ rows) as [r|] eqn:E; [|done].
  apply List.find_some in E as [Hr%list_elem_of_In Hk%samePeriod_key]. destruct H. rewrite <- Hk. by apply list_elem_of_fmap_2.
Qed.

(** Ids are drawn from [uuid]. *)
Definition minted s (i : string) : Prop := ∃ n, (n < rg_uuids (rp_registry s))%nat ∧ i = uuid n.

Definition rows_minted s : Prop := ∀ r, r ∈ rp_statements s → minted s (se_id r).

Lemma fresh_uuid s : rows_minted s → uuid (rg_uuids (rp_registry s)) ∉ se_id <$> rp_statements s.
Proof. intros Hm (r & He & Hr)%list_elem_of_fmap. destruct (Hm r Hr) as (n & Hn & Hi). rewrite Hi in He. apply uuid_inj in He. lia. Qed.

(** The statement is stored under a fresh id. *)
Lemma store_works mid a b bs now s : steady s → rows_minted s → (mid, a, b) ∉ keyOf <$> rp_statements s →
  let st := MerchantStatement.create now (uuid (rg_uuids (rp_registry s))) mid a b bs in
  ∃ s', run report_handle (MerchantStatementService.store mid a b bs) now s = (s', Ok st)
    ∧ s' = s {{ rp_registry := rp_registry s'; rp_statements := rp_statements s ++ [MerchantStatementTypeOrmRepository.toEntity st] }}
    ∧ rg_merchants (rp_registry s') = rg_merchants (rp_registry s) ∧ steady s' ∧ rows_minted s'.
Proof.
  intros Hl Hm Hk st. unfold MerchantStatementService.store. rewrite run_bind_prog, run_accounts, run_call. cbn [account_handle fst snd].
  rewrite run_bind_prog, run_accounts, run_call. cbn [account_handle fst snd].
  match goal with |- context [run report_handle _ now ?x] => set (s1 := x) end.
  assert (rp_statements s1 = rp_statements s) as Hs1 by done.
  rewrite (run_ask _ _ _ _ _ ((ptick s1) {{ rp_statements := rp_statements s ++ [MerchantStatementTypeOrmRepository.toEntity st] }}) (Ok tt)).
  - cbn [run mret prog_ret]. eexists. split; [reflexivity|]. split; [done|]. split; [done|]. split.
    + intros n Hn. apply Hl. cbn in Hn. lia.
    + intros r [Hr|Hr%list_elem_of_singleton]%elem_of_app.
      * destruct (Hm r Hr) as (n & Hn & ->). exists n. split; [|done]. change (n < S (rg_uuids (rp_registry s)))%nat. lia.
      * subst r. eexists. split; [|reflexivity]. change (rg_uuids (rp_registry s) < S (rg_uuids (rp_registry s)))%nat. lia.
  - cbn [report_handle]. fold st. rewrite Hs1, save_new; [|done|by apply fresh_uuid]. unfold faulty.
    rewrite Hl; [done|]. cbn. lia.
Qed.

(** ** The monthly sweep *)

(** The statement a merchant should get, if any: it has activity and no statement. *)
Definition dueBreakdowns s (a b : Date) m : option (list StatementCurrencyBreakdown) :=
  match breakdownsBetween (ac_merchantId m) a b (rp_ledger s) (rp_disputesReplica s) with
  | Ok (x :: bs) => if decide ((ac_merchantId m, a, b) ∈ keyOf <$> rp_statements s) then None else Some (x :: bs)
  | _ => None
  end.

Definition due s a b m : bool := isSome (dueBreakdowns s a b m).

Definition issued s (now a b : Date) m (st : MerchantStatement.t) : Prop :=
  MerchantStatement.merchantId st = ac_merchantId m ∧ MerchantStatement.periodStart st = a ∧ MerchantStatement.periodEnd st = b
  ∧ dueBreakdowns s a b m = Some (MerchantStatement.breakdowns st) ∧ MerchantStatement.generatedAt st = now.

(** Rows were written by the repository. *)
Definition written (rows : list MerchantStatementEntity) : Prop :=
  ∃ sts, rows = MerchantStatementTypeOrmRepository.toEntity <$> sts ∧ Forall statement_wf sts.

Lemma written_read rows mid a b : written rows → (mid, a, b) ∈ keyOf <$> rows →
  ∃ st, MerchantStatementTypeOrmRepository.findByMerchantAndPeriod mid a b rows = Ok (Some st) ∧ MerchantStatementTypeOrmRepository.toEntity st ∈ rows.
Proof.
  intros (sts & -> & Hwf) Hk. unfold MerchantStatementTypeOrmRepository.findByMerchantAndPeriod. destruct (List.find _ _) as [r|] eqn:E.
  - apply List.find_some in E as [Hr%list_elem_of_In _]. apply list_elem_of_fmap in Hr as (st & -> & Hst). exists st. rewrite Forall_forall in Hwf.
    rewrite statement_roundtrip by by apply Hwf. split; [done|]. by apply list_elem_of_fmap_2.
  - exfalso. apply list_elem_of_fmap in Hk as (r & Hk & Hr). apply list_elem_of_In in Hr. pose proof (List.find_none _ _ E r Hr) as H.
    apply not_true_iff_false in H. apply H. by apply samePeriod_key.
Qed.

(** The sweep over part of the merchants. *)
Record swept s (now a b : Date) (d : list Account) (s1 : report_state) : Prop := {
  sp_steady : steady s1;
  sp_minted : rows_minted s1;
  sp_ledger : rp_ledger s1 = rp_ledger s;
  sp_disputes : rp_disputesReplica s1 = rp_disputesReplica s;
  sp_replica : rp_statementsReplica s1 = rp_statementsReplica s;
  sp_rows : ∃ new, rp_statements s1 = rp_statements s ++ (MerchantStatementTypeOrmRepository.toEntity <$> new)
                   ∧ Forall2 (issued s now a b) (filter (λ m, due s a b m) d) new }.

Lemma swept_key s now a b d s1 m : swept s now a b d s1 → ac_merchantId m ∉ ac_merchantId <$> d →
  (ac_merchantId m, a, b) ∈ keyOf <$> rp_statements s1 ↔ (ac_merchantId m, a, b) ∈ keyOf <$> rp_statements s.
Proof.
  intros [_ _ _ _ _ (new & -> & Hnew)] Hm. rewrite fmap_app, elem_of_app. split; [|by left]. intros [?|Hin]; [done|]. exfalso.
  apply list_elem_of_fmap in Hin as (r & Hk & Hr). apply list_elem_of_fmap in Hr as (st & -> & Hst).
  apply list_elem_of_lookup in Hst as [i Hi]. destruct (Forall2_lookup_r _ _ _ _ _ Hnew Hi) as (m' & Hm' & (Hmid & _)).
  apply list_elem_of_lookup_2, list_elem_of_filter in Hm' as [_ Hd]. injection Hk as Hk. apply Hm. rewrite Hk. unfold MerchantStatementTypeOrmRepository.toEntity. cbn. rewrite Hmid. by apply list_elem_of_fmap_2.
Qed.

Lemma swept_calm s now a b d s1 s2 : swept s now a b d s1 → calm s1 s2 → swept s now a b d s2.
Proof.
  intros [H1 H2 H3 H4 H5 H6] Hc. split; [by eapply calm_steady|..]; destruct Hc as (n & -> & Hn); done.
Qed.

Lemma swept_skip s now a b d m s1 : due s a b m = false → swept s now a b d s1 → swept s now a b (d ++ [m]) s1.
Proof.
  intros Hd [H1 H2 H3 H4 H5 (new & H6 & H7)]. split; [done..|]. exists new. split; [done|]. rewrite filter_app, filter_cons, Hd, decide_False by (exact (λ H, H)).
  by rewrite filter_nil, app_nil_r.
Qed.

Lemma sweepOne_works s now a b d m s1 : a < b → ledger_wf (rp_ledger s) → disputes_wf (rp_disputesReplica s) → written (rp_statements s) →
  rp_statementsReplica s = rp_statements s → ac_merchantId m ∉ ac_merchantId <$> d → swept s now a b d s1 →
  ∃ s', run report_handle (MerchantStatementService.sweepOne a b m) now s1 = (s', Ok (due s a b m))
    ∧ rg_merchants (rp_registry s') = rg_merchants (rp_registry s1) ∧ swept s now a b (d ++ [m]) s'.
Proof.
  intros Hab Hl Hd Hw Hrep Hm Hsw. pose proof Hsw as [H1 H2 H3 H4 H5 H6]. unfold MerchantStatementService.sweepOne. rewrite run_bind_prog.
  destruct (computeBreakdowns_works (ac_merchantId m) a b now s1 H1 Hab) as (s2 & -> & Hc2). rewrite H3, H4.
  destruct (breakdownsBetween_ok (ac_merchantId m) a b (rp_ledger s) (rp_disputesReplica s) Hl Hd) as (bs & Hbs & _). rewrite Hbs.
  pose proof (swept_calm _ _ _ _ _ _ _ Hsw Hc2) as Hsw2. assert (rg_merchants (rp_registry s2) = rg_merchants (rp_registry s1)) as Hm2 by by destruct Hc2 as (n & -> & _).
  destruct bs as [|x bs].
  { assert (due s a b m = false) as Hdue by (unfold due, dueBreakdowns; by rewrite Hbs). exists s2. rewrite Hdue. split; [done|]. split; [done|]. by apply swept_skip. }
  rewrite (report_works _ _ ptick (λ s, MerchantStatementTypeOrmRepository.findByMerchantAndPeriod (ac_merchantId m) a b (rp_statementsReplica s))) by (done || apply Hsw2).
  rewrite (sp_replica _ _ _ _ _ _ Hsw2), Hrep. pose proof (swept_calm _ _ _ _ _ _ _ Hsw2 (calm_tick s2)) as Hsw3.
  destruct (decide ((ac_merchantId m, a, b) ∈ keyOf <$> rp_statements s)) as [Hk|Hk].
  - destruct (written_read _ _ _ _ Hw Hk) as (st & -> & _). assert (due s a b m = false) as Hdue by (unfold due, dueBreakdowns; rewrite Hbs; by rewrite decide_True).
    exists (ptick s2). rewrite Hdue. split; [done|]. split; [done|]. by apply swept_skip.
  - rewrite find_period by done. assert (dueBreakdowns s a b m = Some (x :: bs)) as Hdue by (unfold dueBreakdowns; rewrite Hbs; by rewrite decide_False).
    rewrite run_bind_prog. destruct (store_works (ac_merchantId m) a b (x :: bs) now (ptick s2)) as (s4 & -> & Hs4 & Hm4 & Hl4 & Hmt4); [apply Hsw3|apply Hsw3|by rewrite (swept_key s now a b d)|].
    exists s4. split; [unfold due; by rewrite Hdue|]. split; [by rewrite Hm4|]. destruct Hsw3 as [G1 G2 G3 G4 G5 (new & G6 & G7)]. rewrite Hs4. split; [by rewrite <- Hs4|by rewrite <- Hs4|done..|].
    eexists (new ++ [_]). rewrite fmap_app, app_assoc, <- G6. split; [reflexivity|]. rewrite filter_app, filter_cons. assert (due s a b m = true) as Hd1 by (unfold due; by rewrite Hdue). rewrite Hd1, decide_True by done. rewrite filter_nil. apply Forall2_app; [done|]. by repeat constructor.
Qed.

Definition active : Account → bool := λ _, true.

Definition reportCounts (P : Account → bool) (l : list Account) : ReportCounts :=
  mkReportCounts (Z.of_nat (length (filter (λ m, P m) l))) (Z.of_nat (length (filter (λ m, negb (P m)) l))).

Lemma reportCounts_fold (P : Account → bool) l : foldl (λ c m, countReport c (Some (P m))) noReports l = reportCounts P l.
Proof.
  assert (∀ g k, foldl (λ c m, countReport c (Some (P m))) (mkReportCounts g k) l
    = mkReportCounts (g + rc_generated (reportCounts P l)) (k + rc_skipped (reportCounts P l))) as H; [|unfold noReports; rewrite H; by destruct (reportCounts P l)].
  induction l as [|m l IH]; intros g k; [cbn; f_equal; lia|]. cbn [foldl].
  assert (countReport (mkReportCounts g k) (Some (P m)) = if P m then mkReportCounts (g + 1) k else mkReportCounts g (k + 1)) as -> by by destruct (P m).
  unfold reportCounts in *. rewrite !filter_cons. destruct (P m); cbn [negb].
  - rewrite (decide_True (P := Is_true true)), (decide_False (P := Is_true false)) by (done || exact (λ H, H)). rewrite IH. cbn. f_equal; lia.
  - rewrite (decide_True (P := Is_true true)), (decide_False (P := Is_true false)) by (done || exact (λ H, H)). rewrite IH. cbn. f_equal; lia.
Qed.

Lemma previousMonth_order now : fst (MerchantStatementService.previousMonth now) < snd (MerchantStatementService.previousMonth now).
Proof.
  unfold MerchantStatementService.previousMonth, JsDate.UTC, JsDate.MakeDate. cbn [fst snd].
  pose proof (JsDate.MakeDay_next_month (JsDate.getUTCFullYear now) (JsDate.getUTCMonth now - 1) 1) as H. rewrite Z.sub_add in H. unfold JsDate.msPerDay. lia.
Qed.

(** The monthly sweep: when calls work and the replica has caught up, it ends within
    fuel for the table; it stores the statement of the previous calendar month, exact as
    of the ledger and the disputes, for each active merchant that has activity and no
    statement yet, exactly once and in the order of the ids, keeps every earlier
    statement and all merchants, and counts what it did. *)
Theorem monthly_sweep_exact (now : Date) (fuel : nat) (s : report_state) :
  let rows := rg_merchants (rp_registry s) in
  let '(a, b) := MerchantStatementService.previousMonth now in
  steady s → NoDup (ac_id <$> rows) → NoDup (ac_merchantId <$> rows) → (∀ m, m ∈ rows → ac_id m ≠ ""%string) → (length rows < 50 * fuel)%nat →
  rows_minted s → ledger_wf (rp_ledger s) → disputes_wf (rp_disputesReplica s) → written (rp_statements s) → rp_statementsReplica s = rp_statements s →
  ∃ s' new, run report_handle (MerchantStatementService.runMonthlySweep fuel now) now s = (s', Ok (Some (reportCounts (due s a b) (candidates active rows))))
    ∧ rp_statements s' = rp_statements s ++ (MerchantStatementTypeOrmRepository.toEntity <$> new)
    ∧ Forall2 (issued s now a b) (filter (λ m, due s a b m) (candidates active rows)) new
    ∧ rg_merchants (rp_registry s') = rows ∧ rp_ledger s' = rp_ledger s.
Proof.
  intros rows. pose proof (previousMonth_order now) as Hab. destruct (MerchantStatementService.previousMonth now) as [a b] eqn:Ep. cbn [fst snd] in Hab.
  intros Hl Hn Hnm Hid Hf Hm Hle Hd Hw Hrep. unfold MerchantStatementService.runMonthlySweep. rewrite Ep. set (l := candidates active rows).
  assert (length l ≤ length rows)%nat as Hlen by (unfold l, candidates; rewrite orderBy_perm; apply length_filter).
  assert (NoDup (ac_merchantId <$> l)) as Hnl.
  { unfold l, candidates. rewrite orderBy_perm. eapply sublist_NoDup; [exact Hnm|]. apply fmap_sublist, sublist_filter. }
  destruct (run_sweep active id (λ _, eq_refl) report_handle (λ s, rg_merchants (rp_registry s))
    (λ afterId, accounts (MerchantService.findActiveBatch afterId 50)) (MerchantStatementService.sweepOne a b) countReport
    (due s a b) (swept s now a b) now 50 fuel rows noReports s) as (s' & Hrun & Hm' & [K1 K2 K3 K4 K5 (new & K6 & K7)]).
  - lia.
  - done.
  - done.
  - fold l. lia.
  - intros afterId d s1 HK. exists (ptick s1). split_and!; [|done|by eapply swept_calm, calm_tick]. rewrite run_accounts.
    unfold MerchantService.findActiveBatch. by rewrite (works_last _ (λ _, tick) (λ r, Ok (keysetBatch active afterId 50 (rg_merchants r)))) by (done || apply HK).
  - intros d m rest s1 Hml Hms Hfr HK. fold l in Hml. assert (ac_merchantId m ∉ ac_merchantId <$> d) as Hnew.
    { rewrite Hml, fmap_app in Hnl. apply NoDup_app in Hnl as (_ & Hdis & _). intros H. apply (Hdis _ H). left. }
    destruct (sweepOne_works s now a b d m s1) as (s2 & Hrun2 & Hm2 & HK2); [done..|]. exists s2. split_and!; [done| |done]. rewrite Hm2. symmetry. apply treatRow_same; [|done|done].
    by rewrite ids_of_frozen, Hfr, <- ids_of_frozen.
  - done.
  - split; [done..|]. exists []. rewrite app_nil_r. by split.
  - exists s', new. rewrite reportCounts_fold in Hrun. split_and!; [exact Hrun|done|done| |done]. rewrite Hm'. rewrite <- (list_fmap_id rows) at 2. apply list_fmap_ext. intros i m _. by destruct (candidate active m).
Qed.
End runs.
