(* ===== verification/TaxForm.v ===== *)
(** * Correctness of 1099-K forms

    The form of a merchant and year reports the currency of its largest gross volume;
    the amount of Box 1a is the sum of the twelve monthly boxes, each the gross of that
    month, and the form is reportable exactly when it reaches the threshold. *)

From Stdlib Require Import Sorted.
From S2P Require Import Prelude Rows JsNumber JsDate Money Payment Merchant Ledger LedgerCorrect Payout PayoutCorrect Dispute Redis Shared Program Accounts AccountsCorrect AccountsSweep Statement StatementCorrect StatementSweep.
Import Breakdowns TaxForm1099KService.

(** ** Charges only credit *)

(** Every charge event credits its merchants. *)
Definition charges_credit (ledger : list LedgerOutboxEvent.t) : Prop :=
  ∀ ev e, ev ∈ ledger → includes CHARGE_EVENT_TYPES (LedgerOutboxEvent.eventType ev) = true → e ∈ LedgerOutboxEvent.entries ev →
    accountType e = MERCHANT → entryType e = CREDIT.

Lemma lines_credit l (ps : list (string * Money.t)) e : lines MERCHANT l = credit_line <$> ps → e ∈ l → accountType e = MERCHANT → entryType e = CREDIT.
Proof.
  intros Hl He Ht. assert (line e ∈ lines MERCHANT l) as Hin by (apply list_elem_of_fmap_2, list_elem_of_filter; done).
  rewrite Hl in Hin. apply list_elem_of_fmap in Hin as (p & Hp & _). unfold line, credit_line in Hp. congruence.
Qed.

(** Those the ledger books for charges do. *)
Lemma booked_charges_credit now p ev : valid_charge p → LedgerOutboxEvent.createChargeEntries now p = Ok ev → charges_credit [ev].
Proof.
  intros Hp Hev ev' e ->%list_elem_of_singleton _ He Ht. destruct (createChargeEntries_spec now p Hp) as [H1 H2].
  destruct (Z.le_gt_cases (deductions p) (Money.amountMinorUnits (ch_amount p))) as [Hd|Hd]; [|destruct (H2 Hd) as (? & ? & E); congruence].
  rewrite H1, create_balanced in Hev by (done || by apply chargeEntries_balanced). injection Hev as <-. destruct (charge_lines p) as (_ & _ & _ & Hm). by eapply lines_credit.
Qed.

Lemma captured_charges_credit now id oid mid m fee pfee ev : LedgerOutboxEvent.createBnplCaptureEntries now id oid mid m fee pfee = Ok ev → charges_credit [ev].
Proof.
  unfold LedgerOutboxEvent.createBnplCaptureEntries. intros Hev ev' e ->%list_elem_of_singleton _ He Ht.
  destruct (Money.subtract m fee) as [n|] eqn:E1; [|discriminate Hev]. cbn [mbind result_bind] in Hev. destruct (Money.subtract n pfee) as [net|] eqn:E2; [|discriminate Hev]. cbn [mbind result_bind] in Hev.
  unfold LedgerOutboxEvent.create, LedgerOutboxEvent.make in Hev. destruct (LedgerOutboxEvent.validateDoubleEntry _); [|discriminate Hev]. injection Hev as <-. cbn [LedgerOutboxEvent.entries] in He.
  repeat (apply elem_of_cons in He as [->|He]; [by destruct (accountType _) eqn:Et; cbn in *|]). by apply not_elem_of_nil in He.
Qed.

(** ** Amounts *)

(** What a breakdown counts towards the form. *)
Definition reportableOf (b : MutableBreakdown) : Z := bk_grossVolume b + bk_splitProceeds b.

Lemma reportableOf_plus a b : reportableOf (plus a b) = reportableOf a + reportableOf b.
Proof. unfold reportableOf. cbn. lia. Qed.

Section amounts.
Context (mid : string) (ledger : list LedgerOutboxEvent.t) (disputes : list Dispute.t).
Context (ledger_ok : ledger_wf ledger) (disputes_ok : disputes_wf disputes) (credits : charges_credit ledger).

Lemma split_nonneg code ev : ev ∈ ledger → 0 ≤ bk_splitProceeds (contribution mid code ev).
Proof.
  intros Hev. unfold contribution. cbn [bk_splitProceeds]. destruct (includes CHARGE_EVENT_TYPES (LedgerOutboxEvent.eventType ev)) eqn:Ec; [|cbn; lia]. cbn [andb]. destruct (isSplit (LedgerOutboxEvent.entries ev)); [|lia].
  apply sumZ_nonneg. intros e He%list_elem_of_In. apply own_elem in He as (He & Ht & _). apply ifCode_nonneg.
  unfold PayoutService.sign_of. rewrite (credits ev e) by done. specialize (ledger_ok ev Hev). unfold entries_wf in ledger_ok. rewrite Forall_forall in ledger_ok.
  destruct (ledger_ok e He) as [H _]. unfold unitsOf. lia.
Qed.

Lemma period_split_nonneg code a b : 0 ≤ bk_splitProceeds (exactPeriod mid code a b ledger disputes).
Proof.
  unfold exactPeriod, exact. cbn [plus bk_splitProceeds]. rewrite !(total_sum bk_splitProceeds) by done.
  rewrite (sumZ_zero _ (findByMerchantStatusInRange _ _ _ _ _)) by (intros d _; unfold chargeback; by case_decide). rewrite Z.add_0_r.
  apply sumZ_nonneg. intros ev Hev%list_elem_of_In%orderBy_elem. apply list_elem_of_filter in Hev as [_ Hev]. by apply split_nonneg.
Qed.

Lemma period_nonneg code a b : 0 ≤ reportableOf (exactPeriod mid code a b ledger disputes).
Proof.
  pose proof (period_split_nonneg code a b). destruct (exact_nonneg mid code (findCreatedBetween a b ledger) (findByMerchantStatusInRange mid (RESOLVED LOST) a b disputes)) as [H1 _];
    [by apply findCreatedBetween_wf|by apply disputes_range_wf|]. unfold reportableOf, exactPeriod in *. lia.
Qed.

Lemma grossWithSplits_numbers b : 0 ≤ sb_splitProceeds b → grossWithSplits b = reportableOf (numbers b).
Proof. intros H. unfold grossWithSplits, reportableOf. cbn. destruct (Z.ltb_spec 0 (sb_splitProceeds b)); lia. Qed.

(** The amount of a month, also where there is no activity in the currency. *)
Lemma monthAmount_works c a b bs : Currency.wf c → breakdownsBetween mid a b ledger disputes = Ok bs →
  monthAmount (Currency.code c) bs = Ok (Money.mk (reportableOf (exactPeriod mid (Currency.code c) a b ledger disputes)) c None).
Proof.
  intros Hc Hbs. destruct (breakdownsBetween_ok mid a b ledger disputes ledger_ok disputes_ok) as (bs' & Hbs' & _ & _ & Hst & Hel).
  rewrite Hbs in Hbs'. injection Hbs' as <-. pose proof (period_nonneg (Currency.code c) a b) as Hpos. pose proof (Hst (Currency.code c)) as Hcode. unfold stated, atCode in Hcode.
  unfold monthAmount. destruct (List.find (λ b, String.eqb (sb_currencyCode b) (Currency.code c)) bs) as [b'|] eqn:Ef.
  - apply List.find_some in Ef as [Hb%list_elem_of_In He%String.eqb_eq]. specialize (Hel b' Hb). rewrite He, Hst in Hel.
    assert (grossWithSplits b' = reportableOf (exactPeriod mid (Currency.code c) a b ledger disputes)) as ->; [|by rewrite fromMinorUnits_wf_code].
    rewrite Hel. apply grossWithSplits_numbers. pose proof (period_split_nonneg (Currency.code c) a b) as H. rewrite Hel in H. exact H.
  - assert (exactPeriod mid (Currency.code c) a b ledger disputes = fresh (Currency.code c)) as ->; [|by rewrite zero_wf_code].
    destruct (List.find _ (numbers <$> bs)) as [x|] eqn:Ex; [|by rewrite <- Hcode]. exfalso.
    apply List.find_some in Ex as [Hx%list_elem_of_In He]. apply list_elem_of_fmap in Hx as (b' & -> & Hb). apply list_elem_of_In in Hb.
    pose proof (List.find_none _ _ Ef b' Hb) as H. cbn in H, He. congruence.
Qed.

(** ** Months *)

Definition month (y m : Z) : Date := JsDate.UTC y m 1.

Lemma month_next y m : month y m < month y (m + 1).
Proof. unfold month, JsDate.UTC, JsDate.MakeDate. pose proof (JsDate.MakeDay_next_month y m 1). unfold JsDate.msPerDay. lia. Qed.

Lemma month_later y m n : (0 ≤ n) → month y m ≤ month y (m + n).
Proof.
  intros Hn. pattern n. apply natlike_ind; [by rewrite Z.add_0_r| |done]. intros k Hk IH. pose proof (month_next y (m + k)). replace (m + Z.succ k) with (m + k + 1) by lia. lia.
Qed.

Lemma month_twelve y : month y 12 = month (y + 1) 0.
Proof. unfold month, JsDate.UTC, JsDate.MakeDay. change (12 / 12) with 1. change (12 mod 12) with 0. change (0 / 12) with 0. change (0 mod 12) with 0. by replace (y + 1 + 0) with (y + 1) by lia. Qed.

Definition inMonth (code : string) (y m : Z) : Z := reportableOf (exactPeriod mid code (month y m) (month y (m + 1)) ledger disputes).

Lemma empty_period code a : reportableOf (exactPeriod mid code a a ledger disputes) = 0.
Proof.
  pose proof (exactPeriod_split mid code a a a ledger disputes ltac:(lia)) as H. apply (f_equal reportableOf) in H. rewrite reportableOf_plus in H. lia.
Qed.

(** The first months of a year. *)
Lemma months_add_up code y n : sumZ (inMonth code y) (Z.of_nat <$> seq 0 n) = reportableOf (exactPeriod mid code (month y 0) (month y (Z.of_nat n)) ledger disputes).
Proof.
  induction n as [|n IH]; [by rewrite empty_period|]. rewrite seq_S, fmap_app, sumZ_app, IH. cbn [fmap list_fmap sumZ Nat.add]. rewrite Z.add_0_r. unfold inMonth.
  rewrite (exactPeriod_split mid code (month y 0) (month y (Z.of_nat n)) (month y (Z.of_nat (S n)))).
  - rewrite reportableOf_plus. by rewrite Nat2Z.inj_succ.
  - pose proof (month_later y 0 (Z.of_nat n) ltac:(lia)). pose proof (month_next y (Z.of_nat n)). rewrite Nat2Z.inj_succ. unfold Z.succ. rewrite Z.add_0_l in *. lia.
Qed.
End amounts.

(** ** The form *)

Section form.
Context `{W : World, T : TaxConfig}.
Implicit Types (s : report_state) (b : StatementCurrencyBreakdown).

Lemma dominates_total a b : dominates a b = true ∨ dominates b a = true.
Proof.
  unfold dominates. cbv zeta. destruct (Z.eqb_spec (grossWithSplits b - grossWithSplits a) 0), (Z.eqb_spec (grossWithSplits a - grossWithSplits b) 0); [apply localeBefore_total|lia|lia|].
  cbn [negb]. destruct (Z.ltb_spec 0 (grossWithSplits b - grossWithSplits a)), (Z.ltb_spec 0 (grossWithSplits a - grossWithSplits b)); cbn; auto. lia.
Qed.

Lemma dominates_spec a b : dominates a b = true ↔ grossWithSplits b < grossWithSplits a ∨ grossWithSplits b = grossWithSplits a ∧ localeBefore (sb_currencyCode a) (sb_currencyCode b) = true.
Proof.
  unfold dominates. cbv zeta. destruct (Z.eqb_spec (grossWithSplits b - grossWithSplits a) 0); cbn [negb]; [split; [right; split; [lia|done]|intros [?|[_ ?]]; [lia|done]]|].
  rewrite negb_true_iff, Z.ltb_ge. lia.
Qed.

Lemma dominates_trans a b c : dominates a b = true → dominates b c = true → dominates a c = true.
Proof. rewrite !dominates_spec. intros [?|[? ?]] [?|[? ?]]; try lia. right. split; [lia|]. by eapply localeBefore_trans. Qed.

(** The first of the sort has the largest gross. *)
Lemma dominant_first bs d rest : orderBy dominates bs = d :: rest → d ∈ bs ∧ ∀ b, b ∈ bs → grossWithSplits b ≤ grossWithSplits d.
Proof.
  intros Ho. assert (∀ b, b ∈ bs ↔ b ∈ d :: rest) as Hel by (intros b; by rewrite <- Ho, orderBy_elem). split; [apply Hel; left|]. intros b Hb%Hel.
  pose proof (orderBy_ordered dominates dominates_total dominates_trans bs) as Hs. rewrite Ho in Hs. apply StronglySorted_inv in Hs as [_ Hs].
  apply elem_of_cons in Hb as [->|Hb]; [done|]. rewrite List.Forall_forall in Hs. apply list_elem_of_In, Hs, dominates_spec in Hb. lia.
Qed.

Lemma order_nil bs : orderBy dominates bs = [] → bs = [].
Proof. intros H. pose proof (orderBy_perm dominates bs) as Hp. rewrite H in Hp. by apply Permutation_nil in Hp. Qed.

(** The monthly boxes. *)
Lemma monthly_works mid y c ms now s : steady s → ledger_wf (rp_ledger s) → disputes_wf (rp_disputesReplica s) → charges_credit (rp_ledger s) → Currency.wf c →
  ∃ s', run report_handle (monthly mid y (Currency.code c) ms) now s
    = (s', Ok ((λ m, Money.mk (inMonth mid (rp_ledger s) (rp_disputesReplica s) (Currency.code c) y m) c None) <$> ms)) ∧ calm s s'.
Proof.
  intros Hl Hled Hd Hcr Hc. revert s Hl Hled Hd Hcr. induction ms as [|m ms IH]; intros s Hl Hled Hd Hcr.
  { exists s. split; [done|]. exists (rg_calls (rp_registry s)). split; [by destruct s as [[]]|done]. }
  cbn [monthly]. rewrite run_bind_prog. pose proof (month_next y m) as Hlt. unfold month in Hlt.
  destruct (computeBreakdowns_works mid (JsDate.UTC y m 1) (JsDate.UTC y (m + 1) 1) now s Hl Hlt) as (s1 & -> & Hc1).
  destruct (breakdownsBetween_ok mid (JsDate.UTC y m 1) (JsDate.UTC y (m + 1) 1) (rp_ledger s) (rp_disputesReplica s) Hled Hd) as (bs & Hbs & _). rewrite Hbs.
  rewrite run_bind_of_result, (monthAmount_works mid _ _ Hled Hd Hcr c _ _ _ Hc Hbs).
  assert (rp_ledger s1 = rp_ledger s ∧ rp_disputesReplica s1 = rp_disputesReplica s) as [E1 E2] by by destruct Hc1 as (n & -> & _).
  destruct (IH s1) as (s2 & Hrun & Hc2); [by eapply calm_steady|by rewrite E1|by rewrite E2|by rewrite E1|]. rewrite run_bind_prog, Hrun, E1, E2, fmap_cons.
  exists s2. split; [|by eapply calm_trans]. cbn [run mret prog_ret]. unfold inMonth, month. reflexivity.
Qed.

(** A threshold that every currency can express. *)
Definition threshold_ok : Prop := ∀ c, Currency.wf c → is_ok (Money.of_ (Money.ANumber thresholdUsd) (Currency.code c) None) = true.

(** What a form says of the tables at one moment. *)
Record reports mid y s (f : MerchantTaxForm1099K.t) : Prop := {
  fr_merchant : MerchantTaxForm1099K.merchantId f = mid ∧ MerchantTaxForm1099K.taxYear f = y;
  fr_year : Money.amountMinorUnits (MerchantTaxForm1099K.grossAmount f)
    = reportableOf (exactPeriod mid (MerchantTaxForm1099K.currencyCode f) (month y 0) (month (y + 1) 0) (rp_ledger s) (rp_disputesReplica s));
  fr_count : MerchantTaxForm1099K.transactionCount f
    = bk_chargeCount (exactPeriod mid (MerchantTaxForm1099K.currencyCode f) (month y 0) (month (y + 1) 0) (rp_ledger s) (rp_disputesReplica s));
  fr_dominant code : reportableOf (exactPeriod mid code (month y 0) (month (y + 1) 0) (rp_ledger s) (rp_disputesReplica s))
    ≤ Money.amountMinorUnits (MerchantTaxForm1099K.grossAmount f);
  fr_months : Money.amountMinorUnits <$> MerchantTaxForm1099K.monthlyAmounts f
    = inMonth mid (rp_ledger s) (rp_disputesReplica s) (MerchantTaxForm1099K.currencyCode f) y <$> (Z.of_nat <$> seq 0 12);
  fr_sum : sumZ Money.amountMinorUnits (MerchantTaxForm1099K.monthlyAmounts f) = Money.amountMinorUnits (MerchantTaxForm1099K.grossAmount f);
  fr_threshold : Money.of_ (Money.ANumber thresholdUsd) (MerchantTaxForm1099K.currencyCode f) None = Ok (MerchantTaxForm1099K.thresholdApplied f);
  fr_reportable : MerchantTaxForm1099K.reportable f
    = (Money.amountMinorUnits (MerchantTaxForm1099K.thresholdApplied f) <=? Money.amountMinorUnits (MerchantTaxForm1099K.grossAmount f)) }.

Lemma sumZ_fmap {A B} (f : A → B) (g : B → Z) l : sumZ g (f <$> l) = sumZ (λ x, g (f x)) l.
Proof. induction l as [|x l IH]; [done|]. cbn. by rewrite IH. Qed.

Lemma threshold_currency c x th : Currency.wf c → Money.of_ (Money.ANumber x) (Currency.code c) None = Ok th → Money.currency th = c.
Proof.
  intros Hc. unfold Money.of_. rewrite Hc. cbn [mbind result_bind]. destruct (Num.is_nan x); [discriminate|]. destruct (Num.round_bigint _) as [n|]; [|discriminate].
  cbn [mbind result_bind]. unfold Money.make. case_match; [discriminate|]. by intros [= <-].
Qed.

(** The 1099-K of a year: when calls work, over a well-formed ledger whose charges
    credit, the service returns no form exactly when the merchant has no activity in the
    year; otherwise a form in the currency of the largest gross, whose Box 1a is the
    gross of the year, whose twelve boxes are the gross of each calendar month and add
    up to it, and which is reportable exactly when it reaches the threshold. *)
Theorem tax_form_exact (mid : string) (y : Z) (now : Date) (s : report_state) :
  steady s → ledger_wf (rp_ledger s) → disputes_wf (rp_disputesReplica s) → charges_credit (rp_ledger s) → threshold_ok →
  ∃ s' r, run report_handle (computeForMerchant mid y) now s = (s', Ok r)
    ∧ match r with
      | Some f => breakdownsBetween mid (month y 0) (month (y + 1) 0) (rp_ledger s) (rp_disputesReplica s) ≠ Ok [] ∧ reports mid y s f
      | None => breakdownsBetween mid (month y 0) (month (y + 1) 0) (rp_ledger s) (rp_disputesReplica s) = Ok []
      end.
Proof.
  intros Hl Hled Hd Hcr Hth. unfold computeForMerchant. cbv zeta. fold (month y 0) (month (y + 1) 0).
  assert (month y 0 < month (y + 1) 0) as Hlt.
  { rewrite <- month_twelve. pose proof (month_next y 0). pose proof (month_later y (0 + 1) 11 ltac:(lia)). change (0 + 1 + 11) with 12 in *. lia. }
  rewrite run_bind_prog. destruct (computeBreakdowns_works mid (month y 0) (month (y + 1) 0) now s Hl Hlt) as (s1 & -> & Hc1).
  destruct (breakdownsBetween_ok mid (month y 0) (month (y + 1) 0) (rp_ledger s) (rp_disputesReplica s) Hled Hd) as (bs & Hbs & Hwf & _ & Hst & Hel). rewrite Hbs.
  destruct (orderBy dominates bs) as [|d rest] eqn:Ho; [exists s1, None; split; [done|]; by rewrite (order_nil _ Ho)|].
  apply dominant_first in Ho as [Hd1 Hmax]. pose proof Hwf as Hwf'. rewrite Forall_forall in Hwf'. destruct (Hwf' d Hd1) as [(c & Hc & Hcode & _)].
  pose proof (period_split_nonneg mid _ (rp_disputesReplica s) Hled Hcr) as Hsp. pose proof (period_nonneg mid _ (rp_disputesReplica s) Hled Hd Hcr) as Hpos.
  assert (∀ b, b ∈ bs → grossWithSplits b = reportableOf (exactPeriod mid (sb_currencyCode b) (month y 0) (month (y + 1) 0) (rp_ledger s) (rp_disputesReplica s))) as Hg.
  { intros b Hb. specialize (Hsp (sb_currencyCode b) (month y 0) (month (y + 1) 0)). rewrite <- Hst, (Hel b Hb) in Hsp |- *. by apply grossWithSplits_numbers. }
  rewrite Hcode in *. assert (sb_currencyCode d = Currency.code c) as Hdc by done.
  rewrite run_bind_of_result, fromMinorUnits_wf_code by (done || rewrite (Hg d Hd1); apply Hpos).
  assert (rp_ledger s1 = rp_ledger s ∧ rp_disputesReplica s1 = rp_disputesReplica s) as [E1 E2] by by destruct Hc1 as (n & -> & _).
  destruct (monthly_works mid y c (Z.of_nat <$> seq 0 12) now s1) as (s2 & Hrun2 & Hc2); [by eapply calm_steady|by rewrite E1|by rewrite E2|by rewrite E1|done|].
  rewrite run_bind_prog, Hrun2, E1, E2. specialize (Hth c Hc). rewrite run_bind_of_result.
  destruct (Money.of_ (Money.ANumber thresholdUsd) (Currency.code c) None) as [th|] eqn:Eth; [|discriminate Hth].
  pose proof (threshold_currency _ _ _ Hc Eth) as Htc. rewrite run_bind_prog, run_accounts, run_call. cbn [account_handle fst snd]. rewrite run_bind_prog, run_accounts, run_call. cbn [account_handle fst snd].
  rewrite run_bind_of_result. unfold MerchantTaxForm1099K.create, Money.isLessThan, Money.assertSameCurrency. cbn [Money.currency]. rewrite Htc. unfold Currency.equals. rewrite String.eqb_refl.
  cbn [negb throw_if mbind result_bind]. eexists _, _. split; [reflexivity|]. split; [intros [= ->]; by apply not_elem_of_nil in Hd1|]. split; cbn [MerchantTaxForm1099K.merchantId MerchantTaxForm1099K.taxYear MerchantTaxForm1099K.grossAmount
    MerchantTaxForm1099K.currencyCode MerchantTaxForm1099K.transactionCount MerchantTaxForm1099K.monthlyAmounts MerchantTaxForm1099K.thresholdApplied MerchantTaxForm1099K.reportable Money.amountMinorUnits].
  - done.
  - by rewrite (Hg d Hd1), Hdc.
  - specialize (Hel d Hd1). rewrite Hdc, Hst in Hel. by rewrite Hel.
  - intros code. rewrite <- Hst. unfold stated, atCode. destruct (List.find _ (numbers <$> bs)) as [x|] eqn:Ex.
    + apply List.find_some in Ex as [Hx%list_elem_of_In _]. apply list_elem_of_fmap in Hx as (b & -> & Hb). rewrite <- (Hel b Hb), Hst, <- (Hg b Hb). by apply Hmax.
    + rewrite (Hg d Hd1). apply Hpos.
  - by rewrite <- list_fmap_compose.
  - rewrite sumZ_fmap. change (sumZ (inMonth mid (rp_ledger s) (rp_disputesReplica s) (Currency.code c) y) (Z.of_nat <$> seq 0 12) = grossWithSplits d).
    rewrite months_add_up, (Hg d Hd1), Hdc. change (Z.of_nat 12) with 12. by rewrite month_twelve.
  - done.
  - by rewrite Z.leb_antisym.
Qed.
End form.
