(* ===== verification/StatementRaces.v ===== *)
(** * Statements under concurrency

    Under every interleaving of on-demand requests, sweeps, bookings and disputes, and
    whatever calls fail: one statement per merchant and period, never changed, and the
    one a caller gets. What the statements do not say, and a request that fails because
    of the replica's lag, are exhibited. *)

From coqutil Require Datatypes.String.
From S2P Require Import Prelude Rows JsNumber JsDate Money Policies Payment Merchant Ledger LedgerCorrect Payout PayoutCorrect Dispute Redis Shared Program Sanctions Accounts AccountsCorrect Paging AccountsSweep Statement StatementCorrect StatementSweep TaxForm.

(** ** What reaches a replica *)

Inductive report_request :=
  | GENERATE (merchantId : string) (periodStart periodEnd : Date)
  | MONTHLY_SWEEP (fuel : nat) (now : Date)
  | GENERATE_FORM (merchantId : string) (taxYear : Z)
  | ANNUAL_SWEEP (fuel : nat) (now : Date)
  | BOOKING (event : LedgerOutboxEvent.t)
  | RESOLUTION (disputeId : string) (outcome : DisputeOutcome)
  | REPLICATED.

Definition serve_report `{TaxConfig} (r : report_request) : Reports (option MerchantStatement.t) :=
  match r with
  | GENERATE mid a b => st ← MerchantStatementService.generateForMerchant mid a b; mret (Some st)
  | MONTHLY_SWEEP fuel now => _ ← MerchantStatementService.runMonthlySweep fuel now; mret None
  | GENERATE_FORM mid y => _ ← TaxForm1099KService.generateForMerchant mid y; mret None
  | ANNUAL_SWEEP fuel now => _ ← TaxForm1099KService.runAnnualSweep fuel now; mret None
  | BOOKING ev => _ ← call (BOOK ev); mret None
  | RESOLUTION did outcome => _ ← call (RESOLVE_DISPUTE did outcome); mret None
  | REPLICATED => _ ← call CATCH_UP; mret None
  end.

(** The ledger books well-formed amounts. *)
Definition valid_report (r : report_request) : Prop := match r with BOOKING ev => entries_wf (LedgerOutboxEvent.entries ev) | _ => True end.

Section races.
Context `{W : World, T : TaxConfig}.
Implicit Types (s : report_state) (ls : list (option string)).

(** The ids drawn for statements that are not stored yet. *)
Definition pending ls : list string := omap id ls.

Record sound_reports s ls : Prop := {
  rs_written : written (rp_statements s);
  rs_keys : NoDup (keyOf <$> rp_statements s);
  rs_ids : NoDup (pending ls ++ (se_id <$> rp_statements s));
  rs_minted : ∀ i, i ∈ pending ls ++ (se_id <$> rp_statements s) → minted s i;
  rs_replica : rp_statementsReplica s `prefix_of` rp_statements s;
  rs_ledger : ledger_wf (rp_ledger s);
  rs_disputes : disputes_wf (rp_disputes s);
  rs_disputesReplica : disputes_wf (rp_disputesReplica s) }.

Definition extended s s' : Prop := rp_statements s `prefix_of` rp_statements s'.

#[local] Instance extended_preorder : PreOrder extended.
Proof. unfold extended. split; [intros s; reflexivity|intros s1 s2 s3 H1 H2; by etrans]. Qed.

(** Statements in the pool keep the invariant and what is stored. *)
Abbreviation runs p Φ s l := (wp report_handle sound_reports extended (λ _, True) p Φ (λ _ _ _, True) s l).

Lemma uuids_grow X (c : account_event X) now r : (rg_uuids r ≤ rg_uuids (account_handle X c now r).1)%nat.
Proof. destruct r, c; cbn [account_handle]; unfold faulty; repeat case_match; cbn; lia. Qed.

(** Everything but statements, in a state that has the same statements. *)
Lemma sound_same s s' ls : sound_reports s ls → rp_statements s' = rp_statements s → (rg_uuids (rp_registry s) ≤ rg_uuids (rp_registry s'))%nat →
  rp_statementsReplica s' `prefix_of` rp_statements s' → ledger_wf (rp_ledger s') → disputes_wf (rp_disputes s') → disputes_wf (rp_disputesReplica s') → sound_reports s' ls.
Proof.
  intros [H1 H2 H3 H4 H5 H6 H7 H8] E Hu Hr Hl Hd Hd'. rewrite E in Hr. split; rewrite ?E; try done. intros i Hi. destruct (H4 i Hi) as (n & Hn & ->). exists n. split; [lia|done].
Qed.

Lemma resolveIn_wf now did outcome l : disputes_wf l → disputes_wf (resolveIn now did outcome l).
Proof.
  intros Hl d (d0 & -> & Hd)%list_elem_of_fmap. specialize (Hl d0 Hd). case_match; [|done]. unfold Dispute.resolve. by destruct (Dispute.resolved d0).
Qed.

(** The events that leave the statements alone. *)
Definition harmless_event {X} (c : report_event X) : Prop :=
  match c with SAVE_STATEMENT _ => False | BOOK ev => entries_wf (LedgerOutboxEvent.entries ev) | _ => True end.

Lemma harmless_sound X (c : report_event X) now s ls s' r : harmless_event c → sound_reports s ls → report_handle X c now s = (s', r) →
  sound_reports s' ls ∧ rp_statements s' = rp_statements s.
Proof.
  intros Hc Hs Hh. assert (∀ s', s' = ptick s → sound_reports s' ls ∧ rp_statements s' = rp_statements s) as Htick.
  { intros ? ->. split; [|done]. apply (sound_same s); [done|done|done|apply Hs..]. }
  destruct c as [X c| | | | | | |ev|did outcome|]; cbn [report_handle] in Hh; try done.
  - pose proof (uuids_grow X c now (rp_registry s)) as Hu. destruct (account_handle X c now (rp_registry s)) as [reg x]. injection Hh as <- <-. split; [|done].
    apply (sound_same s); [done|done|exact Hu|apply Hs..].
  - unfold faulty in Hh. apply Htick. destruct (fault _); by injection Hh as <- <-.
  - unfold faulty in Hh. apply Htick. destruct (fault _); by injection Hh as <- <-.
  - unfold faulty in Hh. apply Htick. destruct (fault _); by injection Hh as <- <-.
  - unfold faulty in Hh. apply Htick. destruct (fault _); by injection Hh as <- <-.
  - destruct (MerchantTaxForm1099KTypeOrmRepository.save _ _) as [rows|]; [|apply Htick; by injection Hh as <- <-]. unfold faulty in Hh.
    destruct (fault _); injection Hh as <- <-; (split; [|done]); (apply (sound_same s); [done|done|done|apply Hs..]).
  - injection Hh as <- <-. split; [|done]. apply (sound_same s); [done|done|done|apply Hs| |apply Hs..].
    intros ev' [Hev|Hev%list_elem_of_singleton]%elem_of_app; [by apply Hs|by subst].
  - injection Hh as <- <-. split; [|done]. apply (sound_same s); [done|done|done|apply Hs|apply Hs|apply resolveIn_wf, Hs|apply Hs].
  - injection Hh as <- <-. split; [|done]. apply (sound_same s); [done|done|done|reflexivity|apply Hs..].
Qed.

(** One harmless event, with what its answer says. *)
Lemma runs_event {X} (c : report_event X) (Φ : report_state → option string → X → Prop) s l : harmless_event c →
  (∀ now s1 s2 x ls, extended s s1 → sound_reports s1 ls → report_handle X c now s1 = (s2, Ok x) → sound_reports s2 ls → extended s s2 → Φ s2 l x) →
  runs (call c) Φ s l.
Proof.
  intros Hc HΦ. apply wp_call. intros now s1 pre post _ Hg Hi. destruct (answers X c now s1) as (s2 & x & Hh). exists s2, x, l.
  destruct (harmless_sound _ _ _ _ _ _ _ Hc Hi Hh) as [Hi2 E]. assert (extended s1 s2) as Hg2 by (unfold extended; by rewrite E).
  split_and!; [done|done|done|]. eapply HΦ; [exact Hg|exact Hi|exact Hh|exact Hi2|by etrans].
Qed.

Lemma runs_ask {X} (c : report_event (result X)) (Φ : report_state → option string → X → Prop) s l : harmless_event c →
  (∀ now s1 s2 x ls, extended s s1 → sound_reports s1 ls → report_handle _ c now s1 = (s2, Ok (Ok x)) → sound_reports s2 ls → extended s s2 → Φ s2 l x) →
  runs (ask c) Φ s l.
Proof.
  intros Hc HΦ. apply wp_bind, runs_event; [done|]. intros now s1 s2 [x|e] ls H1 H2 H3 H4 H5; [|done]. exact (HΦ now s1 s2 x ls H1 H2 H3 H4 H5).
Qed.

(** Programs of harmless events. *)
Fixpoint harmless {A} (p : Reports A) : Prop := match p with Do c k => harmless_event c ∧ ∀ x, harmless (k x) | _ => True end.

Lemma harmless_bind {A B} (p : Reports A) (f : A → Reports B) : harmless p → (∀ a, harmless (f a)) → harmless (p ≫= f).
Proof. intros Hp Hf. induction p as [a|e|X c k IH]; cbn in *; [apply Hf|done|]. destruct Hp as [H1 H2]. split; [done|]. intros x. by apply IH. Qed.

Lemma harmless_result {A} (r : result A) : harmless (of_result r : Reports A).
Proof. by destruct r. Qed.

Lemma harmless_ask {X} (c : report_event (result X)) : harmless_event c → harmless (ask c).
Proof. intros Hc. apply harmless_bind; [by split|]. apply harmless_result. Qed.

Lemma harmless_accounts {A} (p : P A) : harmless (accounts p).
Proof. induction p as [a|e|X c k IH]; cbn; [done..|]. by split. Qed.

Lemma runs_harmless {A} (p : Reports A) s l : harmless p → runs p (λ _ _ _, True) s l.
Proof.
  revert s l. induction p as [a|e|X c k IH]; intros s l Hp; [done..|]. destruct Hp as [Hc Hk]. cbn. intros now s1 pre post _ Hg Hi.
  destruct (answers X c now s1) as (s2 & x & Hh). exists s2, (Ok x), l. destruct (harmless_sound _ _ _ _ _ _ _ Hc Hi Hh) as [Hi2 E].
  split_and!; [done|unfold extended; by rewrite E|done|]. by apply IH.
Qed.

Lemma runs_any {A} (p : Reports A) (Φ : report_state → option string → A → Prop) s l : harmless p → (∀ s' l' a, Φ s' l' a) → runs p Φ s l.
Proof. intros Hp HΦ. eapply wp_mono; [| |by apply runs_harmless]; auto. Qed.

(** ** The service *)

Lemma runs_compute mid a b (Φ : report_state → option string → list StatementCurrencyBreakdown → Prop) s l :
  (∀ s' bs, extended s s' → Forall breakdown_wf bs → Φ s' l bs) → runs (MerchantStatementService.computeBreakdowns mid a b) Φ s l.
Proof.
  intros HΦ. unfold MerchantStatementService.computeBreakdowns. case_match; [done|]. apply wp_bind, runs_ask; [done|]. intros n1 s1 s2 evs ls1 H1 I1 E1 _ G1.
  assert (ledger_wf evs) as Hevs. { cbn [report_handle] in E1. unfold faulty, broken in E1. destruct (fault _); simplify_eq. apply findCreatedBetween_wf, I1. }
  apply wp_bind, runs_ask; [done|]. intros n2 s3 s4 lost ls2 H2 I2 E2 _ G2.
  assert (disputes_wf lost) as Hlost. { cbn [report_handle] in E2. unfold faulty, broken in E2. destruct (fault _); simplify_eq. apply disputes_range_wf, I2. }
  destruct (breakdowns_ok mid evs lost Hevs Hlost) as (bs & -> & _ & Hwf). cbn. apply HΦ; [by etrans|done].
Qed.

(** A draw of an id, which the program holds from then on. *)
Lemma runs_draw (Φ : report_state → option string → string → Prop) s l :
  (∀ s' i, extended s s' → Φ s' (Some i) i) → runs (accounts (call UUID)) Φ s l.
Proof.
  intros HΦ. apply (wp_call report_handle sound_reports extended (λ _, True) (ACCOUNTS UUID)). intros now s1 pre post _ Hg Hi. cbn [report_handle account_handle].
  eexists _, _, (Some (uuid (rg_uuids (rp_registry s1)))). split; [reflexivity|]. split; [unfold extended; reflexivity|]. split; [|apply HΦ, Hg].
  destruct Hi as [H1 H2 H3 H4 H5 H6 H7 H8]. assert (∀ i, i ∈ pending (pre ++ l :: post) ++ (se_id <$> rp_statements s1) → i ≠ uuid (rg_uuids (rp_registry s1))) as Hnew.
  { intros i Hi ->. destruct (H4 _ Hi) as (n & Hn & He%uuid_inj). lia. }
  assert (pending (pre ++ Some (uuid (rg_uuids (rp_registry s1))) :: post) ≡ₚ uuid (rg_uuids (rp_registry s1)) :: pending (pre ++ post)) as Hp.
  { unfold pending. rewrite !omap_app. cbn. symmetry. apply Permutation_middle. }
  assert (pending (pre ++ post) `sublist_of` pending (pre ++ l :: post)) as Hsub.
  { unfold pending. rewrite !omap_app. apply sublist_app; [done|]. destruct l; cbn; [by apply sublist_cons|done]. }
  split; try done.
  - rewrite Hp. change (NoDup (uuid (rg_uuids (rp_registry s1)) :: (pending (pre ++ post) ++ (se_id <$> rp_statements s1)))). apply NoDup_cons. split.
    + intros Hin. apply (Hnew _) with (2 := eq_refl). eapply sublist_subseteq; [|exact Hin]. by apply sublist_app.
    + eapply sublist_NoDup; [exact H3|]. by apply sublist_app.
  - intros i. rewrite Hp. change (i ∈ uuid (rg_uuids (rp_registry s1)) :: (pending (pre ++ post) ++ (se_id <$> rp_statements s1)) → minted (s1 {{ rp_registry := (tick (rp_registry s1)) {{ rg_uuids := S (rg_uuids (rp_registry s1)) }} }}) i).
    rewrite elem_of_cons. intros [->|Hi].
    + exists (rg_uuids (rp_registry s1)). split; [|done]. change (rg_uuids (rp_registry s1) < S (rg_uuids (rp_registry s1)))%nat. lia.
    + destruct (H4 i) as (n & Hn & ->); [eapply sublist_subseteq; [|exact Hi]; by apply sublist_app|]. exists n. split; [|done]. change (n < S (rg_uuids (rp_registry s1)))%nat. lia.
Qed.

(** A save adds the row or fails. *)
Lemma save_adds e rows rows' : se_id e ∉ se_id <$> rows → MerchantStatementTypeOrmRepository.save e rows = Some rows' → keyOf e ∉ keyOf <$> rows ∧ rows' = rows ++ [e].
Proof.
  intros Hi Hs. assert (keyOf e ∉ keyOf <$> rows) as Hk; [|split; [done|]; rewrite save_new in Hs by done; congruence].
  intros (r & Hk & Hr)%list_elem_of_fmap. unfold MerchantStatementTypeOrmRepository.save in Hs.
  destruct (existsb _ rows) eqn:E in Hs; [discriminate Hs|]. apply not_true_iff_false in E. apply E, existsb_exists. exists r. split; [by apply list_elem_of_In|].
  apply andb_true_iff. split; [by apply samePeriod_key|]. apply negb_true_iff, String.eqb_neq. intros He. apply Hi. rewrite <- He. by apply list_elem_of_fmap_2.
Qed.

Lemma sound_stored s pre post st rows : statement_wf st → sound_reports s (pre ++ Some (MerchantStatement.id st) :: post) →
  MerchantStatementTypeOrmRepository.save (MerchantStatementTypeOrmRepository.toEntity st) (rp_statements s) = Some rows →
  rows = rp_statements s ++ [MerchantStatementTypeOrmRepository.toEntity st] ∧ sound_reports ((ptick s) {{ rp_statements := rows }}) (pre ++ None :: post).
Proof.
  intros Hst [H1 H2 H3 H4 H5 H6 H7 H8] Hsave. set (e := MerchantStatementTypeOrmRepository.toEntity st) in *.
  assert (pending (pre ++ Some (se_id e) :: post) ≡ₚ se_id e :: pending (pre ++ None :: post)) as Hp.
  { unfold pending. rewrite !omap_app. cbn. symmetry. apply Permutation_middle. }
  change (MerchantStatement.id st) with (se_id e) in *. rewrite Hp in H3. assert (∀ i, i ∈ se_id e :: (pending (pre ++ None :: post) ++ (se_id <$> rp_statements s)) → minted s i) as H4' by (intros i Hi; apply H4; by rewrite Hp).
  change (NoDup (se_id e :: (pending (pre ++ None :: post) ++ (se_id <$> rp_statements s)))) in H3.
  apply NoDup_cons in H3 as [Hnew H3]. destruct (save_adds e (rp_statements s) rows) as [Hk ->]; [intros Hin; apply Hnew, elem_of_app; by right|done|].
  assert (∀ X : list string, X ++ (se_id <$> rp_statements s ++ [e]) ≡ₚ se_id e :: X ++ (se_id <$> rp_statements s)) as Hids.
  { intros X. rewrite fmap_app. cbn. rewrite app_assoc. symmetry. apply Permutation_cons_append. }
  split; [done|]. split; cbn [rp_statements rp_statementsReplica rp_ledger rp_disputes rp_disputesReplica]; try done.
  - destruct H1 as (sts & -> & Hw). exists (sts ++ [st]). split; [by rewrite fmap_app|]. apply Forall_app. split; [done|by repeat constructor].
  - change (NoDup (keyOf <$> rp_statements s ++ [e])). rewrite fmap_app. apply NoDup_app. split_and!; [done| |apply NoDup_singleton]. intros k Hin ->%list_elem_of_singleton. done.
  - change (NoDup (pending (pre ++ None :: post) ++ (se_id <$> rp_statements s ++ [e]))). rewrite Hids. by apply NoDup_cons.
  - change (∀ i, i ∈ pending (pre ++ None :: post) ++ (se_id <$> rp_statements s ++ [e]) → minted s i). intros i. rewrite Hids. apply H4'.
  - change (rp_statementsReplica s `prefix_of` rp_statements s ++ [e]). by apply prefix_app_r.
Qed.

Lemma runs_save st (Φ : report_state → option string → unit → Prop) s : statement_wf st →
  (∀ s', extended s s' → MerchantStatementTypeOrmRepository.toEntity st ∈ rp_statements s' → Φ s' None tt) →
  runs (ask (SAVE_STATEMENT st)) Φ s (Some (MerchantStatement.id st)).
Proof.
  intros Hst HΦ. apply wp_bind, wp_call. intros now s1 pre post _ Hg Hi. cbn [report_handle].
  assert (sound_reports (ptick s1) (pre ++ Some (MerchantStatement.id st) :: post)) as Htick by (apply (sound_same s1); [done|done|done|apply Hi..]).
  destruct (MerchantStatementTypeOrmRepository.save _ _) as [rows|] eqn:Es; [|eexists _, _, (Some _); split; [reflexivity|]; split; [unfold extended; reflexivity|]; split; [exact Htick|done]].
  destruct (sound_stored s1 pre post st rows Hst Hi Es) as [-> Hi2]. set (s2 := (ptick s1) {{ rp_statements := _ }}) in *.
  assert (extended s1 s2) as Hg2 by by apply prefix_app_r. unfold faulty, broken. destruct (fault _).
  - eexists _, _, None. split; [reflexivity|]. split; [exact Hg2|]. split; [exact Hi2|]. cbn. apply HΦ; [by etrans|]. apply elem_of_app. right. left.
  - eexists _, _, (Some _). split; [reflexivity|]. split; [unfold extended; reflexivity|]. split; [exact Htick|done].
  - eexists _, _, None. split; [reflexivity|]. split; [exact Hg2|]. by split.
Qed.

Lemma runs_store mid a b bs (Φ : report_state → option string → MerchantStatement.t → Prop) s l : Forall breakdown_wf bs →
  (∀ s' st, extended s s' → MerchantStatementTypeOrmRepository.toEntity st ∈ rp_statements s' → Φ s' None st) →
  runs (MerchantStatementService.store mid a b bs) Φ s l.
Proof.
  intros Hbs HΦ. apply wp_bind, runs_draw. intros s1 i G1. apply wp_bind, (runs_event (ACCOUNTS CLOCK)); [done|]. intros _ _ s2 now _ _ _ _ _ G2.
  apply wp_bind, (runs_save (MerchantStatement.create now i mid a b bs)); [done|]. intros s3 G3 Hin. apply HΦ; [|done]. by do 2 (etrans; [eassumption|]).
Qed.

Lemma runs_find mid a b (Φ : report_state → option string → option MerchantStatement.t → Prop) s l :
  (∀ s' r, extended s s' → (∀ st, r = Some st → MerchantStatementTypeOrmRepository.toEntity st ∈ rp_statements s') → Φ s' l r) →
  runs (ask (FIND_STATEMENT mid a b)) Φ s l.
Proof.
  intros HΦ. apply runs_ask; [done|]. intros now s1 s2 r ls G1 I1 E1 I2 G2. apply HΦ; [done|]. intros st ->. cbn [report_handle] in E1. unfold faulty, broken in E1.
  assert (MerchantStatementTypeOrmRepository.findByMerchantAndPeriod mid a b (rp_statementsReplica s1) = Ok (Some st) ∧ rp_statements s2 = rp_statements s1) as [Hf ->].
  { destruct (fault _); simplify_eq. done. }
  destruct (rs_replica _ _ I1) as [rest Hpre]. rewrite Hpre. apply elem_of_app. left. unfold MerchantStatementTypeOrmRepository.findByMerchantAndPeriod in Hf.
  destruct (List.find _ (rp_statementsReplica s1)) as [e|] eqn:Ef; [|discriminate Hf]. apply List.find_some in Ef as [He%list_elem_of_In _].
  destruct (rs_written _ _ I1) as (sts & Hw & Hwf). assert (e ∈ rp_statements s1) as He1 by (rewrite Hpre; apply elem_of_app; by left).
  rewrite Hw in He1. apply list_elem_of_fmap in He1 as (st' & -> & Hst). rewrite Forall_forall in Hwf. rewrite statement_roundtrip in Hf by by apply Hwf.
  injection Hf as ->. done.
Qed.

Lemma runs_generate mid a b (Φ : report_state → option string → MerchantStatement.t → Prop) s l :
  (∀ s' l' st, MerchantStatementTypeOrmRepository.toEntity st ∈ rp_statements s' → Φ s' l' st) → runs (MerchantStatementService.generateForMerchant mid a b) Φ s l.
Proof.
  intros HΦ. apply wp_bind, runs_find. intros s1 [st|] G1 Hst; [by apply HΦ, Hst|]. apply wp_bind, runs_compute. intros s2 bs G2 Hbs.
  apply runs_store; [done|]. intros s3 st G3 Hin. by apply HΦ.
Qed.

Lemma runs_sweepOne a b m s l : runs (MerchantStatementService.sweepOne a b m) (λ _ _ _, True) s l.
Proof.
  apply wp_bind, runs_compute. intros s1 bs G1 Hbs. destruct bs as [|x bs]; [done|]. apply wp_bind, runs_find. intros s2 [st|] G2 _; [done|].
  apply wp_bind, runs_store; [done|]. done.
Qed.

Lemma harmless_compute mid a b : harmless (MerchantStatementService.computeBreakdowns mid a b).
Proof.
  unfold MerchantStatementService.computeBreakdowns. case_match; [done|]. apply harmless_bind; [by apply harmless_ask|]. intros evs. apply harmless_bind; [by apply harmless_ask|].
  intros lost. apply harmless_result.
Qed.

Lemma harmless_monthly mid y code ms : harmless (TaxForm1099KService.monthly mid y code ms).
Proof.
  induction ms as [|m ms IH]; [done|]. apply harmless_bind; [apply harmless_compute|]. intros bs. apply harmless_bind; [apply harmless_result|]. intros x. by apply harmless_bind.
Qed.

Lemma harmless_form mid y : harmless (TaxForm1099KService.computeForMerchant mid y).
Proof.
  apply harmless_bind; [apply harmless_compute|]. intros bs. destruct (orderBy _ bs); [done|]. cbv zeta.
  repeat (apply harmless_bind; [apply harmless_result || apply harmless_monthly || apply harmless_accounts|]; intros ?). done.
Qed.

Lemma runs_serve r s : valid_report r → runs (serve_report r) (λ s' _ o, ∀ st, o = Some st → MerchantStatementTypeOrmRepository.toEntity st ∈ rp_statements s') s None.
Proof.
  intros Hv. destruct r as [mid a b|fuel now|mid y|fuel now|ev|did outcome|]; cbn [serve_report]; apply wp_bind.
  - apply runs_generate. intros s' l' st Hin. cbn. by intros ? [= <-].
  - eapply wp_mono; [..|unfold MerchantStatementService.runMonthlySweep; destruct (MerchantStatementService.previousMonth now) as [a b];
      apply (wp_forPages report_handle sound_reports extended (λ _, True))].
    + done.
    + done.
    + intros afterId s1 g1 Φ HΦ. apply runs_any; [apply harmless_accounts|auto].
    + intros l1 c1 s1 g1 Φ HΦ. apply (wp_allSettled report_handle sound_reports extended (λ _, True)); [exact HΦ|]. intros. apply runs_sweepOne.
  - apply runs_any; [|done]. apply harmless_bind; [by apply harmless_ask|]. intros [f|]; [done|]. apply harmless_bind; [apply harmless_form|]. intros [f|]; [|done].
    apply harmless_bind; [by apply harmless_ask|done].
  - eapply wp_mono; [..|apply (wp_forPages report_handle sound_reports extended (λ _, True))].
    + done.
    + done.
    + intros afterId s1 g1 Φ HΦ. apply runs_any; [apply harmless_accounts|auto].
    + intros l1 c1 s1 g1 Φ HΦ. apply (wp_allSettled report_handle sound_reports extended (λ _, True)); [exact HΦ|]. intros m s2 g2. apply runs_any; [|done].
      apply harmless_bind; [by apply harmless_ask|]. intros [f|]; [done|]. apply harmless_bind; [apply harmless_form|]. intros [f|]; [|done]. apply harmless_bind; [by apply harmless_ask|done].
  - by apply runs_any.
  - by apply runs_any.
  - by apply runs_any.
Qed.

(** C37: statements are immutable: under every interleaving of on-demand requests, sweeps,
    tax forms, bookings, dispute resolutions and a lagging replica, and whatever calls
    fail or lose their answer, a stored statement is never changed or removed, there is
    at most one per merchant and period, and a request that returns a statement returns
    the stored one. *)
Theorem statements_immutable (requests : list report_request) (now : Date) (s : report_state) c :
  (∀ r, r ∈ requests → valid_report r) → sound_reports s (replicate (length requests) None) →
  rtc (interleave report_handle) (mkConfig now s (serve_report <$> requests)) c →
  rp_statements s `prefix_of` rp_statements (memory c) ∧ NoDup (keyOf <$> rp_statements (memory c))
  ∧ ∀ i st, pool c !! i = Some (Ret (Some st)) → MerchantStatementTypeOrmRepository.toEntity st ∈ rp_statements (memory c).
Proof.
  intros Hv Hs Hrun. pose (Φ := λ (s' : report_state) (_ : option string) (o : option MerchantStatement.t), ∀ st, o = Some st → MerchantStatementTypeOrmRepository.toEntity st ∈ rp_statements s').
  assert (Forall2 (keeps_going report_handle sound_reports extended (λ _, True) Φ (λ _ _ _, True) s) (serve_report <$> requests) (replicate (length requests) None)) as Hpool.
  { clear -Hv. induction requests as [|r requests IH]; [constructor|]. cbn. constructor; [|apply IH; intros; apply Hv; by right]. exists s. split; [reflexivity|]. apply runs_serve, Hv. left. }
  destruct (pool_run report_handle sound_reports extended (λ _, True) Φ (λ _ _ _, True) _ _ (replicate (length requests) None) Hrun) as (ls & Hi & Hall); [done|exact Hs|exact Hpool|].
  split_and!; [exact (pool_grows report_handle sound_reports extended (λ _, True) Φ (λ _ _ _, True) _ _ _ Hrun (λ _, I) Hs Hpool)|apply Hi|].
  - intros i st Hret. destruct (Forall2_lookup_l _ _ _ _ _ Hall Hret) as (l & Hl & s0 & Hg & Hw). destruct Hg as [rest ->]. apply elem_of_app. left. by apply Hw.
Qed.
End races.

(** * Statements and tax forms: concrete periods

    Witnesses of the theorems on statements and forms, and periods whose statements
    leave something out or add up what does not belong together. *)

(** A merchant of this id. *)
Definition shop (i : string) : Account :=
  MerchantService.newAccount i "ak_1" "hash" "cipher" 0 sample_dto (mkSanctionsScreeningOutcome CLEAR DEGRADED None None).

(** The default threshold; currency codes by their characters. *)
#[global] Instance sample_tax : TaxConfig := {|
  thresholdUsd := DEFAULT_1099K_THRESHOLD_USD;
  localeBefore := λ a b, beforeId (shop a) (shop b);
  localeBefore_total := λ a b, beforeId_total (shop a) (shop b);
  localeBefore_trans := λ a b c, beforeId_trans (shop a) (shop b) (shop c) |}.

(** ** A ledger *)

Definition january : Date := JsDate.UTC 2026 0 1.
Definition february : Date := JsDate.UTC 2026 1 1.
Definition march : Date := JsDate.UTC 2026 2 1.
Definition noon (d : Date) : Date := d + 12 * 60 * 60 * 1000.

Definition eventOf (r : result LedgerOutboxEvent.t) : LedgerOutboxEvent.t :=
  match r with Ok ev => ev | Throw _ => LedgerOutboxEvent.mk "" "" "" [] LedgerOutboxEvent.PENDING 0 None 0 None end.

(** 100.00 USD with a fee of 1.50. *)
Definition charge_params (reserve : option Money.t) (conv : option ConvertedAmount) (splits : option (list ChargeSplit)) : ChargeEntriesParams :=
  mkChargeEntriesParams "ev_1" "pay_1" "acme" (usd 10000) (usd 150) conv reserve splits.

Definition charge_event (at_ : Date) : LedgerOutboxEvent.t := eventOf (LedgerOutboxEvent.createChargeEntries at_ (charge_params None None None)).
Definition refund_event (at_ : Date) : LedgerOutboxEvent.t :=
  eventOf (LedgerOutboxEvent.createRefundEntries at_ (mkRefundEntriesParams "ev_2" "pay_1" "acme" (usd 3000) None None (Some (usd 10000)))).

Definition sample_ledger : list LedgerOutboxEvent.t := [charge_event (january + 9); refund_event (february + 9)].

Definition fraud (status : DisputeStatus) : Dispute.t :=
  (Dispute.create (january + 10) "d_1" "pay_1" "acme" STRIPE "dp_1" (usd 10000) (Some "fraudulent"%string) None None None None) {{ Dispute._status := status }}.

Lemma sample_ledger_wf : ledger_wf sample_ledger.
Proof.
  intros ev Hev. apply Forall_forall. intros e He. apply elem_of_cons in Hev as [->|Hev]; [|apply list_elem_of_singleton in Hev as ->]; vm_compute in He;
    repeat (apply elem_of_cons in He as [->|He]; [split; vm_compute; [discriminate|reflexivity]|]); by apply not_elem_of_nil in He.
Qed.

Lemma sample_disputes_wf st : disputes_wf [fraud st].
Proof. intros d ->%list_elem_of_singleton. by apply usd_wf. Qed.

(** The charge and the refund as deals. *)
Definition sample_deals : list (option deal) :=
  [Some (mkDeal "acme" (january + 9) (SOLD (usd 10000) (usd 150))); Some (mkDeal "acme" (february + 9) (RETURNED (usd 3000)))].

Definition sample_reports : report_state := mkReportState emptyRegistry sample_ledger [fraud (RESOLVED LOST)] [fraud (RESOLVED LOST)] [] [] [] [].

Lemma sample_rows : Forall2 (rowOf "acme") sample_ledger sample_deals.
Proof.
  unfold sample_ledger, sample_deals. constructor; [|constructor; [|constructor]].
  - split; [reflexivity|]. exists "ev_1"%string, "pay_1"%string, (charge_event (january + 9)). split_and!; vm_compute; reflexivity.
  - split; [exact I|]. exists "ev_2"%string, "pay_1"%string, (refund_event (february + 9)). split_and!; vm_compute; reflexivity.
Qed.

Lemma statement_exact_witness : ∃ s' bs, run report_handle (MerchantStatementService.computeBreakdowns "acme" january march) 0 sample_reports = (s', Ok bs)
  ∧ stated bs "USD" = mkBreakdown "USD" 1 10000 150 0 3000 1 10000 0 6850.
Proof.
  destruct (statement_exact "acme" january march 0 sample_reports sample_deals) as (s' & bs & Hrun & _ & _ & Hst).
  - by intros n _.
  - exact sample_ledger_wf.
  - apply sample_disputes_wf.
  - exact sample_rows.
  - exists s', bs. split; [exact Hrun|]. rewrite Hst. vm_compute. reflexivity.
Defined.

Lemma net_settlement_reconciles_witness :
  PayoutService.mkBalance "acme" "USD" 9850 ∈ PayoutService.netByAccount (PayoutService.findCreatedBetween january february sample_ledger).
Proof.
  destruct (breakdownsBetween_ok "acme" january february sample_ledger [] sample_ledger_wf) as (bs & Hbs & _); [by intros ? ?%not_elem_of_nil|].
  apply (net_settlement_reconciles "acme" january february sample_ledger [] bs); [exact sample_ledger_wf|by intros ? ?%not_elem_of_nil|exact Hbs|].
  vm_compute in Hbs. injection Hbs as <-. split.
  - exists (charge_event (january + 9)). eexists. split; [apply list_elem_of_In; left; reflexivity|]. split; [apply list_elem_of_In; left; reflexivity|reflexivity].
  - eexists. split; [left|done].
Defined.

Lemma adjacent_periods_add_up_witness : ∃ whole part1 part2, breakdownsBetween "acme" january march sample_ledger [fraud (RESOLVED LOST)] = Ok whole
  ∧ breakdownsBetween "acme" january february sample_ledger [fraud (RESOLVED LOST)] = Ok part1
  ∧ breakdownsBetween "acme" february march sample_ledger [fraud (RESOLVED LOST)] = Ok part2
  ∧ ∀ code, stated whole code = plus (stated part1 code) (stated part2 code).
Proof.
  apply (adjacent_periods_add_up "acme" january february march sample_ledger [fraud (RESOLVED LOST)]); [split; by vm_compute|exact sample_ledger_wf|apply sample_disputes_wf].
Defined.

(** ** A sweep *)

Definition shop_registry : registry := mkRegistry [shop "id0"] [shop "id0"] SanctionsListStore.init [] [] [] [] 1 0.

Definition shop_state (ledger : list LedgerOutboxEvent.t) (disputes : list Dispute.t) : report_state :=
  mkReportState shop_registry ledger disputes disputes [] [] [] [].

Lemma written_nil : written [].
Proof. by exists []. Qed.

Lemma monthly_sweep_exact_witness : ∃ s' st, run report_handle (MerchantStatementService.runMonthlySweep 1 (noon february)) (noon february) (shop_state sample_ledger [])
    = (s', Ok (Some (mkReportCounts 1 0)))
  ∧ rp_statements s' = [MerchantStatementTypeOrmRepository.toEntity st] ∧ numbers <$> MerchantStatement.breakdowns st = [mkBreakdown "USD" 1 10000 150 0 0 0 0 0 9850].
Proof.
  destruct (monthly_sweep_exact (noon february) 1 (shop_state sample_ledger [])) as (s' & new & Hrun & Hst & Hnew & _).
  - intros n _. reflexivity.
  - apply NoDup_singleton.
  - apply NoDup_singleton.
  - intros m ->%list_elem_of_singleton. done.
  - cbn. lia.
  - intros r Hr. by apply not_elem_of_nil in Hr.
  - exact sample_ledger_wf.
  - by intros ? ?%not_elem_of_nil.
  - exact written_nil.
  - reflexivity.
  - pose proof (Forall2_length _ _ _ Hnew) as Hlen. destruct new as [|st [|st2 new]]; [vm_compute in Hlen; discriminate Hlen| |vm_compute in Hlen; discriminate Hlen].
    exists s', st. split; [exact Hrun|]. split; [exact Hst|]. destruct (Forall2_lookup_r _ _ _ 0 st Hnew eq_refl) as (m & Hm & _ & _ & _ & Hd & _).
    apply list_elem_of_lookup_2, list_elem_of_filter in Hm as [_ [Hm _]%candidates_in]. apply list_elem_of_singleton in Hm as ->. clear -Hd. vm_compute in Hd.
    injection Hd as Hd. destruct st as [? ? ? ? bs ?]. cbn in Hd |- *. subst bs. reflexivity.
Defined.

(** ** A form *)

Lemma sample_threshold_ok : threshold_ok.
Proof.
  intros c Hc. unfold Money.of_. rewrite Hc. cbn [mbind result_bind]. unfold Currency.wf, Currency.of_ in Hc. cbv zeta in Hc. case_match; [discriminate Hc|]. injection Hc as Hc.
  rewrite <- Hc. unfold Currency.decimalFactor. cbn [Currency.minorUnits]. unfold Currency.CURRENCY_MAP. repeat case_match; by vm_compute.
Qed.

Lemma sample_charges_credit : charges_credit sample_ledger.
Proof.
  intros ev e Hev Ht He Hm. apply elem_of_cons in Hev as [->|Hev]; [|apply list_elem_of_singleton in Hev as ->; vm_compute in Ht; discriminate Ht].
  vm_compute in He. repeat (apply elem_of_cons in He as [->|He]; [vm_compute in Hm |- *; (reflexivity || discriminate Hm)|]). by apply not_elem_of_nil in He.
Qed.

Lemma tax_form_exact_witness : ∃ s' f, run report_handle (TaxForm1099KService.computeForMerchant "acme" 2026) (noon february) (shop_state sample_ledger []) = (s', Ok (Some f))
  ∧ reports "acme" 2026 (shop_state sample_ledger []) f.
Proof.
  destruct (tax_form_exact "acme" 2026 (noon february) (shop_state sample_ledger [])) as (s' & r & Hrun & Hr).
  - intros n _. reflexivity.
  - exact sample_ledger_wf.
  - by intros ? ?%not_elem_of_nil.
  - exact sample_charges_credit.
  - exact sample_threshold_ok.
  - destruct r as [f|]; [exists s', f; split; [exact Hrun|apply Hr]|]. exfalso. vm_compute in Hr. discriminate Hr.
Defined.

(** ** Interleavings *)

Definition two_requests : list report_request := [GENERATE "acme" january february; GENERATE "acme" january february].

Lemma shop_sound n : sound_reports (shop_state sample_ledger []) (replicate n None).
Proof.
  assert (pending (replicate n None) = []) as Hp by (induction n; done). split; cbn; rewrite ?Hp.
  - exact written_nil.
  - constructor.
  - constructor.
  - intros i []%not_elem_of_nil.
  - done.
  - exact sample_ledger_wf.
  - by intros ? ?%not_elem_of_nil.
  - by intros ? ?%not_elem_of_nil.
Qed.

(** The configuration a schedule leads to. *)
Definition after (turns : list nat) (requests : list report_request) (s : report_state) : @config report_event report_state (option MerchantStatement.t) :=
  schedule report_handle turns (mkConfig (noon february) s (serve_report <$> requests)).

Lemma statements_immutable_witness : ∃ c st, rtc (interleave report_handle) (mkConfig (noon february) (shop_state sample_ledger []) (serve_report <$> two_requests)) c
  ∧ pool c !! 0%nat = Some (Ret (Some st)) ∧ MerchantStatementTypeOrmRepository.toEntity st ∈ rp_statements (memory c).
Proof.
  pose proof (schedule_reaches report_handle (replicate 6 0%nat) (mkConfig (noon february) (shop_state sample_ledger []) (serve_report <$> two_requests))) as Hr.
  assert (∃ st, pool (after (replicate 6 0%nat) two_requests (shop_state sample_ledger [])) !! 0%nat = Some (Ret (Some st))) as (st & Hst) by (eexists; vm_compute; reflexivity).
  unfold after in Hst. generalize dependent (schedule report_handle (replicate 6 0%nat) (mkConfig (noon february) (shop_state sample_ledger []) (serve_report <$> two_requests))).
  intros c Hr Hst. exists c, st. split; [exact Hr|]. split; [exact Hst|].
  destruct (statements_immutable two_requests (noon february) (shop_state sample_ledger []) c) as (_ & _ & H); [|exact (shop_sound 2)|exact Hr|exact (H 0%nat st Hst)].
  intros r Hin. apply elem_of_cons in Hin as [->|Hin]; [exact I|]. apply list_elem_of_singleton in Hin as ->. exact I.
Defined.

(** ** Where statements fall short *)

(** What a statement over one event says. *)
Definition statementOver (mid : string) (r : result LedgerOutboxEvent.t) : result (list MutableBreakdown) :=
  ev ← r; (λ bs : list StatementCurrencyBreakdown, numbers <$> bs) <$> Breakdowns.breakdownsOf mid [ev] [].

(** A charge of 100.00 of which 5.00 are held in reserve: the gross volume is 95.00. *)
Theorem reserve_missing_from_gross :
  statementOver "acme" (LedgerOutboxEvent.createChargeEntries january (charge_params (Some (usd 500)) None None)) = Ok [mkBreakdown "USD" 1 9500 150 0 0 0 0 0 9350].
Proof. by vm_compute. Qed.

Definition yen (n : Z) : Money.t := Money.mk n (Currency.mk "JPY" 0) None.

(** A charge of 10000 yen with a fee of 150 yen, settled as 64.00 USD: the statement
    adds the fee in yen to the credit in cents, and shows it as a fee of 1.50 USD. *)
Theorem converted_gross_adds_currencies :
  statementOver "acme" (LedgerOutboxEvent.createChargeEntries january
      (mkChargeEntriesParams "ev_1" "pay_1" "acme" (yen 10000) (yen 150) (Some (mkConvertedAmount (usd 6400) (Num.lit 65 10000) "ecb")) None None))
  = Ok [mkBreakdown "USD" 1 6550 150 0 0 0 0 0 6400].
Proof. by vm_compute. Qed.

(** A marketplace charge that goes to one connected merchant entirely: the recipient's
    statement shows it as a direct charge, with the platform's fee. *)
Theorem full_split_counted_direct :
  statementOver "c_1" (LedgerOutboxEvent.createChargeEntries january (charge_params None None (Some [mkChargeSplit "c_1" (usd 9850) None])))
  = Ok [mkBreakdown "USD" 1 10000 150 0 0 0 0 0 9850].
Proof. by vm_compute. Qed.

(** All programs have ended, and a view of the state. *)
Definition reports_ended (c : @config report_event report_state (option MerchantStatement.t)) : bool :=
  forallb (λ p, match p with Ret _ => true | _ => false end) (pool c).

Definition chargebacksOf (e : MerchantStatementEntity) : list (Date * Z) := (λ r, (se_periodStart e, rb_chargebackCount r)) <$> se_breakdowns e.

(** A dispute received in January and lost in February, after January's statement: it is
    on neither statement, although the two months contain it. *)
Theorem late_loss_on_no_statement :
  let s0 := shop_state sample_ledger [fraud UNDER_REVIEW] in
  let s1 := (run report_handle (MerchantStatementService.runMonthlySweep 1 (noon february)) (noon february) s0).1 in
  let s2 := (run report_handle (_ ← call (RESOLVE_DISPUTE "d_1" LOST); call CATCH_UP) (february + 10) s1).1 in
  let s3 := (run report_handle (MerchantStatementService.runMonthlySweep 1 (noon march)) (noon march) s2).1 in
  concat (chargebacksOf <$> rp_statements s3) = [(january, 0); (february, 0)]
  ∧ findByMerchantStatusInRange "acme" (RESOLVED LOST) january march (rp_disputesReplica s3) ≠ [].
Proof. vm_compute. split; [reflexivity|discriminate]. Qed.

(** Two requests for the same period, the second before the replica has caught up: it
    fails on the unique index instead of returning the statement. *)
Theorem repeated_request_fails :
  ∃ c, rtc (interleave report_handle) (mkConfig (noon february) (shop_state sample_ledger []) (serve_report <$> two_requests)) c
    ∧ (λ p, match p with Ret (Some st) => Some (Ok (MerchantStatement.merchantId st)) | Fail e => Some (Throw e) | _ => None end) <$> pool c
      = [Some (Ok "acme"%string); Some (Throw (ExternalFailure "duplicate key"))].
Proof. exists (after (replicate 6 0%nat ++ replicate 6 1%nat) two_requests (shop_state sample_ledger [])). split; [apply schedule_reaches|by vm_compute]. Qed.
