(* ===== verification/Semaphore.v ===== *)
(** * The semaphore in front of a provider

    [semaphore.ts]: the bulkhead of the PSP adapters. It lives in one process, whose
    callers interleave wherever [run] awaits: at the permit and at the operation.
    [semaphore_exact] says that it serves its callers in the order of arrival, as many
    at once as it has permits. *)

From S2P Require Import Prelude.

(** ** The semaphore *)

Module Semaphore.

(** The queue holds the [resolve] functions of the waiting callers, here the callers
    themselves. The number of permits is a whole number. *)
Record t := mkSemaphore { available : Z; queue : list nat }.

Definition constructor (maxConcurrent : Z) : t := mkSemaphore maxConcurrent [].

(** The answer says whether the promise is resolved at once. *)
Definition acquire (caller : nat) (s : t) : t * bool :=
  if 0 <? available s then (mkSemaphore (available s - 1) (queue s), true)
  else (mkSemaphore (available s) (queue s ++ [caller]), false).

(** The answer is the caller whose promise is resolved, if any. *)
Definition release (s : t) : t * option nat :=
  match queue s with
  | next :: rest => (mkSemaphore (available s) rest, Some next)
  | [] => (mkSemaphore (available s + 1) [], None)
  end.
End Semaphore.

(** ** The callers of [run] *)

(** Where a call of [run] stands: at [await this.acquire()], behind it, at
    [await fn()], or at its end, with the value or the error of the operation. *)
Inductive stage := Waiting | Permitted | Inside | Settled (fulfilled : bool).

Record process := mkProcess { semaphore : Semaphore.t; calls : list stage }.

Inductive turn :=
  | CALL                                  (* a new caller, numbered by arrival *)
  | START (caller : nat)                  (* a caller goes on after its permit *)
  | SETTLE (caller : nat) (fulfilled : bool). (* an operation ends *)

Definition run_turn (e : turn) (p : process) : option process :=
  match e with
  | CALL =>
      let '(s, resolved) := Semaphore.acquire (length (calls p)) (semaphore p) in
      Some (mkProcess s (calls p ++ [if resolved : bool then Permitted else Waiting]))
  | START i =>
      match calls p !! i with
      | Some Permitted => Some (mkProcess (semaphore p) (<[i := Inside]> (calls p)))
      | _ => None
      end
  | SETTLE i fulfilled =>
      match calls p !! i with
      | Some Inside =>
          let '(s, next) := Semaphore.release (semaphore p) in
          let settled := <[i := Settled fulfilled]> (calls p) in
          Some (mkProcess s match next with Some j => <[j := Permitted]> settled | None => settled end)
      | _ => None
      end
  end.

Definition turns (p p' : process) : Prop := ∃ e, run_turn e p = Some p'.

Definition fresh_process (maxConcurrent : Z) : process := mkProcess (Semaphore.constructor maxConcurrent) [].

(** ** What it promises *)

Definition unsettled (c : stage) : bool := match c with Settled _ => false | _ => true end.
Definition holds_permit (c : stage) : bool := match c with Permitted | Inside => true | _ => false end.

(** The callers at certain stages, in the order of arrival. *)
Definition callers (P : stage → bool) (l : list stage) : list nat :=
  List.filter (λ i, from_option P false (l !! i)) (seq 0 (length l)).
Arguments callers : simpl never.

(** The callers that have not ended: the first of them have permits, the others wait. *)
Record served (maxConcurrent : Z) (p : process) (holders waiting : list nat) : Prop := mkServed {
  sv_active : callers unsettled (calls p) = holders ++ waiting;
  sv_holders : Forall (λ i, from_option holds_permit false (calls p !! i) = true) holders;
  sv_waiting : Forall (λ i, calls p !! i = Some Waiting) waiting;
  sv_queue : Semaphore.queue (semaphore p) = waiting;
  sv_available : Semaphore.available (semaphore p) = maxConcurrent - Z.of_nat (length holders);
  sv_bounded : Z.of_nat (length holders) ≤ Z.max 0 maxConcurrent;
  sv_busy : waiting ≠ [] → Semaphore.available (semaphore p) ≤ 0 }.

Lemma callers_NoDup P l : NoDup (callers P l).
Proof. apply NoDup_ListNoDup, List.NoDup_filter, NoDup_ListNoDup, NoDup_seq. Qed.

Lemma callers_elem P l i : i ∈ callers P l ↔ from_option P false (l !! i) = true.
Proof.
  unfold callers. rewrite list_elem_of_In, List.filter_In, List.in_seq. split; [by intros [_ ?]|]. intros Hi. split; [|done].
  destruct (l !! i) eqn:E; [|discriminate Hi]. apply lookup_lt_Some in E. lia.
Qed.

Lemma callers_app P l c : callers P (l ++ [c]) = callers P l ++ (if P c then [length l] else []).
Proof.
  unfold callers. rewrite length_app, Nat.add_1_r, seq_S, List.filter_app. f_equal.
  - apply List.filter_ext_in. intros i Hi%List.in_seq. by rewrite lookup_app_l by lia.
  - cbn. by rewrite list_lookup_middle by done.
Qed.

(** A change of stage that does not matter. *)
Lemma callers_insert P l i c c' : l !! i = Some c → P c' = P c → callers P (<[i := c']> l) = callers P l.
Proof.
  intros Hi Hc. unfold callers. rewrite length_insert. apply List.filter_ext. intros k. destruct (decide (i = k)) as [<-|Hne].
  - rewrite list_lookup_insert_eq, Hi by by eapply lookup_lt_Some. done.
  - by rewrite list_lookup_insert_ne.
Qed.

(** A caller that leaves. *)
Lemma callers_leave P l i c l1 l2 :
  callers P l = l1 ++ i :: l2 → P c = false → callers P (<[i := c]> l) = l1 ++ l2.
Proof.
  intros Hl Hc. pose proof (callers_NoDup P l) as Hnd. rewrite Hl in Hnd.
  assert (callers P (<[i := c]> l) = List.filter (λ k, negb (k =? i)%nat) (callers P l)) as ->.
  { unfold callers. rewrite length_insert. assert (∀ f g (ks : list nat), List.filter f (List.filter g ks) = List.filter (λ k, g k && f k) ks) as ->.
    { intros f g ks. induction ks as [|k ks IH]; [done|]. cbn. destruct (g k); cbn; [destruct (f k)|]; by rewrite IH. }
    apply List.filter_ext_in. intros k Hk%List.in_seq. destruct (Nat.eqb_spec k i) as [->|Hne].
    - rewrite list_lookup_insert_eq by lia. cbn. by rewrite Hc, andb_false_r.
    - by rewrite list_lookup_insert_ne, andb_true_r. }
  rewrite Hl, List.filter_app. cbn. rewrite Nat.eqb_refl. cbn.
  assert (∀ ks, i ∉ ks → List.filter (λ k, negb (k =? i)%nat) ks = ks) as Hid.
  { induction ks as [|k ks IH]; [done|]. intros [Hk Hks]%not_elem_of_cons. cbn. destruct (Nat.eqb_spec k i); [done|]. cbn. by rewrite IH. }
  apply NoDup_app in Hnd as (_ & Hd & [H2 _]%NoDup_cons). rewrite !Hid; [done|done|]. intros H1. apply (Hd i H1). left.
Qed.

Lemma served_fresh maxConcurrent : served maxConcurrent (fresh_process maxConcurrent) [] [].
Proof. split; cbn; try done; lia. Qed.

Lemma served_call maxConcurrent p H Q p' : served maxConcurrent p H Q → run_turn CALL p = Some p' → ∃ H' Q', served maxConcurrent p' H' Q'.
Proof.
  destruct p as [[a q] cs]. intros [Ha HH HQ Hq Hav Hb Hbusy] Hrun. cbn in *. subst q. unfold Semaphore.acquire in Hrun. cbn in Hrun.
  assert (∀ k c', k ∈ H ++ Q → (cs ++ [c']) !! k = cs !! k) as Hold.
  { intros k c' Hk. rewrite <- Ha, callers_elem in Hk. apply lookup_app_l. destruct (cs !! k) eqn:E; [|discriminate Hk]. by apply lookup_lt_Some in E. }
  assert (∀ c', Forall (λ i, from_option holds_permit false ((cs ++ [c']) !! i) = true) H) as HH'.
  { intros c'. apply Forall_forall. intros k Hk. rewrite Hold by set_solver. by eapply Forall_forall in HH. }
  assert (∀ c', Forall (λ i, (cs ++ [c']) !! i = Some Waiting) Q) as HQ'.
  { intros c'. apply Forall_forall. intros k Hk. rewrite Hold by set_solver. by eapply Forall_forall in HQ. }
  destruct (Z.ltb_spec 0 a) as [Hpos|Hneg]; injection Hrun as <-.
  - assert (Q = []) as -> by (destruct Q; [done|]; specialize (Hbusy ltac:(done)); lia).
    exists (H ++ [length cs]), []. split; cbn; [|apply Forall_app; split; [apply HH'|]|constructor|done|rewrite length_app; cbn; lia..|done].
    + by rewrite callers_app, Ha, !app_nil_r.
    + constructor; [|done]. by rewrite list_lookup_middle by done.
  - exists H, (Q ++ [length cs]). split; cbn; [|apply HH'|apply Forall_app; split; [apply HQ'|]|done|done|done|done].
    + by rewrite callers_app, Ha, app_assoc.
    + constructor; [|done]. by rewrite list_lookup_middle by done.
Qed.

Lemma served_start maxConcurrent p H Q i p' : served maxConcurrent p H Q → run_turn (START i) p = Some p' → served maxConcurrent p' H Q.
Proof.
  destruct p as [s cs]. intros [Ha HH HQ Hq Hav Hb Hbusy] Hrun. cbn in *. destruct (cs !! i) as [[]|] eqn:Ei; try discriminate Hrun. injection Hrun as <-.
  assert (i < length cs)%nat as Hlt by by eapply lookup_lt_Some. split; cbn; [by rewrite (callers_insert _ _ _ _ _ Ei)| | |done..].
  - eapply Forall_impl; [exact HH|]. cbn. intros k Hk. destruct (decide (i = k)) as [<-|]; [by rewrite list_lookup_insert_eq|by rewrite list_lookup_insert_ne].
  - eapply Forall_impl; [exact HQ|]. cbn. intros k Hk. rewrite list_lookup_insert_ne; [done|congruence].
Qed.

Lemma served_settle maxConcurrent p H Q i b p' : served maxConcurrent p H Q → run_turn (SETTLE i b) p = Some p' → ∃ H' Q', served maxConcurrent p' H' Q'.
Proof.
  destruct p as [[a q] cs]. intros [Ha HH HQ Hq Hav Hb Hbusy] Hrun. cbn in *. subst q. destruct (cs !! i) as [[]|] eqn:Ei; try discriminate Hrun.
  assert (i < length cs)%nat as Hlt by by eapply lookup_lt_Some. pose proof (callers_NoDup unsettled cs) as Hnd.
  assert (i ∈ H) as Hi. { assert (i ∈ H ++ Q) as [|HiQ]%elem_of_app by (rewrite <- Ha, callers_elem, Ei; done); [done|]. eapply Forall_forall in HQ; [|exact HiQ]. congruence. }
  apply list_elem_of_split in Hi as (H1 & H2 & ->). rewrite <- app_assoc in Ha. cbn in Ha. pose proof (callers_leave _ _ _ (Settled b) _ _ Ha ltac:(done)) as Hleave.
  rewrite Ha in Hnd. apply NoDup_app in Hnd as (_ & Hd1 & [Hd2 Hnd2]%NoDup_cons). apply NoDup_app in Hnd2 as (_ & Hd3 & Hnd3).
  rewrite Forall_app, Forall_cons in HH. destruct HH as (HH1 & _ & HH2). rewrite length_app in Hav, Hb. cbn in Hav, Hb.
  set (cs' := <[i := Settled b]> cs) in *.
  assert (∀ k, k ≠ i → cs' !! k = cs !! k) as Hsame by by intros k Hk; apply list_lookup_insert_ne.
  assert (Forall (λ k, from_option holds_permit false (cs' !! k) = true) (H1 ++ H2)) as HH'.
  { apply Forall_app; split; apply Forall_forall; intros k Hk; rewrite Hsame; [by eapply Forall_forall in HH1| |by eapply Forall_forall in HH2|set_solver].
    intros ->. apply (Hd1 i Hk). left. }
  assert (Forall (λ k, cs' !! k = Some Waiting) Q) as HQ'. { apply Forall_forall. intros k Hk. rewrite Hsame; [by eapply Forall_forall in HQ|set_solver]. }
  unfold Semaphore.release in Hrun. cbn in Hrun. destruct Q as [|j Q]; injection Hrun as <-.
  - exists (H1 ++ H2), []. split; cbn; [by rewrite Hleave, app_assoc|done..|rewrite length_app; lia|rewrite length_app; lia|done].
  - apply Forall_cons in HQ' as [Hj HQ']. assert (j < length cs')%nat as Hjlt by by eapply lookup_lt_Some. apply NoDup_cons in Hnd3 as [Hj3 _].
    exists (H1 ++ H2 ++ [j]), Q. split; cbn; [|rewrite app_assoc; apply Forall_app; split| |done| | |].
    + rewrite (callers_insert _ _ _ _ _ Hj) by done. by rewrite Hleave, <- !app_assoc.
    + eapply Forall_impl; [exact HH'|]. cbn. intros k Hk. destruct (decide (j = k)) as [<-|]; [by rewrite list_lookup_insert_eq|by rewrite list_lookup_insert_ne].
    + constructor; [|done]. by rewrite list_lookup_insert_eq.
    + apply Forall_forall. intros k Hk. rewrite list_lookup_insert_ne; [by eapply Forall_forall in HQ'|]. by intros ->.
    + rewrite !length_app. cbn. lia.
    + rewrite !length_app. cbn. lia.
    + intros _. by apply Hbusy.
Qed.

Lemma served_reachable maxConcurrent p : rtc turns (fresh_process maxConcurrent) p → ∃ H Q, served maxConcurrent p H Q.
Proof.
  intros Hrun. assert (∃ H Q, served maxConcurrent (fresh_process maxConcurrent) H Q) as Hinv by by exists [], []; apply served_fresh.
  induction Hrun as [p|p p1 p' [e He] _ IH]; [done|]. apply IH. destruct Hinv as (H & Q & Hs).
  destruct e; [by eapply served_call|by exists H, Q; eapply served_start|by eapply served_settle].
Qed.

(** The callers with permits are the ones at the stages behind the permit. *)
Lemma served_holders maxConcurrent p H Q : served maxConcurrent p H Q → callers holds_permit (calls p) = H.
Proof.
  intros [Ha HH HQ _ _ _ _].
  assert (callers holds_permit (calls p) = List.filter (λ i, from_option holds_permit false (calls p !! i)) (callers unsettled (calls p))) as ->.
  { unfold callers. induction (seq 0 (length (calls p))) as [|k ks IH]; [done|]. cbn. destruct (calls p !! k) as [[]|] eqn:E; cbn; rewrite ?E; cbn; by rewrite IH. }
  rewrite Ha, List.filter_app. clear Ha. assert (List.filter (λ i, from_option holds_permit false (calls p !! i)) Q = []) as ->.
  { induction HQ as [|k Q Hk HQ IH]; [done|]. cbn. by rewrite Hk. }
  rewrite app_nil_r. induction HH as [|k H Hk HH IH]; [done|]. cbn. by rewrite Hk, IH.
Qed.

(** The bulkhead serves its callers in the order of arrival: whatever the order in
    which calls arrive, go on and end, and whether their operations succeed or throw, the
    callers that hold a permit are exactly the first [maxConcurrent] of those that have
    not ended, the queue holds exactly the others, and the permits that are left are the
    ones nobody holds. So at most [maxConcurrent] operations are in progress, nobody
    overtakes, no caller waits while a permit is free, and no permit is ever lost. *)
Theorem semaphore_exact maxConcurrent p :
  rtc turns (fresh_process maxConcurrent) p →
  let active := callers unsettled (calls p) in
  callers holds_permit (calls p) = take (Z.to_nat maxConcurrent) active
  ∧ Semaphore.queue (semaphore p) = drop (Z.to_nat maxConcurrent) active
  ∧ Semaphore.available (semaphore p) = maxConcurrent - Z.of_nat (length (callers holds_permit (calls p))).
Proof.
  intros (H & Q & Hs)%served_reachable. cbv zeta. rewrite (served_holders _ _ _ _ Hs). destruct Hs as [-> _ _ -> Hav Hb Hbusy].
  split_and!; [| |done].
  - destruct Q as [|j Q]; [rewrite app_nil_r, take_ge by lia; done|]. specialize (Hbusy ltac:(done)). by rewrite take_app_length' by lia.
  - destruct Q as [|j Q]; [rewrite app_nil_r, drop_ge by lia; done|]. specialize (Hbusy ltac:(done)). by rewrite drop_app_length' by lia.
Qed.

(** Two permits and four callers: the first fails and the third goes in. *)
Definition busy_turns : list turn := [CALL; CALL; CALL; START 0; CALL; START 1; SETTLE 0 false; START 2].

Definition busy_process : process :=
  mkProcess (Semaphore.mkSemaphore 0 [3%nat]) [Settled false; Inside; Inside; Waiting].

Lemma turns_by (es : list turn) p p' : foldl (λ o e, o ≫= run_turn e) (Some p) es = Some p' → rtc turns p p'.
Proof.
  revert p. induction es as [|e es IH]; intros p Hp; cbn in Hp; [injection Hp as ->; apply rtc_refl|].
  destruct (run_turn e p) as [p1|] eqn:E; [eapply rtc_l; [by exists e|by apply IH]|].
  exfalso. clear -Hp. by induction es.
Qed.

Lemma semaphore_exact_witness :
  rtc turns (fresh_process 2) busy_process
  ∧ callers holds_permit (calls busy_process) = take (Z.to_nat 2) (callers unsettled (calls busy_process))
  ∧ Semaphore.queue (semaphore busy_process) = drop (Z.to_nat 2) (callers unsettled (calls busy_process)).
Proof.
  assert (rtc turns (fresh_process 2) busy_process) as Hrun by (apply (turns_by busy_turns); reflexivity).
  destruct (semaphore_exact 2 busy_process Hrun) as (H1 & H2 & _). exact (conj Hrun (conj H1 H2)).
Defined.

(** A number of permits that is not positive, which the adapters take from the
    environment unchecked, lets nobody in. *)
Lemma no_permit_blocks maxConcurrent p :
  maxConcurrent ≤ 0 → rtc turns (fresh_process maxConcurrent) p → callers holds_permit (calls p) = [].
Proof.
  intros Hm (H & Q & Hs)%served_reachable. rewrite (served_holders _ _ _ _ Hs). destruct Hs as [_ _ _ _ _ Hb _].
  destruct H; [done|]. cbn in Hb. lia.
Qed.
