(* ===== verification/Throttle.v ===== *)
(** * Rate limits

    [redis-throttler-storage.service.ts], [merchant-throttler.guard.ts] and
    [degraded-psp-aware-throttler.guard.ts]: the counter all replicas share, whom a
    request counts for and which limit it meets. The guard of the framework that asks the
    storage and refuses a blocked request is an argument. *)

From S2P Require Import Prelude Redis JsNumber Policies Routing Breaker.

(** ** The storage *)

Module RedisThrottlerStorage.

Abbreviation counters := (gmap string (cell Z)).

(** The script of the constructor: [INCR], [PEXPIRE] for the first hit, [PTTL]. Redis
    runs it as one command. A time to live that is not positive deletes the key. *)
Definition throttlerIncrement (key : string) (ttl : Z) (now : Date) (s : counters) : counters * (Z * Z) :=
  let '(current, expiry) := match find now key s with Some c => (value c + 1, expiresAt c) | None => (1, None) end in
  if current =? 1 then
    if ttl <=? 0 then (delete key s, (current, -2)) else (<[key := mkCell current (Some (now + ttl))]> s, (current, ttl))
  else (<[key := mkCell current expiry]> s, (current, match expiry with Some e => e - now | None => -1 end)).

Record ThrottlerStorageRecord := mkRecord { totalHits : Z; timeToExpire : Z; isBlocked : bool; timeToBlockExpire : Z }.

(** Milliseconds to seconds, rounded up. *)
Definition increment (key : string) (ttl limit : Z) (now : Date) (s : counters) : counters * ThrottlerStorageRecord :=
  let prefixedKey := "throttle:" +:+ key in
  let '(s, (totalHits, pttl)) := throttlerIncrement prefixedKey ttl now s in
  let timeToExpire := Z.max 0 (- (- pttl / 1000)) in
  let isBlocked := limit <? totalHits in
  (s, mkRecord totalHits timeToExpire isBlocked (if isBlocked then timeToExpire else 0)).
End RedisThrottlerStorage.

(** ** The guards *)

(** [req.user?.merchantId] and [req.ip]. *)
Definition getTracker (merchantId : option string) (ip : string) : string :=
  if truthy merchantId then "merchant:" +:+ nullish merchantId "" else "ip:" +:+ ip.

(** The properties of a request the guard reads or changes. *)
Record ThrottlerRequest := mkThrottlerRequest { tr_handlerName : string; tr_merchantId : option string; tr_limit : Z }.

Definition REGISTERED_PROVIDERS : list string := ["STRIPE"; "ADYEN"]%string.

(** [degradedMax]: the limit of the environment, 20 without one; [super]: the guard of the
    framework. *)
Definition handleRequest (degradedMax : Z) (super : ThrottlerRequest → prog (command Key Val) bool) (requestProps : ThrottlerRequest)
    : prog (command Key Val) bool :=
  requestProps ←
    (if String.eqb (tr_handlerName requestProps) "charge" && truthy (tr_merchantId requestProps) then
       exposed ← MerchantPspExposureService.isExposedToDegradedPsp (nullish (tr_merchantId requestProps) "") REGISTERED_PROVIDERS;
       mret (if exposed : bool then mkThrottlerRequest (tr_handlerName requestProps) (tr_merchantId requestProps) degradedMax else requestProps)
     else mret requestProps);
  super requestProps.

(** ** The number of requests that pass *)

Import RedisThrottlerStorage.

(** A request that reaches the storage, from whichever replica. *)
Record hit := mkHit { h_at : Date; h_key : string; h_ttl : Z; h_limit : Z }.

Fixpoint hits (l : list hit) (s : counters) : counters * list ThrottlerStorageRecord :=
  match l with
  | [] => (s, [])
  | h :: l =>
      let '(s, r) := increment (h_key h) (h_ttl h) (h_limit h) (h_at h) s in
      let '(s, rs) := hits l s in (s, r :: rs)
  end.

Definition admitted (key : string) (p : hit * ThrottlerStorageRecord) : bool := String.eqb (h_key p.1) key && negb (isBlocked p.2).

(** How many requests for a key pass. *)
Definition passes (key : string) (l : list hit) (s : counters) : Z :=
  Z.of_nat (length (List.filter (admitted key) (zip l (hits l s).2))).

(** The requests come in the order of time, none before [now]. *)
Fixpoint ordered (now : Date) (l : list hit) : Prop :=
  match l with [] => True | h :: l => now ≤ h_at h ∧ ordered (h_at h) l end.

Lemma hits_app l1 l2 s : (hits (l1 ++ l2) s).2 = (hits l1 s).2 ++ (hits l2 (hits l1 s).1).2.
Proof.
  revert s. induction l1 as [|h l1 IH]; intros s; [done|]. cbn. destruct (increment _ _ _ _ s) as [s1 r]. specialize (IH s1).
  destruct (hits (l1 ++ l2) s1), (hits l1 s1). cbn in *. by rewrite IH.
Qed.

Section window.
Context (key : string) (ttl limit : Z) (Httl : 0 < ttl) (Hlimit : 0 ≤ limit).

(** A request for the key asks for the window and at most the limit. *)
Definition regular (h : hit) : Prop := h_key h = key → h_ttl h = ttl ∧ h_limit h ≤ limit.

(** Every counter of the key runs out within the window. *)
Definition expires (now : Date) (s : counters) : Prop :=
  ∀ c, find now ("throttle:" +:+ key) s = Some c → 0 < value c ∧ ∃ e, expiresAt c = Some e ∧ now < e ≤ now + ttl.

Lemma find_live now k (s : counters) c e : find now k s = Some c → expiresAt c = Some e → now < e.
Proof. unfold find. destruct (s !! k) as [c'|]; [|done]. unfold live. intros H He. case_match; simplify_eq; rewrite He in *; lia. Qed.

Lemma expires_later now now' s : now ≤ now' → expires now s → expires now' s.
Proof.
  intros Ht Hs c Hc. destruct (Hs c (find_later _ _ _ _ _ Ht Hc)) as (Hv & e & He & Hlt). split; [done|]. exists e. split; [done|].
  pose proof (find_live _ _ _ _ _ Hc He). lia.
Qed.

Lemma expires_hit h s : regular h → expires (h_at h) s → expires (h_at h) (increment (h_key h) (h_ttl h) (h_limit h) (h_at h) s).1.
Proof.
  intros Hr Hs. unfold increment, throttlerIncrement. destruct (decide (h_key h = key)) as [Hk|Hk].
  - destruct (Hr Hk) as [-> _]. rewrite Hk. destruct (find (h_at h) ("throttle:" +:+ key) s) as [c|] eqn:Ef; cbn.
    + destruct (Hs c Ef) as (Hv & e & He & Hlt). destruct (Z.eqb_spec (value c + 1) 1); [lia|]. cbn. intros c'. rewrite find_insert. unfold live. cbn. rewrite He.
      destruct (Z.ltb_spec (h_at h) e); [|lia]. intros [= <-]. cbn. split; [lia|]. by exists e.
    + destruct (Z.leb_spec ttl 0); [lia|]. cbn. intros c'. rewrite find_insert. unfold live. cbn.
      destruct (Z.ltb_spec (h_at h) (h_at h + ttl)); [|lia]. intros [= <-]. cbn. split; [lia|]. exists (h_at h + ttl). split; [done|lia].
  - assert ("throttle:" +:+ key ≠ "throttle:" +:+ h_key h) as Hne by (intros Heq%(inj (String.append _)); congruence).
    intros c. destruct (find _ ("throttle:" +:+ h_key h) s) as [c1|]; cbn; [|cbn]; repeat case_match; simplify_eq; cbn;
      rewrite ?find_insert_ne, ?find_delete_ne by done; apply Hs.
Qed.

(** How many windows can begin in a time. *)
Definition windows (x : Z) : Z := Z.max 0 ((x + ttl - 1) / ttl).

Lemma windows_mono x y : x ≤ y → windows x ≤ windows y.
Proof. intros. unfold windows. pose proof (Z.div_le_mono (x + ttl - 1) (y + ttl - 1) ttl). lia. Qed.

Lemma windows_next x : 0 < x → windows x = 1 + windows (x - ttl).
Proof.
  intros. unfold windows. replace (x + ttl - 1) with ((x - ttl + ttl - 1) + 1 * ttl) by lia. rewrite Z.div_add by lia.
  pose proof (Z.div_pos (x - ttl + ttl - 1) ttl). lia.
Qed.

Lemma windows_multiple n : 0 ≤ n → windows (n * ttl) ≤ n.
Proof.
  intros. unfold windows. replace (n * ttl + ttl - 1) with ((ttl - 1) + n * ttl) by lia. rewrite Z.div_add by lia. rewrite Z.div_small by lia. lia.
Qed.

(** How many requests can still pass before [until]. *)
Definition allowance (until now : Date) (s : counters) : Z :=
  match find now ("throttle:" +:+ key) s with
  | Some c => Z.max 0 (limit - value c) + limit * windows (until - default now (expiresAt c))
  | None => limit * windows (until - now)
  end.

Lemma allowance_nonneg until now s : 0 ≤ allowance until now s.
Proof. unfold allowance, windows. case_match; nia. Qed.

Lemma allowance_later until now now' s : now ≤ now' → expires now s → allowance until now' s ≤ allowance until now s.
Proof.
  intros Ht Hs. unfold allowance. destruct (find now' ("throttle:" +:+ key) s) as [c|] eqn:Ef'.
  - rewrite (find_later _ _ _ _ _ Ht Ef'). destruct (Hs c (find_later _ _ _ _ _ Ht Ef')) as (_ & e & -> & _). cbn. lia.
  - destruct (find now ("throttle:" +:+ key) s) as [c|] eqn:Ef.
    + destruct (Hs c Ef) as (_ & e & He & _). rewrite He. cbn. assert (e ≤ now') as Hle.
      { unfold find in Ef, Ef'. destruct (s !! _) as [c'|]; [|done]. unfold live in *. repeat case_match; simplify_eq; lia. }
      pose proof (windows_mono (until - now') (until - e)). nia.
    + pose proof (windows_mono (until - now') (until - now)). nia.
Qed.

(** A request uses up one. *)
Lemma allowance_hit until h s : let '(s', r) := increment (h_key h) (h_ttl h) (h_limit h) (h_at h) s in
  regular h → expires (h_at h) s → h_at h < until →
  (if admitted key (h, r) then 1 else 0) + allowance until (h_at h) s' ≤ allowance until (h_at h) s.
Proof.
  destruct (increment _ _ _ _ s) as [s' r] eqn:Einc. intros Hr Hs Hu. unfold increment, throttlerIncrement in Einc. unfold admitted, allowance. cbn [fst snd].
  destruct (decide (h_key h = key)) as [Hk|Hk].
  - destruct (Hr Hk) as [Ht Hl]. rewrite Ht, Hk in Einc. rewrite Hk, String.eqb_refl. destruct (find (h_at h) ("throttle:" +:+ key) s) as [c|] eqn:Ef.
    + destruct (Hs c Ef) as (Hv & e & He & Hlt). rewrite He in *. destruct (Z.eqb_spec (value c + 1) 1); [lia|]. injection Einc as <- <-.
      rewrite find_insert. unfold live. cbn. destruct (Z.ltb_spec (h_at h) e); [|lia]. cbn. destruct (Z.ltb_spec (h_limit h) (value c + 1)); cbn; lia.
    + cbn in Einc. destruct (Z.leb_spec ttl 0); [lia|]. injection Einc as <- <-. rewrite find_insert. unfold live. cbn.
      destruct (Z.ltb_spec (h_at h) (h_at h + ttl)); [|lia]. cbn. rewrite (windows_next (until - h_at h)) by lia.
      replace (until - (h_at h + ttl)) with (until - h_at h - ttl) by lia. destruct (Z.ltb_spec (h_limit h) 1); cbn; lia.
  - assert ("throttle:" +:+ key ≠ "throttle:" +:+ h_key h) as Hne by (intros Heq%(inj (String.append _)); congruence).
    apply String.eqb_neq in Hk. rewrite Hk. cbn. destruct (find _ ("throttle:" +:+ h_key h) s) as [c1|]; repeat case_match; simplify_eq;
      rewrite ?find_insert_ne, ?find_delete_ne in * by done; simplify_eq; lia.
Qed.

Lemma hits_expire l now s : Forall regular l → ordered now l → expires now s → ∀ t, (∀ h, h ∈ l → h_at h ≤ t) → now ≤ t → expires t (hits l s).1.
Proof.
  revert now s. induction l as [|h l IH]; intros now s Hr Ho Hs t Ht Hnow; [by eapply expires_later|]. apply Forall_cons in Hr as [Hr1 Hr]. destruct Ho as [Hn Ho].
  cbn. pose proof (expires_hit h s Hr1 (expires_later _ _ _ Hn Hs)) as Hs1. destruct (increment _ _ _ _ s) as [s1 r]. cbn in Hs1.
  specialize (IH (h_at h) s1 Hr Ho Hs1 t). destruct (hits l s1). cbn in *. apply IH; [|apply Ht; left]. intros h' Hh. apply Ht. by right.
Qed.

Lemma passes_bounded until l now s :
  Forall regular l → ordered now l → expires now s → Forall (λ h, h_at h < until) l → passes key l s ≤ allowance until now s.
Proof.
  revert now s. induction l as [|h l IH]; intros now s Hr Ho Hs Hu; [apply allowance_nonneg|].
  apply Forall_cons in Hr as [Hr1 Hr]. apply Forall_cons in Hu as [Hu1 Hu]. destruct Ho as [Hn Ho].
  pose proof (expires_later _ _ _ Hn Hs) as Hs0. pose proof (allowance_later until _ _ _ Hn Hs) as Hle. pose proof (expires_hit h s Hr1 Hs0) as Hs1.
  pose proof (allowance_hit until h s) as Hone. unfold passes. cbn [hits]. destruct (increment _ _ _ _ s) as [s1 r]. specialize (Hone Hr1 Hs0 Hu1).
  specialize (IH (h_at h) s1 Hr Ho Hs1 Hu). unfold passes in IH. destruct (hits l s1) as [s2 rs]. cbn [snd zip zip_with List.filter] in *.
  destruct (admitted key (h, r)); cbn [length]; lia.
Qed.
End window.

Lemma ordered_app now l1 l2 : ordered now (l1 ++ l2) → ordered now l1 ∧ ∃ t, now ≤ t ∧ ordered t l2.
Proof.
  revert now. induction l1 as [|h l1 IH]; intros now Ho; [by split; [|exists now]|]. destruct Ho as [Hn Ho]. destruct (IH _ Ho) as (H1 & t & Ht & H2).
  split; [done|]. exists t. split; [lia|done].
Qed.

Lemma ordered_from t a l : ordered t l → Forall (λ h, a ≤ h_at h) l → ordered a l.
Proof. destruct l; [done|]. cbn. intros [_ Ho] [Ha _]%Forall_cons. done. Qed.

(** Requests for other keys leave the counter alone. *)
Lemma hits_others key l s : Forall (λ h, h_key h ≠ key) l → (hits l s).1 !! ("throttle:" +:+ key) = s !! ("throttle:" +:+ key).
Proof.
  revert s. induction l as [|h l IH]; intros s Hl; [done|]. apply Forall_cons in Hl as [Hh Hl]. cbn. destruct (increment _ _ _ _ s) as [s1 r] eqn:E.
  assert (s1 !! ("throttle:" +:+ key) = s !! ("throttle:" +:+ key)) as <-.
  { assert ("throttle:" +:+ h_key h ≠ "throttle:" +:+ key) as Hne by (intros Heq%(inj (String.append _)); congruence).
    unfold increment, throttlerIncrement in E. repeat case_match; simplify_eq; rewrite ?lookup_insert_ne, ?lookup_delete_ne by done; done. }
  specialize (IH s1 Hl). by destruct (hits l s1).
Qed.

Lemma expires_empty key ttl now : expires key ttl now ∅.
Proof. intros c. unfold find. by rewrite lookup_empty. Qed.

(** C40: the rate limit: whatever requests all replicas let through the storage, in the
    order of time, of the requests for one key (one window length, no limit above
    [limit]) at most [n + 1] times the limit pass in any [n] consecutive windows, wherever
    they begin; and after a pause of one window the next request passes. *)
Theorem throttle_window key ttl limit before during start a n :
  0 < ttl → 0 ≤ limit → 0 ≤ n → Forall (regular key ttl limit) (before ++ during) → ordered start (before ++ during) → start ≤ a →
  Forall (λ h, h_at h ≤ a) before →
  (Forall (λ h, a ≤ h_at h < a + n * ttl) during → passes key during (hits before ∅).1 ≤ (n + 1) * limit)
  ∧ (∀ h others, Forall (λ h, h_key h ≠ key) others → h_key h = key → 1 ≤ h_limit h → a + ttl ≤ h_at h →
     isBlocked (increment (h_key h) (h_ttl h) (h_limit h) (h_at h) (hits others (hits before ∅).1).1).2 = false).
Proof.
  intros Httl Hlimit Hn Hr Ho Hsa Hb. apply Forall_app in Hr as [Hr1 Hr2]. apply ordered_app in Ho as (Ho1 & t & _ & Ho2).
  assert (expires key ttl a (hits before ∅).1) as Hs.
  { eapply (hits_expire key ttl limit Httl before start ∅ Hr1 Ho1 (expires_empty _ _ _)); [|done]. by apply Forall_forall. }
  set (s := (hits before ∅).1) in *. clearbody s. split.
  - intros Hd. assert (Forall (λ h, a ≤ h_at h) during) as Hge by (eapply Forall_impl; [exact Hd|]; cbn; lia).
    assert (Forall (λ h, h_at h < a + n * ttl) during) as Hlt by (eapply Forall_impl; [exact Hd|]; cbn; lia).
    etrans; [exact (passes_bounded key ttl limit Httl Hlimit _ _ _ _ Hr2 (ordered_from _ _ _ Ho2 Hge) Hs Hlt)|]. unfold allowance.
    pose proof (windows_multiple ttl Httl n Hn) as Hw. destruct (find a ("throttle:" +:+ key) s) as [c|] eqn:Ef.
    + destruct (Hs c Ef) as (Hv & e & -> & He). cbn. pose proof (windows_mono ttl Httl (a + n * ttl - e) (n * ttl)). nia.
    + replace (a + n * ttl - a) with (n * ttl) by lia. nia.
  - intros h others Hot Hk Hl Ht. assert (find (h_at h) ("throttle:" +:+ key) (hits others s).1 = None) as Ef.
    { unfold find. rewrite hits_others by done. destruct (s !! _) as [c|] eqn:E; [|done]. destruct (live (h_at h) c) eqn:El; [|done]. exfalso.
      assert (find a ("throttle:" +:+ key) s = Some c) as Ha.
      { apply (find_later a (h_at h)); [lia|]. unfold find. by rewrite E, El. }
      destruct (Hs c Ha) as (_ & e & He & Hlt). unfold live in El. rewrite He in El. lia. }
    unfold increment, throttlerIncrement. rewrite Hk, Ef. cbn. destruct (h_ttl h <=? 0); cbn; lia.
Qed.

(** Twenty charges at most in a window: the twenty-first of an instant is refused. *)
Definition burst (n : nat) : list hit := replicate n (mkHit 0 "charge" 60000 20).

Lemma burst_ordered n : ordered 0 (burst n).
Proof. induction n as [|n IH]; [done|]. by split. Qed.

Lemma burst_all (P : hit → Prop) n : P (mkHit 0 "charge" 60000 20) → Forall P (burst n).
Proof. intros H. by apply Forall_replicate. Qed.

Lemma throttle_window_witness :
  passes "charge" (burst 25) ∅ = 20 ∧ passes "charge" (burst 25) (hits [] ∅).1 ≤ (1 + 1) * 20.
Proof.
  split; [vm_compute; reflexivity|].
  apply (throttle_window "charge" 60000 20 [] (burst 25) 0 0 1); [lia..| | |lia|constructor|]; cbn [app].
  - by apply burst_all; intros _.
  - apply burst_ordered.
  - by apply burst_all; cbn.
Defined.

(** ** The limit of a merchant on a degraded provider *)

(** The request reaches the guard of the framework once, with the stricter limit exactly
    when it is a charge of a merchant whose charges are concentrated on degraded
    providers, and unchanged otherwise. *)
Lemma degraded_limit degradedMax super r now s s' exposed :
  run (@exec Key Val _ _ _) (MerchantPspExposureService.isExposedToDegradedPsp (nullish (tr_merchantId r) "") REGISTERED_PROVIDERS) now s = (s', Ok exposed) →
  let charge := String.eqb (tr_handlerName r) "charge" && truthy (tr_merchantId r) in
  run (@exec Key Val _ _ _) (handleRequest degradedMax super r) now s
  = if charge then run (@exec Key Val _ _ _) (super (mkThrottlerRequest (tr_handlerName r) (tr_merchantId r) (if exposed : bool then degradedMax else tr_limit r))) now s'
    else run (@exec Key Val _ _ _) (super r) now s.
Proof.
  intros Hx. cbv zeta. unfold handleRequest. destruct (String.eqb (tr_handlerName r) "charge" && truthy (tr_merchantId r)); [|done].
  rewrite run_bind_prog, run_bind_prog, Hx. cbn. destruct r. by destruct exposed.
Qed.
