(* ===== verification/Crypto.v ===== *)
(** * Digests and encodings

    What the guards use of Node's [crypto] and [Buffer]: SHA-256 and HMAC
    (FIPS 180-4 and 198-1), [digest('hex')], [digest('base64')] and
    [Buffer.from(s, 'hex' | 'base64')]. A buffer is a byte string. *)

From S2P Require Import Prelude.

Module Sha256.

Definition mask : Z := 4294967295.

Definition add32 (x y : Z) : Z := Z.land (x + y) mask.
Definition rotr (n x : Z) : Z := Z.lor (Z.shiftr x n) (Z.land (Z.shiftl x (32 - n)) mask).
Definition not32 (x : Z) : Z := Z.lxor x mask.

Definition Ch (x y z : Z) : Z := Z.lxor (Z.land x y) (Z.land (not32 x) z).
Definition Maj (x y z : Z) : Z := Z.lxor (Z.lxor (Z.land x y) (Z.land x z)) (Z.land y z).
Definition Sigma0 (x : Z) : Z := Z.lxor (Z.lxor (rotr 2 x) (rotr 13 x)) (rotr 22 x).
Definition Sigma1 (x : Z) : Z := Z.lxor (Z.lxor (rotr 6 x) (rotr 11 x)) (rotr 25 x).
Definition sigma0 (x : Z) : Z := Z.lxor (Z.lxor (rotr 7 x) (rotr 18 x)) (Z.shiftr x 3).
Definition sigma1 (x : Z) : Z := Z.lxor (Z.lxor (rotr 17 x) (rotr 19 x)) (Z.shiftr x 10).

(** The largest [r] with [r ^ n <= x] below [2 ^ bits], bit by bit. *)
Fixpoint root (n : Z) (bits : nat) (x r : Z) : Z :=
  match bits with
  | O => r
  | S bits => let r' := r + 2 ^ Z.of_nat bits in root n bits x (if r' ^ n <=? x then r' else r)
  end.

Definition primes (limit : nat) : list Z :=
  let numbers := Z.of_nat <$> seq 2 (limit - 1) in filter (λ p, forallb (λ d, negb (p mod d =? 0) || (p <=? d)) numbers = true) numbers.

(** The first 32 bits of the fractional part of the [n]-th root of [p]. *)
Definition fraction (n p : Z) : Z := Z.land (root n 40 (p * 2 ^ (32 * n)) 0) mask.

(** Of the cube roots of the first 64 primes, and of the square roots of the first 8. *)
Definition K : list Z := Eval vm_compute in fraction 3 <$> primes 311.
Definition initial : list Z := Eval vm_compute in fraction 2 <$> primes 19.

Fixpoint bytes (s : string) : list Z := match s with EmptyString => [] | String c s => Z.of_N (N_of_ascii c) :: bytes s end.

Fixpoint words (l : list Z) : list Z :=
  match l with a :: b :: c :: d :: l => ((a * 256 + b) * 256 + c) * 256 + d :: words l | _ => [] end.

(** The message schedule, newest word first. *)
Fixpoint schedule (n : nat) (w : list Z) : list Z :=
  match n with
  | O => w
  | S n => schedule n (add32 (add32 (sigma1 (nth 1 w 0)) (nth 6 w 0)) (add32 (sigma0 (nth 14 w 0)) (nth 15 w 0)) :: w)
  end.

Definition round (s : list Z) (kw : Z * Z) : list Z :=
  match s with
  | [a; b; c; d; e; f; g; h] =>
      let t1 := add32 (add32 (add32 h (Sigma1 e)) (Ch e f g)) (add32 kw.1 kw.2) in
      let t2 := add32 (Sigma0 a) (Maj a b c) in
      [add32 t1 t2; a; b; c; add32 d t1; e; f; g]
  | _ => s
  end.

Definition compress (s : list Z) (block : list Z) : list Z :=
  zip_with add32 s (foldl round s (zip K (reverse (schedule 48 (reverse (words block)))))).

(** Blocks of 64 bytes; [fuel] is at least their number. *)
Fixpoint blocks (fuel : nat) (s : list Z) (l : list Z) : list Z :=
  match fuel, l with
  | S fuel, _ :: _ => blocks fuel (compress s (take 64 l)) (drop 64 l)
  | _, _ => s
  end.

Fixpoint bigEndian (n : nat) (x : Z) : list Z := match n with O => [] | S n => bigEndian n (x / 256) ++ [x mod 256] end.

Definition pad (l : list Z) : list Z :=
  let n := Z.of_nat (length l) in
  l ++ 128 :: replicate (Z.to_nat ((55 - n) mod 64)) 0 ++ bigEndian 8 (8 * n).

Definition digest (l : list Z) : list Z :=
  let padded := pad l in concat (bigEndian 4 <$> blocks (length padded) initial padded).

Fixpoint ofBytes (l : list Z) : string := match l with [] => EmptyString | b :: l => String (ascii_of_N (Z.to_N b)) (ofBytes l) end.

Definition hmacKey (key : list Z) : list Z :=
  let k := if (64 <? length key)%nat then digest key else key in k ++ replicate (64 - length k) 0.
End Sha256.

(** [createHmac('sha256', key).update(data).digest()] *)
Definition hmacSha256 (key data : string) : string :=
  let k := Sha256.hmacKey (Sha256.bytes key) in
  let inner := Sha256.digest ((Z.lxor 0x36 <$> k) ++ Sha256.bytes data) in
  Sha256.ofBytes (Sha256.digest ((Z.lxor 0x5c <$> k) ++ inner)).

(** ** Hexadecimal *)

Definition hexDigit (n : N) : ascii := ascii_of_N (if (n <? 10)%N then 48 + n else 87 + n).

Fixpoint toHex (s : string) : string :=
  match s with
  | EmptyString => EmptyString
  | String c s => String (hexDigit (N_of_ascii c / 16)) (String (hexDigit (N_of_ascii c mod 16)) (toHex s))
  end.

Definition hexValue (c : ascii) : option N :=
  let n := N_of_ascii c in
  if (48 <=? n)%N && (n <=? 57)%N then Some (n - 48)%N
  else if (97 <=? n)%N && (n <=? 102)%N then Some (n - 87)%N
  else if (65 <=? n)%N && (n <=? 70)%N then Some (n - 55)%N
  else None.

(** [Buffer.from(s, 'hex')] stops at the first pair that is not hexadecimal. *)
Fixpoint fromHex (s : string) : string :=
  match s with
  | String a (String b s) =>
      match hexValue a, hexValue b with
      | Some x, Some y => String (ascii_of_N (x * 16 + y)) (fromHex s)
      | _, _ => EmptyString
      end
  | _ => EmptyString
  end.

Lemma fromHex_cons c s t :
  fromHex (String (hexDigit (N_of_ascii c / 16)) (String (hexDigit (N_of_ascii c mod 16)) s)) = t ↔ String c (fromHex s) = t.
Proof. destruct c as [[] [] [] [] [] [] [] []]; reflexivity. Qed.

Lemma fromHex_app s t : fromHex (toHex s +:+ t) = s +:+ fromHex t.
Proof. induction s as [|c s IH]; [done|]. change (String c s +:+ fromHex t) with (String c (s +:+ fromHex t)). rewrite <- IH. by apply fromHex_cons. Qed.

Lemma string_app_nil (s : string) : s +:+ "" = s.
Proof. induction s as [|c s IH]; [done|]. change (String c s +:+ "") with (String c (s +:+ "")). by rewrite IH. Qed.

Lemma fromHex_toHex s : fromHex (toHex s) = s.
Proof. rewrite <- (string_app_nil (toHex s)), fromHex_app. apply string_app_nil. Qed.

(** ** Base64 *)

Definition base64Digit (n : N) : ascii :=
  ascii_of_N (if (n <? 26)%N then 65 + n else if (n <? 52)%N then 71 + n else if (n <? 62)%N then n - 4
              else if (n =? 62)%N then 43 else 47)%N.

Fixpoint toBase64 (s : string) : string :=
  match s with
  | EmptyString => EmptyString
  | String a EmptyString =>
      let x := N_of_ascii a in String (base64Digit (x / 4)) (String (base64Digit (x mod 4 * 16)) "==")
  | String a (String b EmptyString) =>
      let x := N_of_ascii a in let y := N_of_ascii b in
      String (base64Digit (x / 4)) (String (base64Digit (x mod 4 * 16 + y / 16)) (String (base64Digit (y mod 16 * 4)) "="))
  | String a (String b (String c s)) =>
      let x := N_of_ascii a in let y := N_of_ascii b in let z := N_of_ascii c in
      String (base64Digit (x / 4)) (String (base64Digit (x mod 4 * 16 + y / 16)) (String (base64Digit (y mod 16 * 4 + z / 64))
        (String (base64Digit (z mod 64)) (toBase64 s))))
  end%N.

Definition base64Value (c : ascii) : option N :=
  let n := N_of_ascii c in
  if (65 <=? n)%N && (n <=? 90)%N then Some (n - 65)%N
  else if (97 <=? n)%N && (n <=? 122)%N then Some (n - 71)%N
  else if (48 <=? n)%N && (n <=? 57)%N then Some (n + 4)%N
  else if (n =? 43)%N || (n =? 45)%N then Some 62%N
  else if (n =? 47)%N || (n =? 95)%N then Some 63%N
  else None.

(** The sextets of [Buffer.from(s, 'base64')]: both alphabets, whatever is in neither is
    skipped. *)
Fixpoint sextets (s : string) : list N :=
  match s with EmptyString => [] | String c s => match base64Value c with Some n => n :: sextets s | None => sextets s end end.

Fixpoint ofSextets (l : list N) : string :=
  match l with
  | a :: b :: c :: d :: l =>
      String (ascii_of_N (a * 4 + b / 16)) (String (ascii_of_N (b mod 16 * 16 + c / 4)) (String (ascii_of_N (c mod 4 * 64 + d)) (ofSextets l)))
  | [a; b; c] => String (ascii_of_N (a * 4 + b / 16)) (String (ascii_of_N (b mod 16 * 16 + c / 4)) EmptyString)
  | [a; b] => String (ascii_of_N (a * 4 + b / 16)) EmptyString
  | _ => EmptyString
  end%N.

Definition fromBase64 (s : string) : string := ofSextets (sextets s).

Lemma base64Value_digit n : (n < 64)%N → base64Value (base64Digit n) = Some n.
Proof.
  intros Hn. assert (∀ m, (m < 64)%nat → base64Value (base64Digit (N.of_nat m)) = Some (N.of_nat m)) as H.
  { intros m Hm. do 64 (destruct m as [|m]; [reflexivity|]). lia. }
  specialize (H (N.to_nat n) ltac:(lia)). by rewrite N2Nat.id in H.
Qed.

Lemma ascii_bounded c : (N_of_ascii c < 256)%N.
Proof. by destruct c as [[] [] [] [] [] [] [] []]. Qed.

Lemma ascii_of c n : n = N_of_ascii c → ascii_of_N n = c.
Proof. intros ->. apply ascii_N_embedding. Qed.

Ltac sextet := rewrite base64Value_digit by (zify; Z.to_euclidean_division_equations; lia).

Lemma fromBase64_toBase64 s : fromBase64 (toBase64 s) = s.
Proof.
  enough (∀ n s, (String.length s ≤ n)%nat → fromBase64 (toBase64 s) = s) as H by by eapply H.
  clear s. intros n. induction n as [|n IH]; intros s Hs; [by destruct s; [|cbn in Hs; lia]|].
  destruct s as [|a [|b [|c s]]]; [done|..]; pose proof (ascii_bounded a); unfold fromBase64; cbn [toBase64 sextets].
  - do 2 sextet. cbn. f_equal. apply ascii_of. zify; Z.to_euclidean_division_equations; lia.
  - pose proof (ascii_bounded b). do 3 sextet. cbn. f_equal; [|f_equal]; apply ascii_of; zify; Z.to_euclidean_division_equations; lia.
  - pose proof (ascii_bounded b). pose proof (ascii_bounded c). do 4 sextet. cbn [ofSextets]. fold (fromBase64 (toBase64 s)).
    rewrite IH by (cbn in Hs; lia). f_equal; [|f_equal; [|f_equal]]; apply ascii_of; zify; Z.to_euclidean_division_equations; lia.
Qed.

(** ** Test vectors (FIPS 180-4; RFC 4231, cases 2 and 6) *)

Lemma sha256_abc :
  toHex (Sha256.ofBytes (Sha256.digest (Sha256.bytes "abc"))) = "ba7816bf8f01cfea414140de5dae2223b00361a396177a9cb410ff61f20015ad"%string.
Proof. vm_compute. reflexivity. Qed.

Lemma hmac_jefe :
  toHex (hmacSha256 "Jefe" "what do ya want for nothing?") = "5bdcc146bf60754e6a042426089575c75a003f089d2739839dec58b964ec3843"%string.
Proof. vm_compute. reflexivity. Qed.

Lemma hmac_long_key :
  toHex (hmacSha256 (Sha256.ofBytes (replicate 131 0xaa)) "Test Using Larger Than Block-Size Key - Hash Key First")
  = "60e431591ee0b67f0d8a26aacbf5b77f8e0bc6213728c5140546040f0ee37f54"%string.
Proof. vm_compute. reflexivity. Qed.
