(* ===== verification/Auth.v ===== *)
(** * Authentication: tokens, second factor and roles

    [auth.controller.ts], [mfa.service.ts], [token-revocation.service.ts],
    [jwt.strategy.ts], [jwt-auth.guard.ts] and [roles.guard.ts], with the credential
    check of [merchant.service.ts]: programs over the merchant table, the revocation
    lists in Redis and the signed tokens. A token is the payload it carries, and its
    signature is ideal: it verifies exactly when it was signed and has not expired. TOTP, bcrypt and the vault
    are parameters. *)

From S2P Require Import Prelude JsNumber Money Policies Merchant Redis Program Sanctions Accounts Crypto.

(** ** Tokens ([jwt.strategy.ts]) *)

Inductive UserRole := ADMIN | MERCHANT | OPERATOR | READONLY | AGENT.

#[global] Instance UserRole_eq_dec : EqDecision UserRole.
Proof. solve_decision. Defined.

(** [merchant.roles as JwtPayload['roles']]: the request validation admits these names
    only. *)
Definition roleOf (s : string) : UserRole :=
  if String.eqb s "ADMIN" then ADMIN else if String.eqb s "OPERATOR" then OPERATOR
  else if String.eqb s "READONLY" then READONLY else if String.eqb s "AGENT" then AGENT else MERCHANT.

Record JwtPayload := mkJwtPayload {
  jp_sub : string;
  jp_merchantId : string;
  jp_email : option string;
  jp_roles : option (list UserRole);
  jp_jti : option string;
  jp_iat : option Z;
  jp_exp : option Z;
  jp_mfaPending : bool;
  jp_delegationId : option string }.

#[global] Instance JwtPayload_eq_dec : EqDecision JwtPayload.
Proof. solve_decision. Defined.

Record AuthenticatedUser := mkAuthenticatedUser {
  us_userId : string;
  us_merchantId : string;
  us_email : option string;
  us_roles : list UserRole;
  us_jti : option string;
  us_tokenExp : option Z;
  us_mfaPending : bool;
  us_delegationId : option string }.

(** ** Rows and keys *)

(** A merchant's row with the columns of the second factor. *)
Record Login := mkLogin {
  lg_account : Account;
  lg_mfaSecretCiphertext : option string;
  lg_mfaEnabled : bool;
  lg_mfaBackupCodeHashes : list string }.

Definition lg_merchantId (m : Login) : string := ac_merchantId (lg_account m).
Definition lg_apiKeyId (m : Login) : string := cr_apiKeyId (ac_credentials (lg_account m)).
Definition lg_isActive (m : Login) : bool := ac_isActive (lg_account m).

Definition findLogin (merchantId : string) (rows : list Login) : option Login :=
  List.find (λ m, String.eqb (lg_merchantId m) merchantId) rows.

(** [save] of a row that was loaded: every column is written. *)
Definition saveLogin (m : Login) (rows : list Login) : list Login :=
  (λ r, if String.eqb (ac_id (lg_account r)) (ac_id (lg_account m))
        then mkLogin (writtenRow (lg_account r) (lg_account m)) (lg_mfaSecretCiphertext m) (lg_mfaEnabled m) (lg_mfaBackupCodeHashes m)
        else r) <$> rows.

(** [revoked:jti:...] and [revoked-before:...] *)
Inductive RevocationKey := JTI (jti : string) | MERCHANT_BEFORE (merchantId : string).

#[global] Instance RevocationKey_eq_dec : EqDecision RevocationKey.
Proof. solve_decision. Defined.

#[global] Instance RevocationKey_countable : Countable RevocationKey.
Proof.
  refine (inj_countable' (λ k, match k with JTI j => inl j | MERCHANT_BEFORE m => inr m end)
    (λ x, match x with inl j => JTI j | inr m => MERCHANT_BEFORE m end) _).
  by intros [].
Defined.

Abbreviation revocations := (gmap RevocationKey (cell Z)).

(** ** Calls *)

Inductive auth_event : Type → Type :=
  | AUTH_CLOCK : auth_event Date
  | AUTH_UUID : auth_event string
  | LOGIN_BY_KEY (apiKeyId : string) : auth_event (result (option Login))
  | LOGIN_ON_MASTER (merchantId : string) : auth_event (result (option Login))
  | LOGIN_ON_REPLICA (merchantId : string) : auth_event (result (option Login))
  | SAVE_LOGIN (m : Login) : auth_event (result unit)
  | TOTP_SECRET : auth_event string
  | TOTP_VERIFY (secret code : string) : auth_event (result bool)
  | VAULT_ENCRYPT (plaintext : string) : auth_event (result string)
  | VAULT_DECRYPT (ciphertext : string) : auth_event (result string)
  | RANDOM_CODE : auth_event string
  | BCRYPT_HASH (code : string) : auth_event string
  | SET_REVOKED (k : RevocationKey) (v : Z) (ttlSeconds : Z) : auth_event (result unit)
  | GET_REVOKED (k : RevocationKey) : auth_event (result (option Z))
  | SIGN (payload : JwtPayload) (expiresIn : Z) : auth_event JwtPayload
  | VERIFY_TOKEN (token : option JwtPayload) : auth_event (option JwtPayload).

Abbreviation A := (prog auth_event).

(** ** Revocation ([token-revocation.service.ts]) *)

Module TokenRevocation.

Definition MERCHANT_REVOCATION_TTL_SECONDS : Z := 7 * 24 * 3600.

Definition revokeToken (jti : string) (remainingLifetimeSeconds : Z) : A unit :=
  if remainingLifetimeSeconds <=? 0 then mret tt else ask (SET_REVOKED (JTI jti) 1 remainingLifetimeSeconds).

Definition isTokenRevoked (jti : string) : A bool := v ← ask (GET_REVOKED (JTI jti)); mret (isSome v).

Definition revokeAllForMerchant (merchantId : string) : A unit :=
  now ← call AUTH_CLOCK;
  ask (SET_REVOKED (MERCHANT_BEFORE merchantId) (now / 1000) MERCHANT_REVOCATION_TTL_SECONDS).

Definition isMerchantTokenRevoked (merchantId : string) (tokenIssuedAt : Z) : A bool :=
  revokedBefore ← ask (GET_REVOKED (MERCHANT_BEFORE merchantId));
  mret match revokedBefore with Some t => tokenIssuedAt <=? t | None => false end.
End TokenRevocation.

(** ** The guards *)

(** The number zero is falsy. *)
Definition present (o : option Z) : bool := match o with Some n => negb (n =? 0) | None => false end.

Module JwtStrategy.

(** [JWT_SECRET] at boot. *)
Definition constructor (jwtSecret : option string) : result unit :=
  throw_if (negb (truthy jwtSecret) || (String.length (nullish jwtSecret "") <? 32)%nat) (DomainError "JWT_SECRET").

Definition validate (payload : JwtPayload) : A AuthenticatedUser :=
  if String.eqb (jp_sub payload) "" || String.eqb (jp_merchantId payload) "" then Fail (HttpException 401 "Unauthorized")
  else
    tokenRevoked ← (if truthy (jp_jti payload) then TokenRevocation.isTokenRevoked (nullish (jp_jti payload) "") else mret false);
    merchantRevoked ←
      (if present (jp_iat payload) then TokenRevocation.isMerchantTokenRevoked (jp_merchantId payload) (nullish (jp_iat payload) 0) else mret false);
    if tokenRevoked || merchantRevoked then Fail (HttpException 401 "TOKEN_REVOKED")
    else
      mret (mkAuthenticatedUser (jp_sub payload) (jp_merchantId payload) (jp_email payload) (nullish (jp_roles payload) [MERCHANT])
              (jp_jti payload) (jp_exp payload) (jp_mfaPending payload) (jp_delegationId payload)).
End JwtStrategy.

(** The decorators of a route. *)
Record Route := mkRoute { rt_isPublic : bool; rt_allowMfaPending : bool; rt_roles : list UserRole }.

Module JwtAuthGuard.

(** [handleRequest]: no verified token, no user. *)
Definition handleRequest (user : option AuthenticatedUser) : A AuthenticatedUser :=
  match user with Some u => mret u | None => Fail (HttpException 401 "JWT_AUTH_FAILED") end.

(** The user of the request, [None] on a public route. *)
Definition canActivate (r : Route) (token : option JwtPayload) : A (option AuthenticatedUser) :=
  if rt_isPublic r then mret None
  else
    payload ← call (VERIFY_TOKEN token);
    found ← match payload with Some p => u ← JwtStrategy.validate p; mret (Some u) | None => mret None end;
    user ← handleRequest found;
    if us_mfaPending user && negb (rt_allowMfaPending r) then Fail (HttpException 401 "MFA_VERIFICATION_REQUIRED")
    else mret (Some user).
End JwtAuthGuard.

Module RolesGuard.

Definition assertAdminHasMfaEnabled (merchantId : string) : A unit :=
  merchant ← ask (LOGIN_ON_REPLICA merchantId);
  match merchant with
  | Some m => if lg_mfaEnabled m then mret tt else Fail (HttpException 403 "MFA_REQUIRED_FOR_ADMIN")
  | None => Fail (HttpException 403 "MFA_REQUIRED_FOR_ADMIN")
  end.

Definition canActivate (r : Route) (user : option AuthenticatedUser) : A bool :=
  match rt_roles r with
  | [] => mret true
  | requiredRoles =>
      match user with
      | None => Fail (HttpException 403 "NO_USER")
      | Some u =>
          if negb (existsb (λ role, bool_decide (role ∈ us_roles u)) requiredRoles) then Fail (HttpException 403 "INSUFFICIENT_PERMISSIONS")
          else
            _ ← (if bool_decide (ADMIN ∈ us_roles u) then assertAdminHasMfaEnabled (us_merchantId u) else mret tt);
            mret true
      end
  end.
End RolesGuard.

(** ** The second factor ([mfa.service.ts]) *)

(** [bcrypt.compare], and the hash an unknown key is compared with. *)
Class Bcrypt := { compare : string → string → bool; dummyHash : string }.

(** [getOrThrow] *)
Definition getLoginOrThrow (merchantId : string) : A Login :=
  merchant ← ask (LOGIN_ON_MASTER merchantId);
  match merchant with Some m => mret m | None => Fail (HttpException 404 "MERCHANT_NOT_FOUND") end.

(** An error of the library means that the code is no TOTP code. *)
Definition isValidTotp (secret code : string) : A bool := catch (ask (TOTP_VERIFY secret code)) (λ _, mret false).

Definition BACKUP_CODE_COUNT : nat := 10.

(** [XXXX-XXXX] of four random bytes. *)
Definition formatCode (bytes : string) : string :=
  let code := Str.toUpperCase (toHex bytes) in String.substring 0 4 code +:+ "-" +:+ String.substring 4 4 code.

Fixpoint backupCodes (n : nat) : A (list string * list string) :=
  match n with
  | O => mret ([], [])
  | S n =>
      bytes ← call RANDOM_CODE;
      let formatted := formatCode bytes in
      hash ← call (BCRYPT_HASH formatted);
      '(codes, hashes) ← backupCodes n;
      mret (formatted :: codes, hash :: hashes)
  end.

Definition generateBackupCodes : A (list string * list string) := backupCodes BACKUP_CODE_COUNT.

Module MfaService.
Section mfa.
Context `{Bcrypt}.

Definition generateEnrollment (merchantId : string) : A string :=
  merchant ← getLoginOrThrow merchantId;
  if lg_mfaEnabled merchant then Fail (HttpException 409 "MFA_ALREADY_ENABLED")
  else
    secret ← call TOTP_SECRET;
    ciphertext ← ask (VAULT_ENCRYPT secret);
    _ ← ask (SAVE_LOGIN (merchant {{ lg_mfaSecretCiphertext := Some ciphertext }}));
    mret secret.

Definition confirmEnrollment (merchantId code : string) : A (list string) :=
  merchant ← getLoginOrThrow merchantId;
  if negb (truthy (lg_mfaSecretCiphertext merchant)) then Fail (HttpException 409 "MFA_NOT_ENROLLING")
  else
    secret ← ask (VAULT_DECRYPT (nullish (lg_mfaSecretCiphertext merchant) ""));
    valid ← isValidTotp secret code;
    if negb valid then Fail (HttpException 401 "MFA_CODE_INVALID")
    else
      '(plaintextCodes, hashes) ← generateBackupCodes;
      _ ← ask (SAVE_LOGIN (merchant {{ lg_mfaEnabled := true; lg_mfaBackupCodeHashes := hashes }}));
      mret plaintextCodes.

(** The hashes without the first one the code matches. *)
Fixpoint consume (code : string) (hashes : list string) : option (list string) :=
  match hashes with
  | [] => None
  | h :: hashes => if compare code h then Some hashes else (λ l, h :: l) <$> consume code hashes
  end.

Definition verifyCode (merchantId code : string) : A unit :=
  merchant ← getLoginOrThrow merchantId;
  if negb (lg_mfaEnabled merchant) || negb (truthy (lg_mfaSecretCiphertext merchant)) then Fail (HttpException 409 "MFA_NOT_ENABLED")
  else
    secret ← ask (VAULT_DECRYPT (nullish (lg_mfaSecretCiphertext merchant) ""));
    valid ← isValidTotp secret code;
    if valid : bool then mret tt
    else
      match consume code (lg_mfaBackupCodeHashes merchant) with
      | Some remaining => ask (SAVE_LOGIN (merchant {{ lg_mfaBackupCodeHashes := remaining }}))
      | None => Fail (HttpException 401 "MFA_CODE_INVALID")
      end.

Definition disableMfa (merchantId code : string) : A unit :=
  _ ← verifyCode merchantId code;
  merchant ← getLoginOrThrow merchantId;
  ask (SAVE_LOGIN (mkLogin (lg_account merchant) None false [])).
End mfa.
End MfaService.

(** ** The endpoints ([auth.controller.ts]) *)

Module AuthController.
Section controller.
Context `{Bcrypt}.

Definition MFA_PENDING_TOKEN_TTL_SECONDS : Z := 300.
Definition FULL_TOKEN_TTL_SECONDS : Z := 3600.

(** [@Length(6, 9)] *)
Definition validMfaCode (code : string) : bool := lengthBetween 6 9 code.

(** [MerchantService.verifyCredentials] *)
Definition verifyCredentials (apiKeyId apiKeySecret : string) : A (option Login) :=
  merchant ← ask (LOGIN_BY_KEY apiKeyId);
  let hashToCompare := match merchant with Some m => cr_apiKeySecretHash (ac_credentials (lg_account m)) | None => dummyHash end in
  let matches := compare apiKeySecret hashToCompare in
  mret match merchant with Some m => if lg_isActive m && matches then Some m else None | None => None end.

Definition payloadFor (sub merchantId : string) (roles : list UserRole) (jti : string) (mfaPending : bool) : JwtPayload :=
  mkJwtPayload sub merchantId None (Some roles) (Some jti) None None mfaPending None.

(** The token and whether a second factor is required. *)
Definition issueToken (apiKeyId apiKeySecret : string) : A (JwtPayload * bool) :=
  found ← verifyCredentials apiKeyId apiKeySecret;
  match found with
  | None => Fail (HttpException 401 "INVALID_CREDENTIALS")
  | Some merchant =>
      jti ← call AUTH_UUID;
      let payload := payloadFor (ac_id (lg_account merchant)) (lg_merchantId merchant)
                       (roleOf <$> cr_roles (ac_credentials (lg_account merchant))) jti (lg_mfaEnabled merchant) in
      if lg_mfaEnabled merchant then
        token ← call (SIGN payload MFA_PENDING_TOKEN_TTL_SECONDS); mret (token, true)
      else
        token ← call (SIGN payload FULL_TOKEN_TTL_SECONDS); mret (token, false)
  end.

(** Logout, and the end of a pending token. *)
Definition revokeOwn (user : AuthenticatedUser) : A unit :=
  if truthy (us_jti user) && present (us_tokenExp user) then
    now ← call AUTH_CLOCK;
    TokenRevocation.revokeToken (nullish (us_jti user) "") (nullish (us_tokenExp user) 0 - now / 1000)
  else mret tt.

Definition revokeCurrentToken (user : AuthenticatedUser) : A unit := revokeOwn user.

Definition enrollMfa (user : AuthenticatedUser) : A string := MfaService.generateEnrollment (us_merchantId user).

Definition confirmMfa (user : AuthenticatedUser) (code : string) : A (list string) := MfaService.confirmEnrollment (us_merchantId user) code.

Definition disableMfa (user : AuthenticatedUser) (code : string) : A unit := MfaService.disableMfa (us_merchantId user) code.

Definition verifyMfa (user : AuthenticatedUser) (code : string) : A JwtPayload :=
  _ ← MfaService.verifyCode (us_merchantId user) code;
  _ ← revokeOwn user;
  jti ← call AUTH_UUID;
  call (SIGN (payloadFor (us_userId user) (us_merchantId user) (us_roles user) jti false) FULL_TOKEN_TTL_SECONDS).
End controller.
End AuthController.

(** ** Requests *)

Definition PUBLIC : Route := mkRoute true false [].
Definition AUTHENTICATED : Route := mkRoute false false [].
Definition MFA_VERIFY : Route := mkRoute false true [].

Inductive auth_request :=
  | LOGIN (apiKeyId apiKeySecret : string)
  | LOGOUT (token : option JwtPayload)
  | ENROLL (token : option JwtPayload)
  | CONFIRM (token : option JwtPayload) (code : string)
  | DISABLE (token : option JwtPayload) (code : string)
  | VERIFY_MFA (token : option JwtPayload) (code : string)
  (* [delegation.service.ts]: the token of an agent *)
  | DELEGATE (merchantId delegationId jti : string) (expiresIn : Z)
  (* [merchant.service.ts]: deactivation, and the sessions of a merchant *)
  | REVOKE_MERCHANT (merchantId : string)
  | ACT (route : Route) (token : option JwtPayload).

Inductive auth_answer :=
  | TOKEN (token : JwtPayload) (mfaRequired : bool) | SECRET (secret : string) | CODES (codes : list string) | PASSED (user : option AuthenticatedUser) | DONE.

Section requests.
Context `{Bcrypt}.

(** A handler behind [JwtAuthGuard]. *)
Definition guarded {X} (r : Route) (token : option JwtPayload) (handler : AuthenticatedUser → A X) : A X :=
  user ← JwtAuthGuard.canActivate r token;
  match user with Some u => handler u | None => Fail (TypeError "user") end.

(** A body the validation of the framework refuses. *)
Definition validated {X} (code : string) (p : A X) : A X :=
  if AuthController.validMfaCode code then p else Fail (HttpException 400 "Bad Request").

Definition agentPayload (merchantId delegationId jti : string) : JwtPayload :=
  mkJwtPayload delegationId merchantId None (Some [AGENT]) (Some jti) None None false (Some delegationId).

Definition serveAuth (q : auth_request) : A auth_answer :=
  match q with
  | LOGIN key secret => '(t, mfa) ← AuthController.issueToken key secret; mret (TOKEN t mfa)
  | LOGOUT token => _ ← guarded AUTHENTICATED token AuthController.revokeCurrentToken; mret DONE
  | ENROLL token => secret ← guarded AUTHENTICATED token AuthController.enrollMfa; mret (SECRET secret)
  | CONFIRM token code => codes ← guarded AUTHENTICATED token (λ u, validated code (AuthController.confirmMfa u code)); mret (CODES codes)
  | DISABLE token code => _ ← guarded AUTHENTICATED token (λ u, validated code (AuthController.disableMfa u code)); mret DONE
  | VERIFY_MFA token code => t ← guarded MFA_VERIFY token (λ u, validated code (AuthController.verifyMfa u code)); mret (TOKEN t false)
  | DELEGATE merchantId delegationId jti expiresIn => t ← call (SIGN (agentPayload merchantId delegationId jti) expiresIn); mret (TOKEN t false)
  | REVOKE_MERCHANT merchantId => _ ← TokenRevocation.revokeAllForMerchant merchantId; mret DONE
  | ACT route token => user ← JwtAuthGuard.canActivate route token; _ ← RolesGuard.canActivate route user; mret (PASSED user)
  end.
End requests.

(** ** The world *)

Record auth_state := mkAuthState {
  au_logins : list Login;
  au_replica : list Login;
  au_revoked : revocations;
  au_tokens : list JwtPayload;             (* what was signed *)
  au_seen : list Login;                    (* the rows reads of the master returned *)
  au_codes : list string;                  (* the backup codes that were hashed *)
  au_calls : nat }.

(** What the code does not define, by the number of the call. *)
Class AuthWorld := {
  auth_fault : nat → Fault;
  auth_uuid : nat → string;
  auth_random : nat → string;
  auth_secret : nat → string;
  auth_hash : nat → string → string;
  auth_encrypt : nat → string → string;
  auth_decrypt : string → string;
  auth_totp : string → string → Date → result bool }.

Section handler.
Context `{AuthWorld}.

(** [iat] and [exp] of a signed payload. *)
Definition stamped (p : JwtPayload) (now : Date) (expiresIn : Z) : JwtPayload :=
  p {{ jp_iat := Some (now / 1000); jp_exp := Some (now / 1000 + expiresIn) }}.

(** A token that was signed and has not expired. *)
Definition verifyToken (now : Date) (token : option JwtPayload) (tokens : list JwtPayload) : option JwtPayload :=
  match token with
  | Some p =>
      if bool_decide (p ∈ tokens) && match jp_exp p with Some e => now / 1000 <? e | None => true end then Some p else None
  | None => None
  end.

Definition see (o : option Login) (s : auth_state) : auth_state :=
  match o with Some m => s {{ au_seen := au_seen s ++ [m] }} | None => s end.

Definition auth_handle X (c : auth_event X) (now : Date) (s0 : auth_state) : auth_state * result X :=
  let n := au_calls s0 in
  let f := auth_fault n in
  let s := s0 {{ au_calls := S n }} in
  match c in auth_event Y return auth_state * result Y with
  | AUTH_CLOCK => (s, Ok now)
  | AUTH_UUID => (s, Ok (auth_uuid n))
  | LOGIN_BY_KEY key => let r := List.find (λ m, String.eqb (lg_apiKeyId m) key) (au_logins s) in faulty f s (see r s) (Ok r)
  | LOGIN_ON_MASTER m => let r := findLogin m (au_logins s) in faulty f s (see r s) (Ok r)
  | LOGIN_ON_REPLICA m => faulty f s s (Ok (List.find (λ l, String.eqb (lg_merchantId l) m && lg_isActive l) (au_replica s)))
  | SAVE_LOGIN m => faulty f s (s {{ au_logins := saveLogin m (au_logins s) }}) (Ok tt)
  | TOTP_SECRET => (s, Ok (auth_secret n))
  | TOTP_VERIFY secret code => (s, Ok (auth_totp secret code now))
  | VAULT_ENCRYPT text => faulty f s s (Ok (auth_encrypt n text))
  | VAULT_DECRYPT text => faulty f s s (Ok (auth_decrypt text))
  | RANDOM_CODE => (s, Ok (auth_random n))
  | BCRYPT_HASH code => (s {{ au_codes := au_codes s ++ [code] }}, Ok (auth_hash n code))
  | SET_REVOKED k v ttl => faulty f s (s {{ au_revoked := <[k := mkCell v (deadline now ttl)]> (au_revoked s) }}) (Ok tt)
  | GET_REVOKED k => faulty f s s (Ok (peek now k (au_revoked s)))
  | SIGN p expiresIn => let p := stamped p now expiresIn in (s {{ au_tokens := au_tokens s ++ [p] }}, Ok p)
  | VERIFY_TOKEN token => (s, Ok (verifyToken now token (au_tokens s)))
  end.

#[global] Instance auth_answers : Answers auth_handle.
Proof. intros X c now s. destruct c; cbn; try (by eexists _, _); unfold faulty; destruct (auth_fault (au_calls s)); by eexists _, _. Qed.
End handler.
