(* ===== verification/AuthCorrect.v ===== *)
(** * Authentication: proofs

    Where every token comes from, under every interleaving and all failures of the calls
    ([tokens_need_second_factor]). *)

From S2P Require Import Prelude JsNumber Money Policies Merchant Redis Shared Program Sanctions Accounts Crypto Auth.

(** ** Programs that issue only certain calls *)

Section only.
Context {E : Type → Type} (ok : ∀ X, E X → bool).

(** And what they return. *)
Fixpoint only {X} (p : prog E X) (Q : X → Prop) : Prop :=
  match p with Ret x => Q x | Fail _ => True | Do c k => ok _ c = true ∧ ∀ x, only (k x) Q end.

Lemma only_bind {X Y} (p : prog E X) (f : X → prog E Y) Q R : only p Q → (∀ x, Q x → only (f x) R) → only (p ≫= f) R.
Proof. induction p as [x|e|Z c k IH]; cbn; [by intros Hp Hf; apply Hf|done|]. intros [Hc Hk] Hf. split; [done|]. intros z. by apply IH. Qed.

Lemma only_ask {X} (c : E (result X)) : ok _ c = true → only (ask c) (λ _, True).
Proof. intros Hc. by split; [|intros []]. Qed.

Lemma only_then {X Y} (c : E (result X)) (f : X → prog E Y) R : ok _ c = true → (∀ x, only (f x) R) → only (ask c ≫= f) R.
Proof. intros Hc Hf. eapply only_bind; [by apply only_ask|]. intros x _. apply Hf. Qed.

Lemma only_catch {X} (p : prog E X) h Q : only p Q → (∀ e, only (h e) Q) → only (catch p h) Q.
Proof. induction p as [x|e|Z c k IH]; cbn; [done|by intros _|]. intros [Hc Hk] Hh. split; [done|]. intros z. by apply IH. Qed.

(** A relation between states that those calls keep. *)
Lemma run_only {S} (handler : ∀ X, E X → Date → S → S * result X) (R : S → S → Prop) `{!PreOrder R} {X} (p : prog E X) Q now s :
  (∀ X c s, ok X c = true → R s (handler X c now s).1) → only p Q →
  R s (run handler p now s).1 ∧ ∀ x, (run handler p now s).2 = Ok x → Q x.
Proof.
  intros HR. revert s. induction p as [x|e|Z c k IH]; intros s Hp; [split; [done|by intros ? [= <-]]|done|]. destruct Hp as [Hc Hk]. cbn.
  pose proof (HR Z c s Hc) as H1. destruct (handler Z c now s) as [s1 [z|e]]; [|done]. destruct (IH z s1 (Hk z)) as [H2 H3]. split; [by etrans|done].
Qed.
End only.

Lemma only_weaken {E : Type → Type} (ok ok' : ∀ X, E X → bool) {X} (p : prog E X) Q :
  (∀ X c, ok X c = true → ok' X c = true) → only ok p Q → only ok' p Q.
Proof. intros Hok. induction p as [x|e|Z c k IH]; cbn; [done..|]. intros [Hc Hk]. split; [by apply Hok|auto]. Qed.

(** Calls that change nothing. *)
Definition reading {X} (c : auth_event X) : bool :=
  match c with SIGN _ _ | SET_REVOKED _ _ _ | SAVE_LOGIN _ | BCRYPT_HASH _ => false | _ => true end.

Lemma only_isValidTotp secret code : only (@reading) (isValidTotp secret code) (λ _, True).
Proof. apply only_catch; [by apply only_ask|done]. Qed.

Lemma only_getLogin id : only (@reading) (getLoginOrThrow id) (λ _, True).
Proof. apply only_then; [done|]. by intros []. Qed.

Lemma only_validate p : only (@reading) (JwtStrategy.validate p) (λ u, us_merchantId u = jp_merchantId p ∧ us_jti u = jp_jti p ∧ us_tokenExp u = jp_exp p).
Proof.
  unfold JwtStrategy.validate. case_match; [done|]. eapply (only_bind _ _ _ (λ _, True)).
  { case_match; [|done]. by apply only_then. }
  intros b _. eapply (only_bind _ _ _ (λ _, True)).
  { case_match; [|done]. by apply only_then. }
  intros b' _. by destruct (b || b').
Qed.

Lemma only_guard r token : only (@reading) (JwtAuthGuard.canActivate r token) (λ _, True).
Proof.
  unfold JwtAuthGuard.canActivate. destruct (rt_isPublic r); [done|]. split; [done|]. intros [p|]; [|done]. cbn.
  eapply only_bind; [eapply only_bind; [apply only_validate|]|]; [by intros u _; instantiate (1 := λ _, True)|]. intros [u|] _; [|done].
  cbn. by destruct (us_mfaPending u && negb (rt_allowMfaPending r)).
Qed.

Section auth.
Context `{Bcrypt, AuthWorld}.

(** ** Evidence *)

(** The code is a valid TOTP code of the row's secret, or one of its backup codes. *)
Definition accepts (m : Login) (code : string) (t : Date) : Prop :=
  (∃ ciphertext, lg_mfaSecretCiphertext m = Some ciphertext ∧ auth_totp (auth_decrypt ciphertext) code t = Ok true)
  ∨ ∃ h, h ∈ lg_mfaBackupCodeHashes m ∧ compare code h = true.

(** A login whose secret matches the stored row, [mfaPending] exactly when the row has
    the second factor enabled. *)
Definition loggedIn (reqs : list auth_request) (s : auth_state) (p : JwtPayload) : Prop :=
  ∃ m key secret, m ∈ au_seen s ∧ LOGIN key secret ∈ reqs ∧ lg_apiKeyId m = key
    ∧ compare secret (cr_apiKeySecretHash (ac_credentials (lg_account m))) = true ∧ lg_isActive m = true
    ∧ lg_merchantId m = jp_merchantId p ∧ lg_mfaEnabled m = jp_mfaPending p.

(** A code of the second factor, sent with a token of the same merchant. *)
Definition secondFactor (reqs : list auth_request) (s : auth_state) (p : JwtPayload) : Prop :=
  ∃ m token code t, m ∈ au_seen s ∧ VERIFY_MFA (Some token) code ∈ reqs ∧ token ∈ au_tokens s ∧ jp_merchantId token = jp_merchantId p
    ∧ lg_merchantId m = jp_merchantId p ∧ lg_mfaEnabled m = true ∧ accepts m code t ∧ jp_mfaPending p = false.

Definition delegated (reqs : list auth_request) (p : JwtPayload) : Prop :=
  ∃ delegationId jti expiresIn, DELEGATE (jp_merchantId p) delegationId jti expiresIn ∈ reqs
    ∧ jp_delegationId p = Some delegationId ∧ jp_roles p = Some [AGENT].

Definition justified (reqs : list auth_request) (s : auth_state) (p : JwtPayload) : Prop :=
  loggedIn reqs s p ∨ secondFactor reqs s p ∨ delegated reqs p.

(** ** The logic *)

Definition keeps (reqs : list auth_request) (s : auth_state) (_ : list unit) : Prop := ∀ p, p ∈ au_tokens s → justified reqs s p.

Definition later (s s' : auth_state) : Prop := au_tokens s ⊆ au_tokens s' ∧ au_seen s ⊆ au_seen s'.

#[local] Instance later_preorder : PreOrder later.
Proof. split; [by split|]. intros s1 s2 s3 [H1 H2] [H3 H4]. split; set_solver. Qed.

Lemma justified_later reqs s s' p : later s s' → justified reqs s p → justified reqs s' p.
Proof.
  intros [Ht Hs] [(m & key & secret & Hm & Hrest)|[(m & token & code & t & Hm & Hr & Htok & Hrest)|Hd]].
  - left. exists m, key, secret. split; [by apply Hs|done].
  - right; left. exists m, token, code, t. split_and!; try apply Hrest; [by apply Hs|done|by apply Ht].
  - by right; right.
Qed.

(** What the answer of a call tells. *)
Definition told {X} (c : auth_event X) (now : Date) (s : auth_state) : X → Prop :=
  match c in auth_event Y return Y → Prop with
  | LOGIN_BY_KEY key => λ r, ∀ m, r = Ok (Some m) → m ∈ au_seen s ∧ lg_apiKeyId m = key
  | LOGIN_ON_MASTER id => λ r, ∀ m, r = Ok (Some m) → m ∈ au_seen s ∧ lg_merchantId m = id
  | TOTP_VERIFY secret code => λ r, r = auth_totp secret code now
  | VAULT_DECRYPT text => λ r, ∀ x, r = Ok x → x = auth_decrypt text
  | VERIFY_TOKEN token => λ r, ∀ p, r = Some p → token = Some p ∧ p ∈ au_tokens s
  | _ => λ _, True
  end.

Definition signs {X} (c : auth_event X) : bool := match c with SIGN _ _ => true | _ => false end.

Lemma find_satisfies {T} (f : T → bool) l x : List.find f l = Some x → f x = true.
Proof. intros Hx. by apply List.find_some in Hx as [_ ?]. Qed.

Lemma handle_quiet X (c : auth_event X) now s : signs c = false →
  ∃ s' x, auth_handle X c now s = (s', Ok x) ∧ au_tokens s' = au_tokens s ∧ au_seen s ⊆ au_seen s' ∧ told c now s' x.
Proof.
  intros Hc. destruct s as [ls rp rv tk sn cs n]. destruct c; cbn in Hc; try discriminate Hc; cbn; unfold faulty, findLogin.
  all: try match goal with |- context [List.find ?f ?l] => destruct (List.find f l) as [m|] eqn:Em; [pose proof (find_satisfies _ _ _ Em) as Hf; cbn in Hf|] end.
  all: try destruct (auth_fault n).
  all: eexists _, _; split_and!; [reflexivity|reflexivity|cbn; set_solver|cbn; try done].
  all: try (intros m' Hm; unfold broken in Hm; simplify_eq; first [split; [set_solver|by apply String.eqb_eq]|done]).
  all: intros p Hp; unfold verifyToken in Hp; destruct token as [q|]; [|discriminate Hp]; destruct (bool_decide_reflect (q ∈ tk)); [|discriminate Hp];
    case_match; simplify_eq; done.
Qed.

#[local] Arguments wp : simpl never.
Abbreviation WP reqs := (wp auth_handle (keeps reqs) later (λ _, True)).

Lemma wp_mret reqs {X} (x : X) (Φ : auth_state → unit → X → Prop) Ψ s l : Φ s l x → WP reqs (mret x) Φ Ψ s l.
Proof. done. Qed.

(** A call that does not sign. *)
Lemma wp_quiet reqs {X} (c : auth_event X) (Φ : auth_state → unit → X → Prop) Ψ s l :
  signs c = false → (∀ now s' x, later s s' → told c now s' x → Φ s' l x) → WP reqs (call c) Φ Ψ s l.
Proof.
  intros Hc HΦ. apply wp_call. intros now s1 pre post _ Hg Hi. destruct (handle_quiet X c now s1 Hc) as (s2 & x & Hh & Ht & Hs & Htold).
  assert (later s1 s2) as H12 by by split; [rewrite Ht|]. exists s2, x, l. split_and!; [done|done| |].
  - intros p Hp. rewrite Ht in Hp. eapply justified_later; [exact H12|by apply Hi].
  - eapply HΦ; [by etrans|done].
Qed.

Lemma wp_quiet_ask reqs {X} (c : auth_event (result X)) (Φ : auth_state → unit → X → Prop) s l :
  signs c = false → (∀ now s' x, later s s' → told c now s' (Ok x) → Φ s' l x) → WP reqs (ask c) Φ (λ _ _ _, True) s l.
Proof.
  intros Hc HΦ. apply wp_bind, wp_quiet; [done|]. intros now s' [x|e] Hg Ht; [by eapply HΦ|done].
Qed.

(** A signature. *)
Lemma wp_sign reqs p expiresIn (Φ : auth_state → unit → JwtPayload → Prop) Ψ s l :
  (∀ q s', q {{ jp_iat := jp_iat p; jp_exp := jp_exp p }} = p → later s s' → justified reqs s' q) →
  (∀ q s', later s s' → Φ s' l q) → WP reqs (call (SIGN p expiresIn)) Φ Ψ s l.
Proof.
  intros Hj HΦ. apply wp_call. intros now [ls rp rv tk sn cs n] pre post _ Hg Hi. cbn. eexists _, _, l. split; [reflexivity|].
  set (s1 := mkAuthState ls rp rv tk sn cs n) in *. fold (stamped p now expiresIn). set (q := stamped p now expiresIn).
  set (s2 := mkAuthState ls rp rv (tk ++ [q]) sn cs (S n)).
  assert (later s1 s2) as H12 by (split; cbn; set_solver). split_and!; [done| |apply HΦ; by etrans].
  intros x Hx. cbn in Hx. apply elem_of_app in Hx as [Hold | ->%list_elem_of_singleton].
  - eapply justified_later; [exact H12|by apply Hi].
  - apply Hj; [by destruct p|by etrans].
Qed.

(** ** The programs *)

(** Programs that do not sign, with what they return. *)
Definition silent {X} (c : auth_event X) : bool := negb (signs c).
Abbreviation quiet := (only (@silent)).

Lemma wp_of_quiet reqs {X} (p : A X) Q s l : quiet p Q → WP reqs p (λ s' _ x, later s s' ∧ Q x) (λ _ _ _, True) s l.
Proof.
  enough (∀ s0, later s0 s → quiet p Q → WP reqs p (λ s' _ x, later s0 s' ∧ Q x) (λ _ _ _, True) s l) as Hgen by by apply Hgen.
  revert s. induction p as [x|e|Z c k IH]; intros s s0 Hs Hq; [done..|]. destruct Hq as [Hc%negb_true_iff Hk].
  change (WP reqs (call c ≫= k) (λ s' _ x, later s0 s' ∧ Q x) (λ _ _ _, True) s l). apply wp_bind, wp_quiet; [done|].
  intros now s' x Hg _. apply IH; [by etrans|done].
Qed.

Lemma silent_reading {X} (p : A X) Q : only (@reading) p Q → quiet p Q.
Proof. apply only_weaken. by intros Y []. Qed.

Lemma quiet_backupCodes n : quiet (backupCodes n) (λ _, True).
Proof. induction n as [|n IH]; [done|]. cbn. split; [done|]. intros b. split; [done|]. intros h. eapply only_bind; [done|]. by intros []. Qed.

Lemma quiet_revokeToken jti n : quiet (TokenRevocation.revokeToken jti n) (λ _, True).
Proof. unfold TokenRevocation.revokeToken. case_match; [done|by apply only_ask]. Qed.

Lemma quiet_revokeOwn u : quiet (AuthController.revokeOwn u) (λ _, True).
Proof. unfold AuthController.revokeOwn. case_match; [|done]. split; [done|]. intros now. apply quiet_revokeToken. Qed.

Lemma quiet_enroll id : quiet (MfaService.generateEnrollment id) (λ _, True).
Proof.
  eapply only_bind; [apply silent_reading, only_getLogin|]. intros m _. case_match; [done|]. split; [done|]. intros secret.
  apply only_then; [done|]. intros c. by apply only_then.
Qed.

Lemma quiet_confirm id code : quiet (MfaService.confirmEnrollment id code) (λ _, True).
Proof.
  eapply only_bind; [apply silent_reading, only_getLogin|]. intros m _. case_match; [done|]. apply only_then; [done|]. intros secret.
  eapply only_bind; [apply silent_reading, only_isValidTotp|]. intros [] _; [|done]. eapply only_bind; [apply quiet_backupCodes|]. intros [codes hashes] _.
  by apply only_then.
Qed.

Lemma quiet_verifyCode id code : quiet (MfaService.verifyCode id code) (λ _, True).
Proof.
  eapply only_bind; [apply silent_reading, only_getLogin|]. intros m _. case_match; [done|]. apply only_then; [done|]. intros secret.
  eapply only_bind; [apply silent_reading, only_isValidTotp|]. intros [] _; [done|]. case_match; [by apply only_ask|done].
Qed.

Lemma quiet_disable id code : quiet (MfaService.disableMfa id code) (λ _, True).
Proof.
  eapply only_bind; [apply quiet_verifyCode|]. intros _ _. eapply only_bind; [apply silent_reading, only_getLogin|]. intros m _. by apply only_ask.
Qed.

Lemma quiet_roles r u : quiet (RolesGuard.canActivate r u) (λ _, True).
Proof.
  unfold RolesGuard.canActivate. case_match; [done|]. case_match; [|done]. case_match; [done|]. eapply (only_bind _ _ _ (λ _, True)); [|done].
  case_match; [|done]. apply only_then; [done|]. intros [m'|]; [|done]. by destruct (lg_mfaEnabled m').
Qed.

(** The user of a request holds a signed token. *)
Definition holder (token : option JwtPayload) (s : auth_state) (u : AuthenticatedUser) : Prop :=
  ∃ p, token = Some p ∧ p ∈ au_tokens s ∧ us_merchantId u = jp_merchantId p.

Lemma wp_guard reqs r token s l :
  WP reqs (JwtAuthGuard.canActivate r token) (λ s' _ o, later s s' ∧ ∀ u, o = Some u → holder token s' u) (λ _ _ _, True) s l.
Proof.
  unfold JwtAuthGuard.canActivate. destruct (rt_isPublic r); [by split|]. apply wp_bind, wp_quiet; [done|]. intros now s1 payload H1 Htold. cbn in Htold.
  apply wp_bind. destruct payload as [p|]; [|done]. destruct (Htold p eq_refl) as [-> Hp]. apply wp_bind.
  eapply wp_mono; [..|apply wp_of_quiet, silent_reading, only_validate]; [|done]. intros s2 [] u [H2 (Hu & _)]. apply wp_mret. apply wp_bind, wp_mret. destruct (us_mfaPending u && negb (rt_allowMfaPending r)); [done|]. apply wp_mret. split; [by etrans|].
  intros u' [= <-]. exists p. split_and!; [done|by apply H2|done].
Qed.

Lemma wp_guarded reqs {X} r token (handler : AuthenticatedUser → A X) (Φ : auth_state → unit → X → Prop) s l :
  (∀ u s', later s s' → holder token s' u → WP reqs (handler u) Φ (λ _ _ _, True) s' l) → WP reqs (guarded r token handler) Φ (λ _ _ _, True) s l.
Proof.
  intros Hh. apply wp_bind. eapply wp_mono; [..|apply wp_guard]; [|done]. intros s' [] [u|] [Hg Hu]; [|done]. destruct l. by apply Hh; [|apply Hu].
Qed.

Lemma consume_matches code hashes l : MfaService.consume code hashes = Some l → ∃ h, h ∈ hashes ∧ compare code h = true.
Proof.
  revert l. induction hashes as [|h hashes IH]; intros l Hl; [done|]. cbn in Hl. destruct (compare code h) eqn:E; [exists h; split; [left|done]|].
  destruct (MfaService.consume code hashes) as [l'|]; [|done]. destruct (IH l' eq_refl) as (h' & Hh & He). exists h'. split; [by right|done].
Qed.

(** A code that passes was valid for the row that was read. *)
Lemma wp_verifyCode reqs id code s l :
  WP reqs (MfaService.verifyCode id code)
    (λ s' _ _, later s s' ∧ ∃ m t, m ∈ au_seen s' ∧ lg_merchantId m = id ∧ lg_mfaEnabled m = true ∧ accepts m code t) (λ _ _ _, True) s l.
Proof.
  apply wp_bind, wp_bind, wp_quiet_ask; [done|]. intros now s1 o H1 Htold. destruct o as [m|]; [|done]. cbn in Htold.
  destruct (Htold m eq_refl) as [Hm Hid]. apply wp_mret. cbv beta iota. destruct (lg_mfaEnabled m) eqn:Een; [|done]. destruct (lg_mfaSecretCiphertext m) as [ct|] eqn:Ec; [|done].
  destruct (truthy (Some ct)); [|done]. cbn [negb orb nullish]. apply wp_bind, wp_quiet_ask; [done|]. intros now2 s2 secret H2 Hs. specialize (Hs secret eq_refl). cbn in Hs. subst secret.
  assert (later s s2) as H02 by by etrans. assert (m ∈ au_seen s2) as Hm2 by by apply H2. apply wp_bind, wp_catch_answers; [apply auth_answers|]. apply wp_bind, wp_quiet; [done|].
  assert (∀ s3, later s2 s3 → WP reqs (match MfaService.consume code (lg_mfaBackupCodeHashes m) with
      | Some remaining => ask (SAVE_LOGIN (m {{ lg_mfaBackupCodeHashes := remaining }})) | None => Fail (HttpException 401 "MFA_CODE_INVALID") end)
    (λ s' _ _, later s s' ∧ ∃ m t, m ∈ au_seen s' ∧ lg_merchantId m = id ∧ lg_mfaEnabled m = true ∧ accepts m code t) (λ _ _ _, True) s3 l) as Hback.
  { intros s3 H3. destruct (MfaService.consume code _) as [rest|] eqn:Ecs; [|done]. apply wp_quiet_ask; [done|]. intros now4 s4 [] H4 _.
    split; [by etrans; [|etrans]|]. exists m, now4. split_and!; [apply H4, H3, Hm2|done|done|]. right. by eapply consume_matches. }
  intros now3 s3 r H3 Hr. cbn in Hr. destruct r as [b|e]; [|by apply Hback]. destruct b; [|by apply Hback].
  change (later s s3 ∧ ∃ m t, m ∈ au_seen s3 ∧ lg_merchantId m = id ∧ lg_mfaEnabled m = true ∧ accepts m code t). split; [by etrans|]. exists m, now3. split_and!; [by apply H3|done|done|]. left. by exists ct.
Qed.
Lemma wp_done reqs {X} (p : A X) s l : quiet p (λ _, True) → WP reqs p (λ _ _ _, True) (λ _ _ _, True) s l.
Proof. intros Hp. eapply wp_mono; [..|by apply wp_of_quiet]; done. Qed.

Lemma wp_issueToken reqs key secret s l :
  LOGIN key secret ∈ reqs → WP reqs (AuthController.issueToken key secret) (λ _ _ _, True) (λ _ _ _, True) s l.
Proof.
  intros Hq. apply wp_bind, wp_bind, wp_quiet_ask; [done|]. intros now s1 o H1 Htold. cbv zeta. destruct o as [m|]; [|done].
  destruct (Htold m eq_refl) as [Hm Hkey]. apply wp_mret. destruct (lg_isActive m && _) eqn:Eok; [|done]. apply andb_true_iff in Eok as [Hact Hcmp].
  apply wp_bind, wp_quiet; [done|]. intros now2 s2 jti H2 _. cbv zeta. destruct (lg_mfaEnabled m) eqn:Een; apply wp_bind, wp_sign; try done.
  all: intros q s' Hq' Hs; left; exists m, key, secret; destruct q; cbn in *; injection Hq' as; subst; split_and!; try done; apply Hs, H2, Hm.
Qed.

Lemma wp_verifyMfa reqs token code s u l :
  VERIFY_MFA token code ∈ reqs → holder token s u → WP reqs (AuthController.verifyMfa u code) (λ _ _ _, True) (λ _ _ _, True) s l.
Proof.
  intros Hq (p & -> & Hp & Hid). apply wp_bind. eapply wp_mono; [..|apply wp_verifyCode]; [|done]. intros s1 [] _ (H1 & m & t & Hm & Hmid & Hen & Hacc).
  apply wp_bind. eapply wp_mono; [..|apply wp_of_quiet, quiet_revokeOwn]; [|done]. intros s2 [] _ [H2 _]. apply wp_bind, wp_quiet; [done|].
  intros now s3 jti H3 _. apply wp_sign; [|done]. intros q s' Hq' Hs. right; left. exists m, p, code, t. destruct q; cbn in *. injection Hq' as; subst.
  split_and!; try done; [apply Hs, H3, H2, Hm|apply Hs, H3, H2, H1, Hp].
Qed.

Lemma wp_serve reqs q s l : q ∈ reqs → WP reqs (serveAuth q) (λ _ _ _, True) (λ _ _ _, True) s l.
Proof.
  intros Hq. destruct q as [key secret|token|token|token code|token code|token code|mid did jti e|mid|route token].
  - apply wp_bind. eapply wp_mono; [..|by apply wp_issueToken]; [|done]. by intros s' [] [t b] _.
  - apply wp_bind, wp_guarded. intros u s' Hs Hu. eapply wp_mono; [..|apply wp_done, quiet_revokeOwn]; done.
  - apply wp_bind, wp_guarded. intros u s' Hs Hu. eapply wp_mono; [..|apply wp_done, quiet_enroll]; done.
  - apply wp_bind, wp_guarded. intros u s' Hs Hu. unfold validated. destruct (AuthController.validMfaCode code); [|done].
    eapply wp_mono; [..|apply wp_done, quiet_confirm]; done.
  - apply wp_bind, wp_guarded. intros u s' Hs Hu. unfold validated. destruct (AuthController.validMfaCode code); [|done].
    eapply wp_mono; [..|apply wp_done, quiet_disable]; done.
  - apply wp_bind, wp_guarded. intros u s' Hs Hu. unfold validated. destruct (AuthController.validMfaCode code); [|done].
    eapply wp_mono; [..|by eapply wp_verifyMfa]; done.
  - apply wp_bind, wp_sign; [|done]. intros p s' Hp Hs. right; right. exists did, jti, e. destruct p; cbn in *. injection Hp as; subst. done.
  - apply wp_bind. eapply wp_mono; [..|apply wp_done]; [done..|]. split; [done|]. intros now. by apply only_ask.
  - apply wp_bind. eapply wp_mono; [..|apply wp_guard]; [|done]. intros s' [] o [_ _]. apply wp_bind.
    eapply wp_mono; [..|apply wp_done, quiet_roles]; done.
Qed.

(** C30: no session without its factors: from a state without tokens, under every
    interleaving of logins, logouts, enrolments, confirmations, deactivations and codes of
    the second factor, with any call failing before or after its effect, every token that
    was ever signed belongs to the merchant of one of the requests, namely: a login whose
    secret matches the stored row of an active merchant, and then the token is pending
    exactly when that row has the second factor enabled; or a code that was valid for a
    row of the merchant with the second factor enabled, sent with a token of the same
    merchant; or a delegation, for its agent. *)
Theorem tokens_need_second_factor reqs now s0 (c : config auth_answer) :
  au_tokens s0 = [] → rtc (interleave auth_handle) (mkConfig now s0 (serveAuth <$> reqs)) c →
  ∀ p, p ∈ au_tokens (memory c) → loggedIn reqs (memory c) p ∨ secondFactor reqs (memory c) p ∨ delegated reqs p.
Proof.
  intros H0' Hrun. assert (keeps reqs s0 (replicate (length reqs) tt)) as Hi. { intros p Hp. rewrite H0' in Hp. by apply not_elem_of_nil in Hp. }
  destruct (pool_run auth_handle (keeps reqs) later (λ _, True) (λ _ _ _, True) (λ _ _ _, True) _ _ (replicate (length reqs) tt) Hrun) as (ls & Hinv & _);
    [done|exact Hi| |exact Hinv].
  cbn. apply Forall2_same_length_lookup_2; [by rewrite length_fmap, length_replicate|]. intros i p l Hp Hl.
  apply list_lookup_fmap_Some in Hp as (q & -> & Hq). exists s0. split; [reflexivity|]. apply wp_serve. by eapply list_elem_of_lookup_2.
Qed.
End auth.
