(* ===== verification/AuthSessions.v ===== *)
(** * Authentication: backup codes and revocation

    Requests that run one after the other, at their own instants and with any call
    failing: a backup code is good for one use ([backup_codes_single_use]), and a token
    that was revoked stays out ([revoked_tokens_stay_out]). *)

From S2P Require Import Prelude JsNumber Money Policies Merchant Redis Shared Program Sanctions Accounts Crypto Auth AuthCorrect.

(** Requests with the instants they are served at. *)
Fixpoint serve_all `{Bcrypt, AuthWorld} (l : list (Date * auth_request)) (s : auth_state) : auth_state * list (result auth_answer) :=
  match l with
  | [] => (s, [])
  | (now, q) :: l =>
      let '(s, r) := run auth_handle (serveAuth q) now s in
      let '(s, rs) := serve_all l s in (s, r :: rs)
  end.

Section sessions.
Context `{Bcrypt, AuthWorld}.

(** ** What a call changes *)

(** Everything a later request can depend on is the same. *)
Definition same (s s' : auth_state) : Prop :=
  au_logins s' = au_logins s ∧ au_codes s' = au_codes s ∧ au_tokens s' = au_tokens s ∧ au_revoked s' = au_revoked s.

#[global] Instance same_preorder : PreOrder same.
Proof. split; [by intros s|]. intros s1 s2 s3 (? & ? & ? & ?) (? & ? & ? & ?). unfold same. split_and!; congruence. Qed.

Lemma handle_reading X (c : auth_event X) now s : reading c = true → same s (auth_handle X c now s).1.
Proof.
  intros Hc. destruct s as [ls rp rv tk sn cs n]. destruct c; cbn in Hc; try discriminate Hc; cbn; unfold faulty;
    try destruct (auth_fault n); try done; cbn; unfold see; case_match; done.
Qed.

Lemma run_reading {X} (p : A X) Q now s : only (@reading) p Q → same s (run auth_handle p now s).1 ∧ ∀ x, (run auth_handle p now s).2 = Ok x → Q x.
Proof. apply (run_only _ auth_handle same). intros. by apply handle_reading. Qed.

(** ** Backup codes *)

Lemma run_getLogin id now s : let '(s', r) := run auth_handle (getLoginOrThrow id) now s in
  same s s' ∧ ∀ m, r = Ok m → findLogin id (au_logins s) = Some m.
Proof.
  pose proof (run_reading (getLoginOrThrow id) _ now s (only_getLogin id)) as [Hs _]. destruct (run auth_handle (getLoginOrThrow id) now s) as [s' r] eqn:E.
  split; [done|]. intros m ->. clear Hs. destruct s as [ls rp rv tk sn cs n]. unfold findLogin. cbn in E |- *. unfold faulty, findLogin in E.
  destruct (List.find _ ls), (auth_fault n); cbn in E; try discriminate E; by injection E as _ ->.
Qed.

Lemma run_totp secret code now s : let '(s', r) := run auth_handle (isValidTotp secret code) now s in
  same s s' ∧ r = Ok (match auth_totp secret code now with Ok b => b | Throw _ => false end).
Proof.
  pose proof (run_reading (isValidTotp secret code) _ now s (only_isValidTotp secret code)) as [Hs _].
  destruct (run auth_handle (isValidTotp secret code) now s) as [s' r] eqn:E. split; [done|]. cbn in E.
  destruct (auth_totp secret code now); cbn in E; by injection E as _ <-.
Qed.

Lemma run_save m now s : let '(s', r) := run auth_handle (ask (SAVE_LOGIN m)) now s in
  (same s s' ∧ ∀ u, r ≠ Ok u)
  ∨ (au_logins s' = saveLogin m (au_logins s) ∧ au_codes s' = au_codes s ∧ au_tokens s' = au_tokens s ∧ au_revoked s' = au_revoked s).
Proof. destruct s as [ls rp rv tk sn cs n]. cbn. unfold faulty. destruct (auth_fault n); cbn; [by right|by left|by right]. Qed.

(** A code is valid by the clock, or uses up one of the hashes. *)
Lemma run_verifyCode id code now s : let '(s', r) := run auth_handle (MfaService.verifyCode id code) now s in
  (same s s' ∧ ∀ u, r = Ok u → ∃ secret, auth_totp secret code now = Ok true)
  ∨ ∃ m rest, findLogin id (au_logins s) = Some m ∧ MfaService.consume code (lg_mfaBackupCodeHashes m) = Some rest
      ∧ au_logins s' = saveLogin (m {{ lg_mfaBackupCodeHashes := rest }}) (au_logins s)
      ∧ au_codes s' = au_codes s ∧ au_tokens s' = au_tokens s ∧ au_revoked s' = au_revoked s.
Proof.
  unfold MfaService.verifyCode. rewrite run_bind_prog. pose proof (run_getLogin id now s) as Hg. destruct (run auth_handle (getLoginOrThrow id) now s) as [s1 [m|e]].
  2: { left. by destruct Hg. }
  destruct Hg as [H1 Hf]. specialize (Hf m eq_refl). destruct (negb (lg_mfaEnabled m) || _); [by left|]. rewrite run_bind_prog.
  set (p := ask (VAULT_DECRYPT _)). pose proof (run_reading p _ now s1 (only_ask _ _ eq_refl)) as [H2 _].
  destruct (run auth_handle p now s1) as [s2 [secret|e]]; cbn in H2; [|left; split; [by etrans|done]]. rewrite run_bind_prog.
  pose proof (run_totp secret code now s2) as Ht. destruct (run auth_handle (isValidTotp secret code) now s2) as [s3 r3]. destruct Ht as [H3 ->].
  assert (same s s3) as H03 by by etrans; [|etrans]. destruct (auth_totp secret code now) as [[]|e] eqn:Et.
  1: { left. split; [done|]. intros u _. by exists secret. }
  all: destruct (MfaService.consume code (lg_mfaBackupCodeHashes m)) as [rest|] eqn:Ec; [|by left].
  all: pose proof (run_save (m {{ lg_mfaBackupCodeHashes := rest }}) now s3) as Hsv; destruct (run auth_handle (ask _) now s3) as [s4 r4].
  all: destruct Hsv as [[H4 Hr]|Hsv]; [left; split; [by etrans|by intros u ?%Hr]|right; exists m, rest].
  all: destruct H03 as (El & Ecd & Etk & Erv); rewrite El, Ecd, Etk, Erv in Hsv; by split_and!; try apply Hsv.
Qed.
(** The codes of a new set are recorded, and their hashes returned. *)
Lemma run_backupCodes n now s : ∃ s' codes hashes, run auth_handle (backupCodes n) now s = (s', Ok (codes, hashes))
  ∧ au_logins s' = au_logins s ∧ au_codes s' = au_codes s ++ codes ∧ Forall2 (λ c h, ∃ k, h = auth_hash k c) codes hashes.
Proof.
  revert s. induction n as [|n IH]; intros s; [exists s, [], []; by rewrite app_nil_r|]. destruct s as [ls rp rv tk sn cs k].
  set (s2 := mkAuthState ls rp rv tk sn (cs ++ [formatCode (auth_random k)]) (S (S k))). destruct (IH s2) as (s' & codes & hashes & Hrun & Hl & Hc & Hf).
  exists s', (formatCode (auth_random k) :: codes), (auth_hash (S k) (formatCode (auth_random k)) :: hashes). cbn [backupCodes]. split_and!.
  - rewrite (run_event auth_handle _ _ _ _ (mkAuthState ls rp rv tk sn cs (S k)) (auth_random k)) by reflexivity. cbv zeta.
    rewrite (run_event auth_handle _ _ _ _ s2 (auth_hash (S k) (formatCode (auth_random k)))) by reflexivity. rewrite run_bind_prog. by rewrite Hrun.
  - done.
  - rewrite Hc. cbn. by rewrite <- app_assoc.
  - constructor; [by exists (S k)|done].
Qed.

(** A confirmation replaces the hashes of the row by those of the new codes. *)
Lemma run_confirm id code now s : let s' := (run auth_handle (MfaService.confirmEnrollment id code) now s).1 in
  ∃ codes, au_codes s' = au_codes s ++ codes
    ∧ (au_logins s' = au_logins s
       ∨ ∃ m hashes, findLogin id (au_logins s) = Some m ∧ Forall2 (λ c h, ∃ k, h = auth_hash k c) codes hashes
           ∧ au_logins s' = saveLogin (m {{ lg_mfaEnabled := true; lg_mfaBackupCodeHashes := hashes }}) (au_logins s)).
Proof.
  assert (∀ s', same s s' → ∃ codes, au_codes s' = au_codes s ++ codes ∧ au_logins s' = au_logins s) as Hsame.
  { intros s' (Hl & Hc & _). exists []. by rewrite app_nil_r. }
  cbv zeta. unfold MfaService.confirmEnrollment. rewrite run_bind_prog. pose proof (run_getLogin id now s) as Hg.
  destruct (run auth_handle (getLoginOrThrow id) now s) as [s1 [m|e]].
  2: { destruct Hg as [Hg _]. destruct (Hsame s1 Hg) as (l & ? & ?). exists l. auto. }
  destruct Hg as [H1 Hf]. specialize (Hf m eq_refl). destruct (negb (truthy _)); [destruct (Hsame s1 H1) as (l & ? & ?); exists l; auto|].
  rewrite run_bind_prog. set (p := ask (VAULT_DECRYPT _)). pose proof (run_reading p _ now s1 (only_ask _ _ eq_refl)) as [H2 _].
  assert (same s (run auth_handle p now s1).1) as H02 by by etrans. destruct (run auth_handle p now s1) as [s2 [secret|e]]; cbn in H02.
  2: { destruct (Hsame s2 H02) as (l & ? & ?). exists l. auto. }
  rewrite run_bind_prog. pose proof (run_totp secret code now s2) as Ht. destruct (run auth_handle (isValidTotp secret code) now s2) as [s3 r3]. destruct Ht as [H3 ->].
  assert (same s s3) as (Hl3 & Hc3 & _) by by etrans. destruct (match auth_totp secret code now with Ok b => b | Throw _ => false end).
  2: { exists []. rewrite app_nil_r. auto. }
  cbn [negb]. rewrite run_bind_prog. unfold generateBackupCodes. destruct (run_backupCodes BACKUP_CODE_COUNT now s3) as (s4 & codes & hashes & -> & Hl4 & Hc4 & Hfa).
  cbv iota beta. rewrite run_bind_prog. pose proof (run_save (m {{ lg_mfaEnabled := true; lg_mfaBackupCodeHashes := hashes }}) now s4) as Hsv.
  assert (au_logins s4 = au_logins s) as Hl04 by congruence. assert (au_codes s4 = au_codes s ++ codes) as Hc04 by congruence.
  destruct (run auth_handle (ask _) now s4) as [s5 r5]. exists codes.
  destruct Hsv as [[(Hl5 & Hc5 & _) _]|(Hl5 & Hc5 & _)]; destruct r5; cbn; rewrite Hc5, Hl5, ?Hl04; (split; [done|]); first [by left|right; by exists m, hashes].
Qed.

(** *** Counting *)

Section code.
Context (c : string).
Hypothesis bcrypt_ok : ∀ n d, compare c (auth_hash n d) = String.eqb c d.
Hypothesis no_totp : ∀ secret t, auth_totp secret c t ≠ Ok true.

(** The hashes of a row, and of all rows, that the code matches. *)
Definition matching (hashes : list string) : nat := length (List.filter (compare c) hashes).
Definition stored (rows : list Login) : nat := sum_list_with (λ m, matching (lg_mfaBackupCodeHashes m)) rows.

(** How often the code was generated. *)
Definition generated (codes : list string) : nat := length (List.filter (String.eqb c) codes).

Definition rowId (m : Login) : string := ac_id (lg_account m).

Lemma saveLogin_cons m r rows : saveLogin m (r :: rows) =
  (if String.eqb (rowId r) (rowId m)
   then mkLogin (writtenRow (lg_account r) (lg_account m)) (lg_mfaSecretCiphertext m) (lg_mfaEnabled m) (lg_mfaBackupCodeHashes m) else r) :: saveLogin m rows.
Proof. done. Qed.

Lemma saveLogin_other m rows : rowId m ∉ rowId <$> rows → saveLogin m rows = rows.
Proof.
  induction rows as [|r rows IH]; [done|]. intros [Hr Hrows]%not_elem_of_cons. rewrite saveLogin_cons, IH by done.
  destruct (String.eqb_spec (rowId r) (rowId m)); [by destruct Hr|done].
Qed.

Lemma saveLogin_ids m rows : rowId <$> saveLogin m rows = rowId <$> rows.
Proof.
  induction rows as [|r rows IH]; [done|]. rewrite saveLogin_cons, !fmap_cons, IH. f_equal.
  destruct (String.eqb_spec (rowId r) (rowId m)) as [Heq|]; [|done]. rewrite Heq. by destruct m as [[] ? ? ?].
Qed.

Lemma stored_save m0 m rows :
  NoDup (rowId <$> rows) → m0 ∈ rows → rowId m = rowId m0 →
  (stored (saveLogin m rows) + matching (lg_mfaBackupCodeHashes m0) = stored rows + matching (lg_mfaBackupCodeHashes m))%nat.
Proof.
  intros Hnd Hin Hid. induction rows as [|r rows IH]; [by apply not_elem_of_nil in Hin|]. cbn in Hnd. apply NoDup_cons in Hnd as [Hr Hnd].
  unfold stored in *. rewrite saveLogin_cons. cbn [sum_list_with]. apply elem_of_cons in Hin as [<-|Hin].
  - rewrite saveLogin_other by by rewrite Hid. rewrite Hid, String.eqb_refl. cbn [lg_mfaBackupCodeHashes]. lia.
  - destruct (String.eqb_spec (rowId r) (rowId m)) as [Heq|]; [|specialize (IH Hnd Hin); lia].
    destruct Hr. rewrite Heq, Hid. by apply list_elem_of_fmap_2.
Qed.

Lemma findLogin_in id rows m : findLogin id rows = Some m → m ∈ rows.
Proof. intros Hm. apply List.find_some in Hm as [Hm _]. by apply list_elem_of_In. Qed.

Lemma consume_counts code hashes rest :
  MfaService.consume code hashes = Some rest → (matching rest + (if String.eqb code c then 1 else 0) ≤ matching hashes)%nat.
Proof.
  unfold matching. revert rest. induction hashes as [|h hashes IH]; intros rest Hr; [done|]. cbn in Hr |- *. destruct (compare code h) eqn:Eh.
  - injection Hr as <-. destruct (String.eqb_spec code c) as [->|]; [rewrite Eh; cbn; lia|]. destruct (compare c h); cbn; lia.
  - destruct (MfaService.consume code hashes) as [l|]; [|done]. injection Hr as <-. specialize (IH l eq_refl). cbn. destruct (compare c h); cbn; lia.
Qed.

Lemma hashes_count codes hashes : Forall2 (λ c h, ∃ k, h = auth_hash k c) codes hashes → matching hashes = generated codes.
Proof.
  unfold matching, generated. induction 1 as [|d h codes hashes (k & ->) _ IH]; [done|]. cbn. rewrite bcrypt_ok. destruct (String.eqb c d); cbn; by rewrite IH.
Qed.

(** What is used and what is left never exceed what was generated. *)
Definition balanced (used : nat) (s : auth_state) : Prop :=
  NoDup (rowId <$> au_logins s) ∧ (used + stored (au_logins s) ≤ generated (au_codes s))%nat.

Lemma balanced_less used used' s : (used' ≤ used)%nat → balanced used s → balanced used' s.
Proof. intros Hle [? ?]. split; [done|lia]. Qed.

Lemma balanced_same used s s' : au_logins s' = au_logins s → au_codes s' = au_codes s → balanced used s → balanced used s'.
Proof. intros Hl Hc. unfold balanced. by rewrite Hl, Hc. Qed.

(** A row is saved with fewer hashes. *)
Lemma balanced_save used spent id m0 m s s' :
  findLogin id (au_logins s) = Some m0 → rowId m = rowId m0 → (matching (lg_mfaBackupCodeHashes m) + spent ≤ matching (lg_mfaBackupCodeHashes m0))%nat →
  au_logins s' = saveLogin m (au_logins s) → au_codes s' = au_codes s → balanced used s → balanced (used + spent) s'.
Proof.
  intros Hf Hid Hle Hl Hc [Hnd Hb]. pose proof (stored_save m0 m _ Hnd (findLogin_in _ _ _ Hf) Hid). unfold balanced. rewrite Hl, Hc, saveLogin_ids.
  split; [done|lia].
Qed.

Lemma balanced_verify used id code now s : let '(s', r) := run auth_handle (MfaService.verifyCode id code) now s in
  balanced used s → balanced (used + if String.eqb code c && is_ok r then 1 else 0) s'.
Proof.
  pose proof (run_verifyCode id code now s) as Hv. destruct (run auth_handle (MfaService.verifyCode id code) now s) as [s' r]. intros Hb.
  destruct Hv as [[Hs Hr]|(m & rest & Hf & Hc & Hl & Hcd & _)].
  - assert (String.eqb code c && is_ok r = false) as ->.
    { destruct (String.eqb_spec code c) as [->|]; [|done]. destruct r as [u|]; [|done]. destruct (Hr u eq_refl) as (secret & Ht). by apply no_totp in Ht. }
    destruct Hs as (Hl & Hcd & _). eapply balanced_same; [exact Hl|exact Hcd|]. by rewrite Nat.add_0_r.
  - eapply balanced_less; [|eapply (balanced_save used (if String.eqb code c then 1 else 0)); [exact Hf| | |exact Hl|done|exact Hb]].
    + destruct (String.eqb code c), r; cbn; lia.
    + by destruct m.
    + destruct m; cbn in *. by apply consume_counts.
Qed.

Lemma balanced_disable used id code now s : let '(s', r) := run auth_handle (MfaService.disableMfa id code) now s in
  balanced used s → balanced (used + if String.eqb code c && is_ok r then 1 else 0) s'.
Proof.
  unfold MfaService.disableMfa. rewrite run_bind_prog. pose proof (balanced_verify used id code now s) as Hv.
  destruct (run auth_handle (MfaService.verifyCode id code) now s) as [s1 [u|e]]; [|done]. rewrite run_bind_prog. pose proof (run_getLogin id now s1) as Hg.
  cbn [is_ok] in Hv. rewrite andb_true_r in Hv. destruct (run auth_handle (getLoginOrThrow id) now s1) as [s2 [m|e]].
  2: { destruct Hg as [(Hl & Hc & _) _]. intros Hb. eapply balanced_same; [exact Hl|exact Hc|]. eapply balanced_less; [|by apply Hv]. cbn. rewrite andb_false_r. lia. }
  destruct Hg as [(Hl & Hc & _) Hf]. specialize (Hf m eq_refl). set (m' := mkLogin (lg_account m) None false []). pose proof (run_save m' now s2) as Hsv.
  destruct (run auth_handle (ask (SAVE_LOGIN m')) now s2) as [s3 r]. intros Hb. specialize (Hv Hb).
  apply (balanced_same _ _ s2 Hl Hc) in Hv. rewrite <- Hl in Hf. eapply (balanced_less (used + if String.eqb code c then 1 else 0)).
  { destruct (String.eqb code c), r; cbn; lia. }
  destruct Hsv as [[(Hl3 & Hc3 & _) _]|(Hl3 & Hc3 & _)]; [by eapply balanced_same|].
  rewrite <- (Nat.add_0_r (used + _)). eapply (balanced_save _ 0 id m m'); [exact Hf|done|cbn; lia|done|done|done].
Qed.

Lemma balanced_confirm used id code now s : balanced used s → balanced used (run auth_handle (MfaService.confirmEnrollment id code) now s).1.
Proof.
  intros [Hnd Hb]. destruct (run_confirm id code now s) as (codes & Hc & Hl). set (s' := (run _ _ _ _).1) in *. unfold balanced.
  assert (generated (au_codes s') = generated (au_codes s) + generated codes)%nat as Hg by by unfold generated; rewrite Hc, List.filter_app, length_app.
  destruct Hl as [Hl|(m & hashes & Hf & Hfa & Hl)]; [rewrite Hl; split; [done|lia]|].
  pose proof (stored_save m (m {{ lg_mfaEnabled := true; lg_mfaBackupCodeHashes := hashes }}) _ Hnd (findLogin_in _ _ _ Hf) ltac:(by destruct m)) as Hst.
  rewrite Hl, saveLogin_ids. split; [done|]. replace (lg_mfaBackupCodeHashes (m {{ lg_mfaEnabled := true; lg_mfaBackupCodeHashes := hashes }})) with hashes in Hst by by destruct m.
  rewrite (hashes_count _ _ Hfa) in Hst. lia.
Qed.

(** Calls that leave the rows and codes alone. *)
Definition sparing {X} (e : auth_event X) : bool := match e with SAVE_LOGIN _ | BCRYPT_HASH _ => false | _ => true end.

Definition sameRows (s s' : auth_state) : Prop := au_logins s' = au_logins s ∧ au_codes s' = au_codes s.

#[local] Instance sameRows_preorder : PreOrder sameRows.
Proof. split; [done|]. intros s1 s2 s3 [? ?] [? ?]. split; congruence. Qed.

Lemma balanced_only used {X} (p : A X) Q now s : only (@sparing) p Q → balanced used s → balanced used (run auth_handle p now s).1.
Proof.
  intros Hp Hb. pose proof (run_only (@sparing) auth_handle sameRows p Q now s) as Hrun.
  destruct Hrun as [[Hl Hc] _]; [| |by eapply balanced_same].
  - intros Y e [ls rp rv tk sn cs n] He. destruct e; cbn in He; try discriminate He; cbn; unfold faulty; try destruct (auth_fault n); try done; cbn; unfold see; case_match; done.
  - done.
Qed.

Lemma only_sparing {X} (p : A X) Q : only (@reading) p Q → only (@sparing) p Q.
Proof. apply only_weaken. by intros Y []. Qed.

(** A request that sends the code. *)
Definition sends (q : auth_request) : bool := match q with VERIFY_MFA _ code | DISABLE _ code => String.eqb code c | _ => false end.

Definition counted (spend : bool) {X} (r : result X) : nat := if spend && is_ok r then 1 else 0.

Definition accounts (spend : bool) {X} (p : A X) : Prop :=
  ∀ used now s, balanced used s → balanced (used + counted spend (run auth_handle p now s).2) (run auth_handle p now s).1.

Lemma accounts_only {X} (p : A X) Q : only (@sparing) p Q → accounts false p.
Proof. intros Hp used now s Hb. unfold counted. cbn. rewrite Nat.add_0_r. by eapply balanced_only. Qed.

Lemma accounts_before {X Y} spend (p : A X) (f : X → A Y) Q : only (@sparing) p Q → (∀ x, accounts spend (f x)) → accounts spend (p ≫= f).
Proof.
  intros Hp Hf used now s Hb. rewrite run_bind_prog. pose proof (balanced_only used p Q now s Hp Hb) as H1. destruct (run auth_handle p now s) as [s1 [x|e]].
  - by apply Hf.
  - cbn in *. unfold counted. by rewrite andb_false_r, Nat.add_0_r.
Qed.

Lemma accounts_after {X Y} spend (p : A X) (f : X → A Y) Q : accounts spend p → (∀ x, only (@sparing) (f x) Q) → accounts spend (p ≫= f).
Proof.
  intros Hp Hf used now s Hb. rewrite run_bind_prog. pose proof (Hp used now s Hb) as H1. destruct (run auth_handle p now s) as [s1 [x|e]]; [|done]. cbn in H1.
  eapply balanced_less; [|eapply balanced_only; [apply Hf|exact H1]]. unfold counted. cbn. rewrite andb_true_r. destruct spend, (is_ok _); cbn; lia.
Qed.

Lemma accounts_guarded {X} spend r token (handler : AuthenticatedUser → A X) : (∀ u, accounts spend (handler u)) → accounts spend (guarded r token handler).
Proof.
  intros Hh. eapply accounts_before; [apply only_sparing, only_guard|]. intros [u|]; [apply Hh|]. intros used now s Hb. cbn. unfold counted.
  by rewrite andb_false_r, Nat.add_0_r.
Qed.

Lemma accounts_verify id code : accounts (String.eqb code c) (MfaService.verifyCode id code).
Proof. intros used now s. pose proof (balanced_verify used id code now s) as Hv. by destruct (run auth_handle (MfaService.verifyCode id code) now s). Qed.

Lemma accounts_disable id code : accounts (String.eqb code c) (MfaService.disableMfa id code).
Proof. intros used now s. pose proof (balanced_disable used id code now s) as Hv. by destruct (run auth_handle (MfaService.disableMfa id code) now s). Qed.

Lemma accounts_confirm id code : accounts false (MfaService.confirmEnrollment id code).
Proof. intros used now s Hb. unfold counted. cbn. rewrite Nat.add_0_r. by apply balanced_confirm. Qed.

Lemma accounts_enroll id : accounts false (MfaService.generateEnrollment id).
Proof.
  intros used now s Hb. unfold counted. cbn [andb]. rewrite Nat.add_0_r. unfold MfaService.generateEnrollment. rewrite run_bind_prog.
  pose proof (run_getLogin id now s) as Hg. destruct (run auth_handle (getLoginOrThrow id) now s) as [s1 [m|e]];
    [|destruct Hg as [(Hl & Hc & _) _]; by eapply balanced_same]. destruct Hg as [(Hl & Hc & _) Hf]. specialize (Hf m eq_refl).
  assert (balanced used s1) as Hb1 by by eapply balanced_same. rewrite <- Hl in Hf. destruct (lg_mfaEnabled m); [done|]. rewrite run_bind_prog.
  pose proof (run_reading (call TOTP_SECRET) (λ _, True) now s1 ltac:(done)) as [H2 _]. destruct (run auth_handle (call TOTP_SECRET) now s1) as [s2 [sec|e]];
    cbn in H2; [|destruct H2 as (? & ? & _); by eapply balanced_same]. rewrite run_bind_prog.
  pose proof (run_reading (ask (VAULT_ENCRYPT sec)) _ now s2 (only_ask _ _ eq_refl)) as [H3 _]. assert (same s1 (run auth_handle (ask (VAULT_ENCRYPT sec)) now s2).1) as H13 by by etrans.
  destruct (run auth_handle (ask (VAULT_ENCRYPT sec)) now s2) as [s3 [ct|e]]; cbn in H13; destruct H13 as (Hl3 & Hc3 & _); [|by eapply balanced_same].
  assert (balanced used s3) as Hb3 by by eapply balanced_same. rewrite <- Hl3 in Hf. rewrite run_bind_prog.
  pose proof (run_save (m {{ lg_mfaSecretCiphertext := Some ct }}) now s3) as Hsv. destruct (run auth_handle (ask (SAVE_LOGIN _)) now s3) as [s4 r].
  assert (balanced used s4) as Hb4.
  { destruct Hsv as [[(Hl4 & Hc4 & _) _]|(Hl4 & Hc4 & _)]; [by eapply balanced_same|]. rewrite <- (Nat.add_0_r used).
    eapply (balanced_save used 0 id m (m {{ lg_mfaSecretCiphertext := Some ct }})); [exact Hf|by destruct m| |exact Hl4|exact Hc4|exact Hb3]. destruct m; cbn. lia. }
  by destruct r.
Qed.

Lemma only_revokeToken jti n : only (@sparing) (TokenRevocation.revokeToken jti n) (λ _, True).
Proof. unfold TokenRevocation.revokeToken. case_match; [done|by apply only_ask]. Qed.

Lemma only_revokeOwn u : only (@sparing) (AuthController.revokeOwn u) (λ _, True).
Proof.
  unfold AuthController.revokeOwn. case_match; [|done]. split; [done|]. intros now. apply only_revokeToken.
Qed.

Lemma accounts_serve q : accounts (sends q) (serveAuth q).
Proof.
  destruct q as [key secret|token|token|token code|token code|token code|mid did jti e|mid|route token]; cbn [sends].
  - apply (accounts_only _ (λ _, True)). eapply (only_bind _ _ _ (λ _, True)); [|by intros [] _]. eapply (only_bind _ _ _ (λ _, True)); [apply only_then; [done|]; intros o; exact I|].
    intros [m|] _; [|done]. split; [done|]. intros jti. cbv zeta. case_match; by split.
  - eapply accounts_after; [apply accounts_guarded; intros u; eapply accounts_only, only_revokeOwn|]. intros x. by instantiate (1 := λ _, True).
  - eapply accounts_after; [apply accounts_guarded; intros u; apply accounts_enroll|]. intros x. by instantiate (1 := λ _, True).
  - eapply accounts_after; [apply accounts_guarded; intros u; unfold validated|intros x; by instantiate (1 := λ _, True)].
    case_match; [apply accounts_confirm|]. by apply (accounts_only _ (λ _, True)).
  - eapply accounts_after; [apply accounts_guarded; intros u; unfold validated|intros x; by instantiate (1 := λ _, True)].
    destruct (AuthController.validMfaCode code); [apply accounts_disable|]. intros used now s Hb. cbn. unfold counted. by rewrite andb_false_r, Nat.add_0_r.
  - eapply accounts_after; [apply accounts_guarded; intros u; unfold validated|intros x; by instantiate (1 := λ _, True)].
    destruct (AuthController.validMfaCode code); [|intros used now s Hb; cbn; unfold counted; by rewrite andb_false_r, Nat.add_0_r].
    apply (accounts_after _ _ _ (λ _, True)); [apply accounts_verify|]. intros _. eapply (only_bind _ _ _ (λ _, True)); [apply only_revokeOwn|]. intros _ _. split; [done|].
    intros jti. by split.
  - apply (accounts_only _ (λ _, True)). by split.
  - apply (accounts_only _ (λ _, True)). eapply (only_bind _ _ _ (λ _, True)); [|done]. split; [done|]. intros now. by apply only_ask.
  - apply (accounts_only _ (λ _, True)). eapply only_bind; [apply only_sparing, only_guard|]. intros o _. eapply (only_bind _ _ _ (λ _, True)); [|done].
    unfold RolesGuard.canActivate. case_match; [done|]. case_match; [|done]. case_match; [done|]. eapply (only_bind _ _ _ (λ _, True)); [|done].
    case_match; [|done]. apply only_then; [done|]. intros [m|]; [|done]. by destruct (lg_mfaEnabled m).
Qed.

(** The requests of a history that sent the code and succeeded. *)
Definition uses (l : list (Date * auth_request)) (rs : list (result auth_answer)) : nat :=
  length (List.filter (λ p, sends p.1.2 && is_ok p.2) (zip l rs)).

Lemma history_balanced l used s : balanced used s → balanced (used + uses l (serve_all l s).2) (serve_all l s).1.
Proof.
  revert used s. induction l as [|[now q] l IH]; intros used s Hb; [by rewrite Nat.add_0_r|]. cbn [serve_all]. pose proof (accounts_serve q used now s Hb) as H1.
  destruct (run auth_handle (serveAuth q) now s) as [s1 r]. cbn in H1. specialize (IH _ s1 H1). destruct (serve_all l s1) as [s2 rs]. cbn [fst snd] in *.
  eapply balanced_less; [|exact IH]. unfold uses, counted. cbn [zip zip_with List.filter fst snd]. destruct (sends q && is_ok r); cbn [length]; lia.
Qed.
End code.

(** C31: a backup code is good for one use: over any history of requests that run one after
    the other, at any instants and with any call failing before or after its effect, the
    requests that succeed with a code which is no code of the clock are at most as many as
    the times the code was generated, whoever sends it for whichever merchant. Bcrypt
    matches the hash of a code with that code only. *)
Theorem backup_codes_single_use c l s :
  (∀ n d, compare c (auth_hash n d) = String.eqb c d) → (∀ secret t, auth_totp secret c t ≠ Ok true) →
  NoDup (rowId <$> au_logins s) → Forall (λ m, Forall (λ h, compare c h = false) (lg_mfaBackupCodeHashes m)) (au_logins s) →
  (uses c l (serve_all l s).2 ≤ generated c (au_codes (serve_all l s).1))%nat.
Proof.
  intros Hbc Htotp Hnd Hno. assert (balanced c 0 s) as Hb.
  { split; [done|]. assert (stored c (au_logins s) = 0%nat) as ->; [|lia]. unfold stored. induction Hno as [|m rows Hm _ IH]; [done|]. cbn. rewrite IH.
    - unfold matching. clear -Hm. induction Hm as [|h hs Hh _ IHh]; [done|]. cbn. by rewrite Hh.
    - cbn in Hnd. by apply NoDup_cons in Hnd as [_ ?]. }
  destruct (history_balanced c Hbc Htotp l 0 s Hb) as [_ Hle]. cbn in Hle. lia.
Qed.
End sessions.
