(* ===== verification/AuthRevocation.v ===== *)
(** * Authentication: revocation

    A token that was revoked, by its holder or with all tokens of the merchant, is
    refused from then on, whatever requests follow one another and whichever calls fail
    ([revoked_tokens_stay_out]). *)

From stdpp Require Import pretty.
From S2P Require Import Prelude JsNumber Money Policies Merchant Redis Shared Program Sanctions Accounts Crypto Auth AuthCorrect AuthSessions.

Section revocation.
Context `{Bcrypt, AuthWorld}.

(** A token by what the revocation lists see of it: its id, its merchant, when it was
    issued and when it expires. [t0] is the instant of the revocation. *)
Context (jti merchantId : string) (iat exp : Z) (t0 : Date) (n0 : nat).
Hypothesis fresh : ∀ n, (n0 ≤ n)%nat → auth_uuid n ≠ jti.
Hypothesis issued : iat ≤ t0 / 1000.

(** Marked by its id, or with its merchant, for as long as it lives. *)
Definition marked (s : auth_state) : Prop := ∃ c e, au_revoked s !! JTI jti = Some c ∧ expiresAt c = Some e ∧ exp * 1000 ≤ e.

Definition outlived : Prop := exp * 1000 ≤ t0 + TokenRevocation.MERCHANT_REVOCATION_TTL_SECONDS * 1000.

Definition cutOff (s : auth_state) : Prop :=
  outlived ∧ ∃ c e, au_revoked s !! MERCHANT_BEFORE merchantId = Some c ∧ iat ≤ value c ∧ expiresAt c = Some e ∧ exp * 1000 ≤ e.

(** No other token has the id. *)
Definition unique (s : auth_state) : Prop := ∀ p, p ∈ au_tokens s → jp_jti p = Some jti → jp_exp p = Some exp.

Definition barred (s : auth_state) : Prop := (marked s ∨ cutOff s ∨ exp ≤ t0 / 1000) ∧ unique s ∧ (n0 ≤ au_calls s)%nat.

(** Calls from the instant of the revocation on. *)
Definition from_then X (c : auth_event X) (now : Date) (s : auth_state) : auth_state * result X := auth_handle X c (Z.max t0 now) s.

#[local] Instance from_then_answers : Answers from_then.
Proof. intros X c now s. exact (answers X c (Z.max t0 now) s). Qed.

Lemma run_from_then {X} (p : A X) now s : t0 ≤ now → run auth_handle p now s = run from_then p now s.
Proof.
  intros Ht. revert s. induction p as [x|e|Z c k IH]; intros s; [done..|]. cbn. unfold from_then. rewrite Z.max_r by done.
  destruct (auth_handle Z c now s) as [s1 [z|e]]; [|done]. apply IH.
Qed.

(** Marks other than the two, and all calls that do not mark or sign. *)
Definition harmless {X} (c : auth_event X) : Prop :=
  match c with
  | SET_REVOKED (JTI j) _ _ => j ≠ jti
  | SET_REVOKED (MERCHANT_BEFORE m) _ _ => m ≠ merchantId
  | SIGN p _ => jp_jti p ≠ Some jti
  | _ => True
  end.

Lemma barred_harmless X (c : auth_event X) now s : harmless c → barred s → barred (auth_handle X c now s).1.
Proof.
  intros Hc (Hm & Hu & Hn). destruct s as [ls rp rv tk sn cs n]. unfold barred, marked, cutOff, unique in *. cbn in Hm, Hu, Hn.
  assert (n0 ≤ S n)%nat as Hn' by lia. destruct c; cbn; unfold faulty; try destruct (auth_fault n); cbn; try done.
  all: try (unfold see; case_match; done).
  all: try (destruct k as [j|m]; cbn in Hc; rewrite ?lookup_insert_ne by congruence; done).
  all: split_and!; [done| |done]; intros p [Hp|Hp]%elem_of_app; [by apply Hu|]; apply list_elem_of_singleton in Hp as ->; by destruct payload.
Qed.

Abbreviation solo := (alone from_then barred).

Lemma solo_call {X} (c : auth_event X) : harmless c → solo (call c) (λ _, True).
Proof. intros Hc. apply alone_call; [apply _|]. intros now s s' x Hs Hh. pose proof (barred_harmless X c (Z.max t0 now) s Hc Hs) as Hb. unfold from_then in Hh. by rewrite Hh in Hb. Qed.

Lemma solo_ask {X} (c : auth_event (result X)) : harmless c → solo (ask c) (λ _, True).
Proof. intros Hc. apply alone_then; [by apply solo_call|]. intros r. by apply alone_of_result. Qed.

(** The id of a new token is another one. *)
Lemma solo_uuid : solo (call AUTH_UUID) (λ j, j ≠ jti).
Proof.
  apply alone_call; [apply _|]. intros now s s' x Hs Hh. pose proof (barred_harmless _ AUTH_UUID (Z.max t0 now) s I Hs) as Hb. unfold from_then in Hh.
  rewrite Hh in Hb. split; [done|]. destruct Hs as (_ & _ & Hn). destruct s. cbn in Hh. injection Hh as _ <-. by apply fresh.
Qed.

(** The user of a token with the id has its expiry. *)
Definition own (u : AuthenticatedUser) : Prop := us_jti u = Some jti → us_tokenExp u = Some exp.

Lemma solo_reading {X} (p : A X) Q : only (@reading) p Q → solo p Q.
Proof.
  induction p as [x|e|Z c k IH]; [intros Hx; by apply alone_ret|intros _; apply alone_fail|]. intros [Hc Hk]. change (solo (call c ≫= k) Q).
  apply alone_then; [|auto]. apply solo_call. destruct c; cbn in Hc |- *; (discriminate Hc || done).
Qed.

Lemma solo_guard r token : solo (JwtAuthGuard.canActivate r token) (λ o, ∀ u, o = Some u → own u).
Proof.
  unfold JwtAuthGuard.canActivate. destruct (rt_isPublic r); [by apply alone_ret|].
  eapply (alone_bind _ _ _ _ (λ o, ∀ p, o = Some p → jp_jti p = Some jti → jp_exp p = Some exp)).
  { apply alone_call; [apply _|]. intros now s s' x Hs Hh. pose proof (barred_harmless _ (VERIFY_TOKEN token) (Z.max t0 now) s I Hs) as Hb. unfold from_then in Hh.
    rewrite Hh in Hb. split; [done|]. intros p ->. destruct Hs as (_ & Hu & _). apply Hu. destruct s. cbn in Hh. injection Hh as _ Hv.
    unfold verifyToken in Hv. destruct token as [q|]; [|done]. destruct (bool_decide_reflect (q ∈ au_tokens)); [|done]. case_match; simplify_eq. done. }
  intros o Hp. eapply (alone_bind _ _ _ _ (λ o, ∀ u, o = Some u → own u)).
  { destruct o as [p|]; [|by apply alone_ret]. eapply alone_bind; [apply solo_reading, only_validate|]. intros u (_ & Hj & He). apply alone_ret.
    intros u' [= <-]. unfold own. rewrite Hj, He. by apply Hp. }
  intros found Hf. eapply (alone_bind _ _ _ _ own).
  { destruct found as [u|]; [by apply alone_ret, Hf|apply alone_fail]. }
  intros u Hu. case_match; [apply alone_fail|]. apply alone_ret. by intros u' [= <-].
Qed.
(** A mark for the id that lasts as long as the token. *)
Lemma barred_mark now ttl v s : exp * 1000 ≤ now + ttl * 1000 → barred s → barred (auth_handle _ (SET_REVOKED (JTI jti) v ttl) now s).1.
Proof.
  intros Ht Hb. destruct s as [ls rp rv tk sn cs n]. assert (n0 ≤ S n)%nat as Hn by (destruct Hb as (_ & _ & Hn); cbn in Hn; lia). destruct Hb as (Hm & Hu & _).
  assert (∃ c e, <[JTI jti := mkCell v (deadline now ttl)]> rv !! JTI jti = Some c ∧ expiresAt c = Some e ∧ exp * 1000 ≤ e) as Hnew.
  { eexists _, _. by rewrite lookup_insert_eq. }
  cbn. unfold faulty. destruct (auth_fault n); (split_and!; [|exact Hu|exact Hn]); [left; exact Hnew|exact Hm|left; exact Hnew].
Qed.

(** A mark for the merchant. *)
Lemma barred_cutOff now s : t0 ≤ now →
  barred s → barred (auth_handle _ (SET_REVOKED (MERCHANT_BEFORE merchantId) (now / 1000) TokenRevocation.MERCHANT_REVOCATION_TTL_SECONDS) now s).1.
Proof.
  intros Ht Hb. destruct s as [ls rp rv tk sn cs n]. assert (n0 ≤ S n)%nat as Hn by (destruct Hb as (_ & _ & Hn); cbn in Hn; lia). destruct Hb as (Hm & Hu & _).
  set (rv' := <[MERCHANT_BEFORE merchantId := mkCell (now / 1000) (deadline now TokenRevocation.MERCHANT_REVOCATION_TTL_SECONDS)]> rv).
  assert (marked (mkAuthState ls rp rv' tk sn cs (S n)) ∨ cutOff (mkAuthState ls rp rv' tk sn cs (S n)) ∨ exp ≤ t0 / 1000) as Hnew.
  { destruct Hm as [(c & e & Hc & He)|[[Ho _]|He]]; [left; exists c, e; by unfold rv'; cbn; rewrite lookup_insert_ne|right; left; split; [done|]|by right; right].
    eexists _, _. unfold rv'. cbn [au_revoked]. rewrite lookup_insert_eq. split_and!; [done| |done|unfold outlived in Ho; lia]. cbn. pose proof (Z.div_le_mono t0 now 1000). lia. }
  cbn. unfold faulty. fold rv'. destruct (auth_fault n); (split_and!; [|exact Hu|exact Hn]); [exact Hnew|exact Hm|exact Hnew].
Qed.

Lemma barred_clock now s : barred s → barred (auth_handle _ AUTH_CLOCK now s).1.
Proof. by apply (barred_harmless _ AUTH_CLOCK). Qed.

Lemma run_ask_state {X} (c : auth_event (result X)) now s : (run from_then (ask c) now s).1 = (auth_handle _ c (Z.max t0 now) s).1.
Proof.
  unfold ask. rewrite run_bind_prog, run_call. unfold from_then. destruct (answers (handler := auth_handle) _ c (Z.max t0 now) s) as (s' & r & Hr). rewrite Hr. by rewrite run_of_result.
Qed.

(** The clock, and a mark that depends on it. *)
Lemma solo_clock (f : Date → A unit) :
  (∀ now s, t0 ≤ now → barred s → barred (run from_then (f now) now s).1) → solo (now ← call AUTH_CLOCK; f now) (λ _, True).
Proof.
  intros Hf now s Hb. split; [|done]. rewrite run_bind_prog, run_call. unfold from_then at 2. pose proof (barred_clock (Z.max t0 now) s Hb) as Hb1.
  destruct s as [ls rp rv tk sn cs n]. cbn in Hb1 |- *. specialize (Hf (Z.max t0 now) _ ltac:(lia) Hb1).
  assert (∀ X (p : A X) s, run from_then p (Z.max t0 now) s = run from_then p now s) as <-; [|done].
  intros X p. induction p as [x|e|Z c k IH]; intros s; [done..|]. cbn. unfold from_then. rewrite (Z.max_r t0 (Z.max t0 now)) by lia.
  destruct (auth_handle Z c (Z.max t0 now) s) as [s1 [z|e]]; [apply IH|done].
Qed.

Lemma solo_revokeOwn u : own u → solo (AuthController.revokeOwn u) (λ _, True).
Proof.
  intros Hu. unfold AuthController.revokeOwn, own in *. destruct (us_jti u) as [j|]; [|by apply alone_ret]. destruct (truthy (Some j) && present (us_tokenExp u)); [|by apply alone_ret].
  apply solo_clock. intros now s Ht Hb. cbn [nullish]. unfold TokenRevocation.revokeToken. case_match; [done|]. rewrite run_ask_state, Z.max_r by done.
  destruct (decide (j = jti)) as [->|Hj]; [|by apply barred_harmless]. rewrite (Hu eq_refl) in *. apply barred_mark; [|done]. cbn [nullish] in *.
  pose proof (Z.mul_div_le now 1000). lia.
Qed.

Lemma solo_revokeAll m : solo (TokenRevocation.revokeAllForMerchant m) (λ _, True).
Proof.
  apply solo_clock. intros now s Ht Hb. rewrite run_ask_state, Z.max_r by done. destruct (decide (m = merchantId)) as [->|Hm]; [by apply barred_cutOff|by apply barred_harmless].
Qed.

(** *** The requests that follow *)

Lemma solo_guarded {X} r token (handler : AuthenticatedUser → A X) : (∀ u, own u → solo (handler u) (λ _, True)) → solo (guarded r token handler) (λ _, True).
Proof. intros Hh. eapply alone_bind; [apply solo_guard|]. intros [u|] Hu; [by apply Hh, Hu|apply alone_fail]. Qed.

Lemma solo_validated {X} code (p : A X) : solo p (λ _, True) → solo (validated code p) (λ _, True).
Proof. intros Hp. unfold validated. case_match; [done|apply alone_fail]. Qed.

Lemma solo_end {X} (p : A X) (f : X → auth_answer) : solo p (λ _, True) → solo (x ← p; mret (f x)) (λ _, True).
Proof. intros Hp. apply alone_then; [done|]. intros x. by apply alone_ret. Qed.

(** Programs that neither mark nor sign. *)
Definition unmarking {X} (c : auth_event X) : bool := match c with SET_REVOKED _ _ _ | SIGN _ _ => false | _ => true end.

Lemma solo_unmarking {X} (p : A X) Q : only (@unmarking) p Q → solo p Q.
Proof.
  induction p as [x|e|Z c k IH]; [intros Hx; by apply alone_ret|intros _; apply alone_fail|]. intros [Hc Hk]. change (solo (call c ≫= k) Q).
  apply alone_then; [|auto]. apply solo_call. destruct c; cbn in Hc |- *; (discriminate Hc || done).
Qed.

Lemma only_unmarking {X} (p : A X) Q : only (@reading) p Q → only (@unmarking) p Q.
Proof. apply only_weaken. by intros Y []. Qed.

Lemma only_codes n : only (@unmarking) (backupCodes n) (λ _, True).
Proof. induction n as [|n IH]; [done|]. cbn. split; [done|]. intros b. split; [done|]. intros h. eapply only_bind; [done|]. by intros []. Qed.

Lemma only_enroll id : only (@unmarking) (MfaService.generateEnrollment id) (λ _, True).
Proof.
  eapply only_bind; [apply only_unmarking, only_getLogin|]. intros m _. case_match; [done|]. split; [done|]. intros secret.
  apply only_then; [done|]. intros c. by apply only_then.
Qed.

Lemma only_confirm id code : only (@unmarking) (MfaService.confirmEnrollment id code) (λ _, True).
Proof.
  eapply only_bind; [apply only_unmarking, only_getLogin|]. intros m _. case_match; [done|]. apply only_then; [done|]. intros secret.
  eapply only_bind; [apply only_unmarking, only_isValidTotp|]. intros [] _; [|done]. eapply only_bind; [apply only_codes|]. intros [codes hashes] _. by apply only_then.
Qed.

Lemma only_verifyCode id code : only (@unmarking) (MfaService.verifyCode id code) (λ _, True).
Proof.
  eapply only_bind; [apply only_unmarking, only_getLogin|]. intros m _. case_match; [done|]. apply only_then; [done|]. intros secret.
  eapply only_bind; [apply only_unmarking, only_isValidTotp|]. intros [] _; [done|]. case_match; [by apply only_ask|done].
Qed.

Lemma only_disable id code : only (@unmarking) (MfaService.disableMfa id code) (λ _, True).
Proof. eapply only_bind; [apply only_verifyCode|]. intros _ _. eapply only_bind; [apply only_unmarking, only_getLogin|]. intros m _. by apply only_ask. Qed.

Definition foreign (q : auth_request) : Prop := match q with DELEGATE _ _ j _ => j ≠ jti | _ => True end.

Lemma solo_serve q : foreign q → solo (serveAuth q) (λ _, True).
Proof.
  intros Hq. destruct q as [key secret|token|token|token code|token code|token code|mid did j e|mid|route token]; cbn [serveAuth].
  - apply alone_then; [|intros []; by apply alone_ret]. eapply (alone_bind _ _ _ _ (λ _, True)).
    { apply alone_then; [by apply solo_ask|]. intros o. by apply alone_ret. }
    intros [m|] _; [|apply alone_fail]. eapply alone_bind; [apply solo_uuid|]. intros j Hj. cbv zeta.
    case_match; (apply alone_then; [apply solo_call; cbn; congruence|intros; by apply alone_ret]).
  - apply solo_end, solo_guarded. intros u Hu. by apply solo_revokeOwn.
  - apply solo_end, solo_guarded. intros u Hu. apply solo_unmarking, only_enroll.
  - apply solo_end, solo_guarded. intros u Hu. apply solo_validated, solo_unmarking, only_confirm.
  - apply solo_end, solo_guarded. intros u Hu. apply solo_validated, solo_unmarking, only_disable.
  - apply solo_end, solo_guarded. intros u Hu. apply solo_validated. apply alone_then; [apply solo_unmarking, only_verifyCode|]. intros _.
    apply alone_then; [by apply solo_revokeOwn|]. intros _. eapply alone_bind; [apply solo_uuid|]. intros j Hj. apply solo_call. cbn. congruence.
  - apply solo_end, solo_call. cbn in *. congruence.
  - apply solo_end, solo_revokeAll.
  - eapply alone_bind; [apply solo_guard|]. intros o _. apply alone_then; [|intros; by apply alone_ret]. apply solo_reading.
    unfold RolesGuard.canActivate. case_match; [done|]. case_match; [|done]. case_match; [done|]. eapply (only_bind _ _ _ (λ _, True)); [|done].
    case_match; [|done]. apply only_then; [done|]. intros [m|]; [|done]. by destruct (lg_mfaEnabled m).
Qed.

Lemma history_barred l s :
  Forall (λ p, t0 ≤ p.1 ∧ foreign p.2) l → barred s → barred (serve_all l s).1.
Proof.
  revert s. induction l as [|[now q] l IH]; intros s Hl Hb; [done|]. apply Forall_cons in Hl as [[Ht Hq] Hl]. cbn [serve_all].
  destruct (solo_serve q Hq now s Hb) as [H1 _]. rewrite <- run_from_then in H1 by done. destruct (run auth_handle (serveAuth q) now s) as [s1 r].
  specialize (IH s1 Hl H1). by destruct (serve_all l s1).
Qed.
(** *** The token meets the guard *)

Context (p : JwtPayload).
Hypothesis p_jti : jp_jti p = Some jti.
Hypothesis p_merchant : jp_merchantId p = merchantId.
Hypothesis p_iat : jp_iat p = Some iat.
Hypothesis p_exp : jp_exp p = Some exp.
Hypothesis named : jti ≠ ""%string.
Hypothesis dated : 0 < iat ∧ 0 < exp.

Lemma truthy_jti : truthy (Some jti) = true.
Proof. cbn. by destruct (String.eqb_spec jti ""). Qed.

Lemma present_pos n : 0 < n → present (Some n) = true.
Proof. intros. cbn. destruct (Z.eqb_spec n 0); [lia|done]. Qed.

Lemma peek_marked t k c e (rv : revocations) : rv !! k = Some c → expiresAt c = Some e → t < e → peek t k rv = Some (value c).
Proof. intros Hk He Ht. unfold peek, find. rewrite Hk. unfold live. rewrite He. by destruct (Z.ltb_spec t e); [|lia]. Qed.

(** A lookup answers what is stored, or fails. *)
Lemma run_lookup k now s : let '(s', r) := run auth_handle (ask (GET_REVOKED k)) now s in
  au_revoked s' = au_revoked s ∧ ∀ o, r = Ok o → o = peek now k (au_revoked s).
Proof. destruct s as [ls rp rv tk sn cs n]. cbn. unfold faulty. destruct (auth_fault n); cbn; (split; [done|]); by intros o [= <-] || done. Qed.

Lemma run_isTokenRevoked now s : let '(s', r) := run auth_handle (TokenRevocation.isTokenRevoked jti) now s in
  au_revoked s' = au_revoked s ∧ ∀ b, r = Ok b → b = isSome (peek now (JTI jti) (au_revoked s)).
Proof.
  unfold TokenRevocation.isTokenRevoked. rewrite run_bind_prog. pose proof (run_lookup (JTI jti) now s) as Hl.
  destruct (run auth_handle (ask (GET_REVOKED (JTI jti))) now s) as [s' [o|e]]; [|by destruct Hl]. destruct Hl as [Hrv Ho]. split; [done|].
  intros b [= <-]. by rewrite (Ho o eq_refl).
Qed.

Lemma run_isMerchantTokenRevoked now s : let '(s', r) := run auth_handle (TokenRevocation.isMerchantTokenRevoked merchantId iat) now s in
  ∀ b, r = Ok b → b = match peek now (MERCHANT_BEFORE merchantId) (au_revoked s) with Some v => iat <=? v | None => false end.
Proof.
  unfold TokenRevocation.isMerchantTokenRevoked. rewrite run_bind_prog. pose proof (run_lookup (MERCHANT_BEFORE merchantId) now s) as Hl.
  destruct (run auth_handle (ask (GET_REVOKED (MERCHANT_BEFORE merchantId))) now s) as [s' [o|e]]; [|done]. destruct Hl as [_ Ho].
  intros b [= <-]. by rewrite (Ho o eq_refl).
Qed.

Lemma validate_refuses t s : (marked s ∨ cutOff s) → t < exp * 1000 → ∀ u, (run auth_handle (JwtStrategy.validate p) t s).2 ≠ Ok u.
Proof.
  intros Hm Ht u. unfold JwtStrategy.validate. case_match; [done|]. rewrite p_jti, p_iat, truthy_jti, present_pos, p_merchant by apply dated. cbn [nullish].
  rewrite run_bind_prog. pose proof (run_isTokenRevoked t s) as Hj. destruct (run auth_handle (TokenRevocation.isTokenRevoked jti) t s) as [s1 [b|e]]; [|done].
  destruct Hj as [Hrv Hj]. specialize (Hj b eq_refl). rewrite run_bind_prog. pose proof (run_isMerchantTokenRevoked t s1) as Hb.
  destruct (run auth_handle (TokenRevocation.isMerchantTokenRevoked merchantId iat) t s1) as [s2 [b'|e]]; [|done]. specialize (Hb b' eq_refl).
  rewrite Hrv in Hb. destruct Hm as [(c & e & Hc & He & Hle)|(_ & c & e & Hc & Hv & He & Hle)].
  - rewrite (peek_marked t _ c e _ Hc He) in Hj by lia. by subst b.
  - rewrite (peek_marked t _ c e _ Hc He) in Hb by lia. subst b'. destruct (Z.leb_spec iat (value c)); [|lia]. by rewrite orb_true_r.
Qed.

Lemma guard_refuses r t s u : t0 ≤ t → barred s → (run auth_handle (JwtAuthGuard.canActivate r (Some p)) t s).2 ≠ Ok (Some u).
Proof.
  intros Ht (Hm & _ & _). unfold JwtAuthGuard.canActivate. destruct (rt_isPublic r); [done|]. rewrite run_bind_prog, run_call. destruct s as [ls rp rv tk sn cs n].
  cbn [auth_handle]. unfold verifyToken. rewrite p_exp. cbv zeta. destruct (bool_decide _ && (t / 1000 <? exp)) eqn:E; [|done]. apply andb_true_iff in E as [_ E%Z.ltb_lt].
  rewrite !run_bind_prog. set (s1 := _ {{ au_calls := _ }}). assert (marked s1 ∨ cutOff s1) as Hm1.
  { destruct Hm as [Hm|[Hm|Hm]]; [by left|by right|]. pose proof (Z.div_le_mono t0 t 1000). lia. }
  assert (t < exp * 1000) as Hlt. { pose proof (Z.mul_succ_div_gt t 1000). lia. }
  pose proof (validate_refuses t s1 Hm1 Hlt) as Hv. destruct (run auth_handle (JwtStrategy.validate p) t s1) as [s2 [u'|e]]; [by destruct (Hv u')|done].
Qed.

(** *** The revocation *)

Lemma run_guard_user r t s s' u :
  run auth_handle (JwtAuthGuard.canActivate r (Some p)) t s = (s', Ok (Some u)) → us_jti u = Some jti ∧ us_tokenExp u = Some exp.
Proof.
  unfold JwtAuthGuard.canActivate. destruct (rt_isPublic r); [done|]. rewrite run_bind_prog, run_call. destruct s as [ls rp rv tk sn cs n].
  cbn [auth_handle]. unfold verifyToken. cbv zeta. destruct (bool_decide _ && _); [|done].
  rewrite !run_bind_prog. set (s1 := _ {{ au_calls := _ }}). pose proof (run_reading (JwtStrategy.validate p) _ t s1 (only_validate p)) as [_ Hv].
  destruct (run auth_handle (JwtStrategy.validate p) t s1) as [s2 [u'|e]]; [|done]. destruct (Hv u' eq_refl) as (_ & Hj & He). cbn.
  destruct (us_mfaPending u' && _); [done|]. intros [= _ <-]. by rewrite Hj, He.
Qed.

Definition clean (s : auth_state) : Prop := unique s ∧ (n0 ≤ au_calls s)%nat.

Definition sameTokens (s s' : auth_state) : Prop := au_tokens s' = au_tokens s ∧ (au_calls s ≤ au_calls s')%nat.

#[local] Instance sameTokens_preorder : PreOrder sameTokens.
Proof. split; [done|]. intros s1 s2 s3 [? ?] [? ?]. split; [congruence|lia]. Qed.

Lemma clean_unmarking {X} (q : A X) Q now s : only (@unmarking) q Q → clean s → clean (run auth_handle q now s).1.
Proof.
  intros Hq [Hu Hn]. pose proof (run_only (@unmarking) auth_handle sameTokens q Q now s) as Hrun. destruct Hrun as [[Ht Hc] _]; [|done|].
  - intros Y c [ls rp rv tk sn cs n] Hc. destruct c; cbn in Hc; try discriminate Hc; cbn; unfold faulty; try destruct (auth_fault n); cbn; try (split; [done|cbn; lia]).
    all: unfold see; case_match; (split; [done|cbn; lia]).
  - split; [|lia]. unfold unique. by rewrite Ht.
Qed.

(** The holder's revocation bars the token. *)
Lemma run_revokeOwn u s s' : us_jti u = Some jti → us_tokenExp u = Some exp → clean s → run auth_handle (AuthController.revokeOwn u) t0 s = (s', Ok tt) → barred s'.
Proof.
  intros Hj He [Hu Hn] Hrun. unfold AuthController.revokeOwn in Hrun. rewrite Hj, He, truthy_jti, present_pos in Hrun by apply dated. cbn [andb nullish] in Hrun.
  rewrite run_bind_prog, run_call in Hrun. destruct s as [ls rp rv tk sn cs n]. cbn in Hrun, Hn. unfold TokenRevocation.revokeToken in Hrun.
  destruct (Z.leb_spec (exp - t0 / 1000) 0) as [Hexp|Hexp].
  - injection Hrun as <-. split_and!; [right; right; lia|exact Hu|cbn; lia].
  - cbn in Hrun. unfold faulty in Hrun. destruct (auth_fault (S n)); cbn in Hrun; try discriminate Hrun. injection Hrun as <-. split_and!; [|exact Hu|cbn; lia].
    left. eexists _, _. cbn. rewrite lookup_insert_eq. split_and!; [done|done|]. pose proof (Z.mul_div_le t0 1000). lia.
Qed.

(** A request that revokes the token. *)
Definition revokes (q : auth_request) : Prop :=
  match q with LOGOUT token | VERIFY_MFA token _ => token = Some p | REVOKE_MERCHANT m => m = merchantId ∧ outlived | _ => False end.

Lemma run_guarded_ok {X} r (handler : AuthenticatedUser → A X) s s' x : clean s → run auth_handle (guarded r (Some p) handler) t0 s = (s', Ok x) →
  ∃ u s1, us_jti u = Some jti ∧ us_tokenExp u = Some exp ∧ clean s1 ∧ run auth_handle (handler u) t0 s1 = (s', Ok x).
Proof.
  intros Hc Hrun. unfold guarded in Hrun. rewrite run_bind_prog in Hrun. pose proof (clean_unmarking _ _ t0 s (only_unmarking _ _ (only_guard r (Some p))) Hc) as Hc1.
  destruct (run auth_handle (JwtAuthGuard.canActivate r (Some p)) t0 s) as [s1 [[u|]|e]] eqn:Eg; [|done..]. destruct (run_guard_user _ _ _ _ _ Eg) as [Hj He].
  by exists u, s1.
Qed.

Lemma revokes_bars q s s' a : revokes q → clean s → run auth_handle (serveAuth q) t0 s = (s', Ok a) → barred s'.
Proof.
  intros Hq Hc Hrun. destruct q as [| token | | | |token code| |m|]; cbn [revokes] in Hq; try done.
  - subst token. cbn [serveAuth] in Hrun. rewrite run_bind_prog in Hrun. destruct (run auth_handle (guarded AUTHENTICATED (Some p) _) t0 s) as [s1 [[]|e]] eqn:Eg; [|done].
    injection Hrun as <- _. destruct (run_guarded_ok _ _ _ _ _ Hc Eg) as (u & s2 & Hj & He & Hc2 & Hr). by eapply run_revokeOwn.
  - subst token. cbn [serveAuth] in Hrun. rewrite run_bind_prog in Hrun. destruct (run auth_handle (guarded MFA_VERIFY (Some p) _) t0 s) as [s1 [tk|e]] eqn:Eg; [|done].
    injection Hrun as <- _. destruct (run_guarded_ok _ _ _ _ _ Hc Eg) as (u & s2 & Hj & He & Hc2 & Hr). unfold validated in Hr.
    destruct (AuthController.validMfaCode code); [|done]. unfold AuthController.verifyMfa in Hr. rewrite run_bind_prog in Hr.
    pose proof (clean_unmarking _ _ t0 s2 (only_verifyCode (us_merchantId u) code) Hc2) as Hc3.
    destruct (run auth_handle (MfaService.verifyCode (us_merchantId u) code) t0 s2) as [s3 [[]|e]]; [|done]. rewrite run_bind_prog in Hr.
    destruct (run auth_handle (AuthController.revokeOwn u) t0 s3) as [s4 [[]|e]] eqn:Er; [|done]. pose proof (run_revokeOwn _ _ _ Hj He Hc3 Er) as Hb4.
    assert (solo (jti ← call AUTH_UUID; call (SIGN (AuthController.payloadFor (us_userId u) (us_merchantId u) (us_roles u) jti false) AuthController.FULL_TOKEN_TTL_SECONDS)) (λ _, True)) as Hsolo.
    { eapply alone_bind; [apply solo_uuid|]. intros j' Hj'. apply solo_call. cbn. congruence. }
    destruct (Hsolo t0 s4 Hb4) as [H5 _]. rewrite <- run_from_then in H5 by done. by rewrite Hr in H5.
  - destruct Hq as [-> Ho]. destruct Hc as [Hu Hn]. destruct s as [ls rp rv tk sn cs n]. cbn in Hrun, Hn. unfold faulty in Hrun.
    destruct (auth_fault (S n)); cbn in Hrun; try discriminate Hrun. injection Hrun as <- _. split_and!; [|exact Hu|cbn; lia]. right; left. split; [done|].
    eexists _, _. cbn. rewrite lookup_insert_eq. split_and!; [done|exact issued|done|unfold outlived in Ho; lia].
Qed.
End revocation.

(** C32: a revoked token stays out: once a logout with the token, a verification of the
    second factor with it, or a revocation of all tokens of its merchant has been
    acknowledged, no later request passes the guard with it, at any instant, on any route
    that is not public, after whatever requests that run one after the other and with any
    call failing (a failing lookup refuses the request). The ids of tokens are unique; a
    revocation for the merchant covers the tokens that expire within its seven days. *)
Theorem revoked_tokens_stay_out `{Bcrypt, AuthWorld} p jti iat exp t0 q s a l t route u :
  jp_jti p = Some jti → jp_iat p = Some iat → jp_exp p = Some exp → jti ≠ ""%string → 0 < iat ∧ 0 < exp → iat ≤ t0 / 1000 →
  unique jti exp s → (∀ n, (au_calls s ≤ n)%nat → auth_uuid n ≠ jti) →
  revokes (jp_merchantId p) exp t0 p q → (run auth_handle (serveAuth q) t0 s).2 = Ok a →
  Forall (λ x, t0 ≤ x.1 ∧ foreign jti x.2) l → t0 ≤ t →
  (run auth_handle (JwtAuthGuard.canActivate route (Some p)) t (serve_all l (run auth_handle (serveAuth q) t0 s).1).1).2 ≠ Ok (Some u).
Proof.
  intros Hj Hi He Hne Hpos Hiss Hu Hfresh Hq Ha Hl Ht. destruct (run auth_handle (serveAuth q) t0 s) as [s1 r] eqn:Eq. cbn in Ha. subst r. cbn [fst].
  eapply (guard_refuses jti (jp_merchantId p) iat exp t0 (au_calls s)); try done. apply history_barred; [done..|].
  eapply (revokes_bars jti (jp_merchantId p) iat exp t0 (au_calls s)); try done.
Qed.

(** * Authentication: concrete histories

    Witnesses of the theorems on tokens and codes, and histories in which a factor is
    worth less than it seems. *)

(** A world in which every call works. *)
#[global] Instance plain_bcrypt : Bcrypt := {| compare c h := String.eqb h ("#" +:+ c); dummyHash := "" |}.

#[global] Instance plain_world : AuthWorld := {|
  auth_fault := λ _, Works;
  auth_uuid := λ n, ("uuid-" +:+ pretty n)%string;
  auth_random := λ n, String (ascii_of_nat n) "abc";
  auth_secret := λ _, "JBSWY3DP"%string;
  auth_hash := λ _ c, ("#" +:+ c)%string;
  auth_encrypt := λ _ s, ("vault:" +:+ s)%string;
  auth_decrypt := λ s, String.substring 6 (String.length s) s;
  auth_totp := λ secret code _, if String.eqb secret "JBSWY3DP" && String.eqb code "123456" then Ok true
                                else if (String.length code =? 6)%nat then Ok false else Throw (DomainError "TokenLengthError") |}.

Definition acme_account : Account :=
  MerchantService.newAccount "id0" "ak_1" "#sk_1" "cipher" 0
    (mkCreateMerchantDto "acme" "Acme" None None None ["MERCHANT"%string] None None None None None None None None None None)
    (mkSanctionsScreeningOutcome CLEAR DEGRADED None None).

(** Acme, without a second factor and with one. *)
Definition acme_plain : Login := mkLogin acme_account None false [].
Definition acme_mfa : Login := mkLogin acme_account (Some "vault:JBSWY3DP"%string) true ["#AAAA-BBBB"%string; "#CCCC-DDDD"%string].

Definition world_of (m : Login) : auth_state := mkAuthState [m] [m] ∅ [] [] [] 0.

(** One second after the other, from second 1000 on. *)
Definition T : Date := 1000000.

Definition pending : JwtPayload :=
  mkJwtPayload "id0" "acme" None (Some [MERCHANT]) (Some "uuid-1"%string) (Some 1000) (Some 1300) true None.

(** *** Where tokens come from *)

Definition login_and_verify : list auth_request := [LOGIN "ak_1" "sk_1"; VERIFY_MFA (Some pending) "AAAA-BBBB"].

Definition signed_by (reqs : list auth_request) (m : Login) : list JwtPayload := au_tokens (run_all auth_handle (serveAuth <$> reqs) T (world_of m)).1.

Lemma login_and_verify_signs : ∃ full, signed_by login_and_verify acme_mfa = [pending; full] ∧ jp_mfaPending full = false.
Proof. eexists. vm_compute. split; reflexivity. Qed.

Lemma tokens_need_second_factor_witness :
  ∃ s full, full ∈ au_tokens s ∧ jp_mfaPending full = false
    ∧ (loggedIn login_and_verify s full ∨ secondFactor login_and_verify s full ∨ delegated login_and_verify full).
Proof.
  destruct login_and_verify_signs as (full & Hs & Hf). unfold signed_by in Hs.
  pose proof (run_all_interleaves auth_handle [] (serveAuth <$> login_and_verify) T (world_of acme_mfa)) as Hrun.
  generalize dependent (run_all auth_handle (serveAuth <$> login_and_verify) T (world_of acme_mfa)). intros r Hs Hrun. exists r.1, full.
  assert (full ∈ au_tokens r.1) as Hin by (rewrite Hs; right; left). split; [exact Hin|]. split; [exact Hf|].
  exact (tokens_need_second_factor login_and_verify T (world_of acme_mfa) _ eq_refl Hrun full Hin).
Defined.

(** *** Backup codes *)

Definition enrol_and_use : list (Date * auth_request) :=
  let session := Some (mkJwtPayload "id0" "acme" None (Some [MERCHANT]) (Some "uuid-1"%string) (Some 1000) (Some 4600) false None) in
  let waiting := Some (mkJwtPayload "id0" "acme" None (Some [MERCHANT]) (Some "uuid-38"%string) (Some 1000) (Some 1300) true None) in
  [(T, LOGIN "ak_1" "sk_1"); (T, ENROLL session); (T, CONFIRM session "123456"); (T, LOGIN "ak_1" "sk_1");
   (T, VERIFY_MFA waiting "1061-6263"); (T, DISABLE session "1061-6263")]%string.

(** The code of the first random bytes: generated once, used once, refused the second
    time. *)
Lemma enrol_and_use_runs :
  let '(s, rs) := serve_all enrol_and_use (world_of acme_plain) in
  uses "1061-6263" enrol_and_use rs = 1%nat ∧ generated "1061-6263" (au_codes s) = 1%nat ∧ last rs = Some (Throw (HttpException 401 "MFA_CODE_INVALID")).
Proof. vm_compute. split_and!; reflexivity. Qed.

Lemma plain_bcrypt_ok c n d : compare c (auth_hash n d) = String.eqb c d.
Proof.
  cbn. destruct (String.eqb_spec c d) as [->|Hne]; [by apply String.eqb_eq|]. apply String.eqb_neq. intros Heq. by apply Hne; injection Heq.
Qed.

Lemma backup_codes_single_use_witness :
  (uses "1061-6263" enrol_and_use (serve_all enrol_and_use (world_of acme_plain)).2
   ≤ generated "1061-6263" (au_codes (serve_all enrol_and_use (world_of acme_plain)).1))%nat.
Proof.
  apply (backup_codes_single_use "1061-6263" enrol_and_use (world_of acme_plain)).
  - apply plain_bcrypt_ok.
  - intros secret t. cbn. rewrite andb_false_r. discriminate.
  - apply NoDup_singleton.
  - by repeat constructor.
Defined.

(** *** Revocation *)

Definition session : JwtPayload := mkJwtPayload "id0" "acme" None (Some [MERCHANT]) (Some "uuid-1"%string) (Some 1000) (Some 4600) false None.

(** Acme has logged in. *)
Definition logged_in : auth_state := mkAuthState [acme_plain] [acme_plain] ∅ [session] [acme_plain] [] 3.

Lemma logged_in_state : (run auth_handle (serveAuth (LOGIN "ak_1" "sk_1")) T (world_of acme_plain)).1 = logged_in.
Proof. vm_compute. reflexivity. Qed.

Lemma uuid_fresh n : (3 ≤ n)%nat → auth_uuid n ≠ "uuid-1"%string.
Proof. intros Hn. change "uuid-1"%string with ("uuid-" +:+ pretty 1%nat)%string. intros Heq%(inj (String.append "uuid-")). apply (inj pretty) in Heq. lia. Qed.

Lemma revoked_tokens_stay_out_witness :
  is_ok (run auth_handle (JwtAuthGuard.canActivate AUTHENTICATED (Some session)) T logged_in).2 = true ∧
  ∀ u, (run auth_handle (JwtAuthGuard.canActivate AUTHENTICATED (Some session)) (T + 60000)
          (serve_all [(T + 1000, LOGIN "ak_1" "sk_1")] (run auth_handle (serveAuth (LOGOUT (Some session))) T logged_in).1).1).2 ≠ Ok (Some u).
Proof.
  split; [vm_compute; reflexivity|]. intros u. apply (revoked_tokens_stay_out session "uuid-1" 1000 4600 T (LOGOUT (Some session)) logged_in DONE); try done.
  - intros p Hp _. apply list_elem_of_singleton in Hp as ->. done.
  - exact uuid_fresh.
  - by repeat constructor.
Defined.

(** ** Where it falls short *)

Definition with_pending : auth_state := mkAuthState [acme_mfa] [acme_mfa] ∅ [pending] [] [] 2.

Definition both_passed (c : @config auth_event auth_state auth_answer) : bool :=
  match pool c with [Ret (TOKEN _ false); Ret (TOKEN _ false)] => (length (au_tokens (memory c)) =? 3)%nat | _ => false end.

(** Two requests that verify one backup code at the same time both read it before either
    removes it: the code is accepted twice. *)
Lemma backup_code_used_twice : ∃ c t1 t2,
  rtc (interleave auth_handle) (mkConfig T with_pending (serveAuth <$> [VERIFY_MFA (Some pending) "AAAA-BBBB"; VERIFY_MFA (Some pending) "AAAA-BBBB"])) c
  ∧ pool c = [Ret (TOKEN t1 false); Ret (TOKEN t2 false)].
Proof.
  set (c0 := mkConfig T with_pending _). set (ts := replicate 5 0%nat ++ replicate 11 1%nat ++ replicate 6 0%nat).
  assert (both_passed (schedule auth_handle ts c0) = true) as Hb by by vm_compute. pose proof (schedule_reaches auth_handle ts c0) as Hr.
  generalize dependent (schedule auth_handle ts c0). intros c Hb Hr. unfold both_passed in Hb.
  destruct (pool c) as [|[[t1 []| | | |]|e|X e k] [|[[t2 []| | | |]|e'|Y e' k'] []]] eqn:Ep; try discriminate Hb. exists c, t1, t2. by rewrite Ep.
Qed.

Definition agent : JwtPayload := (agentPayload "acme" "d1" "j1") {{ jp_iat := Some 1000; jp_exp := Some (1000 + 30 * 86400) }}.

(** The token of an agent lives for up to thirty days, the revocation of all tokens of its
    merchant for seven: refused after the revocation, it passes again on the eighth day. *)
Lemma merchant_revocation_lapses :
  let rs := (serve_all [(T, DELEGATE "acme" "d1" "j1" (30 * 86400)); (T + 1000, REVOKE_MERCHANT "acme");
                        (T + 2000, ACT AUTHENTICATED (Some agent)); (T + 8 * 86400000, ACT AUTHENTICATED (Some agent))] (world_of acme_plain)).2 in
  rs !! 2%nat = Some (Throw (HttpException 401 "TOKEN_REVOKED")) ∧ ∃ u, rs !! 3%nat = Some (Ok (PASSED (Some u))).
Proof. vm_compute. split; [reflexivity|]. eexists. reflexivity. Qed.

(** The enrolment of a second factor asks for no role: an agent enrols its own, and from
    then on the merchant's login asks for it. *)
Lemma agent_enrols_second_factor :
  let rs := (serve_all [(T, DELEGATE "acme" "d1" "j1" (30 * 86400)); (T, ENROLL (Some agent)); (T, CONFIRM (Some agent) "123456");
                        (T, LOGIN "ak_1" "sk_1")] (world_of acme_plain)).2 in
  rs !! 1%nat = Some (Ok (SECRET "JBSWY3DP")) ∧ ∃ t, rs !! 3%nat = Some (Ok (TOKEN t true)).
Proof. vm_compute. split; [reflexivity|]. eexists. reflexivity. Qed.

(** A login after the revocation, in the same second, is refused with the others. *)
Lemma fresh_login_refused :
  (serve_all [(T + 100, REVOKE_MERCHANT "acme"); (T + 500, LOGIN "ak_1" "sk_1");
              (T + 5000, ACT AUTHENTICATED (Some (mkJwtPayload "id0" "acme" None (Some [MERCHANT]) (Some "uuid-3"%string) (Some 1000) (Some 4600) false None)))]
     (world_of acme_plain)).2 !! 2%nat = Some (Throw (HttpException 401 "TOKEN_REVOKED")).
Proof. vm_compute. reflexivity. Qed.
