(* ===== verification/Signature.v ===== *)
(** * Signed requests and webhooks

    [hmac-signature.guard.ts], the guards of the webhooks of Stripe, the bank rails, the
    KYC and KYB providers and Adyen, and the signature of outgoing notifications
    ([notification-delivery.util.ts]). Configuration, database and vault are the
    operations of a class; digests are those of [Crypto]. *)

From stdpp Require Import pretty.
From S2P Require Import Prelude JsNumber Money Policies Merchant Redis Program Sanctions Accounts Crypto Auth.

(** ** What the guards share *)

(** [parseInt(s, 10)]; [None] is [NaN]. *)
Definition parseInt10 (s : string) : option Z :=
  let '(sg, s) := Str.sign (Str.trimStart s) in
  let '(v, n, _) := Str.digits 0 0 s in
  if n =? 0 then None else Some (sg * v).

(** [parseInt(timestamp, 10) * 1000] *)
Definition requestTime (timestamp : string) : number :=
  match parseInt10 timestamp with Some n => Num.mul (Num.of_bigint n) (Num.of_bigint 1000) | None => NaN end.

Definition isFinite (x : number) : bool := match x with Fin _ => true | _ => false end.

Definition abs (x : number) : number := match x with Fin k => Fin (Z.abs k) | NegInf => PosInf | _ => x end.

(** [Math.abs(Date.now() - requestTime) > maxMs] *)
Definition drifted (now : Date) (requestTime : number) (maxMs : Z) : bool :=
  Num.gtb (abs (Num.sub (Num.of_bigint now) requestTime)) (Num.of_bigint maxMs).

(** [timingSafeEqual] after the check of the lengths. *)
Definition buffersEqual (a b : string) : bool := (String.length a =? String.length b)%nat && String.eqb a b.

(** [createHmac('sha256', secret).update(payload).digest('hex')] *)
Definition hexDigest (secret payload : string) : string := toHex (hmacSha256 secret payload).

Definition unauthorized (code : string) : js_error := HttpException 401 code.

(** [s.split(sep)] on one character. *)
Fixpoint splitOn (sep : ascii) (s : string) : string * list string :=
  match s with
  | EmptyString => (EmptyString, [])
  | String c s =>
      let '(first, rest) := splitOn sep s in
      if bool_decide (c = sep) then (EmptyString, first :: rest) else (String c first, rest)
  end.

Definition split (sep : ascii) (s : string) : list string := let '(first, rest) := splitOn sep s in first :: rest.

(** ** Requests of merchants and agents ([hmac-signature.guard.ts]) *)

Record SignedRequest := mkSignedRequest {
  sr_skipHmac : bool;
  sr_user : option AuthenticatedUser;
  sr_signature : option string;
  sr_timestamp : option string;
  sr_merchantId : option string;
  sr_rawBody : option string;
  sr_method : string;
  sr_originalUrl : option string;
  sr_url : string }.

(** The configuration, the active merchant's ciphertext, a delegation's ciphertext, and
    the vault. *)
Class SignaturePorts := {
  config : string → option string;
  findHmacCiphertext : string → result (option string);
  findSigningKeyCiphertext : string → result (option string);
  decryptSecret : string → result string }.

Module HmacSignatureGuard.

Definition maxTimestampDriftMs : Z := 5 * 60 * 1000.

Section guard.
Context `{SignaturePorts}.

Definition constructor : result unit :=
  throw_if (negb (truthy (config "HMAC_SECRET")) || (String.length (nullish (config "HMAC_SECRET") "") <? 32)%nat) (DomainError "HMAC_SECRET").

Definition assertTimestampFresh (now : Date) (timestamp : string) : result unit :=
  let requestTime := requestTime timestamp in
  if negb (isFinite requestTime) then Throw (unauthorized "INVALID_TIMESTAMP")
  else throw_if (drifted now requestTime maxTimestampDriftMs) (unauthorized "TIMESTAMP_DRIFT_EXCEEDED").

Definition signedPayload (request : SignedRequest) (timestamp : string) : string :=
  let body := nullish (sr_rawBody request) "" in
  let method := Str.toUpperCase (sr_method request) in
  let path := if truthy (sr_originalUrl request) then nullish (sr_originalUrl request) "" else sr_url request in
  timestamp +:+ "." +:+ method +:+ "." +:+ path +:+ "." +:+ body.

Definition assertSignatureMatches (request : SignedRequest) (signature timestamp secret : string) : result unit :=
  let expectedSignature := hexDigest secret (signedPayload request timestamp) in
  throw_if (negb (buffersEqual (fromHex signature) (fromHex expectedSignature))) (unauthorized "INVALID_SIGNATURE").

Definition getMerchantHmacSecret (merchantId : string) : result (option string) :=
  ciphertext ← findHmacCiphertext merchantId;
  if truthy ciphertext then secret ← decryptSecret (nullish ciphertext ""); mret (Some secret)
  else
    let envSecret := config ("HMAC_SECRET_" +:+ Str.toUpperCase merchantId) in
    mret (if truthy envSecret then envSecret else config "HMAC_SECRET").

Definition getAgentSigningKey (delegationId : option string) : result (option string) :=
  if negb (truthy delegationId) then mret None
  else
    ciphertext ← findSigningKeyCiphertext (nullish delegationId "");
    if negb (truthy ciphertext) then mret None
    else secret ← decryptSecret (nullish ciphertext ""); mret (Some secret).

Definition isAgent (request : SignedRequest) : bool :=
  match sr_user request with Some u => bool_decide (AGENT ∈ us_roles u) | None => false end.

(** The key of the caller. *)
Definition signingKey (request : SignedRequest) : result (option string) :=
  if isAgent request then getAgentSigningKey (sr_user request ≫= us_delegationId) else getMerchantHmacSecret (nullish (sr_merchantId request) "").

Definition canActivate (now : Date) (request : SignedRequest) : result bool :=
  if sr_skipHmac request then mret true
  else if negb (truthy (sr_signature request)) || negb (truthy (sr_timestamp request)) || (negb (isAgent request) && negb (truthy (sr_merchantId request)))
  then Throw (unauthorized "MISSING_SIGNATURE_HEADERS")
  else
    let timestamp := nullish (sr_timestamp request) "" in
    _ ← assertTimestampFresh now timestamp;
    secret ← signingKey request;
    if negb (truthy secret) then Throw (unauthorized (if isAgent request then "DELEGATION_SIGNING_KEY_MISSING" else "UNKNOWN_MERCHANT"))
    else
      let secret := nullish secret "" in
      if (String.length secret <? 32)%nat then Throw (unauthorized "HMAC_KEY_MISCONFIGURED")
      else
        _ ← assertSignatureMatches request (nullish (sr_signature request) "") timestamp secret;
        mret true.
End guard.
End HmacSignatureGuard.

(** ** Webhooks with a timestamped signature *)

(** One scheme, four guards: header [t=<seconds>,v1=<hex>], payload
    [<seconds>.<body>]. *)
Definition toleranceSeconds : Z := 5 * 60.

(** [header.split(',').reduce(...)]: of equal keys the last counts. *)
Definition headerParts (header : string) : list (string * string) :=
  omap (λ part, match split "=" part with key :: value :: _ => if truthy (Some key) && truthy (Some value) then Some (key, value) else None | _ => None end)
    (split "," header).

Definition lastPart (key : string) (parts : list (string * string)) : option string :=
  snd <$> last (List.filter (λ p, String.eqb (fst p) key) parts).

Definition verifyWebhook (now : Date) (header secret rawBody : option string) : result bool :=
  if negb (truthy header) then Throw (unauthorized "MISSING_SIGNATURE")
  else if negb (truthy secret) then Throw (unauthorized "WEBHOOK_MISCONFIGURED")
  else
    match rawBody with
    | None => Throw (unauthorized "MISSING_RAW_BODY")
    | Some body =>
        let parts := headerParts (nullish header "") in
        match lastPart "t" parts, lastPart "v1" parts with
        | Some timestamp, Some providedSignature =>
            let requestTime := requestTime timestamp in
            if negb (isFinite requestTime) || drifted now requestTime (toleranceSeconds * 1000) then Throw (unauthorized "TIMESTAMP_DRIFT_EXCEEDED")
            else
              let expectedSignature := hexDigest (nullish secret "") (timestamp +:+ "." +:+ body) in
              if buffersEqual (fromHex expectedSignature) (fromHex providedSignature) then mret true else Throw (unauthorized "INVALID_SIGNATURE")
        | _, _ => Throw (unauthorized "INVALID_SIGNATURE_HEADER")
        end
    end.

(** What the guards read of a request. *)
Record WebhookRequest := mkWebhookRequest { wr_header : string → option string; wr_rawBody : option string }.

Section webhooks.
Context `{SignaturePorts}.

Definition StripeWebhookGuard_canActivate (now : Date) (r : WebhookRequest) : result bool :=
  verifyWebhook now (wr_header r "stripe-signature") (config "STRIPE_WEBHOOK_SECRET") (wr_rawBody r).

Definition BankTransferWebhookGuard_canActivate (now : Date) (r : WebhookRequest) : result bool :=
  verifyWebhook now (wr_header r "x-bank-transfer-signature") (config "BANK_TRANSFER_WEBHOOK_SECRET") (wr_rawBody r).

Definition KycWebhookGuard_canActivate (now : Date) (r : WebhookRequest) : result bool :=
  verifyWebhook now (wr_header r "x-kyc-signature") (config "KYC_WEBHOOK_SECRET") (wr_rawBody r).

Definition KybWebhookGuard_canActivate (now : Date) (r : WebhookRequest) : result bool :=
  verifyWebhook now (wr_header r "x-kyb-signature") (config "KYB_WEBHOOK_SECRET") (wr_rawBody r).
End webhooks.

(** The header of an outgoing notification. *)
Definition signOmniSwitchPayload (now : Date) (secret bodyStr : string) : string :=
  let timestamp := pretty (now / 1000) in
  let signature := hexDigest secret (timestamp +:+ "." +:+ bodyStr) in
  "t=" +:+ timestamp +:+ ",v1=" +:+ signature.

(** ** Adyen ([adyen-webhook.guard.ts]) *)

Module AdyenWebhookGuard.

(** Amounts are whole numbers of minor units. *)
Record AdyenNotificationRequestItem := mkItem {
  pspReference : option string;
  originalReference : option string;
  merchantAccountCode : option string;
  merchantReference : option string;
  amountValue : option Z;
  amountCurrency : option string;
  eventCode : option string;
  success : option string;
  hmacSignature : option string }.

(** [value.replace(/c/g, by)] *)
Fixpoint replaceAll (c : ascii) (by_ : string) (s : string) : string :=
  match s with EmptyString => EmptyString | String d s => if bool_decide (d = c) then by_ +:+ replaceAll c by_ s else String d (replaceAll c by_ s) end.

Definition backslash : ascii := "092"%char.

Definition escape (value : string) : string :=
  replaceAll ":" (String backslash ":") (replaceAll backslash (String backslash (String backslash "")) value).

Definition signedFields (item : AdyenNotificationRequestItem) : list string :=
  [nullish (pspReference item) ""; nullish (originalReference item) ""; nullish (merchantAccountCode item) ""; nullish (merchantReference item) "";
   match amountValue item with Some n => pretty n | None => "" end; nullish (amountCurrency item) ""; nullish (eventCode item) ""; nullish (success item) ""]%string.

Definition buildSigningString (item : AdyenNotificationRequestItem) : string := String.concat ":" (escape <$> signedFields item).

Section guard.
Context `{SignaturePorts}.

(** One item; [None] where the wrapper has none. *)
Definition checkItem (hmacKey : string) (item : option AdyenNotificationRequestItem) : result unit :=
  match item with
  | Some item =>
      if negb (truthy (hmacSignature item)) then Throw (unauthorized "MISSING_SIGNATURE")
      else
        let expectedSignature := toBase64 (hmacSha256 hmacKey (buildSigningString item)) in
        throw_if (negb (buffersEqual (fromBase64 expectedSignature) (fromBase64 (nullish (hmacSignature item) "")))) (unauthorized "INVALID_SIGNATURE")
  | None => Throw (unauthorized "MISSING_SIGNATURE")
  end.

Fixpoint checkItems (hmacKey : string) (items : list (option AdyenNotificationRequestItem)) : result unit :=
  match items with [] => mret tt | i :: items => _ ← checkItem hmacKey i; checkItems hmacKey items end.

(** [items]: [request.body?.notificationItems], [None] where that is no array. *)
Definition canActivate (items : option (list (option AdyenNotificationRequestItem))) : result bool :=
  let hmacKeyHex := config "ADYEN_HMAC_KEY" in
  if negb (truthy hmacKeyHex) then Throw (unauthorized "WEBHOOK_MISCONFIGURED")
  else
    match items with
    | None | Some [] => Throw (HttpException 400 "INVALID_PAYLOAD")
    | Some items => _ ← checkItems (fromHex (nullish hmacKeyHex "")) items; mret true
    end.
End guard.
End AdyenWebhookGuard.
