(* ===== verification/SignatureCorrect.v ===== *)
(** * Signed requests and webhooks: proofs

    The window of a timestamp, computed in doubles, is exact ([timestamp_exact]); what a
    signed request must have to pass ([signature_guard_exact]) and what its signature
    binds ([signature_binds_request]); a notification passes the scheme it is signed with
    ([webhook_signature_roundtrip]); Adyen's escaped fields are read back one way only
    ([adyen_signature_binds]). *)

From stdpp Require Import pretty.
From S2P Require Import Prelude JsNumber Money Policies Merchant Redis Decimal Program Sanctions Accounts Crypto Auth Signature.

(** ** Timestamps *)

Lemma mk_opp n d : 0 < d → Num.mk (- n) d = Num.opp (Num.mk n d).
Proof.
  intros Hd. assert (Num.rnd (- n) d = - Num.rnd n d) as E.
  { unfold Num.rnd. destruct (Z.ltb_spec (- n) 0), (Z.ltb_spec n 0); try lia; rewrite ?Z.opp_involutive; try done.
    assert (n = 0) as -> by lia. rewrite Z.opp_0, Num.rnd_pos_0 by done. done. }
  unfold Num.mk. cbv zeta. rewrite E. assert (0 < Num.overflow) by (apply Num.pow2_pos; lia).
  destruct (Z.leb_spec Num.overflow (- Num.rnd n d)), (Z.leb_spec (- Num.rnd n d) (- Num.overflow)), (Z.leb_spec Num.overflow (Num.rnd n d)),
    (Z.leb_spec (Num.rnd n d) (- Num.overflow)); (lia || done).
Qed.

(** Integers of up to 53 bits are exact. *)
Lemma mk_exact m d : 0 < d → Z.abs m ≤ 2 ^ 53 → Num.mk (m * Num.one * d) d = Fin (m * Num.one).
Proof.
  intros Hd. assert (∀ m, 0 ≤ m ≤ 2 ^ 53 → Num.mk (m * Num.one * d) d = Fin (m * Num.one)) as Hpos.
  { clear m. intros m Hm. pose proof Num.one_pos. rewrite (Num.mk_bounded _ _ m) by nia. f_equal. apply Num.rnd_pos_exact; [done|by apply Num.repr_int|nia]. }
  intros Hm. destruct (Z.leb_spec 0 m); [apply Hpos; lia|]. replace (m * Num.one * d) with (- ((- m) * Num.one * d)) by lia. rewrite mk_opp, Hpos by lia. cbn. f_equal. lia.
Qed.

Lemma of_bigint_exact m : Z.abs m ≤ 2 ^ 53 → Num.of_bigint m = Fin (m * Num.one).
Proof. intros Hm. unfold Num.of_bigint, Num.lit. rewrite <- (Z.mul_1_r (m * Num.one)) at 1. by apply mk_exact. Qed.

Definition at_least (x : number) (b : Z) : Prop := x = PosInf ∨ ∃ k, x = Fin k ∧ b ≤ k.

Lemma mk_at_least n d b : 0 < d → Num.repr b → 0 ≤ b → b * d ≤ n → at_least (Num.mk n d) b.
Proof.
  intros Hd Hr Hb Hle. pose proof (Num.rnd_pos_ge n d b Hd Hr Hb Hle) as Hge. unfold Num.mk, Num.rnd. rewrite (proj2 (Z.ltb_ge n 0)) by nia. cbv zeta.
  destruct (Z.leb_spec Num.overflow (Num.rnd_pos n d)); [by left|]. assert (0 < Num.overflow) by (apply Num.pow2_pos; lia).
  rewrite (proj2 (Z.leb_gt _ _)) by lia. right. by eexists.
Qed.

(** A number of seconds beyond the range of all clocks, in milliseconds. *)
Lemma far_millis n : 2 ^ 34 ≤ n → at_least (Num.mul (Num.of_bigint n) (Num.of_bigint 1000)) (1000 * 2 ^ 34 * Num.one).
Proof.
  intros Hn. pose proof Num.one_pos. rewrite (of_bigint_exact 1000) by lia. assert (at_least (Num.of_bigint n) (2 ^ 34 * Num.one)) as [->|(k & -> & Hk)].
  { apply mk_at_least; [lia|by apply Num.repr_int|lia|nia]. }
  - left. cbn [Num.mul]. assert (0 < 1000 * Num.one) as Hp by lia. by destruct (1000 * Num.one).
  - cbn [Num.mul]. apply mk_at_least; [done| |lia|nia]. apply Num.repr_int. lia.
Qed.

Lemma abs_sub_far now x b : 0 ≤ now ≤ 2 ^ 43 → 2 ^ 43 + b ≤ 1000 * 2 ^ 34 → 0 ≤ b ≤ 2 ^ 53 → at_least x (1000 * 2 ^ 34 * Num.one) →
  at_least (abs (Num.sub (Num.of_bigint now) x)) (b * Num.one) ∧ at_least (abs (Num.sub (Num.of_bigint now) (Num.opp x))) (b * Num.one).
Proof.
  intros Hnow Hb1 Hb Hx. pose proof Num.one_pos. rewrite (of_bigint_exact now) by lia. destruct Hx as [->|(k & -> & Hk)]; [by split; left|]. unfold Num.sub. cbn [Num.opp Num.add].
  assert (∀ m, b * Num.one ≤ m → at_least (abs (Num.mk m 1)) (b * Num.one)) as Habs.
  { intros m Hm. destruct (mk_at_least m 1 (b * Num.one)) as [->|(j & -> & Hj)]; [lia|apply Num.repr_int; lia|nia|lia|by left|]. right. exists (Z.abs j). split; [done|lia]. }
  split; [|apply Habs; nia]. replace (now * Num.one + - k) with (- (k - now * Num.one)) by lia. rewrite mk_opp by lia.
  assert (∀ y, abs (Num.opp y) = abs y) as ->; [|apply Habs; nia]. intros []; cbn; try done. by rewrite Z.abs_opp.
Qed.

(** The check of a parsed timestamp is that of exact arithmetic. *)
Lemma timestamp_exact now n maxMs : 0 ≤ now ≤ 2 ^ 43 → 0 ≤ maxMs ≤ 2 ^ 42 →
  let x := Num.mul (Num.of_bigint n) (Num.of_bigint 1000) in
  isFinite x && negb (drifted now x maxMs) = (Z.abs (now - 1000 * n) <=? maxMs).
Proof.
  intros Hnow Hmax. cbv zeta. pose proof Num.one_pos as Hone. unfold drifted, Num.gtb. rewrite (of_bigint_exact maxMs) by lia.
  assert (∀ y, at_least y ((maxMs + 1) * Num.one) → Num.ltb (Fin (maxMs * Num.one)) y = true) as Hfar.
  { intros y [->|(k & -> & Hk)]; [done|]. unfold Num.ltb, Num.compare. destruct (Z.compare_spec (maxMs * Num.one) k); [nia|done|nia]. }
  destruct (Z.ltb_spec (Z.abs n) (2 ^ 34)) as [Hs|Hbig].
  - rewrite !of_bigint_exact by lia. cbn [Num.mul]. replace (n * Num.one * (1000 * Num.one)) with (1000 * n * Num.one * Num.one) by lia.
    rewrite mk_exact by lia. unfold Num.sub. cbn [isFinite andb Num.opp Num.add]. replace (now * Num.one + - (1000 * n * Num.one)) with ((now - 1000 * n) * Num.one * 1) by lia.
    rewrite mk_exact by lia. cbn [abs]. rewrite Z.abs_mul, (Z.abs_eq Num.one) by lia. unfold Num.ltb, Num.compare.
    destruct (Z.compare_spec (maxMs * Num.one) (Z.abs (now - 1000 * n) * Num.one)), (Z.leb_spec (Z.abs (now - 1000 * n)) maxMs); cbn; (done || nia).
  - rewrite (proj2 (Z.leb_gt _ _)) by lia. destruct (Z.ltb_spec 0 n) as [Hp|Hn].
    + pose proof (far_millis n ltac:(lia)) as Hx. destruct (abs_sub_far now _ (maxMs + 1) Hnow ltac:(lia) ltac:(lia) Hx) as [H1 _]. by rewrite (Hfar _ H1), andb_false_r.
    + pose proof (far_millis (- n) ltac:(lia)) as Hx. destruct (abs_sub_far now _ (maxMs + 1) Hnow ltac:(lia) ltac:(lia) Hx) as [_ H1].
      assert (Num.mul (Num.of_bigint n) (Num.of_bigint 1000) = Num.opp (Num.mul (Num.of_bigint (- n)) (Num.of_bigint 1000))) as ->; [|by rewrite (Hfar _ H1), andb_false_r].
      replace (Num.of_bigint n) with (Num.opp (Num.of_bigint (- n))). 2: { unfold Num.of_bigint, Num.lit. rewrite <- mk_opp by lia. f_equal. lia. }
      rewrite (of_bigint_exact 1000) by lia. destruct (Num.of_bigint (- n)) as [| | |k]; cbn [Num.opp Num.mul]; [done| | |].
      * by destruct (1000 * Num.one).
      * by destruct (1000 * Num.one).
      * rewrite <- mk_opp by done. f_equal. lia.
Qed.

Lemma requestTime_exact now ts maxMs : 0 ≤ now ≤ 2 ^ 43 → 0 ≤ maxMs ≤ 2 ^ 42 →
  isFinite (requestTime ts) && negb (drifted now (requestTime ts) maxMs) = true ↔ ∃ n, parseInt10 ts = Some n ∧ Z.abs (now - 1000 * n) ≤ maxMs.
Proof.
  intros Hnow Hmax. unfold requestTime. destruct (parseInt10 ts) as [n|]; [|split; [done|by intros (n & ? & _)]].
  rewrite (timestamp_exact now n maxMs Hnow Hmax), Z.leb_le. split; [by intros H; exists n|by intros (n' & [= <-] & H)].
Qed.

(** ** Signed requests *)

Lemma buffersEqual_eq a b : buffersEqual a b = true ↔ a = b.
Proof.
  unfold buffersEqual. rewrite andb_true_iff, String.eqb_eq. split; [by intros [_ ?]|]. intros ->. by rewrite Nat.eqb_refl.
Qed.

Lemma truthy_nonempty o : truthy o = true → ∃ s, o = Some s ∧ s ≠ ""%string.
Proof. destruct o as [s|]; cbn; [|done]. intros H. exists s. split; [done|]. by intros ->. Qed.

Lemma truthy_ne s : s ≠ ""%string → truthy (Some s) = true.
Proof. intros Hs. cbn. by destruct (String.eqb_spec s ""). Qed.

Module SignedRequests.
Import HmacSignatureGuard.
Section guard.
Context `{SignaturePorts}.

Lemma fresh_exact now ts : 0 ≤ now ≤ 2 ^ 43 → assertTimestampFresh now ts = Ok tt ↔ ∃ n, parseInt10 ts = Some n ∧ Z.abs (now - 1000 * n) ≤ 300000.
Proof.
  intros Hnow. rewrite <- (requestTime_exact now ts 300000 Hnow) by lia. unfold assertTimestampFresh. cbv zeta.
  destruct (isFinite (requestTime ts)); cbn [negb andb]; [|split; discriminate].
  change maxTimestampDriftMs with 300000. rewrite throw_if_ok, negb_true_iff. reflexivity.
Qed.

Lemma matches_exact r signature ts secret :
  assertSignatureMatches r signature ts secret = Ok tt ↔ fromHex signature = hmacSha256 secret (signedPayload r ts).
Proof.
  unfold assertSignatureMatches, hexDigest. cbv zeta. rewrite throw_if_ok, negb_false_iff, buffersEqual_eq, fromHex_toHex. done.
Qed.

(** What a request must carry. *)
Definition wellSigned (now : Date) (r : SignedRequest) (signature timestamp secret : string) : Prop :=
  sr_signature r = Some signature ∧ signature ≠ ""%string ∧ sr_timestamp r = Some timestamp ∧ timestamp ≠ ""%string
  ∧ (isAgent r = true ∨ truthy (sr_merchantId r) = true)
  ∧ (∃ n, parseInt10 timestamp = Some n ∧ Z.abs (now - 1000 * n) ≤ 300000)
  ∧ signingKey r = Ok (Some secret) ∧ (32 ≤ String.length secret)%nat
  ∧ fromHex signature = hmacSha256 secret (signedPayload r timestamp).

Lemma guard_passes now r : 0 ≤ now ≤ 2 ^ 43 → sr_skipHmac r = false → canActivate now r = Ok true ↔ ∃ signature timestamp secret, wellSigned now r signature timestamp secret.
Proof.
  intros Hnow Hskip. unfold canActivate. rewrite Hskip. assert (∀ n, (n <? 32)%nat = negb (32 <=? n)%nat) as Hlt by (intros; apply Nat.ltb_antisym). split.
  - destruct (truthy (sr_signature r)) eqn:E1; [|done]. destruct (truthy (sr_timestamp r)) eqn:E2; [|done]. cbn [negb orb].
    destruct (truthy_nonempty _ E1) as (sg & Hsg & Hsg0). destruct (truthy_nonempty _ E2) as (ts & Hts & Hts0).
    destruct (negb (isAgent r) && negb (truthy (sr_merchantId r))) eqn:E3; [done|]. rewrite Hsg, Hts. cbv zeta. cbn [nullish].
    destruct (assertTimestampFresh now ts) as [[]|e] eqn:Ef; cbn [mbind result_bind]; [|done]. destruct (signingKey r) as [[secret|]|e] eqn:Ek; cbn [mbind result_bind]; [|done..].
    destruct (truthy (Some secret)); [|done]. cbn [negb nullish]. rewrite Hlt. destruct (Nat.leb_spec 32 (String.length secret)) as [Hlen|]; [|done].
    cbn [negb]. destruct (assertSignatureMatches r sg ts secret) as [[]|e] eqn:Em; cbn [mbind result_bind]; [|done]. intros _.
    exists sg, ts, secret. split_and!; try done; [|by apply fresh_exact|by apply matches_exact].
    destruct (isAgent r); [by left|]. right. by destruct (truthy (sr_merchantId r)).
  - intros (sg & ts & secret & Hsg & Hsg0 & Hts & Hts0 & Hid & Hfresh & Hkey & Hlen & Hm). rewrite Hsg, Hts, !truthy_ne by done. cbn [negb orb].
    assert (negb (isAgent r) && negb (truthy (sr_merchantId r)) = false) as -> by by destruct Hid as [-> | ->]; rewrite ?andb_false_r.
    cbv zeta. cbn [nullish]. rewrite (proj2 (fresh_exact now ts Hnow) Hfresh). cbn [mbind result_bind]. rewrite Hkey. cbn [mbind result_bind].
    rewrite truthy_ne by (intros ->; cbn in Hlen; lia). cbn [negb nullish]. rewrite Hlt, (proj2 (Nat.leb_le _ _) Hlen). cbn [negb].
    by rewrite (proj2 (matches_exact r sg ts secret) Hm).
Qed.

(** The codes a refusal can have. *)
Definition refusals : list string :=
  ["MISSING_SIGNATURE_HEADERS"; "INVALID_TIMESTAMP"; "TIMESTAMP_DRIFT_EXCEEDED"; "DELEGATION_SIGNING_KEY_MISSING"; "UNKNOWN_MERCHANT"; "HMAC_KEY_MISCONFIGURED";
   "INVALID_SIGNATURE"]%string.

(** Whose key it is: that of the delegation in an agent's token; for everyone else the
    stored secret of the merchant the header names, or, when none is stored (the merchant
    may not exist), its own variable of the environment or the global one. *)
Definition checkedKey (r : SignedRequest) (secret : string) : Prop :=
  if isAgent r then
    ∃ did ciphertext, sr_user r ≫= us_delegationId = Some did ∧ did ≠ ""%string
      ∧ findSigningKeyCiphertext did = Ok (Some ciphertext) ∧ ciphertext ≠ ""%string ∧ decryptSecret ciphertext = Ok secret
  else
    let merchant := nullish (sr_merchantId r) "" in
    (∃ ciphertext, findHmacCiphertext merchant = Ok (Some ciphertext) ∧ ciphertext ≠ ""%string ∧ decryptSecret ciphertext = Ok secret)
    ∨ ((findHmacCiphertext merchant = Ok None ∨ findHmacCiphertext merchant = Ok (Some ""%string))
       ∧ let own := config ("HMAC_SECRET_" +:+ Str.toUpperCase merchant) in
         (own = Some secret ∧ secret ≠ ""%string) ∨ ((own = None ∨ own = Some ""%string) ∧ config "HMAC_SECRET" = Some secret)).

Lemma truthy_cases (o : option string) : (truthy o = false ∧ (o = None ∨ o = Some ""%string)) ∨ ∃ x, o = Some x ∧ x ≠ ""%string ∧ truthy o = true.
Proof. destruct o as [x|]; [|by left; auto]. destruct (decide (x = ""%string)) as [->|Hx]; [by left; auto|]. right. exists x. by rewrite truthy_ne. Qed.

Lemma signingKey_exact r secret : signingKey r = Ok (Some secret) ↔ checkedKey r secret.
Proof.
  unfold signingKey, checkedKey. destruct (isAgent r).
  - unfold getAgentSigningKey. destruct (truthy_cases (sr_user r ≫= us_delegationId)) as [[-> Hd]|(did & -> & Hd & ->)]; cbn [negb nullish].
    { split; [done|]. intros (did & ct & E & Hne & _). destruct Hd; congruence. }
    destruct (findSigningKeyCiphertext did) as [ct|e] eqn:Ef; cbn [mbind result_bind]; [|split; [done|]; intros (? & ? & [= <-] & _ & ? & _); congruence].
    destruct (truthy_cases ct) as [[-> Hc]|(c & -> & Hc & ->)]; cbn [negb nullish].
    { split; [done|]. intros (? & c & [= <-] & _ & E & Hne & _). destruct Hc; congruence. }
    split.
    + intros (x & Hx & [= ->])%bind_ok_iff. by exists did, c.
    + intros (? & ? & [= <-] & _ & E & _ & Hdec). rewrite Ef in E. injection E as <-. by rewrite Hdec.
  - unfold getMerchantHmacSecret. cbv zeta. set (m := nullish (sr_merchantId r) ""). set (own := config _).
    destruct (findHmacCiphertext m) as [ct|e]; cbn [mbind result_bind];
      [|split; [done|]; intros [(? & ? & _)|[[?|?] _]]; congruence].
    destruct (truthy_cases ct) as [[-> Hc]|(c & -> & Hc & ->)]; cbn [nullish].
    + assert ((∃ c, Ok ct = Ok (Some c) ∧ c ≠ ""%string ∧ decryptSecret c = Ok secret) ↔ False) as Hno
        by (split; [intros (c & E & Hne & _); destruct Hc; congruence|done]).
      destruct (truthy_cases own) as [[-> Ho]|(x & -> & Hx & ->)]; cbn [mret]; split.
      * intros [= E]. right. split; [destruct Hc as [-> | ->]; auto|]. right. by rewrite E.
      * intros [Hf|[_ [[E Hne]|[_ E]]]]; [by apply Hno in Hf| |by rewrite E]. destruct Ho; congruence.
      * intros [= ->]. right. split; [destruct Hc as [-> | ->]; auto|]. by left.
      * intros [Hf|[_ [[E Hne]|[[E|E] _]]]]; [by apply Hno in Hf|by injection E as ->|congruence..].
    + split.
      * intros (x & Hx & [= ->])%bind_ok_iff. left. by exists c.
      * intros [(? & [= <-] & _ & Hdec)|[[?|?] _]]; [by rewrite Hdec|congruence..].
Qed.

(** A lookup that fails is passed on, unless the request is refused before. *)
Lemma guard_lookup_fails now r e : signingKey r = Throw e →
  sr_skipHmac r = false → canActivate now r = Throw e ∨ ∃ code, code ∈ refusals ∧ canActivate now r = Throw (HttpException 401 code).
Proof.
  intros Hk Hskip.
  assert (∀ code, bool_decide (code ∈ refusals) = true → ∃ code', code' ∈ refusals ∧ (Throw (unauthorized code) : result bool) = Throw (HttpException 401 code')) as Hcode.
  { intros code Hc%bool_decide_eq_true. by exists code. }
  unfold canActivate. rewrite Hskip. case_match; [right; by apply Hcode|]. unfold assertTimestampFresh. cbv zeta.
  destruct (isFinite _); cbn [negb]; [|right; by apply Hcode]. destruct (drifted _ _ _); cbn [throw_if mbind result_bind]; [right; by apply Hcode|].
  rewrite Hk. by left.
Qed.

Lemma guard_refusal now r : (∃ o, signingKey r = Ok o) → canActivate now r = Ok true ∨ ∃ code, code ∈ refusals ∧ canActivate now r = Throw (HttpException 401 code).
Proof.
  intros (o & Hk).
  assert (∀ code, bool_decide (code ∈ refusals) = true → ∃ code', code' ∈ refusals ∧ (Throw (unauthorized code) : result bool) = Throw (HttpException 401 code')) as Hcode.
  { intros code Hc%bool_decide_eq_true. by exists code. }
  unfold canActivate. case_match; [by left|]. case_match; [right; by apply Hcode|]. unfold assertTimestampFresh, assertSignatureMatches. cbv zeta.
  destruct (isFinite _); cbn [negb]; [|right; by apply Hcode]. destruct (drifted _ _ _); cbn [throw_if mbind result_bind]; [right; by apply Hcode|]. rewrite Hk. cbn [mbind result_bind].
  destruct (truthy o); cbn [negb]; [|right; destruct (isAgent r); by apply Hcode]. destruct (_ <? 32)%nat; [right; by apply Hcode|].
  destruct (negb (buffersEqual _ _)); cbn [throw_if mbind result_bind]; [right; by apply Hcode|by left].
Qed.
End guard.
End SignedRequests.
Export SignedRequests.


(** ** What a signature binds *)

Definition free (sep : ascii) (s : string) : bool := all_chars (λ c, negb (bool_decide (c = sep))) s.

Lemma free_cons sep c s : free sep (String c s) = true ↔ c ≠ sep ∧ free sep s = true.
Proof. unfold free. cbn. rewrite andb_true_iff, negb_true_iff, bool_decide_eq_false. done. Qed.

(** The part before the first separator. *)
Lemma first_part sep a a' b b' : free sep a = true → free sep a' = true → a +:+ String sep b = a' +:+ String sep b' → a = a' ∧ b = b'.
Proof.
  revert a'. induction a as [|c a IH]; intros [|c' a']; intros Ha Ha' Heq.
  - by injection Heq.
  - injection Heq as <- _. by apply free_cons in Ha' as [? _].
  - injection Heq as -> _. by apply free_cons in Ha as [? _].
  - injection Heq as -> Heq. apply free_cons in Ha as [_ Ha]. apply free_cons in Ha' as [_ Ha']. destruct (IH a' Ha Ha' Heq) as [-> ->]. done.
Qed.

(** The parts of a request that are signed. *)
Definition requestPath (r : SignedRequest) : string :=
  if truthy (sr_originalUrl r) then nullish (sr_originalUrl r) "" else sr_url r.
Definition signedParts (r : SignedRequest) (timestamp : string) : string * string * string * string :=
  (timestamp, Str.toUpperCase (sr_method r), requestPath r, nullish (sr_rawBody r) "").

(** Nothing but the body has a full stop. *)
Definition undotted (r : SignedRequest) (timestamp : string) : Prop :=
  free "." timestamp = true ∧ free "." (Str.toUpperCase (sr_method r)) = true ∧ free "." (requestPath r) = true.

Lemma payload_injective r r' ts ts' : undotted r ts → undotted r' ts' →
  HmacSignatureGuard.signedPayload r ts = HmacSignatureGuard.signedPayload r' ts' → signedParts r ts = signedParts r' ts'.
Proof.
  intros (H1 & H2 & H3) (H1' & H2' & H3') Heq. unfold HmacSignatureGuard.signedPayload in Heq. cbv zeta in Heq. fold (requestPath r) (requestPath r') in Heq.
  destruct (first_part "." _ _ _ _ H1 H1' Heq) as [E1 Heq1]. destruct (first_part "." _ _ _ _ H2 H2' Heq1) as [E2 Heq2].
  destruct (first_part "." _ _ _ _ H3 H3' Heq2) as [E3 E4]. unfold signedParts. by rewrite E1, E2, E3, E4.
Qed.

(** A signature is good for one request: when two requests pass with the same signature
    under the same key, and only their bodies have full stops, then timestamp, method,
    path and body are the same, or the two payloads are a collision of HMAC-SHA256. *)
Theorem signature_binds_request `{SignaturePorts} now now' r r' signature ts ts' secret :
  wellSigned now r signature ts secret → wellSigned now' r' signature ts' secret → undotted r ts → undotted r' ts' →
  signedParts r ts = signedParts r' ts'
  ∨ (HmacSignatureGuard.signedPayload r ts ≠ HmacSignatureGuard.signedPayload r' ts'
     ∧ hmacSha256 secret (HmacSignatureGuard.signedPayload r ts) = hmacSha256 secret (HmacSignatureGuard.signedPayload r' ts')).
Proof.
  intros (_ & _ & _ & _ & _ & _ & _ & _ & Hm) (_ & _ & _ & _ & _ & _ & _ & _ & Hm') Hu Hu'.
  destruct (decide (HmacSignatureGuard.signedPayload r ts = HmacSignatureGuard.signedPayload r' ts')) as [Heq|Hne].
  - left. by apply payload_injective.
  - right. split; [done|]. by rewrite <- Hm, <- Hm'.
Qed.

(** ** Webhooks *)

Lemma splitOn_free sep a : free sep a = true → splitOn sep a = (a, []).
Proof. induction a as [|c a IH]; [done|]. intros [Hc Ha]%free_cons. cbn [splitOn]. rewrite (IH Ha). by rewrite bool_decide_eq_false_2. Qed.

Lemma splitOn_app sep a b : free sep a = true → splitOn sep (a +:+ String sep b) = (a, split sep b).
Proof.
  unfold split. induction a as [|c a IH]; intros Ha.
  - cbn [String.append splitOn]. change ("" +:+ String sep b) with (String sep b). cbn [splitOn]. destruct (splitOn sep b). by rewrite bool_decide_eq_true_2.
  - apply free_cons in Ha as [Hc Ha]. change (String c a +:+ String sep b) with (String c (a +:+ String sep b)). cbn [splitOn]. rewrite (IH Ha).
    by rewrite bool_decide_eq_false_2.
Qed.

Lemma split_free sep a : free sep a = true → split sep a = [a].
Proof. intros Ha. unfold split. by rewrite splitOn_free. Qed.

Lemma split_app sep a b : free sep a = true → split sep (a +:+ String sep b) = a :: split sep b.
Proof. intros Ha. unfold split at 1. by rewrite splitOn_app. Qed.

Lemma free_digits sep s : is_digit sep = false → all_chars is_digit s = true → free sep s = true.
Proof.
  intros Hsep. induction s as [|c s IH]; [done|]. cbn. intros [Hc Hs]%andb_true_iff. apply free_cons. split; [|by apply IH]. intros ->. congruence.
Qed.

(** The digits of a number, read back. *)
Lemma pretty_digits n : 0 ≤ n → pretty n ≠ ""%string ∧ all_chars is_digit (pretty n) = true ∧ Str.radix_value 10 0 (pretty n) = Some n.
Proof.
  intros Hn. destruct (decide (n = 0)) as [->|Hne]; [done|]. assert (pretty n = pretty_N_go (Z.to_N n) "") as ->.
  { unfold pretty at 1, pretty_Z. destruct n as [|p|p]; [done| |lia]. unfold pretty, pretty_positive, pretty, pretty_N. by rewrite decide_False by done. }
  assert (Str.radix_value 10 0 (pretty_N_go (Z.to_N n) "") = Some n) as Hv by (rewrite pretty_go_value; cbn; f_equal; lia).
  split_and!; [|by apply pretty_go_digits|done]. intros Heq. rewrite Heq in Hv. cbn in Hv. injection Hv as Hv. lia.
Qed.

Lemma digits_value acc k s v : all_chars is_digit s = true → Str.radix_value 10 acc s = Some v → Str.digits acc k s = (v, k + Z.of_nat (String.length s), EmptyString).
Proof.
  revert acc k. induction s as [|c s IH]; intros acc k Hd Hv; cbn in Hv |- *; [injection Hv as ->; f_equal; f_equal; lia|]. cbn in Hd. apply andb_true_iff in Hd as [Hc Hd].
  unfold is_digit in Hc. apply andb_true_iff in Hc as [H1%N.leb_le H2%N.leb_le]. unfold Str.digit_value in Hv. cbv zeta in Hv.
  rewrite (proj2 (Z.leb_le 48 (Z.of_N (N_of_ascii c)))), (proj2 (Z.leb_le (Z.of_N (N_of_ascii c)) 57)) in Hv by lia. cbn [andb] in Hv.
  rewrite (proj2 (Z.ltb_lt _ 10)) in Hv by lia. rewrite (proj2 (Z.leb_le 0 _)), (proj2 (Z.leb_le _ 9)) by lia. cbn [andb]. rewrite (IH _ _ Hd Hv).
  f_equal. f_equal. cbn. lia.
Qed.

Lemma parseInt10_pretty n : 0 ≤ n → parseInt10 (pretty n) = Some n.
Proof.
  intros Hn. destruct (pretty_digits n Hn) as (Hne & Hd & Hv). unfold parseInt10. set (s := pretty n) in *. clearbody s.
  assert (Str.sign (Str.trimStart s) = (1, s)) as ->.
  { destruct s as [|c s]; [done|]. cbn in Hd. apply andb_true_iff in Hd as [Hc _]. cbn. rewrite digit_not_space by done.
    unfold Str.sign. destruct c as [[] [] [] [] [] [] [] []]; done. }
  rewrite (digits_value 0 0 s n Hd Hv). destruct s as [|c s]; [done|]. cbn [String.length]. destruct (Z.eqb_spec (0 + Z.of_nat (S (String.length s))) 0); [lia|]. f_equal. lia.
Qed.

(** A digest has 32 bytes. *)
Lemma round_length s kw : length (Sha256.round s kw) = length s.
Proof. unfold Sha256.round. by repeat (case_match; try done). Qed.

Lemma compress_length s block : length s = 8%nat → length (Sha256.compress s block) = 8%nat.
Proof.
  intros Hs. unfold Sha256.compress. rewrite length_zip_with. assert (∀ l, length (foldl Sha256.round s l) = length s) as Hl; [|rewrite Hl; lia].
  intros l. revert s Hs. induction l as [|kw l IH]; intros s Hs; [done|]. cbn. rewrite IH; [apply round_length|by rewrite round_length].
Qed.

Lemma blocks_length fuel s l : length s = 8%nat → length (Sha256.blocks fuel s l) = 8%nat.
Proof. revert s l. induction fuel as [|fuel IH]; intros s [|b l] Hs; try done. apply IH. by apply compress_length. Qed.

Lemma hmac_nonempty key data : hmacSha256 key data ≠ ""%string.
Proof.
  unfold hmacSha256, Sha256.digest. cbv zeta. set (ws := Sha256.blocks _ _ _). assert (length ws = 8%nat) as Hl by by apply blocks_length. clearbody ws.
  by destruct ws as [|w ws].
Qed.

Lemma toHex_free sep s : hexValue sep = None → free sep (toHex s) = true.
Proof.
  intros Hsep. assert (∀ n, (n < 16)%N → hexDigit n ≠ sep) as Hd.
  { intros n Hn <-. assert (∀ m, (m < 16)%nat → hexValue (hexDigit (N.of_nat m)) ≠ None) as H by (intros m Hm; do 16 (destruct m as [|m]; [done|]); lia).
    apply (H (N.to_nat n)); [lia|]. by rewrite N2Nat.id. }
  induction s as [|c s IH]; [done|]. cbn [toHex]. pose proof (ascii_bounded c). rewrite !free_cons. split_and!; [| |done]; apply Hd; zify; Z.to_euclidean_division_equations; lia.
Qed.

Lemma notification_parts now secret body : 0 ≤ now →
  headerParts (signOmniSwitchPayload now secret body) = [("t"%string, pretty (now / 1000)); ("v1"%string, hexDigest secret (pretty (now / 1000) +:+ "." +:+ body))].
Proof.
  intros Hnow. destruct (pretty_digits (now / 1000)) as (Hne & Hd & _); [by apply Z.div_pos|]. unfold signOmniSwitchPayload. set (ts := pretty (now / 1000)) in *. cbv zeta.
  set (hex := hexDigest secret _). assert (free "," hex = true ∧ free "=" hex = true) as [Hc He] by by split; apply toHex_free.
  assert (hex ≠ ""%string) as Hh. { unfold hex, hexDigest. pose proof (hmac_nonempty secret (ts +:+ "." +:+ body)) as Hn. by destruct (hmacSha256 secret (ts +:+ "." +:+ body)). }
  clearbody hex ts. pose proof (free_digits "," ts eq_refl Hd) as Htc. pose proof (free_digits "=" ts eq_refl Hd) as Hte. unfold headerParts.
  change ("t=" +:+ ts +:+ ",v1=" +:+ hex) with (("t=" +:+ ts) +:+ String "," ("v1=" +:+ hex)).
  rewrite split_app by by apply free_cons; split; [|apply free_cons]. rewrite split_free by (do 3 (apply free_cons; split; [done|]); done).
  assert (split "=" ("t=" +:+ ts) = ["t"; ts]%string) as E1 by (change ("t=" +:+ ts) with ("t" +:+ String "=" ts); rewrite split_app, split_free; done).
  assert (split "=" ("v1=" +:+ hex) = ["v1"; hex]%string) as E2 by (change ("v1=" +:+ hex) with ("v1" +:+ String "=" hex); rewrite split_app, split_free; done).
  cbn [omap list_omap]. rewrite E1, E2, (truthy_ne ts), (truthy_ne hex) by done. done.
Qed.

(** C34: notifications verify: whatever is signed for a notification passes the check of the
    webhook guards under the same secret, for the same body, at every instant within five
    minutes of the second it was signed in. *)
Theorem webhook_signature_roundtrip now now' secret body :
  secret ≠ ""%string → 0 ≤ now → 0 ≤ now' ≤ 2 ^ 43 → Z.abs (now' - 1000 * (now / 1000)) ≤ 300000 →
  verifyWebhook now' (Some (signOmniSwitchPayload now secret body)) (Some secret) (Some body) = Ok true.
Proof.
  intros Hs Hnow Hnow' Hdrift. unfold verifyWebhook. rewrite (truthy_ne secret Hs), truthy_ne by done. cbn [negb nullish].
  rewrite notification_parts by done. set (ts := pretty (now / 1000)). set (hex := hexDigest secret _).
  change (lastPart "t" [("t"%string, ts); ("v1"%string, hex)]) with (Some ts). change (lastPart "v1" [("t"%string, ts); ("v1"%string, hex)]) with (Some hex). cbv zeta.
  assert (parseInt10 ts = Some (now / 1000)) as Hp by by apply parseInt10_pretty, Z.div_pos.
  pose proof (proj2 (requestTime_exact now' ts 300000 Hnow' ltac:(lia)) ltac:(by exists (now / 1000))) as Ht. apply andb_true_iff in Ht as [Hf Hd%negb_true_iff].
  change (toleranceSeconds * 1000) with 300000. rewrite Hf, Hd. cbn [negb orb]. by rewrite (proj2 (buffersEqual_eq _ _) eq_refl).
Qed.

(** ** Adyen *)

Module Adyen.
Import AdyenWebhookGuard.

Lemma string_app_assoc (a b c : string) : a +:+ (b +:+ c) = (a +:+ b) +:+ c.
Proof. induction a as [|d a IH]; [done|]. change (String d a +:+ (b +:+ c)) with (String d (a +:+ (b +:+ c))). by rewrite IH. Qed.

Lemma replaceAll_app c t a b : replaceAll c t (a +:+ b) = replaceAll c t a +:+ replaceAll c t b.
Proof.
  induction a as [|d a IH]; [done|]. change (String d a +:+ b) with (String d (a +:+ b)). cbn [replaceAll]. rewrite IH. case_bool_decide; [|done].
  by rewrite string_app_assoc.
Qed.

(** The escaped form of one character. *)
Definition escapeChar (c : ascii) : string :=
  if bool_decide (c = backslash) then String backslash (String backslash "") else if bool_decide (c = ":"%char) then String backslash ":" else String c "".

Lemma escape_cons c s : escape (String c s) = escapeChar c +:+ escape s.
Proof.
  unfold escape. cbn [replaceAll]. unfold escapeChar. case_bool_decide as H1.
  - rewrite replaceAll_app. f_equal.
  - cbn [replaceAll]. case_bool_decide as H2; done.
Qed.

(** Up to the first separator that is not escaped, a field is read back one way only. *)
Lemma escape_first a a' b b' : escape a +:+ String ":" b = escape a' +:+ String ":" b' → a = a' ∧ b = b'.
Proof.
  revert a'. induction a as [|c a IH]; intros [|c' a'] Heq; rewrite ?escape_cons in Heq.
  - by injection Heq.
  - exfalso. unfold escapeChar in Heq. repeat case_bool_decide; cbn in Heq; try discriminate Heq. injection Heq as Hc _. congruence.
  - exfalso. unfold escapeChar in Heq. repeat case_bool_decide; cbn in Heq; try discriminate Heq. injection Heq as Hc _. congruence.
  - rewrite <- !string_app_assoc in Heq. assert (c = c' ∧ escape a +:+ String ":" b = escape a' +:+ String ":" b') as [-> Hrest].
    { unfold escapeChar in Heq. destruct (bool_decide_reflect (c = backslash)) as [->|], (bool_decide_reflect (c' = backslash)) as [->|];
        repeat case_bool_decide; simplify_eq; try done; injection Heq as; subst; done. }
    destruct (IH a' Hrest) as [-> ->]. done.
Qed.

Lemma escape_inj a a' : escape a = escape a' → a = a'.
Proof. intros Heq. by apply (escape_first a a' "" ""); rewrite Heq. Qed.

Lemma fields_inj l l' : length l = length l' → String.concat ":" (escape <$> l) = String.concat ":" (escape <$> l') → l = l'.
Proof.
  revert l'. induction l as [|a l IH]; intros [|a' l'] Hlen Heq; [done..|]. injection Hlen as Hlen. destruct l as [|b l], l' as [|b' l']; try discriminate Hlen.
  - by apply escape_inj in Heq as ->.
  - change (escape a +:+ String ":" (String.concat ":" (escape <$> b :: l)) = escape a' +:+ String ":" (String.concat ":" (escape <$> b' :: l'))) in Heq.
    apply escape_first in Heq as [-> Heq]. by rewrite (IH (b' :: l') Hlen Heq).
Qed.

Lemma checkItem_exact key i : checkItem key (Some i) = Ok tt ↔
  ∃ s, hmacSignature i = Some s ∧ s ≠ ""%string ∧ fromBase64 s = hmacSha256 key (buildSigningString i).
Proof.
  unfold checkItem. destruct (truthy (hmacSignature i)) eqn:Et; cbn [negb].
  - destruct (truthy_nonempty _ Et) as (s & Hs & Hne). rewrite Hs. cbv zeta. cbn [nullish]. rewrite throw_if_ok, negb_false_iff, buffersEqual_eq, fromBase64_toBase64.
    split; [intros H; by exists s|by intros (s' & [= <-] & _ & ->)].
  - split; [done|]. intros (s & Hs & Hne & _). by rewrite Hs, truthy_ne in Et.
Qed.
End Adyen.

(** A signature of Adyen is good for one notification: two items that pass with the same
    signature under the same key agree on all eight signed fields, wherever colons and
    backslashes are in them, or their signing strings are a collision of HMAC-SHA256. *)
Theorem adyen_signature_binds key i i' :
  AdyenWebhookGuard.checkItem key (Some i) = Ok tt → AdyenWebhookGuard.checkItem key (Some i') = Ok tt →
  AdyenWebhookGuard.hmacSignature i = AdyenWebhookGuard.hmacSignature i' →
  AdyenWebhookGuard.signedFields i = AdyenWebhookGuard.signedFields i'
  ∨ (AdyenWebhookGuard.buildSigningString i ≠ AdyenWebhookGuard.buildSigningString i'
     ∧ hmacSha256 key (AdyenWebhookGuard.buildSigningString i) = hmacSha256 key (AdyenWebhookGuard.buildSigningString i')).
Proof.
  intros (s & Hs & _ & Hm)%Adyen.checkItem_exact (s' & Hs' & _ & Hm')%Adyen.checkItem_exact Heq.
  destruct (decide (AdyenWebhookGuard.buildSigningString i = AdyenWebhookGuard.buildSigningString i')) as [Hb|Hb].
  - left. by apply Adyen.fields_inj.
  - right. split; [done|]. rewrite <- Hm, <- Hm'. congruence.
Qed.

(** * Signed requests and webhooks: concrete requests

    Witnesses of the theorems on signatures, and requests that pass or fail where one
    would expect the opposite. *)

Definition acme_secret : string := "00112233445566778899aabbccddeeff".
Definition global_secret : string := "ffeeddccbbaa99887766554433221100".

(** Acme has a secret in the database; nobody else is known. *)
#[global] Instance sample_ports : SignaturePorts := {|
  config := λ k, if String.eqb k "HMAC_SECRET" then Some global_secret
                 else if String.eqb k "ADYEN_HMAC_KEY" then Some "your_adyen_webhook_hmac_key_hex_here"%string else None;
  findHmacCiphertext := λ m, Ok (if String.eqb m "acme" then Some "acme-cipher"%string else None);
  findSigningKeyCiphertext := λ _, Ok None;
  decryptSecret := λ c, if String.eqb c "acme-cipher" then Ok acme_secret else Throw (ExternalFailure "vault") |}.

(** 2023-11-14, twelve seconds after the timestamp. *)
Definition at_noon : Date := 1700000012000.

Definition user_of (merchantId : string) : AuthenticatedUser := mkAuthenticatedUser "u" merchantId None [MERCHANT] None None false None.

Definition request (user header method path body secret : string) : SignedRequest :=
  let r := mkSignedRequest false (Some (user_of user)) None (Some "1700000000"%string) (Some header) (Some body) method (Some path) path in
  r {{ sr_signature := Some (hexDigest secret (HmacSignatureGuard.signedPayload r "1700000000")) }}.

Definition charge : SignedRequest := request "acme" "acme" "POST" "/payments/charge" "{}" acme_secret.

Lemma charge_passes : HmacSignatureGuard.canActivate at_noon charge = Ok true.
Proof. vm_compute. reflexivity. Qed.


(** The same request, as a router that keeps no original URL sees it. *)
Definition charge_rewritten : SignedRequest := charge {{ sr_originalUrl := None }}.

Lemma charge_well_signed r : r = charge ∨ r = charge_rewritten →
  wellSigned at_noon r (hexDigest acme_secret "1700000000.POST./payments/charge.{}") "1700000000" acme_secret ∧ undotted r "1700000000".
Proof.
  intros Hr. unfold wellSigned, undotted. destruct Hr as [-> | ->];
    (split_and!; [vm_compute; reflexivity|by vm_compute|reflexivity|done|by right|exists 1700000000; split; [reflexivity|unfold at_noon; lia]|reflexivity|cbn; lia
     |unfold hexDigest; rewrite fromHex_toHex; reflexivity|reflexivity..]).
Qed.

Lemma signature_binds_request_witness :
  signedParts charge "1700000000" = signedParts charge_rewritten "1700000000"
  ∨ (HmacSignatureGuard.signedPayload charge "1700000000" ≠ HmacSignatureGuard.signedPayload charge_rewritten "1700000000"
     ∧ hmacSha256 acme_secret (HmacSignatureGuard.signedPayload charge "1700000000") = hmacSha256 acme_secret (HmacSignatureGuard.signedPayload charge_rewritten "1700000000")).
Proof.
  destruct (charge_well_signed charge (or_introl eq_refl)) as [H1 H2]. destruct (charge_well_signed charge_rewritten (or_intror eq_refl)) as [H3 H4].
  exact (signature_binds_request at_noon at_noon charge charge_rewritten _ "1700000000" "1700000000" acme_secret H1 H3 H2 H4).
Defined.

Lemma webhook_signature_roundtrip_witness :
  verifyWebhook (at_noon + 1000) (Some (signOmniSwitchPayload at_noon "whsec" "{}")) (Some "whsec"%string) (Some "{}"%string) = Ok true.
Proof. apply (webhook_signature_roundtrip at_noon (at_noon + 1000) "whsec" "{}"); [discriminate|unfold at_noon; lia..|vm_compute; discriminate]. Defined.

(** ** Where it falls short *)

(** A full stop in the path moves the border to the body: the signature of a request for
    an amount of 1.5 is good for an amount of 1. *)
Lemma signed_payload_ambiguous :
  let r := request "acme" "acme" "GET" "/payments?amount=1.5" "" acme_secret in
  let r' := r {{ sr_originalUrl := Some "/payments?amount=1"%string; sr_rawBody := Some "5."%string }} in
  HmacSignatureGuard.canActivate at_noon r = Ok true ∧ HmacSignatureGuard.canActivate at_noon r' = Ok true ∧ requestPath r ≠ requestPath r'.
Proof. vm_compute. split_and!; [reflexivity..|discriminate]. Qed.

(** The header names the key, not the token: with a session of another merchant, acme's
    own key signs. *)
Lemma foreign_key_passes : HmacSignatureGuard.canActivate at_noon (request "victim" "acme" "POST" "/payments/charge" "{}" acme_secret) = Ok true.
Proof. vm_compute. reflexivity. Qed.

(** A merchant that does not exist is no unknown merchant: the global secret signs for
    it, and the guard boots only with one. *)
Lemma unknown_merchant_passes : HmacSignatureGuard.canActivate at_noon (request "acme" "nobody" "POST" "/payments/charge" "{}" global_secret) = Ok true.
Proof. vm_compute. reflexivity. Qed.

Lemma no_unknown_merchant `{SignaturePorts} m : HmacSignatureGuard.constructor = Ok tt → HmacSignatureGuard.getMerchantHmacSecret m ≠ Ok None.
Proof.
  unfold HmacSignatureGuard.constructor, HmacSignatureGuard.getMerchantHmacSecret. rewrite throw_if_ok. intros Hb%orb_false_iff. destruct Hb as [Hb%negb_false_iff _].
  destruct (truthy_nonempty _ Hb) as (s & Hs & _). destruct (findHmacCiphertext m) as [ct|]; cbn [mbind result_bind]; [|discriminate].
  destruct (truthy ct); [by destruct (decryptSecret (nullish ct ""))|]. cbv zeta. rewrite Hs.
  destruct (config ("HMAC_SECRET_" +:+ Str.toUpperCase m)) as [e|]; cbn; [by destruct (negb (String.eqb e ""))|done].
Qed.

(** The placeholder of the sample configuration is no hexadecimal number, so the key of
    Adyen's notifications is empty, and anyone can sign. *)
Definition forged : AdyenWebhookGuard.AdyenNotificationRequestItem :=
  let i := AdyenWebhookGuard.mkItem (Some "psp-1") None (Some "Acct") (Some "pay-1") (Some 100) (Some "EUR") (Some "AUTHORISATION") (Some "true") None in
  AdyenWebhookGuard.mkItem (Some "psp-1") None (Some "Acct") (Some "pay-1") (Some 100) (Some "EUR") (Some "AUTHORISATION") (Some "true")
    (Some (toBase64 (hmacSha256 "" (AdyenWebhookGuard.buildSigningString i)))).

Lemma placeholder_key_forgeable : AdyenWebhookGuard.canActivate (Some [Some forged]) = Ok true.
Proof. vm_compute. reflexivity. Qed.

(** While Stripe rolls a secret it sends a signature for each: only the last one counts. *)
Lemma rolled_secret_refused :
  let header := signOmniSwitchPayload at_noon "old" "{}" in
  verifyWebhook at_noon (Some header) (Some "old"%string) (Some "{}"%string) = Ok true
  ∧ verifyWebhook at_noon (Some (header +:+ ",v1=" +:+ hexDigest "new" "1700000012.{}")) (Some "old"%string) (Some "{}"%string) = Throw (unauthorized "INVALID_SIGNATURE").
Proof. vm_compute. split; reflexivity. Qed.
