(* ===== verification/ScaTracker.v ===== *)
(** * Consecutive exemptions from strong customer authentication

    [sca-exemption-tracker.service.ts]: a counter per payment method in Redis, which the
    checkout reads before it asks for an exemption. [streak_exact] says what it counts. *)

From S2P Require Import Prelude Redis.

Module ScaExemptionTrackerService.

Definition STREAK_TTL_SECONDS : Z := 90 * 24 * 60 * 60.

#[global] Instance counter_numeric : Numeric Z := {| of_num := λ n, n; to_num := Some |}.

Definition key (paymentMethodId : string) : string := "sca-exemption-streak:" +:+ paymentMethodId.

Abbreviation R := (prog (command string Z)).

Definition getStreak (paymentMethodId : string) : R Z :=
  v ← call (GET (key paymentMethodId)); mret (nullish v 0).

Definition recordLowValueExemptionUsed (paymentMethodId : string) : R unit :=
  _ ← call (INCRBY (key paymentMethodId) 1);
  call (EXPIRE (key paymentMethodId) STREAK_TTL_SECONDS).

Definition resetStreak (paymentMethodId : string) : R unit := call (DEL (key paymentMethodId)).
End ScaExemptionTrackerService.
Import ScaExemptionTrackerService.

(** What the checkout reports, with its instants. *)
Inductive sca_report := USED (paymentMethodId : string) | CHALLENGED (paymentMethodId : string).

Definition report (r : sca_report) : R unit :=
  match r with USED m => recordLowValueExemptionUsed m | CHALLENGED m => resetStreak m end.

Abbreviation counters := (gmap string (cell Z)).
Abbreviation go := (run (@exec string Z _ _ _)).

Fixpoint reports (l : list (Date * sca_report)) (s : counters) : counters :=
  match l with [] => s | (now, r) :: l => reports l (go (report r) now s).1 end.

(** The reference: how many exemptions in a row, and when the last one was; after ninety
    days without one the count begins again. *)
Definition ttl : Z := STREAK_TTL_SECONDS * 1000.

Definition counts (m : string) (c : Z * Date) (x : Date * sca_report) : Z * Date :=
  match x.2 with
  | USED m' => if String.eqb m' m then (if x.1 <? c.2 + ttl then c.1 + 1 else 1, x.1) else c
  | CHALLENGED m' => if String.eqb m' m then (0, x.1) else c
  end.

Definition agrees (m : string) (c : Z * Date) (s : counters) : Prop :=
  match s !! key m with
  | Some d => 0 < c.1 ∧ value d = c.1 ∧ expiresAt d = Some (c.2 + ttl)
  | None => c.1 = 0
  end.

Lemma key_ne m m' : m ≠ m' → key m ≠ key m'.
Proof. intros Hne Heq%(inj (String.append _)). congruence. Qed.

Lemma report_agrees m c now r s : agrees m c s → c.2 ≤ now → agrees m (counts m c (now, r)) (go (report r) now s).1.
Proof.
  intros Ha Ht. destruct c as [n t]. unfold counts. cbn [fst snd] in *. destruct r as [m'|m']; cbn [report].
  - destruct (String.eqb_spec m' m) as [->|Hne].
    + unfold agrees in *. cbn. unfold find. destruct (s !! key m) as [d|] eqn:Ed; cbn.
      * destruct Ha as (Hn & Hv & He). unfold live. rewrite He. cbn [fst snd] in *. destruct (Z.ltb_spec now (t + ttl)); cbn.
        -- unfold find. rewrite lookup_insert_eq. unfold live. cbn. rewrite He. destruct (Z.ltb_spec now (t + ttl)); [|lia]. cbn.
           rewrite lookup_insert_eq. cbn. split_and!; [lia|lia|done].
        -- unfold find. rewrite lookup_insert_eq. cbn. rewrite lookup_insert_eq. done.
      * cbn in Ha. subst n. unfold find. rewrite lookup_insert_eq. cbn. rewrite lookup_insert_eq. cbn. destruct (now <? t + ttl); done.
    + assert (∀ s', s' !! key m = s !! key m → agrees m (n, t) s') as Hsame by by intros s' Hs; unfold agrees; rewrite Hs.
      apply Hsame. cbn. destruct (find now (key m') s) as [d|]; cbn; (destruct (find now (key m') _) as [d'|]; cbn);
        rewrite ?lookup_insert_ne by (by apply key_ne); reflexivity.
  - destruct (String.eqb_spec m' m) as [->|Hne]; unfold agrees; cbn.
    + by rewrite lookup_delete_eq.
    + by rewrite lookup_delete_ne by by apply key_ne.
Qed.

Fixpoint timely (now : Date) (l : list (Date * sca_report)) : Prop := match l with [] => True | (t, _) :: l => now ≤ t ∧ timely t l end.

Lemma reports_agree m l c now s : c.2 ≤ now → timely now l → agrees m c s → agrees m (foldl (counts m) c l) (reports l s).
Proof.
  revert c now s. induction l as [|[t r] l IH]; intros c now s Hc Hl Ha; [done|]. destruct Hl as [Ht Hl]. cbn. apply (IH _ t); [|done|].
  - unfold counts. cbn. destruct r; case_match; cbn; lia.
  - apply report_agrees; [done|lia].
Qed.

(** The streak of a payment method is the number of exemptions reported for it since its
    last challenge, of which no two are ninety days apart, and zero ninety days after the
    last one, whatever was reported for others in between. *)
Theorem streak_exact m l now t : timely now l →
  let c := foldl (counts m) (0, now) l in
  (go (getStreak m) t (reports l ∅)).2 = Ok (if t <? c.2 + ttl then c.1 else 0).
Proof.
  intros Hl. cbv zeta. assert (agrees m (0, now) ∅) as H0 by by unfold agrees; rewrite lookup_empty.
  pose proof (reports_agree m l (0, now) now ∅ ltac:(done) Hl H0) as Ha. destruct (foldl (counts m) (0, now) l) as [n u]. unfold agrees in Ha.
  cbn. unfold peek, find. destruct (reports l ∅ !! key m) as [d|]; cbn [fst snd] in Ha.
  - destruct Ha as (Hn & Hv & He). unfold live. rewrite He. destruct (t <? u + ttl); [by cbn; rewrite Hv|done].
  - subst n. by destruct (t <? u + ttl).
Qed.
