(* ===== verification/Url.v ===== *)
(** * Percent-encoding

    The two encoders of the web platform the PSP adapters use: [encodeURIComponent] and
    the form encoding of [URLSearchParams]. A receiver that decodes reads back what was
    encoded ([form_text_roundtrip], [component_roundtrip]), so no value can add or change a
    parameter. *)

From S2P Require Import Prelude Crypto.

Definition upperHexDigit (n : N) : ascii := ascii_of_N (if (n <? 10)%N then 48 + n else 55 + n).

Definition alphanumeric (c : ascii) : bool :=
  let n := N_of_ascii c in
  (48 <=? n)%N && (n <=? 57)%N || (65 <=? n)%N && (n <=? 90)%N || (97 <=? n)%N && (n <=? 122)%N.

Definition oneOf (l : list ascii) (c : ascii) : bool := existsb (Ascii.eqb c) l.

(** A byte as [%XX], unless it stands for itself. *)
Definition escape (safe : ascii → bool) (c : ascii) (rest : string) : string :=
  if safe c then String c rest
  else String "%" (String (upperHexDigit (N_of_ascii c / 16)) (String (upperHexDigit (N_of_ascii c mod 16)) rest)).

(** ** [encodeURIComponent] *)

Definition unreserved (c : ascii) : bool := alphanumeric c || oneOf ["-"; "_"; "."; "!"; "~"; "*"; "'"; "("; ")"]%char c.

Fixpoint encodeURIComponent (s : string) : string :=
  match s with EmptyString => EmptyString | String c s => escape unreserved c (encodeURIComponent s) end.

(** The receiver: [%XX] is a byte, and in forms [+] is a space. *)
Fixpoint percentDecode (plus : bool) (s : string) : string :=
  match s with
  | EmptyString => EmptyString
  | String c s' =>
      if Ascii.eqb c "%" then
        match s' with
        | String a (String b s) =>
            match hexValue a, hexValue b with
            | Some x, Some y => String (ascii_of_N (x * 16 + y)) (percentDecode plus s)
            | _, _ => String c (percentDecode plus s')
            end
        | _ => String c (percentDecode plus s')
        end
      else if plus && Ascii.eqb c "+" then String " " (percentDecode plus s')
      else String c (percentDecode plus s')
  end.

(** ** [URLSearchParams] *)

Definition formSafe (c : ascii) : bool := alphanumeric c || oneOf ["*"; "-"; "."; "_"]%char c.

Fixpoint formEncode (s : string) : string :=
  match s with
  | EmptyString => EmptyString
  | String c s => if Ascii.eqb c " " then String "+" (formEncode s) else escape formSafe c (formEncode s)
  end.

Abbreviation params := (list (string * string)).

Fixpoint join (l : list string) : string :=
  match l with [] => "" | [s] => s | s :: l => s +:+ String "&" (join l) end.

Definition pairText (p : string * string) : string := formEncode p.1 +:+ String "=" (formEncode p.2).

(** [params.toString()] *)
Definition toString (l : params) : string := join (pairText <$> l).

(** What is before the first [c], and what comes after it. *)
Fixpoint cut (c : ascii) (s : string) : string * option string :=
  match s with
  | EmptyString => (EmptyString, None)
  | String a s => if Ascii.eqb a c then (EmptyString, Some s) else let '(x, y) := cut c s in (String a x, y)
  end.

Fixpoint pieces (fuel : nat) (s : string) : list string :=
  match fuel with
  | O => []
  | S fuel => match cut "&" s with (x, Some y) => x :: pieces fuel y | (x, None) => [x] end
  end.

Definition readPair (s : string) : string * string :=
  let '(n, v) := cut "=" s in (percentDecode true n, percentDecode true (nullish v "")).

(** The parser of forms: empty pieces are skipped. *)
Definition parseForm (s : string) : params :=
  readPair <$> filter (λ p, p ≠ ""%string) (pieces (S (String.length s)) s).

(** ** Decoding inverts encoding *)

Lemma string_app_cons c (s t : string) : String c s +:+ t = String c (s +:+ t).
Proof. reflexivity. Qed.

Lemma decode_escape plus safe c s : safe "%"%char = false → safe "+"%char = false ∨ plus = false →
  percentDecode plus (escape safe c s) = String c (percentDecode plus s).
Proof.
  intros Hp Hplus. unfold escape. destruct (safe c) eqn:Hc.
  - assert (Ascii.eqb c "%" = false) as H1 by (apply Ascii.eqb_neq; intros ->; congruence).
    assert (plus && Ascii.eqb c "+" = false) as H2.
    { destruct Hplus as [H| ->]; [|done]. apply andb_false_iff. right. apply Ascii.eqb_neq. intros ->. congruence. }
    cbn [percentDecode]. by rewrite H1, H2.
  - destruct c as [[] [] [] [] [] [] [] []]; reflexivity.
Qed.

Lemma component_roundtrip s : percentDecode false (encodeURIComponent s) = s.
Proof. induction s as [|c s IH]; [done|]. cbn [encodeURIComponent]. rewrite decode_escape, IH; auto. Qed.

Lemma formEncode_decode s : percentDecode true (formEncode s) = s.
Proof.
  induction s as [|c s IH]; [done|]. cbn [formEncode]. destruct (Ascii.eqb_spec c " ") as [->|Hc].
  - cbn [percentDecode]. by rewrite IH.
  - rewrite decode_escape, IH; auto.
Qed.

(** A separator does not occur in encoded text. *)
Fixpoint avoids (c : ascii) (s : string) : bool :=
  match s with EmptyString => true | String a s => negb (Ascii.eqb a c) && avoids c s end.

Lemma formEncode_avoids c s : formSafe c = false → c ≠ "+"%char → c ≠ "%"%char → alphanumeric c = false → avoids c (formEncode s) = true.
Proof.
  intros Hs H1 H2 Ha. induction s as [|a s IH]; [done|]. cbn [formEncode]. destruct (Ascii.eqb a " ").
  - cbn [avoids]. rewrite IH, andb_true_r. apply negb_true_iff, Ascii.eqb_neq. congruence.
  - assert (∀ n, (n < 16)%N → Ascii.eqb (upperHexDigit n) c = false) as Hhex.
    { intros n Hn. apply Ascii.eqb_neq. intros <-. revert Ha. clear -Hn.
      assert (n ∈ (N.of_nat <$> seq 0 16)) as Hin by (apply list_elem_of_fmap; exists (N.to_nat n); rewrite elem_of_seq; lia).
      cbn [seq fmap list_fmap] in Hin. repeat (apply elem_of_cons in Hin as [->|Hin]; [done|]). by apply elem_of_nil in Hin. }
    unfold escape. destruct (formSafe a) eqn:Hsa; cbn [avoids]; rewrite IH, andb_true_r.
    + apply negb_true_iff, Ascii.eqb_neq. congruence.
    + assert (N_of_ascii a < 256)%N as Hb by (destruct a as [[] [] [] [] [] [] [] []]; reflexivity).
      rewrite !Hhex; [|apply N.mod_lt; lia|apply N.Div0.div_lt_upper_bound; lia].
      cbn [negb andb]. rewrite !andb_true_r. apply negb_true_iff, Ascii.eqb_neq. congruence.
Qed.

Lemma avoids_app c s t : avoids c (s +:+ t) = avoids c s && avoids c t.
Proof. induction s as [|a s IH]; [done|]. rewrite string_app_cons. cbn [avoids]. by rewrite IH, andb_assoc. Qed.

Lemma cut_app c s t : avoids c s = true → cut c (s +:+ String c t) = (s, Some t).
Proof.
  induction s as [|a s IH]; cbn [avoids].
  - intros _. change ("" +:+ String c t) with (String c t). cbn [cut]. by rewrite Ascii.eqb_refl.
  - intros [Ha Hs]%andb_true_iff. rewrite string_app_cons. cbn [cut]. apply negb_true_iff in Ha. by rewrite Ha, IH.
Qed.

Lemma cut_none c s : avoids c s = true → cut c s = (s, None).
Proof.
  induction s as [|a s IH]; cbn [avoids]; [done|]. intros [Ha Hs]%andb_true_iff. cbn [cut]. apply negb_true_iff in Ha.
  by rewrite Ha, IH.
Qed.

Lemma pairText_avoids p : avoids "&" (pairText p) = true.
Proof. unfold pairText. rewrite avoids_app. cbn [avoids]. rewrite !formEncode_avoids by done. reflexivity. Qed.

Lemma pairText_nonempty p : pairText p ≠ ""%string.
Proof. unfold pairText. by destruct (formEncode p.1). Qed.

Lemma readPair_text p : readPair (pairText p) = p.
Proof.
  unfold readPair, pairText. rewrite cut_app by by apply formEncode_avoids. cbn [nullish].
  rewrite !formEncode_decode. by destruct p.
Qed.

Lemma join_length l s : s ∈ l → (String.length s ≤ String.length (join l))%nat.
Proof.
  induction l as [|x l IH]; intros Hin; [by apply elem_of_nil in Hin|]. destruct l as [|y l].
  - apply list_elem_of_singleton in Hin as ->. done.
  - change (join (x :: y :: l)) with (x +:+ String "&" (join (y :: l))). rewrite string_length_app. cbn [String.length].
    apply elem_of_cons in Hin as [<-|Hin]; [lia|]. apply IH in Hin. lia.
Qed.

Lemma pieces_join l fuel : l ≠ [] → Forall (λ s, avoids "&" s = true) l → (length l ≤ fuel)%nat → pieces fuel (join l) = l.
Proof.
  revert fuel. induction l as [|s l IH]; intros fuel Hne Hl Hf; [done|]. apply Forall_cons in Hl as [Hs Hl].
  destruct fuel as [|fuel]; [cbn in Hf; lia|]. destruct l as [|t l].
  - cbn [join pieces]. by rewrite cut_none.
  - change (join (s :: t :: l)) with (s +:+ String "&" (join (t :: l))). cbn [pieces]. rewrite cut_app by done.
    rewrite IH; [done..|]. cbn in *. lia.
Qed.

Lemma join_pieces_bound l : (length l ≤ S (String.length (join l)))%nat.
Proof.
  induction l as [|s l IH]; [cbn; lia|]. destruct l as [|t l]; [cbn; lia|].
  change (join (s :: t :: l)) with (s +:+ String "&" (join (t :: l))). rewrite string_length_app. cbn [String.length length] in *. lia.
Qed.

Lemma form_text_roundtrip l : parseForm (toString l) = l.
Proof.
  destruct l as [|p l]; [reflexivity|]. unfold parseForm, toString.
  rewrite pieces_join; [|done|apply Forall_fmap, Forall_true; intros; apply pairText_avoids|apply join_pieces_bound].
  assert (∀ l, filter (λ p, p ≠ ""%string) (pairText <$> l) = pairText <$> l) as ->.
  { clear. induction l as [|p l IH]; [done|]. cbn [fmap list_fmap]. rewrite filter_cons_True by apply pairText_nonempty.
    by rewrite IH. }
  rewrite <- list_fmap_compose. rewrite <- (list_fmap_id (p :: l)) at 2. apply list_fmap_ext. intros i q _. apply readPair_text.
Qed.
