(* ===== verification/PspAdapter.v ===== *)
(** * The adapters of the card providers

    [stripe-psp.adapter.ts], [adyen-psp.adapter.ts] and [psp-fee-schedule.service.ts]:
    every method is a program that asks the circuit breaker (its Redis commands), waits
    for a permit of the bulkhead, sends one HTTP request and reads the answer. A Redis
    command or a request that fails answers the error. Answers of a provider are untyped
    JSON, and stay so in the responses of the adapter where the code only casts them. *)

From stdpp Require Import pretty.
From S2P Require Import Prelude JsNumber Money Policies PaymentStatus Payment Routing Checkout Reconciliation Redis Program Breaker Url.

(** ** HTTP *)

(** The text of a form, or the text [JSON.stringify] gives a value. *)
Inductive RequestBody := FormText (s : string) | JsonText (j : Json).

Record HttpRequest := mkHttpRequest {
  hr_method : string;
  hr_url : string;
  hr_headers : list (string * string);
  hr_body : option RequestBody }.

(** [hs_body]: the value of the body, unless it is not JSON or breaks off. *)
Record HttpResponse := mkHttpResponse { hs_status : Z; hs_body : option Json }.

(** [await response.json()] *)
Definition hs_json (r : HttpResponse) : result Json :=
  match hs_body r with Some data => Ok data | None => Throw (SyntaxError "response.json()") end.

Definition hs_ok (r : HttpResponse) : bool := (200 <=? hs_status r) && (hs_status r <=? 299).

(** What an adapter waits for. *)
Inductive psp_event : Type → Type :=
  | CACHE {X} (c : command Key Val X) : psp_event (result X)
  | FETCH (r : HttpRequest) : psp_event (result HttpResponse)
  | CLOCK : psp_event Date
  | ACQUIRE : psp_event unit
  | RELEASE : psp_event unit.

Abbreviation psp := (prog psp_event).

(** A command of the breaker; reading the clock cannot fail. *)
Definition cached {X} (c : command Key Val X) : psp X :=
  match c in command _ _ Y return psp Y with
  | NOW => call CLOCK
  | c => ask (CACHE c)
  end.

Fixpoint breaker {X} (p : P X) : psp X :=
  match p with Ret a => Ret a | Fail e => Fail e | Do c k => x ← cached c; breaker (k x) end.

(** [this.bulkhead.run(fn)] *)
Definition bulkhead {X} (fn : psp X) : psp X :=
  _ ← call ACQUIRE;
  r ← catch (x ← fn; mret (Ok x)) (λ e, mret (Throw e));
  _ ← call RELEASE;
  of_result r.

(** ** Untyped values *)

(** An optional value is [undefined] when absent. *)
Definition member (name : string) (l : list (string * Json)) : option Json :=
  match list_find (λ p, p.1 = name) l with Some (_, (_, v)) => Some v | None => None end.

(** [v.name] *)
Definition field (v : Json) (name : string) : result (option Json) :=
  match v with JNull => Throw (TypeError name) | JObj l => Ok (member name l) | _ => Ok None end.

(** [v?.name] *)
Definition chain (v : option Json) (name : string) : option Json :=
  match v with Some (JObj l) => member name l | _ => None end.

(** [v?.[0]] *)
Definition first (v : option Json) : option Json :=
  match v with
  | Some (JArr l) => head l
  | Some (JStr (String c _)) => Some (JStr (String c ""))
  | Some (JObj l) => member "0" l
  | _ => None
  end.

Definition truthyJson (v : option Json) : bool :=
  match v with
  | None | Some JNull | Some (JBool false) | Some (JNum NaN) | Some (JNum (Fin 0)) | Some (JStr EmptyString) => false
  | _ => true
  end.

(** [v === s] *)
Definition isText (v : option Json) (s : string) : bool := match v with Some (JStr t) => String.eqb t s | _ => false end.

Definition ifTruthyJson (v : option Json) : option Json := if truthyJson v then v else None.

(** [o[name] = v] on an object. *)
Fixpoint setMember (name : string) (v : Json) (l : list (string * Json)) : list (string * Json) :=
  match l with
  | [] => [(name, v)]
  | (n, w) :: l => if String.eqb n name then (n, v) :: l else (n, w) :: setMember name v l
  end.

Definition lower_ascii (c : ascii) : ascii :=
  let n := N_of_ascii c in if (65 <=? n)%N && (n <=? 90)%N then ascii_of_N (n + 32) else c.

Fixpoint toLowerCase (s : string) : string :=
  match s with EmptyString => EmptyString | String c s => String (lower_ascii c) (toLowerCase s) end.

(** [...(x ? { name: x } : {})] for text *)
Definition whenTruthy (name : string) (x : option string) : params :=
  if truthy x then [(name, nullish x ""%string)] else [].

(** ** The port *)

(** The fields of [PSPChargeRequest] that an adapter may read. *)
Record PSPChargeRequest := mkPSPChargeRequest {
  rq_paymentId : string;
  rq_idempotencyKey : string;
  rq_amount : Money.t;
  rq_currency : string;
  rq_merchantId : string;
  rq_customerId : option string;
  rq_description : option string;
  rq_statementDescriptor : option string;
  rq_cardToken : option string;
  rq_paymentMethodId : option string;
  rq_binCountry : option string;
  rq_scaExemptionRequested : option Sca.ScaExemptionType;
  rq_metadata : option params;
  rq_captureMethod : option CaptureMethod }.

(** The request of the checkout. *)
Definition chargeRequest (input : CheckoutSagaInput) (scaExemptionRequested : option Sca.ScaExemptionType) : PSPChargeRequest :=
  let m := in_metadata input in
  mkPSPChargeRequest (paymentId input) (in_idempotencyKey input) (in_amount input) (Currency.code (Money.currency (in_amount input)))
    (md_merchantId m) (md_customerId m) (md_description m) (md_statementDescriptor m) (in_cardToken input)
    (in_paymentMethodId input) (Bin.country <$> in_binInfo input) scaExemptionRequested (md_metadata m) (in_captureMethod input).

(** [PSPRiskSignal], as read from the answer. *)
Record RiskSignal := mkRiskSignal { sg_riskLevel : option Json; sg_riskScore : option number }.

(** [PSPChargeResponse], as the adapter builds it. *)
Record ChargeResponse := mkChargeResponse {
  ch_success : bool;
  ch_transactionId : option Json;
  ch_status : ChargeStatus;
  ch_actionUrl : option Json;
  ch_rawResponse : Json;
  ch_errorCode : option Json;
  ch_errorMessage : option Json;
  ch_riskSignal : option RiskSignal;
  ch_avsResult : option Json;
  ch_cvvResult : option Json;
  ch_scaExemptionIndicator : option Sca.ScaExemptionType;
  ch_networkTokenized : option bool;
  ch_paymentMethodType : option PaymentMethodType }.

Record RefundRequest := mkRefundRequest {
  re_paymentId : string;
  re_pspTransactionId : string;
  re_refundId : string;
  re_amount : Money.t;
  re_reason : string;
  re_idempotencyKey : string }.

Inductive RefundStatus := PSP_REFUND_SUCCEEDED | PSP_REFUND_PENDING.

Record RefundResponse := mkRefundResponse {
  rp_success : bool;
  rp_pspRefundId : option Json;
  rp_status : RefundStatus;
  rp_rawResponse : Json }.

(** The request of [capture] and, without an amount, of [cancel]. *)
Record ActionRequest := mkActionRequest {
  aq_paymentId : string;
  aq_pspTransactionId : string;
  aq_amount : Money.t;
  aq_idempotencyKey : string }.

Record ActionResponse := mkActionResponse {
  ac_success : bool;
  ac_pspCaptureId : option Json;
  ac_rawResponse : Json }.

Record VerifyRequest := mkVerifyRequest {
  ve_paymentMethodId : string;
  ve_merchantId : string;
  ve_currency : string;
  ve_idempotencyKey : string }.

Record VerifyResponse := mkVerifyResponse {
  vr_success : bool;
  vr_pspVerificationId : option Json;
  vr_rawResponse : Json;
  vr_errorCode : option Json;
  vr_errorMessage : option Json }.

Inductive Queried := QUERY_SUCCEEDED | QUERY_FAILED | QUERY_STILL_UNKNOWN.

Record QueryResult := mkQueryResult {
  qr_outcome : Queried;
  qr_pspTransactionId : option Json;
  qr_errorCode : option Json;
  qr_rawResponse : option Json }.

Record EvidenceResponse := mkEvidenceResponse { ev_success : bool; ev_rawResponse : Json; ev_failed : bool }.

Record FeeStatement := mkFeeStatement { totalFeeMinorUnits : Z; transactionCount : number }.

(** ** The fee schedule *)

Record PspFeeSchedule := mkPspFeeSchedule { fs_feePercentage : number; fs_fixedFeeMinorUnits : number }.

Module PspFeeScheduleService.

(** [configured]: a setting that is there, as a number. *)
Definition schedules (configured : string → option number) : list (PSPProvider * PspFeeSchedule) :=
  [(STRIPE, mkPspFeeSchedule (nullish (configured "STRIPE_FEE_PERCENTAGE") (Num.lit 29 10))
      (nullish (configured "STRIPE_FIXED_FEE_MINOR_UNITS") (Num.of_bigint 30)));
   (ADYEN, mkPspFeeSchedule (nullish (configured "ADYEN_FEE_PERCENTAGE") (Num.lit 3 10))
      (nullish (configured "ADYEN_FIXED_FEE_MINOR_UNITS") (Num.of_bigint 10)))].

Definition getSchedule (configured : string → option number) (provider : PSPProvider) : result PspFeeSchedule :=
  match list_find (λ s, s.1 = provider) (schedules configured) with
  | Some (_, (_, s)) => Ok s
  | None => Throw (DomainError "NO_FEE_SCHEDULE")
  end.

End PspFeeScheduleService.

(** ** What both adapters share *)

(** The deployment, and two conversions of the language: [String(v)] of a value that is
    not a string, and [new Date(text)]. *)
Record AdapterConfig := mkAdapterConfig {
  apiKey : string;
  baseUrl : string;
  merchantAccount : string;
  setting : string → option number;
  String_ : Json → string;
  parseDate : string → Date }.

Section shared.
Context (C : AdapterConfig) (provider : PSPProvider).
Abbreviation name := (provider_name provider).

Definition assertAvailable : psp unit := breaker (RedisCircuitBreakerService.assertAvailable name).
Definition recordSuccess (latency : Z) : psp unit := breaker (RedisCircuitBreakerService.recordSuccess name latency).
Definition recordFailure : psp unit := breaker (RedisCircuitBreakerService.recordFailure name).

(** [try { ... } catch (error) { await this.circuitBreaker.recordFailure(...); throw error; }] *)
Definition recorded {X} (body : psp X) : psp X := catch body (λ error, _ ← recordFailure; Fail error).

(** A request, then [recordSuccess] with the time since [startTime]. *)
Definition timed (startTime : Date) (request : psp Json) : psp Json :=
  response ← request;
  now ← call CLOCK;
  _ ← recordSuccess (now - startTime);
  mret response.

(** [message || fallback] as the text of an [Error]. *)
Definition errorText (message : option Json) (fallback : string) : string :=
  if truthyJson message then match message with Some (JStr s) => s | Some v => String_ C v | None => fallback end else fallback.

(** The [fetch] and the reading of its answer, which both [makeRequestInner] have in
    common; [rejected] makes the error of a status that is not 2xx. *)
Definition exchange (r : HttpRequest) (noResponse : string) (rejected : HttpResponse → Json → result js_error) : psp Json :=
  response ← catch (ask (FETCH r)) (λ _, Fail (PspError true None noResponse));
  data ← of_result (hs_json response);
  if negb (hs_ok response) then e ← of_result (rejected response data); Fail e else mret data.

(** *** Health *)

Definition isAvailable : psp bool := breaker (RedisCircuitBreakerService.isAvailable name).

Definition getHealthStatus (currencies countries : list string) : psp PSPHealthStatus :=
  metrics ← breaker (RedisCircuitBreakerService.getMetrics name);
  let total := RedisCircuitBreakerService.cm_totalRequests metrics in
  let successRate :=
    if 0 <? total
    then Num.mul (Num.div (Num.of_bigint (RedisCircuitBreakerService.cm_successCount metrics)) (Num.of_bigint total)) (Num.of_bigint 100)
    else Num.of_bigint 100 in
  let st := RedisCircuitBreakerService.cm_state metrics in
  fees ← of_result (PspFeeScheduleService.getSchedule (setting C) provider);
  mret (mkPSPHealthStatus provider st (Num.round successRate) (Num.round (RedisCircuitBreakerService.cm_avgLatencyMs metrics))
          (fs_feePercentage fees) (fs_fixedFeeMinorUnits fees) currencies countries (negb (bool_decide (st = OPEN)))).

(** *** Reports *)

(** [Math.floor(since / 1000)] and [Math.ceil(until / 1000)] *)
Definition fromSecond (since : Date) : Z := since / 1000.
Definition toSecond (until : Date) : Z := - ((- until) / 1000).

(** A row of the report, with the type the code declares for it; what the code makes of
    other rows is not modelled. *)
Definition settlementRow (tx : Json) : result PSPSettlementTransaction :=
  match chain (Some tx) "id", chain (Some tx) "amount", chain (Some tx) "currency", chain (Some tx) "createdAt" with
  | Some (JStr id), Some (JNum amount), Some (JStr currency), Some (JStr createdAt) =>
      m ← Money.fromMinorUnitsNumber amount currency None;
      Ok (mkPSPSettlementTransaction id m (parseDate C createdAt))
  | _, _, _, _ => Throw (TypeError "row")
  end.

Fixpoint settlementRows (l : list Json) : result (list PSPSettlementTransaction) :=
  match l with [] => Ok [] | tx :: l => t ← settlementRow tx; ts ← settlementRows l; Ok (t :: ts) end.

Definition report (r : HttpRequest) : psp Json :=
  response ← ask (FETCH r);
  if negb (hs_ok response) then Fail (DomainError "REPORT_REQUEST_FAILED") else of_result (hs_json response).

(** [(body.rows || []).map(...)] *)
Definition settlementReport (r : HttpRequest) (rows : string) : psp (list PSPSettlementTransaction) :=
  body ← report r;
  l ← of_result (field body rows);
  if truthyJson l
  then match l with Some (JArr l) => of_result (settlementRows l) | _ => Fail (TypeError "map") end
  else mret [].

(** [v ?? 0], with the declared type of the statement. *)
Definition numberOr0 (v : option Json) : result number :=
  match v with None | Some JNull => Ok (Num.of_bigint 0) | Some (JNum n) => Ok n | _ => Throw (TypeError "statement") end.

Definition feeStatement (r : HttpRequest) : psp FeeStatement :=
  body ← report r;
  fee ← of_result (field body "totalFeeMinorUnits" ≫= numberOr0);
  fee ← of_result (Num.to_bigint fee);
  count ← of_result (field body "transactionCount" ≫= numberOr0);
  mret (mkFeeStatement fee count).

End shared.

(** A header, when its value is there. *)
Definition withKey (idempotencyKey : option string) (headers : params) : params :=
  headers ++ whenTruthy "Idempotency-Key" idempotencyKey.

(** ** Stripe *)

Module StripePSPAdapter.
Section adapter.
Context (C : AdapterConfig).

Definition rejected (response : HttpResponse) (data : Json) : result js_error :=
  error ← field data "error";
  let error := if truthyJson error then error else Some (JObj []) in
  Ok (PspError false (Some (hs_status response)) (errorText C (chain error "message") "Stripe API error")).

Definition makeRequestInner (method path : string) (l : params) (idempotencyKey : option string) : psp Json :=
  exchange
    (mkHttpRequest method (baseUrl C +:+ path)
       (withKey idempotencyKey
          [("Authorization", "Bearer " +:+ apiKey C); ("Content-Type", "application/x-www-form-urlencoded");
           ("Stripe-Version", "2023-10-16")])
       (if String.eqb method "GET" then None else Some (FormText (toString l))))
    "Stripe request failed with no response" rejected.

Definition makeRequest (method path : string) (l : params) (idempotencyKey : option string) : psp Json :=
  bulkhead (makeRequestInner method path l idempotencyKey).

Definition reservedKeys : list string := ["payment_id"; "merchant_id"; "bin_country"].

Definition metadataParams (metadata : option params) : params :=
  match metadata with
  | None => []
  | Some l => omap (λ p, if includes reservedKeys p.1 then None else Some ("metadata[" +:+ p.1 +:+ "]", p.2)) l
  end.

Definition chargeParams (request : PSPChargeRequest) : params :=
  [("amount", pretty (Money.amountMinorUnits (rq_amount request))); ("currency", toLowerCase (rq_currency request));
   ("metadata[payment_id]", rq_paymentId request); ("metadata[merchant_id]", rq_merchantId request);
   ("confirm", "true"); ("automatic_payment_methods[enabled]", "false")]
  ++ whenTruthy "payment_method" (rq_paymentMethodId request)
  ++ whenTruthy "description" (rq_description request)
  ++ (if truthy (rq_statementDescriptor request)
      then [("statement_descriptor", String.substring 0 22 (nullish (rq_statementDescriptor request) ""))] else [])
  ++ (match rq_captureMethod request with Some manual => [("capture_method", "manual")] | _ => [] end)
  ++ whenTruthy "metadata[bin_country]" (rq_binCountry request)
  ++ (match rq_scaExemptionRequested request with Some Sca.MIT => [("off_session", "true")] | _ => [] end)
  ++ metadataParams (rq_metadata request).

(** [response.charges?.data?.[0]], the answer not being [null]. *)
Definition firstCharge (response : Json) : option Json := first (chain (chain (Some response) "charges") "data").
Definition cardDetails (response : Json) : option Json := chain (chain (firstCharge response) "payment_method_details") "card".

Definition extractRiskSignal (response : Json) : option RiskSignal :=
  let outcome := chain (firstCharge response) "outcome" in
  if truthyJson outcome then
    Some (mkRiskSignal (ifTruthyJson (chain outcome "risk_level"))
            (match chain outcome "risk_score" with Some (JNum n) => Some n | _ => None end))
  else None.

Definition mapCheckResult (check : option Json) : option string :=
  if isText check "pass" then Some "MATCH"%string
  else if isText check "fail" then Some "NO_MATCH"%string
  else if isText check "unavailable" || isText check "unchecked" then Some "UNAVAILABLE"%string
  else None.

Definition combineAvsChecks (line1 zip : option Json) : option string :=
  let a := mapCheckResult line1 in
  let z := mapCheckResult zip in
  if negb (isSome a) && negb (isSome z) then None
  else if bool_decide (a = z) then a
  else if bool_decide (a = Some "UNAVAILABLE"%string) || bool_decide (z = Some "UNAVAILABLE"%string) || negb (isSome a) || negb (isSome z)
  then Some "UNAVAILABLE"%string
  else Some "PARTIAL"%string.

(** The AVS and the CVV result. *)
Definition extractCardCheckResult (response : Json) : option Json * option Json :=
  let checks := chain (cardDetails response) "checks" in
  if truthyJson checks then
    (JStr <$> combineAvsChecks (chain checks "address_line1_check") (chain checks "address_zip_check"),
     JStr <$> mapCheckResult (chain checks "cvc_check"))
  else (None, None).

Definition extractNetworkTokenization (response : Json) : option bool :=
  match chain (chain (cardDetails response) "network_token") "used" with Some (JBool b) => Some b | _ => None end.

Definition extractPaymentMethodType (response : Json) : option PaymentMethodType :=
  let c := cardDetails response in
  if truthyJson c then Some (if truthyJson (chain c "wallet") then wallet else card) else None.

(** The response built from a charge's answer. *)
Definition interpretCharge (request : PSPChargeRequest) (response : Json) : result ChargeResponse :=
  status ← field response "status";
  let id := chain (Some response) "id" in
  let '(avs, cvv) := extractCardCheckResult response in
  let indicator := match rq_scaExemptionRequested request with Some Sca.MIT => Some Sca.MIT | _ => None end in
  if isText status "requires_action" then
    Ok (mkChargeResponse false id CHARGE_REQUIRES_ACTION
          (chain (chain (chain (Some response) "next_action") "redirect_to_url") "url") response None None None None None None None None)
  else if isText status "requires_capture" then
    Ok (mkChargeResponse false id CHARGE_REQUIRES_CAPTURE None response None None (extractRiskSignal response) avs cvv indicator
          (extractNetworkTokenization response) (extractPaymentMethodType response))
  else if isText status "succeeded" then
    Ok (mkChargeResponse true id CHARGE_SUCCEEDED None response None None (extractRiskSignal response) avs cvv indicator
          (extractNetworkTokenization response) (extractPaymentMethodType response))
  else
    let failure := chain (Some response) "last_payment_error" in
    Ok (mkChargeResponse false id CHARGE_FAILED None response (chain failure "code") (chain failure "message")
          (extractRiskSignal response) avs cvv None None None).

Definition charge (request : PSPChargeRequest) : psp ChargeResponse :=
  _ ← assertAvailable STRIPE;
  startTime ← call CLOCK;
  recorded STRIPE
    (response ← timed STRIPE startTime
                  (makeRequest "POST" "/payment_intents" (chargeParams request) (Some (rq_idempotencyKey request)));
     of_result (interpretCharge request response)).

(** [map[reason.toLowerCase()] || 'requested_by_customer'], with the lower-case names
    every object inherits. *)
Definition mapRefundReason (reason : string) : string :=
  let r := toLowerCase reason in
  if String.eqb r "duplicate" then "duplicate"
  else if String.eqb r "fraudulent" then "fraudulent"
  else if String.eqb r "customer_request" then "requested_by_customer"
  else if String.eqb r "constructor" then "function Object() { [native code] }"
  else if String.eqb r "__proto__" then "[object Object]"
  else "requested_by_customer".

Definition refundParams (request : RefundRequest) : params :=
  [("payment_intent", re_pspTransactionId request); ("amount", pretty (Money.amountMinorUnits (re_amount request)));
   ("reason", mapRefundReason (re_reason request)); ("metadata[refund_id]", re_refundId request);
   ("metadata[payment_id]", re_paymentId request)].

Definition refund (request : RefundRequest) : psp RefundResponse :=
  _ ← assertAvailable STRIPE;
  startTime ← call CLOCK;
  recorded STRIPE
    (response ← timed STRIPE startTime
                  (makeRequest "POST" "/refunds" (refundParams request) (Some (re_idempotencyKey request)));
     status ← of_result (field response "status");
     mret (mkRefundResponse (isText status "succeeded") (chain (Some response) "id")
             (if isText status "succeeded" then PSP_REFUND_SUCCEEDED else PSP_REFUND_PENDING) response)).

Definition capture (request : ActionRequest) : psp ActionResponse :=
  _ ← assertAvailable STRIPE;
  recorded STRIPE
    (response ← makeRequest "POST" ("/payment_intents/" +:+ aq_pspTransactionId request +:+ "/capture")
                  [("amount_to_capture", pretty (Money.amountMinorUnits (aq_amount request)))] (Some (aq_idempotencyKey request));
     status ← of_result (field response "status");
     mret (mkActionResponse (isText status "succeeded") (chain (Some response) "id") response)).

Definition cancel (request : ActionRequest) : psp ActionResponse :=
  _ ← assertAvailable STRIPE;
  recorded STRIPE
    (response ← makeRequest "POST" ("/payment_intents/" +:+ aq_pspTransactionId request +:+ "/cancel") []
                  (Some (aq_idempotencyKey request));
     status ← of_result (field response "status");
     mret (mkActionResponse (isText status "canceled") None response)).

Definition verifyParams (request : VerifyRequest) : params :=
  [("payment_method", ve_paymentMethodId request); ("confirm", "true"); ("usage", "off_session");
   ("automatic_payment_methods[enabled]", "true"); ("automatic_payment_methods[allow_redirects]", "never");
   ("metadata[merchant_id]", ve_merchantId request)].

Definition verifyPaymentMethod (request : VerifyRequest) : psp VerifyResponse :=
  _ ← assertAvailable STRIPE;
  startTime ← call CLOCK;
  recorded STRIPE
    (response ← timed STRIPE startTime
                  (makeRequest "POST" "/setup_intents" (verifyParams request) (Some (ve_idempotencyKey request)));
     status ← of_result (field response "status");
     let id := chain (Some response) "id" in
     let failure := chain (Some response) "last_setup_error" in
     mret (if isText status "succeeded" then mkVerifyResponse true id response None None
           else mkVerifyResponse false id response (chain failure "code") (chain failure "message"))).

Definition interpretQuery (response : Json) : result QueryResult :=
  found ← field response "found";
  if negb (truthyJson found) then Ok (mkQueryResult QUERY_STILL_UNKNOWN None None None)
  else
    let id := chain (Some response) "id" in
    if isText (chain (Some response) "status") "succeeded" then Ok (mkQueryResult QUERY_SUCCEEDED id None (Some response))
    else Ok (mkQueryResult QUERY_FAILED id (chain (chain (Some response) "last_payment_error") "code") (Some response)).

Definition queryOutcome (idempotencyKey : string) : psp QueryResult :=
  _ ← assertAvailable STRIPE;
  startTime ← call CLOCK;
  recorded STRIPE
    (response ← timed STRIPE startTime
                  (makeRequest "GET" ("/payment_intents/lookup?idempotency_key=" +:+ encodeURIComponent idempotencyKey) [] None);
     of_result (interpretQuery response)).

Definition STRIPE_CURRENCIES : list string :=
  ["USD"; "EUR"; "GBP"; "AUD"; "CAD"; "CHF"; "CNY"; "HKD"; "SGD"; "SEK"; "NOK"; "DKK"; "NZD"; "MXN"; "BRL"; "INR"; "JPY"; "TWD";
   "THB"; "MYR"; "IDR"; "PHP"; "ZAR"; "AED"].

Definition getHealthStatus : psp PSPHealthStatus := PspAdapter.getHealthStatus C STRIPE STRIPE_CURRENCIES ["*"].
Definition isAvailable : psp bool := PspAdapter.isAvailable STRIPE.

Definition get (path : string) (query : params) : HttpRequest :=
  mkHttpRequest "GET" (baseUrl C +:+ path +:+ "?" +:+ toString query) [("Authorization", "Bearer " +:+ apiKey C)] None.

Definition fetchSettlementTransactions (since until : Date) : psp (list PSPSettlementTransaction) :=
  settlementReport C
    (get "/balance_transactions" [("created[gte]", pretty (fromSecond since)); ("created[lte]", pretty (toSecond until))]) "data".

Definition fetchFeeStatement (since until : Date) (currency : string) : psp FeeStatement :=
  feeStatement (get "/statement" [("since", pretty (fromSecond since)); ("until", pretty (toSecond until)); ("currency", currency)]).

Definition submitDisputeEvidence (pspDisputeId evidence : string) : psp EvidenceResponse :=
  catch
    (response ← makeRequest "POST" ("/disputes/" +:+ pspDisputeId) [("evidence[uncategorized_text]", evidence); ("submit", "true")] None;
     status ← of_result (field response "status");
     mret (mkEvidenceResponse (isText status "under_review") response false))
    (λ _, mret (mkEvidenceResponse false (JObj []) true)).

End adapter.
End StripePSPAdapter.

(** ** Adyen *)

Module AdyenPSPAdapter.
Section adapter.
Context (C : AdapterConfig).

Definition rejected (response : HttpResponse) (data : Json) : result js_error :=
  message ← field data "message";
  Ok (PspError false (Some (hs_status response)) (errorText C message "Adyen API error")).

Definition makeRequestInner (method path : string) (body : option Json) (idempotencyKey : option string) : psp Json :=
  exchange
    (mkHttpRequest method (baseUrl C +:+ path)
       (withKey idempotencyKey [("X-API-Key", apiKey C); ("Content-Type", "application/json")]) (JsonText <$> body))
    "Adyen request failed with no response" rejected.

Definition makeRequest (method path : string) (body : option Json) (idempotencyKey : option string) : psp Json :=
  bulkhead (makeRequestInner method path body idempotencyKey).

Definition textMember (p : string * string) : string * Json := (p.1, JStr p.2).

Definition amountOf (value : Z) (currency : string) : Json :=
  JObj [("value", JNum (Num.of_bigint value)); ("currency", JStr currency)].

(** The custom metadata, then the reserved keys over it. *)
Definition chargeMetadata (request : PSPChargeRequest) : list (string * Json) :=
  let l := textMember <$> nullish (rq_metadata request) [] in
  let l := setMember "paymentId" (JStr (rq_paymentId request)) l in
  let l := setMember "merchantId" (JStr (rq_merchantId request)) l in
  if truthy (rq_binCountry request) then setMember "binCountry" (JStr (nullish (rq_binCountry request) "")) l else l.

Definition chargeBody (request : PSPChargeRequest) : Json :=
  JObj
    ([("merchantAccount", JStr (merchantAccount C));
      ("amount", amountOf (Money.amountMinorUnits (rq_amount request)) (rq_currency request));
      ("reference", JStr (rq_paymentId request));
      ("paymentMethod",
        JObj (textMember <$> (("type"%string, "scheme"%string) :: whenTruthy "storedPaymentMethodId" (rq_paymentMethodId request))));
      ("returnUrl", JStr "https://your-company.com/checkout/return");
      ("metadata", JObj (chargeMetadata request));
      ("additionalData",
        JObj (("allow3DS2"%string, JStr "true")
                :: match rq_captureMethod request with Some manual => [("manualCapture"%string, JStr "true")] | _ => [] end))]
     ++ (textMember <$> whenTruthy "shopperStatement" (rq_statementDescriptor request))
     ++ match rq_scaExemptionRequested request with
        | Some Sca.MIT => [("shopperInteraction"%string, JStr "ContAuth")]
        | Some Sca.LOW_VALUE => [("scaExemption"%string, JStr "lowValue")]
        | Some Sca.TRANSACTION_RISK_ANALYSIS => [("scaExemption"%string, JStr "transactionRiskAnalysis")]
        | None => []
        end).

(** [response.additionalData?.[name]], the answer not being [null]. *)
Definition additional (response : Json) (name : string) : option Json := chain (chain (Some response) "additionalData") name.

Definition extractRiskSignal (response : Json) : option RiskSignal :=
  match chain (chain (Some response) "fraudResult") "accountScore" with
  | Some (JNum score) => Some (mkRiskSignal None (Some score))
  | _ => None
  end.

Definition extractCardCheckResult (response : Json) : option Json * option Json :=
  (ifTruthyJson (additional response "avsResult"), ifTruthyJson (additional response "cvcResult")).

Definition extractScaExemptionIndicator (request : PSPChargeRequest) (response : Json) : option Sca.ScaExemptionType :=
  match rq_scaExemptionRequested request with
  | Some Sca.MIT => Some Sca.MIT
  | _ =>
      let indicator := additional response "exemptionIndicator" in
      if isText indicator "lowValue" then Some Sca.LOW_VALUE
      else if isText indicator "transactionRiskAnalysis" then Some Sca.TRANSACTION_RISK_ANALYSIS
      else None
  end.

Definition extractNetworkTokenization (response : Json) : option bool :=
  if negb (truthyJson (additional response "networkToken.bin")) && negb (truthyJson (additional response "networkToken.tokenSummary"))
  then None else Some true.

Definition extractPaymentMethodType (response : Json) : option PaymentMethodType :=
  let type := chain (chain (Some response) "paymentMethod") "type" in
  if truthyJson type then Some (if isText type "applepay" || isText type "googlepay" then wallet else card) else None.

(** [response.pspReference || request.paymentId] *)
Definition reference (request : PSPChargeRequest) (response : Json) : option Json :=
  let r := chain (Some response) "pspReference" in if truthyJson r then r else Some (JStr (rq_paymentId request)).

Definition interpretCharge (request : PSPChargeRequest) (response : Json) : result ChargeResponse :=
  resultCode ← field response "resultCode";
  let '(avs, cvv) := extractCardCheckResult response in
  let authorised success status :=
    mkChargeResponse success (chain (Some response) "pspReference") status None response None None (extractRiskSignal response) avs cvv
      (extractScaExemptionIndicator request response) (extractNetworkTokenization response) (extractPaymentMethodType response) in
  if isText resultCode "Authorised" then
    Ok match rq_captureMethod request with
       | Some manual => authorised false CHARGE_REQUIRES_CAPTURE
       | _ => authorised true CHARGE_SUCCEEDED
       end
  else if isText resultCode "RedirectShopper" || isText resultCode "IdentifyShopper" then
    Ok (mkChargeResponse false (reference request response) CHARGE_REQUIRES_ACTION (chain (chain (Some response) "action") "url") response
          None None None None None None None None)
  else
    Ok (mkChargeResponse false (reference request response) CHARGE_FAILED None response (chain (Some response) "refusalReasonCode")
          (chain (Some response) "refusalReason") (extractRiskSignal response) avs cvv None None None).

Definition charge (request : PSPChargeRequest) : psp ChargeResponse :=
  _ ← assertAvailable ADYEN;
  startTime ← call CLOCK;
  recorded ADYEN
    (response ← timed ADYEN startTime (makeRequest "POST" "/payments" (Some (chargeBody request)) (Some (rq_idempotencyKey request)));
     of_result (interpretCharge request response)).

(** The body of [refund], [capture] and, without an amount, [cancel]. *)
Definition actionBody (amount : option Money.t) (reference : string) : Json :=
  JObj ([("merchantAccount"%string, JStr (merchantAccount C))]
        ++ match amount with
           | Some m => [("amount"%string, amountOf (Money.amountMinorUnits m) (Currency.code (Money.currency m)))]
           | None => []
           end
        ++ [("reference"%string, JStr reference)]).

(** [/payments/${id}/${what}] *)
Definition actionPath (pspTransactionId what : string) : string := "/payments/" +:+ pspTransactionId +:+ "/" +:+ what.

Definition refund (request : RefundRequest) : psp RefundResponse :=
  _ ← assertAvailable ADYEN;
  recorded ADYEN
    (response ← makeRequest "POST" (actionPath (re_pspTransactionId request) "refunds")
                  (Some (actionBody (Some (re_amount request)) (re_refundId request))) (Some (re_idempotencyKey request));
     id ← of_result (field response "pspReference");
     mret (mkRefundResponse true id PSP_REFUND_PENDING response)).

Definition capture (request : ActionRequest) : psp ActionResponse :=
  _ ← assertAvailable ADYEN;
  recorded ADYEN
    (response ← makeRequest "POST" (actionPath (aq_pspTransactionId request) "captures")
                  (Some (actionBody (Some (aq_amount request)) ("capture-" +:+ aq_paymentId request))) (Some (aq_idempotencyKey request));
     id ← of_result (field response "pspReference");
     mret (mkActionResponse true id response)).

Definition cancel (request : ActionRequest) : psp ActionResponse :=
  _ ← assertAvailable ADYEN;
  recorded ADYEN
    (response ← makeRequest "POST" (actionPath (aq_pspTransactionId request) "cancels")
                  (Some (actionBody None ("cancel-" +:+ aq_paymentId request))) (Some (aq_idempotencyKey request));
     mret (mkActionResponse true None response)).

Definition verifyBody (request : VerifyRequest) (now : Date) : Json :=
  JObj [("merchantAccount", JStr (merchantAccount C)); ("amount", amountOf 0 (ve_currency request));
        ("reference", JStr ("verify-" +:+ ve_merchantId request +:+ "-" +:+ pretty now));
        ("paymentMethod", JObj [("type", JStr "scheme"); ("storedPaymentMethodId", JStr (ve_paymentMethodId request))]);
        ("shopperInteraction", JStr "ContAuth"); ("metadata", JObj [("merchantId", JStr (ve_merchantId request))])].

Definition verifyPaymentMethod (request : VerifyRequest) : psp VerifyResponse :=
  _ ← assertAvailable ADYEN;
  startTime ← call CLOCK;
  recorded ADYEN
    (now ← call CLOCK;
     response ← timed ADYEN startTime
                  (makeRequest "POST" "/payments/verify" (Some (verifyBody request now)) (Some (ve_idempotencyKey request)));
     resultCode ← of_result (field response "resultCode");
     let id := chain (Some response) "pspReference" in
     mret (if isText resultCode "Authorised" then mkVerifyResponse true id response None None
           else mkVerifyResponse false id response (chain (Some response) "refusalReasonCode") (chain (Some response) "refusalReason"))).

Definition interpretQuery (response : Json) : result QueryResult :=
  found ← field response "found";
  if negb (truthyJson found) then Ok (mkQueryResult QUERY_STILL_UNKNOWN None None None)
  else
    let id := chain (Some response) "pspReference" in
    if isText (chain (Some response) "resultCode") "Authorised" then Ok (mkQueryResult QUERY_SUCCEEDED id None (Some response))
    else Ok (mkQueryResult QUERY_FAILED id (chain (Some response) "refusalReasonCode") (Some response)).

Definition queryOutcome (idempotencyKey : string) : psp QueryResult :=
  _ ← assertAvailable ADYEN;
  startTime ← call CLOCK;
  recorded ADYEN
    (response ← timed ADYEN startTime
                  (makeRequest "GET" ("/payments/lookup?idempotencyKey=" +:+ encodeURIComponent idempotencyKey) None None);
     of_result (interpretQuery response)).

Definition ADYEN_CURRENCIES : list string :=
  ["USD"; "EUR"; "GBP"; "AUD"; "CAD"; "CHF"; "SEK"; "NOK"; "DKK"; "PLN"; "CZK"; "HUF"; "RON"; "BGN"; "HRK"; "JPY"; "CNY"; "HKD";
   "SGD"; "MYR"; "THB"; "IDR"; "PHP"; "INR"; "ZAR"; "AED"; "SAR"].

Definition ADYEN_COUNTRIES : list string :=
  ["AT"; "BE"; "BG"; "CY"; "CZ"; "DE"; "DK"; "EE"; "ES"; "FI"; "FR"; "GR"; "HR"; "HU"; "IE"; "IT"; "LT"; "LU"; "LV"; "MT"; "NL";
   "PL"; "PT"; "RO"; "SE"; "SI"; "SK"; "GB"; "US"; "AU"; "CA"; "JP"; "SG"; "HK"; "MY"; "TH"; "ID"; "PH"; "IN"; "ZA"].

Definition getHealthStatus : psp PSPHealthStatus := PspAdapter.getHealthStatus C ADYEN ADYEN_CURRENCIES ADYEN_COUNTRIES.
Definition isAvailable : psp bool := PspAdapter.isAvailable ADYEN.

Definition get (path : string) (query : params) : HttpRequest :=
  mkHttpRequest "GET" (baseUrl C +:+ path +:+ "?" +:+ toString query) [("X-API-Key", apiKey C)] None.

Definition fetchSettlementTransactions (since until : Date) : psp (list PSPSettlementTransaction) :=
  settlementReport C (get "/settlement-report" [("since", pretty (fromSecond since)); ("until", pretty (toSecond until))]) "transactions".

Definition fetchFeeStatement (since until : Date) (currency : string) : psp FeeStatement :=
  feeStatement (get "/statement" [("since", pretty (fromSecond since)); ("until", pretty (toSecond until)); ("currency", currency)]).

Definition submitDisputeEvidence (pspDisputeId evidence : string) : psp EvidenceResponse :=
  catch
    (response ← makeRequest "POST" ("/disputes/" +:+ pspDisputeId +:+ "/defense") (Some (JObj [("content", JStr evidence)])) None;
     success ← of_result (field response "success");
     mret (mkEvidenceResponse (match success with Some (JBool true) => true | _ => false end) response false))
    (λ _, mret (mkEvidenceResponse false (JObj []) true)).

End adapter.
End AdyenPSPAdapter.

(** ** The registered adapters *)

(** [getAdapter(provider).charge(request)], each adapter with its own configuration. *)
Definition chargeAt (C : PSPProvider → AdapterConfig) (provider : PSPProvider) (request : PSPChargeRequest) : psp ChargeResponse :=
  match provider with
  | STRIPE => StripePSPAdapter.charge (C STRIPE) request
  | ADYEN => AdyenPSPAdapter.charge (C ADYEN) request
  | _ => Fail (NoAdapterRegistered (provider_name provider))
  end.
