(* ===== verification/PspAdapterCorrect.v ===== *)
(** * The adapters of the card providers: proofs

    What an adapter does when every answer of Redis, the network and the provider is
    possible: one request at most, and what it reports is what the provider said. *)

From stdpp Require Import pretty.
From S2P Require Import Prelude JsNumber Money Policies PaymentStatus Payment Routing Checkout CheckoutCorrect Redis Breaker Reconciliation Program Url PspAdapter.

(** ** Programs against any environment *)

(** What an adapter did: requests with their answers, Redis commands that failed, and
    the permits of the bulkhead. *)
Inductive note := Sent (r : HttpRequest) (answer : result HttpResponse) | CacheError (e : js_error) | Acquired | Released.

Definition noted {X} (c : psp_event X) : X → list note :=
  match c in psp_event Y return Y → list note with
  | CACHE _ => λ r, match r with Throw e => [CacheError e] | Ok _ => [] end
  | FETCH r => λ a, [Sent r a]
  | CLOCK => λ _, []
  | ACQUIRE => λ _, [Acquired]
  | RELEASE => λ _, [Released]
  end.

(** With some answers to its events the program does [t] and ends in [r]. *)
Fixpoint behaves {X} (p : psp X) (t : list note) (r : result X) : Prop :=
  match p with
  | Ret a => t = [] ∧ r = Ok a
  | Fail e => t = [] ∧ r = Throw e
  | Do c k => ∃ y t', t = noted c y ++ t' ∧ behaves (k y) t' r
  end.

Lemma behaves_bind {X Y} (p : psp X) (f : X → psp Y) t r :
  behaves (p ≫= f) t r →
  ∃ t1 r1 t2, t = t1 ++ t2 ∧ behaves p t1 r1 ∧ match r1 with Ok a => behaves (f a) t2 r | Throw e => t2 = [] ∧ r = Throw e end.
Proof.
  revert t. induction p as [a|e|Z c k IH]; intros t; cbn.
  - intros H. by exists [], (Ok a), t.
  - intros [-> ->]. by exists [], (Throw e), [].
  - intros (y & t' & -> & H). destruct (IH y t' H) as (t1 & r1 & t2 & -> & H1 & H2).
    exists (noted c y ++ t1), r1, t2. rewrite <- app_assoc. split_and!; [done|by exists y, t1|done].
Qed.

Lemma behaves_catch {X} (p : psp X) (h : js_error → psp X) t r :
  behaves (catch p h) t r →
  ∃ t1 r1 t2, t = t1 ++ t2 ∧ behaves p t1 r1 ∧ match r1 with Ok a => t2 = [] ∧ r = Ok a | Throw e => behaves (h e) t2 r end.
Proof.
  revert t. induction p as [a|e|Z c k IH]; intros t; cbn.
  - intros [-> ->]. by exists [], (Ok a), [].
  - intros H. by exists [], (Throw e), t.
  - intros (y & t' & -> & H). destruct (IH y t' H) as (t1 & r1 & t2 & -> & H1 & H2).
    exists (noted c y ++ t1), r1, t2. rewrite <- app_assoc. split_and!; [done|by exists y, t1|done].
Qed.

Lemma behaves_of_result {X} (x : result X) t r : behaves (of_result x) t r → t = [] ∧ r = x.
Proof. by destruct x. Qed.

(** ** The breaker *)

(** Every error a program of the breaker throws on its own satisfies [Q]. *)
Fixpoint throws {X} (Q : js_error → Prop) (p : P X) : Prop :=
  match p with Ret _ => True | Fail e => Q e | Do c k => ∀ x, throws Q (k x) end.

Lemma throws_bind {X Y} Q (p : P X) (f : X → P Y) : throws Q p → (∀ x, throws Q (f x)) → throws Q (p ≫= f).
Proof. intros Hp Hf. induction p as [a|e|Z c k IH]; cbn in *; auto. Qed.

(** It sends nothing: it ends, or a Redis command fails and its error is thrown. *)
Lemma behaves_breaker {X} Q (p : P X) t r : throws Q p → behaves (breaker p) t r →
  (t = [] ∧ ∀ e, r = Throw e → Q e) ∨ (∃ e, t = [CacheError e] ∧ r = Throw e).
Proof.
  revert t. induction p as [a|e|Z c k IH]; intros t Hq; cbn [breaker].
  - intros [-> ->]. by left.
  - intros [-> ->]. left. split; [done|]. intros ? [= <-]. done.
  - intros (t1 & r1 & t2 & -> & H1 & H2)%behaves_bind.
    assert ((t1 = [] ∧ ∃ z, r1 = Ok z) ∨ ∃ e, t1 = [CacheError e] ∧ r1 = Throw e) as [[-> (z & ->)]|(e & -> & ->)].
    { destruct c; cbn in H1; try (destruct H1 as (y & t' & -> & H1); destruct y as [y|e]; destruct H1 as [-> ->]; [left; eauto|right; eauto]).
      destruct H1 as (y & t' & -> & -> & ->). left. eauto. }
    + apply (IH z t2); [apply Hq|done].
    + destruct H2 as [-> ->]. right. by exists e.
Qed.

Section breaker_throws.
Import RedisCircuitBreakerService.
Context (name : string).

Ltac walk := repeat first [apply throws_bind; [|intros] | case_match | by cbn].

Lemma assertAvailable_throws : throws (λ e, e = CircuitOpen name) (RedisCircuitBreakerService.assertAvailable name).
Proof. unfold RedisCircuitBreakerService.assertAvailable, hasRecoveryWindowElapsed, claimTrial, claimed. walk. Qed.

Lemma recordSuccess_throws latency : throws (λ _, False) (RedisCircuitBreakerService.recordSuccess name latency).
Proof.
  unfold RedisCircuitBreakerService.recordSuccess, recordSlowCallSample, currentEpochMinute, incrBucket. walk.
Qed.

Lemma recordFailure_throws : throws (λ _, False) (RedisCircuitBreakerService.recordFailure name).
Proof. unfold RedisCircuitBreakerService.recordFailure, currentEpochMinute, incrBucket. walk. Qed.
End breaker_throws.

Lemma behaves_recording {X} (p : P X) t r : throws (λ _, False) p → behaves (breaker p) t r →
  (t = [] ∧ ∃ a, r = Ok a) ∨ (∃ e, t = [CacheError e] ∧ r = Throw e).
Proof.
  intros Hp [[-> Hr]|H]%(behaves_breaker _ _ _ _ Hp); [left|by right]. split; [done|]. destruct r; [eauto|by destruct (Hr e)].
Qed.

(** ** One request *)

Definition outcomeOf (noResponse : string) (rejected : HttpResponse → Json → result js_error) (a : result HttpResponse) : result Json :=
  match a with
  | Throw _ => Throw (PspError true None noResponse)
  | Ok response =>
      data ← hs_json response;
      if hs_ok response then Ok data else e ← rejected response data; Throw e
  end.

Definition traffic (rq : HttpRequest) (a : result HttpResponse) : list note := [Acquired; Sent rq a; Released].

Lemma behaves_request rq noResponse rejected t r : behaves (bulkhead (exchange rq noResponse rejected)) t r →
  ∃ a, t = traffic rq a ∧ r = outcomeOf noResponse rejected a.
Proof.
  intros (t0 & r0 & t1 & -> & (y & u & -> & -> & ->) & (t2 & r2 & t3 & -> & H2 & H3)%behaves_bind)%behaves_bind.
  assert (∃ a, t2 = [Sent rq a] ∧ r2 = Ok (outcomeOf noResponse rejected a)) as (a & -> & ->).
  { clear H3. apply behaves_catch in H2 as (s1 & r1 & s2 & -> & H1 & H2). apply behaves_bind in H1 as (u1 & q1 & u2 & -> & H1 & H3).
    enough (∃ a, u1 = [Sent rq a] ∧ q1 = outcomeOf noResponse rejected a) as (a & -> & ->).
    { exists a. destruct (outcomeOf noResponse rejected a) as [x|e]; destruct H3 as [-> ->]; destruct H2 as [-> ->]; done. }
    clear H3 H2. apply behaves_bind in H1 as (v1 & w1 & v2 & -> & H1 & H2).
    apply behaves_catch in H1 as (x1 & z1 & x2 & -> & (a & x3 & -> & H1) & H3). apply behaves_of_result in H1 as [-> ->].
    exists a. destruct a as [response|e].
    - destruct H3 as [-> ->]. apply behaves_bind in H2 as (y1 & b1 & y2 & -> & [-> ->]%behaves_of_result & H2). cbn.
      destruct (hs_json response) as [data|e]; [|by destruct H2 as [-> ->]]. cbn. destruct (hs_ok response); cbn [negb] in H2.
      + by destruct H2 as [-> ->].
      + apply behaves_bind in H2 as (c1 & d1 & c2 & -> & [-> ->]%behaves_of_result & H2).
        destruct (rejected response data) as [e|e]; destruct H2 as [-> ->]; done.
    - destruct H3 as [-> ->]. destruct H2 as [-> ->]. done. }
  apply behaves_bind in H3 as (t4 & r4 & t5 & -> & (z & v & -> & -> & ->) & [-> ->]%behaves_of_result). by exists a.
Qed.

(** ** A call behind the breaker *)

(** The trace and the result of a call: the breaker refuses it; Redis cannot be asked; or
    the request is sent, and the result is the provider's unless Redis fails after it. *)
Inductive tracked {X} (p : PSPProvider) (rq : HttpRequest) (outcome : result HttpResponse → result X) : list note → result X → Prop :=
  | tr_refused : tracked p rq outcome [] (Throw (CircuitOpen (provider_name p)))
  | tr_unread e : tracked p rq outcome [CacheError e] (Throw e)
  | tr_sent a es :
      tracked p rq outcome (traffic rq a ++ (CacheError <$> es)) match last es with Some e => Throw e | None => outcome a end.

Lemma behaves_recorded {X} p (body : psp X) t r : behaves (recorded p body) t r →
  ∃ t1 r1, behaves body t1 r1 ∧
    match r1 with
    | Ok _ => t = t1 ∧ r = r1
    | Throw _ => (t = t1 ∧ r = r1) ∨ ∃ e, t = t1 ++ [CacheError e] ∧ r = Throw e
    end.
Proof.
  intros (t1 & r1 & t2 & -> & H1 & H2)%behaves_catch. exists t1, r1. split; [done|]. destruct r1 as [a|err].
  - destruct H2 as [-> ->]. by rewrite app_nil_r.
  - apply behaves_bind in H2 as (t3 & r3 & t4 & -> & H3 & H4).
    destruct (behaves_recording _ _ _ (recordFailure_throws _) H3) as [(-> & a & ->)|(e & -> & ->)]; destruct H4 as [-> ->].
    + left. by rewrite !app_nil_r.
    + right. exists e. by rewrite app_nil_r.
Qed.

Lemma behaves_timed p start request t r : behaves (timed p start request) t r →
  ∃ t1 r1, behaves request t1 r1 ∧
    match r1 with
    | Throw _ => t = t1 ∧ r = r1
    | Ok _ => (t = t1 ∧ r = r1) ∨ ∃ e, t = t1 ++ [CacheError e] ∧ r = Throw e
    end.
Proof.
  intros (t1 & r1 & t2 & -> & H1 & H2)%behaves_bind. exists t1, r1. split; [done|]. destruct r1 as [a|err].
  - apply behaves_bind in H2 as (t3 & r3 & t4 & -> & (now & u & -> & -> & ->) & H4).
    apply behaves_bind in H4 as (t5 & r5 & t6 & -> & H5 & H6).
    destruct (behaves_recording _ _ _ (recordSuccess_throws _ _) H5) as [(-> & x & ->)|(e & -> & ->)]; destruct H6 as [-> ->].
    + left. by rewrite !app_nil_r.
    + right. exists e. by rewrite app_nil_r.
  - destruct H2 as [-> ->]. by rewrite app_nil_r.
Qed.

Lemma behaves_available {X} p (f : psp X) t r : behaves (_ ← assertAvailable p; f) t r →
  (t = [] ∧ r = Throw (CircuitOpen (provider_name p))) ∨ (∃ e, t = [CacheError e] ∧ r = Throw e) ∨ behaves f t r.
Proof.
  intros (t1 & r1 & t2 & -> & H1 & H2)%behaves_bind.
  destruct (behaves_breaker _ _ _ _ (assertAvailable_throws _) H1) as [[-> Hr]|(e & -> & ->)].
  - destruct r1 as [[]|e]; [by right; right|]. rewrite (Hr e eq_refl) in H2. destruct H2 as [-> ->]. by left.
  - destruct H2 as [-> ->]. right. left. by exists e.
Qed.

Lemma traffic_snoc rq a es e : traffic rq a ++ (CacheError <$> es) ++ [CacheError e] = traffic rq a ++ (CacheError <$> (es ++ [e])).
Proof. by rewrite fmap_app. Qed.

(** The methods that report success and failure to the breaker. *)
Lemma behaves_tracked {X} p rq noResponse rejected (interpret : Json → result X) t r :
  behaves (_ ← assertAvailable p; startTime ← call CLOCK;
           recorded p (response ← timed p startTime (bulkhead (exchange rq noResponse rejected)); of_result (interpret response))) t r →
  tracked p rq (λ a, outcomeOf noResponse rejected a ≫= interpret) t r.
Proof.
  intros [[-> ->]|[(e & -> & ->)|H]]%behaves_available; [constructor..|].
  apply behaves_bind in H as (t1 & r1 & t2 & -> & (now & u & -> & -> & ->) & (t3 & r3 & H & H')%behaves_recorded).
  change (noted CLOCK now ++ []) with (@nil note). rewrite app_nil_l.
  enough (∃ a es, t3 = traffic rq a ++ (CacheError <$> es) ∧ r3 = match last es with Some e => Throw e | None => outcomeOf noResponse rejected a ≫= interpret end)
    as (a & es & -> & ->).
  { destruct (match last es with Some _ => _ | None => _ end) eqn:Er; [destruct H' as [-> ->]; rewrite <- Er; constructor|].
    destruct H' as [[-> ->]|(e' & -> & ->)]; [rewrite <- Er; constructor|]. rewrite <- app_assoc, traffic_snoc.
    replace (Throw e') with (match last (es ++ [e']) with Some e => @Throw X e | None => outcomeOf noResponse rejected a ≫= interpret end)
      by by rewrite last_snoc.
    constructor. }
  clear H'. apply behaves_bind in H as (t4 & r4 & t5 & -> & (t6 & r6 & (a & -> & ->)%behaves_request & H1)%behaves_timed & H2).
  exists a. destruct (outcomeOf noResponse rejected a) as [data|e] eqn:Eo.
  - destruct H1 as [[-> ->]|(e & -> & ->)].
    + apply behaves_of_result in H2 as [-> ->]. exists []. done.
    + destruct H2 as [-> ->]. exists [e]. done.
  - destruct H1 as [-> ->]. destruct H2 as [-> ->]. exists []. done.
Qed.

(** The methods that only report failure. *)
Lemma behaves_untimed {X} p rq noResponse rejected (interpret : Json → result X) t r :
  behaves (_ ← assertAvailable p;
           recorded p (response ← bulkhead (exchange rq noResponse rejected); of_result (interpret response))) t r →
  tracked p rq (λ a, outcomeOf noResponse rejected a ≫= interpret) t r.
Proof.
  intros [[-> ->]|[(e & -> & ->)|(t3 & r3 & H & H')%behaves_recorded]]%behaves_available; [constructor..|].
  apply behaves_bind in H as (t4 & r4 & t5 & -> & (a & -> & ->)%behaves_request & H2).
  assert (t5 = [] ∧ r3 = outcomeOf noResponse rejected a ≫= interpret) as [-> ->].
  { destruct (outcomeOf noResponse rejected a); [by apply behaves_of_result in H2|done]. }
  rewrite app_nil_r in H'. pose proof (tr_sent p rq (λ a, outcomeOf noResponse rejected a ≫= interpret) a) as Hc.
  destruct (outcomeOf noResponse rejected a ≫= interpret) as [x|e] eqn:Eo.
  - destruct H' as [-> ->]. specialize (Hc []). cbn in Hc. by rewrite Eo in Hc.
  - destruct H' as [[-> ->]|(e' & -> & ->)].
    + specialize (Hc []). cbn in Hc. by rewrite Eo in Hc.
    + specialize (Hc [e']). exact Hc.
Qed.

(** ** What a charge reports *)

(** The request on the wire. *)
Definition wire (C : PSPProvider → AdapterConfig) (p : PSPProvider) (request : PSPChargeRequest) : HttpRequest :=
  let C := C p in
  let key := whenTruthy "Idempotency-Key" (Some (rq_idempotencyKey request)) in
  match p with
  | STRIPE =>
      mkHttpRequest "POST" (baseUrl C +:+ "/payment_intents")
        ([("Authorization", "Bearer " +:+ apiKey C); ("Content-Type", "application/x-www-form-urlencoded"); ("Stripe-Version", "2023-10-16")] ++ key)
        (Some (FormText (toString (StripePSPAdapter.chargeParams request))))
  | _ =>
      mkHttpRequest "POST" (baseUrl C +:+ "/payments") ([("X-API-Key", apiKey C); ("Content-Type", "application/json")] ++ key)
        (Some (JsonText (AdyenPSPAdapter.chargeBody C request)))
  end.

(** What the words of a provider mean; any other answer is a refusal. *)
Definition vocabulary (p : PSPProvider) (request : PSPChargeRequest) : string * list (string * ChargeStatus) :=
  match p with
  | STRIPE =>
      ("status"%string,
       [("succeeded"%string, CHARGE_SUCCEEDED); ("requires_capture"%string, CHARGE_REQUIRES_CAPTURE); ("requires_action"%string, CHARGE_REQUIRES_ACTION)])
  | _ =>
      ("resultCode"%string,
       [("Authorised"%string, match rq_captureMethod request with Some manual => CHARGE_REQUIRES_CAPTURE | _ => CHARGE_SUCCEEDED end);
        ("RedirectShopper"%string, CHARGE_REQUIRES_ACTION); ("IdentifyShopper"%string, CHARGE_REQUIRES_ACTION)])
  end.

Fixpoint translation (words : list (string * ChargeStatus)) (word : string) : ChargeStatus :=
  match words with [] => CHARGE_FAILED | (w, st) :: words => if String.eqb word w then st else translation words word end.

Definition meaning (p : PSPProvider) (request : PSPChargeRequest) (data : Json) : ChargeStatus :=
  let '(name, words) := vocabulary p request in
  match chain (Some data) name with
  | Some (JStr word) => translation words word
  | _ => CHARGE_FAILED
  end.

(** A response that passes on what the provider said. *)
Definition reports (p : PSPProvider) (request : PSPChargeRequest) (data : Json) (resp : ChargeResponse) : Prop :=
  ch_rawResponse resp = data ∧ ch_status resp = meaning p request data ∧ ch_success resp = bool_decide (meaning p request data = CHARGE_SUCCEEDED).

Definition chargeOutcome (C : PSPProvider → AdapterConfig) (p : PSPProvider) (request : PSPChargeRequest) (a : result HttpResponse) : result ChargeResponse :=
  match p with
  | STRIPE =>
      outcomeOf "Stripe request failed with no response" (StripePSPAdapter.rejected (C STRIPE)) a ≫= StripePSPAdapter.interpretCharge request
  | _ =>
      outcomeOf "Adyen request failed with no response" (AdyenPSPAdapter.rejected (C ADYEN)) a ≫= AdyenPSPAdapter.interpretCharge request
  end.

Lemma charge_tracked C p request t r : p ∈ PaymentProcessorFactory.getRegisteredProviders →
  behaves (chargeAt C p request) t r → tracked p (wire C p request) (chargeOutcome C p request) t r.
Proof.
  intros Hp Hb. unfold PaymentProcessorFactory.getRegisteredProviders in Hp.
  apply elem_of_cons in Hp as [->|[-> | []%elem_of_nil]%elem_of_cons]; exact (behaves_tracked _ _ _ _ _ _ _ Hb).
Qed.

Lemma field_chain data name v : field data name = Ok v → v = chain (Some data) name.
Proof. by destruct data; intros [= <-]. Qed.

(** Distinct words. *)
Ltac by_word word :=
  repeat match goal with
  | H : context [String.eqb word ?w] |- _ => destruct (String.eqb_spec word w); [subst word|]
  end.

Lemma stripe_reports request data resp : StripePSPAdapter.interpretCharge request data = Ok resp → reports STRIPE request data resp.
Proof.
  unfold StripePSPAdapter.interpretCharge. intros (st & ->%field_chain & H)%bind_ok_iff.
  destruct (StripePSPAdapter.extractCardCheckResult data) as [avs cvv]. unfold reports, meaning. cbn [vocabulary].
  destruct (chain (Some data) "status") as [[| | |word| |]|]; try (injection H as <-; done). cbn [isText] in H. cbn [translation].
  by_word word; injection H as <-; done.
Qed.

Lemma adyen_reports request data resp : AdyenPSPAdapter.interpretCharge request data = Ok resp → reports ADYEN request data resp.
Proof.
  unfold AdyenPSPAdapter.interpretCharge. intros (st & ->%field_chain & H)%bind_ok_iff. unfold reports, meaning. cbn [vocabulary].
  cbn [AdyenPSPAdapter.extractCardCheckResult] in H.
  destruct (chain (Some data) "resultCode") as [[| | |word| |]|]; try (injection H as <-; done). cbn [isText] in H. cbn [translation].
  by_word word; cbn [orb] in H; injection H as <-; [by destruct (rq_captureMethod request) as [[]|]|done..].
Qed.

Definition cacheErrors (t : list note) : list js_error := omap (λ n, match n with CacheError e => Some e | _ => None end) t.

Lemma cacheErrors_traffic rq a es : cacheErrors (traffic rq a ++ (CacheError <$> es)) = es.
Proof. cbn. induction es as [|e es IH]; [done|]. cbn. by f_equal. Qed.

(** The provider's answer as the adapter reports it. *)
Lemma chargeOutcome_ok C p request a resp : p ∈ PaymentProcessorFactory.getRegisteredProviders →
  chargeOutcome C p request a = Ok resp →
  ∃ hs data, a = Ok hs ∧ hs_ok hs = true ∧ hs_body hs = Some data ∧ reports p request data resp.
Proof.
  intros Hp Ho. assert (∃ hs data, a = Ok hs ∧ hs_ok hs = true ∧ hs_body hs = Some data ∧
    match p with STRIPE => StripePSPAdapter.interpretCharge request data | _ => AdyenPSPAdapter.interpretCharge request data end = Ok resp)
    as (hs & data & -> & Hok & Hd & Hi).
  { destruct a as [hs|e]; [|by destruct p]. exists hs.
    destruct p; cbn in Ho; unfold hs_json in Ho; (destruct (hs_body hs) as [data|]; [|done]); cbn in Ho;
      (destruct (hs_ok hs); [by exists data|]); apply bind_ok_iff in Ho as (x & Hx & _); by apply bind_ok_iff in Hx as (? & _ & ?). }
  exists hs, data. split_and!; [done..|]. apply elem_of_cons in Hp as [->|[-> | []%elem_of_nil]%elem_of_cons].
  - by apply stripe_reports.
  - by apply adyen_reports.
Qed.

Lemma chargeOutcome_received C p request hs data : hs_ok hs = true → hs_body hs = Some data → data ≠ JNull →
  ∃ resp, chargeOutcome C p request (Ok hs) = Ok resp.
Proof.
  intros Hok Hd Hn. assert (∀ name, ∃ v, field data name = Ok v) as Hf by by destruct data; eauto.
  destruct p; cbn; unfold hs_json; rewrite Hd, Hok; cbn.
  all: unfold StripePSPAdapter.interpretCharge, AdyenPSPAdapter.interpretCharge.
  1: destruct (Hf "status"%string) as (v & ->). 2-4: destruct (Hf "resultCode"%string) as (v & ->).
  all: cbn; repeat case_match; eauto.
Qed.

Lemma field_definite data name e : field data name = Throw e → isAmbiguousOutcomeError e = false.
Proof. by destruct data; intros [= <-]. Qed.

(** An error says that the outcome is unknown when and only when there was no answer. *)
Lemma chargeOutcome_error C p request a e : chargeOutcome C p request a = Throw e →
  isAmbiguousOutcomeError e = negb (is_ok a) ∧
  ∀ hs data, a = Ok hs → hs_body hs = Some data → hs_ok hs = false ∨ data = JNull.
Proof.
  intros Ho. split.
  - destruct a as [hs|err]; [|by destruct p; injection Ho as <-]. cbn [is_ok negb]. destruct p; cbn in Ho; unfold hs_json in Ho;
      (destruct (hs_body hs) as [data|]; [|by injection Ho as <-]); cbn in Ho; (destruct (hs_ok hs); cbn in Ho).
    all: unfold StripePSPAdapter.interpretCharge, AdyenPSPAdapter.interpretCharge in Ho.
    all: unfold StripePSPAdapter.rejected, AdyenPSPAdapter.rejected in Ho.
    all: match type of Ho with context [field ?d ?n] => destruct (field d n) as [v|e'] eqn:Ef end; cbn in Ho;
      repeat case_match; try discriminate Ho; injection Ho as <-; try done; by apply field_definite in Ef.
  - intros hs data -> Hd. destruct (hs_ok hs) eqn:Hok; [|by left]. right.
    assert (data = JNull ∨ data ≠ JNull) as [|Hn] by (destruct data; auto); [done|].
    destruct (chargeOutcome_received C p request hs data Hok Hd Hn) as (resp & Hr). congruence.
Qed.

Lemma traffic_inj rq a b es : traffic rq a = traffic rq b ++ (CacheError <$> es) → a = b ∧ es = [].
Proof. intros [= -> H]. split; [done|]. by destruct es. Qed.

(** C9: an adapter tells the truth about a charge. Whatever Redis, the network and the
    provider answer, it sends at most one request, the one of this charge with its
    idempotency key, and gives its permit back. What it returns is what the provider
    answered with a 2xx status, by the words of that provider; a 2xx answer with an object
    is returned when Redis works; and, Redis working, an error says that the outcome is
    unknown exactly when the request was sent and no answer came. *)
Theorem charge_truthful C p request t r : p ∈ PaymentProcessorFactory.getRegisteredProviders →
  behaves (chargeAt C p request) t r →
  let rq := wire C p request in
  (∀ resp, r = Ok resp →
     ∃ hs data, t = traffic rq (Ok hs) ∧ hs_ok hs = true ∧ hs_body hs = Some data ∧ reports p request data resp) ∧
  (∀ hs data, t = traffic rq (Ok hs) → hs_ok hs = true → hs_body hs = Some data → data ≠ JNull → is_ok r = true) ∧
  (∀ e, r = Throw e → cacheErrors t = [] → isAmbiguousOutcomeError e = true ↔ ∃ err, t = traffic rq (Throw err)) ∧
  (t = [] ∨ (∃ e, t = [CacheError e]) ∨ ∃ a es, t = traffic rq a ++ (CacheError <$> es)).
Proof.
  intros Hp Hb rq. pose proof (charge_tracked C p request t r Hp Hb) as Ht. fold rq in Ht. split_and!.
  - intros resp ->. inversion Ht as [| |a es Et Er]; subst t. destruct (last es) as [e|] eqn:El; [done|]. apply last_None in El as ->.
    destruct (chargeOutcome_ok C p request a resp Hp Er) as (hs & data & -> & ?). exists hs, data. by rewrite app_nil_r.
  - intros hs data Et Hok Hd Hn. destruct Ht as [|e|a es]; [done..|]. apply eq_sym, traffic_inj in Et as [<- ->]. cbn [last].
    by destruct (chargeOutcome_received C p request hs data Hok Hd Hn) as (resp & ->).
  - intros e -> Hc. inversion Ht as [Et Er|e' Et Er|a es Et Er]; subst.
    + split; [done|]. by intros (err & [=]).
    + discriminate Hc.
    + rewrite cacheErrors_traffic in Hc. subst es. cbn [last] in Er. destruct (chargeOutcome_error C p request a e Er) as [-> _].
      cbn [fmap list_fmap]. rewrite app_nil_r. split.
      * destruct a as [hs|err]; [done|]. by exists err.
      * intros (err & [= ->]). done.
  - destruct Ht as [|e|a es]; eauto.
Qed.

(** ** What the provider reads *)

Definition values (name : string) (l : params) : list string := omap (λ p, if String.eqb p.1 name then Some p.2 else None) l.

Lemma values_app name l1 l2 : values name (l1 ++ l2) = values name l1 ++ values name l2.
Proof. apply omap_app. Qed.

Lemma values_whenTruthy name other x : String.eqb other name = false → values name (whenTruthy other x) = [].
Proof. intros H. unfold whenTruthy. destruct (truthy x); [|done]. cbn. by rewrite H. Qed.

Lemma metadata_name k k' : "metadata[" +:+ k +:+ "]" = "metadata[" +:+ k' +:+ "]" → k = k'.
Proof. intros H%(inj (String.append "metadata[")). by apply append_same_length in H as [-> _]. Qed.

(** Custom metadata comes under its own names only. *)
Lemma values_metadata name m :
  (∀ k, name = "metadata[" +:+ k +:+ "]" → includes StripePSPAdapter.reservedKeys k = true) →
  values name (StripePSPAdapter.metadataParams m) = [].
Proof.
  intros Hname. destruct m as [l|]; [|done]. cbn [StripePSPAdapter.metadataParams]. induction l as [|[k v] l IH]; [done|]. cbn [omap list_omap fst snd].
  destruct (includes StripePSPAdapter.reservedKeys k) eqn:Hk; [exact IH|]. cbn [values omap list_omap fst snd].
  destruct (String.eqb_spec ("metadata[" +:+ k +:+ "]") name) as [Heq|]; [|exact IH]. rewrite (Hname k) in Hk by done. done.
Qed.

(** Amount, currency and the payment of a Stripe charge are what the request says, once
    each, whatever the merchant's metadata. *)
Lemma stripe_fields request : let l := parseForm (toString (StripePSPAdapter.chargeParams request)) in
  values "amount" l = [pretty (Money.amountMinorUnits (rq_amount request))] ∧ values "currency" l = [toLowerCase (rq_currency request)] ∧
  values "metadata[payment_id]" l = [rq_paymentId request] ∧ values "metadata[merchant_id]" l = [rq_merchantId request].
Proof.
  cbv zeta. rewrite form_text_roundtrip. unfold StripePSPAdapter.chargeParams.
  assert (∀ name, (∀ k, name = "metadata[" +:+ k +:+ "]" → includes StripePSPAdapter.reservedKeys k = true) →
    Forall (λ n, String.eqb n name = false) ["payment_method"; "description"; "statement_descriptor"; "capture_method"; "metadata[bin_country]"; "off_session"]%string →
    ∀ l, values name (l ++ whenTruthy "payment_method" (rq_paymentMethodId request) ++ whenTruthy "description" (rq_description request)
      ++ (if truthy (rq_statementDescriptor request) then [("statement_descriptor", String.substring 0 22 (nullish (rq_statementDescriptor request) ""))] else [])
      ++ (match rq_captureMethod request with Some manual => [("capture_method", "manual")] | _ => [] end)
      ++ whenTruthy "metadata[bin_country]" (rq_binCountry request)
      ++ (match rq_scaExemptionRequested request with Some Sca.MIT => [("off_session", "true")] | _ => [] end)
      ++ StripePSPAdapter.metadataParams (rq_metadata request)) = values name l) as Hrest.
  { intros name Hm Hn l. repeat (apply Forall_cons in Hn as [? Hn]). rewrite !values_app, !values_whenTruthy, values_metadata by done.
    assert (∀ o x (b : bool), String.eqb o name = false → values name (if b then [(o, x)] else []) = []) as Hif by (intros ? ? [] Ho; cbn; by rewrite ?Ho).
    rewrite (Hif "statement_descriptor"%string) by assumption. destruct (rq_captureMethod request) as [[]|]; destruct (rq_scaExemptionRequested request) as [[]|];
      rewrite ?(Hif _ _ true), ?(Hif "off_session"%string "true"%string true) by done; cbn; rewrite ?app_nil_r;
      repeat match goal with H : String.eqb _ name = false |- _ => rewrite H; clear H end; by rewrite ?app_nil_r. }
  split_and!; rewrite Hrest; try done; try (by repeat constructor); intros k Hk.
  - change "metadata[payment_id]"%string with ("metadata[" +:+ "payment_id" +:+ "]") in Hk. by apply metadata_name in Hk as <-.
  - change "metadata[merchant_id]"%string with ("metadata[" +:+ "merchant_id" +:+ "]") in Hk. by apply metadata_name in Hk as <-.
Qed.

Lemma member_setMember name v l : member name (setMember name v l) = Some v.
Proof.
  induction l as [|[n w] l IH]; unfold member in *; cbn; [by rewrite decide_True|]. destruct (String.eqb_spec n name) as [->|Hn]; cbn; [by rewrite decide_True|].
  rewrite decide_False by done. destruct (list_find _ (setMember name v l)) as [[i [n' x]]|]; cbn in *; done.
Qed.

Lemma member_setMember_ne name other v l : other ≠ name → member name (setMember other v l) = member name l.
Proof.
  intros Hne. induction l as [|[n w] l IH]; unfold member in *; cbn; [by rewrite decide_False|].
  destruct (String.eqb_spec n other) as [->|Hn]; cbn; [by rewrite !decide_False|]. case_decide; [done|].
  by destruct (list_find _ (setMember other v l)) as [[i [n' x]]|], (list_find _ l) as [[i' [n'' x']]|].
Qed.

(** So are the payment and the merchant of an Adyen charge. *)
Lemma adyen_metadata request : let l := AdyenPSPAdapter.chargeMetadata request in
  member "paymentId" l = Some (JStr (rq_paymentId request)) ∧ member "merchantId" l = Some (JStr (rq_merchantId request)).
Proof.
  unfold AdyenPSPAdapter.chargeMetadata. cbv zeta. destruct (truthy (rq_binCountry request)).
  all: split; repeat (rewrite member_setMember || rewrite member_setMember_ne by done); done.
Qed.

(** * Adapters behind the fallback chain

    The checkout asks one provider, asks it again when the outcome is unknown, and only
    then another one. Here the providers are asked by the adapters of [PspAdapter]:
    [one_charge_stands] says when no second provider can have charged the customer. *)

Import PaymentProcessorFactory.

(** The answers in a trace. *)
Definition answersIn (t : list note) : list (result HttpResponse) := omap (λ n, match n with Sent _ a => Some a | _ => None end) t.

(** The charge may stand at a provider that gave these answers to the request and its
    repetitions, which carry one idempotency key: the last one is missing or is a
    success. *)
Definition stands (l : list (result HttpResponse)) : Prop :=
  match last l with
  | None => False
  | Some (Throw _) => True
  | Some (Ok hs) => hs_ok hs = true ∧ hs_body hs ≠ Some JNull
  end.

Section chain.
Context (C : PSPProvider → AdapterConfig) (request : PSPChargeRequest).

(** [trace calls p]: what the call of [p] did, when [calls] were made before. *)
Context (operation : list PSPProvider → PSPProvider → result ChargeResponse) (trace : list PSPProvider → PSPProvider → list note).

(** The calls of one checkout, where Redis answers, bodies can be read, and the breaker
    does not refuse the second call of a provider. *)
Record working : Prop := {
  wk_runs calls p : p ∈ getRegisteredProviders → behaves (chargeAt C p request) (trace calls p) (operation calls p);
  wk_cache calls p : cacheErrors (trace calls p) = [];
  wk_body calls p hs : Ok hs ∈ answersIn (trace calls p) → isSome (hs_body hs) = true;
  wk_retry p : p ∈ getRegisteredProviders → answersIn (trace [p] p) ≠ [] }.

(** The answers of [p] in the course of [calls]. *)
Fixpoint history (before calls : list PSPProvider) (p : PSPProvider) : list (result HttpResponse) :=
  match calls with
  | [] => []
  | q :: calls => (if decide (q = p) then answersIn (trace before q) else []) ++ history (before ++ [q]) calls p
  end.

Context (W : working) (available : PSPProvider → result bool).

(** One call: not sent, or one answer. *)
Lemma call_answers calls p : p ∈ getRegisteredProviders →
  (answersIn (trace calls p) = [] ∧ operation calls p = Throw (CircuitOpen (provider_name p))) ∨
  ∃ a, answersIn (trace calls p) = [a] ∧ operation calls p = chargeOutcome C p request a.
Proof.
  intros Hp. pose proof (wk_cache W calls p) as Hc. pose proof (charge_tracked _ _ _ _ _ Hp (wk_runs W calls p Hp)) as Ht.
  remember (trace calls p) as t. remember (operation calls p) as r. destruct Ht as [|e|a es].
  - by left.
  - discriminate Hc.
  - rewrite cacheErrors_traffic in Hc. subst es. right. by exists a.
Qed.

(** After a definite failure nothing stands. *)
Lemma definite_failure before p l : p ∈ getRegisteredProviders →
  is_ok (operation before p) = false → ambiguous (operation before p) = false →
  (l = [] ∨ answersIn (trace before p) ≠ []) → ¬ stands (l ++ answersIn (trace before p)).
Proof.
  intros Hp Hok Ha Hl. destruct (call_answers before p Hp) as [[Et Er]|(a & Et & Er)]; rewrite Et in *.
  - destruct Hl as [-> |]; [|done]. by intros [].
  - rewrite Er in Hok, Ha. destruct (chargeOutcome C p request a) as [x|e] eqn:Eo; [done|].
    destruct (chargeOutcome_error _ _ _ _ _ Eo) as [Hamb Hbad]. destruct a as [hs|err]; [|cbn in Ha, Hamb; congruence].
    unfold stands. rewrite last_snoc. intros [H1 H2].
    assert (isSome (hs_body hs) = true) as Hb by (apply (wk_body W before p); rewrite Et; by left).
    destruct (hs_body hs) as [data|] eqn:Ed; [|done]. destruct (Hbad hs data eq_refl Ed); congruence.
Qed.

(** A returned answer is what the provider said last, with a success. *)
Definition told (p : PSPProvider) (resp : ChargeResponse) (l : list (result HttpResponse)) : Prop :=
  ∃ hs data, last l = Some (Ok hs) ∧ hs_ok hs = true ∧ hs_body hs = Some data ∧ reports p request data resp.

Lemma success_told before p l resp : p ∈ getRegisteredProviders → operation before p = Ok resp →
  told p resp (l ++ answersIn (trace before p)).
Proof.
  intros Hp Hok. destruct (call_answers before p Hp) as [[Et Er]|(a & Et & Er)]; [congruence|]. rewrite Et.
  rewrite Hok in Er. destruct (chargeOutcome_ok C p request a resp Hp (eq_sym Er)) as (hs & data & -> & ? & ? & ?).
  exists hs, data. by rewrite last_snoc.
Qed.

Lemma history_app before c1 c2 x : history before (c1 ++ c2) x = history before c1 x ++ history (before ++ c1) c2 x.
Proof.
  revert before. induction c1 as [|q c1 IH]; intros before; cbn; [by rewrite app_nil_r|].
  rewrite IH, <- !app_assoc. done.
Qed.

Lemma history_not_in before calls x : x ∉ calls → history before calls x = [].
Proof.
  revert before. induction calls as [|q calls IH]; intros before Hx; [done|]. cbn. apply not_elem_of_cons in Hx as [Hne Hx].
  rewrite decide_False by done. apply IH, Hx.
Qed.

(** At most at one provider the charge may stand; a returned answer is what that one said,
    and a definite error means that it stands nowhere. *)
Definition single (o : list PSPProvider * result (ChargeResponse * PSPProvider * bool)) : Prop :=
  let standing x := stands (history [] o.1 x) in
  (∀ x y, standing x → standing y → x = y) ∧
  match o.2 with
  | Ok (resp, p, _) => told p resp (history [] o.1 p) ∧ ∀ x, standing x → x = p
  | Throw e => isAmbiguousOutcomeError e = false → ∀ x, ¬ standing x
  end.

Lemma single_only p calls r : (∀ x, x ≠ p → ¬ stands (history [] calls x)) →
  match r with Ok (resp, q, _) => q = p ∧ told p resp (history [] calls p) | Throw e => isAmbiguousOutcomeError e = false → ¬ stands (history [] calls p) end →
  single (calls, r).
Proof.
  intros Hne Hr. assert (∀ x, stands (history [] calls x) → x = p) as Hp.
  { intros x Hx. destruct (decide (x = p)) as [|Hxp]; [done|]. by destruct (Hne x Hxp). }
  split; cbn [fst snd].
  - intros x y Hx%Hp Hy%Hp. congruence.
  - destruct r as [[[a q] b]|e]; [by destruct Hr as [-> Hr]|]. intros He x Hx. pose proof (Hp x Hx). subst x. by apply Hr.
Qed.

(** Nothing stands so far: the fallback, if any, is alone. *)
Lemma fallback_single pre l : (∀ x, ¬ stands (history [] pre x)) →
  (l = [] ∨ ∃ q, l = [q] ∧ q ∉ pre ∧ getAdapter q = Ok q) →
  single (tryFallbacks operation available pre false l).
Proof.
  intros Hnone [->|(q & -> & Hq & Had)]; [by apply (single_only STRIPE); intros; apply Hnone|].
  assert (q ∈ getRegisteredProviders) as Hreg by (unfold getAdapter in Had; case_bool_decide; done).
  rewrite try_one by done. destruct (available q) as [[|]|e]; [|by apply (single_only q); intros; apply Hnone..].
  apply (single_only q).
  - intros x Hx. rewrite history_app. cbn. rewrite decide_False, app_nil_r by done. apply Hnone.
  - destruct (operation pre q) as [a|e] eqn:Eo.
    { split; [done|]. rewrite history_app, (history_not_in [] pre q) by done. cbn. rewrite decide_True, !app_nil_r by done. by apply (success_told pre q []). }
    intros He. rewrite history_app, (history_not_in [] pre q) by done. cbn.
    rewrite decide_True, !app_nil_r by done. apply (definite_failure pre q []); [done| | |by left]; by rewrite Eo.
Qed.

Lemma decision_single d : selectedProvider d ∈ getRegisteredProviders →
  (fallbackProviders d = [] ∨ ∃ q, fallbackProviders d = [q] ∧ q ≠ selectedProvider d ∧ getAdapter q = Ok q) →
  single (executeDecision operation available d).
Proof.
  set (p := selectedProvider d). intros Hp Hfb. unfold executeDecision. fold p. cbv zeta.
  assert (∀ n x, x ≠ p → ¬ stands (history [] (replicate n p) x)) as Hother.
  { intros n x Hx. rewrite history_not_in; [by intros []|]. by intros [? _]%elem_of_replicate. }
  assert (∀ pre : list PSPProvider, (∀ x, x ∈ pre → x = p) → fallbackProviders d = [] ∨ ∃ q, fallbackProviders d = [q] ∧ q ∉ pre ∧ getAdapter q = Ok q) as Hl.
  { intros pre Hpre. destruct Hfb as [|(q & ? & Hne & ?)]; [by left|]. right. exists q. split_and!; [done| |done]. intros Hin%Hpre. done. }
  assert (∀ n, ¬ stands (history [] (replicate n p) p) → single (tryFallbacks operation available (replicate n p) false (fallbackProviders d))) as Hf.
  { intros n Hn. apply fallback_single; [|apply Hl; by intros x [? _]%elem_of_replicate].
    intros x. destruct (decide (x = p)) as [->|Hx]; [done|by apply Hother]. }
  destruct (operation [] p) as [a|e1] eqn:E1.
  { apply (single_only p); [apply (Hother 1%nat)|]. split; [done|]. cbn. rewrite decide_True, app_nil_r by done. by apply (success_told [] p []). }
  destruct (isAmbiguousOutcomeError e1 || isTransientPspError e1) eqn:Eretry.
  - destruct (operation [p] p) as [a|e2] eqn:E2.
    { apply (single_only p); [apply (Hother 2%nat)|]. split; [done|]. cbn. rewrite !decide_True, app_nil_r by done. by apply success_told. }
    destruct (isAmbiguousOutcomeError e2) eqn:Ea2; [by apply (single_only p); [apply (Hother 2%nat)|]|].
    apply (Hf 2%nat). cbn. rewrite !decide_True, app_nil_r by done. apply definite_failure; [done|by rewrite E2|by rewrite E2|].
    right. by apply (wk_retry W).
  - apply orb_false_iff in Eretry as [Ea1 _]. rewrite Ea1. apply (Hf 1%nat). cbn. rewrite decide_True, app_nil_r by done.
    apply (definite_failure [] p []); [done|by rewrite E1|by rewrite E1|by left].
Qed.
End chain.

Lemma selected_registered h ctx d : selectAdapter h ctx = Ok d → selectedProvider d ∈ getRegisteredProviders.
Proof.
  unfold selectAdapter. intros (d' & _ & Hd)%bind_ok_iff. apply bind_ok_iff in Hd as (p & Hp & [= <-]).
  unfold getAdapter in Hp. by case_bool_decide.
Qed.

(** C8: a charge stands at one provider. Take any run of the checkout's provider chain over
    the two adapters in which Redis answers, the bodies of answers can be read and the
    breaker lets the retry through, whatever the providers answer or fail to answer. Then
    every provider that was asked, but at most one, answered its last request with an error
    (any status but 2xx, or an empty body); when the chain returns an answer it is what
    that one provider said last, with a 2xx status; and when the chain fails with a definite
    error, every provider that was asked answered with an error. *)
Theorem one_charge_stands C request operation trace available h ctx :
  working C request operation trace →
  single request trace (executeWithFallback operation available h ctx).
Proof.
  intros W. unfold executeWithFallback. destruct (selectAdapter h ctx) as [d|e] eqn:E.
  - eapply decision_single; [done|by eapply selected_registered|by eapply one_fallback].
  - split; cbn; [by intros x y []|]. by intros _ x [].
Qed.
