(* ===== verification/PspAdapterRaces.v ===== *)
(** * The adapters of the card providers: runs

    Adapters over a Redis and a network whose answers are given: the witnesses of the
    theorems, and the runs in which two providers charge one customer. *)

From S2P Require Import Prelude JsNumber Money Policies PaymentStatus Payment Routing Checkout CheckoutCorrect Redis Breaker Program Url PspAdapter PspAdapterCorrect.
Import PaymentProcessorFactory.

(** ** An environment *)

(** Redis, the numbers of its commands that fail, and the answers to the requests to come. *)
Record Environment := mkEnvironment {
  env_redis : cache;
  env_fails : list nat;
  env_commands : nat;
  env_network : list (result HttpResponse);
  env_log : list note }.

Definition noteEnv (n : list note) (s : Environment) : Environment :=
  mkEnvironment (env_redis s) (env_fails s) (env_commands s) (env_network s) (env_log s ++ n).

Definition unreachable : result HttpResponse := Throw (ExternalFailure "fetch failed").

Definition env_handle X (c : psp_event X) (now : Date) (s : Environment) : Environment * result X :=
  match c in psp_event Y return Environment * result Y with
  | CACHE c =>
      let n := env_commands s in
      if bool_decide (n ∈ env_fails s)
      then (mkEnvironment (env_redis s) (env_fails s) (S n) (env_network s) (env_log s ++ [CacheError (ExternalFailure "connection lost")]), Ok broken)
      else let '(m, r) := exec c now (env_redis s) in
           (mkEnvironment m (env_fails s) (S n) (env_network s) (env_log s ++ noted (CACHE c) r), Ok r)
  | FETCH r =>
      let a := nullish (head (env_network s)) unreachable in
      (mkEnvironment (env_redis s) (env_fails s) (env_commands s) (tail (env_network s)) (env_log s ++ [Sent r a]), Ok a)
  | CLOCK => (s, Ok now)
  | ACQUIRE => (noteEnv [Acquired] s, Ok tt)
  | RELEASE => (noteEnv [Released] s, Ok tt)
  end.

(** What an adapter does there is one of its behaviours. *)
Lemma run_behaves {X} (p : psp X) now s s' r : run env_handle p now s = (s', r) → ∃ t, env_log s' = env_log s ++ t ∧ behaves p t r.
Proof.
  revert s. induction p as [a|e|Y c k IH]; intros s; cbn.
  - intros [= <- <-]. exists []. by rewrite app_nil_r.
  - intros [= <- <-]. exists []. by rewrite app_nil_r.
  - assert (∃ s1 y, env_handle Y c now s = (s1, Ok y) ∧ env_log s1 = env_log s ++ noted c y) as (s1 & y & -> & Hlog).
    { destruct c as [Z c|rq| | |]; cbn.
      - case_bool_decide; [by eexists _, broken|]. destruct (exec c now (env_redis s)) as [m a]. by eexists _, a.
      - by eexists _, _.
      - exists s, now. by rewrite app_nil_r.
      - by eexists _, ().
      - by eexists _, (). }
    intros Hrun. destruct (IH y s1 Hrun) as (t & Ht & Hb). exists (noted c y ++ t). rewrite Ht, Hlog, <- app_assoc. split; [done|]. by exists y, t.
Qed.

(** The calls of one checkout, one after the other. *)
Section calls.
Context (C : PSPProvider → AdapterConfig) (request : PSPChargeRequest) (now : Date) (start : Environment).

Definition called (s : Environment) (p : PSPProvider) : Environment * result ChargeResponse := run env_handle (chargeAt C p request) now s.
Definition after (calls : list PSPProvider) : Environment := foldl (λ s p, (called s p).1) start calls.
Definition operationOf (calls : list PSPProvider) (p : PSPProvider) : result ChargeResponse := (called (after calls) p).2.
Definition traceOf (calls : list PSPProvider) (p : PSPProvider) : list note :=
  drop (length (env_log (after calls))) (env_log (called (after calls) p).1).

Lemma traceOf_behaves calls p : behaves (chargeAt C p request) (traceOf calls p) (operationOf calls p).
Proof.
  unfold traceOf, operationOf, called. destruct (run env_handle (chargeAt C p request) now (after calls)) as [s' r] eqn:Er.
  destruct (run_behaves _ _ _ _ _ Er) as (t & Ht & Hb). cbn [fst snd]. by rewrite Ht, drop_app_length.
Qed.
End calls.

(** ** Samples *)

Definition sampleConfig (p : PSPProvider) : AdapterConfig :=
  mkAdapterConfig "key" "https://psp" "Merchant" (λ _, None) (λ _, "value"%string) (λ _, 0).



Definition sampleRequest (captureMethod : option CaptureMethod) : PSPChargeRequest :=
  mkPSPChargeRequest "pay_1" "idem_1" (usd 1099) "USD" "m_1" None None None None (Some "pm_1"%string) None None
    (Some [("payment_id"%string, "other"%string); ("order"%string, "7"%string)]) captureMethod.

Definition object (l : list (string * string)) : Json := JObj ((λ p, (p.1, JStr p.2)) <$> l).
Definition answered (status : Z) (l : list (string * string)) : result HttpResponse := Ok (mkHttpResponse status (Some (object l))).

Definition stripeCharged : result HttpResponse := answered 200 [("id"%string, "pi_1"%string); ("status"%string, "succeeded"%string)].
Definition adyenCharged : result HttpResponse := answered 200 [("pspReference"%string, "ad_1"%string); ("resultCode"%string, "Authorised"%string)].
Definition declined : result HttpResponse := answered 402 [].
(** The status line arrived, the body broke off. *)
Definition cutOff : result HttpResponse := Ok (mkHttpResponse 200 None).

Definition fresh (fails : list nat) (network : list (result HttpResponse)) : Environment := mkEnvironment ∅ fails 0 network [].

Definition now0 : Date := 1700000000000.

Definition healthAt (C : PSPProvider → AdapterConfig) (p : PSPProvider) : psp PSPHealthStatus :=
  match p with STRIPE => StripePSPAdapter.getHealthStatus (C STRIPE) | _ => AdyenPSPAdapter.getHealthStatus (C ADYEN) end.

(** A checkout that prefers Stripe, with the health and the availability the adapters
    read before it. *)
Definition preferStripe : RoutingContext := mkRoutingContext (usd 1099) None "m_1" (Some STRIPE) None.

Definition checkoutChain (request : PSPChargeRequest) (start : Environment) : list PSPProvider * result (ChargeResponse * PSPProvider * bool) :=
  executeWithFallback (operationOf sampleConfig request now0 start) (λ p, (run env_handle (PspAdapter.isAvailable p) now0 start).2)
    (λ p, (run env_handle (healthAt sampleConfig p) now0 (fresh [] [])).2) preferStripe.

(** The routing chooses Stripe, with Adyen as fallback. *)
Definition stripeThenAdyen : RoutingDecision := mkRoutingDecision STRIPE [ADYEN] (usd 62) [] (Num.of_bigint 0).

Lemma sample_routing : let d := selectAdapter (λ p, (run env_handle (healthAt sampleConfig p) now0 (fresh [] [])).2) preferStripe in
  (selectedProvider <$> d, fallbackProviders <$> d) = (Ok STRIPE, Ok [ADYEN]).
Proof. vm_compute. reflexivity. Qed.

Lemma checkoutChain_eq request start : checkoutChain request start
  = executeDecision (operationOf sampleConfig request now0 start) (λ p, (run env_handle (PspAdapter.isAvailable p) now0 start).2) stripeThenAdyen.
Proof.
  unfold checkoutChain, executeWithFallback. pose proof sample_routing as Hd. cbv zeta in Hd.
  destruct (selectAdapter _ preferStripe) as [d|e]; [|discriminate Hd]. injection Hd as Hs Hf. unfold executeDecision. by rewrite Hs, Hf.
Qed.

(** The calls of a chain, and who charged when it returned a charge. *)
Definition summary (o : list PSPProvider * result (ChargeResponse * PSPProvider * bool)) : list PSPProvider * option (PSPProvider * ChargeStatus) :=
  (o.1, match o.2 with Ok (resp, p, _) => Some (p, ch_status resp) | Throw _ => None end).

(** What the providers answered in a chain. *)
Definition exchanged (request : PSPChargeRequest) (start : Environment) : list (result HttpResponse) :=
  answersIn (env_log (after sampleConfig request now0 start (checkoutChain request start).1)).

(** ** Two providers charge *)

(** Stripe charges and says so, but the success cannot be written to Redis: the charge is
    thrown away and Adyen charges as well. *)
Lemma unrecorded_success_charges_twice : let start := fresh [1%nat] [stripeCharged; adyenCharged] in
  summary (checkoutChain (sampleRequest None) start) = ([STRIPE; ADYEN], Some (ADYEN, CHARGE_SUCCEEDED)) ∧
  exchanged (sampleRequest None) start = [stripeCharged; adyenCharged].
Proof. cbv zeta. unfold exchanged. rewrite checkoutChain_eq. split; vm_compute; reflexivity. Qed.

(** Stripe does not answer, and the failure cannot be written to Redis: the error of Redis
    hides that the outcome is unknown. *)
Lemma unrecorded_failure_hides_timeout : let start := fresh [1%nat] [unreachable; adyenCharged] in
  summary (checkoutChain (sampleRequest None) start) = ([STRIPE; ADYEN], Some (ADYEN, CHARGE_SUCCEEDED)) ∧
  exchanged (sampleRequest None) start = [unreachable; adyenCharged].
Proof. cbv zeta. unfold exchanged. rewrite checkoutChain_eq. split; vm_compute; reflexivity. Qed.

(** Stripe's answer breaks off after a 2xx status. *)
Lemma cut_off_answer_charges_twice : let start := fresh [] [cutOff; adyenCharged] in
  summary (checkoutChain (sampleRequest None) start) = ([STRIPE; ADYEN], Some (ADYEN, CHARGE_SUCCEEDED)) ∧
  exchanged (sampleRequest None) start = [cutOff; adyenCharged].
Proof. cbv zeta. unfold exchanged. rewrite checkoutChain_eq. split; vm_compute; reflexivity. Qed.

(** Stripe does not answer, which is its fifth failure: the breaker refuses the retry, and
    the chain goes on to Adyen. *)
Definition fourFailures : cache := {[ circuit "STRIPE" failureCount := mkCell (VNum 4) (Some (now0 + 60000)) ]}.

Lemma opened_circuit_charges_twice : let start := mkEnvironment fourFailures [] 0 [unreachable; adyenCharged] [] in
  summary (checkoutChain (sampleRequest None) start) = ([STRIPE; STRIPE; ADYEN], Some (ADYEN, CHARGE_SUCCEEDED)) ∧
  exchanged (sampleRequest None) start = [unreachable; adyenCharged].
Proof. cbv zeta. unfold exchanged. rewrite checkoutChain_eq. split; vm_compute; reflexivity. Qed.

(** ** Answers that say something else *)

(** An authorisation that waits for its capture counts as failed once it is looked up at
    Stripe, and as paid once it is looked up at Adyen. *)
Lemma looked_up_authorisation_misread :
  let stripe status := object [("id"%string, "pi_1"%string); ("status"%string, status); ("found"%string, "yes"%string)] in
  let adyen := object [("pspReference"%string, "ad_1"%string); ("resultCode"%string, "Authorised"%string); ("found"%string, "yes"%string)] in
  (ch_status <$> StripePSPAdapter.interpretCharge (sampleRequest (Some manual)) (stripe "requires_capture"%string) = Ok CHARGE_REQUIRES_CAPTURE ∧
   qr_outcome <$> StripePSPAdapter.interpretQuery (stripe "requires_capture"%string) = Ok QUERY_FAILED) ∧
  (ch_status <$> AdyenPSPAdapter.interpretCharge (sampleRequest (Some manual)) adyen = Ok CHARGE_REQUIRES_CAPTURE ∧
   qr_outcome <$> AdyenPSPAdapter.interpretQuery adyen = Ok QUERY_SUCCEEDED).
Proof. repeat split. Qed.

(** No card token reaches a provider: the request is the same with any token. *)
Lemma card_token_dropped C p request token : wire C p (request {{ rq_cardToken := token }}) = wire C p request.
Proof. by destruct request, p. Qed.

(** A capture that succeeds while the circuit recovers does not close it: the next charge is
    refused, where after a successful charge it is let through. *)
Definition recovering : cache := {[ circuit "STRIPE" state := mkCell (VState HALF_OPEN) None ]}.

Definition captured : Environment :=
  (run env_handle (StripePSPAdapter.capture (sampleConfig STRIPE) (mkActionRequest "pay_1" "pi_1" (usd 1099) "idem_2")) now0
     (mkEnvironment recovering [] 0 [stripeCharged; stripeCharged] [])).1.

Lemma capture_does_not_close_circuit :
  answersIn (env_log captured) = [stripeCharged] ∧
  operationOf sampleConfig (sampleRequest None) now0 captured [] STRIPE = Throw (CircuitOpen "STRIPE") ∧
  ch_status <$> operationOf sampleConfig (sampleRequest None) now0 (mkEnvironment recovering [] 0 [stripeCharged; stripeCharged] []) [STRIPE] STRIPE
  = Ok CHARGE_SUCCEEDED.
Proof. repeat split; vm_compute; reflexivity. Qed.

(** ** Witnesses *)

Lemma sample_charge : ch_status <$> operationOf sampleConfig (sampleRequest None) now0 (fresh [] [stripeCharged]) [] STRIPE = Ok CHARGE_SUCCEEDED.
Proof. vm_compute. reflexivity. Qed.

Lemma charge_truthful_witness : ∃ resp hs data,
  operationOf sampleConfig (sampleRequest None) now0 (fresh [] [stripeCharged]) [] STRIPE = Ok resp ∧
  traceOf sampleConfig (sampleRequest None) now0 (fresh [] [stripeCharged]) [] STRIPE = traffic (wire sampleConfig STRIPE (sampleRequest None)) (Ok hs) ∧
  reports STRIPE (sampleRequest None) data resp ∧ ch_status resp = CHARGE_SUCCEEDED.
Proof.
  pose proof sample_charge as Hs.
  destruct (charge_truthful sampleConfig STRIPE (sampleRequest None) _ _ ltac:(by left)
              (traceOf_behaves sampleConfig (sampleRequest None) now0 (fresh [] [stripeCharged]) [] STRIPE)) as [H _].
  destruct (operationOf sampleConfig (sampleRequest None) now0 (fresh [] [stripeCharged]) [] STRIPE) as [resp|e]; [|discriminate Hs].
  destruct (H resp eq_refl) as (hs & data & Ht & _ & _ & Hrep). exists resp, hs, data. injection Hs as Hs. exact (conj eq_refl (conj Ht (conj Hrep Hs))).
Defined.

(** Every call with an environment of its own: Stripe does not answer, then refuses the
    card; Adyen charges. *)
Definition answerTo (calls : list PSPProvider) (p : PSPProvider) : result HttpResponse :=
  match p, calls with STRIPE, [] => unreachable | STRIPE, _ => declined | _, _ => adyenCharged end.

Definition alone_ (calls : list PSPProvider) (p : PSPProvider) : Environment * result ChargeResponse :=
  called sampleConfig (sampleRequest None) now0 (fresh [] [answerTo calls p]) p.

Lemma sample_working : working sampleConfig (sampleRequest None) (λ calls p, (alone_ calls p).2) (λ calls p, env_log (alone_ calls p).1).
Proof.
  split.
  - intros calls p _. unfold alone_, called. destruct (run env_handle _ _ _) as [s r] eqn:E. destruct (run_behaves _ _ _ _ _ E) as (t & Ht & Hb).
    cbn [fst snd]. rewrite Ht. exact Hb.
  - intros calls p. destruct p, calls; vm_compute; reflexivity.
  - intros calls p hs. assert (answersIn (env_log (alone_ calls p).1) = match p with STRIPE | ADYEN => [answerTo calls p] | _ => [] end) as ->
      by (destruct p, calls; vm_compute; reflexivity).
    destruct p; try (intros Hin; by apply elem_of_nil in Hin).
    + intros Hin%list_elem_of_singleton. destruct calls; [discriminate Hin|]. injection Hin as ->. reflexivity.
    + intros Hin%list_elem_of_singleton. injection Hin as ->. reflexivity.
  - intros p [->|[-> | []%elem_of_nil]%elem_of_cons]%elem_of_cons; vm_compute; discriminate.
Qed.

Definition sampleChain : list PSPProvider * result (ChargeResponse * PSPProvider * bool) :=
  executeWithFallback (λ calls p, (alone_ calls p).2) (λ _, Ok true)
    (λ p, (run env_handle (healthAt sampleConfig p) now0 (fresh [] [])).2) preferStripe.

Lemma sample_chain_summary : summary sampleChain = ([STRIPE; STRIPE; ADYEN], Some (ADYEN, CHARGE_SUCCEEDED)).
Proof.
  unfold sampleChain, executeWithFallback. pose proof sample_routing as Hd. cbv zeta in Hd.
  destruct (selectAdapter _ preferStripe) as [d|e]; [|discriminate Hd]. injection Hd as Hs Hf. unfold executeDecision.
  rewrite Hs, Hf. vm_compute. reflexivity.
Qed.

Lemma one_charge_stands_witness :
  summary sampleChain = ([STRIPE; STRIPE; ADYEN], Some (ADYEN, CHARGE_SUCCEEDED)) ∧
  single (sampleRequest None) (λ calls p, env_log (alone_ calls p).1) sampleChain.
Proof.
  split; [exact sample_chain_summary|].
  apply (one_charge_stands sampleConfig (sampleRequest None)). exact sample_working.
Defined.
