(* ===== verification/Adapters.v ===== *)
(** * The adapters of banks, Klarna and the FX source, and the cost report

    [ach-], [wire-], [instant-] and [mock-bank-transfer.adapter.ts],
    [klarna-bnpl.adapter.ts], [fx-rate-provider.adapter.ts] and
    [psp-cost-reconciliation.service.ts]: one HTTP request each, without breaker or
    bulkhead, and what its answer means. [answered_once] gives the shape they share. *)

From stdpp Require Import pretty.
From S2P Require Import Prelude JsNumber Money Policies PaymentStatus Payment Routing Checkout Reconciliation Redis Program Breaker Url PspAdapter PspAdapterCorrect.

(** [a ?? b] on untyped values. *)
Definition nullishJson (a b : option Json) : option Json := match a with None | Some JNull => b | _ => a end.

(** A request with a JSON body and an idempotency key. *)
Definition post (url idempotencyKey : string) (body : list (string * Json)) : HttpRequest :=
  mkHttpRequest "POST" url [("Content-Type", "application/json"); ("Idempotency-Key", idempotencyKey)] (Some (JsonText (JObj body))).

(** [await fetch(...)], then [await response.json()]; [read] makes the result. *)
Definition fetched {X} (r : HttpRequest) (read : HttpResponse → Json → result X) : psp X :=
  response ← ask (FETCH r);
  body ← of_result (hs_json response);
  of_result (read response body).

(** ** Bank transfers *)

Record BankTransferRequest := mkBankTransferRequest {
  bt_merchantId : string;
  bt_amount : Money.t;
  bt_idempotencyKey : string }.

Inductive BankTransferStatus := TRANSFER_SENT | TRANSFER_PENDING | TRANSFER_FAILED.

Record BankTransferResponse := mkBankTransferResponse {
  br_success : bool;
  br_status : BankTransferStatus;
  br_transferId : option Json;
  br_rawResponse : Json;
  br_errorMessage : option Json }.

Inductive BankTransferOutcome := OUTCOME_SETTLED | OUTCOME_FAILED.

Record BankTransferStatusResult := mkBankTransferStatusResult { bs_status : BankTransferOutcome; bs_reason : option Json }.

Definition transferRequest (baseUrl : string) (request : BankTransferRequest) : HttpRequest :=
  post (baseUrl +:+ "/transfers") (bt_idempotencyKey request)
    [("merchantId", JStr (bt_merchantId request)); ("amountMinorUnits", JStr (pretty (Money.amountMinorUnits (bt_amount request))));
     ("currency", JStr (Currency.code (Money.currency (bt_amount request))))].

(** The three rails that settle later; [rejectedText] is the message of last resort. *)
Module AsyncBankTransferAdapter.
Section rail.
Context (baseUrl rejectedText : string).

Definition readTransfer (response : HttpResponse) (body : Json) : result BankTransferResponse :=
  status ← (if hs_ok response then field body "status" else Ok None);
  if negb (hs_ok response) || isText status "rejected" then
    error ← field body "error";
    Ok (mkBankTransferResponse false TRANSFER_FAILED None body
          (nullishJson error (nullishJson (chain (Some body) "reason") (Some (JStr rejectedText)))))
  else Ok (mkBankTransferResponse true TRANSFER_PENDING (chain (Some body) "id") body None).

Definition initiateTransfer (request : BankTransferRequest) : psp BankTransferResponse :=
  fetched (transferRequest baseUrl request) readTransfer.

Definition readStatus (response : HttpResponse) (body : Json) : result (option BankTransferStatusResult) :=
  status ← (if hs_ok response then field body "status" else Ok None);
  let reason := chain (Some body) "reason" in
  Ok (if negb (hs_ok response) then None
      else if isText status "settled" then Some (mkBankTransferStatusResult OUTCOME_SETTLED reason)
      else if isText status "failed" then Some (mkBankTransferStatusResult OUTCOME_FAILED reason)
      else None).

Definition getTransferStatus (transferId : string) : psp (option BankTransferStatusResult) :=
  response ← ask (FETCH (mkHttpRequest "GET" (baseUrl +:+ "/transfers/" +:+ encodeURIComponent transferId) [] None));
  if hs_status response =? 404 then mret None
  else body ← of_result (hs_json response); of_result (readStatus response body).
End rail.
End AsyncBankTransferAdapter.

Definition AchBankTransferAdapter_initiateTransfer baseUrl := AsyncBankTransferAdapter.initiateTransfer baseUrl "ACH transfer request rejected".
Definition WireBankTransferAdapter_initiateTransfer baseUrl := AsyncBankTransferAdapter.initiateTransfer baseUrl "Wire transfer request rejected".
Definition InstantBankTransferAdapter_initiateTransfer baseUrl := AsyncBankTransferAdapter.initiateTransfer baseUrl "Instant transfer request rejected".

Module MockBankTransferAdapter.

Definition readTransfer (response : HttpResponse) (body : Json) : result BankTransferResponse :=
  if negb (hs_ok response) then
    error ← field body "error";
    Ok (mkBankTransferResponse false TRANSFER_FAILED None body (nullishJson error (Some (JStr "Bank transfer request failed"))))
  else
    status ← field body "status";
    let sent := isText status "sent" in
    Ok (mkBankTransferResponse sent (if sent then TRANSFER_SENT else TRANSFER_FAILED) (chain (Some body) "id") body
          (if sent then None else chain (Some body) "reason")).

Definition initiateTransfer (baseUrl : string) (request : BankTransferRequest) : psp BankTransferResponse :=
  fetched (transferRequest baseUrl request) readTransfer.

End MockBankTransferAdapter.

(** ** Klarna *)

Record BnplOrderRequest := mkBnplOrderRequest {
  bo_bnplOrderId : string;
  bo_idempotencyKey : string;
  bo_amount : Money.t;
  bo_merchantId : string;
  bo_customerId : option string;
  bo_description : option string }.

Inductive BnplOrderAnswer := ORDER_AUTHORIZED | ORDER_REJECTED.

Record BnplOrderResponse := mkBnplOrderResponse {
  bn_success : bool;
  bn_status : BnplOrderAnswer;
  bn_providerOrderId : option Json;
  bn_rawResponse : Json;
  bn_errorMessage : option Json }.

(** The response of [captureOrder] and [refundOrder], with the id of the capture or refund. *)
Record BnplActionResponse := mkBnplActionResponse {
  ba_success : bool;
  ba_id : option Json;
  ba_rawResponse : Json;
  ba_errorMessage : option Json }.

Module KlarnaBnplAdapter.
Section adapter.
Context (baseUrl : string).

(** A property whose value is [undefined] is not in the text. *)
Definition optional (name : string) (v : option string) : list (string * Json) := match v with Some s => [(name, JStr s)] | None => [] end.

Definition number_ (m : Money.t) : Json := JNum (Num.of_bigint (Money.amountMinorUnits m)).

Definition readOrder (response : HttpResponse) (body : Json) : result BnplOrderResponse :=
  fraud ← (if hs_ok response then field body "fraud_status" else Ok None);
  if negb (hs_ok response) || isText fraud "REJECTED" then
    orderId ← field body "order_id";
    Ok (mkBnplOrderResponse false ORDER_REJECTED (nullishJson orderId (Some (JStr ""))) body
          (nullishJson (chain (Some body) "error") (Some (JStr "Klarna declined this order"))))
  else Ok (mkBnplOrderResponse true ORDER_AUTHORIZED (chain (Some body) "order_id") body None).

Definition createOrder (request : BnplOrderRequest) : psp BnplOrderResponse :=
  fetched
    (post (baseUrl +:+ "/payments/v1/authorizations/mock/order") (bo_idempotencyKey request)
       ([("merchant_reference"%string, JStr (bo_bnplOrderId request)); ("order_amount"%string, number_ (bo_amount request));
         ("purchase_currency"%string, JStr (Currency.code (Money.currency (bo_amount request)))); ("merchant_id"%string, JStr (bo_merchantId request))]
        ++ optional "customer_id" (bo_customerId request) ++ optional "description" (bo_description request)))
    readOrder.

Definition readAction (idName failed : string) (response : HttpResponse) (body : Json) : result BnplActionResponse :=
  if negb (hs_ok response) then
    error ← field body "error";
    Ok (mkBnplActionResponse false None body (nullishJson error (Some (JStr failed))))
  else
    id ← field body idName;
    Ok (mkBnplActionResponse true id body None).

Definition orderPath (providerOrderId what : string) : string :=
  baseUrl +:+ "/ordermanagement/v1/orders/" +:+ encodeURIComponent providerOrderId +:+ "/" +:+ what.

Definition captureOrder (providerOrderId : string) (amount : Money.t) (idempotencyKey : string) : psp BnplActionResponse :=
  fetched (post (orderPath providerOrderId "captures") idempotencyKey [("captured_amount", number_ amount)])
    (readAction "capture_id" "Klarna capture failed").

Definition refundOrder (providerOrderId : string) (amount : Money.t) (reason idempotencyKey : string) : psp BnplActionResponse :=
  fetched (post (orderPath providerOrderId "refunds") idempotencyKey [("refunded_amount", number_ amount); ("description", JStr reason)])
    (readAction "refund_id" "Klarna refund failed").
End adapter.
End KlarnaBnplAdapter.

(** ** Exchange rates *)

Record FXRate := mkFXRate { fx_rate : option Json; fx_provider : option Json }.

Module FXRateProviderAdapter.

Definition getRate (baseUrl fromCurrency toCurrency : string) : psp FXRate :=
  if String.eqb fromCurrency toCurrency then mret (mkFXRate (Some (JNum (Num.of_bigint 1))) (Some (JStr "identity")))
  else
    response ← ask (FETCH (mkHttpRequest "GET" (baseUrl +:+ "/rates?" +:+ toString [("from", fromCurrency); ("to", toCurrency)]) [] None));
    if negb (hs_ok response) then Fail (DomainError "FX_RATE_REQUEST_FAILED")
    else
      body ← of_result (hs_json response);
      rate ← of_result (field body "rate");
      mret (mkFXRate rate (nullishJson (chain (Some body) "provider") (Some (JStr "mock-fx")))).

End FXRateProviderAdapter.

(** ** The cost report *)

Inductive ActualFeeSource := PSP_STATEMENT | MANUAL_OVERRIDE.

Record PspCostReconciliationReport := mkCostReport {
  cs_provider : PSPProvider;
  cs_currency : string;
  cs_since : Date;
  cs_until : Date;
  cs_chargesEvaluated : nat;
  cs_grossVolumeMinorUnits : Z;
  cs_estimatedFeeMinorUnits : Z;
  cs_actualInvoicedFeeMinorUnits : Z;
  cs_actualFeeSource : ActualFeeSource;
  cs_deltaMinorUnits : Z;
  cs_deltaPercent : option number }.

Module PspCostReconciliationService.

Definition SETTLED_STATUSES : list PaymentStatus := [SUCCEEDED; PARTIALLY_REFUNDED; REFUNDED; DISPUTED].

Definition settledIn (currency : string) (payments : list Payment.t) : list Payment.t :=
  filter (λ p, Payment._status p ∈ SETTLED_STATUSES ∧ Currency.code (Money.currency (Payment._amount p)) = Str.toUpperCase currency) payments.

(** [Math.round((Number(gross) * feePercentage) / 100)] and [fixedFee * count], as [bigint]s. *)
Definition estimatedFee (schedule : PspFeeSchedule) (gross : Z) (count : nat) : result Z :=
  percentage ← Num.round_bigint (Num.div (Num.mul (Num.of_bigint gross) (fs_feePercentage schedule)) (Num.of_bigint 100));
  fixed ← Num.to_bigint (Num.mul (fs_fixedFeeMinorUnits schedule) (Num.of_bigint (Z.of_nat count)));
  Ok (percentage + fixed).

Definition deltaPercent (delta estimated : Z) : option number :=
  if estimated =? 0 then None
  else Some (Num.mul (Num.div (Num.of_bigint delta) (Num.of_bigint estimated)) (Num.of_bigint 100)).

(** [fetchFeeStatement]: the adapter of the provider; [rows]: the stored payments. *)
Definition computeReport (setting : string → option number) (fetchFeeStatement : PSPProvider → Date → Date → string → result FeeStatement)
    (rows : result (list Payment.t)) (provider : PSPProvider) (currency : string) (since until : Date) (override : option Z)
    : result PspCostReconciliationReport :=
  '(actual, source) ← match override with
                      | Some fee => Ok (fee, MANUAL_OVERRIDE)
                      | None =>
                          p ← PaymentProcessorFactory.getAdapter provider;
                          statement ← fetchFeeStatement p since until currency;
                          Ok (totalFeeMinorUnits statement, PSP_STATEMENT)
                      end;
  rows ← rows;
  let settled := settledIn currency (findByProviderAndDateRange provider since until rows) in
  let gross := sumZ (λ p, Money.amountMinorUnits (Payment._amount p)) settled in
  schedule ← PspFeeScheduleService.getSchedule setting provider;
  estimated ← estimatedFee schedule gross (length settled);
  let delta := actual - estimated in
  Ok (mkCostReport provider (Str.toUpperCase currency) since until (length settled) gross estimated actual source delta
        (deltaPercent delta estimated)).

End PspCostReconciliationService.

(** ** What they report *)

Lemma answered_once {X} r (read : HttpResponse → Json → result X) t res : behaves (fetched r read) t res →
  ∃ a, t = [Sent r a] ∧ res = hs ← a; body ← hs_json hs; read hs body.
Proof.
  intros (t1 & r1 & t2 & -> & (a & t3 & -> & [-> ->]%behaves_of_result) & H)%behaves_bind. exists a. cbn [noted app].
  destruct a as [hs|e]; [|by destruct H as [-> ->]]. apply behaves_bind in H as (t4 & r4 & t5 & -> & [-> ->]%behaves_of_result & H). cbn [mbind result_bind].
  destruct (hs_json hs) as [body|e]; [by apply behaves_of_result in H as [-> ->]|by destruct H as [-> ->]].
Qed.

Lemma hs_json_ok hs body : hs_json hs = Ok body → hs_body hs = Some body.
Proof. unfold hs_json. destruct (hs_body hs); congruence. Qed.

Lemma isText_true v s : isText v s = true ↔ v = Some (JStr s).
Proof. unfold isText. destruct v as [[]|]; try (split; intros; discriminate). rewrite String.eqb_eq. naive_solver. Qed.

(** A transfer on a rail that settles later: one request, an error when there is no
    answer, PENDING exactly when the bank accepted it, FAILED otherwise. *)
Lemma transfer_truthful baseUrl text request t r : behaves (AsyncBankTransferAdapter.initiateTransfer baseUrl text request) t r →
  ∃ a, t = [Sent (transferRequest baseUrl request) a] ∧ (is_ok a = false → is_ok r = false) ∧
    ∀ resp, r = Ok resp → ∃ hs body, a = Ok hs ∧ hs_body hs = Some body ∧ br_rawResponse resp = body ∧
      br_status resp = (if hs_ok hs && negb (isText (chain (Some body) "status") "rejected") then TRANSFER_PENDING else TRANSFER_FAILED) ∧
      br_success resp = hs_ok hs && negb (isText (chain (Some body) "status") "rejected").
Proof.
  intros (a & -> & ->)%answered_once. exists a. split; [done|]. split; [by destruct a|].
  intros resp (hs & -> & (body & Hb%hs_json_ok & Hr)%bind_ok_iff)%bind_ok_iff. exists hs, body. split_and!; [done..| | |].
  all: unfold AsyncBankTransferAdapter.readTransfer in Hr; apply bind_ok_iff in Hr as (st & Hst & Hr); destruct (hs_ok hs); cbn [negb orb andb] in *.
  1,3,5: apply field_chain in Hst as ->; destruct (isText (chain (Some body) "status") "rejected"); cbn [negb];
    [by apply bind_ok_iff in Hr as (e & _ & [= <-])|by injection Hr as <-].
  all: by apply bind_ok_iff in Hr as (e & _ & [= <-]).
Qed.

(** The outcome of a transfer is reported when the bank has one, and only then. *)
Lemma status_final response body r : AsyncBankTransferAdapter.readStatus response body = Ok r →
  match r with
  | Some s =>
      hs_ok response = true ∧
      chain (Some body) "status" = Some (JStr match bs_status s with OUTCOME_SETTLED => "settled" | OUTCOME_FAILED => "failed" end)
  | None => hs_ok response = false ∨ ∀ word, chain (Some body) "status" = Some (JStr word) → word ≠ "settled"%string ∧ word ≠ "failed"%string
  end.
Proof.
  unfold AsyncBankTransferAdapter.readStatus. intros (st & Hst & [= <-])%bind_ok_iff. destruct (hs_ok response); [|by left]. cbn [negb].
  apply field_chain in Hst as ->. destruct (isText (chain (Some body) "status") "settled") eqn:E1; [by apply isText_true in E1|].
  destruct (isText (chain (Some body) "status") "failed") eqn:E2; [by apply isText_true in E2|]. right. intros word Hw. rewrite Hw in *.
  split; intros ->; [discriminate E1|discriminate E2].
Qed.

(** Klarna's order is authorised exactly when it answers 2xx and does not reject it. *)
Lemma order_truthful baseUrl request t r : behaves (KlarnaBnplAdapter.createOrder baseUrl request) t r →
  ∃ rq a, t = [Sent rq a] ∧ ∀ resp, r = Ok resp → ∃ hs body, a = Ok hs ∧ hs_body hs = Some body ∧
    bn_status resp = (if hs_ok hs && negb (isText (chain (Some body) "fraud_status") "REJECTED") then ORDER_AUTHORIZED else ORDER_REJECTED) ∧
    bn_success resp = match bn_status resp with ORDER_AUTHORIZED => true | ORDER_REJECTED => false end.
Proof.
  intros (a & -> & ->)%answered_once. eexists _, a. split; [done|].
  intros resp (hs & -> & (body & Hb%hs_json_ok & Hr)%bind_ok_iff)%bind_ok_iff. exists hs, body. split; [done|]. split; [done|].
  unfold KlarnaBnplAdapter.readOrder in Hr. apply bind_ok_iff in Hr as (st & Hst & Hr). destruct (hs_ok hs); cbn [negb orb andb] in *.
  - apply field_chain in Hst as ->. destruct (isText (chain (Some body) "fraud_status") "REJECTED"); cbn [negb].
    + by apply bind_ok_iff in Hr as (e & _ & [= <-]).
    + by injection Hr as <-.
  - by apply bind_ok_iff in Hr as (e & _ & [= <-]).
Qed.

(** A currency is worth itself, without a request. *)
Lemma identity_rate baseUrl c t r : behaves (FXRateProviderAdapter.getRate baseUrl c c) t r →
  t = [] ∧ fx_rate <$> r = Ok (Some (JNum (Num.of_bigint 1))).
Proof. unfold FXRateProviderAdapter.getRate. rewrite String.eqb_refl. by intros [-> ->]. Qed.

(** The report covers the charged payments of the window in the currency, its parts add
    up, and an override is taken without asking the provider. *)
Lemma cost_report_exact setting fetch rows provider currency since until override r :
  PspCostReconciliationService.computeReport setting fetch (Ok rows) provider currency since until override = Ok r →
  let charged := filter (λ p, Payment._pspProvider p = Some provider ∧ Payment._status p ∈ chargedStatuses ∧ since ≤ Payment._createdAt p ≤ until
                              ∧ Currency.code (Money.currency (Payment._amount p)) = Str.toUpperCase currency) rows in
  cs_chargesEvaluated r = length charged ∧ cs_grossVolumeMinorUnits r = sumZ (λ p, Money.amountMinorUnits (Payment._amount p)) charged ∧
  cs_actualInvoicedFeeMinorUnits r = cs_estimatedFeeMinorUnits r + cs_deltaMinorUnits r ∧
  (∀ fee, override = Some fee → cs_actualInvoicedFeeMinorUnits r = fee ∧ cs_actualFeeSource r = MANUAL_OVERRIDE) ∧
  (cs_deltaPercent r = None ↔ cs_estimatedFeeMinorUnits r = 0).
Proof.
  intros Hr charged. unfold PspCostReconciliationService.computeReport in Hr. apply bind_ok_iff in Hr as ([actual source] & Ha & H).
  apply bind_ok_iff in H as (rows' & [= <-] & H). apply bind_ok_iff in H as (schedule & _ & H). apply bind_ok_iff in H as (estimated & _ & [= <-]).
  cbn [cs_chargesEvaluated cs_grossVolumeMinorUnits cs_actualInvoicedFeeMinorUnits cs_estimatedFeeMinorUnits cs_deltaMinorUnits cs_actualFeeSource cs_deltaPercent].
  assert (PspCostReconciliationService.settledIn currency (findByProviderAndDateRange provider since until rows) = charged) as ->.
  { unfold PspCostReconciliationService.settledIn, findByProviderAndDateRange, charged. rewrite list_filter_filter. apply list_filter_iff. intros p.
    unfold PspCostReconciliationService.SETTLED_STATUSES, chargedStatuses. naive_solver. }
  split_and!; [done..|lia| |].
  - intros fee ->. by injection Ha as <- <-.
  - unfold PspCostReconciliationService.deltaPercent. destruct (Z.eqb_spec estimated 0); naive_solver.
Qed.

(** Stripe's default rate on 100.00 is 3.20. *)
Example default_estimate :
  (PspFeeScheduleService.getSchedule (λ _, None) STRIPE ≫= λ schedule, PspCostReconciliationService.estimatedFee schedule 10000 1) = Ok 320.
Proof. vm_compute. reflexivity. Qed.
