(* ===== verification/Retention.v ===== *)
(** * Data retention: archive, deletion, legal hold

    [run-archiving-job.ts], [run-deletion-job.ts] and [legal-hold.service.ts]: SQL that
    moves payments and ledger events from the live tables to the archive and out of it.
    Every statement is an event, so that other sessions run between two of them (READ
    COMMITTED); what a transaction writes is kept by the program and takes effect when it
    commits. *)

From S2P Require Import Prelude JsNumber JsDate Money Policies PaymentStatus Payment Ledger Dispute Reconciliation Redis Program.
Import JsDate.

(** ** Tables *)

(** A row of [payments] and of [archive.payments]; the column [legal_hold] is not part of
    the aggregate. *)
Record PaymentRow := mkPaymentRow { pr_payment : Payment.t; pr_legalHold : bool }.

Abbreviation payments := (gmap string PaymentRow).
Abbreviation outbox := (gmap string LedgerOutboxEvent.t).

(** What [BackupStorage.write] was given. *)
Record Backup := mkBackup { bk_payments : list (string * PaymentRow); bk_ledgerOutbox : list (string * LedgerOutboxEvent.t) }.

(** [rt_restored]: the payments a hold has taken out of the archive. *)
Record retention_state := mkRetentionState {
  rt_live : payments;
  rt_archive : payments;
  rt_ledger : outbox;
  rt_archivedLedger : outbox;
  rt_disputes : list Dispute.t;
  rt_runs : list ReconciliationRun.t;
  rt_backups : list Backup;
  rt_restored : gset string;
  rt_calls : nat }.

(** ** Eligibility *)

(** [now() - ($1 || ' days')::interval] *)
Definition daysBefore (now : Date) (days : Z) : Date := now - days * msPerDay.

(** [now() - ($1 || ' years')::interval]: the same day of that year, or the last day of the
    month. *)
Definition yearsBefore (now : Date) (years : Z) : Date :=
  let y := getUTCFullYear now - years in
  let m := getUTCMonth now in
  MakeDate (MakeDay y m (Z.min (getUTCDate now) (DaysInMonth y m))) (TimeWithinDay now).

Definition TERMINAL_PAYMENT_STATUSES : list PaymentStatus := [SUCCEEDED; FAILED; CANCELLED; REFUNDED; PARTIALLY_REFUNDED].
Definition OPEN_DISPUTE_STATUSES : list DisputeStatus := [NEEDS_RESPONSE; UNDER_REVIEW].

Definition openDispute (disputes : list Dispute.t) (id : string) : bool :=
  existsb (λ d, String.eqb (Dispute._paymentId d) id && bool_decide (Dispute._status d ∈ OPEN_DISPUTE_STATUSES)) disputes.

Definition mismatched (runs : list ReconciliationRun.t) (id : string) : bool :=
  existsb (λ r, existsb (λ m, bool_decide (mi_paymentId m = Some id)) (ReconciliationRun.mismatches r)) runs.

Definition archivable (now : Date) (days : Z) (s : retention_state) (id : string) (row : PaymentRow) : bool :=
  (Payment._createdAt (pr_payment row) <? daysBefore now days)
  && bool_decide (Payment._status (pr_payment row) ∈ TERMINAL_PAYMENT_STATUSES)
  && negb (pr_legalHold row) && negb (openDispute (rt_disputes s) id) && negb (mismatched (rt_runs s) id).

Definition archivableEvent (now : Date) (days : Z) (ev : LedgerOutboxEvent.t) : bool :=
  (LedgerOutboxEvent.createdAt ev <? daysBefore now days)
  && match LedgerOutboxEvent.status ev with LedgerOutboxEvent.PUBLISHED => true | _ => false end.

Definition deletable (now : Date) (years : Z) (s : retention_state) (id : string) (row : PaymentRow) : bool :=
  (Payment._createdAt (pr_payment row) <? yearsBefore now years) && negb (pr_legalHold row) && negb (openDispute (rt_disputes s) id).

Definition deletableEvent (now : Date) (years : Z) (ev : LedgerOutboxEvent.t) : bool :=
  LedgerOutboxEvent.createdAt ev <? yearsBefore now years.

(** The columns [INSERT INTO "archive"."payments"] names; the others get their defaults,
    also when the row is copied back. *)
Definition archivedColumns (p : Payment.t) : Payment.t :=
  p {{ Payment._pspRiskSignal := None; Payment._ambiguousResolvedBy := None; Payment._ambiguousResolvedReason := None;
       Payment._ambiguousResolvedAt := None; Payment._ambiguousAutoRetryCount := 0; Payment._taxRecord := None; Payment._delegationId := None;
       Payment._initiatedBy := human; Payment._avsResult := None; Payment._cvvResult := None; Payment._interchangeQualification := None;
       Payment._scaExemptionRequested := None; Payment._scaExemptionReason := None; Payment._scaExemptionIndicator := None;
       Payment._networkTokenized := None; Payment._paymentMethodType := None }}.

(** ** Statements *)

Inductive retention_event : Type → Type :=
  (* the start of a transaction *)
  | BEGIN : retention_event (result Date)
  (* run-archiving-job.ts *)
  | COUNT_ARCHIVABLE (now : Date) (days : Z) : retention_event (result nat)
  | COPY_TO_ARCHIVE (now : Date) (days : Z) : retention_event (result (list (string * PaymentRow)))
  | COMMIT_ARCHIVE (staged : list (string * PaymentRow)) : retention_event (result nat)
  | COUNT_LEDGER (now : Date) (days : Z) : retention_event (result nat)
  | COPY_LEDGER (now : Date) (days : Z) : retention_event (result (list (string * LedgerOutboxEvent.t)))
  | COMMIT_LEDGER (staged : list (string * LedgerOutboxEvent.t)) : retention_event (result nat)
  (* run-deletion-job.ts *)
  | ELIGIBLE_PAYMENTS (years : Z) : retention_event (result (list (string * PaymentRow)))
  | ELIGIBLE_LEDGER (years : Z) : retention_event (result (list (string * LedgerOutboxEvent.t)))
  | BACKUP (b : Backup) : retention_event (result string)
  | DELETE_ARCHIVED (ids ledgerIds : list string) : retention_event (result unit)
  (* legal-hold.service.ts *)
  | LIVE_ROW (id : string) : retention_event (result bool)
  | SET_HOLD (id : string) (hold : bool) : retention_event (result unit)
  | ARCHIVED_ROW (id : string) : retention_event (result bool)
  | COPY_BACK (id : string) : retention_event (result (option PaymentRow))
  | COMMIT_RESTORE (id : string) (staged : option PaymentRow) : retention_event (result unit)
  (* the rest of the system *)
  | WRITE_PAYMENT (p : Payment.t) : retention_event unit
  | WRITE_LEDGER (ev : LedgerOutboxEvent.t) : retention_event unit
  | WRITE_DISPUTES (l : list Dispute.t) : retention_event unit
  | WRITE_RUN (r : ReconciliationRun.t) : retention_event unit.

Abbreviation R := (prog retention_event).

(** Rows that are not in the archive yet ([ON CONFLICT ("id") DO NOTHING RETURNING "id"]):
    looked at by the statement and, for rows of other transactions that it waits for, when
    it commits. *)
Definition inserted {V} (staged : list (string * V)) (archive : gmap string V) : list (string * V) :=
  filter (λ x, archive !! x.1 = None) staged.

Definition insertAll {V} (l : list (string * V)) (m : gmap string V) : gmap string V := list_to_map l ∪ m.
Definition removeAll {V} (ids : list string) (m : gmap string V) : gmap string V := filter (λ x, x.1 ∉ ids) m.

(** A saved payment: its columns are written, the hold of an existing row stays. *)
Definition writePayment (p : Payment.t) (live : payments) : payments :=
  <[Payment._id p := mkPaymentRow p (match live !! Payment._id p with Some row => pr_legalHold row | None => false end)]> live.

Definition setHold (id : string) (hold : bool) (live : payments) : payments :=
  alter (λ row, mkPaymentRow (pr_payment row) hold) id live.

Section handler.
Context (fault : nat → Fault).

Definition retention_handle X (c : retention_event X) (now : Date) (s : retention_state) : retention_state * result X :=
  let f := fault (rt_calls s) in
  let s1 := s {{ rt_calls := S (rt_calls s) }} in
  match c in retention_event Y return retention_state * result Y with
  | BEGIN => faulty f s1 s1 (Ok now)
  | COUNT_ARCHIVABLE t days => faulty f s1 s1 (Ok (length (filter (λ x, archivable t days s x.1 x.2 = true) (map_to_list (rt_live s)))))
  | COPY_TO_ARCHIVE t days =>
      faulty f s1 s1 (Ok ((λ x, (x.1, mkPaymentRow (archivedColumns (pr_payment x.2)) false))
                            <$> inserted (filter (λ x, archivable t days s x.1 x.2 = true) (map_to_list (rt_live s))) (rt_archive s)))
  | COMMIT_ARCHIVE staged =>
      let l := inserted staged (rt_archive s) in
      faulty f s1 (s1 {{ rt_archive := insertAll l (rt_archive s); rt_live := removeAll l.*1 (rt_live s) }}) (Ok (length l))
  | COUNT_LEDGER t days => faulty f s1 s1 (Ok (length (filter (λ x, archivableEvent t days x.2 = true) (map_to_list (rt_ledger s)))))
  | COPY_LEDGER t days => faulty f s1 s1 (Ok (inserted (filter (λ x, archivableEvent t days x.2 = true) (map_to_list (rt_ledger s))) (rt_archivedLedger s)))
  | COMMIT_LEDGER staged =>
      let l := inserted staged (rt_archivedLedger s) in
      faulty f s1 (s1 {{ rt_archivedLedger := insertAll l (rt_archivedLedger s); rt_ledger := removeAll l.*1 (rt_ledger s) }}) (Ok (length l))
  | ELIGIBLE_PAYMENTS years => faulty f s1 s1 (Ok (filter (λ x, deletable now years s x.1 x.2 = true) (map_to_list (rt_archive s))))
  | ELIGIBLE_LEDGER years => faulty f s1 s1 (Ok (filter (λ x, deletableEvent now years x.2 = true) (map_to_list (rt_archivedLedger s))))
  | BACKUP b => faulty f s1 (s1 {{ rt_backups := rt_backups s ++ [b] }}) (Ok "backup"%string)
  | DELETE_ARCHIVED ids ledgerIds =>
      faulty f s1 (s1 {{ rt_archive := removeAll ids (rt_archive s); rt_archivedLedger := removeAll ledgerIds (rt_archivedLedger s) }}) (Ok tt)
  | LIVE_ROW id => faulty f s1 s1 (Ok (isSome (rt_live s !! id)))
  | SET_HOLD id hold => faulty f s1 (s1 {{ rt_live := setHold id hold (rt_live s) }}) (Ok tt)
  | ARCHIVED_ROW id => faulty f s1 s1 (Ok (isSome (rt_archive s !! id)))
  | COPY_BACK id => faulty f s1 s1 (Ok ((λ row, mkPaymentRow (archivedColumns (pr_payment row)) true) <$> rt_archive s !! id))
  | COMMIT_RESTORE id staged =>
      match staged, rt_live s !! id with
      | Some row, None =>
          faulty f s1 (s1 {{ rt_live := <[id := row]> (rt_live s); rt_archive := delete id (rt_archive s); rt_restored := {[id]} ∪ rt_restored s }})
            (Ok tt)
      | Some _, Some _ => (s1, Ok (Throw (ExternalFailure "duplicate key")))
      | None, _ => faulty f s1 (s1 {{ rt_archive := delete id (rt_archive s) }}) (Ok tt)
      end
  | WRITE_PAYMENT p => (s1 {{ rt_live := writePayment p (rt_live s) }}, Ok tt)
  | WRITE_LEDGER ev => (s1 {{ rt_ledger := <[LedgerOutboxEvent.id ev := ev]> (rt_ledger s) }}, Ok tt)
  | WRITE_DISPUTES l => (s1 {{ rt_disputes := l }}, Ok tt)
  | WRITE_RUN r => (s1 {{ rt_runs := rt_runs s ++ [r] }}, Ok tt)
  end.
End handler.

(** ** The jobs *)

Module ArchivingJob.
Section job.
Context (days : Z).

Definition archivePayments : R (nat * nat) :=
  now ← ask BEGIN;
  eligible ← ask (COUNT_ARCHIVABLE now days);
  staged ← ask (COPY_TO_ARCHIVE now days);
  archived ← ask (COMMIT_ARCHIVE staged);
  mret (eligible, archived).

Definition archiveLedgerOutbox : R (nat * nat) :=
  now ← ask BEGIN;
  eligible ← ask (COUNT_LEDGER now days);
  staged ← ask (COPY_LEDGER now days);
  archived ← ask (COMMIT_LEDGER staged);
  mret (eligible, archived).

Definition main : R unit :=
  _ ← archivePayments;
  _ ← archiveLedgerOutbox;
  mret tt.
End job.
End ArchivingJob.

Module DeletionJob.

Record Deletion := mkDeletion {
  paymentsEligible : nat;
  paymentsDeleted : nat;
  ledgerOutboxEligible : nat;
  ledgerOutboxDeleted : nat;
  backupFile : option string }.

Definition runDeletion (years : Z) (backupRequired : bool) : R Deletion :=
  eligiblePayments ← ask (ELIGIBLE_PAYMENTS years);
  eligibleLedgerOutbox ← ask (ELIGIBLE_LEDGER years);
  let n := length eligiblePayments in
  let m := length eligibleLedgerOutbox in
  if (0 <? n)%nat || (0 <? m)%nat then
    file ← (if backupRequired then f ← ask (BACKUP (mkBackup eligiblePayments eligibleLedgerOutbox)); mret (Some f) else mret None);
    _ ← ask (DELETE_ARCHIVED eligiblePayments.*1 eligibleLedgerOutbox.*1);
    mret (mkDeletion n n m m file)
  else mret (mkDeletion n 0 m 0 None).

End DeletionJob.

(** ** Legal holds *)

Inductive HoldLocation := LIVE | RESTORED_FROM_ARCHIVE.

Record LegalHoldResult := mkLegalHoldResult { lh_id : string; lh_legalHold : bool; lh_location : HoldLocation }.

Module LegalHoldService.

Definition placeHold (paymentId : string) : R LegalHoldResult :=
  live ← ask (LIVE_ROW paymentId);
  if live : bool then
    _ ← ask (SET_HOLD paymentId true);
    mret (mkLegalHoldResult paymentId true LIVE)
  else
    archived ← ask (ARCHIVED_ROW paymentId);
    if negb archived then Fail (HttpException 404 "PAYMENT_NOT_FOUND")
    else
      staged ← ask (COPY_BACK paymentId);
      _ ← ask (COMMIT_RESTORE paymentId staged);
      mret (mkLegalHoldResult paymentId true RESTORED_FROM_ARCHIVE).

Definition releaseHold (paymentId : string) : R LegalHoldResult :=
  row ← ask (LIVE_ROW paymentId);
  if negb row then Fail (HttpException 404 "PAYMENT_NOT_FOUND")
  else
    _ ← ask (SET_HOLD paymentId false);
    mret (mkLegalHoldResult paymentId false LIVE).

End LegalHoldService.

(** ** Sessions *)

(** What the sessions of the database do. *)
Inductive retention_request :=
  | ARCHIVE
  | DELETE
  | PLACE_HOLD (id : string)
  | RELEASE_HOLD (id : string)
  | PAYMENT (p : Payment.t)
  | LEDGER (ev : LedgerOutboxEvent.t)
  | DISPUTES (l : list Dispute.t)
  | RECONCILED (r : ReconciliationRun.t).

Definition serve_retention (days years : Z) (backupRequired : bool) (q : retention_request) : R (option LegalHoldResult) :=
  match q with
  | ARCHIVE => _ ← ArchivingJob.main days; mret None
  | DELETE => _ ← DeletionJob.runDeletion years backupRequired; mret None
  | PLACE_HOLD id => r ← LegalHoldService.placeHold id; mret (Some r)
  | RELEASE_HOLD id => r ← LegalHoldService.releaseHold id; mret (Some r)
  | PAYMENT p => _ ← call (WRITE_PAYMENT p); mret None
  | LEDGER ev => _ ← call (WRITE_LEDGER ev); mret None
  | DISPUTES l => _ ← call (WRITE_DISPUTES l); mret None
  | RECONCILED r => _ ← call (WRITE_RUN r); mret None
  end.

(** Sessions that run one after the other, each at its time. *)
Fixpoint retention_history (fault : nat → Fault) (days years : Z) (backupRequired : bool) (l : list (Date * retention_request)) (s : retention_state)
    : retention_state :=
  match l with
  | [] => s
  | (now, q) :: l =>
      retention_history fault days years backupRequired l (run (retention_handle fault) (serve_retention days years backupRequired q) now s).1
  end.
