(* ===== verification/RetentionCorrect.v ===== *)
(** * Data retention: nothing is lost, holds hold

    Under every interleaving of the jobs, the holds and the rest of the system, and all
    failures, a payment or ledger event leaves the database only with its backup, as long
    as no two sessions place a hold on one payment. Sessions that run one after the other
    never touch a payment under a legal hold. *)

From S2P Require Import Prelude JsNumber JsDate Money Policies PaymentStatus Payment Ledger Dispute Reconciliation Redis Shared Program Accounts Statement Retention.

(** ** Tables *)

Section tables.
Context {V : Type}.
Implicit Types (m : gmap string V) (l : list (string * V)).

Lemma removeAll_lookup ids m id : removeAll ids m !! id = if decide (id ∈ ids) then None else m !! id.
Proof.
  unfold removeAll. rewrite map_lookup_filter. destruct (m !! id) as [v|]; cbn; [|by case_decide].
  rewrite option_guard_decide. cbn. by repeat case_decide.
Qed.

Lemma insertAll_old l m id : is_Some (m !! id) → is_Some (insertAll l m !! id).
Proof. intros [v Hv]. unfold insertAll. rewrite lookup_union, Hv. by destruct (list_to_map l !! id). Qed.

Lemma insertAll_new l m id : id ∈ l.*1 → is_Some (insertAll l m !! id).
Proof.
  intros Hin. unfold insertAll. rewrite lookup_union. destruct (list_to_map l !! id) as [v|] eqn:E; [by destruct (m !! id)|].
  by apply not_elem_of_list_to_map_2 in E.
Qed.

(** A row that is moved to the archive is in it. *)
Lemma moved_present staged (archive live : gmap string V) id :
  is_Some (live !! id) ∨ is_Some (archive !! id) → let l := inserted staged archive in
  is_Some (removeAll l.*1 live !! id) ∨ is_Some (insertAll l archive !! id).
Proof.
  cbv zeta. intros [Hl|Ha]; [|right; by apply insertAll_old]. rewrite removeAll_lookup. case_decide; [|by left]. right. by apply insertAll_new.
Qed.
End tables.

(** ** What is still there *)

Definition backed (s : retention_state) (id : string) : Prop := ∃ b, b ∈ rt_backups s ∧ id ∈ (bk_payments b).*1.
Definition backedLedger (s : retention_state) (id : string) : Prop := ∃ b, b ∈ rt_backups s ∧ id ∈ (bk_ledgerOutbox b).*1.

Definition kept (s : retention_state) (id : string) : Prop := is_Some (rt_live s !! id) ∨ is_Some (rt_archive s !! id) ∨ backed s id.
Definition keptLedger (s : retention_state) (id : string) : Prop :=
  is_Some (rt_ledger s !! id) ∨ is_Some (rt_archivedLedger s !! id) ∨ backedLedger s id.

(** How the database moves on. A payment leaves the archive with a backup or by a hold. *)
Record advances (s s' : retention_state) : Prop := {
  ad_kept id : kept s id → kept s' id;
  ad_keptLedger id : keptLedger s id → keptLedger s' id;
  ad_backed id : backed s id → backed s' id;
  ad_backedLedger id : backedLedger s id → backedLedger s' id;
  ad_archive id : is_Some (rt_archive s !! id) → is_Some (rt_archive s' !! id) ∨ backed s' id ∨ id ∈ rt_restored s';
  ad_restored id : id ∈ rt_restored s → id ∈ rt_restored s' }.

#[global] Instance advances_preorder : PreOrder advances.
Proof.
  split.
  - intros s. split; auto.
  - intros s1 s2 s3 [] []. split; auto. intros id Hid. destruct (ad_archive0 id Hid) as [?|[?|?]]; eauto.
Qed.

(** A statement that leaves the tables alone. *)
Lemma advances_calls s n : advances s (s {{ rt_calls := n }}).
Proof. destruct s. split; auto. Qed.

Lemma advances_archive s staged n : let l := inserted staged (rt_archive s) in
  advances s (s {{ rt_calls := n }} {{ rt_archive := insertAll l (rt_archive s); rt_live := removeAll l.*1 (rt_live s) }}).
Proof.
  destruct s as [live archive ledger al ds rs bs re ca]. cbn. split; unfold kept, keptLedger, backed, backedLedger; cbn; auto.
  - intros id [H|[H|H]]; [..|by auto]; destruct (moved_present staged archive live id); auto.
  - intros id H. left. by apply insertAll_old.
Qed.

Lemma advances_ledger s staged n : let l := inserted staged (rt_archivedLedger s) in
  advances s (s {{ rt_calls := n }} {{ rt_archivedLedger := insertAll l (rt_archivedLedger s); rt_ledger := removeAll l.*1 (rt_ledger s) }}).
Proof.
  destruct s as [live archive ledger al ds rs bs re ca]. cbn. split; unfold kept, keptLedger, backed, backedLedger; cbn; auto.
  intros id [H|[H|H]]; [..|by auto]; destruct (moved_present staged al ledger id); auto.
Qed.

Lemma advances_backup s b n : advances s (s {{ rt_calls := n }} {{ rt_backups := rt_backups s ++ [b] }}).
Proof.
  destruct s as [live archive ledger al ds rs bs re ca]. cbn.
  split; unfold kept, keptLedger, backed, backedLedger; cbn; auto.
  - intros id [H|[H|(b' & H1 & H2)]]; auto. do 2 right. exists b'. split; [apply elem_of_app; by left|done].
  - intros id [H|[H|(b' & H1 & H2)]]; auto. do 2 right. exists b'. split; [apply elem_of_app; by left|done].
  - intros id (b' & H1 & H2). exists b'. split; [apply elem_of_app; by left|done].
  - intros id (b' & H1 & H2). exists b'. split; [apply elem_of_app; by left|done].
Qed.

(** What has a backup may go. *)
Lemma advances_delete s ids lids n : (∀ id, id ∈ ids → backed s id) → (∀ id, id ∈ lids → backedLedger s id) →
  advances s (s {{ rt_calls := n }} {{ rt_archive := removeAll ids (rt_archive s); rt_archivedLedger := removeAll lids (rt_archivedLedger s) }}).
Proof.
  destruct s as [live archive ledger al ds rs bs re ca]. cbn. intros Hb Hbl. split; unfold kept, keptLedger; cbn; auto.
  - intros id [H|[H|H]]; auto. rewrite removeAll_lookup. case_decide; [|by auto]. do 2 right. by apply Hb.
  - intros id [H|[H|H]]; auto. rewrite removeAll_lookup. case_decide; [|by auto]. do 2 right. by apply Hbl.
  - intros id H. rewrite removeAll_lookup. case_decide; [|by left]. right. left. by apply Hb.
Qed.

(** Rows of the live tables come and change. *)
Lemma advances_writes s s' : (∀ id, is_Some (rt_live s !! id) → is_Some (rt_live s' !! id)) → (∀ id, is_Some (rt_ledger s !! id) → is_Some (rt_ledger s' !! id)) →
  rt_archive s' = rt_archive s → rt_archivedLedger s' = rt_archivedLedger s → rt_backups s' = rt_backups s → rt_restored s' = rt_restored s → advances s s'.
Proof.
  intros Hl Hg Ha Hal Hb Hr. split; unfold kept, keptLedger, backed, backedLedger; rewrite ?Ha, ?Hal, ?Hb, ?Hr; auto.
  - intros id [H|[H|H]]; auto.
  - intros id [H|[H|H]]; auto.
Qed.

Lemma advances_restore s id row n : advances s
  (s {{ rt_calls := n }} {{ rt_live := <[id := row]> (rt_live s); rt_archive := delete id (rt_archive s); rt_restored := {[id]} ∪ rt_restored s }}).
Proof.
  destruct s as [live archive ledger al ds rs bs re ca]. cbn. split; unfold kept, keptLedger, backed, backedLedger; cbn; auto.
  - intros id' [H|[H|H]]; [| |by auto].
    + left. destruct (decide (id = id')) as [->|]; [by rewrite lookup_insert_eq|by rewrite lookup_insert_ne].
    + destruct (decide (id = id')) as [->|]; [left; by rewrite lookup_insert_eq|right; left; by rewrite lookup_delete_ne].
  - intros id' H. destruct (decide (id = id')) as [->|]; [do 2 right; set_solver|left; by rewrite lookup_delete_ne].
  - set_solver.
Qed.

(** A payment that has a backup may be taken out of the archive. *)
Lemma advances_drop s id n : backed s id → advances s (s {{ rt_calls := n }} {{ rt_archive := delete id (rt_archive s) }}).
Proof.
  destruct s as [live archive ledger al ds rs bs re ca]. cbn. intros Hb. split; unfold kept, keptLedger; cbn; auto.
  - intros id' [H|[H|H]]; auto. destruct (decide (id = id')) as [->|]; [by do 2 right|right; left; by rewrite lookup_delete_ne].
  - intros id' H. destruct (decide (id = id')) as [->|]; [right; by left|left; by rewrite lookup_delete_ne].
Qed.

(** ** Every interleaving *)

Section pool.
Context (fault : nat → Fault).

#[export] Instance retention_answers : Answers (retention_handle fault).
Proof.
  intros X c now s. destruct c; cbn; unfold faulty; try (destruct (fault _); by eauto); eauto.
  destruct staged, (rt_live s !! id); try (destruct (fault _); by eauto); eauto.
Qed.

(** Statements that neither delete from the archive nor take a row out of it. *)
Definition harmless {X} (c : retention_event X) : bool := match c with DELETE_ARCHIVED _ _ | COMMIT_RESTORE _ _ => false | _ => true end.

Lemma harmless_advances X (c : retention_event X) now s : harmless c = true →
  advances s (retention_handle fault X c now s).1 ∧ rt_restored (retention_handle fault X c now s).1 = rt_restored s.
Proof.
  intros Hc. pose proof (advances_calls s (S (rt_calls s))) as H0.
  destruct c; try discriminate Hc; cbn [retention_handle]; cbv zeta; unfold faulty; try destruct (fault (rt_calls s)); cbn [fst];
    (split; [|by destruct s]); try first [exact H0|apply advances_archive|apply advances_ledger|apply advances_backup].
  all: destruct s as [live archive ledger al ds rs bs re ca]; apply advances_writes; cbn; try done; intros id'.
  all: try (unfold setHold; rewrite lookup_alter; case_decide; [subst; by intros [? ->]|done]).
  1-3: unfold writePayment; destruct (decide (Payment._id p = id')) as [<-|]; [by rewrite lookup_insert_eq|by rewrite lookup_insert_ne].
  all: destruct (decide (LedgerOutboxEvent.id ev = id')) as [<-|]; [by rewrite lookup_insert_eq|by rewrite lookup_insert_ne].
Qed.
(** The ghost of a session: the payment it places a hold on, and whether it has taken the
    payment out of the archive. *)
Definition targets (ls : list (option (string * bool))) : list string := omap (fmap fst) ls.

(** Every restored payment was taken out by a session; no two sessions have one target. *)
Definition restorers (s : retention_state) (ls : list (option (string * bool))) : Prop :=
  NoDup (targets ls) ∧ ∀ id, id ∈ rt_restored s → Some (id, true) ∈ ls.

Lemma restorers_same s s' ls : rt_restored s' = rt_restored s → restorers s ls → restorers s' ls.
Proof. intros Hr [Hn Hi]. split; [done|]. by rewrite Hr. Qed.

Lemma restorers_untaken s pre post id : restorers s (pre ++ Some (id, false) :: post) → id ∉ rt_restored s.
Proof.
  intros [Hn Hi] Hid. apply Hi in Hid. unfold targets in Hn. rewrite omap_app in Hn. cbn in Hn. apply NoDup_app in Hn as (_ & Hn1 & Hn2).
  apply NoDup_cons in Hn2 as [Hn2 _]. apply elem_of_app in Hid as [Hid|Hid]; [|apply elem_of_cons in Hid as [Hid|Hid]; [done|]].
  - apply (Hn1 id); [|by left]. apply list_elem_of_omap. by eexists.
  - apply Hn2, list_elem_of_omap. by eexists.
Qed.

Lemma restorers_take s s' pre post id : rt_restored s' = {[id]} ∪ rt_restored s →
  restorers s (pre ++ Some (id, false) :: post) → restorers s' (pre ++ Some (id, true) :: post).
Proof.
  intros Hr [Hn Hi]. split; [unfold targets in *; rewrite omap_app in *; exact Hn|]. rewrite Hr. intros id' [->%elem_of_singleton|H]%elem_of_union; [set_solver|].
  apply Hi in H. set_solver.
Qed.

#[local] Abbreviation session p Φ s l := (wp (retention_handle fault) restorers advances (λ _, True) p Φ (λ _ _ _, True) s l).

Lemma wp_event {X} (c : retention_event X) (Φ : retention_state → option (string * bool) → X → Prop) s l :
  harmless c = true →
  (∀ now s1 s2 x, advances s s1 → (∀ id, l = Some (id, false) → id ∉ rt_restored s1) → retention_handle fault _ c now s1 = (s2, Ok x) →
   advances s1 s2 → Φ s2 l x) →
  session (call c) Φ s l.
Proof.
  intros Hc HΦ. apply wp_call. intros now s1 pre post _ Hg Hi. destruct (answers (handler := retention_handle fault) _ c now s1) as (s2 & x & Hh).
  destruct (harmless_advances _ c now s1 Hc) as [Ha Hr]. rewrite Hh in Ha, Hr. cbn [fst] in Ha, Hr. exists s2, x, l.
  split_and!; [exact Hh|exact Ha|by eapply restorers_same|]. refine (HΦ now s1 s2 x Hg _ Hh Ha). intros id ->. by eapply restorers_untaken.
Qed.

Lemma wp_statement {X} (c : retention_event (result X)) (Φ : retention_state → option (string * bool) → X → Prop) s l :
  harmless c = true →
  (∀ now s1 s2 x, advances s s1 → (∀ id, l = Some (id, false) → id ∉ rt_restored s1) → retention_handle fault _ c now s1 = (s2, Ok (Ok x)) →
   advances s1 s2 → Φ s2 l x) →
  session (ask c) Φ s l.
Proof. intros Hc HΦ. apply wp_bind, wp_event; [done|]. intros now s1 s2 [x|e] Hg Hun Hh Ha; [by eapply HΦ|exact I]. Qed.

Lemma wp_harmless {X} (c : retention_event (result X)) (Φ : retention_state → option (string * bool) → X → Prop) s l :
  harmless c = true → (∀ s x, Φ s l x) → session (ask c) Φ s l.
Proof. intros Hc HΦ. by apply wp_statement. Qed.

Lemma wp_restore id staged s : (staged = None → backed s id) → session (ask (COMMIT_RESTORE id staged)) (λ _ _ _, True) s (Some (id, false)).
Proof.
  intros Hb. apply wp_bind, wp_call. intros now s1 pre post _ Hg Hi. cbn [retention_handle]. cbv zeta. pose proof (advances_calls s1 (S (rt_calls s1))) as H0.
  assert (restorers (s1 {{ rt_calls := S (rt_calls s1) }}) (pre ++ Some (id, false) :: post)) as Hi0 by by eapply restorers_same, Hi.
  destruct staged as [row|]; [destruct (rt_live s1 !! id) as [old|]|].
  - eexists _, _, _. split_and!; [reflexivity|exact H0|exact Hi0|exact I].
  - pose proof (advances_restore s1 id row (S (rt_calls s1))) as H1. destruct (fault (rt_calls s1)); cbn [faulty];
      eexists _, _, _; (split_and!; [reflexivity|first [exact H0|exact H1]|first [exact Hi0|eapply restorers_take; [|exact Hi]; by destruct s1]|exact I]).
  - pose proof (advances_drop s1 id (S (rt_calls s1)) (ad_backed _ _ Hg _ (Hb eq_refl))) as H1. destruct (fault (rt_calls s1)); cbn [faulty];
      eexists _, _, _; (split_and!; [reflexivity|first [exact H0|exact H1]|first [exact Hi0|eapply restorers_same; [|exact Hi]; by destruct s1]|exact I]).
Qed.

Lemma wp_placeHold id s : session (LegalHoldService.placeHold id) (λ _ _ _, True) s (Some (id, false)).
Proof.
  apply wp_bind, wp_harmless; [done|]. intros s1 live. destruct live; [by apply wp_bind, wp_harmless|].
  apply wp_bind, wp_statement; [done|]. intros now s2 s3 archived _ _ Ha _. assert (archived = true → is_Some (rt_archive s3 !! id)) as Harch.
  { cbn [retention_handle] in Ha. cbv zeta in Ha. destruct (fault (rt_calls s2)); cbn [faulty] in Ha; [|discriminate Ha..]. injection Ha as <- <-. by destruct s2; cbn; destruct (_ !! id). }
  clear Ha. destruct archived; [|exact I]. specialize (Harch eq_refl). apply wp_bind, wp_statement; [done|]. intros now' s4 s5 staged H34 Hun Hc H45.
  apply wp_bind. eapply wp_mono; [..|apply wp_restore]; [done|done|]. intros ->. apply (ad_backed _ _ H45).
  destruct (ad_archive _ _ H34 id Harch) as [Hs|[Hs|Hs]]; [|exact Hs|by destruct (Hun id eq_refl)].
  cbn [retention_handle] in Hc. cbv zeta in Hc. destruct (fault (rt_calls s4)); cbn [faulty] in Hc; [|discriminate Hc..]. injection Hc as _ Hc.
  destruct Hs as [row Hrow]. rewrite Hrow in Hc. discriminate Hc.
Qed.

Lemma wp_delete ids lids s l (Φ : retention_state → option (string * bool) → unit → Prop) :
  (∀ id, id ∈ ids → backed s id) → (∀ id, id ∈ lids → backedLedger s id) → (∀ s x, Φ s l x) → session (ask (DELETE_ARCHIVED ids lids)) Φ s l.
Proof.
  intros Hb Hbl HΦ. apply wp_bind, wp_call. intros now s1 pre post _ Hg Hi. cbn [retention_handle]. cbv zeta. pose proof (advances_calls s1 (S (rt_calls s1))) as H0.
  pose proof (advances_delete s1 ids lids (S (rt_calls s1)) (λ id H, ad_backed _ _ Hg _ (Hb id H)) (λ id H, ad_backedLedger _ _ Hg _ (Hbl id H))) as H1.
  destruct (fault (rt_calls s1)); cbn [faulty]; eexists _, _, l;
    (split_and!; [reflexivity|first [exact H0|exact H1]|eapply restorers_same; [|exact Hi]; by destruct s1|first [apply HΦ|exact I]]).
Qed.

Lemma wp_deletion years s l : session (DeletionJob.runDeletion years true) (λ _ _ _, True) s l.
Proof.
  apply wp_bind, wp_harmless; [done|]. intros s1 ps. apply wp_bind, wp_harmless; [done|]. intros s2 es. cbv zeta. destruct (_ || _); [|exact I].
  apply wp_bind. cbn beta iota. apply wp_bind, wp_statement; [done|]. intros now s3 s4 file _ _ Hb _. apply wp_bind, wp_delete; [| |done].
  all: cbn [retention_handle] in Hb; cbv zeta in Hb; destruct (fault (rt_calls s3)); cbn [faulty] in Hb; [|discriminate Hb..]; injection Hb as <- _.
  all: intros id Hid; exists (mkBackup ps es); (split; [destruct s3; cbn; apply elem_of_app; right; by left|exact Hid]).
Qed.

(** The payment a session places a hold on. *)
Definition holdTarget (q : retention_request) : option string := match q with PLACE_HOLD id => Some id | _ => None end.

Definition ghost (q : retention_request) : option (string * bool) := (λ id, (id, false)) <$> holdTarget q.

Lemma wp_session days years q s : session (serve_retention days years true q) (λ _ _ _, True) s (ghost q).
Proof.
  destruct q; cbn [serve_retention ghost holdTarget fmap option_fmap option_map]; apply wp_bind.
  - unfold ArchivingJob.main, ArchivingJob.archivePayments, ArchivingJob.archiveLedgerOutbox. repeat (apply wp_bind || (apply wp_harmless; [done|intros]) || exact I).
  - apply wp_deletion.
  - apply wp_placeHold.
  - unfold LegalHoldService.releaseHold. apply wp_bind, wp_harmless; [done|]. intros s1 row. destruct row; [|exact I]. by apply wp_bind, wp_harmless.
  - by apply wp_event.
  - by apply wp_event.
  - by apply wp_event.
  - by apply wp_event.
Qed.
Lemma sessions_start days years qs s : NoDup (omap holdTarget qs) → rt_restored s = ∅ →
  restorers s (ghost <$> qs) ∧
  Forall2 (keeps_going (retention_handle fault) restorers advances (λ _, True) (λ _ _ _, True) (λ _ _ _, True) s) (serve_retention days years true <$> qs) (ghost <$> qs).
Proof.
  intros Hn Hr. split; [split|].
  - unfold targets. replace (omap (fmap fst) (ghost <$> qs)) with (omap holdTarget qs); [done|]. clear. induction qs as [|[] qs IH]; cbn; congruence.
  - rewrite Hr. set_solver.
  - rewrite Forall2_fmap. apply Forall_Forall2_diag, Forall_true. intros q. exists s. split; [reflexivity|apply wp_session].
Qed.

(** C38: records leave the database only with a backup. Under every interleaving of archiving
    jobs, deletion jobs that make backups, legal holds placed on different payments and
    released, and the rest of the system writing payments, ledger events, disputes and
    reconciliation runs, with any statement failing before or after its effect: what was in
    the live table, the archive or a backup at some instant of the run is in one of them
    ever after. So for payments, so for ledger events. *)
Theorem records_kept days years now s qs c c' :
  NoDup (omap holdTarget qs) → rt_restored s = ∅ →
  rtc (interleave (retention_handle fault)) (mkConfig now s (serve_retention days years true <$> qs)) c → rtc (interleave (retention_handle fault)) c c' →
  (∀ id, kept (memory c) id → kept (memory c') id) ∧ (∀ id, keptLedger (memory c) id → keptLedger (memory c') id).
Proof.
  intros Hn Hr Hrun Hrun'. destruct (sessions_start days years qs s Hn Hr) as [Hi Hall].
  destruct (pool_run (retention_handle fault) restorers advances (λ _, True) _ _ _ _ _ Hrun ltac:(done) Hi Hall) as (ls & Hi' & Hall').
  pose proof (pool_grows (retention_handle fault) restorers advances (λ _, True) _ _ _ _ _ Hrun' ltac:(done) Hi' Hall') as Ha.
  split; [exact (ad_kept _ _ Ha)|exact (ad_keptLedger _ _ Ha)].
Qed.
End pool.

(** ** One session after the other *)

Section holds.
Context (fault : nat → Fault) (days years : Z) (backupRequired : bool) (id : string).

(** Live, under a hold. *)
Definition underHold (p : Payment.t) (s : retention_state) : Prop := rt_live s !! id = Some (mkPaymentRow p true).

(** Statements that leave a row under a hold alone. *)
Definition spares {X} (c : retention_event X) : Prop :=
  match c with
  | COMMIT_ARCHIVE staged => id ∉ staged.*1
  | SET_HOLD id' hold => id' ≠ id ∨ hold = true
  | WRITE_PAYMENT p => Payment._id p ≠ id
  | _ => True
  end.

Lemma setHold_keeps p id' hold live : id' ≠ id ∨ hold = true → live !! id = Some (mkPaymentRow p true) → setHold id' hold live !! id = Some (mkPaymentRow p true).
Proof. intros Hor Hl. unfold setHold. rewrite lookup_alter. case_decide as He; [|done]. subst. rewrite Hl. by destruct Hor as [H| ->]. Qed.

Lemma removeAll_keeps {V} (v : V) ids live : id ∉ ids → live !! id = Some v → removeAll ids live !! id = Some v.
Proof. intros Hn Hl. rewrite removeAll_lookup. by case_decide. Qed.

Lemma inserted_subset {V} (staged : list (string * V)) archive : id ∉ staged.*1 → id ∉ (inserted staged archive).*1.
Proof. intros Hn (x & -> & Hx)%list_elem_of_fmap. unfold inserted in Hx. apply list_elem_of_filter in Hx as [_ Hx]. apply Hn, list_elem_of_fmap. by exists x. Qed.

Lemma spares_keeps X (c : retention_event X) p now s : spares c → underHold p s → underHold p (retention_handle fault X c now s).1.
Proof.
  unfold underHold. intros Hc Hs. destruct s as [live archive ledger al ds rs bs re ca].
  destruct c; cbn [spares] in Hc; cbn [retention_handle] in *; cbv zeta; cbn in Hs; unfold faulty; try (destruct (fault _)); cbn; try exact Hs.
  all: try (apply removeAll_keeps; [by apply inserted_subset|exact Hs]).
  all: try (by apply setHold_keeps).
  all: try (unfold writePayment; by rewrite lookup_insert_ne).
  all: destruct staged as [row|], (live !! id0) eqn:El; cbn; try exact Hs; rewrite lookup_insert_ne; try exact Hs; congruence.
Qed.

Lemma alone_spares {X} (c : retention_event (result X)) p (Q : X → Prop) :
  spares c → (∀ now s s' x, underHold p s → retention_handle fault _ c now s = (s', Ok (Ok x)) → Q x) → alone (retention_handle fault) (underHold p) (ask c) Q.
Proof.
  intros Hc HQ. apply (alone_ask (retention_handle fault) (underHold p)). intros now s s' r Hs Hh. pose proof (spares_keeps _ c p now s Hc Hs) as H. rewrite Hh in H. split; [exact H|].
  intros x ->. exact (HQ now s s' x Hs Hh).
Qed.

Lemma alone_archivePayments p : alone (retention_handle fault) (underHold p) (ArchivingJob.archivePayments days) (λ _, True).
Proof.
  unfold ArchivingJob.archivePayments. apply alone_then; [by apply alone_spares|]. intros now. apply alone_then; [by apply alone_spares|]. intros n.
  eapply (alone_bind _ _ _ _ (λ staged, id ∉ staged.*1)).
  - apply alone_spares; [done|]. intros now' s s' staged Hs Hh. cbn [retention_handle] in Hh. cbv zeta in Hh. destruct (fault (rt_calls s)); cbn [faulty] in Hh; [|discriminate Hh..].
    injection Hh as _ <-. rewrite <- list_fmap_compose. change (id ∉ (inserted (filter (λ x, archivable now days s x.1 x.2 = true) (map_to_list (rt_live s))) (rt_archive s)).*1).
    apply inserted_subset. intros ([i row] & He & Hx)%list_elem_of_fmap. apply list_elem_of_filter in Hx as [Hx Hin]. unfold underHold in Hs. cbn in *.
    apply elem_of_map_to_list in Hin. rewrite He, Hin in Hs. injection Hs as ->. unfold archivable in Hx. cbn in Hx. rewrite andb_false_r in Hx. discriminate Hx.
  - intros staged Hn. apply alone_then; [by apply alone_spares|]. intros m. by apply alone_ret.
Qed.

Lemma alone_placeHold p id' : alone (retention_handle fault) (underHold p) (LegalHoldService.placeHold id') (λ _, True).
Proof.
  unfold LegalHoldService.placeHold. apply alone_then; [by apply alone_spares|]. intros live. destruct live.
  - apply alone_then; [apply alone_spares; [by right|done]|]. intros u. by apply alone_ret.
  - apply alone_then; [by apply alone_spares|]. intros archived. destruct archived; [|apply alone_fail]. apply alone_then; [by apply alone_spares|]. intros staged.
    apply alone_then; [by apply alone_spares|]. intros u. by apply alone_ret.
Qed.

Lemma alone_releaseHold p id' : id' ≠ id → alone (retention_handle fault) (underHold p) (LegalHoldService.releaseHold id') (λ _, True).
Proof.
  intros Hne. unfold LegalHoldService.releaseHold. apply alone_then; [by apply alone_spares|]. intros row. destruct row; [|apply alone_fail].
  apply alone_then; [apply alone_spares; [by left|done]|]. intros u. by apply alone_ret.
Qed.

(** What a request writes of the payment. *)
Definition rewritten (q : retention_request) (p : Payment.t) : Payment.t :=
  match q with PAYMENT p' => if String.eqb (Payment._id p') id then p' else p | _ => p end.

Lemma write_spares (c : retention_event unit) p now s :
  spares c → underHold p s → underHold p (run (retention_handle fault) (_ ← call c; mret (@None LegalHoldResult)) now s).1.
Proof.
  intros Hc Hs. pose proof (spares_keeps _ c p now s Hc Hs) as H. rewrite run_bind_prog, run_call. by destruct (retention_handle fault unit c now s) as [s' [u|e]].
Qed.

Lemma held_step q p now s : q ≠ RELEASE_HOLD id → underHold p s →
  underHold (rewritten q p) (run (retention_handle fault) (serve_retention days years backupRequired q) now s).1.
Proof.
  intros Hq Hs. destruct q; cbn [serve_retention rewritten].
  - refine (proj1 (alone_then _ _ _ _ (λ _, True) _ (λ _, alone_ret _ _ _ _ I) now s Hs)). unfold ArchivingJob.main. apply alone_then; [apply alone_archivePayments|].
    intros _. apply alone_then; [|intros; by apply alone_ret]. unfold ArchivingJob.archiveLedgerOutbox.
    repeat (apply alone_then; [by apply alone_spares|intros]). by apply alone_ret.
  - refine (proj1 (alone_then _ _ _ _ (λ _, True) _ (λ _, alone_ret _ _ _ _ I) now s Hs)). unfold DeletionJob.runDeletion. apply alone_then; [by apply alone_spares|].
    intros ps. apply alone_then; [by apply alone_spares|]. intros es. cbv zeta. case_match; [|by apply alone_ret]. apply alone_then.
    + destruct backupRequired; [|by apply alone_ret]. apply alone_then; [by apply alone_spares|intros; by apply alone_ret].
    + intros file. apply alone_then; [by apply alone_spares|intros; by apply alone_ret].
  - refine (proj1 (alone_then _ _ _ _ (λ _, True) _ (λ _, alone_ret _ _ _ _ I) now s Hs)). apply alone_placeHold.
  - refine (proj1 (alone_then _ _ _ _ (λ _, True) _ (λ _, alone_ret _ _ _ _ I) now s Hs)). apply alone_releaseHold. congruence.
  - destruct (String.eqb_spec (Payment._id p0) id) as [He|Hne]; [|by apply write_spares]. destruct s as [live archive ledger al ds rs bs re ca].
    unfold underHold in *. cbn in Hs |- *. unfold writePayment. by rewrite He, lookup_insert_eq, Hs.
  - by apply write_spares.
  - by apply write_spares.
  - by apply write_spares.
Qed.

(** The payment after a history. *)
Definition lastWritten (l : list (Date * retention_request)) (p : Payment.t) : Payment.t := foldl (λ p x, rewritten x.2 p) p l.

Lemma held_history l p s : RELEASE_HOLD id ∉ l.*2 → underHold p s → underHold (lastWritten l p) (retention_history fault days years backupRequired l s).
Proof.
  revert p s. induction l as [|[now q] l IH]; intros p s Hn Hs; [done|]. cbn [retention_history lastWritten foldl snd]. rewrite fmap_cons in Hn.
  apply not_elem_of_cons in Hn as [Hq Hn]. apply IH; [done|]. apply held_step; [intros ->; by apply Hq|done].
Qed.

(** Where a hold finds the payment, and what it leaves of it. *)
Definition foundAt (s : retention_state) (location : HoldLocation) (p : Payment.t) : Prop :=
  match location with
  | LIVE => pr_payment <$> rt_live s !! id = Some p
  | RESTORED_FROM_ARCHIVE => rt_live s !! id = None ∧ (archivedColumns ∘ pr_payment) <$> rt_archive s !! id = Some p
  end.

Lemma placeHold_holds now s s' r : run (retention_handle fault) (LegalHoldService.placeHold id) now s = (s', Ok r) →
  lh_id r = id ∧ lh_legalHold r = true ∧ ∃ p, foundAt s (lh_location r) p ∧ underHold p s'.
Proof.
  destruct s as [live archive ledger al ds rs bs re ca]. unfold underHold. intros H. cbn in H. destruct (fault ca); cbn in H; [|discriminate H..].
  destruct (live !! id) as [row|] eqn:El; cbn in H.
  - destruct (fault (S ca)); cbn in H; [|discriminate H..]. injection H as <- <-. cbn. split_and!; [done..|]. exists (pr_payment row). rewrite El. split; [done|].
    unfold setHold. by rewrite lookup_alter_eq, El.
  - destruct (fault (S ca)); cbn in H; [|discriminate H..]. destruct (archive !! id) as [row|] eqn:Ea; cbn in H; [|discriminate H].
    destruct (fault (S (S ca))); cbn in H; [|discriminate H..]. rewrite Ea in H. cbn in H. rewrite El in H. destruct (fault (S (S (S ca)))); cbn in H; [|discriminate H..].
    injection H as <- <-. cbn. split_and!; [done..|]. exists (archivedColumns (pr_payment row)). rewrite Ea, lookup_insert_eq. done.
Qed.

(** C39: a legal hold holds. When placing a hold has answered, the payment is in the live table
    under the hold, as it was there or as it was in the archive; over any history of
    requests that run one after the other, each at any time and with any statement failing,
    in which this hold is not released, it stays there under the hold, and is what the
    payment service last wrote. *)
Theorem held_records_stay now s s1 r l :
  run (retention_handle fault) (LegalHoldService.placeHold id) now s = (s1, Ok r) → RELEASE_HOLD id ∉ l.*2 →
  ∃ p, foundAt s (lh_location r) p ∧ rt_live (retention_history fault days years backupRequired l s1) !! id = Some (mkPaymentRow (lastWritten l p) true).
Proof.
  intros Hp Hn. destruct (placeHold_holds now s s1 r Hp) as (_ & _ & p & Hf & Hs). exists p. split; [exact Hf|]. by apply held_history.
Qed.
End holds.

(** ** Concrete histories *)

Definition noFault (n : nat) : Fault := Works.

(** A charge of 2026-01-15 with tax collected, paid since. *)
Definition JANUARY_15 : Date := JsDate.UTC 2026 0 15.
Definition payment_of (id : string) : Payment.t :=
  (Payment.create JANUARY_15 id (Money.mk 10000 (Currency.mk "USD" 2) None) id (mkPaymentMetadata "m_1" None None None None None) None None None)
    {{ Payment._status := SUCCEEDED; Payment._taxRecord := Some (Tax.mkTaxRecord "DE" "BIN" "1900" "USD" JANUARY_15); Payment._domainEvents := [] }}.
Definition event_of (id : string) : LedgerOutboxEvent.t :=
  LedgerOutboxEvent.mk id "pay_1" "CHARGE" [] LedgerOutboxEvent.PUBLISHED JANUARY_15 (Some JANUARY_15) 0 None.

Definition paid (id : string) : payments := {[ id := mkPaymentRow (payment_of id) false ]}.
Definition database : retention_state := mkRetentionState (paid "pay_1") (paid "pay_2") {[ "ev_1"%string := event_of "ev_1" ]} ∅ [] [] [] ∅ 0.

Definition played (now : Date) (turns : list nat) (s : retention_state) (qs : list retention_request) : config (option LegalHoldResult) :=
  schedule (retention_handle noFault) turns (mkConfig now s (serve_retention 180 8 true <$> qs)).

Definition NINE_YEARS_LATER : Date := JsDate.UTC 2035 0 16.
Definition NEW_YEAR : Date := JsDate.UTC 2027 0 1.

(** Nine years later one payment is archived, backed up and deleted, and the other taken out
    of the archive. *)
Definition three_jobs : list retention_request := [ARCHIVE; DELETE; PLACE_HOLD "pay_2"].
Definition three_turns : list nat := replicate 8 0%nat ++ [2; 2; 2; 2]%nat ++ replicate 4 1%nat.

Lemma played_reaches now turns s qs : rtc (interleave (retention_handle noFault)) (mkConfig now s (serve_retention 180 8 true <$> qs)) (played now turns s qs).
Proof. apply schedule_reaches. Qed.

Lemma records_kept_witness :
  let c' := played NINE_YEARS_LATER three_turns database three_jobs in
  rt_archive (memory c') = ∅ ∧ kept (memory c') "pay_1" ∧ kept (memory c') "pay_2" ∧ keptLedger (memory c') "ev_1".
Proof.
  cbv zeta. split; [vm_compute; reflexivity|].
  destruct (records_kept noFault 180 8 NINE_YEARS_LATER database three_jobs (mkConfig NINE_YEARS_LATER database (serve_retention 180 8 true <$> three_jobs))
              (played NINE_YEARS_LATER three_turns database three_jobs)) as [Hp Hl].
  - apply (bool_decide_unpack _). vm_compute. exact I.
  - reflexivity.
  - apply rtc_refl.
  - apply played_reaches.
  - split; [|split].
    + apply Hp. left. exists (mkPaymentRow (payment_of "pay_1") false). reflexivity.
    + apply Hp. right. left. exists (mkPaymentRow (payment_of "pay_2") false). reflexivity.
    + apply Hl. left. exists (event_of "ev_1"). reflexivity.
Defined.

(** A hold on the archived payment, the jobs nine years later, a refund in between. *)
Definition refunded : Payment.t := (payment_of "pay_2") {{ Payment._status := REFUNDED }}.
Definition later_requests : list (Date * retention_request) :=
  [(NEW_YEAR, ARCHIVE); (NEW_YEAR, PAYMENT refunded); (NEW_YEAR, RELEASE_HOLD "pay_1"); (NINE_YEARS_LATER, ARCHIVE); (NINE_YEARS_LATER, DELETE)].

Lemma hold_answered : ∃ s1, run (retention_handle noFault) (LegalHoldService.placeHold "pay_2") NEW_YEAR database = (s1, Ok (mkLegalHoldResult "pay_2" true RESTORED_FROM_ARCHIVE)).
Proof. eexists. vm_compute. reflexivity. Qed.

Lemma held_records_stay_witness : ∃ s1,
  run (retention_handle noFault) (LegalHoldService.placeHold "pay_2") NEW_YEAR database = (s1, Ok (mkLegalHoldResult "pay_2" true RESTORED_FROM_ARCHIVE)) ∧
  rt_live (retention_history noFault 180 8 true later_requests s1) !! "pay_2"%string = Some (mkPaymentRow refunded true).
Proof.
  destruct hold_answered as (s1 & H1). exists s1. split; [exact H1|].
  destruct (held_records_stay noFault 180 8 true "pay_2" NEW_YEAR database s1 _ later_requests H1) as (p & _ & Hl).
  - intros Hin. repeat (apply elem_of_cons in Hin as [Hin|Hin]; [discriminate Hin|]). by apply not_elem_of_nil in Hin.
  - exact Hl.
Defined.

(** *** What interleavings lose *)

(** The archiving job copies the rows it has selected and deletes them by id in a later
    statement. A hold placed in between is answered, and the payment is in the archive
    without it. *)
Lemma hold_lost_while_archiving :
  let c := played NEW_YEAR ([0; 0; 0; 1; 1; 0])%nat database [ARCHIVE; PLACE_HOLD "pay_1"] in
  pool c !! 1%nat = Some (Ret (Some (mkLegalHoldResult "pay_1" true LIVE))) ∧
  rt_live (memory c) !! "pay_1"%string = None ∧ pr_legalHold <$> rt_archive (memory c) !! "pay_1"%string = Some false.
Proof. vm_compute. split_and!; reflexivity. Qed.

(** So is a refund written in between: the archive says the payment succeeded. *)
Lemma refund_lost_while_archiving :
  let c := played NEW_YEAR ([0; 0; 0; 1; 0])%nat database [ARCHIVE; PAYMENT ((payment_of "pay_1") {{ Payment._status := REFUNDED }})] in
  rt_live (memory c) !! "pay_1"%string = None ∧ Payment._status ∘ pr_payment <$> rt_archive (memory c) !! "pay_1"%string = Some SUCCEEDED.
Proof. vm_compute. split_and!; reflexivity. Qed.

(** Two holds on one archived payment: the one that copies nothing back deletes from the
    archive what is there by then. With a release and an archiving run before that, the
    payment is nowhere, with no backup, and the hold is answered. *)
Lemma second_hold_deletes :
  let c := played NEW_YEAR ([0; 0] ++ [1; 1; 1; 1] ++ [0] ++ [2; 2] ++ [3; 3; 3; 3] ++ [0])%nat database
             [PLACE_HOLD "pay_2"; PLACE_HOLD "pay_2"; RELEASE_HOLD "pay_2"; ARCHIVE] in
  pool c !! 0%nat = Some (Ret (Some (mkLegalHoldResult "pay_2" true RESTORED_FROM_ARCHIVE))) ∧
  rt_live (memory c) !! "pay_2"%string = None ∧ rt_archive (memory c) !! "pay_2"%string = None ∧ rt_backups (memory c) = [].
Proof. vm_compute. split_and!; reflexivity. Qed.

(** *** What the archive does not have *)

(** A payment that was archived and put under a hold has lost the tax that was collected. *)
Lemma archive_forgets_tax :
  let s := retention_history noFault 180 8 true [(NEW_YEAR, ARCHIVE); (NEW_YEAR, PLACE_HOLD "pay_1")] database in
  (Payment._taxRecord ∘ pr_payment) <$> rt_live database !! "pay_1"%string = Some (Some (Tax.mkTaxRecord "DE" "BIN" "1900" "USD" JANUARY_15)) ∧
  (Payment._taxRecord ∘ pr_payment) <$> rt_live s !! "pay_1"%string = Some None.
Proof. vm_compute. split; reflexivity. Qed.

(** The statement of a year reads the live ledger only: in the January in which the 1099-K of
    2026 is made, a charge of January 2026 has been archived. *)
Lemma archived_charge_unreported :
  let year l := findCreatedBetween (JsDate.UTC 2026 0 1) (JsDate.UTC 2027 0 1) (map_to_list l).*2 in
  year (rt_ledger database) = [event_of "ev_1"] ∧ year (rt_ledger (retention_history noFault 180 8 true [(NEW_YEAR, ARCHIVE)] database)) = [].
Proof. vm_compute. split; reflexivity. Qed.
